(* ===== verification/_CoqProject ===== *)
-Q . S2P
Prelude.v
Utf8.v
Integers.v
Json.v
JsonReference.v
JsonBuilder.v
JsonFields.v
Base64.v
TlCodec.v
SeqProcessors.v
BinlogEvent.v
BinlogProcessor.v
Binlog.v
EventLog.v
BinlogKeyValue.v
TQueue.v
TQueueBinlog.v
HashUtils.v
FlatHashTable.v
Heap.v
MultiTimeout.v
Container.v
ChainScheduler.v
ChainTasks.v
ChainRuns.v
ChainClient.v
SequenceDispatcher.v
SequenceRuns.v
SingleSequence.v
AuthData.v
Ids.v
OrderedMessages.v
MessageHistory.v
FileBitmask.v
PartsManager.v
PartsTransfer.v
PartsResume.v
