(* ===== verification/Prelude.v ===== *)
(** * Verification of TDLib, the Telegram database library

    TDLib (src/) is a client library for the Telegram messenger.  It consists of
    utilities (tdutils), an actor scheduler (tdactor), a persistent store
    (tddb), network code (tdnet, td/mtproto), end-to-end encryption (tde2e),
    and the client itself (td/telegram), in which managers keep the chats,
    messages and files and talk to the server.  This library models the parts
    on which the data of a user depends: what is written to disk and read back
    after a crash, in which order updates are applied and queries are sent, which
    messages of the server are accepted, how bytes become objects, how a file is
    assembled from parts, and which messages of a chat are known.

    ** The files

    - Prelude (this file): the outcomes [Res] of code that can return a [Status]
      or fail a [CHECK], bounded integers and their wrap-around, lemmas on lists,
      the tactics [zbool], [zlia] and others.
    - Utf8 (tdutils/td/utils/utf8.h, utf8.cpp): the UTF-8 checker, encoder and
      decoder, lengths in characters and UTF-16 units, truncation and substrings.
    - Integers (tdutils/td/utils/StringBuilder.cpp, misc.h, misc.cpp): integers in texts.
    - Json, JsonReference, JsonBuilder, JsonFields (tdutils/td/utils/Parser.h,
      JsonBuilder.h, JsonBuilder.cpp): the decoder of JSON texts, which works in the buffer
      of the text, and a reference decoder; the encoder; access to the fields of objects.
    - Base64 (tdutils/td/utils/base64.cpp): base64, base64url and base32.
    - TlCodec (tdutils/td/utils/tl_storers.h, tl_parsers.h, tl_parsers.cpp,
      tl_helpers.h): the storers and parsers of the TL format, the overloads of
      [store] and [parse] as instances of a class, [serialize], [unserialize].
    - SeqProcessors (tdutils/td/utils/VectorQueue.h, OrderedEventsProcessor.h,
      ChangesProcessor.h, td/telegram/PtsManager.h): Modules [VectorQueue],
      [OrderedEventsProcessor], [ChangesProcessor], [PtsManager].
    - BinlogEvent (tddb/td/db/binlog/BinlogEvent.h, BinlogEvent.cpp, the reader
      of Binlog.cpp, tdutils/td/utils/Storer.h), BinlogProcessor
      (tddb/td/db/binlog/detail/BinlogEventsProcessor.h, .cpp) and Binlog
      (tddb/td/db/binlog/Binlog.h, Binlog.cpp): the log of events on disk, from
      its bytes to its image in memory.
    - EventLog (tddb/td/db/binlog/BinlogInterface.h): what the clients of a log
      rely on, a class of operations and a class of laws, with [Binlog] as an
      instance.
    - BinlogKeyValue (tddb/td/db/SeqKeyValue.h, BinlogKeyValue.h): maps, the
      second one kept in a log.
    - TQueue (tddb/td/db/TQueue.h, TQueue.cpp): queues of events over a storage,
      the class [StorageCallback] with the laws [StorageLaws], and a storage in
      memory; TQueueBinlog (the same files): a storage in a log, an instance of
      [StorageCallback] over [EventLog].
    - HashUtils (tdutils/td/utils/HashTableUtils.h) and FlatHashTable
      (tdutils/td/utils/FlatHashTable.h, FlatHashTable.cpp, MapNode.h): the hash
      tables behind most maps of the client, for any hash function.
    - Heap (tdutils/td/utils/Heap.h): heaps whose nodes know their positions;
      MultiTimeout (tdactor/td/actor/MultiTimeout.h, .cpp): any number of timeouts
      over such a heap and the one timeout that the scheduler has for an actor.
    - Container (tdutils/td/utils/Container.h): objects in slots that are used again,
      behind identifiers that are not.
    - ChainScheduler (tdutils/td/utils/ChainScheduler.h, List.h): tasks that belong to
      chains and are started in the order of each chain, with the invariant; ChainTasks
      has the lemmas on the steps of its operations, ChainRuns the theorems on sequences
      of operations, ChainClient the contract in terms of what a client sees.
    - SequenceDispatcher (td/telegram/SequenceDispatcher.cpp, td/telegram/net/NetQuery.h,
      NetQuery.cpp): the actor through which queries go to the server, the client of the
      scheduler of chains; SequenceRuns has its theorems, for every interleaving of
      queries, answers and decisions of callbacks.
    - SingleSequence (the class SequenceDispatcher of td/telegram/SequenceDispatcher.h, .cpp):
      the dispatcher of one sequence of queries, which secret chats use, with its theorems.
    - AuthData (td/mtproto/AuthKey.h, AuthData.h, AuthData.cpp, MessageId.h): keys, salts,
      time and message identifiers of a session, and the checks against replays.
    - Ids (td/telegram/UserId.h, ChatId.h, ChannelId.h, SecretChatId.h,
      DialogId.h, MessageId.h and others): identifiers of chats and messages.
    - OrderedMessages and MessageHistory (td/telegram/OrderedMessage.h,
      OrderedMessage.cpp): the treap of the known messages of a chat.  The first
      file has the code and one lemma per operation, the second one the
      theorems on sequences of operations and on the queries.
    - FileBitmask (tdutils/td/utils/misc.cpp, td/telegram/files/FileBitmask.h,
      .cpp), PartsManager, PartsTransfer and PartsResume
      (td/telegram/files/PartsManager.h, .cpp): the parts of a file that were
      transferred, and which one is next.  PartsManager has the code and one lemma
      per operation, PartsTransfer the sequences of operations of a transfer, and
      PartsResume the transfers that are resumed with an unknown size.

    ** How the code is translated

    A class is a record of its fields and a method a function from the state and
    the arguments to the new state and the result.  A method that can fail
    returns a [Res]: [Ok], [Error] for a [Status], [Panic] for a failed [CHECK],
    an unreachable case or an access outside of an object.  A loop is a
    [Fixpoint] on the data it consumes, or has fuel.  Machine integers are
    integers with the wrap-around written out ([u8], [u32], [s32], [u64]) where
    it can be reached; counters of objects in memory are unbounded.  Bytes are
    integers below 256 and strings lists of bytes.  Templates are classes or
    section variables, abstract classes are classes of operations with a class
    of laws.  Code that is not part of the sources (zlib's [crc32], the order in
    which a hash table is walked, the clock, the random numbers, callbacks) is
    a parameter.  A log message is left out unless its arguments have an effect.
    A [double] is a number of the Standard Library's [spec_float] in AuthData, its 64 bits in
    TlCodec, and of any type with an order in MultiTimeout, which only compares times.  An actor handles one
    message at a time; the messages it sends are collected, and the theorems let the world
    answer them in any order.

    ** What is shown

    - Codecs: [check_utf8] accepts exactly the encodings of scalar values;
      base64 decoding inverts encoding and accepts only canonical input;
      unserialize inverts serialize for every type built from integers, doubles,
      strings, enumerations, vectors, pairs, pointers, sets and variants, and the
      parsers stay inside of their buffer on arbitrary bytes.
    - JSON: decoding inverts encoding; decoding in the buffer of the text gives, on every
      text, the value or the error of the reference decoder and ends; skipping a value
      passes what decoding decodes; an integer is read exactly from its decimal notation.
    - Logs: an event is read back as it was written; from any prefix of a log
      that reached the disk exactly the events complete in it are replayed; any
      sequence of additions, rewrites and removals is restored by closing and
      reopening, through any number of regenerations; [BinlogKeyValue] is a map
      that survives the same.
    - Queues: every sequence of operations on a [TQueue] keeps its invariant and
      is restored by replaying the storage, in memory or in a log that is closed
      and opened again; [get], [clear] and the garbage collection do what they
      promise.
    - Containers: a hash table is a finite map under every sequence of operations
      and its searches end; a heap gives nodes with least keys; timeouts are called
      back when their time is over, in order, and none is lost between the heap
      and the scheduler; an identifier of a [Container] reaches its object or nothing,
      and none is given out twice until the container is cleared.
    - Queries: tasks are handed out in the order of their chains, none is forgotten, and
      all get finished; the dispatcher over them has every query in exactly one place,
      fails no check whatever comes back in whatever order, gets stuck with none, and
      sends each after the ones before it in its chains; so does the dispatcher of one
      sequence, within each generation.
    - Sessions: no message is accepted twice, a packet is accepted only if it is new, in
      time and of the session, and none is refused without one of the reasons of the
      code; the identifiers of sent messages increase.
    - Order: events and changes are released once each and in order
      ([OrderedEventsProcessor], [ChangesProcessor], [PtsManager]).
    - Files: an honest transfer whose streaming windows start inside of the file
      never fails a [CHECK], overflows no sum and keeps the invariant of the parts, and a transfer part by part ends with the whole file; masks of
      parts survive encoding.
    - Messages: the treap of messages refines a list of messages with
      connections and fails a check exactly when the change is not allowed; the
      queries, the history and the unread counter agree with their definitions
      on the list; identifiers of chats keep their kind.
    - Where the code does not do what it means to do, a theorem states what it
      does: truncation inside of a surrogate pair, events larger than the reader
      accepts, a batch of events that loses its end, [clear] with an emptied last
      event, streaming from the end of a file, a resumed download of unknown
      size, the identifiers at the ends of the ranges of chats, a set whose data end
      before its last key, [reset_id] at the last generation
      of a slot, and the answer to a query of a sequence without a callback.

    ** Fuel and bounds

    The readers of a log have the length of the file as fuel, as every event
    takes at least one byte; the loops over parts, runs of bits and messages
    have the number of parts, bits or messages; a search in a hash table visits
    every bucket at most once, and the loops of a heap every item; the collection
    of queues has the number of scheduled collections of the time when it starts;
    the decoder of JSON has two calls for each character and two more, as every value takes
    a character and every second call is one of a loop;
    the recursion that starts tasks has the number of slots of tasks, as every level
    makes a task active, and the dispatcher the length of the queue.  The theorems
    show that none of them runs out.  Sizes of files are at most [MAX_FILE_SIZE]
    where the code checks it.  The theorems on the dispatcher assume fewer than
    2^31 - 1 slots of tasks and fewer than 2^63 generations of a chain; those on the
    dispatcher of one sequence fewer than 2^32 - 1 queries that are not erased, and
    fewer than 2^64 - 1 queries and generations in all.

    ** What is not modelled

    Not modelled are the managers of td/telegram, which are handlers of server
    answers around generated classes (MessagesManager, UserManager, FileManager
    and others), the actors (tdactor), the connections to the server (tdnet, and what
    of td/mtproto and td/telegram/net is not named above), the cryptography (tde2e, tdutils/td/utils/crypto.cpp), the
    bindings, the conversion of generated classes to JSON, SQLite and the wrappers of it, the generators (tdtl, td/generate),
    case folding (Unicode tables) and input and output (tdutils/td/utils/port).
    Of [Binlog] the encryption of the file is a parameter. *)
From stdpp Require Export base list list_numbers gmap strings pretty numbers sorting.
From Stdlib Require Export ZArith Lia.

#[global] Open Scope Z_scope.

(** ** Outcomes

    [Ok] is a normal return, [Error] a [td::Status] error (its code and
    message), [Panic] the end of the process: a failed [CHECK], [LOG(FATAL)],
    or an access outside of an object (undefined behaviour in C++). *)
Inductive Res (A : Type) : Type :=
| Ok (a : A)
| Error (code : Z) (msg : string)
| Panic (why : string).
Arguments Ok {A} _.
Arguments Error {A} _ _.
Arguments Panic {A} _.

Definition res_bind {A B} (r : Res A) (k : A -> Res B) : Res B :=
  match r with
  | Ok a => k a
  | Error c m => Error c m
  | Panic w => Panic w
  end.

Declare Scope td_scope.
Delimit Scope td_scope with td.

Notation "'let*' x := r 'in' k" := (res_bind r (fun x => k))
  (at level 10, x pattern, r at level 100, k at level 200) : td_scope.
Notation "'CHECK!' b 'else' why 'in' k" := (if b then k else Panic why)
  (at level 10, b at level 100, why at level 100, k at level 200) : td_scope.

Definition is_ok {A} (r : Res A) : bool := match r with Ok _ => true | _ => false end.

(** ** Machine integers: a w-bit value is a [Z]; the wrap-around is written out. *)
Definition u8 (z : Z) : Z := z mod 2 ^ 8.
Definition u16 (z : Z) : Z := z mod 2 ^ 16.
Definition u32 (z : Z) : Z := z mod 2 ^ 32.
Definition u64 (z : Z) : Z := z mod 2 ^ 64.
Definition s8 (z : Z) : Z := (z + 2 ^ 7) mod 2 ^ 8 - 2 ^ 7.
Definition s32 (z : Z) : Z := (z + 2 ^ 31) mod 2 ^ 32 - 2 ^ 31.
Definition s64 (z : Z) : Z := (z + 2 ^ 63) mod 2 ^ 64 - 2 ^ 63.

Definition is_u32 (z : Z) : Prop := 0 <= z < 2 ^ 32.
Definition is_u64 (z : Z) : Prop := 0 <= z < 2 ^ 64.
Definition is_s32 (z : Z) : Prop := - 2 ^ 31 <= z < 2 ^ 31.
Definition is_s64 (z : Z) : Prop := - 2 ^ 63 <= z < 2 ^ 63.

Definition is_byte (b : Z) : Prop := 0 <= b < 256.
Abbreviation bytes := (Forall is_byte).

(** The bytes of a string literal of the source. *)
Definition lit (s : string) : list Z :=
  map (fun a => Z.of_nat (Ascii.nat_of_ascii a)) (String.list_ascii_of_string s).

Create HintDb td discriminated.
Create HintDb td_bits discriminated.

(** ** Automation *)

(** Turn the boolean tests of the code into propositions. *)
Ltac zbool :=
  repeat match goal with
  | H : (_ && _)%bool = true |- _ => apply andb_prop in H; destruct H
  | H : (_ || _)%bool = false |- _ => apply orb_false_elim in H; destruct H
  | H : negb _ = true |- _ => apply negb_true_iff in H
  | H : negb _ = false |- _ => apply negb_false_iff in H
  | H : (_ =? _) = true |- _ => apply Z.eqb_eq in H
  | H : (_ =? _) = false |- _ => apply Z.eqb_neq in H
  | H : (_ <? _) = true |- _ => apply Z.ltb_lt in H
  | H : (_ <? _) = false |- _ => apply Z.ltb_ge in H
  | H : (_ <=? _) = true |- _ => apply Z.leb_le in H
  | H : (_ <=? _) = false |- _ => apply Z.leb_gt in H
  | H : Nat.eqb _ _ = true |- _ => apply Nat.eqb_eq in H
  | H : Nat.eqb _ _ = false |- _ => apply Nat.eqb_neq in H
  | H : Nat.ltb _ _ = true |- _ => apply Nat.ltb_lt in H
  | H : Nat.ltb _ _ = false |- _ => apply Nat.ltb_ge in H
  | H : Nat.leb _ _ = true |- _ => apply Nat.leb_le in H
  | H : Nat.leb _ _ = false |- _ => apply Nat.leb_gt in H
  end.

(** Split on the condition of the first [if] or the scrutinee of the first
    [match] of the goal, keeping the equation as a proposition. *)
Ltac case_if :=
  match goal with
  | |- context [if ?b then _ else _] => let E := fresh "E" in destruct b eqn:E; zbool
  end.
Ltac case_if_in H :=
  match type of H with
  | context [if ?b then _ else _] => let E := fresh "E" in destruct b eqn:E; zbool
  end.

(** Decide a boolean test of the goal by arithmetic on the context. *)
Ltac decide_if :=
  match goal with
  | |- context [(?a =? ?b)] =>
      first [ rewrite (proj2 (Z.eqb_eq a b)) by lia | rewrite (proj2 (Z.eqb_neq a b)) by lia ]
  | |- context [(?a <? ?b)] =>
      first [ rewrite (proj2 (Z.ltb_lt a b)) by lia | rewrite (proj2 (Z.ltb_ge a b)) by lia ]
  | |- context [(?a <=? ?b)] =>
      first [ rewrite (proj2 (Z.leb_le a b)) by lia | rewrite (proj2 (Z.leb_gt a b)) by lia ]
  end.

(** Evaluate the boolean tests of the goal on closed integers. *)
Ltac eval_tests :=
  repeat match goal with
  | |- context [?t] =>
      lazymatch t with
      | (_ <? _) => idtac | (_ <=? _) => idtac | (_ =? _) => idtac
      end;
      let r := eval vm_compute in t in
      lazymatch r with true => idtac | false => idtac end; change t with r
  end; cbv iota.

(** Evaluate the powers of two with closed exponents. *)
Ltac eval_pows :=
  repeat match goal with
  | |- context [2 ^ ?e] =>
      let r := eval vm_compute in (2 ^ e) in
      lazymatch r with Zpos _ => idtac end; change (2 ^ e) with r
  | H : context [2 ^ ?e] |- _ =>
      let r := eval vm_compute in (2 ^ e) in
      lazymatch r with Zpos _ => idtac end; change (2 ^ e) with r in H
  end.

(** [lia] for goals with division and remainder by constants. *)
Ltac zlia := Z.to_euclidean_division_equations; lia.

(** ** Bit operations as arithmetic *)
Lemma land_ones_mod a n : 0 <= n -> Z.land a (2 ^ n - 1) = a mod 2 ^ n.
Proof. intros Hn. rewrite <- Z.land_ones by lia. by rewrite Z.ones_equiv. Qed.

Lemma testbit_small b n i : 0 <= n <= i -> 0 <= b < 2 ^ n -> Z.testbit b i = false.
Proof.
  intros Hn Hb. rewrite <- (Z.mod_small b (2 ^ n)) by lia.
  apply Z.mod_pow2_bits_high. lia.
Qed.

Lemma lor_disjoint_add a b n :
  0 <= n -> 0 <= b < 2 ^ n -> Z.lor (a * 2 ^ n) b = a * 2 ^ n + b.
Proof.
  intros Hn Hb.
  assert (Z.land (a * 2 ^ n) b = 0) as Hd.
  { apply Z.bits_inj'. intros i Hi. rewrite Z.land_spec, Z.bits_0.
    destruct (decide (i < n)).
    - by rewrite Z.mul_pow2_bits_low by lia.
    - rewrite (testbit_small b n i) by lia. apply andb_false_r. }
  rewrite <- Z.lxor_lor by done. by rewrite Z.add_nocarry_lxor.
Qed.

Lemma lor_field x y n k : 0 <= n -> 0 <= k -> 0 <= y < 2 ^ k ->
  Z.lor (x * 2 ^ (n + k)) (y * 2 ^ n) = (x * 2 ^ k + y) * 2 ^ n.
Proof.
  intros Hn Hk Hy. rewrite Z.pow_add_r by lia.
  replace (x * (2 ^ n * 2 ^ k)) with (x * 2 ^ k * 2 ^ n) by ring.
  rewrite <- !Z.shiftl_mul_pow2 with (n := n) by lia.
  rewrite <- Z.shiftl_lor. f_equal. by apply lor_disjoint_add.
Qed.

(** A byte-indexed fact is checked on the 256 bytes. *)
Lemma byte_forall (P : Z -> bool) :
  forallb P (map Z.of_nat (List.seq 0 256)) = true -> forall b, is_byte b -> P b = true.
Proof.
  intros H b [Hb1 Hb2]. rewrite forallb_forall in H. apply H.
  rewrite in_map_iff. exists (Z.to_nat b). rewrite in_seq. lia.
Qed.

Lemma byte_forall2 (P : Z -> Z -> bool) :
  forallb (fun a => forallb (P a) (map Z.of_nat (List.seq 0 256))) (map Z.of_nat (List.seq 0 256)) = true ->
  forall a b, is_byte a -> is_byte b -> P a b = true.
Proof.
  intros H a b Ha Hb. refine (byte_forall (P a) _ b Hb).
  exact (byte_forall (fun a => forallb (P a) _) H a Ha).
Qed.

Lemma u8_small b : is_byte b -> u8 b = b.
Proof. intros. apply Z.mod_small. exact H. Qed.

Lemma u8_byte z : is_byte (u8 z).
Proof. apply (Z.mod_pos_bound z 256). lia. Qed.

#[export] Hint Resolve u8_byte : td.

(** ** Induction by groups *)
Lemma list_ind3 {A} (P : list A -> Prop) :
  P [] -> (forall a, P [a]) -> (forall a b, P [a; b]) ->
  (forall a b c l, P l -> P (a :: b :: c :: l)) -> forall l, P l.
Proof.
  intros H0 H1 H2 H3. fix IH 1. intros [|a [|b [|c l]]]; [done | apply H1 | apply H2 | apply H3, IH].
Qed.

Lemma list_ind4 {A} (P : list A -> Prop) :
  P [] -> (forall a, P [a]) -> (forall a b, P [a; b]) -> (forall a b c, P [a; b; c]) ->
  (forall a b c d l, P l -> P (a :: b :: c :: d :: l)) -> forall l, P l.
Proof.
  intros H0 H1 H2 H3 H4. fix IH 1. intros [|a [|b [|c [|d l]]]]; [done | apply H1 | apply H2 | apply H3 | apply H4, IH].
Qed.

Lemma Forall_cons_inv {A} (P : A -> Prop) a l : Forall P (a :: l) -> P a /\ Forall P l.
Proof. by inversion 1. Qed.

(** Destruct every [Forall P (_ :: _)] hypothesis. *)
Ltac inv_Forall :=
  repeat match goal with
  | H : Forall _ (_ :: _) |- _ => apply Forall_cons_inv in H; destruct H
  | H : Forall _ [] |- _ => clear H
  end.

Ltac fa := repeat (apply Forall_cons_2; [assumption|]); first [assumption | apply Forall_nil_2].

(** Equality of two lists element by element. *)
Tactic Notation "list_eq" "by" tactic3(tac) :=
  repeat match goal with
  | |- _ :: _ = _ :: _ => apply (f_equal2 cons); [tac|]
  end; try reflexivity.

Lemma rev_replicate {A} k (x : A) : rev (replicate k x) = replicate k x.
Proof.
  induction k as [|k IH]; simpl; [done|]. rewrite IH. clear IH.
  induction k as [|k IH]; simpl; [done|]. by rewrite IH.
Qed.

(** ** Sorted lists and filters *)
Lemma sorted_NoDup l : StronglySorted Z.lt l -> NoDup l.
Proof.
  induction 1 as [|x l _ IH H]; constructor; [|done]. intros Hin. rewrite Forall_forall in H. specialize (H x Hin). lia.
Qed.

Lemma StronglySorted_sublist {A} (R : A -> A -> Prop) l l' : l' `sublist_of` l -> StronglySorted R l -> StronglySorted R l'.
Proof.
  induction 1 as [|x l1 l2 Hsub IH|x l1 l2 Hsub IH]; inversion 1; subst; auto. constructor; auto.
  rewrite Forall_forall in *. eauto using elem_of_submseteq, sublist_submseteq.
Qed.

Lemma filter_none {A} (l : list A) (P : A -> Prop) `{!forall x, Decision (P x)} : Forall (fun x => ~ P x) l -> filter P l = [].
Proof. induction 1; [done|]. by rewrite filter_cons_False. Qed.

Lemma filter_all {A} (l : list A) (P : A -> Prop) `{!forall x, Decision (P x)} : Forall P l -> filter P l = l.
Proof. induction 1; [done|]. rewrite filter_cons_True by done. by f_equal. Qed.

(** ** Little-endian object representation of integers *)
Fixpoint le_bytes (n : nat) (z : Z) : list Z :=
  match n with
  | O => []
  | S n => z mod 256 :: le_bytes n (z / 256)
  end.

Fixpoint le_val (l : list Z) : Z :=
  match l with
  | [] => 0
  | b :: l => b + 256 * le_val l
  end.

Lemma length_le_bytes n z : length (le_bytes n z) = n.
Proof. revert z. induction n; simpl; auto. Qed.

Lemma le_bytes_bytes n z : bytes (le_bytes n z).
Proof.
  revert z. induction n as [|n IH]; intros z; simpl; constructor; [|apply IH].
  apply (Z.mod_pos_bound z 256). lia.
Qed.

Lemma le_val_le_bytes n z : le_val (le_bytes n z) = z mod 2 ^ (8 * Z.of_nat n).
Proof.
  revert z. induction n as [|n IH]; intros z; [by rewrite Z.mod_1_r|].
  cbn [le_bytes le_val]. rewrite IH.
  replace (8 * Z.of_nat (S n)) with (8 + 8 * Z.of_nat n) by lia.
  rewrite Z.pow_add_r by lia. change (2 ^ 8) with 256.
  pose proof (Z.pow_pos_nonneg 2 (8 * Z.of_nat n)). rewrite Z.rem_mul_r by lia. lia.
Qed.

Lemma le_val_bound l : bytes l -> 0 <= le_val l < 2 ^ (8 * Z.of_nat (length l)).
Proof.
  induction 1 as [|b l Hb H IH]; [done|]. cbn [le_val length]. unfold is_byte in Hb.
  replace (8 * Z.of_nat (S (length l))) with (8 + 8 * Z.of_nat (length l)) by lia.
  rewrite Z.pow_add_r by lia. lia.
Qed.

Lemma le_bytes_le_val l : bytes l -> le_bytes (length l) (le_val l) = l.
Proof.
  induction 1 as [|b l Hb H IH]; [done|]. cbn [le_val le_bytes length]. unfold is_byte in Hb.
  rewrite (Z.mul_comm 256), Z.mod_add, Z.mod_small, Z.div_add, Z.div_small by lia. by rewrite Z.add_0_l, IH.
Qed.

Lemma s32_small z : is_s32 z -> s32 z = z.
Proof. unfold is_s32, s32. intros. rewrite Z.mod_small; lia. Qed.
Lemma s64_small z : is_s64 z -> s64 z = z.
Proof. unfold is_s64, s64. intros. rewrite Z.mod_small; lia. Qed.
Lemma u32_small z : is_u32 z -> u32 z = z.
Proof. unfold is_u32, u32. intros. rewrite Z.mod_small; lia. Qed.
Lemma u64_small z : is_u64 z -> u64 z = z.
Proof. unfold is_u64, u64. intros. rewrite Z.mod_small; lia. Qed.
Lemma s32_range z : is_s32 (s32 z).
Proof. unfold is_s32, s32. pose proof (Z.mod_pos_bound (z + 2 ^ 31) (2 ^ 32)). lia. Qed.
Lemma s64_range z : is_s64 (s64 z).
Proof. unfold is_s64, s64. pose proof (Z.mod_pos_bound (z + 2 ^ 63) (2 ^ 64)). lia. Qed.
Lemma s32_mod z : s32 (z mod 2 ^ 32) = s32 z.
Proof. unfold s32. by rewrite Zplus_mod_idemp_l. Qed.
Lemma s64_mod z : s64 (z mod 2 ^ 64) = s64 z.
Proof. unfold s64. by rewrite Zplus_mod_idemp_l. Qed.
Lemma u32_s32 z : u32 (s32 z) = u32 z.
Proof. unfold u32, s32. rewrite Zminus_mod_idemp_l. f_equal. lia. Qed.
Lemma u64_s64 z : u64 (s64 z) = u64 z.
Proof. unfold u64, s64. rewrite Zminus_mod_idemp_l. f_equal. lia. Qed.

(** ** Computations that returned *)
Lemma bind_Ok {A B} (r : Res A) (k : A -> Res B) b :
  res_bind r k = Ok b -> exists a, r = Ok a /\ k a = Ok b.
Proof. destruct r; simpl; try done. eauto. Qed.

(** Follow a computation that returned, one bind at a time. *)
Ltac inv_binds :=
  repeat match goal with
  | H : res_bind _ _ = Ok _ |- _ =>
      let a := fresh "a" in let E := fresh "E" in
      apply bind_Ok in H as (a & E & H)
  | H : (if _ then _ else Panic _) = Ok _ |- _ => case_if_in H; [|discriminate H]
  | H : (if _ then _ else _) = Ok _ |- _ => case_if_in H
  | a : (_ * _)%type |- _ => destruct a
  | H : Ok _ = Ok _ |- _ => injection H as H; subst
  end.

#[export] Hint Resolve le_bytes_bytes s32_range s64_range : td.
