(* ===== verification/Utf8.v ===== *)
(** * UTF-8 (tdutils/td/utils/utf8.h, utf8.cpp)

    Strings are lists of bytes.  [check_utf8] reads the terminating NUL of a
    [CSlice], so its model runs on [str ++ [0]] and a read past that byte is a
    [Panic].  The theorems relate the checker, the encoder and the decoder:
    the accepted strings are exactly the encodings of sequences of Unicode
    scalar values, and lengths and truncations count what they promise. *)
From S2P Require Import Prelude.
Local Open Scope td_scope.

(** ** Definitions *)

Definition is_utf8_character_first_code_unit (c : Z) : bool :=
  negb (Z.land c 0xC0 =? 0x80).

Definition utf8_length (str : list Z) : Z :=
  foldl (fun result c => result + Z.b2z (is_utf8_character_first_code_unit c)) 0 str.

Definition append_utf8_character (str : list Z) (code : Z) : list Z :=
  if code <=? 0x7f then
    str ++ [u8 code]
  else if code <=? 0x7ff then
    str ++ [u8 (Z.lor 0xc0 (Z.shiftr code 6));
            u8 (Z.lor 0x80 (Z.land code 0x3f))]
  else if code <=? 0xffff then
    str ++ [u8 (Z.lor 0xe0 (Z.shiftr code 12));
            u8 (Z.lor 0x80 (Z.land (Z.shiftr code 6) 0x3f));
            u8 (Z.lor 0x80 (Z.land code 0x3f))]
  else
    str ++ [u8 (Z.lor 0xf0 (Z.shiftr code 18));
            u8 (Z.lor 0x80 (Z.land (Z.shiftr code 12) 0x3f));
            u8 (Z.lor 0x80 (Z.land (Z.shiftr code 6) 0x3f));
            u8 (Z.lor 0x80 (Z.land code 0x3f))].

(** The bytes before the pointer, nearest first; the result is what is left of
    them when the pointer stands on the first code unit of the character. *)
Fixpoint prev_utf8_unsafe (before : list Z) : Res (list Z) :=
  match before with
  | [] => Panic "read before the string"
  | c :: before' =>
      if negb (is_utf8_character_first_code_unit c) then prev_utf8_unsafe before' else Ok before'
  end.

(** [data] holds the unread bytes, the terminating NUL included; it is empty
    exactly when the source has [data == data_end + 1]. *)
Fixpoint check_utf8_loop (data : list Z) : Res bool :=
  match data with
  | [] => Panic "read past the terminating NUL"
  | a :: data =>
      if Z.land a 0x80 =? 0 then
        match data with [] => Ok true | _ => check_utf8_loop data end
      else if negb (negb (Z.land a 0x40 =? 0)) then Ok false
      else match data with
      | [] => Panic "read past the terminating NUL"
      | b :: data =>
          if negb (Z.land b 0xc0 =? 0x80) then Ok false
          else if Z.land a 0x20 =? 0 then
            if negb (0 <? Z.land a 0x1e) then Ok false else check_utf8_loop data
          else match data with
          | [] => Panic "read past the terminating NUL"
          | c :: data =>
              if negb (Z.land c 0xc0 =? 0x80) then Ok false
              else if Z.land a 0x10 =? 0 then
                let x := Z.lor (Z.shiftl (Z.land a 0x0f) 6) (Z.land b 0x20) in
                if negb (negb (x =? 0) && negb (x =? 0x360)) then Ok false else check_utf8_loop data
              else match data with
              | [] => Panic "read past the terminating NUL"
              | d :: data =>
                  if negb (Z.land d 0xc0 =? 0x80) then Ok false
                  else if Z.land a 0x08 =? 0 then
                    let t := Z.lor (Z.shiftl (Z.land a 0x07) 6) (Z.land b 0x30) in
                    if negb ((0 <? t) && (t <? 0x110)) then Ok false else check_utf8_loop data
                  else Ok false
              end
          end
      end
  end.

Definition check_utf8 (str : list Z) : Res bool := check_utf8_loop (str ++ [0]).

(** Returns the code and what follows the pointer that is returned. *)
Definition next_utf8_unsafe (ptr : list Z) : Res (Z * list Z) :=
  match ptr with
  | [] => Panic "read past the string"
  | a :: p1 =>
      if Z.land a 0x80 =? 0 then Ok (a, p1)
      else if Z.land a 0x20 =? 0 then
        match p1 with
        | b :: p2 => Ok (Z.lor (Z.shiftl (Z.land a 0x1f) 6) (Z.land b 0x3f), p2)
        | _ => Panic "read past the string"
        end
      else if Z.land a 0x10 =? 0 then
        match p1 with
        | b :: c :: p3 =>
            Ok (Z.lor (Z.lor (Z.shiftl (Z.land a 0x0f) 12) (Z.shiftl (Z.land b 0x3f) 6))
                      (Z.land c 0x3f), p3)
        | _ => Panic "read past the string"
        end
      else if Z.land a 0x08 =? 0 then
        match p1 with
        | b :: c :: d :: p4 =>
            Ok (Z.lor (Z.lor (Z.lor (Z.shiftl (Z.land a 0x07) 18) (Z.shiftl (Z.land b 0x3f) 12))
                             (Z.shiftl (Z.land c 0x3f) 6)) (Z.land d 0x3f), p4)
        | _ => Panic "read past the string"
        end
      else Panic "UNREACHABLE"
  end.

Fixpoint utf8_truncate_loop (str : list Z) (length : Z) : list Z :=
  match str with
  | [] => []
  | c :: str' =>
      if is_utf8_character_first_code_unit c then
        if length =? 0 then [] else c :: utf8_truncate_loop str' (length - 1)
      else c :: utf8_truncate_loop str' length
  end.

Definition utf8_truncate (str : list Z) (len : Z) : list Z :=
  if len <? Z.of_nat (length str) then utf8_truncate_loop str len else str.

Definition utf8_substr_from (str : list Z) (offset : Z) : list Z :=
  if offset =? 0 then str
  else drop (length (utf8_truncate str offset)) str.

Definition utf8_substr (str : list Z) (offset len : Z) : list Z :=
  utf8_truncate (utf8_substr_from str offset) len.

Definition utf8_utf16_length (str : list Z) : Z :=
  foldl (fun result c =>
           result + (Z.b2z (is_utf8_character_first_code_unit c) + Z.b2z (Z.land c 0xf8 =? 0xf0)))
        0 str.

(** [length] is a [size_t]: both decrements wrap. *)
Fixpoint utf8_utf16_truncate (str : list Z) (length : Z) : list Z :=
  match str with
  | [] => []
  | c :: str' =>
      if is_utf8_character_first_code_unit c then
        if length <=? 0 then []
        else
          let length := u64 (length - 1) in
          let length := if 0xf0 <=? c then u64 (length - 1) else length in
          c :: utf8_utf16_truncate str' length
      else c :: utf8_utf16_truncate str' length
  end.

Definition utf8_utf16_substr_from (str : list Z) (offset : Z) : list Z :=
  if offset =? 0 then str
  else drop (length (utf8_utf16_truncate str offset)) str.

Definition utf8_utf16_substr (str : list Z) (offset len : Z) : list Z :=
  utf8_utf16_truncate (utf8_utf16_substr_from str offset) len.

(** ** The specification: sequences of Unicode scalar values *)

Definition is_scalar (c : Z) : Prop := 0 <= c <= 0xD7FF \/ 0xE000 <= c <= 0x10FFFF.

Definition utf8_of (cps : list Z) : list Z := foldl append_utf8_character [] cps.

Definition utf16_units (c : Z) : Z := if c <=? 0xFFFF then 1 else 2.

(** ** Byte facts, by evaluation on all bytes *)

Lemma land80 a : is_byte a -> (Z.land a 0x80 =? 0) = (a <? 128).
Proof. intros H. apply eqb_prop. revert a H. apply byte_forall. vm_compute. reflexivity. Qed.

Lemma land_cont b : is_byte b -> (Z.land b 0xc0 =? 0x80) = (128 <=? b) && (b <? 192).
Proof. intros H. apply eqb_prop. revert b H. apply byte_forall. vm_compute. reflexivity. Qed.

(** The tests on a lead byte, as comparisons. *)
Definition lead_tests (a : Z) : bool :=
  (eqb (Z.land a 0x40 =? 0) (a <? 192) &&
   ((a <? 192) || eqb (Z.land a 0x20 =? 0) (a <? 224)) &&
   ((a <? 192) || (224 <=? a) || eqb (0 <? Z.land a 0x1e) (194 <=? a)) &&
   ((a <? 224) || eqb (Z.land a 0x10 =? 0) (a <? 240)) &&
   ((a <? 240) || eqb (Z.land a 0x08 =? 0) (a <? 248)))%bool.

Lemma lead_tests_true a : is_byte a -> 128 <= a -> lead_tests a = true.
Proof.
  intros Hb H.
  assert ((a <? 128) || lead_tests a = true) as E.
  { revert a Hb H. refine (fun a Hb _ => byte_forall (fun a => (a <? 128) || lead_tests a) _ a Hb).
    vm_compute. reflexivity. }
  destruct (a <? 128) eqn:E'; zbool; [lia | done].
Qed.

Lemma lead_bits a : is_byte a -> 128 <= a ->
  (Z.land a 0x40 =? 0) = (a <? 192) /\
  (192 <= a -> (Z.land a 0x20 =? 0) = (a <? 224)) /\
  (192 <= a < 224 -> (0 <? Z.land a 0x1e) = (194 <=? a)) /\
  (224 <= a -> (Z.land a 0x10 =? 0) = (a <? 240)) /\
  (240 <= a -> (Z.land a 0x08 =? 0) = (a <? 248)).
Proof.
  intros Hb H. pose proof (lead_tests_true a Hb H) as HP. unfold lead_tests in HP.
  repeat (apply andb_prop in HP as [HP ?]).
  repeat split; intros; apply eqb_prop; [done|..];
    repeat match goal with
    | H : context [?x <? ?y] |- _ => progress replace (x <? y) with false in H by lia
    | H : context [?x <=? ?y] |- _ => progress replace (x <=? y) with false in H by lia
    end; assumption.
Qed.

(** Three-byte sequences: no overlong forms, no surrogates.  Four-byte
    sequences: no overlong forms, nothing above U+10FFFF. *)
Lemma surrogate_test a b : is_byte a -> is_byte b -> 224 <= a < 240 -> 128 <= b < 192 ->
  let x := Z.lor (Z.shiftl (Z.land a 0x0f) 6) (Z.land b 0x20) in
  (negb (x =? 0) && negb (x =? 0x360))%bool
  = negb ((a =? 224) && (b <? 160)) && negb ((a =? 237) && (160 <=? b)).
Proof.
  intros Ha Hb Ra Rb. cbv zeta. apply eqb_prop.
  pose proof (byte_forall2 (fun a b => ((a <? 224) || (240 <=? a) || (b <? 128) || (192 <=? b) ||
    (let x := Z.lor (Z.shiftl (Z.land a 0x0f) 6) (Z.land b 0x20) in
     eqb (negb (x =? 0) && negb (x =? 0x360))
         (negb ((a =? 224) && (b <? 160)) && negb ((a =? 237) && (160 <=? b)))))%bool)
    ltac:(vm_compute; reflexivity) a b Ha Hb) as H.
  cbv beta zeta in H.
  repeat (apply orb_prop in H as [H|H]; [exfalso; zbool; lia|]). exact H.
Qed.

Lemma range_test a b : is_byte a -> is_byte b -> 240 <= a < 248 -> 128 <= b < 192 ->
  let t := Z.lor (Z.shiftl (Z.land a 0x07) 6) (Z.land b 0x30) in
  ((0 <? t) && (t <? 0x110))%bool
  = (negb ((a =? 240) && (b <? 144)) && ((a <? 244) || ((a =? 244) && (b <? 144)))).
Proof.
  intros Ha Hb Ra Rb. cbv zeta. apply eqb_prop.
  pose proof (byte_forall2 (fun a b => ((a <? 240) || (248 <=? a) || (b <? 128) || (192 <=? b) ||
    (let t := Z.lor (Z.shiftl (Z.land a 0x07) 6) (Z.land b 0x30) in
     eqb ((0 <? t) && (t <? 0x110))
         (negb ((a =? 240) && (b <? 144)) && ((a <? 244) || ((a =? 244) && (b <? 144))))))%bool)
    ltac:(vm_compute; reflexivity) a b Ha Hb) as H.
  cbv beta zeta in H.
  repeat (apply orb_prop in H as [H|H]; [exfalso; zbool; lia|]). exact H.
Qed.

(** ** The encoder in arithmetic form *)

Definition enc (c : Z) : list Z :=
  if c <=? 0x7f then [c]
  else if c <=? 0x7ff then [192 + c / 64; 128 + c mod 64]
  else if c <=? 0xffff then [224 + c / 4096; 128 + (c / 64) mod 64; 128 + c mod 64]
  else [240 + c / 262144; 128 + (c / 4096) mod 64; 128 + (c / 64) mod 64; 128 + c mod 64].

Lemma lor_base k n x : 0 <= n -> 0 <= x < 2 ^ n -> Z.lor (k * 2 ^ n) x = k * 2 ^ n + x.
Proof. apply lor_disjoint_add. Qed.

Lemma append_enc str c : 0 <= c <= 0x1fffff -> append_utf8_character str c = str ++ enc c.
Proof.
  intros Hc. unfold append_utf8_character, enc.
  change 0x3f with (2 ^ 6 - 1). rewrite !land_ones_mod, !Z.shiftr_div_pow2 by lia.
  assert (forall y, 0 <= y < 64 -> u8 (Z.lor 0x80 y) = 128 + y) as Hcont.
  { intros y Hy. change 0x80 with (2 * 2 ^ 6). rewrite lor_disjoint_add by lia.
    apply u8_small. unfold is_byte. lia. }
  assert (forall z, u8 (Z.lor 0x80 (z mod 2 ^ 6)) = 128 + z mod 64) as Hc6
    by (intros; apply Hcont, Z.mod_pos_bound; lia).
  repeat case_if; rewrite ?Hc6; do 2 f_equal.
  - apply u8_small. unfold is_byte. lia.
  - change 0xc0 with (6 * 2 ^ 5). rewrite lor_disjoint_add by zlia. apply u8_small. unfold is_byte. zlia.
  - change 0xe0 with (14 * 2 ^ 4). rewrite lor_disjoint_add by zlia. apply u8_small. unfold is_byte. zlia.
  - change 0xf0 with (30 * 2 ^ 3). rewrite lor_disjoint_add by zlia. apply u8_small. unfold is_byte. zlia.
Qed.

(** ** The checker in arithmetic form *)

Definition is_cont (b : Z) : bool := (128 <=? b) && (b <? 192).

Fixpoint accept (data : list Z) : Res bool :=
  match data with
  | [] => Panic "read past the terminating NUL"
  | a :: data =>
      if a <? 128 then match data with [] => Ok true | _ => accept data end
      else if a <? 192 then Ok false
      else match data with
      | [] => Panic "read past the terminating NUL"
      | b :: data =>
          if negb (is_cont b) then Ok false
          else if a <? 224 then if negb (194 <=? a) then Ok false else accept data
          else match data with
          | [] => Panic "read past the terminating NUL"
          | c :: data =>
              if negb (is_cont c) then Ok false
              else if a <? 240 then
                if negb (negb ((a =? 224) && (b <? 160)) && negb ((a =? 237) && (160 <=? b)))
                then Ok false else accept data
              else match data with
              | [] => Panic "read past the terminating NUL"
              | d :: data =>
                  if negb (is_cont d) then Ok false
                  else if a <? 248 then
                    if negb (negb ((a =? 240) && (b <? 144)) && ((a <? 244) || ((a =? 244) && (b <? 144))))
                    then Ok false else accept data
                  else Ok false
              end
          end
      end
  end.

Lemma check_utf8_accept data : bytes data -> check_utf8_loop data = accept data.
Proof.
  induction data as [data IH] using (induction_ltof1 _ (@length Z)). unfold ltof in IH.
  intros Hb. destruct data as [|a d1]; [done|].
  inversion_clear Hb as [|?? Ha H1]. simpl. rewrite land80 by done.
  destruct (a <? 128) eqn:E; zbool.
  { destruct d1; [done|]. apply IH; [simpl; lia | done]. }
  destruct (lead_bits a Ha E) as (-> & L2 & L3 & L4 & L5).
  rewrite negb_involutive. destruct (a <? 192) eqn:E1; zbool; [done|].
  rewrite L2 by done. clear L2.
  destruct d1 as [|b d2]; [done|]. inversion_clear H1 as [|?? Hb H2].
  rewrite land_cont by done. fold (is_cont b).
  destruct (is_cont b) eqn:Eb; simpl; [|done].
  assert (128 <= b < 192) as Rb by (unfold is_cont in Eb; zbool; lia).
  destruct (a <? 224) eqn:E2; zbool.
  { rewrite L3 by lia. case_if; [done|]. apply IH; [simpl; lia | done]. }
  rewrite L4 by done. clear L3 L4.
  destruct d2 as [|c d3]; [done|]. inversion_clear H2 as [|?? Hc H3].
  rewrite land_cont by done. fold (is_cont c). destruct (is_cont c); simpl; [|done].
  destruct (a <? 240) eqn:E3; zbool.
  { rewrite surrogate_test by done. case_if; [done|]. apply IH; [simpl; lia | done]. }
  rewrite L5 by done. clear L5.
  destruct d3 as [|d d4]; [done|]. inversion_clear H3 as [|?? Hd H4].
  rewrite land_cont by done. fold (is_cont d). destruct (is_cont d); simpl; [|done].
  destruct (a <? 248) eqn:E4; zbool; [|done].
  rewrite range_test by done. case_if; [done|]. apply IH; [simpl; lia | done].
Qed.

Ltac bool_lia := unfold is_cont in *; repeat (decide_if; cbn [negb andb orb]); try reflexivity; try lia.

Lemma accept_enc c rest : is_scalar c -> rest <> [] -> accept (enc c ++ rest) = accept rest.
Proof.
  unfold is_scalar, enc. intros Hc Hrest.
  repeat case_if; cbn [app accept]; unfold is_cont.
  - replace (c <? 128) with true by lia. by destruct rest.
  - set (p := c / 64). set (q := c mod 64).
    assert (2 <= p < 32 /\ 0 <= q < 64) by (subst p q; zlia). clearbody p q. bool_lia.
  - set (p := c / 4096). set (q := c / 64 mod 64). set (r := c mod 64).
    assert (0 <= q < 64 /\ 0 <= r < 64 /\
            (p = 0 /\ 32 <= q \/ 1 <= p <= 12 \/ p = 13 /\ q < 32 \/ 14 <= p <= 15))
      as (Hq & Hr & Hp) by (subst p q r; zlia).
    clearbody p q r. clear -Hq Hr Hp. destruct Hp as [[??]|[?|[[??]|?]]]; bool_lia.
  - set (p := c / 262144). set (q := c / 4096 mod 64). set (r := c / 64 mod 64). set (s := c mod 64).
    assert (0 <= q < 64 /\ 0 <= r < 64 /\ 0 <= s < 64 /\
            (p = 0 /\ 16 <= q \/ 1 <= p <= 3 \/ p = 4 /\ q < 16))
      as (Hq & Hr & Hs & Hp) by (subst p q r s; zlia).
    clearbody p q r s. clear -Hq Hr Hs Hp. destruct Hp as [[??]|[?|[??]]]; bool_lia.
Qed.

(** What the checker does at the start of a string: it rejects, it is at the
    end, or it skips the encoding of one scalar value. *)
Lemma enc2 a b : 194 <= a < 224 -> is_cont b = true ->
  exists c, is_scalar c /\ enc c = [a; b].
Proof.
  unfold is_cont, is_scalar, enc. intros Ha Hb. zbool.
  exists ((a - 192) * 64 + (b - 128)). split; [lia|].
  repeat (case_if; [lia|]). case_if; [|lia]. f_equal; [zlia | f_equal; zlia].
Qed.

Lemma enc3 a b c : 224 <= a < 240 -> is_cont b = true -> is_cont c = true ->
  ~ (a = 224 /\ b < 160) -> ~ (a = 237 /\ 160 <= b) ->
  exists z, is_scalar z /\ enc z = [a; b; c].
Proof.
  unfold is_cont, is_scalar, enc. intros Ha Hb Hc H1 H2. zbool.
  exists ((a - 224) * 4096 + (b - 128) * 64 + (c - 128)). split; [lia|].
  repeat (case_if; [lia|]). case_if; [|lia]. repeat (f_equal; [zlia|]). f_equal. zlia.
Qed.

Lemma enc4 a b c d : 240 <= a <= 244 -> is_cont b = true -> is_cont c = true -> is_cont d = true ->
  ~ (a = 240 /\ b < 144) -> ~ (a = 244 /\ 144 <= b) ->
  exists z, is_scalar z /\ enc z = [a; b; c; d].
Proof.
  unfold is_cont, is_scalar, enc. intros Ha Hb Hc Hd H1 H2. zbool.
  exists ((a - 240) * 262144 + (b - 128) * 4096 + (c - 128) * 64 + (d - 128)). split; [lia|].
  repeat (case_if; [lia|]). repeat (f_equal; [zlia|]). f_equal. zlia.
Qed.

Lemma accept_skip pre str : bytes str -> (exists c, is_scalar c /\ enc c = pre) ->
  exists c str', is_scalar c /\ pre ++ str = enc c ++ str' /\ bytes str' /\
    accept ((pre ++ str) ++ [0]) = accept (str' ++ [0]).
Proof.
  intros Hb (c & Hc & <-). exists c, str. split_and!; try done.
  rewrite <- app_assoc. apply accept_enc; [done | by destruct str].
Qed.

Lemma accept_cases str : bytes str ->
  accept (str ++ [0]) = Ok false \/
  str = [] \/
  exists c str', is_scalar c /\ str = enc c ++ str' /\ bytes str' /\
    accept (str ++ [0]) = accept (str' ++ [0]).
Proof.
  intros Hb. destruct str as [|a d1]; [by right; left|].
  inversion_clear Hb as [|?? Ha H1]. unfold is_byte in Ha.
  destruct (decide (a < 128)) as [R|R].
  { right; right. apply (accept_skip [a]); [done|]. exists a. unfold enc, is_scalar.
    replace (a <=? 0x7f) with true by lia. split; [lia | done]. }
  destruct (decide (a < 192)); [left; cbn; bool_lia|].
  destruct d1 as [|b d2]; [left; cbn [app accept]; bool_lia|]. inversion_clear H1 as [|?? Hb H2].
  destruct (is_cont b) eqn:Eb; [|left; cbn [app accept]; rewrite Eb; bool_lia].
  destruct (decide (a < 224)).
  { destruct (decide (a < 194)); [left; cbn [app accept]; rewrite Eb; bool_lia|].
    right; right. apply (accept_skip [a; b]); [done|]. apply enc2; [lia | done]. }
  destruct d2 as [|c d3]; [left; cbn [app accept]; rewrite Eb; bool_lia|]. inversion_clear H2 as [|?? Hc H3].
  destruct (is_cont c) eqn:Ec; [|left; cbn [app accept]; rewrite Eb, Ec; bool_lia].
  destruct (decide (a < 240)).
  { destruct (decide ((a = 224 /\ b < 160) \/ (a = 237 /\ 160 <= b))) as [[[-> ?]|[-> ?]]|];
      [left; cbn [app accept]; rewrite Eb, Ec; bool_lia..|].
    right; right. apply (accept_skip [a; b; c]); [done|]. apply enc3; [lia|done|done|lia|lia]. }
  destruct d3 as [|d d4]; [left; cbn [app accept]; rewrite Eb, Ec; bool_lia|]. inversion_clear H3 as [|?? Hd H4].
  destruct (is_cont d) eqn:Ed; [|left; cbn [app accept]; rewrite Eb, Ec, Ed; bool_lia].
  destruct (decide (a = 240 /\ b < 144)) as [[-> ?]|];
    [left; cbn [app accept]; rewrite Eb, Ec, Ed; bool_lia|].
  destruct (decide (a < 244 \/ (a = 244 /\ b < 144))).
  { right; right. apply (accept_skip [a; b; c; d]); [done|]. apply enc4; [lia|done|done|done|lia|lia]. }
  left. cbn [app accept]. rewrite Eb, Ec, Ed. destruct (decide (a = 244)) as [->|]; [bool_lia|].
  destruct (decide (a < 248)); bool_lia.
Qed.

(** ** Sequences of scalar values *)

Lemma is_scalar_range c : is_scalar c -> 0 <= c <= 0x1fffff.
Proof. unfold is_scalar. lia. Qed.
#[export] Hint Resolve is_scalar_range : td.

Lemma foldl_append_enc cps acc : Forall is_scalar cps ->
  foldl append_utf8_character acc cps = acc ++ flat_map enc cps.
Proof.
  intros H. revert acc. induction H as [|c cps Hc H IH]; intros acc; simpl.
  - by rewrite app_nil_r.
  - rewrite append_enc by eauto with td. by rewrite IH, <- app_assoc.
Qed.

Lemma utf8_of_enc cps : Forall is_scalar cps -> utf8_of cps = flat_map enc cps.
Proof. intros H. unfold utf8_of. by rewrite foldl_append_enc. Qed.

Lemma enc_bytes c : is_scalar c -> bytes (enc c).
Proof.
  intros Hc. apply is_scalar_range in Hc. unfold enc.
  repeat case_if; repeat constructor; unfold is_byte; zlia.
Qed.

Lemma flat_map_enc_bytes cps : Forall is_scalar cps -> bytes (flat_map enc cps).
Proof. induction 1; simpl; [constructor|]. apply Forall_app. eauto using enc_bytes. Qed.

Lemma accept_flat_map cps : Forall is_scalar cps -> accept (flat_map enc cps ++ [0]) = Ok true.
Proof.
  induction 1 as [|c cps Hc H IH]; [done|]. simpl. rewrite <- app_assoc, accept_enc, IH; [done..|].
  by destruct (flat_map enc cps).
Qed.

Lemma accept_total str : bytes str ->
  accept (str ++ [0]) = Ok false \/
  (accept (str ++ [0]) = Ok true /\ exists cps, Forall is_scalar cps /\ str = flat_map enc cps).
Proof.
  induction str as [str IH] using (induction_ltof1 _ (@length Z)). unfold ltof in IH. intros Hb.
  destruct (accept_cases str Hb) as [?|[->|(c & str' & Hc & -> & Hb' & ->)]]; [by left|..].
  { right. split; [done|]. by exists []. }
  destruct (IH str') as [?|[? (cps & Hs & ->)]]; [|done|by left|].
  { rewrite length_app. unfold enc. repeat case_if; simpl; lia. }
  right. split; [done|]. exists (c :: cps). split; [by constructor | done].
Qed.

Definition valid_utf8 (str : list Z) : Prop := exists cps, Forall is_scalar cps /\ str = utf8_of cps.

Lemma check_utf8_cases str : bytes str ->
  (check_utf8 str = Ok false /\ ~ valid_utf8 str) \/ (check_utf8 str = Ok true /\ valid_utf8 str).
Proof.
  intros Hb. unfold check_utf8, valid_utf8.
  assert (bytes (str ++ [0])) as Hb0 by (apply Forall_app; split; [done | repeat constructor; unfold is_byte; lia]).
  rewrite check_utf8_accept by done.
  destruct (accept_total str Hb) as [E|[E (cps & Hs & ->)]]; rewrite E; [left | right]; (split; [done|]).
  - intros (cps & Hs & ->). by rewrite utf8_of_enc, accept_flat_map in E.
  - exists cps. by rewrite utf8_of_enc.
Qed.

(** ** The shape of an encoded character *)

Lemma is_cont_byte b : is_cont b = true -> is_byte b.
Proof. unfold is_cont, is_byte. intros. zbool. lia. Qed.

Lemma first_unit_cont b : is_byte b -> is_utf8_character_first_code_unit b = negb (is_cont b).
Proof. intros H. unfold is_utf8_character_first_code_unit. by rewrite land_cont. Qed.

Lemma land_f8 b : is_byte b -> (Z.land b 0xf8 =? 0xf0) = (240 <=? b) && (b <? 248).
Proof. intros H. apply eqb_prop. revert b H. apply byte_forall. vm_compute. reflexivity. Qed.

Record char_shape (c h : Z) (t : list Z) : Prop := CharShape {
  cs_byte : is_byte h;
  cs_head : is_cont h = false;
  cs_wide : (240 <=? h) = (0xFFFF <? c);
  cs_high : h < 248;
  cs_tail : Forall (fun b => is_cont b = true) t;
}.

Lemma enc_shape c : 0 <= c <= 0x1fffff -> exists h t, enc c = h :: t /\ char_shape c h t.
Proof.
  intros Hc. unfold enc.
  assert (forall z, is_cont (128 + z mod 64) = true) as Hm
    by (intros z; unfold is_cont; pose proof (Z.mod_pos_bound z 64 ltac:(lia));
        apply andb_true_intro; split; [apply Z.leb_le | apply Z.ltb_lt]; lia).
  repeat case_if; (eexists; eexists; split; [reflexivity|]);
    constructor; try solve [repeat (constructor; [apply Hm|]); constructor]; unfold is_byte, is_cont.
  all: try (set (q := c / 64)); try (set (q' := c / 4096)); try (set (q'' := c / 262144)).
  all: try lia.
  all: try (assert (2 <= q < 32) by (subst q; zlia); bool_lia).
  all: try (assert (0 <= q' < 16) by (subst q'; zlia); bool_lia).
  all: try (assert (0 <= q'' < 8) by (subst q''; zlia); bool_lia).
Qed.

(** A pass that tests only whether a byte starts a character ignores the
    continuation bytes of a character. *)
Lemma cont_not_first b : is_cont b = true -> is_utf8_character_first_code_unit b = false.
Proof. intros H. rewrite first_unit_cont by eauto using is_cont_byte. by rewrite H. Qed.

Lemma truncate_loop_tail t rest n : Forall (fun b => is_cont b = true) t ->
  utf8_truncate_loop (t ++ rest) n = t ++ utf8_truncate_loop rest n.
Proof. induction 1 as [|b t Hb H IH]; simpl; [done|]. by rewrite cont_not_first, IH. Qed.

Lemma utf16_truncate_tail t rest n : Forall (fun b => is_cont b = true) t ->
  utf8_utf16_truncate (t ++ rest) n = t ++ utf8_utf16_truncate rest n.
Proof. induction 1 as [|b t Hb H IH]; simpl; [done|]. by rewrite cont_not_first, IH. Qed.

Lemma foldl_count (f : Z -> Z) l a : foldl (fun r c => r + f c) a l = a + foldl (fun r c => r + f c) 0 l.
Proof.
  revert a. induction l as [|x l IH]; intros a; simpl; [lia|].
  rewrite (IH (a + f x)), (IH (0 + f x)). lia.
Qed.

Lemma foldl_count_app (f : Z -> Z) l1 l2 :
  foldl (fun r c => r + f c) 0 (l1 ++ l2)
  = foldl (fun r c => r + f c) 0 l1 + foldl (fun r c => r + f c) 0 l2.
Proof. by rewrite foldl_app, foldl_count. Qed.

Lemma foldl_count_zero (f : Z -> Z) t : Forall (fun b => f b = 0) t -> foldl (fun r c => r + f c) 0 t = 0.
Proof. induction 1 as [|b t Hb H IH]; simpl; [done|]. by rewrite Hb. Qed.

Lemma count_char (f : Z -> Z) c rest : 0 <= c <= 0x1fffff ->
  (forall b, is_cont b = true -> f b = 0) ->
  exists h, char_shape c h (tail (enc c)) /\
  foldl (fun r b => r + f b) 0 (enc c ++ rest) = f h + foldl (fun r b => r + f b) 0 rest.
Proof.
  intros Hc Hf. destruct (enc_shape c Hc) as (h & t & E & Hs). exists h. rewrite E. split; [done|].
  rewrite foldl_count_app. simpl. rewrite foldl_count, (foldl_count_zero f t); [lia|].
  eapply Forall_impl; [apply Hs|]. exact Hf.
Qed.

Lemma utf8_length_char c rest : is_scalar c -> utf8_length (enc c ++ rest) = 1 + utf8_length rest.
Proof.
  intros Hc. unfold utf8_length.
  destruct (count_char (fun b => Z.b2z (is_utf8_character_first_code_unit b)) c rest) as (h & Hs & ->);
    [eauto with td | intros b Hb; by rewrite cont_not_first |].
  rewrite first_unit_cont, (cs_head _ _ _ Hs) by apply Hs. done.
Qed.

Lemma utf16_length_char c rest : is_scalar c ->
  utf8_utf16_length (enc c ++ rest) = utf16_units c + utf8_utf16_length rest.
Proof.
  intros Hc. unfold utf8_utf16_length.
  destruct (count_char (fun b => Z.b2z (is_utf8_character_first_code_unit b) + Z.b2z (Z.land b 0xf8 =? 0xf0)) c rest)
    as (h & Hs & ->); [eauto with td | |].
  { intros b Hb. pose proof (is_cont_byte b Hb). rewrite cont_not_first, land_f8 by done.
    unfold is_cont in Hb. zbool. bool_lia. }
  destruct Hs. rewrite first_unit_cont, cs_head0, land_f8, cs_wide0 by done.
  replace (h <? 248) with true by lia. unfold utf16_units.
  destruct (0xFFFF <? c) eqn:E; zbool; [replace (c <=? 0xFFFF) with false by lia | replace (c <=? 0xFFFF) with true by lia]; done.
Qed.

Lemma truncate_loop_char c rest n : is_scalar c -> 0 < n ->
  utf8_truncate_loop (enc c ++ rest) n = enc c ++ utf8_truncate_loop rest (n - 1).
Proof.
  intros Hc Hn. destruct (enc_shape c) as (h & t & E & []); [eauto with td|].
  rewrite E. simpl. rewrite first_unit_cont, cs_head0 by done. simpl.
  replace (n =? 0) with false by lia. by rewrite truncate_loop_tail.
Qed.

Lemma truncate_loop_zero cps : Forall is_scalar cps -> utf8_truncate_loop (flat_map enc cps) 0 = [].
Proof.
  destruct 1 as [|c cps Hc H]; [done|]. destruct (enc_shape c) as (h & t & E & []); [eauto with td|].
  simpl. rewrite E. simpl. by rewrite first_unit_cont, cs_head0.
Qed.

Lemma utf16_truncate_char c rest n : is_scalar c -> 0 < n ->
  utf8_utf16_truncate (enc c ++ rest) n
  = enc c ++ utf8_utf16_truncate rest (if 0xFFFF <? c then u64 (u64 (n - 1) - 1) else u64 (n - 1)).
Proof.
  intros Hc Hn. destruct (enc_shape c) as (h & t & E & []); [eauto with td|].
  rewrite E. simpl. rewrite first_unit_cont, cs_head0 by done. simpl.
  replace (n <=? 0) with false by lia. rewrite cs_wide0. by rewrite utf16_truncate_tail.
Qed.

Lemma utf16_truncate_zero cps : Forall is_scalar cps -> utf8_utf16_truncate (flat_map enc cps) 0 = [].
Proof.
  destruct 1 as [|c cps Hc H]; [done|]. destruct (enc_shape c) as (h & t & E & []); [eauto with td|].
  simpl. rewrite E. simpl. by rewrite first_unit_cont, cs_head0.
Qed.

Definition utf16_size (cps : list Z) : Z := foldr (fun c s => utf16_units c + s) 0 cps.

Lemma utf16_units_pos c : 1 <= utf16_units c <= 2.
Proof. unfold utf16_units. case_if; lia. Qed.

Lemma utf16_size_nonneg cps : 0 <= utf16_size cps.
Proof. induction cps as [|c cps IH]; simpl; [lia|]. pose proof (utf16_units_pos c). lia. Qed.

Lemma utf16_size_app l1 l2 : utf16_size (l1 ++ l2) = utf16_size l1 + utf16_size l2.
Proof. induction l1 as [|c l1 IH]; simpl; [done|]. rewrite IH. lia. Qed.

(** Truncation runs through a prefix that fits. *)
Lemma utf16_truncate_prefix pre rest n : Forall is_scalar pre -> utf16_size pre <= n < 2 ^ 64 ->
  utf8_utf16_truncate (flat_map enc pre ++ rest) n
  = flat_map enc pre ++ utf8_utf16_truncate rest (n - utf16_size pre).
Proof.
  intros H. revert n. induction H as [|c pre Hc H IH]; intros n Hn; simpl in *.
  { f_equal. lia. }
  pose proof (utf16_units_pos c). pose proof (utf16_size_nonneg pre).
  rewrite <- !app_assoc, utf16_truncate_char by (done || lia). f_equal.
  assert ((if 0xFFFF <? c then u64 (u64 (n - 1) - 1) else u64 (n - 1)) = n - utf16_units c) as ->.
  { unfold utf16_units in *. destruct (0xFFFF <? c) eqn:E; zbool.
    - replace (c <=? 0xFFFF) with false in * by lia. unfold u64. rewrite !Z.mod_small; [lia|lia|].
      rewrite Z.mod_small; lia.
    - replace (c <=? 0xFFFF) with true in * by lia. unfold u64. rewrite Z.mod_small; lia. }
  rewrite IH by lia. do 2 f_equal. lia.
Qed.

Lemma utf8_truncate_flat cps n : Forall is_scalar cps ->
  utf8_truncate_loop (flat_map enc cps) (Z.of_nat n) = flat_map enc (take n cps).
Proof.
  intros H. revert n. induction H as [|c cps Hc H IH]; intros [|n]; simpl; try done.
  - by apply (truncate_loop_zero (c :: cps)), Forall_cons.
  - rewrite truncate_loop_char by (done || lia).
    replace (Z.of_nat (S n) - 1) with (Z.of_nat n) by lia. by rewrite IH.
Qed.

Lemma length_flat_map_enc cps : (length cps <= length (flat_map enc cps))%nat.
Proof.
  induction cps as [|c cps IH]; simpl; [lia|]. rewrite length_app.
  assert (1 <= length (enc c))%nat by (unfold enc; repeat case_if; simpl; lia). lia.
Qed.

Lemma utf8_truncate_of cps n : Forall is_scalar cps ->
  utf8_truncate (flat_map enc cps) (Z.of_nat n) = flat_map enc (take n cps).
Proof.
  intros H. unfold utf8_truncate. case_if; [by apply utf8_truncate_flat|].
  pose proof (length_flat_map_enc cps). by rewrite take_ge by lia.
Qed.

Lemma drop_flat_map_take cps n :
  drop (length (flat_map enc (take n cps))) (flat_map enc cps) = flat_map enc (drop n cps).
Proof. rewrite <- (take_drop n cps) at 2. rewrite flat_map_app. apply drop_app_length. Qed.

Lemma utf8_substr_from_of cps n : Forall is_scalar cps ->
  utf8_substr_from (flat_map enc cps) (Z.of_nat n) = flat_map enc (drop n cps).
Proof.
  intros H. unfold utf8_substr_from. case_if; [by destruct n|].
  rewrite utf8_truncate_of by done. apply drop_flat_map_take.
Qed.

(** ** Decoding one character *)

Lemma next_enc c rest : 0 <= c <= 0x1fffff -> next_utf8_unsafe (enc c ++ rest) = Ok (c, rest).
Proof.
  intros Hc. unfold enc.
  assert (forall z, Z.land (128 + z mod 64) 0x3f = z mod 64) as Hm.
  { intros z. pose proof (Z.mod_pos_bound z 64 ltac:(lia)).
    change 0x3f with (2 ^ 6 - 1). rewrite land_ones_mod by lia. zlia. }
  repeat case_if; cbn [app next_utf8_unsafe]; rewrite ?Hm.
  - rewrite land80 by (unfold is_byte; lia). by replace (c <? 128) with true by lia.
  - set (p := c / 64). assert (2 <= p < 32) as Hp by (subst p; zlia).
    rewrite land80 by (unfold is_byte; lia). replace (192 + p <? 128) with false by lia.
    destruct (lead_bits (192 + p)) as (_ & L & _); [unfold is_byte; lia | lia |].
    rewrite L by lia. replace (192 + p <? 224) with true by lia.
    change 0x1f with (2 ^ 5 - 1). rewrite land_ones_mod, Z.shiftl_mul_pow2, lor_disjoint_add by zlia.
    do 2 f_equal. subst p. zlia.
  - set (p := c / 4096). assert (0 <= p < 16) as Hp by (subst p; zlia).
    rewrite land80 by (unfold is_byte; lia). replace (224 + p <? 128) with false by lia.
    destruct (lead_bits (224 + p)) as (_ & L & _ & L' & _); [unfold is_byte; lia | lia |].
    rewrite L, L' by lia. replace (224 + p <? 224) with false by lia. replace (224 + p <? 240) with true by lia.
    change 0x0f with (2 ^ 4 - 1). rewrite land_ones_mod, !Z.shiftl_mul_pow2 by lia.
    rewrite lor_disjoint_add by zlia. 
    replace ((224 + p) mod 2 ^ 4 * 2 ^ 12 + c / 64 mod 64 * 2 ^ 6) with ((p * 64 + c / 64 mod 64) * 2 ^ 6) by zlia.
    rewrite lor_disjoint_add by zlia. do 2 f_equal. subst p. zlia.
  - set (p := c / 262144). assert (0 <= p < 8) as Hp by (subst p; zlia).
    rewrite land80 by (unfold is_byte; lia). replace (240 + p <? 128) with false by lia.
    destruct (lead_bits (240 + p)) as (_ & L & _ & L' & L''); [unfold is_byte; lia | lia |].
    rewrite L, L', L'' by lia. replace (240 + p <? 224) with false by lia.
    replace (240 + p <? 240) with false by lia. replace (240 + p <? 248) with true by lia.
    change 0x07 with (2 ^ 3 - 1). rewrite land_ones_mod, !Z.shiftl_mul_pow2 by lia.
    rewrite lor_disjoint_add by zlia.
    replace ((240 + p) mod 2 ^ 3 * 2 ^ 18 + c / 4096 mod 64 * 2 ^ 12)
      with ((p * 64 + c / 4096 mod 64) * 2 ^ 12) by zlia.
    rewrite lor_disjoint_add by zlia.
    replace ((p * 64 + c / 4096 mod 64) * 2 ^ 12 + c / 64 mod 64 * 2 ^ 6)
      with (((p * 64 + c / 4096 mod 64) * 64 + c / 64 mod 64) * 2 ^ 6) by lia.
    rewrite lor_disjoint_add by zlia. do 2 f_equal. subst p. zlia.
Qed.

Lemma prev_tail t h before : Forall (fun b => is_cont b = true) t ->
  is_utf8_character_first_code_unit h = true ->
  prev_utf8_unsafe (t ++ h :: before) = Ok before.
Proof.
  induction 1 as [|b t Hb H IH]; intros Hh; simpl; [by rewrite Hh|].
  by rewrite cont_not_first, IH.
Qed.

(** ** Properties *)

(** C33. [check_utf8] terminates without reading past the terminating NUL, and
    it accepts a byte string exactly when the string is the result of
    appending a sequence of Unicode scalar values with
    [append_utf8_character]: no overlong forms, surrogates, truncated
    sequences or values above U+10FFFF. *)
Theorem check_utf8_correct (str : list Z) : bytes str ->
  exists valid : bool, check_utf8 str = Ok valid /\
    (valid = true <-> exists cps, Forall is_scalar cps /\ str = utf8_of cps).
Proof.
  intros Hb. destruct (check_utf8_cases str Hb) as [[E Hv]|[E Hv]]; rewrite E; unfold valid_utf8 in Hv.
  - exists false. split; [done|]. by split.
  - exists true. split; [done|]. by split.
Qed.

Lemma check_utf8_correct_witness :
  exists valid : bool, check_utf8 [0xE2; 0x82; 0xAC; 0x24] = Ok valid /\
    (valid = true <-> exists cps, Forall is_scalar cps /\ [0xE2; 0x82; 0xAC; 0x24] = utf8_of cps).
Proof. apply (check_utf8_correct [0xE2; 0x82; 0xAC; 0x24]). repeat constructor; unfold is_byte; lia. Defined.

(** Decoding inverts encoding: for every code of at most 21 bits,
    [next_utf8_unsafe] reads back the code that [append_utf8_character] wrote
    and stops right behind it, and [prev_utf8_unsafe] steps back over exactly
    the bytes that were written. *)
Theorem utf8_character_roundtrip (code : Z) (rest before : list Z) : 0 <= code <= 0x1fffff ->
  next_utf8_unsafe (append_utf8_character [] code ++ rest) = Ok (code, rest) /\
  prev_utf8_unsafe (rev (append_utf8_character [] code) ++ before) = Ok before.
Proof.
  intros Hc. rewrite append_enc by done. split; [by apply next_enc|].
  destruct (enc_shape code Hc) as (h & t & E & []). simpl. rewrite E. simpl. rewrite <- app_assoc.
  apply prev_tail; [by apply Forall_rev | by rewrite first_unit_cont, cs_head0].
Qed.

Lemma utf8_character_roundtrip_witness :
  next_utf8_unsafe (append_utf8_character [] 0x1F600 ++ [65]) = Ok (0x1F600, [65]) /\
  prev_utf8_unsafe (rev (append_utf8_character [] 0x1F600) ++ [66]) = Ok [66].
Proof. apply (utf8_character_roundtrip 0x1F600 [65] [66]). lia. Defined.

(** On valid UTF-8, lengths count characters and UTF-16 code units, and
    truncation and substring cut between characters: they are [take] and
    [drop] on the sequence of scalar values. *)
Theorem utf8_counting (cps : list Z) (n m : nat) : Forall is_scalar cps ->
  utf8_length (utf8_of cps) = Z.of_nat (length cps) /\
  utf8_utf16_length (utf8_of cps) = utf16_size cps /\
  utf8_truncate (utf8_of cps) (Z.of_nat n) = utf8_of (take n cps) /\
  utf8_substr (utf8_of cps) (Z.of_nat n) (Z.of_nat m) = utf8_of (take m (drop n cps)).
Proof.
  intros H. rewrite !utf8_of_enc by auto using Forall_take, Forall_drop. split_and!.
  - induction H as [|c cps Hc H IH]; [done|]. cbn [flat_map]. rewrite utf8_length_char, IH by done.
    simpl. lia.
  - induction H as [|c cps Hc H IH]; [done|]. cbn [flat_map]. by rewrite utf16_length_char, IH.
  - by apply utf8_truncate_of.
  - unfold utf8_substr. rewrite utf8_substr_from_of by done. apply utf8_truncate_of. by apply Forall_drop.
Qed.

Lemma utf8_counting_witness :
  utf8_length (utf8_of [0x24; 0x20AC; 0x1F600]) = 3 /\
  utf8_utf16_length (utf8_of [0x24; 0x20AC; 0x1F600]) = 4 /\
  utf8_truncate (utf8_of [0x24; 0x20AC; 0x1F600]) 2 = utf8_of [0x24; 0x20AC] /\
  utf8_substr (utf8_of [0x24; 0x20AC; 0x1F600]) 2 1 = utf8_of [0x1F600].
Proof.
  apply (utf8_counting [0x24; 0x20AC; 0x1F600] 2 1).
  repeat constructor; unfold is_scalar; lia.
Defined.

(** UTF-16 truncation at a boundary between two characters keeps exactly
    the characters before it; the limit is a [size_t]. *)
Theorem utf8_utf16_truncate_boundary (pre post : list Z) :
  Forall is_scalar pre -> Forall is_scalar post -> utf16_size pre < 2 ^ 64 ->
  utf8_utf16_truncate (utf8_of (pre ++ post)) (utf16_size pre) = utf8_of pre.
Proof.
  intros Hpre Hpost Hn. rewrite !utf8_of_enc by (try apply Forall_app; done).
  pose proof (utf16_size_nonneg pre).
  rewrite flat_map_app, utf16_truncate_prefix by (done || lia).
  by rewrite Z.sub_diag, utf16_truncate_zero, app_nil_r.
Qed.

Lemma utf8_utf16_truncate_boundary_witness :
  utf8_utf16_truncate (utf8_of [0x24; 0x1F600; 0x25]) 3 = utf8_of [0x24; 0x1F600].
Proof.
  apply (utf8_utf16_truncate_boundary [0x24; 0x1F600] [0x25]);
    [repeat constructor; unfold is_scalar; lia.. | vm_compute; reflexivity].
Defined.

(** When the limit falls inside a surrogate pair the second decrement
    wraps around and nothing is cut at all: the result is the whole string,
    however long it is, although the contract is to truncate to the limit. *)
Theorem utf8_utf16_truncate_inside_pair (pre post : list Z) (c : Z) :
  Forall is_scalar pre -> Forall is_scalar post -> is_scalar c -> 0xFFFF < c ->
  utf16_size (pre ++ c :: post) < 2 ^ 64 ->
  utf8_utf16_truncate (utf8_of (pre ++ c :: post)) (utf16_size pre + 1) = utf8_of (pre ++ c :: post).
Proof.
  intros Hpre Hpost Hc Hw Hn. rewrite utf8_of_enc by (apply Forall_app; split; [done | by constructor]).
  pose proof (utf16_size_nonneg pre). pose proof (utf16_size_nonneg post).
  rewrite utf16_size_app in Hn. simpl in Hn. pose proof (utf16_units_pos c).
  rewrite flat_map_app, utf16_truncate_prefix by (done || lia). f_equal. cbn [flat_map].
  rewrite utf16_truncate_char by (done || lia). f_equal. replace (0xFFFF <? c) with true by lia.
  replace (utf16_size pre + 1 - utf16_size pre - 1) with 0 by lia. change (u64 (u64 0 - 1)) with (2 ^ 64 - 1).
  rewrite <- (app_nil_r (flat_map enc post)) at 1. rewrite utf16_truncate_prefix by (done || lia).
  simpl. by rewrite app_nil_r.
Qed.

Lemma utf8_utf16_truncate_inside_pair_witness :
  utf8_utf16_truncate (utf8_of [0x1F600; 0x41; 0x42; 0x43]) 1 = utf8_of [0x1F600; 0x41; 0x42; 0x43].
Proof.
  apply (utf8_utf16_truncate_inside_pair [] [0x41; 0x42; 0x43] 0x1F600);
    [repeat constructor; unfold is_scalar; lia.. | lia | vm_compute; reflexivity].
Defined.
