(* ===== verification/Integers.v ===== *)
(** * Integers in texts

    How integers are printed (tdutils/td/utils/StringBuilder.cpp: [print_uint], [print_int])
    and read (tdutils/td/utils/misc.h: [to_integer], [to_integer_safe], [hex_to_int];
    misc.cpp: [hex_encode], [hex_decode]).  The type of the integer is its number of bits. *)
From stdpp Require Import pretty.
From S2P Require Import Prelude Utf8.
Local Open Scope td_scope.

(** The characters of a message. *)
Definition text (l : list Z) : string := String.string_of_list_ascii (map (fun b => Ascii.ascii_of_nat (Z.to_nat b)) l).

(** ** Printing *)
(** The digits of a number as [print_uint] first writes them, from the last to the first one. *)
Fixpoint digits_backwards (fuel : nat) (x : Z) : list Z :=
  match fuel with
  | O => []
  | S fuel => 48 + x mod 10 :: if 0 <? x / 10 then digits_backwards fuel (x / 10) else []
  end.
Definition print_uint (x : Z) : list Z :=
  if x <? 100 then if x <? 10 then [48 + x] else [48 + x / 10; 48 + x mod 10]
  else rev (digits_backwards (S (Z.to_nat (Z.log2 x))) x).

Definition print_int_above (x : Z) : list Z := if x <? 0 then 45 :: print_uint (- x) else print_uint x.
(** The least number is printed as the next one, and its last digit is incremented. *)
Definition print_int (bits : Z) (x : Z) : Res (list Z) :=
  if (x <? 0) && (x =? - 2 ^ (bits - 1)) then
    let s := print_int_above (x + 1) in
    match last s with
    | Some c =>
        CHECK! negb (c =? 57) else "current_ptr[-1] != '9'" in
        Ok (removelast s ++ [u8 (c + 1)])
    | None => Panic "current_ptr[-1]"
    end
  else Ok (print_int_above x).

(** ** Reading *)
Definition is_digit (c : Z) : bool := (48 <=? c) && (c <=? 57).

Fixpoint read_digits (bits : Z) (str : list Z) (value : Z) : Z :=
  match str with
  | c :: str => if is_digit c then read_digits bits str ((value * 10 + (c - 48)) mod 2 ^ bits) else value
  | [] => value
  end.

Definition to_integer_unsigned (bits : Z) (str : list Z) : Z := read_digits bits str 0.
Definition to_integer (bits : Z) (str : list Z) : Z :=
  let max := 2 ^ (bits - 1) - 1 in
  let '(is_negative, digits) := match str with c :: rest => if c =? 45 then (true, rest) else (false, str) | [] => (false, str) end in
  let value := read_digits bits digits 0 in
  let finish (is_negative : bool) (value : Z) := if is_negative then - value else value in
  if max <? value then
    let value := (2 ^ bits - value) mod 2 ^ bits in
    if max <? value then - 2 ^ (bits - 1) else finish (negb is_negative) value
  else finish is_negative value.

Definition get_to_integer_safe_error (str : list Z) : Z * string :=
  let error_message := lit "Can't parse as an integer string " ++ [34] ++ str ++ [34] in
  match check_utf8 error_message with
  | Ok true => (0, text error_message)
  | _ => (0, "Strings must be encoded in UTF-8")
  end.
Definition to_integer_safe (bits : Z) (str : list Z) : Res Z :=
  let res := to_integer bits str in
  let* printed := print_int bits res in
  if bool_decide (printed = str) then Ok res
  else let e := get_to_integer_safe_error str in Error e.1 e.2.

(** ** Hexadecimal digits *)
Definition hex_to_int (c : Z) : Z :=
  if is_digit c then c - 48
  else
    let c := Z.lor c 0x20 in
    if (97 <=? c) && (c <=? 102) then c - 97 + 10 else 16.
Definition hex_digit (n : Z) : Z := if n <? 10 then 48 + n else 97 + (n - 10).

Definition hex_encode (data : list Z) : list Z := flat_map (fun c => [hex_digit (Z.shiftr c 4); hex_digit (Z.land c 15)]) data.
Fixpoint hex_pairs (hex : list Z) : Res (list Z) :=
  match hex with
  | a :: b :: hex =>
      let high := hex_to_int a in
      let low := hex_to_int b in
      if (high =? 16) || (low =? 16) then Error 0 "Wrong hex string"
      else let* rest := hex_pairs hex in Ok (u8 (high * 16 + low) :: rest)
  | _ => Ok []
  end.
Definition hex_decode (hex : list Z) : Res (list Z) :=
  if negb (Nat.even (length hex)) then Error 0 "Wrong hex string length" else hex_pairs hex.

(** ** The decimal digits of a number *)
Definition value_of (l : list Z) : Z := foldl (fun v c => v * 10 + (c - 48)) 0 l.

Lemma value_of_snoc l c : value_of (l ++ [c]) = value_of l * 10 + (c - 48).
Proof. unfold value_of. by rewrite foldl_app. Qed.

Lemma div10_small x n : 0 <= x < 2 ^ Z.of_nat (S n) -> 0 <= x / 10 < 2 ^ Z.of_nat n.
Proof. rewrite Nat2Z.inj_succ, Z.pow_succ_r by lia. intros. zlia. Qed.

Lemma digits_value fuel : forall x, 0 <= x < 2 ^ Z.of_nat fuel -> (0 < fuel)%nat -> value_of (rev (digits_backwards fuel x)) = x /\ Forall (fun c => is_digit c = true) (digits_backwards fuel x).
Proof.
  induction fuel as [|fuel IH]; intros x Hx Hf; [lia|]. cbn [digits_backwards rev]. rewrite value_of_snoc. assert (is_digit (48 + x mod 10) = true) as Hd by (unfold is_digit; apply andb_true_iff; split; zlia).
  destruct (Z.ltb_spec 0 (x / 10)) as [Hpos|Hz]; [|split; [cbn; zlia | by constructor]]. pose proof (div10_small x fuel Hx) as Hsmall. destruct (IH (x / 10) Hsmall) as [-> HF]; [destruct fuel; [cbn in Hsmall|]; lia|].
  split; [zlia | by constructor].
Qed.

Lemma lit_cons a s : lit (String a s) = Z.of_nat (Ascii.nat_of_ascii a) :: lit s.
Proof. done. Qed.
Lemma lit_app s s' : lit (s +:+ s') = lit s ++ lit s'.
Proof. induction s as [|a s IH]; [done|]. change (String a s +:+ s') with (String a (s +:+ s')). by rewrite !lit_cons, IH. Qed.
Lemma lit_pretty_char n : (n < 10)%N -> Z.of_nat (Ascii.nat_of_ascii (pretty_N_char n)) = 48 + Z.of_N n.
Proof.
  intros Hn. assert (forallb (fun i => bool_decide (Z.of_nat (Ascii.nat_of_ascii (pretty_N_char (N.of_nat i))) = 48 + Z.of_nat i)) (seq 0 10) = true) as H by (vm_compute; reflexivity).
  rewrite forallb_forall in H. specialize (H (N.to_nat n) ltac:(apply in_seq; lia)). apply bool_decide_eq_true in H. by rewrite N2Nat.id, N_nat_Z in H.
Qed.

Lemma digits_pretty fuel : forall x s, 0 < x < 2 ^ Z.of_nat fuel -> lit (pretty_N_go (Z.to_N x) s) = rev (digits_backwards fuel x) ++ lit s.
Proof.
  induction fuel as [|fuel IH]; intros x s Hx; [cbn in Hx; lia|]. rewrite pretty_N_go_step by lia. cbn [digits_backwards rev].
  assert (Z.to_N x `div` 10 = Z.to_N (x / 10))%N as -> by (rewrite Z2N.inj_div by lia; done). assert (Z.to_N x `mod` 10 = Z.to_N (x mod 10))%N as -> by (rewrite Z2N.inj_mod by lia; done).
  assert (lit (String (pretty_N_char (Z.to_N (x mod 10))) s) = 48 + x mod 10 :: lit s) as Hlit by (rewrite lit_cons, lit_pretty_char by zlia; f_equal; zlia).
  destruct (Z.ltb_spec 0 (x / 10)) as [Hpos|Hz].
  - rewrite IH by (pose proof (div10_small x fuel); lia). by rewrite Hlit, <- app_assoc.
  - replace (x / 10) with 0 by zlia. cbn [Z.to_N]. by rewrite pretty_N_go_0, Hlit.
Qed.

Lemma log2_fuel x : 0 < x -> x < 2 ^ Z.of_nat (S (Z.to_nat (Z.log2 x))).
Proof. intros Hx. rewrite Nat2Z.inj_succ, Z2Nat.id by apply Z.log2_nonneg. by apply Z.log2_spec. Qed.

(** The shortcuts of [print_uint] do what its loop does. *)
Lemma print_uint_digits x : 0 <= x -> exists fuel, (0 < fuel)%nat /\ x < 2 ^ Z.of_nat fuel /\ print_uint x = rev (digits_backwards fuel x).
Proof.
  intros Hx. unfold print_uint. destruct (Z.ltb_spec x 100); [|exists (S (Z.to_nat (Z.log2 x))); split_and!; [lia | apply log2_fuel; lia | done]].
  exists 7%nat. split_and!; [lia | cbn; lia|]. destruct (Z.ltb_spec x 10).
  - cbn [digits_backwards]. rewrite Z.div_small, Z.mod_small by lia. done.
  - cbn [digits_backwards]. rewrite (proj2 (Z.ltb_lt 0 (x / 10))) by zlia. rewrite (proj2 (Z.ltb_ge 0 (x / 10 / 10))) by zlia. cbn [rev app]. rewrite (Z.mod_small (x / 10)) by zlia. done.
Qed.

Lemma print_uint_value x : 0 <= x -> value_of (print_uint x) = x /\ Forall (fun c => is_digit c = true) (print_uint x).
Proof. intros Hx. destruct (print_uint_digits x Hx) as (fuel & Hf & Hlt & ->). destruct (digits_value fuel x) as [H1 H2]; [lia | done|]. split; [done|]. by apply Forall_rev. Qed.

Lemma print_uint_pretty x : 0 <= x -> print_uint x = lit (pretty (Z.to_N x)).
Proof.
  intros Hx. destruct (decide (x = 0)) as [->|Hne]; [done|]. destruct (print_uint_digits x Hx) as (fuel & Hf & Hlt & ->). unfold pretty, pretty_N. rewrite decide_False by lia.
  rewrite (digits_pretty fuel) by lia. cbn. by rewrite app_nil_r.
Qed.

Lemma lit_pretty_nonneg x : 0 <= x -> lit (pretty x) = print_uint x.
Proof. intros Hx. rewrite print_uint_pretty by done. destruct x as [|x|x]; [done | done | lia]. Qed.
Lemma lit_pretty_neg x : x < 0 -> lit (pretty x) = 45 :: print_uint (- x).
Proof. intros Hx. rewrite print_uint_pretty by lia. destruct x as [|x|x]; [lia | lia | done]. Qed.
Lemma print_int_above_pretty x : print_int_above x = lit (pretty x).
Proof. unfold print_int_above. destruct (Z.ltb_spec x 0); [by rewrite lit_pretty_neg | by rewrite lit_pretty_nonneg]. Qed.

(** *** Printing gives the decimal notation, also of the least number. *)
Definition fits (bits x : Z) : Prop := - 2 ^ (bits - 1) <= x < 2 ^ (bits - 1).

Lemma print_int_pretty bits x : bits = 32 \/ bits = 64 -> print_int bits x = Ok (lit (pretty x)).
Proof.
  intros Hbits. unfold print_int. destruct (Z.eqb_spec x (- 2 ^ (bits - 1))) as [->|Hne]; [|rewrite andb_false_r; by rewrite print_int_above_pretty].
  destruct Hbits as [-> | ->]; vm_compute; reflexivity.
Qed.

(** *** Reading gives the number back *)
Lemma read_digits_value bits str : forall v, Forall (fun c => is_digit c = true) str -> 0 <= bits -> read_digits bits str (v mod 2 ^ bits) = foldl (fun v c => v * 10 + (c - 48)) v str mod 2 ^ bits.
Proof.
  induction str as [|c str IH]; intros v Hd Hb; [done|]. apply Forall_cons in Hd as [Hc Hd]. cbn [read_digits foldl]. rewrite Hc, <- IH by done. f_equal.
  rewrite Zplus_mod, Zmult_mod_idemp_l, <- Zplus_mod. done.
Qed.
Lemma read_print bits x : 0 <= x < 2 ^ bits -> 0 <= bits -> read_digits bits (print_uint x) 0 = x.
Proof.
  intros Hx Hb. destruct (print_uint_value x) as [Hv Hd]; [lia|]. pose proof (read_digits_value bits (print_uint x) 0 Hd Hb) as H. rewrite Z.mod_0_l in H by lia. rewrite H. change (foldl _ 0 _) with (value_of (print_uint x)). rewrite Hv. apply Z.mod_small. lia.
Qed.

Lemma to_integer_pretty bits x : bits = 32 \/ bits = 64 -> fits bits x -> to_integer bits (lit (pretty x)) = x.
Proof.
  intros Hbits Hx. assert (2 ^ bits = 2 * 2 ^ (bits - 1) /\ 0 < 2 ^ (bits - 1)) as [Hp Hpos] by (by destruct Hbits as [-> | ->]). unfold fits in Hx. unfold to_integer. destruct (Z.ltb_spec x 0) as [Hneg|Hneg].
  - rewrite lit_pretty_neg by done. change (45 =? 45) with true. cbv iota. rewrite read_print by lia. destruct (Z.ltb_spec (2 ^ (bits - 1) - 1) (- x)); [|lia].
    assert (x = - 2 ^ (bits - 1)) as -> by lia. rewrite Z.mod_small by lia. destruct (Z.ltb_spec (2 ^ (bits - 1) - 1) (2 ^ bits - - - 2 ^ (bits - 1))); [done | lia].
  - rewrite lit_pretty_nonneg by done. destruct (print_uint_value x Hneg) as [_ Hd]. pose proof (read_print bits x ltac:(lia) ltac:(lia)) as Hr.
    assert (match print_uint x with c :: rest => if c =? 45 then (true, rest) else (false, print_uint x) | [] => (false, print_uint x) end = (false, print_uint x)) as ->.
    { destruct (print_uint x) as [|c r]; [done|]. apply Forall_cons in Hd as [Hc _]. destruct (Z.eqb_spec c 45) as [->|]; [by vm_compute in Hc | done]. }
    rewrite Hr. destruct (Z.ltb_spec (2 ^ (bits - 1) - 1) x); [lia | done].
Qed.

Lemma read_digits_range bits str : forall v, 0 <= v < 2 ^ bits -> 0 <= read_digits bits str v < 2 ^ bits.
Proof. induction str as [|c str IH]; intros v Hv; [done|]. cbn [read_digits]. destruct (is_digit c); [|done]. apply IH, Z.mod_pos_bound. lia. Qed.

Lemma to_integer_fits bits str : bits = 32 \/ bits = 64 -> fits bits (to_integer bits str).
Proof.
  intros Hbits. assert (2 ^ bits = 2 * 2 ^ (bits - 1) /\ 0 < 2 ^ (bits - 1)) as [Hp Hpos] by (by destruct Hbits as [-> | ->]). unfold fits, to_integer. destruct (match str with [] => _ | _ => _ end) as [neg digits].
  pose proof (read_digits_range bits digits 0 ltac:(lia)) as Hr. set (v := read_digits bits digits 0) in *. destruct (Z.ltb_spec (2 ^ (bits - 1) - 1) v).
  - pose proof (Z.mod_pos_bound (2 ^ bits - v) (2 ^ bits) ltac:(lia)). destruct (Z.ltb_spec (2 ^ (bits - 1) - 1) ((2 ^ bits - v) mod 2 ^ bits)); [lia|]. destruct (negb neg); lia.
  - destruct neg; lia.
Qed.

(** [to_integer_safe] accepts a text exactly if it is the decimal notation of an integer of
    the type, and gives that integer: no sign but a minus, no leading zero or space, no
    trailing text, no value that has wrapped around; the least number included. *)
Theorem to_integer_safe_exact (bits : Z) (str : list Z) (x : Z) : bits = 32 \/ bits = 64 ->
  to_integer_safe bits str = Ok x <-> fits bits x /\ str = lit (pretty x).
Proof.
  intros Hbits. unfold to_integer_safe. rewrite print_int_pretty by done. cbn [res_bind]. split.
  - case_bool_decide as He; [|done]. intros [= <-]. split; [by apply to_integer_fits | done].
  - intros [Hx ->]. by rewrite to_integer_pretty, bool_decide_eq_true_2.
Qed.

(** *** Hexadecimal *)
Lemma hex_digit_int n : 0 <= n < 16 -> hex_to_int (hex_digit n) = n.
Proof. intros Hn. assert (forallb (fun n => hex_to_int (hex_digit n) =? n) (map Z.of_nat (seq 0 16)) = true) as H by (vm_compute; reflexivity). rewrite forallb_forall in H. apply Z.eqb_eq, H. rewrite in_map_iff. exists (Z.to_nat n). rewrite in_seq. lia. Qed.

Theorem hex_roundtrip (data : list Z) : bytes data -> hex_decode (hex_encode data) = Ok data.
Proof.
  intros Hd. unfold hex_decode. assert (Nat.even (length (hex_encode data)) = true) as ->. { clear Hd. unfold hex_encode. induction data as [|c data IH]; [done|]. done. }
  cbn [negb]. induction Hd as [|c data Hc Hd IH]; [done|]. unfold is_byte in Hc. change (hex_encode (c :: data)) with (hex_digit (Z.shiftr c 4) :: hex_digit (Z.land c 15) :: hex_encode data). cbn [hex_pairs].
  change 15 with (2 ^ 4 - 1). rewrite land_ones_mod, Z.shiftr_div_pow2 by lia. change (2 ^ 4) with 16. rewrite !hex_digit_int by zlia. rewrite IH.
  rewrite (proj2 (Z.eqb_neq (c / 16) 16)), (proj2 (Z.eqb_neq (c mod 16) 16)) by zlia. cbn [orb res_bind]. rewrite u8_small by (unfold is_byte; zlia). do 2 f_equal. zlia.
Qed.
