(* ===== verification/Json.v ===== *)
(** * The decoder of JSON texts

    [Parser] (tdutils/td/utils/Parser.h), [JsonValue] and [JsonObject]
    (tdutils/td/utils/JsonBuilder.h), [json_string_decode], [json_string_skip],
    [do_json_decode], [do_json_skip] and [json_decode] (JsonBuilder.h, JsonBuilder.cpp).

    A string is decoded in the buffer that holds the text: the decoded bytes overwrite the
    escaped ones, and the value refers to them.  A [Slice] is therefore a position and a
    size, and what a value means is read from the buffer when the decoding has ended.
    Characters are bytes: 34 is the quotation mark and 92 the backslash. *)
From S2P Require Import Prelude Utf8 Integers.
Local Open Scope td_scope.

(** ** Values *)
Unset Elimination Schemes.
Inductive JsonValue (S : Type) : Type :=
| JsonNull
| JsonNumber (number : S)
| JsonBoolean (b : bool)
| JsonString (str : S)
| JsonArray (values : list (JsonValue S))
| JsonObject (field_values : list (S * JsonValue S)).
Set Elimination Schemes.
Arguments JsonNull {S}.
Arguments JsonNumber {S} _.
Arguments JsonBoolean {S} _.
Arguments JsonString {S} _.
Arguments JsonArray {S} _.
Arguments JsonObject {S} _.

Fixpoint json_map {S T} (f : S -> T) (v : JsonValue S) : JsonValue T :=
  match v with
  | JsonNull => JsonNull
  | JsonNumber s => JsonNumber (f s)
  | JsonBoolean b => JsonBoolean b
  | JsonString s => JsonString (f s)
  | JsonArray l => JsonArray (map (json_map f) l)
  | JsonObject l => JsonObject (map (fun x => (f x.1, json_map f x.2)) l)
  end.

Abbreviation Slice := (nat * nat)%type.
Definition slice_of (b : list Z) (s : Slice) : list Z := take s.2 (drop s.1 b).

(** ** The parser *)
Record Parser := { data_ : list Z; ptr_ : nat; status_ : option (Z * string) }.
Definition new_parser (data : list Z) : Parser := {| data_ := data; ptr_ := 0; status_ := None |}.
Definition remaining (p : Parser) : list Z := drop (ptr_ p) (data_ p).
Definition moved (n : nat) (p : Parser) : Parser := {| data_ := data_ p; ptr_ := ptr_ p + n; status_ := status_ p |}.

Definition empty (p : Parser) : bool := match remaining p with [] => true | _ => false end.
Definition peek_char (p : Parser) : Z := match remaining p with c :: _ => c | [] => 0 end.
Definition advance (n : nat) (p : Parser) : Res Parser :=
  CHECK! Nat.leb (ptr_ p + n) (length (data_ p)) else "ptr_ <= end_" in
  Ok (moved n p).
Definition skip (c : Z) (p : Parser) : Parser :=
  match status_ p with
  | Some _ => p
  | None =>
      match remaining p with
      | x :: _ => if x =? c then moved 1 p else {| data_ := data_ p; ptr_ := ptr_ p; status_ := Some (0, text (lit "Skip '" ++ [c] ++ lit "' failed")) |}
      | [] => {| data_ := data_ p; ptr_ := ptr_ p; status_ := Some (0, text (lit "Skip '" ++ [c] ++ lit "' failed")) |}
      end
  end.
Definition try_skip (c : Z) (p : Parser) : bool * Parser :=
  match remaining p with
  | x :: _ => if x =? c then (true, moved 1 p) else (false, p)
  | [] => (false, p)
  end.
Definition try_skip_slice (prefix : list Z) (p : Parser) : Res (bool * Parser) :=
  if Nat.ltb (length (remaining p)) (length prefix) || negb (bool_decide (prefix = take (length prefix) (remaining p))) then Ok (false, p)
  else let* p := advance (length prefix) p in Ok (true, p).
(** How many characters a loop over [ptr_] passes. *)
Fixpoint count_while (f : Z -> bool) (l : list Z) : nat :=
  match l with
  | c :: l => if f c then S (count_while f l) else 0
  | [] => 0
  end.
Definition read_while (f : Z -> bool) (p : Parser) : Slice * Parser :=
  let n := count_while f (remaining p) in ((ptr_ p, n), moved n p).
Definition is_whitespace (c : Z) : bool := (c =? 32) || (c =? 9) || (c =? 13) || (c =? 10).
Definition skip_whitespaces (p : Parser) : Parser := moved (count_while is_whitespace (remaining p)) p.

(** ** Strings *)
Definition opening_expected : string := text (lit "Opening '" ++ [34] ++ lit "' expected").
Definition closing_not_found : string := text (lit "Closing '" ++ [34] ++ lit "' not found").

Definition write (b : list Z) (i : nat) (x : Z) : Res (list Z) :=
  if Nat.ltb i (length b) then Ok (<[i := x]> b) else Panic "*cur_dest".
(** The bytes are those which [append_utf8_character] appends. *)
Fixpoint write_all (b : list Z) (i : nat) (l : list Z) : Res (list Z * nat) :=
  match l with
  | x :: l => let* b := write b i x in write_all b (S i) l
  | [] => Ok (b, i)
  end.
Definition append_utf8_character_unsafe (b : list Z) (ptr : nat) (code : Z) : Res (list Z * nat) :=
  write_all b ptr (append_utf8_character [] code).

Definition unescape (c : Z) : option Z :=
  if c =? 98 then Some 8 else if c =? 102 then Some 12 else if c =? 110 then Some 10 else if c =? 114 then Some 13 else if c =? 116 then Some 9 else None.

(** The loop over four symbols. *)
Fixpoint read_hex (n : nat) (l : list Z) (num : Z) : Res Z :=
  match n with
  | O => Ok num
  | S n =>
      match l with
      | c :: l =>
          let d := hex_to_int c in
          if d =? 16 then Error 0 "Invalid \u -- not hex digit" else read_hex n l (num * 16 + d)
      | [] => Panic "*cur_src"
      end
  end.
Definition is_surrogate (num : Z) : bool := (0xD7FF <? num) && (num <? 0xE000).

(** The code after the symbols [l] that follow a first surrogate, and how many of them it takes. *)
Definition second_surrogate (num : Z) (l : list Z) : Res (Z * nat) :=
  if is_surrogate num then
    match l with
    | c :: u :: l =>
        if Nat.leb 4 (length l) && (c =? 92) && (u =? 117) then
          let* new_num := read_hex 4 l 0 in
          Ok (if is_surrogate new_num then (Z.lor (Z.shiftl (Z.land num 0x3FF) 10) (Z.land new_num 0x3FF) + 0x10000, 6%nat) else (num, 0%nat))
        else Ok (num, 0%nat)
    | _ => Ok (num, 0%nat)
    end
  else Ok (num, 0%nat).

(** The loop of [json_string_decode]: the buffer, [cur_src] and [cur_dest]. *)
Fixpoint string_loop (fuel : nat) (b : list Z) (src dest : nat) : Res (list Z * nat * nat) :=
  match fuel with
  | O => Panic "fuel"
  | S fuel =>
      match drop src b with
      | [] => Error 0 closing_not_found
      | c :: r =>
          if c =? 34 then Ok (b, src, dest)
          else if c =? 92 then
            match r with
            | [] => Error 0 closing_not_found
            | e :: r =>
                match unescape e with
                | Some x => let* b := write b dest x in string_loop fuel b (src + 2) (S dest)
                | None =>
                    if e =? 117 then
                      if Nat.ltb (length r) 4 then Error 0 "\u has less than 4 symbols"
                      else
                        let* num := read_hex 4 r 0 in
                        let* (num, more) := second_surrogate num (drop 4 r) in
                        let* (b, dest) := append_utf8_character_unsafe b dest num in
                        string_loop fuel b (src + 6 + more) dest
                    else let* b := write b dest e in string_loop fuel b (src + 2) (S dest)
                end
            end
          else let* b := write b dest c in string_loop fuel b (src + 1) (S dest)
      end
  end.

Definition json_string_decode (p : Parser) : Res (Slice * Parser) :=
  let '(ok, p) := try_skip 34 p in
  if negb ok then Error 0 opening_expected
  else
    let start := ptr_ p in
    let* (b, src, dest) := string_loop (S (length (data_ p))) (data_ p) start start in
    let* p := advance (src + 1 - start) {| data_ := b; ptr_ := start; status_ := status_ p |} in
    Ok ((start, dest - start)%nat, p).

Fixpoint string_skip_loop (fuel : nat) (b : list Z) (src : nat) : Res nat :=
  match fuel with
  | O => Panic "fuel"
  | S fuel =>
      match drop src b with
      | [] => Error 0 closing_not_found
      | c :: r =>
          if c =? 34 then Ok src
          else if c =? 92 then
            match r with
            | [] => Error 0 closing_not_found
            | e :: r =>
                if e =? 117 then
                  if Nat.ltb (length r) 4 then Error 0 "\u has less than 4 symbols"
                  else
                    let* num := read_hex 4 r 0 in
                    let* (_, more) := second_surrogate num (drop 4 r) in
                    string_skip_loop fuel b (src + 6 + more)
                else string_skip_loop fuel b (src + 2)
            end
          else string_skip_loop fuel b (src + 1)
      end
  end.
Definition json_string_skip (p : Parser) : Res Parser :=
  let '(ok, p) := try_skip 34 p in
  if negb ok then Error 0 opening_expected
  else
    let* src := string_skip_loop (S (length (data_ p))) (data_ p) (ptr_ p) in
    advance (src + 1 - ptr_ p) p.

(** ** Values *)
Definition starts_number (c : Z) : bool := (c =? 45) || (c =? 43) || (c =? 46) || is_digit c.
Definition number_char (c : Z) : bool := (c =? 45) || is_digit c || (c =? 101) || (c =? 69) || (c =? 43) || (c =? 46).
Definition unexpected_symbol (c : Z) : string :=
  if (0 <? c) && (c <? 127) then text (lit "Unexpected symbol '" ++ [c] ++ lit "'") else "Unexpected symbol".

Fixpoint do_json_decode (fuel : nat) (p : Parser) (max_depth : Z) : Res (JsonValue Slice * Parser) :=
  match fuel with
  | O => Panic "fuel"
  | S fuel =>
      if max_depth <? 0 then Error 0 "Too big object depth"
      else
        let p := skip_whitespaces p in
        let c := peek_char p in
        if c =? 102 then
          let* (ok, p) := try_skip_slice (lit "false") p in
          if ok : bool then Ok (JsonBoolean false, p) else Error 0 "Token starts with 'f' -- false expected"
        else if c =? 116 then
          let* (ok, p) := try_skip_slice (lit "true") p in
          if ok : bool then Ok (JsonBoolean true, p) else Error 0 "Token starts with 't' -- true expected"
        else if c =? 110 then
          let* (ok, p) := try_skip_slice (lit "null") p in
          if ok : bool then Ok (JsonNull, p) else Error 0 "Token starts with 'n' -- null expected"
        else if c =? 34 then
          let* (slice, p) := json_string_decode p in
          Ok (JsonString slice, p)
        else if c =? 91 then
          let p := skip_whitespaces (skip 91 p) in
          let '(ok, p) := try_skip 93 p in
          if ok then Ok (JsonArray [], p) else decode_array fuel p max_depth []
        else if c =? 123 then
          let p := skip_whitespaces (skip 123 p) in
          let '(ok, p) := try_skip 125 p in
          if ok then Ok (JsonObject [], p) else decode_object fuel p max_depth []
        else if starts_number c then
          let '(num, p) := read_while number_char p in
          Ok (JsonNumber num, p)
        else if c =? 0 then Error 0 "Unexpected string end"
        else Error 0 (unexpected_symbol c)
  end
with decode_array (fuel : nat) (p : Parser) (max_depth : Z) (res : list (JsonValue Slice)) : Res (JsonValue Slice * Parser) :=
  match fuel with
  | O => Panic "fuel"
  | S fuel =>
      if empty p then Error 0 "Unexpected string end"
      else
        let* (value, p) := do_json_decode fuel p (max_depth - 1) in
        let res := res ++ [value] in
        let p := skip_whitespaces p in
        let '(ok, p) := try_skip 93 p in
        if ok then Ok (JsonArray res, p)
        else
          let '(ok, p) := try_skip 44 p in
          if ok then decode_array fuel (skip_whitespaces p) max_depth res
          else if empty p then Error 0 "Unexpected string end"
          else Error 0 "Unexpected symbol while parsing JSON Array"
  end
with decode_object (fuel : nat) (p : Parser) (max_depth : Z) (field_values : list (Slice * JsonValue Slice)) : Res (JsonValue Slice * Parser) :=
  match fuel with
  | O => Panic "fuel"
  | S fuel =>
      if empty p then Error 0 "Unexpected string end"
      else
        let* (field, p) := json_string_decode p in
        let p := skip_whitespaces p in
        let '(ok, p) := try_skip 58 p in
        if negb ok then Error 0 "':' expected"
        else
          let* (value, p) := do_json_decode fuel p (max_depth - 1) in
          let field_values := field_values ++ [(field, value)] in
          let p := skip_whitespaces p in
          let '(ok, p) := try_skip 125 p in
          if ok then Ok (JsonObject field_values, p)
          else
            let '(ok, p) := try_skip 44 p in
            if ok then decode_object fuel (skip_whitespaces p) max_depth field_values
            else if empty p then Error 0 "Unexpected string end"
            else Error 0 "Unexpected symbol while parsing JSON Object"
  end.

Fixpoint do_json_skip (fuel : nat) (p : Parser) (max_depth : Z) : Res Parser :=
  match fuel with
  | O => Panic "fuel"
  | S fuel =>
      if max_depth <? 0 then Error 0 "Too big object depth"
      else
        let p := skip_whitespaces p in
        let c := peek_char p in
        if c =? 102 then
          let* (ok, p) := try_skip_slice (lit "false") p in
          if ok : bool then Ok p else Error 0 "Starts with 'f' -- false expected"
        else if c =? 116 then
          let* (ok, p) := try_skip_slice (lit "true") p in
          if ok : bool then Ok p else Error 0 "Starts with 't' -- true expected"
        else if c =? 110 then
          let* (ok, p) := try_skip_slice (lit "null") p in
          if ok : bool then Ok p else Error 0 "Starts with 'n' -- null expected"
        else if c =? 34 then json_string_skip p
        else if c =? 91 then
          let p := skip_whitespaces (skip 91 p) in
          let '(ok, p) := try_skip 93 p in
          if ok then Ok p else skip_array fuel p max_depth
        else if c =? 123 then
          let p := skip_whitespaces (skip 123 p) in
          let '(ok, p) := try_skip 125 p in
          if ok then Ok p else skip_object fuel p max_depth
        else if starts_number c then
          let '(_, p) := read_while number_char p in Ok p
        else if c =? 0 then Error 0 "Unexpected end"
        else Error 0 (unexpected_symbol c)
  end
with skip_array (fuel : nat) (p : Parser) (max_depth : Z) : Res Parser :=
  match fuel with
  | O => Panic "fuel"
  | S fuel =>
      if empty p then Error 0 "Unexpected end"
      else
        let* p := do_json_skip fuel p (max_depth - 1) in
        let p := skip_whitespaces p in
        let '(ok, p) := try_skip 93 p in
        if ok then Ok p
        else
          let '(ok, p) := try_skip 44 p in
          if ok then skip_array fuel (skip_whitespaces p) max_depth else Error 0 "Unexpected symbol"
  end
with skip_object (fuel : nat) (p : Parser) (max_depth : Z) : Res Parser :=
  match fuel with
  | O => Panic "fuel"
  | S fuel =>
      if empty p then Error 0 "Unexpected end"
      else
        let* p := json_string_skip p in
        let p := skip_whitespaces p in
        let '(ok, p) := try_skip 58 p in
        if negb ok then Error 0 "':' expected"
        else
          let* p := do_json_skip fuel p (max_depth - 1) in
          let p := skip_whitespaces p in
          let '(ok, p) := try_skip 125 p in
          if ok then Ok p
          else
            let '(ok, p) := try_skip 44 p in
            if ok then skip_object fuel (skip_whitespaces p) max_depth else Error 0 "Unexpected symbol"
  end.

(** A value takes at most two calls for a character that is left, and two more. *)
Definition json_fuel (p : Parser) : nat := 2 * length (remaining p) + 2.

(** [json_decode]: the value and the buffer it refers to. *)
Definition DEFAULT_MAX_DEPTH : Z := 100.
Definition json_decode (json : list Z) : Res (JsonValue Slice * list Z) :=
  let p := new_parser json in
  let* (result, p) := do_json_decode (json_fuel p) p DEFAULT_MAX_DEPTH in
  let p := skip_whitespaces p in
  if negb (empty p) then Error 0 "Expected string end" else Ok (result, data_ p).

(** What a decoded value means. *)
Definition meaning (r : JsonValue Slice * list Z) : JsonValue (list Z) := json_map (slice_of r.2) r.1.

Example decode_example :
  match json_decode (lit "{" ++ [34] ++ lit "a\u00e9\n" ++ [34] ++ lit " : [1, -2e5 ,[],true] }") with
  | Ok r => meaning r = JsonObject [(lit "a" ++ [195; 169; 10], JsonArray [JsonNumber (lit "1"); JsonNumber (lit "-2e5"); JsonArray []; JsonBoolean true])]
  | _ => False
  end.
Proof. vm_compute. reflexivity. Qed.

(** Two halves of a pair are accepted in any order, and one alone gives bytes that are not UTF-8. *)
Example swapped_surrogates :
  match json_decode ([34] ++ lit "\udc00\ud800" ++ [34]), json_decode ([34] ++ lit "\ud800\udc00" ++ [34]) with
  | Ok r, Ok r' => meaning r = meaning r' /\ meaning r = JsonString (enc 0x10000)
  | _, _ => False
  end.
Proof. vm_compute. done. Qed.
Example lone_surrogate :
  match json_decode ([34] ++ lit "\ud800" ++ [34]) with
  | Ok r => meaning r = JsonString [237; 160; 128] /\ check_utf8 [237; 160; 128] = Ok false
  | _ => False
  end.
Proof. vm_compute. done. Qed.
