(* ===== verification/JsonReference.v ===== *)
(** * The decoder of JSON texts: its theorems

    A reference decoder on lists of bytes, without a buffer and without positions; the
    decoder of Json, which overwrites its input, computes the same; [do_json_skip] passes
    exactly the same texts; and the reference decoder returns for every text. *)
From S2P Require Import Prelude Utf8 Integers Json.
Local Open Scope td_scope.

(** ** Induction on values *)
Section values.
Context {S : Type} (P : JsonValue S -> Prop).
Hypothesis Hnull : P JsonNull.
Hypothesis Hnumber : forall s, P (JsonNumber s).
Hypothesis Hboolean : forall b, P (JsonBoolean b).
Hypothesis Hstring : forall s, P (JsonString s).
Hypothesis Harray : forall l, Forall P l -> P (JsonArray l).
Hypothesis Hobject : forall l, Forall (fun x => P x.2) l -> P (JsonObject l).
Fixpoint json_induction (v : JsonValue S) : P v :=
  match v with
  | JsonNull => Hnull
  | JsonNumber s => Hnumber s
  | JsonBoolean b => Hboolean b
  | JsonString s => Hstring s
  | JsonArray l => Harray l ((fix go l := match l return Forall P l with [] => Forall_nil_2 _ | x :: l => Forall_cons_2 _ _ _ (json_induction x) (go l) end) l)
  | JsonObject l => Hobject l ((fix go l := match l return Forall (fun x => P x.2) l with [] => Forall_nil_2 _ | x :: l => Forall_cons_2 (fun x => P x.2) _ _ (json_induction x.2) (go l) end) l)
  end.
End values.

(** ** The reference decoder *)
Definition ws (l : list Z) : list Z := drop (count_while is_whitespace l) l.
Definition strip (c : Z) (l : list Z) : option (list Z) := match l with x :: l => if x =? c then Some l else None | [] => None end.
Definition strip_word (w l : list Z) : option (list Z) := if bool_decide (w = take (length w) l) then Some (drop (length w) l) else None.

Fixpoint string_ref (l : list Z) : Res (list Z * list Z) :=
  match l with
  | [] => Error 0 closing_not_found
  | c :: r =>
      if c =? 34 then Ok ([], r)
      else if c =? 92 then
        match r with
        | [] => Error 0 closing_not_found
        | e :: r1 =>
            match unescape e with
            | Some x => let* (s, rest) := string_ref r1 in Ok (x :: s, rest)
            | None =>
                if e =? 117 then
                  match r1 with
                  | _ :: _ :: _ :: _ :: r2 =>
                      let* num := read_hex 4 r1 0 in
                      let* (num, more) := second_surrogate num r2 in
                      let* (s, rest) :=
                        match more with
                        | O => string_ref r2
                        | _ => match r2 with _ :: _ :: _ :: _ :: _ :: _ :: r3 => string_ref r3 | _ => Panic "six symbols" end
                        end in
                      Ok (enc num ++ s, rest)
                  | _ => Error 0 "\u has less than 4 symbols"
                  end
                else let* (s, rest) := string_ref r1 in Ok (e :: s, rest)
            end
        end
      else let* (s, rest) := string_ref r in Ok (c :: s, rest)
  end.
Definition quoted_ref (l : list Z) : Res (list Z * list Z) :=
  match strip 34 l with Some l => string_ref l | None => Error 0 opening_expected end.

Abbreviation Json := (JsonValue (list Z)).
Definition word_ref (w : list Z) (v : Json) (error : string) (l : list Z) : Res (Json * list Z) :=
  match strip_word w l with Some l => Ok (v, l) | None => Error 0 error end.

Fixpoint json_ref (fuel : nat) (l : list Z) (max_depth : Z) : Res (Json * list Z) :=
  match fuel with
  | O => Panic "fuel"
  | S fuel =>
      if max_depth <? 0 then Error 0 "Too big object depth"
      else
        let l := ws l in
        match l with
        | [] => Error 0 "Unexpected string end"
        | c :: r =>
            if c =? 102 then word_ref (lit "false") (JsonBoolean false) "Token starts with 'f' -- false expected" l
            else if c =? 116 then word_ref (lit "true") (JsonBoolean true) "Token starts with 't' -- true expected" l
            else if c =? 110 then word_ref (lit "null") JsonNull "Token starts with 'n' -- null expected" l
            else if c =? 34 then let* (s, rest) := quoted_ref l in Ok (JsonString s, rest)
            else if c =? 91 then match strip 93 (ws r) with Some rest => Ok (JsonArray [], rest) | None => array_ref fuel (ws r) max_depth [] end
            else if c =? 123 then match strip 125 (ws r) with Some rest => Ok (JsonObject [], rest) | None => object_ref fuel (ws r) max_depth [] end
            else if starts_number c then let n := count_while number_char l in Ok (JsonNumber (take n l), drop n l)
            else if c =? 0 then Error 0 "Unexpected string end"
            else Error 0 (unexpected_symbol c)
        end
  end
with array_ref (fuel : nat) (l : list Z) (max_depth : Z) (vs : list Json) : Res (Json * list Z) :=
  match fuel with
  | O => Panic "fuel"
  | S fuel =>
      match l with
      | [] => Error 0 "Unexpected string end"
      | _ =>
          let* (v, l) := json_ref fuel l (max_depth - 1) in
          let vs := vs ++ [v] in
          match strip 93 (ws l) with
          | Some rest => Ok (JsonArray vs, rest)
          | None =>
              match strip 44 (ws l) with
              | Some rest => array_ref fuel (ws rest) max_depth vs
              | None => match ws l with [] => Error 0 "Unexpected string end" | _ => Error 0 "Unexpected symbol while parsing JSON Array" end
              end
          end
      end
  end
with object_ref (fuel : nat) (l : list Z) (max_depth : Z) (vs : list (list Z * Json)) : Res (Json * list Z) :=
  match fuel with
  | O => Panic "fuel"
  | S fuel =>
      match l with
      | [] => Error 0 "Unexpected string end"
      | _ =>
          let* (k, l) := quoted_ref l in
          match strip 58 (ws l) with
          | None => Error 0 "':' expected"
          | Some l =>
              let* (v, l) := json_ref fuel l (max_depth - 1) in
              let vs := vs ++ [(k, v)] in
              match strip 125 (ws l) with
              | Some rest => Ok (JsonObject vs, rest)
              | None =>
                  match strip 44 (ws l) with
                  | Some rest => object_ref fuel (ws rest) max_depth vs
                  | None => match ws l with [] => Error 0 "Unexpected string end" | _ => Error 0 "Unexpected symbol while parsing JSON Object" end
                  end
              end
          end
      end
  end.

Definition json_reference (json : list Z) : Res Json :=
  let* (v, rest) := json_ref (2 * length json + 2) json DEFAULT_MAX_DEPTH in
  match ws rest with [] => Ok v | _ => Error 0 "Expected string end" end.

(** ** Writing behind the reader *)
Lemma write_all_ok w : forall b i, (i + length w <= length b)%nat -> write_all b i w = Ok (take i b ++ w ++ drop (i + length w) b, (i + length w)%nat).
Proof.
  induction w as [|x w IH]; intros b i Hi; cbn [length write_all app] in *.
  - rewrite Nat.add_0_r. by rewrite take_drop.
  - unfold write. rewrite (proj2 (Nat.ltb_lt i (length b))) by lia. cbn [res_bind]. rewrite IH by (rewrite length_insert; lia). f_equal. f_equal; [|lia].
    rewrite insert_take_drop by lia. rewrite take_app_ge, length_take_le by (rewrite ?length_take; lia). replace (S i - i)%nat with 1%nat by lia. cbn [take]. rewrite take_0, <- app_assoc. cbn [app]. f_equal. f_equal. f_equal.
    rewrite drop_app_ge, length_take_le by (rewrite ?length_take; lia). replace (S i + length w - i)%nat with (S (length w)) by lia. cbn [drop]. rewrite drop_drop. f_equal. lia.
Qed.

Lemma write_one b i x : (i < length b)%nat -> write b i x = Ok (take i b ++ [x] ++ drop (i + 1) b).
Proof. intros Hi. pose proof (write_all_ok [x] b i) as H. cbn [length write_all] in H. destruct (write b i x) as [b'| |]; cbn [res_bind] in H; [|exfalso..]; specialize (H ltac:(lia)); congruence. Qed.

(** What decoding a string in place has done: the bytes [s] are at [dest], and what stands
    before and after is as it was. *)
Record in_place (b : list Z) (dest : nat) (s rest : list Z) (b' : list Z) (src' : nat) : Prop := {
  ip_length : length b' = length b;
  ip_before : take dest b' = take dest b;
  ip_slice : slice_of b' (dest, length s) = s;
  ip_rest : drop (S src') b' = rest;
  ip_order : (dest + length s <= src' < length b)%nat;
}.

Lemma in_place_write w b dest s rest b' src' : (dest + length w <= length b)%nat ->
  in_place (take dest b ++ w ++ drop (dest + length w) b) (dest + length w) s rest b' src' -> in_place b dest (w ++ s) rest b' src'.
Proof.
  intros Hle [H1 H2 H3 H4 H5]. assert (length (take dest b ++ w ++ drop (dest + length w) b) = length b) as Hlen by (rewrite !length_app, length_take, length_drop; lia). rewrite Hlen in *.
  assert (take (dest + length w) b' = take dest b ++ w) as Hpre.
  { rewrite H2, app_assoc, take_app_length'; [done|]. rewrite length_app, length_take. lia. }
  constructor; [done | | | done | rewrite length_app; lia].
  - replace (take dest b') with (take dest (take (dest + length w) b')) by (rewrite take_take; f_equal; lia). rewrite Hpre. apply take_app_length'. rewrite length_take. lia.
  - unfold slice_of in *. cbn [fst snd] in *. rewrite length_app. rewrite <- (take_drop (dest + length w) b'), Hpre, <- app_assoc. rewrite drop_app_length' by (rewrite length_take; lia).
    rewrite take_app_add. f_equal. exact H3.
Qed.

Lemma drop_written (w b : list Z) dest k : (dest + length w <= k)%nat -> (dest + length w <= length b)%nat -> drop k (take dest b ++ w ++ drop (dest + length w) b) = drop k b.
Proof.
  intros Hk Hlen. rewrite app_assoc, drop_app_ge by (rewrite length_app, length_take; lia). rewrite length_app, length_take, drop_drop. f_equal. lia.
Qed.
Lemma length_written (w b : list Z) dest : (dest + length w <= length b)%nat -> length (take dest b ++ w ++ drop (dest + length w) b) = length b.
Proof. intros. rewrite !length_app, length_take, length_drop. lia. Qed.

(** ** Strings *)
Lemma hex_to_int_range c : 0 <= hex_to_int c <= 16.
Proof. unfold hex_to_int, is_digit. repeat case_if; lia. Qed.
Lemma read_hex_cases n : forall l num, (n <= length l)%nat -> 0 <= num ->
  (exists m, read_hex n l num = Ok m /\ 0 <= m < (num + 1) * 16 ^ Z.of_nat n) \/ read_hex n l num = Error 0 "Invalid \u -- not hex digit".
Proof.
  induction n as [|n IH]; intros l num Hl Hnum; [left; exists num; split; [done | change (16 ^ Z.of_nat 0) with 1; lia]|]. destruct l as [|c l]; [cbn in Hl; lia|]. cbn [read_hex length] in *. pose proof (hex_to_int_range c).
  destruct (Z.eqb_spec (hex_to_int c) 16); [by right|]. destruct (IH l (num * 16 + hex_to_int c)) as [(m & -> & Hm)|]; [lia | lia | | by right]. left. exists m. split; [done|]. rewrite Nat2Z.inj_succ, Z.pow_succ_r by lia. nia.
Qed.

Lemma second_surrogate_cases num l : 0 <= num < 65536 ->
  second_surrogate num l = Ok (num, 0%nat) \/ (exists n, second_surrogate num l = Ok (n, 6%nat) /\ 0 <= n <= 0x10FFFF /\ (6 <= length l)%nat) \/ second_surrogate num l = Error 0 "Invalid \u -- not hex digit".
Proof.
  intros Hnum. unfold second_surrogate. destruct (is_surrogate num); [|by left]. destruct l as [|c [|u l]]; [by left | by left|]. destruct (Nat.leb_spec 4 (length l)) as [Hl|]; [|by left]. cbn [andb].
  destruct ((c =? 92) && (u =? 117)); [|by left]. destruct (read_hex_cases 4 l 0 Hl ltac:(lia)) as [(m & -> & Hm)| ->]; [|by auto]. cbn [res_bind]. destruct (is_surrogate m); [|by left]. right. left.
  eexists. split; [done|]. split; [|cbn; lia]. change 0x3FF with (2 ^ 10 - 1). rewrite !land_ones_mod, Z.shiftl_mul_pow2 by lia. pose proof (Z.mod_pos_bound num (2 ^ 10) ltac:(lia)). pose proof (Z.mod_pos_bound m (2 ^ 10) ltac:(lia)).
  rewrite lor_disjoint_add by lia. lia.
Qed.

Lemma enc_length c : (length (enc c) <= 4)%nat /\ (c <= 0xffff -> (length (enc c) <= 3)%nat).
Proof. unfold enc. repeat case_if; cbn; split; intros; lia. Qed.

(** A step of the loop: [w] was written, and [k] bytes were read. *)
Definition string_agrees (b : list Z) (dest : nat) (r : Res (list Z * nat * nat)) (q : Res (list Z * list Z)) : Prop :=
  match q with
  | Ok (s, rest) => exists b' src', r = Ok (b', src', (dest + length s)%nat) /\ in_place b dest s rest b' src'
  | Error c m => r = Error c m
  | Panic _ => False
  end.

Lemma string_step fuel w b src dest q : (dest + length w <= src)%nat -> (src <= length b)%nat ->
  string_agrees (take dest b ++ w ++ drop (dest + length w) b) (dest + length w) (string_loop fuel (take dest b ++ w ++ drop (dest + length w) b) src (dest + length w)) q ->
  string_agrees b dest (string_loop fuel (take dest b ++ w ++ drop (dest + length w) b) src (dest + length w)) (let* (s, rest) := q in Ok (w ++ s, rest)).
Proof.
  intros H1 H2. destruct q as [[s rest]| |]; cbn [string_agrees res_bind]; [|done | done]. intros (b' & src' & -> & Hip). exists b', src'. rewrite length_app, Nat.add_assoc. split; [done|]. apply in_place_write; [lia | done].
Qed.

Lemma string_loop_ref fuel : forall b src dest, (dest <= src <= length b)%nat -> (length b - src < fuel)%nat ->
  string_agrees b dest (string_loop fuel b src dest) (string_ref (drop src b)).
Proof.
  induction fuel as [|fuel IH]; intros b src dest Hle Hfuel; [lia|]. cbn [string_loop]. destruct (drop src b) as [|c r] eqn:Hd; [done|].
  assert (length (c :: r) = length b - src)%nat as Hlen by (rewrite <- Hd; apply length_drop). cbn [length] in Hlen. cbn [string_ref].
  assert (forall w k r', (dest + length w <= src + k)%nat -> drop k (c :: r) = r' -> (0 < k <= S (length r))%nat ->
    string_agrees b dest (string_loop fuel (take dest b ++ w ++ drop (dest + length w) b) (src + k) (dest + length w)) (let* (s, rest) := string_ref r' in Ok (w ++ s, rest))) as Hstep.
  { intros w k r' Hw <- Hk. apply string_step; [lia | lia|]. replace (drop k (c :: r)) with (drop (src + k) (take dest b ++ w ++ drop (dest + length w) b)); [apply IH; rewrite length_written; lia|].
    rewrite drop_written by lia. by rewrite <- Hd, drop_drop. }
  assert (forall x k r', (0 < k <= S (length r))%nat -> drop k (c :: r) = r' ->
    string_agrees b dest (let* b := write b dest x in string_loop fuel b (src + k) (S dest)) (let* (s, rest) := string_ref r' in Ok (x :: s, rest))) as Hone.
  { intros x k r' Hk Hr. rewrite write_one by lia. cbn [res_bind]. specialize (Hstep [x] k r'). cbn [length] in Hstep. replace (dest + 1)%nat with (S dest) in * by lia. apply Hstep; lia || done. }
  destruct (Z.eqb_spec c 34) as [->|_].
  { exists b, src. cbn [length]. rewrite Nat.add_0_r. split; [done|]. constructor; try done; [by rewrite <- Nat.add_1_r, <- drop_drop, Hd | cbn; lia]. }
  destruct (Z.eqb_spec c 92) as [->|_]; [|by apply (Hone c 1%nat); [lia|]].
  destruct r as [|e r1]; [done|]. cbn [length] in *. destruct (unescape e) as [x|]; [by apply (Hone x 2%nat); [lia|]|].
  destruct (Z.eqb_spec e 117) as [->|_]; [|by apply (Hone e 2%nat); [lia|]].
  destruct r1 as [|a1 [|a2 [|a3 [|a4 r2]]]]; try done. cbn [length] in *. change (Nat.ltb (S (S (S (S (length r2))))) 4) with false. cbv iota.
  destruct (read_hex_cases 4 (a1 :: a2 :: a3 :: a4 :: r2) 0 ltac:(cbn; lia) ltac:(lia)) as [(num & -> & Hnum)| ->]; [|done]. cbn [res_bind drop]. rewrite drop_0. change (16 ^ Z.of_nat 4) with 65536 in Hnum.
  destruct (second_surrogate_cases num r2 ltac:(lia)) as [-> | [(n & -> & Hn & Hl)| ->]]; [| |done]; cbn [res_bind].
  - unfold append_utf8_character_unsafe. rewrite append_enc by lia. cbn [app]. destruct (enc_length num) as [_ H3]. rewrite write_all_ok by lia. cbn [res_bind]. rewrite Nat.add_0_r. apply Hstep; [lia | done | lia].
  - destruct r2 as [|b1 [|b2 [|b3 [|b4 [|b5 [|b6 r3]]]]]]; try (cbn in Hl; lia). cbn [length] in *.
    unfold append_utf8_character_unsafe. rewrite append_enc by lia. cbn [app]. destruct (enc_length n) as [H4 _]. rewrite write_all_ok by lia. cbn [res_bind]. rewrite <- Nat.add_assoc. apply Hstep; [lia | done | lia].
Qed.

(** ** The parser *)
Definition wf (p : Parser) : Prop := (ptr_ p <= length (data_ p))%nat /\ status_ p = None.
Record after (p p' : Parser) : Prop := {
  af_wf : wf p';
  af_ptr : (ptr_ p <= ptr_ p')%nat;
  af_length : length (data_ p') = length (data_ p);
  af_take : take (ptr_ p) (data_ p') = take (ptr_ p) (data_ p);
}.
Lemma take_shorter {A} (l l' : list A) m n : (m <= n)%nat -> take n l = take n l' -> take m l = take m l'.
Proof. intros Hle H. apply (f_equal (take m)) in H. rewrite !take_take in H. by replace (m `min` n)%nat with m in H by lia. Qed.
Lemma after_refl p : wf p -> after p p.
Proof. by constructor. Qed.
Lemma parser_after_trans p1 p2 p3 : after p1 p2 -> after p2 p3 -> after p1 p3.
Proof. intros [A1 A2 A3 A4] [B1 B2 B3 B4]. constructor; [done | lia | congruence|]. rewrite <- A4. by apply (take_shorter _ _ _ (ptr_ p2)). Qed.

Lemma remaining_moved n p : remaining (moved n p) = drop n (remaining p).
Proof. unfold remaining. cbn. by rewrite drop_drop. Qed.
Lemma length_remaining p : length (remaining p) = (length (data_ p) - ptr_ p)%nat.
Proof. apply length_drop. Qed.
Lemma after_moved n p : wf p -> (n <= length (remaining p))%nat -> after p (moved n p).
Proof. intros [Hp Hs] Hn. rewrite length_remaining in Hn. constructor; cbn; [split; cbn; [lia | done] | lia | done | done]. Qed.

Lemma count_while_le f l : (count_while f l <= length l)%nat.
Proof. induction l as [|c l IH]; cbn; [done|]. destruct (f c); lia. Qed.
Lemma skip_whitespaces_ok p : wf p -> after p (skip_whitespaces p) /\ remaining (skip_whitespaces p) = ws (remaining p).
Proof. intros Hp. split; [apply after_moved; [done | apply count_while_le] | apply remaining_moved]. Qed.
Lemma try_skip_ok c p : wf p ->
  match strip c (remaining p) with
  | Some rest => try_skip c p = (true, moved 1 p) /\ after p (moved 1 p) /\ remaining (moved 1 p) = rest
  | None => try_skip c p = (false, p)
  end.
Proof.
  intros Hp. unfold try_skip. pose proof (after_moved 1 p Hp) as Ha. pose proof (remaining_moved 1 p) as Hr. destruct (remaining p) as [|x l]; [done|]. cbn [strip]. destruct (x =? c); [|done]. split_and!; [done | apply Ha; cbn; lia | by rewrite Hr].
Qed.
Lemma try_skip_slice_ok w p : wf p ->
  match strip_word w (remaining p) with
  | Some rest => try_skip_slice w p = Ok (true, moved (length w) p) /\ after p (moved (length w) p) /\ remaining (moved (length w) p) = rest
  | None => try_skip_slice w p = Ok (false, p)
  end.
Proof.
  intros Hp. unfold try_skip_slice, strip_word. case_bool_decide as Hw; cbn [negb]; [|by rewrite orb_true_r]. rewrite orb_false_r.
  assert (length w <= length (remaining p))%nat as Hl by (rewrite Hw at 1; rewrite length_take; lia). rewrite (proj2 (Nat.ltb_ge _ _)) by lia. unfold advance. rewrite length_remaining in Hl. destruct Hp as [Hp1 Hp2]. rewrite (proj2 (Nat.leb_le _ _)) by lia. cbn [res_bind].
  split_and!; [done | apply after_moved; [done|]; rewrite length_remaining; lia | apply remaining_moved].
Qed.
Lemma parser_skip_ok c p r : wf p -> remaining p = c :: r -> skip c p = moved 1 p /\ after p (moved 1 p) /\ remaining (moved 1 p) = r.
Proof. intros Hp Hr. unfold skip. destruct Hp as [Hp1 Hp2]. rewrite Hp2, Hr, Z.eqb_refl. split_and!; [done | apply after_moved; [done | rewrite Hr; cbn; lia] | by rewrite remaining_moved, Hr]. Qed.
Lemma empty_ok p : empty p = match remaining p with [] => true | _ => false end.
Proof. done. Qed.

(** A string in quotation marks. *)
Definition slice_decodes (p : Parser) (r : Res (Slice * Parser)) (q : Res (list Z * list Z)) : Prop :=
  match q with
  | Ok (s, rest) => exists sl p', r = Ok (sl, p') /\ after p p' /\ remaining p' = rest /\ slice_of (data_ p') sl = s /\ (sl.1 + sl.2 <= ptr_ p')%nat
  | Error c m => r = Error c m
  | Panic _ => False
  end.
Lemma json_string_decode_ok p : wf p -> slice_decodes p (json_string_decode p) (quoted_ref (remaining p)).
Proof.
  intros Hp. unfold json_string_decode, quoted_ref. pose proof (try_skip_ok 34 p Hp) as Hs. destruct (strip 34 (remaining p)) as [rest0|]; [|by rewrite Hs]. destruct Hs as (-> & Ha & Hr). cbn [negb]. set (p1 := moved 1 p) in *. clearbody p1.
  destruct (af_wf _ _ Ha) as [Hp1 Hst]. pose proof (string_loop_ref (S (length (data_ p1))) (data_ p1) (ptr_ p1) (ptr_ p1) ltac:(lia) ltac:(lia)) as H. fold (remaining p1) in H. rewrite Hr in H.
  destruct (string_ref rest0) as [[s rest]| |]; cbn [string_agrees slice_decodes] in *; [|by rewrite H | done]. destruct H as (b' & src' & -> & [I1 I2 I3 I4 I5]). cbn [res_bind]. unfold advance. cbn [data_ ptr_ status_].
  rewrite (proj2 (Nat.leb_le _ _)) by lia. cbn [res_bind]. eexists _, _. split; [done|]. split_and!.
  - apply (parser_after_trans _ p1); [done|]. constructor; cbn; [split; cbn; [lia | done] | lia | done | done].
  - unfold remaining. cbn. rewrite <- I4. f_equal. lia.
  - cbn [data_ moved]. replace (ptr_ p1 + length s - ptr_ p1)%nat with (length s) by lia. done.
  - cbn. lia.
Qed.

(** ** What a value refers to *)
Fixpoint slices {S} (v : JsonValue S) : list S :=
  match v with
  | JsonNumber s | JsonString s => [s]
  | JsonArray l => flat_map slices l
  | JsonObject l => flat_map (fun x => x.1 :: slices x.2) l
  | _ => []
  end.
Definition ends (k : nat) (v : JsonValue Slice) : Prop := Forall (fun s => (s.1 + s.2 <= k)%nat) (slices v).

Lemma json_map_agree {S T} (f g : S -> T) (Q : S -> Prop) v : (forall s, Q s -> f s = g s) -> Forall Q (slices v) -> json_map f v = json_map g v.
Proof.
  intros Hfg. induction v as [|s|b|s|l IH|l IH] using json_induction; cbn [slices json_map]; intros HQ; try done.
  - apply Forall_cons in HQ as [HQ _]. by rewrite Hfg.
  - apply Forall_cons in HQ as [HQ _]. by rewrite Hfg.
  - f_equal. induction IH as [|x l Hx _ IHl]; [done|]. cbn [flat_map map] in *. apply Forall_app in HQ as [H1 H2]. f_equal; [by apply Hx | by apply IHl].
  - f_equal. induction IH as [|x l Hx _ IHl]; [done|]. cbn [flat_map map] in *. apply Forall_app in HQ as [H1 H2]. apply Forall_cons in H1 as [H0 H1]. f_equal; [|by apply IHl]. rewrite Hfg by done. f_equal. by apply Hx.
Qed.

Lemma slice_stable b b' k s : take k b = take k b' -> (s.1 + s.2 <= k)%nat -> slice_of b s = slice_of b' s.
Proof.
  intros Hk Hs. unfold slice_of. assert (forall l : list Z, take s.2 (drop s.1 l) = take s.2 (drop s.1 (take k l))) as H; [|by rewrite H, (H b'), Hk].
  intros l. rewrite !take_drop_commute, take_take. f_equal. f_equal. lia.
Qed.
Lemma meaning_stable b b' k v : take k b = take k b' -> ends k v -> json_map (slice_of b) v = json_map (slice_of b') v.
Proof. intros Hk Hv. apply (json_map_agree _ _ (fun s => (s.1 + s.2 <= k)%nat)); [|done]. intros s. by apply slice_stable. Qed.
Lemma ends_weaken k k' v : (k <= k')%nat -> ends k v -> ends k' v.
Proof. intros Hk Hv. unfold ends in *. eapply Forall_impl; [exact Hv|]. cbn. intros s. lia. Qed.
Lemma ends_array k l : Forall (ends k) l -> ends k (JsonArray l).
Proof. intros H. unfold ends. cbn [slices]. induction H as [|x l Hx _ IH]; [constructor|]. cbn [flat_map]. by apply Forall_app. Qed.
Lemma ends_object k l : Forall (fun x : Slice * JsonValue Slice => (x.1.1 + x.1.2 <= k)%nat /\ ends k x.2) l -> ends k (JsonObject l).
Proof. intros H. unfold ends. cbn [slices]. induction H as [|x l [Hx1 Hx2] _ IH]; [constructor|]. cbn [flat_map]. apply Forall_app. split; [by constructor | done]. Qed.

(** ** The decoder in the buffer computes the reference *)
Definition decodes (p : Parser) (r : Res (JsonValue Slice * Parser)) (q : Res (Json * list Z)) : Prop :=
  match q with
  | Ok (v, rest) => exists sv p', r = Ok (sv, p') /\ after p p' /\ remaining p' = rest /\ json_map (slice_of (data_ p')) sv = v /\ ends (ptr_ p') sv
  | Error c m => r = Error c m
  | Panic w => r = Panic w
  end.
Lemma decodes_after p0 p r q : after p0 p -> decodes p r q -> decodes p0 r q.
Proof. intros Ha. destruct q as [[v rest]| |]; cbn; [|done | done]. intros (sv & p' & -> & A & B & C & D). exists sv, p'. split_and!; try done. by eapply parser_after_trans. Qed.
Lemma decodes_leaf p0 p sv v : after p0 p -> json_map (slice_of (data_ p)) sv = v -> ends (ptr_ p) sv -> decodes p0 (Ok (sv, p)) (Ok (v, remaining p)).
Proof. intros Ha Hv He. by exists sv, p. Qed.

Lemma decodes_word p0 p w sv v error : after p0 p -> (forall b, json_map (slice_of b) sv = v) -> (forall k, ends k sv) ->
  decodes p0 (let* (ok, p) := try_skip_slice w p in if ok : bool then Ok (sv, p) else Error 0 error) (word_ref w v error (remaining p)).
Proof.
  intros Ha Hv He. unfold word_ref. pose proof (try_skip_slice_ok w p (af_wf _ _ Ha)) as H. destruct (strip_word w (remaining p)) as [rest|]; [|by rewrite H].
  destruct H as (-> & Ha' & <-). cbn [res_bind]. apply decodes_leaf; [by eapply parser_after_trans | done | done].
Qed.
Lemma decodes_string p0 p : after p0 p ->
  decodes p0 (let* (slice, p) := json_string_decode p in Ok (JsonString slice, p)) (let* (s, rest) := quoted_ref (remaining p) in Ok (JsonString s, rest)).
Proof.
  intros Ha. pose proof (json_string_decode_ok p (af_wf _ _ Ha)) as H. destruct (quoted_ref (remaining p)) as [[s rest]| |]; cbn [slice_decodes] in H; [|by rewrite H | done].
  destruct H as (sl & p' & -> & Ha' & <- & Hs & Hend). cbn [res_bind]. apply decodes_leaf; [by eapply parser_after_trans | cbn; by rewrite Hs | by repeat constructor].
Qed.
Lemma decodes_number p0 p : after p0 p ->
  decodes p0 (let '(num, p) := read_while number_char p in Ok (JsonNumber num, p)) (let n := count_while number_char (remaining p) in Ok (JsonNumber (take n (remaining p)), drop n (remaining p))).
Proof.
  intros Ha. cbn zeta. unfold read_while. set (n := count_while number_char (remaining p)). rewrite <- (remaining_moved n p). apply decodes_leaf.
  - apply (parser_after_trans _ p); [done|]. apply after_moved; [apply (af_wf _ _ Ha) | apply count_while_le].
  - done.
  - repeat constructor.
Qed.

(** The rest of an array or of an object after one of its values. *)
Definition array_rest (fuel : nat) (p : Parser) (max_depth : Z) (res : list (JsonValue Slice)) : Res (JsonValue Slice * Parser) :=
  let p := skip_whitespaces p in
  let '(ok, p) := try_skip 93 p in
  if ok then Ok (JsonArray res, p)
  else
    let '(ok, p) := try_skip 44 p in
    if ok then decode_array fuel (skip_whitespaces p) max_depth res
    else if empty p then Error 0 "Unexpected string end" else Error 0 "Unexpected symbol while parsing JSON Array".
Definition object_rest (fuel : nat) (p : Parser) (max_depth : Z) (res : list (Slice * JsonValue Slice)) : Res (JsonValue Slice * Parser) :=
  let p := skip_whitespaces p in
  let '(ok, p) := try_skip 125 p in
  if ok then Ok (JsonObject res, p)
  else
    let '(ok, p) := try_skip 44 p in
    if ok then decode_object fuel (skip_whitespaces p) max_depth res
    else if empty p then Error 0 "Unexpected string end" else Error 0 "Unexpected symbol while parsing JSON Object".

Definition values_of (p : Parser) (res : list (JsonValue Slice)) : list Json := map (json_map (slice_of (data_ p))) res.
Definition fields_of (p : Parser) (res : list (Slice * JsonValue Slice)) : list (list Z * Json) := map (fun x => (slice_of (data_ p) x.1, json_map (slice_of (data_ p)) x.2)) res.
Definition field_ends (k : nat) (x : Slice * JsonValue Slice) : Prop := (x.1.1 + x.1.2 <= k)%nat /\ ends k x.2.

Lemma values_after p p' res : after p p' -> Forall (ends (ptr_ p)) res -> values_of p' res = values_of p res /\ Forall (ends (ptr_ p')) res.
Proof.
  intros [A1 A2 A3 A4] H. split; [|eapply Forall_impl; [done|]; intros x; by apply ends_weaken]. unfold values_of. induction H as [|x l Hx _ IH]; [done|]. cbn [map]. rewrite IH. f_equal. by apply (meaning_stable _ _ (ptr_ p)).
Qed.
Lemma fields_after p p' res : after p p' -> Forall (field_ends (ptr_ p)) res -> fields_of p' res = fields_of p res /\ Forall (field_ends (ptr_ p')) res.
Proof.
  intros [A1 A2 A3 A4] H. split.
  - unfold fields_of. induction H as [|x l [Hx1 Hx2] _ IH]; [done|]. cbn [map]. rewrite IH. rewrite (slice_stable _ (data_ p) (ptr_ p) x.1) by done. by rewrite (meaning_stable _ (data_ p) (ptr_ p) x.2).
  - eapply Forall_impl; [done|]. intros x [H1 H2]. split; [lia | by apply (ends_weaken (ptr_ p))].
Qed.

Definition array_rest_ref (fuel : nat) (l : list Z) (max_depth : Z) (vs : list Json) : Res (Json * list Z) :=
  match strip 93 (ws l) with
  | Some rest => Ok (JsonArray vs, rest)
  | None =>
      match strip 44 (ws l) with
      | Some rest => array_ref fuel (ws rest) max_depth vs
      | None => match ws l with [] => Error 0 "Unexpected string end" | _ => Error 0 "Unexpected symbol while parsing JSON Array" end
      end
  end.
Definition object_rest_ref (fuel : nat) (l : list Z) (max_depth : Z) (vs : list (list Z * Json)) : Res (Json * list Z) :=
  match strip 125 (ws l) with
  | Some rest => Ok (JsonObject vs, rest)
  | None =>
      match strip 44 (ws l) with
      | Some rest => object_ref fuel (ws rest) max_depth vs
      | None => match ws l with [] => Error 0 "Unexpected string end" | _ => Error 0 "Unexpected symbol while parsing JSON Object" end
      end
  end.

Definition value_ok (fuel : nat) : Prop := forall p d, wf p -> decodes p (do_json_decode fuel p d) (json_ref fuel (remaining p) d).
Definition array_ok (fuel : nat) : Prop := forall p d res, wf p -> Forall (ends (ptr_ p)) res -> decodes p (decode_array fuel p d res) (array_ref fuel (remaining p) d (values_of p res)).
Definition object_ok (fuel : nat) : Prop := forall p d res, wf p -> Forall (field_ends (ptr_ p)) res -> decodes p (decode_object fuel p d res) (object_ref fuel (remaining p) d (fields_of p res)).

Lemma array_rest_ok fuel p d res : array_ok fuel -> wf p -> Forall (ends (ptr_ p)) res -> decodes p (array_rest fuel p d res) (array_rest_ref fuel (remaining p) d (values_of p res)).
Proof.
  intros Hok Hp Hres. unfold array_rest, array_rest_ref. destruct (skip_whitespaces_ok p Hp) as [Ha1 <-]. set (p1 := skip_whitespaces p) in *. clearbody p1. destruct (values_after p p1 res Ha1 Hres) as [<- Hres1]. apply (decodes_after _ _ _ _ Ha1). pose proof (af_wf _ _ Ha1) as Hp1.
  pose proof (try_skip_ok 93 p1 Hp1) as H. destruct (strip 93 (remaining p1)) as [rest|].
  - destruct H as (-> & Ha2 & <-). destruct (values_after _ _ res Ha2 Hres1) as [Hv He]. apply decodes_leaf; [done | cbn; by f_equal | by apply ends_array].
  - rewrite H. cbn [negb]. pose proof (try_skip_ok 44 p1 Hp1) as H'. destruct (strip 44 (remaining p1)) as [rest|]; [|rewrite H'; unfold empty; by destruct (remaining p1)].
    destruct H' as (-> & Ha2 & <-). destruct (skip_whitespaces_ok _ (af_wf _ _ Ha2)) as [Ha3 <-]. pose proof (parser_after_trans _ _ _ Ha2 Ha3) as Ha. destruct (values_after _ _ res Ha Hres1) as [<- He]. apply (decodes_after _ _ _ _ Ha). apply Hok; [apply (af_wf _ _ Ha) | done].
Qed.
Lemma object_rest_ok fuel p d res : object_ok fuel -> wf p -> Forall (field_ends (ptr_ p)) res -> decodes p (object_rest fuel p d res) (object_rest_ref fuel (remaining p) d (fields_of p res)).
Proof.
  intros Hok Hp Hres. unfold object_rest, object_rest_ref. destruct (skip_whitespaces_ok p Hp) as [Ha1 <-]. set (p1 := skip_whitespaces p) in *. clearbody p1. destruct (fields_after p p1 res Ha1 Hres) as [<- Hres1]. apply (decodes_after _ _ _ _ Ha1). pose proof (af_wf _ _ Ha1) as Hp1.
  pose proof (try_skip_ok 125 p1 Hp1) as H. destruct (strip 125 (remaining p1)) as [rest|].
  - destruct H as (-> & Ha2 & <-). destruct (fields_after _ _ res Ha2 Hres1) as [Hv He]. apply decodes_leaf; [done | cbn; by f_equal | by apply ends_object].
  - rewrite H. cbn [negb]. pose proof (try_skip_ok 44 p1 Hp1) as H'. destruct (strip 44 (remaining p1)) as [rest|]; [|rewrite H'; unfold empty; by destruct (remaining p1)].
    destruct H' as (-> & Ha2 & <-). destruct (skip_whitespaces_ok _ (af_wf _ _ Ha2)) as [Ha3 <-]. pose proof (parser_after_trans _ _ _ Ha2 Ha3) as Ha. destruct (fields_after _ _ res Ha Hres1) as [<- He]. apply (decodes_after _ _ _ _ Ha). apply Hok; [apply (af_wf _ _ Ha) | done].
Qed.

Lemma array_step fuel : value_ok fuel -> array_ok fuel -> array_ok (S fuel).
Proof.
  intros Hval Harr p d res Hp Hres. cbn [decode_array array_ref]. unfold empty. destruct (remaining p) as [|c r] eqn:Hr; [done|]. rewrite <- Hr. pose proof (Hval p (d - 1) Hp) as H.
  destruct (json_ref fuel (remaining p) (d - 1)) as [[v rest]| |]; cbn [decodes] in H; [|by rewrite H | by rewrite H]. destruct H as (sv & p1 & -> & Ha & <- & <- & Hend). cbn [res_bind].
  destruct (values_after p p1 res Ha Hres) as [<- Hres1]. apply (decodes_after _ _ _ _ Ha).
  assert (values_of p1 res ++ [json_map (slice_of (data_ p1)) sv] = values_of p1 (res ++ [sv])) as -> by (unfold values_of; by rewrite map_app). apply array_rest_ok; [done | apply (af_wf _ _ Ha) | apply Forall_app; by repeat constructor].
Qed.
Lemma object_step fuel : value_ok fuel -> object_ok fuel -> object_ok (S fuel).
Proof.
  intros Hval Hobj p d res Hp Hres. cbn [decode_object object_ref]. unfold empty. destruct (remaining p) as [|c r] eqn:Hr; [done|]. rewrite <- Hr. pose proof (json_string_decode_ok p Hp) as H.
  destruct (quoted_ref (remaining p)) as [[k rest]| |]; cbn [slice_decodes] in H; [|by rewrite H | done]. destruct H as (sl & p1 & -> & Ha1 & <- & <- & Hsl). cbn [res_bind].
  destruct (skip_whitespaces_ok _ (af_wf _ _ Ha1)) as [Ha2 <-]. set (p2 := skip_whitespaces p1) in *. pose proof (try_skip_ok 58 p2 (af_wf _ _ Ha2)) as H. destruct (strip 58 (remaining p2)) as [rest|]; [|by rewrite H].
  destruct H as (-> & Ha3 & <-). cbn [negb]. set (p3 := moved 1 p2) in *. clearbody p3. pose proof (parser_after_trans _ _ _ Ha2 Ha3) as Ha13. pose proof (Hval p3 (d - 1) (af_wf _ _ Ha3)) as H.
  destruct (json_ref fuel (remaining p3) (d - 1)) as [[v rest]| |]; cbn [decodes] in H; [|by rewrite H | by rewrite H]. destruct H as (sv & p4 & -> & Ha4 & <- & <- & Hend). cbn [res_bind].
  pose proof (parser_after_trans _ _ _ Ha13 Ha4) as Ha14. pose proof (parser_after_trans _ _ _ Ha1 Ha14) as Ha. destruct (fields_after p p4 res Ha Hres) as [<- Hres4]. apply (decodes_after _ _ _ _ Ha).
  rewrite (slice_stable (data_ p1) (data_ p4) (ptr_ p1) sl) by (done || (symmetry; apply (af_take _ _ Ha14))).
  assert (fields_of p4 res ++ [(slice_of (data_ p4) sl, json_map (slice_of (data_ p4)) sv)] = fields_of p4 (res ++ [(sl, sv)])) as -> by (unfold fields_of; by rewrite map_app).
  apply object_rest_ok; [done | apply (af_wf _ _ Ha) | apply Forall_app; split; [done|]; constructor; [|constructor]]. split; [pose proof (af_ptr _ _ Ha14); cbn; lia | done].
Qed.

Lemma value_step fuel : array_ok fuel -> object_ok fuel -> value_ok (S fuel).
Proof.
  intros Harr Hobj p d Hp. cbn [do_json_decode json_ref]. destruct (d <? 0); [done|]. destruct (skip_whitespaces_ok p Hp) as [Ha1 <-]. set (p1 := skip_whitespaces p) in *. clearbody p1. pose proof (af_wf _ _ Ha1) as Hp1. unfold peek_char.
  destruct (remaining p1) as [|c r] eqn:Hr; [done|]. cbn zeta. rewrite <- Hr.
  destruct (c =? 102); [apply decodes_word; [done | done | constructor]|]. destruct (c =? 116); [apply decodes_word; [done | done | constructor]|]. destruct (c =? 110); [apply decodes_word; [done | done | constructor]|]. destruct (c =? 34); [by apply decodes_string|].
  destruct (Z.eqb_spec c 91) as [->|_].
  { destruct (parser_skip_ok 91 p1 r Hp1 Hr) as (-> & Ha2 & <-). set (p2 := moved 1 p1) in *. clearbody p2. destruct (skip_whitespaces_ok p2 (af_wf _ _ Ha2)) as [Ha3 <-]. set (p3 := skip_whitespaces p2) in *. clearbody p3.
    pose proof (parser_after_trans _ _ _ Ha1 (parser_after_trans _ _ _ Ha2 Ha3)) as Ha. pose proof (try_skip_ok 93 p3 (af_wf _ _ Ha)) as H. destruct (strip 93 (remaining p3)) as [rest|].
    - destruct H as (-> & Ha4 & <-). apply decodes_leaf; [by eapply parser_after_trans | done | constructor].
    - rewrite H. apply (decodes_after _ _ _ _ Ha). apply (Harr p3 d []); [apply (af_wf _ _ Ha) | constructor]. }
  destruct (Z.eqb_spec c 123) as [->|_].
  { destruct (parser_skip_ok 123 p1 r Hp1 Hr) as (-> & Ha2 & <-). set (p2 := moved 1 p1) in *. clearbody p2. destruct (skip_whitespaces_ok p2 (af_wf _ _ Ha2)) as [Ha3 <-]. set (p3 := skip_whitespaces p2) in *. clearbody p3.
    pose proof (parser_after_trans _ _ _ Ha1 (parser_after_trans _ _ _ Ha2 Ha3)) as Ha. pose proof (try_skip_ok 125 p3 (af_wf _ _ Ha)) as H. destruct (strip 125 (remaining p3)) as [rest|].
    - destruct H as (-> & Ha4 & <-). apply decodes_leaf; [by eapply parser_after_trans | done | constructor].
    - rewrite H. apply (decodes_after _ _ _ _ Ha). apply (Hobj p3 d []); [apply (af_wf _ _ Ha) | constructor]. }
  destruct (starts_number c); [by apply decodes_number|]. by destruct (c =? 0).
Qed.

Lemma decoder_ok fuel : value_ok fuel /\ array_ok fuel /\ object_ok fuel.
Proof. induction fuel as [|fuel (H1 & H2 & H3)]; [done|]. split_and!; [by apply value_step | by apply array_step | by apply object_step]. Qed.

(** ** The reference decoder returns *)
Lemma list_length_ind {A} (P : list A -> Prop) : (forall l, (forall l', (length l' < length l)%nat -> P l') -> P l) -> forall l, P l.
Proof. intros H l. remember (length l) as n eqn:Hn. revert l Hn. induction n as [n IH] using lt_wf_ind. intros l ->. apply H. intros l' Hl. by apply (IH (length l')). Qed.

Definition returns {A} (k : nat) (l : list Z) (q : Res (A * list Z)) : Prop :=
  match q with Ok (_, rest) => (length rest + k <= length l)%nat | Error _ _ => True | Panic _ => False end.
Lemma returns_map {A B} k l l' (q : Res (A * list Z)) (f : A -> B) : returns k l' q -> (length l' <= length l)%nat -> returns k l (let* (s, rest) := q in Ok (f s, rest)).
Proof. destruct q as [[s rest]| |]; cbn; intros; [lia | done | done]. Qed.

Lemma string_ref_returns l : returns 1 l (string_ref l).
Proof.
  induction l as [l IH] using list_length_ind. destruct l as [|c r]; [done|]. cbn [string_ref]. destruct (c =? 34); [cbn; lia|]. destruct (c =? 92); [|apply (returns_map 1 _ r); [apply IH; cbn; lia | cbn; lia]].
  destruct r as [|e r1]; [done|]. destruct (unescape e) as [x|]; [apply (returns_map 1 _ r1); [apply IH; cbn; lia | cbn; lia]|].
  destruct (e =? 117); [|apply (returns_map 1 _ r1); [apply IH; cbn; lia | cbn; lia]]. destruct r1 as [|a1 [|a2 [|a3 [|a4 r2]]]]; try done.
  destruct (read_hex_cases 4 (a1 :: a2 :: a3 :: a4 :: r2) 0 ltac:(cbn; lia) ltac:(lia)) as [(num & -> & Hnum)| ->]; [|done]. cbn [res_bind]. change (16 ^ Z.of_nat 4) with 65536 in Hnum.
  destruct (second_surrogate_cases num r2 ltac:(lia)) as [-> | [(n & -> & Hn & Hl)| ->]]; [| |done]; cbn [res_bind].
  - apply (returns_map 1 _ r2); [apply IH; cbn; lia | cbn; lia].
  - destruct r2 as [|b1 [|b2 [|b3 [|b4 [|b5 [|b6 r3]]]]]]; try (cbn in Hl; lia). apply (returns_map 1 _ r3); [apply IH; cbn; lia | cbn; lia].
Qed.

Lemma ws_le l : (length (ws l) <= length l)%nat.
Proof. unfold ws. rewrite length_drop. lia. Qed.
Lemma strip_length c l rest : strip c l = Some rest -> length l = S (length rest).
Proof. destruct l as [|x l]; [done|]. cbn. destruct (x =? c); [|done]. by intros [= ->]. Qed.
Lemma quoted_ref_returns l : returns 2 l (quoted_ref l).
Proof.
  unfold quoted_ref. destruct (strip 34 l) as [r|] eqn:Hs; [|done]. apply strip_length in Hs. pose proof (string_ref_returns r) as H. destruct (string_ref r) as [[s rest]| |]; cbn in *; [lia | done | done].
Qed.
Lemma word_ref_returns w v e l : w <> [] -> returns 1 l (word_ref w v e l).
Proof.
  intros Hw. unfold word_ref, strip_word. case_bool_decide as H; [|done]. cbn. destruct w as [|x w]; [done|]. destruct l as [|y l]; [done|]. rewrite length_drop. cbn. lia.
Qed.
Lemma returns_weaken {A} k l l' (q : Res (A * list Z)) : returns k l q -> (length l <= length l')%nat -> returns k l' q.
Proof. destruct q as [[v rest]| |]; cbn; intros; [lia | done | done]. Qed.

Definition value_returns (fuel : nat) : Prop := forall l d, (2 * length l + 1 <= fuel)%nat -> returns 1 l (json_ref fuel l d).
Definition array_returns (fuel : nat) : Prop := forall l d vs, (2 * length l + 2 <= fuel)%nat -> returns 1 l (array_ref fuel l d vs).
Definition object_returns (fuel : nat) : Prop := forall l d vs, (2 * length l + 2 <= fuel)%nat -> returns 1 l (object_ref fuel l d vs).

Lemma array_ref_step fuel : value_returns fuel -> array_returns fuel -> array_returns (S fuel).
Proof.
  intros Hval Harr l d vs Hf. cbn [array_ref]. destruct l as [|c r]; [done|]. set (l := c :: r) in *. pose proof (Hval l (d - 1) ltac:(lia)) as H. destruct (json_ref fuel l (d - 1)) as [[v rest]| |]; cbn [returns res_bind] in *; [|done | done].
  change (returns 1 l (array_rest_ref fuel rest d (vs ++ [v]))). unfold array_rest_ref. pose proof (ws_le rest). destruct (strip 93 (ws rest)) as [rest1|] eqn:H1; [apply strip_length in H1; cbn [returns]; lia|].
  destruct (strip 44 (ws rest)) as [rest1|] eqn:H2; [|by destruct (ws rest)]. apply strip_length in H2. pose proof (ws_le rest1). apply (returns_weaken 1 (ws rest1)); [apply Harr; lia | lia].
Qed.
Lemma object_ref_step fuel : value_returns fuel -> object_returns fuel -> object_returns (S fuel).
Proof.
  intros Hval Hobj l d vs Hf. cbn [object_ref]. destruct l as [|c r]; [done|]. set (l := c :: r) in *. pose proof (quoted_ref_returns l) as Hq. destruct (quoted_ref l) as [[k rest0]| |]; cbn [returns res_bind] in *; [|done | done].
  pose proof (ws_le rest0). destruct (strip 58 (ws rest0)) as [l1|] eqn:H1; [|done]. apply strip_length in H1. pose proof (Hval l1 (d - 1) ltac:(lia)) as H2. destruct (json_ref fuel l1 (d - 1)) as [[v rest]| |]; cbn [returns res_bind] in *; [|done | done].
  change (returns 1 l (object_rest_ref fuel rest d (vs ++ [(k, v)]))). unfold object_rest_ref. pose proof (ws_le rest). destruct (strip 125 (ws rest)) as [rest1|] eqn:H3; [apply strip_length in H3; cbn [returns]; lia|].
  destruct (strip 44 (ws rest)) as [rest1|] eqn:H4; [|by destruct (ws rest)]. apply strip_length in H4. pose proof (ws_le rest1). apply (returns_weaken 1 (ws rest1)); [apply Hobj; lia | lia].
Qed.
Lemma value_ref_step fuel : array_returns fuel -> object_returns fuel -> value_returns (S fuel).
Proof.
  intros Harr Hobj l d Hf. cbn [json_ref]. destruct (d <? 0); [done|]. pose proof (ws_le l) as Hws. destruct (ws l) as [|c r] eqn:Hl; [done|]. cbn zeta. apply (returns_weaken 1 (c :: r)); [|done].
  destruct (c =? 102); [by apply word_ref_returns|]. destruct (c =? 116); [by apply word_ref_returns|]. destruct (c =? 110); [by apply word_ref_returns|].
  destruct (c =? 34). { pose proof (quoted_ref_returns (c :: r)) as H. destruct (quoted_ref (c :: r)) as [[s rest]| |]; cbn in *; [lia | done | done]. }
  pose proof (ws_le r) as Hr. cbn [length] in *.
  destruct (c =? 91). { destruct (strip 93 (ws r)) as [rest|] eqn:H; [apply strip_length in H; cbn; lia|]. apply (returns_weaken 1 (ws r)); [apply Harr; lia | cbn; lia]. }
  destruct (c =? 123). { destruct (strip 125 (ws r)) as [rest|] eqn:H; [apply strip_length in H; cbn; lia|]. apply (returns_weaken 1 (ws r)); [apply Hobj; lia | cbn; lia]. }
  destruct (starts_number c) eqn:Hn; [|by destruct (c =? 0)]. cbn [returns count_while]. assert (number_char c = true) as ->; [|rewrite length_drop; cbn; lia].
  unfold starts_number, number_char in *. repeat (apply orb_prop in Hn as [Hn|Hn]); rewrite Hn, ?orb_true_r; done.
Qed.
Lemma reference_returns fuel : value_returns fuel /\ array_returns fuel /\ object_returns fuel.
Proof.
  induction fuel as [|fuel (H1 & H2 & H3)]; [split_and!; intros ?; intros; lia|]. split_and!; [by apply value_ref_step | by apply array_ref_step | by apply object_ref_step].
Qed.

Lemma json_reference_decode (json : list Z) :
  match json_reference json with
  | Ok v => exists sv b, json_decode json = Ok (sv, b) /\ meaning (sv, b) = v /\ length b = length json
  | Error c m => json_decode json = Error c m
  | Panic _ => False
  end.
Proof.
  unfold json_reference, json_decode. set (p := new_parser json). assert (remaining p = json) as Hr by apply drop_0. unfold json_fuel. rewrite Hr. set (fuel := (2 * length json + 2)%nat).
  assert (wf p) as Hp by (split; cbn; [lia | done]). pose proof (proj1 (decoder_ok fuel) p DEFAULT_MAX_DEPTH Hp) as H. rewrite Hr in H. pose proof (proj1 (reference_returns fuel) json DEFAULT_MAX_DEPTH ltac:(lia)) as Hret.
  destruct (json_ref fuel json DEFAULT_MAX_DEPTH) as [[v rest]| |]; cbn [decodes returns res_bind] in *; [|by rewrite H | done]. destruct H as (sv & p1 & -> & Ha & <- & Hv & _). cbn [res_bind].
  destruct (skip_whitespaces_ok p1 (af_wf _ _ Ha)) as [Ha2 <-]. unfold empty. destruct (remaining (skip_whitespaces p1)); [|done]. cbn [negb]. exists sv, (data_ p1). split_and!; [done | done | apply (af_length _ _ Ha)].
Qed.

(** C8. Decoding in the buffer is decoding: for every text, of which nothing is assumed,
    [json_decode], which overwrites escaped strings by decoded ones in the text that it still
    reads and returns references into it, gives the value or the error of the reference
    decoder, which builds new strings.  No decoded string is changed by what is decoded after
    it, nothing outside of the buffer is read or written, no check fails, and the decoding ends. *)
Theorem json_decode_in_place (json : list Z) :
  match json_reference json with
  | Ok v => exists sv b, json_decode json = Ok (sv, b) /\ meaning (sv, b) = v /\ length b = length json
  | Error c m => json_decode json = Error c m
  | Panic _ => False
  end.
Proof. exact (json_reference_decode json). Qed.

(** ** Skipping a value *)
Definition passes {A} (b : list Z) (r : Res nat) (q : Res (A * list Z)) : Prop :=
  match q with
  | Ok (_, rest) => exists src', r = Ok src' /\ drop (S src') b = rest /\ (src' < length b)%nat
  | Error c m => r = Error c m
  | Panic _ => False
  end.
Lemma passes_map {A B} b r (q : Res (A * list Z)) (f : A -> B) : passes b r q -> passes b r (let* (s, rest) := q in Ok (f s, rest)).
Proof. by destruct q as [[s rest]| |]. Qed.
Lemma unescape_u : unescape 117 = None.
Proof. done. Qed.

Lemma string_skip_loop_ref fuel : forall b src, (src <= length b)%nat -> (length b - src < fuel)%nat -> passes b (string_skip_loop fuel b src) (string_ref (drop src b)).
Proof.
  induction fuel as [|fuel IH]; intros b src Hle Hfuel; [lia|]. cbn [string_skip_loop]. destruct (drop src b) as [|c r] eqn:Hd; [done|].
  assert (length (c :: r) = length b - src)%nat as Hlen by (rewrite <- Hd; apply length_drop). cbn [length] in Hlen. cbn [string_ref].
  assert (forall k r', drop k (c :: r) = r' -> (0 < k <= S (length r))%nat -> passes b (string_skip_loop fuel b (src + k)) (string_ref r')) as Hstep.
  { intros k r' <- Hk. rewrite <- Hd, drop_drop. apply IH; lia. }
  destruct (Z.eqb_spec c 34) as [->|_]; [exists src; split_and!; [done | by rewrite <- Nat.add_1_r, <- drop_drop, Hd | lia]|].
  destruct (Z.eqb_spec c 92) as [->|_]; [|apply passes_map, (Hstep 1%nat); [done | lia]]. destruct r as [|e r1]; [done|]. cbn [length] in *.
  destruct (Z.eqb_spec e 117) as [->|_]; [|destruct (unescape e); apply passes_map, (Hstep 2%nat); (done || lia)]. rewrite unescape_u.
  destruct r1 as [|a1 [|a2 [|a3 [|a4 r2]]]]; try done. cbn [length] in *. change (Nat.ltb (S (S (S (S (length r2))))) 4) with false. cbv iota.
  destruct (read_hex_cases 4 (a1 :: a2 :: a3 :: a4 :: r2) 0 ltac:(cbn; lia) ltac:(lia)) as [(num & -> & Hnum)| ->]; [|done]. cbn [res_bind drop]. rewrite drop_0. change (16 ^ Z.of_nat 4) with 65536 in Hnum.
  destruct (second_surrogate_cases num r2 ltac:(lia)) as [-> | [(n & -> & Hn & Hl)| ->]]; [| |done]; cbn [res_bind].
  - rewrite Nat.add_0_r. apply passes_map, (Hstep 6%nat); [done | lia].
  - destruct r2 as [|b1 [|b2 [|b3 [|b4 [|b5 [|b6 r3]]]]]]; try (cbn in Hl; lia). cbn [length] in *. rewrite <- Nat.add_assoc. apply passes_map, (Hstep 12%nat); [done | lia].
Qed.

Definition skips {A} (p : Parser) (r : Res Parser) (q : Res (A * list Z)) : Prop :=
  match q with
  | Ok (_, rest) => exists p', r = Ok p' /\ wf p' /\ remaining p' = rest /\ data_ p' = data_ p
  | Error _ _ => exists c m, r = Error c m
  | Panic w => r = Panic w
  end.
Lemma skips_map {A B} p r (q : Res (A * list Z)) (f : A -> B) : skips p r q -> skips p r (let* (s, rest) := q in Ok (f s, rest)).
Proof. by destruct q as [[s rest]| |]. Qed.
Lemma skips_same {A} p0 p r (q : Res (A * list Z)) : data_ p = data_ p0 -> skips p r q -> skips p0 r q.
Proof. intros He. destruct q as [[v rest]| |]; cbn; [by rewrite He | done | done]. Qed.
Lemma skips_leaf {A} p0 p (v : A) : wf p -> data_ p = data_ p0 -> skips p0 (Ok p) (Ok (v, remaining p)).
Proof. intros. by exists p. Qed.
Lemma skips_error {A} p c m c' m' : skips (A := A) p (Error c m) (Error c' m').
Proof. by exists c, m. Qed.

Lemma json_string_skip_ok p : wf p -> skips p (json_string_skip p) (quoted_ref (remaining p)).
Proof.
  intros Hp. unfold json_string_skip, quoted_ref. pose proof (try_skip_ok 34 p Hp) as Hs. destruct (strip 34 (remaining p)) as [rest0|]; [|rewrite Hs; apply skips_error]. destruct Hs as (-> & Ha & Hr). cbn [negb].
  apply (skips_same p (moved 1 p)); [done|]. set (p1 := moved 1 p) in *. clearbody p1.
  destruct (af_wf _ _ Ha) as [Hp1 Hst]. pose proof (string_skip_loop_ref (S (length (data_ p1))) (data_ p1) (ptr_ p1) ltac:(lia) ltac:(lia)) as H. fold (remaining p1) in H. rewrite Hr in H. pose proof (string_ref_returns rest0) as Hret.
  destruct (string_ref rest0) as [[s rest]| |]; cbn [passes] in H; [|rewrite H; apply skips_error | done]. destruct H as (src' & -> & Hdrop & Hlt). cbn [res_bind returns] in *.
  assert (ptr_ p1 <= src')%nat as Hge. { apply (f_equal length) in Hdrop. rewrite length_drop in Hdrop. apply (f_equal length) in Hr. rewrite length_remaining in Hr. lia. }
  unfold advance. rewrite (proj2 (Nat.leb_le _ _)) by lia. exists (moved (src' + 1 - ptr_ p1) p1). split_and!; [done | split; cbn; [lia | done] | | done]. unfold remaining. cbn. rewrite <- Hdrop. f_equal. lia.
Qed.
Lemma skips_word p w (v : Json) e e' : wf p ->
  skips p (let* (ok, p) := try_skip_slice w p in if ok : bool then Ok p else Error 0 e) (word_ref w v e' (remaining p)).
Proof.
  intros Hp. unfold word_ref. pose proof (try_skip_slice_ok w p Hp) as H. destruct (strip_word w (remaining p)) as [rest|]; [|rewrite H; apply skips_error].
  destruct H as (-> & Ha & <-). apply skips_leaf; [apply (af_wf _ _ Ha) | done].
Qed.

Definition value_skips (fuel : nat) : Prop := forall p d, wf p -> skips p (do_json_skip fuel p d) (json_ref fuel (remaining p) d).
Definition array_skips (fuel : nat) : Prop := forall p d vs, wf p -> skips p (skip_array fuel p d) (array_ref fuel (remaining p) d vs).
Definition object_skips (fuel : nat) : Prop := forall p d vs, wf p -> skips p (skip_object fuel p d) (object_ref fuel (remaining p) d vs).

Lemma wf_ws p : wf p -> wf (skip_whitespaces p).
Proof. intros Hp. apply (af_wf _ _ (proj1 (skip_whitespaces_ok p Hp))). Qed.
Lemma remaining_ws p : wf p -> remaining (skip_whitespaces p) = ws (remaining p).
Proof. intros Hp. apply (proj2 (skip_whitespaces_ok p Hp)). Qed.

Lemma array_skip_step fuel : value_skips fuel -> array_skips fuel -> array_skips (S fuel).
Proof.
  intros Hval Harr p d vs Hp. cbn [skip_array array_ref]. unfold empty at 1. destruct (remaining p) as [|c r] eqn:Hr; [apply skips_error|]. rewrite <- Hr. pose proof (Hval p (d - 1) Hp) as H.
  destruct (json_ref fuel (remaining p) (d - 1)) as [[v rest]| |]; cbn [skips] in H; [|destruct H as (? & ? & ->); apply skips_error | by rewrite H]. destruct H as (p1 & -> & Hp1 & <- & He). cbn [res_bind].
  apply (skips_same _ p1); [done|]. rewrite <- (remaining_ws p1 Hp1). apply wf_ws in Hp1 as Hp2. apply (skips_same _ (skip_whitespaces p1)); [done|]. set (p2 := skip_whitespaces p1) in *. clearbody p2.
  pose proof (try_skip_ok 93 p2 Hp2) as H. destruct (strip 93 (remaining p2)) as [rest|]; [destruct H as (-> & Ha & <-); apply skips_leaf; [apply (af_wf _ _ Ha) | done]|]. rewrite H.
  pose proof (try_skip_ok 44 p2 Hp2) as H'. destruct (strip 44 (remaining p2)) as [rest|]; [|rewrite H'; destruct (remaining p2); apply skips_error].
  destruct H' as (-> & Ha & <-). rewrite <- remaining_ws by apply (af_wf _ _ Ha). apply (skips_same _ (skip_whitespaces (moved 1 p2))); [done|]. apply Harr, wf_ws, (af_wf _ _ Ha).
Qed.
Lemma object_skip_step fuel : value_skips fuel -> object_skips fuel -> object_skips (S fuel).
Proof.
  intros Hval Hobj p d vs Hp. cbn [skip_object object_ref]. unfold empty at 1. destruct (remaining p) as [|c r] eqn:Hr; [apply skips_error|]. rewrite <- Hr. pose proof (json_string_skip_ok p Hp) as H.
  destruct (quoted_ref (remaining p)) as [[k rest]| |]; cbn [skips] in H; [|destruct H as (? & ? & ->); apply skips_error | by rewrite H]. destruct H as (p0 & -> & Hp0 & <- & He0). cbn [res_bind].
  apply (skips_same _ p0); [done|]. rewrite <- (remaining_ws p0 Hp0). apply wf_ws in Hp0. apply (skips_same _ (skip_whitespaces p0)); [done|]. set (pc := skip_whitespaces p0) in *. clearbody pc.
  pose proof (try_skip_ok 58 pc Hp0) as H. destruct (strip 58 (remaining pc)) as [rest|]; [|rewrite H; apply skips_error]. destruct H as (-> & Hac & <-). cbn [negb]. apply (skips_same _ (moved 1 pc)); [done|]. pose proof (Hval (moved 1 pc) (d - 1) (af_wf _ _ Hac)) as H.
  destruct (json_ref fuel (remaining (moved 1 pc)) (d - 1)) as [[v rest]| |]; cbn [skips] in H; [|destruct H as (? & ? & ->); apply skips_error | by rewrite H]. destruct H as (p1 & -> & Hp1 & <- & He). cbn [res_bind].
  apply (skips_same _ p1); [done|]. rewrite <- (remaining_ws p1 Hp1). apply wf_ws in Hp1 as Hp2. apply (skips_same _ (skip_whitespaces p1)); [done|]. set (p2 := skip_whitespaces p1) in *. clearbody p2.
  pose proof (try_skip_ok 125 p2 Hp2) as H. destruct (strip 125 (remaining p2)) as [rest|]; [destruct H as (-> & Ha & <-); apply skips_leaf; [apply (af_wf _ _ Ha) | done]|]. rewrite H.
  pose proof (try_skip_ok 44 p2 Hp2) as H'. destruct (strip 44 (remaining p2)) as [rest|]; [|rewrite H'; destruct (remaining p2); apply skips_error].
  destruct H' as (-> & Ha & <-). rewrite <- remaining_ws by apply (af_wf _ _ Ha). apply (skips_same _ (skip_whitespaces (moved 1 p2))); [done|]. apply Hobj, wf_ws, (af_wf _ _ Ha).
Qed.
Lemma value_skip_step fuel : array_skips fuel -> object_skips fuel -> value_skips (S fuel).
Proof.
  intros Harr Hobj p d Hp. cbn [do_json_skip json_ref]. destruct (d <? 0); [apply skips_error|]. rewrite <- (remaining_ws p Hp). apply wf_ws in Hp as Hp1. apply (skips_same _ (skip_whitespaces p)); [done|]. set (p1 := skip_whitespaces p) in *. clearbody p1. unfold peek_char.
  destruct (remaining p1) as [|c r] eqn:Hr; [apply skips_error|]. cbn zeta. rewrite <- Hr.
  destruct (c =? 102); [by apply skips_word|]. destruct (c =? 116); [by apply skips_word|]. destruct (c =? 110); [by apply skips_word|]. destruct (c =? 34); [by apply skips_map, json_string_skip_ok|].
  destruct (Z.eqb_spec c 91) as [->|_].
  { destruct (parser_skip_ok 91 p1 r Hp1 Hr) as (-> & Ha & <-). rewrite <- remaining_ws by apply (af_wf _ _ Ha). pose proof (wf_ws _ (af_wf _ _ Ha)) as Hp3. apply (skips_same _ (skip_whitespaces (moved 1 p1))); [done|]. set (p3 := skip_whitespaces (moved 1 p1)) in *. clearbody p3.
    pose proof (try_skip_ok 93 p3 Hp3) as H. destruct (strip 93 (remaining p3)) as [rest|]; [destruct H as (-> & Ha4 & <-); apply skips_leaf; [apply (af_wf _ _ Ha4) | done]|]. rewrite H. by apply Harr. }
  destruct (Z.eqb_spec c 123) as [->|_].
  { destruct (parser_skip_ok 123 p1 r Hp1 Hr) as (-> & Ha & <-). rewrite <- remaining_ws by apply (af_wf _ _ Ha). pose proof (wf_ws _ (af_wf _ _ Ha)) as Hp3. apply (skips_same _ (skip_whitespaces (moved 1 p1))); [done|]. set (p3 := skip_whitespaces (moved 1 p1)) in *. clearbody p3.
    pose proof (try_skip_ok 125 p3 Hp3) as H. destruct (strip 125 (remaining p3)) as [rest|]; [destruct H as (-> & Ha4 & <-); apply skips_leaf; [apply (af_wf _ _ Ha4) | done]|]. rewrite H. by apply Hobj. }
  destruct (starts_number c); [|destruct (c =? 0); apply skips_error]. unfold read_while. rewrite <- remaining_moved. apply skips_leaf; [|done]. apply (af_wf p1). apply after_moved; [done | apply count_while_le].
Qed.
Lemma skip_reference fuel : value_skips fuel /\ array_skips fuel /\ object_skips fuel.
Proof. induction fuel as [|fuel (H1 & H2 & H3)]; [done|]. split_and!; [by apply value_skip_step | by apply array_skip_step | by apply object_skip_step]. Qed.

(** C23. [do_json_skip] passes exactly what [do_json_decode] decodes: on every text and for every
    limit of the depth the two accept the same values and leave the same rest of the text, or
    both fail; skipping does not change the buffer; and neither fails a check or runs forever. *)
Theorem json_skip_agrees (json : list Z) (max_depth : Z) :
  let p := new_parser json in
  match do_json_decode (json_fuel p) p max_depth with
  | Ok (_, p') => exists q, do_json_skip (json_fuel p) p max_depth = Ok q /\ remaining q = remaining p' /\ data_ q = json
  | Error _ _ => exists c m, do_json_skip (json_fuel p) p max_depth = Error c m
  | Panic _ => False
  end.
Proof.
  intros p. assert (remaining p = json) as Hr by apply drop_0. assert (wf p) as Hp by (split; cbn; [lia | done]). unfold json_fuel. rewrite Hr. set (fuel := (2 * length json + 2)%nat).
  pose proof (proj1 (decoder_ok fuel) p max_depth Hp) as H. pose proof (proj1 (skip_reference fuel) p max_depth Hp) as Hs. pose proof (proj1 (reference_returns fuel) json max_depth ltac:(lia)) as Hret. rewrite Hr in H, Hs.
  destruct (json_ref fuel json max_depth) as [[v rest]| |]; cbn [decodes skips returns] in *; [|by rewrite H | done]. destruct H as (sv & p' & -> & _ & <- & _). destruct Hs as (q & -> & _ & Hq & Hd). by exists q.
Qed.
