(* ===== verification/JsonBuilder.v ===== *)
(** * The encoder of JSON texts

    [JsonString], [JsonRawString], [JsonBuilder], its scopes and [JsonValue::store]
    (tdutils/td/utils/JsonBuilder.h, JsonBuilder.cpp), and that decoding inverts encoding.

    A [StringBuilder] that may grow is the text it holds.  A scope registers itself in the
    builder, where [scope_] is a pointer to it, and restores the previous one when it is
    left; pointers are numbers.  [was_] and [is_first_] are the field [used]. *)
From S2P Require Import Prelude Utf8 Integers Json JsonReference.
Local Open Scope td_scope.

(** ** Strings *)
Definition json_one_char (c : Z) : list Z :=
  [92; 117; hex_digit (Z.shiftr c 12); hex_digit (Z.land (Z.shiftr c 8) 15); hex_digit (Z.land (Z.shiftr c 4) 15); hex_digit (Z.land c 15)].
Definition json_char (c : Z) : Res (list Z) :=
  if c <? 0x10000 then if (0xD7FF <? c) && (c <? 0xE000) then Panic "UNREACHABLE" else Ok (json_one_char c)
  else if c <=? 0x10ffff then Ok (json_one_char (0xD7C0 + Z.shiftr c 10) ++ json_one_char (0xDC00 + Z.land c 0x3FF))
  else Panic "UNREACHABLE".

(** The cases of the [switch] of both printers of strings. *)
Definition json_escape (c : Z) : option (list Z) :=
  if c =? 34 then Some [92; 34] else if c =? 92 then Some [92; 92] else if c =? 8 then Some [92; 98] else if c =? 12 then Some [92; 102]
  else if c =? 10 then Some [92; 110] else if c =? 13 then Some [92; 114] else if c =? 9 then Some [92; 116]
  else if c <=? 31 then Some (json_one_char c) else None.

Definition json_raw_string (s : list Z) : list Z :=
  [34] ++ flat_map (fun c => match json_escape c with Some t => t | None => [c] end) s ++ [34].

(** One turn of the loop: [s1] follows the byte [a]. *)
Definition json_string_turn (loop : list Z -> Res (list Z)) (a : Z) (s1 : list Z) : Res (list Z) :=
  match json_escape a with
  | Some t => let* rest := loop s1 in Ok (t ++ rest)
  | None =>
      if 128 <=? a then
        CHECK! negb (Z.land a 0x40 =? 0) else "(a & 0x40) != 0" in
        match s1 with
        | [] => Panic "pos + 1 < len"
        | b :: s2 =>
            CHECK! Z.land b 0xc0 =? 0x80 else "(b & 0xc0) == 0x80" in
            if Z.land a 0x20 =? 0 then
              CHECK! 0 <? Z.land a 0x1e else "(a & 0x1e) > 0" in
              let* t := json_char (Z.lor (Z.shiftl (Z.land a 0x1f) 6) (Z.land b 0x3f)) in
              let* rest := loop s2 in Ok (t ++ rest)
            else
              match s2 with
              | [] => Panic "pos + 1 < len"
              | c :: s3 =>
                  CHECK! Z.land c 0xc0 =? 0x80 else "(c & 0xc0) == 0x80" in
                  if Z.land a 0x10 =? 0 then
                    CHECK! 0 <? Z.lor (Z.land a 0x0f) (Z.land b 0x20) else "((a & 0x0f) | (b & 0x20)) > 0" in
                    let* t := json_char (Z.lor (Z.lor (Z.shiftl (Z.land a 0x0f) 12) (Z.shiftl (Z.land b 0x3f) 6)) (Z.land c 0x3f)) in
                    let* rest := loop s3 in Ok (t ++ rest)
                  else
                    match s3 with
                    | [] => Panic "pos + 1 < len"
                    | d :: s4 =>
                        CHECK! Z.land d 0xc0 =? 0x80 else "(d & 0xc0) == 0x80" in
                        if Z.land a 0x08 =? 0 then
                          CHECK! 0 <? Z.lor (Z.land a 0x07) (Z.land b 0x30) else "((a & 0x07) | (b & 0x30)) > 0" in
                          let* t := json_char (Z.lor (Z.lor (Z.lor (Z.shiftl (Z.land a 0x07) 18) (Z.shiftl (Z.land b 0x3f) 12)) (Z.shiftl (Z.land c 0x3f) 6)) (Z.land d 0x3f)) in
                          let* rest := loop s4 in Ok (t ++ rest)
                        else Panic "UNREACHABLE"
                    end
              end
        end
      else let* rest := loop s1 in Ok (a :: rest)
  end.
Fixpoint json_string_loop (s : list Z) : Res (list Z) :=
  match s with
  | [] => Ok []
  | a :: s1 => json_string_turn json_string_loop a s1
  end.
Definition json_string (s : list Z) : Res (list Z) := let* t := json_string_loop s in Ok ([34] ++ t ++ [34]).

(** ** The builder *)
Record JsonBuilder := { sb_ : list Z; scope_ : option nat; offset_ : Z; created : nat }.
Record JsonScope := { this : nat; save_scope_ : option nat; used : bool }.

Definition put (t : list Z) (jb : JsonBuilder) : JsonBuilder := {| sb_ := sb_ jb ++ t; scope_ := scope_ jb; offset_ := offset_ jb; created := created jb |}.
Definition with_offset (o : Z) (jb : JsonBuilder) : JsonBuilder := {| sb_ := sb_ jb; scope_ := scope_ jb; offset_ := o; created := created jb |}.
Definition use (s : JsonScope) : JsonScope := {| this := this s; save_scope_ := save_scope_ s; used := true |}.

Definition is_active (s : JsonScope) (jb : JsonBuilder) : bool := bool_decide (scope_ jb = Some (this s)).
Definition is_pretty (jb : JsonBuilder) : bool := 0 <=? offset_ jb.
Definition print_offset (jb : JsonBuilder) : JsonBuilder :=
  if 0 <=? offset_ jb then put (10 :: concat (replicate (Z.to_nat (offset_ jb)) [32; 32; 32])) jb else jb.
Definition dec_offset (jb : JsonBuilder) : Res JsonBuilder :=
  if 0 <=? offset_ jb then
    CHECK! 0 <? offset_ jb else "offset_ > 0" in
    Ok (with_offset (offset_ jb - 1) jb)
  else Ok jb.
Definition inc_offset (jb : JsonBuilder) : JsonBuilder := if 0 <=? offset_ jb then with_offset (offset_ jb + 1) jb else jb.

(** The constructor and the destructor of a [JsonScope]. *)
Definition enter_value (jb : JsonBuilder) : Res (JsonScope * JsonBuilder) :=
  let s := {| this := created jb; save_scope_ := scope_ jb; used := false |} in
  let jb := {| sb_ := sb_ jb; scope_ := Some (this s); offset_ := offset_ jb; created := S (created jb) |} in
  CHECK! is_active s jb else "is_active()" in
  Ok (s, jb).
Definition leave (s : JsonScope) (jb : JsonBuilder) : Res JsonBuilder :=
  CHECK! is_active s jb else "is_active()" in
  Ok {| sb_ := sb_ jb; scope_ := save_scope_ s; offset_ := offset_ jb; created := created jb |}.

Definition enter_bracket (c : Z) (jb : JsonBuilder) : Res (JsonScope * JsonBuilder) :=
  let* (s, jb) := enter_value jb in
  Ok (s, put [c] (inc_offset jb)).
Definition leave_bracket (c : Z) (s : JsonScope) (jb : JsonBuilder) : Res JsonBuilder :=
  let* jb := dec_offset jb in
  leave s (put [c] (print_offset jb)).

(** [JsonValueScope::operator<<] *)
Definition value_put (t : list Z) (s : JsonScope) (jb : JsonBuilder) : Res (JsonScope * JsonBuilder) :=
  CHECK! negb (used s) else "!was_" in
  Ok (use s, put t jb).
Definition value_string (str : list Z) (s : JsonScope) (jb : JsonBuilder) : Res (JsonScope * JsonBuilder) :=
  CHECK! negb (used s) else "!was_" in
  let* t := json_string str in
  Ok (use s, put t jb).
(** The common part of the elements of an array and of the fields of an object. *)
Definition next_element (s : JsonScope) (jb : JsonBuilder) : Res (JsonScope * JsonBuilder) :=
  CHECK! is_active s jb else "is_active()" in
  let jb := if used s then put [44] jb else jb in
  Ok (use s, print_offset jb).

(** The loops over an array and over an object; [store] stores one value. *)
Definition store_elements (store : Json -> JsonScope -> JsonBuilder -> Res (JsonScope * JsonBuilder)) :=
  fix elements (l : list Json) (arr : JsonScope) (jb : JsonBuilder) : Res (JsonScope * JsonBuilder) :=
    match l with
    | [] => Ok (arr, jb)
    | x :: l =>
        let* (arr, jb) := next_element arr jb in
        let* (vs, jb) := enter_value jb in
        let* (vs, jb) := store x vs jb in
        let* jb := leave vs jb in
        elements l arr jb
    end.
Definition store_fields (store : Json -> JsonScope -> JsonBuilder -> Res (JsonScope * JsonBuilder)) :=
  fix fields (l : list (list Z * Json)) (object : JsonScope) (jb : JsonBuilder) : Res (JsonScope * JsonBuilder) :=
    match l with
    | [] => Ok (object, jb)
    | x :: l =>
        let* (object, jb) := next_element object jb in
        let* (vs, jb) := enter_value jb in
        let* (vs, jb) := value_string x.1 vs jb in
        let* jb := leave vs jb in
        let jb := if is_pretty jb then put (lit " : ") jb else put [58] jb in
        let* (vs, jb) := enter_value jb in
        let* (vs, jb) := store x.2 vs jb in
        let* jb := leave vs jb in
        fields l object jb
    end.

Fixpoint store (v : Json) (s : JsonScope) (jb : JsonBuilder) : Res (JsonScope * JsonBuilder) :=
  match v with
  | JsonNull => value_put (lit "null") s jb
  | JsonBoolean b => value_put (if b then lit "true" else lit "false") s jb
  | JsonNumber n => value_put n s jb
  | JsonString str => value_string str s jb
  | JsonArray l =>
      CHECK! negb (used s) else "!was_" in
      let* (arr, jb) := enter_bracket 91 jb in
      let* (arr, jb) := store_elements store l arr jb in
      let* jb := leave_bracket 93 arr jb in
      Ok (use s, jb)
  | JsonObject l =>
      CHECK! negb (used s) else "!was_" in
      let* (object, jb) := enter_bracket 123 jb in
      let* (object, jb) := store_fields store l object jb in
      let* jb := leave_bracket 125 object jb in
      Ok (use s, jb)
  end.

Definition json_encode (v : Json) (pretty : bool) : Res (list Z) :=
  let jb := {| sb_ := []; scope_ := None; offset_ := if pretty then 0 else -1; created := 0 |} in
  let* (s, jb) := enter_value jb in
  let* (s, jb) := store v s jb in
  let* jb := leave s jb in
  Ok (sb_ (if pretty then put [10] jb else jb)).

Definition example_value : Json := JsonObject [(lit "a" ++ [195; 169; 10], JsonArray [JsonNumber (lit "1"); JsonArray []; JsonObject []; JsonNull]); ([240; 159; 152; 128], JsonBoolean true)].
Example encode_example : json_encode example_value false = Ok (lit "{" ++ [34] ++ lit "a\u00e9\n" ++ [34] ++ lit ":[1,[],{},null]," ++ [34] ++ lit "\ud83d\ude00" ++ [34] ++ lit ":true}").
Proof. vm_compute. reflexivity. Qed.
Example encode_pretty_example : match json_encode example_value true with Ok t => json_reference t = Ok example_value | _ => False end.
Proof. vm_compute. reflexivity. Qed.

(** ** Decoding a string inverts printing it *)
Definition esc (c : Z) : list Z :=
  match json_escape c with
  | Some t => t
  | None => if c <? 128 then [c] else if c <? 0x10000 then json_one_char c else json_one_char (0xD7C0 + Z.shiftr c 10) ++ json_one_char (0xDC00 + Z.land c 0x3FF)
  end.

Lemma read_one_char c l : 0 <= c < 65536 -> read_hex 4 (drop 2 (json_one_char c) ++ l) 0 = Ok c.
Proof.
  intros Hc. unfold json_one_char. cbn [drop app]. rewrite ?drop_0. cbn [app]. change 15 with (2 ^ 4 - 1). rewrite !land_ones_mod, !Z.shiftr_div_pow2 by lia. change (2 ^ 12) with 4096. change (2 ^ 8) with 256. change (2 ^ 4) with 16.
  cbn [read_hex]. rewrite !hex_digit_int by zlia. rewrite (proj2 (Z.eqb_neq (c / 4096) 16)), (proj2 (Z.eqb_neq (c / 256 mod 16) 16)), (proj2 (Z.eqb_neq (c / 16 mod 16) 16)), (proj2 (Z.eqb_neq (c mod 16) 16)) by zlia. f_equal. zlia.
Qed.

Lemma string_ref_one_char c l : 0 <= c < 65536 -> is_surrogate c = false -> string_ref (json_one_char c ++ l) = let* (s, rest) := string_ref l in Ok (enc c ++ s, rest).
Proof.
  intros Hc Hs. pose proof (read_one_char c l Hc) as Hr. unfold json_one_char in *. cbn [app drop] in *. rewrite ?drop_0 in Hr. cbn [app] in Hr. set (a := hex_digit _) in *. set (b := hex_digit _) in *. set (e := hex_digit _) in *. set (f := hex_digit _) in *. clearbody a b e f.
  cbn [string_ref]. change (unescape 117) with (@None Z). change (92 =? 34) with false. change (92 =? 92) with true. change (117 =? 117) with true. cbv iota. rewrite Hr. cbn [res_bind]. unfold second_surrogate. rewrite Hs. done.
Qed.

Lemma pair_code c : 0x10000 <= c <= 0x10FFFF ->
  Z.lor (Z.shiftl (Z.land (0xD7C0 + Z.shiftr c 10) 0x3FF) 10) (Z.land (0xDC00 + Z.land c 0x3FF) 0x3FF) + 0x10000 = c.
Proof.
  intros Hc. change 0x3FF with (2 ^ 10 - 1). rewrite !land_ones_mod, Z.shiftl_mul_pow2, Z.shiftr_div_pow2 by lia. rewrite lor_disjoint_add by (try apply Z.mod_pos_bound; lia). change (2 ^ 10) with 1024. zlia.
Qed.
Lemma string_ref_pair c l : 0x10000 <= c <= 0x10FFFF ->
  string_ref (json_one_char (0xD7C0 + Z.shiftr c 10) ++ json_one_char (0xDC00 + Z.land c 0x3FF) ++ l) = let* (s, rest) := string_ref l in Ok (enc c ++ s, rest).
Proof.
  intros Hc. assert (0xD800 <= 0xD7C0 + Z.shiftr c 10 <= 0xDBFF) as Hhi by (rewrite Z.shiftr_div_pow2 by lia; change (2 ^ 10) with 1024; zlia).
  assert (0xDC00 <= 0xDC00 + Z.land c 0x3FF <= 0xDFFF) as Hlo by (change 0x3FF with (2 ^ 10 - 1); rewrite land_ones_mod by lia; change (2 ^ 10) with 1024; zlia).
  pose proof (pair_code c Hc) as Hcode. set (hi := 0xD7C0 + _) in *. set (lo := 0xDC00 + _) in *. pose proof (read_one_char hi (json_one_char lo ++ l) ltac:(lia)) as Hr1. pose proof (read_one_char lo l ltac:(lia)) as Hr2. clearbody hi lo.
  unfold json_one_char in *. cbn [app drop] in *. rewrite ?drop_0 in Hr1, Hr2. cbn [app] in *.
  repeat match goal with |- context [hex_digit ?x] => let h := fresh "h" in set (h := hex_digit x) in *; clearbody h end.
  cbn [string_ref]. change (unescape 117) with (@None Z). change (92 =? 34) with false. change (92 =? 92) with true. change (117 =? 117) with true. cbv iota. rewrite Hr1. cbn [res_bind]. unfold second_surrogate.
  assert (is_surrogate hi = true) as -> by (unfold is_surrogate; lia). change ((Nat.leb 4 (length (h3 :: h4 :: h5 :: h6 :: l)) && (92 =? 92) && (117 =? 117))%bool) with true. cbv iota. rewrite Hr2. cbn [res_bind].
  assert (is_surrogate lo = true) as -> by (unfold is_surrogate; lia). rewrite Hcode. done.
Qed.

Lemma string_ref_esc c l : is_scalar c -> string_ref (esc c ++ l) = let* (s, rest) := string_ref l in Ok (enc c ++ s, rest).
Proof.
  intros Hc. unfold esc, json_escape, is_scalar in *.
  repeat match goal with |- context [c =? ?k] => destruct (Z.eqb_spec c k) as [->|]; [reflexivity|] end. destruct (Z.leb_spec c 31); [apply string_ref_one_char; [lia | unfold is_surrogate; lia]|].
  destruct (Z.ltb_spec c 128).
  - cbn [app string_ref]. rewrite (proj2 (Z.eqb_neq c 34)), (proj2 (Z.eqb_neq c 92)) by done. unfold enc. rewrite (proj2 (Z.leb_le c 0x7f)) by lia. done.
  - destruct (Z.ltb_spec c 0x10000); [apply string_ref_one_char; [lia | unfold is_surrogate; lia]|]. rewrite <- app_assoc. apply string_ref_pair. lia.
Qed.

(** ** The printer of strings accepts valid UTF-8 *)
Lemma three_check a b : is_byte a -> is_byte b -> 224 <= a < 240 -> 128 <= b < 192 -> ~ (a = 224 /\ b < 160) -> (0 <? Z.lor (Z.land a 0x0f) (Z.land b 0x20)) = true.
Proof.
  intros Ha Hb Ra Rb Hn. pose proof (byte_forall2 (fun a b => (a <? 224) || (240 <=? a) || (b <? 128) || (192 <=? b) || ((a =? 224) && (b <? 160)) || (0 <? Z.lor (Z.land a 0x0f) (Z.land b 0x20))) ltac:(vm_compute; reflexivity) a b Ha Hb) as H. cbv beta in H.
  repeat (apply orb_prop in H as [H|H]; [exfalso; zbool; lia|]). exact H.
Qed.
Lemma four_check a b : is_byte a -> is_byte b -> 240 <= a < 248 -> 128 <= b < 192 -> ~ (a = 240 /\ b < 144) -> (0 <? Z.lor (Z.land a 0x07) (Z.land b 0x30)) = true.
Proof.
  intros Ha Hb Ra Rb Hn. pose proof (byte_forall2 (fun a b => (a <? 240) || (248 <=? a) || (b <? 128) || (192 <=? b) || ((a =? 240) && (b <? 144)) || (0 <? Z.lor (Z.land a 0x07) (Z.land b 0x30))) ltac:(vm_compute; reflexivity) a b Ha Hb) as H. cbv beta in H.
  repeat (apply orb_prop in H as [H|H]; [exfalso; zbool; lia|]). exact H.
Qed.
Lemma cont_check b : 128 <= b < 192 -> (Z.land b 0xc0 =? 0x80) = true.
Proof. intros Hb. rewrite land_cont by (unfold is_byte; lia). lia. Qed.

Lemma json_char_esc c : is_scalar c -> 128 <= c -> json_char c = Ok (esc c).
Proof.
  intros Hs Hc. unfold json_char, esc, json_escape, is_scalar in *. repeat (rewrite (proj2 (Z.eqb_neq c _)) by lia). rewrite (proj2 (Z.leb_gt c 31)), (proj2 (Z.ltb_ge c 128)) by lia.
  destruct (Z.ltb_spec c 0x10000); [rewrite (proj2 (andb_false_iff _ _)); [done | lia]|]. rewrite (proj2 (Z.leb_le c 0x10ffff)) by lia. done.
Qed.
Lemma no_escape c : 128 <= c -> json_escape c = None.
Proof. intros Hc. unfold json_escape. repeat (rewrite (proj2 (Z.eqb_neq c _)) by lia). by rewrite (proj2 (Z.leb_gt c 31)) by lia. Qed.

Lemma json_string_loop_cons a s1 : json_string_loop (a :: s1) = json_string_turn json_string_loop a s1.
Proof. done. Qed.
Lemma json_string_loop_enc c l : is_scalar c -> json_string_loop (enc c ++ l) = let* rest := json_string_loop l in Ok (esc c ++ rest).
Proof.
  intros Hc. pose proof (is_scalar_range c Hc) as Hrange. pose proof (next_enc c l Hrange) as Hnext. assert (128 <= c -> json_char c = Ok (esc c)) as Hesc by (by apply json_char_esc). unfold is_scalar in Hc. unfold enc in *.
  destruct (Z.leb_spec c 0x7f).
  { cbn [app]. rewrite json_string_loop_cons. unfold json_string_turn, esc. destruct (json_escape c) as [t|]; [done|]. rewrite (proj2 (Z.leb_gt 128 c)), (proj2 (Z.ltb_lt c 128)) by lia. done. }
  destruct (Z.leb_spec c 0x7ff); [|destruct (Z.leb_spec c 0xffff)]; cbn [app next_utf8_unsafe] in *; rewrite json_string_loop_cons; unfold json_string_turn.
  - set (a := 192 + c / 64) in *. set (b := 128 + c mod 64) in *. assert (194 <= a < 224 /\ 128 <= b < 192) as [Ha Hb] by (subst a b; zlia). clearbody a b. destruct (lead_bits a) as (L1 & L2 & L3 & _); [unfold is_byte; lia | lia|].
    rewrite land80 in Hnext by (unfold is_byte; lia). rewrite no_escape, L1, L2, L3, cont_check by lia. rewrite L2 in Hnext by lia.
    rewrite (proj2 (Z.leb_le 128 a)), (proj2 (Z.ltb_ge a 192)), (proj2 (Z.ltb_lt a 224)), (proj2 (Z.leb_le 194 a)) by lia. rewrite (proj2 (Z.ltb_ge a 128)), (proj2 (Z.ltb_lt a 224)) in Hnext by lia. injection Hnext as ->. by rewrite Hesc by lia.
  - set (a := 224 + c / 4096) in *. set (b := 128 + (c / 64) mod 64) in *. set (d := 128 + c mod 64) in *. assert (224 <= a < 240 /\ 128 <= b < 192 /\ 128 <= d < 192 /\ ~ (a = 224 /\ b < 160)) as (Ha & Hb & Hd & Hn) by (subst a b d; zlia). clearbody a b d.
    destruct (lead_bits a) as (L1 & L2 & _ & L4 & _); [unfold is_byte; lia | lia|]. rewrite land80 in Hnext by (unfold is_byte; lia). rewrite no_escape, L1, L2, L4, !cont_check, three_check by (unfold is_byte; lia). rewrite L2, L4 in Hnext by lia.
    rewrite (proj2 (Z.leb_le 128 a)), (proj2 (Z.ltb_ge a 192)), (proj2 (Z.ltb_ge a 224)), (proj2 (Z.ltb_lt a 240)) by lia. rewrite (proj2 (Z.ltb_ge a 128)), (proj2 (Z.ltb_ge a 224)), (proj2 (Z.ltb_lt a 240)) in Hnext by lia. injection Hnext as ->. by rewrite Hesc by lia.
  - set (a := 240 + c / 262144) in *. set (b := 128 + (c / 4096) mod 64) in *. set (d := 128 + (c / 64) mod 64) in *. set (e := 128 + c mod 64) in *. assert (240 <= a < 248 /\ 128 <= b < 192 /\ 128 <= d < 192 /\ 128 <= e < 192 /\ ~ (a = 240 /\ b < 144)) as (Ha & Hb & Hd & He & Hn) by (subst a b d e; zlia). clearbody a b d e.
    destruct (lead_bits a) as (L1 & L2 & _ & L4 & L5); [unfold is_byte; lia | lia|]. rewrite land80 in Hnext by (unfold is_byte; lia). rewrite no_escape, L1, L2, L4, L5, !cont_check, four_check by (unfold is_byte; lia). rewrite L2, L4, L5 in Hnext by lia.
    rewrite (proj2 (Z.leb_le 128 a)), (proj2 (Z.ltb_ge a 192)), (proj2 (Z.ltb_ge a 224)), (proj2 (Z.ltb_ge a 240)), (proj2 (Z.ltb_lt a 248)) by lia. rewrite (proj2 (Z.ltb_ge a 128)), (proj2 (Z.ltb_ge a 224)), (proj2 (Z.ltb_ge a 240)), (proj2 (Z.ltb_lt a 248)) in Hnext by lia. injection Hnext as ->. by rewrite Hesc by lia.
Qed.

(** A printed string is read back, whatever follows it. *)
Lemma string_ref_escs cps rest : Forall is_scalar cps -> string_ref (flat_map esc cps ++ 34 :: rest) = Ok (flat_map enc cps, rest).
Proof. induction 1 as [|c cps Hc _ IH]; [done|]. cbn [flat_map]. by rewrite <- app_assoc, string_ref_esc, IH. Qed.
Lemma json_string_loop_encs cps : Forall is_scalar cps -> json_string_loop (flat_map enc cps) = Ok (flat_map esc cps).
Proof. induction 1 as [|c cps Hc _ IH]; [done|]. cbn [flat_map]. by rewrite json_string_loop_enc, IH. Qed.
Lemma json_string_ok s : valid_utf8 s -> exists t, json_string s = Ok (34 :: t) /\ forall rest, quoted_ref ((34 :: t) ++ rest) = Ok (s, rest).
Proof.
  intros (cps & Hcps & ->). rewrite utf8_of_enc by done. unfold json_string. rewrite json_string_loop_encs by done. exists (flat_map esc cps ++ [34]). split; [done|]. intros rest. cbn [app]. unfold quoted_ref. cbn [strip]. rewrite Z.eqb_refl, <- app_assoc. by apply string_ref_escs.
Qed.

(** A raw string is read back whatever its bytes are. *)
Lemma string_ref_escape c t l : json_escape c = Some t -> 0 <= c -> string_ref (t ++ l) = let* (s, rest) := string_ref l in Ok (c :: s, rest).
Proof.
  intros He Hc. unfold json_escape in He. repeat match type of He with context [c =? ?k] => destruct (Z.eqb_spec c k) as [->|]; [by injection He as <-|] end. destruct (Z.leb_spec c 31); [|done]. injection He as <-.
  rewrite string_ref_one_char by (lia || (unfold is_surrogate; lia)). unfold enc. by rewrite (proj2 (Z.leb_le c 0x7f)) by lia.
Qed.
Lemma json_escape_none c : json_escape c = None -> c <> 34 /\ c <> 92.
Proof. intros He. split; intros ->; done. Qed.

Theorem json_raw_string_roundtrip (s rest : list Z) : bytes s -> quoted_ref (json_raw_string s ++ rest) = Ok (s, rest).
Proof.
  intros Hs. unfold json_raw_string, quoted_ref. cbn [app strip]. rewrite Z.eqb_refl, <- app_assoc. cbn [app]. induction Hs as [|c s Hc _ IH]; [done|]. cbn [flat_map]. rewrite <- app_assoc. unfold is_byte in Hc.
  destruct (json_escape c) as [t|] eqn:He; [by rewrite (string_ref_escape c), IH by (done || lia)|]. apply json_escape_none in He as [H1 H2]. cbn [app string_ref]. rewrite (proj2 (Z.eqb_neq c 34)), (proj2 (Z.eqb_neq c 92)) by done. by rewrite IH.
Qed.

(** ** Values that can be encoded *)
Definition number_text (n : list Z) : Prop := match n with c :: _ => starts_number c = true /\ forallb number_char n = true | [] => False end.
Fixpoint valid (v : Json) : Prop :=
  match v with
  | JsonNumber n => number_text n
  | JsonString s => valid_utf8 s
  | JsonArray l => foldr (fun x P => valid x /\ P) True l
  | JsonObject l => foldr (fun x P => (valid_utf8 x.1 /\ valid x.2) /\ P) True l
  | _ => True
  end.
Fixpoint depth (v : Json) : Z :=
  match v with
  | JsonArray l => 1 + foldr (fun x m => Z.max (depth x) m) 0 l
  | JsonObject l => 1 + foldr (fun x m => Z.max (depth x.2) m) 0 l
  | _ => 0
  end.
Lemma foldr_and {A} (P : A -> Prop) l : foldr (fun x Q => P x /\ Q) True l <-> Forall P l.
Proof. induction l as [|x l IH]; cbn; [done|]. rewrite IH. split; [intros [? ?]; by constructor | intros H; by apply Forall_cons in H]. Qed.
Lemma foldr_max {A} (f : A -> Z) l d : foldr (fun x m => Z.max (f x) m) 0 l <= d <-> 0 <= d /\ Forall (fun x => f x <= d) l.
Proof. induction l as [|x l IH]; cbn; [split; [by split | by intros [? _]]|]. rewrite Z.max_lub_iff, IH, Forall_cons. tauto. Qed.
Lemma depth_array l d : depth (JsonArray l) <= d <-> 0 <= d - 1 /\ Forall (fun x => depth x <= d - 1) l.
Proof. rewrite <- foldr_max. cbn [depth]. lia. Qed.
Lemma depth_object l d : depth (JsonObject l) <= d <-> 0 <= d - 1 /\ Forall (fun x => depth x.2 <= d - 1) l.
Proof. rewrite <- (foldr_max (fun x : list Z * Json => depth x.2)). cbn [depth]. lia. Qed.

(** ** A text that is decoded to a value *)
Definition stops (rest : list Z) : Prop := match rest with c :: _ => number_char c = false | [] => True end.
Definition spaces (w : list Z) : Prop := Forall (fun c => is_whitespace c = true) w.
Definition starts_plain (t : list Z) : Prop := match t with c :: _ => is_whitespace c = false /\ c <> 93 /\ c <> 125 | [] => False end.
Record writes (t : list Z) (v : Json) : Prop := {
  wr_plain : starts_plain t;
  wr_decode fuel d rest : depth v <= d -> stops rest -> (2 * length (t ++ rest) + 1 <= fuel)%nat -> json_ref fuel (t ++ rest) d = Ok (v, rest);
}.

Lemma ws_spaces w l : spaces w -> ws (w ++ l) = ws l.
Proof. unfold ws. induction 1 as [|c w Hc _ IH]; [done|]. cbn [app count_while]. rewrite Hc. cbn [drop]. exact IH. Qed.
Lemma ws_plain c l : is_whitespace c = false -> ws (c :: l) = c :: l.
Proof. intros Hc. unfold ws. cbn [count_while]. by rewrite Hc. Qed.
Lemma ws_text t l : starts_plain t -> ws (t ++ l) = t ++ l.
Proof. destruct t as [|c t]; [done|]. intros [Hc _]. cbn [app]. by apply ws_plain. Qed.
Lemma strip_close t l c : starts_plain t -> c = 93 \/ c = 125 -> strip c (t ++ l) = None.
Proof. destruct t as [|x t]; [done|]. intros (_ & H1 & H2) Hc. cbn [app strip]. destruct (Z.eqb_spec x c); [|done]. destruct Hc; congruence. Qed.
Lemma json_ref_spaces fuel w l d : spaces w -> json_ref fuel (w ++ l) d = json_ref fuel l d.
Proof. intros Hw. destruct fuel as [|fuel]; [done|]. cbn [json_ref]. by rewrite ws_spaces. Qed.
Lemma space_stops w l : spaces w -> stops l -> stops (w ++ l).
Proof. intros Hw Hl. destruct Hw as [|c w Hc _]; [done|]. cbn. unfold is_whitespace in Hc. repeat (apply orb_prop in Hc as [Hc|Hc]); apply Z.eqb_eq in Hc; by subst c. Qed.

(** *** Leaves *)
Lemma writes_word w v (e : string) : starts_plain w ->
  (forall fuel d rest, 0 <= d -> json_ref (S fuel) (w ++ rest) d = word_ref w v e (w ++ rest)) -> depth v = 0 -> writes w v.
Proof.
  intros Hp Heq Hd. constructor; [done|]. intros fuel d rest Hdep _ Hf. destruct fuel as [|fuel]; [lia|]. rewrite Heq by lia. unfold word_ref, strip_word. rewrite take_app_length, bool_decide_eq_true_2 by done. by rewrite drop_app_length.
Qed.
Lemma writes_null : writes (lit "null") JsonNull.
Proof. apply (writes_word _ _ "Token starts with 'n' -- null expected"); [done | | done]. intros fuel d rest Hd. cbn [json_ref]. rewrite (proj2 (Z.ltb_ge d 0)) by done. reflexivity. Qed.
Lemma writes_boolean (b : bool) : writes (if b then lit "true" else lit "false") (JsonBoolean b).
Proof.
  destruct b; [apply (writes_word _ _ "Token starts with 't' -- true expected") | apply (writes_word _ _ "Token starts with 'f' -- false expected")]; try done; intros fuel d rest Hd; cbn [json_ref]; rewrite (proj2 (Z.ltb_ge d 0)) by done; reflexivity.
Qed.
Lemma starts_number_range c : starts_number c = true -> c = 43 \/ c = 45 \/ c = 46 \/ 48 <= c <= 57.
Proof. unfold starts_number, is_digit. intros H. repeat (apply orb_prop in H as [H|H]); zbool; lia. Qed.
Lemma count_number n (rest : list Z) : forallb number_char n = true -> stops rest -> count_while number_char (n ++ rest) = length n.
Proof.
  intros Hn Hr. induction n as [|c n IH]; cbn [app count_while length].
  - destruct rest as [|c rest]; [done|]. cbn in *. by rewrite Hr.
  - cbn in Hn. apply andb_prop in Hn as [Hc Hn]. rewrite Hc. f_equal. by apply IH.
Qed.
Lemma writes_number n : number_text n -> writes n (JsonNumber n).
Proof.
  destruct n as [|c n]; [done|]. intros [Hc Hn]. pose proof (starts_number_range c Hc) as Hr. assert (is_whitespace c = false) as Hw by (unfold is_whitespace; lia). constructor; [cbn; split_and!; [done | lia | lia]|].
  intros fuel d rest Hd Hstop Hf. cbn in Hd. destruct fuel as [|fuel]; [lia|]. cbn [json_ref app]. rewrite (proj2 (Z.ltb_ge d 0)), ws_plain by done. cbn zeta.
  repeat match goal with |- context [c =? ?k] => rewrite (proj2 (Z.eqb_neq c k)) by lia end. rewrite Hc. change (c :: n ++ rest) with ((c :: n) ++ rest). rewrite count_number by done. by rewrite take_app_length, drop_app_length.
Qed.
Lemma writes_string s t : json_string s = Ok (34 :: t) -> (forall rest, quoted_ref ((34 :: t) ++ rest) = Ok (s, rest)) -> writes (34 :: t) (JsonString s).
Proof.
  intros _ Hq. constructor; [done|]. intros fuel d rest Hd _ Hf. cbn in Hd. destruct fuel as [|fuel]; [lia|]. cbn [json_ref app]. rewrite (proj2 (Z.ltb_ge d 0)), ws_plain by done. cbn zeta.
  change (34 :: t ++ rest) with ((34 :: t) ++ rest). eval_tests. by rewrite Hq.
Qed.

(** *** Arrays *)
Fixpoint joined (used : bool) (w : list Z) (ts : list (list Z)) : list Z :=
  match ts with
  | [] => []
  | t :: ts => (if used then [44] else []) ++ w ++ t ++ joined true w ts
  end.
Lemma joined_stops w ts w' c (rest : list Z) : spaces w' -> number_char c = false -> stops (joined true w ts ++ w' ++ c :: rest).
Proof. intros Hw' Hc. destruct ts as [|t ts]; [cbn [joined app]; by apply space_stops | done]. Qed.

Lemma array_ref_joined w w' (rest : list Z) ts vs : spaces w -> spaces w' -> Forall2 writes ts vs -> forall t v fuel d (acc : list Json), writes t v -> Forall (fun x => depth x <= d - 1) (v :: vs) ->
  (2 * length (t ++ joined true w ts ++ w' ++ (93 : Z) :: rest) + 2 <= fuel)%nat ->
  array_ref fuel (t ++ joined true w ts ++ w' ++ 93 :: rest) d acc = Ok (JsonArray (acc ++ v :: vs), rest).
Proof.
  intros Hw Hw'. induction 1 as [|t1 v1 ts vs H1 _ IH]; intros t v fuel d acc Ht Hd Hf; (destruct fuel as [|fuel]; [lia|]); inv_Forall; cbn [array_ref].
  - assert (exists c r, t ++ joined true w [] ++ w' ++ 93 :: rest = c :: r) as (c & r & Hcr) by (destruct t; [by destruct (wr_plain _ _ Ht) | by eexists _, _]). rewrite Hcr. rewrite <- Hcr. 
    rewrite (wr_decode _ _ Ht) by (done || lia || by apply joined_stops). cbn [res_bind joined app]. rewrite ws_spaces, ws_plain by done. cbn [strip]. by rewrite Z.eqb_refl.
  - assert (exists c r, t ++ joined true w (t1 :: ts) ++ w' ++ 93 :: rest = c :: r) as (c & r & Hcr) by (destruct t; [by destruct (wr_plain _ _ Ht) | by eexists _, _]). rewrite Hcr. rewrite <- Hcr.
    rewrite (wr_decode _ _ Ht) by (done || lia || by apply joined_stops). cbn [res_bind joined app]. rewrite <- !app_assoc. rewrite ws_plain by done. cbn [strip]. eval_tests. rewrite ws_spaces, ws_text by (done || apply (wr_plain _ _ H1)).
    rewrite (IH t1 v1); [by rewrite <- app_assoc | done | by constructor|]. rewrite !length_app in *. cbn [joined app length] in Hf. rewrite !length_app in Hf. cbn [length] in *. lia.
Qed.

Lemma open_bracket fuel d c l : 0 <= d -> c = 91 \/ c = 123 ->
  json_ref (S fuel) (c :: l) d = (if c =? 91 then match strip 93 (ws l) with Some rest => Ok (JsonArray [], rest) | None => array_ref fuel (ws l) d [] end
                                   else match strip 125 (ws l) with Some rest => Ok (JsonObject [], rest) | None => object_ref fuel (ws l) d [] end).
Proof. intros Hd Hc. cbn [json_ref]. rewrite (proj2 (Z.ltb_ge d 0)) by done. destruct Hc as [-> | ->]; rewrite ws_plain by done; reflexivity. Qed.
Lemma strip_same c l : strip c (c :: l) = Some l.
Proof. cbn. by rewrite Z.eqb_refl. Qed.

Lemma writes_array w w' ts vs : spaces w -> spaces w' -> Forall2 writes ts vs -> writes (91 :: joined false w ts ++ w' ++ [93]) (JsonArray vs).
Proof.
  intros Hw Hw' Hts. constructor; [done|]. intros fuel d rest [Hd Hall]%depth_array _ Hf. destruct fuel as [|fuel]; [lia|]. cbn [app] in *. rewrite open_bracket by (lia || by left). change (91 =? 91) with true. cbv iota.
  rewrite <- !app_assoc in *. cbn [app] in *. destruct Hts as [|t v ts vs Ht Hts]; cbn [joined app] in *.
  - by rewrite ws_spaces, ws_plain, strip_same by done.
  - rewrite <- !app_assoc in *. rewrite ws_spaces, ws_text by (done || apply (wr_plain _ _ Ht)). rewrite strip_close by (apply (wr_plain _ _ Ht) || by left). rewrite (array_ref_joined w w' rest ts vs Hw Hw' Hts t v); [done | done | done|].
    rewrite !length_app in *. cbn [length] in *. rewrite !length_app in *. cbn [length] in *. lia.
Qed.

(** *** Objects *)
Inductive writes_field : list Z -> list Z * Json -> Prop :=
| field_text kt w1 w2 vt k v : starts_plain kt -> spaces w1 -> spaces w2 -> (forall rest, quoted_ref (kt ++ rest) = Ok (k, rest)) -> writes vt v -> writes_field (kt ++ w1 ++ 58 :: w2 ++ vt) (k, v).
Lemma field_plain t x : writes_field t x -> starts_plain t.
Proof. intros [kt w1 w2 vt k v Hp _ _ _ _]. by destruct kt. Qed.

(** A field, and what is left for the rest of the object. *)
Lemma field_decode fuel d t k v l acc : writes_field t (k, v) -> depth v <= d - 1 -> stops l -> (2 * length (t ++ l) + 2 <= S fuel)%nat ->
  object_ref (S fuel) (t ++ l) d acc = object_rest_ref fuel l d (acc ++ [(k, v)]).
Proof.
  intros Ht Hd Hl Hf. inversion Ht as [kt w1 w2 vt k' v' Hp Hw1 Hw2 Hq Hv]; subst. cbn [object_ref].
  assert (exists c r, (kt ++ w1 ++ 58 :: w2 ++ vt) ++ l = c :: r) as (c & r & Hcr) by (destruct kt; [by destruct Hp | by eexists _, _]). rewrite Hcr, <- Hcr.
  rewrite <- app_assoc, Hq. cbn [res_bind]. rewrite <- app_assoc, ws_spaces by done. cbn [app]. rewrite ws_plain, strip_same by done. rewrite <- app_assoc, json_ref_spaces by done. rewrite (wr_decode _ _ Hv); [done | done | done|].
  rewrite !length_app in *. cbn [length] in *. rewrite !length_app in *. cbn [length] in *. lia.
Qed.

Lemma object_ref_joined w w' (rest : list Z) ts (vs : list (list Z * Json)) : spaces w -> spaces w' -> Forall2 writes_field ts vs -> forall t k v fuel d (acc : list (list Z * Json)), writes_field t (k, v) -> Forall (fun x => depth x.2 <= d - 1) ((k, v) :: vs) ->
  (2 * length (t ++ joined true w ts ++ w' ++ (125 : Z) :: rest) + 2 <= fuel)%nat ->
  object_ref fuel (t ++ joined true w ts ++ w' ++ 125 :: rest) d acc = Ok (JsonObject (acc ++ (k, v) :: vs), rest).
Proof.
  intros Hw Hw'. induction 1 as [|t1 [k1 v1] ts vs H1 _ IH]; intros t k v fuel d acc Ht Hd Hf; (destruct fuel as [|fuel]; [lia|]); inv_Forall; cbn [snd] in *; rewrite (field_decode _ _ _ k v) by (done || lia || by apply joined_stops); unfold object_rest_ref.
  - cbn [joined app]. by rewrite ws_spaces, ws_plain, strip_same by done.
  - cbn [joined app]. rewrite <- !app_assoc. rewrite ws_plain by done. cbn [strip]. eval_tests. rewrite ws_spaces, ws_text by (done || by eapply field_plain).
    rewrite (IH t1 k1 v1); [by rewrite <- app_assoc | done | by constructor|]. rewrite !length_app in *. cbn [joined app length] in Hf. rewrite !length_app in Hf. cbn [length] in *. lia.
Qed.
Lemma writes_object w w' ts vs : spaces w -> spaces w' -> Forall2 writes_field ts vs -> writes (123 :: joined false w ts ++ w' ++ [125]) (JsonObject vs).
Proof.
  intros Hw Hw' Hts. constructor; [done|]. intros fuel d rest [Hd Hall]%depth_object _ Hf. destruct fuel as [|fuel]; [lia|]. cbn [app] in *. rewrite open_bracket by (lia || by right). change (123 =? 91) with false. cbv iota.
  rewrite <- !app_assoc in *. cbn [app] in *. destruct Hts as [|t [k v] ts vs Ht Hts]; cbn [joined app] in *.
  - by rewrite ws_spaces, ws_plain, strip_same by done.
  - rewrite <- !app_assoc in *. pose proof (field_plain _ _ Ht) as Hp. rewrite ws_spaces, ws_text by done. rewrite strip_close by (done || by right). rewrite (object_ref_joined w w' rest ts vs Hw Hw' Hts t k v); [done | done | done|].
    rewrite !length_app in *. cbn [length] in *. rewrite !length_app in *. cbn [length] in *. lia.
Qed.

(** ** The builder writes such texts *)
Record grown (jb jb' : JsonBuilder) (t : list Z) : Prop := {
  gr_text : sb_ jb' = sb_ jb ++ t;
  gr_scope : scope_ jb' = scope_ jb;
  gr_offset : offset_ jb' = offset_ jb;
}.
Lemma text_grown_trans jb1 jb2 jb3 t1 t2 : grown jb1 jb2 t1 -> grown jb2 jb3 t2 -> grown jb1 jb3 (t1 ++ t2).
Proof. intros [A1 A2 A3] [B1 B2 B3]. constructor; [by rewrite B1, A1, app_assoc | congruence | congruence]. Qed.
Lemma grown_put jb t : grown jb (put t jb) t.
Proof. done. Qed.

Definition new_line (o : Z) : list Z := if 0 <=? o then 10 :: concat (replicate (Z.to_nat o) [32; 32; 32]) else [].
Lemma new_line_spaces o : spaces (new_line o).
Proof. unfold new_line. destruct (0 <=? o); [|constructor]. constructor; [done|]. induction (Z.to_nat o) as [|n IH]; [constructor|]. cbn. by repeat constructor. Qed.
Lemma print_offset_ok jb : grown jb (print_offset jb) (new_line (offset_ jb)).
Proof. unfold print_offset, new_line. destruct (0 <=? offset_ jb); [done|]. constructor; [by rewrite app_nil_r | done | done]. Qed.

(** What fills a scope of a value, at the offset [o]. *)
Definition fills (f : JsonScope -> JsonBuilder -> Res (JsonScope * JsonBuilder)) (o : Z) (t : list Z) : Prop :=
  forall s jb, used s = false -> offset_ jb = o -> exists jb', f s jb = Ok (use s, jb') /\ grown jb jb' t.

(** A scope that is entered, filled and left. *)
Lemma in_scope {B} f t jb (k : JsonBuilder -> Res B) : fills f (offset_ jb) t ->
  exists jb', (let* (vs, jb) := enter_value jb in let* (vs, jb) := f vs jb in let* jb := leave vs jb in k jb) = k jb' /\ grown jb jb' t.
Proof.
  intros Hf. unfold enter_value, is_active at 1. cbn [this scope_]. rewrite bool_decide_eq_true_2 by done. cbn [res_bind]. set (s := {| this := created jb |}). set (jb1 := {| sb_ := sb_ jb |}).
  destruct (Hf s jb1 eq_refl eq_refl) as (jb2 & -> & [A1 A2 A3]). cbn [res_bind]. unfold leave, is_active. rewrite A2. cbn [this use s scope_ jb1]. rewrite bool_decide_eq_true_2 by done. cbn [res_bind]. eexists. split; [done|]. by constructor.
Qed.
Lemma next_element_ok s jb : scope_ jb = Some (this s) -> exists jb', next_element s jb = Ok (use s, jb') /\ grown jb jb' ((if used s then [44] else []) ++ new_line (offset_ jb)).
Proof.
  intros Hs. unfold next_element, is_active. rewrite bool_decide_eq_true_2 by done. eexists. split; [done|]. destruct (used s); [|apply print_offset_ok]. apply (text_grown_trans _ (put [44] jb)); [done | exact (print_offset_ok (put [44] jb))].
Qed.
Lemma value_put_fills t o : fills (value_put t) o t.
Proof. intros s jb Hs _. unfold value_put. rewrite Hs. by eexists. Qed.
Lemma value_string_fills str t o : json_string str = Ok t -> fills (value_string str) o t.
Proof. intros Ht s jb Hs _. unfold value_string. rewrite Hs, Ht. by eexists. Qed.

Definition stored (v : Json) : Prop := forall o, -1 <= o -> exists t, fills (store v) o t /\ writes t v.

Lemma store_elements_ok l o : -1 <= o -> Forall stored l -> exists ts, Forall2 writes ts l /\
  forall arr jb, scope_ jb = Some (this arr) -> offset_ jb = o ->
    exists arr' jb', store_elements store l arr jb = Ok (arr', jb') /\ grown jb jb' (joined (used arr) (new_line o) ts) /\ this arr' = this arr /\ save_scope_ arr' = save_scope_ arr.
Proof.
  intros Ho. induction 1 as [|x l Hx _ (ts & Hts & IH)].
  - exists []. split; [constructor|]. intros arr jb _ _. exists arr, jb. split_and!; try done. constructor; [by rewrite app_nil_r | done | done].
  - destruct (Hx o Ho) as (t & Hfill & Hw). exists (t :: ts). split; [by constructor|]. intros arr jb Hs Hoff. cbn [store_elements]. destruct (next_element_ok arr jb Hs) as (jb1 & -> & G1). cbn [res_bind].
    assert (offset_ jb1 = o) as Ho1 by (rewrite (gr_offset _ _ _ G1); done).
    destruct (in_scope (store x) t jb1 (store_elements store l (use arr))) as (jb2 & Heq & G2); [by rewrite Ho1|]. unfold store_elements in Heq at 1 |- * at 1. cbn beta in Heq. rewrite Heq. clear Heq. pose proof (text_grown_trans _ _ _ _ _ G1 G2) as G.
    destruct (IH (use arr) jb2) as (arr' & jb' & -> & G3 & H1 & H2); [by rewrite (gr_scope _ _ _ G) | by rewrite (gr_offset _ _ _ G)|]. exists arr', jb'. split_and!; try done.
    cbn [joined]. pose proof (text_grown_trans _ _ _ _ _ G G3) as G4. rewrite Hoff in G4. by rewrite <- !app_assoc in G4.
Qed.

Lemma lit_colon : lit " : " = [32; 58; 32].
Proof. done. Qed.
Lemma field_stored x o : -1 <= o -> valid_utf8 x.1 -> stored x.2 -> exists t, writes_field t x /\
  forall jb (B : Type) (k : JsonBuilder -> Res B), offset_ jb = o ->
    exists jb', (let* (vs, jb) := enter_value jb in let* (vs, jb) := value_string x.1 vs jb in let* jb := leave vs jb in
                 let jb := if is_pretty jb then put (lit " : ") jb else put [58] jb in
                 let* (vs, jb) := enter_value jb in let* (vs, jb) := store x.2 vs jb in let* jb := leave vs jb in k jb) = k jb' /\ grown jb jb' t.
Proof.
  intros Ho Hk Hv. destruct x as [name v]. cbn [fst snd] in *. destruct (json_string_ok name Hk) as (kt & Hkt & Hquote). destruct (Hv o Ho) as (vt & Hfill & Hw).
  set (sep := if 0 <=? o then lit " : " else [58]). exists ((34 :: kt) ++ sep ++ vt). split.
  - unfold sep. destruct (0 <=? o).
    + rewrite lit_colon. exact (field_text (34 :: kt) [32] [32] vt name v ltac:(done) ltac:(by repeat constructor) ltac:(by repeat constructor) Hquote Hw).
    + exact (field_text (34 :: kt) [] [] vt name v ltac:(done) ltac:(constructor) ltac:(constructor) Hquote Hw).
  - intros jb B k Hoff. destruct (in_scope (value_string name) (34 :: kt) jb (fun jb => let jb := if is_pretty jb then put (lit " : ") jb else put [58] jb in
      let* (vs, jb) := enter_value jb in let* (vs, jb) := store v vs jb in let* jb := leave vs jb in k jb)) as (jb1 & Heq1 & G1); [by apply value_string_fills|]. set (jb2 := if is_pretty jb1 then put (lit " : ") jb1 else put [58] jb1).
    assert (grown jb1 jb2 sep) as G2. { unfold jb2, sep, is_pretty. rewrite (gr_offset _ _ _ G1), Hoff. by destruct (0 <=? o). }
    pose proof (text_grown_trans _ _ _ _ _ G1 G2) as G. destruct (in_scope (store v) vt jb2 k) as (jb3 & Heq3 & G3); [by rewrite (gr_offset _ _ _ G), Hoff|]. exists jb3. split; [exact (eq_trans Heq1 Heq3)|]. pose proof (text_grown_trans _ _ _ _ _ G G3) as G4. by rewrite <- app_assoc in G4.
Qed.

Lemma store_fields_ok l o : -1 <= o -> Forall (fun x => valid_utf8 x.1 /\ stored x.2) l -> exists ts, Forall2 writes_field ts l /\
  forall object jb, scope_ jb = Some (this object) -> offset_ jb = o ->
    exists object' jb', store_fields store l object jb = Ok (object', jb') /\ grown jb jb' (joined (used object) (new_line o) ts) /\ this object' = this object /\ save_scope_ object' = save_scope_ object.
Proof.
  intros Ho. induction 1 as [|x l [Hk Hv] _ (ts & Hts & IH)].
  - exists []. split; [constructor|]. intros arr jb _ _. exists arr, jb. split_and!; try done. constructor; [by rewrite app_nil_r | done | done].
  - destruct (field_stored x o Ho Hk Hv) as (t & Hw & Hfield). exists (t :: ts). split; [by constructor|]. intros arr jb Hs Hoff. cbn [store_fields]. destruct (next_element_ok arr jb Hs) as (jb1 & -> & G1). cbn [res_bind].
    assert (offset_ jb1 = o) as Ho1 by (rewrite (gr_offset _ _ _ G1); done).
    destruct (Hfield jb1 _ (store_fields store l (use arr)) Ho1) as (jb2 & Heq & G2). unfold store_fields in Heq at 1 |- * at 1. rewrite Heq. clear Heq. pose proof (text_grown_trans _ _ _ _ _ G1 G2) as G.
    destruct (IH (use arr) jb2) as (arr' & jb' & -> & G3 & H1 & H2); [by rewrite (gr_scope _ _ _ G) | by rewrite (gr_offset _ _ _ G)|]. exists arr', jb'. split_and!; try done.
    cbn [joined]. pose proof (text_grown_trans _ _ _ _ _ G G3) as G4. rewrite Hoff in G4. by rewrite <- !app_assoc in G4.
Qed.

(** An array or an object, when [body] fills it. *)
Definition inner (o : Z) : Z := if 0 <=? o then o + 1 else o.
Lemma brackets_ok open close o body (loop : JsonScope -> JsonBuilder -> Res (JsonScope * JsonBuilder)) : -1 <= o ->
  (forall arr jb, used arr = false -> scope_ jb = Some (this arr) -> offset_ jb = inner o -> exists arr' jb', loop arr jb = Ok (arr', jb') /\ grown jb jb' body /\ this arr' = this arr /\ save_scope_ arr' = save_scope_ arr) ->
  fills (fun s jb => CHECK! negb (used s) else "!was_" in
     let* (arr, jb) := enter_bracket open jb in let* (arr, jb) := loop arr jb in let* jb := leave_bracket close arr jb in Ok (use s, jb)) o (open :: body ++ new_line o ++ [close]).
Proof.
  intros Ho Hloop s jb Hs Hoff. rewrite Hs. unfold enter_bracket, enter_value, is_active at 1. cbn [this scope_]. rewrite bool_decide_eq_true_2 by done. cbn [res_bind]. set (arr := {| this := created jb |}). set (jb1 := put [open] _).
  assert (scope_ jb1 = Some (this arr) /\ offset_ jb1 = inner o /\ sb_ jb1 = sb_ jb ++ [open]) as (Hs1 & Ho1 & Ht1). { unfold jb1, inc_offset, inner. cbn [offset_]. rewrite Hoff. by destruct (0 <=? o). }
  destruct (Hloop arr jb1 eq_refl Hs1 Ho1) as (arr' & jb2 & -> & [A1 A2 A3] & H1 & H2). cbn [res_bind]. unfold leave_bracket.
  assert (exists jb3, dec_offset jb2 = Ok jb3 /\ sb_ jb3 = sb_ jb2 /\ scope_ jb3 = scope_ jb2 /\ offset_ jb3 = o) as (jb3 & -> & B1 & B2 & B3).
  { unfold dec_offset. rewrite A3, Ho1. unfold inner. destruct (Z.leb_spec 0 o).
    - rewrite (proj2 (Z.leb_le 0 (o + 1))), (proj2 (Z.ltb_lt 0 (o + 1))) by lia. eexists. split; [done|]. cbn. split_and!; try done. lia.
    - rewrite (proj2 (Z.leb_gt 0 o)) by lia. exists jb2. split_and!; try done. rewrite A3, Ho1. unfold inner. by rewrite (proj2 (Z.leb_gt 0 o)) by lia. }
  cbn [res_bind]. destruct (print_offset_ok jb3) as [C1 C2 C3]. unfold leave, is_active. cbn [scope_ put]. rewrite C2, B2, A2, Hs1, H1, bool_decide_eq_true_2 by done. cbn [res_bind]. eexists. split; [done|]. constructor; cbn.
  - rewrite C1, B1, A1, Ht1, B3. by rewrite <- !app_assoc.
  - by rewrite H2.
  - by rewrite C3, B3.
Qed.

Lemma store_ok v : valid v -> stored v.
Proof.
  induction v as [|n|b|str|l IH|l IH] using json_induction; cbn [valid]; intros Hv o Ho.
  - exists (lit "null"). split; [apply value_put_fills | apply writes_null].
  - exists n. split; [apply value_put_fills | by apply writes_number].
  - exists (if b then lit "true" else lit "false"). split; [apply value_put_fills | apply writes_boolean].
  - destruct (json_string_ok str Hv) as (t & Ht & Hq). exists (34 :: t). split; [by apply value_string_fills | by apply writes_string].
  - apply foldr_and in Hv. assert (Forall stored l) as Hall. { rewrite Forall_forall in *. intros x Hx. by apply IH, Hv. }
    destruct (store_elements_ok l (inner o) ltac:(unfold inner; case_if; lia) Hall) as (ts & Hts & Hloop). exists (91 :: joined false (new_line (inner o)) ts ++ new_line o ++ [93]). split; [|apply writes_array; [apply new_line_spaces | apply new_line_spaces | done]].
    apply (brackets_ok 91 93 o _ (store_elements store l) Ho). intros arr jb Hu. rewrite <- Hu. apply Hloop.
  - apply (foldr_and (fun x => valid_utf8 x.1 /\ valid x.2)) in Hv. assert (Forall (fun x => valid_utf8 x.1 /\ stored x.2) l) as Hall. { rewrite Forall_forall in *. intros x Hx. split; [apply (Hv x Hx) | by apply IH, Hv]. }
    destruct (store_fields_ok l (inner o) ltac:(unfold inner; case_if; lia) Hall) as (ts & Hts & Hloop). exists (123 :: joined false (new_line (inner o)) ts ++ new_line o ++ [125]). split; [|apply writes_object; [apply new_line_spaces | apply new_line_spaces | done]].
    apply (brackets_ok 123 125 o _ (store_fields store l) Ho). intros arr jb Hu. rewrite <- Hu. apply Hloop.
Qed.

Lemma json_encode_ok v pretty : valid v -> depth v <= DEFAULT_MAX_DEPTH -> exists t, json_encode v pretty = Ok t /\ json_reference t = Ok v.
Proof.
  intros Hv Hd. unfold json_encode. set (jb := {| sb_ := [] |}). destruct (store_ok v Hv (offset_ jb)) as (t & Hfill & Hw); [cbn; by destruct pretty|].
  destruct (in_scope (store v) t jb (fun jb => Ok (sb_ (if pretty then put [10] jb else jb))) Hfill) as (jb' & -> & [A1 _ _]). exists (t ++ if pretty then [10] else []).
  split; [destruct pretty; cbn; rewrite A1; [done | by rewrite app_nil_r]|]. unfold json_reference. rewrite (wr_decode _ _ Hw) by (done || lia || by destruct pretty). by destruct pretty.
Qed.

(** C7. Decoding inverts encoding: every value whose strings and field names are valid UTF-8,
    whose numbers are written as numbers and which is nested at most 100 deep is encoded,
    compactly or with line breaks and indentation, without a failed check, and decoding the
    text in place gives the value back, with all strings, duplicate fields and their order. *)
Theorem json_roundtrip (v : Json) (pretty : bool) : valid v -> depth v <= DEFAULT_MAX_DEPTH ->
  exists t, json_encode v pretty = Ok t /\ exists sv b, json_decode t = Ok (sv, b) /\ meaning (sv, b) = v.
Proof.
  intros Hv Hd. destruct (json_encode_ok v pretty Hv Hd) as (t & Ht & Href). exists t. split; [done|]. pose proof (json_reference_decode t) as H. rewrite Href in H. destruct H as (sv & b & H1 & H2 & _). by exists sv, b.
Qed.

Lemma example_valid : valid example_value.
Proof. cbn. split_and!; try done; [exists [97; 233; 10] | exists [0x1F600]]; (split; [repeat constructor; unfold is_scalar; lia | vm_compute; reflexivity]). Qed.
Lemma json_roundtrip_witness : valid example_value /\ exists t, json_encode example_value true = Ok t /\ exists sv b, json_decode t = Ok (sv, b) /\ meaning (sv, b) = example_value.
Proof. split; [apply example_valid|]. apply (json_roundtrip example_value true); [apply example_valid | vm_compute; discriminate]. Defined.
