(* ===== verification/JsonFields.v ===== *)
(** * The fields of a JSON object

    The methods of [JsonObject] (tdutils/td/utils/JsonBuilder.h, JsonBuilder.cpp), by which
    the JSON interface reads its arguments.  An object is its list of fields; a method that
    moves a value out of it leaves a [Null] there, and returns the object as well. *)
From stdpp Require Import pretty.
From S2P Require Import Prelude Utf8 Integers Json.
Local Open Scope td_scope.

Abbreviation Json := (JsonValue (list Z)).
Abbreviation Fields := (list (list Z * Json)).

Inductive JsonValueType := NullType | NumberType | BooleanType | StringType | ArrayType | ObjectType.
#[global] Instance JsonValueType_eq_dec : EqDecision JsonValueType.
Proof. solve_decision. Defined.
Definition type_of (v : Json) : JsonValueType :=
  match v with
  | JsonNull => NullType
  | JsonNumber _ => NumberType
  | JsonBoolean _ => BooleanType
  | JsonString _ => StringType
  | JsonArray _ => ArrayType
  | JsonObject _ => ObjectType
  end.
Definition get_type_name (t : JsonValueType) : list Z :=
  match t with
  | NullType => lit "Null"
  | NumberType => lit "Number"
  | BooleanType => lit "Boolean"
  | StringType => lit "String"
  | ArrayType => lit "Array"
  | ObjectType => lit "Object"
  end.

Definition quoted (name : list Z) : list Z := [34] ++ name ++ [34].
Definition must_be {A} (name what : list Z) : Res A := Error 400 (text (lit "Field " ++ quoted name ++ lit " must be " ++ what)).
Definition cannot_find {A} (name : list Z) : Res A := Error 400 (text (lit "Can't find field " ++ quoted name)).

Definition field_count (o : Fields) : nat := length o.
Fixpoint get_field (name : list Z) (o : Fields) : option Json :=
  match o with
  | (k, v) :: o => if bool_decide (k = name) then Some v else get_field name o
  | [] => None
  end.
Definition has_field (name : list Z) (o : Fields) : bool := match get_field name o with Some _ => true | None => false end.

Fixpoint extract_field (name : list Z) (o : Fields) : Json * Fields :=
  match o with
  | (k, v) :: o =>
      if bool_decide (k = name) then (v, (k, JsonNull) :: o)
      else let '(r, o) := extract_field name o in (r, (k, v) :: o)
  | [] => (JsonNull, [])
  end.
(** [None] is for a field that is not there. *)
Fixpoint extract_typed (name : list Z) (type : JsonValueType) (o : Fields) : Res (option Json * Fields) :=
  match o with
  | (k, v) :: o =>
      if bool_decide (k = name) then
        if negb (bool_decide (type = NullType)) && negb (bool_decide (type_of v = type)) then must_be name (lit "of type " ++ get_type_name type)
        else Ok (Some v, (k, JsonNull) :: o)
      else let* (r, o) := extract_typed name type o in Ok (r, (k, v) :: o)
  | [] => Ok (None, [])
  end.
Definition extract_optional_field (name : list Z) (type : JsonValueType) (o : Fields) : Res (Json * Fields) :=
  let* (r, o) := extract_typed name type o in
  Ok (match r with Some v => v | None => JsonNull end, o).
Definition extract_required_field (name : list Z) (type : JsonValueType) (o : Fields) : Res (Json * Fields) :=
  let* (r, o) := extract_typed name type o in
  match r with Some v => Ok (v, o) | None => cannot_find name end.

Definition bool_of (name : list Z) (v : Json) : Res bool := match v with JsonBoolean b => Ok b | _ => must_be name (lit "of type Boolean") end.
Definition get_optional_bool_field (name : list Z) (default_value : bool) (o : Fields) : Res bool :=
  match get_field name o with Some v => bool_of name v | None => Ok default_value end.
Definition get_required_bool_field (name : list Z) (o : Fields) : Res bool :=
  match get_field name o with Some v => bool_of name v | None => cannot_find name end.

Definition get_integer_field (bits : Z) (name value : list Z) : Res Z :=
  match to_integer_safe bits value with
  | Ok x => Ok x
  | Panic w => Panic w
  | Error _ _ => must_be name (lit "a valid Number")
  end.
Definition integer_of (bits : Z) (name : list Z) (v : Json) : Res Z :=
  match v with
  | JsonString s => get_integer_field bits name s
  | JsonNumber s => get_integer_field bits name s
  | _ => must_be name (lit "a Number")
  end.
Definition get_optional_int_field (name : list Z) (default_value : Z) (o : Fields) : Res Z :=
  match get_field name o with Some v => integer_of 32 name v | None => Ok default_value end.
Definition get_required_int_field (name : list Z) (o : Fields) : Res Z :=
  match get_field name o with Some v => integer_of 32 name v | None => cannot_find name end.
Definition get_optional_long_field (name : list Z) (default_value : Z) (o : Fields) : Res Z :=
  match get_field name o with Some v => integer_of 64 name v | None => Ok default_value end.
Definition get_required_long_field (name : list Z) (o : Fields) : Res Z :=
  match get_field name o with Some v => integer_of 64 name v | None => cannot_find name end.

Definition string_of (name : list Z) (v : Json) : Res (list Z) :=
  match v with
  | JsonString s => Ok s
  | JsonNumber s => Ok s
  | _ => must_be name (lit "of type String")
  end.
Definition get_optional_string_field (name default_value : list Z) (o : Fields) : Res (list Z) :=
  match get_field name o with Some v => string_of name v | None => Ok default_value end.
Definition get_required_string_field (name : list Z) (o : Fields) : Res (list Z) :=
  match get_field name o with Some v => string_of name v | None => cannot_find name end.

(** ** Integers *)
Definition spells (x : Z) (v : Json) : Prop := v = JsonString (lit (pretty x)) \/ v = JsonNumber (lit (pretty x)).

Lemma get_integer_field_exact bits name value x : bits = 32 \/ bits = 64 -> get_integer_field bits name value = Ok x <-> fits bits x /\ value = lit (pretty x).
Proof. intros Hb. rewrite <- (to_integer_safe_exact bits value x Hb). unfold get_integer_field. by destruct (to_integer_safe bits value). Qed.
Lemma integer_of_exact bits name v x : bits = 32 \/ bits = 64 -> integer_of bits name v = Ok x <-> fits bits x /\ spells x v.
Proof.
  intros Hb. unfold spells. destruct v as [|s|b|s|l|l]; cbn [integer_of]; rewrite ?get_integer_field_exact by done; split; try done; try (intros [_ [?|?]]; done).
  - intros [H ->]. auto.
  - intros [H [?|[= ->]]]; done.
  - intros [H ->]. auto.
  - intros [H [[= ->]|?]]; done.
Qed.
Lemma integer_of_defined bits name v : bits = 32 \/ bits = 64 -> (exists x, integer_of bits name v = Ok x) \/ exists m, integer_of bits name v = Error 400 m.
Proof.
  intros Hb. destruct v as [|s|b|s|l|l]; cbn [integer_of]; try (right; by eexists); unfold get_integer_field, to_integer_safe; rewrite print_int_pretty by done; cbn [res_bind]; (destruct (bool_decide _); [left; by eexists | right; by eexists]).
Qed.

(** C24. Reading an integer argument: for 32 and 64 bits a required field is read exactly if the
    first field with its name is a string or a number that is the decimal notation of an
    integer of the type; an optional field gives the default value exactly if no field has the
    name, and otherwise the same; everything else is the error 400, and nothing fails a check. *)
Theorem json_integer_fields (name : list Z) (o : Fields) (default x : Z) :
  (get_required_int_field name o = Ok x <-> exists v, get_field name o = Some v /\ fits 32 x /\ spells x v) /\
  (get_required_long_field name o = Ok x <-> exists v, get_field name o = Some v /\ fits 64 x /\ spells x v) /\
  get_optional_int_field name default o = (if has_field name o then get_required_int_field name o else Ok default) /\
  get_optional_long_field name default o = (if has_field name o then get_required_long_field name o else Ok default) /\
  ((exists y, get_required_int_field name o = Ok y) \/ exists m, get_required_int_field name o = Error 400 m) /\
  ((exists y, get_required_long_field name o = Ok y) \/ exists m, get_required_long_field name o = Error 400 m).
Proof.
  unfold get_required_int_field, get_required_long_field, get_optional_int_field, get_optional_long_field, has_field. destruct (get_field name o) as [v|].
  - rewrite !integer_of_exact by auto. split_and!; try done; [naive_solver.. | apply integer_of_defined; auto | apply integer_of_defined; auto].
  - split_and!; try done; [split; [done | by intros (v & ? & _)].. | right; by eexists | right; by eexists].
Qed.

(** ** Extraction *)
(** A field is taken once: what is left has a [Null] in its place, and the other names are as before. *)
Theorem extract_field_once (name other : list Z) (o : Fields) :
  let '(v, o') := extract_field name o in
  v = match get_field name o with Some v => v | None => JsonNull end /\ field_count o' = field_count o /\
  get_field other o' = (if bool_decide (other = name) then match get_field name o with Some _ => Some JsonNull | None => None end else get_field other o).
Proof.
  induction o as [|[k v] o IH]; cbn [extract_field get_field]; [by destruct (bool_decide _)|]. destruct (decide (k = name)) as [->|Hk].
  - rewrite !(bool_decide_eq_true_2 (name = name)) by done. split_and!; try done. cbn [get_field]. destruct (decide (other = name)) as [->|Ho]; [by rewrite !(bool_decide_eq_true_2 (name = name))|]. by rewrite (bool_decide_eq_false_2 (name = other)), (bool_decide_eq_false_2 (other = name)).
  - rewrite !(bool_decide_eq_false_2 (k = name)) by done. destruct (extract_field name o) as [r o']. destruct IH as (IH1 & IH2 & IH3). split_and!; [done | cbn; by f_equal|]. cbn [get_field]. rewrite IH3.
    destruct (decide (other = name)) as [->|Ho]; [|by rewrite (bool_decide_eq_false_2 (other = name))]. by rewrite (bool_decide_eq_true_2 (name = name)), (bool_decide_eq_false_2 (k = name)).
Qed.
