(* ===== verification/Base64.v ===== *)
(** * Base64, base64url and base32 (tdutils/td/utils/base64.cpp)

    The template parameter [is_url] of the source is a [bool] argument here.
    The decoders write into a buffer of a size computed in advance; the model
    keeps both the buffer and the bytes that are written, and a write past the
    end of the buffer is a [Panic]. *)
From S2P Require Import Prelude.
Local Open Scope td_scope.

(** ** Definitions *)

Definition get_characters (is_url : bool) : list Z :=
  if is_url
  then lit "ABCDEFGHIJKLMNOPQRSTUVWXYZabcdefghijklmnopqrstuvwxyz0123456789-_"
  else lit "ABCDEFGHIJKLMNOPQRSTUVWXYZabcdefghijklmnopqrstuvwxyz0123456789+/".

(** [characters[i]]; the index is in range at every use. *)
Definition char_at (characters : list Z) (i : Z) : Z := nth (Z.to_nat i) characters 0.

(** Fill the table with [d], then [char_to_value[characters[i]] = i]. *)
Definition make_table (d : Z) (tables : list (list Z)) : list Z :=
  foldl (fun t characters =>
    foldl (fun t ic => <[Z.to_nat (snd ic) := Z.of_nat (fst ic)]> t) t
          (combine (List.seq 0 (length characters)) characters))
    (replicate 256 d) tables.

Definition get_character_table (is_url : bool) : list Z := make_table 64 [get_characters is_url].

Definition lookup_table (table : list Z) (c : Z) : Z := nth (Z.to_nat c) table 0.

Fixpoint base64_encode_loop (is_url : bool) (input : list Z) : list Z :=
  let ch i := char_at (get_characters is_url) i in
  let pad := if is_url then [] else lit "=" in
  match input with
  | [] => []
  | x0 :: rest0 =>
      let c := Z.shiftl x0 16 in
      match rest0 with
      | [] => (* left == 1 *)
          [ch (Z.shiftr c 18); ch (Z.land (Z.shiftr c 12) 63)] ++ pad ++ pad
      | x1 :: rest1 =>
          let c1 := Z.lor c (Z.shiftl x1 8) in
          match rest1 with
          | [] => (* left == 2 *)
              [ch (Z.shiftr c 18); ch (Z.land (Z.shiftr c1 12) 63); ch (Z.land (Z.shiftr c1 6) 63)] ++ pad
          | x2 :: rest2 => (* left == 3 *)
              let c2 := Z.lor c1 x2 in
              [ch (Z.shiftr c 18); ch (Z.land (Z.shiftr c1 12) 63); ch (Z.land (Z.shiftr c2 6) 63);
               ch (Z.land c2 63)] ++ base64_encode_loop is_url rest2
          end
      end
  end.

Definition base64_encode (input : list Z) : list Z := base64_encode_loop false input.
Definition base64url_encode (input : list Z) : list Z := base64_encode_loop true input.

(** [while (!base64.empty() && base64.back() == '=')]: on the reversed slice. *)
Fixpoint count_padding (reversed : list Z) (padding_length : Z) : list Z * Z :=
  match reversed with
  | c :: reversed' =>
      if c =? 61 then count_padding reversed' (padding_length + 1) else (reversed, padding_length)
  | [] => (reversed, padding_length)
  end.

Definition drop_padding (input : list Z) : list Z * Z :=
  let '(r, n) := count_padding (rev input) 0 in (rev r, n).

Definition base64_drop_padding (is_url : bool) (base64 : list Z) : Res (list Z) :=
  let '(base64, padding_length) := drop_padding base64 in
  let size := Z.of_nat (length base64) in
  if 3 <=? padding_length then Error 0 "Wrong string padding"
  else if (negb is_url || (0 <? padding_length)) && negb (Z.land (size + padding_length) 3 =? 0)
  then Error 0 "Wrong padding length"
  else if is_url && (Z.land size 3 =? 1) then Error 0 "Wrong string length"
  else Ok base64.

(** The inner loop over the [left] characters of a group. *)
Fixpoint decode_group (table chunk : list Z) (t c : Z) : Res Z :=
  match chunk with
  | [] => Ok c
  | x :: chunk' =>
      let value := lookup_table table x in
      if value =? 64 then Error 0 "Wrong character in the string"
      else decode_group table chunk' (t + 1) (Z.lor c (Z.shiftl value ((3 - t) * 6)))
  end.

(** What is written for one group. *)
Definition decode_write (left c : Z) : Res (list Z) :=
  let b0 := u8 (Z.shiftr c 16) in
  if left =? 2 then
    if negb (Z.land c (Z.shiftl 1 16 - 1) =? 0) then Error 0 "Wrong padding in the string" else Ok [b0]
  else
    let b1 := u8 (Z.shiftr c 8) in
    if left =? 3 then
      if negb (Z.land c (Z.shiftl 1 8 - 1) =? 0) then Error 0 "Wrong padding in the string" else Ok [b0; b1]
    else Ok [b0; b1; u8 c].

Fixpoint do_base64_decode_impl (base64 table : list Z) : Res (list Z) :=
  match base64 with
  | [] => Ok []
  | x0 :: x1 :: x2 :: x3 :: rest =>
      let* c := decode_group table [x0; x1; x2; x3] 0 0 in
      let* w := decode_write 4 c in
      let* w' := do_base64_decode_impl rest table in
      Ok (w ++ w')
  | chunk =>
      let* c := decode_group table chunk 0 0 in
      decode_write (Z.of_nat (length chunk)) c
  end.

Definition base64_decode_impl (is_url : bool) (base64 : list Z) : Res (list Z) :=
  let* base64 := base64_drop_padding is_url base64 in
  let size := Z.of_nat (length base64) in
  let result_size := size / 4 * 3 + (Z.land size 3 + 1) / 2 in
  let* written := do_base64_decode_impl base64 (get_character_table is_url) in
  CHECK! (Z.of_nat (length written) <=? result_size) else "write past the end of the result" in
  Ok (written ++ replicate (Z.to_nat result_size - length written) 0).

Definition base64_decode (base64 : list Z) : Res (list Z) := base64_decode_impl false base64.
Definition base64url_decode (base64 : list Z) : Res (list Z) := base64_decode_impl true base64.

Definition is_base64_impl (is_url : bool) (input : list Z) : bool :=
  let '(input, padding_length) := drop_padding input in
  let size := Z.of_nat (length input) in
  if 3 <=? padding_length then false
  else if (negb is_url || (0 <? padding_length)) && negb (Z.land (size + padding_length) 3 =? 0) then false
  else if is_url && (Z.land size 3 =? 1) then false
  else
    let table := get_character_table is_url in
    if existsb (fun c => lookup_table table c =? 64) input then false
    else if (Z.land size 3 =? 2) && negb (Z.land (lookup_table table (List.last input 0)) 15 =? 0) then false
    else if (Z.land size 3 =? 3) && negb (Z.land (lookup_table table (List.last input 0)) 3 =? 0) then false
    else true.

Definition is_base64 (input : list Z) : bool := is_base64_impl false input.
Definition is_base64url (input : list Z) : bool := is_base64_impl true input.

Definition is_base64_characters_impl (is_url : bool) (input : list Z) : bool :=
  negb (existsb (fun c => lookup_table (get_character_table is_url) c =? 64) input).

Definition base64_filter (input : list Z) : list Z :=
  List.filter (fun c => negb (lookup_table (get_character_table false) c =? 64) || (c =? 61)) input.

Definition get_base32_characters (upper_case : bool) : list Z :=
  if upper_case then lit "ABCDEFGHIJKLMNOPQRSTUVWXYZ234567" else lit "abcdefghijklmnopqrstuvwxyz234567".

(** The source interleaves the stores for the two alphabets; they agree where
    they meet (the digits), so the order does not matter. *)
Definition get_base32_character_table : list Z :=
  make_table 32 [get_base32_characters false; get_base32_characters true].

(** [while (length >= 5)]: [c] and [length] are [uint32]; at most two rounds
    run for a byte, the fuel [fuel] is the value of [length]. *)
Fixpoint base32_emit (fuel : nat) (characters : list Z) (c length : Z) : list Z * Z :=
  match fuel with
  | O => ([], length)
  | S fuel =>
      if 5 <=? length then
        let length := length - 5 in
        let x := char_at characters (Z.land (Z.shiftr c length) 31) in
        let '(out, length) := base32_emit fuel characters c length in
        (x :: out, length)
      else ([], length)
  end.

Fixpoint base32_encode_loop (characters input : list Z) (c length : Z) : list Z :=
  match input with
  | [] => if negb (length =? 0) then [char_at characters (Z.land (u32 (Z.shiftl c (5 - length))) 31)] else []
  | x :: input =>
      let c := Z.lor (u32 (Z.shiftl c 8)) x in
      let length := length + 8 in
      let '(out, length) := base32_emit (Z.to_nat length) characters c length in
      out ++ base32_encode_loop characters input c length
  end.

Definition base32_encode (input : list Z) (upper_case : bool) : list Z :=
  base32_encode_loop (get_base32_characters upper_case) input 0 0.

Fixpoint base32_decode_loop (base32 : list Z) (c length : Z) : Res (list Z) :=
  match base32 with
  | [] =>
      if negb (Z.land c (Z.shiftl 1 length - 1) =? 0) then Error 0 "Nonzero padding" else Ok []
  | x :: base32 =>
      let value := lookup_table get_base32_character_table x in
      if value =? 32 then Error 0 "Wrong character in the string"
      else
        let c := Z.lor (u32 (Z.shiftl c 5)) value in
        let length := length + 5 in
        if 8 <=? length then
          let length := length - 8 in
          let* res := base32_decode_loop base32 c length in
          Ok (Z.land (Z.shiftr c length) 255 :: res)
        else base32_decode_loop base32 c length
  end.

Definition base32_decode (base32 : list Z) : Res (list Z) := base32_decode_loop base32 0 0.

Example base64_ex : base64_encode (lit "Man is") = lit "TWFuIGlz".
Proof. reflexivity. Qed.
Example base64_ex2 : base64_decode (lit "TWE=") = Ok (lit "Ma").
Proof. vm_compute. reflexivity. Qed.
Example base32_ex : base32_encode (lit "foobar") true = lit "MZXW6YTBOI" /\ base32_decode (lit "MZXW6YTBOI") = Ok (lit "foobar").
Proof. vm_compute. split; reflexivity. Qed.

(** ** The alphabet and its table, by evaluation *)

Lemma in_64 v : 0 <= v < 64 -> In v (map Z.of_nat (List.seq 0 64)).
Proof. intros. rewrite in_map_iff. exists (Z.to_nat v). rewrite in_seq. lia. Qed.

Lemma alphabet_ok is_url v : 0 <= v < 64 ->
  lookup_table (get_character_table is_url) (char_at (get_characters is_url) v) = v /\
  char_at (get_characters is_url) v <> 61 /\ is_byte (char_at (get_characters is_url) v).
Proof.
  intros Hv.
  assert (forallb (fun v => let c := char_at (get_characters is_url) v in
    (lookup_table (get_character_table is_url) c =? v) && negb (c =? 61) && (0 <=? c) && (c <? 256))
    (map Z.of_nat (List.seq 0 64)) = true) as H by (destruct is_url; vm_compute; reflexivity).
  rewrite forallb_forall in H. specialize (H v (in_64 v Hv)). cbv zeta in H. zbool.
  unfold is_byte. done.
Qed.

Lemma table_ok is_url c : is_byte c -> lookup_table (get_character_table is_url) c <> 64 ->
  0 <= lookup_table (get_character_table is_url) c < 64 /\
  char_at (get_characters is_url) (lookup_table (get_character_table is_url) c) = c /\ c <> 61.
Proof.
  intros Hc Hv.
  pose proof (byte_forall (fun c => let v := lookup_table (get_character_table is_url) c in
    (v =? 64) || ((0 <=? v) && (v <? 64) && (char_at (get_characters is_url) v =? c) && negb (c =? 61)))
    ltac:(destruct is_url; vm_compute; reflexivity) c Hc) as H.
  cbv zeta in H. apply orb_prop in H as [H|H]; zbool; [done|]. done.
Qed.

Lemma table_equals is_url : lookup_table (get_character_table is_url) 61 = 64.
Proof. destruct is_url; vm_compute; reflexivity. Qed.

#[local] Opaque get_characters get_character_table.

(** ** Groups in arithmetic form *)

Definition core (is_url : bool) : list Z -> list Z := fix go input :=
  let ch i := char_at (get_characters is_url) i in
  match input with
  | [] => []
  | [x0] => [ch (x0 / 4); ch (x0 mod 4 * 16)]
  | [x0; x1] => [ch (x0 / 4); ch (x0 mod 4 * 16 + x1 / 16); ch (x1 mod 16 * 4)]
  | x0 :: x1 :: x2 :: rest =>
      ch (x0 / 4) :: ch (x0 mod 4 * 16 + x1 / 16) :: ch (x1 mod 16 * 4 + x2 / 64) :: ch (x2 mod 64) :: go rest
  end.

Definition padding_of (input : list Z) : nat := Z.to_nat ((- Z.of_nat (length input)) mod 3).

Lemma encode_core is_url input : bytes input ->
  base64_encode_loop is_url input
  = core is_url input ++ (if is_url then [] else replicate (padding_of input) 61).
Proof.
  induction input as [|x0|x0 x1|x0 x1 x2 l IH] using list_ind3; intros Hb; inv_Forall;
    cbn [base64_encode_loop core]; unfold is_byte in *;
    rewrite ?Z.shiftl_mul_pow2 by lia.
  - by destruct is_url.
  - change 63 with (2 ^ 6 - 1). rewrite !Z.shiftr_div_pow2, land_ones_mod by lia.
    destruct is_url; cbn [app]; list_eq by (f_equal; zlia).
  - rewrite lor_disjoint_add by zlia.
    replace (x0 * 2 ^ 16 + x1 * 2 ^ 8) with ((x0 * 2 ^ 8 + x1) * 2 ^ 8) by lia.
    change 63 with (2 ^ 6 - 1). rewrite !Z.shiftr_div_pow2, !land_ones_mod by lia.
    destruct is_url; cbn [app]; list_eq by (f_equal; zlia).
  - rewrite !lor_disjoint_add by zlia.
    replace (x0 * 2 ^ 16 + x1 * 2 ^ 8) with ((x0 * 2 ^ 8 + x1) * 2 ^ 8) by lia.
    rewrite lor_disjoint_add by zlia.
    change 63 with (2 ^ 6 - 1). rewrite !Z.shiftr_div_pow2, !land_ones_mod by lia.
    rewrite IH by done. cbn [app]. list_eq by (f_equal; zlia).
    destruct is_url; [done|]. do 2 f_equal. unfold padding_of. cbn [length]. f_equal. zlia.
Qed.

Lemma core_valid is_url input : bytes input ->
  Forall (fun c => exists v, 0 <= v < 64 /\ c = char_at (get_characters is_url) v) (core is_url input).
Proof.
  induction input as [|x0|x0 x1|x0 x1 x2 l IH] using list_ind3; intros Hb; inv_Forall; cbn [core];
    unfold is_byte in *; repeat constructor; try (eexists; split; [|reflexivity]; zlia). by apply IH.
Qed.

(** ** Padding *)

Lemma count_padding_replicate k l n : hd 0 l <> 61 ->
  count_padding (replicate k 61 ++ l) n = (l, n + Z.of_nat k).
Proof.
  intros Hl. revert n. induction k as [|k IH]; intros n; simpl.
  - rewrite Z.add_0_r. destruct l as [|x l]; [done|]. cbn in *.
    by replace (x =? 61) with false by lia.
  - rewrite IH. f_equal. lia.
Qed.

Lemma drop_padding_app l k : Forall (fun c => c <> 61) l ->
  drop_padding (l ++ replicate k 61) = (l, Z.of_nat k).
Proof.
  intros Hl. unfold drop_padding. rewrite rev_app_distr, rev_replicate, count_padding_replicate.
  - by rewrite rev_involutive.
  - apply Forall_rev in Hl. destruct (rev l); [done|]. by inv_Forall.
Qed.

Lemma drop_padding_spec s : exists l k, s = l ++ replicate k 61 /\ drop_padding s = (l, Z.of_nat k).
Proof.
  unfold drop_padding.
  assert (forall r n, exists l k, r = replicate k 61 ++ l /\ count_padding r n = (l, n + Z.of_nat k)) as H.
  { induction r as [|x r IH]; intros n; [exists [], 0%nat; simpl; split; [done | f_equal; lia]|].
    destruct (decide (x = 61)) as [->|Hx].
    - destruct (IH (n + 1)) as (l & k & -> & E). exists l, (S k). split; [done|].
      cbn. rewrite E. f_equal. lia.
    - exists (x :: r), 0%nat. split; [done|].
      pose proof (count_padding_replicate 0 (x :: r) n Hx) as E. exact E. }
  destruct (H (rev s) 0) as (l & k & E & ->). exists (rev l), k. split; [|done].
  apply (f_equal (@rev Z)) in E. rewrite rev_involutive, rev_app_distr, rev_replicate in E. exact E.
Qed.

(** ** Decoding of groups *)

Section Decode.
Context (is_url : bool).
Let table := get_character_table is_url.
Let ch := char_at (get_characters is_url).
Let val (x : Z) := lookup_table table x.

Definition group_value (chunk : list Z) : Z :=
  match chunk with
  | [a; b] => val a * 2 ^ 18 + val b * 2 ^ 12
  | [a; b; c] => val a * 2 ^ 18 + val b * 2 ^ 12 + val c * 2 ^ 6
  | [a; b; c; d] => val a * 2 ^ 18 + val b * 2 ^ 12 + val c * 2 ^ 6 + val d
  | _ => 0
  end.

Definition good (x : Z) : Prop := 0 <= val x < 64.

Lemma decode_group_bad chunk t c : Exists (fun x => val x = 64) chunk ->
  decode_group table chunk t c = Error 0 "Wrong character in the string".
Proof.
  revert t c. induction chunk as [|x chunk IH]; intros t c H; [inversion H|]. simpl. fold (val x).
  case_if; [done|]. apply IH. inversion H; [done | done].
Qed.

Lemma decode_group_good chunk : (2 <= length chunk <= 4)%nat -> Forall good chunk ->
  decode_group table chunk 0 0 = Ok (group_value chunk).
Proof.
  unfold good. intros Hn H.
  pose proof (fun x y => lor_field x y 12 6 ltac:(lia) ltac:(lia)) as F12.
  pose proof (fun x y => lor_field x y 6 6 ltac:(lia) ltac:(lia)) as F6.
  pose proof (fun x y => lor_field x y 0 6 ltac:(lia) ltac:(lia)) as F0.
  change (12 + 6) with 18 in F12. change (6 + 6) with 12 in F6. change (0 + 6) with 6 in F0.
  destruct chunk as [|a [|b [|c [|d [|]]]]]; simpl in Hn; try lia; inv_Forall; cbn -[Z.mul Z.sub Z.add];
    repeat match goal with |- context [lookup_table table ?x] => fold (val x) end;
    repeat match goal with |- context [val ?x =? 64] => replace (val x =? 64) with false by lia end;
    rewrite ?Z.shiftl_mul_pow2, ?Z.lor_0_l by lia; f_equal;
    change ((3 - 0) * 6) with 18; change ((3 - (0 + 1)) * 6) with 12;
    change ((3 - (0 + 1 + 1)) * 6) with 6; change ((3 - (0 + 1 + 1 + 1)) * 6) with 0;
    rewrite F12, ?F6, ?F0 by lia; lia.
Qed.

Lemma decode_write2 a b : good a -> good b ->
  decode_write 2 (group_value [a; b])
  = if val b mod 16 =? 0 then Ok [val a * 4 + val b / 16] else Error 0 "Wrong padding in the string".
Proof.
  unfold good, decode_write, group_value. intros Ha Hb. rewrite Z.shiftl_mul_pow2 by lia.
  change (1 * 2 ^ 16 - 1) with (2 ^ 16 - 1). rewrite land_ones_mod, Z.shiftr_div_pow2 by lia. simpl.
  set (y := val b) in *. set (x := val a) in *. clearbody x y.
  replace ((x * 2 ^ 18 + y * 2 ^ 12) mod 2 ^ 16 =? 0) with (y mod 16 =? 0) by zlia.
  destruct (y mod 16 =? 0); simpl; [|done]. do 2 f_equal. unfold u8. zlia.
Qed.

Lemma decode_write3 a b c : good a -> good b -> good c ->
  decode_write 3 (group_value [a; b; c])
  = if val c mod 4 =? 0 then Ok [val a * 4 + val b / 16; val b mod 16 * 16 + val c / 4]
    else Error 0 "Wrong padding in the string".
Proof.
  unfold good, decode_write, group_value. intros Ha Hb Hc. rewrite !Z.shiftl_mul_pow2 by lia.
  change (1 * 2 ^ 8 - 1) with (2 ^ 8 - 1). rewrite land_ones_mod, !Z.shiftr_div_pow2 by lia. simpl.
  set (y := val b) in *. set (x := val a) in *. set (z := val c) in *. clearbody x y z.
  replace ((x * 2 ^ 18 + y * 2 ^ 12 + z * 2 ^ 6) mod 2 ^ 8 =? 0) with (z mod 4 =? 0) by zlia.
  destruct (z mod 4 =? 0); simpl; [|done]. f_equal. unfold u8. list_eq by zlia.
Qed.

Lemma decode_write4 a b c d : good a -> good b -> good c -> good d ->
  decode_write 4 (group_value [a; b; c; d])
  = Ok [val a * 4 + val b / 16; val b mod 16 * 16 + val c / 4; val c mod 4 * 64 + val d].
Proof.
  unfold good, decode_write, group_value. intros Ha Hb Hc Hd. rewrite !Z.shiftr_div_pow2 by lia. simpl.
  set (y := val b) in *. set (x := val a) in *. set (z := val c) in *. set (w := val d) in *. clearbody x y z w.
  f_equal. unfold u8. list_eq by zlia.
Qed.

Definition tail_ok (s : list Z) : bool :=
  negb ((Z.of_nat (length s) mod 4 =? 2) && negb (val (List.last s 0) mod 16 =? 0)) &&
  negb ((Z.of_nat (length s) mod 4 =? 3) && negb (val (List.last s 0) mod 4 =? 0)).

Definition all_good (s : list Z) : bool := negb (existsb (fun c => val c =? 64) s).

Record decodes_to (s x : list Z) : Prop := DecodesTo {
  dt_bytes : bytes x;
  dt_core : core is_url x = s;
  dt_length : Z.of_nat (length x) = Z.of_nat (length s) / 4 * 3 + (Z.of_nat (length s) mod 4 + 1) / 2;
}.

Lemma good_or_bad x : is_byte x -> val x = 64 \/ (val x <> 64 /\ good x /\ ch (val x) = x).
Proof.
  intros Hx. destruct (decide (val x = 64)); [by left | right].
  destruct (table_ok is_url x Hx n) as (? & ? & _). done.
Qed.

Lemma bad_chunk chunk : bytes chunk ->
  (Exists (fun x => val x = 64) chunk /\ all_good chunk = false) \/
  (all_good chunk = true /\ Forall good chunk /\ Forall (fun x => ch (val x) = x) chunk).
Proof.
  unfold all_good. induction 1 as [|x chunk Hx H IH]; [by right|]. simpl.
  destruct (good_or_bad x Hx) as [E|(E & ? & ?)].
  - left. split; [by left|]. by rewrite E.
  - replace (val x =? 64) with false by lia. simpl.
    destruct IH as [[? ?]|(? & ? & ?)]; [left; split; [by right | done] | right; auto].
Qed.

Lemma core_two x a b : good a -> good b -> val b mod 16 = 0 -> x = val a * 4 + val b / 16 ->
  is_byte x /\ core is_url [x] = [ch (val a); ch (val b)].
Proof.
  unfold good, is_byte. intros Ha Hb Hm ->. set (p := val a) in *. set (q := val b) in *. clearbody p q.
  split; [zlia|]. cbn [core]. fold ch. list_eq by (f_equal; zlia).
Qed.

Lemma core_three x y a b c : good a -> good b -> good c -> val c mod 4 = 0 ->
  x = val a * 4 + val b / 16 -> y = val b mod 16 * 16 + val c / 4 ->
  is_byte x /\ is_byte y /\ core is_url [x; y] = [ch (val a); ch (val b); ch (val c)].
Proof.
  unfold good, is_byte. intros Ha Hb Hc Hm -> ->.
  set (p := val a) in *. set (q := val b) in *. set (r := val c) in *. clearbody p q r.
  split_and!; [zlia..|]. cbn [core]. fold ch. list_eq by (f_equal; zlia).
Qed.

Lemma core_four x y z a b c d l : good a -> good b -> good c -> good d ->
  x = val a * 4 + val b / 16 -> y = val b mod 16 * 16 + val c / 4 -> z = val c mod 4 * 64 + val d ->
  is_byte x /\ is_byte y /\ is_byte z /\
  core is_url (x :: y :: z :: l) = ch (val a) :: ch (val b) :: ch (val c) :: ch (val d) :: core is_url l.
Proof.
  unfold good, is_byte. intros Ha Hb Hc Hd -> -> ->.
  set (p := val a) in *. set (q := val b) in *. set (r := val c) in *. set (s := val d) in *. clearbody p q r s.
  split_and!; [zlia..|]. cbn [core]. fold ch. list_eq by (f_equal; zlia).
Qed.

Lemma tail_ok_step a b c d l : tail_ok (a :: b :: c :: d :: l) = tail_ok l.
Proof.
  unfold tail_ok.
  replace (Z.of_nat (length (a :: b :: c :: d :: l)) mod 4) with (Z.of_nat (length l) mod 4)
    by (cbn [length]; zlia).
  by destruct l.
Qed.

Lemma decode_spec s : bytes s -> Z.of_nat (length s) mod 4 <> 1 ->
  match do_base64_decode_impl s table with
  | Ok x => all_good s = true /\ tail_ok s = true /\ decodes_to s x
  | Error _ _ => all_good s && tail_ok s = false
  | Panic _ => False
  end.
Proof.
  induction s as [|a|a b|a b c|a b c d l IH] using list_ind4; intros Hs Hn.
  - split_and!; try done.
  - exfalso. by apply Hn.
  - destruct (bad_chunk _ Hs) as [[He ->]|(-> & Hg & Hc)]; cbn [do_base64_decode_impl].
    { by rewrite decode_group_bad. }
    rewrite decode_group_good by (done || simpl; lia). inv_Forall. simpl length. cbn [res_bind].
    rewrite decode_write2 by done. unfold tail_ok. simpl List.last. change (Z.of_nat 2 mod 4) with 2. simpl.
    destruct (val b mod 16 =? 0) eqn:E; zbool; [|done].
    destruct (core_two (val a * 4 + val b / 16) a b) as [? Hcore]; try done.
    split_and!; try done. constructor; [fa | | done]. rewrite Hcore. congruence.
  - destruct (bad_chunk _ Hs) as [[He ->]|(-> & Hg & Hc)]; cbn [do_base64_decode_impl].
    { by rewrite decode_group_bad. }
    rewrite decode_group_good by (done || simpl; lia). inv_Forall. simpl length. cbn [res_bind].
    rewrite decode_write3 by done. unfold tail_ok. simpl List.last. change (Z.of_nat 3 mod 4) with 3. simpl.
    destruct (val c mod 4 =? 0) eqn:E; zbool; [|done].
    destruct (core_three (val a * 4 + val b / 16) (val b mod 16 * 16 + val c / 4) a b c)
      as (? & ? & Hcore); try done.
    split_and!; try done. constructor; [fa | | done]. rewrite Hcore. congruence.
  - rewrite tail_ok_step. assert (bytes l) as Hl by (by inv_Forall).
    assert (bytes [a; b; c; d]) as H4 by (inv_Forall; fa).
    assert (all_good (a :: b :: c :: d :: l) = all_good [a; b; c; d] && all_good l) as ->.
    { unfold all_good. simpl. rewrite orb_false_r, <- negb_orb, !orb_assoc. done. }
    specialize (IH Hl). cbn [length] in Hn. cbn [do_base64_decode_impl].
    destruct (bad_chunk _ H4) as [[He ->]|(-> & Hg & Hc)]. { by rewrite decode_group_bad. }
    rewrite decode_group_good by (done || simpl; lia). inv_Forall. cbn [res_bind].
    rewrite decode_write4 by done. cbn [res_bind].
    destruct (do_base64_decode_impl l table) as [x| |]; cbn [res_bind]; [|apply IH; zlia..].
    destruct IH as (-> & -> & [Hx Hcx Hlx]); [zlia|]. split_and!; [done..|].
    edestruct (core_four (val a * 4 + val b / 16) (val b mod 16 * 16 + val c / 4) (val c mod 4 * 64 + val d)
                 a b c d x) as (? & ? & ? & Hcore); try done.
    constructor; cbn [app]; [fa | | cbn [length]; zlia].
    rewrite Hcore, Hcx. congruence.
Qed.

Lemma good_ch v : 0 <= v < 64 -> good (ch v) /\ val (ch v) = v.
Proof. intros Hv. unfold good. assert (val (ch v) = v) as -> by (by apply alphabet_ok). done. Qed.

Lemma decode_core x : bytes x -> do_base64_decode_impl (core is_url x) table = Ok x.
Proof.
  induction x as [|x|x y|x y z l IH] using list_ind3; intros Hx; [done|..]; inv_Forall;
    unfold is_byte in *; cbn [core do_base64_decode_impl]; fold ch.
  - destruct (good_ch (x / 4)) as [G0 V0]; [zlia|]. destruct (good_ch (x mod 4 * 16)) as [G1 V1]; [zlia|].
    rewrite decode_group_good by (fa || simpl; lia). cbn [res_bind length].
    rewrite decode_write2, V0, V1 by done. case_if; [list_eq by zlia; f_equal; list_eq by zlia | zlia].
  - destruct (good_ch (x / 4)) as [G0 V0]; [zlia|].
    destruct (good_ch (x mod 4 * 16 + y / 16)) as [G1 V1]; [zlia|].
    destruct (good_ch (y mod 16 * 4)) as [G2 V2]; [zlia|].
    rewrite decode_group_good by (fa || simpl; lia). cbn [res_bind length].
    rewrite decode_write3, V0, V1, V2 by done. case_if; [f_equal; list_eq by zlia | zlia].
  - destruct (good_ch (x / 4)) as [G0 V0]; [zlia|].
    destruct (good_ch (x mod 4 * 16 + y / 16)) as [G1 V1]; [zlia|].
    destruct (good_ch (y mod 16 * 4 + z / 64)) as [G2 V2]; [zlia|].
    destruct (good_ch (z mod 64)) as [G3 V3]; [zlia|].
    rewrite decode_group_good by (fa || simpl; lia). cbn [res_bind].
    rewrite decode_write4, V0, V1, V2, V3 by done. cbn [res_bind].
    fold (core is_url). rewrite IH by done. cbn [res_bind app]. f_equal. list_eq by zlia.
Qed.
End Decode.

Lemma land15 n : Z.land n 15 = n mod 16.
Proof. by apply (land_ones_mod n 4). Qed.

Lemma land3' n : Z.land n 3 = n mod 4.
Proof. by apply (land_ones_mod n 2). Qed.

(** The checks the decoder and the validator share. *)
Lemma is_base64_impl_checks is_url s l k : drop_padding s = (l, k) ->
  is_base64_impl is_url s
  = match base64_drop_padding is_url s with
    | Ok _ => all_good is_url l && tail_ok is_url l
    | _ => false
    end.
Proof.
  intros E. unfold is_base64_impl, base64_drop_padding, all_good, tail_ok. rewrite E, !land3', land15.
  repeat (case_if; [done|]). by repeat (case_if; simpl).
Qed.

Lemma decode_impl_spec is_url s l k : bytes s -> s = l ++ replicate k 61 -> drop_padding s = (l, Z.of_nat k) ->
  match base64_decode_impl is_url s with
  | Ok x => is_base64_impl is_url s = true /\ bytes x /\ core is_url x = l /\
            (is_url = false -> k = padding_of x)
  | Error _ _ => is_base64_impl is_url s = false
  | Panic _ => False
  end.
Proof.
  intros Hs Hsplit E. rewrite (is_base64_impl_checks _ _ _ _ E).
  unfold base64_decode_impl, base64_drop_padding. rewrite E, !land3'.
  case_if; [done|]. destruct (_ && _) eqn:E1; [done|]. destruct (is_url && _) eqn:E2; [done|]. cbn [res_bind].
  assert (bytes l) as Hl by (subst s; by apply Forall_app in Hs as [? _]).
  assert (Z.of_nat (length l) mod 4 <> 1) as Hn.
  { intros Hn. destruct is_url; simpl in E1, E2; zbool; [lia|].
    assert ((Z.of_nat (length l) + Z.of_nat k) mod 4 = 0) by lia. zlia. }
  pose proof (decode_spec is_url l Hl Hn) as H.
  destruct (do_base64_decode_impl l (get_character_table is_url)) as [x| |]; cbn [res_bind]; [|done..].
  destruct H as (-> & -> & [Hx Hc Hlen]). rewrite land3', <- Hlen.
  replace (Z.of_nat (length x) <=? Z.of_nat (length x)) with true by lia.
  rewrite Nat2Z.id, Nat.sub_diag, app_nil_r. split_and!; try done.
  intros ->. simpl in E1. zbool. unfold padding_of. 
  assert ((Z.of_nat (length l) + Z.of_nat k) mod 4 = 0) by lia. clear E1 E2. zlia.
Qed.

Lemma core_no_equals is_url x : bytes x -> Forall (fun c => c <> 61) (core is_url x).
Proof.
  intros Hx. eapply Forall_impl; [by apply core_valid|]. intros c (v & Hv & ->). by apply alphabet_ok.
Qed.

Lemma length_core is_url x :
  Z.of_nat (length (core is_url x)) = Z.of_nat (length x) / 3 * 4 + (if Z.of_nat (length x) mod 3 =? 0 then 0 else Z.of_nat (length x) mod 3 + 1).
Proof.
  induction x as [|x|x y|x y z l IH] using list_ind3; [done..|]. cbn [core]. fold (core is_url).
  cbn [length]. rewrite !Nat2Z.inj_succ, IH. case_if; case_if; zlia.
Qed.

Lemma roundtrip_impl is_url x : bytes x -> base64_decode_impl is_url (base64_encode_loop is_url x) = Ok x.
Proof.
  intros Hx. rewrite encode_core by done.
  assert (exists k, core is_url x ++ (if is_url then [] else replicate (padding_of x) 61)
            = core is_url x ++ replicate k 61 /\ k = if is_url then 0%nat else padding_of x) as (k & -> & Hk)
    by (exists (if is_url then 0%nat else padding_of x); by destruct is_url).
  assert (drop_padding (core is_url x ++ replicate k 61) = (core is_url x, Z.of_nat k)) as E
    by (by apply drop_padding_app, core_no_equals).
  unfold base64_decode_impl, base64_drop_padding. rewrite E, !land3'.
  pose proof (length_core is_url x) as Hlen. remember (Z.of_nat (length (core is_url x))) as L.
  assert (0 <= Z.of_nat k < 3 /\ (is_url = true -> k = 0%nat) /\ (is_url = false -> (L + Z.of_nat k) mod 4 = 0) /\ L mod 4 <> 1)
    as (Hk3 & Hku & Hkm & HL).
  { unfold padding_of in Hk. destruct is_url; destruct (Z.of_nat (length x) mod 3 =? 0) eqn:E3; zbool; 
      split_and!; intros; try done; zlia. }
  replace (3 <=? Z.of_nat k) with false by lia.
  assert ((negb is_url || (0 <? Z.of_nat k)) && negb ((L + Z.of_nat k) mod 4 =? 0) = false) as ->.
  { destruct is_url; [rewrite Hku by done; done|]. rewrite Hkm by done. done. }
  assert (is_url && (L mod 4 =? 1) = false) as -> by (destruct is_url; simpl; [lia | done]).
  cbn [res_bind]. rewrite decode_core by done. cbn [res_bind]. rewrite <- HeqL, land3'.
  assert (L / 4 * 3 + (L mod 4 + 1) / 2 = Z.of_nat (length x)) as ->
    by (destruct (Z.of_nat (length x) mod 3 =? 0) eqn:E3; zbool; zlia).
  replace (Z.of_nat (length x) <=? Z.of_nat (length x)) with true by lia.
  by rewrite Nat2Z.id, Nat.sub_diag, app_nil_r.
Qed.

(** ** Base32: the accumulators hold the pending bits *)

Lemma base32_table_ok up v : 0 <= v < 32 ->
  lookup_table get_base32_character_table (char_at (get_base32_characters up) v) = v.
Proof.
  intros Hv.
  assert (forallb (fun v => lookup_table get_base32_character_table (char_at (get_base32_characters up) v) =? v)
    (map Z.of_nat (List.seq 0 32)) = true) as H by (destruct up; vm_compute; reflexivity).
  rewrite forallb_forall in H. apply Z.eqb_eq, H. rewrite in_map_iff. exists (Z.to_nat v). rewrite in_seq. lia.
Qed.

Lemma absorb c x k w : 0 <= k -> 0 <= w -> k + w <= 32 -> 0 <= x < 2 ^ w ->
  Z.lor (u32 (Z.shiftl c w)) x mod 2 ^ (k + w) = c mod 2 ^ k * 2 ^ w + x.
Proof.
  intros Hk Hw Hkw Hx. unfold u32. rewrite Z.shiftl_mul_pow2 by lia.
  replace (2 ^ 32) with (2 ^ (32 - w) * 2 ^ w) by (rewrite <- Z.pow_add_r by lia; f_equal; lia).
  rewrite Z.mul_mod_distr_r, lor_disjoint_add by lia.
  rewrite Z.pow_add_r by lia. pose proof (Z.pow_pos_nonneg 2 k). pose proof (Z.pow_pos_nonneg 2 w).
  rewrite (Z.mul_comm (2 ^ k)), Z.add_comm, Z.rem_mul_r by lia.
  rewrite Z.div_add, Z.div_small, Z.add_0_l by lia.
  rewrite Z.mod_add, Z.mod_small by lia.
  assert ((c mod 2 ^ (32 - w)) mod 2 ^ k = c mod 2 ^ k) as ->; [|lia].
  apply Z.mod_mod_divide.
  exists (2 ^ (32 - w - k)). rewrite <- Z.pow_add_r by lia. f_equal. lia.
Qed.

Lemma field c l w n : 0 <= l -> 0 <= w -> n = l + w ->
  Z.land (Z.shiftr c l) (2 ^ w - 1) = c mod 2 ^ n / 2 ^ l.
Proof.
  intros Hl Hw ->. rewrite land_ones_mod, Z.shiftr_div_pow2 by lia.
  pose proof (Z.pow_pos_nonneg 2 l). pose proof (Z.pow_pos_nonneg 2 w).
  rewrite Z.pow_add_r, Z.rem_mul_r, Z.add_comm, Z.mul_comm, Z.div_add_l by lia.
  rewrite (Z.div_small (c mod 2 ^ l)); [lia|]. apply Z.mod_pos_bound. lia.
Qed.

(** The decoder on one character with value [v]. *)
Lemma decode_char up v rest c len : 0 <= v < 32 ->
  base32_decode_loop (char_at (get_base32_characters up) v :: rest) c len
  = let c := Z.lor (u32 (Z.shiftl c 5)) v in
    if 8 <=? len + 5 then
      let* res := base32_decode_loop rest c (len - 3) in Ok (c mod 2 ^ (len + 5) / 2 ^ (len - 3) :: res)
    else base32_decode_loop rest c (len + 5).
Proof.
  intros Hv. cbn [base32_decode_loop]. rewrite base32_table_ok by done.
  replace (v =? 32) with false by lia. cbv zeta. case_if; [|done].
  replace (len + 5 - 8) with (len - 3) by lia.
  destruct (base32_decode_loop rest _ _); cbn [res_bind]; [|done..].
  change 255 with (2 ^ 8 - 1). rewrite (field _ _ 8 (len + 5)) by lia. done.
Qed.

Lemma emit_spec chars c len : 8 <= len <= 12 ->
  base32_emit (Z.to_nat len) chars c len
  = if len <? 10 then ([char_at chars (c mod 2 ^ len / 2 ^ (len - 5))], len - 5)
    else ([char_at chars (c mod 2 ^ len / 2 ^ (len - 5));
           char_at chars (c mod 2 ^ (len - 5) / 2 ^ (len - 10))], len - 10).
Proof.
  intros Hl. rewrite <- (field c (len - 5) 5 len) by lia.
  assert (len = 8 \/ len = 9 \/ len = 10 \/ len = 11 \/ len = 12) as Hcases by lia.
  destruct Hcases as [->|[->|[->|[->| ->]]]]; try reflexivity;
    simpl (_ <? _); cbv iota;
    [rewrite <- (field c (10 - 10) 5 (10 - 5)) by lia | rewrite <- (field c (11 - 10) 5 (11 - 5)) by lia
    | rewrite <- (field c (12 - 10) 5 (12 - 5)) by lia];
    reflexivity.
Qed.

(** One step of the decoder as a fact about the low bits of its accumulator. *)
Ltac decode_step :=
  rewrite decode_char by (eval_pows; zlia); cbv zeta;
  match goal with
  | |- context [Z.lor (u32 (Z.shiftl ?c 5)) ?v] =>
      match goal with
      | |- context [if 8 <=? ?l + 5 then _ else _] =>
          let H := fresh "HD" in let D := fresh "D" in
          pose proof (absorb c v l 5 ltac:(lia) ltac:(lia) ltac:(lia) ltac:(eval_pows; zlia)) as H;
          set (D := Z.lor (u32 (Z.shiftl c 5)) v) in *; clearbody D
      end
  end; eval_tests.

Lemma base32_sync up input : bytes input -> forall c len c' len',
  (len = 0 /\ len' = 0) \/ (1 <= len <= 4 /\ len + len' = 8) ->
  base32_decode_loop (base32_encode_loop (get_base32_characters up) input c len) c' len'
  = Ok ((if len =? 0 then [] else [c' mod 2 ^ len' * 2 ^ len + c mod 2 ^ len]) ++ input).
Proof.
  induction 1 as [|x input Hx H IH]; intros c len c' len' Hl.
  - cbn [base32_encode_loop]. destruct Hl as [[-> ->]|[Hr Hs]].
    { simpl. by rewrite Z.land_0_r. }
    replace (len =? 0) with false by lia. simpl negb. cbv iota.
    pose proof (absorb c 0 len (5 - len)) as HC. rewrite Z.lor_0_r in HC.
    replace (len + (5 - len)) with 5 in HC by lia.
    rewrite (land_ones_mod _ 5) by lia. rewrite HC; [|lia..|split; [lia | apply Z.pow_pos_nonneg; lia]]. clear HC.
    assert (len = 1 \/ len = 2 \/ len = 3 \/ len = 4) as Hcases by lia.
    destruct Hcases as [->|[->|[->| ->]]];
      [assert (len' = 7) as -> by lia | assert (len' = 6) as -> by lia
      | assert (len' = 5) as -> by lia | assert (len' = 4) as -> by lia]; decode_step;
      cbn [base32_decode_loop res_bind]; rewrite Z.shiftl_mul_pow2, Z.mul_1_l, land_ones_mod by lia;
      (case_if; eval_pows; [exfalso; zlia | cbn [res_bind app]; f_equal; list_eq by zlia]).
  - cbn [base32_encode_loop]. unfold is_byte in Hx.
    pose proof (absorb c x len 8 ltac:(lia) ltac:(lia) ltac:(lia) ltac:(lia)) as HC.
    set (C := Z.lor (u32 (Z.shiftl c 8)) x) in *. clearbody C. rewrite emit_spec by lia.
    assert (len = 0 \/ len = 1 \/ len = 2 \/ len = 3 \/ len = 4) as Hcases by lia.
    destruct Hcases as [->|[->|[->|[->| ->]]]]; eval_tests; cbn [app];
      [assert (len' = 0) as -> by lia | assert (len' = 7) as -> by lia | assert (len' = 6) as -> by lia
      | assert (len' = 5) as -> by lia | assert (len' = 4) as -> by lia];
      repeat decode_step; rewrite IH by lia; eval_tests; cbn [res_bind app]; f_equal; eval_pows; list_eq by zlia.
Qed.

(** ** Properties *)

(** Decoding inverts encoding, for base64 and base64url, on every byte
    string; the buffer the decoder allocates is exactly filled. *)
Theorem base64_roundtrip (input : list Z) : bytes input ->
  base64_decode (base64_encode input) = Ok input /\
  base64url_decode (base64url_encode input) = Ok input.
Proof. intros H. split; by apply roundtrip_impl. Qed.

Lemma base64_roundtrip_witness :
  base64_decode (base64_encode [0; 255; 16; 7]) = Ok [0; 255; 16; 7] /\
  base64url_decode (base64url_encode [0; 255; 16; 7]) = Ok [0; 255; 16; 7].
Proof. apply (base64_roundtrip [0; 255; 16; 7]). repeat constructor; unfold is_byte; lia. Defined.

(** Decoding accepts only canonical encodings: a string decoded by
    [base64_decode] is the encoding of the result, and one decoded by
    [base64url_decode] is the encoding of the result followed by at most two
    padding characters.  So two different unpadded strings never decode to
    the same bytes. *)
Theorem base64_decode_canonical (s x y : list Z) : bytes s ->
  (base64_decode s = Ok x -> bytes x /\ base64_encode x = s) /\
  (base64url_decode s = Ok y -> bytes y /\ base64url_encode y = fst (drop_padding s)).
Proof.
  intros Hs. destruct (drop_padding_spec s) as (l & k & Hsplit & E).
  split; intros Hd.
  - pose proof (decode_impl_spec false s l k Hs Hsplit E) as H. unfold base64_decode in Hd. rewrite Hd in H.
    destruct H as (_ & Hx & Hc & Hk). split; [done|]. unfold base64_encode.
    rewrite encode_core, Hc, <- Hk by done. done.
  - pose proof (decode_impl_spec true s l k Hs Hsplit E) as H. unfold base64url_decode in Hd. rewrite Hd in H.
    destruct H as (_ & Hx & Hc & _). split; [done|]. unfold base64url_encode.
    rewrite encode_core, Hc, E by done. apply app_nil_r.
Qed.

Lemma base64_decode_canonical_witness :
  bytes (lit "Ma") /\ base64_encode (lit "Ma") = lit "TWE=" /\
  bytes (lit "Ma") /\ base64url_encode (lit "Ma") = fst (drop_padding (lit "TWE=")).
Proof.
  destruct (base64_decode_canonical (lit "TWE=") (lit "Ma") (lit "Ma")) as [H1 H2].
  { repeat constructor; unfold is_byte; simpl; lia. }
  destruct (H1 ltac:(vm_compute; reflexivity)). destruct (H2 ltac:(vm_compute; reflexivity)).
  split_and!; assumption.
Defined.

(** [is_base64] and [is_base64url] decide decodability: they hold exactly
    when the decoder returns a result, and otherwise the decoder returns an
    error; it never writes past its buffer. *)
Theorem is_base64_decides (is_url : bool) (s : list Z) : bytes s ->
  is_base64_impl is_url s = is_ok (base64_decode_impl is_url s) /\
  (forall why, base64_decode_impl is_url s <> Panic why).
Proof.
  intros Hs. destruct (drop_padding_spec s) as (l & k & Hsplit & E).
  pose proof (decode_impl_spec is_url s l k Hs Hsplit E) as H.
  destruct (base64_decode_impl is_url s); [|by split | done]. split; [by destruct H | done].
Qed.

Lemma is_base64_decides_witness :
  is_base64_impl false (lit "TWF=") = is_ok (base64_decode_impl false (lit "TWF=")) /\
  (forall why, base64_decode_impl false (lit "TWF=") <> Panic why).
Proof. apply (is_base64_decides false (lit "TWF=")). repeat constructor; unfold is_byte; simpl; lia. Defined.

(** Base32 decoding inverts base32 encoding in either case of the
    alphabet, although both keep their pending bits in a 32-bit accumulator
    that overflows on long inputs. *)
Theorem base32_roundtrip (input : list Z) (upper_case : bool) : bytes input ->
  base32_decode (base32_encode input upper_case) = Ok input.
Proof. intros H. unfold base32_decode, base32_encode. rewrite base32_sync by (done || lia). done. Qed.

Lemma base32_roundtrip_witness :
  base32_decode (base32_encode [255; 0; 17; 200; 31; 5] true) = Ok [255; 0; 17; 200; 31; 5].
Proof. apply (base32_roundtrip [255; 0; 17; 200; 31; 5] true). repeat constructor; unfold is_byte; lia. Defined.
