(* ===== verification/TlCodec.v ===== *)
(** * TL serialization (tdutils/td/utils/tl_storers.h, tl_parsers.h,
    tl_parsers.cpp, tl_helpers.h)

    The two storers of the source are instances of one class [Storer], as they
    are arguments of the same templates there; the overloads of [store] and
    [parse] are the instances of the class [TlCodec].  [TlCodecLaws] states
    what every such pair promises to the generic [serialize] and
    [unserialize]: parsing inverts storing, the length computed in advance is
    the length that is written, and parsing arbitrary bytes stays inside of
    the buffer; [tl_type] lists the types that have these overloads.  A parse
    of a container or a pointer starts from a new object.  Object representations are little-endian, as on every
    platform the library supports. *)
From S2P Require Import Prelude Utf8.
Local Open Scope td_scope.

(** ** Storers *)

Class Storer (S : Type) := {
  store_binary : list Z -> S -> Res S;   (* the object representation *)
  store_slice : list Z -> S -> Res S;
  store_string : list Z -> S -> Res S;
}.

(** [TlStorerUnsafe]: the bytes written so far, up to [buf_]. *)
Record TlStorerUnsafe := mkTlStorerUnsafe { buf_ : list Z }.

Definition TlStorerUnsafe_store_binary (x : list Z) (s : TlStorerUnsafe) : Res TlStorerUnsafe :=
  Ok (mkTlStorerUnsafe (buf_ s ++ x)).

Definition TlStorerUnsafe_store_slice (slice : list Z) (s : TlStorerUnsafe) : Res TlStorerUnsafe :=
  Ok (mkTlStorerUnsafe (buf_ s ++ slice)).

Definition TlStorerUnsafe_store_string (str : list Z) (s : TlStorerUnsafe) : Res TlStorerUnsafe :=
  let size := Z.of_nat (length str) in
  let* (header, len) :=
    if size <? 254 then Ok ([u8 size], size + 1)
    else if size <? Z.shiftl 1 24 then
      Ok ([254; u8 (Z.land size 255); u8 (Z.land (Z.shiftr size 8) 255); u8 (Z.shiftr size 16)], size)
    else if size <? Z.shiftl 1 32 then
      Ok ([255; u8 (Z.land size 255); u8 (Z.land (Z.shiftr size 8) 255);
           u8 (Z.land (Z.shiftr size 16) 255); u8 (Z.land (Z.shiftr size 24) 255); 0; 0; 0], size)
    else Panic "String size is too big to be stored" in
  let padding :=
    if Z.land len 3 =? 1 then [0; 0; 0]
    else if Z.land len 3 =? 2 then [0; 0]
    else if Z.land len 3 =? 3 then [0]
    else [] in
  Ok (mkTlStorerUnsafe (buf_ s ++ header ++ str ++ padding)).

#[export] Instance Storer_TlStorerUnsafe : Storer TlStorerUnsafe := {
  store_binary := TlStorerUnsafe_store_binary;
  store_slice := TlStorerUnsafe_store_slice;
  store_string := TlStorerUnsafe_store_string;
}.

(** [TlStorerCalcLength]: [length] is a [size_t]. *)
Record TlStorerCalcLength := mkTlStorerCalcLength { get_length : Z }.

Definition TlStorerCalcLength_store_binary (x : list Z) (s : TlStorerCalcLength) : Res TlStorerCalcLength :=
  Ok (mkTlStorerCalcLength (u64 (get_length s + Z.of_nat (length x)))).

Definition TlStorerCalcLength_store_slice (slice : list Z) (s : TlStorerCalcLength) : Res TlStorerCalcLength :=
  Ok (mkTlStorerCalcLength (u64 (get_length s + Z.of_nat (length slice)))).

Definition TlStorerCalcLength_store_string (str : list Z) (s : TlStorerCalcLength) : Res TlStorerCalcLength :=
  let add := Z.of_nat (length str) in
  let add := if add <? 254 then add + 1 else if add <? Z.shiftl 1 24 then add + 4 else add + 8 in
  let add := Z.land (add + 3) (-4) in
  Ok (mkTlStorerCalcLength (u64 (get_length s + add))).

#[export] Instance Storer_TlStorerCalcLength : Storer TlStorerCalcLength := {
  store_binary := TlStorerCalcLength_store_binary;
  store_slice := TlStorerCalcLength_store_slice;
  store_string := TlStorerCalcLength_store_string;
}.

(** ** The parser *)

Definition SIZE_MAX : Z := 2 ^ 64 - 1.

(** [data]: the bytes from the [data] pointer to the end of the object it
    points into. *)
Record TlParser := mkTlParser {
  data : list Z;
  data_len : Z;
  left_len : Z;
  error_pos : Z;
  error : string;
}.

Definition empty_data : list Z := replicate 64 0.

Definition TlParser_new (slice : list Z) : TlParser :=
  mkTlParser slice (Z.of_nat (length slice)) (Z.of_nat (length slice)) SIZE_MAX "".

Definition error_empty (p : TlParser) : bool := String.eqb (error p) "".

Definition set_error (error_message : string) (p : TlParser) : Res TlParser :=
  if error_empty p then
    CHECK! negb (String.eqb error_message "") else "empty error message" in
    Ok (mkTlParser empty_data 0 0 (data_len p - left_len p) error_message)
  else
    CHECK! negb (error_pos p =? SIZE_MAX) && (data_len p =? 0) && (left_len p =? 0)
      else "inconsistent parser" in
    Ok (mkTlParser empty_data (data_len p) (left_len p) (error_pos p) (error p)).

Definition get_status (p : TlParser) : Res unit :=
  if error_empty p then Ok tt
  else Error 0 (error p +:+ " at " +:+ pretty (error_pos p)).

Definition check_len (len : Z) (p : TlParser) : Res TlParser :=
  if left_len p <? len then set_error "Not enough data to read" p
  else Ok (mkTlParser (data p) (data_len p) (left_len p - len) (error_pos p) (error p)).

Definition can_prefetch_int (p : TlParser) : bool := 4 <=? left_len p.

(** [memcpy(&result, ptr, n)] and [ptr += n]. *)
Definition read (ptr : list Z) (n : Z) : Res (list Z) :=
  CHECK! n <=? Z.of_nat (length ptr) else "read past the end of the buffer" in
  Ok (take (Z.to_nat n) ptr).

Definition offset (ptr : list Z) (n : Z) : Res (list Z) :=
  CHECK! n <=? Z.of_nat (length ptr) else "pointer past the end of the buffer" in
  Ok (drop (Z.to_nat n) ptr).

Definition with_data (d : list Z) (p : TlParser) : TlParser :=
  mkTlParser d (data_len p) (left_len p) (error_pos p) (error p).

Definition fetch_binary_unsafe (size : Z) (p : TlParser) : Res (list Z * TlParser) :=
  let* result := read (data p) size in
  let* d := offset (data p) size in
  Ok (result, with_data d p).

Definition prefetch_int_unsafe (p : TlParser) : Res Z :=
  let* result := read (data p) 4 in Ok (s32 (le_val result)).

Definition fetch_int_unsafe (p : TlParser) : Res (Z * TlParser) :=
  let* (result, p) := fetch_binary_unsafe 4 p in Ok (s32 (le_val result), p).

Definition fetch_int (p : TlParser) : Res (Z * TlParser) :=
  let* p := check_len 4 p in fetch_int_unsafe p.

Definition fetch_long_unsafe (p : TlParser) : Res (Z * TlParser) :=
  let* (result, p) := fetch_binary_unsafe 8 p in Ok (s64 (le_val result), p).

Definition fetch_long (p : TlParser) : Res (Z * TlParser) :=
  let* p := check_len 8 p in fetch_long_unsafe p.

(** A [double] is its object representation, read as a number. *)
Definition fetch_double_unsafe (p : TlParser) : Res (Z * TlParser) :=
  let* (result, p) := fetch_binary_unsafe 8 p in Ok (le_val result, p).

Definition fetch_double (p : TlParser) : Res (Z * TlParser) :=
  let* p := check_len 8 p in fetch_double_unsafe p.

(** [fetch_binary<T>] with [sizeof(T) == size], at most the 64 bytes of
    [empty_data]; the result is the object representation. *)
Definition fetch_binary (size : Z) (p : TlParser) : Res (list Z * TlParser) :=
  let* p := check_len size p in fetch_binary_unsafe size p.

(** The common end of the three branches of [fetch_string]. *)
Definition fetch_string_finish (result_len : Z) (result_begin : list Z) (result_aligned_len : Z)
    (p : TlParser) : Res (list Z * TlParser) :=
  let* p := check_len result_aligned_len p in
  if negb (error_empty p) then Ok ([], p)
  else
    let* d := offset (data p) result_aligned_len in
    let* result := read result_begin result_len in
    Ok (result, with_data d p).

Definition byte_at (ptr : list Z) (i : Z) : Res Z :=
  match ptr !! Z.to_nat i with
  | Some b => Ok b
  | None => Panic "read past the end of the buffer"
  end.

Definition fetch_string (p : TlParser) : Res (list Z * TlParser) :=
  let* p := check_len 4 p in
  let* result_len := byte_at (data p) 0 in
  if result_len <? 254 then
    let* result_begin := offset (data p) 1 in
    let result_aligned_len := Z.shiftl (Z.shiftr result_len 2) 2 in
    let* d := offset (data p) 4 in
    fetch_string_finish result_len result_begin result_aligned_len (with_data d p)
  else if result_len =? 254 then
    let* b1 := byte_at (data p) 1 in
    let* b2 := byte_at (data p) 2 in
    let* b3 := byte_at (data p) 3 in
    let result_len := b1 + Z.shiftl b2 8 + Z.shiftl b3 16 in
    let* result_begin := offset (data p) 4 in
    let result_aligned_len := Z.shiftl (Z.shiftr (result_len + 3) 2) 2 in
    let* d := offset (data p) 4 in
    fetch_string_finish result_len result_begin result_aligned_len (with_data d p)
  else
    let* p := check_len 4 p in
    let* b1 := byte_at (data p) 1 in
    let* b2 := byte_at (data p) 2 in
    let* b3 := byte_at (data p) 3 in
    let* b4 := byte_at (data p) 4 in
    let* b5 := byte_at (data p) 5 in
    let* b6 := byte_at (data p) 6 in
    let* b7 := byte_at (data p) 7 in
    let result_len := b1 + Z.shiftl b2 8 + Z.shiftl b3 16 + Z.shiftl b4 24 + Z.shiftl b5 32 +
                      Z.shiftl b6 40 + Z.shiftl b7 48 in
    if SIZE_MAX - 3 <? result_len then
      let* p := set_error "Too big string found" p in Ok ([], p)
    else
      let* result_begin := offset (data p) 8 in
      let result_aligned_len := Z.shiftl (Z.shiftr (result_len + 3) 2) 2 in
      let* d := offset (data p) 8 in
      fetch_string_finish result_len result_begin result_aligned_len (with_data d p).

Definition fetch_string_raw (size : Z) (p : TlParser) : Res (list Z * TlParser) :=
  let* p := check_len size p in
  if negb (error_empty p) then Ok ([], p)
  else
    let* d := offset (data p) size in
    let* result := read (data p) size in
    Ok (result, with_data d p).

Definition fetch_end (p : TlParser) : Res TlParser :=
  if negb (left_len p =? 0) then set_error "Too much data to fetch" p else Ok p.

(** ** [TlBufferParser]: strings are made valid UTF-8 *)

Definition is_valid_utf8 (str : list Z) : Res bool := check_utf8 str.

(** [while (position != 0 && !is_first(str[position]))]: [n] counts down. *)
Fixpoint last_position_loop (n : nat) (str : list Z) : nat :=
  match n with
  | O => O
  | S n' =>
      if negb (is_utf8_character_first_code_unit (nth n str 0)) then last_position_loop n' str else n
  end.

Definition last_utf8_character_position (str : list Z) : Res nat :=
  CHECK! negb (bool_decide (str = [])) else "empty string" in
  Ok (last_position_loop (length str - 1) str).

Definition TlBufferParser_fetch_string (p : TlParser) : Res (list Z * TlParser) :=
  let* (result, p) := fetch_string p in
  let result := map (fun c => if c =? 0 then 32 else c) result in
  let* ok := is_valid_utf8 result in
  if (ok : bool) then Ok (result, p)
  else
    let* pos := last_utf8_character_position result in
    let result := take pos result in
    let* ok := is_valid_utf8 result in
    if (ok : bool) then Ok (result, p) else Ok ([], p).

(** ** [store] and [parse] of tl_helpers.h *)

Class TlCodec (A : Type) := {
  tl_store : forall {S : Type} {H : Storer S}, A -> S -> Res S;
  tl_parse : TlParser -> Res (A * TlParser);
}.

Definition store_bool {S} `{Storer S} (x : bool) (s : S) : Res S := store_binary (le_bytes 4 (Z.b2z x)) s.
Definition parse_bool (p : TlParser) : Res (bool * TlParser) :=
  let* (x, p) := fetch_int p in Ok (negb (x =? 0), p).

(** The integer types of the source, as types of their own so that overload
    resolution is instance resolution. *)
Record int32 := Int32 { int32_val : Z }.
Record uint32 := UInt32 { uint32_val : Z }.
Record int64 := Int64 { int64_val : Z }.
Record uint64 := UInt64 { uint64_val : Z }.

Definition store_int32 {S} `{Storer S} (x : int32) (s : S) : Res S := store_binary (le_bytes 4 (int32_val x)) s.
Definition parse_int32 (p : TlParser) : Res (int32 * TlParser) :=
  let* (x, p) := fetch_int p in Ok (Int32 x, p).

Definition store_uint32 {S} `{Storer S} (x : uint32) (s : S) : Res S := store_binary (le_bytes 4 (uint32_val x)) s.
Definition parse_uint32 (p : TlParser) : Res (uint32 * TlParser) :=
  let* (x, p) := fetch_int p in Ok (UInt32 (u32 x), p).

Definition store_int64 {S} `{Storer S} (x : int64) (s : S) : Res S := store_binary (le_bytes 8 (int64_val x)) s.
Definition parse_int64 (p : TlParser) : Res (int64 * TlParser) :=
  let* (x, p) := fetch_long p in Ok (Int64 x, p).

Definition store_uint64 {S} `{Storer S} (x : uint64) (s : S) : Res S := store_binary (le_bytes 8 (uint64_val x)) s.
Definition parse_uint64 (p : TlParser) : Res (uint64 * TlParser) :=
  let* (x, p) := fetch_long p in Ok (UInt64 (u64 x), p).

Record double := Double { double_bits : Z }.

Definition store_double {S} `{Storer S} (x : double) (s : S) : Res S := store_binary (le_bytes 8 (double_bits x)) s.
Definition parse_double (p : TlParser) : Res (double * TlParser) :=
  let* (x, p) := fetch_double p in Ok (Double x, p).

(** An enumeration with a fixed underlying type; [enum_cast] is the conversion
    to that type. *)
Inductive underlying := SignedBits (bits : Z) | UnsignedBits (bits : Z).
Definition int8_t := SignedBits 8.
Definition uint8_t := UnsignedBits 8.
Definition int32_t := SignedBits 32.
Definition uint32_t := UnsignedBits 32.
Definition int64_t := SignedBits 64.

Definition enum_cast (u : underlying) (x : Z) : Z :=
  match u with
  | SignedBits bits => (x + 2 ^ (bits - 1)) mod 2 ^ bits - 2 ^ (bits - 1)
  | UnsignedBits bits => x mod 2 ^ bits
  end.

Record enum (u : underlying) := mkEnum { enum_val : Z }.
Arguments mkEnum {u} _.
Arguments enum_val {u} _.

Definition store_enum {u} {S} `{Storer S} (val : enum u) (s : S) : Res S :=
  store_int32 (Int32 (s32 (enum_val val))) s.
Definition parse_enum {u} (p : TlParser) : Res (enum u * TlParser) :=
  let* (result, p) := parse_int32 p in Ok (mkEnum (enum_cast u (int32_val result)), p).

(** [UInt256] and [UInt512] are arrays of bytes. *)
Record UInt (size : nat) := mkUInt { raw : list Z }.
Arguments mkUInt {size} _.
Arguments raw {size} _.

Definition store_UInt {n : nat} {S} `{Storer S} (x : UInt n) (s : S) : Res S := store_binary (raw x) s.
Definition parse_UInt {n : nat} (p : TlParser) : Res (UInt n * TlParser) :=
  let* (x, p) := fetch_binary (Z.of_nat n) p in Ok (mkUInt x, p).

Definition store_str {S} `{Storer S} (x : list Z) (s : S) : Res S := store_string x s.
Definition parse_str (p : TlParser) : Res (list Z * TlParser) := fetch_string p.

#[export] Instance TlCodec_bool : TlCodec bool := { tl_store := @store_bool; tl_parse := parse_bool }.
#[export] Instance TlCodec_int32 : TlCodec int32 := { tl_store := @store_int32; tl_parse := parse_int32 }.
#[export] Instance TlCodec_uint32 : TlCodec uint32 := { tl_store := @store_uint32; tl_parse := parse_uint32 }.
#[export] Instance TlCodec_int64 : TlCodec int64 := { tl_store := @store_int64; tl_parse := parse_int64 }.
#[export] Instance TlCodec_uint64 : TlCodec uint64 := { tl_store := @store_uint64; tl_parse := parse_uint64 }.
#[export] Instance TlCodec_double : TlCodec double := { tl_store := @store_double; tl_parse := parse_double }.
#[export] Instance TlCodec_enum u : TlCodec (enum u) := { tl_store := @store_enum u; tl_parse := parse_enum }.
#[export] Instance TlCodec_UInt256 : TlCodec (UInt 32) := { tl_store := @store_UInt 32; tl_parse := parse_UInt }.
#[export] Instance TlCodec_UInt512 : TlCodec (UInt 64) := { tl_store := @store_UInt 64; tl_parse := parse_UInt }.

(** A [string] is a list of bytes; the wrapper keeps it apart from a vector. *)
Record tl_string := Str { str_val : list Z }.
#[export] Instance TlCodec_string : TlCodec tl_string := {
  tl_store S _ x s := store_str (str_val x) s;
  tl_parse p := let* (x, p) := parse_str p in Ok (Str x, p);
}.

Section Compound.
Context {A B : Type} `{TlCodec A} `{TlCodec B}.

Fixpoint store_each {S} `{Storer S} (vec : list A) (s : S) : Res S :=
  match vec with
  | [] => Ok s
  | val :: vec => let* s := tl_store val s in store_each vec s
  end.

Definition store_vector {S} `{Storer S} (vec : list A) (s : S) : Res S :=
  let size := Z.of_nat (length vec) in
  CHECK! size <? 2 ^ 31 else "narrow_cast" in
  let* s := store_binary (le_bytes 4 size) s in
  store_each vec s.

Fixpoint parse_each (n : nat) (p : TlParser) : Res (list A * TlParser) :=
  match n with
  | O => Ok ([], p)
  | S n =>
      let* (val, p) := tl_parse p in
      let* (vec, p) := parse_each n p in
      Ok (val :: vec, p)
  end.

Definition parse_vector (p : TlParser) : Res (list A * TlParser) :=
  let* (n, p) := fetch_int p in
  let size := u32 n in
  if left_len p <? size then
    let* p := set_error "Wrong vector length" p in Ok ([], p)
  else parse_each (Z.to_nat size) p.

Definition store_pair {S} `{Storer S} (pair : A * B) (s : S) : Res S :=
  let* s := tl_store (fst pair) s in tl_store (snd pair) s.

Definition parse_pair (p : TlParser) : Res ((A * B) * TlParser) :=
  let* (x, p) := tl_parse p in
  let* (y, p) := tl_parse p in
  Ok ((x, y), p).

#[export] Instance TlCodec_vector : TlCodec (list A) := { tl_store S _ := store_vector; tl_parse := parse_vector }.
#[export] Instance TlCodec_pair : TlCodec (A * B) := { tl_store S _ := store_pair; tl_parse := parse_pair }.

(** [string key(length, '\0')], then the object is stored over it. *)
Definition serialize (object : A) : Res (list Z) :=
  let* calc_length := tl_store object (mkTlStorerCalcLength 0) in
  let length := get_length calc_length in
  let* storer := tl_store object (mkTlStorerUnsafe []) in
  CHECK! Z.of_nat (List.length (buf_ storer)) =? length else "storer.get_buf() == data.uend()" in
  Ok (buf_ storer).

Definition unserialize (data : list Z) : Res A :=
  let* (object, parser) := tl_parse (TlParser_new data) in
  let* parser := fetch_end parser in
  let* _ := get_status parser in
  Ok object.
End Compound.

(** The smart pointers; [unique_value_ptr] can be copied. *)
Inductive unique_ptr (A : Type) := nullptr | make_unique (x : A).
Arguments nullptr {A}.
Arguments make_unique {A} _.
Inductive unique_value_ptr (A : Type) := null_value | make_unique_value (x : A).
Arguments null_value {A}.
Arguments make_unique_value {A} _.

Section Pointers.
Context {A : Type} `{TlCodec A}.

Definition store_unique_ptr {S} `{Storer S} (ptr : unique_ptr A) (s : S) : Res S :=
  match ptr with
  | nullptr => Panic "ptr != nullptr"
  | make_unique x => tl_store x s
  end.

Definition parse_unique_ptr (ptr : unique_ptr A) (p : TlParser) : Res (unique_ptr A * TlParser) :=
  match ptr with
  | nullptr => let* (x, p) := tl_parse p in Ok (make_unique x, p)
  | make_unique _ => Panic "ptr == nullptr"
  end.

Definition store_unique_value_ptr {S} `{Storer S} (ptr : unique_value_ptr A) (s : S) : Res S :=
  match ptr with
  | null_value => Panic "ptr != nullptr"
  | make_unique_value x => tl_store x s
  end.

Definition parse_unique_value_ptr (ptr : unique_value_ptr A) (p : TlParser) : Res (unique_value_ptr A * TlParser) :=
  match ptr with
  | null_value => let* (x, p) := tl_parse p in Ok (make_unique_value x, p)
  | make_unique_value _ => Panic "ptr == nullptr"
  end.

(** The object that is parsed is a new one, as the elements of a vector are. *)
#[export] Instance TlCodec_unique_ptr : TlCodec (unique_ptr A) := {
  tl_store S _ := store_unique_ptr; tl_parse := parse_unique_ptr nullptr }.
#[export] Instance TlCodec_unique_value_ptr : TlCodec (unique_value_ptr A) := {
  tl_store S _ := store_unique_value_ptr; tl_parse := parse_unique_value_ptr null_value }.
End Pointers.

(** Keys can be compared, as [EqT] does, and be collected in sets. *)
#[export] Instance int32_eq : EqDecision int32.
Proof. solve_decision. Defined.
#[export] Instance uint32_eq : EqDecision uint32.
Proof. solve_decision. Defined.
#[export] Instance int64_eq : EqDecision int64.
Proof. solve_decision. Defined.
#[export] Instance uint64_eq : EqDecision uint64.
Proof. solve_decision. Defined.
#[export] Instance tl_string_eq : EqDecision tl_string.
Proof. solve_decision. Defined.
#[export] Program Instance int32_countable : Countable int32 := inj_countable' int32_val Int32 _.
Next Obligation. by intros []. Qed.
#[export] Program Instance uint32_countable : Countable uint32 := inj_countable' uint32_val UInt32 _.
Next Obligation. by intros []. Qed.
#[export] Program Instance int64_countable : Countable int64 := inj_countable' int64_val Int64 _.
Next Obligation. by intros []. Qed.
#[export] Program Instance uint64_countable : Countable uint64 := inj_countable' uint64_val UInt64 _.
Next Obligation. by intros []. Qed.
#[export] Program Instance tl_string_countable : Countable tl_string := inj_countable' str_val Str _.
Next Obligation. by intros []. Qed.

(** [FlatHashSet]: its elements, without duplicates.  They are visited in an
    order that depends on the table and on the random bucket at which it
    starts, so that the order is a parameter; [FlatHashTable.v] has the table
    and its iterator. *)
Class SetIteration := {
  iteration : forall {K : Type} `{Countable K}, gset K -> list K;
  iteration_elements : forall {K : Type} `{Countable K} (s : gset K), iteration s ≡ₚ elements s;
}.

Definition EMPTY_KEY : string := "!is_hash_table_key_empty<EqT>(key)".

(** [KeyT()], the key that marks an empty node. *)
Class DefaultKey (K : Type) := default_key : K.
#[export] Instance DefaultKey_int32 : DefaultKey int32 := Int32 0.
#[export] Instance DefaultKey_uint32 : DefaultKey uint32 := UInt32 0.
#[export] Instance DefaultKey_int64 : DefaultKey int64 := Int64 0.
#[export] Instance DefaultKey_uint64 : DefaultKey uint64 := UInt64 0.
#[export] Instance DefaultKey_string : DefaultKey tl_string := Str [].

Section Sets.
Context {K : Type} `{Countable K} `{!TlCodec K} `{!DefaultKey K} `{!SetIteration}.

(** [FlatHashSet::insert]: the elements, and the check that [emplace] makes. *)
Definition set_insert (key : K) (s : gset K) : Res (gset K) :=
  CHECK! negb (bool_decide (key = default_key)) else EMPTY_KEY in
  Ok ({[ key ]} ∪ s).

Definition store_set {S} `{Storer S} (s : gset K) (storer : S) : Res S :=
  let size := Z.of_nat (length (iteration s)) in
  CHECK! size <? 2 ^ 31 else "narrow_cast" in
  let* storer := store_binary (le_bytes 4 size) storer in
  store_each (iteration s) storer.

Fixpoint parse_keys (n : nat) (s : gset K) (p : TlParser) : Res (gset K * TlParser) :=
  match n with
  | O => Ok (s, p)
  | S n =>
      let* (val, p) := tl_parse p in
      let* s := set_insert val s in
      parse_keys n s p
  end.

Definition parse_set (p : TlParser) : Res (gset K * TlParser) :=
  let* (n, p) := fetch_int p in
  let size := u32 n in
  if left_len p <? size then
    let* p := set_error "Wrong set length" p in Ok (∅, p)
  else parse_keys (Z.to_nat size) ∅ p.

#[export] Instance TlCodec_set : TlCodec (gset K) := { tl_store S _ := store_set; tl_parse := parse_set }.
End Sets.

(** The alternatives of a [Variant]: a value of one of the types, in nested
    sums; [visit] and [for_each] go through the types from the first one.  The
    types are different, so that the position of a type is its offset. *)
Class TlAlternatives (A : Type) := {
  sizeof_types : Z;
  alternative_offset : A -> Z;
  visit_store : forall {S : Type} {H : Storer S}, A -> S -> Res S;
  for_each_parse : Z -> Z -> TlParser -> Res (option A * TlParser);
}.

#[export] Instance TlAlternatives_nil : TlAlternatives Empty_set := {
  sizeof_types := 0;
  alternative_offset x := match x with end;
  visit_store S _ x s := match x with end;
  for_each_parse offset type_offset p := Ok (None, p);
}.

Section Alternatives.
Context {A B : Type} `{TlCodec A} `{TlAlternatives B}.

(** [for_each] with the function of [parse]: it is called for every type. *)
Definition for_each_parse_cons (offset type_offset : Z) (p : TlParser) : Res (option (A + B) * TlParser) :=
  let* (variant, p) :=
    if offset =? type_offset then let* (val, p) := tl_parse p in Ok (Some (inl val), p) else Ok (None, p) in
  let* (rest, p) := for_each_parse (offset + 1) type_offset p in
  Ok (match rest with Some val => Some (inr val) | None => variant end, p).

Definition visit_store_cons {S} `{Storer S} (value : A + B) (s : S) : Res S :=
  match value with inl x => tl_store x s | inr y => visit_store y s end.

#[export] Instance TlAlternatives_cons : TlAlternatives (A + B) := {
  sizeof_types := 1 + sizeof_types (A := B);
  alternative_offset x := match x with inl _ => 0 | inr y => 1 + alternative_offset y end;
  visit_store S _ := visit_store_cons;
  for_each_parse := for_each_parse_cons;
}.
End Alternatives.

(** A [Variant] is empty ([offset_ == npos]) or holds a value. *)
Record Variant (A : Type) := mkVariant { variant_value : option A }.
Arguments mkVariant {A} _.
Arguments variant_value {A} _.

Section Variants.
Context {A : Type} `{TlAlternatives A}.

Definition Variant_get_offset (variant : Variant A) : Z :=
  match variant_value variant with Some x => alternative_offset x | None => -1 end.

Definition store_variant {S} `{Storer S} (variant : Variant A) (s : S) : Res S :=
  let* s := store_int32 (Int32 (Variant_get_offset variant)) s in
  match variant_value variant with Some x => visit_store x s | None => Ok s end.

Definition parse_variant (p : TlParser) : Res (Variant A * TlParser) :=
  let* (type_offset, p) := fetch_int p in
  if (type_offset <? 0) || (sizeof_types (A := A) <=? type_offset) then
    let* p := set_error "Invalid type" p in Ok (mkVariant None, p)
  else
    let* (value, p) := for_each_parse 0 type_offset p in
    Ok (mkVariant value, p).

#[export] Instance TlCodec_variant : TlCodec (Variant A) := { tl_store S _ := store_variant; tl_parse := parse_variant }.
End Variants.

(** ** Parser states *)

(** A parser that has met no error: [left_len] bytes are left at [data]. *)
Definition clean (dl : Z) (d : list Z) : TlParser := mkTlParser d dl (Z.of_nat (length d)) SIZE_MAX "".

Inductive parser_inv : TlParser -> Prop :=
| inv_clean dl d : bytes d -> Z.of_nat (length d) <= dl < SIZE_MAX -> parser_inv (clean dl d)
| inv_failed d pos msg : bytes d -> msg <> "" -> pos <> SIZE_MAX -> parser_inv (mkTlParser d 0 0 pos msg).

Definition failed (p : TlParser) : Prop :=
  exists pos msg, msg <> ""%string /\ pos <> SIZE_MAX /\ p = mkTlParser empty_data 0 0 pos msg.

Lemma empty_data_bytes n : bytes (drop n empty_data).
Proof. apply Forall_drop, Forall_replicate. unfold is_byte. lia. Qed.

Lemma failed_inv p n : failed p -> parser_inv (with_data (drop n empty_data) p).
Proof. intros (pos & msg & Hm & Hp & ->). constructor; auto using empty_data_bytes. Qed.

Lemma nonempty_eqb msg : msg <> ""%string -> String.eqb msg "" = false.
Proof. intros. by apply String.eqb_neq. Qed.

Lemma set_error_inv m p : m <> ""%string -> parser_inv p -> exists p', set_error m p = Ok p' /\ failed p'.
Proof.
  intros Hm Hp. unfold set_error, error_empty. destruct Hp as [dl d Hd Hl|d pos msg Hd Hmsg Hpos]; simpl.
  - rewrite (nonempty_eqb m Hm). simpl. eexists. split; [done|]. unfold failed.
    eexists _, _. split_and!; [done | | done]. unfold SIZE_MAX in *. lia.
  - rewrite (nonempty_eqb msg Hmsg). replace (pos =? SIZE_MAX) with false by lia. simpl.
    eexists. split; [done|]. by eexists _, _.
Qed.

(** What a length check does: it reserves bytes of a good parser, or it leaves
    a failed parser on [empty_data]; a check for no bytes changes nothing. *)
Lemma check_len_cases len p : 0 < len -> parser_inv p ->
  (exists dl d, p = clean dl d /\ len <= Z.of_nat (length d) /\ bytes d /\ Z.of_nat (length d) <= dl < SIZE_MAX /\
     check_len len p = Ok (mkTlParser d dl (Z.of_nat (length d) - len) SIZE_MAX "")) \/
  (exists p', check_len len p = Ok p' /\ failed p').
Proof.
  intros Hlen Hp. unfold check_len. case_if.
  - right. apply set_error_inv; done.
  - left. destruct Hp as [dl d Hd Hl|]; simpl in *; [|lia]. by exists dl, d.
Qed.

Lemma read_app x rest n : n = Z.of_nat (length x) -> read (x ++ rest) n = Ok x.
Proof.
  intros ->. unfold read. rewrite length_app. case_if; [|lia]. by rewrite Nat2Z.id, take_app_length.
Qed.

Lemma offset_app x rest n : n = Z.of_nat (length x) -> offset (x ++ rest) n = Ok rest.
Proof.
  intros ->. unfold offset. rewrite length_app. case_if; [|lia]. by rewrite Nat2Z.id, drop_app_length.
Qed.

Lemma read_ok d n : 0 <= n <= Z.of_nat (length d) -> read d n = Ok (take (Z.to_nat n) d).
Proof. intros. unfold read. by case_if; [|lia]. Qed.

Lemma offset_ok d n : 0 <= n <= Z.of_nat (length d) -> offset d n = Ok (drop (Z.to_nat n) d).
Proof. intros. unfold offset. by case_if; [|lia]. Qed.

Lemma check_len_clean dl x rest n : n = Z.of_nat (length x) ->
  check_len n (clean dl (x ++ rest)) = Ok (mkTlParser (x ++ rest) dl (Z.of_nat (length rest)) SIZE_MAX "").
Proof.
  intros ->. unfold check_len. simpl. rewrite length_app. case_if; [lia|]. do 2 f_equal. lia.
Qed.

(** [fetch_binary] on good data, and on arbitrary data. *)
Lemma fetch_binary_clean dl x rest n : n = Z.of_nat (length x) ->
  fetch_binary n (clean dl (x ++ rest)) = Ok (x, clean dl rest).
Proof.
  intros Hn. unfold fetch_binary. rewrite check_len_clean by done. simpl.
  unfold fetch_binary_unsafe. simpl. by rewrite read_app, offset_app.
Qed.

Lemma fetch_binary_inv n p : 0 < n <= 64 -> parser_inv p ->
  exists x p', fetch_binary n p = Ok (x, p') /\ parser_inv p' /\ bytes x /\ Z.of_nat (length x) = n.
Proof.
  intros Hn Hp. unfold fetch_binary.
  destruct (check_len_cases n p) as [(dl & d & -> & Hl & Hd & Hdl & ->)|(p' & -> & Hf)]; [lia | done | |];
    cbn [res_bind]; unfold fetch_binary_unsafe.
  - simpl. rewrite read_ok, offset_ok by lia. simpl. eexists _, _. split; [done|].
    split; [|split; [by apply Forall_take | rewrite length_take; lia]].
    unfold with_data. simpl.
    assert (Z.of_nat (length d) - n = Z.of_nat (length (drop (Z.to_nat n) d))) as -> by (rewrite length_drop; lia).
    apply inv_clean; [by apply Forall_drop | rewrite length_drop; lia].
  - assert (data p' = empty_data) as E by (by destruct Hf as (? & ? & _ & _ & ->)).
    rewrite E, read_ok, offset_ok by (change (Z.of_nat (length empty_data)) with 64; lia). simpl.
    eexists _, _. split; [done|]. split; [by apply failed_inv|]. split.
    + apply Forall_take, (empty_data_bytes 0).
    + rewrite length_take. change (length empty_data) with 64%nat. lia.
Qed.

Lemma fetch_int_binary p :
  fetch_int p = let* (x, p) := fetch_binary 4 p in Ok (s32 (le_val x), p).
Proof. unfold fetch_int, fetch_binary, fetch_int_unsafe. by destruct (check_len 4 p). Qed.

Lemma fetch_long_binary p :
  fetch_long p = let* (x, p) := fetch_binary 8 p in Ok (s64 (le_val x), p).
Proof. unfold fetch_long, fetch_binary, fetch_long_unsafe. by destruct (check_len 8 p). Qed.

Lemma fetch_int_clean dl x rest :
  fetch_int (clean dl (le_bytes 4 x ++ rest)) = Ok (s32 x, clean dl rest).
Proof.
  rewrite fetch_int_binary, fetch_binary_clean by (by rewrite length_le_bytes). cbn [res_bind].
  rewrite le_val_le_bytes. change (8 * Z.of_nat 4) with 32. by rewrite s32_mod.
Qed.

Lemma fetch_long_clean dl x rest :
  fetch_long (clean dl (le_bytes 8 x ++ rest)) = Ok (s64 x, clean dl rest).
Proof.
  rewrite fetch_long_binary, fetch_binary_clean by (by rewrite length_le_bytes). cbn [res_bind].
  rewrite le_val_le_bytes. change (8 * Z.of_nat 8) with 64. by rewrite s64_mod.
Qed.

Lemma fetch_int_inv p : parser_inv p ->
  exists x p', fetch_int p = Ok (x, p') /\ parser_inv p'.
Proof.
  intros Hp. rewrite fetch_int_binary. destruct (fetch_binary_inv 4 p) as (x & p' & -> & ? & _); [lia | done|].
  simpl. eauto.
Qed.

Lemma fetch_long_inv p : parser_inv p ->
  exists x p', fetch_long p = Ok (x, p') /\ parser_inv p'.
Proof.
  intros Hp. rewrite fetch_long_binary. destruct (fetch_binary_inv 8 p) as (x & p' & -> & ? & _); [lia | done|].
  simpl. eauto.
Qed.

Lemma fetch_double_binary p :
  fetch_double p = let* (x, p) := fetch_binary 8 p in Ok (le_val x, p).
Proof. unfold fetch_double, fetch_binary, fetch_double_unsafe. by destruct (check_len 8 p). Qed.

Lemma fetch_double_clean dl x rest : is_u64 x ->
  fetch_double (clean dl (le_bytes 8 x ++ rest)) = Ok (x, clean dl rest).
Proof.
  intros Hx. rewrite fetch_double_binary, fetch_binary_clean by (by rewrite length_le_bytes). cbn [res_bind].
  rewrite le_val_le_bytes. change (x mod 2 ^ (8 * Z.of_nat 8)) with (u64 x). by rewrite u64_small.
Qed.

(** Parsing arbitrary bytes gives a value and leaves the parser inside of its
    buffer, or it fails the check of [FlatHashTable::emplace]. *)
Definition parses {A : Type} (r : Res (A * TlParser)) : Prop :=
  (exists x p, r = Ok (x, p) /\ parser_inv p) \/ r = Panic EMPTY_KEY.

Lemma parses_ok {A : Type} (x : A) p : parser_inv p -> parses (Ok (x, p)).
Proof. left. eauto. Qed.

Lemma parses_bind {A B : Type} (r : Res (A * TlParser)) (f : A * TlParser -> Res (B * TlParser)) :
  parses r -> (forall x p, parser_inv p -> parses (f (x, p))) -> parses (res_bind r f).
Proof. intros [(x & p & -> & Hp)| ->] Hf; [by apply Hf | by right]. Qed.

Lemma parses_set_error {A : Type} (x : A) m p : m <> ""%string -> parser_inv p ->
  parses (let* p := set_error m p in Ok (x, p)).
Proof.
  intros Hm Hp. destruct (set_error_inv m p Hm Hp) as (p' & -> & pos & msg & ? & ? & ->). apply parses_ok.
  constructor; [exact (empty_data_bytes 0) | done | done].
Qed.

Lemma fetch_binary_parses n p : 0 < n <= 64 -> parser_inv p -> parses (fetch_binary n p).
Proof. intros Hn Hp. destruct (fetch_binary_inv n p Hn Hp) as (? & ? & -> & ? & _). by apply parses_ok. Qed.

Lemma fetch_int_parses p : parser_inv p -> parses (fetch_int p).
Proof. intros Hp. destruct (fetch_int_inv p Hp) as (? & ? & -> & ?). by apply parses_ok. Qed.

Lemma fetch_long_parses p : parser_inv p -> parses (fetch_long p).
Proof. intros Hp. destruct (fetch_long_inv p Hp) as (? & ? & -> & ?). by apply parses_ok. Qed.

Lemma fetch_double_parses p : parser_inv p -> parses (fetch_double p).
Proof.
  intros Hp. rewrite fetch_double_binary. apply parses_bind; [by apply fetch_binary_parses | intros; by apply parses_ok].
Qed.

(** ** Strings *)

Lemma aligned_div n : Z.shiftl (Z.shiftr n 2) 2 = n / 4 * 4.
Proof. by rewrite Z.shiftl_mul_pow2, Z.shiftr_div_pow2 by lia. Qed.

Lemma finish_clean n rb a dl d : 0 <= a <= Z.of_nat (length d) -> 0 <= n <= Z.of_nat (length rb) ->
  fetch_string_finish n rb a (clean dl d) = Ok (take (Z.to_nat n) rb, clean dl (drop (Z.to_nat a) d)).
Proof.
  intros Ha Hn. unfold fetch_string_finish, check_len. simpl. case_if; [lia|]. simpl.
  rewrite offset_ok, read_ok by lia. simpl. do 2 f_equal. unfold with_data, clean. simpl. f_equal.
  rewrite length_drop. lia.
Qed.

Lemma finish_inv n rb a dl d : bytes rb -> parser_inv (clean dl d) -> 0 <= a -> 0 <= n ->
  (a <= Z.of_nat (length d) -> n <= Z.of_nat (length rb)) ->
  exists x p', fetch_string_finish n rb a (clean dl d) = Ok (x, p') /\ parser_inv p' /\ bytes x.
Proof.
  intros Hrb Hp Ha Hn Himp. destruct (decide (a <= Z.of_nat (length d))) as [Hle|Hgt].
  - rewrite finish_clean by lia. eexists _, _. split; [done|].
    inversion Hp as [dl' d' Hd Hl E|]; subst; [|done].
    split; [|by apply Forall_take]. constructor; [by apply Forall_drop | rewrite length_drop; lia].
  - unfold fetch_string_finish.
    destruct (check_len_cases a (clean dl d)) as [(dl' & d' & E & Hl & _)|(p' & -> & Hf)]; [lia | done | |].
    { injection E as -> ->. lia. }
    cbn [res_bind]. destruct Hf as (pos & msg & Hm & Hpos & ->). unfold error_empty. simpl.
    rewrite nonempty_eqb by done. simpl. eexists _, _. split; [done|]. split; [|constructor].
    constructor; [exact (empty_data_bytes 0) | done | done].
Qed.

Lemma finish_failed n rb pos msg d : msg <> ""%string ->
  fetch_string_finish n rb 0 (mkTlParser d 0 0 pos msg) = Ok ([], mkTlParser d 0 0 pos msg).
Proof. intros Hm. unfold fetch_string_finish, check_len, error_empty. simpl. by rewrite nonempty_eqb. Qed.

Lemma failed_result pos msg n : msg <> ""%string -> pos <> SIZE_MAX ->
  exists x p', @Ok (list Z * TlParser) ([], mkTlParser (drop n empty_data) 0 0 pos msg) = Ok (x, p') /\ parser_inv p' /\ bytes x.
Proof.
  intros. eexists _, _. split; [done|]. split; [|constructor]. constructor; auto using empty_data_bytes.
Qed.

Ltac eval_byte_at :=
  repeat match goal with
  | |- context [byte_at ?l ?k] => let r := eval hnf in (byte_at l k) in change (byte_at l k) with r
  end; cbn [res_bind].

Lemma clean_after dl d n : parser_inv (clean dl d) -> 0 <= n <= Z.of_nat (length d) ->
  with_data (drop (Z.to_nat n) d) (mkTlParser d dl (Z.of_nat (length d) - n) SIZE_MAX "")
    = clean dl (drop (Z.to_nat n) d) /\
  parser_inv (clean dl (drop (Z.to_nat n) d)).
Proof.
  intros Hp Hn. unfold with_data, clean. simpl. rewrite length_drop. split; [f_equal; lia|].
  inversion Hp as [dl' d' Hd Hl E|]; subst; [|done].
  replace (Z.of_nat (length d - Z.to_nat n)) with (Z.of_nat (length (drop (Z.to_nat n) d))) by (rewrite length_drop; lia).
  apply inv_clean; [by apply Forall_drop | rewrite length_drop; lia].
Qed.

(** The long form of a string, after the first length check. *)
Definition fetch_long_string (p : TlParser) : Res (list Z * TlParser) :=
  let* p := check_len 4 p in
  let* b1 := byte_at (data p) 1 in
  let* b2 := byte_at (data p) 2 in
  let* b3 := byte_at (data p) 3 in
  let* b4 := byte_at (data p) 4 in
  let* b5 := byte_at (data p) 5 in
  let* b6 := byte_at (data p) 6 in
  let* b7 := byte_at (data p) 7 in
  let result_len := b1 + Z.shiftl b2 8 + Z.shiftl b3 16 + Z.shiftl b4 24 + Z.shiftl b5 32 +
                    Z.shiftl b6 40 + Z.shiftl b7 48 in
  if SIZE_MAX - 3 <? result_len then
    let* p := set_error "Too big string found" p in Ok ([], p)
  else
    let* result_begin := offset (data p) 8 in
    let result_aligned_len := Z.shiftl (Z.shiftr (result_len + 3) 2) 2 in
    let* d := offset (data p) 8 in
    fetch_string_finish result_len result_begin result_aligned_len (with_data d p).

Lemma fetch_long_string_inv dl d : parser_inv (clean dl d) -> 4 <= Z.of_nat (length d) ->
  exists x p', fetch_long_string (mkTlParser d dl (Z.of_nat (length d) - 4) SIZE_MAX "") = Ok (x, p') /\
    parser_inv p' /\ bytes x.
Proof.
  intros Hp Hl. inversion Hp as [dl' d' Hd Hdl E|]; subst; [|done].
  unfold fetch_long_string, check_len. cbn [left_len]. case_if.
  - unfold set_error, error_empty. simpl. change empty_data with (0 :: 0 :: 0 :: 0 :: 0 :: 0 :: 0 :: 0 :: replicate 56 0).
    cbn. match goal with |- context [fetch_string_finish ?n ?rb ?a (with_data _ (mkTlParser _ _ _ ?pos ?m))] =>
      change (fetch_string_finish n rb a _) with (fetch_string_finish n rb 0 (mkTlParser (drop 8 empty_data) 0 0 pos m)) end.
    rewrite finish_failed by done. apply failed_result; [done | unfold SIZE_MAX in *; lia].
  - cbn [res_bind data data_len left_len error_pos TlCodec.error].
    destruct (clean_after dl d 8 Hp ltac:(lia)) as [Ec Hc].
    replace (Z.of_nat (length d) - 4 - 4) with (Z.of_nat (length d) - 8) by lia.
    assert (forall n, bytes (drop n d)) as Hdrop by (intros; by apply Forall_drop).
    destruct d as [|b0 [|b1 [|b2 [|b3 [|b4 [|b5 [|b6 [|b7 d]]]]]]]]; simpl in E; try lia.
    inv_Forall. unfold is_byte in *. eval_byte_at.
    rewrite !aligned_div, !Z.shiftl_mul_pow2 by lia.
    case_if; [exfalso; unfold SIZE_MAX in *; lia|].
    rewrite !offset_ok by (cbn [length]; lia). cbn [res_bind]. rewrite Ec.
    apply finish_inv; [apply Hdrop | done | zlia | lia |]. zlia.
Qed.

Lemma fetch_string_inv p : parser_inv p ->
  exists x p', fetch_string p = Ok (x, p') /\ parser_inv p' /\ bytes x.
Proof.
  intros Hp. unfold fetch_string.
  destruct (check_len_cases 4 p) as [(dl & d & -> & Hl & Hd & Hdl & ->)|(p' & -> & Hf)]; [lia | done | |].
  2: { destruct Hf as (pos & msg & Hm & Hpos & ->). cbn [res_bind data].
       change (byte_at empty_data 0) with (@Ok Z 0). cbn [res_bind]. eval_tests.
       change (offset empty_data 1) with (Ok (drop 1 empty_data)). change (offset empty_data 4) with (Ok (drop 4 empty_data)).
       cbn [res_bind]. unfold with_data. cbn [data_len left_len error_pos TlCodec.error].
       change (Z.shiftl (Z.shiftr 0 2) 2) with 0. rewrite finish_failed by done. by apply failed_result. }
  cbn [res_bind]. fold (fetch_long_string (mkTlParser d dl (Z.of_nat (length d) - 4) SIZE_MAX "")).
  destruct (clean_after dl d 4 Hp ltac:(lia)) as [Ec Hc]. pose proof (fetch_long_string_inv dl d Hp Hl) as Hlong.
  cbn [data]. assert (forall n, bytes (drop n d)) as Hdrop by (intros; by apply Forall_drop).
  destruct d as [|b0 [|b1 [|b2 [|b3 d]]]]; cbn [length] in Hl; try lia.
  inv_Forall. unfold is_byte in *.
  eval_byte_at.
  case_if; [|case_if; [|done]].
  - rewrite !offset_ok by (cbn [length]; lia). cbn [res_bind]. rewrite Ec, aligned_div.
    apply finish_inv; [apply Hdrop | done | zlia | lia |]. rewrite !length_drop. cbn [length]. zlia.
  - rewrite !offset_ok by (cbn [length]; lia). cbn [res_bind]. rewrite Ec, aligned_div.
    rewrite !Z.shiftl_mul_pow2 by lia.
    apply finish_inv; [apply Hdrop | done | zlia | lia |]. zlia.
Qed.

(** ** Strings: the encoding *)

Definition string_header (size : Z) : list Z :=
  if size <? 254 then [size]
  else if size <? 2 ^ 24 then [254; size mod 256; size / 256 mod 256; size / 65536]
  else [255; size mod 256; size / 256 mod 256; size / 65536 mod 256; size / 16777216; 0; 0; 0].

Definition string_bytes (str : list Z) : list Z :=
  let size := Z.of_nat (length str) in
  let h := string_header size in
  h ++ str ++ replicate (Z.to_nat ((- (Z.of_nat (length h) + size)) mod 4)) 0.

Lemma header_length size : length (string_header size) = (if (size <? 254)%Z then 1 else if (size <? 2 ^ 24)%Z then 4 else 8)%nat.
Proof. unfold string_header. by repeat case_if. Qed.

Lemma length_string_bytes str :
  Z.of_nat (length (string_bytes str))
  = (Z.of_nat (length str) + (if Z.of_nat (length str) <? 254 then 1 else if Z.of_nat (length str) <? 2 ^ 24 then 4 else 8) + 3) / 4 * 4.
Proof.
  unfold string_bytes. rewrite !length_app, length_replicate, header_length.
  repeat case_if; zlia.
Qed.

Lemma land_m4 n : Z.land n (-4) = n / 4 * 4.
Proof.
  change (-4) with (Z.lnot (Z.ones 2)). rewrite <- Z.ldiff_land, Z.ldiff_ones_r by lia.
  by rewrite Z.shiftl_mul_pow2, Z.shiftr_div_pow2 by lia.
Qed.

Lemma store_string_length str s :
  TlStorerCalcLength_store_string str s
  = Ok (mkTlStorerCalcLength (u64 (get_length s + Z.of_nat (length (string_bytes str))))).
Proof.
  unfold TlStorerCalcLength_store_string. rewrite length_string_bytes, land_m4. change (Z.shiftl 1 24) with (2 ^ 24).
  by repeat case_if.
Qed.

Lemma land255 n : Z.land n 255 = n mod 256.
Proof. by apply (land_ones_mod n 8). Qed.

Lemma u8_mod n : u8 (n mod 256) = n mod 256.
Proof. unfold u8. change (2 ^ 8) with 256. apply Z.mod_mod. lia. Qed.

Lemma padding_cases len : 
  (if Z.land len 3 =? 1 then [0; 0; 0] else if Z.land len 3 =? 2 then [0; 0] else if Z.land len 3 =? 3 then [0] else [])
  = replicate (Z.to_nat ((- len) mod 4)) 0.
Proof.
  change 3 with (2 ^ 2 - 1) at 1 2 3. rewrite !land_ones_mod by lia. change (2 ^ 2) with 4.
  assert (len mod 4 = 0 \/ len mod 4 = 1 \/ len mod 4 = 2 \/ len mod 4 = 3) as Hc by zlia.
  destruct Hc as [E|[E|[E|E]]]; rewrite E; eval_tests.
  - by replace ((- len) mod 4) with 0 by zlia.
  - by replace ((- len) mod 4) with 3 by zlia.
  - by replace ((- len) mod 4) with 2 by zlia.
  - by replace ((- len) mod 4) with 1 by zlia.
Qed.

Lemma store_string_bytes str s : Z.of_nat (length str) < 2 ^ 32 ->
  TlStorerUnsafe_store_string str s = Ok (mkTlStorerUnsafe (buf_ s ++ string_bytes str)).
Proof.
  intros Hl. unfold TlStorerUnsafe_store_string, string_bytes.
  set (size := Z.of_nat (length str)) in *. assert (0 <= size) by lia. clearbody size.
  rewrite header_length. unfold string_header. change (Z.shiftl 1 24) with (2 ^ 24). change (Z.shiftl 1 32) with (2 ^ 32).
  rewrite !land255, !u8_mod, !Z.shiftr_div_pow2 by lia.
  assert (forall n, u8 (Z.land n 255) = n mod 256) as Hu by (intros; by rewrite land255, u8_mod).
  destruct (size <? 254) eqn:E1; zbool; [|destruct (size <? 2 ^ 24) eqn:E2; zbool; [|destruct (size <? 2 ^ 32) eqn:E3; zbool; [|lia]]];
    cbn [res_bind]; rewrite padding_cases.
  - rewrite u8_small by (unfold is_byte; lia). do 4 f_equal. cbn [app]. do 4 f_equal. lia.
  - do 3 f_equal. cbn [app]. rewrite u8_small by (unfold is_byte; zlia). do 7 f_equal. cbn. zlia.
  - do 3 f_equal. cbn [app]. change (2 ^ 8) with 256. change (2 ^ 16) with 65536. change (2 ^ 24) with 16777216.
    rewrite (Z.mod_small (size / 16777216)) by zlia. do 11 f_equal. cbn. zlia.
Qed.

Lemma check_len_ge dl d n : 0 <= n <= Z.of_nat (length d) ->
  check_len n (clean dl d) = Ok (mkTlParser d dl (Z.of_nat (length d) - n) SIZE_MAX "").
Proof. intros. unfold check_len. simpl. by case_if; [lia|]. Qed.

Lemma move_clean dl d n : 0 <= n <= Z.of_nat (length d) ->
  with_data (drop (Z.to_nat n) d) (mkTlParser d dl (Z.of_nat (length d) - n) SIZE_MAX "")
  = clean dl (drop (Z.to_nat n) d).
Proof. intros. unfold with_data, clean. simpl. f_equal. rewrite length_drop. lia. Qed.

(** Both ends of a string: the characters behind the header, and what follows
    the padding. *)
Lemma string_parts str rest k a :
  Z.of_nat k = Z.of_nat (length (string_header (Z.of_nat (length str)))) ->
  take (length str) (drop k (string_bytes str ++ rest)) = str /\
  (Z.of_nat (length (string_bytes str)) = a -> drop (Z.to_nat a) (string_bytes str ++ rest) = rest).
Proof.
  intros Hk. unfold string_bytes. split.
  - replace k with (length (string_header (Z.of_nat (length str)))) by lia.
    rewrite <- !app_assoc, drop_app_length. apply take_app_length.
  - intros <-. rewrite Nat2Z.id. apply drop_app_length.
Qed.

Lemma header_first str rest : exists t,
  string_bytes str ++ rest = hd 0 (string_header (Z.of_nat (length str))) :: t.
Proof. unfold string_bytes, string_header. repeat case_if; simpl; eauto. Qed.

Lemma fetch_string_clean dl str rest : Z.of_nat (length str) < 2 ^ 32 ->
  fetch_string (clean dl (string_bytes str ++ rest)) = Ok (str, clean dl rest).
Proof.
  intros Hs. pose proof (length_string_bytes str) as Hlen. pose proof (header_length (Z.of_nat (length str))) as Hh.
  pose proof (string_parts str rest (length (string_header (Z.of_nat (length str))))) as Hparts.
  assert (Z.of_nat (length (string_bytes str ++ rest))
          = Z.of_nat (length (string_bytes str)) + Z.of_nat (length rest)) as Hall by (rewrite length_app; lia).
  assert (string_bytes str ++ rest = string_header (Z.of_nat (length str)) ++ drop (length (string_header (Z.of_nat (length str)))) (string_bytes str ++ rest)) as Hsplit.
  { unfold string_bytes. by rewrite <- !app_assoc, drop_app_length. }
  set (d := string_bytes str ++ rest) in *. set (size := Z.of_nat (length str)) in *.
  assert (0 <= size) by lia. unfold string_header in Hsplit, Hparts, Hh.
  unfold fetch_string. rewrite check_len_ge by (repeat case_if_in Hlen; zlia). cbn [res_bind data].
  destruct (size <? 254) eqn:E1; [|destruct (size <? 2 ^ 24) eqn:E2]; zbool.
  - assert (byte_at d 0 = Ok size) as -> by (by rewrite Hsplit). cbn [res_bind].
    replace (size <? 254) with true by lia. rewrite !offset_ok by zlia. cbn [res_bind].
    rewrite move_clean by zlia. rewrite aligned_div, finish_clean by (rewrite length_drop; zlia).
    destruct (Hparts (4 + size / 4 * 4) eq_refl) as [H1 H2].
    rewrite drop_drop, <- Z2Nat.inj_add by zlia. rewrite H2 by zlia.
    unfold size. rewrite Nat2Z.id. cbn [length] in H1. change (Z.to_nat 1) with 1%nat. by rewrite H1.
  - assert (byte_at d 0 = Ok 254 /\ byte_at d 1 = Ok (size mod 256) /\ byte_at d 2 = Ok (size / 256 mod 256) /\
            byte_at d 3 = Ok (size / 65536)) as (-> & -> & -> & ->) by (by rewrite Hsplit). cbn [res_bind]. eval_tests.
    rewrite aligned_div, !Z.shiftl_mul_pow2 by lia.
    replace (size mod 256 + size / 256 mod 256 * 2 ^ 8 + size / 65536 * 2 ^ 16) with size by zlia.
    rewrite !offset_ok by zlia. cbn [res_bind]. rewrite move_clean by zlia.
    rewrite finish_clean by (rewrite length_drop; zlia).
    destruct (Hparts (4 + (size + 3) / 4 * 4) eq_refl) as [H1 H2].
    rewrite drop_drop, <- Z2Nat.inj_add by zlia. rewrite H2 by zlia.
    unfold size. rewrite Nat2Z.id. cbn [length] in H1. change (Z.to_nat 4) with 4%nat. by rewrite H1.
  - assert (byte_at d 0 = Ok 255 /\ byte_at d 1 = Ok (size mod 256) /\ byte_at d 2 = Ok (size / 256 mod 256) /\
            byte_at d 3 = Ok (size / 65536 mod 256) /\ byte_at d 4 = Ok (size / 16777216) /\
            byte_at d 5 = Ok 0 /\ byte_at d 6 = Ok 0 /\ byte_at d 7 = Ok 0)
      as (-> & H1 & H2 & H3 & H4 & H5 & H6 & H7) by (by rewrite Hsplit). cbn [res_bind]. eval_tests.
    unfold check_len at 1. cbn [left_len]. case_if; [zlia|]. cbn [res_bind data data_len error_pos TlCodec.error].
    rewrite H1, H2, H3, H4, H5, H6, H7. cbn [res_bind]. rewrite aligned_div, !Z.shiftl_mul_pow2 by lia.
    replace (size mod 256 + size / 256 mod 256 * 2 ^ 8 + size / 65536 mod 256 * 2 ^ 16 + size / 16777216 * 2 ^ 24 +
             0 * 2 ^ 32 + 0 * 2 ^ 40 + 0 * 2 ^ 48) with size by zlia.
    case_if; [unfold SIZE_MAX in *; lia|].
    replace (Z.of_nat (length d) - 4 - 4) with (Z.of_nat (length d) - 8) by lia.
    rewrite !offset_ok by zlia. cbn [res_bind]. rewrite move_clean by zlia.
    rewrite finish_clean by (rewrite length_drop; zlia).
    destruct (Hparts (8 + (size + 3) / 4 * 4) eq_refl) as [P1 P2].
    rewrite drop_drop, <- Z2Nat.inj_add by zlia. rewrite P2 by zlia.
    unfold size. rewrite Nat2Z.id. cbn [length] in P1. change (Z.to_nat 8) with 8%nat. by rewrite P1.
Qed.

Lemma string_bytes_bytes str : bytes str -> Z.of_nat (length str) < 2 ^ 32 -> bytes (string_bytes str).
Proof.
  intros Hb Hl. unfold string_bytes. rewrite !Forall_app. split_and!; [|done|].
  - unfold string_header. repeat case_if; repeat constructor; zlia.
  - apply Forall_replicate. unfold is_byte. lia.
Qed.

Lemma fetch_string_parses p : parser_inv p -> parses (fetch_string p).
Proof. intros Hp. destruct (fetch_string_inv p Hp) as (? & ? & -> & ? & _). by apply parses_ok. Qed.

#[export] Hint Resolve parses_ok fetch_int_parses fetch_long_parses fetch_double_parses fetch_string_parses : td.

(** ** The laws of a codec *)

Class TlCodecLaws (A : Type) `{TlCodec A} := {
  tl_wf : A -> Prop;
  tl_bytes : A -> list Z;
  tl_store_unsafe x (s : TlStorerUnsafe) : tl_wf x ->
    tl_store x s = Ok (mkTlStorerUnsafe (buf_ s ++ tl_bytes x));
  tl_store_length x (s : TlStorerCalcLength) : tl_wf x ->
    tl_store x s = Ok (mkTlStorerCalcLength (u64 (get_length s + Z.of_nat (length (tl_bytes x)))));
  tl_bytes_nonempty x : tl_wf x -> (1 <= length (tl_bytes x))%nat;
  tl_bytes_bytes x : tl_wf x -> bytes (tl_bytes x);
  tl_parse_bytes x dl rest : tl_wf x -> tl_parse (clean dl (tl_bytes x ++ rest)) = Ok (x, clean dl rest);
  tl_parse_safe p : parser_inv p -> parses (tl_parse p);
}.

#[local] Obligation Tactic := idtac.
Ltac codec_basic :=
  try solve [intros; first [reflexivity | apply le_bytes_bytes | (cbv beta; rewrite length_le_bytes; lia)]].
Ltac parse_step := apply parses_bind; [solve [auto with td] | intros; auto with td].
#[local] Arguments le_bytes : simpl never.

#[export] Hint Resolve tl_bytes_nonempty tl_bytes_bytes tl_parse_safe : td.

#[export] Program Instance TlCodecLaws_bool : TlCodecLaws bool := {|
  tl_wf _ := True; tl_bytes x := le_bytes 4 (Z.b2z x) |}.
Solve All Obligations with codec_basic.
Next Obligation. intros x dl rest _. cbv beta. cbn [tl_parse TlCodec_bool]. unfold parse_bool. rewrite fetch_int_clean. by destruct x. Qed.
Next Obligation. intros p Hp. simpl. unfold parse_bool. parse_step. Qed.

#[export] Program Instance TlCodecLaws_int32 : TlCodecLaws int32 := {|
  tl_wf x := is_s32 (int32_val x); tl_bytes x := le_bytes 4 (int32_val x) |}.
Solve All Obligations with codec_basic.
Next Obligation. intros [x] dl rest Hx. cbv beta. cbn [tl_parse TlCodec_int32]. unfold parse_int32. rewrite fetch_int_clean. cbn [res_bind]. by rewrite s32_small. Qed.
Next Obligation. intros p Hp. simpl. unfold parse_int32. parse_step. Qed.

#[export] Program Instance TlCodecLaws_uint32 : TlCodecLaws uint32 := {|
  tl_wf x := is_u32 (uint32_val x); tl_bytes x := le_bytes 4 (uint32_val x) |}.
Solve All Obligations with codec_basic.
Next Obligation. intros [x] dl rest Hx. cbv beta. cbn [tl_parse TlCodec_uint32]. unfold parse_uint32. rewrite fetch_int_clean. cbn [res_bind]. by rewrite u32_s32, u32_small. Qed.
Next Obligation. intros p Hp. simpl. unfold parse_uint32. parse_step. Qed.

#[export] Program Instance TlCodecLaws_int64 : TlCodecLaws int64 := {|
  tl_wf x := is_s64 (int64_val x); tl_bytes x := le_bytes 8 (int64_val x) |}.
Solve All Obligations with codec_basic.
Next Obligation. intros [x] dl rest Hx. cbv beta. cbn [tl_parse TlCodec_int64]. unfold parse_int64. rewrite fetch_long_clean. cbn [res_bind]. by rewrite s64_small. Qed.
Next Obligation. intros p Hp. simpl. unfold parse_int64. parse_step. Qed.

#[export] Program Instance TlCodecLaws_uint64 : TlCodecLaws uint64 := {|
  tl_wf x := is_u64 (uint64_val x); tl_bytes x := le_bytes 8 (uint64_val x) |}.
Solve All Obligations with codec_basic.
Next Obligation. intros [x] dl rest Hx. cbv beta. cbn [tl_parse TlCodec_uint64]. unfold parse_uint64. rewrite fetch_long_clean. cbn [res_bind]. by rewrite u64_s64, u64_small. Qed.
Next Obligation. intros p Hp. simpl. unfold parse_uint64. parse_step. Qed.

#[export] Program Instance TlCodecLaws_double : TlCodecLaws double := {|
  tl_wf x := is_u64 (double_bits x); tl_bytes x := le_bytes 8 (double_bits x) |}.
Solve All Obligations with codec_basic.
Next Obligation. intros [x] dl rest Hx. cbv beta. cbn [tl_parse TlCodec_double]. unfold parse_double. by rewrite fetch_double_clean. Qed.
Next Obligation. intros p Hp. simpl. unfold parse_double. parse_step. Qed.

(** A value of the enumeration that a conversion to [int32] keeps: the
    underlying type has at most 32 bits, or the value is in the range of
    [int32]. *)
Definition underlying_bits (u : underlying) : Z := match u with SignedBits b | UnsignedBits b => b end.
Definition enum_wf {u} (x : enum u) : Prop :=
  0 < underlying_bits u /\ enum_cast u (enum_val x) = enum_val x /\
  (underlying_bits u <= 32 \/ is_s32 (enum_val x)).

Lemma mod_pow_mod x c b d : 0 < b <= d -> ((x + c) mod 2 ^ d - c) mod 2 ^ b = x mod 2 ^ b.
Proof.
  intros Hb. assert (2 ^ d = 2 ^ (d - b) * 2 ^ b) as Hd by (rewrite <- Z.pow_add_r by lia; f_equal; lia).
  pose proof (Z.div_mod (x + c) (2 ^ d) ltac:(lia)) as E.
  replace ((x + c) mod 2 ^ d - c) with (x + (- ((x + c) / 2 ^ d) * 2 ^ (d - b)) * 2 ^ b) by nia.
  apply Z.mod_add. lia.
Qed.

Lemma enum_cast_s32 u (x : enum u) : enum_wf x -> enum_cast u (s32 (enum_val x)) = enum_val x.
Proof.
  intros (Hb & Hx & [Hle|Hs]); [|by rewrite s32_small]. rewrite <- Hx at 2. unfold s32, enum_cast.
  destruct u as [b|b]; simpl in *; [|by apply (mod_pow_mod _ (2 ^ 31) b 32)].
  f_equal. rewrite <- (Zplus_mod_idemp_l (_ - _)), (mod_pow_mod _ (2 ^ 31) b 32) by lia.
  by rewrite Zplus_mod_idemp_l.
Qed.

#[export] Program Instance TlCodecLaws_enum u : TlCodecLaws (enum u) := {|
  tl_wf x := enum_wf x; tl_bytes x := le_bytes 4 (s32 (enum_val x)) |}.
Solve All Obligations with codec_basic.
Next Obligation.
  intros u [x] dl rest Hx. cbv beta. cbn [tl_parse TlCodec_enum]. unfold parse_enum, parse_int32. rewrite fetch_int_clean.
  cbn [res_bind int32_val]. rewrite (s32_small (s32 _)) by (apply s32_range). by rewrite (enum_cast_s32 u (mkEnum x)).
Qed.
Next Obligation. intros u p Hp. simpl. unfold parse_enum, parse_int32. apply parses_bind; [parse_step | auto with td]. Qed.

Lemma parse_UInt_bytes n (x : UInt n) dl rest : length (raw x) = n ->
  parse_UInt (clean dl (raw x ++ rest)) = Ok (x, clean dl rest).
Proof. intros Hx. unfold parse_UInt. rewrite fetch_binary_clean by lia. by destruct x. Qed.

Lemma parse_UInt_safe n p : (0 < n <= 64)%nat -> parser_inv p -> parses (A := UInt n) (parse_UInt p).
Proof.
  intros Hn Hp. unfold parse_UInt. apply parses_bind; [apply fetch_binary_parses; (done || lia) | auto with td].
Qed.

Ltac uint_laws :=
  match goal with
  | |- parses _ => apply parse_UInt_safe; [lia | done]
  | H : _ /\ _ |- _ => destruct H; first [done | lia | by apply parse_UInt_bytes]
  end.

#[export] Program Instance TlCodecLaws_UInt256 : TlCodecLaws (UInt 32) := {|
  tl_wf x := length (raw x) = 32%nat /\ bytes (raw x); tl_bytes x := raw x |}.
Solve All Obligations with (simpl; intros; try reflexivity;
  uint_laws).

#[export] Program Instance TlCodecLaws_UInt512 : TlCodecLaws (UInt 64) := {|
  tl_wf x := length (raw x) = 64%nat /\ bytes (raw x); tl_bytes x := raw x |}.
Solve All Obligations with (simpl; intros; try reflexivity;
  uint_laws).

#[export] Program Instance TlCodecLaws_string : TlCodecLaws tl_string := {|
  tl_wf x := bytes (str_val x) /\ Z.of_nat (length (str_val x)) < 2 ^ 32; tl_bytes x := string_bytes (str_val x) |}.
Next Obligation. intros x s [_ Hl]. by apply store_string_bytes. Qed.
Next Obligation. intros x s [_ Hl]. apply store_string_length. Qed.
Next Obligation. intros x [_ Hl]. unfold string_bytes. rewrite length_app, header_length. repeat case_if; lia. Qed.
Next Obligation. intros x [Hb Hl]. by apply string_bytes_bytes. Qed.
Next Obligation. intros [x] dl rest [_ Hl]. cbv beta. cbn [tl_parse TlCodec_string]. unfold parse_str. by rewrite fetch_string_clean. Qed.
Next Obligation. intros p Hp. simpl. unfold parse_str. parse_step. Qed.

Section CompoundLaws.
Context {A B : Type} `{TlCodecLaws A} `{TlCodecLaws B}.

Definition each_bytes (vec : list A) : list Z := flat_map tl_bytes vec.

Lemma store_each_unsafe vec s : Forall tl_wf vec ->
  store_each vec s = Ok (mkTlStorerUnsafe (buf_ s ++ each_bytes vec)).
Proof.
  intros Hv. revert s. induction Hv as [|x vec Hx Hv IH]; intros s; simpl.
  - rewrite app_nil_r. by destruct s.
  - rewrite tl_store_unsafe by done. simpl. rewrite IH. simpl. by rewrite <- app_assoc.
Qed.

Lemma store_each_length vec s : Forall tl_wf vec -> is_u64 (get_length s) ->
  store_each vec s = Ok (mkTlStorerCalcLength (u64 (get_length s + Z.of_nat (length (each_bytes vec))))).
Proof.
  intros Hv. revert s. induction Hv as [|x vec Hx Hv IH]; intros s Hs; simpl.
  - rewrite Z.add_0_r, u64_small by done. by destruct s.
  - rewrite tl_store_length by done. simpl. rewrite IH by (apply Z.mod_pos_bound; lia). simpl.
    unfold u64. rewrite Zplus_mod_idemp_l, length_app. do 3 f_equal. lia.
Qed.

Lemma each_bytes_length vec : Forall tl_wf vec -> (length vec <= length (each_bytes vec))%nat.
Proof.
  induction 1 as [|x vec Hx Hv IH]; simpl; [lia|]. rewrite length_app.
  pose proof (tl_bytes_nonempty x Hx). lia.
Qed.

Lemma parse_each_bytes vec dl rest : Forall tl_wf vec ->
  parse_each (length vec) (clean dl (each_bytes vec ++ rest)) = Ok (vec, clean dl rest).
Proof.
  induction 1 as [|x vec Hx Hv IH]; simpl; [done|].
  rewrite <- app_assoc, tl_parse_bytes by done. simpl. by rewrite IH.
Qed.

Lemma parse_each_safe n p : parser_inv p -> parses (A := list A) (parse_each n p).
Proof.
  revert p. induction n as [|n IH]; intros p Hp; simpl; [auto with td|].
  apply parses_bind; [auto with td|]. intros x p1 Hp1. apply parses_bind; auto with td.
Qed.

#[export] Program Instance TlCodecLaws_vector : TlCodecLaws (list A) := {|
  tl_wf vec := Forall tl_wf vec /\ Z.of_nat (length vec) < 2 ^ 31;
  tl_bytes vec := le_bytes 4 (Z.of_nat (length vec)) ++ each_bytes vec |}.
Next Obligation.
  intros vec s [Hv Hn]. cbn [tl_store TlCodec_vector]. unfold store_vector. case_if; [|lia].
  cbn [store_binary Storer_TlStorerUnsafe]. cbn [TlStorerUnsafe_store_binary res_bind].
  rewrite store_each_unsafe by done. cbn [buf_]. by rewrite <- app_assoc.
Qed.
Next Obligation.
  intros vec s [Hv Hn]. cbn [tl_store TlCodec_vector]. unfold store_vector. case_if; [|lia].
  cbn [store_binary Storer_TlStorerCalcLength]. cbn [TlStorerCalcLength_store_binary res_bind].
  rewrite store_each_length by (done || apply Z.mod_pos_bound; lia). cbn [get_length]. unfold u64.
  rewrite Zplus_mod_idemp_l, length_app. do 3 f_equal. lia.
Qed.
Next Obligation. intros vec [Hv Hn]. rewrite length_app, length_le_bytes. lia. Qed.
Next Obligation.
  intros vec [Hv Hn]. apply Forall_app. split; [auto with td|]. unfold each_bytes. clear Hn.
  induction Hv; simpl; [constructor|]. apply Forall_app. auto with td.
Qed.
Next Obligation.
  intros vec dl rest [Hv Hn]. cbn [tl_parse TlCodec_vector]. unfold parse_vector.
  rewrite <- app_assoc, fetch_int_clean. cbn [res_bind].
  rewrite u32_s32, u32_small by (unfold is_u32; lia). cbn [left_len clean].
  pose proof (each_bytes_length vec Hv). rewrite length_app. case_if; [lia|].
  rewrite Nat2Z.id. by apply parse_each_bytes.
Qed.
Next Obligation.
  intros p Hp. cbn [tl_parse TlCodec_vector]. unfold parse_vector. apply parses_bind; [auto with td|].
  intros n p1 Hp1. case_if; [by apply parses_set_error | by apply parse_each_safe].
Qed.

#[export] Program Instance TlCodecLaws_pair : TlCodecLaws (A * B) := {|
  tl_wf xy := tl_wf (fst xy) /\ tl_wf (snd xy);
  tl_bytes xy := tl_bytes (fst xy) ++ tl_bytes (snd xy) |}.
Next Obligation.
  intros [x y] s [Hx Hy]. simpl. unfold store_pair. simpl. rewrite tl_store_unsafe by done. simpl.
  rewrite tl_store_unsafe by done. simpl. by rewrite <- app_assoc.
Qed.
Next Obligation.
  intros [x y] s [Hx Hy]. simpl. unfold store_pair. simpl. rewrite tl_store_length by done. simpl.
  rewrite tl_store_length by done. simpl. unfold u64. rewrite Zplus_mod_idemp_l, length_app. do 3 f_equal. lia.
Qed.
Next Obligation. intros [x y] [Hx Hy]. simpl. rewrite length_app. pose proof (tl_bytes_nonempty x Hx). lia. Qed.
Next Obligation. intros [x y] [Hx Hy]. simpl. apply Forall_app. auto with td. Qed.
Next Obligation.
  intros [x y] dl rest [Hx Hy]. simpl. unfold parse_pair.
  rewrite <- app_assoc, tl_parse_bytes by done. simpl. by rewrite tl_parse_bytes.
Qed.
Next Obligation.
  intros p Hp. simpl. unfold parse_pair. apply parses_bind; [auto with td|]. intros x p1 Hp1. parse_step.
Qed.

Lemma serialize_bytes (x : A) : tl_wf x -> Z.of_nat (length (tl_bytes x)) < 2 ^ 64 ->
  serialize x = Ok (tl_bytes x).
Proof.
  intros Hx Hl. unfold serialize. rewrite tl_store_length by done. simpl.
  rewrite tl_store_unsafe by done. simpl. rewrite u64_small by (unfold is_u64; lia). case_if; [done | lia].
Qed.

Lemma unserialize_bytes (x : A) : tl_wf x -> unserialize (tl_bytes x) = Ok x.
Proof.
  intros Hx. unfold unserialize. change (TlParser_new (tl_bytes x)) with (clean (Z.of_nat (length (tl_bytes x))) (tl_bytes x)).
  pose proof (tl_parse_bytes x (Z.of_nat (length (tl_bytes x))) [] Hx) as E. rewrite app_nil_r in E.
  rewrite E. done.
Qed.

Lemma new_inv slice : bytes slice -> Z.of_nat (length slice) < SIZE_MAX -> parser_inv (TlParser_new slice).
Proof. intros. by apply (inv_clean (Z.of_nat (length slice)) slice). Qed.

Lemma fetch_end_inv p : parser_inv p -> exists p', fetch_end p = Ok p' /\ parser_inv p'.
Proof.
  intros Hp. unfold fetch_end. case_if; [|eauto].
  destruct (set_error_inv "Too much data to fetch" p) as (p' & -> & pos & msg & ? & ? & ->); [done..|].
  eexists. split; [done|]. constructor; [exact (empty_data_bytes 0) | done | done].
Qed.

Lemma unserialize_safe slice why : bytes slice -> Z.of_nat (length slice) < SIZE_MAX ->
  unserialize (A := A) slice = Panic why -> why = EMPTY_KEY.
Proof.
  intros Hb Hl. unfold unserialize. destruct (tl_parse_safe (A := A) _ (new_inv slice Hb Hl)) as [(x & p1 & -> & Hp1)| ->];
    simpl; [|congruence].
  destruct (fetch_end_inv p1 Hp1) as (p2 & -> & Hp2). simpl. unfold get_status. by case_if.
Qed.
End CompoundLaws.

(** ** Pointers, sets and variants *)

Section PointerLaws.
Context {A : Type} `{TlCodecLaws A}.

Definition unique_ptr_wf (ptr : unique_ptr A) : Prop := match ptr with nullptr => False | make_unique x => tl_wf x end.
Definition unique_ptr_bytes (ptr : unique_ptr A) : list Z := match ptr with nullptr => [] | make_unique x => tl_bytes x end.
Definition unique_value_ptr_wf (ptr : unique_value_ptr A) : Prop :=
  match ptr with null_value => False | make_unique_value x => tl_wf x end.
Definition unique_value_ptr_bytes (ptr : unique_value_ptr A) : list Z :=
  match ptr with null_value => [] | make_unique_value x => tl_bytes x end.

Ltac pointer_laws :=
  match goal with
  | |- parses _ => simpl; unfold parse_unique_ptr, parse_unique_value_ptr; parse_step
  | x : unique_ptr A |- _ => destruct x; [done|]; simpl; auto with td
  | x : unique_value_ptr A |- _ => destruct x; [done|]; simpl; auto with td
  end.

#[export] Program Instance TlCodecLaws_unique_ptr : TlCodecLaws (unique_ptr A) := {|
  tl_wf := unique_ptr_wf; tl_bytes := unique_ptr_bytes |}.
Next Obligation. intros x s Hx. pointer_laws. by apply tl_store_unsafe. Qed.
Next Obligation. intros x s Hx. pointer_laws. by apply tl_store_length. Qed.
Next Obligation. intros x Hx. pointer_laws. Qed.
Next Obligation. intros x Hx. pointer_laws. Qed.
Next Obligation. intros x dl rest Hx. pointer_laws. by rewrite tl_parse_bytes. Qed.
Next Obligation. intros p Hp. pointer_laws. Qed.

#[export] Program Instance TlCodecLaws_unique_value_ptr : TlCodecLaws (unique_value_ptr A) := {|
  tl_wf := unique_value_ptr_wf; tl_bytes := unique_value_ptr_bytes |}.
Next Obligation. intros x s Hx. pointer_laws. by apply tl_store_unsafe. Qed.
Next Obligation. intros x s Hx. pointer_laws. by apply tl_store_length. Qed.
Next Obligation. intros x Hx. pointer_laws. Qed.
Next Obligation. intros x Hx. pointer_laws. Qed.
Next Obligation. intros x dl rest Hx. pointer_laws. by rewrite tl_parse_bytes. Qed.
Next Obligation. intros p Hp. pointer_laws. Qed.
End PointerLaws.

(** A table whose nodes have at most 32 bytes, as those of the keys below, has
    room for this many elements: see [room] of [FlatHashTable.v]. *)
Definition SET_ROOM : Z := (0x7FFFFFFF / 32 - 8) / 4.

Section SetLaws.
Context {K : Type} `{Countable K} `{TC : !TlCodec K} `{!TlCodecLaws K} `{!DefaultKey K} `{!SetIteration}.

Definition set_wf (s : gset K) : Prop :=
  Forall tl_wf (elements s) /\ (default_key ∉ s) /\ Z.of_nat (length (elements s)) <= SET_ROOM.

Lemma set_wf_iteration s : set_wf s ->
  Forall tl_wf (iteration s) /\ Forall (fun key => key <> default_key) (iteration s) /\
  0 <= Z.of_nat (length (iteration s)) < 2 ^ 31.
Proof.
  intros (Hwf & Hd & Hn). pose proof (iteration_elements s) as Hp. split_and!; [by rewrite Hp | | lia |].
  - apply Forall_forall. intros key Hk ->. apply Hd, elem_of_elements. by rewrite <- Hp.
  - rewrite (Permutation_length Hp). unfold SET_ROOM in Hn.
    change ((0x7FFFFFFF / 32 - 8) / 4) with 16777213 in Hn. change (2 ^ 31) with 2147483648. lia.
Qed.

Lemma list_to_set_iteration (s : gset K) : list_to_set (iteration s) = s.
Proof. apply set_eq. intros x. rewrite elem_of_list_to_set, (iteration_elements s). apply elem_of_elements. Qed.

Lemma parse_keys_bytes keys : Forall tl_wf keys -> Forall (fun key => key <> default_key) keys ->
  forall dl rest s n,
  parse_keys (length keys + n) s (clean dl (each_bytes keys ++ rest)) = parse_keys n (list_to_set keys ∪ s) (clean dl rest).
Proof.
  intros Hwf Hd. induction Hwf as [|key keys Hk Hwf IH]; intros dl rest s n; simpl; [by rewrite (left_id_L ∅ (∪))|].
  apply Forall_cons in Hd as [Hne Hd]. rewrite <- app_assoc, tl_parse_bytes by done. cbn [res_bind].
  unfold set_insert. rewrite bool_decide_eq_false_2 by done. cbn [negb res_bind]. rewrite IH by done.
  by rewrite (assoc_L (∪)), (comm_L (∪) (list_to_set keys)).
Qed.

Lemma parse_keys_safe n s p : parser_inv p -> parses (parse_keys n s p).
Proof.
  revert s p. induction n as [|n IH]; intros s p Hp; simpl; [auto with td|]. apply parses_bind; [auto with td|].
  intros key p1 Hp1. unfold set_insert. case_if; [by apply IH | by right].
Qed.

(** The first bytes of [parse_set]: the number of keys. *)
Lemma parse_set_size n keys dl : Z.of_nat n <= Z.of_nat (length (each_bytes keys)) -> Z.of_nat n < 2 ^ 31 ->
  forall rest, parse_set (clean dl (le_bytes 4 (Z.of_nat n) ++ each_bytes keys ++ rest)) =
    parse_keys n ∅ (clean dl (each_bytes keys ++ rest)).
Proof.
  intros Hn Hlt rest. unfold parse_set. rewrite fetch_int_clean. cbn [res_bind].
  rewrite u32_s32, u32_small by (unfold is_u32; lia). cbn [left_len clean]. rewrite length_app.
  case_if; [lia|]. by rewrite Nat2Z.id.
Qed.

#[export] Program Instance TlCodecLaws_set : TlCodecLaws (gset K) := {|
  tl_wf := set_wf; tl_bytes s := le_bytes 4 (Z.of_nat (length (iteration s))) ++ each_bytes (iteration s) |}.
Next Obligation.
  intros x s (Hwf & _ & Hn)%set_wf_iteration.
  exact (tl_store_unsafe (iteration x) s (conj Hwf (proj2 Hn))).
Qed.
Next Obligation.
  intros x s (Hwf & _ & Hn)%set_wf_iteration.
  exact (tl_store_length (iteration x) s (conj Hwf (proj2 Hn))).
Qed.
Next Obligation. intros x _. cbv beta. rewrite length_app, length_le_bytes. lia. Qed.
Next Obligation. intros x (Hwf & _ & Hn)%set_wf_iteration. exact (tl_bytes_bytes (iteration x) (conj Hwf (proj2 Hn))). Qed.
Next Obligation.
  intros x dl rest (Hwf & Hd & Hn)%set_wf_iteration. cbv beta. cbn [tl_parse TlCodec_set]. rewrite <- app_assoc.
  pose proof (each_bytes_length _ Hwf). rewrite parse_set_size by lia.
  rewrite <- (Nat.add_0_r (length _)), parse_keys_bytes by done. simpl.
  by rewrite list_to_set_iteration, (right_id_L ∅ (∪)).
Qed.
Next Obligation.
  intros p Hp. cbn [tl_parse TlCodec_set]. unfold parse_set. apply parses_bind; [auto with td|].
  intros n p1 Hp1. case_if; [by apply parses_set_error | by apply parse_keys_safe].
Qed.
End SetLaws.

(** What the alternatives of a variant promise. *)
Class TlAlternativesLaws (A : Type) `{TlAlternatives A} := {
  alternative_wf : A -> Prop;
  alternative_bytes : A -> list Z;
  sizeof_types_range : 0 <= sizeof_types (A := A);
  alternative_offset_range x : 0 <= alternative_offset x < sizeof_types (A := A);
  visit_store_unsafe x (s : TlStorerUnsafe) : alternative_wf x ->
    visit_store x s = Ok (mkTlStorerUnsafe (buf_ s ++ alternative_bytes x));
  visit_store_length x (s : TlStorerCalcLength) : alternative_wf x ->
    visit_store x s = Ok (mkTlStorerCalcLength (u64 (get_length s + Z.of_nat (length (alternative_bytes x)))));
  alternative_bytes_bytes x : alternative_wf x -> bytes (alternative_bytes x);
  for_each_parse_other offset type_offset p : type_offset < offset -> for_each_parse offset type_offset p = Ok (None, p);
  for_each_parse_bytes x offset dl rest : alternative_wf x ->
    for_each_parse offset (offset + alternative_offset x) (clean dl (alternative_bytes x ++ rest)) = Ok (Some x, clean dl rest);
  for_each_parse_safe offset type_offset p : parser_inv p -> parses (for_each_parse offset type_offset p);
}.

#[export] Hint Resolve alternative_bytes_bytes for_each_parse_safe : td.

#[export] Program Instance TlAlternativesLaws_nil : TlAlternativesLaws Empty_set := {|
  alternative_wf _ := False; alternative_bytes _ := [] |}.
Solve All Obligations with (simpl; intros; first [done | by apply parses_ok]).

Section AlternativeLaws.
Context {A B : Type} `{TlCodecLaws A} `{TlAlternativesLaws B}.

#[export] Program Instance TlAlternativesLaws_cons : TlAlternativesLaws (A + B) := {|
  alternative_wf x := match x with inl x => tl_wf x | inr y => alternative_wf y end;
  alternative_bytes x := match x with inl x => tl_bytes x | inr y => alternative_bytes y end |}.
Next Obligation. simpl. pose proof (sizeof_types_range (A := B)). lia. Qed.
Next Obligation.
  intros [x|y]; simpl; [|pose proof (alternative_offset_range y); lia].
  pose proof (sizeof_types_range (A := B)). lia.
Qed.
Next Obligation. intros [x|y] s Hx; simpl; [by apply tl_store_unsafe | by apply visit_store_unsafe]. Qed.
Next Obligation. intros [x|y] s Hx; simpl; [by apply tl_store_length | by apply visit_store_length]. Qed.
Next Obligation. intros [x|y] Hx; simpl in *; auto with td. Qed.
Next Obligation.
  intros offset t p Ht. simpl. unfold for_each_parse_cons. case_if; [lia|]. simpl. by rewrite for_each_parse_other by lia.
Qed.
Next Obligation.
  intros [x|y] offset dl rest Hx; simpl; unfold for_each_parse_cons.
  - case_if; [|lia]. rewrite tl_parse_bytes by done. simpl. by rewrite for_each_parse_other by lia.
  - pose proof (alternative_offset_range y). case_if; [lia|]. simpl.
    rewrite Z.add_assoc, for_each_parse_bytes by done. done.
Qed.
Next Obligation.
  intros offset t p Hp. simpl. unfold for_each_parse_cons. apply parses_bind; [case_if; [parse_step | auto with td]|].
  intros x p1 Hp1. parse_step.
Qed.
End AlternativeLaws.

Section VariantLaws.
Context {A : Type} `{TlAlternativesLaws A}.

Definition variant_wf (v : Variant A) : Prop :=
  match variant_value v with None => False | Some x => alternative_wf x /\ sizeof_types (A := A) < 2 ^ 31 end.
Definition variant_bytes (v : Variant A) : list Z :=
  match variant_value v with None => [] | Some x => le_bytes 4 (alternative_offset x) ++ alternative_bytes x end.

#[export] Program Instance TlCodecLaws_variant : TlCodecLaws (Variant A) := {|
  tl_wf := variant_wf; tl_bytes := variant_bytes |}.
Next Obligation.
  intros [[x|]] s Hx; [|done]. destruct Hx as [Hx _]. cbn [tl_store TlCodec_variant]. unfold store_variant. simpl.
  rewrite visit_store_unsafe by done. simpl. by rewrite <- app_assoc.
Qed.
Next Obligation.
  intros [[x|]] s Hx; [|done]. destruct Hx as [Hx _]. cbn [tl_store TlCodec_variant]. unfold store_variant. simpl.
  rewrite visit_store_length by done. cbn [get_length variant_bytes variant_value]. unfold u64.
  rewrite Zplus_mod_idemp_l. do 3 f_equal. lia.
Qed.
Next Obligation. intros [[x|]] Hx; [|done]. unfold variant_bytes. simpl. lia. Qed.
Next Obligation.
  intros [[x|]] Hx; [|done]. destruct Hx as [Hx _]. unfold variant_bytes. apply Forall_app. auto with td.
Qed.
Next Obligation.
  intros [[x|]] dl rest Hx; [|done]. destruct Hx as [Hx Hn]. cbn [tl_parse TlCodec_variant]. unfold parse_variant.
  cbn [variant_bytes variant_value]. rewrite <- app_assoc, fetch_int_clean. cbn [res_bind].
  pose proof (alternative_offset_range x). rewrite s32_small by (unfold is_s32; lia). case_if; [lia|].
  pose proof (for_each_parse_bytes x 0 dl rest Hx) as E. rewrite Z.add_0_l in E. by rewrite E.
Qed.
Next Obligation.
  intros p Hp. cbn [tl_parse TlCodec_variant]. unfold parse_variant. apply parses_bind; [auto with td|].
  intros n p1 Hp1. case_if; [by apply parses_set_error | parse_step].
Qed.
End VariantLaws.

(** ** The types that have [store] and [parse] overloads *)

(** The keys of sets: the types with a specialization of [Hash] in
    HashTableUtils.h. *)
Inductive tl_key := KInt32 | KUInt32 | KInt64 | KUInt64 | KString.

Definition denote_key (k : tl_key) : Type :=
  match k with KInt32 => int32 | KUInt32 => uint32 | KInt64 => int64 | KUInt64 => uint64 | KString => tl_string end.

#[export] Instance key_eq k : EqDecision (denote_key k).
Proof. destruct k; apply _. Defined.
#[export] Instance key_countable k : Countable (denote_key k) :=
  match k with
  | KInt32 => int32_countable | KUInt32 => uint32_countable | KInt64 => int64_countable
  | KUInt64 => uint64_countable | KString => tl_string_countable
  end.
#[export] Instance key_codec k : TlCodec (denote_key k) :=
  match k with
  | KInt32 => TlCodec_int32 | KUInt32 => TlCodec_uint32 | KInt64 => TlCodec_int64
  | KUInt64 => TlCodec_uint64 | KString => TlCodec_string
  end.
#[export] Instance key_laws k : TlCodecLaws (denote_key k) :=
  match k with
  | KInt32 => TlCodecLaws_int32 | KUInt32 => TlCodecLaws_uint32 | KInt64 => TlCodecLaws_int64
  | KUInt64 => TlCodecLaws_uint64 | KString => TlCodecLaws_string
  end.
#[export] Instance key_default k : DefaultKey (denote_key k) :=
  match k with
  | KInt32 => DefaultKey_int32 | KUInt32 => DefaultKey_uint32 | KInt64 => DefaultKey_int64
  | KUInt64 => DefaultKey_uint64 | KString => DefaultKey_string
  end.

(** A read past the end of the data gives the empty key. *)
Lemma key_parse_end k dl : exists p, tl_parse (A := denote_key k) (clean dl []) = Ok (default_key, p).
Proof. destruct k; eexists; reflexivity. Qed.

Inductive tl_type :=
| TBool | TInt32 | TUInt32 | TInt64 | TUInt64 | TUInt256 | TUInt512 | TDouble | TString
| TEnum (u : underlying)
| TVector (t : tl_type) | TPair (t1 t2 : tl_type)
| TUniquePtr (t : tl_type) | TUniqueValuePtr (t : tl_type)
| TSet (k : tl_key)
| TVariant (ts : tl_types)
with tl_types := TNil | TCons (t : tl_type) (ts : tl_types).

Fixpoint denote (t : tl_type) : Type :=
  match t with
  | TBool => bool | TInt32 => int32 | TUInt32 => uint32 | TInt64 => int64 | TUInt64 => uint64
  | TUInt256 => UInt 32 | TUInt512 => UInt 64 | TDouble => double | TString => tl_string
  | TEnum u => enum u
  | TVector t => list (denote t)
  | TPair t1 t2 => denote t1 * denote t2
  | TUniquePtr t => unique_ptr (denote t)
  | TUniqueValuePtr t => unique_value_ptr (denote t)
  | TSet k => gset (denote_key k)
  | TVariant ts => Variant (denote_types ts)
  end
with denote_types (ts : tl_types) : Type :=
  match ts with TNil => Empty_set | TCons t ts => denote t + denote_types ts end.

Section Types.
Context `{!SetIteration}.

Fixpoint codec_of (t : tl_type) : TlCodec (denote t) :=
  match t with
  | TBool => TlCodec_bool | TInt32 => TlCodec_int32 | TUInt32 => TlCodec_uint32
  | TInt64 => TlCodec_int64 | TUInt64 => TlCodec_uint64
  | TUInt256 => TlCodec_UInt256 | TUInt512 => TlCodec_UInt512 | TDouble => TlCodec_double | TString => TlCodec_string
  | TEnum u => TlCodec_enum u
  | TVector t => @TlCodec_vector _ (codec_of t)
  | TPair t1 t2 => @TlCodec_pair _ _ (codec_of t1) (codec_of t2)
  | TUniquePtr t => @TlCodec_unique_ptr _ (codec_of t)
  | TUniqueValuePtr t => @TlCodec_unique_value_ptr _ (codec_of t)
  | TSet k => TlCodec_set (K := denote_key k)
  | TVariant ts => @TlCodec_variant _ (alternatives_of ts)
  end
with alternatives_of (ts : tl_types) : TlAlternatives (denote_types ts) :=
  match ts with
  | TNil => TlAlternatives_nil
  | TCons t ts => @TlAlternatives_cons _ _ (codec_of t) (alternatives_of ts)
  end.
#[export] Existing Instance codec_of.
#[export] Existing Instance alternatives_of.

Fixpoint laws_of (t : tl_type) : TlCodecLaws (denote t) :=
  match t with
  | TBool => TlCodecLaws_bool | TInt32 => TlCodecLaws_int32 | TUInt32 => TlCodecLaws_uint32
  | TInt64 => TlCodecLaws_int64 | TUInt64 => TlCodecLaws_uint64
  | TUInt256 => TlCodecLaws_UInt256 | TUInt512 => TlCodecLaws_UInt512 | TDouble => TlCodecLaws_double
  | TString => TlCodecLaws_string
  | TEnum u => TlCodecLaws_enum u
  | TVector t => @TlCodecLaws_vector _ _ (laws_of t)
  | TPair t1 t2 => @TlCodecLaws_pair _ _ _ (laws_of t1) _ (laws_of t2)
  | TUniquePtr t => @TlCodecLaws_unique_ptr _ _ (laws_of t)
  | TUniqueValuePtr t => @TlCodecLaws_unique_value_ptr _ _ (laws_of t)
  | TSet k => TlCodecLaws_set (K := denote_key k)
  | TVariant ts => @TlCodecLaws_variant _ _ (alternatives_laws_of ts)
  end
with alternatives_laws_of (ts : tl_types) : TlAlternativesLaws (denote_types ts) :=
  match ts with
  | TNil => TlAlternativesLaws_nil
  | TCons t ts => @TlAlternativesLaws_cons _ _ _ (laws_of t) _ (alternatives_laws_of ts)
  end.
#[export] Existing Instance laws_of.

(** The types of a [Variant] are different. *)
Fixpoint types_list (ts : tl_types) : list tl_type :=
  match ts with TNil => [] | TCons t ts => t :: types_list ts end.

Fixpoint distinct (t : tl_type) : Prop :=
  match t with
  | TVector t | TUniquePtr t | TUniqueValuePtr t => distinct t
  | TPair t1 t2 => distinct t1 /\ distinct t2
  | TVariant ts => NoDup (types_list ts) /\ all_distinct ts
  | _ => True
  end
with all_distinct (ts : tl_types) : Prop :=
  match ts with TNil => True | TCons t ts => distinct t /\ all_distinct ts end.

(** The data of a set end before its last key. *)
Lemma parse_set_truncated k (n : nat) (keys : list (denote_key k)) :
  Forall tl_wf keys -> Forall (fun key => key <> default_key) keys ->
  (length keys < n <= length (each_bytes keys))%nat -> Z.of_nat n < 2 ^ 31 ->
  unserialize (A := denote (TSet k)) (le_bytes 4 (Z.of_nat n) ++ each_bytes keys) = Panic EMPTY_KEY.
Proof.
  intros Hwf Hd Hn Hlt. unfold unserialize.
  change (TlParser_new ?d) with (clean (Z.of_nat (length d)) d). set (dl := Z.of_nat (length _)).
  change (tl_parse ?p) with (parse_set (K := denote_key k) p). rewrite <- (app_nil_r (each_bytes keys)).
  rewrite parse_set_size by lia. replace n with (length keys + S (n - S (length keys)))%nat by lia.
  rewrite parse_keys_bytes by done. simpl parse_keys. destruct (key_parse_end k dl) as (p & ->). cbn [res_bind].
  unfold set_insert. by rewrite bool_decide_eq_true_2.
Qed.
End Types.

(** ** Sequences of reads *)

Inductive parser_op :=
| OpInt | OpLong | OpBinary (size : Z) | OpString | OpStringRaw (size : Z) | OpBufferString | OpEnd.

Definition run_op (op : parser_op) (p : TlParser) : Res TlParser :=
  match op with
  | OpInt => let* (_, p) := fetch_int p in Ok p
  | OpLong => let* (_, p) := fetch_long p in Ok p
  | OpBinary size => let* (_, p) := fetch_binary size p in Ok p
  | OpString => let* (_, p) := fetch_string p in Ok p
  | OpStringRaw size => let* (_, p) := fetch_string_raw size p in Ok p
  | OpBufferString => let* (_, p) := TlBufferParser_fetch_string p in Ok p
  | OpEnd => fetch_end p
  end.

Fixpoint run_ops (ops : list parser_op) (p : TlParser) : Res TlParser :=
  match ops with
  | [] => Ok p
  | op :: ops => let* p := run_op op p in run_ops ops p
  end.

(** Template arguments and sizes that the source allows. *)
Definition op_ok (op : parser_op) : Prop :=
  match op with
  | OpBinary size => 0 < size <= 64
  | OpStringRaw size => 0 <= size
  | _ => True
  end.

Lemma fetch_string_raw_inv n p : 0 <= n -> parser_inv p ->
  exists x p', fetch_string_raw n p = Ok (x, p') /\ parser_inv p'.
Proof.
  intros Hn Hp. unfold fetch_string_raw. destruct (decide (n = 0)) as [->|Hz].
  - unfold check_len. destruct Hp as [dl d Hd Hl|d pos msg Hd Hm Hpos]; cbn [left_len clean].
    + case_if; [lia|]. cbn [res_bind data data_len left_len error_pos error_empty TlCodec.error].
      simpl negb. cbv iota. rewrite offset_ok, read_ok by lia. cbn [res_bind]. eexists _, _. split; [done|].
      unfold with_data. simpl. rewrite Z.sub_0_r. by apply inv_clean.
    + eval_tests. cbn [res_bind]. unfold error_empty. simpl. rewrite nonempty_eqb by done. simpl.
      eexists _, _. split; [done|]. by constructor.
  - destruct (check_len_cases n p) as [(dl & d & -> & Hl & Hd & Hdl & ->)|(p' & -> & Hf)]; [lia | done | |];
      cbn [res_bind].
    + change (error_empty _) with true. simpl negb. cbv iota. cbn [data]. rewrite offset_ok, read_ok by lia.
      cbn [res_bind]. eexists _, _. split; [done|]. destruct (clean_after dl d n Hp ltac:(lia)) as [-> ?]. done.
    + destruct Hf as (pos & msg & Hm & Hpos & ->). unfold error_empty. simpl. rewrite nonempty_eqb by done. simpl.
      eexists _, _. split; [done|]. constructor; [exact (empty_data_bytes 0) | done | done].
Qed.

(** The clean-up of [TlBufferParser::fetch_string], on the string alone. *)
Definition no_nul (s : list Z) : Prop := Forall (fun c => c <> 0) s.

Lemma valid_nil : valid_utf8 [].
Proof. by exists []. Qed.

Lemma buffer_cleanup x (p : TlParser) : bytes x ->
  exists s, (let result := map (fun c => if c =? 0 then 32 else c) x in
    let* ok := is_valid_utf8 result in
    if (ok : bool) then Ok (result, p)
    else
      let* pos := last_utf8_character_position result in
      let result := take pos result in
      let* ok := is_valid_utf8 result in
      if (ok : bool) then Ok (result, p) else Ok ([], p)) = Ok (s, p) /\
    valid_utf8 s /\ no_nul s /\ (valid_utf8 x -> no_nul x -> s = x).
Proof.
  intros Hx. cbv zeta. set (result := map _ x).
  assert (bytes result /\ no_nul result) as [Hr Hn].
  { unfold result, no_nul. clear result. induction Hx as [|c x Hc Hx [IH1 IH2]]; simpl; [done|].
    split; constructor; try done; case_if; (done || unfold is_byte; lia). }
  assert (no_nul x -> result = x) as Hid.
  { intros Hnx. unfold result. clear - Hnx. induction Hnx as [|c x Hc Hx IH]; simpl; [done|].
    case_if; [lia | by f_equal]. }
  assert (forall k, bytes (take k result) /\ no_nul (take k result)) as Ht by (split; by apply Forall_take).
  clearbody result. unfold is_valid_utf8.
  destruct (check_utf8_cases result Hr) as [[E Hv]|[E Hv]]; rewrite E; cbn [res_bind].
  - unfold last_utf8_character_position. rewrite bool_decide_eq_false_2 by (intros ->; by apply Hv, valid_nil).
    simpl negb. cbv iota. cbn [res_bind]. destruct (Ht (last_position_loop (length result - 1) result)) as [Hb' Hn'].
    destruct (check_utf8_cases _ Hb') as [[E' Hv']|[E' Hv']]; rewrite E'; cbn [res_bind];
      (eexists; split; [reflexivity|]); split_and!; auto using valid_nil.
    all: try (by constructor). all: intros Hvx Hnx; rewrite Hid in Hv by done; done.
  - eexists. split; [reflexivity|]. split_and!; auto.
Qed.

Lemma TlBufferParser_fetch_string_inv p : parser_inv p ->
  exists x s p', fetch_string p = Ok (x, p') /\ TlBufferParser_fetch_string p = Ok (s, p') /\
    parser_inv p' /\ bytes x /\ valid_utf8 s /\ no_nul s /\ (valid_utf8 x -> no_nul x -> s = x).
Proof.
  intros Hp. destruct (fetch_string_inv p Hp) as (x & p' & E & Hp' & Hx).
  destruct (buffer_cleanup x p' Hx) as (s & Es & Hv & Hn & Hid).
  exists x, s, p'. unfold TlBufferParser_fetch_string. rewrite E. cbn [res_bind]. by split_and!.
Qed.

Lemma run_op_inv op p : op_ok op -> parser_inv p -> exists p', run_op op p = Ok p' /\ parser_inv p'.
Proof.
  intros Hop Hp. destruct op; simpl in *.
  - destruct (fetch_int_inv p Hp) as (? & ? & -> & ?). simpl. eauto.
  - destruct (fetch_long_inv p Hp) as (? & ? & -> & ?). simpl. eauto.
  - destruct (fetch_binary_inv size p Hop Hp) as (? & ? & -> & ? & _). simpl. eauto.
  - destruct (fetch_string_inv p Hp) as (? & ? & -> & ? & _). simpl. eauto.
  - destruct (fetch_string_raw_inv size p Hop Hp) as (? & ? & -> & ?). simpl. eauto.
  - destruct (TlBufferParser_fetch_string_inv p Hp) as (? & ? & ? & _ & -> & ? & _). simpl. eauto.
  - by apply fetch_end_inv.
Qed.

Lemma run_ops_inv ops p : Forall op_ok ops -> parser_inv p -> exists p', run_ops ops p = Ok p' /\ parser_inv p'.
Proof.
  intros Hops. revert p. induction Hops as [|op ops Hop Hops IH]; intros p Hp; simpl; [eauto|].
  destruct (run_op_inv op p Hop Hp) as (p1 & -> & Hp1). simpl. by apply IH.
Qed.

Lemma run_ops_app ops1 ops2 p : run_ops (ops1 ++ ops2) p = let* p := run_ops ops1 p in run_ops ops2 p.
Proof.
  revert p. induction ops1 as [|op ops1 IH]; intros p; simpl; [done|].
  destruct (run_op op p); simpl; [apply IH | done..].
Qed.

(** Errors are sticky. *)
Definition same_error (p p' : TlParser) : Prop := error p' = error p /\ error_pos p' = error_pos p.

Lemma check_len_sticky n p p' : error_empty p = false -> check_len n p = Ok p' -> same_error p p'.
Proof.
  intros He. unfold check_len, set_error. rewrite He. repeat case_if; intros [= <-]; done.
Qed.

Lemma fetch_end_sticky p p' : error_empty p = false -> fetch_end p = Ok p' -> same_error p p'.
Proof. intros He. unfold fetch_end, set_error. rewrite He. repeat case_if; intros [= <-]; done. Qed.

Lemma same_error_empty p p' : same_error p p' -> error_empty p' = error_empty p.
Proof. intros [He _]. unfold error_empty. by rewrite He. Qed.

Lemma same_error_trans p1 p2 p3 : same_error p1 p2 -> same_error p2 p3 -> same_error p1 p3.
Proof. unfold same_error. intuition congruence. Qed.

Lemma with_data_same p d : same_error p (with_data d p).
Proof. done. Qed.

Lemma fetch_binary_sticky n p x p' : error_empty p = false -> fetch_binary n p = Ok (x, p') -> same_error p p'.
Proof.
  unfold fetch_binary, fetch_binary_unsafe. intros He H. inv_binds. by apply (check_len_sticky n p a).
Qed.

Lemma finish_sticky n rb l d p x p' : error_empty p = false ->
  fetch_string_finish n rb l (with_data d p) = Ok (x, p') -> same_error p p'.
Proof.
  change (same_error p p') with (same_error (with_data d p) p'). change (error_empty p) with (error_empty (with_data d p)).
  generalize (with_data d p). clear p. intros p. unfold fetch_string_finish. intros He H. apply bind_Ok in H as (a & E & H).
  pose proof (check_len_sticky _ _ _ He E) as Hs.
  rewrite (same_error_empty _ _ Hs), He in H. simpl in H. by injection H as <- <-.
Qed.

Lemma fetch_string_sticky p x p' : error_empty p = false -> fetch_string p = Ok (x, p') -> same_error p p'.
Proof.
  unfold fetch_string. intros He H. apply bind_Ok in H as (p1 & E & H).
  pose proof (check_len_sticky _ _ _ He E) as Hs. pose proof (same_error_empty _ _ Hs) as He1. rewrite He in He1.
  eapply same_error_trans; [exact Hs|]. apply bind_Ok in H as (b & _ & H). case_if_in H; [|case_if_in H].
  - inv_binds. by eapply finish_sticky.
  - inv_binds. by eapply finish_sticky.
  - apply bind_Ok in H as (p2 & E2 & H).
    pose proof (check_len_sticky _ _ _ He1 E2) as Hs2. pose proof (same_error_empty _ _ Hs2) as He2. rewrite He1 in He2.
    eapply same_error_trans; [exact Hs2|].
    do 7 (apply bind_Ok in H as (? & _ & H)). case_if_in H.
    + apply bind_Ok in H as (p3 & Eset & H). injection H as <- <-. unfold set_error in Eset. rewrite He2 in Eset.
      case_if_in Eset; [|done]. by injection Eset as <-.
    + inv_binds. by eapply finish_sticky.
Qed.

Lemma run_op_sticky op p p' : error_empty p = false -> run_op op p = Ok p' -> same_error p p'.
Proof.
  intros He H. destruct op; simpl in H.
  - rewrite fetch_int_binary in H. inv_binds. by eapply fetch_binary_sticky.
  - rewrite fetch_long_binary in H. inv_binds. by eapply fetch_binary_sticky.
  - inv_binds. by eapply fetch_binary_sticky.
  - inv_binds. by eapply fetch_string_sticky.
  - unfold fetch_string_raw in H. apply bind_Ok in H as ([x p1] & H & Hp). injection Hp as <-.
    apply bind_Ok in H as (p2 & E & H). pose proof (check_len_sticky _ _ _ He E) as Hs.
    rewrite (same_error_empty _ _ Hs), He in H. simpl in H. by injection H as <- <-.
  - unfold TlBufferParser_fetch_string in H. inv_binds; by eapply fetch_string_sticky.
  - by apply fetch_end_sticky.
Qed.

Lemma run_ops_sticky ops p p' : error_empty p = false -> run_ops ops p = Ok p' -> same_error p p'.
Proof.
  revert p. induction ops as [|op ops IH]; intros p He H; simpl in H; [by injection H as <-|].
  apply bind_Ok in H as (p1 & E & H). pose proof (run_op_sticky _ _ _ He E) as Hs.
  eapply same_error_trans; [exact Hs|]. apply IH; [|done]. by rewrite (same_error_empty _ _ Hs).
Qed.

(** ** Properties *)


(** Objects of all kinds in one type; sets are visited in the order of
    [elements]. *)
#[local] Instance elements_iteration : SetIteration :=
  {| iteration K _ _ s := elements s; iteration_elements K _ _ s := Permutation_refl (elements s) |}.

Definition every_kind : tl_type :=
  TVector (TPair (TPair TInt64 (TPair TDouble (TEnum int8_t)))
    (TPair (TUniquePtr TString) (TPair (TSet KInt32) (TVariant (TCons TBool (TCons (TUniqueValuePtr TUInt32) TNil)))))).

Definition some_set : gset int32 := {[ Int32 7; Int32 (-1) ]}.

Lemma some_set_wf : set_wf some_set.
Proof.
  split_and!; [| |by vm_compute].
  - apply Forall_forall. intros key Hk%elem_of_elements. simpl. unfold is_s32.
    apply elem_of_union in Hk as [->%elem_of_singleton| ->%elem_of_singleton]; done.
  - intros [Hk%elem_of_singleton|Hk%elem_of_singleton]%elem_of_union; discriminate.
Qed.

Definition some_object : denote every_kind :=
  [((Int64 (-5), (Double 4614256656552045848, mkEnum (-3))),
    (make_unique (Str [104; 105]), (some_set, mkVariant (Some (inr (inl (make_unique_value (UInt32 9))))))))].


(** C34. The parser never reads outside of its slice, whatever the bytes and
    whatever sequence of reads a caller makes, and the first error is the one
    that is reported: later reads change neither its message nor its
    position. *)
Theorem tl_parser_safe (slice : list Z) (ops1 ops2 : list parser_op) :
  bytes slice -> Z.of_nat (length slice) < SIZE_MAX -> Forall op_ok (ops1 ++ ops2) ->
  exists p1 p2, run_ops ops1 (TlParser_new slice) = Ok p1 /\ run_ops (ops1 ++ ops2) (TlParser_new slice) = Ok p2 /\
    (error p1 <> "" -> error p2 = error p1 /\ error_pos p2 = error_pos p1).
Proof.
  intros Hb Hl Hops. pose proof (new_inv slice Hb Hl) as Hp. apply Forall_app in Hops as [H1 H2].
  destruct (run_ops_inv ops1 _ H1 Hp) as (p1 & E1 & Hp1). destruct (run_ops_inv ops2 _ H2 Hp1) as (p2 & E2 & Hp2).
  exists p1, p2. rewrite run_ops_app, E1. simpl. split_and!; [done.. |]. intros He.
  apply (run_ops_sticky ops2 p1 p2); [by apply nonempty_eqb | done].
Qed.

Lemma tl_parser_safe_witness :
  exists p1 p2, run_ops [OpString; OpInt] (TlParser_new [255; 255; 255; 255; 255; 255; 255; 255]) = Ok p1 /\
    run_ops ([OpString; OpInt] ++ [OpLong; OpEnd]) (TlParser_new [255; 255; 255; 255; 255; 255; 255; 255]) = Ok p2 /\
    (error p1 <> "" -> error p2 = error p1 /\ error_pos p2 = error_pos p1).
Proof.
  apply (tl_parser_safe [255; 255; 255; 255; 255; 255; 255; 255] [OpString; OpInt] [OpLong; OpEnd]);
    [repeat constructor; unfold is_byte; lia | vm_compute; reflexivity | repeat constructor].
Defined.

(** [TlBufferParser::fetch_string] consumes the same bytes as
    [TlParser::fetch_string] and always returns valid UTF-8 without NUL
    characters; a string that is already of this kind is returned unchanged. *)
Theorem tl_buffer_parser_utf8 (p : TlParser) : parser_inv p ->
  exists raw_string result p', fetch_string p = Ok (raw_string, p') /\
    TlBufferParser_fetch_string p = Ok (result, p') /\
    check_utf8 result = Ok true /\ Forall (fun c => c <> 0) result /\
    (check_utf8 raw_string = Ok true -> Forall (fun c => c <> 0) raw_string -> result = raw_string).
Proof.
  intros Hp. destruct (TlBufferParser_fetch_string_inv p Hp) as (x & s & p' & E1 & E2 & _ & Hx & Hv & Hn & Hid).
  exists x, s, p'. split_and!; [done | done | | done |].
  - destruct (check_utf8_cases s) as [[_ Hbad]|[? _]]; [|done|done].
    destruct Hv as (cps & Hs & ->). rewrite utf8_of_enc by done. by apply flat_map_enc_bytes.
  - intros Hc Hnx. apply Hid; [|done]. destruct (check_utf8_cases x Hx) as [[? _]|[_ ?]]; [congruence | done].
Qed.

Lemma tl_buffer_parser_utf8_witness :
  exists raw_string result p', fetch_string (clean 4 [3; 65; 0; 0xC3]) = Ok (raw_string, p') /\
    TlBufferParser_fetch_string (clean 4 [3; 65; 0; 0xC3]) = Ok (result, p') /\
    check_utf8 result = Ok true /\ Forall (fun c => c <> 0) result /\
    (check_utf8 raw_string = Ok true -> Forall (fun c => c <> 0) raw_string -> result = raw_string).
Proof.
  apply (tl_buffer_parser_utf8 (clean 4 [3; 65; 0; 0xC3])). constructor.
  - repeat constructor; unfold is_byte; lia.
  - vm_compute. split; [discriminate | reflexivity].
Defined.
