(* ===== verification/SeqProcessors.v ===== *)
(** * Sequence processors

    [VectorQueue], [OrderedEventsProcessor] and [ChangesProcessor] of
    tdutils/td/utils, and [PtsManager] of td/telegram, which is a client of
    [ChangesProcessor].  The containers move their elements out
    ([std::move]); [moved x] is the value a moved-out element leaves behind,
    and nothing is assumed of it.  A callback of the source is the list of
    the calls made to it. *)
From S2P Require Import Prelude.
Open Scope td_scope.

(** ** VectorQueue *)
Module VectorQueue.
Section vector_queue.
Context {T : Type} (moved : T -> T).

Record queue := { vector_ : list T; read_pos_ : nat }.

Definition init : queue := {| vector_ := []; read_pos_ := 0 |}.

Definition push (s : T) (q : queue) : queue :=
  {| vector_ := vector_ q ++ [s]; read_pos_ := read_pos_ q |}.

(** [vector_.erase] of a range past the end is undefined. *)
Definition try_shrink (q : queue) : Res queue :=
  if (Nat.ltb (length (vector_ q)) (read_pos_ q * 2) && Nat.ltb 4 (read_pos_ q))%bool then
    CHECK! Nat.leb (read_pos_ q) (length (vector_ q)) else "erase past the end" in
    Ok {| vector_ := drop (read_pos_ q) (vector_ q); read_pos_ := 0 |}
  else Ok q.

Definition pop (q : queue) : Res (T * queue) :=
  let* q := try_shrink q in
  match vector_ q !! read_pos_ q with
  | Some x => Ok (x, {| vector_ := <[read_pos_ q := moved x]> (vector_ q);
                        read_pos_ := S (read_pos_ q) |})
  | None => Panic "vector_[read_pos_]"
  end.

Definition size (q : queue) : Z := u64 (Z.of_nat (length (vector_ q)) - Z.of_nat (read_pos_ q)).

Definition empty (q : queue) : bool := size q =? 0.

(** [rnd] is the value drawn from the generator. *)
Definition pop_rand (rnd : Z) (q : queue) : Res (T * queue) :=
  CHECK! negb (size q =? 0) else "division by zero" in
  let i := Z.to_nat (rnd mod size q) in
  match vector_ q !! i, vector_ q !! read_pos_ q with
  | Some a, Some b =>
      pop {| vector_ := <[read_pos_ q := a]> (<[i := b]> (vector_ q)); read_pos_ := read_pos_ q |}
  | _, _ => Panic "vector_[i]"
  end.

Definition pop_n (n : nat) (q : queue) : Res queue :=
  try_shrink {| vector_ := vector_ q; read_pos_ := read_pos_ q + n |}.

Definition front (q : queue) : Res T :=
  match vector_ q !! read_pos_ q with Some x => Ok x | None => Panic "vector_[read_pos_]" end.

Definition back (q : queue) : Res T :=
  match last (vector_ q) with Some x => Ok x | None => Panic "vector_.back()" end.

(** [data()] and [size()] elements from it. *)
Definition as_span (q : queue) : list T :=
  take (Z.to_nat (size q)) (drop (read_pos_ q) (vector_ q)).

(** The first-in-first-out queue a [VectorQueue] stands for. *)
Definition contents (q : queue) : list T := drop (read_pos_ q) (vector_ q).

Definition wf (q : queue) : Prop := (read_pos_ q <= length (vector_ q))%nat.

Lemma try_shrink_ok q : wf q -> exists q', try_shrink q = Ok q' /\ wf q' /\ contents q' = contents q.
Proof.
  unfold wf, try_shrink, contents. intros Hw. case_if.
  - rewrite (proj2 (Nat.leb_le _ _)) by done. eexists. split; [done|]. simpl. split; [lia|done].
  - exists q. done.
Qed.

Lemma contents_lookup q i : contents q !! i = vector_ q !! (read_pos_ q + i)%nat.
Proof. apply lookup_drop. Qed.

Lemma pop_ok q x l : wf q -> contents q = x :: l ->
  exists q', pop q = Ok (x, q') /\ wf q' /\ contents q' = l.
Proof.
  intros Hw Hc. unfold pop. destruct (try_shrink_ok q Hw) as (q1 & -> & Hw1 & Hc1). simpl.
  rewrite Hc in Hc1. assert (vector_ q1 !! read_pos_ q1 = Some x) as Hx.
  { pose proof (contents_lookup q1 0) as H. rewrite Hc1, Nat.add_0_r in H. done. }
  rewrite Hx. eexists. split; [done|]. unfold wf, contents in *. simpl. rewrite length_insert.
  split; [by apply lookup_lt_Some in Hx|].
  rewrite drop_insert_lt by lia. rewrite (drop_S _ _ _ Hx) in Hc1. by injection Hc1.
Qed.

Lemma pop_empty q : wf q -> contents q = [] -> pop q = Panic "vector_[read_pos_]".
Proof.
  intros Hw Hc. unfold pop. destruct (try_shrink_ok q Hw) as (q1 & -> & Hw1 & Hc1). simpl.
  rewrite Hc in Hc1. pose proof (contents_lookup q1 0) as H.
  rewrite Hc1, Nat.add_0_r in H. by rewrite <- H.
Qed.

Lemma size_ok q : wf q -> Z.of_nat (length (vector_ q)) < 2 ^ 64 -> size q = Z.of_nat (length (contents q)).
Proof.
  unfold wf, size, contents. intros Hw Hl. rewrite length_drop, u64_small; [lia|]. unfold is_u64. lia.
Qed.

(** The operations of a client and their meaning on a plain list. *)
Inductive op := Push (x : T) | Pop | PopN (n : nat) | Front | Back | AsSpan.

Definition vq_step (o : op) (q : queue) : Res (list T * queue) :=
  match o with
  | Push x => Ok ([], push x q)
  | Pop => let* (x, q) := pop q in Ok ([x], q)
  | PopN n => let* q := pop_n n q in Ok ([], q)
  | Front => let* x := front q in Ok ([x], q)
  | Back => let* x := back q in Ok ([x], q)
  | AsSpan => Ok (as_span q, q)
  end.

Definition fifo_step (o : op) (l : list T) : option (list T * list T) :=
  match o, l with
  | Push x, _ => Some ([], l ++ [x])
  | Pop, x :: l => Some ([x], l)
  | PopN n, _ => if Nat.leb n (length l) then Some ([], drop n l) else None
  | Front, x :: _ => Some ([x], l)
  | Back, _ => match last l with Some x => Some ([x], l) | None => None end
  | AsSpan, _ => Some (l, l)
  | _, [] => None
  end.

Fixpoint vq_run (os : list op) (q : queue) : Res (list T * queue) :=
  match os with
  | [] => Ok ([], q)
  | o :: os =>
      let* (r, q) := vq_step o q in let* (rs, q) := vq_run os q in Ok (r ++ rs, q)
  end.

Fixpoint fifo_run (os : list op) (l : list T) : option (list T * list T) :=
  match os with
  | [] => Some ([], l)
  | o :: os =>
      match fifo_step o l with
      | Some (r, l) =>
          match fifo_run os l with Some (rs, l) => Some (r ++ rs, l) | None => None end
      | None => None
      end
  end.

Lemma last_drop {A} n (l : list A) : drop n l <> [] -> last (drop n l) = last l.
Proof.
  revert l. induction n as [|n IH]; intros [|x l]; simpl; try done.
  intros H. rewrite IH by done. destruct l; [by rewrite drop_nil in H|done].
Qed.

Lemma as_span_ok q : wf q -> Z.of_nat (length (vector_ q)) < 2 ^ 64 -> as_span q = contents q.
Proof.
  intros Hw Hl. unfold as_span. rewrite size_ok by done. fold (contents q).
  rewrite take_ge; [done|lia].
Qed.

Lemma vq_step_refines o q r l : wf q -> Z.of_nat (length (vector_ q)) < 2 ^ 64 ->
  fifo_step o (contents q) = Some (r, l) ->
  exists q', vq_step o q = Ok (r, q') /\ wf q' /\ contents q' = l.
Proof.
  intros Hw Hl H. destruct o as [x| |n| | |]; simpl in H.
  - injection H as <- <-. eexists. split; [done|]. unfold wf, contents in *. simpl.
    rewrite length_app, drop_app_le by done. split; [lia|done].
  - destruct (contents q) as [|x l0] eqn:Hc; [done|]. injection H as <- <-.
    destruct (pop_ok q x l0 Hw Hc) as (q' & Hp & ?). exists q'. simpl. by rewrite Hp.
  - case_if_in H; [|done]. injection H as <- <-. simpl. unfold pop_n.
    destruct (try_shrink_ok {| vector_ := vector_ q; read_pos_ := read_pos_ q + n |}) as (q' & -> & Hw' & Hc').
    { unfold wf, contents in *. simpl. rewrite length_drop in E. lia. }
    exists q'. split; [done|]. split; [done|]. rewrite Hc'. unfold contents. simpl. by rewrite drop_drop.
  - destruct (contents q) as [|x l0] eqn:Hc; [done|]. injection H as <- <-. exists q. simpl. unfold front.
    pose proof (contents_lookup q 0) as H0. rewrite Hc, Nat.add_0_r in H0. by rewrite <- H0.
  - destruct (last (contents q)) as [x|] eqn:Hx; [|done]. injection H as <- <-. exists q. simpl. unfold back.
    unfold contents in *. rewrite last_drop in Hx by (by intros E; rewrite E in Hx). by rewrite Hx.
  - injection H as <- <-. exists q. simpl. by rewrite as_span_ok.
Qed.

Lemma pop_length q x q' : pop q = Ok (x, q') -> (length (vector_ q') <= length (vector_ q))%nat.
Proof.
  unfold pop, try_shrink. case_if; [case_if; [|done]|]; simpl;
    (case_match; [|done]); intros [= <- <-]; simpl; rewrite length_insert; [|lia].
  rewrite length_drop. lia.
Qed.

Lemma vq_step_length o q r q' : vq_step o q = Ok (r, q') ->
  (length (vector_ q') <= S (length (vector_ q)))%nat.
Proof.
  destruct o as [x| |n| | |]; simpl.
  - intros [= <- <-]. simpl. rewrite length_app. simpl. lia.
  - destruct (pop q) as [[x q1]| |] eqn:Hp; simpl; intros [= <- <-]. apply pop_length in Hp. lia.
  - unfold pop_n, try_shrink. simpl. repeat case_if; simpl; intros [= <- <-]; simpl; try rewrite length_drop; lia.
  - destruct (front q); simpl; intros [= <- <-]. lia.
  - destruct (back q); simpl; intros [= <- <-]. lia.
  - intros [= <- <-]. lia.
Qed.

Lemma vq_run_refines os q r l : wf q -> Z.of_nat (length (vector_ q) + length os) < 2 ^ 64 ->
  fifo_run os (contents q) = Some (r, l) ->
  exists q', vq_run os q = Ok (r, q') /\ wf q' /\ contents q' = l.
Proof.
  revert q r. induction os as [|o os IH]; intros q r Hw Hl H; simpl in *.
  - injection H as <- <-. by exists q.
  - destruct (fifo_step o (contents q)) as [[r1 l1]|] eqn:Hs; [|done].
    destruct (fifo_run os l1) as [[r2 l2]|] eqn:Hr; [|done]. injection H as <- <-.
    destruct (vq_step_refines o q r1 l1) as (q1 & Hq1 & Hw1 & Hc1); [done|lia|done|].
    pose proof (vq_step_length _ _ _ _ Hq1) as Hl1. subst l1.
    destruct (IH q1 r2) as (q2 & Hq2 & ?); [done|lia|done|].
    exists q2. rewrite Hq1. simpl. rewrite Hq2. done.
Qed.

(** Any sequence of pushes, pops, bulk pops and reads that a plain
    first-in-first-out list can perform is performed by [VectorQueue] with the
    same results, whatever the values moved-out elements leave behind and
    whenever the storage is shrunk. *)
Theorem vector_queue_fifo os r l : Z.of_nat (length os) < 2 ^ 64 ->
  fifo_run os [] = Some (r, l) -> exists q, vq_run os init = Ok (r, q) /\ contents q = l.
Proof.
  intros Hl H. destruct (vq_run_refines os init r l) as (q & Hq & _ & Hc); [unfold wf; simpl; lia|done|done|].
  by exists q.
Qed.

(** [pop_rand] indexes the whole storage and not the live part of it: when
    the drawn index falls before the read position, the value returned is an
    element that was already taken out, and the element that was at the read
    position is no longer in the queue. *)
Theorem pop_rand_stale rnd q x : wf q -> Z.of_nat (length (vector_ q)) < 2 ^ 64 -> contents q <> [] ->
  (Z.to_nat (rnd mod size q) < read_pos_ q)%nat ->
  vector_ q !! Z.to_nat (rnd mod size q) = Some x ->
  exists q', pop_rand rnd q = Ok (x, q') /\ contents q' = tail (contents q).
Proof.
  intros Hw Hl Hc Hi Hx. unfold pop_rand. rewrite (size_ok q) in * by done.
  assert (length (contents q) <> 0)%nat by (by destruct (contents q)).
  rewrite (proj2 (Z.eqb_neq _ _)) by lia. simpl. rewrite Hx.
  destruct (contents q) as [|y l] eqn:E; [done|].
  pose proof (contents_lookup q 0) as H0. rewrite E, Nat.add_0_r in H0. rewrite <- H0. simpl.
  match goal with |- exists _, pop ?q1 = _ /\ _ => destruct (pop_ok q1 x l) as (q' & Hq' & _ & Hc') end.
  - unfold wf in *. simpl. by rewrite !length_insert.
  - unfold contents in *. simpl.
    assert (read_pos_ q < length (vector_ q))%nat by (symmetry in H0; by apply lookup_lt_Some in H0).
    rewrite (drop_S _ x). 2: { apply list_lookup_insert_eq. by rewrite length_insert. }
    simpl in Hi. rewrite !drop_insert_lt by lia. f_equal. rewrite (drop_S _ y) in E by done. congruence.
  - by exists q'.
Qed.
End vector_queue.

Definition moved_none (x : option Z) : option Z := None.

Lemma vector_queue_fifo_witness :
  exists q, vq_run moved_none [Push (Some 1); Push (Some 2); Pop; Push (Some 3); Front; Back; PopN 1; AsSpan] init
            = Ok ([Some 1; Some 2; Some 3; Some 3], q) /\ contents q = [Some 3].
Proof. apply (vector_queue_fifo moved_none); vm_compute; reflexivity. Defined.

Lemma pop_rand_stale_witness :
  exists q', pop_rand moved_none 0 {| vector_ := [None; Some 2; Some 3]; read_pos_ := 1 |}
             = Ok (None, q') /\ contents q' = [Some 3].
Proof.
  apply (pop_rand_stale moved_none 0 {| vector_ := [None; Some 2; Some 3]; read_pos_ := 1 |} None);
    [unfold wf; simpl; lia | vm_compute; reflexivity | discriminate | vm_compute; lia | reflexivity].
Defined.
End VectorQueue.

(** ** OrderedEventsProcessor *)
Module OrderedEventsProcessor.
Section ordered_events.
Context {DataT : Type} (moved : DataT -> DataT) (DataT_default : DataT).

Record processor := { offset_ : Z; begin_ : Z; end_ : Z; data_array_ : list (DataT * bool) }.

Definition init (offset : Z) : processor :=
  {| offset_ := offset; begin_ := offset; end_ := offset; data_array_ := [] |}.

(** The default constructor: all three counters are 1. *)
Definition init_default : processor := init 1.

Definition clear (p : processor) : list DataT * processor :=
  (map fst (filter (fun it => it.2 = true) (data_array_ p)), init_default).

(** The [while (begin_ < end_)] loop; its measure is [end_ - begin_]. *)
Fixpoint run_ready (fuel : nat) (p : processor) : Res (list (Z * DataT) * processor) :=
  match fuel with
  | O => Ok ([], p)
  | S fuel =>
      if begin_ p <? end_ p then
        let pos := Z.to_nat (u64 (begin_ p - offset_ p)) in
        match data_array_ p !! pos with
        | None => Panic "data_array_[begin_ - offset_]"
        | Some (_, false) => Ok ([], p)
        | Some (data, true) =>
            let p' := {| offset_ := offset_ p; begin_ := u64 (begin_ p + 1); end_ := end_ p;
                         data_array_ := <[pos := (moved data, false)]> (data_array_ p) |} in
            let* (out, p') := run_ready fuel p' in
            Ok ((begin_ p, data) :: out, p')
        end
      else Ok ([], p)
  end.

Definition try_compactify (p : processor) : processor :=
  let begin_pos := u64 (begin_ p - offset_ p) in
  if ((5 <? begin_pos) && (Z.of_nat (length (data_array_ p)) <? u64 (begin_pos * 2)))%bool then
    {| offset_ := begin_ p; begin_ := begin_ p; end_ := end_ p;
       data_array_ := drop (Z.to_nat begin_pos) (data_array_ p) |}
  else p.

Definition resize (n : nat) (l : list (DataT * bool)) : list (DataT * bool) :=
  l ++ replicate (n - length l) (DataT_default, false).

(** [add] with the calls of [function] as a list. *)
Definition add (seq_no : Z) (data : DataT) (p : processor) : Res (list (Z * DataT) * processor) :=
  CHECK! begin_ p <=? seq_no else "seq_no >= begin_" in
  if seq_no =? begin_ p then
    let p := {| offset_ := offset_ p; begin_ := u64 (begin_ p + 1); end_ := end_ p;
                data_array_ := data_array_ p |} in
    let* (out, p) := run_ready (Z.to_nat (end_ p - begin_ p)) p in
    let e := if end_ p <? begin_ p then begin_ p else end_ p in
    let off := if begin_ p =? e then begin_ p else offset_ p in
    let p := {| offset_ := off; begin_ := begin_ p; end_ := e; data_array_ := data_array_ p |} in
    Ok ((seq_no, data) :: out, try_compactify p)
  else
    let pos := u64 (seq_no - offset_ p) in
    let need_size := u64 (pos + 1) in
    let arr := if Z.of_nat (length (data_array_ p)) <? need_size
               then resize (Z.to_nat need_size) (data_array_ p) else data_array_ p in
    CHECK! Nat.ltb (Z.to_nat pos) (length arr) else "data_array_[pos]" in
    let arr := <[Z.to_nat pos := (data, true)]> arr in
    let e := if end_ p <? u64 (seq_no + 1) then u64 (seq_no + 1) else end_ p in
    Ok ([], {| offset_ := offset_ p; begin_ := begin_ p; end_ := e; data_array_ := arr |}).

Definition has_events (p : processor) : bool := negb (begin_ p =? end_ p).
Definition max_unfinished_seq_no (p : processor) : Z := u64 (end_ p - 1).
Definition max_finished_seq_no (p : processor) : Z := u64 (begin_ p - 1).

(** A run of [add]s, collecting what [function] was called with. *)
Fixpoint run (adds : list (Z * DataT)) (p : processor) : Res (list (Z * DataT) * processor) :=
  match adds with
  | [] => Ok ([], p)
  | (s, d) :: adds =>
      let* (o, p) := add s d p in let* (os, p) := run adds p in Ok (o ++ os, p)
  end.

(** *** Specification

    [M] holds the events received and not yet processed; [drain] processes the
    consecutive ones. *)
Inductive drain : gmap Z DataT -> Z -> list (Z * DataT) -> gmap Z DataT -> Z -> Prop :=
| drain_stop M b : M !! b = None -> drain M b [] M b
| drain_step M b d out M' b' :
    M !! b = Some d -> drain (delete b M) (b + 1) out M' b' -> drain M b ((b, d) :: out) M' b'.

Definition slot (p : processor) (s : Z) : option DataT :=
  match data_array_ p !! Z.to_nat (s - offset_ p) with Some (d, true) => Some d | _ => None end.

(** The array is the window of [M] that starts at [offset_]. *)
Record inv (M : gmap Z DataT) (p : processor) : Prop := {
  inv_order : 0 <= offset_ p <= begin_ p /\ begin_ p <= end_ p < 2 ^ 64;
  inv_len : end_ p - offset_ p <= Z.of_nat (length (data_array_ p));
  inv_slot s : offset_ p <= s -> slot p s = M !! s;
  inv_dom s d : M !! s = Some d -> begin_ p <= s < end_ p;
  inv_last : begin_ p < end_ p -> is_Some (M !! (end_ p - 1));
}.

Lemma drain_spec M b out M' b' : drain M b out M' b' ->
  b <= b' /\ map fst out = seqZ b (b' - b) /\ M' !! b' = None /\
  (forall s d, (s, d) ∈ out <-> M !! s = Some d /\ b <= s < b') /\
  (forall s, M' !! s = if decide (b <= s < b') then None else M !! s).
Proof.
  induction 1 as [M b Hb|M b d out M' b' Hb H (Hle & Hm & Hn & Hin & Hl)].
  - split_and!; [lia| rewrite Z.sub_diag; done |done| |].
    + intros s d. split; [by intros ?%elem_of_nil|lia].
    + intros s. by rewrite decide_False by lia.
  - split_and!; [lia| |done| |].
    + simpl. rewrite Hm. rewrite (seqZ_cons b) by lia. f_equal; f_equal; lia.
    + intros s d'. rewrite elem_of_cons, Hin. split.
      * intros [[= -> ->]|[Hs ?]]; [split; [done|lia]|]. rewrite lookup_delete_ne in Hs by lia. split; [done|lia].
      * intros [Hs ?]. destruct (decide (s = b)) as [->|]; [left; congruence|].
        right. rewrite lookup_delete_ne by lia. split; [done|lia].
    + intros s. rewrite Hl. destruct (decide (s = b)) as [->|].
      * rewrite (decide_True (P := b <= b < b')) by lia. case_decide; [done|]. apply lookup_delete_eq.
      * rewrite lookup_delete_ne by lia. by do 2 (case_decide; try lia).
Qed.

Lemma drain_exists n M b : (size M <= n)%nat -> exists out M' b', drain M b out M' b'.
Proof.
  revert M b. induction n as [|n IH]; intros M b Hn.
  - assert (M = ∅) as -> by (apply map_size_empty_inv; lia). eexists _, _, _. by apply drain_stop.
  - destruct (M !! b) as [d|] eqn:E; [|eexists _, _, _; by apply drain_stop].
    destruct (IH (delete b M) (b + 1)) as (out & M' & b' & H).
    { rewrite map_size_delete, E. simpl. lia. }
    eexists _, _, _. by eapply drain_step.
Qed.

Lemma inv_slot_lookup M p s d : inv M p -> M !! s = Some d ->
  data_array_ p !! Z.to_nat (s - offset_ p) = Some (d, true).
Proof.
  intros Hi Hs. pose proof (inv_dom _ _ Hi _ _ Hs). pose proof (inv_order _ _ Hi).
  rewrite <- (inv_slot _ _ Hi s) in Hs by lia. unfold slot in Hs.
  by repeat case_match; simplify_eq.
Qed.

Lemma run_ready_inv fuel M p out M' b' : inv M p -> drain M (begin_ p) out M' b' ->
  end_ p - begin_ p <= Z.of_nat fuel ->
  exists p', run_ready fuel p = Ok (out, p') /\ inv M' p' /\ begin_ p' = b' /\
    end_ p' = end_ p /\ offset_ p' = offset_ p.
Proof.
  revert M p out. induction fuel as [|fuel IH]; intros M p out Hi Hd Hf.
  - simpl. pose proof (inv_order _ _ Hi). inversion Hd as [? ? Hn|? ? d o ? ? Hm Hd']; subst; [by exists p|].
    apply (inv_dom _ _ Hi) in Hm. lia.
  - simpl. pose proof (inv_order _ _ Hi) as Ho. case_if.
    2: { inversion Hd as [? ? Hn|? ? d o ? ? Hm Hd']; subst; [by exists p|].
      apply (inv_dom _ _ Hi) in Hm. lia. }
    rewrite u64_small by (unfold is_u64; lia). inversion Hd as [? ? Hn|? ? d o ? ? Hm Hd']; subst.
    + pose proof (inv_slot _ _ Hi (begin_ p)) as Hs. rewrite Hn in Hs. unfold slot in Hs.
      pose proof (inv_len _ _ Hi).
      destruct (lookup_lt_is_Some_2 (data_array_ p) (Z.to_nat (begin_ p - offset_ p))) as [[x f] Hx]; [lia|].
      rewrite Hx in Hs |- *. destruct f; [discriminate Hs; lia|]. by exists p.
    + rewrite (inv_slot_lookup _ _ _ _ Hi Hm). rewrite (u64_small (begin_ p + 1)) by (unfold is_u64; lia).
      set (p1 := {| offset_ := offset_ p |}).
      destruct (IH (delete (begin_ p) M) p1 o) as (p' & -> & ?); [|done|simpl; lia|by exists p'].
      pose proof (inv_len _ _ Hi). split; simpl; [lia|by rewrite length_insert| | |].
      * intros s Hs. unfold slot. simpl. destruct (decide (s = begin_ p)) as [->|].
        { rewrite list_lookup_insert_eq by lia. by rewrite lookup_delete_eq. }
        rewrite list_lookup_insert_ne by lia. rewrite lookup_delete_ne by lia. by apply (inv_slot _ _ Hi).
      * intros s d0 Hs. destruct (decide (s = begin_ p)) as [->|]; [by rewrite lookup_delete_eq in Hs|].
        rewrite lookup_delete_ne in Hs by lia. apply (inv_dom _ _ Hi) in Hs. lia.
      * intros Hl. rewrite lookup_delete_ne by lia. apply (inv_last _ _ Hi). lia.
Qed.

Lemma try_compactify_inv M p : inv M p ->
  inv M (try_compactify p) /\ begin_ (try_compactify p) = begin_ p.
Proof.
  intros Hi. unfold try_compactify. pose proof (inv_order _ _ Hi). pose proof (inv_len _ _ Hi).
  rewrite (u64_small (begin_ p - offset_ p)) by (unfold is_u64; lia). case_if; [|done]. split; [|done].
  split; simpl; [lia|rewrite length_drop; lia| |apply (inv_dom _ _ Hi)|apply (inv_last _ _ Hi)].
  intros s Hs. unfold slot. simpl. rewrite lookup_drop, <- (inv_slot _ _ Hi s) by lia. unfold slot.
  replace (Z.to_nat (begin_ p - offset_ p) + Z.to_nat (s - begin_ p))%nat
    with (Z.to_nat (s - offset_ p)) by lia. done.
Qed.

(** With nothing pending the window may start anywhere. *)
Lemma inv_empty p off : inv ∅ p -> 0 <= off < 2 ^ 64 ->
  inv ∅ {| offset_ := off; begin_ := off; end_ := off; data_array_ := data_array_ p |}.
Proof.
  intros Hi Ho. pose proof (inv_order _ _ Hi). split; simpl; [lia|lia| |done|lia].
  intros s Hs. unfold slot. simpl. pose proof (inv_slot _ _ Hi (offset_ p + (s - off))) as E.
  unfold slot in E. replace (offset_ p + (s - off) - offset_ p) with (s - off) in E by lia.
  rewrite lookup_empty in *. apply E. lia.
Qed.

Lemma inv_drained M p : inv M p -> end_ p <= begin_ p -> M = ∅.
Proof.
  intros Hi H. apply map_empty. intros s. destruct (M !! s) eqn:E; [|done].
  apply (inv_dom _ _ Hi) in E. lia.
Qed.

(** Closing the window when it is drained. *)
Lemma close_window_inv M p : inv M p ->
  inv M {| offset_ := if begin_ p =? end_ p then begin_ p else offset_ p;
           begin_ := begin_ p; end_ := end_ p; data_array_ := data_array_ p |}.
Proof.
  intros Hi. case_if; [|by destruct p]. pose proof (inv_order _ _ Hi).
  assert (M = ∅) as -> by (apply (inv_drained _ _ Hi); lia). rewrite <- E.
  apply inv_empty; [done|lia].
Qed.

Lemma add_now M p d : inv M p -> M !! begin_ p = None -> begin_ p < 2 ^ 64 - 1 ->
  exists out M' b' p', drain M (begin_ p + 1) out M' b' /\
    add (begin_ p) d p = Ok ((begin_ p, d) :: out, p') /\ inv M' p' /\ begin_ p' = b'.
Proof.
  intros Hi Hb Hlt. pose proof (inv_order _ _ Hi) as Ho. unfold add.
  rewrite Z.leb_refl, Z.eqb_refl, (u64_small (begin_ p + 1)) by (unfold is_u64; lia). cbn [begin_ end_].
  destruct (decide (begin_ p = end_ p)) as [He|He].
  - assert (M = ∅) as -> by (apply (inv_drained _ _ Hi); lia).
    replace (Z.to_nat (end_ p - (begin_ p + 1))) with 0%nat by lia. simpl.
    rewrite (proj2 (Z.ltb_lt _ _)), Z.eqb_refl by lia.
    destruct (try_compactify_inv ∅ {| offset_ := begin_ p + 1; begin_ := begin_ p + 1;
      end_ := begin_ p + 1; data_array_ := data_array_ p |}) as [? ?]; [apply inv_empty; [done|lia]|].
    eexists [], ∅, (begin_ p + 1), _. split; [by apply drain_stop|]. split; [done|]. done.
  - set (p1 := {| offset_ := offset_ p |}). assert (inv M p1) as Hi1.
    { split; simpl; [lia|apply (inv_len _ _ Hi)|apply (inv_slot _ _ Hi)| |intros; apply (inv_last _ _ Hi); lia].
      intros s d' Hs. pose proof (inv_dom _ _ Hi _ _ Hs). assert (s <> begin_ p) by congruence. lia. }
    destruct (drain_exists (size M) M (begin_ p1)) as (out & M' & b' & Hd); [done|].
    destruct (run_ready_inv (Z.to_nat (end_ p - (begin_ p + 1))) M p1 out M' b' Hi1 Hd)
      as (p2 & -> & Hi2 & Hb2 & He2 & _); [simpl; lia|]. cbn [res_bind].
    pose proof (inv_order _ _ Hi2). rewrite (proj2 (Z.ltb_ge (end_ p2) (begin_ p2))) by lia.
    destruct (try_compactify_inv _ _ (close_window_inv _ _ Hi2)) as [? ?].
    eexists out, M', b', _. split; [done|]. split; [done|]. split; [done|]. by subst.
Qed.

Lemma add_later M p s d : inv M p -> begin_ p < s < 2 ^ 64 - 1 ->
  exists p', add s d p = Ok ([], p') /\ inv (<[s := d]> M) p' /\ begin_ p' = begin_ p.
Proof.
  intros Hi Hs. pose proof (inv_order _ _ Hi) as Ho. pose proof (inv_len _ _ Hi) as Hl. unfold add.
  rewrite (proj2 (Z.leb_le _ _)), (proj2 (Z.eqb_neq _ _)) by lia.
  rewrite (u64_small (s - offset_ p)), (u64_small (s - offset_ p + 1)), (u64_small (s + 1)) by (unfold is_u64; lia).
  set (arr := if Z.of_nat _ <? _ then _ else _).
  assert (Z.to_nat (s - offset_ p) < length arr)%nat as Ha.
  { subst arr. case_if; [|lia]. unfold resize. rewrite length_app, length_replicate. lia. }
  assert (length (data_array_ p) <= length arr)%nat as Ha'.
  { subst arr. case_if; [|lia]. unfold resize. rewrite length_app. lia. }
  rewrite (proj2 (Nat.ltb_lt _ _)) by done. eexists. split; [done|]. split; [|done].
  set (e := if _ <? _ then _ else _). assert (end_ p <= e /\ s < e < 2 ^ 64) by (subst e; case_if; lia).
  split; simpl; [lia| rewrite length_insert; subst e; case_if; lia| | |].
  - intros t Ht. unfold slot. simpl. destruct (decide (t = s)) as [->|].
    + by rewrite list_lookup_insert_eq, lookup_insert_eq.
    + rewrite list_lookup_insert_ne, lookup_insert_ne by lia. rewrite <- (inv_slot _ _ Hi t) by done.
      unfold slot. subst arr. case_if; [|done]. unfold resize.
      destruct (decide (Z.to_nat (t - offset_ p) < length (data_array_ p))%nat).
      * by rewrite lookup_app_l.
      * rewrite lookup_app_r, (lookup_ge_None_2 (data_array_ p)) by lia.
        destruct (replicate _ _ !! _) as [[x f]|] eqn:Er; [|done].
        apply lookup_replicate in Er as [[= -> ->] _]. done.
  - intros t d'. destruct (decide (t = s)) as [->|]; [intros _; lia|].
    rewrite lookup_insert_ne by done. intros Ht%(inv_dom _ _ Hi). lia.
  - intros He. destruct (decide (e - 1 = s)) as [->|]; [by rewrite lookup_insert_eq|].
    rewrite lookup_insert_ne by done. subst e. case_if; [lia|]. apply (inv_last _ _ Hi). lia.
Qed.

(** *** Runs

    [past] are the events added so far, [out] the calls made so far. *)
Definition trace_inv (off : Z) (past : list (Z * DataT)) (p : processor) (out : list (Z * DataT)) : Prop :=
  exists M, inv M p /\ M !! begin_ p = None /\ off <= begin_ p /\
    map fst out = seqZ off (begin_ p - off) /\
    (forall s d, (s, d) ∈ out <-> (s, d) ∈ past /\ s < begin_ p) /\
    (forall s d, M !! s = Some d <-> (s, d) ∈ past /\ begin_ p <= s).

Lemma trace_inv_init off : 0 <= off < 2 ^ 64 -> trace_inv off [] (init off) [].
Proof.
  intros Ho. exists ∅. split_and!; simpl.
  - split; simpl; [lia|lia|done|done|lia].
  - done.
  - lia.
  - by rewrite Z.sub_diag.
  - intros s d. by split; [intros ?%elem_of_nil|intros [?%elem_of_nil _]].
  - intros s d. by split; [|intros [?%elem_of_nil _]].
Qed.

Lemma trace_not_emitted off past p out s : trace_inv off past p out -> off <= s ->
  s ∉ map fst past -> begin_ p <= s.
Proof.
  intros (M & _ & _ & _ & Hm & Hout & _) Hs Hn. destruct (decide (begin_ p <= s)); [done|exfalso].
  assert (s ∈ map fst out) as Hin by (rewrite Hm; apply elem_of_seqZ; lia).
  apply list_elem_of_fmap in Hin as ([s' d] & -> & Hin). apply Hn.
  apply list_elem_of_fmap. exists (s', d). split; [done|]. by apply Hout.
Qed.

Lemma elem_of_snoc {A} (x y : A) l : x ∈ l ++ [y] <-> x ∈ l \/ x = y.
Proof. rewrite elem_of_app, list_elem_of_singleton. done. Qed.

Lemma trace_inv_add off past p out s d : trace_inv off past p out ->
  s ∉ map fst past -> off <= s < 2 ^ 64 - 1 ->
  exists o p', add s d p = Ok (o, p') /\ trace_inv off (past ++ [(s, d)]) p' (out ++ o).
Proof.
  intros Ht Hn Hs. pose proof (trace_not_emitted _ _ _ _ s Ht ltac:(lia) Hn) as Hge.
  destruct Ht as (M & Hi & Hb & Hoff & Hm & Hout & Hpend).
  assert (forall d', (s, d') ∉ past) as Hn'.
  { intros d' Hin. apply Hn, list_elem_of_fmap. by exists (s, d'). }
  destruct (decide (s = begin_ p)) as [->|].
  - destruct (add_now M p d) as (o & M' & b' & p' & Hd & Ha & Hi' & Hb'); [done|done|lia|].
    apply drain_spec in Hd as (Hle & Hmo & Hnb & Hino & HM'). subst b'.
    exists ((begin_ p, d) :: o), p'. split; [done|]. exists M'. split_and!; [done|done|lia| | |].
    + rewrite map_app, Hm. simpl. rewrite Hmo.
      replace (begin_ p' - off) with ((begin_ p - off) + (1 + (begin_ p' - (begin_ p + 1)))) by lia.
      rewrite seqZ_app by lia. f_equal. rewrite (seqZ_cons (off + _)) by lia.
      replace (off + (begin_ p - off)) with (begin_ p) by lia. do 2 f_equal; lia.
    + intros t d'. rewrite elem_of_app, elem_of_cons, Hout, Hino, Hpend, elem_of_snoc.
      destruct (decide (t = begin_ p)) as [->|].
      * specialize (Hn' d'). intuition lia.
      * assert ((t, d') <> (begin_ p, d)) by congruence.
        destruct (decide (t < begin_ p)); intuition lia.
    + intros t d'. rewrite HM', elem_of_snoc. case_decide; [intuition (done || lia)|].
      rewrite Hpend. destruct (decide (t = begin_ p)) as [->|].
      * specialize (Hn' d'). intuition lia.
      * assert ((t, d') <> (begin_ p, d)) by congruence. intuition lia.
  - destruct (add_later M p s d) as (p' & Ha & Hi' & Hb'); [done|lia|].
    exists [], p'. split; [done|]. exists (<[s:=d]> M). rewrite Hb', app_nil_r.
    split_and!; [done|by rewrite lookup_insert_ne|done|done| |].
    + intros t d'. rewrite Hout, elem_of_snoc. split; [tauto|].
      intros [[?|[= -> ->]] ?]; [done|lia].
    + intros t d'. rewrite elem_of_snoc. destruct (decide (t = s)) as [->|].
      * rewrite lookup_insert_eq. specialize (Hn' d'). split; [intros [= ->]; auto|].
        intros [[?|[= ->]] ?]; done.
      * rewrite lookup_insert_ne by done. rewrite Hpend.
        assert ((t, d') <> (s, d)) by congruence. tauto.
Qed.

Lemma run_trace adds off past p out : trace_inv off past p out ->
  NoDup (map fst (past ++ adds)) -> Forall (fun e => off <= e.1 < 2 ^ 64 - 1) adds ->
  exists o p', run adds p = Ok (o, p') /\ trace_inv off (past ++ adds) p' (out ++ o).
Proof.
  revert past p out. induction adds as [|[s d] adds IH]; intros past p out Ht Hd Hr; simpl.
  - exists [], p. by rewrite !app_nil_r.
  - inversion_clear Hr. destruct (trace_inv_add off past p out s d) as (o1 & p1 & -> & Ht1); [done| |done|].
    { rewrite map_app in Hd. apply NoDup_app in Hd as (_ & Hd & _). intros Hin. apply (Hd s Hin).
      simpl. apply elem_of_cons. by left. }
    simpl. destruct (IH (past ++ [(s, d)]) p1 (out ++ o1)) as (o2 & p2 & -> & Ht2); [done| |done|].
    { by rewrite <- app_assoc. }
    exists (o1 ++ o2), p2. split; [done|]. by rewrite <- !app_assoc in Ht2.
Qed.

(** C31. Events added in any order with distinct numbers from [offset] on are
    processed exactly once each, in the order of their numbers and without
    gaps, as far as the numbers received allow: everything below the first
    missing number has been processed with the data it came with, nothing
    above it has, and [has_events] tells whether something waits. *)
Theorem ordered_events_in_order off adds :
  0 <= off < 2 ^ 64 -> NoDup (map fst adds) -> Forall (fun e => off <= e.1 < 2 ^ 64 - 1) adds ->
  exists out p, run adds (init off) = Ok (out, p) /\
    map fst out = seqZ off (begin_ p - off) /\
    (forall s d, (s, d) ∈ out <-> (s, d) ∈ adds /\ s < begin_ p) /\
    (begin_ p ∉ map fst adds) /\
    (has_events p = true <-> exists s d, (s, d) ∈ adds /\ begin_ p < s).
Proof.
  intros Ho Hd Hr. destruct (run_trace adds off [] (init off) []) as (out & p & -> & Ht);
    [by apply trace_inv_init|done|done|].
  destruct Ht as (M & Hi & Hb & Hoff & Hm & Hout & Hpend). simpl in *.
  assert (begin_ p ∉ map fst adds) as Hnb.
  { intros Hin. apply list_elem_of_fmap in Hin as ([s d] & Hs & Hin). simpl in Hs. subst s.
    assert (M !! begin_ p = Some d) by (apply Hpend; split; [done|lia]). congruence. }
  exists out, p. split_and!; [done|done|done|done|].
  unfold has_events. rewrite negb_true_iff, Z.eqb_neq. pose proof (inv_order _ _ Hi). split.
  - intros Hne. destruct (inv_last _ _ Hi) as [d Hd']; [lia|]. exists (end_ p - 1), d.
    apply Hpend in Hd' as [? ?]. split; [done|]. assert (end_ p - 1 <> begin_ p); [|lia].
    intros Heq. rewrite Heq in H0. apply Hnb, list_elem_of_fmap. by exists (begin_ p, d).
  - intros (s & d & Hin & Hs). assert (M !! s = Some d) as Hs' by (apply Hpend; split; [done|lia]).
    apply (inv_dom _ _ Hi) in Hs'. lia.
Qed.

End ordered_events.

Lemma ordered_events_in_order_witness :
  exists out p, run (fun _ => 0) 0 [(7, 70); (5, 50); (9, 90); (6, 60)] (init 5) = Ok (out, p) /\
    map fst out = seqZ 5 (begin_ p - 5) /\
    (forall s d, (s, d) ∈ out <-> (s, d) ∈ [(7, 70); (5, 50); (9, 90); (6, 60)] /\ s < begin_ p) /\
    (begin_ p ∉ map fst [(7, 70); (5, 50); (9, 90); (6, 60)]) /\
    (has_events p = true <-> exists s d, (s, d) ∈ [(7, 70); (5, 50); (9, 90); (6, 60)] /\ begin_ p < s).
Proof.
  apply (ordered_events_in_order (fun _ => 0) 0).
  - lia.
  - refine (bool_decide_eq_true_1 _ _). vm_compute. reflexivity.
  - repeat constructor; simpl; lia.
Defined.
End OrderedEventsProcessor.

(** ** ChangesProcessor *)
Module ChangesProcessor.
Section changes.
Context {DataT : Type} (moved : DataT -> DataT).

Record processor := { offset_ : Z; ready_i_ : nat; data_array_ : list (DataT * bool) }.

Definition init : processor := {| offset_ := 1; ready_i_ := 0; data_array_ := [] |}.

Definition clear (p : processor) : processor :=
  {| offset_ := u64 (offset_ p + Z.of_nat (length (data_array_ p))); ready_i_ := 0; data_array_ := [] |}.

Definition add (data : DataT) (p : processor) : Z * processor :=
  (u64 (offset_ p + Z.of_nat (length (data_array_ p))),
   {| offset_ := offset_ p; ready_i_ := ready_i_ p; data_array_ := data_array_ p ++ [(data, false)] |}).

(** The loop of [finish]; the number of elements after [ready_i_] bounds it. *)
Fixpoint run_ready (fuel : nat) (p : processor) : list DataT * processor :=
  match fuel with
  | O => ([], p)
  | S fuel =>
      match data_array_ p !! ready_i_ p with
      | Some (data, true) =>
          let '(out, p') := run_ready fuel
            {| offset_ := offset_ p; ready_i_ := S (ready_i_ p);
               data_array_ := <[ready_i_ p := (moved data, true)]> (data_array_ p) |} in
          (data :: out, p')
      | _ => ([], p)
      end
  end.

Definition try_compactify (p : processor) : processor :=
  if (Nat.ltb 5 (ready_i_ p) && Nat.ltb (length (data_array_ p)) (ready_i_ p * 2))%bool then
    {| offset_ := u64 (offset_ p + Z.of_nat (ready_i_ p)); ready_i_ := 0;
       data_array_ := drop (ready_i_ p) (data_array_ p) |}
  else p.

(** [finish] with the calls of [func] as a list. *)
Definition finish (token : Z) (p : processor) : list DataT * processor :=
  let pos := u64 (token - offset_ p) in
  if Z.of_nat (length (data_array_ p)) <=? pos then ([], p)
  else
    let arr := alter (fun e => (e.1, true)) (Z.to_nat pos) (data_array_ p) in
    let '(out, p) := run_ready (length arr - ready_i_ p)
      {| offset_ := offset_ p; ready_i_ := ready_i_ p; data_array_ := arr |} in
    (out, try_compactify p).

Inductive op := Add (data : DataT) | Finish (token : Z) | Clear.

Definition step (o : op) (p : processor) : list DataT * processor :=
  match o with
  | Add d => ([], (add d p).2)
  | Finish t => finish t p
  | Clear => ([], clear p)
  end.

Fixpoint run (os : list op) (p : processor) : list DataT * processor :=
  match os with
  | [] => ([], p)
  | o :: os => let '(r, p) := step o p in let '(rs, p) := run os p in (r ++ rs, p)
  end.

(** *** Specification: the changes since the last [clear], in order of addition,
    each with its id and whether it was finished; finished changes leave from
    the front. *)
Record spec := { next_id : Z; waiting : list (Z * DataT * bool) }.

Fixpoint release (l : list (Z * DataT * bool)) : list DataT * list (Z * DataT * bool) :=
  match l with
  | (_, d, true) :: l => let '(out, l) := release l in (d :: out, l)
  | _ => ([], l)
  end.

Definition spec_step (o : op) (s : spec) : list DataT * spec :=
  match o with
  | Add d => ([], {| next_id := next_id s + 1; waiting := waiting s ++ [(next_id s, d, false)] |})
  | Finish t =>
      let l := map (fun e => if e.1.1 =? t then (e.1, true) else e) (waiting s) in
      let '(out, l) := release l in (out, {| next_id := next_id s; waiting := l |})
  | Clear => ([], {| next_id := next_id s; waiting := [] |})
  end.

Fixpoint spec_run (os : list op) (s : spec) : list DataT * spec :=
  match os with
  | [] => ([], s)
  | o :: os => let '(r, s) := spec_step o s in let '(rs, s) := spec_run os s in (r ++ rs, s)
  end.

(** Ids are the positions of the array, counted from its first id. *)
Fixpoint number (id : Z) (l : list (DataT * bool)) : list (Z * DataT * bool) :=
  match l with
  | [] => []
  | (d, f) :: l => (id, d, f) :: number (id + 1) l
  end.

Definition first_id (p : processor) : Z := offset_ p + Z.of_nat (ready_i_ p).

Record refines (p : processor) (s : spec) : Prop := {
  ref_ready : (ready_i_ p <= length (data_array_ p))%nat;
  ref_offset : 0 <= offset_ p;
  ref_next : next_id s = offset_ p + Z.of_nat (length (data_array_ p));
  ref_waiting : waiting s = number (first_id p) (drop (ready_i_ p) (data_array_ p));
}.

Lemma number_app id l1 l2 :
  number id (l1 ++ l2) = number id l1 ++ number (id + Z.of_nat (length l1)) l2.
Proof.
  revert id. induction l1 as [|[d f] l1 IH]; intros id; simpl; [by rewrite Z.add_0_r|].
  rewrite IH. do 3 f_equal. lia.
Qed.

Lemma number_mark_out t id l : t < id \/ id + Z.of_nat (length l) <= t ->
  map (fun e => if e.1.1 =? t then (e.1, true) else e) (number id l) = number id l.
Proof.
  revert id. induction l as [|[d f] l IH]; intros id H; simpl in *; [done|].
  rewrite (proj2 (Z.eqb_neq _ _)) by lia. by rewrite IH by lia.
Qed.

Lemma number_mark t id l : id <= t ->
  map (fun e => if e.1.1 =? t then (e.1, true) else e) (number id l)
  = number id (alter (fun e => (e.1, true)) (Z.to_nat (t - id)) l).
Proof.
  revert id. induction l as [|[d f] l IH]; intros id H; simpl in *; [done|].
  destruct (decide (t = id)) as [->|].
  - rewrite Z.eqb_refl, Z.sub_diag. simpl. by rewrite number_mark_out by lia.
  - rewrite (proj2 (Z.eqb_neq _ _)) by lia.
    replace (Z.to_nat (t - id)) with (S (Z.to_nat (t - (id + 1)))) by lia. cbn. by rewrite IH by lia.
Qed.

Lemma drop_alter {A} (f : A -> A) i n l : drop n (alter f i l) =
  if Nat.ltb i n then drop n l else alter f (i - n)%nat (drop n l).
Proof.
  revert i n. induction l as [|x l IH]; intros i n.
  - change (alter f i []) with (@nil A). rewrite drop_nil. by destruct (Nat.ltb i n).
  - destruct i as [|i], n as [|n]; cbn; first [done | apply IH].
Qed.

Lemma run_ready_refines fuel p out l :
  (length (data_array_ p) <= ready_i_ p + fuel)%nat -> (ready_i_ p <= length (data_array_ p))%nat ->
  release (number (first_id p) (drop (ready_i_ p) (data_array_ p))) = (out, l) ->
  exists p', run_ready fuel p = (out, p') /\ (ready_i_ p' <= length (data_array_ p'))%nat /\
    offset_ p' = offset_ p /\ length (data_array_ p') = length (data_array_ p) /\
    l = number (first_id p') (drop (ready_i_ p') (data_array_ p')).
Proof.
  revert p out. induction fuel as [|fuel IH]; intros p out Hf Hr H; simpl.
  - rewrite drop_ge in H by lia. simpl in H. injection H as <- <-. exists p. by rewrite drop_ge by lia.
  - destruct (data_array_ p !! ready_i_ p) as [[d f]|] eqn:E.
    2: { apply lookup_ge_None in E. rewrite drop_ge in H by lia. injection H as <- <-.
         exists p. by rewrite drop_ge by lia. }
    pose proof (lookup_lt_Some _ _ _ E). rewrite (drop_S _ _ _ E) in H. simpl in H. destruct f.
    + destruct (release _) as [o1 l1] eqn:Hl in H. injection H as <- <-.
      set (p1 := {| offset_ := offset_ p |}). destruct (IH p1 o1) as (p' & -> & ? & ? & Hlen & ?).
      * simpl. rewrite length_insert. lia.
      * simpl. rewrite length_insert. lia.
      * unfold first_id. simpl. rewrite drop_insert_lt by lia. rewrite <- Hl. do 2 f_equal.
        unfold first_id. lia.
      * exists p'. split; [done|]. simpl in Hlen. rewrite length_insert in Hlen. done.
    + injection H as <- <-. exists p. split_and!; try done. by rewrite (drop_S _ _ _ E).
Qed.

Lemma try_compactify_refines p s : refines p s -> next_id s < 2 ^ 64 -> refines (try_compactify p) s.
Proof.
  intros [Hr Ho Hn Hw] Hb. unfold try_compactify. case_if; [|done].
  unfold first_id in *. split; simpl; rewrite ?length_drop, ?u64_small by (unfold is_u64; lia); try lia.
  rewrite Hw. unfold first_id. simpl. by rewrite Z.add_0_r.
Qed.

Lemma finish_refines t p s : refines p s -> is_u64 t -> next_id s < 2 ^ 64 ->
  release (waiting s) = ([], waiting s) ->
  exists p', finish t p = ((spec_step (Finish t) s).1, p') /\ refines p' (spec_step (Finish t) s).2.
Proof.
  intros [Hr Ho Hn Hw] Ht Hb Hq. unfold finish, is_u64 in *. simpl.
  destruct (decide (offset_ p <= t < next_id s)) as [Hin|Hout].
  - rewrite u64_small by (unfold is_u64; lia). rewrite (proj2 (Z.leb_gt _ _)) by lia.
    set (arr := alter _ _ _). set (p1 := {| offset_ := offset_ p |}).
    assert (length arr = length (data_array_ p)) as Hlen by apply length_alter.
    assert (map (fun e => if e.1.1 =? t then (e.1, true) else e) (waiting s)
            = number (first_id p1) (drop (ready_i_ p1) (data_array_ p1))) as ->.
    { rewrite Hw. simpl. subst arr. rewrite drop_alter. unfold first_id. simpl. case_if.
      - apply number_mark_out. lia.
      - rewrite number_mark by lia. do 2 f_equal. lia. }
    destruct (release (number _ _)) as [out l] eqn:Hl. destruct (run_ready_refines (length arr - ready_i_ p) p1 out l)
      as (p' & -> & ? & Ho' & Hl' & ->); [simpl; lia|simpl; lia|done|].
    eexists. split; [done|]. apply try_compactify_refines; [|done]. simpl in *.
    split; simpl; [done|lia| rewrite Hn, Hl', Ho'; lia |done].
  - rewrite Hw, number_mark_out, <- Hw, Hq by (unfold first_id; rewrite length_drop; lia).
    rewrite (proj2 (Z.leb_le _ _)); [exists p; split; [done|by destruct s]|].
    unfold u64. destruct (decide (t < offset_ p)).
    + rewrite <- (Z.mod_add _ 1), Z.mod_small by lia. lia.
    + rewrite Z.mod_small by lia. lia.
Qed.

(** What is left in front is not finished. *)
Lemma release_idem l out l' : release l = (out, l') -> release l' = ([], l').
Proof.
  revert out. induction l as [|[[i d] f] l IH]; intros out H; simpl in H; [by injection H as <- <-|].
  destruct f; [|by injection H as <- <-]. destruct (release l) as [o1 l1] eqn:E.
  injection H as <- <-. by eapply IH.
Qed.

Lemma release_app l x : release l = ([], l) -> x.2 = false -> release (l ++ [x]) = ([], l ++ [x]).
Proof.
  destruct x as [[i d] f]. simpl. intros H ->. destruct l as [|[[i' d'] []] l]; simpl in *; try done.
  by destruct (release l).
Qed.

Definition op_ok (o : op) : Prop := match o with Finish t => is_u64 t | _ => True end.

Lemma step_refines o p s : refines p s -> op_ok o -> next_id s < 2 ^ 64 ->
  release (waiting s) = ([], waiting s) ->
  exists p', step o p = ((spec_step o s).1, p') /\ refines p' (spec_step o s).2.
Proof.
  intros Href Ho Hb Hq. destruct o as [d|t|]; [| by apply finish_refines |].
  - eexists. split; [done|]. destruct Href as [Hr H0 Hn Hw].
    split; simpl; [rewrite length_app; simpl; lia|done|rewrite length_app; simpl; lia|].
    rewrite drop_app_le, number_app, Hw by done. simpl. unfold first_id in *. simpl. do 4 f_equal.
    rewrite length_drop. lia.
  - eexists. split; [done|]. destruct Href as [Hr H0 Hn Hw].
    split; simpl; rewrite ?u64_small by (unfold is_u64; lia); [lia|lia|lia|done].
Qed.

Lemma spec_step_quiet o s : release (waiting s) = ([], waiting s) ->
  release (waiting (spec_step o s).2) = ([], waiting (spec_step o s).2) /\
  next_id s <= next_id (spec_step o s).2 <= next_id s + 1.
Proof.
  intros Hq. destruct o as [d|t|]; simpl.
  - split; [by apply release_app|lia].
  - destruct (release (map _ _)) as [out l] eqn:E. simpl. split; [by eapply release_idem|lia].
  - split; [done|lia].
Qed.

Lemma run_refines os p s : refines p s -> Forall op_ok os ->
  next_id s + Z.of_nat (length os) < 2 ^ 64 -> release (waiting s) = ([], waiting s) ->
  exists p', run os p = ((spec_run os s).1, p') /\ refines p' (spec_run os s).2.
Proof.
  revert p s. induction os as [|o os IH]; intros p s Href Hok Hb Hq; simpl in *; [by exists p|].
  inversion_clear Hok. destruct (step_refines o p s) as (p1 & -> & Href1); [done|done|lia|done|].
  destruct (spec_step_quiet o s Hq) as [Hq1 Hn1]. destruct (spec_step o s) as [r s1]. simpl in *.
  destruct (IH p1 s1) as (p2 & -> & Href2); [done|done|lia|done|].
  destruct (spec_run os s1) as [rs s2]. by exists p2.
Qed.

Lemma refines_init : refines init {| next_id := 1; waiting := [] |}.
Proof. by split. Qed.

Lemma spec_run_next os s : next_id (spec_run os s).2 <= next_id s + Z.of_nat (length os).
Proof.
  revert s. induction os as [|o os IH]; intros s; simpl; [lia|].
  assert (next_id (spec_step o s).2 <= next_id s + 1).
  { destruct o; simpl; [lia| |lia]. destruct (release _). simpl. lia. }
  destruct (spec_step o s) as [r s1]. specialize (IH s1). destruct (spec_run os s1). simpl in *. lia.
Qed.

(** C32. [ChangesProcessor] hands out changes exactly as the specification does:
    each change once, in order of addition, as soon as it and all the changes
    added before it are finished; a token of a compacted, cleared or unknown
    change has no effect; and the id it gives to the next change is the one
    the specification gives. *)
Theorem changes_processor_refines os : Forall op_ok os -> 1 + Z.of_nat (length os) < 2 ^ 64 ->
  exists p, run os init = ((spec_run os {| next_id := 1; waiting := [] |}).1, p) /\
    forall d, (add d p).1 = next_id (spec_run os {| next_id := 1; waiting := [] |}).2.
Proof.
  intros Hok Hb. destruct (run_refines os init {| next_id := 1; waiting := [] |}) as (p & Hp & Href);
    [apply refines_init|done|done|done|].
  exists p. split; [done|]. intros d. pose proof (spec_run_next os {| next_id := 1; waiting := [] |}) as Hn'.
  destruct Href as [_ Ho Hn _]. unfold add. cbn [fst]. rewrite Hn.
  apply u64_small. unfold is_u64. cbn [next_id] in Hn'. lia.
Qed.
End changes.

Lemma changes_processor_refines_witness :
  exists p, run (fun _ => 0) [Add 10; Add 20; Finish 2; Finish 7; Finish 1; Add 30; Clear; Finish 3; Add 40] init
    = ([10; 20], p) /\ forall d, (add d p).1 = 5.
Proof.
  apply (changes_processor_refines (fun _ => 0)
    [Add 10; Add 20; Finish 2; Finish 7; Finish 1; Add 30; Clear; Finish 3; Add 40]).
  - repeat constructor; vm_compute; intuition discriminate.
  - vm_compute. reflexivity.
Defined.
End ChangesProcessor.

(** ** PtsManager *)
Module PtsManager.
Import ChangesProcessor.

Record manager := { db_pts_ : Z; mem_pts_ : Z; state_helper_ : @processor Z }.

Definition init0 : manager := {| db_pts_ := -1; mem_pts_ := -1; state_helper_ := init |}.

Definition init (pts : Z) (m : manager) : manager :=
  {| db_pts_ := pts; mem_pts_ := pts; state_helper_ := clear (state_helper_ m) |}.

Definition add_pts (pts : Z) (m : manager) : Z * manager :=
  let mem := if 0 <? pts then pts else mem_pts_ m in
  let '(id, h) := add pts (state_helper_ m) in
  (id, {| db_pts_ := db_pts_ m; mem_pts_ := mem; state_helper_ := h |}).

(** The lambda passed to [finish], folded over its calls. *)
Definition on_finished (db pts : Z) : Z := if negb (pts =? 0) then pts else db.

Definition finish (pts_id : Z) (m : manager) : Z * manager :=
  let '(out, h) := finish (fun x => x) pts_id (state_helper_ m) in
  let db := fold_left on_finished out (db_pts_ m) in
  (db, {| db_pts_ := db; mem_pts_ := mem_pts_ m; state_helper_ := h |}).

Inductive op := AddPts (pts : Z) | Finish (pts_id : Z).

Definition step (o : op) (m : manager) : manager :=
  match o with AddPts p => (add_pts p m).2 | Finish i => (finish i m).2 end.

(** The checkpoints a run of operations adds. *)
Definition added (os : list op) : list Z := omap (fun o => match o with AddPts p => Some p | _ => None end) os.

(** Whether the [i]-th change added was finished after it was added, where [n]
    changes were added before [os]. *)
Fixpoint finished (n : nat) (os : list op) (i : nat) : bool :=
  match os with
  | [] => false
  | AddPts _ :: os => finished (S n) os i
  | Finish t :: os => ((t =? 1 + Z.of_nat i) && Nat.ltb i n) || finished n os i
  end.

Definition conv (o : op) : ChangesProcessor.op :=
  match o with AddPts p => Add p | Finish t => ChangesProcessor.Finish t end.

Definition run (os : list op) (m : manager) : manager := fold_left (fun m o => step o m) os m.

Lemma run_conv os m :
  let '(out, p) := ChangesProcessor.run (fun x => x) (map conv os) (state_helper_ m) in
  run os m = {| db_pts_ := fold_left on_finished out (db_pts_ m);
                mem_pts_ := fold_left (fun mem p => if 0 <? p then p else mem) (added os) (mem_pts_ m);
                state_helper_ := p |}.
Proof.
  revert m. induction os as [|o os IH]; intros m; simpl; [by destruct m|].
  destruct o as [pts|t]; simpl.
  - specialize (IH (add_pts pts m).2). simpl in IH. by destruct (ChangesProcessor.run _ _ _).
  - specialize (IH (finish t m).2). unfold finish in *.
    destruct (ChangesProcessor.finish _ _ _) as [o1 p1]. simpl in *.
    destruct (ChangesProcessor.run _ _ _). by rewrite fold_left_app.
Qed.

Lemma spec_run_snoc {D} os (o : @ChangesProcessor.op D) s :
  spec_run (os ++ [o]) s =
  ((spec_run os s).1 ++ (spec_step o (spec_run os s).2).1, (spec_step o (spec_run os s).2).2).
Proof.
  revert s. induction os as [|o' os IH]; intros s; simpl.
  - destruct (spec_step o s). simpl. by rewrite app_nil_r.
  - destruct (spec_step o' s) as [r s1]. rewrite IH. destruct (spec_run os s1). simpl. by rewrite app_assoc.
Qed.

Lemma added_snoc os o : added (os ++ [o]) = added os ++ added [o].
Proof. apply omap_app. Qed.

Lemma finished_snoc os o n i : finished n (os ++ [o]) i =
  finished n os i || finished (n + length (added os)) [o] i.
Proof.
  revert n. induction os as [|[p|t] os IH]; intros n; simpl.
  - by rewrite Nat.add_0_r.
  - rewrite IH. simpl. by rewrite Nat.add_succ_r.
  - by rewrite IH, orb_assoc.
Qed.

(** The changes from the [k]-th on, with their ids and [F] telling the finished ones. *)
Fixpoint tag (F : nat -> bool) (k : nat) (l : list Z) : list (Z * Z * bool) :=
  match l with
  | [] => []
  | p :: l => (1 + Z.of_nat k, p, F k) :: tag F (S k) l
  end.

Lemma tag_app F k l1 l2 : tag F k (l1 ++ l2) = tag F k l1 ++ tag F (k + length l1) l2.
Proof.
  revert k. induction l1 as [|p l1 IH]; intros k; simpl; [by rewrite Nat.add_0_r|].
  rewrite IH. do 3 f_equal. lia.
Qed.

Lemma tag_ext F G k l : (forall i, (k <= i < k + length l)%nat -> F i = G i) -> tag F k l = tag G k l.
Proof.
  revert k. induction l as [|p l IH]; intros k H; simpl in *; [done|].
  rewrite H by lia. f_equal. apply IH. intros i Hi. apply H. lia.
Qed.

Lemma tag_mark t F k l :
  map (fun e => if e.1.1 =? t then (e.1, true) else e) (tag F k l)
  = tag (fun i => F i || (t =? 1 + Z.of_nat i)) k l.
Proof.
  revert k. induction l as [|p l IH]; intros k; cbn -[Z.add]; [done|]. rewrite IH. f_equal.
  rewrite (Z.eqb_sym t). case_if; [by rewrite orb_true_r|by rewrite orb_false_r].
Qed.

Lemma release_tag F k l : exists j, (j <= length l)%nat /\
  release (tag F k l) = (take j l, tag F (k + j) (drop j l)) /\
  (forall i, (k <= i < k + j)%nat -> F i = true) /\ ((j < length l)%nat -> F (k + j)%nat = false).
Proof.
  revert k. induction l as [|p l IH]; intros k; simpl.
  - exists 0%nat. split_and!; [lia|done|lia|lia].
  - destruct (F k) eqn:E.
    + destruct (IH (S k)) as (j & Hj & -> & Hp & Hn). exists (S j). rewrite Nat.add_succ_r.
      split_and!; [lia|done| |intros; apply Hn; lia].
      intros i Hi. destruct (decide (i = k)) as [->|]; [done|apply Hp; lia].
    + exists 0%nat. rewrite Nat.add_0_r. simpl. rewrite E. split_and!; [lia|done|lia|done].
Qed.

Lemma finished_added n os i : (n + length (added os) <= i)%nat -> finished n os i = false.
Proof.
  revert n. induction os as [|[p|t] os IH]; intros n H; simpl in *; [done|apply IH; lia|].
  rewrite IH by done. rewrite (proj2 (Nat.ltb_ge i n)) by lia. by rewrite andb_false_r.
Qed.

(** The state of the specification: what was released is a prefix of what was
    added, up to the first change not finished. *)
Definition frontier (os : list op) (out : list Z) (s : @spec Z) (k : nat) : Prop :=
  (k <= length (added os))%nat /\ next_id s = 1 + Z.of_nat (length (added os)) /\ out = take k (added os) /\
  waiting s = tag (finished 0 os) k (drop k (added os)) /\
  (forall i, (i < k)%nat -> finished 0 os i = true) /\
  ((k < length (added os))%nat -> finished 0 os k = false).

Lemma frontier_add os out s k p : frontier os out s k ->
  frontier (os ++ [AddPts p]) out (spec_step (Add p) s).2 k.
Proof.
  intros (Hk & Hi & -> & Hw & Hp & Hn). unfold frontier. rewrite added_snoc, length_app.
  assert (forall i, finished 0 (os ++ [AddPts p]) i = finished 0 os i) as Hf.
  { intros i. by rewrite finished_snoc, orb_false_r. }
  cbn -[Z.add tag take drop finished]. rewrite take_app_le, drop_app_le, tag_app, Hi by lia.
  split_and!; [lia|lia|done| |intros; rewrite Hf; auto|intros; rewrite Hf].
  - rewrite Hw. f_equal; [by apply tag_ext|]. rewrite length_drop.
    replace (k + (length (added os) - k))%nat with (length (added os)) by lia. cbn [tag].
    by rewrite Hf, finished_added.
  - destruct (decide (k < length (added os))%nat); [auto|]. apply finished_added. simpl. lia.
Qed.

Lemma frontier_finish os out s k t : frontier os out s k ->
  exists k', frontier (os ++ [Finish t]) (out ++ (spec_step (ChangesProcessor.Finish t) s).1)
               (spec_step (ChangesProcessor.Finish t) s).2 k'.
Proof.
  intros (Hk & Hi & -> & Hw & Hp & Hn). cbn [spec_step]. rewrite Hw, tag_mark.
  assert (forall i, (i < length (added os))%nat ->
    finished 0 os i || (t =? 1 + Z.of_nat i) = finished 0 (os ++ [Finish t]) i) as Hf.
  { intros i Hlt. rewrite finished_snoc. cbn -[Z.add Nat.ltb]. rewrite (proj2 (Nat.ltb_lt _ _)) by lia.
    by rewrite andb_true_r, orb_false_r. }
  rewrite (tag_ext _ (finished 0 (os ++ [Finish t]))) by (intros i; rewrite length_drop; intros; apply Hf; lia).
  destruct (release_tag (finished 0 (os ++ [Finish t])) k (drop k (added os))) as (j & Hj & -> & Hr & Hnr).
  rewrite length_drop in Hj, Hnr. exists (k + j)%nat. unfold frontier. cbn [fst snd next_id waiting].
  rewrite added_snoc. cbn [added]. cbn. rewrite app_nil_r, drop_drop.
  split_and!; [lia|done| |done| |intros; apply Hnr; lia].
  - by rewrite take_take_drop.
  - intros i Hlt. destruct (decide (i < k)%nat); [|apply Hr; lia].
    by rewrite finished_snoc, Hp.
Qed.

Lemma spec_run_frontier os : exists k,
  frontier os (spec_run (map conv os) {| next_id := 1; waiting := [] |}).1
              (spec_run (map conv os) {| next_id := 1; waiting := [] |}).2 k.
Proof.
  induction os as [|o os [k IH]] using rev_ind.
  - exists 0%nat. unfold frontier. cbn. split_and!; [done|done|done|done|lia|lia].
  - rewrite map_app. cbn [map]. rewrite spec_run_snoc. cbn [fst snd]. destruct o as [p|t].
    + exists k. cbn [conv spec_step fst]. rewrite app_nil_r. by apply frontier_add.
    + eapply frontier_finish, IH.
Qed.

(** After a manager is initialised with [pts0], the pts it reports as
    processed is the last checkpoint (non-zero pts) of the longest prefix of
    the added changes all of which were finished since they were added,
    whatever the order of the calls: it never runs ahead of an unfinished
    change and never lags behind a finished prefix. [mem_pts] is the last
    positive pts added. *)
Theorem pts_manager_checkpoint pts0 os :
  Forall (fun o => match o with Finish t => is_u64 t | _ => True end) os ->
  1 + Z.of_nat (length os) < 2 ^ 64 ->
  exists k, (k <= length (added os))%nat /\
    (forall i, (i < k)%nat -> finished 0 os i = true) /\
    ((k < length (added os))%nat -> finished 0 os k = false) /\
    db_pts_ (run os (init pts0 init0)) = fold_left on_finished (take k (added os)) pts0 /\
    mem_pts_ (run os (init pts0 init0))
      = fold_left (fun mem p => if 0 <? p then p else mem) (added os) pts0.
Proof.
  intros Hok Hb. pose proof (run_conv os (init pts0 init0)) as Hrun.
  destruct (run_refines (fun x => x) (map conv os) ChangesProcessor.init {| next_id := 1; waiting := [] |})
    as (p & Hp & _); [apply refines_init| |by rewrite length_map|done|].
  { apply Forall_map. eapply Forall_impl; [done|]. by intros [] H. }
  change (state_helper_ (init pts0 init0)) with (@ChangesProcessor.init Z) in Hrun.
  rewrite Hp in Hrun. destruct (spec_run_frontier os) as (k & Hk & _ & Hout & _ & Hfin & Hnot).
  exists k. rewrite Hrun. cbn [db_pts_ mem_pts_]. by rewrite Hout.
Qed.

Lemma pts_manager_checkpoint_witness : exists k, (k <= 4)%nat /\
    (forall i, (i < k)%nat -> finished 0 [AddPts 11; AddPts 0; AddPts 12; AddPts 13; Finish 3; Finish 1; Finish 2] i = true) /\
    ((k < 4)%nat -> finished 0 [AddPts 11; AddPts 0; AddPts 12; AddPts 13; Finish 3; Finish 1; Finish 2] k = false) /\
    12 = fold_left on_finished (take k [11; 0; 12; 13]) 10 /\
    13 = fold_left (fun mem p => if 0 <? p then p else mem) [11; 0; 12; 13] 10.
Proof.
  apply (pts_manager_checkpoint 10 [AddPts 11; AddPts 0; AddPts 12; AddPts 13; Finish 3; Finish 1; Finish 2]).
  - repeat constructor; vm_compute; intuition discriminate.
  - vm_compute. reflexivity.
Defined.
End PtsManager.
