(* ===== verification/BinlogEvent.v ===== *)
(** * Binlog events and their reader

    [BinlogEvent] (tddb/td/db/binlog/BinlogEvent.h, BinlogEvent.cpp), the
    storers it is created from (tdutils/td/utils/Storer.h) and [BinlogReader]
    of Binlog.cpp.  [crc32] is zlib's checksum, a parameter of the model; all
    that is used of it is that it returns a 32-bit value. *)
From S2P Require Import Prelude TlCodec.
Local Open Scope td_scope.

(** ** Storers passed by reference: the size announced and the bytes written. *)
Record StorerObject := { storer_size : Z; storer_store : list Z }.

Definition EmptyStorer : StorerObject := {| storer_size := 0; storer_store := [] |}.

Definition create_storer (slice : list Z) : StorerObject :=
  {| storer_size := Z.of_nat (length slice); storer_store := slice |}.

(** [DefaultStorer]: [tl_calc_length] and [tl_store_unsafe] of the object. *)
Definition create_default_storer {A} `{TlCodec A} (from : A) : Res StorerObject :=
  let* len := tl_store from (mkTlStorerCalcLength 0) in
  let* st := tl_store from (mkTlStorerUnsafe []) in
  Ok {| storer_size := get_length len; storer_store := buf_ st |}.

(** A storer that writes what it announces. *)
Definition storer_ok (st : StorerObject) : Prop :=
  storer_size st = Z.of_nat (length (storer_store st)) /\ bytes (storer_store st).

(** ** Events *)
Definition MAX_SIZE : Z := 2 ^ 24.
Definition HEADER_SIZE : Z := 4 + 8 + 4 + 4 + 8.
Definition TAIL_SIZE : Z := 4.
Definition MIN_SIZE : Z := HEADER_SIZE + TAIL_SIZE.

Record BinlogEvent := {
  offset_ : Z;
  size_ : Z;
  id_ : Z;
  type_ : Z;
  flags_ : Z;
  extra_ : Z;
  crc32_ : Z;
  raw_event_ : list Z;
}.

Definition default_event : BinlogEvent :=
  {| offset_ := -1; size_ := 0; id_ := 0; type_ := 0; flags_ := 0; extra_ := 0; crc32_ := 0; raw_event_ := [] |}.

Module ServiceTypes.
Definition Header : Z := -1.
Definition Empty : Z := -2.
Definition AesCtrEncryption : Z := -3.
Definition NoEncryption : Z := -4.
End ServiceTypes.

Module Flags.
Definition Rewrite : Z := 1.
Definition Partial : Z := 2.
End Flags.

(** [event.flags_ & flag], and [event.flags_ &= ~flag]. *)
Definition has_flag (flag : Z) (ev : BinlogEvent) : bool := negb (Z.land (flags_ ev) flag =? 0).
Definition clear_flag (flag : Z) (ev : BinlogEvent) : BinlogEvent :=
  {| offset_ := offset_ ev; size_ := size_ ev; id_ := id_ ev; type_ := type_ ev;
     flags_ := Z.land (flags_ ev) (Z.lnot flag); extra_ := extra_ ev; crc32_ := crc32_ ev;
     raw_event_ := raw_event_ ev |}.

Definition set_offset (off : Z) (ev : BinlogEvent) : BinlogEvent :=
  {| offset_ := off; size_ := size_ ev; id_ := id_ ev; type_ := type_ ev; flags_ := flags_ ev;
     extra_ := extra_ ev; crc32_ := crc32_ ev; raw_event_ := raw_event_ ev |}.

Definition init (raw_event : list Z) : Res BinlogEvent :=
  let p := TlParser_new raw_event in
  let* (size, p) := fetch_int p in
  let size := u32 size in
  CHECK! size =? Z.of_nat (length raw_event) else "size_ == raw_event.size()" in
  let* (id, p) := fetch_long p in
  let* (type, p) := fetch_int p in
  let* (flags, p) := fetch_int p in
  let* (extra, p) := fetch_long p in
  CHECK! MIN_SIZE <=? size else "size_ >= MIN_SIZE" in
  let* (_, p) := fetch_string_raw (size - MIN_SIZE) p in
  let* (crc, p) := fetch_int p in
  Ok {| offset_ := -1; size_ := size; id_ := u64 id; type_ := type; flags_ := flags;
        extra_ := u64 extra; crc32_ := u32 crc; raw_event_ := raw_event |}.

Definition get_data (ev : BinlogEvent) : Res (list Z) :=
  CHECK! MIN_SIZE <=? Z.of_nat (length (raw_event_ ev)) else "raw_event_.size() >= MIN_SIZE" in
  Ok (take (length (raw_event_ ev) - Z.to_nat MIN_SIZE) (drop (Z.to_nat HEADER_SIZE) (raw_event_ ev))).

Definition is_empty (ev : BinlogEvent) : bool := Nat.eqb (length (raw_event_ ev)) 0.

Section with_crc32.
Context (crc32 : list Z -> Z).

Definition validate (ev : BinlogEvent) : Res unit :=
  if Z.of_nat (length (raw_event_ ev)) <? MIN_SIZE then Error 0 "Too small event"
  else
    let p := TlParser_new (raw_event_ ev) in
    let* (size, p) := fetch_int p in
    let size := u32 size in
    if (negb (size_ ev =? size) || negb (size_ ev =? Z.of_nat (length (raw_event_ ev))))%bool then
      Error 0 "Size of event changed"
    else
      let* (_, p) := fetch_string_raw (u64 (size_ ev - TAIL_SIZE - 4)) p in
      let* (stored, p) := fetch_int p in
      let stored_crc32 := u32 stored in
      let calculated_crc := crc32 (take (Z.to_nat (size_ ev - TAIL_SIZE)) (raw_event_ ev)) in
      if (negb (calculated_crc =? crc32_ ev) || negb (calculated_crc =? stored_crc32))%bool then
        Error 0 "CRC mismatch"
      else Ok tt.

(** [narrow_cast<int32>] of a [size_t]. *)
Definition narrow_cast_int32 (z : Z) : Res Z :=
  CHECK! z <? 2 ^ 31 else "narrow_cast" in Ok z.

Definition create_raw (id type flags : Z) (storer : StorerObject) : Res (list Z) :=
  let raw_size := u64 (storer_size storer + MIN_SIZE) in
  let* size := narrow_cast_int32 raw_size in
  let* s := store_binary (le_bytes 4 size) (mkTlStorerUnsafe []) in
  let* s := store_binary (le_bytes 8 id) s in
  let* s := store_binary (le_bytes 4 type) s in
  let* s := store_binary (le_bytes 4 flags) s in
  let* s := store_binary (le_bytes 8 0) s in
  CHECK! Z.of_nat (length (buf_ s)) =? HEADER_SIZE else "HEADER_SIZE" in
  let* s := store_slice (storer_store storer) s in
  CHECK! Z.of_nat (length (buf_ s)) =? raw_size - TAIL_SIZE else "TAIL_SIZE" in
  let* s := store_binary (le_bytes 4 (crc32 (buf_ s))) s in
  Ok (buf_ s).

Definition clone (ev : BinlogEvent) : Res BinlogEvent :=
  let* result := init (raw_event_ ev) in
  match validate result with
  | Ok _ => Ok result
  | Error _ m => Panic m
  | Panic w => Panic w
  end.

(** ** [BinlogReader] *)
Inductive ReaderState := ReadLength | ReadEvent.

(** [input_]: the bytes that were read from the file and not cut yet. *)
Record BinlogReader := {
  input_ : list Z;
  state_ : ReaderState;
  reader_size_ : Z;
  reader_offset_ : Z;
}.

Definition new_reader (input : list Z) : BinlogReader :=
  {| input_ := input; state_ := ReadLength; reader_size_ := 0; reader_offset_ := 0 |}.

(** The first part: the length of the next event; [inl n] when [n] bytes are needed. *)
Definition read_length (r : BinlogReader) : Res (Z + BinlogReader) :=
  match state_ r with
  | ReadEvent => Ok (inr r)
  | ReadLength =>
      if Z.of_nat (length (input_ r)) <? 4 then Ok (inl 4)
      else
        let* (v, _) := fetch_int (TlParser_new (take 4 (input_ r))) in
        let size := u64 v in
        if MAX_SIZE <? size then Error 0 "Too big event"
        else if size <? MIN_SIZE then Error 0 "Too small event"
        else if negb (size mod 4 =? 0) then Error (-2) "Event of size not divisible by 4"
        else Ok (inr {| input_ := input_ r; state_ := ReadEvent; reader_size_ := size;
                        reader_offset_ := reader_offset_ r |})
  end.

(** The result: the number of bytes needed and the event, present when it is 0. *)
Definition read_next (r : BinlogReader) : Res (Z * option BinlogEvent * BinlogReader) :=
  let* l := read_length r in
  match l with
  | inl n => Ok (n, None, r)
  | inr r =>
      let size := reader_size_ r in
      if Z.of_nat (length (input_ r)) <? size then Ok (size, None, r)
      else
        let n := Z.to_nat size in
        let* ev := init (take n (input_ r)) in
        let* _ := validate ev in
        let off := reader_offset_ r + size in
        Ok (0, Some (set_offset off ev),
            {| input_ := drop n (input_ r); state_ := ReadLength; reader_size_ := size; reader_offset_ := off |})
  end.
End with_crc32.

(** ** Lemmas *)

(** An unsigned little-endian field of [n] bytes at position [i]. *)
Definition field (raw : list Z) (i n : nat) : Z := le_val (take n (drop i raw)).

Lemma fetch_binary_at dl raw i n : (i + n <= length raw)%nat ->
  fetch_binary (Z.of_nat n) (clean dl (drop i raw)) = Ok (take n (drop i raw), clean dl (drop (i + n) raw)).
Proof.
  intros H. rewrite <- (take_drop n (drop i raw)) at 1. rewrite fetch_binary_clean.
  - by rewrite drop_drop.
  - rewrite length_take, length_drop. lia.
Qed.

Lemma fetch_int_at dl raw i : (i + 4 <= length raw)%nat ->
  fetch_int (clean dl (drop i raw)) = Ok (s32 (field raw i 4), clean dl (drop (i + 4) raw)).
Proof.
  intros H. pose proof (fetch_binary_at dl raw i 4 H) as E. change (Z.of_nat 4) with 4 in E.
  by rewrite fetch_int_binary, E.
Qed.

Lemma fetch_long_at dl raw i : (i + 8 <= length raw)%nat ->
  fetch_long (clean dl (drop i raw)) = Ok (s64 (field raw i 8), clean dl (drop (i + 8) raw)).
Proof.
  intros H. pose proof (fetch_binary_at dl raw i 8 H) as E. change (Z.of_nat 8) with 8 in E.
  by rewrite fetch_long_binary, E.
Qed.

Lemma fetch_string_raw_at dl raw i n : 0 <= n -> Z.of_nat i + n <= Z.of_nat (length raw) ->
  fetch_string_raw n (clean dl (drop i raw))
  = Ok (take (Z.to_nat n) (drop i raw), clean dl (drop (i + Z.to_nat n) raw)).
Proof.
  intros Hn H. unfold fetch_string_raw. rewrite check_len_ge by (rewrite length_drop; lia). cbn [res_bind].
  change (error_empty _) with true. cbn [negb data]. rewrite offset_ok, read_ok by (rewrite length_drop; lia).
  cbn [res_bind]. rewrite drop_drop. unfold with_data, clean. cbn [data_len left_len error_pos TlCodec.error].
  rewrite !length_drop. do 4 f_equal. lia.
Qed.

Lemma field_bound raw i n : bytes raw -> 0 <= field raw i n < 2 ^ (8 * Z.of_nat n).
Proof.
  intros Hb. unfold field.
  assert (bytes (take n (drop i raw))) as Hb' by (by apply Forall_take, Forall_drop).
  pose proof (le_val_bound _ Hb') as H. rewrite length_take in H.
  assert (2 ^ (8 * Z.of_nat (n `min` length (drop i raw))) <= 2 ^ (8 * Z.of_nat n)) by (apply Z.pow_le_mono_r; lia).
  lia.
Qed.

Lemma u32_field raw i : bytes raw -> u32 (s32 (field raw i 4)) = field raw i 4.
Proof. intros Hb. rewrite u32_s32. apply u32_small. apply (field_bound raw i 4 Hb). Qed.
Lemma u64_field raw i : bytes raw -> u64 (s64 (field raw i 8)) = field raw i 8.
Proof. intros Hb. rewrite u64_s64. apply u64_small. apply (field_bound raw i 8 Hb). Qed.

(** What [init] reads of a raw event. *)
Definition event_of (raw : list Z) : BinlogEvent :=
  {| offset_ := -1; size_ := Z.of_nat (length raw); id_ := field raw 4 8; type_ := s32 (field raw 12 4);
     flags_ := s32 (field raw 16 4); extra_ := field raw 20 8;
     crc32_ := field raw (length raw - 4) 4; raw_event_ := raw |}.

Lemma new_clean raw : TlParser_new raw = clean (Z.of_nat (length raw)) (drop 0 raw).
Proof. done. Qed.

Lemma init_eq raw : bytes raw -> (32 <= length raw)%nat ->
  init raw = if field raw 0 4 =? Z.of_nat (length raw) then Ok (event_of raw)
             else Panic "size_ == raw_event.size()".
Proof.
  intros Hb Hl. unfold init. rewrite new_clean, fetch_int_at by lia. cbn [res_bind].
  rewrite u32_field by done. case_if; [|done].
  rewrite fetch_long_at by lia. cbn [res_bind]. rewrite fetch_int_at by lia. cbn [res_bind].
  rewrite fetch_int_at by lia. cbn [res_bind]. rewrite fetch_long_at by lia. cbn [res_bind].
  rewrite E, (proj2 (Z.leb_le MIN_SIZE _)) by (unfold MIN_SIZE, HEADER_SIZE, TAIL_SIZE; lia).
  unfold MIN_SIZE, HEADER_SIZE, TAIL_SIZE. rewrite fetch_string_raw_at by lia. cbn [res_bind].
  rewrite fetch_int_at by lia. cbn [res_bind]. rewrite !u64_field, u32_field by done.
  unfold event_of. do 3 f_equal. lia.
Qed.

Section with_crc32_lemmas.
Context (crc32 : list Z -> Z).

Lemma validate_eq raw off fl : bytes raw -> (32 <= length raw)%nat -> Z.of_nat (length raw) < 2 ^ 32 ->
  validate crc32 {| offset_ := off; size_ := Z.of_nat (length raw); id_ := field raw 4 8; type_ := s32 (field raw 12 4);
     flags_ := fl; extra_ := field raw 20 8; crc32_ := field raw (length raw - 4) 4; raw_event_ := raw |}
  = if negb (Z.of_nat (length raw) =? field raw 0 4) then Error 0 "Size of event changed"
    else if crc32 (take (length raw - 4) raw) =? field raw (length raw - 4) 4 then Ok tt
    else Error 0 "CRC mismatch".
Proof.
  intros Hb Hl Hs. unfold validate. cbn [raw_event_ size_ crc32_].
  rewrite (proj2 (Z.ltb_ge _ MIN_SIZE)) by (unfold MIN_SIZE, HEADER_SIZE, TAIL_SIZE; lia).
  rewrite new_clean, fetch_int_at by lia. cbn [res_bind]. rewrite u32_field, Z.eqb_refl by done.
  rewrite orb_false_r. case_if; [done|]. unfold TAIL_SIZE.
  rewrite u64_small by (unfold is_u64; lia). rewrite fetch_string_raw_at by lia. cbn [res_bind].
  replace (0 + 4 + Z.to_nat (Z.of_nat (length raw) - 4 - 4))%nat with (length raw - 4)%nat by lia.
  rewrite fetch_int_at by lia. cbn [res_bind]. rewrite u32_field by done.
  replace (Z.to_nat (Z.of_nat (length raw) - 4)) with (length raw - 4)%nat by lia.
  by destruct (crc32 _ =? _).
Qed.

Lemma validate_event_of raw : bytes raw -> (32 <= length raw)%nat -> Z.of_nat (length raw) < 2 ^ 32 ->
  validate crc32 (event_of raw)
  = if negb (Z.of_nat (length raw) =? field raw 0 4) then Error 0 "Size of event changed"
    else if crc32 (take (length raw - 4) raw) =? field raw (length raw - 4) 4 then Ok tt
    else Error 0 "CRC mismatch".
Proof. apply validate_eq. Qed.

(** The raw events the reader accepts. *)
Record raw_ok (raw : list Z) : Prop := {
  raw_bytes : bytes raw;
  raw_len : MIN_SIZE <= Z.of_nat (length raw) <= MAX_SIZE;
  raw_align : Z.of_nat (length raw) mod 4 = 0;
  raw_size : field raw 0 4 = Z.of_nat (length raw);
  raw_crc : crc32 (take (length raw - 4) raw) = field raw (length raw - 4) 4;
}.

Lemma raw_ok_len raw : raw_ok raw -> (32 <= length raw)%nat /\ Z.of_nat (length raw) < 2 ^ 32.
Proof. intros [_ H _ _ _]. unfold MIN_SIZE, HEADER_SIZE, TAIL_SIZE, MAX_SIZE in H. lia. Qed.

Lemma init_ok raw : raw_ok raw -> init raw = Ok (event_of raw).
Proof.
  intros H. pose proof (raw_ok_len raw H) as [Hl _]. rewrite init_eq; [|apply H|done].
  rewrite (raw_size raw H). by rewrite Z.eqb_refl.
Qed.

Lemma validate_ok raw : raw_ok raw -> validate crc32 (event_of raw) = Ok tt.
Proof.
  intros H. pose proof (raw_ok_len raw H) as [Hl Hu]. rewrite validate_event_of; [|apply H|done|done].
  rewrite (raw_size raw H), (raw_crc raw H), !Z.eqb_refl. done.
Qed.

(** The bytes [create_raw] makes. *)
Definition raw_body (id type flags : Z) (dat : list Z) : list Z :=
  le_bytes 4 (Z.of_nat (length dat) + MIN_SIZE) ++ le_bytes 8 id ++ le_bytes 4 type ++ le_bytes 4 flags ++
  le_bytes 8 0 ++ dat.
Definition raw_of (id type flags : Z) (dat : list Z) : list Z :=
  raw_body id type flags dat ++ le_bytes 4 (crc32 (raw_body id type flags dat)).

Lemma length_raw_body id type flags dat : length (raw_body id type flags dat) = (28 + length dat)%nat.
Proof. unfold raw_body. rewrite !length_app, !length_le_bytes. lia. Qed.

Lemma length_raw_of id type flags dat : length (raw_of id type flags dat) = (32 + length dat)%nat.
Proof. unfold raw_of. rewrite length_app, length_raw_body, length_le_bytes. lia. Qed.

Lemma create_raw_ok id type flags st : storer_ok st -> storer_size st + MIN_SIZE < 2 ^ 31 ->
  create_raw crc32 id type flags st = Ok (raw_of id type flags (storer_store st)).
Proof.
  intros [Hs _] Hl. unfold create_raw, narrow_cast_int32. unfold MIN_SIZE, HEADER_SIZE, TAIL_SIZE in *.
  rewrite u64_small by (unfold is_u64; lia). rewrite (proj2 (Z.ltb_lt _ _)) by lia. cbn -[le_bytes Z.eqb Z.pow].
  rewrite !length_app, !length_le_bytes. cbn [Nat.add]. eval_tests.
  rewrite (proj2 (Z.eqb_eq _ _)) by lia. cbn -[le_bytes]. unfold raw_of, raw_body, MIN_SIZE, HEADER_SIZE, TAIL_SIZE.
  rewrite Hs. by rewrite <- !app_assoc.
Qed.

Lemma field_app_r x y i n k : length x = k -> field (x ++ y) (k + i) n = field y i n.
Proof. intros <-. unfold field. by rewrite drop_app_add. Qed.

Lemma field_app_l x y n : length x = n -> field (x ++ y) 0 n = le_val x.
Proof. intros H. unfold field. by rewrite drop_0, take_app_length'. Qed.

Lemma le_val_bytes_range n z : 0 <= z < 2 ^ (8 * Z.of_nat n) -> le_val (le_bytes n z) = z.
Proof. intros H. rewrite le_val_le_bytes. by apply Z.mod_small. Qed.

Lemma raw_of_fields id type flags dat :
  field (raw_of id type flags dat) 4 8 = u64 id /\
  field (raw_of id type flags dat) 12 4 = u32 type /\
  field (raw_of id type flags dat) 16 4 = u32 flags /\
  field (raw_of id type flags dat) 20 8 = 0.
Proof.
  unfold raw_of, raw_body. rewrite <- !app_assoc.
  rewrite (field_app_r _ _ 0 8 4), (field_app_r _ _ 8 4 4), (field_app_r _ _ 12 4 4), (field_app_r _ _ 16 8 4) by apply length_le_bytes.
  rewrite (field_app_r _ _ 0 4 8), (field_app_r _ _ 4 4 8), (field_app_r _ _ 8 8 8) by apply length_le_bytes.
  rewrite (field_app_r _ _ 0 4 4), (field_app_r _ _ 4 8 4), (field_app_r _ _ 0 8 4) by apply length_le_bytes.
  rewrite !field_app_l by apply length_le_bytes. by rewrite !le_val_le_bytes.
Qed.

Lemma raw_of_bytes id type flags dat : bytes dat -> bytes (raw_of id type flags dat).
Proof.
  intros H. unfold raw_of, raw_body. repeat (apply Forall_app; split); first [done | apply le_bytes_bytes].
Qed.

Lemma raw_of_tail id type flags dat :
  take (length (raw_of id type flags dat) - 4) (raw_of id type flags dat) = raw_body id type flags dat /\
  field (raw_of id type flags dat) (length (raw_of id type flags dat) - 4) 4 = u32 (crc32 (raw_body id type flags dat)).
Proof.
  rewrite length_raw_of. unfold raw_of. replace (32 + length dat - 4)%nat with (28 + length dat)%nat by lia.
  rewrite take_app_length' by (by rewrite length_raw_body). split; [done|].
  rewrite <- (Nat.add_0_r (28 + length dat)), (field_app_r _ _ 0 4 _ (length_raw_body id type flags dat)).
  unfold field. rewrite drop_0, take_ge, le_val_le_bytes by (by rewrite length_le_bytes). done.
Qed.

Context (crc32_range : forall s, is_u32 (crc32 s)).

Lemma raw_of_ok id type flags dat : bytes dat -> Z.of_nat (length dat) + MIN_SIZE <= MAX_SIZE ->
  Z.of_nat (length dat) mod 4 = 0 -> raw_ok (raw_of id type flags dat).
Proof.
  intros Hb Hl Ha. unfold MIN_SIZE, MAX_SIZE, HEADER_SIZE, TAIL_SIZE in *.
  destruct (raw_of_tail id type flags dat) as [Ht Hf].
  split; [by apply raw_of_bytes|..]; unfold MIN_SIZE, MAX_SIZE, HEADER_SIZE, TAIL_SIZE.
  - rewrite length_raw_of. lia.
  - rewrite length_raw_of. rewrite Nat2Z.inj_add, Zplus_mod, Ha. done.
  - rewrite length_raw_of. unfold raw_of, raw_body. rewrite <- !app_assoc, field_app_l by apply length_le_bytes.
    rewrite le_val_bytes_range; unfold MIN_SIZE, HEADER_SIZE, TAIL_SIZE; simpl Z.mul; lia.
  - rewrite Ht, Hf. symmetry. apply u32_small, crc32_range.
Qed.

Lemma event_of_raw_of id type flags dat : is_u64 id -> is_s32 type -> is_s32 flags ->
  event_of (raw_of id type flags dat) =
  {| offset_ := -1; size_ := 32 + Z.of_nat (length dat); id_ := id; type_ := type; flags_ := flags; extra_ := 0;
     crc32_ := crc32 (raw_body id type flags dat); raw_event_ := raw_of id type flags dat |}.
Proof.
  intros Hi Ht Hf. unfold event_of. destruct (raw_of_fields id type flags dat) as (-> & -> & -> & ->).
  destruct (raw_of_tail id type flags dat) as [_ ->]. rewrite u64_small, (u32_small (crc32 _)) by auto.
  unfold u32. rewrite !s32_mod, !s32_small by done. rewrite length_raw_of. f_equal. lia.
Qed.

Lemma get_data_raw_of off sz id0 ty fl ex crc id type flags dat :
  get_data {| offset_ := off; size_ := sz; id_ := id0; type_ := ty; flags_ := fl; extra_ := ex; crc32_ := crc;
              raw_event_ := raw_of id type flags dat |} = Ok dat.
Proof.
  unfold get_data. cbn [raw_event_]. rewrite length_raw_of. unfold MIN_SIZE, HEADER_SIZE, TAIL_SIZE.
  rewrite (proj2 (Z.leb_le _ _)) by lia. f_equal.
  replace (32 + length dat - Z.to_nat (4 + 8 + 4 + 4 + 8 + 4))%nat with (length dat) by lia.
  unfold raw_of, raw_body. rewrite <- !app_assoc.
  rewrite (drop_app_ge _ _ (Z.to_nat _)), length_le_bytes by (rewrite length_le_bytes; lia).
  do 4 (rewrite drop_app_ge by (rewrite !length_le_bytes; lia)). rewrite !length_le_bytes. simpl Z.to_nat.
  cbn [Nat.sub Pos.to_nat Pos.iter_op Nat.add]. rewrite drop_0. by rewrite take_app_length.
Qed.

(** *** The reader *)
Lemma field_take raw k i n : (i + n <= k)%nat -> field (take k raw) i n = field raw i n.
Proof.
  intros H. unfold field. rewrite skipn_firstn_comm, take_take. do 2 f_equal. lia.
Qed.

Lemma field_app_same x y i n : (i + n <= length x)%nat -> field (x ++ y) i n = field x i n.
Proof.
  intros H. rewrite <- (take_app_length x y) at 2. symmetry. by apply field_take.
Qed.

(** What holds of a reader between calls; its input may grow in between. *)
Record reader_inv (r : BinlogReader) : Prop := {
  rinv_bytes : bytes (input_ r);
  rinv_event : state_ r = ReadEvent ->
    (4 <= length (input_ r))%nat /\ reader_size_ r = field (input_ r) 0 4 /\
    MIN_SIZE <= reader_size_ r <= MAX_SIZE /\ reader_size_ r mod 4 = 0;
}.

Lemma reader_inv_new input : bytes input -> reader_inv (new_reader input).
Proof. by split. Qed.

Definition feed (more : list Z) (r : BinlogReader) : BinlogReader :=
  {| input_ := input_ r ++ more; state_ := state_ r; reader_size_ := reader_size_ r;
     reader_offset_ := reader_offset_ r |}.

Lemma reader_inv_feed more r : bytes more -> reader_inv r -> reader_inv (feed more r).
Proof.
  intros Hm [Hb He]. split; simpl; [by apply Forall_app|]. intros Hs. destruct (He Hs) as (Hl & Hsz & ?).
  rewrite length_app. split; [lia|]. by rewrite field_app_same by lia.
Qed.

Lemma read_length_cases r : reader_inv r ->
  (exists c m, read_length r = Error c m) \/
  (read_length r = Ok (inl 4) /\ (length (input_ r) < 4)%nat) \/
  (exists r', read_length r = Ok (inr r') /\ reader_inv r' /\ state_ r' = ReadEvent /\
     input_ r' = input_ r /\ reader_offset_ r' = reader_offset_ r).
Proof.
  intros Hi. unfold read_length. destruct (state_ r) eqn:Es; [|right; right; by exists r].
  case_if; [right; left; split; [done|lia]|].
  rewrite new_clean, fetch_int_at by (rewrite length_take; lia). cbn [res_bind].
  pose proof (rinv_bytes r Hi) as Hb. rewrite field_take by lia.
  set (v := u64 (s32 (field (input_ r) 0 4))). repeat (case_if; [left; eauto|]). zbool.
  right. right. eexists. split; [done|]. split; [|done]. split; [done|]. intros _. cbn [input_ reader_size_].
  assert (v = field (input_ r) 0 4) as Hv.
  { pose proof (field_bound (input_ r) 0 4 Hb) as Hf. subst v. unfold MAX_SIZE, u64, s32 in *. simpl Z.mul in Hf.
    eval_pows. Z.to_euclidean_division_equations. lia. }
  split_and!; [lia|done|lia|lia|done].
Qed.

(** Every outcome of [read_next]: an error, a request for more bytes than there
    are, or the first bytes of the input as an intact event. *)
Lemma read_next_cases r : reader_inv r ->
  (exists c m, read_next crc32 r = Error c m) \/
  (exists need r', read_next crc32 r = Ok (need, None, r') /\ reader_inv r' /\
     Z.of_nat (length (input_ r)) < need /\ input_ r' = input_ r /\ reader_offset_ r' = reader_offset_ r) \/
  (exists raw r', read_next crc32 r = Ok (0, Some (set_offset (reader_offset_ r') (event_of raw)), r') /\
     reader_inv r' /\ state_ r' = ReadLength /\ raw_ok raw /\ input_ r = raw ++ input_ r' /\
     reader_offset_ r' = reader_offset_ r + Z.of_nat (length raw)).
Proof.
  intros Hi. unfold read_next.
  destruct (read_length_cases r Hi) as [(c & m & ->)|[[-> Hl]|(r1 & -> & Hi1 & Hs1 & Hin & Hoff)]]; cbn [res_bind].
  - left. eauto.
  - right. left. exists 4, r. split_and!; [done|done|lia|done|done].
  - destruct (rinv_event r1 Hi1 Hs1) as (Hl4 & Hsz & Hb & Ha). rewrite <- Hin, <- Hoff. case_if.
    { right. left. by exists (reader_size_ r1), r1. }
    unfold MIN_SIZE, MAX_SIZE, HEADER_SIZE, TAIL_SIZE in Hb.
    set (n := Z.to_nat (reader_size_ r1)). set (raw := take n (input_ r1)).
    assert (length raw = n) as Hln by (subst raw; rewrite length_take; lia).
    assert (bytes raw) as Hbr by (apply Forall_take, Hi1).
    assert (field raw 0 4 = Z.of_nat (length raw)) as Hf by (subst raw; rewrite field_take by lia; lia).
    rewrite init_eq, Hf, Z.eqb_refl by (done || lia). cbn [res_bind].
    rewrite validate_event_of by (done || lia). rewrite Hf, Z.eqb_refl. cbn [negb].
    destruct (crc32 _ =? _) eqn:Ec; [|left; cbn; eauto]. zbool. cbn [res_bind].
    right. right. exists raw, {| input_ := drop n (input_ r1); state_ := ReadLength; reader_size_ := reader_size_ r1;
      reader_offset_ := reader_offset_ r1 + reader_size_ r1 |}. split; [done|].
    cbn [input_ state_ reader_size_ reader_offset_]. split_and!.
    + split; cbn; [apply Forall_drop, Hi1|done].
    + done.
    + split; [done| |rewrite Hln|done|done]; unfold MIN_SIZE, MAX_SIZE, HEADER_SIZE, TAIL_SIZE.
      * lia.
      * subst n. by rewrite Z2Nat.id by lia.
    + subst raw. by rewrite take_drop.
    + lia.
Qed.

Lemma field_prefix_size raw k : raw_ok raw -> (4 <= k <= length raw)%nat ->
  field (take k raw) 0 4 = Z.of_nat (length raw).
Proof. intros H Hk. rewrite field_take by lia. apply H. Qed.

(** The reader on the bytes of an event, followed by anything or cut short. *)
Lemma read_length_raw raw k rest r : raw_ok raw -> reader_inv r -> (4 <= k <= length raw)%nat ->
  input_ r = take k raw ++ rest ->
  read_length r = Ok (inr {| input_ := input_ r; state_ := ReadEvent; reader_size_ := Z.of_nat (length raw);
                             reader_offset_ := reader_offset_ r |}).
Proof.
  intros H Hi Hk Hin. pose proof (raw_len raw H) as Hl. unfold MIN_SIZE, MAX_SIZE, HEADER_SIZE, TAIL_SIZE in Hl.
  assert (field (input_ r) 0 4 = Z.of_nat (length raw)) as Hf.
  { rewrite Hin, field_app_same, field_prefix_size by (done || rewrite ?length_take; lia). done. }
  unfold read_length. destruct (state_ r) eqn:Es.
  - rewrite (proj2 (Z.ltb_ge _ 4)) by (rewrite Hin, length_app, length_take; lia).
    rewrite new_clean, fetch_int_at by (rewrite length_take, Hin, length_app, length_take; lia). cbn [res_bind].
    rewrite field_take, Hf by lia. rewrite s32_small, u64_small by (unfold is_s32, is_u64; lia).
    unfold MIN_SIZE, MAX_SIZE, HEADER_SIZE, TAIL_SIZE. rewrite (raw_align raw H).
    by rewrite !(proj2 (Z.ltb_ge _ _)) by lia.
  - destruct (rinv_event r Hi Es) as (_ & Hsz & _ & _). rewrite Hf in Hsz. destruct r. cbn in *. by subst.
Qed.

Lemma read_next_raw raw rest r : raw_ok raw -> reader_inv r -> input_ r = raw ++ rest ->
  read_next crc32 r =
  Ok (0, Some (set_offset (reader_offset_ r + Z.of_nat (length raw)) (event_of raw)),
      {| input_ := rest; state_ := ReadLength; reader_size_ := Z.of_nat (length raw);
         reader_offset_ := reader_offset_ r + Z.of_nat (length raw) |}).
Proof.
  intros H Hi Hin. pose proof (raw_ok_len raw H) as [Hl Hu]. unfold read_next.
  rewrite (read_length_raw raw (length raw) rest) by (rewrite ?take_ge; done || lia). cbn [res_bind input_ reader_size_].
  rewrite Hin, (proj2 (Z.ltb_ge _ _)) by (rewrite length_app; lia). rewrite Nat2Z.id, take_app_length, drop_app_length.
  rewrite init_ok by done. cbn [res_bind]. by rewrite validate_ok by done.
Qed.

Lemma read_next_short raw k r : raw_ok raw -> reader_inv r -> (k < length raw)%nat ->
  input_ r = take k raw ->
  exists need r', read_next crc32 r = Ok (need, None, r') /\ Z.of_nat k < need <= Z.of_nat (length raw) /\
    reader_inv r' /\ input_ r' = input_ r /\ reader_offset_ r' = reader_offset_ r.
Proof.
  intros H Hi Hk Hin. pose proof (raw_ok_len raw H) as [Hl _].
  assert (exists need r', read_next crc32 r = Ok (need, None, r') /\ need <= Z.of_nat (length raw)) as (need & r' & Hr & Hn).
  { unfold read_next. destruct (decide (k < 4)%nat).
    - assert (read_length r = Ok (inl 4)) as ->.
      { unfold read_length. destruct (state_ r) eqn:Es.
        - rewrite Hin, length_take, (proj2 (Z.ltb_lt _ _)) by lia. done.
        - destruct (rinv_event r Hi Es) as [Hc _]. rewrite Hin, length_take in Hc. lia. }
      eexists _, _. split; [done|]. lia.
    - rewrite (read_length_raw raw k []) by (rewrite ?app_nil_r; done || lia). cbn [res_bind input_ reader_size_].
      rewrite Hin, (proj2 (Z.ltb_lt _ _)) by (rewrite length_take; lia). eexists _, _. split; [done|]. lia. }
  destruct (read_next_cases r Hi) as [(c & m & E)|[(need' & r1 & E & ? & Hlt & ? & ?)|(raw' & r1 & E & _)]];
    rewrite Hr in E; try discriminate.
  injection E as -> ->. rewrite Hin, length_take in Hlt. exists need', r1. split_and!; try done; lia.
Qed.

Lemma read_next_empty r : reader_inv r -> input_ r = [] -> read_next crc32 r = Ok (4, None, r).
Proof.
  intros Hi Hin. unfold read_next, read_length. destruct (state_ r) eqn:Es.
  - by rewrite Hin.
  - destruct (rinv_event r Hi Es) as [Hc _]. rewrite Hin in Hc. simpl in Hc. lia.
Qed.
End with_crc32_lemmas.

(** An event made by [create_raw] for the bytes [dat] is read back by the
    reader from the front of any stream of bytes, with the same id, type,
    flags and data and with the offset of its end; the reader is then at the
    rest of the stream. *)
Theorem binlog_event_roundtrip crc32 id type flags dat rest off :
  (forall s, is_u32 (crc32 s)) -> is_u64 id -> is_s32 type -> is_s32 flags -> bytes dat -> bytes rest ->
  Z.of_nat (length dat) + MIN_SIZE <= MAX_SIZE -> Z.of_nat (length dat) mod 4 = 0 ->
  exists raw ev,
    create_raw crc32 id type flags (create_storer dat) = Ok raw /\
    read_next crc32 {| input_ := raw ++ rest; state_ := ReadLength; reader_size_ := 0; reader_offset_ := off |}
    = Ok (0, Some ev, {| input_ := rest; state_ := ReadLength; reader_size_ := size_ ev;
                         reader_offset_ := offset_ ev |}) /\
    id_ ev = id /\ type_ ev = type /\ flags_ ev = flags /\ get_data ev = Ok dat /\
    offset_ ev = off + Z.of_nat (length dat) + MIN_SIZE /\ raw_event_ ev = raw.
Proof.
  intros Hc Hi Ht Hf Hb Hbr Hl Ha. unfold MAX_SIZE in Hl.
  exists (raw_of crc32 id type flags dat),
    (set_offset (off + Z.of_nat (length (raw_of crc32 id type flags dat))) (event_of (raw_of crc32 id type flags dat))).
  split; [apply create_raw_ok; [by split|simpl; unfold MIN_SIZE, HEADER_SIZE, TAIL_SIZE in *; lia]|].
  rewrite (read_next_raw crc32 (raw_of crc32 id type flags dat) rest); [|by apply raw_of_ok|split; [|done]|done].
  2: { cbn [input_]. apply Forall_app. split; [by apply raw_of_bytes|done]. }
  split; [done|]. rewrite event_of_raw_of by done. unfold set_offset. cbn -[get_data raw_of].
  rewrite get_data_raw_of, length_raw_of. split_and!; try done.
  unfold MIN_SIZE, HEADER_SIZE, TAIL_SIZE. lia.
Qed.

Lemma binlog_event_roundtrip_witness : exists raw ev,
    create_raw (fun s => Z.of_nat (length s) mod 2 ^ 32) 5 1 0 (create_storer [1; 2; 3; 4]) = Ok raw /\
    read_next (fun s => Z.of_nat (length s) mod 2 ^ 32)
      {| input_ := raw ++ [9; 9]; state_ := ReadLength; reader_size_ := 0; reader_offset_ := 64 |}
    = Ok (0, Some ev, {| input_ := [9; 9]; state_ := ReadLength; reader_size_ := size_ ev;
                         reader_offset_ := offset_ ev |}) /\
    id_ ev = 5 /\ type_ ev = 1 /\ flags_ ev = 0 /\ get_data ev = Ok [1; 2; 3; 4] /\
    offset_ ev = 64 + Z.of_nat (length [1; 2; 3; 4]) + MIN_SIZE /\ raw_event_ ev = raw.
Proof.
  apply (binlog_event_roundtrip (fun s => Z.of_nat (length s) mod 2 ^ 32) 5 1 0 [1; 2; 3; 4] [9; 9] 64).
  - intros s. apply (Z.mod_pos_bound _ (2 ^ 32)). lia.
  - unfold is_u64. lia.
  - unfold is_s32. lia.
  - unfold is_s32. lia.
  - repeat constructor; unfold is_byte; lia.
  - repeat constructor; unfold is_byte; lia.
  - vm_compute. discriminate.
  - reflexivity.
Defined.

(** C35. On arbitrary bytes [read_next] stays inside its buffers and breaks no
    check: it reports an error, asks for more bytes than it has, or cuts off
    the first bytes of the input, which form an event with a correct length,
    alignment and checksum, and nothing else. *)
Theorem binlog_reader_safe crc32 r : reader_inv r ->
  match read_next crc32 r with
  | Panic _ => False
  | Error _ _ => True
  | Ok (need, None, r') => Z.of_nat (length (input_ r)) < need /\ input_ r' = input_ r /\ reader_inv r'
  | Ok (need, Some ev, r') => need = 0 /\ reader_inv r' /\ raw_ok crc32 (raw_event_ ev) /\
      input_ r = raw_event_ ev ++ input_ r' /\ validate crc32 ev = Ok tt /\
      offset_ ev = reader_offset_ r' /\ reader_offset_ r' = reader_offset_ r + size_ ev
  end.
Proof.
  intros Hi. destruct (read_next_cases crc32 r Hi) as
    [(c & m & ->)|[(need & r' & -> & ? & ? & ? & _)|(raw & r' & -> & ? & _ & Hr & ? & Ho)]]; [done|done|].
  split; [done|]. cbn. split_and!; try done. destruct (raw_ok_len crc32 raw Hr) as [? ?].
  unfold set_offset, event_of. cbn. rewrite validate_eq by (done || apply Hr).
  by rewrite (raw_size crc32 raw Hr), (raw_crc crc32 raw Hr), !Z.eqb_refl.
Qed.

Lemma binlog_reader_safe_witness :
  match read_next (fun _ => 0) (new_reader (le_bytes 4 32 ++ replicate 24 7 ++ [0; 0; 0; 0] ++ [1])) with
  | Ok (need, Some ev, r') => need = 0 /\ reader_inv r' /\ raw_ok (fun _ => 0) (raw_event_ ev) /\
      le_bytes 4 32 ++ replicate 24 7 ++ [0; 0; 0; 0] ++ [1] = raw_event_ ev ++ input_ r' /\
      validate (fun _ => 0) ev = Ok tt /\ offset_ ev = reader_offset_ r' /\ reader_offset_ r' = 0 + size_ ev
  | _ => False
  end.
Proof.
  exact (binlog_reader_safe (fun _ => 0) (new_reader (le_bytes 4 32 ++ replicate 24 7 ++ [0; 0; 0; 0] ++ [1]))
    (reader_inv_new (le_bytes 4 32 ++ replicate 24 7 ++ [0; 0; 0; 0] ++ [1])
      ltac:(repeat constructor; unfold is_byte; vm_compute; intuition discriminate))).
Defined.

(** [MAX_SIZE] is checked only by the reader: an event above it is created
    and passes validation, so it can be written, but the reader rejects it and
    everything that follows it. *)
Theorem binlog_oversized_rejected crc32 id type flags dat rest :
  (forall s, is_u32 (crc32 s)) -> is_u64 id -> is_s32 type -> is_s32 flags -> bytes dat ->
  MAX_SIZE < Z.of_nat (length dat) + MIN_SIZE < 2 ^ 31 ->
  exists raw ev, create_raw crc32 id type flags (create_storer dat) = Ok raw /\ init raw = Ok ev /\
    validate crc32 ev = Ok tt /\ read_next crc32 (new_reader (raw ++ rest)) = Error 0 "Too big event".
Proof.
  intros Hc Hi Ht Hf Hb Hl. unfold MAX_SIZE, MIN_SIZE, HEADER_SIZE, TAIL_SIZE in Hl.
  set (raw := raw_of crc32 id type flags dat).
  assert (bytes raw) as Hbr by (by apply raw_of_bytes).
  assert (length raw = 32 + length dat)%nat as Hlen by apply length_raw_of.
  assert (field raw 0 4 = Z.of_nat (length raw)) as Hf0.
  { rewrite Hlen. subst raw. unfold raw_of, raw_body. rewrite <- !app_assoc, field_app_l by apply length_le_bytes.
    rewrite le_val_bytes_range; unfold MIN_SIZE, HEADER_SIZE, TAIL_SIZE; simpl Z.mul; lia. }
  exists raw, (event_of raw). split_and!.
  - apply create_raw_ok; [by split|]. simpl. unfold MIN_SIZE, HEADER_SIZE, TAIL_SIZE. lia.
  - rewrite init_eq by (done || lia). by rewrite Hf0, Z.eqb_refl.
  - rewrite validate_event_of by (done || lia). rewrite Hf0, Z.eqb_refl. cbn [negb].
    subst raw. destruct (raw_of_tail crc32 id type flags dat) as [-> ->]. by rewrite u32_small, Z.eqb_refl.
  - unfold read_next, read_length, new_reader. cbn [state_ input_].
    rewrite (proj2 (Z.ltb_ge _ 4)) by (rewrite length_app; lia).
    rewrite new_clean, fetch_int_at by (rewrite length_take, length_app; lia). cbn [res_bind].
    rewrite field_take, field_app_same, Hf0 by lia. rewrite s32_small, u64_small by (unfold is_s32, is_u64; lia).
    unfold MAX_SIZE. by rewrite (proj2 (Z.ltb_lt _ _)) by lia.
Qed.

Lemma binlog_oversized_rejected_witness :
  exists raw ev, create_raw (fun _ => 0) 1 5 0 (create_storer (replicate (Z.to_nat MAX_SIZE) 0)) = Ok raw /\ init raw = Ok ev /\
    validate (fun _ => 0) ev = Ok tt /\ read_next (fun _ => 0) (new_reader (raw ++ [])) = Error 0 "Too big event".
Proof.
  apply (binlog_oversized_rejected (fun _ => 0) 1 5 0 (replicate (Z.to_nat MAX_SIZE) 0) []);
    try (unfold is_u32, is_u64, is_s32; intros; lia).
  - apply Forall_replicate. unfold is_byte. lia.
  - rewrite length_replicate. unfold MAX_SIZE, MIN_SIZE, HEADER_SIZE, TAIL_SIZE. lia.
Defined.
