(* ===== verification/BinlogProcessor.v ===== *)
(** * The in-memory image of a binlog

    [BinlogEventsProcessor] (tddb/td/db/binlog/detail/BinlogEventsProcessor.h,
    BinlogEventsProcessor.cpp): two parallel vectors hold the events that a
    log leaves alive, in the order of their ids, with a tombstone bit in the
    id of an erased event and an occasional compaction.  The specification is
    a finite map from event ids to events.  Counters of elements held in
    memory are unbounded here. *)
From S2P Require Import Prelude BinlogEvent.
Local Open Scope td_scope.

Record processor := {
  event_ids_ : list Z;   (* event_id * 2 + was_deleted *)
  events_ : list BinlogEvent;
  total_events_ : Z;
  empty_events_ : Z;
  last_event_id_ : Z;
  proc_offset_ : Z;
  total_raw_events_size_ : Z;
}.

Definition init_processor : processor :=
  {| event_ids_ := []; events_ := []; total_events_ := 0; empty_events_ := 0; last_event_id_ := 0;
     proc_offset_ := 0; total_raw_events_size_ := 0 |}.

Definition raw_size_of (ev : BinlogEvent) : Z := Z.of_nat (length (raw_event_ ev)).

(** [std::lower_bound] on an ordered range: the number of elements below [v]. *)
Fixpoint lower_bound (l : list Z) (v : Z) : nat :=
  match l with
  | x :: l => if x <? v then S (lower_bound l v) else 0
  | [] => 0
  end.

(** The loop of [compactify] keeps the entries without the tombstone bit. *)
Fixpoint compact_loop (ids : list Z) (evs : list BinlogEvent) : list Z * list BinlogEvent :=
  match ids, evs with
  | id :: ids, ev :: evs =>
      let '(ids, evs) := compact_loop ids evs in
      if Z.land id 1 =? 0 then (id :: ids, ev :: evs) else (ids, evs)
  | _, _ => ([], [])
  end.

Definition compactify (p : processor) : Res processor :=
  CHECK! Nat.eqb (length (event_ids_ p)) (length (events_ p)) else "event_ids_.size() == events_.size()" in
  let '(ids, evs) := compact_loop (event_ids_ p) (events_ p) in
  CHECK! Nat.eqb (length ids) (length evs) else "event_ids_.size() == events_.size()" in
  Ok {| event_ids_ := ids; events_ := evs; total_events_ := Z.of_nat (length ids); empty_events_ := 0;
        last_event_id_ := last_event_id_ p; proc_offset_ := proc_offset_ p;
        total_raw_events_size_ := total_raw_events_size_ p |}.

(** The branches of [do_event]: rewriting or erasing an event by id, skipping a
    service event, and appending. *)
Definition rewrite_event (ev : BinlogEvent) (fixed : Z) (p : processor) : Res processor :=
  let pos := lower_bound (event_ids_ p) fixed in
  match event_ids_ p !! pos, events_ p !! pos with
  | Some id, Some old =>
      if negb (id =? fixed) then Error 0 "Ignore rewrite log event"
      else
        let total := total_raw_events_size_ p - raw_size_of old in
        if type_ ev =? ServiceTypes.Empty then
          Ok {| event_ids_ := <[pos := id + 1]> (event_ids_ p); events_ := <[pos := default_event]> (events_ p);
                total_events_ := total_events_ p; empty_events_ := empty_events_ p + 1;
                last_event_id_ := last_event_id_ p; proc_offset_ := proc_offset_ p;
                total_raw_events_size_ := total |}
        else
          Ok {| event_ids_ := event_ids_ p; events_ := <[pos := clear_flag Flags.Rewrite ev]> (events_ p);
                total_events_ := total_events_ p; empty_events_ := empty_events_ p;
                last_event_id_ := last_event_id_ p; proc_offset_ := proc_offset_ p;
                total_raw_events_size_ := total + raw_size_of ev |}
  | None, _ => Error 0 "Ignore rewrite log event"
  | Some _, None => Panic "events_[pos]"
  end.

Definition append_event (ev : BinlogEvent) (fixed : Z) (p : processor) : Res processor :=
  if match last (event_ids_ p) with Some b => b <? fixed | None => true end then
    Ok {| event_ids_ := event_ids_ p ++ [fixed]; events_ := events_ p ++ [ev];
          total_events_ := total_events_ p + 1; empty_events_ := empty_events_ p;
          last_event_id_ := id_ ev; proc_offset_ := proc_offset_ p;
          total_raw_events_size_ := total_raw_events_size_ p + raw_size_of ev |}
  else Error 0 "Event ids are not increasing".

Definition at_offset (off : Z) (p : processor) : processor :=
  {| event_ids_ := event_ids_ p; events_ := events_ p; total_events_ := total_events_ p;
     empty_events_ := empty_events_ p; last_event_id_ := last_event_id_ p; proc_offset_ := off;
     total_raw_events_size_ := total_raw_events_size_ p |}.

Definition do_event_core (ev : BinlogEvent) (p : processor) : Res processor :=
  let fixed_event_id := u64 (id_ ev * 2) in
  if (has_flag Flags.Rewrite ev &&
      match last (event_ids_ p) with Some b => fixed_event_id <=? b | None => false end)%bool then
    rewrite_event ev fixed_event_id p
  else if type_ ev <? 0 then Ok p
  else append_event ev fixed_event_id p.

(** [do_event]; on an error the offset is updated and nothing else. *)
Definition do_event (ev : BinlogEvent) (p : processor) : Res processor :=
  let* p := do_event_core ev (at_offset (offset_ ev) p) in
  if ((10 <? total_events_ p) && (total_events_ p * 3 <? empty_events_ p * 4))%bool then compactify p
  else Ok p.

(** [for_each]: the events the callback is called with. *)
Fixpoint for_each_loop (prev : option Z) (ids : list Z) (evs : list BinlogEvent) : Res (list BinlogEvent) :=
  match ids, evs with
  | [], _ => Ok []
  | id :: ids, ev :: evs =>
      CHECK! match prev with Some p => p <? id | None => true end else "event_ids_[i - 1] < event_ids_[i]" in
      let* out := for_each_loop (Some id) ids evs in
      Ok (if Z.land id 1 =? 0 then ev :: out else out)
  | _ :: _, [] => Panic "events_[i]"
  end.

Definition for_each (p : processor) : Res (list BinlogEvent) :=
  for_each_loop None (event_ids_ p) (events_ p).

(** ** Invariant *)
Definition entries (p : processor) : list (Z * BinlogEvent) := zip (event_ids_ p) (events_ p).

Definition live_entry (e : Z * BinlogEvent) : Prop := Z.even e.1 = true.
#[export] Instance live_entry_dec e : Decision (live_entry e) := decide (Z.even e.1 = true).

(** The live entries, in the order of the vectors. *)
Definition live (p : processor) : list (Z * BinlogEvent) := filter live_entry (entries p).

Definition id_lt (a b : Z) : Prop := a / 2 < b / 2.

Record inv (p : processor) : Prop := {
  inv_lengths : length (event_ids_ p) = length (events_ p);
  inv_sorted : StronglySorted id_lt (event_ids_ p);
  inv_total : total_events_ p = Z.of_nat (length (event_ids_ p));
  inv_empty : empty_events_ p = Z.of_nat (length (filter (fun e => ~ live_entry e) (entries p)));
  inv_dead : Forall (fun e => Z.even e.1 = false -> e.2 = default_event) (entries p);
  inv_raw_size : total_raw_events_size_ p = foldr Z.add 0 (map raw_size_of (events_ p));
}.

Lemma inv_init : inv init_processor.
Proof. split; try done; constructor. Qed.

(** ** Lemmas on the vectors *)
Lemma land_1_even id : (Z.land id 1 =? 0) = Z.even id.
Proof.
  change 1 with (Z.ones 1). rewrite Z.land_ones by lia. change (2 ^ 1) with 2.
  rewrite Zeven_mod. by destruct (id mod 2).
Qed.

Lemma even_succ_half id : Z.even id = true -> (id + 1) / 2 = id / 2 /\ Z.even (id + 1) = false.
Proof.
  intros H. split; [|by rewrite Z.even_add, H]. apply Z.even_spec in H as [k ->].
  Z.to_euclidean_division_equations. lia.
Qed.

Lemma even_double z : Z.even (u64 (z * 2)) = true.
Proof.
  apply Z.even_spec. exists (z mod 2 ^ 63). unfold u64.
  change (2 ^ 64) with (2 ^ 63 * 2). rewrite Zmult_mod_distr_r. lia.
Qed.

Lemma sorted_app l1 x l2 : StronglySorted id_lt (l1 ++ x :: l2) ->
  Forall (fun a => id_lt a x) l1 /\ Forall (id_lt x) l2 /\ StronglySorted id_lt (l1 ++ l2).
Proof.
  induction l1 as [|a l1 IH]; simpl; intros H; inversion_clear H.
  - done.
  - destruct (IH H0) as (H2 & H3 & H4). apply Forall_app in H1 as [H5 H6]. inversion_clear H6.
    split_and!; [by constructor|done|]. constructor; [done|]. by apply Forall_app.
Qed.

Lemma sorted_replace l1 x y l2 : x / 2 = y / 2 ->
  StronglySorted id_lt (l1 ++ x :: l2) -> StronglySorted id_lt (l1 ++ y :: l2).
Proof.
  intros E. unfold id_lt. induction l1 as [|a l1 IH]; simpl; intros H; inversion_clear H.
  - constructor; [done|]. by rewrite <- E.
  - constructor; [by apply IH|]. apply Forall_app in H1 as [H2 H3]. inversion_clear H3.
    apply Forall_app. split; [done|]. constructor; [lia|done].
Qed.

Lemma sorted_snoc l x : StronglySorted id_lt l ->
  match last l with Some b => id_lt b x | None => True end -> StronglySorted id_lt (l ++ [x]).
Proof.
  induction l as [|a l IH]; intros H Hl; simpl; [repeat constructor|].
  inversion_clear H. constructor.
  - apply IH; [done|]. destruct l; [done|exact Hl].
  - apply Forall_app. split; [done|]. constructor; [|constructor]. destruct l as [|b l]; [exact Hl|].
    change (last (a :: b :: l)) with (last (b :: l)) in Hl.
    destruct (last (b :: l)) as [c|] eqn:Ec; [|by apply last_None in Ec].
    apply last_Some_elem_of in Ec. rewrite Forall_forall in H1. specialize (H1 c Ec). unfold id_lt in *. lia.
Qed.

(** [lower_bound] finds an id that is present, and nothing below the bound. *)
Lemma lower_bound_found l1 x l2 v : Forall (fun a => a < v) l1 -> v <= x ->
  lower_bound (l1 ++ x :: l2) v = length l1.
Proof.
  induction 1 as [|a l1 Ha _ IH]; intros Hx; simpl.
  - by rewrite (proj2 (Z.ltb_ge _ _)).
  - rewrite (proj2 (Z.ltb_lt _ _)) by done. by rewrite IH.
Qed.

Lemma id_lt_lt a b : id_lt a b -> a < b.
Proof. unfold id_lt. intros. Z.to_euclidean_division_equations. lia. Qed.

Lemma sorted_last l b : StronglySorted id_lt l -> last l = Some b -> Forall (fun a => a <= b) l.
Proof.
  induction l as [|a l IH]; intros H Hl; [done|]. inversion_clear H. destruct l as [|c l].
  - injection Hl as <-. by repeat constructor.
  - change (last (a :: c :: l)) with (last (c :: l)) in Hl. specialize (IH H0 Hl).
    constructor; [|done]. inversion_clear H1. inversion_clear IH. apply id_lt_lt in H. lia.
Qed.

Lemma insert_middle {A} (l1 : list A) x y l2 : <[length l1 := y]> (l1 ++ x :: l2) = l1 ++ y :: l2.
Proof. induction l1 as [|a l1 IH]; [done|]. exact (f_equal (cons a) IH). Qed.

Lemma sum_middle {A} (f : A -> Z) l1 x l2 :
  foldr Z.add 0 (map f (l1 ++ x :: l2)) = foldr Z.add 0 (map f (l1 ++ l2)) + f x.
Proof. induction l1 as [|a l1 IH]; simpl; lia. Qed.

Lemma sum_snoc {A} (f : A -> Z) l x :
  foldr Z.add 0 (map f (l ++ [x])) = foldr Z.add 0 (map f l) + f x.
Proof. rewrite (sum_middle f l x []). by rewrite app_nil_r. Qed.

(** Splitting both vectors at an entry. *)
Lemma split_at p pos id old : inv p -> event_ids_ p !! pos = Some id -> events_ p !! pos = Some old ->
  exists ids1 ids2 evs1 evs2, event_ids_ p = ids1 ++ id :: ids2 /\ events_ p = evs1 ++ old :: evs2 /\
    length ids1 = pos /\ length evs1 = pos /\ length ids2 = length evs2 /\
    forall id' ev', zip (ids1 ++ id' :: ids2) (evs1 ++ ev' :: evs2) = zip ids1 evs1 ++ (id', ev') :: zip ids2 evs2.
Proof.
  intros Hi H1 H2. apply list_elem_of_split_length in H1 as (ids1 & ids2 & E1 & L1).
  apply list_elem_of_split_length in H2 as (evs1 & evs2 & E2 & L2).
  exists ids1, ids2, evs1, evs2. pose proof (inv_lengths p Hi) as HL. rewrite E1, E2, !length_app in HL. simpl in HL.
  split_and!; [done|done|done|done|lia|]. intros id' ev'. rewrite zip_with_app by lia. done.
Qed.

Lemma filter_middle {A} (P : A -> Prop) `{forall x, Decision (P x)} l1 x l2 :
  filter P (l1 ++ x :: l2) = filter P l1 ++ (if decide (P x) then [x] else []) ++ filter P l2.
Proof. rewrite filter_app, filter_cons. by case_decide. Qed.

Lemma live_even id ev : live_entry (id, ev) <-> Z.even id = true.
Proof. done. Qed.

Lemma inv_replace p pos id old new : inv p -> event_ids_ p !! pos = Some id -> events_ p !! pos = Some old ->
  Z.even id = true ->
  inv {| event_ids_ := event_ids_ p; events_ := <[pos := new]> (events_ p); total_events_ := total_events_ p;
         empty_events_ := empty_events_ p; last_event_id_ := last_event_id_ p; proc_offset_ := proc_offset_ p;
         total_raw_events_size_ := total_raw_events_size_ p - raw_size_of old + raw_size_of new |}.
Proof.
  intros Hi H1 H2 He. destruct (split_at p pos id old Hi H1 H2) as (ids1 & ids2 & evs1 & evs2 & E1 & E2 & L1 & L2 & L3 & Hz).
  destruct Hi as [HL HS HT HE HD HR]. unfold entries in *. rewrite E1, E2, Hz in *.
  split; cbn; unfold entries; cbn; rewrite ?E1, ?E2, <- ?L2, ?insert_middle, ?Hz; try done.
  - rewrite !length_app in *. simpl in *. lia.
  - rewrite HE. do 2 f_equal. rewrite !filter_middle. do 2 f_equal. by do 2 (case_decide; try done).
  - apply Forall_app in HD as [? HD]. inversion_clear HD. apply Forall_app. split; [done|].
    constructor; [|done]. cbn. congruence.
  - rewrite HR, !sum_middle. lia.
Qed.

Lemma inv_erase p pos id old : inv p -> event_ids_ p !! pos = Some id -> events_ p !! pos = Some old ->
  Z.even id = true ->
  inv {| event_ids_ := <[pos := id + 1]> (event_ids_ p); events_ := <[pos := default_event]> (events_ p);
         total_events_ := total_events_ p; empty_events_ := empty_events_ p + 1; last_event_id_ := last_event_id_ p;
         proc_offset_ := proc_offset_ p;
         total_raw_events_size_ := total_raw_events_size_ p - raw_size_of old |}.
Proof.
  intros Hi H1 H2 He. destruct (split_at p pos id old Hi H1 H2) as (ids1 & ids2 & evs1 & evs2 & E1 & E2 & L1 & L2 & L3 & Hz).
  destruct (even_succ_half id He) as [Hh Ho].
  destruct Hi as [HL HS HT HE HD HR]. unfold entries in *. rewrite E1, E2, Hz in *.
  split; cbn; unfold entries; cbn; rewrite ?E1, ?E2, <- ?L1, ?insert_middle, ?L1, <- ?L2, ?insert_middle, ?Hz.
  - rewrite !length_app in *. simpl in *. lia.
  - by eapply sorted_replace.
  - rewrite HT, !length_app. done.
  - rewrite HE, !filter_middle, !length_app.
    rewrite (decide_True (P := ~ live_entry (id + 1, _))) by (unfold live_entry; simpl; congruence).
    rewrite (decide_False (P := ~ live_entry (id, old))) by (unfold live_entry; simpl; tauto). simpl. lia.
  - apply Forall_app in HD as [? HD]. inversion_clear HD. apply Forall_app. split; [done|]. by constructor.
  - rewrite HR, !sum_middle. change (raw_size_of default_event) with 0. lia.
Qed.

Lemma inv_append p id ev total last : inv p -> Z.even id = true ->
  match list.last (event_ids_ p) with Some b => id_lt b id | None => True end ->
  total = total_raw_events_size_ p + raw_size_of ev ->
  inv {| event_ids_ := event_ids_ p ++ [id]; events_ := events_ p ++ [ev]; total_events_ := total_events_ p + 1;
         empty_events_ := empty_events_ p; last_event_id_ := last; proc_offset_ := proc_offset_ p;
         total_raw_events_size_ := total |}.
Proof.
  intros [HL HS HT HE HD HR] He Hl ->. unfold entries in *.
  split; cbn; unfold entries; cbn; rewrite ?zip_with_app by done.
  - rewrite !length_app. simpl. lia.
  - by apply sorted_snoc.
  - rewrite HT, length_app. simpl. lia.
  - rewrite HE, filter_app, length_app. cbn.
    rewrite decide_False by (unfold live_entry; simpl; tauto). simpl. lia.
  - apply Forall_app. split; [done|]. constructor; [cbn; congruence|done].
  - by rewrite sum_snoc, HR.
Qed.

Lemma compact_loop_entries ids evs : length ids = length evs ->
  zip (compact_loop ids evs).1 (compact_loop ids evs).2 = filter live_entry (zip ids evs) /\
  length (compact_loop ids evs).1 = length (compact_loop ids evs).2.
Proof.
  revert evs. induction ids as [|id ids IH]; intros [|ev evs] HL; simpl in *; try done.
  injection HL as HL. destruct (IH evs HL) as [H1 H2]. destruct (compact_loop ids evs) as [ids' evs']. simpl in *.
  rewrite land_1_even, filter_cons. destruct (Z.even id) eqn:E.
  - rewrite decide_True by done. simpl. split; [by rewrite H1|lia].
  - rewrite decide_False by (unfold live_entry; simpl; congruence). done.
Qed.

Lemma compact_loop_sorted ids evs : length ids = length evs -> StronglySorted id_lt ids ->
  StronglySorted id_lt (compact_loop ids evs).1 /\ sublist (compact_loop ids evs).1 ids.
Proof.
  revert evs. induction ids as [|id ids IH]; intros [|ev evs] HL HS; simpl in *; try done.
  injection HL as HL. inversion_clear HS. destruct (IH evs HL) as [H1 H2]; [done|].
  destruct (compact_loop ids evs) as [ids' evs']. simpl in *.
  destruct (Z.land id 1 =? 0); simpl; [|split; [done|by constructor]].
  split; [|by constructor]. constructor; [done|]. rewrite Forall_forall in H0 |- *.
  intros x Hx. eapply H0, elem_of_sublist; done.
Qed.

Lemma compact_loop_sum ids evs : length ids = length evs ->
  Forall (fun e => Z.even e.1 = false -> e.2 = default_event) (zip ids evs) ->
  foldr Z.add 0 (map raw_size_of (compact_loop ids evs).2) = foldr Z.add 0 (map raw_size_of evs).
Proof.
  revert evs. induction ids as [|id ids IH]; intros [|ev evs] HL HD; simpl in *; try done.
  injection HL as HL. inversion_clear HD. specialize (IH evs HL H0).
  destruct (compact_loop ids evs) as [ids' evs']. rewrite land_1_even. simpl in *.
  destruct (Z.even id) eqn:E; simpl; [lia|]. rewrite (H eq_refl). change (raw_size_of default_event) with 0. lia.
Qed.

Lemma filter_not_live l : filter (fun e : Z * BinlogEvent => ~ live_entry e) (filter live_entry l) = [].
Proof.
  induction l as [|e l IH]; [done|]. rewrite filter_cons. case_decide; [|done].
  rewrite filter_cons. case_decide; [tauto|done].
Qed.

Lemma compactify_ok p : inv p -> exists p', compactify p = Ok p' /\ inv p' /\ live p' = live p /\
  proc_offset_ p' = proc_offset_ p /\ last_event_id_ p' = last_event_id_ p /\
  sublist (event_ids_ p') (event_ids_ p).
Proof.
  intros [HL HS HT HE HD HR]. unfold compactify, entries in *. rewrite HL, Nat.eqb_refl.
  destruct (compact_loop_entries _ _ HL) as [H1 H2]. destruct (compact_loop_sorted _ _ HL HS) as [H3 H3'].
  pose proof (compact_loop_sum _ _ HL HD) as H4.
  destruct (compact_loop (event_ids_ p) (events_ p)) as [ids evs]. simpl in *.
  rewrite H2, Nat.eqb_refl. eexists. split; [done|]. unfold live, entries. cbn.
  split; [|split; [by rewrite H1, list_filter_filter_l by done|done]].
  split; cbn; unfold entries; cbn; try done; rewrite ?H1.
  - by rewrite H2.
  - by rewrite filter_not_live.
  - apply Forall_forall. intros e [He _]%list_elem_of_filter. unfold live_entry in He. congruence.
  - by rewrite HR, H4.
Qed.

Lemma rewrite_event_cases ev fixed p : inv p -> Z.even fixed = true ->
  (exists c m, rewrite_event ev fixed p = Error c m) \/
  (exists pos old p', event_ids_ p !! pos = Some fixed /\ events_ p !! pos = Some old /\
     rewrite_event ev fixed p = Ok p' /\ inv p').
Proof.
  intros Hi He. unfold rewrite_event.
  destruct (event_ids_ p !! lower_bound (event_ids_ p) fixed) as [id|] eqn:E1; [|left; eauto].
  destruct (events_ p !! lower_bound (event_ids_ p) fixed) as [old|] eqn:E2.
  2: { apply lookup_lt_Some in E1. apply lookup_ge_None in E2. pose proof (inv_lengths p Hi). lia. }
  destruct (id =? fixed) eqn:Eid; cbn [negb]; [|left; eauto]. zbool. subst id. right.
  exists (lower_bound (event_ids_ p) fixed), old. case_if; eexists; (split; [done|split; [done|split; [done|]]]).
  - by eapply inv_erase.
  - apply (inv_replace p _ fixed old (clear_flag Flags.Rewrite ev)); done.
Qed.

Lemma append_event_cases ev fixed p : inv p -> Z.even fixed = true ->
  (exists c m, append_event ev fixed p = Error c m) \/
  (exists p', append_event ev fixed p = Ok p' /\ inv p').
Proof.
  intros Hi He. unfold append_event. case_if; [|left; eauto]. right. eexists. split; [done|].
  apply inv_append; try done. destruct (last (event_ids_ p)) as [b|]; [|done]. zbool.
  unfold id_lt. apply Z.even_spec in He as [k ->]. Z.to_euclidean_division_equations. lia.
Qed.

Lemma at_offset_inv off p : inv p -> inv (at_offset off p).
Proof. by intros [? ? ? ? ? ?]. Qed.

Lemma do_event_core_cases ev p : inv p ->
  (exists c m, do_event_core ev p = Error c m) \/ (exists p', do_event_core ev p = Ok p' /\ inv p').
Proof.
  intros Hi. unfold do_event_core. case_if; [|case_if; [right; eauto|]].
  - destruct (rewrite_event_cases ev (u64 (id_ ev * 2)) p Hi (even_double _)) as [?|(pos & old & p' & _ & _ & ?)]; eauto.
  - apply append_event_cases; [done|apply even_double].
Qed.

Lemma maybe_compactify p : inv p -> exists p',
  (if ((10 <? total_events_ p) && (total_events_ p * 3 <? empty_events_ p * 4))%bool then compactify p else Ok p) = Ok p' /\
  inv p' /\ live p' = live p /\ proc_offset_ p' = proc_offset_ p /\ last_event_id_ p' = last_event_id_ p /\
  sublist (event_ids_ p') (event_ids_ p).
Proof. intros Hi. case_if; [by apply compactify_ok|by exists p]. Qed.

Lemma do_event_cases ev p : inv p ->
  (exists c m, do_event ev p = Error c m) \/ (exists p', do_event ev p = Ok p' /\ inv p').
Proof.
  intros Hi. unfold do_event.
  destruct (do_event_core_cases ev (at_offset (offset_ ev) p) (at_offset_inv _ _ Hi)) as [(c & m & ->)|(p1 & -> & Hi1)];
    cbn [res_bind]; [left; eauto|].
  destruct (maybe_compactify p1 Hi1) as (p2 & -> & ? & _). right. eauto.
Qed.

Lemma for_each_loop_ok prev ids evs : length ids = length evs -> StronglySorted id_lt ids ->
  match prev with Some a => Forall (id_lt a) ids | None => True end ->
  for_each_loop prev ids evs = Ok (map snd (filter live_entry (zip ids evs))).
Proof.
  revert prev evs. induction ids as [|id ids IH]; intros prev [|ev evs] HL HS HP; simpl in *; try done.
  injection HL as HL. inversion_clear HS. rewrite (IH (Some id) evs) by done.
  assert (match prev with Some p => p <? id | None => true end = true) as ->.
  { destruct prev; [|done]. apply Z.ltb_lt. inversion_clear HP. by apply id_lt_lt. }
  cbn [res_bind]. rewrite land_1_even, filter_cons. f_equal.
  destruct (Z.even id) eqn:E; [by rewrite decide_True by done|].
  by rewrite decide_False by (unfold live_entry; simpl; congruence).
Qed.

Lemma for_each_ok p : inv p -> for_each p = Ok (map snd (live p)).
Proof. intros Hi. apply for_each_loop_ok; [apply Hi|apply Hi|done]. Qed.

(** ** Specification: a map from event ids to events, and the highest id used. *)
Definition half (e : Z * BinlogEvent) : Z * BinlogEvent := (e.1 / 2, e.2).

Definition view (p : processor) : gmap Z BinlogEvent := list_to_map (map half (live p)).

Definition spec_do (ev : BinlogEvent) (s : gmap Z BinlogEvent * Z) : option (gmap Z BinlogEvent * Z) :=
  let '(M, hi) := s in
  if (has_flag Flags.Rewrite ev && bool_decide (is_Some (M !! id_ ev)))%bool then
    Some (if type_ ev =? ServiceTypes.Empty then delete (id_ ev) M
          else <[id_ ev := clear_flag Flags.Rewrite ev]> M, hi)
  else if type_ ev <? 0 then
    if (negb (has_flag Flags.Rewrite ev) || (hi <? id_ ev))%bool then Some (M, hi) else None
  else if hi <? id_ ev then Some (<[id_ ev := ev]> M, id_ ev)
  else None.

Record refines (p : processor) (M : gmap Z BinlogEvent) (hi : Z) : Prop := {
  ref_inv : inv p;
  ref_view : view p = M;
  ref_ids : Forall (fun id => 0 <= id /\ id / 2 <= hi) (event_ids_ p);
  ref_hi : 0 <= hi;
  ref_last : last_event_id_ p = hi;
}.

Lemma proc_refines_init : refines init_processor ∅ 0.
Proof. split; [apply inv_init|done|constructor|lia|done]. Qed.

Section list_to_map.
Context {V : Type}.
Implicit Types L : list (Z * V).

Lemma list_to_map_middle L1 k (x : V) L2 : NoDup (map fst (L1 ++ (k, x) :: L2)) ->
  list_to_map (L1 ++ (k, x) :: L2) =@{gmap Z V} <[k := x]> (list_to_map (L1 ++ L2)) /\
  (list_to_map (L1 ++ L2) : gmap Z V) !! k = None.
Proof.
  intros Hn. assert (L1 ++ (k, x) :: L2 ≡ₚ (k, x) :: L1 ++ L2) as HP by (symmetry; apply Permutation_middle).
  split.
  - by rewrite (list_to_map_proper _ _ Hn HP).
  - apply not_elem_of_list_to_map_1. rewrite HP in Hn. by inversion_clear Hn.
Qed.

Lemma list_to_map_delete L1 k (x : V) L2 : NoDup (map fst (L1 ++ (k, x) :: L2)) ->
  list_to_map (L1 ++ L2) =@{gmap Z V} delete k (list_to_map (L1 ++ (k, x) :: L2)).
Proof. intros Hn. destruct (list_to_map_middle L1 k x L2 Hn) as [-> H]. by rewrite delete_insert_id. Qed.

Lemma list_to_map_replace L1 k (x y : V) L2 : NoDup (map fst (L1 ++ (k, x) :: L2)) ->
  list_to_map (L1 ++ (k, y) :: L2) =@{gmap Z V} <[k := y]> (list_to_map (L1 ++ (k, x) :: L2)).
Proof.
  intros Hn. destruct (list_to_map_middle L1 k x L2 Hn) as [-> H]. rewrite insert_insert_eq.
  apply (list_to_map_middle L1 k y L2). by rewrite !map_app in *.
Qed.
End list_to_map.

Lemma live_sorted p : inv p -> StronglySorted id_lt (map fst (live p)).
Proof.
  intros [HL HS _ _ _ _]. unfold live, entries. destruct (compact_loop_entries _ _ HL) as [<- H2].
  destruct (compact_loop_sorted _ _ HL HS) as [H _]. by rewrite fst_zip by lia.
Qed.

Lemma sorted_halves l : StronglySorted id_lt (map fst l) -> StronglySorted Z.lt (map fst (map half l)).
Proof.
  induction l as [|e l IH]; simpl; intros H; [constructor|]. inversion_clear H. constructor; [auto|].
  clear - H1. induction l as [|e' l IH]; simpl in *; [constructor|]. inversion_clear H1. by constructor; [|auto].
Qed.

Lemma live_NoDup p : inv p -> NoDup (map fst (map half (live p))).
Proof. intros Hi. by apply sorted_NoDup, sorted_halves, live_sorted. Qed.

Lemma view_lookup p k ev : inv p -> view p !! k = Some ev <-> (k, ev) ∈ map half (live p).
Proof. intros Hi. symmetry. apply elem_of_list_to_map. by apply live_NoDup. Qed.

Lemma view_pos p k ev : inv p -> view p !! k = Some ev ->
  exists pos, event_ids_ p !! pos = Some (2 * k) /\ events_ p !! pos = Some ev.
Proof.
  intros Hi Hk. apply view_lookup in Hk; [|done]. apply list_elem_of_fmap in Hk as ([id ev'] & [= -> ->] & Hin).
  apply list_elem_of_filter in Hin as [He Hin]. unfold live_entry in He. cbn in *.
  apply list_elem_of_lookup in Hin as [pos Hpos]. exists pos. apply lookup_zip_Some in Hpos as [H1 H2].
  split; [|done]. rewrite H1. f_equal. apply Z.even_spec in He as [j ->].
  rewrite (Z.mul_comm 2 j), Z.div_mul by lia. lia.
Qed.

Lemma lower_bound_pos p pos id : inv p -> event_ids_ p !! pos = Some id -> lower_bound (event_ids_ p) id = pos.
Proof.
  intros Hi Hp. apply list_elem_of_split_length in Hp as (l1 & l2 & E & ->). rewrite E.
  pose proof (inv_sorted p Hi) as HS. rewrite E in HS. apply sorted_app in HS as (H1 & _ & _).
  apply lower_bound_found; [|lia]. eapply Forall_impl; [done|]. intros a. apply id_lt_lt.
Qed.

Lemma live_double k ev : live_entry (2 * k, ev).
Proof. unfold live_entry. simpl. by rewrite Z.even_mul. Qed.

Lemma half_double k ev : half (2 * k, ev) = (k, ev).
Proof. unfold half. cbn [fst snd]. by rewrite (Z.mul_comm 2 k), Z.div_mul. Qed.

(** The three effects on the view. *)
Lemma view_erase p pos k old total lst off emp tot : inv p ->
  event_ids_ p !! pos = Some (2 * k) -> events_ p !! pos = Some old ->
  view {| event_ids_ := <[pos := 2 * k + 1]> (event_ids_ p); events_ := <[pos := default_event]> (events_ p);
          total_events_ := total; empty_events_ := emp; last_event_id_ := lst; proc_offset_ := off;
          total_raw_events_size_ := tot |} = delete k (view p).
Proof.
  intros Hi H1 H2. destruct (split_at p pos (2 * k) old Hi H1 H2) as (ids1 & ids2 & evs1 & evs2 & E1 & E2 & L1 & L2 & L3 & Hz).
  pose proof (live_NoDup p Hi) as Hn. unfold view, live, entries in *. cbn.
  rewrite E1, E2, Hz, filter_middle in *. rewrite <- L1 at 1. rewrite <- L2. rewrite !insert_middle, Hz, filter_middle.
  rewrite (decide_True (P := live_entry (2 * k, old))) in * by apply live_double.
  rewrite decide_False by (unfold live_entry; simpl; by rewrite Z.even_add, Z.even_mul).
  cbn [app] in *. rewrite !map_app in *. cbn [map] in *. rewrite !half_double in *. cbn [fst] in Hn.
  apply (list_to_map_delete _ _ old). by rewrite map_app.
Qed.

Lemma view_replace p pos k old new total lst off emp tot : inv p ->
  event_ids_ p !! pos = Some (2 * k) -> events_ p !! pos = Some old ->
  view {| event_ids_ := event_ids_ p; events_ := <[pos := new]> (events_ p);
          total_events_ := total; empty_events_ := emp; last_event_id_ := lst; proc_offset_ := off;
          total_raw_events_size_ := tot |} = <[k := new]> (view p).
Proof.
  intros Hi H1 H2. destruct (split_at p pos (2 * k) old Hi H1 H2) as (ids1 & ids2 & evs1 & evs2 & E1 & E2 & L1 & L2 & L3 & Hz).
  pose proof (live_NoDup p Hi) as Hn. unfold view, live, entries in *. cbn.
  rewrite E1, E2, Hz, filter_middle in *. rewrite <- L2. rewrite !insert_middle, Hz, filter_middle.
  rewrite (decide_True (P := live_entry (2 * k, old))) in * by apply live_double.
  rewrite (decide_True (P := live_entry (2 * k, new))) in * by apply live_double.
  cbn [app] in *. rewrite !map_app in *. cbn [map] in *. rewrite !half_double in *. cbn [fst] in Hn.
  apply (list_to_map_replace _ _ old). by rewrite map_app.
Qed.

Lemma view_append p k ev total lst off emp tot : inv p -> view p !! k = None ->
  view {| event_ids_ := event_ids_ p ++ [2 * k]; events_ := events_ p ++ [ev];
          total_events_ := total; empty_events_ := emp; last_event_id_ := lst; proc_offset_ := off;
          total_raw_events_size_ := tot |} = <[k := ev]> (view p).
Proof.
  intros Hi Hk. unfold view, live, entries in *. cbn. rewrite zip_with_app by apply Hi. rewrite filter_app, map_app.
  rewrite list_to_map_app. cbn [zip_with]. rewrite filter_cons, decide_True by apply live_double.
  cbn [filter list_filter map]. rewrite half_double. cbn [list_to_map foldr fst snd]. rewrite insert_empty, <- insert_union_singleton_r by done. done.
Qed.

Lemma view_live p q : live p = live q -> view p = view q.
Proof. unfold view. by intros ->. Qed.

Lemma last_below p M hi id : refines p M hi -> hi < id ->
  match last (event_ids_ p) with Some b => 2 * id <=? b | None => false end = false /\
  match last (event_ids_ p) with Some b => b <? 2 * id | None => true end = true.
Proof.
  intros Hr Hid. destruct (last (event_ids_ p)) as [b|] eqn:Eb; [|done]. apply last_Some_elem_of in Eb.
  pose proof (ref_ids _ _ _ Hr) as Hb. rewrite Forall_forall in Hb. destruct (Hb b Eb) as [_ Hb'].
  rewrite Z.leb_gt, Z.ltb_lt. Z.to_euclidean_division_equations. lia.
Qed.

Lemma last_above p pos id : inv p -> event_ids_ p !! pos = Some id ->
  match last (event_ids_ p) with Some b => id <=? b | None => false end = true.
Proof.
  intros Hi Hp. destruct (last (event_ids_ p)) as [b|] eqn:Eb.
  - pose proof (sorted_last _ _ (inv_sorted p Hi) Eb) as H. rewrite Forall_forall in H.
    apply Z.leb_le, H. by eapply list_elem_of_lookup_2.
  - apply last_None in Eb. by rewrite Eb in Hp.
Qed.

Lemma fixed_id id : 0 <= id < 2 ^ 63 -> u64 (id * 2) = 2 * id.
Proof. intros H. rewrite u64_small; [lia|]. unfold is_u64. lia. Qed.

Lemma rewrite_refines p M hi ev old : refines p M hi -> M !! id_ ev = Some old -> 0 <= id_ ev < 2 ^ 63 ->
  exists p', rewrite_event ev (2 * id_ ev) p = Ok p' /\ proc_offset_ p' = proc_offset_ p /\
    refines p' (if type_ ev =? ServiceTypes.Empty then delete (id_ ev) M
                else <[id_ ev := clear_flag Flags.Rewrite ev]> M) hi.
Proof.
  intros [Hi Hv Hb Hh Hl] Hold Hid. rewrite <- Hv in Hold. destruct (view_pos p _ _ Hi Hold) as (pos & H1 & H2).
  unfold rewrite_event. rewrite (lower_bound_pos p pos _ Hi H1), H1, H2, Z.eqb_refl. cbn [negb].
  assert (Z.even (2 * id_ ev) = true) as He by (by rewrite Z.even_mul).
  case_if; eexists; (split; [done|split; [done|]]); split; cbn [event_ids_ last_event_id_]; try done.
  - by apply inv_erase.
  - rewrite <- Hv. by apply (view_erase p pos _ old).
  - apply Forall_insert; [done|]. destruct (even_succ_half _ He) as [-> _].
    rewrite Forall_forall in Hb. apply list_elem_of_lookup_2 in H1. destruct (Hb _ H1). lia.
  - by apply (inv_replace p pos (2 * id_ ev) old (clear_flag Flags.Rewrite ev)).
  - rewrite <- Hv. by apply (view_replace p pos _ old).
Qed.

Lemma append_refines p M hi ev : refines p M hi -> hi < id_ ev < 2 ^ 63 ->
  exists p', append_event ev (2 * id_ ev) p = Ok p' /\ proc_offset_ p' = proc_offset_ p /\
    refines p' (<[id_ ev := ev]> M) (id_ ev).
Proof.
  intros Hr Hid. destruct (last_below p M hi (id_ ev) Hr) as [_ Hlt]; [lia|]. destruct Hr as [Hi Hv Hb Hh Hl].
  unfold append_event. rewrite Hlt. eexists. split; [done|]. split; [done|].
  assert (Z.even (2 * id_ ev) = true) as He by (by rewrite Z.even_mul).
  assert (forall id, id ∈ event_ids_ p -> id / 2 < id_ ev) as Hb'.
  { intros id Hin. rewrite Forall_forall in Hb. destruct (Hb id Hin). lia. }
  split; cbn [event_ids_ last_event_id_].
  - apply inv_append; [done|done| |done]. destruct (last (event_ids_ p)) as [b|] eqn:Eb; [|done].
    apply last_Some_elem_of in Eb. unfold id_lt. specialize (Hb' b Eb). Z.to_euclidean_division_equations. lia.
  - rewrite <- Hv. apply view_append; [done|]. destruct (view p !! id_ ev) as [e|] eqn:Ev; [|done].
    destruct (view_pos p _ _ Hi Ev) as (pos & Hpos & _). apply list_elem_of_lookup_2, Hb' in Hpos.
    Z.to_euclidean_division_equations. lia.
  - apply Forall_app. split; [|repeat constructor; [lia|Z.to_euclidean_division_equations; lia]].
    eapply Forall_impl; [done|]. cbn. intros. lia.
  - lia.
  - done.
Qed.

Lemma core_refines p M hi ev M' hi' : refines p M hi -> 0 <= id_ ev < 2 ^ 63 ->
  spec_do ev (M, hi) = Some (M', hi') ->
  exists p', do_event_core ev p = Ok p' /\ proc_offset_ p' = proc_offset_ p /\ refines p' M' hi'.
Proof.
  intros Hr Hid Hs. unfold spec_do in Hs. unfold do_event_core. rewrite fixed_id by done.
  destruct (has_flag Flags.Rewrite ev) eqn:Ef; cbn [andb negb orb] in *.
  - case_bool_decide as Hin.
    + injection Hs as <- <-. destruct Hin as [old Hold]. pose proof Hold as Hold'. rewrite <- (ref_view _ _ _ Hr) in Hold'.
      destruct (view_pos p _ _ (ref_inv _ _ _ Hr) Hold') as (pos & Hpos & _).
      rewrite (last_above p pos _ (ref_inv _ _ _ Hr) Hpos). by eapply rewrite_refines.
    + assert (hi < id_ ev) as Hlt by (repeat case_if_in Hs; done).
      destruct (last_below p M hi (id_ ev) Hr Hlt) as [-> _]. rewrite (proj2 (Z.ltb_lt _ _) Hlt) in Hs. case_if.
      * injection Hs as <- <-. by exists p.
      * injection Hs as <- <-. apply (append_refines p M hi); [done|lia].
  - case_if; [injection Hs as <- <-; by exists p|]. case_if_in Hs; [|done]. injection Hs as <- <-.
    apply (append_refines p M hi); [done|lia].
Qed.

Lemma do_event_refines p M hi ev M' hi' : refines p M hi -> 0 <= id_ ev < 2 ^ 63 ->
  spec_do ev (M, hi) = Some (M', hi') ->
  exists p', do_event ev p = Ok p' /\ proc_offset_ p' = offset_ ev /\ refines p' M' hi'.
Proof.
  intros Hr Hid Hs. assert (refines (at_offset (offset_ ev) p) M hi) as Hr'.
  { destruct Hr as [Hi Hv Hb Hh Hl]. split; try done. by apply at_offset_inv. }
  destruct (core_refines _ _ _ _ _ _ Hr' Hid Hs) as (p1 & Hp1 & Ho1 & [Hi1 Hv1 Hb1 Hh1 Hl1]).
  unfold do_event. rewrite Hp1. cbn [res_bind].
  destruct (maybe_compactify p1 Hi1) as (p2 & -> & Hi2 & Hlv & Ho2 & Hl2 & Hsub).
  exists p2. split; [done|]. split; [by rewrite Ho2, Ho1|]. split; [done| | |done|congruence].
  - rewrite <- Hv1. by apply view_live.
  - rewrite Forall_forall in Hb1 |- *. intros id Hin. eapply Hb1, elem_of_sublist; done.
Qed.

(** ** Runs *)
Fixpoint feed_events (evs : list BinlogEvent) (p : processor) : Res processor :=
  match evs with
  | [] => Ok p
  | ev :: evs => let* p := do_event ev p in feed_events evs p
  end.

Fixpoint spec_feed (evs : list BinlogEvent) (s : gmap Z BinlogEvent * Z) : option (gmap Z BinlogEvent * Z) :=
  match evs with
  | [] => Some s
  | ev :: evs => match spec_do ev s with Some s => spec_feed evs s | None => None end
  end.

Lemma feed_events_app evs1 evs2 p :
  feed_events (evs1 ++ evs2) p = let* p := feed_events evs1 p in feed_events evs2 p.
Proof.
  revert p. induction evs1 as [|ev evs1 IH]; intros p; simpl; [done|]. destruct (do_event ev p); simpl; [apply IH|done|done].
Qed.

Lemma spec_feed_app evs1 evs2 s :
  spec_feed (evs1 ++ evs2) s = match spec_feed evs1 s with Some s => spec_feed evs2 s | None => None end.
Proof. revert s. induction evs1 as [|ev evs1 IH]; intros s; simpl; [done|]. by destruct (spec_do ev s). Qed.

Lemma feed_events_inv evs p : inv p ->
  (exists c m, feed_events evs p = Error c m) \/ (exists p', feed_events evs p = Ok p' /\ inv p').
Proof.
  revert p. induction evs as [|ev evs IH]; intros p Hi; simpl; [eauto|].
  destruct (do_event_cases ev p Hi) as [(c & m & ->)|(p1 & -> & Hi1)]; simpl; [left; eauto|auto].
Qed.

Lemma feed_events_refines evs p M hi M' hi' : refines p M hi -> Forall (fun ev => 0 <= id_ ev < 2 ^ 63) evs ->
  spec_feed evs (M, hi) = Some (M', hi') ->
  exists p', feed_events evs p = Ok p' /\ refines p' M' hi' /\
    proc_offset_ p' = default (proc_offset_ p) (offset_ <$> last evs).
Proof.
  revert p M hi. induction evs as [|ev evs IH]; intros p M hi Hr Hid Hs; cbn [spec_feed feed_events] in *.
  - injection Hs as <- <-. by exists p.
  - inversion_clear Hid. destruct (spec_do ev (M, hi)) as [[M1 hi1]|] eqn:E; [|done].
    destruct (do_event_refines p M hi ev M1 hi1) as (p1 & -> & Ho & Hr1); [done|done|done|]. cbn [res_bind].
    destruct (IH p1 M1 hi1 Hr1) as (p' & -> & Hr' & Ho'); [done|done|]. exists p'. split; [done|]. split; [done|].
    rewrite Ho'. destruct evs; [done|]. change (last (ev :: b :: evs)) with (last (b :: evs)).
    destruct (last (b :: evs)) eqn:El; [done|]. by apply last_None in El.
Qed.

Lemma raw_size_live p : inv p -> total_raw_events_size_ p = foldr Z.add 0 (map raw_size_of (map snd (live p))).
Proof.
  intros [HL HS _ _ HD HR]. unfold live, entries in *. rewrite HR.
  destruct (compact_loop_entries _ _ HL) as [<- H2]. rewrite snd_zip by lia. symmetry. by apply compact_loop_sum.
Qed.

(** What replaying hands out: the events of the map in the order of their ids. *)
Lemma for_each_refines p M hi : refines p M hi ->
  exists kvs, for_each p = Ok (map snd kvs) /\ StronglySorted Z.lt (map fst kvs) /\ list_to_map kvs = M /\
    total_raw_events_size_ p = foldr Z.add 0 (map raw_size_of (map snd kvs)).
Proof.
  intros [Hi Hv _ _ _]. exists (map half (live p)).
  assert (map snd (map half (live p)) = map snd (live p)) as E by (rewrite map_map; by apply map_ext).
  rewrite E. split_and!; [by apply for_each_ok|by apply sorted_halves, live_sorted|exact Hv|by apply raw_size_live].
Qed.

(** Whatever events are fed to it, [BinlogEventsProcessor] keeps its two
    vectors of equal length and ordered by id, its counters equal to the
    number of entries and of erased entries, and its total size equal to the
    sizes of the live events; no check of it fails, and [for_each] visits
    exactly the live events. *)
Theorem events_processor_invariant evs :
  match feed_events evs init_processor with
  | Ok p => inv p /\ for_each p = Ok (map snd (live p))
  | Error _ _ => True
  | Panic _ => False
  end.
Proof.
  destruct (feed_events_inv evs init_processor inv_init) as [(c & m & ->)|(p & -> & Hi)]; [done|].
  split; [done|by apply for_each_ok].
Qed.

(** C29. For a log whose writer adds events with increasing ids and rewrites or
    erases only events that are alive, the processor is a map from ids to
    events: it accepts every event, compaction is invisible, and [for_each]
    visits the events of the map in the order of their ids, each in its last
    version; [last_event_id] is the highest id added and
    [total_raw_events_size] the size of what is alive. *)
Theorem events_processor_refines evs M hi :
  Forall (fun ev => 0 <= id_ ev < 2 ^ 63) evs -> spec_feed evs (∅, 0) = Some (M, hi) ->
  exists p kvs, feed_events evs init_processor = Ok p /\ for_each p = Ok (map snd kvs) /\
    StronglySorted Z.lt (map fst kvs) /\ list_to_map kvs = M /\ last_event_id_ p = hi /\
    total_raw_events_size_ p = foldr Z.add 0 (map raw_size_of (map snd kvs)).
Proof.
  intros Hid Hs. destruct (feed_events_refines evs init_processor ∅ 0 M hi proc_refines_init Hid Hs) as (p & Hp & Hr & _).
  destruct (for_each_refines p M hi Hr) as (kvs & H1 & H2 & H3 & H4).
  exists p, kvs. split_and!; try done. apply Hr.
Qed.

Definition test_event (id type flags : Z) : BinlogEvent :=
  {| offset_ := 0; size_ := 4; id_ := id; type_ := type; flags_ := flags; extra_ := 0; crc32_ := 0; raw_event_ := [0; 0; 0; 0] |}.
Definition test_log : list BinlogEvent :=
  [test_event 1 5 0; test_event 2 5 0; test_event 0 (-3) 0; test_event 4 5 0; test_event 2 6 1; test_event 1 (-2) 1].

Lemma events_processor_refines_witness :
  exists p kvs, feed_events test_log init_processor = Ok p /\ for_each p = Ok (map snd kvs) /\
    StronglySorted Z.lt (map fst kvs) /\
    list_to_map kvs = delete 1 (<[2 := clear_flag Flags.Rewrite (test_event 2 6 1)]> (<[4 := test_event 4 5 0]>
      (<[2 := test_event 2 5 0]> (<[1 := test_event 1 5 0]> (∅ : gmap Z BinlogEvent))))) /\ last_event_id_ p = 4 /\
    total_raw_events_size_ p = foldr Z.add 0 (map raw_size_of (map snd kvs)).
Proof.
  apply (events_processor_refines test_log).
  - repeat constructor; simpl; lia.
  - reflexivity.
Defined.
