(* ===== verification/Binlog.v ===== *)
(** * The binlog

    [Binlog] (tddb/td/db/binlog/Binlog.h, Binlog.cpp) on an unencrypted file:
    writing events, flushing, loading a file with recovery of a torn tail, and
    regenerating the file.  The file is the list of its bytes; operations of
    the file system succeed (the source ends the process otherwise).
    [events_buffer_] is null, as [Binlog::init] leaves it.  What [do_event]
    does with an encryption event is the parameter [on_encryption_event]: it
    rests on pbkdf2, hmac and AES of the crypto library. *)
From S2P Require Import Prelude TlCodec BinlogEvent BinlogProcessor.
Local Open Scope td_scope.

Inductive State := StateEmpty | Load | Reindex | Run.

(** [file]: the bytes of the file at [path_]; [buffer_writer_]: the bytes
    appended and not flushed to the file yet. *)
Record Binlog := {
  file : list Z;
  buffer_writer_ : list Z;
  fd_size_ : Z;
  fd_events_ : Z;
  pending_events_ : list BinlogEvent;
  processor_ : processor;
  last_event_id_ : Z;
  state_ : State;
}.

Definition with_state (s : State) (b : Binlog) : Binlog :=
  {| file := file b; buffer_writer_ := buffer_writer_ b; fd_size_ := fd_size_ b; fd_events_ := fd_events_ b;
     pending_events_ := pending_events_ b; processor_ := processor_ b; last_event_id_ := last_event_id_ b; state_ := s |}.
Definition with_processor (p : processor) (b : Binlog) : Binlog :=
  {| file := file b; buffer_writer_ := buffer_writer_ b; fd_size_ := fd_size_ b; fd_events_ := fd_events_ b;
     pending_events_ := pending_events_ b; processor_ := p; last_event_id_ := last_event_id_ b; state_ := state_ b |}.
Definition with_pending (l : list BinlogEvent) (b : Binlog) : Binlog :=
  {| file := file b; buffer_writer_ := buffer_writer_ b; fd_size_ := fd_size_ b; fd_events_ := fd_events_ b;
     pending_events_ := l; processor_ := processor_ b; last_event_id_ := last_event_id_ b; state_ := state_ b |}.
Definition with_last_event_id (id : Z) (b : Binlog) : Binlog :=
  {| file := file b; buffer_writer_ := buffer_writer_ b; fd_size_ := fd_size_ b; fd_events_ := fd_events_ b;
     pending_events_ := pending_events_ b; processor_ := processor_ b; last_event_id_ := id; state_ := state_ b |}.
Definition with_file (f : list Z) (b : Binlog) : Binlog :=
  {| file := f; buffer_writer_ := buffer_writer_ b; fd_size_ := fd_size_ b; fd_events_ := fd_events_ b;
     pending_events_ := pending_events_ b; processor_ := processor_ b; last_event_id_ := last_event_id_ b; state_ := state_ b |}.

Definition next_event_id (b : Binlog) : Z * Binlog :=
  let id := u64 (last_event_id_ b + 1) in (id, with_last_event_id id b).

Definition next_event_id_shift (shift : Z) (b : Binlog) : Z * Binlog :=
  (u64 (last_event_id_ b + 1), with_last_event_id (u64 (last_event_id_ b + shift)) b).

(** [flush]: everything buffered reaches the file. *)
Definition flush (b : Binlog) : Binlog :=
  match state_ b with
  | Load => b
  | _ => {| file := file b ++ buffer_writer_ b; buffer_writer_ := []; fd_size_ := fd_size_ b; fd_events_ := fd_events_ b;
            pending_events_ := pending_events_ b; processor_ := processor_ b; last_event_id_ := last_event_id_ b;
            state_ := state_ b |}
  end.

Definition lazy_flush (b : Binlog) : Binlog :=
  if Z.shiftl 1 14 <? Z.of_nat (length (buffer_writer_ b)) then flush b else b.

Section with_crc32.
Context (crc32 : list Z -> Z) (on_encryption_event : BinlogEvent -> Binlog -> Res Binlog).

(** [do_event]: write, handle a service event, process, count. *)
Definition write_event (ev : BinlogEvent) (b : Binlog) : Res Binlog :=
  match state_ b with
  | Run | Reindex =>
      match validate crc32 ev with
      | Ok _ => Ok {| file := file b; buffer_writer_ := buffer_writer_ b ++ raw_event_ ev; fd_size_ := fd_size_ b;
                      fd_events_ := fd_events_ b; pending_events_ := pending_events_ b; processor_ := processor_ b;
                      last_event_id_ := last_event_id_ b; state_ := state_ b |}
      | Error _ m => Panic "Failed to validate binlog event"
      | Panic w => Panic w
      end
  | _ => Ok b
  end.

(** Processing; the flag is false when [do_event] returns early.  The data
    [debug_get_binlog_data] returns is empty exactly when the file ends at
    [fd_size_]; on an error the processor has taken the offset of the event. *)
Definition process_event (ev : BinlogEvent) (b : Binlog) : Res (bool * Binlog) :=
  match state_ b with
  | Reindex => Ok (true, b)
  | _ =>
      match BinlogProcessor.do_event ev (processor_ b) with
      | Ok p => Ok (true, with_processor p b)
      | Error _ _ =>
          match state_ b with
          | Load =>
              if fd_size_ b =? Z.of_nat (length (file b))
              then Ok (false, with_processor (at_offset (offset_ ev) (processor_ b)) b)
              else Panic "Truncate binlog"
          | _ => Panic "Truncate binlog"
          end
      | Panic w => Panic w
      end
  end.

Definition do_event (ev : BinlogEvent) (b : Binlog) : Res Binlog :=
  let event_size := Z.of_nat (length (raw_event_ ev)) in
  let* b := write_event ev b in
  let* b := if type_ ev =? ServiceTypes.AesCtrEncryption then on_encryption_event ev b else Ok b in
  let* (counted, b) := process_event ev b in
  if counted then
    Ok {| file := file b; buffer_writer_ := buffer_writer_ b; fd_size_ := fd_size_ b + event_size;
          fd_events_ := fd_events_ b + 1; pending_events_ := pending_events_ b; processor_ := processor_ b;
          last_event_id_ := last_event_id_ b; state_ := state_ b |}
  else Ok b.

Fixpoint do_events (evs : list BinlogEvent) (b : Binlog) : Res Binlog :=
  match evs with
  | [] => Ok b
  | ev :: evs => let* b := do_event ev b in do_events evs b
  end.

Definition do_add_event (ev : BinlogEvent) (b : Binlog) : Res Binlog :=
  if has_flag Flags.Partial ev then
    Ok (with_pending (pending_events_ b ++ [clear_flag Flags.Partial ev]) b)
  else
    let* b := do_events (pending_events_ b) b in
    do_event ev (with_pending [] b).

(** [do_reindex] with an empty key: a new file with the live events replaces
    the old one. *)
Definition do_reindex (b : Binlog) : Res Binlog :=
  CHECK! match state_ b with Run => true | _ => false end else "state_ == State::Run" in
  let b := {| file := []; buffer_writer_ := []; fd_size_ := 0; fd_events_ := 0; pending_events_ := pending_events_ b;
              processor_ := processor_ b; last_event_id_ := last_event_id_ b; state_ := Reindex |} in
  let* evs := for_each (processor_ b) in
  let* b := do_events evs b in
  let b := flush b in
  CHECK! fd_size_ b =? Z.of_nat (length (file b)) else "fd_size_ == r_stat.ok().size_" in
  Ok (with_state Run b).

Definition need_reindex (b : Binlog) (min_size rate : Z) : bool :=
  (min_size <? fd_size_ b) && (total_raw_events_size_ (processor_ b) <? Z.quot (fd_size_ b) rate).

Definition add_event (ev : BinlogEvent) (b : Binlog) : Res Binlog :=
  CHECK! size_ ev mod 4 =? 0 else "Trying to add event with bad size" in
  let* b := do_add_event ev b in
  let b := lazy_flush b in
  match state_ b with
  | Run =>
      if (need_reindex b 50000 5 || need_reindex b 100000 4 || need_reindex b 300000 3 || need_reindex b 500000 2)%bool
      then do_reindex b else Ok b
  | _ => Ok b
  end.

Definition add_raw_event (raw_event : list Z) (b : Binlog) : Res Binlog :=
  let* ev := init raw_event in add_event ev b.

Definition add (type : Z) (storer : StorerObject) (b : Binlog) : Res (Z * Binlog) :=
  let '(event_id, b) := next_event_id b in
  let* raw := create_raw crc32 event_id type 0 storer in
  let* b := add_raw_event raw b in
  Ok (event_id, b).

Definition rewrite (event_id type : Z) (storer : StorerObject) (b : Binlog) : Res (Z * Binlog) :=
  let '(seq_no, b) := next_event_id b in
  let* raw := create_raw crc32 event_id type Flags.Rewrite storer in
  let* b := add_raw_event raw b in
  Ok (seq_no, b).

Definition erase (event_id : Z) (b : Binlog) : Res (Z * Binlog) :=
  let '(seq_no, b) := next_event_id b in
  let* raw := create_raw crc32 event_id ServiceTypes.Empty Flags.Rewrite EmptyStorer in
  let* b := add_raw_event raw b in
  Ok (seq_no, b).

Fixpoint erase_each (event_ids : list Z) (b : Binlog) : Res Binlog :=
  match event_ids with
  | [] => Ok b
  | id :: event_ids => let* (_, b) := erase id b in erase_each event_ids b
  end.

Definition erase_batch (event_ids : list Z) (b : Binlog) : Res (Z * Binlog) :=
  if Nat.eqb (length event_ids) 0 then Ok (0, b)
  else
    let '(seq_no, b) := next_event_id_shift 0 b in
    let* b := erase_each event_ids b in
    Ok (seq_no, b).

(** The loop of [load_binlog]: [r] the reader with the bytes read so far,
    [rest] the bytes of the file that were not read yet. *)
Fixpoint load_loop (fuel : nat) (r : BinlogReader) (rest : list Z) (b : Binlog) : Res Binlog :=
  match fuel with
  | O => Panic "fuel"
  | S fuel =>
      match read_next crc32 r with
      | Panic w => Panic w
      | Error code _ =>
          if code =? -2 then
            if reader_offset_ r =? Z.of_nat (length (file b)) then Ok b else Panic "Truncate binlog"
          else Ok b
      | Ok (need_size, Some ev, r) =>
          let* b := do_add_event ev b in load_loop fuel r rest b
      | Ok (need_size, None, r) =>
          let n := Z.to_nat (Z.max need_size 4096) in
          let r := feed (take n rest) r in
          if Z.of_nat (length (input_ r)) <? need_size then Ok b
          else load_loop fuel r (drop n rest) b
      end
  end.

(** [load_binlog]: the events passed to the callback and the opened log. *)
Definition load_binlog (b : Binlog) : Res (list BinlogEvent * Binlog) :=
  let b := with_state Load b in
  let* b := load_loop (2 * length (file b) + 2) (new_reader []) (file b) b in
  let offset := proc_offset_ (processor_ b) in
  CHECK! 0 <=? offset else "offset >= 0" in
  let* replayed := for_each (processor_ b) in
  let b := if offset =? Z.of_nat (length (file b)) then b else with_file (take (Z.to_nat offset) (file b)) b in
  CHECK! fd_size_ b =? offset else "fd_size_ == offset" in
  Ok (replayed, with_state Run b).

(** [init] of a log whose file holds the bytes [f]. *)
Definition init_binlog (f : list Z) : Res (list BinlogEvent * Binlog) :=
  let* (replayed, b) := load_binlog
    {| file := f; buffer_writer_ := []; fd_size_ := 0; fd_events_ := 0; pending_events_ := [];
       processor_ := init_processor; last_event_id_ := 0; state_ := StateEmpty |} in
  Ok (replayed, with_last_event_id (BinlogProcessor.last_event_id_ (processor_ b)) b).

(** ** Loading a log *)

(** The events of a log as the reader delivers them from offset [off]. *)
Fixpoint log_events (off : Z) (raws : list (list Z)) : list BinlogEvent :=
  match raws with
  | [] => []
  | raw :: raws =>
      let off := off + Z.of_nat (length raw) in
      set_offset off (event_of raw) :: log_events off raws
  end.

(** An intact event that is neither part of a batch nor an encryption header. *)
Record plain (raw : list Z) : Prop := {
  plain_ok : raw_ok crc32 raw;
  plain_partial : has_flag Flags.Partial (event_of raw) = false;
  plain_type : type_ (event_of raw) <> ServiceTypes.AesCtrEncryption;
  plain_id : 0 <= id_ (event_of raw) < 2 ^ 63;
}.

(** What a write that was cut short leaves at the end of a file. *)
Definition torn (t : list Z) : Prop := t = [] \/ exists raw k, raw_ok crc32 raw /\ (k < length raw)%nat /\ t = take k raw.

(** A log between events while loading. *)
Record loading (off : Z) (M : gmap Z BinlogEvent) (hi : Z) (b : Binlog) : Prop := {
  ld_state : state_ b = Load;
  ld_pending : pending_events_ b = [];
  ld_ref : refines (processor_ b) M hi;
  ld_size : fd_size_ b = off;
  ld_offset : proc_offset_ (processor_ b) = off;
}.

Definition same_file (b b' : Binlog) : Prop := file b' = file b /\ buffer_writer_ b' = buffer_writer_ b.

Lemma load_event raw off M hi b M' hi' : plain raw -> loading off M hi b ->
  spec_do (set_offset (off + Z.of_nat (length raw)) (event_of raw)) (M, hi) = Some (M', hi') ->
  exists b', do_add_event (set_offset (off + Z.of_nat (length raw)) (event_of raw)) b = Ok b' /\
    loading (off + Z.of_nat (length raw)) M' hi' b' /\ same_file b b'.
Proof.
  intros [Hok Hp Ht Hid] [Hs Hpe Hr Hsz Hof] Hsp. set (ev := set_offset _ _) in *.
  destruct (do_event_refines (processor_ b) M hi ev M' hi') as (p' & Hp' & Ho' & Hr'); [done|done|done|].
  unfold do_add_event. change (has_flag Flags.Partial ev) with (has_flag Flags.Partial (event_of raw)).
  rewrite Hp, Hpe. cbn [do_events res_bind]. unfold do_event, write_event, process_event. cbn [with_pending state_].
  rewrite Hs. cbn [res_bind]. change (type_ ev) with (type_ (event_of raw)). rewrite (proj2 (Z.eqb_neq _ _)) by done.
  cbn [res_bind with_pending processor_ state_]. rewrite Hs, Hp'. cbn [res_bind].
  eexists. split; [done|]. split; [|done]. split; cbn; try done. by rewrite Hsz.
Qed.

Lemma plain_bytes raw : plain raw -> bytes raw.
Proof. intros H. apply H. Qed.

(** Reading on while the event [raw] is not complete in the buffer. *)
Lemma short_input raw r rest tail : input_ r ++ rest = raw ++ tail -> (length (input_ r) < length raw)%nat ->
  input_ r = take (length (input_ r)) raw.
Proof.
  intros H Hl. rewrite <- (take_app_length (input_ r) rest) at 1. rewrite H. by rewrite take_app_le by lia.
Qed.

Lemma full_input raw r rest tail : input_ r ++ rest = raw ++ tail -> (length raw <= length (input_ r))%nat ->
  input_ r = raw ++ drop (length raw) (input_ r) /\ drop (length raw) (input_ r) ++ rest = tail.
Proof.
  intros H Hl. assert (take (length raw) (input_ r) = raw) as E.
  { rewrite <- (take_app_le (input_ r) rest) by done. by rewrite H, take_app_length. }
  split; [by rewrite <- E at 1; rewrite take_drop|].
  rewrite <- (take_drop (length raw) (input_ r)), E, <- app_assoc in H. by apply app_inv_head in H.
Qed.

Lemma load_loop_end fuel r rest b t : reader_inv r -> bytes rest -> torn t -> input_ r ++ rest = t ->
  (length (input_ r) + 2 * length rest < fuel)%nat -> load_loop fuel r rest b = Ok b.
Proof.
  revert r rest. induction fuel as [|fuel IH]; intros r rest Hi Hb Ht Hin Hf; [lia|]. simpl.
  destruct (decide (input_ r = [])) as [E|E].
  - rewrite read_next_empty by done.
    assert (forall n, bytes (take n rest)) as Hbt by (intros; by apply Forall_take).
    case_if; [done|]. rewrite E in *. cbn [app] in *. apply IH.
    + by apply reader_inv_feed.
    + by apply Forall_drop.
    + done.
    + cbn. rewrite E. cbn. by rewrite take_drop.
    + cbn. rewrite E. cbn. rewrite length_take, length_drop in *. lia.
  - destruct Ht as [->|(raw & k & Hok & Hk & Ht)]; [by apply app_eq_nil in Hin as [? _]|].
    assert (input_ r = take (length (input_ r)) raw /\ (length (input_ r) < length raw)%nat) as [Hsh Hlt].
    { assert (length (input_ r) <= k)%nat by (apply (f_equal length) in Hin; rewrite Ht, length_app, length_take in Hin; lia).
      split; [|lia]. rewrite <- (take_app_length (input_ r) rest) at 1. rewrite Hin, Ht, take_take. f_equal. lia. }
    destruct (read_next_short crc32 raw _ r Hok Hi Hlt Hsh) as (need & r' & -> & Hneed & Hi' & Hin' & _).
    case_if; [done|]. cbn [input_ feed] in *. rewrite length_app, Hin', length_take in *. apply IH.
    + apply reader_inv_feed; [by apply Forall_take|done].
    + by apply Forall_drop.
    + right. by exists raw, k.
    + cbn. by rewrite Hin', <- app_assoc, take_drop.
    + cbn. rewrite Hin', length_app, length_take, length_drop. lia.
Qed.

(** Loading takes the intact events at the front of the file one by one. *)
Lemma load_loop_front fuel r rest b raws t off M hi M' hi' :
  reader_inv r -> bytes rest -> Forall plain raws -> input_ r ++ rest = concat raws ++ t ->
  reader_offset_ r = off -> loading off M hi b -> spec_feed (log_events off raws) (M, hi) = Some (M', hi') ->
  (length (input_ r) + 2 * length rest < fuel)%nat ->
  exists fuel' r' rest' b', load_loop fuel r rest b = load_loop fuel' r' rest' b' /\ reader_inv r' /\ bytes rest' /\
    input_ r' ++ rest' = t /\ reader_offset_ r' = off + Z.of_nat (length (concat raws)) /\ same_file b b' /\
    loading (off + Z.of_nat (length (concat raws))) M' hi' b' /\ (length (input_ r') + 2 * length rest' < fuel')%nat.
Proof.
  revert r rest b raws off M hi. induction fuel as [|fuel IH]; intros r rest b raws off M hi Hi Hb Hp Hin Ho Hl Hs Hf; [lia|].
  destruct raws as [|raw raws].
  { simpl in Hs. injection Hs as <- <-. exists (S fuel), r, rest, b. simpl. rewrite Z.add_0_r. done. }
  cbn [log_events spec_feed concat] in Hs, Hin |- *. rewrite <- app_assoc in Hin.
  apply Forall_cons_inv in Hp as [Hp1 Hp]. simpl load_loop at 1.
  destruct (decide (length raw <= length (input_ r))%nat) as [Hge|Hlt].
  - destruct (full_input raw r rest _ Hin Hge) as [E1 E2].
    rewrite (read_next_raw crc32 raw _ r (plain_ok raw Hp1) Hi E1), Ho.
    destruct (spec_do _ (M, hi)) as [[M1 hi1]|] eqn:Es in Hs; [|done].
    destruct (load_event raw off M hi b M1 hi1 Hp1 Hl Es) as (b1 & -> & Hl1 & Hsf1). cbn [res_bind].
    set (r1 := {| input_ := _ |}).
    destruct (IH r1 rest b1 raws (off + Z.of_nat (length raw)) M1 hi1)
      as (fuel' & r' & rest' & b' & Hb' & Hi' & Hrest' & Hin' & Ho' & Hsf & Hl' & Hf'); try done.
    + split; [|done]. cbn [input_ r1]. apply Forall_drop, Hi.
    + subst r1. cbn [input_]. pose proof (raw_ok_len crc32 raw (plain_ok raw Hp1)). rewrite length_drop. lia.
    + exists fuel', r', rest', b'. rewrite length_app, Nat2Z.inj_add, Z.add_assoc.
      split_and!; try done. destruct Hsf, Hsf1; split; congruence.
  - assert (length (input_ r) < length raw)%nat as Hlt' by lia. pose proof (short_input raw r rest _ Hin Hlt') as Hsh.
    destruct (read_next_short crc32 raw _ r (plain_ok raw Hp1) Hi Hlt' Hsh) as (need & r' & -> & Hneed & Hi' & Hin' & Ho').
    set (n := Z.to_nat (Z.max need 4096)).
    assert (length (input_ r ++ rest) = length raw + length (concat raws ++ t))%nat as HL by (by rewrite Hin, length_app).
    rewrite length_app in HL.
    rewrite (proj2 (Z.ltb_ge _ need)) by (cbn [input_ feed]; rewrite length_app, Hin', length_take; lia).
    apply (IH (feed (take n rest) r') (drop n rest) b (raw :: raws) off M hi); try done.
    + apply reader_inv_feed; [by apply Forall_take|done].
    + by apply Forall_drop.
    + by constructor.
    + cbn [input_ feed concat]. by rewrite Hin', <- !app_assoc, take_drop.
    + cbn. congruence.
    + cbn [input_ feed]. rewrite Hin', length_app, length_take, length_drop. lia.
Qed.

Lemma load_loop_ok fuel r rest b raws t off M hi M' hi' :
  reader_inv r -> bytes rest -> torn t -> Forall plain raws -> input_ r ++ rest = concat raws ++ t ->
  reader_offset_ r = off -> loading off M hi b -> spec_feed (log_events off raws) (M, hi) = Some (M', hi') ->
  (length (input_ r) + 2 * length rest < fuel)%nat ->
  exists b', load_loop fuel r rest b = Ok b' /\ same_file b b' /\
    loading (off + Z.of_nat (length (concat raws))) M' hi' b'.
Proof.
  intros Hi Hb Ht Hp Hin Ho Hl Hs Hf.
  destruct (load_loop_front fuel r rest b raws t off M hi M' hi') as (fuel' & r' & rest' & b' & -> & ? & ? & ? & _ & ? & ? & ?);
    try done.
  exists b'. split; [by eapply load_loop_end|done].
Qed.

(** A complete event of a batch that the file breaks off is left pending. *)
Lemma load_loop_pending fuel r rest b raw : reader_inv r -> bytes rest -> raw_ok crc32 raw ->
  has_flag Flags.Partial (event_of raw) = true -> input_ r ++ rest = raw ->
  (length (input_ r) + 2 * length rest < fuel)%nat ->
  load_loop fuel r rest b =
    Ok (with_pending (pending_events_ b ++
      [clear_flag Flags.Partial (set_offset (reader_offset_ r + Z.of_nat (length raw)) (event_of raw))]) b).
Proof.
  revert r rest. induction fuel as [|fuel IH]; intros r rest Hi Hb Hok Hpa Hin Hf; [lia|]. simpl load_loop.
  pose proof (raw_ok_len _ _ Hok) as [Hl32 _]. assert (length (input_ r) + length rest = length raw)%nat as HL by (by rewrite <- Hin, length_app).
  destruct (decide (length raw <= length (input_ r))%nat) as [Hge|Hlt].
  - assert (rest = []) as -> by (destruct rest; [done|cbn in HL; lia]). rewrite app_nil_r in Hin.
    rewrite (read_next_raw crc32 raw [] r Hok Hi) by (by rewrite app_nil_r). unfold do_add_event.
    change (has_flag Flags.Partial (set_offset _ (event_of raw))) with (has_flag Flags.Partial (event_of raw)). rewrite Hpa.
    cbn [res_bind]. apply (load_loop_end _ _ _ _ []); [by split|done|by left|done|cbn; lia].
  - assert (length (input_ r) < length raw)%nat as Hlt' by lia.
    pose proof (short_input raw r rest [] ltac:(by rewrite app_nil_r) Hlt') as Hsh.
    destruct (read_next_short crc32 raw _ r Hok Hi Hlt' Hsh) as (need & r' & -> & Hneed & Hi' & Hin' & Ho').
    rewrite (proj2 (Z.ltb_ge _ need)) by (cbn [input_ feed]; rewrite length_app, Hin', length_take; lia).
    set (n := Z.to_nat (Z.max need 4096)). rewrite <- Ho'.
    apply (IH (feed (take n rest) r') (drop n rest)); try done.
    + apply reader_inv_feed; [by apply Forall_take|done].
    + by apply Forall_drop.
    + cbn [input_ feed]. by rewrite Hin', <- app_assoc, take_drop.
    + cbn [input_ feed]. rewrite Hin', length_app, length_take, length_drop. lia.
Qed.

(** ** Specification of a log: the raw events alive, by id, and the highest id added *)
Definition spec_raw (raw : list Z) (s : gmap Z (list Z) * Z) : option (gmap Z (list Z) * Z) :=
  let '(R, hi) := s in
  let ev := event_of raw in
  if (has_flag Flags.Rewrite ev && bool_decide (is_Some (R !! id_ ev)))%bool then
    if type_ ev =? ServiceTypes.Empty then Some (delete (id_ ev) R, hi)
    else if type_ ev <? 0 then None
    else Some (<[id_ ev := raw]> R, hi)
  else if type_ ev <? 0 then
    if (negb (has_flag Flags.Rewrite ev) || (hi <? id_ ev))%bool then Some (R, hi) else None
  else if hi <? id_ ev then Some (<[id_ ev := raw]> R, id_ ev)
  else None.

Fixpoint replay (raws : list (list Z)) (s : gmap Z (list Z) * Z) : option (gmap Z (list Z) * Z) :=
  match raws with
  | [] => Some s
  | raw :: raws => match spec_raw raw s with Some s => replay raws s | None => None end
  end.

Lemma replay_app raws1 raws2 s :
  replay (raws1 ++ raws2) s = match replay raws1 s with Some s => replay raws2 s | None => None end.
Proof. revert s. induction raws1 as [|r raws1 IH]; intros s; simpl; [done|]. by destruct (spec_raw r s). Qed.

(** An in-memory event that came from the raw event it carries. *)
Definition with_flags (fl : Z) (ev : BinlogEvent) : BinlogEvent :=
  {| offset_ := offset_ ev; size_ := size_ ev; id_ := id_ ev; type_ := type_ ev; flags_ := fl; extra_ := extra_ ev;
     crc32_ := crc32_ ev; raw_event_ := raw_event_ ev |}.
Definition from_raw (ev : BinlogEvent) : Prop :=
  set_offset 0 (with_flags 0 ev) = set_offset 0 (with_flags 0 (event_of (raw_event_ ev))).

(** What holds of every event kept under the id [k]. *)
Definition kept (k : Z) (ev : BinlogEvent) : Prop :=
  from_raw ev /\ plain (raw_event_ ev) /\ id_ (event_of (raw_event_ ev)) = k /\
  0 <= type_ (event_of (raw_event_ ev)) /\ 0 < k.

Definition holds (M : gmap Z BinlogEvent) (R : gmap Z (list Z)) : Prop :=
  raw_event_ <$> M = R /\ map_Forall kept M.

Lemma Some_pair_inj {A B} (a c : A) (b d : B) : Some (a, b) = Some (c, d) -> a = c /\ b = d.
Proof. by injection 1. Qed.

Lemma spec_raw_do raw ev M R hi R' hi' : plain raw -> raw_event_ ev = raw -> from_raw ev ->
  flags_ ev = flags_ (event_of raw) -> holds M R -> 0 <= hi ->
  spec_raw raw (R, hi) = Some (R', hi') -> exists M', spec_do ev (M, hi) = Some (M', hi') /\ holds M' R' /\ 0 <= hi'.
Proof.
  intros Hp Hraw Hfr Hfl [<- Hk] Hhi Hs. unfold spec_raw in Hs. unfold spec_do.
  assert (id_ ev = id_ (event_of raw) /\ type_ ev = type_ (event_of raw)) as [Eid Ety].
  { unfold from_raw, set_offset, with_flags in Hfr. rewrite Hraw in Hfr. by injection Hfr. }
  assert (forall f, has_flag f ev = has_flag f (event_of raw)) as Hhf by (intros; unfold has_flag; by rewrite Hfl).
  rewrite Hhf, Eid, Ety. rewrite lookup_fmap in Hs.
  assert (bool_decide (is_Some (raw_event_ <$> M !! id_ (event_of raw))) = bool_decide (is_Some (M !! id_ (event_of raw)))) as E.
  { apply bool_decide_ext. by rewrite fmap_is_Some. }
  rewrite E in Hs. clear E.
  assert (forall fl, 0 <= type_ (event_of raw) -> 0 < id_ (event_of raw) -> kept (id_ (event_of raw)) (with_flags fl ev)) as Hkept.
  { intros fl Ht Hid. unfold kept, from_raw in *. cbn. rewrite Hraw in *. split_and!; done. }
  destruct (has_flag Flags.Rewrite (event_of raw)); cbn [andb] in *; [case_bool_decide as Hin|].
  - assert (0 < id_ (event_of raw)) by (destruct Hin as [e He]; by destruct (Hk _ _ He) as (_ & _ & _ & _ & ?)).
    repeat case_if_in Hs; try done; apply Some_pair_inj in Hs as [<- <-]; eexists; (split; [done|]); (split; [|done]); split.
    + by rewrite fmap_delete.
    + by apply map_Forall_delete.
    + rewrite fmap_insert. cbn. by rewrite Hraw.
    + apply map_Forall_insert_2; [|done]. apply (Hkept (Z.land (flags_ ev) (Z.lnot Flags.Rewrite))); lia.
  - repeat case_if_in Hs; try done; apply Some_pair_inj in Hs as [<- <-]; eexists; (split; [done|]); (split; [|lia]); split; try done.
    + rewrite fmap_insert. by rewrite Hraw.
    + apply map_Forall_insert_2; [|done]. specialize (Hkept (flags_ ev)). destruct ev. apply Hkept; lia.
  - repeat case_if_in Hs; try done; apply Some_pair_inj in Hs as [<- <-]; eexists; (split; [done|]); (split; [|lia]); split; try done.
    + rewrite fmap_insert. by rewrite Hraw.
    + apply map_Forall_insert_2; [|done]. specialize (Hkept (flags_ ev)). destruct ev. apply Hkept; lia.
Qed.

Lemma spec_feed_replay raws off M R hi R' hi' : Forall plain raws -> holds M R -> 0 <= hi ->
  replay raws (R, hi) = Some (R', hi') ->
  exists M', spec_feed (log_events off raws) (M, hi) = Some (M', hi') /\ holds M' R' /\ 0 <= hi'.
Proof.
  revert off M R hi. induction raws as [|raw raws IH]; intros off M R hi Hp Hh Hhi Hs; cbn [replay log_events spec_feed] in *.
  - injection Hs as <- <-. by exists M.
  - apply Forall_cons_inv in Hp as [Hp1 Hp]. destruct (spec_raw raw (R, hi)) as [[R1 hi1]|] eqn:E; [|done].
    destruct (spec_raw_do raw (set_offset (off + Z.of_nat (length raw)) (event_of raw)) M R hi R1 hi1) as (M1 & -> & Hh1 & ?);
      try done. by eapply IH.
Qed.

(** ** An open log

    [raws] are the events of the file and of the buffer; they replay to [R],
    and so does the processor. *)
Record running (raws : list (list Z)) (R : gmap Z (list Z)) (hi : Z) (b : Binlog) : Prop := {
  run_state : state_ b = Run;
  run_pending : pending_events_ b = [];
  run_ref : exists M, refines (processor_ b) M hi /\ holds M R;
  run_bytes : file b ++ buffer_writer_ b = concat raws;
  run_size : fd_size_ b = Z.of_nat (length (concat raws));
  run_plain : Forall plain raws;
  run_replay : exists hl, replay raws (∅, 0) = Some (R, hl) /\ 0 <= hl <= hi;
}.

Lemma torn_bytes t : torn t -> bytes t.
Proof. intros [->|(raw & k & H & _ & ->)]; [done|]. apply Forall_take, H. Qed.

Lemma log_bytes raws : Forall plain raws -> bytes (concat raws).
Proof. induction 1 as [|raw raws H _ IH]; [done|]. simpl. apply Forall_app. split; [apply H|done]. Qed.

Lemma init_binlog_ok raws t R hi : Forall plain raws -> torn t -> replay raws (∅, 0) = Some (R, hi) ->
  exists kvs b, init_binlog (concat raws ++ t) = Ok (map snd kvs, b) /\
    StronglySorted Z.lt (map fst kvs) /\ raw_event_ <$> list_to_map kvs = R /\
    running raws R hi b /\ last_event_id_ b = hi /\ file b = concat raws /\ buffer_writer_ b = [] /\
    Forall (fun kv => id_ kv.2 = kv.1 /\ type_ kv.2 = type_ (event_of (raw_event_ kv.2))) kvs.
Proof.
  intros Hp Ht Hs.
  destruct (spec_feed_replay raws 0 ∅ ∅ 0 R hi Hp) as (M & HM & Hh & Hhi); [by split; [rewrite fmap_empty|]|lia|done|].
  unfold init_binlog, load_binlog. set (b0 := with_state Load _).
  destruct (load_loop_ok (2 * length (file b0) + 2) (new_reader []) (file b0) b0 raws t 0 ∅ 0 M hi)
    as (b1 & -> & [Hf1 Hb1] & [Hst1 Hpe1 Href1 Hsz1 Hof1]); try done.
  { apply Forall_app. split; [by apply log_bytes|by apply torn_bytes]. }
  { split; try done. apply proc_refines_init. }
  { cbn. lia. }
  cbn [res_bind]. rewrite Hof1. rewrite (proj2 (Z.leb_le 0 _)) by lia.
  destruct (for_each_refines _ _ _ Href1) as (kvs & -> & Hso & Hlm & _). cbn [res_bind]. rewrite Z.add_0_l in *.
  set (b2 := if _ =? _ then b1 else _).
  assert (file b2 = concat raws /\ buffer_writer_ b2 = [] /\ fd_size_ b2 = fd_size_ b1 /\
    processor_ b2 = processor_ b1 /\ pending_events_ b2 = []) as (Hf2 & Hb2 & Hs2 & Hp2 & Hpe2).
  { subst b2. case_if; cbn; rewrite Hf1, ?Hb1; cbn.
    - split_and!; try done. rewrite Hf1 in E. cbn in E. rewrite length_app in E.
      destruct t; [by rewrite app_nil_r|simpl in E; lia].
    - rewrite Nat2Z.id, take_app_length. done. }
  rewrite Hs2, Hsz1, Z.eqb_refl. cbn [res_bind].
  exists kvs. eexists. split; [done|]. split_and!; try done.
  - destruct Hh as [Hh _]. by rewrite Hlm.
  - split; cbn; try done.
    + exists M. by rewrite Hp2.
    + by rewrite Hf2, Hb2, app_nil_r.
    + by rewrite Hs2, Hsz1.
    + exists hi. split; [done|lia].
  - cbn. rewrite Hp2. apply Href1.
  - apply Forall_forall. intros [k ev] Hin. apply (elem_of_list_to_map (M := gmap Z)) in Hin; [|by apply sorted_NoDup].
    rewrite Hlm in Hin. destruct Hh as [_ Hh]. destruct (Hh _ _ Hin) as (Hfr & _ & Hid & _). cbn. rewrite <- Hid.
    unfold from_raw, set_offset, with_flags in Hfr. injection Hfr. done.
Qed.

Lemma from_raw_validate ev : raw_ok crc32 (raw_event_ ev) -> from_raw ev -> validate crc32 ev = Ok tt.
Proof.
  intros Hok Hfr. destruct (raw_ok_len _ _ Hok) as [Hl Hu].
  assert (ev = {| offset_ := offset_ ev; size_ := Z.of_nat (length (raw_event_ ev)); id_ := field (raw_event_ ev) 4 8;
     type_ := s32 (field (raw_event_ ev) 12 4); flags_ := flags_ ev; extra_ := field (raw_event_ ev) 20 8;
     crc32_ := field (raw_event_ ev) (length (raw_event_ ev) - 4) 4; raw_event_ := raw_event_ ev |}) as ->.
  { unfold from_raw, set_offset, with_flags, event_of in Hfr. cbn in Hfr. injection Hfr. intros. destruct ev; cbn in *. by f_equal. }
  cbn [raw_event_]. rewrite validate_eq by (done || apply Hok).
  by rewrite (raw_size _ _ Hok), (raw_crc _ _ Hok), !Z.eqb_refl.
Qed.

Lemma event_of_from_raw raw : from_raw (event_of raw).
Proof. done. Qed.

Lemma spec_raw_mono raw R hi hl R' hi' : spec_raw raw (R, hi) = Some (R', hi') -> 0 <= hl <= hi ->
  exists hl', spec_raw raw (R, hl) = Some (R', hl') /\ 0 <= hl' <= hi'.
Proof.
  unfold spec_raw. intros Hs Hl. repeat case_if_in Hs; try done; apply Some_pair_inj in Hs as [<- <-]; try by eexists.
  - apply orb_true_iff in E1 as [->|E1]; [by eexists|]. zbool.
    rewrite (proj2 (Z.ltb_lt hl _)) by lia. rewrite orb_true_r. by eexists.
  - rewrite (proj2 (Z.ltb_lt hl _)) by lia. eexists. split; [done|]. lia.
Qed.

(** [do_event] of an intact event that needs no encryption, in the state [Run]. *)
Lemma do_event_run raws R hi b raw R' hi' : running raws R hi b -> plain raw ->
  spec_raw raw (R, hi) = Some (R', hi') ->
  exists b', do_event (event_of raw) b = Ok b' /\ running (raws ++ [raw]) R' hi' b' /\
    last_event_id_ b' = last_event_id_ b.
Proof.
  intros [Hst Hpe (M & Href & Hh) Hby Hsz Hpl (hl & Hre & Hhl)] Hp Hs.
  destruct (spec_raw_do raw (event_of raw) M R hi R' hi') as (M' & HM' & Hh' & Hhi'); try done; [apply Href|].
  destruct (do_event_refines (processor_ b) M hi (event_of raw) M' hi') as (p' & Hp' & _ & Href'); [done|apply Hp|done|].
  unfold do_event, write_event, process_event. rewrite Hst, validate_ok by apply Hp. cbn [res_bind].
  rewrite (proj2 (Z.eqb_neq _ _)) by apply Hp. cbn [res_bind state_ processor_]. rewrite Hp'.
  cbn [res_bind]. eexists. split; [done|]. split; [|done].
  destruct (spec_raw_mono raw R hi hl R' hi' Hs Hhl) as (hl' & Hs' & Hhl').
  split; cbn [state_ pending_events_ processor_ file buffer_writer_ fd_size_ with_processor].
  - done.
  - done.
  - by exists M'.
  - rewrite app_assoc, Hby, concat_app. simpl. by rewrite app_nil_r.
  - rewrite Hsz, concat_app, length_app. cbn [raw_event_ event_of concat]. rewrite app_nil_r. lia.
  - apply Forall_app. split; [done|]. by apply Forall_cons_2, Forall_nil_2.
  - exists hl'. rewrite replay_app, Hre. cbn [replay]. by rewrite Hs'.
Qed.

Lemma flush_running raws R hi b : running raws R hi b ->
  running raws R hi (flush b) /\ file (flush b) = concat raws /\ last_event_id_ (flush b) = last_event_id_ b.
Proof.
  intros [Hst Hpe Hr Hby Hsz Hpl Hre]. unfold flush. rewrite Hst. cbn.
  split; [|done]. split; cbn; try done. by rewrite app_nil_r.
Qed.

Lemma lazy_flush_running raws R hi b : running raws R hi b ->
  running raws R hi (lazy_flush b) /\ last_event_id_ (lazy_flush b) = last_event_id_ b.
Proof. intros H. unfold lazy_flush. case_if; [|done]. by destruct (flush_running _ _ _ _ H) as (? & _ & ?). Qed.

(** *** Regenerating the file *)
Definition writable (ev : BinlogEvent) : Prop :=
  from_raw ev /\ raw_ok crc32 (raw_event_ ev) /\ type_ (event_of (raw_event_ ev)) <> ServiceTypes.AesCtrEncryption.

Lemma kept_writable k ev : kept k ev -> writable ev.
Proof. intros (Hfr & Hp & _). split_and!; [done|apply Hp..]. Qed.

Lemma do_events_reindex evs b : state_ b = Reindex -> Forall writable evs ->
  exists n, do_events evs b =
    Ok {| file := file b; buffer_writer_ := buffer_writer_ b ++ concat (map raw_event_ evs);
          fd_size_ := fd_size_ b + Z.of_nat (length (concat (map raw_event_ evs))); fd_events_ := n;
          pending_events_ := pending_events_ b; processor_ := processor_ b; last_event_id_ := last_event_id_ b;
          state_ := Reindex |}.
Proof.
  revert b. induction evs as [|ev evs IH]; intros b Hst Hf; cbn [do_events map concat].
  - exists (fd_events_ b). rewrite app_nil_r. simpl. rewrite Z.add_0_r. destruct b. cbn in *. by subst.
  - apply Forall_cons_inv in Hf as [(Hfr & Hok & Hty) Hf]. unfold do_event, write_event, process_event.
    rewrite Hst, from_raw_validate by done. cbn [res_bind].
    assert (type_ ev = type_ (event_of (raw_event_ ev))) as Ety.
    { unfold from_raw, set_offset, with_flags in Hfr. by injection Hfr. }
    rewrite Ety, (proj2 (Z.eqb_neq _ _)) by done. cbn [res_bind state_].
    destruct (IH {| file := file b; buffer_writer_ := buffer_writer_ b ++ raw_event_ ev;
      fd_size_ := fd_size_ b + Z.of_nat (length (raw_event_ ev)); fd_events_ := fd_events_ b + 1;
      pending_events_ := pending_events_ b; processor_ := processor_ b; last_event_id_ := last_event_id_ b;
      state_ := Reindex |} eq_refl Hf) as [n Hn].
    exists n. cbn in Hn |- *. rewrite Hn. rewrite <- app_assoc, length_app. do 2 f_equal. lia.
Qed.

Lemma replay_sorted kvs R0 hi0 hi : StronglySorted Z.lt (map fst kvs) ->
  Forall (fun kv => kept kv.1 kv.2 /\ hi0 < kv.1 <= hi) kvs ->
  (forall j, is_Some (R0 !! j) -> j <= hi0) -> 0 <= hi0 <= hi ->
  exists hl, replay (map raw_event_ (map snd kvs)) (R0, hi0) = Some ((raw_event_ <$> list_to_map kvs) ∪ R0, hl) /\
    0 <= hl <= hi.
Proof.
  revert R0 hi0. induction kvs as [|[k ev] kvs IH]; intros R0 hi0 Hso Hf HR Hhi; cbn [map replay list_to_map foldr fst snd].
  - exists hi0. rewrite fmap_empty, (left_id_L ∅ _). done.
  - apply Forall_cons_inv in Hf as [[Hk Hhk] Hf]. cbn in Hso. inversion_clear Hso. cbn [fst snd] in *.
    destruct Hk as (_ & Hp & Hid & Hty & Hpos). unfold spec_raw. rewrite Hid.
    assert (bool_decide (is_Some (R0 !! k)) = false) as -> by (apply bool_decide_eq_false; intros ?%HR; lia).
    rewrite andb_false_r, (proj2 (Z.ltb_ge _ 0)), (proj2 (Z.ltb_lt hi0 k)) by lia.
    destruct (IH (<[k := raw_event_ ev]> R0) k) as (hl & -> & ?); [done| | |lia|].
    + apply Forall_forall. intros [k' ev'] Hin. rewrite !Forall_forall in *. destruct (Hf _ Hin) as [? ?].
      split; [done|]. cbn in *. split; [|lia]. apply H0. apply list_elem_of_fmap. by exists (k', ev').
    + intros j. destruct (decide (j = k)) as [->|]; [lia|]. rewrite lookup_insert_ne by done. intros ?%HR. lia.
    + exists hl. split; [|done]. f_equal. f_equal. rewrite fmap_insert.
      assert ((list_to_map kvs : gmap Z BinlogEvent) !! k = None) as Hnone.
      { apply not_elem_of_list_to_map_1. intros Hin. rewrite Forall_forall in H0. specialize (H0 k Hin). lia. }
      rewrite <- insert_union_r by (by rewrite lookup_fmap, Hnone). by rewrite insert_union_l.
Qed.

Lemma do_reindex_running raws R hi b : running raws R hi b ->
  exists raws' b', do_reindex b = Ok b' /\ running raws' R hi b' /\ last_event_id_ b' = last_event_id_ b /\
    file b' = concat raws' /\ map_Forall (fun _ raw => raw ∈ raws') R /\ length raws' = size R.
Proof.
  intros [Hst Hpe (M & Href & Hh) Hby Hsz Hpl Hre]. unfold do_reindex. rewrite Hst. cbn [processor_].
  destruct (for_each_refines _ _ _ Href) as (kvs & -> & Hso & Hlm & _). cbn [res_bind].
  assert (NoDup (map fst kvs)) as Hnd by (by apply sorted_NoDup).
  assert (Forall (fun kv => kept kv.1 kv.2 /\ 0 < kv.1 <= hi) kvs) as Hk.
  { apply Forall_forall. intros [k ev] Hin. apply (elem_of_list_to_map (M := gmap Z) _ _ _ Hnd) in Hin.
    rewrite Hlm in Hin. destruct Hh as [_ Hh]. pose proof (Hh _ _ Hin) as Hke. cbn. split; [done|].
    split; [apply Hke|]. rewrite <- (ref_view _ _ _ Href) in Hin.
    destruct (view_pos _ _ _ (ref_inv _ _ _ Href) Hin) as (pos & Hpos & _).
    pose proof (ref_ids _ _ _ Href) as Hids. rewrite Forall_forall in Hids.
    apply list_elem_of_lookup_2, Hids in Hpos as [_ Hpos]. rewrite Z.mul_comm, Z.div_mul in Hpos by lia. done. }
  set (b1 := {| file := [] |}).
  destruct (do_events_reindex (map snd kvs) b1 eq_refl) as [n ->].
  { apply Forall_forall. intros ev Hin. apply list_elem_of_fmap in Hin as ([k e] & -> & Hin).
    rewrite Forall_forall in Hk. by eapply kept_writable, (Hk _ Hin). }
  cbn [res_bind flush state_ b1 file buffer_writer_ fd_size_]. rewrite !app_nil_l, Z.add_0_l, Z.eqb_refl.
  destruct (replay_sorted kvs ∅ 0 hi Hso Hk) as (hl & Hrep & Hhl);
    [intros j [? ?]; by rewrite lookup_empty in *|split; [lia|apply Href]|].
  destruct Hh as [Hraw Hkept]. rewrite Hlm, (right_id_L ∅ _), Hraw in Hrep.
  exists (map raw_event_ (map snd kvs)). eexists. split; [done|].
  split; [|split; [done|split; [done|split]]].
  - split; cbn; try done; [by exists M|by rewrite app_nil_r| |by exists hl].
    apply Forall_forall. intros raw Hin. apply list_elem_of_fmap in Hin as (ev & -> & Hin).
    apply list_elem_of_fmap in Hin as ([k e] & -> & Hin). rewrite Forall_forall in Hk. by destruct (Hk _ Hin) as [(_ & ? & _) _].
  - intros k raw Hin. rewrite <- Hraw, <- Hlm, lookup_fmap in Hin.
    apply fmap_Some in Hin as (ev & Hin & ->). apply elem_of_list_to_map in Hin; [|done].
    apply list_elem_of_fmap. exists ev. split; [done|]. apply list_elem_of_fmap. by exists (k, ev).
  - rewrite !length_map, <- Hraw, map_size_fmap, <- Hlm. by rewrite map_size_list_to_map.
Qed.

Lemma add_event_running raws R hi b raw R' hi' : running raws R hi b -> plain raw ->
  spec_raw raw (R, hi) = Some (R', hi') ->
  exists raws' b', add_raw_event raw b = Ok b' /\ running raws' R' hi' b' /\ last_event_id_ b' = last_event_id_ b.
Proof.
  intros Hrun Hp Hs. unfold add_raw_event. rewrite (init_ok crc32) by apply Hp. cbn [res_bind]. unfold add_event.
  change (size_ (event_of raw)) with (Z.of_nat (length raw)).
  rewrite (raw_align _ _ (plain_ok _ Hp)). cbn [Z.eqb]. unfold do_add_event.
  rewrite (plain_partial _ Hp), (run_pending _ _ _ _ Hrun). cbn [do_events res_bind].
  assert (with_pending [] b = b) as -> by (destruct b, Hrun as [_ Hpe _ _ _ _ _]; cbn in *; by subst).
  destruct (do_event_run raws R hi b raw R' hi' Hrun Hp Hs) as (b1 & -> & Hrun1 & Hl1). cbn [res_bind].
  destruct (lazy_flush_running _ _ _ _ Hrun1) as [Hrun2 Hl2]. rewrite (run_state _ _ _ _ Hrun2). case_if.
  - destruct (do_reindex_running _ _ _ _ Hrun2) as (raws' & b' & Hb' & Hrun' & Hl' & _).
    exists raws', b'. split_and!; [done|done|congruence].
  - exists (raws ++ [raw]), (lazy_flush b1). split_and!; [done|done|congruence].
Qed.

(** *** What an open log holds in memory, whatever its file holds *)
Record in_memory (pend : list BinlogEvent) (M : gmap Z BinlogEvent) (hi : Z) (b : Binlog) : Prop := {
  mem_state : state_ b = Run;
  mem_pending : pending_events_ b = pend;
  mem_ref : refines (processor_ b) M hi;
  mem_writable : map_Forall (fun _ => writable) M;
}.

Lemma lazy_flush_in_memory pend M hi b : in_memory pend M hi b -> in_memory pend M hi (lazy_flush b).
Proof. intros [Hs Hp Hr Hw]. unfold lazy_flush, flush. case_if; rewrite ?Hs; by split. Qed.

Lemma do_event_in_memory pend M hi b ev M' hi' : in_memory pend M hi b -> writable ev -> 0 <= id_ ev < 2 ^ 63 ->
  spec_do ev (M, hi) = Some (M', hi') -> map_Forall (fun _ => writable) M' ->
  exists b', do_event ev b = Ok b' /\ in_memory pend M' hi' b'.
Proof.
  intros [Hst Hpe Href _] (Hfr & Hok & Hty) Hid Hs Hw.
  destruct (do_event_refines (processor_ b) M hi ev M' hi') as (p' & Hp' & _ & Href'); [done..|].
  unfold do_event, write_event, process_event. rewrite Hst, from_raw_validate by done. cbn [res_bind].
  assert (type_ ev = type_ (event_of (raw_event_ ev))) as Ety by (unfold from_raw, set_offset, with_flags in Hfr; by injection Hfr).
  rewrite Ety, (proj2 (Z.eqb_neq _ _)) by done. cbn [res_bind state_ processor_]. rewrite Hp'. cbn [res_bind].
  eexists. split; [done|]. by split.
Qed.

Lemma do_reindex_in_memory pend M hi b : in_memory pend M hi b ->
  exists kvs b', do_reindex b = Ok b' /\ in_memory pend M hi b' /\ for_each (processor_ b') = Ok (map snd kvs) /\
    StronglySorted Z.lt (map fst kvs) /\ list_to_map kvs = M /\ file b' = concat (map raw_event_ (map snd kvs)).
Proof.
  intros [Hst Hpe Href Hw]. unfold do_reindex. rewrite Hst. cbn [processor_].
  destruct (for_each_refines _ _ _ Href) as (kvs & Hfe & Hso & Hlm & _). rewrite Hfe. cbn [res_bind].
  set (b1 := {| file := [] |}). destruct (do_events_reindex (map snd kvs) b1 eq_refl) as [n ->].
  { apply Forall_forall. intros ev Hin. apply list_elem_of_fmap in Hin as ([k e] & -> & Hin). apply (Hw k).
    rewrite <- Hlm. apply elem_of_list_to_map; [by apply sorted_NoDup|done]. }
  cbn [res_bind flush state_ b1 file buffer_writer_ fd_size_]. rewrite !app_nil_l, Z.add_0_l, Z.eqb_refl.
  exists kvs. eexists. split; [done|]. by split_and!.
Qed.

Lemma add_event_in_memory pend M hi ev b b1 : size_ ev mod 4 = 0 -> do_add_event ev b = Ok b1 -> in_memory pend M hi b1 ->
  exists b', add_event ev b = Ok b' /\ in_memory pend M hi b'.
Proof.
  intros Hsz Hadd Hm. unfold add_event. rewrite Hsz, Hadd. cbn [res_bind Z.eqb].
  apply lazy_flush_in_memory in Hm. rewrite (mem_state _ _ _ _ Hm). case_if; [|by eauto].
  destruct (do_reindex_in_memory _ _ _ _ Hm) as (kvs & b' & ? & ? & _). by exists b'.
Qed.

Lemma refines_le p M hi k ev : refines p M hi -> M !! k = Some ev -> k <= hi.
Proof.
  intros Href Hin. rewrite <- (ref_view _ _ _ Href) in Hin. destruct (view_pos _ _ _ (ref_inv _ _ _ Href) Hin) as (pos & Hpos & _).
  pose proof (ref_ids _ _ _ Href) as Hids. rewrite Forall_forall in Hids.
  apply list_elem_of_lookup_2, Hids in Hpos as [_ Hpos]. by rewrite Z.mul_comm, Z.div_mul in Hpos by lia.
Qed.

(** An intact new event with an id above [lo]. *)
Record appends (lo : Z) (raw : list Z) : Prop := {
  app_ok : raw_ok crc32 raw;
  app_new : has_flag Flags.Rewrite (event_of raw) = false;
  app_type : 0 <= type_ (event_of raw);
  app_id : lo < id_ (event_of raw) < 2 ^ 63;
}.
(** An intact event that erases the event [id]. *)
Record erases (id : Z) (raw : list Z) : Prop := {
  er_ok : raw_ok crc32 raw;
  er_rewrite : has_flag Flags.Rewrite (event_of raw) = true;
  er_partial : has_flag Flags.Partial (event_of raw) = false;
  er_type : type_ (event_of raw) = ServiceTypes.Empty;
  er_id : id_ (event_of raw) = id;
}.

Lemma raw_writable raw : raw_ok crc32 raw -> type_ (event_of raw) <> ServiceTypes.AesCtrEncryption ->
  writable (event_of raw) /\ writable (clear_flag Flags.Partial (event_of raw)).
Proof. intros Hok Hty. by split. Qed.

Lemma appends_spec lo raw ev M : appends lo raw -> id_ ev = id_ (event_of raw) -> type_ ev = type_ (event_of raw) ->
  has_flag Flags.Rewrite ev = false -> spec_do ev (M, lo) = Some (<[id_ ev := ev]> M, id_ ev).
Proof.
  intros [_ _ Ht Hid] Ei Et Hf. unfold spec_do. rewrite Hf, Ei, Et. cbn [andb].
  rewrite (proj2 (Z.ltb_ge _ 0)), (proj2 (Z.ltb_lt lo _)) by lia. done.
Qed.

Lemma clear_partial_rewrite ev : has_flag Flags.Rewrite (clear_flag Flags.Partial ev) = has_flag Flags.Rewrite ev.
Proof. unfold has_flag, clear_flag. cbn [flags_]. by rewrite <- Z.land_assoc. Qed.

(** A batch of two new events, and the erasure of the second. *)
Lemma add_batch_in_memory M hi b raw1 raw2 raw3 : in_memory [] M hi b ->
  appends hi raw1 -> has_flag Flags.Partial (event_of raw1) = true ->
  appends (id_ (event_of raw1)) raw2 -> has_flag Flags.Partial (event_of raw2) = false ->
  erases (id_ (event_of raw2)) raw3 ->
  exists b', (let* b := add_raw_event raw1 b in let* b := add_raw_event raw2 b in add_raw_event raw3 b) = Ok b' /\
    in_memory [] (<[id_ (event_of raw1) := clear_flag Flags.Partial (event_of raw1)]> M) (id_ (event_of raw2)) b'.
Proof.
  intros Hm H1 Hp1 H2 Hp2 H3. set (ev1 := clear_flag Flags.Partial (event_of raw1)). set (id1 := id_ (event_of raw1)) in *.
  set (id2 := id_ (event_of raw2)) in *. pose proof (ref_hi _ _ _ (mem_ref _ _ _ _ Hm)) as Hhi.
  pose proof (app_id _ _ H1) as Hid1. pose proof (app_id _ _ H2) as Hid2. fold id1 in Hid1. fold id2 in Hid2.
  assert (writable ev1) as Hw1 by (apply raw_writable; [apply H1|pose proof (app_type _ _ H1); unfold ServiceTypes.AesCtrEncryption; lia]).
  assert (writable (event_of raw2)) as Hw2 by (apply raw_writable; [apply H2|pose proof (app_type _ _ H2); unfold ServiceTypes.AesCtrEncryption; lia]).
  assert (writable (event_of raw3)) as Hw3 by (apply raw_writable; [apply H3|by rewrite (er_type _ _ H3)]).
  assert (M !! id2 = None) as Hnone by (destruct (M !! id2) eqn:E; [apply (refines_le _ _ _ _ _ (mem_ref _ _ _ _ Hm)) in E; lia|done]).
  assert (map_Forall (fun _ => writable) (<[id1 := ev1]> M)) as HwM by (apply map_Forall_insert_2; [done|apply Hm]).
  set (M1 := <[id1 := ev1]> M) in *. set (M2 := <[id2 := event_of raw2]> M1).
  unfold add_raw_event. rewrite !(init_ok crc32) by (apply H1 || apply H2 || apply H3). cbn [res_bind].
  (* the first event waits *)
  destruct (add_event_in_memory [ev1] M hi (event_of raw1) b (with_pending [ev1] b)) as (b1 & -> & Hm1).
  { apply (raw_align _ _ (app_ok _ _ H1)). }
  { unfold do_add_event. by rewrite Hp1, (mem_pending _ _ _ _ Hm). }
  { by destruct Hm. }
  cbn [res_bind].
  (* the second one ends the batch *)
  destruct (do_event_in_memory [ev1] M hi b1 ev1 M1 id1) as (b2 & Hb2 & Hm2); [done|done|change (id_ ev1) with id1; lia| |done|].
  { apply (appends_spec hi raw1); try done. unfold ev1. rewrite clear_partial_rewrite. apply H1. }
  destruct (do_event_in_memory [] M1 id1 (with_pending [] b2) (event_of raw2)
    M2 id2) as (b3 & Hb3 & Hm3);
    [by destruct Hm2|done|fold id2; lia|apply (appends_spec id1 raw2); try done; apply H2|by apply map_Forall_insert_2|].
  destruct (add_event_in_memory [] M2 id2 (event_of raw2) b1 b3) as (b4 & -> & Hm4); [|by unfold do_add_event; rewrite Hp2, (mem_pending _ _ _ _ Hm1); cbn [do_events]; rewrite Hb2|done|].
  { apply (raw_align _ _ (app_ok _ _ H2)). }
  cbn [res_bind].
  (* the second one is erased *)
  destruct (do_event_in_memory [] M2 id2 (with_pending [] b4) (event_of raw3) M1 id2) as (b5 & Hb5 & Hm5);
    [by destruct Hm4|done|rewrite (er_id _ _ H3); lia| |done|].
  { unfold spec_do. rewrite (er_rewrite _ _ H3), (er_id _ _ H3), (er_type _ _ H3). unfold M2. rewrite lookup_insert_eq. cbn -[delete insert].
    rewrite delete_insert_id; [done|]. change (M1 !! id2 = None). unfold M1. by rewrite lookup_insert_ne by lia. }
  destruct (add_event_in_memory [] M1 id2 (event_of raw3) b4 b5) as (b6 & Hb6 & Hm6); [|by unfold do_add_event; rewrite (er_partial _ _ H3), (mem_pending _ _ _ _ Hm4)|done|by exists b6].
  apply (raw_align _ _ (er_ok _ _ H3)).
Qed.

(** Opening a file that ends in the middle of a batch: the complete event of
    the batch is neither replayed nor left in the file. *)
Lemma init_binlog_pending raws raw1 R hi : Forall plain raws -> raw_ok crc32 raw1 ->
  has_flag Flags.Partial (event_of raw1) = true -> replay raws (∅, 0) = Some (R, hi) ->
  exists kvs b, init_binlog (concat raws ++ raw1) = Ok (map snd kvs, b) /\
    StronglySorted Z.lt (map fst kvs) /\ raw_event_ <$> list_to_map kvs = R /\ file b = concat raws.
Proof.
  intros Hp Hok Hpa Hs.
  destruct (spec_feed_replay raws 0 ∅ ∅ 0 R hi Hp) as (M & HM & [Hh _] & Hhi); [by split; [rewrite fmap_empty|]|lia|done|].
  unfold init_binlog, load_binlog. set (b0 := with_state Load _).
  destruct (load_loop_front (2 * length (file b0) + 2) (new_reader []) (file b0) b0 raws raw1 0 ∅ 0 M hi)
    as (fuel & r & rest & b1 & -> & Hi & Hrest & Hin & _ & [Hf1 _] & [_ _ Href Hsz Hof] & Hfuel); try done.
  { apply Forall_app. split; [by apply log_bytes|apply Hok]. }
  { split; try done. apply proc_refines_init. }
  { cbn. lia. }
  rewrite (load_loop_pending _ _ _ _ raw1 Hi Hrest Hok Hpa Hin Hfuel). cbn [res_bind with_pending processor_ file].
  rewrite Hof, (proj2 (Z.leb_le 0 _)) by lia.
  destruct (for_each_refines _ _ _ Href) as (kvs & -> & Hso & Hlm & _). cbn [res_bind]. rewrite Z.add_0_l in *.
  rewrite Hf1. change (file b0) with (concat raws ++ raw1). destruct (raw_ok_len _ _ Hok) as [Hl _].
  assert ((Z.of_nat (length (concat raws)) =? Z.of_nat (length (concat raws ++ raw1))) = false) as -> by (apply Z.eqb_neq; rewrite length_app; clear -Hl; lia).
  cbn [fd_size_ with_file with_pending]. rewrite Hsz, Z.eqb_refl. cbn [res_bind].
  exists kvs. eexists. split; [done|]. split_and!; [done|by rewrite Hlm|]. cbn. by rewrite Nat2Z.id, take_app_length.
Qed.

Lemma sorted_pairs_unique {A} (l1 l2 : list (Z * A)) : StronglySorted Z.lt (map fst l1) -> StronglySorted Z.lt (map fst l2) ->
  (list_to_map l1 : gmap Z A) = list_to_map l2 -> l1 = l2.
Proof.
  intros H1 H2 E. assert (forall l : list (Z * A), StronglySorted Z.lt (map fst l) -> StronglySorted (fun a b => a.1 < b.1) l) as Hp.
  { intros l. induction l as [|a l IH]; cbn; [constructor|]. intros [H Ha]%StronglySorted_inv. constructor; [by apply IH|].
    rewrite Forall_map in Ha. exact Ha. }
  apply (StronglySorted_unique_strong (fun a b : Z * A => a.1 < b.1)).
  - cbn. intros. lia.
  - by apply Hp.
  - by apply Hp.
  - apply (list_to_map_inj (M := gmap Z)); [by apply sorted_NoDup..|done].
Qed.

Lemma sorted_raws_unique (l1 l2 : list (Z * BinlogEvent)) : StronglySorted Z.lt (map fst l1) -> StronglySorted Z.lt (map fst l2) ->
  raw_event_ <$> (list_to_map l1 : gmap Z BinlogEvent) = raw_event_ <$> list_to_map l2 ->
  map raw_event_ (map snd l1) = map raw_event_ (map snd l2).
Proof.
  intros H1 H2 E. rewrite <- !list_to_map_fmap in E. apply sorted_pairs_unique in E.
  - rewrite !map_map. assert (forall l : list (Z * BinlogEvent), map (fun x => raw_event_ x.2) l = map snd (prod_map id raw_event_ <$> l)) as Hs.
    { intros l. unfold fmap. rewrite map_map. by apply map_ext. }
    by rewrite !Hs, E.
  - unfold fmap. by rewrite map_map.
  - unfold fmap. by rewrite map_map.
Qed.

(** The live events in the order of their ids, when the last one is new. *)
Lemma sorted_insert_last M (kvs : list (Z * BinlogEvent)) p hi k ev : refines p M hi -> hi < k ->
  StronglySorted Z.lt (map fst kvs) -> list_to_map kvs = <[k := ev]> M ->
  exists kvs0, kvs = kvs0 ++ [(k, ev)] /\ StronglySorted Z.lt (map fst kvs0) /\ list_to_map kvs0 = M.
Proof.
  intros Href Hk Hso Hlm. destruct (for_each_refines _ _ _ Href) as (kvs0 & _ & Hso0 & Hlm0 & _).
  assert (forall x, x ∈ map fst kvs0 -> x < k) as Hlt.
  { intros x Hx. apply list_elem_of_fmap in Hx as ([x' e] & -> & Hx).
    apply (elem_of_list_to_map (M := gmap Z)) in Hx; [|by apply sorted_NoDup]. rewrite Hlm0 in Hx.
    apply (refines_le _ _ _ _ _ Href) in Hx. cbn. lia. }
  exists kvs0. split; [|done]. apply sorted_pairs_unique; [done| |].
  - rewrite map_app. cbn. clear -Hso0 Hlt. induction Hso0 as [|x l H IH Hx]; cbn; [repeat constructor|].
    constructor; [apply IH; intros; apply Hlt; by right|]. apply Forall_app. split; [done|]. repeat constructor. apply Hlt. by left.
  - rewrite Hlm. rewrite list_to_map_snoc; [by rewrite Hlm0|]. intros Hin%Hlt. lia.
Qed.
End with_crc32.

Section theorems.
Context (crc32 : list Z -> Z) (on_encryption_event : BinlogEvent -> Binlog -> Res Binlog).

(** The events of a log that a byte prefix of it contains. *)
Lemma prefix_split raws f : Forall (plain crc32) raws -> f `prefix_of` concat raws ->
  exists raws1 raws2 t, raws = raws1 ++ raws2 /\ f = concat raws1 ++ t /\ torn crc32 t /\
    forall raw rest, raws2 = raw :: rest -> (length t < length raw)%nat.
Proof.
  revert f. induction raws as [|raw raws IH]; intros f Hp Hf; simpl in Hf.
  - apply prefix_nil_inv in Hf as ->. exists [], [], []. split_and!; [done|done|by left|done].
  - apply Forall_cons_inv in Hp as [Hp1 Hp]. destruct (decide (length raw <= length f)%nat) as [Hl|Hl].
    + destruct Hf as [g Hg]. assert (f = raw ++ drop (length raw) f) as E.
      { rewrite <- (take_drop (length raw) f) at 1. f_equal.
        rewrite <- (take_app_le f g) by done. by rewrite <- Hg, take_app_length. }
      destruct (IH (drop (length raw) f) Hp) as (raws1 & raws2 & t & -> & E2 & Ht & Hnext).
      { exists g. rewrite E, <- app_assoc in Hg. by apply app_inv_head in Hg. }
      exists (raw :: raws1), raws2, t. split_and!; [done| |done|done]. simpl. rewrite <- app_assoc, <- E2. exact E.
    + exists [], (raw :: raws), f. split_and!; [done|done| |intros ? ? [= <- <-]; lia]. right. exists raw, (length f).
      split; [apply Hp1|]. split; [lia|]. destruct Hf as [g Hg].
      rewrite <- (take_app_length f g) at 1. rewrite <- Hg. by rewrite take_app_le by lia.
Qed.

(** C1. Whatever part of the bytes written and buffered reached the disk when
    the process stopped, opening the file succeeds: it replays exactly the
    events of the log that are complete in the file ([raws1] fits in the file
    and, if an event follows it in the log, the file ends before the end of
    that event), in the order of their ids, each in its last version and
    without the erased ones, and it cuts off the torn rest, so that the log is
    again consistent. *)
Theorem binlog_crash_recovery raws R hi b f :
  running crc32 raws R hi b -> f `prefix_of` file b ++ buffer_writer_ b ->
  exists raws1 raws2 R1 hi1 kvs b1, raws = raws1 ++ raws2 /\ replay raws1 (∅, 0) = Some (R1, hi1) /\
    (length (concat raws1) <= length f)%nat /\
    (forall raw rest, raws2 = raw :: rest -> (length f < length (concat raws1) + length raw)%nat) /\
    init_binlog crc32 on_encryption_event f = Ok (map snd kvs, b1) /\
    StronglySorted Z.lt (map fst kvs) /\ raw_event_ <$> list_to_map kvs = R1 /\
    running crc32 raws1 R1 hi1 b1 /\ file b1 = concat raws1 /\ last_event_id_ b1 = hi1.
Proof.
  intros Hrun Hf. rewrite (run_bytes _ _ _ _ _ Hrun) in Hf. pose proof (run_plain _ _ _ _ _ Hrun) as Hp.
  destruct (prefix_split raws f Hp Hf) as (raws1 & raws2 & t & -> & -> & Ht & Hnext).
  apply Forall_app in Hp as [Hp _]. destruct (run_replay _ _ _ _ _ Hrun) as (hl & Hre & _). rewrite replay_app in Hre.
  destruct (replay raws1 (∅, 0)) as [[R1 hi1]|] eqn:Hre1; [|done].
  destruct (init_binlog_ok crc32 on_encryption_event raws1 t R1 hi1 Hp Ht Hre1) as (kvs & b1 & Hb1 & Hso & Hk & Hr1 & Hl & Hfile & _).
  exists raws1, raws2, R1, hi1, kvs, b1. rewrite length_app. split_and!; try done; [lia|].
  intros raw rest Hr. specialize (Hnext raw rest Hr). lia.
Qed.

Fixpoint add_all (raws : list (list Z)) (b : Binlog) : Res Binlog :=
  match raws with
  | [] => Ok b
  | raw :: raws => let* b := add_raw_event crc32 on_encryption_event raw b in add_all raws b
  end.

Lemma add_all_running raws log R hi b R' hi' : running crc32 log R hi b -> Forall (plain crc32) raws ->
  replay raws (R, hi) = Some (R', hi') ->
  exists log' b', add_all raws b = Ok b' /\ running crc32 log' R' hi' b' /\ last_event_id_ b' = last_event_id_ b.
Proof.
  revert log R hi b. induction raws as [|raw raws IH]; intros log R hi b Hrun Hp Hs; cbn [replay add_all] in *.
  - apply Some_pair_inj in Hs as [<- <-]. by exists log, b.
  - apply Forall_cons_inv in Hp as [Hp1 Hp]. destruct (spec_raw raw (R, hi)) as [[R1 hi1]|] eqn:E; [|done].
    destruct (add_event_running crc32 on_encryption_event log R hi b raw R1 hi1 Hrun Hp1 E) as (log1 & b1 & -> & Hrun1 & Hl1).
    cbn [res_bind]. destruct (IH log1 R1 hi1 b1 Hrun1 Hp Hs) as (log' & b' & ? & ? & ?).
    exists log', b'. split_and!; [done|done|congruence].
Qed.

(** C2. Events added to an open log are never lost by the log itself: after
    adding any legal sequence of events (additions with increasing ids,
    rewrites and erasures of live events), whatever flushes and regenerations
    of the file happen on the way, closing the log and opening it again
    replays exactly the events the sequence leaves alive. *)
Theorem binlog_durable log R hi b raws R' hi' :
  running crc32 log R hi b -> Forall (plain crc32) raws -> replay raws (R, hi) = Some (R', hi') ->
  exists b' kvs b2, add_all raws b = Ok b' /\
    init_binlog crc32 on_encryption_event (file (flush b')) = Ok (map snd kvs, b2) /\
    StronglySorted Z.lt (map fst kvs) /\ raw_event_ <$> list_to_map kvs = R'.
Proof.
  intros Hrun Hp Hs. destruct (add_all_running raws log R hi b R' hi' Hrun Hp Hs) as (log' & b' & Hb' & Hrun' & _).
  destruct (flush_running crc32 _ _ _ _ Hrun') as (Hrf & Hff & _).
  destruct (run_replay _ _ _ _ _ Hrun') as (hl & Hre & _).
  destruct (init_binlog_ok crc32 on_encryption_event log' [] R' hl (run_plain _ _ _ _ _ Hrun') (or_introl eq_refl) Hre)
    as (kvs & b2 & Hb2 & Hso & Hk & _).
  exists b', kvs, b2. rewrite Hff. rewrite app_nil_r in Hb2. done.
Qed.

(** Regenerating the file of an open log succeeds, keeps the contents of
    the log and its invariant, and leaves in the file exactly one raw event
    per live event. *)
Theorem binlog_reindex raws R hi b : running crc32 raws R hi b ->
  exists raws' b', do_reindex crc32 on_encryption_event b = Ok b' /\ running crc32 raws' R hi b' /\
    file b' = concat raws' /\ length raws' = size R /\ map_Forall (fun _ raw => raw ∈ raws') R.
Proof.
  intros Hrun. destruct (do_reindex_running crc32 on_encryption_event raws R hi b Hrun) as (raws' & b' & ? & ? & _ & ? & ? & ?).
  by exists raws', b'.
Qed.

(** C39. A batch is written with [Flags::Partial] set in the raw bytes of all its
    events but the last; the flag is cleared only in memory.  Take any open
    log, add a batch of two new events, erase the second one and regenerate
    the file: everything succeeds, the first event of the batch is still alive
    in memory and the new file ends with its raw bytes, which carry the flag.
    Opening that file again replays exactly the events that were alive before
    the batch: the first event of the batch is lost and cut off the file. *)
Theorem binlog_reindex_partial_lost raws R hi b raw1 raw2 raw3 : running crc32 raws R hi b ->
  appends crc32 hi raw1 -> has_flag Flags.Partial (event_of raw1) = true ->
  appends crc32 (id_ (event_of raw1)) raw2 -> has_flag Flags.Partial (event_of raw2) = false ->
  erases crc32 (id_ (event_of raw2)) raw3 ->
  exists b1 b2 live kvs b3, add_all [raw1; raw2; raw3] b = Ok b1 /\ do_reindex crc32 on_encryption_event b1 = Ok b2 /\
    for_each (processor_ b2) = Ok live /\ map raw_event_ live = map raw_event_ (map snd kvs) ++ [raw1] /\
    init_binlog crc32 on_encryption_event (file b2) = Ok (map snd kvs, b3) /\
    raw_event_ <$> list_to_map kvs = R /\ file b2 = file b3 ++ raw1.
Proof.
  intros Hrun H1 Hp1 H2 Hp2 H3. destruct (run_ref _ _ _ _ _ Hrun) as (M & Href & HR & Hk).
  assert (in_memory crc32 [] M hi b) as Hm.
  { split; [apply Hrun|apply Hrun|done|]. intros k ev Hin. eapply kept_writable. by apply Hk. }
  destruct (add_batch_in_memory crc32 on_encryption_event M hi b raw1 raw2 raw3) as (b1 & Hb1 & Hm1); [done..|].
  destruct (do_reindex_in_memory crc32 on_encryption_event _ _ _ _ Hm1) as (kvs & b2 & Hb2 & _ & Hfe & Hso & Hlm & Hfile).
  destruct (sorted_insert_last M kvs _ hi _ _ Href (proj1 (app_id _ _ _ H1)) Hso Hlm) as (kvs0 & -> & Hso0 & Hlm0).
  assert (Forall (fun kv => kept crc32 kv.1 kv.2 /\ 0 < kv.1 <= hi) kvs0) as Hk0.
  { apply Forall_forall. intros [k ev] Hin. apply (elem_of_list_to_map (M := gmap Z)) in Hin; [|by apply sorted_NoDup].
    rewrite Hlm0 in Hin. pose proof (Hk _ _ Hin) as Hke. cbn. split_and!; [done|apply Hke|by eapply refines_le]. }
  destruct (replay_sorted crc32 kvs0 ∅ 0 hi Hso0 Hk0) as (hl & Hrep & _);
    [intros j [? ?]; by rewrite lookup_empty in *|split; [lia|apply Href]|].
  rewrite Hlm0, HR, (right_id_L ∅ _) in Hrep. rewrite !map_app, concat_app in Hfile. cbn in Hfile. rewrite app_nil_r in Hfile.
  destruct (init_binlog_pending crc32 on_encryption_event (map raw_event_ (map snd kvs0)) raw1 R hl) as (kvs1 & b3 & Hb3 & Hso1 & HR1 & Hf3);
    [|apply H1|done|done|].
  { apply Forall_map, Forall_map. eapply Forall_impl; [exact Hk0|]. by intros kv [(_ & ? & _) _]. }
  assert (map raw_event_ (map snd kvs0) = map raw_event_ (map snd kvs1)) as Heq.
  { apply sorted_raws_unique; [done..|]. by rewrite HR1, Hlm0, HR. }
  exists b1, b2, (map snd (kvs0 ++ [(id_ (event_of raw1), clear_flag Flags.Partial (event_of raw1))])), kvs1, b3.
  split_and!; [|done|done| |by rewrite Hfile|done|by rewrite Hf3].
  - cbn [add_all]. destruct (add_raw_event _ _ raw1 b) as [b'| |]; [|done..]. cbn [res_bind] in *.
    destruct (add_raw_event _ _ raw2 b') as [b''| |]; [|done..]. cbn [res_bind] in *. by rewrite Hb1.
  - by rewrite !map_app, Heq.
Qed.
End theorems.

(** ** A small log: two additions, a rewrite and an erasure *)
Definition crc0 (s : list Z) : Z := Z.of_nat (length s) mod 2 ^ 32.
Definition no_encryption (ev : BinlogEvent) (b : Binlog) : Res Binlog := Panic "encrypted".

Definition test_raws : list (list Z) :=
  [raw_of crc0 1 5 0 [1; 2; 3; 4]; raw_of crc0 2 5 0 []; raw_of crc0 1 6 Flags.Rewrite [7; 7; 7; 7];
   raw_of crc0 2 ServiceTypes.Empty Flags.Rewrite []].

Definition test_contents : gmap Z (list Z) := match replay test_raws (∅, 0) with Some (R, _) => R | None => ∅ end.

Definition empty_log : Binlog :=
  {| file := []; buffer_writer_ := []; fd_size_ := 0; fd_events_ := 0; pending_events_ := [];
     processor_ := init_processor; last_event_id_ := 0; state_ := Run |}.

Lemma empty_log_running : running crc0 [] ∅ 0 empty_log.
Proof.
  split; try done; [|by exists 0]. exists ∅. split; [apply proc_refines_init|]. by split; [rewrite fmap_empty|].
Qed.

Lemma crc0_range s : is_u32 (crc0 s).
Proof. apply (Z.mod_pos_bound _ (2 ^ 32)). lia. Qed.

Local Ltac test_raw := apply raw_of_ok; [apply crc0_range|repeat constructor; unfold is_byte; lia|vm_compute; discriminate|done].

Lemma test_raws_plain : Forall (plain crc0) test_raws.
Proof.
  repeat apply Forall_cons_2; [| | | |apply Forall_nil_2];
    (split; [test_raw|vm_compute; reflexivity|vm_compute; discriminate|vm_compute; intuition discriminate]).
Qed.

Definition test_log : Binlog :=
  match init_binlog crc0 no_encryption (concat test_raws ++ []) with Ok (_, b) => b | _ => empty_log end.

Lemma test_log_running : running crc0 test_raws test_contents 2 test_log.
Proof.
  destruct (init_binlog_ok crc0 no_encryption test_raws [] test_contents 2) as (kvs & b & Hb & _ & _ & Hr & _);
    [apply test_raws_plain|by left|vm_compute; reflexivity|].
  unfold test_log. by rewrite Hb.
Qed.

Lemma binlog_crash_recovery_witness :
  exists raws1 raws2 R1 hi1 kvs b1, test_raws = raws1 ++ raws2 /\ replay raws1 (∅, 0) = Some (R1, hi1) /\
    (length (concat raws1) <= length (take 100 (concat test_raws)))%nat /\
    (forall raw rest, raws2 = raw :: rest -> (length (take 100 (concat test_raws)) < length (concat raws1) + length raw)%nat) /\
    init_binlog crc0 no_encryption (take 100 (concat test_raws)) = Ok (map snd kvs, b1) /\
    StronglySorted Z.lt (map fst kvs) /\ raw_event_ <$> list_to_map kvs = R1 /\
    running crc0 raws1 R1 hi1 b1 /\ file b1 = concat raws1 /\ last_event_id_ b1 = hi1.
Proof.
  apply (binlog_crash_recovery crc0 no_encryption test_raws test_contents 2 test_log (take 100 (concat test_raws))
    test_log_running).
  exists (drop 100 (concat test_raws)). vm_compute. reflexivity.
Defined.

Lemma binlog_durable_witness : exists b' kvs b2, add_all crc0 no_encryption test_raws empty_log = Ok b' /\
    init_binlog crc0 no_encryption (file (flush b')) = Ok (map snd kvs, b2) /\
    StronglySorted Z.lt (map fst kvs) /\ raw_event_ <$> list_to_map kvs = test_contents.
Proof.
  apply (binlog_durable crc0 no_encryption [] ∅ 0 empty_log test_raws test_contents 2 empty_log_running test_raws_plain).
  vm_compute. reflexivity.
Defined.

Lemma binlog_reindex_witness :
  exists raws' b', do_reindex crc0 no_encryption test_log = Ok b' /\ running crc0 raws' test_contents 2 b' /\
    file b' = concat raws' /\ length raws' = size test_contents /\ map_Forall (fun _ raw => raw ∈ raws') test_contents.
Proof. exact (binlog_reindex crc0 no_encryption test_raws test_contents 2 test_log test_log_running). Defined.

Definition batch_raws : list Z * list Z * list Z :=
  (raw_of crc0 3 5 Flags.Partial [1; 2; 3; 4], raw_of crc0 4 5 0 [], raw_of crc0 4 ServiceTypes.Empty Flags.Rewrite []).

Lemma binlog_reindex_partial_lost_witness :
  let '(raw1, raw2, raw3) := batch_raws in
  exists b1 b2 live kvs b3, add_all crc0 no_encryption [raw1; raw2; raw3] test_log = Ok b1 /\ do_reindex crc0 no_encryption b1 = Ok b2 /\
    for_each (processor_ b2) = Ok live /\ map raw_event_ live = map raw_event_ (map snd kvs) ++ [raw1] /\
    init_binlog crc0 no_encryption (file b2) = Ok (map snd kvs, b3) /\
    raw_event_ <$> list_to_map kvs = test_contents /\ file b2 = file b3 ++ raw1.
Proof.
  apply (binlog_reindex_partial_lost crc0 no_encryption test_raws test_contents 2 test_log _ _ _ test_log_running).
  - split; [test_raw|vm_compute; reflexivity|vm_compute; discriminate|vm_compute; done].
  - vm_compute. reflexivity.
  - split; [test_raw|vm_compute; reflexivity|vm_compute; discriminate|vm_compute; done].
  - vm_compute. reflexivity.
  - split; [test_raw|vm_compute; reflexivity..].
Defined.
