(* ===== verification/EventLog.v ===== *)
(** * Logs of events

    What a client of a binlog relies on: the class [EventLog] of operations and the class
    [EventLogLaws] of their laws, with [Binlog] as an instance, and the operations that
    [BinlogInterface] (tddb/td/db/binlog/BinlogInterface.h) and [Binlog] build from them. *)
From S2P Require Import Prelude TlCodec BinlogEvent BinlogProcessor Binlog.
Local Open Scope td_scope.

(** ** The interface of a log *)
Class EventLog (L : Type) := {
  log_next_event_id : L -> Z * L;
  log_next_event_id_shift : Z -> L -> Z * L;
  log_add_raw_event : list Z -> L -> Res L;
  log_erase_batch : list Z -> L -> Res (Z * L);
  log_reopen : L -> Res (list BinlogEvent * L);   (* close the log and init it again *)
}.

(** [log_inv R hi n l]: the log [l] holds the raw events [R], the highest id
    ever added is at most [hi], and the last id given out is [n]. *)
Class EventLogLaws (crc32 : list Z -> Z) (L : Type) `{EventLog L} := {
  log_inv : gmap Z (list Z) -> Z -> Z -> L -> Prop;
  law_ids R hi n l : log_inv R hi n l -> 0 <= hi <= n /\ forall id, is_Some (R !! id) -> id <= hi;
  law_next R hi n l : log_inv R hi n l -> n + 1 < 2 ^ 64 ->
    exists l', log_next_event_id l = (n + 1, l') /\ log_inv R hi (n + 1) l';
  law_shift R hi n l k : log_inv R hi n l -> 0 <= k -> n + k + 1 < 2 ^ 64 ->
    exists l', log_next_event_id_shift k l = (n + 1, l') /\ log_inv R hi (n + k) l';
  law_add R hi n l raw R' hi' : log_inv R hi n l -> plain crc32 raw -> spec_raw raw (R, hi) = Some (R', hi') ->
    hi' <= n -> exists l', log_add_raw_event raw l = Ok l' /\ log_inv R' hi' n l';
  law_erase_batch R hi n l ids : log_inv R hi n l -> ids <> [] -> NoDup ids ->
    Forall (fun id => is_Some (R !! id) /\ 0 <= id < 2 ^ 63) ids -> n + Z.of_nat (length ids) + 1 < 2 ^ 64 ->
    exists l', log_erase_batch ids l = Ok (n + 1, l') /\ log_inv (foldr delete R ids) hi (n + Z.of_nat (length ids)) l';
  law_erase_none l : log_erase_batch [] l = Ok (0, l);
  law_reopen R hi n l : log_inv R hi n l ->
    exists kvs l' hi', log_reopen l = Ok (map snd kvs, l') /\ StronglySorted Z.lt (map fst kvs) /\
      raw_event_ <$> list_to_map kvs = R /\ Forall (fun kv => id_ kv.2 = kv.1 /\ type_ kv.2 = type_ (event_of (raw_event_ kv.2))) kvs /\ hi' <= hi /\ log_inv R hi' hi' l';
}.

Definition raw_erase (crc32 : list Z -> Z) (id : Z) : list Z :=
  raw_of crc32 id ServiceTypes.Empty Flags.Rewrite [].

Section binlog_instance.
Context (crc32 : list Z -> Z) (on_encryption_event : BinlogEvent -> Binlog -> Res Binlog).
Context (crc32_range : forall s, is_u32 (crc32 s)).

#[export] Instance binlog_EventLog : EventLog Binlog := {
  log_next_event_id := next_event_id;
  log_next_event_id_shift := next_event_id_shift;
  log_add_raw_event := add_raw_event crc32 on_encryption_event;
  log_erase_batch := erase_batch crc32 on_encryption_event;
  log_reopen b := init_binlog crc32 on_encryption_event (file (flush b));
}.

Definition binlog_inv (R : gmap Z (list Z)) (hi n : Z) (b : Binlog) : Prop :=
  last_event_id_ b = n /\ hi <= n /\ exists raws, running crc32 raws R hi b.

Lemma running_hi raws R hi b : running crc32 raws R hi b -> 0 <= hi.
Proof. intros H. destruct (run_replay _ _ _ _ _ H) as (hl & _ & ?). lia. Qed.

Lemma running_last raws R hi b n : running crc32 raws R hi b -> running crc32 raws R hi (with_last_event_id n b).
Proof. by intros [? ? ? ? ? ? ?]. Qed.

Lemma binlog_next R hi n b : binlog_inv R hi n b -> n + 1 < 2 ^ 64 ->
  exists b', next_event_id b = (n + 1, b') /\ binlog_inv R hi (n + 1) b'.
Proof.
  intros (Hn & Hh & raws & Hr) Hb. unfold next_event_id. pose proof (running_hi _ _ _ _ Hr).
  rewrite Hn, u64_small by (unfold is_u64; lia). eexists. split; [done|]. split; [done|]. split; [lia|].
  exists raws. by apply running_last.
Qed.

Lemma binlog_add R hi n b raw R' hi' : binlog_inv R hi n b -> plain crc32 raw -> spec_raw raw (R, hi) = Some (R', hi') ->
  hi' <= n -> exists b', add_raw_event crc32 on_encryption_event raw b = Ok b' /\ binlog_inv R' hi' n b'.
Proof.
  intros (Hn & Hh & raws & Hr) Hp Hs Hle.
  destruct (add_event_running crc32 on_encryption_event raws R hi b raw R' hi' Hr Hp Hs) as (raws' & b' & Hb' & Hr' & Hl').
  exists b'. split; [done|]. split; [congruence|]. split; [done|]. by exists raws'.
Qed.

Lemma raw_erase_event id : is_u64 id -> event_of (raw_erase crc32 id) =
  {| offset_ := -1; size_ := 32; id_ := id; type_ := ServiceTypes.Empty; flags_ := Flags.Rewrite; extra_ := 0;
     crc32_ := crc32 (raw_body id ServiceTypes.Empty Flags.Rewrite []); raw_event_ := raw_erase crc32 id |}.
Proof. intros H. unfold raw_erase. rewrite event_of_raw_of by (done || unfold is_s32; vm_compute; intuition discriminate). done. Qed.

Lemma raw_erase_plain id : 0 <= id < 2 ^ 63 -> plain crc32 (raw_erase crc32 id).
Proof.
  intros H. assert (is_u64 id) by (unfold is_u64; lia). split.
  - apply raw_of_ok; done.
  - by rewrite raw_erase_event.
  - by rewrite raw_erase_event.
  - by rewrite raw_erase_event.
Qed.

Lemma raw_erase_spec id R hi : 0 <= id < 2 ^ 63 -> is_Some (R !! id) ->
  spec_raw (raw_erase crc32 id) (R, hi) = Some (delete id R, hi).
Proof.
  intros H Hin. unfold spec_raw. rewrite raw_erase_event by (unfold is_u64; lia). cbn [id_ type_ has_flag flags_].
  change (has_flag Flags.Rewrite _) with true. by rewrite bool_decide_eq_true_2.
Qed.

Lemma create_raw_erase id : create_raw crc32 id ServiceTypes.Empty Flags.Rewrite EmptyStorer = Ok (raw_erase crc32 id).
Proof. apply create_raw_ok; [by split|]. vm_compute. reflexivity. Qed.

Lemma binlog_erase R hi n b id : binlog_inv R hi n b -> n + 1 < 2 ^ 64 -> 0 <= id < 2 ^ 63 -> is_Some (R !! id) ->
  exists b', erase crc32 on_encryption_event id b = Ok (n + 1, b') /\ binlog_inv (delete id R) hi (n + 1) b'.
Proof.
  intros Hi Hn Hid Hin. unfold erase. destruct (binlog_next _ _ _ _ Hi Hn) as (b1 & -> & Hi1).
  rewrite create_raw_erase. cbn [res_bind].
  destruct (binlog_add R hi (n + 1) b1 (raw_erase crc32 id) (delete id R) hi) as (b2 & -> & Hi2); cbn [res_bind];
    [done|by apply raw_erase_plain|by apply raw_erase_spec|destruct Hi1 as (_ & ? & _); lia|]. by exists b2.
Qed.

Lemma binlog_erase_each R hi n b ids : binlog_inv R hi n b -> NoDup ids ->
  Forall (fun id => is_Some (R !! id) /\ 0 <= id < 2 ^ 63) ids -> n + Z.of_nat (length ids) < 2 ^ 64 ->
  exists b', erase_each crc32 on_encryption_event ids b = Ok b' /\
    binlog_inv (foldr delete R ids) hi (n + Z.of_nat (length ids)) b'.
Proof.
  revert R n b. induction ids as [|id ids IH]; intros R n b Hi Hnd Hf Hn; cbn [erase_each length] in *.
  - exists b. by rewrite Z.add_0_r.
  - apply Forall_cons_inv in Hf as [[Hin Hid] Hf]. apply NoDup_cons in Hnd as [Hni Hnd].
    destruct (binlog_erase R hi n b id) as (b1 & -> & Hi1); [done|lia|done|done|]. cbn [res_bind].
    destruct (IH (delete id R) (n + 1) b1) as (b2 & -> & Hi2); [done|done| |lia|].
    { apply Forall_forall. intros id' Hin'. rewrite Forall_forall in Hf. destruct (Hf _ Hin') as [? ?].
      split; [|done]. rewrite lookup_delete_ne; [done|]. by intros ->. }
    exists b2. split; [done|]. cbn [foldr].
    replace (n + Z.of_nat (S (length ids))) with (n + 1 + Z.of_nat (length ids)) by lia.
    replace (delete id (foldr delete R ids)) with (foldr delete (delete id R) ids); [done|].
    clear. induction ids as [|k ids IH]; simpl; [done|]. by rewrite IH, delete_delete.
Qed.

Lemma binlog_ids R hi n b : binlog_inv R hi n b -> 0 <= hi <= n /\ forall id, is_Some (R !! id) -> id <= hi.
Proof.
  intros (_ & Hh & raws & Hr). pose proof (running_hi _ _ _ _ Hr). split; [lia|]. intros id [raw Hraw].
  destruct (run_ref _ _ _ _ _ Hr) as (M & Href & <- & _). rewrite lookup_fmap in Hraw. apply fmap_Some in Hraw as (ev & Hev & _).
  rewrite <- (ref_view _ _ _ Href) in Hev. destruct (view_pos _ _ _ (ref_inv _ _ _ Href) Hev) as (pos & Hpos & _).
  pose proof (ref_ids _ _ _ Href) as Hids. rewrite Forall_forall in Hids.
  apply list_elem_of_lookup_2, Hids in Hpos as [_ Hpos]. rewrite Z.mul_comm, Z.div_mul in Hpos by lia. done.
Qed.

Lemma binlog_shift R hi n b k : binlog_inv R hi n b -> 0 <= k -> n + k + 1 < 2 ^ 64 ->
  exists b', next_event_id_shift k b = (n + 1, b') /\ binlog_inv R hi (n + k) b'.
Proof.
  intros (Hn & Hh & raws & Hr) Hk Hb. unfold next_event_id_shift.
  pose proof (running_hi _ _ _ _ Hr). rewrite Hn, !u64_small by (unfold is_u64; lia).
  eexists. split; [done|]. split; [done|]. split; [lia|]. exists raws. by apply running_last.
Qed.

Lemma binlog_erase_batch R hi n b ids : binlog_inv R hi n b -> ids <> [] -> NoDup ids ->
  Forall (fun id => is_Some (R !! id) /\ 0 <= id < 2 ^ 63) ids -> n + Z.of_nat (length ids) + 1 < 2 ^ 64 ->
  exists b', erase_batch crc32 on_encryption_event ids b = Ok (n + 1, b') /\
    binlog_inv (foldr delete R ids) hi (n + Z.of_nat (length ids)) b'.
Proof.
  intros Hi Hne Hnd Hf Hb. unfold erase_batch. destruct ids as [|id ids]; [done|]. cbn [length Nat.eqb].
  destruct (binlog_shift R hi n b 0 Hi) as (b1 & -> & Hi1); [lia|cbn in Hb; lia|]. rewrite Z.add_0_r in Hi1.
  destruct (binlog_erase_each R hi n b1 (id :: ids)) as (b' & -> & Hi'); [done|done|done|cbn in *; lia|].
  cbn [res_bind]. by exists b'.
Qed.

Lemma binlog_reopen R hi n b : binlog_inv R hi n b ->
  exists kvs b' hi', init_binlog crc32 on_encryption_event (file (flush b)) = Ok (map snd kvs, b') /\
    StronglySorted Z.lt (map fst kvs) /\ raw_event_ <$> list_to_map kvs = R /\
    Forall (fun kv => id_ kv.2 = kv.1 /\ type_ kv.2 = type_ (event_of (raw_event_ kv.2))) kvs /\ hi' <= hi /\ binlog_inv R hi' hi' b'.
Proof.
  intros (Hn & Hh & raws & Hr). destruct (flush_running crc32 _ _ _ _ Hr) as (_ & -> & _).
  destruct (run_replay _ _ _ _ _ Hr) as (hl & Hre & Hhl).
  destruct (init_binlog_ok crc32 on_encryption_event raws [] R hl (run_plain _ _ _ _ _ Hr) (or_introl eq_refl) Hre)
    as (kvs & b2 & Hb2 & Hso & Hk & Hr2 & Hl2 & _ & _ & Hids). rewrite app_nil_r in Hb2.
  exists kvs, b2, hl. split_and!; [done..|lia|]. split; [done|]. split; [lia|]. by exists raws.
Qed.

#[export] Instance binlog_EventLogLaws : EventLogLaws crc32 Binlog := {
  log_inv := binlog_inv;
  law_ids := binlog_ids;
  law_next := binlog_next;
  law_shift := binlog_shift;
  law_add := binlog_add;
  law_erase_batch := binlog_erase_batch;
  law_erase_none b := eq_refl;
  law_reopen := binlog_reopen;
}.
End binlog_instance.

(** ** Adding, rewriting and erasing *)
Section operations.
Context (crc32 : list Z -> Z) {L : Type} `{EventLog L}.

Definition log_add (type : Z) (storer : StorerObject) (l : L) : Res (Z * L) :=
  let '(event_id, l) := log_next_event_id l in
  let* raw := create_raw crc32 event_id type 0 storer in
  let* l := log_add_raw_event raw l in
  Ok (event_id, l).

Definition log_rewrite (event_id type : Z) (storer : StorerObject) (l : L) : Res (Z * L) :=
  let '(seq_no, l) := log_next_event_id l in
  let* raw := create_raw crc32 event_id type Flags.Rewrite storer in
  let* l := log_add_raw_event raw l in
  Ok (seq_no, l).

Definition log_erase (event_id : Z) (l : L) : Res (Z * L) :=
  let '(seq_no, l) := log_next_event_id l in
  let* raw := create_raw crc32 event_id ServiceTypes.Empty Flags.Rewrite EmptyStorer in
  let* l := log_add_raw_event raw l in
  Ok (seq_no, l).

Context (crc32_range : forall s, is_u32 (crc32 s)).

(** The data of an event that the reader accepts. *)
Record loggable (type : Z) (dat : list Z) : Prop := {
  lg_type : 0 <= type < 2 ^ 31;
  lg_bytes : bytes dat;
  lg_size : Z.of_nat (length dat) + MIN_SIZE <= MAX_SIZE;
  lg_align : Z.of_nat (length dat) mod 4 = 0;
}.

Lemma raw_event type id fl dat : 0 <= type < 2 ^ 31 -> 0 <= id < 2 ^ 63 -> is_s32 fl -> let ev := event_of (raw_of crc32 id type fl dat) in
  id_ ev = id /\ type_ ev = type /\ flags_ ev = fl.
Proof. intros Ht Hid Hfl ev. unfold ev. rewrite event_of_raw_of; [done|done|unfold is_u64; lia|unfold is_s32; lia|done]. Qed.

Lemma raw_plain type id fl dat : loggable type dat -> 0 <= id < 2 ^ 63 -> fl = 0 \/ fl = Flags.Rewrite -> plain crc32 (raw_of crc32 id type fl dat).
Proof.
  intros [Ht Hb Hs Ha] Hid Hfl. destruct (raw_event type id fl dat Ht Hid) as (E1 & E2 & E3); [destruct Hfl as [->| ->]; unfold is_s32, Flags.Rewrite; lia|].
  split.
  - by apply raw_of_ok.
  - unfold has_flag. rewrite E3. by destruct Hfl as [->| ->].
  - rewrite E2. unfold ServiceTypes.AesCtrEncryption. lia.
  - by rewrite E1.
Qed.

Lemma spec_raw_rewrite type id dat R hi : 0 <= type < 2 ^ 31 -> 0 <= id < 2 ^ 63 -> is_Some (R !! id) ->
  spec_raw (raw_of crc32 id type Flags.Rewrite dat) (R, hi) = Some (<[id := raw_of crc32 id type Flags.Rewrite dat]> R, hi).
Proof.
  intros Ht Hid HR. destruct (raw_event type id Flags.Rewrite dat Ht Hid) as (E1 & E2 & E3); [unfold is_s32, Flags.Rewrite; lia|].
  unfold spec_raw, has_flag. rewrite E1, E2, E3, bool_decide_eq_true_2 by done.
  unfold ServiceTypes.Empty. rewrite (proj2 (Z.eqb_neq _ (-2))), (proj2 (Z.ltb_ge _ 0)) by lia. done.
Qed.

Lemma spec_raw_new type id dat R hi : 0 <= type < 2 ^ 31 -> 0 <= id < 2 ^ 63 -> hi < id ->
  spec_raw (raw_of crc32 id type 0 dat) (R, hi) = Some (<[id := raw_of crc32 id type 0 dat]> R, id).
Proof.
  intros Ht Hid Hhi. destruct (raw_event type id 0 dat Ht Hid) as (E1 & E2 & E3); [unfold is_s32; lia|].
  unfold spec_raw, has_flag. rewrite E1, E2, E3. cbn [Z.land Z.eqb negb andb].
  rewrite (proj2 (Z.ltb_ge _ 0)), (proj2 (Z.ltb_lt hi id)) by lia. done.
Qed.

Context `{!EventLogLaws crc32 L}.

Lemma law_add_erasure R hi n l id : log_inv R hi n l -> is_Some (R !! id) -> 0 <= id < 2 ^ 63 ->
  exists l', log_add_raw_event (raw_erase crc32 id) l = Ok l' /\ log_inv (delete id R) hi n l'.
Proof.
  intros Hl Hin Hid. destruct (law_ids _ _ _ _ Hl) as [Hhi _].
  apply (law_add R hi n l); [done|by apply raw_erase_plain|by apply raw_erase_spec|lia].
Qed.

Lemma log_add_ok R hi n l type st : log_inv R hi n l -> storer_ok st -> loggable type (storer_store st) -> n + 1 < 2 ^ 63 ->
  exists l', log_add type st l = Ok (n + 1, l') /\ log_inv (<[n + 1 := raw_of crc32 (n + 1) type 0 (storer_store st)]> R) (n + 1) (n + 1) l'.
Proof.
  intros Hl Hst Hd Hn. destruct (law_ids _ _ _ _ Hl) as [Hhi _]. pose proof (lg_type _ _ Hd) as Ht. unfold log_add.
  destruct (law_next _ _ _ _ Hl) as (l1 & -> & Hl1); [lia|]. pose proof (lg_size _ _ Hd) as Hs. destruct Hst as [Hsz Hby].
  rewrite create_raw_ok; [|by split|unfold MAX_SIZE in Hs; lia]. cbn [res_bind].
  destruct (law_add R hi (n + 1) l1 (raw_of crc32 (n + 1) type 0 (storer_store st)) (<[n + 1 := raw_of crc32 (n + 1) type 0 (storer_store st)]> R) (n + 1) Hl1) as (l2 & -> & Hl2);
    [apply raw_plain; [done|lia|by left]|apply spec_raw_new; lia|lia|]. by exists l2.
Qed.

Lemma log_rewrite_ok R hi n l id type st : log_inv R hi n l -> storer_ok st -> loggable type (storer_store st) -> n + 1 < 2 ^ 63 ->
  is_Some (R !! id) -> 0 <= id ->
  exists l', log_rewrite id type st l = Ok (n + 1, l') /\ log_inv (<[id := raw_of crc32 id type Flags.Rewrite (storer_store st)]> R) hi (n + 1) l'.
Proof.
  intros Hl Hst Hd Hn Hin Hid. destruct (law_ids _ _ _ _ Hl) as [Hhi Hle]. pose proof (Hle id Hin). pose proof (lg_type _ _ Hd) as Ht. unfold log_rewrite.
  destruct (law_next _ _ _ _ Hl) as (l1 & -> & Hl1); [lia|]. pose proof (lg_size _ _ Hd) as Hs. destruct Hst as [Hsz Hby].
  rewrite create_raw_ok; [|by split|unfold MAX_SIZE in Hs; lia]. cbn [res_bind].
  destruct (law_add R hi (n + 1) l1 (raw_of crc32 id type Flags.Rewrite (storer_store st)) (<[id := raw_of crc32 id type Flags.Rewrite (storer_store st)]> R) hi Hl1) as (l2 & -> & Hl2);
    [apply raw_plain; [done|lia|by right]|apply spec_raw_rewrite; [done|lia|done]|lia|]. by exists l2.
Qed.

Lemma log_erase_ok R hi n l id : log_inv R hi n l -> n + 1 < 2 ^ 63 -> is_Some (R !! id) -> 0 <= id ->
  exists l', log_erase id l = Ok (n + 1, l') /\ log_inv (delete id R) hi (n + 1) l'.
Proof.
  intros Hl Hn Hin Hid. destruct (law_ids _ _ _ _ Hl) as [Hhi Hle]. pose proof (Hle id Hin). unfold log_erase.
  destruct (law_next _ _ _ _ Hl) as (l1 & -> & Hl1); [lia|]. rewrite create_raw_erase. cbn [res_bind].
  destruct (law_add_erasure R hi (n + 1) l1 id Hl1 Hin) as (l2 & -> & Hl2); [lia|]. by exists l2.
Qed.
End operations.
