(* ===== verification/BinlogKeyValue.v ===== *)
(** * Key-value stores

    [SeqKeyValue] (tddb/td/db/SeqKeyValue.h), a map that numbers its changes,
    and [BinlogKeyValue] (tddb/td/db/BinlogKeyValue.h), a map kept in a binlog.
    As in the source, where [BinlogT] is a template parameter, the second one
    is written against an interface, the class [EventLog].  Hash
    tables are finite maps; [iter] is the order in which a hash table is
    walked, of which only is used that it visits every entry once. *)
From S2P Require Import Prelude TlCodec BinlogEvent BinlogProcessor Binlog EventLog.
Local Open Scope td_scope.

(** ** SeqKeyValue *)
Module SeqKeyValue.

Record kv := { map_ : gmap (list Z) (list Z); current_id_ : Z }.

Definition init : kv := {| map_ := ∅; current_id_ := 0 |}.

Definition next_seq_no (s : kv) : Z * kv :=
  let id := u64 (current_id_ s + 1) in (id, {| map_ := map_ s; current_id_ := id |}).

Definition set (key value : list Z) (s : kv) : Res (Z * kv) :=
  CHECK! negb (Nat.eqb (length key) 0) else "!key.empty()" in
  match map_ s !! key with
  | Some old =>
      if bool_decide (old = value) then Ok (0, s)
      else Ok (next_seq_no {| map_ := <[key := value]> (map_ s); current_id_ := current_id_ s |})
  | None => Ok (next_seq_no {| map_ := <[key := value]> (map_ s); current_id_ := current_id_ s |})
  end.

Definition erase (key : list Z) (s : kv) : Z * kv :=
  match map_ s !! key with
  | None => (0, s)
  | Some _ => next_seq_no {| map_ := delete key (map_ s); current_id_ := current_id_ s |}
  end.

(** The loop of [erase_batch]: the number of keys erased. *)
Fixpoint erase_loop (keys : list (list Z)) (m : gmap (list Z) (list Z)) : Z * gmap (list Z) (list Z) :=
  match keys with
  | [] => (0, m)
  | key :: keys =>
      match m !! key with
      | Some _ => let '(n, m) := erase_loop keys (delete key m) in (n + 1, m)
      | None => erase_loop keys m
      end
  end.

Definition erase_batch (keys : list (list Z)) (s : kv) : Z * kv :=
  let '(count, m) := erase_loop keys (map_ s) in
  if count =? 0 then (0, {| map_ := m; current_id_ := current_id_ s |})
  else (u64 (current_id_ s + 1), {| map_ := m; current_id_ := u64 (current_id_ s + count) |}).

Definition seq_no (s : kv) : Z := u64 (current_id_ s + 1).
Definition get (key : list Z) (s : kv) : list Z := default [] (map_ s !! key).
Definition isset (key : list Z) (s : kv) : bool := bool_decide (is_Some (map_ s !! key)).
Definition size (s : kv) : nat := base.size (map_ s).

Inductive op := Set_ (key value : list Z) | Erase (key : list Z) | EraseBatch (keys : list (list Z)).

Definition step (o : op) (s : kv) : Res (Z * kv) :=
  match o with
  | Set_ k v => set k v s
  | Erase k => Ok (erase k s)
  | EraseBatch ks => Ok (erase_batch ks s)
  end.

(** The effect of an operation on a plain map. *)
Definition effect (o : op) (m : gmap (list Z) (list Z)) : gmap (list Z) (list Z) :=
  match o with
  | Set_ k v => <[k := v]> m
  | Erase k => delete k m
  | EraseBatch ks => foldr delete m ks
  end.

Lemma erase_loop_spec keys m :
  (erase_loop keys m).2 = foldr delete m keys /\
  (erase_loop keys m).1 = Z.of_nat (base.size m) - Z.of_nat (base.size (foldr delete m keys)).
Proof.
  revert m. induction keys as [|k keys IH]; intros m; cbn [erase_loop foldr]; [split; [done|simpl; lia]|].
  assert (foldr delete (delete k m) keys = delete k (foldr delete m keys)) as Hc.
  { clear IH. induction keys as [|k' keys IH]; simpl; [done|]. by rewrite IH, delete_delete. }
  destruct (m !! k) as [x|] eqn:E.
  - destruct (IH (delete k m)) as [H1 H2]. destruct (erase_loop keys (delete k m)) as [n m']. cbn in *.
    rewrite Hc in *. split; [done|]. rewrite H2, map_size_delete, E.
    assert (base.size m <> 0)%nat by (apply (map_size_ne_0_lookup_2 m k); by rewrite E).
    simpl. lia.
  - destruct (IH m) as [H1 H2]. rewrite delete_id in Hc by done. rewrite <- Hc. done.
Qed.

(** Every operation of [SeqKeyValue] has the effect of the same operation
    on a plain map; it returns 0 exactly when the map does not change, and
    otherwise the next sequence number, the counter growing by the number of
    entries that changed. *)
Theorem seq_kv_step o s : (forall k v, o = Set_ k v -> k <> []) ->
  0 <= current_id_ s -> current_id_ s + Z.of_nat (base.size (map_ s)) + 1 < 2 ^ 64 ->
  exists ret s', step o s = Ok (ret, s') /\ map_ s' = effect o (map_ s) /\
    (ret = 0 <-> map_ s' = map_ s) /\ (ret <> 0 -> ret = current_id_ s + 1) /\
    current_id_ s <= current_id_ s' /\ (ret <> 0 -> ret <= current_id_ s').
Proof.
  intros Hk H0 Hb. assert (forall m, next_seq_no {| map_ := m; current_id_ := current_id_ s |}
    = (current_id_ s + 1, {| map_ := m; current_id_ := current_id_ s + 1 |})) as Hn.
  { intros m. unfold next_seq_no. cbn. rewrite u64_small by (unfold is_u64; lia). done. }
  destruct o as [k v|k|ks]; cbn [step effect].
  - unfold set. assert (k <> []) by (by eapply Hk). destruct k as [|c k]; [done|]. cbn [length Nat.eqb negb].
    destruct (map_ s !! (c :: k)) as [old|] eqn:E; [case_bool_decide as Ho|]; rewrite ?Hn.
    + subst old. eexists _, _. split; [done|]. rewrite insert_id by done. split_and!; try done; lia.
    + eexists _, _. split; [done|]. cbn. split_and!; try done; try lia. split; [lia|].
      intros Hm. apply (f_equal (fun m => m !! (c :: k))) in Hm. rewrite lookup_insert_eq in Hm. congruence.
    + eexists _, _. split; [done|]. cbn. split_and!; try done; try lia. split; [lia|].
      intros Hm. apply (f_equal (fun m => m !! (c :: k))) in Hm. rewrite lookup_insert_eq in Hm. congruence.
  - unfold erase. destruct (map_ s !! k) as [old|] eqn:E; rewrite ?Hn.
    + eexists _, _. split; [done|]. cbn. split_and!; try done; try lia. split; [lia|].
      intros Hm. apply (f_equal (fun m => m !! k)) in Hm. rewrite lookup_delete_eq in Hm. congruence.
    + eexists _, _. split; [done|]. rewrite delete_id by done. split_and!; try done; lia.
  - unfold erase_batch. destruct (erase_loop_spec ks (map_ s)) as [H1 H2].
    destruct (erase_loop ks (map_ s)) as [n m]. cbn in H1, H2. subst m.
    assert (foldr delete (map_ s) ks ⊆ map_ s) as Hsub.
    { clear. induction ks as [|k ks IH]; simpl; [done|]. etrans; [apply delete_subseteq|done]. }
    pose proof (map_subseteq_size _ _ Hsub) as Hle. case_if.
    + eexists _, _. split; [done|]. cbn. split_and!; try done; try lia. split; [|done]. intros _.
      apply map_subseteq_size_eq; [done|]. lia.
    + rewrite !u64_small by (unfold is_u64; lia). eexists _, _. split; [done|]. cbn. split_and!; try done; try lia.
      split; [lia|]. intros Hm. rewrite Hm in H2. lia.
Qed.

Definition test_kv : kv := {| map_ := <[[1] := [7]]> (<[[2] := [8]]> ∅); current_id_ := 5 |}.

Lemma seq_kv_step_witness : exists ret s',
    step (EraseBatch [[1]; [3]; [1]; [2]]) test_kv = Ok (ret, s') /\
    map_ s' = effect (EraseBatch [[1]; [3]; [1]; [2]]) (map_ test_kv) /\
    (ret = 0 <-> map_ s' = map_ test_kv) /\ (ret <> 0 -> ret = current_id_ test_kv + 1) /\
    current_id_ test_kv <= current_id_ s' /\ (ret <> 0 -> ret <= current_id_ s').
Proof.
  apply (seq_kv_step (EraseBatch [[1]; [3]; [1]; [2]]) test_kv).
  - discriminate.
  - vm_compute. discriminate.
  - vm_compute. reflexivity.
Defined.
End SeqKeyValue.

(** ** BinlogKeyValue *)
Definition MAGIC : Z := 0x2a280000.

(** [Event]: a key and a value as two TL strings. *)
Definition Event_store {S} `{Storer S} (key value : list Z) (s : S) : Res S :=
  let* s := store_string key s in store_string value s.

Definition Event_parse (p : TlParser) : Res ((list Z * list Z) * TlParser) :=
  let* (key, p) := fetch_string p in
  let* (value, p) := fetch_string p in
  Ok ((key, value), p).

Definition Event_storer (key value : list Z) : Res StorerObject :=
  let* len := Event_store key value (mkTlStorerCalcLength 0) in
  let* st := Event_store key value (mkTlStorerUnsafe []) in
  Ok {| storer_size := get_length len; storer_store := buf_ st |}.

Section kv.
Context (crc32 : list Z -> Z) {L : Type} `{EventLog L}.
Context (iter : gmap (list Z) (list Z * Z) -> list (list Z * (list Z * Z))).

Record BinlogKeyValue := {
  map_ : gmap (list Z) (list Z * Z);   (* the value and the id of its event *)
  binlog_ : L;
  magic_ : Z;
}.

(** The callback of [init]: an event of the log enters the map. *)
Definition init_callback (m : gmap (list Z) (list Z * Z)) (ev : BinlogEvent) : Res (gmap (list Z) (list Z * Z)) :=
  let* dat := get_data ev in
  let* (kv, p) := Event_parse (TlParser_new dat) in
  let '(key, value) := kv in
  let* p := fetch_end p in
  CHECK! error_empty p else "event_parser.get_error() == nullptr" in
  if Nat.eqb (length key) 0 then Ok m else Ok (<[key := (value, id_ ev)]> m).

Fixpoint replay_events (evs : list BinlogEvent) (m : gmap (list Z) (list Z * Z)) : Res (gmap (list Z) (list Z * Z)) :=
  match evs with
  | [] => Ok m
  | ev :: evs => let* m := init_callback m ev in replay_events evs m
  end.

(** [init] on the file of a closed log. *)
Definition kv_reopen (s : BinlogKeyValue) : Res BinlogKeyValue :=
  let* (evs, l) := log_reopen (binlog_ s) in
  let* m := replay_events evs ∅ in
  Ok {| map_ := m; binlog_ := l; magic_ := magic_ s |}.

Definition kv_add_event (raw : list Z) (s : BinlogKeyValue) : Res BinlogKeyValue :=
  let* l := log_add_raw_event raw (binlog_ s) in
  Ok {| map_ := map_ s; binlog_ := l; magic_ := magic_ s |}.

Definition kv_set (key value : list Z) (s : BinlogKeyValue) : Res (Z * BinlogKeyValue) :=
  CHECK! negb (Nat.eqb (length key) 0) else "!key.empty()" in
  let it := default ([], 0) (map_ s !! key) in
  if (negb (it.2 =? 0) && bool_decide (it.1 = value))%bool then
    Ok (0, {| map_ := <[key := it]> (map_ s); binlog_ := binlog_ s; magic_ := magic_ s |})
  else
    let '(seq_no, l) := log_next_event_id (binlog_ s) in
    let rewrite := negb (it.2 =? 0) in
    let event_id := if rewrite then it.2 else seq_no in
    let s := {| map_ := <[key := (value, event_id)]> (map_ s); binlog_ := l; magic_ := magic_ s |} in
    let* storer := Event_storer key value in
    let* raw := create_raw crc32 event_id (magic_ s) (if rewrite then Flags.Rewrite else 0) storer in
    let* s := kv_add_event raw s in
    Ok (seq_no, s).

Definition kv_erase (key : list Z) (s : BinlogKeyValue) : Res (Z * BinlogKeyValue) :=
  match map_ s !! key with
  | None => Ok (0, s)
  | Some (_, event_id) =>
      let '(seq_no, l) := log_next_event_id (binlog_ s) in
      let s := {| map_ := delete key (map_ s); binlog_ := l; magic_ := magic_ s |} in
      let* raw := create_raw crc32 event_id ServiceTypes.Empty Flags.Rewrite EmptyStorer in
      let* s := kv_add_event raw s in
      Ok (seq_no, s)
  end.

(** The loop of [erase_batch]: the events of the keys present. *)
Fixpoint collect_keys (keys : list (list Z)) (m : gmap (list Z) (list Z * Z)) : list Z * gmap (list Z) (list Z * Z) :=
  match keys with
  | [] => ([], m)
  | key :: keys =>
      match m !! key with
      | Some (_, id) => let '(ids, m) := collect_keys keys (delete key m) in (id :: ids, m)
      | None => collect_keys keys m
      end
  end.

Definition kv_erase_batch (keys : list (list Z)) (s : BinlogKeyValue) : Res (Z * BinlogKeyValue) :=
  let '(ids, m) := collect_keys keys (map_ s) in
  if Nat.eqb (length ids) 0 then Ok (0, {| map_ := m; binlog_ := binlog_ s; magic_ := magic_ s |})
  else
    let* (seq_no, l) := log_erase_batch ids (binlog_ s) in
    Ok (seq_no, {| map_ := m; binlog_ := l; magic_ := magic_ s |}).

Definition begins_with (str prefix : list Z) : bool :=
  Nat.leb (length prefix) (length str) && bool_decide (take (length prefix) str = prefix).

Fixpoint add_erasures (ids : list Z) (s : BinlogKeyValue) : Res BinlogKeyValue :=
  match ids with
  | [] => Ok s
  | id :: ids =>
      let* raw := create_raw crc32 id ServiceTypes.Empty Flags.Rewrite EmptyStorer in
      let* s := kv_add_event raw s in
      add_erasures ids s
  end.

Definition kv_erase_by_prefix (prefix : list Z) (s : BinlogKeyValue) : Res BinlogKeyValue :=
  let event_ids := map (fun e => e.2.2) (filter (fun e => begins_with e.1 prefix = true) (iter (map_ s))) in
  let m := filter (fun e => begins_with e.1 prefix = false) (map_ s) in
  let* n := narrow_cast_int32 (Z.of_nat (length event_ids)) in
  let '(seq_no, l) := log_next_event_id_shift n (binlog_ s) in
  add_erasures event_ids {| map_ := m; binlog_ := l; magic_ := magic_ s |}.

Definition kv_isset (key : list Z) (s : BinlogKeyValue) : bool := bool_decide (is_Some (map_ s !! key)).
Definition kv_get (key : list Z) (s : BinlogKeyValue) : list Z := (default ([], 0) (map_ s !! key)).1.
Definition kv_get_all (s : BinlogKeyValue) : gmap (list Z) (list Z) := fst <$> map_ s.
Definition kv_prefix_get (prefix : list Z) (s : BinlogKeyValue) : gmap (list Z) (list Z) :=
  list_to_map (map (fun e => (drop (length prefix) e.1, e.2.1))
    (filter (fun e => begins_with e.1 prefix = true) (iter (map_ s)))).

(** *** The contents of an event *)
Definition kv_bytes (key value : list Z) : list Z := string_bytes key ++ string_bytes value.

Record fits (key value : list Z) : Prop := {
  fits_key : bytes key;
  fits_value : bytes value;
  fits_nonempty : key <> [];
  fits_size : Z.of_nat (length key) + Z.of_nat (length value) + 64 <= MAX_SIZE;
}.

Lemma fits_lengths key value : fits key value ->
  Z.of_nat (length key) < 2 ^ 32 /\ Z.of_nat (length value) < 2 ^ 32 /\
  Z.of_nat (length (kv_bytes key value)) + MIN_SIZE <= MAX_SIZE /\ Z.of_nat (length (kv_bytes key value)) mod 4 = 0 /\
  bytes (kv_bytes key value).
Proof.
  intros [Hk Hv _ Hs]. unfold MAX_SIZE, MIN_SIZE, HEADER_SIZE, TAIL_SIZE, kv_bytes in *. rewrite length_app, Nat2Z.inj_add.
  pose proof (length_string_bytes key) as H1. pose proof (length_string_bytes value) as H2.
  split_and!; [lia|lia| | |apply Forall_app; split; apply string_bytes_bytes; done || lia];
    repeat case_if_in H1; repeat case_if_in H2; zlia.
Qed.

Lemma Event_storer_ok key value : fits key value ->
  Event_storer key value = Ok (create_storer (kv_bytes key value)).
Proof.
  intros Hf. destruct (fits_lengths key value Hf) as (Hk & Hv & Hl & _). unfold Event_storer, Event_store.
  cbn [store_string Storer_TlStorerCalcLength Storer_TlStorerUnsafe].
  rewrite store_string_length. cbn [res_bind]. rewrite store_string_length. cbn [res_bind].
  rewrite store_string_bytes by done. cbn [res_bind]. rewrite store_string_bytes by done. cbn [res_bind get_length buf_].
  unfold create_storer, kv_bytes in *. rewrite app_nil_l. do 2 f_equal. rewrite length_app in *.
  unfold MAX_SIZE, MIN_SIZE, HEADER_SIZE, TAIL_SIZE in Hl. rewrite !u64_small; unfold is_u64; rewrite ?u64_small; unfold is_u64; lia.
Qed.

Lemma Event_parse_ok dl key value : fits key value ->
  Event_parse (clean dl (kv_bytes key value)) = Ok ((key, value), clean dl []).
Proof.
  intros Hf. destruct (fits_lengths key value Hf) as (Hk & Hv & _). unfold Event_parse, kv_bytes.
  rewrite fetch_string_clean by done. cbn [res_bind]. rewrite <- (app_nil_r (string_bytes value)).
  rewrite fetch_string_clean by done. done.
Qed.

Lemma init_callback_ok m ev id ty fl key value : fits key value ->
  raw_event_ ev = raw_of crc32 id ty fl (kv_bytes key value) ->
  init_callback m ev = Ok (<[key := (value, id_ ev)]> m).
Proof.
  intros Hf Hraw. unfold init_callback.
  assert (get_data ev = Ok (kv_bytes key value)) as ->.
  { rewrite <- (get_data_raw_of crc32 0 0 0 0 0 0 0 id ty fl (kv_bytes key value)). unfold get_data. cbn [raw_event_].
    by rewrite Hraw. }
  cbn [res_bind].
  rewrite new_clean, drop_0, Event_parse_ok by done. cbn [res_bind].
  change (fetch_end (clean ?dl [])) with (Ok (clean dl [])). cbn [res_bind].
  change (error_empty (clean _ [])) with true. cbv iota. destruct key; [by destruct (fits_nonempty _ _ Hf)|]. done.
Qed.

Lemma kv_bytes_inj k v k' v' : fits k v -> fits k' v' -> kv_bytes k v = kv_bytes k' v' -> k = k' /\ v = v'.
Proof.
  intros Hf Hf' E. pose proof (Event_parse_ok 0 k v Hf) as H1. rewrite E, Event_parse_ok in H1 by done. by injection H1.
Qed.

Lemma raw_of_inj id ty fl fl' d d' : raw_of crc32 id ty fl d = raw_of crc32 id ty fl' d' -> d = d'.
Proof.
  intros E. pose proof (get_data_raw_of crc32 0 0 0 0 0 0 0 id ty fl d) as H1.
  rewrite E, get_data_raw_of in H1. by injection H1.
Qed.

(** *** Invariant *)
Context `{!EventLogLaws crc32 L} (crc32_range : forall s, is_u32 (crc32 s)).

Definition kv_raw (magic id fl : Z) (key value : list Z) : list Z := raw_of crc32 id magic fl (kv_bytes key value).

(** The map and the live events of the log say the same. *)
Record agrees (magic : Z) (m : gmap (list Z) (list Z * Z)) (R : gmap Z (list Z)) : Prop := {
  ag_map k v id : m !! k = Some (v, id) ->
    fits k v /\ 0 < id < 2 ^ 63 /\ exists fl, R !! id = Some (kv_raw magic id fl k v);
  ag_log id raw : R !! id = Some raw -> exists k v, m !! k = Some (v, id);
}.

Definition magic_ok (magic : Z) : Prop := 0 <= magic < 2 ^ 31.

Definition kv_inv (n : Z) (s : BinlogKeyValue) : Prop :=
  magic_ok (magic_ s) /\ exists R hi, log_inv R hi n (binlog_ s) /\ agrees (magic_ s) (map_ s) R.

Lemma agrees_inj magic m R k1 k2 v1 v2 id : agrees magic m R ->
  m !! k1 = Some (v1, id) -> m !! k2 = Some (v2, id) -> k1 = k2.
Proof.
  intros Ha H1 H2. destruct (ag_map _ _ _ Ha _ _ _ H1) as (F1 & _ & fl1 & R1).
  destruct (ag_map _ _ _ Ha _ _ _ H2) as (F2 & _ & fl2 & R2). rewrite R1 in R2. apply (inj Some) in R2.
  apply raw_of_inj in R2 as E. by destruct (kv_bytes_inj _ _ _ _ F1 F2 E).
Qed.

Lemma kv_loggable magic k v : magic_ok magic -> fits k v -> loggable magic (kv_bytes k v).
Proof. intros Hm Hf. destruct (fits_lengths k v Hf) as (_ & _ & Hl & Ha & Hb). by split. Qed.

Lemma agrees_insert magic m R k v id fl : agrees magic m R -> fits k v -> 0 < id < 2 ^ 63 ->
  (forall k' v', m !! k' = Some (v', id) -> k' = k) ->
  (forall v' id', m !! k = Some (v', id') -> id' = id) ->
  agrees magic (<[k := (v, id)]> m) (<[id := kv_raw magic id fl k v]> R).
Proof.
  intros [HA HB] Hf Hid Hk Hi. split.
  - intros k' v' id' Hl. destruct (decide (k' = k)) as [->|Hne].
    + rewrite lookup_insert_eq in Hl. injection Hl as <- <-. split; [done|]. split; [done|].
      exists fl. by rewrite lookup_insert_eq.
    + rewrite lookup_insert_ne in Hl by done. destruct (HA _ _ _ Hl) as (? & ? & fl' & HR). split; [done|]. split; [done|].
      exists fl'. rewrite lookup_insert_ne; [done|]. intros <-. by apply Hk in Hl.
  - intros id' raw Hl. destruct (decide (id' = id)) as [->|Hne].
    + exists k, v. by rewrite lookup_insert_eq.
    + rewrite lookup_insert_ne in Hl by done. destruct (HB _ _ Hl) as (k' & v' & Hm).
      exists k', v'. rewrite lookup_insert_ne; [done|]. intros <-. by apply Hi in Hm.
Qed.

(** Erasing a set of entries: [m'] is [m] without the entries whose ids are [ids]. *)
Lemma agrees_delete magic m m' R ids : agrees magic m R -> m' ⊆ m ->
  (forall id, id ∈ ids <-> exists k v, m !! k = Some (v, id) /\ m' !! k = None) ->
  agrees magic m' (foldr delete R ids).
Proof.
  intros Ha Hsub Hids. split.
  - intros k v id Hl. pose proof (lookup_weaken _ _ _ _ Hl Hsub) as Hm. destruct (ag_map _ _ _ Ha _ _ _ Hm) as (? & ? & fl & HR).
    split; [done|]. split; [done|]. exists fl. rewrite lookup_foldr_delete_not_elem_of; [done|].
    intros (k' & v' & Hm' & Hn)%Hids. assert (k' = k) by (by eapply agrees_inj). by subst; congruence.
  - intros id raw Hl. destruct (decide (id ∈ ids)) as [Hin|Hnin]; [by rewrite lookup_foldr_delete in Hl|].
    rewrite lookup_foldr_delete_not_elem_of in Hl by done. destruct (ag_log _ _ _ Ha _ _ Hl) as (k & v & Hm).
    destruct (m' !! k) as [x|] eqn:E; [exists k, v; rewrite E; by rewrite (lookup_weaken _ _ _ _ E Hsub) in Hm|].
    destruct Hnin. apply Hids. eauto.
Qed.

(** Writing the event of a key. *)
Lemma kv_write (seq_no : Z) m l magic id fl k v R hi n R' hi' : magic_ok magic -> fits k v -> 0 <= id < 2 ^ 63 ->
  fl = 0 \/ fl = Flags.Rewrite -> log_inv R hi n l ->
  spec_raw (kv_raw magic id fl k v) (R, hi) = Some (R', hi') -> hi' <= n ->
  exists l', (let* storer := Event_storer k v in let* raw := create_raw crc32 id magic fl storer in
              let* s := kv_add_event raw {| map_ := m; binlog_ := l; magic_ := magic |} in Ok (seq_no, s))
             = Ok (seq_no, {| map_ := m; binlog_ := l'; magic_ := magic |}) /\ log_inv R' hi' n l'.
Proof.
  intros Hm Hf Hid Hfl Hl Hs Hle. destruct (fits_lengths k v Hf) as (_ & _ & Hlen & _ & Hby).
  rewrite Event_storer_ok by done. cbn [res_bind].
  rewrite create_raw_ok; [|by split|unfold MAX_SIZE in Hlen; cbn [create_storer storer_size]; lia].
  cbn [res_bind storer_store create_storer]. unfold kv_add_event. cbn [binlog_].
  destruct (law_add R hi n l (kv_raw magic id fl k v) R' hi') as (l' & E & Hi'); [done|apply raw_plain; [done|by apply kv_loggable|done..]|done|done|].
  unfold kv_raw in E. rewrite E. by exists l'.
Qed.

Lemma kv_set_ok key value s n : kv_inv n s -> fits key value -> n + 1 < 2 ^ 63 ->
  exists ret s' n', kv_set key value s = Ok (ret, s') /\ kv_inv n' s' /\ n <= n' <= n + 1 /\
    kv_get_all s' = <[key := value]> (kv_get_all s).
Proof.
  intros (Hm & R & hi & Hl & Ha) Hf Hn. destruct (law_ids _ _ _ _ Hl) as [Hhi Hids]. unfold kv_set, kv_get_all.
  assert (Nat.eqb (length key) 0 = false) as -> by (destruct key; [by destruct (fits_nonempty _ _ Hf)|done]). cbn [negb].
  destruct (map_ s !! key) as [[old id]|] eqn:E; cbn [from_option Datatypes.id fst snd].
  - destruct (ag_map _ _ _ Ha _ _ _ E) as (_ & Hid & fl & HR). rewrite (proj2 (Z.eqb_neq id 0)) by lia. cbn [negb andb].
    case_bool_decide as Ho.
    + subst old. rewrite insert_id by done. exists 0, s, n. split; [by destruct s|]. split; [by split; [|exists R, hi]|].
      split; [lia|]. rewrite insert_id; [done|]. by rewrite lookup_fmap, E.
    + destruct (law_next _ _ _ _ Hl) as (l1 & -> & Hl1); [lia|]. cbn [magic_].
      edestruct (kv_write (n + 1) (<[key := (value, id)]> (map_ s)) l1 (magic_ s) id Flags.Rewrite key value R hi (n + 1))
        as (l2 & -> & Hl2); [done|done|lia|by right|done|apply spec_raw_rewrite; [done..|lia|by rewrite HR]|lia|].
      exists (n + 1). eexists _, (n + 1). split; [done|]. split; [|split; [lia|cbn; by rewrite fmap_insert]].
      split; [done|]. eexists _, hi. split; [done|].
      apply agrees_insert; [done|done|lia| |]; cbn; intros; [by eapply agrees_inj|congruence].
  - cbn [Z.eqb negb andb]. destruct (law_next _ _ _ _ Hl) as (l1 & -> & Hl1); [lia|]. cbn [magic_].
    edestruct (kv_write (n + 1) (<[key := (value, n + 1)]> (map_ s)) l1 (magic_ s) (n + 1) 0 key value R hi (n + 1))
      as (l2 & -> & Hl2); [done|done|lia|by left|done|apply spec_raw_new; [done..|lia|lia]|lia|].
    exists (n + 1). eexists _, (n + 1). split; [done|]. split; [|split; [lia|cbn; by rewrite fmap_insert]].
    split; [done|]. eexists _, (n + 1). split; [done|].
    apply agrees_insert; [done|done|lia| |]; cbn; intros k' v' Hk'; [|congruence].
    destruct (ag_map _ _ _ Ha _ _ _ Hk') as (_ & _ & fl & HR). specialize (Hids (n + 1) ltac:(by rewrite HR)). lia.
Qed.

(** The ids of the keys that are erased, in any order. *)
Definition erased_ids (m m' : gmap (list Z) (list Z * Z)) (ids : list Z) : Prop :=
  NoDup ids /\ m' ⊆ m /\ forall id, id ∈ ids <-> exists k v, m !! k = Some (v, id) /\ m' !! k = None.

Lemma erased_live magic m R m' ids : agrees magic m R -> erased_ids m m' ids ->
  Forall (fun id => is_Some (R !! id) /\ 0 <= id < 2 ^ 63) ids.
Proof.
  intros Ha (_ & _ & Hids). apply Forall_forall. intros id (k & v & Hm & _)%Hids.
  destruct (ag_map _ _ _ Ha _ _ _ Hm) as (_ & Hid & fl & HR). rewrite HR. split; [by eexists|lia].
Qed.

Lemma kv_erase_ok key s n : kv_inv n s -> n + 1 < 2 ^ 63 ->
  exists ret s' n', kv_erase key s = Ok (ret, s') /\ kv_inv n' s' /\ n <= n' <= n + 1 /\
    kv_get_all s' = delete key (kv_get_all s).
Proof.
  intros (Hm & R & hi & Hl & Ha) Hn. unfold kv_erase, kv_get_all. destruct (map_ s !! key) as [[v id]|] eqn:E.
  - destruct (law_next _ _ _ _ Hl) as (l1 & -> & Hl1); [lia|]. rewrite create_raw_erase. cbn [res_bind].
    unfold kv_add_event. cbn [binlog_ map_ magic_]. destruct (ag_map _ _ _ Ha _ _ _ E) as (_ & Hid & fl & HR).
    destruct (law_add_erasure crc32 crc32_range R hi (n + 1) l1 id Hl1) as (l2 & -> & Hl2); [by rewrite HR|lia|]. cbn [res_bind].
    exists (n + 1). eexists _, (n + 1). split; [done|]. split; [|split; [lia|cbn; by rewrite fmap_delete]].
    split; [done|]. exists (delete id R), hi. split; [done|]. cbn.
    apply (agrees_delete _ (map_ s) _ R [id] Ha (delete_subseteq _ _)). intros id'. rewrite list_elem_of_singleton. split.
    + intros ->. exists key, v. by rewrite lookup_delete_eq.
    + intros (k & v' & Hk & Hd). destruct (decide (k = key)) as [->|]; [congruence|].
      rewrite lookup_delete_ne in Hd by done. congruence.
  - exists 0, s, n. split; [done|]. split; [by split; [|exists R, hi]|]. split; [lia|].
    rewrite delete_id; [done|]. by rewrite lookup_fmap, E.
Qed.

Lemma collect_keys_spec magic R keys m : agrees magic m R ->
  (collect_keys keys m).2 = foldr delete m keys /\ erased_ids m (collect_keys keys m).2 (collect_keys keys m).1 /\
  (length (collect_keys keys m).1 <= length keys)%nat.
Proof.
  revert m R. induction keys as [|key keys IH]; intros m R Ha; cbn [collect_keys foldr length].
  - split; [done|]. split; [|simpl; lia]. split; [constructor|]. split; [done|]. intros id. split; [by intros ?%elem_of_nil|].
    cbn. intros (k & v & H1 & H2). congruence.
  - assert (forall m0 : gmap (list Z) (list Z * Z), foldr delete (delete key m0) keys = delete key (foldr delete m0 keys)) as Hc.
    { clear. induction keys as [|k' keys IH]; intros m0; simpl; [done|]. by rewrite IH, delete_delete. }
    destruct (m !! key) as [[v id]|] eqn:E.
    + assert (agrees magic (delete key m) (foldr delete R [id])) as Ha'.
      { apply (agrees_delete _ m _ R [id] Ha (delete_subseteq _ _)). intros id'. rewrite list_elem_of_singleton. split.
        - intros ->. exists key, v. by rewrite lookup_delete_eq.
        - intros (k & v' & Hk & Hd). destruct (decide (k = key)) as [->|]; [congruence|].
          rewrite lookup_delete_ne in Hd by done. congruence. }
      destruct (IH (delete key m) _ Ha') as (H1 & (Hnd & Hsub & Hids) & Hlen).
      destruct (collect_keys keys (delete key m)) as [ids m']. cbn [fst snd] in *. subst m'. rewrite Hc in *.
      split; [done|]. split; [|simpl; lia]. split; [|split].
      * constructor; [|done]. intros (k & v' & Hk & _)%Hids. destruct (decide (k = key)) as [->|]; [by rewrite lookup_delete_eq in Hk|].
        rewrite lookup_delete_ne in Hk by done. by pose proof (agrees_inj _ _ _ _ _ _ _ _ Ha Hk E).
      * etrans; [done|]. apply delete_subseteq.
      * intros id'. rewrite elem_of_cons, Hids. split.
        { intros [->|(k & v' & Hk & Hd)]; [exists key, v; by rewrite lookup_delete_eq|]. exists k, v'. split; [|done].
          by apply lookup_delete_Some in Hk as [_ ?]. }
        { intros (k & v' & Hk & Hd). destruct (decide (k = key)) as [->|]; [left; congruence|]. right. exists k, v'.
          by rewrite lookup_delete_ne. }
    + destruct (IH m R Ha) as (H1 & Her & Hlen). rewrite delete_id in * by (specialize (Hc m); rewrite delete_id in Hc by done; by rewrite Hc, lookup_delete_eq).
      split; [done|]. split; [done|]. lia.
Qed.

Lemma kv_erase_batch_ok keys s n : kv_inv n s -> n + Z.of_nat (length keys) + 1 < 2 ^ 63 ->
  exists ret s' n', kv_erase_batch keys s = Ok (ret, s') /\ kv_inv n' s' /\ n <= n' <= n + Z.of_nat (length keys) /\
    kv_get_all s' = foldr delete (kv_get_all s) keys.
Proof.
  intros (Hm & R & hi & Hl & Ha) Hn. unfold kv_erase_batch, kv_get_all.
  destruct (collect_keys_spec _ R keys (map_ s) Ha) as (H1 & Her & Hlen).
  destruct (collect_keys keys (map_ s)) as [ids m']. cbn [fst snd] in *.
  assert (fst <$> m' = foldr delete (fst <$> map_ s) keys) as Hm'.
  { rewrite H1. clear. induction keys as [|k keys IH]; simpl; [done|]. by rewrite fmap_delete, IH. }
  pose proof (agrees_delete _ _ m' R ids Ha (proj1 (proj2 Her)) (proj2 (proj2 Her))) as Ha'. destruct ids as [|id ids].
  - exists 0. eexists _, n. split; [done|]. split; [|split; [lia|done]]. split; [done|]. by exists R, hi.
  - cbn [length Nat.eqb] in *. destruct (law_erase_batch R hi n (binlog_ s) (id :: ids) Hl) as (l' & -> & Hl');
      [done|apply Her|by eapply erased_live|cbn; lia|]. cbn [res_bind].
    exists (n + 1). eexists _, (n + Z.of_nat (length (id :: ids))). split; [done|].
    split; [|split; [cbn; lia|done]]. split; [done|]. by exists (foldr delete R (id :: ids)), hi.
Qed.

Lemma add_erasures_ok R hi n m l magic ids : log_inv R hi n l -> NoDup ids ->
  Forall (fun id => is_Some (R !! id) /\ 0 <= id < 2 ^ 63) ids ->
  exists l', add_erasures ids {| map_ := m; binlog_ := l; magic_ := magic |}
             = Ok {| map_ := m; binlog_ := l'; magic_ := magic |} /\ log_inv (foldr delete R ids) hi n l'.
Proof.
  revert R l. induction ids as [|id ids IH]; intros R l Hl Hnd Hf; cbn [add_erasures foldr]; [by exists l|].
  apply Forall_cons_inv in Hf as [[Hin Hid] Hf]. apply NoDup_cons in Hnd as [Hni Hnd].
  rewrite create_raw_erase. cbn [res_bind]. unfold kv_add_event. cbn [binlog_].
  destruct (law_add_erasure crc32 crc32_range R hi n l id Hl Hin Hid) as (l1 & -> & Hl1). cbn [res_bind map_ magic_].
  destruct (IH (delete id R) l1 Hl1 Hnd) as (l2 & -> & Hl2).
  { apply Forall_forall. intros id' Hin'. rewrite Forall_forall in Hf. destruct (Hf _ Hin') as [? ?].
    split; [|done]. rewrite lookup_delete_ne; [done|]. by intros ->. }
  exists l2. split; [done|]. replace (delete id (foldr delete R ids)) with (foldr delete (delete id R) ids); [done|].
  clear. induction ids as [|k ids IH]; simpl; [done|]. by rewrite IH, delete_delete.
Qed.

Context (iter_perm : forall m, iter m ≡ₚ map_to_list m).

Lemma prefix_ids magic R m prefix : agrees magic m R ->
  erased_ids m (filter (fun e => begins_with e.1 prefix = false) m)
    (map (fun e => e.2.2) (filter (fun e => begins_with e.1 prefix = true) (iter m))) /\
  (length (map (fun e => e.2.2) (filter (fun e : list Z * (list Z * Z) => begins_with e.1 prefix = true) (iter m))) <= size m)%nat.
Proof.
  intros Ha.
  assert (forall k v id, (k, (v, id)) ∈ iter m <-> m !! k = Some (v, id)) as Hit.
  { intros. by rewrite iter_perm, elem_of_map_to_list. }
  split; [split; [|split]|].
  - apply NoDup_fmap_2_strong.
    + intros [k1 [v1 id1]] [k2 [v2 id2]] [_ H1%Hit]%list_elem_of_filter [_ H2%Hit]%list_elem_of_filter. cbn. intros ->.
      pose proof (agrees_inj _ _ _ _ _ _ _ _ Ha H1 H2). congruence.
    + apply NoDup_filter. rewrite iter_perm. apply NoDup_map_to_list.
  - apply map_filter_subseteq.
  - intros id. rewrite list_elem_of_fmap. split.
    + intros ([k [v id']] & -> & [Hb Hin%Hit]%list_elem_of_filter). exists k, v. split; [done|].
      apply map_lookup_filter_None. right. intros x _. cbn in *. congruence.
    + intros (k & v & Hm & Hn). exists (k, (v, id)). split; [done|]. apply list_elem_of_filter. split; [|by apply Hit].
      cbn. destruct (begins_with k prefix) eqn:E; [done|]. apply map_lookup_filter_None in Hn as [?|Hn]; [congruence|].
      destruct (Hn _ Hm E).
  - rewrite length_map. etrans; [apply length_filter|]. by rewrite iter_perm, length_map_to_list.
Qed.

Lemma kv_erase_by_prefix_ok prefix s n : kv_inv n s -> Z.of_nat (size (map_ s)) < 2 ^ 31 ->
  n + Z.of_nat (size (map_ s)) + 1 < 2 ^ 63 ->
  exists s' n', kv_erase_by_prefix prefix s = Ok s' /\ kv_inv n' s' /\ n <= n' <= n + Z.of_nat (size (map_ s)) /\
    kv_get_all s' = filter (fun e => begins_with e.1 prefix = false) (kv_get_all s).
Proof.
  intros (Hm & R & hi & Hl & Ha) Hsz Hn. unfold kv_erase_by_prefix, kv_get_all, narrow_cast_int32.
  destruct (prefix_ids _ R (map_ s) prefix Ha) as [Her Hlen]. set (ids := map _ _) in *.
  rewrite (proj2 (Z.ltb_lt _ _)) by lia. cbn [res_bind].
  destruct (law_shift _ _ _ _ (Z.of_nat (length ids)) Hl) as (l1 & -> & Hl1); [lia|lia|].
  destruct (add_erasures_ok R hi _ (filter (fun e => begins_with e.1 prefix = false) (map_ s)) l1 (magic_ s) ids Hl1)
    as (l2 & -> & Hl2); [apply Her|by eapply erased_live|].
  eexists _, (n + Z.of_nat (length ids)). split; [done|]. split; [|split; [lia|]].
  - split; [done|]. exists (foldr delete R ids), hi. split; [done|]. cbn. by apply (agrees_delete _ (map_ s)); [|apply Her..].
  - cbn. apply map_eq. intros k. rewrite lookup_fmap. apply option_eq. intros v.
    rewrite fmap_Some, map_lookup_filter_Some, lookup_fmap, fmap_Some. cbn. split.
    + intros ([v' id] & [H1 H2]%map_lookup_filter_Some & ->). split; [by eexists|done].
    + intros [([v' id] & H1 & ->) H2]. exists (v', id). split; [|done]. by apply map_lookup_filter_Some.
Qed.

(** *** Recovery *)
Lemma replay_events_ok magic m kvs m0 : m0 ⊆ m ->
  Forall (fun kv => exists k v fl, m !! k = Some (v, kv.1) /\ fits k v /\
    raw_event_ kv.2 = kv_raw magic kv.1 fl k v /\ id_ kv.2 = kv.1) kvs ->
  exists m1, replay_events (map snd kvs) m0 = Ok m1 /\ m0 ⊆ m1 /\ m1 ⊆ m /\
    forall k v id, m !! k = Some (v, id) -> id ∈ map fst kvs -> (forall k' v', m !! k' = Some (v', id) -> k' = k) ->
      m1 !! k = Some (v, id).
Proof.
  revert m0. induction kvs as [|[id ev] kvs IH]; intros m0 Hsub Hf; cbn [replay_events map fst snd].
  - exists m0. split_and!; try done. intros k v id _ ?%elem_of_nil. done.
  - apply Forall_cons_inv in Hf as [(k & v & fl & Hm & Hfit & Hraw & Hid) Hf]. cbn [fst snd] in *.
    rewrite (init_callback_ok m0 ev id magic fl k v Hfit Hraw), Hid. cbn [res_bind].
    assert (<[k := (v, id)]> m0 ⊆ m) as Hsub1 by (by apply insert_subseteq_l).
    destruct (IH (<[k := (v, id)]> m0) Hsub1 Hf) as (m1 & Hr & H1 & H2 & H3). exists m1. split; [done|]. split; [|split; [done|]].
    + etrans; [|exact H1]. apply map_subseteq_spec. intros k' x Hx. destruct (decide (k' = k)) as [->|].
      * rewrite lookup_insert_eq. pose proof (lookup_weaken _ _ _ _ Hx Hsub). congruence.
      * by rewrite lookup_insert_ne.
    + intros k' v' id' Hm' Hin Huniq. apply elem_of_cons in Hin as [->|Hin]; [|by apply H3].
      pose proof (Huniq _ _ Hm) as ->. assert (v' = v) as -> by congruence.
      eapply lookup_weaken; [|exact H1]. by rewrite lookup_insert_eq.
Qed.

Lemma kv_reopen_ok s n : kv_inv n s ->
  exists s' n', kv_reopen s = Ok s' /\ map_ s' = map_ s /\ magic_ s' = magic_ s /\ kv_inv n' s'.
Proof.
  intros (Hm & R & hi & Hl & Ha). destruct (law_reopen _ _ _ _ Hl) as (kvs & l' & hi' & Hr & Hso & HR & Hids & _ & Hl').
  assert (NoDup (map fst kvs)) as Hnd by (by apply sorted_NoDup).
  destruct (replay_events_ok (magic_ s) (map_ s) kvs ∅) as (m1 & Hm1 & _ & Hsub & Hall).
  { apply map_empty_subseteq. }
  { apply Forall_forall. intros [id ev] Hin. rewrite Forall_forall in Hids. destruct (Hids _ Hin) as [Hid _]. cbn in *.
    apply (elem_of_list_to_map (M := gmap Z) _ _ _ Hnd) in Hin.
    assert (R !! id = Some (raw_event_ ev)) as HRi by (by rewrite <- HR, lookup_fmap, Hin).
    destruct (ag_log _ _ _ Ha _ _ HRi) as (k & v & Hk). destruct (ag_map _ _ _ Ha _ _ _ Hk) as (Hf & _ & fl & HR2).
    exists k, v, fl. split; [done|]. split; [done|]. split; [|done]. rewrite HRi in HR2. by apply (inj Some) in HR2. }
  unfold kv_reopen. rewrite Hr. cbn [res_bind]. rewrite Hm1. cbn [res_bind].
  assert (m1 = map_ s) as ->.
  { apply map_eq. intros k. destruct (map_ s !! k) as [[v id]|] eqn:E.
    - apply Hall; [done| |].
      + destruct (ag_map _ _ _ Ha _ _ _ E) as (_ & _ & fl & HRi). rewrite <- HR, lookup_fmap in HRi.
        apply fmap_Some in HRi as (ev & Hev & _). apply elem_of_list_to_map_2 in Hev.
        apply list_elem_of_fmap. by exists (id, ev).
      + intros k' v' Hk'. by eapply agrees_inj.
    - destruct (m1 !! k) eqn:E1; [|done]. by rewrite (lookup_weaken _ _ _ _ E1 Hsub) in E. }
  eexists _, hi'. split; [done|]. split; [done|]. split; [done|]. split; [done|]. by exists R, hi'.
Qed.

(** *** Runs of operations *)
Inductive kv_op :=
  | KSet (key value : list Z) | KErase (key : list Z) | KEraseBatch (keys : list (list Z)) | KEraseByPrefix (prefix : list Z).

Definition kv_step (o : kv_op) (s : BinlogKeyValue) : Res BinlogKeyValue :=
  match o with
  | KSet k v => let* (_, s) := kv_set k v s in Ok s
  | KErase k => let* (_, s) := kv_erase k s in Ok s
  | KEraseBatch ks => let* (_, s) := kv_erase_batch ks s in Ok s
  | KEraseByPrefix p => kv_erase_by_prefix p s
  end.

Definition kv_effect (o : kv_op) (m : gmap (list Z) (list Z)) : gmap (list Z) (list Z) :=
  match o with
  | KSet k v => <[k := v]> m
  | KErase k => delete k m
  | KEraseBatch ks => foldr delete m ks
  | KEraseByPrefix p => filter (fun e => begins_with e.1 p = false) m
  end.

Fixpoint kv_run (os : list kv_op) (s : BinlogKeyValue) : Res BinlogKeyValue :=
  match os with
  | [] => Ok s
  | o :: os => let* s := kv_step o s in kv_run os s
  end.

Definition kv_op_ok (o : kv_op) : Prop := match o with KSet k v => fits k v | _ => True end.
Definition kv_op_keys (o : kv_op) : Z := match o with KEraseBatch ks => Z.of_nat (length ks) | _ => 0 end.

Lemma effect_size o m : (size (kv_effect o m) <= S (size m))%nat.
Proof.
  destruct o as [k v|k|ks|p]; cbn.
  - rewrite map_size_insert. destruct (m !! k); simpl; lia.
  - rewrite map_size_delete. destruct (m !! k); simpl; lia.
  - induction ks as [|k ks IH]; simpl; [lia|]. rewrite map_size_delete. destruct (foldr delete m ks !! k); simpl; lia.
  - pose proof (map_subseteq_size _ _ (map_filter_subseteq (fun e => begins_with e.1 p = false) m)). lia.
Qed.

Lemma kv_step_ok o s n N : kv_inv n s -> kv_op_ok o -> Z.of_nat (size (map_ s)) <= N < 2 ^ 31 ->
  n + kv_op_keys o + N + 2 < 2 ^ 63 ->
  exists s' n', kv_step o s = Ok s' /\ kv_inv n' s' /\ n <= n' <= n + kv_op_keys o + N + 1 /\
    kv_get_all s' = kv_effect o (kv_get_all s).
Proof.
  intros Hi Hok HN Hn. destruct o as [k v|k|ks|p]; cbn [kv_step kv_effect kv_op_keys kv_op_ok] in *.
  - destruct (kv_set_ok k v s n Hi Hok) as (r & s' & n' & -> & Hi' & Hn' & He); [lia|]. exists s', n'. split_and!; try done; lia.
  - destruct (kv_erase_ok k s n Hi) as (r & s' & n' & -> & Hi' & Hn' & He); [lia|]. exists s', n'. split_and!; try done; lia.
  - destruct (kv_erase_batch_ok ks s n Hi) as (r & s' & n' & -> & Hi' & Hn' & He); [lia|]. exists s', n'. split_and!; try done; lia.
  - destruct (kv_erase_by_prefix_ok p s n Hi) as (s' & n' & -> & Hi' & Hn' & He); [lia|lia|]. exists s', n'. split_and!; try done; lia.
Qed.

Lemma kv_run_ok os s n N : kv_inv n s -> Forall kv_op_ok os ->
  Z.of_nat (size (map_ s)) + Z.of_nat (length os) <= N < 2 ^ 31 ->
  n + foldr Z.add 0 (map kv_op_keys os) + Z.of_nat (length os) * (N + 1) + 1 < 2 ^ 63 ->
  exists s' n', kv_run os s = Ok s' /\ kv_inv n' s' /\ kv_get_all s' = fold_left (fun m o => kv_effect o m) os (kv_get_all s).
Proof.
  revert s n. induction os as [|o os IH]; intros s n Hi Hok HN Hn; cbn [kv_run fold_left map foldr length] in *; [by exists s, n|].
  apply Forall_cons_inv in Hok as [Hok1 Hok].
  assert (forall o, 0 <= kv_op_keys o) as Hpos by (intros []; cbn; lia).
  assert (0 <= foldr Z.add 0 (map kv_op_keys os)) as Hsum.
  { clear -Hpos. induction os as [|o' os' IH]; cbn; [lia|]. specialize (Hpos o'). lia. }
  destruct (kv_step_ok o s n N Hi Hok1) as (s1 & n1 & -> & Hi1 & Hn1 & He1); [lia|nia|]. cbn [res_bind].
  pose proof (effect_size o (kv_get_all s)) as Hsz. rewrite <- He1 in Hsz. unfold kv_get_all in Hsz. rewrite !map_size_fmap in Hsz.
  destruct (IH s1 n1 Hi1 Hok) as (s' & n' & -> & Hi' & He'); [lia|nia|]. exists s', n'. rewrite He', He1. done.
Qed.
End kv.

(** C18. A [BinlogKeyValue] over any log that keeps its promises behaves as a
    plain map under any sequence of [set], [erase], [erase_batch] and
    [erase_by_prefix], and after it is closed and opened again it has the same
    keys, values and event ids: replaying the log restores the map. *)
Theorem binlog_kv_durable (crc32 : list Z -> Z) {L : Type} `{EventLogLaws crc32 L}
  (iter : gmap (list Z) (list Z * Z) -> list (list Z * (list Z * Z))) (s : BinlogKeyValue) (n : Z) (os : list kv_op) (N : Z) :
  (forall str, is_u32 (crc32 str)) -> (forall m, iter m ≡ₚ map_to_list m) -> kv_inv crc32 n s -> Forall kv_op_ok os ->
  Z.of_nat (size (map_ s)) + Z.of_nat (length os) <= N < 2 ^ 31 ->
  n + foldr Z.add 0 (map kv_op_keys os) + Z.of_nat (length os) * (N + 1) + 1 < 2 ^ 63 ->
  exists s' s2, kv_run crc32 iter os s = Ok s' /\
    kv_get_all s' = fold_left (fun m o => kv_effect o m) os (kv_get_all s) /\
    kv_reopen s' = Ok s2 /\ map_ s2 = map_ s' /\ exists n2, kv_inv crc32 n2 s2.
Proof.
  intros Hc Hit Hi Hok HN Hn.
  destruct (kv_run_ok crc32 iter Hc Hit os s n N Hi Hok HN Hn) as (s' & n' & Hr & Hi' & He).
  destruct (kv_reopen_ok crc32 s' n' Hi') as (s2 & n2 & Hs2 & Hm & _ & Hi2). exists s', s2. split_and!; try done. by exists n2.
Qed.

Definition fresh_kv : @BinlogKeyValue Binlog := {| map_ := ∅; binlog_ := empty_log; magic_ := MAGIC |}.

#[local] Instance test_EventLog : EventLog Binlog := binlog_EventLog crc0 no_encryption.
#[local] Instance test_EventLogLaws : EventLogLaws crc0 Binlog := binlog_EventLogLaws crc0 no_encryption crc0_range.

Lemma fresh_kv_inv : kv_inv crc0 0 fresh_kv.
Proof.
  split; [vm_compute; intuition discriminate|]. exists ∅, 0. split.
  - split; [done|]. split; [lia|]. exists []. apply empty_log_running.
  - split; intros *; by rewrite lookup_empty.
Qed.

Definition test_ops : list kv_op :=
  [KSet [97; 49] [1]; KSet [97; 50] [2]; KSet [98] [3]; KSet [97; 49] [4; 4]; KEraseBatch [[98]; [99]]; KEraseByPrefix [97; 50]].

Lemma binlog_kv_durable_witness : exists s' s2, kv_run crc0 map_to_list test_ops fresh_kv = Ok s' /\
    kv_get_all s' = fold_left (fun m o => kv_effect o m) test_ops (kv_get_all fresh_kv) /\
    kv_reopen s' = Ok s2 /\ map_ s2 = map_ s' /\ exists n2, kv_inv crc0 n2 s2.
Proof.
  apply (binlog_kv_durable crc0 map_to_list fresh_kv 0 test_ops 100 crc0_range (fun m => reflexivity _) fresh_kv_inv).
  - repeat constructor; try (unfold is_byte; lia); try discriminate; vm_compute; discriminate.
  - vm_compute. intuition discriminate.
  - vm_compute. reflexivity.
Defined.
