(* ===== verification/TQueue.v ===== *)
(** * TQueue

    The queues of events of tddb/td/db/TQueue.h and TQueue.cpp.  An ordered
    map of events is the list of its events in the order of their ids; the
    set of scheduled collections is an ordered list of pairs.  The storage
    behind a queue is the class [StorageCallback], as it is an abstract class
    of the source; [StorageLaws] states what the queue relies on, and
    [TQueueMemoryStorage] is an instance.  The random number [Random::fast]
    returns is an argument of [push], and [late] answers the calls of the
    clock in [run_gc]. *)
From S2P Require Import Prelude.
Local Open Scope td_scope.

(** ** Event identifiers: an [EventId] is its [int32] value. *)
Definition MAX_ID : Z := 2000000000.

Definition is_valid_id (id : Z) : bool := (0 <=? id) && (id <? MAX_ID).
Definition from_int32 (id : Z) : Res Z := if is_valid_id id then Ok id else Error 0 "Invalid ID".
Definition id_empty (id : Z) : bool := id =? 0.
Definition is_valid (id : Z) : bool := negb (id_empty id) && is_valid_id id.
Definition next (id : Z) : Res Z := from_int32 (s32 (id + 1)).

(** [narrow_cast_safe<int32>] of a [size_t]. *)
Definition advance (id offset : Z) : Res Z :=
  let v := u64 (id + offset) in
  if v <? 2 ^ 31 then from_int32 v else Error 0 "Narrow cast failed".

Record RawEvent := {
  log_event_id : Z;
  event_id : Z;
  expires_at : Z;
  data : list Z;
  extra : Z;
}.

(** What [get] writes for an event. *)
Record Event := { ev_id : Z; ev_expires_at : Z; ev_data : list Z; ev_extra : Z }.

Definition set_log_event_id (id : Z) (e : RawEvent) : RawEvent :=
  {| log_event_id := id; event_id := event_id e; expires_at := expires_at e; data := data e; extra := extra e |}.
Definition clear_data (e : RawEvent) : RawEvent :=
  {| log_event_id := log_event_id e; event_id := event_id e; expires_at := expires_at e; data := []; extra := extra e |}.

Definition data_size (e : RawEvent) : Z := Z.of_nat (length (data e)).
Definition data_empty (e : RawEvent) : bool := Nat.eqb (length (data e)) 0.

(** ** The storage *)
Class StorageCallback (S : Type) := {
  cb_push : Z -> RawEvent -> S -> Z * S;
  cb_pop : Z -> S -> S;
  cb_pop_batch : list Z -> S -> S;
}.

(** [StorageCallback::pop_batch] when it is not overridden. *)
Definition default_pop_batch {S} (pop : Z -> S -> S) (ids : list Z) (st : S) : S :=
  fold_left (fun st id => pop id st) ids st.

(** ** TQueueImpl *)
Definition MAX_EVENT_LENGTH : Z := 65536 * 8.
Definition MAX_QUEUE_EVENTS : Z := 100000.
Definition MAX_TOTAL_EVENT_LENGTH : Z := Z.shiftl 1 27.

Record Queue := {
  tail_id : Z;
  events : list RawEvent;
  total_event_length : Z;
  gc_at : Z;
}.

Definition new_queue : Queue := {| tail_id := 0; events := []; total_event_length := 0; gc_at := 0 |}.

Definition with_tail (t : Z) (q : Queue) : Queue :=
  {| tail_id := t; events := events q; total_event_length := total_event_length q; gc_at := gc_at q |}.
Definition with_events (evs : list RawEvent) (total : Z) (q : Queue) : Queue :=
  {| tail_id := tail_id q; events := evs; total_event_length := total; gc_at := gc_at q |}.
Definition with_gc_at (g : Z) (q : Queue) : Queue :=
  {| tail_id := tail_id q; events := events q; total_event_length := total_event_length q; gc_at := g |}.

Section with_storage.
Context {S : Type} `{StorageCallback S}.

Record TQueueImpl := {
  queues_ : gmap Z Queue;
  queue_gc_at_ : list (Z * Z);
  callback_ : option S;
}.

Definition create : TQueueImpl := {| queues_ := ∅; queue_gc_at_ := []; callback_ := None |}.
Definition set_callback (c : S) (t : TQueueImpl) : TQueueImpl :=
  {| queues_ := queues_ t; queue_gc_at_ := queue_gc_at_ t; callback_ := Some c |}.

(** The storage is handed over and the queues have none any more. *)
Definition extract_callback (t : TQueueImpl) : option S * TQueueImpl :=
  (callback_ t, {| queues_ := queues_ t; queue_gc_at_ := queue_gc_at_ t; callback_ := None |}).
(** The storage that is told to close, if there is one. *)
Definition close (t : TQueueImpl) : option S * TQueueImpl :=
  match callback_ t with
  | Some c => (Some c, {| queues_ := queues_ t; queue_gc_at_ := queue_gc_at_ t; callback_ := None |})
  | None => (None, t)
  end.

Definition with_queue (id : Z) (q : Queue) (cb : option S) (t : TQueueImpl) : TQueueImpl :=
  {| queues_ := <[id := q]> (queues_ t); queue_gc_at_ := queue_gc_at_ t; callback_ := cb |}.

(** [queues_[queue_id]] *)
Definition get_queue (id : Z) (t : TQueueImpl) : Queue := default new_queue (queues_ t !! id).

Definition get_queue_head (q : Queue) : Z :=
  match events q with [] => tail_id q | e :: _ => event_id e end.

Definition queue_size (q : Queue) : Z :=
  match last (events q) with
  | None => 0
  | Some e => Z.of_nat (length (events q)) - (if data_empty e then 1 else 0)
  end.

(** *** The set of scheduled collections *)
Definition gc_ltb (a b : Z * Z) : bool := (a.1 <? b.1) || ((a.1 =? b.1) && (a.2 <? b.2)).

Fixpoint gc_emplace (x : Z * Z) (l : list (Z * Z)) : option (list (Z * Z)) :=
  match l with
  | [] => Some [x]
  | y :: l' =>
      if gc_ltb x y then Some (x :: l)
      else if bool_decide (x = y) then None
      else match gc_emplace x l' with Some l' => Some (y :: l') | None => None end
  end.

Fixpoint gc_erase (x : Z * Z) (l : list (Z * Z)) : option (list (Z * Z)) :=
  match l with
  | [] => None
  | y :: l => if bool_decide (x = y) then Some l
              else match gc_erase x l with Some l => Some (y :: l) | None => None end
  end.

Definition schedule_queue_gc (queue_id : Z) (q : Queue) (g : Z) (gcs : list (Z * Z)) : Res (Queue * list (Z * Z)) :=
  let* gcs :=
    if negb (gc_at q =? 0) then
      match gc_erase (gc_at q, queue_id) gcs with Some gcs => Ok gcs | None => Panic "is_deleted" end
    else Ok gcs in
  let* gcs :=
    if negb (g =? 0) then
      match gc_emplace (g, queue_id) gcs with Some gcs => Ok gcs | None => Panic "is_inserted" end
    else Ok gcs in
  Ok (with_gc_at g q, gcs).

(** *** Popping an event: what is left of it in the queue, the total length
    and the storage after it.  [tail] is the [tail_id] argument. *)
Definition pop (queue_id tail : Z) (e : RawEvent) (total : Z) (cb : option S) : Res (option RawEvent * Z * option S) :=
  match cb with
  | None => Ok (None, total - data_size e, cb)
  | Some c =>
      if log_event_id e =? 0 then Ok (None, total - data_size e, cb)
      else
        match next (event_id e) with
        | Ok n =>
            if n =? tail then
              if data_empty e then Ok (Some e, total, cb)
              else
                let e' := clear_data e in
                Ok (Some e', total - data_size e, Some (snd (cb_push queue_id e' c)))
            else Ok (None, total - data_size e, Some (cb_pop (log_event_id e) c))
        | Error _ m => Panic m
        | Panic w => Panic w
        end
  end.

Definition keep (e : option RawEvent) (l : list RawEvent) : list RawEvent :=
  match e with Some e => e :: l | None => l end.

(** Popping every event of a list. *)
Fixpoint pop_all (queue_id tail : Z) (evs : list RawEvent) (total : Z) (cb : option S)
  : Res (list RawEvent * Z * option S) :=
  match evs with
  | [] => Ok ([], total, cb)
  | e :: evs =>
      let* (r, cb) := pop queue_id tail e total cb in
      let* (r', cb) := pop_all queue_id tail evs r.2 cb in
      Ok (keep r.1 r'.1, r'.2, cb)
  end.

(** [events.emplace]: nothing happens when the key is present. *)
Fixpoint emplace_event (e : RawEvent) (l : list RawEvent) : list RawEvent :=
  match l with
  | [] => [e]
  | x :: l' =>
      if event_id e <? event_id x then e :: l
      else if event_id e =? event_id x then l
      else x :: emplace_event e l'
  end.

(** *** [do_push]: false when the event is not added. *)

(** An emptied last event is dropped, from the storage too. *)
Definition drop_empty_last (evs : list RawEvent) (cb : option S) : list RawEvent * option S :=
  match last evs with
  | Some l =>
      if data_empty l then
        (removelast evs,
         match cb with
         | Some c => if negb (log_event_id l =? 0) then Some (cb_pop (log_event_id l) c) else Some c
         | None => None
         end)
      else (evs, cb)
  | None => (evs, cb)
  end.

(** An event without a log id is given to the storage. *)
Definition store_event (queue_id : Z) (e : RawEvent) (cb : option S) : RawEvent * option S :=
  match cb with
  | Some c =>
      if log_event_id e =? 0 then let '(id, c) := cb_push queue_id e c in (set_log_event_id id e, Some c) else (e, cb)
  | None => (e, cb)
  end.

Definition do_push (queue_id : Z) (e : RawEvent) (t : TQueueImpl) : Res (bool * TQueueImpl) :=
  CHECK! is_valid (event_id e) else "raw_event.event_id.is_valid()" in
  if (MAX_EVENT_LENGTH <? data_size e) || (queue_id =? 0) then Ok (false, t)
  else
    let q := get_queue queue_id t in
    let t := with_queue queue_id q (callback_ t) t in
    if (MAX_QUEUE_EVENTS <=? Z.of_nat (length (events q)))
       || (u64 (MAX_TOTAL_EVENT_LENGTH - data_size e) <? total_event_length q) || (expires_at e <=? 0)
    then Ok (false, t)
    else if event_id e <? tail_id q then Ok (false, t)
    else
      let '(evs, cb) := drop_empty_last (events q) (callback_ t) in
      let q := with_events evs (total_event_length q) q in
      let* (q, gcs) :=
        if Nat.eqb (length (events q)) 0 && negb (data_empty e)
        then schedule_queue_gc queue_id q (expires_at e) (queue_gc_at_ t) else Ok (q, queue_gc_at_ t) in
      let '(e, cb) := store_event queue_id e cb in
      match next (event_id e) with
      | Ok n =>
          let q := {| tail_id := n; events := emplace_event e (events q);
                      total_event_length := total_event_length q + data_size e; gc_at := gc_at q |} in
          Ok (true, {| queues_ := <[queue_id := q]> (queues_ t); queue_gc_at_ := gcs; callback_ := cb |})
      | Error _ m => Panic m
      | Panic w => Panic w
      end.

(** *** [push] *)

(** The loop that chooses the id; [rnd] is the random number. *)
Fixpoint choose_id (fuel : nat) (queue_id hint rnd : Z) (q : Queue) (cb : option S) : Res (Z * Queue * option S) :=
  match fuel with
  | O => Panic "fuel"
  | Datatypes.S fuel =>
      let* q :=
        if id_empty (tail_id q) then
          if id_empty hint then
            match from_int32 rnd with Ok r => Ok (with_tail r q) | _ => Panic "move_as_ok" end
          else Ok (with_tail hint q)
        else Ok q in
      let event_id := tail_id q in
      CHECK! is_valid event_id else "event_id.is_valid()" in
      if is_ok (next event_id) then Ok (event_id, q, cb)
      else
        let* (r, cb) := pop_all queue_id 0 (events q) (total_event_length q) cb in
        let q := with_tail 0 (with_events r.1 r.2 q) in
        CHECK! is_ok (next hint) else "hint_new_id.next().is_ok()" in
        choose_id fuel queue_id hint rnd q cb
  end.

Definition push (queue_id : Z) (dat : list Z) (expires : Z) (ext : Z) (hint rnd : Z) (t : TQueueImpl)
  : Res (Res Z * TQueueImpl) :=
  let size := Z.of_nat (length dat) in
  if size =? 0 then Ok (Error 0 "Data is empty", t)
  else if MAX_EVENT_LENGTH <? size then Ok (Error 0 "Data is too big", t)
  else if queue_id =? 0 then Ok (Error 0 "Queue identifier is invalid", t)
  else
    let q := get_queue queue_id t in
    let t := with_queue queue_id q (callback_ t) t in
    if MAX_QUEUE_EVENTS <=? Z.of_nat (length (events q)) then Ok (Error 0 "Queue is full", t)
    else if u64 (MAX_TOTAL_EVENT_LENGTH - size) <? total_event_length q then Ok (Error 0 "Queue size is too big", t)
    else if expires <=? 0 then Ok (Error 0 "Failed to add already expired event", t)
    else
      let* (r, cb) := choose_id 3 queue_id hint rnd q (callback_ t) in
      let t := with_queue queue_id r.2 cb t in
      let* (is_added, t) := do_push queue_id
        {| log_event_id := 0; event_id := r.1; expires_at := expires; data := dat; extra := ext |} t in
      CHECK! is_added else "is_added" in
      Ok (Ok r.1, t).

(** *** Readers *)
Definition get_head (queue_id : Z) (t : TQueueImpl) : Z :=
  match queues_ t !! queue_id with None => 0 | Some q => get_queue_head q end.
Definition get_tail (queue_id : Z) (t : TQueueImpl) : Z :=
  match queues_ t !! queue_id with None => 0 | Some q => tail_id q end.
Definition get_size (queue_id : Z) (t : TQueueImpl) : Z :=
  match queues_ t !! queue_id with None => 0 | Some q => queue_size q end.

(** *** [forget] *)

(** [pop] applied to the event with the given id, if there is one. *)
Fixpoint pop_id (queue_id tail id : Z) (evs : list RawEvent) (total : Z) (cb : option S)
  : Res (list RawEvent * Z * option S) :=
  match evs with
  | [] => Ok ([], total, cb)
  | e :: evs =>
      if event_id e =? id then
        let* (r, cb) := pop queue_id tail e total cb in Ok (keep r.1 evs, r.2, cb)
      else
        let* (r, cb) := pop_id queue_id tail id evs total cb in Ok (e :: r.1, r.2, cb)
  end.

Definition forget (queue_id event_id : Z) (t : TQueueImpl) : Res TQueueImpl :=
  match queues_ t !! queue_id with
  | None => Ok t
  | Some q =>
      let* (r, cb) := pop_id queue_id (tail_id q) event_id (events q) (total_event_length q) (callback_ t) in
      Ok (with_queue queue_id (with_events r.1 r.2 q) cb t)
  end.

(** *** [clear] *)
Definition sum_sizes (evs : list RawEvent) : Z := fold_left (fun a e => a + data_size e) evs 0.

(** With [keep_count = 0] the last event stays, without its data, when the
    storage knows it: the number of events to delete, and the queue. *)
Definition clear_last (queue_id : Z) (q : Queue) (cb : option S) : nat * Queue * option S :=
  let n := length (events q) in
  match last (events q), cb with
  | Some e, Some c =>
      if log_event_id e =? 0 then (n, q, cb)
      else if negb (data_empty e) then
        let e' := clear_data e in
        ((n - 1)%nat, with_events (removelast (events q) ++ [e']) (total_event_length q - data_size e) q,
         Some (snd (cb_push queue_id e' c)))
      else ((n - 1)%nat, q, cb)
  | _, _ => (n, q, cb)
  end.

Definition clear (queue_id : Z) (keep_count : nat) (t : TQueueImpl) : list RawEvent * TQueueImpl :=
  match queues_ t !! queue_id with
  | None => ([], t)
  | Some q =>
      let size := queue_size q in
      if size <=? Z.of_nat keep_count then ([], t)
      else
        let '(n, q, cb) :=
          if Nat.eqb keep_count 0 then clear_last queue_id q (callback_ t)
          else ((length (events q) - keep_count)%nat, q, callback_ t) in
        let deleted := take n (events q) in
        let left := drop n (events q) in
        let cb :=
          match cb with
          | Some c => Some (cb_pop_batch (filter (fun id => id <> 0) (map log_event_id deleted)) c)
          | None => None
          end in
        let total := if size / 2 <? Z.of_nat keep_count then total_event_length q - sum_sizes deleted else sum_sizes left in
        (deleted, with_queue queue_id (with_events left total q) cb t)
  end.

(** *** [get] *)
Definition to_event (e : RawEvent) : Event :=
  {| ev_id := event_id e; ev_expires_at := expires_at e; ev_data := data e; ev_extra := extra e |}.

(** The first loop of [do_get]: events before [from_id] are popped. *)
Fixpoint forget_before (queue_id tail from_id : Z) (evs : list RawEvent) (total : Z) (cb : option S)
  : Res (list RawEvent * Z * option S) :=
  match evs with
  | e :: rest =>
      if event_id e <? from_id then
        let* (r, cb) := pop queue_id tail e total cb in
        let* (r', cb) := forget_before queue_id tail from_id rest r.2 cb in
        Ok (keep r.1 r'.1, r'.2, cb)
      else Ok (evs, total, cb)
  | [] => Ok ([], total, cb)
  end.

(** The second loop, from [lower_bound(from_id)]; [n] results still fit. *)
Fixpoint collect (queue_id tail from_id now : Z) (n : nat) (evs : list RawEvent) (total : Z) (cb : option S)
  : Res (list Event * list RawEvent * Z * option S) :=
  match evs with
  | [] => Ok ([], [], total, cb)
  | e :: rest =>
      if (expires_at e <? now) || data_empty e then
        let* (r, cb) := pop queue_id tail e total cb in
        let* (r', cb) := collect queue_id tail from_id now n rest r.2 cb in
        Ok (r'.1.1, keep r.1 r'.1.2, r'.2, cb)
      else
        CHECK! negb (event_id e <? from_id) else "!(event.event_id < from_id)" in
        match n with
        | O => Ok ([], evs, total, cb)
        | Datatypes.S n =>
            let* (r', cb) := collect queue_id tail from_id now n rest total cb in
            Ok (to_event e :: r'.1.1, e :: r'.1.2, r'.2, cb)
        end
  end.

(** The events before [lower_bound(from_id)] and the ones from it. *)
Fixpoint split_lower (from_id : Z) (evs : list RawEvent) : list RawEvent * list RawEvent :=
  match evs with
  | e :: rest => if event_id e <? from_id then let '(a, b) := split_lower from_id rest in (e :: a, b) else ([], evs)
  | [] => ([], [])
  end.

Definition do_get (queue_id from_id : Z) (forget_previous : bool) (now : Z) (n : nat) (q : Queue) (cb : option S)
  : Res (list Event * Queue * option S) :=
  let* (r, cb) :=
    if forget_previous then forget_before queue_id (tail_id q) from_id (events q) (total_event_length q) cb
    else Ok (events q, total_event_length q, cb) in
  let '(before, after) := split_lower from_id r.1 in
  let* (r', cb) := collect queue_id (tail_id q) from_id now n after r.2 cb in
  Ok (r'.1.1, with_events (before ++ r'.1.2) r'.2 q, cb).

(** [get] with room for [n] results. *)
Definition get (queue_id from_id : Z) (forget_previous : bool) (now : Z) (n : nat) (t : TQueueImpl)
  : Res (Res (Z * list Event) * TQueueImpl) :=
  match queues_ t !! queue_id with
  | None => Ok (Ok (0, []), t)
  | Some q =>
      if tail_id q + 10 <? from_id then Ok (Error 0 "Specified from_id is in the future", t)
      else if from_id <? get_queue_head q - MAX_QUEUE_EVENTS then Ok (Error 0 "Specified from_id is in the past", t)
      else
        let* (r, cb) := do_get queue_id from_id forget_previous now n q (callback_ t) in
        Ok (Ok (queue_size r.2, r.1), with_queue queue_id r.2 cb t)
  end.

(** *** [run_gc]; [late i] is the answer of the [i]-th look at the clock, and
    [gc] the value of [new_gc_at]. *)
Record gc_loop := { gl_counter : Z; gl_tick : nat; gl_new_gc_at : Z }.

Fixpoint gc_events (late : nat -> bool) (queue_id tail now : Z) (g : gc_loop) (evs : list RawEvent) (total : Z) (cb : option S)
  : Res (gc_loop * list RawEvent * Z * option S) :=
  match evs with
  | [] => Ok (g, [], total, cb)
  | e :: rest =>
      let counter := gl_counter g + 1 in
      let look := Z.land counter 128 =? 0 in
      let tick := if look then Datatypes.S (gl_tick g) else gl_tick g in
      if look && late (gl_tick g) then
        Ok ({| gl_counter := counter; gl_tick := tick;
               gl_new_gc_at := if gl_new_gc_at g =? 0 then expires_at e else gl_new_gc_at g |}, evs, total, cb)
      else if (expires_at e <? now) || data_empty e then
        let* (r, cb) := pop queue_id tail e total cb in
        let* (r', cb) := gc_events late queue_id tail now {| gl_counter := counter; gl_tick := tick; gl_new_gc_at := gl_new_gc_at g |}
                          rest r.2 cb in
        Ok (r'.1.1, keep r.1 r'.1.2, r'.2, cb)
      else if negb (gl_new_gc_at g =? 0) then
        Ok ({| gl_counter := counter; gl_tick := tick; gl_new_gc_at := gl_new_gc_at g |}, evs, total, cb)
      else
        let* (r', cb) := gc_events late queue_id tail now {| gl_counter := counter; gl_tick := tick; gl_new_gc_at := expires_at e |}
                          rest total cb in
        Ok (r'.1.1, e :: r'.1.2, r'.2, cb)
  end.

Fixpoint run_gc_loop (fuel : nat) (late : nat -> bool) (now : Z) (deleted counter : Z) (tick : nat) (t : TQueueImpl)
  : Res (Z * bool * TQueueImpl) :=
  match queue_gc_at_ t with
  | [] => Ok (deleted, true, t)
  | (g, queue_id) :: _ =>
      if now <=? g then Ok (deleted, true, t)
      else
        match fuel with
        | O => Panic "fuel"
        | Datatypes.S fuel =>
            let q := get_queue queue_id t in
            CHECK! gc_at q =? g else "q.gc_at == it->first" in
            let* (r, cb) := gc_events late queue_id (tail_id q) now {| gl_counter := counter; gl_tick := tick; gl_new_gc_at := 0 |}
                              (events q) (total_event_length q) (callback_ t) in
            let '(gl, evs, total) := r in
            let q' := with_events evs total q in
            CHECK! queue_size q' <=? queue_size q else "size_after <= size_before" in
            let deleted := deleted + (queue_size q - queue_size q') in
            let* (q', gcs) := schedule_queue_gc queue_id q' (gl_new_gc_at gl) (queue_gc_at_ t) in
            let t := {| queues_ := <[queue_id := q']> (queues_ t); queue_gc_at_ := gcs; callback_ := cb |} in
            if late (gl_tick gl) then Ok (deleted, false, t)
            else run_gc_loop fuel late now deleted (gl_counter gl) (Datatypes.S (gl_tick gl)) t
        end
  end.

(** Each round leaves one queue fewer to collect. *)
Definition run_gc (late : nat -> bool) (now : Z) (t : TQueueImpl) : Res (Z * bool * TQueueImpl) :=
  run_gc_loop (length (queue_gc_at_ t)) late now 0 0 0 t.
End with_storage.

(** ** TQueueMemoryStorage: its events in the order of their log ids. *)
Record TQueueMemoryStorage := { next_log_event_id_ : Z; ms_events_ : gmap Z (Z * RawEvent) }.

Definition ms_push (queue_id : Z) (e : RawEvent) (st : TQueueMemoryStorage) : Z * TQueueMemoryStorage :=
  let '(id, next) := if log_event_id e =? 0 then (next_log_event_id_ st, u64 (next_log_event_id_ st + 1))
                     else (log_event_id e, next_log_event_id_ st) in
  (id, {| next_log_event_id_ := next; ms_events_ := <[id := (queue_id, e)]> (ms_events_ st) |}).

Definition ms_pop (id : Z) (st : TQueueMemoryStorage) : TQueueMemoryStorage :=
  {| next_log_event_id_ := next_log_event_id_ st; ms_events_ := delete id (ms_events_ st) |}.

#[export] Instance memory_storage : StorageCallback TQueueMemoryStorage := {
  cb_push := ms_push;
  cb_pop := ms_pop;
  cb_pop_batch := default_pop_batch ms_pop;
}.

(** The entries of a [std::map] in the order of its keys. *)
Definition key_le {A} (a b : Z * A) : Prop := a.1 <= b.1.
#[global] Instance key_le_dec {A} : RelDecision (@key_le A).
Proof. intros a b. apply Z_le_dec. Defined.
Definition map_entries {A} (m : gmap Z A) : list (Z * A) := merge_sort key_le (map_to_list m).

(** [replay]: the events are pushed in the order of their log ids. *)
Fixpoint replay_list {S} `{StorageCallback S} (l : list (Z * (Z * RawEvent))) (t : @TQueueImpl S) : Res (@TQueueImpl S) :=
  match l with
  | [] => Ok t
  | (id, (queue_id, e)) :: l =>
      let* (is_added, t) := do_push queue_id (set_log_event_id id e) t in
      CHECK! is_added else "is_added" in
      replay_list l t
  end.

Definition ms_replay {S} `{StorageCallback S} (st : TQueueMemoryStorage) (t : @TQueueImpl S) : Res (@TQueueImpl S) :=
  replay_list (map_entries (ms_events_ st)) t.

(** * Proofs *)

Lemma next_ok id : 0 <= id -> id + 1 < MAX_ID -> next id = Ok (id + 1).
Proof.
  unfold next, from_int32, is_valid_id, MAX_ID. intros H1 H2.
  rewrite s32_small by (unfold is_s32; eval_pows; lia). by repeat decide_if.
Qed.

Lemma next_is_ok id : 0 <= id < MAX_ID -> is_ok (next id) = (id + 1 <? MAX_ID).
Proof.
  unfold next, from_int32, is_valid_id, MAX_ID. intros H1.
  rewrite s32_small by (unfold is_s32; eval_pows; lia). rewrite (proj2 (Z.leb_le 0 (id + 1))) by lia.
  simpl. by case_if.
Qed.

(** ** The invariant of a queue *)
Definition ids (evs : list RawEvent) : list Z := map event_id evs.
Definition total (evs : list RawEvent) : Z := foldr (fun e a => data_size e + a) 0 evs.
Definition live (e : RawEvent) : bool := negb (data_empty e).

(** Only the last event may be empty. *)
Fixpoint last_may_empty (evs : list RawEvent) : bool :=
  match evs with
  | [] => true
  | [_] => true
  | e :: evs => live e && last_may_empty evs
  end.

Record wf_event (t : Z) (e : RawEvent) : Prop := {
  we_id : 0 < event_id e < t;
  we_expires : 0 < expires_at e;
  we_size : data_size e <= MAX_EVENT_LENGTH;
}.

Record wf_events (t : Z) (evs : list RawEvent) : Prop := {
  we_sorted : StronglySorted Z.lt (ids evs);
  we_events : Forall (wf_event t) evs;
  we_last : last_may_empty evs = true;
}.

Record wf_queue (q : Queue) : Prop := {
  wq_tail : 0 <= tail_id q < MAX_ID;
  wq_events : wf_events (tail_id q) (events q);
  wq_total : total_event_length q = total (events q);
  wq_length : Z.of_nat (length (events q)) <= MAX_QUEUE_EVENTS;
  wq_max_total : total (events q) <= MAX_TOTAL_EVENT_LENGTH;
  wq_gc : Exists (fun e => live e = true) (events q) -> gc_at q <> 0;
}.

Lemma Forall_ids (P : Z -> Prop) evs : Forall P (ids evs) <-> Forall (fun e => P (event_id e)) evs.
Proof. apply Forall_map. Qed.
Lemma data_size_nonneg e : 0 <= data_size e.
Proof. unfold data_size. lia. Qed.
Lemma data_empty_size e : data_empty e = (data_size e =? 0).
Proof. unfold data_empty, data_size. destruct (length (data e)); [done|]. symmetry. apply Z.eqb_neq. lia. Qed.
Lemma total_nonneg evs : 0 <= total evs.
Proof. induction evs as [|e evs IH]; simpl; [lia|]. pose proof (data_size_nonneg e). lia. Qed.
Lemma total_app a b : total (a ++ b) = total a + total b.
Proof. induction a as [|e a IH]; simpl; lia. Qed.
Lemma sum_sizes_total evs : sum_sizes evs = total evs.
Proof.
  unfold sum_sizes. rewrite <- (Z.add_0_l (total evs)). generalize 0 as a.
  induction evs as [|e evs IH]; intros a; simpl; [lia|]. rewrite IH. lia.
Qed.

(** The size of a queue is the number of its events that have data. *)
Lemma last_may_empty_count evs : last_may_empty evs = true ->
  match last evs with
  | None => 0
  | Some e => Z.of_nat (length evs) - (if data_empty e then 1 else 0)
  end = Z.of_nat (length (filter (fun e => live e = true) evs)).
Proof.
  induction evs as [|e [|e' evs] IH]; [done| |]; intros Hl.
  - simpl. rewrite filter_cons. unfold live. destruct (data_empty e); simpl; lia.
  - simpl in Hl. apply andb_prop in Hl as [He Hl]. specialize (IH Hl).
    rewrite filter_cons. rewrite He. simpl decide. rewrite decide_True by done.
    change (last (e :: e' :: evs)) with (last (e' :: evs)).
    destruct (last (e' :: evs)) eqn:E; [|by apply last_None in E]. simpl length in *. lia.
Qed.

Lemma queue_size_live q : wf_queue q ->
  queue_size q = Z.of_nat (length (filter (fun e => live e = true) (events q))).
Proof. intros Hq. apply last_may_empty_count, Hq. Qed.

Section pops.
Context {S : Type} `{StorageCallback S}.

(** What a loop that pops some events of a list does, whichever it pops. *)
Inductive popped (queue_id t : Z) : list RawEvent -> Z -> option S -> list RawEvent -> Z -> option S -> Prop :=
| popped_nil n cb : popped queue_id t [] n cb [] n cb
| popped_keep e evs n cb evs' n' cb' :
    popped queue_id t evs n cb evs' n' cb' -> popped queue_id t (e :: evs) n cb (e :: evs') n' cb'
| popped_pop e evs n cb r n1 cb1 evs' n' cb' :
    pop queue_id t e n cb = Ok (r, n1, cb1) ->
    popped queue_id t evs n1 cb1 evs' n' cb' -> popped queue_id t (e :: evs) n cb (keep r evs') n' cb'.

Lemma popped_refl queue_id t evs n cb : popped queue_id t evs n cb evs n cb.
Proof. induction evs; by constructor. Qed.

(** A pop removes the event, keeps it as it is, or empties it. *)
Lemma pop_cases queue_id t e n cb :
  0 <= event_id e -> event_id e + 1 < MAX_ID ->
  (exists cb', pop queue_id t e n cb = Ok (None, n - data_size e, cb') /\
     ((cb' = cb /\ (cb = None \/ log_event_id e = 0)) \/ exists c, cb = Some c /\ log_event_id e <> 0 /\ event_id e + 1 <> t /\ cb' = Some (cb_pop (log_event_id e) c))) \/
  (exists c, cb = Some c /\ log_event_id e <> 0 /\ event_id e + 1 = t /\
     ((data_empty e = true /\ pop queue_id t e n cb = Ok (Some e, n, cb)) \/
      (data_empty e = false /\
       pop queue_id t e n cb = Ok (Some (clear_data e), n - data_size e, Some (snd (cb_push queue_id (clear_data e) c)))))).
Proof.
  intros H1 H2. unfold pop. destruct cb as [c|]; [|left; eauto 6].
  destruct (log_event_id e =? 0) eqn:El; zbool; [left; eauto 6|]. rewrite next_ok by lia.
  destruct (event_id e + 1 =? t) eqn:Et; zbool.
  - right. exists c. split_and!; auto. destruct (data_empty e) eqn:Ed; auto.
  - left. eexists. split; [done|]. right. eauto 6.
Qed.

Definition poppable (evs : list RawEvent) : Prop := Forall (fun e => 0 <= event_id e /\ event_id e + 1 < MAX_ID) evs.

Lemma wf_poppable t evs : t < MAX_ID -> Forall (wf_event t) evs -> poppable evs.
Proof. intros Ht He. eapply Forall_impl; [exact He|]. intros e [Hid _ _]. lia. Qed.

Lemma pop_total queue_id t e n cb :
  0 <= event_id e /\ event_id e + 1 < MAX_ID -> exists r n1 cb1, pop queue_id t e n cb = Ok (r, n1, cb1).
Proof. intros [H1 H2]. destruct (pop_cases queue_id t e n cb H1 H2) as [(?&->&_)|(c&->&_&_&[[_ ->]|[_ ->]])]; eauto. Qed.

(** Each loop of the code is such a sequence of pops. *)
Ltac pop_step :=
  match goal with
  | He : 0 <= event_id ?e /\ _ |- context [pop ?q ?t ?e ?n ?cb] =>
      let r := fresh "r" in let n1 := fresh "n" in let cb1 := fresh "cb" in let E := fresh "Ep" in
      destruct (pop_total q t e n cb He) as (r & n1 & cb1 & E); rewrite E; simpl
  end.

Lemma pop_all_spec queue_id evs n cb : poppable evs ->
  exists n' cb', pop_all queue_id 0 evs n cb = Ok ([], n', cb') /\ popped queue_id 0 evs n cb [] n' cb'.
Proof.
  intros He. revert n cb. induction He as [|e evs He Hevs IH]; intros n cb; simpl; [repeat econstructor|].
  destruct He as [He1 He2]. destruct (pop_cases queue_id 0 e n cb He1 He2) as [(cb1&E&_)|(c&_&_&?&_)]; [|lia].
  rewrite E. simpl. destruct (IH (n - data_size e) cb1) as (?&?&->&?). simpl. do 2 eexists. split; [done|].
  by eapply (popped_pop _ _ _ _ _ _ None).
Qed.

Lemma pop_id_spec queue_id t id evs n cb : poppable evs ->
  exists evs' n' cb', pop_id queue_id t id evs n cb = Ok (evs', n', cb') /\ popped queue_id t evs n cb evs' n' cb'.
Proof.
  intros He. revert n cb. induction He as [|e evs He Hevs IH]; intros n cb; simpl; [repeat econstructor|].
  case_if.
  - pop_step. do 3 eexists. split; [done|]. econstructor; eauto using popped_refl.
  - destruct (IH n cb) as (?&?&?&->&?). simpl. repeat econstructor; eauto.
Qed.

Lemma gc_events_spec late queue_id t now evs g n cb : poppable evs ->
  exists g' evs' n' cb', gc_events late queue_id t now g evs n cb = Ok (g', evs', n', cb') /\
    popped queue_id t evs n cb evs' n' cb'.
Proof.
  intros He. revert g n cb. induction He as [|e evs He Hevs IH]; intros g n cb; simpl; [repeat econstructor|].
  case_if; [repeat econstructor; apply popped_refl|]. case_if.
  - pop_step. edestruct IH as (?&?&?&?&->&?). simpl. repeat econstructor; eauto.
  - case_if; [repeat econstructor; apply popped_refl|].
    edestruct IH as (?&?&?&?&->&?). simpl. repeat econstructor; eauto.
Qed.

Lemma popped_app queue_id t a b n cb b' n' cb' :
  popped queue_id t b n cb b' n' cb' -> popped queue_id t (a ++ b) n cb (a ++ b') n' cb'.
Proof. intros Hp. induction a; simpl; [done|by constructor]. Qed.

Lemma split_lower_spec from evs : StronglySorted Z.lt (ids evs) ->
  exists a b, split_lower from evs = (a, b) /\ evs = a ++ b /\
    Forall (fun e => event_id e < from) a /\ Forall (fun e => from <= event_id e) b.
Proof.
  induction evs as [|e evs IH]; intros Hs; simpl.
  { exists [], []. split_and!; constructor. }
  inversion Hs as [|? ? Hs' Hlt]; subst. case_if.
  - destruct (IH Hs') as (a&b&->&->&Ha&Hb). exists (e :: a), b. split_and!; auto.
  - exists [], (e :: evs). split_and!; auto. constructor; [lia|].
    apply Forall_ids in Hlt. eapply Forall_impl; [exact Hlt|]. simpl. intros x Hx. lia.
Qed.

(** What [get] shows of the events. *)
Definition visible (from now : Z) (e : RawEvent) : bool :=
  negb (event_id e <? from) && negb (expires_at e <? now) && live e.

Lemma forget_before_spec queue_id t from evs n cb : poppable evs ->
  exists evs' n' cb', forget_before queue_id t from evs n cb = Ok (evs', n', cb') /\
    popped queue_id t evs n cb evs' n' cb' /\
    forall now, filter (fun e => visible from now e = true) evs' = filter (fun e => visible from now e = true) evs.
Proof.
  intros He. revert n cb. induction He as [|e evs He Hevs IH]; intros n cb; simpl; [repeat econstructor|].
  case_if; [|do 3 eexists; split_and!; [done|apply popped_refl|done]].
  assert (forall now x, event_id x = event_id e -> ~ visible from now x = true) as Hv.
  { intros now x Hx. unfold visible. rewrite Hx. by decide_if. }
  destruct (pop_cases queue_id t e n cb (proj1 He) (proj2 He)) as [(cb1&E1&_)|(c&_&_&_&[[_ E1]|[_ E1]])]; rewrite E1; simpl.
  all: edestruct IH as (?&?&?&->&?&Hf); simpl; do 3 eexists; split_and!; [done| |].
  all: first [by eapply (popped_pop _ _ _ _ _ _ None) | by eapply (popped_pop _ _ _ _ _ _ (Some _)) | idtac].
  all: intros now; rewrite ?filter_cons_False; auto.
Qed.

Lemma collect_spec queue_id t from now m evs n cb : poppable evs -> Forall (fun e => from <= event_id e) evs ->
  exists evs' n' cb',
    collect queue_id t from now m evs n cb =
      Ok (take m (map to_event (filter (fun e => visible from now e = true) evs)), evs', n', cb') /\
    popped queue_id t evs n cb evs' n' cb'.
Proof.
  intros He. revert m n cb. induction He as [|e evs He Hevs IH]; intros m n cb Hf; simpl.
  { do 3 eexists. rewrite take_nil. split; [done|constructor]. }
  apply Forall_cons_inv in Hf as [Hf1 Hf].
  assert (visible from now e = negb ((expires_at e <? now) || data_empty e)) as Hv.
  { unfold visible, live. rewrite (proj2 (Z.ltb_ge (event_id e) from)) by lia.
    by destruct (expires_at e <? now), (data_empty e). }
  destruct ((expires_at e <? now) || data_empty e).
  - rewrite filter_cons_False by (rewrite Hv; done).
    pop_step. destruct (IH m n0 cb0 Hf) as (?&?&?&->&?). simpl. repeat econstructor; eauto.
  - rewrite filter_cons_True by (by rewrite Hv). rewrite (proj2 (Z.ltb_ge (event_id e) from)) by lia. simpl.
    destruct m as [|m]; [repeat econstructor; apply popped_refl|].
    destruct (IH m n cb Hf) as (?&?&?&->&?). simpl. repeat econstructor; eauto.
Qed.

Lemma last_may_empty_cons e evs :
  last_may_empty (e :: evs) = true <-> (evs = [] \/ live e = true) /\ last_may_empty evs = true.
Proof. destruct evs; simpl; [tauto|]. rewrite andb_true_iff. intuition congruence. Qed.

(** The events that are left: a part of the list, the last one perhaps without
    its data. *)
Inductive shrunk : list RawEvent -> list RawEvent -> Prop :=
| shrunk_nil : shrunk [] []
| shrunk_keep e evs evs' : shrunk evs evs' -> shrunk (e :: evs) (e :: evs')
| shrunk_remove e evs evs' : shrunk evs evs' -> shrunk (e :: evs) evs'
| shrunk_empty e : shrunk [e] [clear_data e].

Lemma shrunk_refl evs : shrunk evs evs.
Proof. induction evs; by constructor. Qed.

Lemma popped_shrunk b queue_id t evs n cb evs' n' cb' :
  b < MAX_ID -> t = b \/ t = 0 -> StronglySorted Z.lt (ids evs) -> Forall (wf_event b) evs ->
  popped queue_id t evs n cb evs' n' cb' -> shrunk evs evs' /\ n' = n - (total evs - total evs').
Proof.
  intros Hb Ht Hs Hw Hp. induction Hp as [|e evs n cb evs' n' cb' Hp IH|e evs n cb r n1 cb1 evs' n' cb' Hpop Hp IH].
  - split; [constructor|lia].
  - inversion Hs; inv_Forall. destruct IH as [IH ->]; auto. split; [by constructor|]. simpl. lia.
  - inversion Hs as [|? ? Hs' Hlt]; subst. inv_Forall. destruct IH as [IH ->]; auto. destruct H0 as [Hid _ _].
    destruct (pop_cases queue_id t e n cb ltac:(lia) ltac:(lia))
      as [(?&E&_)|(c&->&_&Het&[[Hd E]|[Hd E]])]; rewrite E in Hpop; simplify_eq; simpl.
    + split; [by constructor|]. lia.
    + split; [by constructor|]. lia.
    + assert (evs = []) as ->.
      { destruct evs as [|x evs]; [done|]. simpl in *. inv_Forall. destruct H1. lia. }
      inversion IH; subst. split; [apply shrunk_empty|]. unfold total, data_size; simpl. lia.
Qed.

Lemma shrunk_ids evs evs' : shrunk evs evs' -> ids evs' `sublist_of` ids evs.
Proof. induction 1; simpl; try by constructor. Qed.
Lemma shrunk_nil_inv evs : shrunk [] evs -> evs = [].
Proof. by inversion 1. Qed.

Lemma shrunk_wf t evs evs' : shrunk evs evs' -> wf_events t evs -> wf_events t evs'.
Proof.
  intros Hs [H1 H2 H3]. split.
  - eapply StronglySorted_sublist; [by apply shrunk_ids|done].
  - clear H1 H3. induction Hs; inv_Forall; auto. destruct H0 as [? ? ?]. constructor; [|constructor]. split; auto.
    unfold data_size. simpl. unfold MAX_EVENT_LENGTH. lia.
  - clear H1 H2. induction Hs as [|e evs evs' Hs IH|e evs evs' Hs IH|e]; auto.
    + rewrite last_may_empty_cons in *. destruct H3 as [[->|H3] H3']; [|by auto].
      apply shrunk_nil_inv in Hs as ->. auto.
    + apply last_may_empty_cons in H3 as [_ H3]. auto.
Qed.

Lemma shrunk_total evs evs' : shrunk evs evs' -> total evs' <= total evs.
Proof. induction 1; simpl; unfold data_size in *; simpl; lia. Qed.
Lemma shrunk_length evs evs' : shrunk evs evs' -> (length evs' <= length evs)%nat.
Proof. induction 1; simpl; lia. Qed.
Lemma shrunk_live evs evs' : shrunk evs evs' ->
  (length (filter (fun e => live e = true) evs') <= length (filter (fun e => live e = true) evs))%nat.
Proof.
  induction 1; rewrite ?filter_cons; repeat case_decide; rewrite ?filter_nil; simpl; try lia. done.
Qed.
Lemma shrunk_exists evs evs' : shrunk evs evs' ->
  Exists (fun e => live e = true) evs' -> Exists (fun e => live e = true) evs.
Proof.
  induction 1; intros He; auto.
  - inversion He; auto using Exists_cons_hd, Exists_cons_tl.
  - inversion He; subst; [done|]. by apply Exists_nil in H1.
Qed.

Lemma shrunk_wf_queue q evs' : wf_queue q -> shrunk (events q) evs' ->
  wf_queue (with_events evs' (total evs') q).
Proof.
  intros [H1 H2 H3 H4 H5 H6] Hs. split; simpl; auto.
  - by eapply shrunk_wf.
  - apply shrunk_length in Hs. lia.
  - apply shrunk_total in Hs. lia.
  - intros He. eapply H6, shrunk_exists; eauto.
Qed.
End pops.

(** ** The set of scheduled collections *)
Definition gc_lt (a b : Z * Z) : Prop := a.1 < b.1 \/ (a.1 = b.1 /\ a.2 < b.2).
Definition gc_sorted (l : list (Z * Z)) : Prop := StronglySorted gc_lt l.

Lemma gc_ltb_spec a b : gc_ltb a b = true <-> gc_lt a b.
Proof. unfold gc_ltb, gc_lt. rewrite orb_true_iff, andb_true_iff, !Z.ltb_lt, Z.eqb_eq. tauto. Qed.
Lemma gc_lt_trans a b c : gc_lt a b -> gc_lt b c -> gc_lt a c.
Proof. unfold gc_lt. lia. Qed.
Lemma gc_lt_irrefl a : ~ gc_lt a a.
Proof. unfold gc_lt. lia. Qed.
Lemma gc_lt_total a b : gc_ltb a b = false -> a <> b -> gc_lt b a.
Proof.
  intros Hl Hn. unfold gc_lt. apply not_true_iff_false in Hl. rewrite gc_ltb_spec in Hl. unfold gc_lt in Hl.
  assert (~ (a.1 = b.1 /\ a.2 = b.2)) by (intros [? ?]; apply Hn; destruct a, b; simpl in *; congruence). lia.
Qed.

Lemma gc_emplace_spec x l : gc_sorted l -> x ∉ l ->
  exists l', gc_emplace x l = Some l' /\ gc_sorted l' /\ forall y, y ∈ l' <-> y = x \/ y ∈ l.
Proof.
  induction l as [|y l IH]; intros Hs Hx; simpl.
  { exists [x]. split_and!; [done|repeat constructor|set_solver]. }
  inversion Hs as [|? ? Hs' Hlt]; subst. destruct (gc_ltb x y) eqn:E.
  - exists (x :: y :: l). split_and!; [done| |set_solver]. apply gc_ltb_spec in E.
    constructor; [done|]. constructor; [done|]. eapply Forall_impl; [exact Hlt|]. eauto using gc_lt_trans.
  - rewrite bool_decide_false by set_solver. destruct IH as (l'&->&Hl'&Hin); [done|set_solver|].
    exists (y :: l'). split_and!; [done| |set_solver]. constructor; [done|].
    rewrite Forall_forall in *. intros z [->|Hz]%Hin; [|by auto]. apply gc_lt_total; [done|set_solver].
Qed.

Lemma gc_erase_spec x l : gc_sorted l -> x ∈ l ->
  exists l', gc_erase x l = Some l' /\ gc_sorted l' /\ forall y, y ∈ l' <-> y <> x /\ y ∈ l.
Proof.
  induction l as [|y l IH]; intros Hs Hx; simpl; [set_solver|].
  inversion Hs as [|? ? Hs' Hlt]; subst. rewrite Forall_forall in Hlt. case_bool_decide as E; subst.
  - exists l. split_and!; [done..|]. intros z. split; [|set_solver]. intros Hz. split; [|set_solver].
    intros ->. by apply (gc_lt_irrefl y), Hlt.
  - destruct IH as (l'&->&Hl'&Hin); [done|set_solver|]. exists (y :: l'). split_and!; [done| |].
    + constructor; [done|]. apply Forall_forall. intros z [_ Hz]%Hin. auto.
    + intros z. rewrite !elem_of_cons, Hin. split; [|set_solver]. intros [->|[? ?]]; auto.
Qed.

(** The entry of one queue is replaced. *)
Lemma schedule_queue_gc_spec queue_id q g gcs : gc_sorted gcs ->
  (forall g', (g', queue_id) ∈ gcs <-> gc_at q = g' /\ g' <> 0) ->
  exists gcs', schedule_queue_gc queue_id q g gcs = Ok (with_gc_at g q, gcs') /\ gc_sorted gcs' /\
    forall g' id, (g', id) ∈ gcs' <-> (id = queue_id /\ g' = g /\ g <> 0) \/ (id <> queue_id /\ (g', id) ∈ gcs).
Proof.
  intros Hs Hiff. unfold schedule_queue_gc.
  assert (exists gcs1, (if negb (gc_at q =? 0)
      then match gc_erase (gc_at q, queue_id) gcs with Some gcs => Ok gcs | None => Panic "is_deleted" end
      else Ok gcs) = Ok gcs1 /\ gc_sorted gcs1 /\
      forall g' id, (g', id) ∈ gcs1 <-> id <> queue_id /\ (g', id) ∈ gcs) as (gcs1&->&Hs1&Hin1).
  { destruct (gc_at q =? 0) eqn:E; zbool; simpl.
    - exists gcs. split_and!; [done..|]. intros g' id. split; [|tauto]. intros Hin. split; [|done].
      intros ->. apply Hiff in Hin. intuition congruence.
    - destruct (gc_erase_spec (gc_at q, queue_id) gcs Hs) as (l&->&Hl&Hin); [by apply Hiff|].
      exists l. split_and!; [done..|]. intros g' id. rewrite Hin. split; [|naive_solver].
      intros [Hn Hi]. split; [|done]. intros ->. pose proof Hi as Hi2. apply Hiff in Hi2 as [? _]. congruence. }
  simpl. destruct (g =? 0) eqn:E; zbool; simpl.
  - exists gcs1. split_and!; [done..|]. intros. rewrite Hin1. tauto.
  - destruct (gc_emplace_spec (g, queue_id) gcs1 Hs1) as (l&->&Hl&Hin); [rewrite Hin1; tauto|].
    exists l. split_and!; [done..|]. intros. rewrite Hin, Hin1. split; [|naive_solver].
    intros [[= -> ->]|?]; auto.
Qed.

(** ** The laws of a storage: what it holds, by log id, and how many new events it has
    room for. *)

(** The arguments of a new event have the types of the source. *)
Definition typed (queue_id : Z) (dat : list Z) (expires ext : Z) : Prop :=
  is_s64 queue_id /\ bytes dat /\ is_s32 expires /\ is_s64 ext.
Definition event_typed (queue_id : Z) (e : RawEvent) : Prop :=
  typed queue_id (data e) (expires_at e) (extra e) /\ 0 < event_id e < MAX_ID /\ data_size e <= MAX_EVENT_LENGTH.

Class StorageLaws (S : Type) `{StorageCallback S} := {
  storage_ok : S -> Prop;
  contents : S -> gmap Z (Z * RawEvent);
  last_log_id : S -> Z;
  room : S -> Z;
  contents_bound c id x : storage_ok c -> contents c !! id = Some x -> 0 < id <= last_log_id c;
  last_log_id_nonneg c : storage_ok c -> 0 <= last_log_id c;
  (** A new event is stored under a new, larger id. *)
  push_new c queue_id e id c' : storage_ok c -> event_typed queue_id e -> log_event_id e = 0 -> 0 < room c ->
    cb_push queue_id e c = (id, c') ->
    storage_ok c' /\ last_log_id c < id <= last_log_id c' /\ room c - 1 <= room c' /\
    contents c' = <[id := (queue_id, set_log_event_id id e)]> (contents c);
  (** An event that has an id is rewritten when its data are deleted. *)
  push_old c queue_id e id c' : storage_ok c -> contents c !! log_event_id e = Some (queue_id, e) -> data_empty e = false ->
    cb_push queue_id (clear_data e) c = (id, c') ->
    storage_ok c' /\ last_log_id c <= last_log_id c' /\ room c <= room c' /\
    contents c' = <[log_event_id e := (queue_id, clear_data e)]> (contents c);
  pop_law c id : storage_ok c -> is_Some (contents c !! id) ->
    storage_ok (cb_pop id c) /\ last_log_id c <= last_log_id (cb_pop id c) /\ room c <= room (cb_pop id c) /\
    contents (cb_pop id c) = delete id (contents c);
  pop_batch_law c l : storage_ok c -> NoDup l -> Forall (fun id => is_Some (contents c !! id)) l ->
    let c' := cb_pop_batch l c in
    storage_ok c' /\ last_log_id c <= last_log_id c' /\ room c <= room c' /\
    forall id, contents c' !! id = if bool_decide (id ∈ l) then None else contents c !! id;
}.

Section stored.
Context {S : Type} `{StorageLaws S}.

Definition logs (evs : list RawEvent) : list Z := map log_event_id evs.

Lemma elem_of_logs id evs : id ∈ logs evs <-> exists e, e ∈ evs /\ log_event_id e = id.
Proof. unfold logs. rewrite list_elem_of_fmap. naive_solver. Qed.

Lemma elem_of_logs_app id a b : id ∈ logs (a ++ b) <-> id ∈ logs a \/ id ∈ logs b.
Proof. unfold logs. rewrite map_app. set_solver. Qed.

Lemma shrunk_logs evs evs' : shrunk evs evs' -> logs evs' `sublist_of` logs evs.
Proof. induction 1; simpl; by constructor. Qed.

(** The storage holds the given events of the queue. *)
Definition holds (queue_id : Z) (evs : list RawEvent) (c : S) : Prop :=
  Forall (fun e => contents c !! log_event_id e = Some (queue_id, e)) evs.

(** The storage follows a change of the events of one queue. *)
Record upd (queue_id : Z) (evs : list RawEvent) (c : S) (evs' : list RawEvent) (c' : S) : Prop := {
  upd_ok : storage_ok c';
  upd_last : last_log_id c <= last_log_id c';
  upd_other id : id ∉ logs evs -> id ∉ logs evs' -> contents c' !! id = contents c !! id;
  upd_new : holds queue_id evs' c';
  upd_gone id : id ∈ logs evs -> id ∉ logs evs' -> contents c' !! id = None;
  upd_fresh id : id ∈ logs evs' -> id ∈ logs evs \/ contents c !! id = None;
}.

Lemma upd_refl queue_id evs c : storage_ok c -> holds queue_id evs c -> upd queue_id evs c evs c.
Proof. split; auto; [lia|done]. Qed.

Lemma upd_trans queue_id a c b c1 d c2 :
  upd queue_id a c b c1 -> upd queue_id b c1 d c2 -> upd queue_id a c d c2.
Proof.
  intros [H1 L1 O1 N1 G1 F1] [H2 L2 O2 N2 G2 F2]. split; auto; [lia|..].
  - intros id Ha Hd. destruct (decide (id ∈ logs b)) as [Hb|Hb].
    + rewrite G2 by done. destruct (F1 id Hb) as [?| ->]; done.
    + rewrite O2, O1 by done. done.
  - intros id Ha Hd. destruct (decide (id ∈ logs b)) as [Hb|Hb]; [by apply G2|]. rewrite O2 by done. by apply G1.
  - intros id Hd. destruct (F2 id Hd) as [Hb|Hn]; [by apply F1|].
    destruct (decide (id ∈ logs a)) as [|Ha]; [by left|]. right.
    destruct (decide (id ∈ logs b)) as [Hb|Hb]; [destruct (F1 id Hb); done|]. by rewrite <- O1.
Qed.

(** The rest of the queue does not change. *)
Lemma upd_frame queue_id a b c a' c' :
  upd queue_id a c a' c' -> holds queue_id b c ->
  (forall id, id ∈ logs b -> id ∉ logs a) -> (forall id, id ∈ logs b -> id ∉ logs a') ->
  upd queue_id (a ++ b) c (a' ++ b) c' /\ upd queue_id (b ++ a) c (b ++ a') c'.
Proof.
  intros [H1 L1 O1 N1 G1 F1] Hb Hdis Hfr.
  assert (holds queue_id b c') as Hb'.
  { unfold holds in *. rewrite Forall_forall in *. intros e He. rewrite O1; [by apply Hb|..].
    - apply Hdis, elem_of_logs. eauto.
    - apply Hfr, elem_of_logs. eauto. }
  split; split; auto.
  all: try (apply Forall_app; auto; fail).
  all: intros id; rewrite ?elem_of_logs_app; naive_solver.
Qed.

Lemma upd_remove queue_id e c : storage_ok c -> holds queue_id [e] c ->
  upd queue_id [e] c [] (cb_pop (log_event_id e) c) /\ room c <= room (cb_pop (log_event_id e) c).
Proof.
  intros Hc He. apply Forall_cons_inv in He as [He _].
  destruct (pop_law c (log_event_id e)) as (Hok&Hl&Hr&Hcon); [done|by eexists|].
  split; [|done]. split; auto; try (by constructor); simpl.
  - intros id Hi _. rewrite Hcon. apply lookup_delete_ne. set_solver.
  - intros id Hi _. rewrite Hcon. assert (id = log_event_id e) as -> by set_solver. apply lookup_delete_eq.
  - intros id Hi. set_solver.
Qed.

Lemma upd_rewrite queue_id e c : storage_ok c -> holds queue_id [e] c -> data_empty e = false ->
  let c' := snd (cb_push queue_id (clear_data e) c) in
  upd queue_id [e] c [clear_data e] c' /\ room c <= room c'.
Proof.
  intros Hc He Hd. apply Forall_cons_inv in He as [He _].
  destruct (cb_push queue_id (clear_data e) c) as [id c'] eqn:E.
  destruct (push_old c queue_id e id c') as (Hok&Hl&Hr&Hcon); [done..|].
  simpl. split; [|done]. simpl in Hcon. split; auto; rewrite ?Hcon; simpl.
  - intros i Hi _. rewrite lookup_insert_ne; [done|set_solver].
  - constructor; [|constructor]. rewrite Hcon. apply lookup_insert_eq.
  - intros i Hi Hn. set_solver.
Qed.

(** Pops, with a storage that holds the events. *)
Lemma popped_upd b queue_id t evs n c evs' n' cb' :
  b < MAX_ID -> t = b \/ t = 0 -> Forall (wf_event b) evs -> StronglySorted Z.lt (ids evs) ->
  storage_ok c -> holds queue_id evs c -> NoDup (logs evs) ->
  popped queue_id t evs n (Some c) evs' n' cb' ->
  exists c', cb' = Some c' /\ upd queue_id evs c evs' c' /\ room c <= room c'.
Proof.
  intros Hb Ht Hw Hs Hok Hh Hnd Hp. remember (Some c) as cb eqn:Ecb. revert c Ecb Hok Hh Hnd.
  induction Hp as [n cb|e evs n cb evs' n' cb' Hp IH|e evs n cb r n1 cb1 evs' n' cb' Hpop Hp IH]; intros c -> Hok Hh Hnd.
  { exists c. split_and!; auto using upd_refl. lia. }
  all: apply Forall_cons_inv in Hh as [He Hh]; apply NoDup_cons in Hnd as [Hn Hnd].
  all: apply Forall_cons_inv in Hw as [Hwe Hw]; inversion Hs as [|? ? Hs' Hlt]; subst.
  all: pose proof (popped_shrunk _ _ _ _ _ _ _ _ _ Hb Ht Hs' Hw Hp) as [Hsh _].
  all: assert (forall i, i ∈ [log_event_id e] -> i ∉ logs evs) as Hd1 by (intros i ->%list_elem_of_singleton; done).
  all: assert (forall i, i ∈ [log_event_id e] -> i ∉ logs evs') as Hd2
    by (intros i Hi Hi'; apply (Hd1 i Hi); eauto using elem_of_submseteq, sublist_submseteq, shrunk_logs).
  - destruct (IH Hw Hs' c eq_refl Hok Hh Hnd) as (c'&->&Hu&Hr). exists c'. split_and!; auto.
    change (e :: evs) with ([e] ++ evs). change (e :: evs') with ([e] ++ evs'). apply upd_frame; auto.
    by constructor.
  - assert (exists c1, cb1 = Some c1 /\ upd queue_id [e] c (keep r []) c1 /\ room c <= room c1 /\
      (forall i, i ∈ logs (keep r []) -> i = log_event_id e)) as (c1&->&Hu1&Hr1&Hk).
    { assert (holds queue_id [e] c) as He' by (by constructor).
      assert (log_event_id e <> 0) as Hl0 by (apply contents_bound in He; [lia|done]).
      destruct Hwe as [Hid _ _].
      destruct (pop_cases queue_id t e n (Some c) ltac:(lia) ltac:(lia)) as [(cb2&E&[[-> [?|?]]|(c2&[= <-]&_&_&->)])|(c2&[= <-]&_&_&[[_ E]|[Hde E]])];
        rewrite E in Hpop.
      - done.
      - done.
      - simplify_eq. destruct (upd_remove queue_id e c Hok He'). eexists. split_and!; [done..|]. simpl. set_solver.
      - simplify_eq. exists c. split_and!; auto using upd_refl; [lia|]. simpl. set_solver.
      - simplify_eq. destruct (upd_rewrite queue_id e c Hok He'); [done|]. eexists. split_and!; [done..|]. simpl. set_solver. }
    assert (forall i, i ∈ logs evs -> i ∉ logs (keep r [])) as Hd3 by (intros i Hi ->%Hk; done).
    assert (keep r evs' = keep r [] ++ evs') as -> by (by destruct r).
    assert (upd queue_id ([e] ++ evs) c (keep r [] ++ evs) c1) as Hua.
    { apply upd_frame; auto. intros i Hi ->%list_elem_of_singleton. done. }
    pose proof (upd_new _ _ _ _ _ Hua) as Hnew. apply Forall_app in Hnew as [Hnew1 Hnew2].
    destruct (IH Hw Hs' c1 eq_refl (upd_ok _ _ _ _ _ Hua) Hnew2 Hnd) as (c'&->&Hu&Hr).
    exists c'. split_and!; [done| |lia]. eapply upd_trans; [exact Hua|]. apply upd_frame; auto.
    + intros i ->%Hk. done.
    + intros i ->%Hk. apply Hd2. set_solver.
Qed.

Lemma pop_some queue_id t e n c r n1 cb1 :
  0 <= event_id e -> event_id e + 1 < MAX_ID -> log_event_id e <> 0 -> pop queue_id t e n (Some c) = Ok (r, n1, cb1) ->
  exists c1, cb1 = Some c1 /\
    match r with None => event_id e + 1 <> t | Some e' => event_id e' = event_id e /\ event_id e + 1 = t end.
Proof.
  intros H1 H2 Hl Hp. unfold pop in Hp. rewrite (proj2 (Z.eqb_neq _ _) Hl), next_ok in Hp by lia.
  destruct (event_id e + 1 =? t) eqn:E, (data_empty e); zbool; simplify_eq; eauto.
Qed.

(** The last event is never removed. *)
Lemma popped_last queue_id t evs n c evs' n' cb' :
  t < MAX_ID -> Forall (wf_event t) evs -> Forall (fun e => log_event_id e <> 0) evs ->
  popped queue_id t evs n (Some c) evs' n' cb' ->
  (exists e, last evs = Some e /\ event_id e + 1 = t) -> exists e, last evs' = Some e /\ event_id e + 1 = t.
Proof.
  intros Ht Hw Hl Hp. remember (Some c) as cb eqn:Ecb. revert c Ecb.
  induction Hp as [n cb|e evs n cb evs' n' cb' Hp IH|e evs n cb r n1 cb1 evs' n' cb' Hpop Hp IH]; intros c -> (x&Hx&Ht'); [by eauto|..].
  all: apply Forall_cons_inv in Hl as [Hle Hl]; apply Forall_cons_inv in Hw as [[Hid _ _] Hw].
  - destruct evs as [|y evs].
    + inversion Hp; subst. eauto.
    + destruct (IH Hw Hl c eq_refl) as (z&Hz&Htz); [by exists x|]. exists z. split; [|done]. by rewrite last_cons, Hz.
  - destruct (pop_some queue_id t e n c r n1 cb1) as (c1&->&Hr); [lia|lia|done|done|]. destruct evs as [|y evs].
    + inversion Hp; subst. simpl in Hx. simplify_eq. destruct r as [e'|]; [|lia]. destruct Hr as [Hr _].
      exists e'. simpl. rewrite Hr. done.
    + destruct (IH Hw Hl c1 eq_refl) as (z&Hz&Htz); [by exists x|]. exists z. split; [|done].
      destruct r; simpl; [|done]. by rewrite last_cons, Hz.
Qed.

(** ** The invariant of the queues and of the storage *)
Record stored_queue (q : Queue) : Prop := {
  sq_sorted : StronglySorted Z.lt (logs (events q));
  sq_last : match last (events q) with Some e => event_id e + 1 = tail_id q | None => tail_id q = 0 end;
}.

Record stored (qs : gmap Z Queue) (c : S) : Prop := {
  st_ok : storage_ok c;
  st_queues : map_Forall (fun _ q => stored_queue q) qs;
  st_holds : map_Forall (fun queue_id q => holds queue_id (events q) c) qs;
  st_back id queue_id e : contents c !! id = Some (queue_id, e) ->
    exists q, qs !! queue_id = Some q /\ e ∈ events q /\ log_event_id e = id;
}.

Record wf (t : @TQueueImpl S) : Prop := {
  wf_queues : map_Forall (fun _ q => wf_queue q) (queues_ t);
  wf_zero : queues_ t !! 0 = None;
  wf_gc_sorted : gc_sorted (queue_gc_at_ t);
  wf_gc g id : (g, id) ∈ queue_gc_at_ t <-> exists q, queues_ t !! id = Some q /\ gc_at q = g /\ g <> 0;
}.

Definition inv (t : @TQueueImpl S) : Prop :=
  wf t /\ forall c, callback_ t = Some c -> stored (queues_ t) c.

Definition room_of (t : @TQueueImpl S) : option Z := room <$> callback_ t.
(** The room is less by at most [k]. *)
Definition spared (k : Z) (t t' : @TQueueImpl S) : Prop := option_Forall2 (fun r r' => r - k <= r') (room_of t) (room_of t').

Lemma spared_refl t : spared 0 t t.
Proof. unfold spared. destruct (room_of t); constructor. lia. Qed.
Lemma spared_trans k t1 t2 t3 : spared 0 t1 t2 -> spared k t2 t3 -> spared k t1 t3.
Proof.
  unfold spared. generalize (room_of t1) (room_of t2) (room_of t3). intros r1 r2 r3 H1 H2.
  destruct H1 as [a b Hab|]; inversion H2; subst; constructor. lia.
Qed.

Lemma new_queue_wf : wf_queue new_queue.
Proof.
  split; [done|repeat constructor|done..|]. by intros ?%Exists_nil.
Qed.

Lemma holds_lookup queue_id evs c id : holds queue_id evs c -> id ∈ logs evs ->
  exists e, e ∈ evs /\ log_event_id e = id /\ contents c !! id = Some (queue_id, e).
Proof.
  intros Hh (e&He&<-)%elem_of_logs. exists e. split_and!; auto. unfold holds in Hh. rewrite Forall_forall in Hh. by apply Hh.
Qed.

Lemma stored_update qs c queue_id q' c' :
  stored qs c -> upd queue_id (events (default new_queue (qs !! queue_id))) c (events q') c' -> stored_queue q' ->
  stored (<[queue_id := q']> qs) c'.
Proof.
  intros [Hok Hq Hh Hb] [H1 H2 H3 H4 H5 H6] Hq'. set (evs := events (default new_queue (qs !! queue_id))) in *.
  assert (forall id, id ∈ logs evs -> exists e, contents c !! id = Some (queue_id, e)) as Hold.
  { intros id Hid. unfold evs in Hid. destruct (qs !! queue_id) as [q|] eqn:Eq; [|set_solver].
    destruct (holds_lookup queue_id (events q) c id) as (e&_&_&?); eauto. }
  split; auto.
  - by apply map_Forall_insert_2.
  - intros k q Hk. apply lookup_insert_Some in Hk as [[<- <-]|[Hne Hk]]; [done|].
    unfold holds. apply Forall_forall. intros e He. pose proof (Hh k q Hk) as Hke. unfold holds in Hke.
    rewrite Forall_forall in Hke. specialize (Hke e He). simpl in Hke.
    assert (log_event_id e ∉ logs evs) as Hn by (intros Hin; destruct (Hold _ Hin); congruence).
    rewrite H3; [done..|]. intros Hin. destruct (H6 _ Hin); congruence.
  - intros id k e Hk. destruct (decide (id ∈ logs (events q'))) as [Hin|Hin].
    { destruct (holds_lookup _ _ _ _ H4 Hin) as (e'&He'&Hl&Hc). rewrite Hk in Hc. simplify_eq.
      exists q'. by rewrite lookup_insert_eq. }
    destruct (decide (id ∈ logs evs)) as [Hin'|Hin']; [rewrite H5 in Hk; done|].
    rewrite H3 in Hk by done. destruct (Hb _ _ _ Hk) as (q&Hq1&He&Hl).
    destruct (decide (k = queue_id)) as [->|Hne].
    + exfalso. apply Hin'. apply elem_of_logs. exists e. unfold evs. by rewrite Hq1.
    + exists q. by rewrite lookup_insert_ne.
Qed.

Lemma wf_update t queue_id q q' cb : wf t -> queues_ t !! queue_id = Some q -> wf_queue q' -> gc_at q' = gc_at q ->
  wf (with_queue queue_id q' cb t).
Proof.
  intros [H1 H2 H3 H4] Hq Hq' Hg. split; simpl; auto.
  - by apply map_Forall_insert_2.
  - rewrite lookup_insert_ne; [done|]. intros ->. congruence.
  - intros g id. rewrite H4. destruct (decide (id = queue_id)) as [->|Hne].
    + rewrite lookup_insert_eq, Hq. naive_solver.
    + by rewrite lookup_insert_ne.
Qed.

Lemma popped_none queue_id t evs n evs' n' cb' : popped queue_id t evs n None evs' n' cb' -> cb' = @None S.
Proof.
  assert (forall cb, popped queue_id t evs n cb evs' n' cb' -> cb = None -> cb' = None) as Hg; [|by intros; eapply Hg].
  intros cb Hp. induction Hp; intros ->; auto. apply IHHp. simpl in *. by simplify_eq.
Qed.

Lemma stored_logs q c queue_id qs : stored qs c -> qs !! queue_id = Some q ->
  NoDup (logs (events q)) /\ Forall (fun e => log_event_id e <> 0) (events q) /\ holds queue_id (events q) c.
Proof.
  intros [H1 H2 H3 _] Hq. pose proof (H2 _ _ Hq) as [Hs _]. pose proof (H3 _ _ Hq) as Hh. simpl in Hh.
  split_and!; [by apply sorted_NoDup| |done]. eapply Forall_impl; [exact Hh|]. simpl. intros e He.
  apply contents_bound in He; [lia|done].
Qed.

(** Whatever a loop pops from a queue, the invariant is kept. *)
Lemma popped_inv t queue_id q evs' n' cb' : inv t -> queues_ t !! queue_id = Some q ->
  popped queue_id (tail_id q) (events q) (total_event_length q) (callback_ t) evs' n' cb' ->
  let t' := with_queue queue_id (with_events evs' n' q) cb' t in
  inv t' /\ spared 0 t t' /\ n' = total evs' /\ shrunk (events q) evs'.
Proof.
  intros [Hwf Hst] Hq Hp. pose proof (wf_queues _ Hwf _ _ Hq) as Hwq. simpl in Hwq.
  pose proof Hwq as [Ht [Hs Hw Hl] Htot _ _ _].
  destruct (popped_shrunk (tail_id q) queue_id (tail_id q) _ _ _ _ _ _ ltac:(lia) ltac:(auto) Hs Hw Hp) as [Hsh Hn'].
  assert (n' = total evs') as -> by lia.
  assert (wf_queue (with_events evs' (total evs') q)) as Hwq' by (by apply shrunk_wf_queue).
  assert (wf (with_queue queue_id (with_events evs' (total evs') q) cb' t)) as Hwf' by (by eapply wf_update).
  unfold inv, spared, room_of. simpl. destruct (callback_ t) as [c|]; [|apply popped_none in Hp as ->; split_and!; auto; [done|constructor]].
  specialize (Hst c eq_refl). destruct (stored_logs _ _ _ _ Hst Hq) as (Hnd&Hl0&Hh).
  destruct (popped_upd (tail_id q) queue_id (tail_id q) (events q) (total_event_length q) c evs' (total evs') cb')
    as (c'&->&Hu&Hr); auto; [lia|apply Hst|].
  simpl. split_and!; auto; [|constructor; lia]. intros ? [= <-]. eapply stored_update; [exact Hst|by rewrite Hq|].
  pose proof (st_queues _ _ Hst _ _ Hq) as [Hls Hlast]. split; simpl.
  - eapply StronglySorted_sublist; [by apply shrunk_logs|done].
  - destruct (last (events q)) as [e|] eqn:El.
    + destruct (popped_last queue_id (tail_id q) (events q) (total_event_length q) c evs' (total evs') (Some c'))
        as (e'&->&?); auto; [lia|by exists e].
    + apply last_None in El. rewrite El in Hsh. apply shrunk_nil_inv in Hsh as ->. done.
Qed.

Lemma with_queue_twice queue_id q1 cb1 q2 cb2 (t : @TQueueImpl S) :
  with_queue queue_id q2 cb2 (with_queue queue_id q1 cb1 t) = with_queue queue_id q2 cb2 t.
Proof. unfold with_queue. simpl. by rewrite insert_insert_eq. Qed.

Lemma with_queue_same queue_id q (t : @TQueueImpl S) : queues_ t !! queue_id = Some q ->
  with_queue queue_id q (callback_ t) t = t.
Proof. intros Hq. unfold with_queue. rewrite insert_id by done. by destruct t. Qed.

Lemma inv_poppable t queue_id q : inv t -> queues_ t !! queue_id = Some q -> poppable (events q).
Proof. intros [Hwf _] Hq. destruct (wf_queues _ Hwf _ _ Hq) as [? [? ? ?] ? ? ? ?]. eapply (wf_poppable (tail_id q)); [lia|done]. Qed.

(** ** forget *)
Lemma forget_inv queue_id id t : inv t -> exists t', forget queue_id id t = Ok t' /\ inv t' /\ spared 0 t t'.
Proof.
  intros Hi. unfold forget. destruct (queues_ t !! queue_id) as [q|] eqn:Hq; [|by eauto using spared_refl].
  destruct (pop_id_spec queue_id (tail_id q) id (events q) (total_event_length q) (callback_ t)) as (evs'&n'&cb'&->&Hp);
    [by eapply inv_poppable|]. simpl.
  destruct (popped_inv t queue_id q evs' n' cb' Hi Hq Hp) as (?&?&_). eauto.
Qed.

(** ** get *)
Lemma get_spec queue_id from fp now m t q : inv t -> queues_ t !! queue_id = Some q ->
  from <= tail_id q + 10 -> get_queue_head q - MAX_QUEUE_EVENTS <= from ->
  exists t', get queue_id from fp now m t =
      Ok (Ok (get_size queue_id t', take m (map to_event (filter (fun e => visible from now e = true) (events q)))), t') /\
    inv t' /\ spared 0 t t'.
Proof.
  intros Hi Hq Hf1 Hf2. unfold get. rewrite Hq. repeat decide_if. unfold do_get.
  assert (exists evs1 n1 cb1,
    (if fp then forget_before queue_id (tail_id q) from (events q) (total_event_length q) (callback_ t)
     else Ok (events q, total_event_length q, callback_ t)) = Ok (evs1, n1, cb1) /\
    popped queue_id (tail_id q) (events q) (total_event_length q) (callback_ t) evs1 n1 cb1 /\
    filter (fun e => visible from now e = true) evs1 = filter (fun e => visible from now e = true) (events q))
    as (evs1&n1&cb1&->&Hp1&Hv).
  { destruct fp; [|by eauto 6 using popped_refl].
    destruct (forget_before_spec queue_id (tail_id q) from (events q) (total_event_length q) (callback_ t))
      as (evs'&n'&cb'&->&Hp&Hv); [by eapply inv_poppable|]. eauto 7. }
  simpl. destruct (popped_inv t queue_id q evs1 n1 cb1 Hi Hq Hp1) as (Hi1&Hr1&Hn1&_).
  set (q1 := with_events evs1 n1 q) in *. set (t1 := with_queue queue_id q1 cb1 t) in *.
  assert (queues_ t1 !! queue_id = Some q1) as Hq1 by (simpl; by rewrite lookup_insert_eq).
  pose proof (wf_queues _ (proj1 Hi1) _ _ Hq1) as [_ [Hs1 _ _] _ _ _ _]. simpl in Hs1.
  pose proof (inv_poppable _ _ _ Hi1 Hq1) as Hpp. simpl in Hpp.
  destruct (split_lower_spec from evs1 Hs1) as (a&b&->&Hab&Ha&Hb). rewrite Hab in Hpp, Hv.
  apply Forall_app in Hpp as [_ Hpp].
  destruct (collect_spec queue_id (tail_id q) from now m b n1 cb1 Hpp Hb) as (evs2&n2&cb2&->&Hp2). simpl.
  apply (popped_app queue_id (tail_id q) a) in Hp2. rewrite <- Hab in Hp2.
  destruct (popped_inv t1 queue_id q1 (a ++ evs2) n2 cb2 Hi1 Hq1 Hp2) as (Hi2&Hr2&_).
  unfold t1 in Hi2, Hr2. rewrite with_queue_twice in Hi2, Hr2. eexists. split_and!; [|exact Hi2|].
  - unfold get_size. simpl. rewrite lookup_insert_eq. rewrite <- Hv, filter_app.
    rewrite (filter_none a); [done|]. eapply Forall_impl; [exact Ha|]. simpl. intros x Hx. unfold visible. by decide_if.
  - eapply spared_trans; [exact Hr1|exact Hr2].
Qed.

(** ** clear *)
Lemma shrunk_drop n evs : shrunk evs (drop n evs).
Proof. revert n. induction evs as [|e evs IH]; intros [|n]; simpl; try apply shrunk_refl. constructor. apply IH. Qed.

Lemma shrunk_last a e : shrunk (a ++ [e]) [clear_data e].
Proof. induction a; simpl; [apply shrunk_empty|by constructor]. Qed.

(** How the events look before the deletion: all of them, or the last one
    without its data; the last one stays when the storage knows it. *)
Lemma clear_split queue_id q cb keep_count n q' cb' : events q <> [] ->
  (if Nat.eqb keep_count 0 then clear_last queue_id q cb else ((length (events q) - keep_count)%nat, q, cb)) = (n, q', cb') ->
  (q' = q /\ cb' = cb /\ (Exists (fun e => log_event_id e = 0) (events q) \/ cb = None \/ (n < length (events q))%nat)) \/
  (exists a e c, events q = a ++ [e] /\ n = length a /\ cb = Some c /\
     q' = with_events (a ++ [clear_data e]) (total_event_length q - data_size e) q /\
     cb' = Some (snd (cb_push queue_id (clear_data e) c)) /\ data_empty e = false).
Proof.
  intros Hne. assert (length (events q) <> 0%nat) as Hlen by (by destruct (events q)).
  case_if; [|intros [= <- <- <-]; left; split_and!; auto; right; right; lia]. unfold clear_last.
  destruct (last (events q)) as [e|] eqn:El; [|by apply last_None in El].
  apply last_Some in El as [a Ea]. rewrite Ea, removelast_last, length_app. simpl. rewrite Nat.add_sub.
  destruct cb as [c|]; [|intros [= <- <- <-]; left; split_and!; by auto].
  destruct (log_event_id e =? 0) eqn:E0; zbool.
  { intros [= <- <- <-]. left. split_and!; auto. left. apply Exists_app. right. by constructor. }
  destruct (data_empty e) eqn:Ede; simpl; intros [= <- <- <-].
  - left. split_and!; auto. right. right. rewrite Nat.add_1_r. auto.
  - right. exists a, e, c. done.
Qed.

Lemma upd_drop queue_id n evs c : storage_ok c -> holds queue_id evs c -> NoDup (logs evs) ->
  Forall (fun e => log_event_id e <> 0) evs ->
  let c' := cb_pop_batch (filter (fun id => id <> 0) (map log_event_id (take n evs))) c in
  upd queue_id evs c (drop n evs) c' /\ room c <= room c'.
Proof.
  intros Hok Hh Hnd Hz.
  assert (filter (fun id => id <> 0) (map log_event_id (take n evs)) = logs (take n evs)) as ->.
  { apply (Forall_take _ n) in Hz. unfold logs. induction Hz as [|e l He Hl IH]; simpl; [done|]. rewrite filter_cons_True by done. by f_equal. }
  assert (forall id, id ∈ logs evs <-> id ∈ logs (take n evs) \/ id ∈ logs (drop n evs)) as Hin
    by (intros; rewrite <- elem_of_logs_app, take_drop; done).
  rewrite <- (take_drop n evs) in Hnd. unfold logs in Hnd. rewrite map_app in Hnd. apply NoDup_app in Hnd as (Hnd1&Hdis&_).
  destruct (pop_batch_law c (logs (take n evs)) Hok Hnd1) as (Hok'&Hl&Hr&Hcon).
  { apply Forall_forall. intros id Hid. destruct (holds_lookup queue_id evs c id Hh) as (e&_&_&->); [|done]. apply Hin. auto. }
  simpl. split; [|done]. split; auto.
  - intros id Hi _. rewrite Hcon. rewrite bool_decide_false; [done|]. intros ?. apply Hi, Hin. auto.
  - apply Forall_forall. intros e He. rewrite Hcon. rewrite bool_decide_false.
    + unfold holds in Hh. rewrite <- (take_drop n evs) in Hh. apply Forall_app in Hh as [_ Hh]. rewrite Forall_forall in Hh. by apply Hh.
    + intros Hin'. apply (Hdis _ Hin'). apply elem_of_logs. eauto.
  - intros id Hi Hn. rewrite Hcon. rewrite bool_decide_true; [done|]. apply Hin in Hi. tauto.
  - intros id Hi. left. apply Hin. auto.
Qed.

Lemma last_drop_lt {A} n (l : list A) : (n < length l)%nat -> last (drop n l) = last l.
Proof.
  intros Hn. rewrite <- (take_drop n l) at 2. rewrite last_app. destruct (last (drop n l)) eqn:E; [done|].
  apply last_None, (f_equal length) in E. rewrite length_drop in E. simpl in E. lia.
Qed.

Lemma drop_total n evs : total evs - total (take n evs) = total (drop n evs).
Proof. rewrite <- (take_drop n evs) at 1. rewrite total_app. lia. Qed.

Lemma queue_size_nil q : 0 < queue_size q -> events q <> [].
Proof. unfold queue_size. intros Hs Hn. by rewrite Hn in Hs. Qed.

(** The storage during [clear]. *)
Lemma clear_stored t queue_id q keep_count n q' c cb' : inv t -> queues_ t !! queue_id = Some q -> callback_ t = Some c ->
  events q <> [] ->
  (if Nat.eqb keep_count 0 then clear_last queue_id q (Some c) else ((length (events q) - keep_count)%nat, q, Some c)) = (n, q', cb') ->
  exists c1, cb' = Some c1 /\ upd queue_id (events q) c (events q') c1 /\ room c <= room c1 /\
    logs (events q') = logs (events q) /\ ids (events q') = ids (events q) /\ (n < length (events q'))%nat.
Proof.
  intros [Hwf Hst] Hq Hc Hne Ec. destruct (stored_logs _ _ _ _ (Hst c Hc) Hq) as (Hnd&Hz&Hh).
  pose proof (st_ok _ _ (Hst c Hc)) as Hok.
  destruct (clear_split _ _ _ _ _ _ _ Hne Ec) as [(->&->&[He|[?|Hn]])|(a&e&c'&Ea&->&[= <-]&->&->&Hde)]; [|done|..].
  - exfalso. apply Exists_exists in He as (e&He&He0). rewrite Forall_forall in Hz. by apply (Hz e).
  - exists c. split_and!; auto using upd_refl. lia.
  - eexists. split; [done|]. rewrite Ea in *. simpl. unfold holds in Hh. apply Forall_app in Hh as [Hh1 Hh2].
    unfold logs in Hnd. rewrite map_app in Hnd. apply NoDup_app in Hnd as (_&Hdis&_).
    destruct (upd_rewrite queue_id e c Hok Hh2 Hde) as [Hu Hr].
    assert (logs (a ++ [clear_data e]) = logs (a ++ [e])) as El by (unfold logs; by rewrite !map_app).
    assert (ids (a ++ [clear_data e]) = ids (a ++ [e])) as Ei by (unfold ids; by rewrite !map_app).
    split_and!; auto.
    + apply upd_frame; auto; apply Hdis.
    + rewrite length_app. simpl. lia.
Qed.

Lemma last_ids evs evs' e : ids evs' = ids evs -> last evs = Some e -> exists e', last evs' = Some e' /\ event_id e' = event_id e.
Proof.
  unfold ids. intros He Hl. pose proof (fmap_last event_id evs) as H1. pose proof (fmap_last event_id evs') as H2.
  change (event_id <$> evs' = event_id <$> evs) in He. rewrite He in H2. rewrite H1, Hl in H2. simpl in H2.
  destruct (last evs') as [e'|]; simplify_eq/=. eauto.
Qed.

Lemma clear_inv queue_id keep_count t : inv t ->
  exists deleted t', clear queue_id keep_count t = (deleted, t') /\ inv t' /\ spared 0 t t'.
Proof.
  intros Hi. unfold clear. destruct (queues_ t !! queue_id) as [q|] eqn:Hq; [|by eauto using spared_refl].
  case_if; [by eauto using spared_refl|]. destruct (if Nat.eqb keep_count 0 then _ else _) as [[n q'] cb'] eqn:Ec.
  pose proof Hi as [Hwf Hst]. pose proof (wf_queues _ Hwf _ _ Hq) as Hwq. simpl in Hwq.
  assert (events q <> []) as Hne by (apply queue_size_nil; lia).
  assert (total_event_length q' = total (events q') /\ shrunk (events q) (drop n (events q')) /\
    tail_id q' = tail_id q /\ gc_at q' = gc_at q) as (Htot&Hsh&Htl&Hg).
  { destruct (clear_split _ _ _ _ _ _ _ Hne Ec) as [(->&->&_)|(a&e&c&Ea&->&_&->&_)]; simpl.
    - split_and!; auto; [apply Hwq|apply shrunk_drop].
    - rewrite drop_app_length. split_and!; auto; [|rewrite Ea; apply shrunk_last].
      rewrite (wq_total _ Hwq), Ea, !total_app. unfold total, data_size; simpl. lia. }
  set (tot := if _ <? _ then _ else _). assert (tot = total (drop n (events q'))) as ->.
  { unfold tot. rewrite !sum_sizes_total, Htot, drop_total. by case_if. }
  assert (with_events (drop n (events q')) (total (drop n (events q'))) q' =
    with_events (drop n (events q')) (total (drop n (events q'))) q) as -> by (unfold with_events; by rewrite Htl, Hg).
  pose proof (shrunk_wf_queue _ _ Hwq Hsh) as Hwq'. eexists _, _. split; [done|]. unfold inv, spared, room_of. simpl.
  assert (wf (with_queue queue_id (with_events (drop n (events q')) (total (drop n (events q'))) q)
    (match cb' with Some c => Some (cb_pop_batch (filter (fun id => id <> 0) (map log_event_id (take n (events q')))) c) | None => None end) t))
    as Hwf' by (by eapply wf_update).
  destruct (callback_ t) as [c|] eqn:Hc.
  2: { destruct (clear_split _ _ _ _ _ _ _ Hne Ec) as [(->&->&_)|(a&e&c&Ea&->&?&->&_)]; [|done]. split_and!; [done..|constructor]. }
  destruct (clear_stored t queue_id q keep_count n q' c cb') as (c1&->&Hu&Hr&Hlogs&Hids&Hn); auto.
  destruct (stored_logs _ _ _ _ (Hst c eq_refl) Hq) as (Hnd&Hz&Hh).
  destruct (upd_drop queue_id n (events q') c1) as [Hu2 Hr2]; [apply Hu|apply Hu|by rewrite Hlogs|..].
  { apply (Forall_map log_event_id (fun x => x <> 0)). fold (logs (events q')). rewrite Hlogs. by apply Forall_map. }
  split; [split; [done|]|constructor; lia]. intros c2 [= <-].
  eapply stored_update; [exact (Hst c eq_refl)|rewrite Hq; simpl; by eapply upd_trans|].
  pose proof (st_queues _ _ (Hst c eq_refl) _ _ Hq) as [Hls Hlast]. split; simpl.
  - eapply StronglySorted_sublist; [by apply shrunk_logs|done].
  - rewrite last_drop_lt by done. destruct (last (events q)) as [e|] eqn:El; [|by apply last_None in El].
    destruct (last_ids _ _ _ Hids El) as (e'&->&->). done.
Qed.

(** ** push *)
Lemma last_may_empty_split evs : last_may_empty evs = true ->
  Forall (fun e => live e = true) evs \/
  exists a l, evs = a ++ [l] /\ live l = false /\ Forall (fun e => live e = true) a.
Proof.
  induction evs as [|e evs IH]; intros Hl; [by left|]. apply last_may_empty_cons in Hl as [[->|He] Hl].
  - destruct (live e) eqn:E; [left; by constructor|]. right. by exists [], e.
  - destruct (IH Hl) as [?|(a&l&->&?&?)]; [left; by constructor|]. right. exists (e :: a), l. split_and!; auto.
Qed.

Lemma drop_empty_last_spec evs cb tr cb' : last_may_empty evs = true -> drop_empty_last evs cb = (tr, cb') ->
  Forall (fun e => live e = true) tr /\
  ((tr = evs /\ cb' = cb) \/
   exists l, evs = tr ++ [l] /\ live l = false /\
     cb' = match cb with
           | Some c => if negb (log_event_id l =? 0) then Some (cb_pop (log_event_id l) c) else Some c
           | None => None
           end).
Proof.
  intros Hl Hd. unfold drop_empty_last in Hd. destruct (last_may_empty_split evs Hl) as [Hall|(a&l&->&Hl'&Ha)].
  - destruct (last evs) as [l|] eqn:E; [|simplify_eq; auto]. apply last_Some in E as [a ->].
    apply Forall_app in Hall as [Ha Hl']. apply Forall_cons_inv in Hl' as [Hl' _]. unfold live in Hl'.
    apply negb_true_iff in Hl'. rewrite Hl' in Hd. simplify_eq. split; [|by auto]. apply Forall_app. split; [done|].
    constructor; [unfold live; by rewrite Hl'|done].
  - rewrite last_snoc in Hd. unfold live in Hl'. apply negb_false_iff in Hl'. rewrite Hl', removelast_last in Hd.
    simplify_eq. split; [done|]. right. exists l. unfold live. by rewrite Hl'.
Qed.

Lemma emplace_event_last e evs : Forall (fun x => event_id x < event_id e) evs -> emplace_event e evs = evs ++ [e].
Proof. induction 1 as [|x l Hx Hl IH]; simpl; [done|]. repeat decide_if. by rewrite IH. Qed.

Lemma store_event_same queue_id e (cb : option S) e' cb' : store_event queue_id e cb = (e', cb') ->
  e' = set_log_event_id (log_event_id e') e.
Proof.
  unfold store_event. destruct cb as [c|]; [|intros [= <- <-]; by destruct e].
  case_if; [|intros [= <- <-]; by destruct e]. destruct (cb_push queue_id e c). by intros [= <- <-].
Qed.

Lemma get_queue_wf t queue_id : wf t -> wf_queue (get_queue queue_id t).
Proof.
  intros Hwf. unfold get_queue. destruct (queues_ t !! queue_id) eqn:E; simpl; [|apply new_queue_wf].
  by apply (wf_queues _ Hwf _ _ E).
Qed.

Lemma get_queue_gc t queue_id g : wf t -> (g, queue_id) ∈ queue_gc_at_ t <-> gc_at (get_queue queue_id t) = g /\ g <> 0.
Proof.
  intros Hwf. rewrite (wf_gc _ Hwf). unfold get_queue. destruct (queues_ t !! queue_id); simpl; naive_solver.
Qed.

(** Replacing a queue and its scheduled collection. *)
Lemma wf_replace t queue_id q' gcs cb : wf t -> queue_id <> 0 -> wf_queue q' -> gc_sorted gcs ->
  (forall g id, (g, id) ∈ gcs <-> (id = queue_id /\ g = gc_at q' /\ gc_at q' <> 0) \/ (id <> queue_id /\ (g, id) ∈ queue_gc_at_ t)) ->
  wf {| queues_ := <[queue_id := q']> (queues_ t); queue_gc_at_ := gcs; callback_ := cb |}.
Proof.
  intros [H1 H2 H3 H4] Hid Hq' Hs Hin. split; simpl; auto.
  - by apply map_Forall_insert_2.
  - by rewrite lookup_insert_ne.
  - intros g id. rewrite Hin, H4. destruct (decide (id = queue_id)) as [->|Hne].
    + rewrite lookup_insert_eq. naive_solver.
    + rewrite lookup_insert_ne by done. naive_solver.
Qed.

(** What the code checks before an event is added. *)
Record pushable (e : RawEvent) (q : Queue) : Prop := {
  pa_id : 0 < event_id e;
  pa_next : event_id e + 1 < MAX_ID;
  pa_tail : tail_id q <= event_id e;
  pa_size : data_size e <= MAX_EVENT_LENGTH;
  pa_length : Z.of_nat (length (events q)) < MAX_QUEUE_EVENTS;
  pa_total : total_event_length q + data_size e <= MAX_TOTAL_EVENT_LENGTH;
  pa_expires : 0 < expires_at e;
}.

Lemma u64_total_sub n : 0 <= n <= MAX_EVENT_LENGTH -> u64 (MAX_TOTAL_EVENT_LENGTH - n) = MAX_TOTAL_EVENT_LENGTH - n.
Proof.
  intros Hn. apply u64_small. unfold is_u64, MAX_EVENT_LENGTH, MAX_TOTAL_EVENT_LENGTH in *.
  change (Z.shiftl 1 27) with (2 ^ 27). eval_pows. lia.
Qed.

Lemma wf_event_mono b b' e : b <= b' -> wf_event b e -> wf_event b' e.
Proof. intros ? [? ? ?]. split; auto; lia. Qed.

Lemma live_last_may_empty a e : Forall (fun e => live e = true) a -> last_may_empty (a ++ [e]) = true.
Proof. induction 1 as [|x a Hx Ha IH]; [done|]. simpl app. apply last_may_empty_cons. auto. Qed.

Lemma Zsorted_snoc l x : StronglySorted Z.lt l -> Forall (fun y => y < x) l -> StronglySorted Z.lt (l ++ [x]).
Proof.
  induction 1 as [|y l Hs IH Hlt]; intros Hx; simpl; [repeat constructor|]. apply Forall_cons_inv in Hx as [Hy Hx].
  constructor; [by apply IH|]. apply Forall_app. split; [done|by constructor].
Qed.

(** The queue after an event has been added at its end. *)
Lemma pushed_wf q tr e n g : wf_queue q -> pushable e q -> tr `sublist_of` events q ->
  Forall (fun e => live e = true) tr -> n = total tr + data_size e -> (tr = [] -> live e = true -> g <> 0) ->
  (tr <> [] -> g = gc_at q) ->
  wf_queue {| tail_id := event_id e + 1; events := tr ++ [e]; total_event_length := n; gc_at := g |}.
Proof.
  intros [H1 [H2 H3 _] H4 H5 H6 H7] [P1 P2 P3 P4 P5 P6 P7] Hsub Hlive Hn Hg1 Hg2.
  assert (Forall (wf_event (tail_id q)) tr) as Hw.
  { rewrite Forall_forall in *. intros x Hx. apply H3. eauto using elem_of_submseteq, sublist_submseteq. }
  assert (total tr <= total (events q)) as Htot.
  { clear -Hsub. induction Hsub as [|x l1 l2 Hs IH|x l1 l2 Hs IH]; simpl; pose proof (data_size_nonneg); [lia|lia|].
    specialize (H x). lia. }
  split; simpl.
  - lia.
  - split.
    + unfold ids. rewrite map_app. apply Zsorted_snoc.
      * eapply StronglySorted_sublist; [|exact H2]. clear -Hsub; induction Hsub; simpl; by constructor.
      * apply Forall_map. eapply Forall_impl; [exact Hw|]. intros x [Hx _ _]. simpl. lia.
    + apply Forall_app. split; [|constructor; [split; auto; lia|done]].
      eapply Forall_impl; [exact Hw|]. intros x Hx. eapply wf_event_mono; [|exact Hx]. lia.
    + by apply live_last_may_empty.
  - rewrite total_app. simpl. lia.
  - apply sublist_length in Hsub. rewrite length_app. simpl. lia.
  - rewrite total_app. simpl. lia.
  - intros He. destruct tr as [|x tr].
    + apply Hg1; [done|]. simpl in He. inversion He as [? ? Hl|? ? Hl]; [done|]. by apply Exists_nil in Hl.
    + rewrite Hg2 by done. apply H7, Exists_exists. exists x. apply Forall_cons_inv in Hlive as [? _]. split; [|done].
      eapply elem_of_submseteq; [|by apply sublist_submseteq]. set_solver.
Qed.

Lemma do_push_spec t queue_id e tr cb : wf t -> queue_id <> 0 -> pushable e (get_queue queue_id t) ->
  drop_empty_last (events (get_queue queue_id t)) (callback_ t) = (tr, cb) ->
  exists t' e' n g, do_push queue_id e t = Ok (true, t') /\ wf t' /\
    store_event queue_id e cb = (e', callback_ t') /\
    queues_ t' = <[queue_id := {| tail_id := event_id e + 1; events := tr ++ [e']; total_event_length := n; gc_at := g |}]> (queues_ t).
Proof.
  intros Hwf Hid Hp Hd. set (q := get_queue queue_id t) in *. pose proof (get_queue_wf t queue_id Hwf) as Hwq. fold q in Hwq.
  pose proof Hwq as [H1 [H2 H3 H3'] H4 H5 H6 H7]. pose proof Hp as [P1 P2 P3 P4 P5 P6 P7]. pose proof (data_size_nonneg e) as Hsz.
  destruct (drop_empty_last_spec _ _ _ _ H3' Hd) as [Hlive Htr].
  assert (tr `sublist_of` events q /\ total tr = total (events q)) as [Hsub Htot].
  { destruct Htr as [[-> _]|(l&->&Hl&_)]; [done|]. split; [by apply sublist_inserts_r|]. rewrite total_app. simpl.
    unfold live in Hl. apply negb_false_iff in Hl. rewrite data_empty_size in Hl. zbool. lia. }
  unfold do_push. fold q. unfold is_valid, id_empty, is_valid_id.
  rewrite (proj2 (Z.eqb_neq (event_id e) 0)), (proj2 (Z.leb_le 0 (event_id e))), (proj2 (Z.ltb_lt (event_id e) MAX_ID)) by lia.
  simpl. rewrite (proj2 (Z.ltb_ge MAX_EVENT_LENGTH (data_size e))), (proj2 (Z.eqb_neq queue_id 0)) by lia. simpl.
  rewrite u64_total_sub by lia.
  rewrite (proj2 (Z.leb_gt MAX_QUEUE_EVENTS _)), (proj2 (Z.ltb_ge (MAX_TOTAL_EVENT_LENGTH - data_size e) _)),
    (proj2 (Z.leb_gt (expires_at e) 0)), (proj2 (Z.ltb_ge (event_id e) (tail_id q))) by lia. simpl.
  rewrite Hd. simpl.
  destruct (store_event queue_id e cb) as [e' cb'] eqn:Es. pose proof (store_event_same _ _ _ _ _ Es) as He'.
  assert (event_id e' = event_id e /\ data_size e' = data_size e /\ live e' = live e) as (Ee1&Ee2&Ee3) by (rewrite He'; done).
  assert (pushable e' q) as Hp' by (rewrite He'; by destruct Hp).
  assert (Forall (fun x => event_id x < event_id e') tr) as Hlt.
  { rewrite Forall_forall in *. intros x Hx. destruct (H3 x) as [? _ _]; [|lia].
    eauto using elem_of_submseteq, sublist_submseteq. }
  destruct (Nat.eqb (length tr) 0 && negb (data_empty e)) eqn:Eg.
  - zbool. destruct (schedule_queue_gc_spec queue_id (with_events tr (total_event_length q) q) (expires_at e) (queue_gc_at_ t))
      as (gcs&->&Hs&Hin); [apply Hwf|intros; by rewrite get_queue_gc|]. simpl.
    rewrite Ee1, next_ok by lia. rewrite emplace_event_last by done. eexists _, e', _, _. split_and!; [done| |done|].
    + simpl. rewrite insert_insert_eq. apply wf_replace; auto.
      rewrite <- Ee1. apply (pushed_wf q); auto; [lia|lia|]. by destruct tr.
    + simpl. by rewrite insert_insert_eq.
  - simpl. rewrite Ee1, next_ok by lia. rewrite emplace_event_last by done. eexists _, e', _, _. split_and!; [done| |done|].
    + simpl. rewrite insert_insert_eq. apply wf_replace; auto; [|apply Hwf|].
      * rewrite <- Ee1. apply (pushed_wf q); auto; [lia|]. intros -> Hl. simpl in Eg. rewrite Ee3 in Hl. unfold live in Hl. congruence.
      * simpl. intros g id. destruct (decide (id = queue_id)) as [->|Hne].
        { rewrite get_queue_gc by done. fold q. naive_solver. }
        naive_solver.
    + simpl. by rewrite insert_insert_eq.
Qed.

Lemma upd_append queue_id evs c e id c' : storage_ok c -> holds queue_id evs c -> event_typed queue_id e -> log_event_id e = 0 -> 0 < room c ->
  cb_push queue_id e c = (id, c') ->
  upd queue_id evs c (evs ++ [set_log_event_id id e]) c' /\ room c - 1 <= room c' /\ Forall (fun i => i < id) (logs evs).
Proof.
  intros Hok Hh Hty He Hr Hp. destruct (push_new c queue_id e id c' Hok Hty He Hr Hp) as (Hok'&Hlt&Hr'&Hcon).
  assert (forall i, i ∈ logs evs -> i < id) as Hlts.
  { intros i Hi. destruct (holds_lookup _ _ _ _ Hh Hi) as (x&_&_&Hx). apply contents_bound in Hx; [lia|done]. }
  split_and!; [|done|by apply Forall_forall]. split; auto; [lia|..]; rewrite ?Hcon.
  - intros i Hi Hn. rewrite lookup_insert_ne; [done|]. intros ->. apply Hn, elem_of_logs_app. right. simpl. set_solver.
  - apply Forall_app. split.
    + apply Forall_forall. intros x Hx. rewrite Hcon, lookup_insert_ne.
      * unfold holds in Hh. rewrite Forall_forall in Hh. by apply Hh.
      * intros Heq. assert (log_event_id x < id) by (apply Hlts, elem_of_logs; eauto). lia.
    + constructor; [|constructor]. rewrite Hcon. apply lookup_insert_eq.
  - intros i Hi Hn. destruct Hn. apply elem_of_logs_app. by left.
  - intros i [Hi|Hi]%elem_of_logs_app; [by left|right]. simpl in Hi. apply list_elem_of_singleton in Hi as ->.
    destruct (contents c !! id) eqn:E; [|done]. apply contents_bound in E; [lia|done].
Qed.

(** The storage during [do_push]. *)
Lemma push_upd queue_id evs c tr cb e e' cb' : last_may_empty evs = true -> storage_ok c -> holds queue_id evs c ->
  StronglySorted Z.lt (logs evs) -> event_typed queue_id e -> log_event_id e = 0 -> 0 < room c ->
  drop_empty_last evs (Some c) = (tr, cb) -> store_event queue_id e cb = (e', cb') ->
  exists c', cb' = Some c' /\ upd queue_id evs c (tr ++ [e']) c' /\ room c - 1 <= room c' /\
    StronglySorted Z.lt (logs (tr ++ [e'])).
Proof.
  intros Hlm Hok Hh Hs Hty He Hr Hd Hst.
  assert (exists c1, cb = Some c1 /\ upd queue_id evs c tr c1 /\ room c <= room c1 /\ logs tr `sublist_of` logs evs)
    as (c1&->&Hu1&Hr1&Hsub).
  { destruct (drop_empty_last_spec _ _ _ _ Hlm Hd) as [_ [[-> ->]|(l&->&_&->)]].
    - exists c. split_and!; auto using upd_refl. lia.
    - unfold holds in Hh. apply Forall_app in Hh as [Hh1 Hh2]. pose proof (Forall_cons_inv _ _ _ Hh2) as [Hl _]. simpl in Hl.
      rewrite (proj2 (Z.eqb_neq (log_event_id l) 0)) by (apply contents_bound in Hl; [lia|done]). simpl.
      destruct (upd_remove queue_id l c Hok Hh2) as [Hu Hrr]. eexists. split_and!; [done| |done|].
      + rewrite <- (app_nil_r tr) at 2. apply sorted_NoDup in Hs. unfold logs in Hs. rewrite map_app in Hs.
        apply NoDup_app in Hs as (_&Hdis&_). apply upd_frame; auto. set_solver.
      + unfold logs. rewrite map_app. by apply sublist_inserts_r. }
  unfold store_event in Hst. rewrite He in Hst. simpl in Hst. destruct (cb_push queue_id e c1) as [id c2] eqn:Ep. simplify_eq.
  destruct (upd_append queue_id tr c1 e id c2) as (Hu2&Hr2&Hlt); [apply Hu1|apply Hu1|done|done|lia|done|].
  exists c2. split_and!; [done|by eapply upd_trans|lia|]. unfold logs. rewrite map_app. apply Zsorted_snoc; [|done].
  by eapply StronglySorted_sublist.
Qed.

Lemma wf_events_zero evs : wf_events 0 evs -> evs = [].
Proof. intros [_ Hw _]. destruct evs; [done|]. apply Forall_cons_inv in Hw as [[? _ _] _]. lia. Qed.

Lemma from_int32_ok z : 0 <= z < MAX_ID -> from_int32 z = Ok z.
Proof. intros. unfold from_int32, is_valid_id. by repeat decide_if. Qed.

Lemma is_valid_ok z : 0 < z < MAX_ID -> is_valid z = true.
Proof. intros. unfold is_valid, id_empty, is_valid_id. by repeat decide_if. Qed.

(** The loop of [push] ends in at most two rounds. *)
Lemma choose_id_spec queue_id hint rnd q cb : wf_queue q ->
  0 <= hint -> hint + 1 < MAX_ID -> 0 < rnd -> rnd + 1 < MAX_ID ->
  exists q' cb', choose_id 3 queue_id hint rnd q cb = Ok (tail_id q', q', cb') /\
    wf_queue q' /\ 0 < tail_id q' /\ tail_id q' + 1 < MAX_ID /\ gc_at q' = gc_at q /\
    ((events q' = events q /\ cb' = cb /\ (tail_id q' = tail_id q \/ tail_id q = 0)) \/
     (events q' = [] /\ tail_id q = MAX_ID - 1 /\ popped queue_id 0 (events q) (total_event_length q) cb [] (total_event_length q') cb')).
Proof.
  intros Hwq Hh1 Hh2 Hr1 Hr2. pose proof Hwq as [H1 H2 H3 H4 H5 H6].
  set (id := if id_empty hint then rnd else hint).
  assert (0 < id /\ id + 1 < MAX_ID) as [Hid1 Hid2] by (unfold id, id_empty; case_if; lia).
  assert (forall fuel q0 cb0, tail_id q0 = 0 ->
    choose_id (Datatypes.S fuel) queue_id hint rnd q0 cb0 = Ok (id, with_tail id q0, cb0)) as Hzero.
  { intros fuel q0 cb0 Hz0. cbn [choose_id]. rewrite Hz0. simpl. unfold id, id_empty in *. case_if; simpl.
    - rewrite from_int32_ok by lia. simpl. rewrite is_valid_ok, next_ok by lia. done.
    - rewrite is_valid_ok, next_ok by lia. done. }
  assert (forall g, wf_queue {| tail_id := id; events := []; total_event_length := 0; gc_at := g |}) as Hnew.
  { intros g. split; simpl; [lia|repeat constructor|done..|]. by intros ?%Exists_nil. }
  destruct (decide (tail_id q = 0)) as [Hz0|Hz0].
  { rewrite Hzero by done. rewrite Hz0 in H2. apply wf_events_zero in H2. exists (with_tail id q), cb. simpl.
    split_and!; auto. unfold with_tail. rewrite H3, H2. by apply Hnew. }
  remember 2%nat as f eqn:Ef. cbn [choose_id]. unfold id_empty at 1. rewrite (proj2 (Z.eqb_neq _ _) Hz0). cbn [res_bind].
  rewrite is_valid_ok, next_is_ok by lia. case_if.
  { exists q, cb. split_and!; auto; lia. }
  destruct (pop_all_spec queue_id (events q) (total_event_length q) cb) as (n'&cb'&->&Hp).
  { eapply (wf_poppable (tail_id q)); [lia|apply H2]. }
  cbn [res_bind]. rewrite next_ok by lia. simpl is_ok. cbv iota. subst f. rewrite Hzero by done.
  destruct (popped_shrunk (tail_id q) queue_id 0 (events q) (total_event_length q) cb [] n' cb') as [_ Hn'];
    auto; [lia|apply H2|apply H2|]. simpl in Hn'.
  exists (with_tail id (with_tail 0 (with_events [] n' q))), cb'. simpl. split_and!; auto.
  - unfold with_tail, with_events. simpl. replace n' with 0 by lia. by apply Hnew.
  - right. split_and!; auto. lia.
Qed.

Lemma stored_get_queue qs c queue_id : stored qs c ->
  let q := default new_queue (qs !! queue_id) in
  stored_queue q /\ holds queue_id (events q) c.
Proof.
  intros Hst. destruct (qs !! queue_id) as [q|] eqn:E; simpl.
  - split; [apply (st_queues _ _ Hst _ _ E)|apply (st_holds _ _ Hst _ _ E)].
  - repeat constructor.
Qed.

Lemma wf_same_gc t queue_id q' cb : wf t -> queue_id <> 0 -> wf_queue q' -> gc_at q' = gc_at (get_queue queue_id t) ->
  wf (with_queue queue_id q' cb t).
Proof.
  intros Hwf Hid Hq' Hg. apply wf_replace; auto; [apply Hwf|]. intros g id. destruct (decide (id = queue_id)) as [->|Hne].
  - rewrite get_queue_gc by done. rewrite Hg. naive_solver.
  - naive_solver.
Qed.

Lemma touch_inv t queue_id : inv t -> queue_id <> 0 ->
  inv (with_queue queue_id (get_queue queue_id t) (callback_ t) t).
Proof.
  intros [Hwf Hst] Hid. split; [apply wf_same_gc; auto using get_queue_wf|]. simpl. intros c Hc.
  destruct (stored_get_queue _ _ queue_id (Hst c Hc)) as [Hq Hh]. eapply stored_update; [by apply Hst| |done].
  apply upd_refl; [apply (Hst c Hc)|done].
Qed.

Lemma touch_get_queue (t : @TQueueImpl S) queue_id k cb :
  get_queue k (with_queue queue_id (get_queue queue_id t) cb t) = get_queue k t.
Proof.
  unfold get_queue, with_queue. simpl. destruct (decide (k = queue_id)) as [->|Hne].
  - by rewrite lookup_insert_eq.
  - by rewrite lookup_insert_ne.
Qed.

Lemma drop_empty_last_live evs cb tr cb' : last_may_empty evs = true -> drop_empty_last evs cb = (tr, cb') ->
  tr = filter (fun e => live e = true) evs.
Proof.
  intros Hl Hd. destruct (drop_empty_last_spec _ _ _ _ Hl Hd) as [Ha [[-> _]|(l&->&Hl'&_)]].
  - symmetry. by apply filter_all.
  - rewrite filter_app, filter_all by done. rewrite filter_cons_False by congruence. by rewrite app_nil_r.
Qed.

Definition push_args_ok (hint rnd : Z) : Prop := 0 <= hint /\ hint + 1 < MAX_ID /\ 0 < rnd /\ rnd + 1 < MAX_ID.

(** When an event is accepted. *)
Definition accepted (queue_id : Z) (dat : list Z) (expires : Z) (q : Queue) : Prop :=
  0 < Z.of_nat (length dat) <= MAX_EVENT_LENGTH /\ queue_id <> 0 /\ 0 < expires /\
  Z.of_nat (length (events q)) < MAX_QUEUE_EVENTS /\
  total_event_length q + Z.of_nat (length dat) <= MAX_TOTAL_EVENT_LENGTH.

Definition room_for_one (t : @TQueueImpl S) : Prop := forall c, callback_ t = Some c -> 0 < room c.

(** The storage after the loop of [push]. *)
Lemma choose_id_upd queue_id qs c q' cb' : let q := default new_queue (qs !! queue_id) in
  stored qs c -> wf_queue q ->
  (events q' = events q /\ cb' = Some c /\ (tail_id q' = tail_id q \/ tail_id q = 0)) \/
  (events q' = [] /\ tail_id q = MAX_ID - 1 /\ popped queue_id 0 (events q) (total_event_length q) (Some c) [] (total_event_length q') cb') ->
  exists c1, cb' = Some c1 /\ upd queue_id (events q) c (events q') c1 /\ room c <= room c1 /\
    StronglySorted Z.lt (logs (events q')).
Proof.
  intros q0 Hst Hwq Hcase. destruct (stored_get_queue _ _ queue_id Hst) as [[Hls _] Hh]. fold q0 in Hls, Hh.
  pose proof (st_ok _ _ Hst) as Hok. destruct Hcase as [(->&->&_)|(->&_&Hp)].
  - exists c. split_and!; auto using upd_refl. lia.
  - destruct Hwq as [Ht [Hs Hw _] _ _ _ _].
    destruct (popped_upd (tail_id q0) queue_id 0 (events q0) (total_event_length q0) c [] (total_event_length q') cb')
      as (c1&->&Hu&Hr); auto using sorted_NoDup; [lia|]. exists c1. split_and!; auto. constructor.
Qed.

Lemma push_accepted queue_id dat expires ext hint rnd t : inv t -> push_args_ok hint rnd -> typed queue_id dat expires ext -> room_for_one t ->
  accepted queue_id dat expires (get_queue queue_id t) ->
  let q := get_queue queue_id t in
  exists id t' lid, push queue_id dat expires ext hint rnd t = Ok (Ok id, t') /\ inv t' /\
    spared 1 t t' /\ 0 < id /\ get_tail queue_id t' = id + 1 /\
    (tail_id q <> 0 -> tail_id q <> MAX_ID - 1 -> id = tail_id q) /\
    (forall k, k <> queue_id -> queues_ t' !! k = queues_ t !! k) /\
    events (get_queue queue_id t') =
      (if tail_id q =? MAX_ID - 1 then [] else filter (fun e => live e = true) (events q)) ++
      [{| log_event_id := lid; event_id := id; expires_at := expires; data := dat; extra := ext |}].
Proof.
  intros Hi (Hh1&Hh2&Hr1&Hr2) Hty Hroom (Hsz&Hid&Hexp&Hlen&Htot) q. pose proof Hi as [Hwf Hst].
  pose proof (get_queue_wf t queue_id Hwf) as Hwq. fold q in Hwq, Hlen, Htot.
  unfold push. fold q. rewrite u64_total_sub by lia. repeat decide_if. cbv iota zeta.
  change (callback_ (with_queue queue_id q (callback_ t) t)) with (callback_ t).
  destruct (choose_id_spec queue_id hint rnd q (callback_ t)) as (q'&cb'&->&Hwq'&Ht1&Ht2&Hg&Hcase); auto. cbn [res_bind fst snd].
  rewrite with_queue_twice. set (t1 := with_queue queue_id q' cb' t).
  assert (get_queue queue_id t1 = q') as Eq1 by (unfold get_queue; simpl; by rewrite lookup_insert_eq).
  assert (wf t1) as Hwf1 by (by apply wf_same_gc).
  set (e := {| log_event_id := 0; event_id := tail_id q'; expires_at := expires; data := dat; extra := ext |}).
  assert (pushable e q') as Hp.
  { split; simpl; auto; [lia|unfold data_size; simpl; lia|..].
    - destruct Hcase as [(->&_)|(->&_)]; simpl; lia.
    - unfold data_size. simpl. rewrite (wq_total _ Hwq'). rewrite (wq_total _ Hwq) in Htot. pose proof (total_nonneg (events q)).
      destruct Hcase as [(->&_)|(->&_)]; simpl; lia. }
  destruct (drop_empty_last (events q') cb') as [tr cb1] eqn:Ed.
  destruct (do_push_spec t1 queue_id e tr cb1) as (t2&e'&n&g&->&Hwf2&Hse&Hq2); auto; [by rewrite Eq1|by rewrite Eq1|].
  simpl. exists (tail_id q'), t2, (log_event_id e').
  assert (get_queue queue_id t2 = {| tail_id := tail_id q' + 1; events := tr ++ [e']; total_event_length := n; gc_at := g |})
    as Eq2 by (unfold get_queue; by rewrite Hq2, lookup_insert_eq).
  assert (queues_ t2 = <[queue_id := get_queue queue_id t2]> (queues_ t)) as Hq2' by (rewrite Eq2, Hq2; simpl; by rewrite insert_insert_eq).
  pose proof (store_event_same _ _ _ _ _ Hse) as He'.
  assert ((forall c, callback_ t2 = Some c -> stored (queues_ t2) c) /\ spared 1 t t2) as [Hst2 Hroom2].
  { unfold spared, room_of. destruct (callback_ t) as [c|] eqn:Ec.
    - destruct (choose_id_upd queue_id (queues_ t) c q' cb') as (c1&->&Hu&Hr&Hls); auto.
      destruct (push_upd queue_id (events q') c1 tr cb1 e e' (callback_ t2)) as (c2&->&Hu2&Hrm2&Hls2);
        auto; [apply Hwq'|apply Hu|apply Hu|split; [done|split; [simpl; lia|unfold data_size; simpl; lia]]|specialize (Hroom c Ec); lia|].
      simpl. split; [|constructor; lia]. intros ? [= <-]. rewrite Hq2'. eapply stored_update; [by apply Hst| |].
      + rewrite Eq2. simpl. by eapply upd_trans.
      + rewrite Eq2. split; simpl; [done|]. rewrite last_snoc, He'. done.
    - assert (cb' = None) as -> by (destruct Hcase as [(_&->&_)|(_&_&Hpp)]; [done|by eapply popped_none]).
      unfold drop_empty_last in Ed. assert (cb1 = None) as -> by (destruct (last (events q')) as [l|]; [destruct (data_empty l)|]; by simplify_eq).
      simpl in Hse. injection Hse as _ <-. split; [done|constructor]. }
  split_and!; auto.
  - by split.
  - unfold get_tail. rewrite Hq2', lookup_insert_eq, Eq2. done.
  - intros Hn0 HnM. destruct Hcase as [(_&_&[?|?])|(_&?&_)]; congruence.
  - intros k Hk. rewrite Hq2'. by rewrite lookup_insert_ne.
  - rewrite Eq2. simpl. f_equal; [|by rewrite He'].
    rewrite (drop_empty_last_live _ _ _ _ (we_last _ _ (wq_events _ Hwq')) Ed).
    destruct Hcase as [(->&_&Ht)|(->&->&_)]; [|done]. by rewrite (proj2 (Z.eqb_neq _ _)) by lia.
Qed.

Lemma push_rejected queue_id dat expires ext hint rnd t : inv t ->
  ~ accepted queue_id dat expires (get_queue queue_id t) ->
  exists m t', push queue_id dat expires ext hint rnd t = Ok (Error 0 m, t') /\ inv t' /\ spared 0 t t' /\
    forall k, get_queue k t' = get_queue k t.
Proof.
  intros Hi Hn. unfold push. pose proof Hi as [Hwf _]. unfold accepted in Hn.
  case_if; [by eauto 7 using spared_refl|]. case_if; [by eauto 7 using spared_refl|]. case_if; [by eauto 7 using spared_refl|].
  rewrite u64_total_sub by lia. pose proof (touch_inv t queue_id Hi ltac:(done)) as Hi'.
  case_if; [|case_if; [|case_if]]; [do 2 eexists; split_and!; [done|exact Hi'|exact (spared_refl t)|intros; apply touch_get_queue]..|].
  exfalso. apply Hn. split_and!; lia.
Qed.

(** ** run_gc *)

(** The next collection: it is set when an event with data is left, and it is
    not before [now] unless the clock stopped the loop. *)
Lemma gc_events_next late queue_id t now evs g n cb g' evs' n' cb' : poppable evs -> Forall (fun e => 0 < expires_at e) evs ->
  gc_events late queue_id t now g evs n cb = Ok (g', evs', n', cb') ->
  (gl_tick g <= gl_tick g')%nat /\
  (gl_new_gc_at g <> 0 -> gl_new_gc_at g' = gl_new_gc_at g) /\
  (Exists (fun e => live e = true) evs' -> gl_new_gc_at g' <> 0) /\
  (gl_new_gc_at g' = gl_new_gc_at g \/ now <= gl_new_gc_at g' \/ exists i, (i < gl_tick g')%nat /\ late i = true).
Proof.
  intros Hpp. revert g n cb g' evs' n' cb'. induction Hpp as [|e evs He Hevs IH]; intros g n cb g' evs' n' cb' Hexp Hgc; simpl in Hgc.
  { simplify_eq. split_and!; auto. by intros ?%Exists_nil. }
  apply Forall_cons_inv in Hexp as [Hx Hexp].
  set (look := Z.land (gl_counter g + 1) 128 =? 0) in *. set (tick := if look then Datatypes.S (gl_tick g) else gl_tick g) in *.
  assert (gl_tick g <= tick)%nat as Htick by (unfold tick; destruct look; lia).
  destruct (look && late (gl_tick g)) eqn:El.
  { simplify_eq. simpl. zbool. split_and!; auto.
    - intros Hg. by rewrite (proj2 (Z.eqb_neq _ _) Hg).
    - intros _. case_if; lia.
    - right. right. exists (gl_tick g). split; [|done]. unfold tick. destruct look; [lia|done]. }
  destruct ((expires_at e <? now) || data_empty e) eqn:Ee.
  { destruct He as [He1 He2].
    destruct (pop_cases queue_id t e n cb He1 He2) as [(cb1&E1&_)|(c&_&_&_&[[Hde E1]|[Hde E1]])]; rewrite E1 in Hgc; simpl in Hgc.
    all: destruct (gc_events _ _ _ _ _ evs _ _) as [[[[g1 evs1] n1] cb1']| |] eqn:Eg; simpl in Hgc; [|done..]; simplify_eq.
    all: destruct (IH _ _ _ _ _ _ _ Hexp Eg) as (Q1&Q2&Q3&Q4); simpl in *; split_and!; auto; [lia|..].
    all: intros Hex; apply Q3; inversion Hex as [? ? Hl|]; subst; auto; unfold live in Hl; rewrite ?Hde in Hl; done. }
  destruct (gl_new_gc_at g =? 0) eqn:Eg0; simpl in Hgc; zbool.
  - destruct (gc_events _ _ _ _ _ evs _ _) as [[[[g1 evs1] n1] cb1']| |] eqn:Eg; simpl in Hgc; [|done..]. simplify_eq.
    destruct (IH _ _ _ _ _ _ _ Hexp Eg) as (Q1&Q2&Q3&Q4). simpl in *. rewrite Q2 in * by lia. split_and!; auto; lia.
  - simplify_eq. simpl. split_and!; auto.
Qed.

Definition clock_ok (late : nat -> bool) : Prop := forall i j, (i <= j)%nat -> late i = true -> late j = true.

Definition due (now : Z) (gcs : list (Z * Z)) : list (Z * Z) := filter (fun p => p.1 < now) gcs.

Definition total_size (qs : gmap Z Queue) : Z := map_fold (fun _ q a => queue_size q + a) 0 qs.

Lemma total_size_insert qs k q q' : qs !! k = Some q -> total_size (<[k := q']> qs) = total_size qs - queue_size q + queue_size q'.
Proof.
  intros Hk. unfold total_size. rewrite <- (insert_delete_id qs k q Hk) at 2. rewrite <- insert_delete_eq.
  rewrite !map_fold_insert_L; try (intros; lia); try apply lookup_delete_eq.
Qed.

Lemma gc_sorted_NoDup gcs : gc_sorted gcs -> NoDup gcs.
Proof.
  induction 1 as [|x l Hs IH Hlt]; constructor; auto. intros Hx. rewrite Forall_forall in Hlt. by apply (gc_lt_irrefl x), Hlt.
Qed.

Lemma due_decreases now x gcs gcs' g : gc_sorted (x :: gcs) -> gc_sorted gcs' -> x.1 < now -> g = 0 \/ now <= g ->
  (forall g' id, (g', id) ∈ gcs' <-> (id = x.2 /\ g' = g /\ g <> 0) \/ (id <> x.2 /\ (g', id) ∈ x :: gcs)) ->
  (length (due now gcs') < length (due now (x :: gcs)))%nat.
Proof.
  intros Hs Hs' Hx Hg Hin. destruct x as [gx idx]. simpl in *.
  enough ((gx, idx) :: due now gcs' ⊆+ due now ((gx, idx) :: gcs)) as Hsub by (apply submseteq_length in Hsub; simpl in Hsub; lia).
  assert (forall g' id, (g', id) ∈ due now gcs' -> id <> idx /\ (g', id) ∈ due now ((gx, idx) :: gcs)) as Hd.
  { intros g' id. unfold due. rewrite !list_elem_of_filter, Hin. simpl. intros [Hlt [(->&->&Hn)|[Hne Hi]]]; [lia|]. auto. }
  apply NoDup_submseteq.
  - constructor.
    + intros Hi. by apply Hd in Hi as [? _].
    + apply NoDup_filter. by apply gc_sorted_NoDup.
  - intros [g' id] [[= -> ->]|Hi]%elem_of_cons; [|by apply Hd]. unfold due. apply list_elem_of_filter. simpl. split; [done|set_solver].
Qed.

Lemma wf_with_gc_at g q : wf_queue q -> (Exists (fun e => live e = true) (events q) -> g <> 0) -> wf_queue (with_gc_at g q).
Proof. intros [? ? ? ? ? ?] ?. by split. Qed.

(** Changing the scheduled collection of a queue. *)
Lemma reschedule_inv t queue_id q g gcs : inv t -> queues_ t !! queue_id = Some q ->
  (Exists (fun e => live e = true) (events q) -> g <> 0) -> gc_sorted gcs ->
  (forall g' id, (g', id) ∈ gcs <-> (id = queue_id /\ g' = g /\ g <> 0) \/ (id <> queue_id /\ (g', id) ∈ queue_gc_at_ t)) ->
  inv {| queues_ := <[queue_id := with_gc_at g q]> (queues_ t); queue_gc_at_ := gcs; callback_ := callback_ t |}.
Proof.
  intros [Hwf Hst] Hq Hg Hs Hin. split.
  - apply wf_replace; auto; [|apply wf_with_gc_at; [apply (wf_queues _ Hwf _ _ Hq)|done]].
    intros ->. rewrite (wf_zero _ Hwf) in Hq. done.
  - simpl. intros c Hc. specialize (Hst c Hc). destruct (stored_get_queue _ _ queue_id Hst) as [Hsq Hh]. rewrite Hq in Hsq, Hh. simpl in *.
    eapply stored_update; [done|rewrite Hq; simpl; apply upd_refl; [apply Hst|done]|by destruct Hsq].
Qed.

Lemma run_gc_loop_spec fuel late now deleted counter tick t : inv t -> clock_ok late ->
  (length (due now (queue_gc_at_ t)) <= fuel)%nat ->
  exists deleted' done t', run_gc_loop fuel late now deleted counter tick t = Ok (deleted', done, t') /\ inv t' /\
    spared 0 t t' /\ deleted' - deleted = total_size (queues_ t) - total_size (queues_ t') /\
    (done = true -> Forall (fun p => now <= p.1) (queue_gc_at_ t')) /\ (done = false -> exists i, late i = true).
Proof.
  intros Hi Hclock. revert deleted counter tick t Hi. induction fuel as [|fuel IH]; intros deleted counter tick t Hi Hfuel.
  all: pose proof Hi as [Hwf Hst]; destruct (queue_gc_at_ t) as [|[g queue_id] gcs] eqn:Eg; simpl; rewrite Eg.
  1, 3: do 3 eexists; split_and!; [done|done|apply spared_refl|lia|rewrite Eg; constructor|done].
  all: pose proof (wf_gc_sorted _ Hwf) as Hs; rewrite Eg in Hs.
  all: destruct (now <=? g) eqn:En; zbool; [do 3 eexists; split_and!; [done|done|apply spared_refl|lia| |done]; intros _; rewrite Eg;
    inversion Hs as [|? ? Hs' Hlt]; subst; constructor; [done|];
    eapply Forall_impl; [exact Hlt|]; unfold gc_lt; simpl; intros; lia|].
  { exfalso. unfold due in Hfuel. rewrite filter_cons_True in Hfuel by (simpl; lia). simpl in Hfuel. lia. }
  assert ((g, queue_id) ∈ queue_gc_at_ t) as Hin by (rewrite Eg; set_solver).
  apply (wf_gc _ Hwf) in Hin as (q&Hq&Hgq&Hg0).
  assert (get_queue queue_id t = q) as Egq by (unfold get_queue; by rewrite Hq). rewrite Egq, Hgq, Z.eqb_refl.
  pose proof (inv_poppable _ _ _ Hi Hq) as Hpp. pose proof (wf_queues _ Hwf _ _ Hq) as Hwq. simpl in Hwq.
  destruct (gc_events_spec late queue_id (tail_id q) now (events q)
    {| gl_counter := counter; gl_tick := tick; gl_new_gc_at := 0 |} (total_event_length q) (callback_ t) Hpp) as (gl&evs&n&cb&Egc&Hp).
  rewrite Egc. simpl. destruct (popped_inv t queue_id q evs n cb Hi Hq Hp) as (Hi1&Hr1&Hn&Hsh).
  set (q1 := with_events evs n q) in *. set (t1 := with_queue queue_id q1 cb t) in *.
  assert (queues_ t1 !! queue_id = Some q1) as Hq1 by (simpl; by rewrite lookup_insert_eq).
  assert (queue_size q1 <= queue_size q) as Hsize.
  { rewrite !queue_size_live; [|done|apply (wf_queues _ (proj1 Hi1) _ _ Hq1)]. apply shrunk_live in Hsh. simpl. lia. }
  rewrite (proj2 (Z.leb_le _ _) Hsize).
  assert (Forall (fun e => 0 < expires_at e) (events q)) as Hexp
    by (eapply Forall_impl; [apply Hwq|]; intros x Hx; apply Hx).
  destruct (gc_events_next _ _ _ _ _ _ _ _ _ _ _ _ Hpp Hexp Egc) as (_&_&Hlive&Hnext). simpl in Hnext.
  destruct (schedule_queue_gc_spec queue_id q1 (gl_new_gc_at gl) ((g, queue_id) :: gcs)) as (gcs'&->&Hs2&Hin2); [done| |].
  { intros g'. rewrite <- Eg, (wf_gc _ Hwf), Hq. simpl. naive_solver. }
  simpl. set (t2 := {| queues_ := _; queue_gc_at_ := gcs'; callback_ := cb |}).
  assert (inv t2) as Hi2.
  { replace t2 with {| queues_ := <[queue_id := with_gc_at (gl_new_gc_at gl) q1]> (queues_ t1); queue_gc_at_ := gcs';
      callback_ := callback_ t1 |} by (unfold t2, t1; simpl; by rewrite insert_insert_eq).
    apply reschedule_inv; auto. intros g' id. rewrite Hin2. simpl. by rewrite Eg. }
  assert (spared 0 t t2) as Hr2 by exact Hr1.
  assert (total_size (queues_ t2) = total_size (queues_ t) - queue_size q + queue_size q1) as Hts.
  { unfold t2. simpl. by rewrite (total_size_insert _ _ q _ Hq). }
  destruct (late (gl_tick gl)) eqn:El.
  { do 3 eexists. split_and!; [done|done|done|lia|done|eauto]. }
  edestruct (IH (deleted + (queue_size q - queue_size q1)) (gl_counter gl) (Datatypes.S (gl_tick gl)) t2 Hi2)
    as (d&b&t'&E&Hi'&Hr'&Hd&Hdone); [|].
  { enough (length (due now gcs') < length (due now ((g, queue_id) :: gcs)))%nat by (simpl in *; lia).
    eapply (due_decreases now (g, queue_id) gcs gcs' (gl_new_gc_at gl)); auto.
    destruct Hnext as [->|[?|(i&Hi'&Hl)]]; auto. exfalso. rewrite (Hclock i (gl_tick gl)) in El; [done|lia|done]. }
  exists d, b, t'. split_and!; auto; [by eapply spared_trans|lia|tauto..].
Qed.

(** ** Replay *)

(** The events of one queue in a list of stored events. *)
Definition of_queue (queue_id : Z) (l : list (Z * (Z * RawEvent))) : list RawEvent :=
  map (fun x => set_log_event_id x.1 x.2.2) (filter (fun x => x.2.1 = queue_id) l).

(** The tail is the id after the last event. *)
Definition tail_follows (q : Queue) : Prop :=
  match last (events q) with Some e => event_id e + 1 = tail_id q | None => tail_id q = 0 end.

Lemma prefix_live a e b : last_may_empty (a ++ e :: b) = true -> Forall (fun e => live e = true) a.
Proof.
  induction a as [|x a IH]; simpl app; intros Hl; [done|]. apply last_may_empty_cons in Hl as [[Hn|Hx] Hl]; [by destruct a|].
  constructor; auto.
Qed.

Lemma drop_empty_last_all evs : Forall (fun e => live e = true) evs -> drop_empty_last evs (@None S) = (evs, None).
Proof.
  intros Ha. unfold drop_empty_last. destruct (last evs) as [l|] eqn:E; [|done]. apply last_Some in E as [a ->].
  apply Forall_app in Ha as [_ Ha]. apply Forall_cons_inv in Ha as [Hl _]. unfold live in Hl. apply negb_true_iff in Hl. by rewrite Hl.
Qed.

Lemma StronglySorted_app_lt (a : list Z) x b : StronglySorted Z.lt (a ++ x :: b) -> Forall (fun y => y < x) a.
Proof.
  induction a as [|y a IH]; simpl; intros Hs; [done|]. inversion Hs as [|? ? Hs' Hlt]; subst. constructor; [|by apply IH].
  rewrite Forall_forall in Hlt. apply Hlt. set_solver.
Qed.

(** The next event of a queue can be pushed. *)
Lemma next_pushable q pre e rest q1 : wf_queue q -> events q = pre ++ e :: rest -> wf_queue q1 -> events q1 = pre -> tail_follows q1 ->
  pushable e q1.
Proof.
  intros [Q1 [Q2 Q3 Q4] Q5 Q6 Q7 _] He Hwq1 He1 Ht. rewrite He in *. pose proof (wq_total _ Hwq1) as Htot.
  assert (wf_event (tail_id q) e) as [W1 W2 W3] by (rewrite Forall_forall in Q3; apply Q3; set_solver).
  assert (Forall (fun y => y < event_id e) (ids pre)) as Hlt.
  { unfold ids in Q2. rewrite map_app in Q2. simpl in Q2. by eapply StronglySorted_app_lt. }
  rewrite total_app in Q7. simpl in Q7. pose proof (total_nonneg rest). rewrite length_app in Q6. simpl in Q6.
  split; auto; try lia.
  - unfold tail_follows in Ht. rewrite He1 in Ht. destruct (last pre) as [l|] eqn:El; [|lia]. rewrite <- Ht.
    apply last_Some in El as [a ->]. unfold ids in Hlt. rewrite map_app in Hlt. apply Forall_app in Hlt as [_ Hlt].
    apply Forall_cons_inv in Hlt as [Hlt _]. lia.
  - rewrite He1. lia.
  - rewrite Htot, He1. lia.
Qed.

Lemma replay_list_spec (t0 : @TQueueImpl S) l (t : @TQueueImpl S) :
  wf t0 -> wf t -> callback_ t = None ->
  (forall k, events (get_queue k t0) = events (get_queue k t) ++ of_queue k l) ->
  (forall k, tail_follows (get_queue k t)) ->
  exists t', replay_list l t = Ok t' /\ wf t' /\ callback_ t' = None /\
    forall k, events (get_queue k t') = events (get_queue k t0) /\ tail_follows (get_queue k t').
Proof.
  intros Hwf0. revert t. induction l as [|[id [queue_id e]] l IH]; intros t Hwf Hcb Hev Htail; simpl.
  { exists t. split_and!; auto. intros k. specialize (Hev k). unfold of_queue in Hev. simpl in Hev. rewrite app_nil_r in Hev. auto. }
  set (e1 := set_log_event_id id e).
  assert (events (get_queue queue_id t0) = events (get_queue queue_id t) ++ e1 :: of_queue queue_id l) as Hq.
  { rewrite Hev. unfold of_queue. rewrite filter_cons_True by done. done. }
  assert (queue_id <> 0) as Hid.
  { intros ->. unfold get_queue at 1 in Hq. rewrite (wf_zero _ Hwf0) in Hq. simpl in Hq. by destruct (events (get_queue 0 t)). }
  assert (drop_empty_last (events (get_queue queue_id t)) (callback_ t) = (events (get_queue queue_id t), None)) as Hd.
  { rewrite Hcb. apply drop_empty_last_all. eapply prefix_live. rewrite <- Hq. apply (get_queue_wf t0 queue_id Hwf0). }
  destruct (do_push_spec t queue_id e1 (events (get_queue queue_id t)) None) as (t'&e'&n&g&->&Hwf'&Hse&Hq'); auto.
  { eapply next_pushable; [by apply (get_queue_wf t0 queue_id)|exact Hq|by apply get_queue_wf|done|done]. }
  simpl in Hse. injection Hse as <- Hcb'. simpl. apply IH; auto.
  - intros k. unfold get_queue at 2. rewrite Hq'. destruct (decide (k = queue_id)) as [->|Hne].
    + rewrite lookup_insert_eq. simpl. rewrite Hq, <- app_assoc. done.
    + rewrite lookup_insert_ne by done. rewrite Hev. unfold of_queue. rewrite filter_cons_False by (simpl; congruence). done.
  - intros k. unfold get_queue. rewrite Hq'. destruct (decide (k = queue_id)) as [->|Hne].
    + rewrite lookup_insert_eq. unfold tail_follows. simpl. rewrite last_snoc. done.
    + rewrite lookup_insert_ne by done. apply Htail.
Qed.

(** A list of the stored events, in the order of their log ids. *)
Definition lists (l : list (Z * (Z * RawEvent))) (c : S) : Prop :=
  StronglySorted Z.lt (map fst l) /\
  forall id k e', contents c !! id = Some (k, e') <-> exists e, (id, (k, e)) ∈ l /\ e' = set_log_event_id id e.

Lemma logs_sorted evs : StronglySorted Z.lt (logs evs) -> StronglySorted (fun a b => log_event_id a < log_event_id b) evs.
Proof.
  induction evs as [|e evs IH]; simpl; intros Hs; [constructor|]. inversion Hs as [|? ? Hs' Hlt]; subst.
  constructor; [by apply IH|]. exact (proj1 (Forall_map _ _ _) Hlt).
Qed.

Lemma logs_of_queue k l : logs (of_queue k l) `sublist_of` map fst l.
Proof.
  induction l as [|[id [k' e]] l IH]; [constructor|]. unfold of_queue. destruct (decide (k' = k)) as [->|Hne].
  - rewrite filter_cons_True by done. simpl. by constructor.
  - rewrite filter_cons_False by (simpl; congruence). by constructor.
Qed.

Lemma elem_of_of_queue k l e' : e' ∈ of_queue k l <-> exists id e, (id, (k, e)) ∈ l /\ e' = set_log_event_id id e.
Proof.
  unfold of_queue. rewrite list_elem_of_fmap. split.
  - intros ([id [k' e]]&->&Hin). apply list_elem_of_filter in Hin as [Hk Hin]. simpl in Hk. subst. eauto.
  - intros (id&e&Hin&->). exists (id, (k, e)). split; [done|]. by apply list_elem_of_filter.
Qed.

Lemma of_queue_stored (t : @TQueueImpl S) c l k : stored (queues_ t) c -> lists l c -> of_queue k l = events (get_queue k t).
Proof.
  intros Hst [Hs Hl]. destruct (stored_get_queue _ _ k Hst) as [[Hls _] Hh]. fold (get_queue k t) in Hls, Hh.
  assert (StronglySorted Z.lt (logs (of_queue k l))) as Hs' by (eapply StronglySorted_sublist; [apply logs_of_queue|done]).
  assert (forall evs, StronglySorted Z.lt (logs evs) -> NoDup evs) as Hnd.
  { intros evs ?%sorted_NoDup. by eapply NoDup_fmap_1. }
  apply (StronglySorted_unique_strong (fun a b => log_event_id a < log_event_id b)).
  - intros. lia.
  - by apply logs_sorted.
  - by apply logs_sorted.
  - apply NoDup_Permutation; [by apply Hnd..|]. intros e. rewrite elem_of_of_queue. split.
    + intros (id&x&Hin&->). assert (contents c !! id = Some (k, set_log_event_id id x)) as Hc by (apply Hl; eauto).
      destruct (st_back _ _ Hst _ _ _ Hc) as (q&Hq&He&_). unfold get_queue. by rewrite Hq.
    + intros He. unfold holds in Hh. rewrite Forall_forall in Hh. specialize (Hh e He). simpl in Hh.
      apply Hl in Hh as (x&Hin&->). eauto.
Qed.

(** Replaying what is stored into an empty set of queues restores the queues. *)
Lemma replay_stored t c l : inv t -> callback_ t = Some c -> lists l c ->
  exists t', replay_list l create = Ok t' /\ inv (set_callback c t') /\
    forall k, tail_id (get_queue k t') = tail_id (get_queue k t) /\ events (get_queue k t') = events (get_queue k t) /\
      total_event_length (get_queue k t') = total_event_length (get_queue k t).
Proof.
  intros [Hwf Hst] Hc Hl. specialize (Hst c Hc).
  assert (wf create) as Hwf0.
  { split; simpl; [apply map_Forall_empty|done|constructor|]. intros g id. split; [set_solver|]. intros (q&Hq&_). done. }
  assert (forall k, get_queue k (@create S) = new_queue) as Hnew by done.
  destruct (replay_list_spec t l create) as (t'&E&Hwf'&Hcb&Hev); auto.
  { intros k. rewrite Hnew. simpl. symmetry. by eapply of_queue_stored. }
  { intros k. done. }
  exists t'. assert (forall k, tail_id (get_queue k t') = tail_id (get_queue k t)) as Htail.
  { intros k. destruct (Hev k) as [He Ht]. unfold tail_follows in Ht. rewrite He in Ht.
    destruct (stored_get_queue _ _ k Hst) as [[_ Hlast] _]. fold (get_queue k t) in Hlast.
    destruct (last (events (get_queue k t))); congruence. }
  split_and!; auto.
  - split; [by destruct Hwf'|]. simpl. intros ? [= <-].
    assert (forall k q, queues_ t' !! k = Some q -> q = get_queue k t') as Hgq by (intros k q Hq; unfold get_queue; by rewrite Hq).
    split.
    + apply Hst.
    + intros k q Hq. apply Hgq in Hq as ->. destruct (Hev k) as [He Ht]. destruct (stored_get_queue _ _ k Hst) as [[Hs _] _].
      split; [by rewrite He|done].
    + intros k q Hq. apply Hgq in Hq as ->. destruct (Hev k) as [He _]. rewrite He. by destruct (stored_get_queue _ _ k Hst).
    + intros id k e Hin. destruct (st_back _ _ Hst _ _ _ Hin) as (q&Hq&He&Hlog). destruct (Hev k) as [Hev' _].
      assert (get_queue k t = q) as Egq by (unfold get_queue; by rewrite Hq). rewrite Egq in Hev'.
      unfold get_queue in Hev'. destruct (queues_ t' !! k) as [q'|]; simpl in Hev'; [|rewrite <- Hev' in He; set_solver].
      exists q'. by rewrite Hev'.
  - intros k. destruct (Hev k) as [He _]. split_and!; auto.
    rewrite (wq_total _ (get_queue_wf t' k Hwf')), (wq_total _ (get_queue_wf t k Hwf)). by rewrite He.
Qed.
End stored.

(** ** The memory storage keeps the laws. *)
Definition ms_contents (st : TQueueMemoryStorage) : gmap Z (Z * RawEvent) :=
  map_imap (fun id x => Some (x.1, set_log_event_id id x.2)) (ms_events_ st).

Definition ms_ok (st : TQueueMemoryStorage) : Prop :=
  1 <= next_log_event_id_ st < 2 ^ 64 /\ map_Forall (fun id _ => 0 < id < next_log_event_id_ st) (ms_events_ st).

Lemma ms_contents_lookup st id : ms_contents st !! id = (fun x => (x.1, set_log_event_id id x.2)) <$> ms_events_ st !! id.
Proof. unfold ms_contents. rewrite map_lookup_imap. by destruct (ms_events_ st !! id). Qed.

Lemma set_log_event_id_same e : set_log_event_id (log_event_id e) e = e.
Proof. by destruct e. Qed.

Lemma ms_pop_law st id : ms_ok st ->
  ms_ok (ms_pop id st) /\ next_log_event_id_ (ms_pop id st) = next_log_event_id_ st /\
  ms_contents (ms_pop id st) = delete id (ms_contents st).
Proof.
  intros [H1 H2]. split_and!; [split; [done|]|done|].
  - by apply map_Forall_delete.
  - apply map_eq. intros i. rewrite ms_contents_lookup. simpl. destruct (decide (i = id)) as [->|Hne].
    + by rewrite !lookup_delete_eq.
    + by rewrite !lookup_delete_ne, ms_contents_lookup.
Qed.

#[export] Program Instance memory_storage_laws : StorageLaws TQueueMemoryStorage := {
  storage_ok := ms_ok;
  contents := ms_contents;
  last_log_id st := next_log_event_id_ st - 1;
  room st := 2 ^ 64 - 1 - next_log_event_id_ st;
}.
Next Obligation.
  intros st id x [H1 H2] Hx. rewrite ms_contents_lookup in Hx. destruct (ms_events_ st !! id) as [y|] eqn:E; [|done].
  specialize (H2 id y E). simpl in H2. lia.
Qed.
Next Obligation. intros st [H1 _]. lia. Qed.
Next Obligation.
  intros st queue_id e id st' [H1 H2] _ He Hr Hp. unfold cb_push, memory_storage, ms_push in Hp. rewrite He in Hp. simpl in Hp.
  simplify_eq. simpl. rewrite u64_small by (unfold is_u64; lia). split_and!; try lia.
  - split; simpl; [lia|]. apply map_Forall_insert_2; [lia|]. eapply map_Forall_impl; [exact H2|]. simpl. lia.
  - apply map_eq. intros i. rewrite ms_contents_lookup. simpl. destruct (decide (i = next_log_event_id_ st)) as [->|Hne].
    + by rewrite !lookup_insert_eq.
    + by rewrite !lookup_insert_ne, ms_contents_lookup.
Qed.
Next Obligation.
  intros st queue_id e id st' [H1 H2] He _ Hp. rewrite ms_contents_lookup in He.
  destruct (ms_events_ st !! log_event_id e) as [y|] eqn:E; [|done]. pose proof (H2 _ _ E) as Hb. simpl in Hb.
  unfold cb_push, memory_storage, ms_push in Hp. cbn [log_event_id clear_data] in Hp. rewrite (proj2 (Z.eqb_neq (log_event_id e) 0)) in Hp by lia. simplify_eq. simpl.
  split_and!; try lia.
  - split; simpl; [lia|]. by apply map_Forall_insert_2.
  - apply map_eq. intros i. rewrite ms_contents_lookup. simpl. destruct (decide (i = log_event_id e)) as [->|Hne].
    + by rewrite !lookup_insert_eq.
    + by rewrite !lookup_insert_ne, ms_contents_lookup.
Qed.
Next Obligation. intros st id Hok _. destruct (ms_pop_law st id Hok) as (?&Hn&?). simpl. unfold ms_pop in *. simpl in *. split_and!; auto; lia. Qed.
Next Obligation.
  intros st l Hok _ _. simpl. unfold default_pop_batch. revert st Hok. induction l as [|x l IH]; intros st Hok; simpl; [split_and!; auto; lia|].
  destruct (ms_pop_law st x Hok) as (Hok1&Hn1&Hc1). destruct (IH _ Hok1) as (Hok2&Hn2&Hr2&Hc2). split_and!; [done|lia|lia|].
  intros id. rewrite Hc2, Hc1. destruct (decide (id ∈ l)) as [Hl|Hl].
  - rewrite !bool_decide_true; [done|set_solver|done].
  - rewrite (bool_decide_false (id ∈ l)) by done. destruct (decide (id = x)) as [->|Hne].
    + rewrite lookup_delete_eq, bool_decide_true; [done|set_solver].
    + rewrite lookup_delete_ne, bool_decide_false; [done|set_solver|done].
Qed.

Lemma map_entries_sorted {A} (m : gmap Z A) : StronglySorted Z.lt (map fst (map_entries m)).
Proof.
  unfold map_entries.
  assert (Transitive (@key_le A)) as Ht by (unfold key_le; intros ? ? ? ? ?; lia).
  assert (Total (@key_le A)) as Hto by (unfold key_le; intros ? ?; lia).
  pose proof (Sorted_StronglySorted _ _ (Sorted_merge_sort key_le (map_to_list m))) as Hs.
  pose proof (NoDup_fst_map_to_list m) as Hnd. rewrite <- (merge_sort_Permutation key_le) in Hnd.
  change (fst <$> ?l) with (map fst l) in Hnd. revert Hs Hnd. generalize (merge_sort key_le (map_to_list m)).
  induction 1 as [|x l Hs IH Hle]; simpl; intros Hnd; [constructor|]. apply NoDup_cons in Hnd as [Hn Hnd].
  constructor; [by apply IH|]. apply Forall_map. rewrite Forall_forall in *. intros y Hy. specialize (Hle y Hy). unfold key_le in Hle.
  assert (x.1 <> y.1); [|lia]. intros Heq. apply Hn. rewrite Heq. by apply list_elem_of_fmap_2.
Qed.

Lemma map_entries_elem {A} (m : gmap Z A) id x : (id, x) ∈ map_entries m <-> m !! id = Some x.
Proof. unfold map_entries. rewrite merge_sort_Permutation. apply elem_of_map_to_list. Qed.

Lemma ms_lists st : lists (map_entries (ms_events_ st)) st.
Proof.
  split; [apply map_entries_sorted|]. intros id k e'. simpl. rewrite ms_contents_lookup. split.
  - destruct (ms_events_ st !! id) as [[k1 e1]|] eqn:E; simpl; [|done]. intros [= -> <-]. exists e1. by rewrite map_entries_elem.
  - intros (e&Hin&->). apply map_entries_elem in Hin. by rewrite Hin.
Qed.

(** ** The claims *)
Inductive tq_op :=
| TPush (queue_id : Z) (dat : list Z) (expires extra hint rnd : Z)
| TForget (queue_id id : Z)
| TClear (queue_id : Z) (keep_count : nat)
| TGet (queue_id from_id : Z) (forget_previous : bool) (now : Z) (n : nat)
| TGc (late : nat -> bool) (now : Z).

Section claims.
Context {S : Type} `{StorageLaws S}.

Definition tq_step (o : tq_op) (t : @TQueueImpl S) : Res (@TQueueImpl S) :=
  match o with
  | TPush queue_id dat expires ext hint rnd => let* (_, t) := push queue_id dat expires ext hint rnd t in Ok t
  | TForget queue_id id => forget queue_id id t
  | TClear queue_id k => Ok (snd (clear queue_id k t))
  | TGet queue_id from fp now n => let* (_, t) := get queue_id from fp now n t in Ok t
  | TGc late now => let* (_, t) := run_gc late now t in Ok t
  end.

Fixpoint tq_run (os : list tq_op) (t : @TQueueImpl S) : Res (@TQueueImpl S) :=
  match os with
  | [] => Ok t
  | o :: os => let* t := tq_step o t in tq_run os t
  end.

Definition tq_op_ok (o : tq_op) : Prop :=
  match o with
  | TPush queue_id dat expires ext hint rnd => push_args_ok hint rnd /\ typed queue_id dat expires ext
  | TGc late _ => clock_ok late
  | _ => True
  end.

(** Log ids are left for the given number of events. *)
Definition room_for (n : nat) (t : @TQueueImpl S) : Prop := forall r, room_of t = Some r -> Z.of_nat n <= r.

(** A state after an operation; a storage stays attached. *)
Definition next_state (n : nat) (t t' : @TQueueImpl S) : Prop :=
  inv t' /\ room_for n t' /\ (is_Some (callback_ t) -> is_Some (callback_ t')).

Lemma next_state_spared k n (t t' : @TQueueImpl S) : k <= 1 -> inv t' -> spared k t t' -> room_for (Datatypes.S n) t -> next_state n t t'.
Proof.
  intros Hk Hi E Hr. unfold next_state, spared, room_for, room_of in *. split_and!; [done|..];
    destruct (callback_ t) as [c|], (callback_ t') as [c'|]; simpl in E; try (by inversion E); try done.
  assert (room c - k <= room c') by (by inversion E). intros r Hr'. simpl in *. specialize (Hr _ eq_refl). simplify_eq. lia.
Qed.

Lemma next_state_eq n (t t' : @TQueueImpl S) : inv t' -> spared 0 t t' -> room_for (Datatypes.S n) t -> next_state n t t'.
Proof. apply next_state_spared. lia. Qed.

Lemma accepted_dec queue_id dat expires q : Decision (accepted queue_id dat expires q).
Proof. unfold accepted. apply _. Qed.

Lemma get_inv queue_id from fp now n (t : @TQueueImpl S) : inv t ->
  exists r t', get queue_id from fp now n t = Ok (r, t') /\ inv t' /\ spared 0 t t'.
Proof.
  intros Hi. destruct (queues_ t !! queue_id) as [q|] eqn:Hq; [|unfold get; rewrite Hq; eauto using spared_refl].
  destruct (tail_id q + 10 <? from) eqn:E1; [unfold get; rewrite Hq, E1; eauto using spared_refl|].
  destruct (from <? get_queue_head q - MAX_QUEUE_EVENTS) eqn:E2; [unfold get; rewrite Hq, E1, E2; eauto using spared_refl|].
  zbool. destruct (get_spec queue_id from fp now n t q) as (t'&->&?&?); eauto.
Qed.

Lemma run_gc_spec late now (t : @TQueueImpl S) : inv t -> clock_ok late ->
  exists deleted done t', run_gc late now t = Ok (deleted, done, t') /\ inv t' /\ spared 0 t t' /\
    deleted = total_size (queues_ t) - total_size (queues_ t') /\
    (done = true -> Forall (fun p => now <= p.1) (queue_gc_at_ t')) /\ (done = false -> exists i, late i = true).
Proof.
  intros Hi Hc. unfold run_gc.
  destruct (run_gc_loop_spec (length (queue_gc_at_ t)) late now 0 0 0 t) as (d&b&t'&->&?&?&?&?&?); auto.
  { apply length_filter. }
  exists d, b, t'. split_and!; auto. lia.
Qed.

Lemma tq_step_inv o n t : inv t -> tq_op_ok o -> room_for (Datatypes.S n) t ->
  exists t', tq_step o t = Ok t' /\ next_state n t t'.
Proof.
  intros Hi Ho Hr. destruct o as [queue_id dat expires ext hint rnd|queue_id id|queue_id k|queue_id from fp now m|late now]; simpl in *.
  - destruct (accepted_dec queue_id dat expires (get_queue queue_id t)) as [Ha|Ha].
    + destruct (push_accepted queue_id dat expires ext hint rnd t Hi (proj1 Ho) (proj2 Ho)) as (id&t'&lid&->&Hi'&Hr'&_); [|done|].
      { intros c Hc. assert (Z.of_nat (Datatypes.S n) <= room c); [|lia]. apply Hr. unfold room_of. by rewrite Hc. }
      exists t'. split; [done|]. by apply (next_state_spared 1).
    + destruct (push_rejected queue_id dat expires ext hint rnd t Hi Ha) as (m&t'&->&?&?&_). eauto using next_state_eq.
  - destruct (forget_inv queue_id id t Hi) as (t'&->&?&?). eauto using next_state_eq.
  - destruct (clear_inv queue_id k t Hi) as (d&t'&->&?&?). eauto using next_state_eq.
  - destruct (get_inv queue_id from fp now m t Hi) as (r&t'&->&?&?). eauto using next_state_eq.
  - destruct (run_gc_spec late now t Hi Ho) as (d&b&t'&->&?&?&_). eauto using next_state_eq.
Qed.

Lemma tq_run_inv os t : inv t -> Forall tq_op_ok os -> room_for (length os) t ->
  exists t', tq_run os t = Ok t' /\ next_state 0 t t'.
Proof.
  intros Hi Ho. revert t Hi. induction Ho as [|o os Ho Hos IH]; intros t Hi Hr; simpl; [by exists t|].
  destruct (tq_step_inv o (length os) t Hi Ho Hr) as (t'&->&Hi'&Hr'&Hc'). simpl.
  destruct (IH t' Hi' Hr') as (t2&->&Hi2&Hr2&Hc2). exists t2. split; [done|]. split_and!; auto.
Qed.

Lemma fresh_inv c : storage_ok c -> contents c = ∅ -> inv (set_callback c create).
Proof.
  intros Hok Hc. split.
  - split; simpl; [apply map_Forall_empty|done|constructor|]. intros g id. split; [set_solver|]. by intros (q&Hq&_).
  - simpl. intros ? [= <-]. split; [done|apply map_Forall_empty..|]. intros id k e. by rewrite Hc.
Qed.

(** C20. Every sequence of operations on the queues, over any storage that keeps
    its laws, runs to its end: no check of the code fails, the loops of [push]
    and [run_gc] end, and the invariant holds afterwards (in each queue the ids
    grow and are below the tail, only the last event may be empty, the total
    length is the sum of the lengths; every queue with data is scheduled for
    collection and the schedule matches the queues; the storage holds exactly
    the events of the queues, under log ids that grow with the event ids). *)
Theorem tqueue_invariant os t : inv t -> Forall tq_op_ok os -> room_for (length os) t ->
  exists t', tq_run os t = Ok t' /\ inv t'.
Proof. intros Hi Ho Hr. destruct (tq_run_inv os t Hi Ho Hr) as (t'&?&?&_). eauto. Qed.

(** [push] accepts an event exactly when its data, its queue, its expiration
    date and the limits of the queue allow it; it then gets the id of the tail
    and is appended after the events that have data, the other queues staying as
    they are (the ids start again when they are used up).  A rejected event
    changes no queue. *)
Theorem tqueue_push queue_id dat expires ext hint rnd t : inv t -> push_args_ok hint rnd -> typed queue_id dat expires ext -> room_for_one t ->
  let q := get_queue queue_id t in
  exists r t', push queue_id dat expires ext hint rnd t = Ok (r, t') /\
    (is_ok r = true <-> accepted queue_id dat expires q) /\
    match r with
    | Ok id =>
        get_tail queue_id t' = id + 1 /\ (0 < tail_id q < MAX_ID - 1 -> id = tail_id q) /\
        (forall k, k <> queue_id -> queues_ t' !! k = queues_ t !! k) /\
        exists lid, events (get_queue queue_id t') =
          (if tail_id q =? MAX_ID - 1 then [] else filter (fun e => live e = true) (events q)) ++
          [{| log_event_id := lid; event_id := id; expires_at := expires; data := dat; extra := ext |}]
    | _ => forall k, get_queue k t' = get_queue k t
    end.
Proof.
  intros Hi Ha Hty Hr q. destruct (accepted_dec queue_id dat expires q) as [Hok|Hno].
  - destruct (push_accepted queue_id dat expires ext hint rnd t Hi Ha Hty Hr Hok) as (id&t'&lid&->&_&_&_&?&Htl&?&?).
    eexists _, _. split; [done|]. split; [done|]. split_and!; eauto. intros. apply Htl; unfold q in *; lia.
  - destruct (push_rejected queue_id dat expires ext hint rnd t Hi Hno) as (m&t'&->&_&_&?). eexists _, _. split; [done|]. done.
Qed.

(** [get] returns, oldest first, the first [n] events that are not before
    [from_id], have not expired and have data, and the size of the queue after
    it; it does not depend on [forget_previous].  An id too far in the future or
    in the past is an error that changes nothing. *)
Theorem tqueue_get queue_id from fp now n t q : inv t -> queues_ t !! queue_id = Some q ->
  (tail_id q + 10 < from -> get queue_id from fp now n t = Ok (Error 0 "Specified from_id is in the future", t)) /\
  (from <= tail_id q + 10 -> from < get_queue_head q - MAX_QUEUE_EVENTS ->
     get queue_id from fp now n t = Ok (Error 0 "Specified from_id is in the past", t)) /\
  (from <= tail_id q + 10 -> get_queue_head q - MAX_QUEUE_EVENTS <= from ->
     exists t', get queue_id from fp now n t =
       Ok (Ok (get_size queue_id t', take n (map to_event (filter (fun e => visible from now e = true) (events q)))), t')).
Proof.
  intros Hi Hq. split_and!.
  - intros Hf. unfold get. rewrite Hq. by decide_if.
  - intros Hf1 Hf2. unfold get. rewrite Hq. by repeat decide_if.
  - intros Hf1 Hf2. destruct (get_spec queue_id from fp now n t q) as (t'&->&_); eauto.
Qed.

(** C37. A garbage collection ends whatever the clock does, as long as it does not
    run backwards; it counts the events it deleted, and unless the clock stopped
    it no collection is due any more. *)
Theorem tqueue_gc late now t : inv t -> clock_ok late ->
  exists deleted done t', run_gc late now t = Ok (deleted, done, t') /\
    deleted = total_size (queues_ t) - total_size (queues_ t') /\
    (done = true -> Forall (fun p => now <= p.1) (queue_gc_at_ t')) /\ (done = false -> exists i, late i = true).
Proof. intros Hi Hc. destruct (run_gc_spec late now t Hi Hc) as (d&b&t'&->&_&_&?&?&?). eauto 8. Qed.
(** The last event of the queue was emptied and only keeps its id. *)
Definition last_emptied (q : Queue) : bool := match last (events q) with Some e => data_empty e | None => false end.

(** [clear] leaves at most [keep_count] events: a shorter queue is left as it
    is, and otherwise exactly [keep_count] are kept, except that when the last
    event has been emptied it is counted as one of them, although the size of
    the queue does not count it, so one event fewer than asked for is left. *)
Theorem tqueue_clear queue_id k t q : inv t -> queues_ t !! queue_id = Some q ->
  get_size queue_id (snd (clear queue_id k t)) =
    if queue_size q <=? Z.of_nat k then queue_size q
    else Z.of_nat k - (if last_emptied q && negb (Nat.eqb k 0) then 1 else 0).
Proof.
  intros Hi Hq. pose proof Hi as [Hwf Hst]. unfold clear. rewrite Hq.
  destruct (queue_size q <=? Z.of_nat k) eqn:E; zbool; [simpl; unfold get_size; by rewrite Hq|].
  assert (events q <> []) as Hne by (apply queue_size_nil; lia).
  assert (queue_size q <= Z.of_nat (length (events q))) as Hlen.
  { unfold queue_size. destruct (last (events q)); [case_if; lia|lia]. }
  destruct (Nat.eqb k 0) eqn:Ek; zbool; rewrite ?andb_false_r.
  - destruct (clear_last queue_id q (callback_ t)) as [[n q'] cb'] eqn:Ec. simpl. unfold get_size. simpl. rewrite lookup_insert_eq. simpl.
    unfold clear_last in Ec. destruct (last (events q)) as [e|] eqn:El; [|by apply last_None in El].
    apply last_Some in El as [a Ea]. rewrite Ea, removelast_last in Ec.
    assert (drop (length (a ++ [e])) (events q) = []) as Hd1 by (rewrite Ea; apply drop_all).
    assert (length (a ++ [e]) - 1 = length a)%nat as Hla by (rewrite length_app; simpl; lia).
    subst k. destruct (callback_ t) as [c|]; [|simplify_eq; by rewrite Hd1].
    destruct (log_event_id e =? 0); [simplify_eq; by rewrite Hd1|]. rewrite Hla in Ec.
    destruct (data_empty e) eqn:Ed; simpl in Ec; simplify_eq; simpl; rewrite ?Ea, drop_app_length; unfold queue_size; simpl; [by rewrite Ed|done].
  - simpl. unfold get_size. simpl. rewrite lookup_insert_eq. unfold queue_size, last_emptied. simpl.
    rewrite last_drop_lt by lia. destruct (last (events q)) as [e|] eqn:El; [|by apply last_None in El].
    rewrite length_drop, andb_true_r. destruct (data_empty e); lia.
Qed.
End claims.

(** ** Concrete states *)
Definition fresh_storage : TQueueMemoryStorage := {| next_log_event_id_ := 1; ms_events_ := ∅ |}.
Definition fresh_queues : @TQueueImpl TQueueMemoryStorage := set_callback fresh_storage create.

Lemma fresh_queues_inv : inv fresh_queues.
Proof. apply fresh_inv; [|done]. split; [done|apply map_Forall_empty]. Qed.

(** C16. What was stored is what is restored: after any sequence of operations over
    a memory storage, replaying the storage into an empty set of queues gives
    every queue the events, the tail and the total length it had, and with the
    storage attached again the invariant holds. *)
Theorem tqueue_replay os : Forall tq_op_ok os -> Z.of_nat (length os) < 2 ^ 64 - 2 ->
  exists t st t', tq_run os fresh_queues = Ok t /\ callback_ t = Some st /\ ms_replay st create = Ok t' /\
    inv (set_callback st t') /\
    forall k, tail_id (get_queue k t') = tail_id (get_queue k t) /\ events (get_queue k t') = events (get_queue k t) /\
      total_event_length (get_queue k t') = total_event_length (get_queue k t).
Proof.
  intros Ho Hn. destruct (tq_run_inv os fresh_queues fresh_queues_inv Ho) as (t&Hrun&Hi&_&Hc).
  { intros r Hr. unfold room_of in Hr. simpl in Hr. simplify_eq. lia. }
  destruct Hc as [st Hst]; [by eexists|].
  destruct (replay_stored t st (map_entries (ms_events_ st)) Hi Hst (ms_lists st)) as (t'&Hrep&Hi'&Hk).
  exists t, st, t'. done.
Qed.

Definition test_ops : list tq_op :=
  [TPush 7 [1; 2; 3] 100 5 10 3000000; TPush 7 [4] 50 0 0 3000000; TPush 8 [5; 6] 200 0 0 3000001;
   TPush 7 [7] 300 0 0 3000000; TForget 7 12; TGet 7 10 true 60 5; TClear 8 0; TGc (fun _ => false) 150].

Ltac op_ok := repeat constructor; try discriminate; try (unfold is_byte; lia).

Lemma test_ops_ok : Forall tq_op_ok test_ops.
Proof. op_ok. Defined.

Lemma tqueue_replay_witness : exists t st t', tq_run test_ops fresh_queues = Ok t /\ callback_ t = Some st /\ ms_replay st create = Ok t' /\
    inv (set_callback st t') /\
    forall k, tail_id (get_queue k t') = tail_id (get_queue k t) /\ events (get_queue k t') = events (get_queue k t) /\
      total_event_length (get_queue k t') = total_event_length (get_queue k t).
Proof. apply (tqueue_replay test_ops); [apply test_ops_ok|vm_compute; reflexivity]. Defined.

Lemma tqueue_invariant_witness : exists t', tq_run test_ops fresh_queues = Ok t' /\ inv t'.
Proof.
  apply (tqueue_invariant test_ops fresh_queues); [apply fresh_queues_inv|apply test_ops_ok|].
  intros r Hr. vm_compute in Hr. injection Hr as <-. vm_compute. discriminate.
Defined.

(** Three events in queue 7, the last one forgotten. *)
Definition test_queues : @TQueueImpl TQueueMemoryStorage :=
  match tq_run (take 2 test_ops ++ [TPush 7 [7] 300 0 0 3000000; TForget 7 12]) fresh_queues with Ok t => t | _ => fresh_queues end.

Lemma test_queues_inv : inv test_queues.
Proof.
  assert (Forall tq_op_ok (take 2 test_ops ++ [TPush 7 [7] 300 0 0 3000000; TForget 7 12])) as Ho by op_ok.
  destruct (tq_run_inv _ fresh_queues fresh_queues_inv Ho) as (t&E&Hi&_).
  { intros r Hr. vm_compute in Hr. injection Hr as <-. vm_compute. discriminate. }
  unfold test_queues. by rewrite E.
Qed.

Lemma tqueue_push_witness :
  is_ok (match push 7 [9] 400 1 0 3000000 test_queues with Ok (r, _) => r | _ => Error 0 "" end) = true /\
  let q := get_queue 7 test_queues in
  exists r t', push 7 [9] 400 1 0 3000000 test_queues = Ok (r, t') /\
    (is_ok r = true <-> accepted 7 [9] 400 q) /\
    match r with
    | Ok id =>
        get_tail 7 t' = id + 1 /\ (0 < tail_id q < MAX_ID - 1 -> id = tail_id q) /\
        (forall k, k <> 7 -> queues_ t' !! k = queues_ test_queues !! k) /\
        exists lid, events (get_queue 7 t') =
          (if tail_id q =? MAX_ID - 1 then [] else filter (fun e => live e = true) (events q)) ++
          [{| log_event_id := lid; event_id := id; expires_at := 400; data := [9]; extra := 1 |}]
    | _ => forall k, get_queue k t' = get_queue k test_queues
    end.
Proof.
  split; [vm_compute; reflexivity|]. apply (tqueue_push 7 [9] 400 1 0 3000000 test_queues).
  - apply test_queues_inv.
  - op_ok.
  - op_ok.
  - intros c Hc. vm_compute in Hc. injection Hc as <-. vm_compute. reflexivity.
Defined.

Lemma tqueue_get_witness : exists t', get 7 11 true 45 5 test_queues =
  Ok (Ok (get_size 7 t', [{| ev_id := 11; ev_expires_at := 50; ev_data := [4]; ev_extra := 0 |}]), t').
Proof.
  destruct (queues_ test_queues !! 7) as [q|] eqn:Hq; [|vm_compute in Hq; discriminate].
  destruct (tqueue_get 7 11 true 45 5 test_queues q test_queues_inv Hq) as (_ & _ & H).
  vm_compute in Hq. injection Hq as <-. apply H; vm_compute; discriminate.
Defined.

Lemma tqueue_gc_witness : exists deleted done t', run_gc (fun i => Nat.leb 3 i) 90 test_queues = Ok (deleted, done, t') /\
    deleted = total_size (queues_ test_queues) - total_size (queues_ t') /\
    (done = true -> Forall (fun p => 90 <= p.1) (queue_gc_at_ t')) /\ (done = false -> exists i, Nat.leb 3 i = true).
Proof.
  apply (tqueue_gc (fun i => Nat.leb 3 i) 90 test_queues test_queues_inv).
  intros i j Hij Hi. apply Nat.leb_le in Hi. apply Nat.leb_le. lia.
Defined.

Lemma tqueue_clear_witness : get_size 7 test_queues = 2 /\ get_size 7 (snd (clear 7 1 test_queues)) = 0.
Proof.
  destruct (queues_ test_queues !! 7) as [q|] eqn:Hq; [|vm_compute in Hq; discriminate]. split; [vm_compute; reflexivity|].
  rewrite (tqueue_clear 7 1 test_queues q test_queues_inv Hq). vm_compute in Hq. injection Hq as <-. vm_compute. reflexivity.
Defined.
