(* ===== verification/TQueueBinlog.v ===== *)
(** * Queues kept in a binlog

    [TQueueBinlog] (tddb/td/db/TQueue.h, TQueue.cpp), the storage of a [TQueue] that is a
    log of events: the queues, the TL format, the events and the log together.  The
    storage is a client of the class [EventLog] and an instance of [StorageCallback].

    The methods of a storage return nothing that could fail, so the state of the storage is
    a [Res]: once the process has ended in a failed check, it stays so. *)
From S2P Require Import Prelude TlCodec BinlogEvent BinlogProcessor Binlog EventLog TQueue.
Local Open Scope td_scope.

(** ** TQueueLogEvent *)
Record TQueueLogEvent := { le_queue_id : Z; le_event_id : Z; le_expires_at : Z; le_data : list Z; le_extra : Z }.

Definition TQueueLogEvent_store {S} `{Storer S} (ev : TQueueLogEvent) (s : S) : Res S :=
  let* s := store_int64 (Int64 (le_queue_id ev)) s in
  let* s := store_int32 (Int32 (le_event_id ev)) s in
  let* s := store_int32 (Int32 (le_expires_at ev)) s in
  let* s := store_string (le_data ev) s in
  if negb (le_extra ev =? 0) then store_int64 (Int64 (le_extra ev)) s else Ok s.

Definition TQueueLogEvent_parse (has_extra : Z) (p : TlParser) : Res (TQueueLogEvent * TlParser) :=
  let* (queue_id, p) := parse_int64 p in
  let* (event_id, p) := parse_int32 p in
  let* (expires_at, p) := parse_int32 p in
  let* (dat, p) := fetch_string p in
  let* (ext, p) := if has_extra =? 0 then Ok (Int64 0, p) else parse_int64 p in
  Ok ({| le_queue_id := int64_val queue_id; le_event_id := int32_val event_id; le_expires_at := int32_val expires_at; le_data := dat;
         le_extra := int64_val ext |}, p).

(** [size] and [store] of the [Storer]. *)
Definition TQueueLogEvent_storer (ev : TQueueLogEvent) : Res StorerObject :=
  let* len := TQueueLogEvent_store ev (mkTlStorerCalcLength 0) in
  let* st := TQueueLogEvent_store ev (mkTlStorerUnsafe []) in
  Ok {| storer_size := get_length len; storer_store := buf_ st |}.

(** ** TQueueBinlog *)
Definition BINLOG_EVENT_TYPE : Z := 2314.

Section with_log.
Context (crc32 : list Z -> Z) {L : Type} `{EventLog L}.

Definition tb_push (queue_id : Z) (event : RawEvent) (l : L) : Res (Z * L) :=
  let log_event := {| le_queue_id := queue_id; le_event_id := event_id event; le_expires_at := expires_at event; le_data := data event;
                      le_extra := extra event |} in
  let magic := BINLOG_EVENT_TYPE + (if negb (le_extra log_event =? 0) then 1 else 0) in
  let* storer := TQueueLogEvent_storer log_event in
  if log_event_id event =? 0 then log_add crc32 magic storer l
  else
    let* (_, l) := log_rewrite crc32 (log_event_id event) magic storer l in
    Ok (log_event_id event, l).

Definition tb_pop (log_event_id : Z) (l : L) : Res L := let* (_, l) := log_erase crc32 log_event_id l in Ok l.
Definition tb_pop_batch (log_event_ids : list Z) (l : L) : Res L := let* (_, l) := log_erase_batch log_event_ids l in Ok l.

#[export] Instance binlog_storage : StorageCallback (Res L) := {
  cb_push queue_id e c :=
    match (let* l := c in tb_push queue_id e l) with
    | Ok (id, l) => (id, Ok l)
    | Error code m => (0, Error code m)
    | Panic w => (0, Panic w)
    end;
  cb_pop id c := let* l := c in tb_pop id l;
  cb_pop_batch ids c := let* l := c in tb_pop_batch ids l;
}.

(** The queue and the event that an event of the log stands for. *)
Definition parse_log_event (binlog_event : BinlogEvent) : Res (Z * RawEvent) :=
  let* d := get_data binlog_event in
  let p := TlParser_new d in
  let has_extra := s32 (type_ binlog_event - BINLOG_EVENT_TYPE) in
  if negb (has_extra =? 0) && negb (has_extra =? 1) then Error 0 "Wrong magic"
  else
    let* (event, p) := TQueueLogEvent_parse has_extra p in
    let* p := fetch_end p in
    let* _ := get_status p in
    let* event_id := from_int32 (le_event_id event) in
    Ok (le_queue_id event, {| log_event_id := id_ binlog_event; event_id := event_id; expires_at := le_expires_at event; data := le_data event;
                              extra := le_extra event |}).

Definition tb_replay {S} `{StorageCallback S} (binlog_event : BinlogEvent) (q : @TQueueImpl S) : Res (@TQueueImpl S) :=
  let* (queue_id, raw_event) := parse_log_event binlog_event in
  let* (is_added, q) := do_push queue_id raw_event q in
  if (is_added : bool) then Ok q else Error 0 "Failed to add event".

(** The log is opened, its events are replayed and it becomes the storage. *)
Fixpoint replay_log {S} `{StorageCallback S} (evs : list BinlogEvent) (q : @TQueueImpl S) : Res (@TQueueImpl S) :=
  match evs with
  | [] => Ok q
  | ev :: evs => let* q := tb_replay ev q in replay_log evs q
  end.
Definition reopen_queues (l : L) : Res (@TQueueImpl (Res L)) :=
  let* (evs, l) := log_reopen l in
  let* q := replay_log evs create in
  Ok (set_callback (Ok l) q).

(** ** Proofs *)

(** *** The format *)
Definition event_bytes (queue_id : Z) (e : RawEvent) : list Z :=
  le_bytes 8 queue_id ++ le_bytes 4 (event_id e) ++ le_bytes 4 (expires_at e) ++ string_bytes (data e) ++
  (if extra e =? 0 then [] else le_bytes 8 (extra e)).
Definition event_magic (e : RawEvent) : Z := BINLOG_EVENT_TYPE + (if negb (extra e =? 0) then 1 else 0).
Definition log_event (queue_id : Z) (e : RawEvent) : TQueueLogEvent :=
  {| le_queue_id := queue_id; le_event_id := event_id e; le_expires_at := expires_at e; le_data := data e; le_extra := extra e |}.

Lemma length_event_bytes queue_id e : data_size e <= MAX_EVENT_LENGTH ->
  0 <= Z.of_nat (length (event_bytes queue_id e)) <= 24 + 524288 + 11 /\ Z.of_nat (length (event_bytes queue_id e)) mod 4 = 0.
Proof.
  unfold data_size, MAX_EVENT_LENGTH. intros Hd. unfold event_bytes. rewrite !length_app, !length_le_bytes. pose proof (length_string_bytes (data e)) as Hl.
  assert (length (if extra e =? 0 then [] else le_bytes 8 (extra e)) = if extra e =? 0 then 0%nat else 8%nat) as -> by (case_if; [done|apply length_le_bytes]).
  revert Hl. repeat case_if; intros; zlia.
Qed.

Lemma event_storer queue_id e : data_size e <= MAX_EVENT_LENGTH ->
  TQueueLogEvent_storer (log_event queue_id e) = Ok (create_storer (event_bytes queue_id e)).
Proof.
  intros Hd. destruct (length_event_bytes queue_id e Hd) as [Hl _]. unfold data_size, MAX_EVENT_LENGTH in Hd.
  unfold TQueueLogEvent_storer, TQueueLogEvent_store, store_int64, store_int32. cbn [log_event le_queue_id le_event_id le_expires_at le_data le_extra int64_val int32_val].
  cbn [store_binary store_string Storer_TlStorerCalcLength Storer_TlStorerUnsafe]. unfold TlStorerCalcLength_store_binary, TlStorerUnsafe_store_binary.
  rewrite !length_le_bytes. cbn [res_bind]. rewrite store_string_length. cbn [res_bind]. rewrite store_string_bytes by lia. cbn [res_bind buf_ get_length].
  unfold event_bytes in *. rewrite !length_app, !length_le_bytes in Hl.
  destruct (extra e =? 0); cbn [negb res_bind buf_ get_length]; unfold create_storer; rewrite ?length_le_bytes in Hl; simpl length in Hl; f_equal; f_equal.
  all: try (by rewrite ?app_nil_r, <- ?app_assoc).
  all: rewrite !length_app, ?length_le_bytes; simpl length; change (u64 (0 + Z.of_nat 8)) with 8; change (u64 (8 + Z.of_nat 4)) with 12; change (u64 (12 + Z.of_nat 4)) with 16.
  all: rewrite (u64_small (16 + _)) by (unfold is_u64; lia); rewrite ?u64_small by (unfold is_u64; lia); lia.
Qed.

Lemma event_loggable queue_id e : event_typed queue_id e -> loggable (event_magic e) (event_bytes queue_id e).
Proof.
  intros [(_ & Hb & _) [_ Hd]]. destruct (length_event_bytes queue_id e Hd) as [Hl Ha]. split; auto.
  - unfold event_magic, BINLOG_EVENT_TYPE. destruct (extra e =? 0); simpl; lia.
  - unfold event_bytes. rewrite !Forall_app. split_and!; auto using le_bytes_bytes.
    + apply string_bytes_bytes; [done|]. unfold data_size, MAX_EVENT_LENGTH in Hd. lia.
    + case_if; [constructor|apply le_bytes_bytes].
  - unfold MIN_SIZE, MAX_SIZE, HEADER_SIZE, TAIL_SIZE. lia.
Qed.

Lemma event_parse dl queue_id e : event_typed queue_id e ->
  TQueueLogEvent_parse (event_magic e - BINLOG_EVENT_TYPE) (clean dl (event_bytes queue_id e)) = Ok (log_event queue_id e, clean dl []).
Proof.
  intros [(Hq & Hb & Hx & He) [Hi Hd]]. unfold data_size, MAX_EVENT_LENGTH in Hd. unfold MAX_ID in Hi. unfold TQueueLogEvent_parse, event_bytes, event_magic, parse_int64, parse_int32.
  rewrite fetch_long_clean. cbn [res_bind]. rewrite fetch_int_clean. cbn [res_bind]. rewrite fetch_int_clean. cbn [res_bind].
  rewrite fetch_string_clean by lia. cbn [res_bind]. rewrite !s32_small, (s64_small queue_id) by (done || unfold is_s32; lia).
  unfold log_event. destruct (extra e =? 0) eqn:E; zbool; cbn [negb Z.sub Z.eqb Z.add BINLOG_EVENT_TYPE].
  - change (2314 + 0 - BINLOG_EVENT_TYPE =? 0) with true. cbv iota. cbn [res_bind int64_val int32_val]. by rewrite E.
  - change (2314 + 1 - BINLOG_EVENT_TYPE =? 0) with false. cbv iota. rewrite <- (app_nil_r (le_bytes 8 (extra e))), fetch_long_clean.
    cbn [res_bind int64_val int32_val]. by rewrite s64_small.
Qed.

(** An event of the log that holds an event of a queue. *)
Record good (id : Z) (x : Z * RawEvent) (raw : list Z) : Prop := {
  gd_id : log_event_id x.2 = id;
  gd_range : 0 < id < 2 ^ 63;
  gd_typed : event_typed x.1 x.2;
  gd_raw : exists fl, (fl = 0 \/ fl = Flags.Rewrite) /\ raw = raw_of crc32 id (event_magic x.2) fl (event_bytes x.1 x.2);
}.

Context (crc32_range : forall s, is_u32 (crc32 s)).

Lemma parse_good id x ev : good id x (raw_event_ ev) -> id_ ev = id -> type_ ev = type_ (event_of (raw_event_ ev)) ->
  parse_log_event ev = Ok x.
Proof.
  intros [Hid Hr Hty (fl & Hfl & Hraw)] Hev Htype. destruct x as [queue_id e]. cbn [fst snd] in *. unfold parse_log_event.
  pose proof (event_loggable _ _ Hty) as Hlg.
  assert (type_ ev = event_magic e) as ->.
  { rewrite Htype, Hraw. apply (raw_event crc32 crc32_range); [apply Hlg|lia|destruct Hfl as [->| ->]; unfold is_s32, Flags.Rewrite; lia]. }
  assert (get_data ev = Ok (event_bytes queue_id e)) as ->.
  { rewrite <- (get_data_raw_of crc32 0 0 0 0 0 0 0 id (event_magic e) fl (event_bytes queue_id e)). unfold get_data. cbn [raw_event_]. by rewrite Hraw. }
  cbn [res_bind]. rewrite new_clean, drop_0.
  assert (0 <= event_magic e - BINLOG_EVENT_TYPE <= 1) as Hm by (unfold event_magic; destruct (negb (extra e =? 0)); lia).
  rewrite s32_small by (unfold is_s32; lia).
  assert (negb (event_magic e - BINLOG_EVENT_TYPE =? 0) && negb (event_magic e - BINLOG_EVENT_TYPE =? 1) = false) as ->.
  { assert (event_magic e - BINLOG_EVENT_TYPE = 0 \/ event_magic e - BINLOG_EVENT_TYPE = 1) as [-> | ->] by lia; done. }
  rewrite event_parse by done. cbn [res_bind]. change (fetch_end (clean ?dl [])) with (Ok (clean dl [])). cbn [res_bind].
  change (get_status (clean _ [])) with (Ok tt). cbn [res_bind log_event le_event_id le_queue_id le_expires_at le_data le_extra].
  destruct Hty as [_ [Hi _]]. cbn [fst snd] in Hi. unfold from_int32, is_valid_id. repeat decide_if. cbn [res_bind]. rewrite Hev, <- Hid. by destruct e.
Qed.

(** *** The contents of the log *)
Context `{!EventLogLaws crc32 L}.

Definition decode (ev : BinlogEvent) : option (Z * (Z * RawEvent)) :=
  match parse_log_event ev with Ok x => Some (id_ ev, x) | _ => None end.
Definition decoded (evs : list BinlogEvent) : list (Z * (Z * RawEvent)) := omap decode evs.

(** The events of the queues [C] are the raw events [R] of the log. *)
Definition coded (C : gmap Z (Z * RawEvent)) (R : gmap Z (list Z)) : Prop := forall id, option_Forall2 (good id) (C !! id) (R !! id).

Lemma coded_insert C R id x raw : coded C R -> good id x raw -> coded (<[id := x]> C) (<[id := raw]> R).
Proof.
  intros Hc Hg k. destruct (decide (k = id)) as [->|Hne]; [rewrite !lookup_insert_eq; by constructor|]. by rewrite !lookup_insert_ne.
Qed.

Lemma coded_delete C R id : coded C R -> coded (delete id C) (delete id R).
Proof. intros Hc k. destruct (decide (k = id)) as [->|Hne]; [rewrite !lookup_delete_eq; constructor|]. by rewrite !lookup_delete_ne. Qed.

Lemma coded_deletes C R ids : coded C R -> coded (foldr delete C ids) (foldr delete R ids).
Proof. intros Hc. induction ids as [|id ids IH]; simpl; [done|]. by apply coded_delete. Qed.

Lemma coded_some C R id x : coded C R -> C !! id = Some x -> exists raw, R !! id = Some raw /\ good id x raw.
Proof. intros Hc Hx. specialize (Hc id). rewrite Hx in Hc. inversion Hc; subst. eauto. Qed.

(** The log is opened with these events. *)
Record opened (C : gmap Z (Z * RawEvent)) (kvs : list (Z * BinlogEvent)) : Prop := {
  op_sorted : StronglySorted Z.lt (map fst kvs);
  op_coded : coded C (raw_event_ <$> list_to_map kvs);
  op_events : Forall (fun kv => id_ kv.2 = kv.1 /\ type_ kv.2 = type_ (event_of (raw_event_ kv.2))) kvs;
}.

Lemma opened_parse C kvs kv : opened C kvs -> kv ∈ kvs -> exists x, C !! kv.1 = Some x /\ parse_log_event kv.2 = Ok x /\ id_ kv.2 = kv.1 /\ log_event_id x.2 = kv.1.
Proof.
  intros [Hs Hc He] Hin. rewrite Forall_forall in He. destruct (He _ Hin) as [Hid Hty]. specialize (Hc kv.1).
  assert ((list_to_map kvs : gmap Z BinlogEvent) !! kv.1 = Some kv.2) as Hl.
  { apply elem_of_list_to_map; [by apply sorted_NoDup|]. by destruct kv. }
  rewrite lookup_fmap, Hl in Hc. inversion Hc as [x raw Hg E|]; subst. exists x. split_and!; [done| |done|by apply Hg].
  by eapply parse_good.
Qed.

Lemma opened_decoded C kvs : opened C kvs -> map fst (decoded (map snd kvs)) = map fst kvs /\
  forall id x, (id, x) ∈ decoded (map snd kvs) <-> C !! id = Some x.
Proof.
  intros Ho. split.
  - assert (Forall (fun kv => kv ∈ kvs) kvs) as Hf by (apply Forall_forall; auto). revert Hf. generalize kvs at 2 3 4 as l.
    induction l as [|kv l IH]; intros Hf; [done|]. apply Forall_cons_inv in Hf as [Hk Hf].
    destruct (opened_parse _ _ _ Ho Hk) as (x & _ & Hp & Hid & _). unfold decoded, decode. cbn [map omap list_omap]. rewrite Hp. simpl. rewrite Hid. f_equal. by apply IH.
  - intros id x. unfold decoded. rewrite list_elem_of_omap. split.
    + intros (ev & Hin & Hd). apply list_elem_of_In, in_map_iff in Hin as (kv & <- & Hin%list_elem_of_In).
      destruct (opened_parse _ _ _ Ho Hin) as (y & Hy & Hp & Hid & _). unfold decode in Hd. rewrite Hp in Hd. simplify_eq. by rewrite Hid.
    + intros Hx. pose proof (op_coded _ _ Ho id) as Hc. rewrite Hx, lookup_fmap in Hc.
      destruct ((list_to_map kvs : gmap Z BinlogEvent) !! id) as [ev|] eqn:E; [|inversion Hc].
      apply elem_of_list_to_map_2 in E. destruct (opened_parse _ _ _ Ho E) as (y & Hy & Hp & Hid & _). simpl in *. simplify_eq.
      exists ev. split; [apply list_elem_of_In, in_map_iff; exists (id_ ev, ev); split; [done|by apply list_elem_of_In]|]. unfold decode. by rewrite Hp.
Qed.

Definition tb_contents (c : Res L) : gmap Z (Z * RawEvent) :=
  match (let* l := c in log_reopen l) with Ok (evs, _) => list_to_map (decoded evs) | _ => ∅ end.

Lemma reopen_opened C R hi n l : log_inv R hi n l -> coded C R ->
  exists kvs l' hi', log_reopen l = Ok (map snd kvs, l') /\ opened C kvs /\ hi' <= hi /\ log_inv R hi' hi' l'.
Proof.
  intros Hl Hc. destruct (law_reopen _ _ _ _ Hl) as (kvs & l' & hi' & E & Hs & HR & He & Hh & Hl'). exists kvs, l', hi'. split_and!; auto. split; auto. by rewrite HR.
Qed.

Lemma coded_contents C R hi n l : log_inv R hi n l -> coded C R -> tb_contents (Ok l) = C.
Proof.
  intros Hl Hc. destruct (reopen_opened _ _ _ _ _ Hl Hc) as (kvs & l' & hi' & E & Ho & _). unfold tb_contents. cbn [res_bind]. rewrite E.
  destruct (opened_decoded _ _ Ho) as [Hf He]. apply map_eq. intros id. apply option_eq. intros x. rewrite <- He. symmetry. apply elem_of_list_to_map.
  change (fst <$> ?l) with (map fst l). rewrite Hf. apply sorted_NoDup, Ho.
Qed.

(** *** The room: an event that has data may still be rewritten and erased, an event without data erased. *)
Definition weight (x : Z * RawEvent) : Z := if data_empty x.2 then 1 else 2.
Definition weights (C : gmap Z (Z * RawEvent)) : Z := map_fold (fun _ x a => weight x + a) 0 C.

Lemma weight_bound x : 1 <= weight x <= 2.
Proof. unfold weight. case_if; lia. Qed.
Lemma weights_new C id x : C !! id = None -> weights (<[id := x]> C) = weight x + weights C.
Proof. intros Hc. unfold weights. rewrite map_fold_insert_L; [done| |done]. intros. lia. Qed.
Lemma weights_old C id x : C !! id = Some x -> weights (delete id C) = weights C - weight x.
Proof. intros Hc. pose proof (weights_new (delete id C) id x (lookup_delete_eq _ _)) as Hw. rewrite insert_delete_id in Hw by done. lia. Qed.
Lemma weights_rewrite C id x y : C !! id = Some x -> weights (<[id := y]> C) = weights C - weight x + weight y.
Proof. intros Hc. rewrite <- insert_delete_eq, weights_new by apply lookup_delete_eq. rewrite (weights_old _ _ x) by done. lia. Qed.
Lemma weights_nonneg C : 0 <= weights C.
Proof. induction C as [|id x C Hc IH] using map_ind; [done|]. rewrite weights_new by done. pose proof (weight_bound x). lia. Qed.
Lemma weights_deletes C ids : NoDup ids -> Forall (fun id => is_Some (C !! id)) ids -> weights (foldr delete C ids) <= weights C - Z.of_nat (length ids).
Proof.
  intros Hnd Hf. induction ids as [|id ids IH]; [simpl; lia|]. apply NoDup_cons in Hnd as [Hni Hnd]. apply Forall_cons_inv in Hf as [[x Hx] Hf]. cbn [foldr length].
  rewrite (weights_old _ id x); [pose proof (weight_bound x); specialize (IH Hnd Hf); lia|]. by rewrite lookup_foldr_delete_not_elem_of.
Qed.

Definition tb_last (c : Res L) : Z := match c with Ok l => fst (log_next_event_id l) - 1 | _ => 0 end.
Definition tb_room (c : Res L) : Z := (2 ^ 63 - 2 - tb_last c - weights (tb_contents c)) / 3.

Record tb_state (C : gmap Z (Z * RawEvent)) (R : gmap Z (list Z)) (hi n : Z) (l : L) : Prop := {
  tb_log : log_inv R hi n l;
  tb_coded : coded C R;
  tb_fits : n + weights C + 2 <= 2 ^ 63;
}.
Definition tb_ok (c : Res L) : Prop := exists l C R hi n, c = Ok l /\ tb_state C R hi n l.

Lemma state_last C R hi n l : tb_state C R hi n l -> 0 <= n /\ tb_last (Ok l) = n.
Proof.
  intros [Hl Hc Hf]. destruct (law_ids _ _ _ _ Hl) as [? _]. pose proof (weights_nonneg C). split; [lia|].
  destruct (law_next _ _ _ _ Hl) as (l' & E & _); [lia|]. unfold tb_last. rewrite E. simpl. lia.
Qed.
Lemma state_contents C R hi n l : tb_state C R hi n l -> tb_contents (Ok l) = C.
Proof. intros [Hl Hc _]. by eapply coded_contents. Qed.
Lemma state_bound C R hi n l id x : tb_state C R hi n l -> C !! id = Some x -> 0 < id <= n.
Proof.
  intros [Hl Hc _] Hx. destruct (law_ids _ _ _ _ Hl) as [? Hle]. destruct (coded_some _ _ _ _ Hc Hx) as (raw & HR & Hg).
  pose proof (gd_range _ _ _ Hg). pose proof (Hle id (ex_intro _ _ HR)). lia.
Qed.

(** What an operation of the storage comes to. *)
Lemma state_next C R hi n l C' R' hi' n' l' k : tb_state C R hi n l -> log_inv R' hi' n' l' -> coded C' R' ->
  n <= n' -> n' + weights C' <= n + weights C + 3 * k -> 0 <= k -> (0 < k -> k <= tb_room (Ok l)) ->
  tb_ok (Ok l') /\ tb_last (Ok l) <= tb_last (Ok l') /\ tb_last (Ok l') = n' /\ tb_room (Ok l) - k <= tb_room (Ok l') /\ tb_contents (Ok l') = C'.
Proof.
  intros Hs Hl' Hc' Hn Hw Hk Hr. destruct (state_last _ _ _ _ _ Hs) as [H0 Hlast]. pose proof (state_contents _ _ _ _ _ Hs) as Hcon.
  pose proof (tb_fits _ _ _ _ _ Hs) as Hf. unfold tb_room in *. rewrite Hlast, Hcon in *.
  assert (n + weights C + 3 * k + 2 <= 2 ^ 63) as Hfit.
  { destruct (decide (0 < k)) as [H1|H1]; [specialize (Hr H1)|]; revert Hf Hr; generalize (weights C) (2 ^ 63); intros; zlia. }
  assert (tb_state C' R' hi' n' l') as Hs' by (split; [done|done|lia]).
  destruct (state_last _ _ _ _ _ Hs') as [H0' Hlast']. rewrite Hlast', (state_contents _ _ _ _ _ Hs').
  split_and!; [by exists l', C', R', hi', n'|lia|done| |done].
  revert Hw. generalize (weights C) (weights C') (2 ^ 63). intros. zlia.
Qed.

Lemma event_storer_ok queue_id e : event_typed queue_id e ->
  storer_ok (create_storer (event_bytes queue_id e)) /\ loggable (event_magic e) (storer_store (create_storer (event_bytes queue_id e))).
Proof. intros He. pose proof (event_loggable _ _ He) as Hl. split; [split; [done|apply Hl]|done]. Qed.

Lemma tb_push_storer queue_id e l : event_typed queue_id e -> tb_push queue_id e l =
  let storer := create_storer (event_bytes queue_id e) in
  if log_event_id e =? 0 then log_add crc32 (event_magic e) storer l
  else let* (_, l) := log_rewrite crc32 (log_event_id e) (event_magic e) storer l in Ok (log_event_id e, l).
Proof. intros [_ [_ Hd]]. unfold tb_push. fold (log_event queue_id e). by rewrite event_storer. Qed.

Lemma tb_push_new c queue_id e id c' : tb_ok c -> event_typed queue_id e -> log_event_id e = 0 -> 0 < tb_room c ->
  cb_push queue_id e c = (id, c') ->
  tb_ok c' /\ tb_last c < id <= tb_last c' /\ tb_room c - 1 <= tb_room c' /\ tb_contents c' = <[id := (queue_id, set_log_event_id id e)]> (tb_contents c).
Proof.
  intros (l & C & R & hi & n & -> & Hs) He H0 Hr Hp. destruct (event_storer_ok _ _ He) as [Hst Hlg].
  destruct (state_last _ _ _ _ _ Hs) as [Hn Hlast]. pose proof (state_contents _ _ _ _ _ Hs) as Hcon.
  assert (n + 3 + 2 <= 2 ^ 63) as Hb.
  { pose proof (weights_nonneg C). unfold tb_room in Hr. rewrite Hlast, Hcon in Hr. revert Hr. generalize (2 ^ 63). intros. zlia. }
  destruct (log_add_ok crc32 crc32_range R hi n l (event_magic e) _ (tb_log _ _ _ _ _ Hs) Hst Hlg) as (l' & E & Hl'); [lia|].
  cbn [cb_push binlog_storage res_bind] in Hp. rewrite tb_push_storer, H0 in Hp by done. simpl Z.eqb in Hp. cbv iota zeta in Hp. rewrite E in Hp. injection Hp as <- <-.
  assert (tb_contents (Ok l) !! (n + 1) = None) as Hnone.
  { rewrite Hcon. destruct (C !! (n + 1)) as [x|] eqn:Ex; [|done]. pose proof (state_bound _ _ _ _ _ _ _ Hs Ex). lia. }
  destruct (state_next C R hi n l (<[n + 1 := (queue_id, set_log_event_id (n + 1) e)]> C) _ _ _ l' 1 Hs Hl') as (? & ? & Hl1 & ? & Hc'); try lia.
  - apply coded_insert; [apply Hs|]. split; [done|lia|done|]. exists 0. split; [by left|done].
  - rewrite weights_new by congruence. pose proof (weight_bound (queue_id, set_log_event_id (n + 1) e)). lia.
  - rewrite Hc', Hcon, Hl1, Hlast. split_and!; try done; lia.
Qed.

Lemma tb_push_old c queue_id e id c' : tb_ok c -> tb_contents c !! log_event_id e = Some (queue_id, e) -> data_empty e = false ->
  cb_push queue_id (clear_data e) c = (id, c') ->
  tb_ok c' /\ tb_last c <= tb_last c' /\ tb_room c <= tb_room c' /\ tb_contents c' = <[log_event_id e := (queue_id, clear_data e)]> (tb_contents c).
Proof.
  intros (l & C & R & hi & n & -> & Hs) Hin Hd Hp. rewrite (state_contents _ _ _ _ _ Hs) in *.
  pose proof (state_bound _ _ _ _ _ _ _ Hs Hin) as Hid. destruct (coded_some _ _ _ _ (tb_coded _ _ _ _ _ Hs) Hin) as (raw & HR & [_ Hrg Hty _]).
  assert (event_typed queue_id (clear_data e)) as Hty'.
  { destruct Hty as [(? & ? & ? & ?) [? ?]]. split; [split_and!; auto; constructor|]. split; [done|]. unfold data_size, MAX_EVENT_LENGTH. simpl. lia. }
  destruct (event_storer_ok _ _ Hty') as [Hst Hlg]. destruct (state_last _ _ _ _ _ Hs) as [Hn _].
  assert (n + 2 < 2 ^ 63) as Hb.
  { pose proof (tb_fits _ _ _ _ _ Hs). rewrite <- (insert_delete_id C _ _ Hin), weights_new in * by apply lookup_delete_eq.
    pose proof (weights_nonneg (delete (log_event_id e) C)). pose proof (weight_bound (queue_id, e)). lia. }
  destruct (log_rewrite_ok crc32 crc32_range R hi n l (log_event_id e) (event_magic (clear_data e)) _ (tb_log _ _ _ _ _ Hs) Hst Hlg) as (l' & E & Hl'); [lia|by eexists|lia|].
  cbn [cb_push binlog_storage res_bind] in Hp. rewrite tb_push_storer in Hp by done. cbn [log_event_id clear_data] in Hp.
  rewrite (proj2 (Z.eqb_neq (log_event_id e) 0)) in Hp by lia. cbv zeta in Hp. change {| log_event_id := _; event_id := _ |} with (clear_data e) in Hp.
  rewrite E in Hp. cbn [res_bind] in Hp. injection Hp as <- <-.
  destruct (state_next C R hi n l (<[log_event_id e := (queue_id, clear_data e)]> C) _ _ _ l' 0 Hs Hl') as (? & ? & ? & ? & Hc'); try lia.
  - apply coded_insert; [apply Hs|]. split; [done|lia|done|]. exists Flags.Rewrite. split; [by right|done].
  - rewrite (weights_rewrite _ _ (queue_id, e)) by done. unfold weight. simpl. rewrite Hd. change (data_empty (clear_data e)) with true. lia.
  - split_and!; auto. lia.
Qed.

Lemma tb_pop_law c id : tb_ok c -> is_Some (tb_contents c !! id) ->
  tb_ok (cb_pop id c) /\ tb_last c <= tb_last (cb_pop id c) /\ tb_room c <= tb_room (cb_pop id c) /\ tb_contents (cb_pop id c) = delete id (tb_contents c).
Proof.
  intros (l & C & R & hi & n & -> & Hs) [x Hin]. rewrite (state_contents _ _ _ _ _ Hs) in *.
  pose proof (state_bound _ _ _ _ _ _ _ Hs Hin) as Hid. destruct (coded_some _ _ _ _ (tb_coded _ _ _ _ _ Hs) Hin) as (raw & HR & Hg).
  pose proof (weights_old _ _ _ Hin) as Hw. pose proof (weights_nonneg (delete id C)). pose proof (weight_bound x). pose proof (tb_fits _ _ _ _ _ Hs).
  destruct (log_erase_ok crc32 crc32_range R hi n l id (tb_log _ _ _ _ _ Hs)) as (l' & E & Hl'); [lia|by eexists|lia|].
  cbn [cb_pop binlog_storage res_bind]. unfold tb_pop. rewrite E. cbn [res_bind].
  destruct (state_next C R hi n l (delete id C) _ _ _ l' 0 Hs Hl') as (? & ? & ? & ? & Hc'); try lia.
  - apply coded_delete, Hs.
  - split_and!; auto. lia.
Qed.

Lemma lookup_deletes {A} (C : gmap Z A) ids id : foldr delete C ids !! id = if bool_decide (id ∈ ids) then None else C !! id.
Proof. case_bool_decide; [by apply lookup_foldr_delete|by apply lookup_foldr_delete_not_elem_of]. Qed.

Lemma tb_pop_batch_law c ids : tb_ok c -> NoDup ids -> Forall (fun id => is_Some (tb_contents c !! id)) ids ->
  let c' := cb_pop_batch ids c in
  tb_ok c' /\ tb_last c <= tb_last c' /\ tb_room c <= tb_room c' /\
  forall id, tb_contents c' !! id = if bool_decide (id ∈ ids) then None else tb_contents c !! id.
Proof.
  intros (l & C & R & hi & n & -> & Hs) Hnd Hf. cbn [cb_pop_batch binlog_storage res_bind]. unfold tb_pop_batch. cbv zeta.
  destruct (decide (ids = [])) as [->|Hne].
  { rewrite (law_erase_none (crc32 := crc32)). cbn [res_bind]. split_and!; [by exists l, C, R, hi, n|lia|lia|]. done. }
  rewrite (state_contents _ _ _ _ _ Hs) in *. pose proof (weights_deletes _ _ Hnd Hf) as Hw. pose proof (weights_nonneg (foldr delete C ids)). pose proof (tb_fits _ _ _ _ _ Hs).
  destruct (law_erase_batch R hi n l ids (tb_log _ _ _ _ _ Hs) Hne Hnd) as (l' & E & Hl'); [|lia|].
  { apply Forall_forall. intros id Hin. rewrite Forall_forall in Hf. destruct (Hf id Hin) as [x Hx].
    destruct (coded_some _ _ _ _ (tb_coded _ _ _ _ _ Hs) Hx) as (raw & HR & Hg). pose proof (gd_range _ _ _ Hg). split; [by eexists|lia]. }
  rewrite E. cbn [res_bind]. destruct (state_next C R hi n l (foldr delete C ids) _ _ _ l' 0 Hs Hl') as (? & ? & ? & ? & Hc'); try lia.
  - apply coded_deletes, Hs.
  - split_and!; auto; [lia|]. intros id. rewrite Hc'. apply lookup_deletes.
Qed.

#[export] Program Instance binlog_storage_laws : StorageLaws (Res L) := {
  storage_ok := tb_ok;
  contents := tb_contents;
  last_log_id := tb_last;
  room := tb_room;
  push_new := tb_push_new;
  push_old := tb_push_old;
  pop_law := tb_pop_law;
  pop_batch_law := tb_pop_batch_law;
}.
Next Obligation.
  intros c id x (l & C & R & hi & n & -> & Hs) Hx. rewrite (state_contents _ _ _ _ _ Hs) in Hx.
  rewrite (proj2 (state_last _ _ _ _ _ Hs)). by eapply state_bound.
Qed.
Next Obligation. intros c (l & C & R & hi & n & -> & Hs). destruct (state_last _ _ _ _ _ Hs). lia. Qed.

(** *** Opening the log again *)
Lemma replay_decoded {S} `{StorageCallback S} C kvs (t t' : @TQueueImpl S) : opened C kvs ->
  replay_list (decoded (map snd kvs)) t = Ok t' -> replay_log (map snd kvs) t = Ok t'.
Proof.
  intros Ho. assert (Forall (fun kv => kv ∈ kvs) kvs) as Hf by (apply Forall_forall; auto). revert Hf t. generalize kvs at 2 3 4 as l.
  induction l as [|kv l IH]; intros Hf t; [done|]. apply Forall_cons_inv in Hf as [Hk Hf].
  destruct (opened_parse _ _ _ Ho Hk) as ([queue_id e] & _ & Hp & Hid & Hlog). cbn [snd] in Hlog.
  unfold decoded. cbn [map omap list_omap]. unfold decode at 1. rewrite Hp. cbn [replay_list replay_log]. unfold tb_replay. rewrite Hp. cbn [res_bind].
  rewrite Hid, <- Hlog, set_log_event_id_same. destruct (do_push queue_id e t) as [[[|] t1]|? ?|?]; cbn [res_bind]; try discriminate. by apply IH.
Qed.

Lemma decoded_lists C R hi n l kvs : tb_state C R hi n l -> opened C kvs -> lists (decoded (map snd kvs)) (Ok l).
Proof.
  intros Hs Ho. destruct (opened_decoded _ _ Ho) as [Hf He]. split; [rewrite Hf; apply Ho|]. intros id k e'. cbn [contents binlog_storage_laws].
  rewrite (state_contents _ _ _ _ _ Hs), <- He.
  assert (forall e, (id, (k, e)) ∈ decoded (map snd kvs) -> set_log_event_id id e = e) as Hid.
  { intros e Hin. apply He, (coded_some _ _ _ _ (tb_coded _ _ _ _ _ Hs)) in Hin as (raw & _ & [<- _ _ _]). apply set_log_event_id_same. }
  split; [intros Hin; exists e'; by rewrite Hid|]. intros (e & Hin & ->). by rewrite Hid.
Qed.

(** The same events are stored in the log that is opened again. *)
Lemma inv_storage (t : @TQueueImpl (Res L)) c c' : inv (set_callback c t) -> storage_ok c' -> contents c' = contents c -> inv (set_callback c' t).
Proof.
  intros [[W1 W2 W3 W4] Hst] Hok Hc. split; [by split|]. simpl. intros ? [= <-]. destruct (Hst c eq_refl) as [S1 S2 S3 S4].
  split; auto; [|by rewrite Hc]. intros k q Hq. specialize (S3 k q Hq). unfold holds in *. simpl in *. by rewrite Hc.
Qed.

Lemma reopen_spec (t : @TQueueImpl (Res L)) c : inv t -> callback_ t = Some c ->
  exists l l' t', c = Ok l /\ reopen_queues l = Ok t' /\ inv t' /\ callback_ t' = Some (Ok l') /\ room c <= room (Ok l') /\
    forall k, tail_id (get_queue k t') = tail_id (get_queue k t) /\ events (get_queue k t') = events (get_queue k t) /\
      total_event_length (get_queue k t') = total_event_length (get_queue k t).
Proof.
  intros Hi Hc. destruct (st_ok _ _ (proj2 Hi c Hc)) as (l & C & R & hi & n & -> & Hs). destruct (law_ids _ _ _ _ (tb_log _ _ _ _ _ Hs)) as [Hh _].
  destruct (reopen_opened _ _ _ _ _ (tb_log _ _ _ _ _ Hs) (tb_coded _ _ _ _ _ Hs)) as (kvs & l' & hi' & E & Ho & Hhi & Hl').
  destruct (replay_stored t (Ok l) (decoded (map snd kvs)) Hi Hc) as (t' & Er & Hi' & Hk); [by eapply decoded_lists|].
  assert (tb_state C R hi' hi' l') as Hs' by (split; [done|apply Hs|pose proof (tb_fits _ _ _ _ _ Hs); lia]).
  exists l, l', (set_callback (Ok l') t'). split_and!; auto.
  - unfold reopen_queues. rewrite E. cbn [res_bind]. rewrite (replay_decoded C kvs _ t') by done. done.
  - apply (inv_storage _ (Ok l)); [done|by exists l', C, R, hi', hi'|]. cbn [contents binlog_storage_laws].
    by rewrite (state_contents _ _ _ _ _ Hs), (state_contents _ _ _ _ _ Hs').
  - cbn [room binlog_storage_laws]. unfold tb_room. rewrite (state_contents _ _ _ _ _ Hs), (state_contents _ _ _ _ _ Hs').
    rewrite (proj2 (state_last _ _ _ _ _ Hs)), (proj2 (state_last _ _ _ _ _ Hs')). apply Z.div_le_mono; lia.
Qed.

(** C9. Queues kept in a log survive a restart: after any sequence of operations on
    the queues, over any log that keeps its promises, the log can be closed and
    opened again, and the replay of its events parses every one of them and
    restores the tail, the events and the total length of every queue; the
    invariant of queues and storage holds for the restored queues and the opened
    log, which has room for as many new events as the one that was closed, so the
    next session starts as this one did.  No check fails and no event is lost or
    refused. *)
Theorem tqueue_binlog_durable os (t : @TQueueImpl (Res L)) : inv t -> is_Some (callback_ t) -> Forall tq_op_ok os -> room_for (length os) t ->
  exists t1 l t2 l2, tq_run os t = Ok t1 /\ fst (close t1) = Some (Ok l) /\ reopen_queues l = Ok t2 /\
    inv t2 /\ callback_ t2 = Some (Ok l2) /\ room (Ok l) <= room (Ok l2) /\
    forall k, tail_id (get_queue k t2) = tail_id (get_queue k t1) /\ events (get_queue k t2) = events (get_queue k t1) /\
      total_event_length (get_queue k t2) = total_event_length (get_queue k t1).
Proof.
  intros Hi Hcb Ho Hr. destruct (tq_run_inv os t Hi Ho Hr) as (t1 & Hrun & Hi1 & _ & Hc1). destruct (Hc1 Hcb) as [c Hc].
  destruct (reopen_spec t1 c Hi1 Hc) as (l & l2 & t2 & -> & E & Hi2 & Hc2 & Hrm & Hk). exists t1, l, t2, l2. split_and!; try done.
  unfold close. by rewrite Hc.
Qed.
End with_log.

(** ** Queues in an empty binlog *)
#[local] Instance test_log_ops : EventLog Binlog := binlog_EventLog crc0 no_encryption.
#[local] Instance test_log_laws : EventLogLaws crc0 Binlog := binlog_EventLogLaws crc0 no_encryption crc0_range.
#[local] Instance test_storage : StorageCallback (Res Binlog) := binlog_storage crc0.
#[local] Instance test_storage_laws : StorageLaws (Res Binlog) := binlog_storage_laws crc0 crc0_range.

Definition logged_queues : @TQueueImpl (Res Binlog) := set_callback (Ok empty_log) create.

Lemma empty_log_state : tb_state crc0 ∅ ∅ 0 0 empty_log.
Proof.
  split; [|intros id; rewrite !lookup_empty; constructor|vm_compute; discriminate].
  split; [done|]. split; [lia|]. exists []. apply empty_log_running.
Qed.

Lemma logged_queues_inv : inv logged_queues.
Proof.
  apply fresh_inv; [by exists empty_log, ∅, ∅, 0, 0; split; [|apply empty_log_state]|].
  apply (state_contents crc0 crc0_range _ _ _ _ _ empty_log_state).
Qed.

Lemma tqueue_binlog_durable_witness : exists t1 l t2 l2, tq_run test_ops logged_queues = Ok t1 /\ fst (close t1) = Some (Ok l) /\
    reopen_queues crc0 l = Ok t2 /\ inv t2 /\ callback_ t2 = Some (Ok l2) /\ room (Ok l) <= room (Ok l2) /\
    forall k, tail_id (get_queue k t2) = tail_id (get_queue k t1) /\ events (get_queue k t2) = events (get_queue k t1) /\
      total_event_length (get_queue k t2) = total_event_length (get_queue k t1).
Proof.
  apply (tqueue_binlog_durable crc0 crc0_range test_ops logged_queues logged_queues_inv); [by eexists|apply test_ops_ok|].
  intros r Hr. vm_compute in Hr. injection Hr as <-. vm_compute. discriminate.
Defined.
