(* ===== verification/HashUtils.v ===== *)
(** * Hashes

    The hash functions of tdutils/td/utils/HashTableUtils.h that hash tables and treaps use:
    the finalizer of MurmurHash3 and the hash of an [int64]. *)
From S2P Require Import Prelude.

Definition randomize_hash (h : Z) : Z :=
  let h := Z.lxor h (Z.shiftr h 16) in
  let h := u32 (h * 0x85ebca6b) in
  let h := Z.lxor h (Z.shiftr h 13) in
  let h := u32 (h * 0xc2b2ae35) in
  Z.lxor h (Z.shiftr h 16).
Definition Hash_int64 (value : Z) : Z := randomize_hash (u32 (value + Z.shiftr value 32)).
