(* ===== verification/FlatHashTable.v ===== *)
(** * Flat hash tables

    [FlatHashTable] (tdutils/td/utils/FlatHashTable.h, FlatHashTable.cpp) with the nodes of
    tdutils/td/utils/MapNode.h: an open-addressing table with linear probing, whose size is
    a power of two and in which a removal moves later entries back, so that there are no
    tombstones.  The keys, the values, the hash function [HashT], the test for the empty key
    and the size of a node are parameters, as they are template parameters.

    A node whose key is the empty key is [None]; [nodes_] is [[]] for a null pointer.  The
    assertions that only debug builds check are checked here.  The loops that advance a
    bucket until its node meets a condition are [probe]. *)
From S2P Require Import Prelude HashUtils.
Local Open Scope td_scope.

Definition INVALID_BUCKET : Z := 0xFFFFFFFF.

Definition count_leading_zeroes32 (x : Z) : Z := 31 - Z.log2 x.
Definition normalize_flat_hash_table_size (size : Z) : Z :=
  Z.max (u32 (Z.shiftl 1 (32 - count_leading_zeroes32 size))) 8.
(** [random] is the result of [Random::fast_uint32]. *)
Definition get_random_flat_hash_table_bucket (random bucket_count_mask : Z) : Z := Z.land random bucket_count_mask.

Record FlatHashTable {K V : Type} := {
  nodes_ : list (option (K * V));
  used_node_count_ : Z;
  bucket_count_mask_ : Z;
  bucket_count_ : Z;
  begin_bucket_ : Z;
}.
Arguments FlatHashTable : clear implicits.

Section table.
Context {K V : Type} `{EqDecision K} (hash : K -> Z) (key_empty : K -> bool) (sizeof_node : Z).
Abbreviation node := (option (K * V)).
Abbreviation table := (FlatHashTable K V).

(** ** Nodes *)
Definition node_empty (n : node) : bool := match n with None => true | Some _ => false end.
Definition has_key (key : K) (n : node) : bool := match n with Some (k, _) => bool_decide (k = key) | None => false end.

Definition at_node (nodes : list node) (b : Z) : Res node :=
  match (if b <? 0 then None else nodes !! Z.to_nat b) with Some n => Ok n | None => Panic "nodes_[bucket]" end.
Definition set_node (nodes : list node) (b : Z) (n : node) : list node := <[Z.to_nat b := n]> nodes.

(** [nodes[to] = std::move(nodes[from])] *)
Definition move_node (to from : Z) (nodes : list node) : Res (list node) :=
  let* n := at_node nodes to in
  CHECK! node_empty n else "empty()" in
  let* other := at_node nodes from in
  CHECK! negb (node_empty other) else "!other.empty()" in
  Ok (set_node (set_node nodes to other) from None).

(** ** Buckets *)
Definition calc_bucket (t : table) (key : K) : Z := Z.land (hash key) (bucket_count_mask_ t).
Definition next_bucket (t : table) (bucket : Z) : Z := Z.land (u32 (bucket + 1)) (bucket_count_mask_ t).

Fixpoint probe (stop : node -> bool) (fuel : nat) (t : table) (bucket : Z) : Res Z :=
  match fuel with
  | O => Panic "fuel"
  | S fuel =>
      let* n := at_node (nodes_ t) bucket in
      if stop n then Ok bucket else probe stop fuel t (next_bucket t bucket)
  end.
Definition find_bucket (stop : node -> bool) (t : table) (bucket : Z) : Res Z := probe stop (length (nodes_ t)) t bucket.

(** ** The table *)
Definition new_table : table :=
  {| nodes_ := []; used_node_count_ := 0; bucket_count_mask_ := 0; bucket_count_ := 0; begin_bucket_ := 0 |}.
Definition drop_nodes (t : table) : table := new_table.
Definition with_nodes (nodes : list node) (used : Z) (t : table) : table :=
  {| nodes_ := nodes; used_node_count_ := used; bucket_count_mask_ := bucket_count_mask_ t; bucket_count_ := bucket_count_ t;
     begin_bucket_ := begin_bucket_ t |}.
Definition with_begin (b : Z) (t : table) : table :=
  {| nodes_ := nodes_ t; used_node_count_ := used_node_count_ t; bucket_count_mask_ := bucket_count_mask_ t; bucket_count_ := bucket_count_ t;
     begin_bucket_ := b |}.
Definition invalidate_iterators (t : table) : table := with_begin INVALID_BUCKET t.

Definition MAX_BUCKETS : Z := Z.min (Z.shiftl 1 29) (0x7FFFFFFF / sizeof_node).
Definition allocate_nodes (size : Z) (t : table) : Res table :=
  CHECK! 8 <=? size else "size >= 8" in
  CHECK! Z.land size (size - 1) =? 0 else "(size & (size - 1)) == 0" in
  CHECK! size <=? MAX_BUCKETS else "size <= min(1 << 29, 0x7FFFFFFF / sizeof(NodeT))" in
  Ok {| nodes_ := replicate (Z.to_nat size) None; used_node_count_ := used_node_count_ t; bucket_count_mask_ := size - 1; bucket_count_ := size;
        begin_bucket_ := INVALID_BUCKET |}.

(** The nodes of the old array are moved to the new one. *)
Fixpoint move_nodes (old_nodes : list node) (t : table) : Res table :=
  match old_nodes with
  | [] => Ok t
  | None :: old_nodes => move_nodes old_nodes t
  | Some x :: old_nodes =>
      let* bucket := find_bucket node_empty t (calc_bucket t x.1) in
      move_nodes old_nodes (with_nodes (set_node (nodes_ t) bucket (Some x)) (used_node_count_ t) t)
  end.

Definition is_null (t : table) : bool := Nat.eqb (length (nodes_ t)) 0.

Definition resize (new_size : Z) (t : table) : Res table :=
  if is_null t then
    let* t := allocate_nodes new_size t in
    Ok (with_nodes (nodes_ t) 0 t)
  else
    let* t' := allocate_nodes new_size t in
    move_nodes (nodes_ t) t'.

Definition reserve (size : Z) (t : table) : Res table :=
  if size =? 0 then Ok t
  else
    CHECK! size <=? Z.shiftl 1 29 else "size <= (1u << 29)" in
    let want_size := normalize_flat_hash_table_size (u32 (u32 (u32 size * 5) / 3 + 1)) in
    if bucket_count_ t <? want_size then resize want_size t else Ok t.

Definition try_shrink (t : table) : Res table :=
  let* t :=
    if (u32 (used_node_count_ t * 10) <? bucket_count_mask_ t) && (7 <? bucket_count_mask_ t)
    then resize (normalize_flat_hash_table_size (u32 (u32 (u32 (used_node_count_ t + 1) * 5) / 3 + 1))) t
    else Ok t in
  Ok (invalidate_iterators t).

(** ** Lookup *)
Definition find_impl (key : K) (t : table) : Res (option Z) :=
  if is_null t || key_empty key then Ok None
  else
    let* bucket := find_bucket (fun n => node_empty n || has_key key n) t (calc_bucket t key) in
    let* n := at_node (nodes_ t) bucket in
    Ok (if node_empty n then None else Some bucket).

Definition find (key : K) (t : table) : Res (option (K * V)) :=
  let* b := find_impl key t in
  match b with None => Ok None | Some b => at_node (nodes_ t) b end.
Definition count (key : K) (t : table) : Res Z :=
  let* b := find_impl key t in Ok (match b with Some _ => 1 | None => 0 end).
Definition size (t : table) : Z := used_node_count_ t.
Definition empty (t : table) : bool := used_node_count_ t =? 0.

(** ** Insertion: the bucket of the key, and whether it is new.  [again] is the call of
    [emplace] after a [resize]; the table then has room, so there is at most one. *)
Definition emplace_body (again : table -> Res (Z * bool * table)) (key : K) (value : V) (t : table) : Res (Z * bool * table) :=
  CHECK! negb (key_empty key) else "!is_hash_table_key_empty(key)" in
  let* t :=
    if bucket_count_mask_ t =? 0 then
      CHECK! used_node_count_ t =? 0 else "used_node_count_ == 0" in
      resize 8 t
    else Ok t in
  let* bucket := find_bucket (fun n => node_empty n || has_key key n) t (calc_bucket t key) in
  let* n := at_node (nodes_ t) bucket in
  if node_empty n then
    if u32 (bucket_count_mask_ t * 3) <=? u32 (used_node_count_ t * 5) then
      let* t := resize (u32 (2 * bucket_count_ t)) t in
      CHECK! u32 (used_node_count_ t * 5) <? u32 (bucket_count_mask_ t * 3) else "used_node_count_ * 5 < bucket_count_mask_ * 3" in
      again t
    else
      let t := invalidate_iterators t in
      Ok (bucket, true, with_nodes (set_node (nodes_ t) bucket (Some (key, value))) (u32 (used_node_count_ t + 1)) t)
  else Ok (bucket, false, t).

Fixpoint emplace_rec (depth : nat) (key : K) (value : V) (t : table) : Res (Z * bool * table) :=
  match depth with
  | O => Panic "fuel"
  | S depth => emplace_body (emplace_rec depth key value) key value t
  end.
Definition emplace : K -> V -> table -> Res (Z * bool * table) := emplace_rec 2.

(** [table[key] = value], where [v0] is [ValueT()]. *)
Definition assign (v0 : V) (key : K) (value : V) (t : table) : Res table :=
  let* (r, t) := emplace key v0 t in
  Ok (with_nodes (set_node (nodes_ t) r.1 (Some (key, value))) (used_node_count_ t) t).

Fixpoint insert_all (l : list (K * V)) (t : table) : Res table :=
  match l with
  | [] => Ok t
  | x :: l => let* (_, t) := emplace x.1 x.2 t in insert_all l t
  end.

(** ** Removal *)

(** The first loop: up to the end of the array, or to an empty node. *)
Fixpoint shift_forward (fuel : nat) (t : table) (nodes : list node) (it test : Z) : Res (list node * option Z) :=
  if test =? bucket_count_ t then Ok (nodes, Some it)
  else
    match fuel with
    | O => Panic "fuel"
    | S fuel =>
        let* n := at_node nodes test in
        match n with
        | None => Ok (nodes, None)
        | Some (key, _) =>
            let want := calc_bucket t key in
            if (want <=? it) || (test <? want) then
              let* nodes := move_node it test nodes in shift_forward fuel t nodes test (test + 1)
            else shift_forward fuel t nodes it (test + 1)
        end
    end.

(** The second loop: from the start of the array. *)
Fixpoint shift_wrapped (fuel : nat) (t : table) (nodes : list node) (empty_i empty_bucket test_i : Z) : Res (list node) :=
  match fuel with
  | O => Panic "fuel"
  | S fuel =>
      let test_bucket := u32 (test_i - bucket_count_ t) in
      let* n := at_node nodes test_bucket in
      match n with
      | None => Ok nodes
      | Some (key, _) =>
          let want_i := calc_bucket t key in
          let want_i := if want_i <? empty_i then u32 (want_i + bucket_count_ t) else want_i in
          if (want_i <=? empty_i) || (test_i <? want_i) then
            let* nodes := move_node empty_bucket test_bucket nodes in shift_wrapped fuel t nodes test_i test_bucket (u32 (test_i + 1))
          else shift_wrapped fuel t nodes empty_i empty_bucket (u32 (test_i + 1))
      end
  end.

Definition erase_node (it : Z) (t : table) : Res table :=
  CHECK! (0 <=? it) && (it <? bucket_count_ t) else "nodes_ <= it && it - nodes_ < bucket_count()" in
  let* n := at_node (nodes_ t) it in
  CHECK! negb (node_empty n) else "!empty()" in
  let t := with_nodes (set_node (nodes_ t) it None) (u32 (used_node_count_ t - 1)) t in
  let* (nodes, rest) := shift_forward (length (nodes_ t)) t (nodes_ t) it (it + 1) in
  let* nodes :=
    match rest with
    | None => Ok nodes
    | Some it => shift_wrapped (length (nodes_ t)) t nodes it it (bucket_count_ t)
    end in
  Ok (with_nodes nodes (used_node_count_ t) t).

(** [erase] of an iterator or a pointer to a node. *)
Definition erase_at (it : Z) (t : table) : Res table :=
  let* t := erase_node it t in
  try_shrink t.
Definition erase (key : K) (t : table) : Res (Z * table) :=
  let* b := find_impl key t in
  match b with
  | None => Ok (0, t)
  | Some b => let* t := erase_at b t in Ok (1, t)
  end.

Definition clear (t : table) : table := if is_null t then t else drop_nodes t.
(** The new table and what is left of the other one. *)
Definition move_table (other : table) : table * table := (other, drop_nodes other).
Definition swap_tables (t other : table) : table * table := (other, t).

(** ** Iteration; [random] is the random number that [begin_impl] may need. *)
Definition begin_impl (random : Z) (t : table) : Res (option Z * table) :=
  if empty t then Ok (None, t)
  else
    let* t :=
      if begin_bucket_ t =? INVALID_BUCKET then
        let* b := find_bucket (fun n => negb (node_empty n)) t (get_random_flat_hash_table_bucket random (bucket_count_mask_ t)) in
        Ok (with_begin b t)
      else Ok t in
    Ok (Some (begin_bucket_ t), t).

(** [Iterator::operator++] *)
Fixpoint iterator_next (fuel : nat) (nodes : list node) (start it : Z) : Res (option Z) :=
  match fuel with
  | O => Panic "fuel"
  | S fuel =>
      let it := if it + 1 =? Z.of_nat (length nodes) then 0 else it + 1 in
      if it =? start then Ok None
      else
        let* n := at_node nodes it in
        if node_empty n then iterator_next fuel nodes start it else Ok (Some it)
  end.

Fixpoint visit (fuel : nat) (nodes : list node) (start it : Z) : Res (list (K * V)) :=
  match fuel with
  | O => Panic "fuel"
  | S fuel =>
      let* n := at_node nodes it in
      match n with
      | None => Panic "get_public of an empty node"
      | Some x =>
          let* next := iterator_next (length nodes) nodes start it in
          match next with
          | None => Ok [x]
          | Some it => let* l := visit fuel nodes start it in Ok (x :: l)
          end
      end
  end.

(** A range-based [for] over the table: the nodes in the order in which they are visited. *)
Definition iterate (random : Z) (t : table) : Res (list (K * V) * table) :=
  let* (b, t) := begin_impl random t in
  match b with
  | None => Ok ([], t)
  | Some b => let* l := visit (length (nodes_ t)) (nodes_ t) b b in Ok (l, t)
  end.

(** ** [remove_if] *)
Fixpoint skip_used (fuel : nat) (t : table) (it : Z) : Res Z :=
  if it =? bucket_count_ t then Ok it
  else
    match fuel with
    | O => Panic "fuel"
    | S fuel => let* n := at_node (nodes_ t) it in if node_empty n then Ok it else skip_used fuel t (it + 1)
    end.

(** [do { --it; } while (!it->empty())] from the node with index [n]. *)
Fixpoint back_to_empty (n : nat) (t : table) : Res Z :=
  match n with
  | O => Panic "--it before nodes_"
  | S n => let* x := at_node (nodes_ t) (Z.of_nat n) in if node_empty x then Ok (Z.of_nat n) else back_to_empty n t
  end.

Fixpoint remove_range (fuel : nat) (f : K * V -> bool) (it last : Z) (is_removed : bool) (t : table) : Res (bool * table) :=
  if it =? last then Ok (is_removed, t)
  else
    match fuel with
    | O => Panic "fuel"
    | S fuel =>
        let* n := at_node (nodes_ t) it in
        if (match n with Some x => f x | None => false end) then
          let* t := erase_node it t in remove_range fuel f it last true t
        else remove_range fuel f (it + 1) last is_removed t
    end.

Definition remove_if (random : Z) (f : K * V -> bool) (t : table) : Res (bool * table) :=
  if empty t then Ok (false, t)
  else
    let* (b, t) := begin_impl random t in
    let* it := skip_used (length (nodes_ t)) t (default 0 b) in
    let* first_empty := if it =? bucket_count_ t then back_to_empty (length (nodes_ t)) t else Ok it in
    let fuel := (2 * length (nodes_ t))%nat in
    let* (is_removed, t) := remove_range fuel f first_empty (bucket_count_ t) false t in
    let* (is_removed, t) := remove_range fuel f 0 first_empty is_removed t in
    let* t := try_shrink t in
    Ok (is_removed, t).

(** ** Construction from a list of nodes *)
Fixpoint copy_nodes (l : list (K * V)) (used : Z) (t : table) : Res table :=
  match l with
  | [] => Ok (with_nodes (nodes_ t) used t)
  | x :: l =>
      CHECK! negb (key_empty x.1) else "!new_node.empty()" in
      let* bucket := find_bucket (fun n => node_empty n || has_key x.1 n) t (calc_bucket t x.1) in
      let* n := at_node (nodes_ t) bucket in
      if node_empty n then copy_nodes l (u32 (used + 1)) (with_nodes (set_node (nodes_ t) bucket (Some x)) (used_node_count_ t) t)
      else copy_nodes l used t
  end.
Definition of_nodes (l : list (K * V)) : Res table :=
  if Nat.eqb (length l) 0 then Ok new_table
  else
    let* t := reserve (Z.of_nat (length l)) new_table in
    copy_nodes l 0 t.
End table.

(** * Proofs *)
Section proofs.
Context {K V : Type} `{Countable K}.
Abbreviation node := (option (K * V)).

(** ** Nodes by their index *)
Definition nd (nodes : list node) (b : Z) : node := default None (nodes !! Z.to_nat b).
Definition cnt (nodes : list node) : Z := Z.of_nat (length (omap id nodes)).

Lemma at_node_ok (nodes : list node) b : 0 <= b < Z.of_nat (length nodes) -> at_node nodes b = Ok (nd nodes b).
Proof.
  intros Hb. unfold at_node, nd. decide_if. destruct (nodes !! Z.to_nat b) eqn:E; [done|]. apply lookup_ge_None in E. lia.
Qed.

Lemma length_set_node (nodes : list node) b n : length (set_node nodes b n) = length nodes.
Proof. apply length_insert. Qed.

Lemma nd_set (nodes : list node) b n q : 0 <= b < Z.of_nat (length nodes) -> 0 <= q ->
  nd (set_node nodes b n) q = if decide (q = b) then n else nd nodes q.
Proof.
  intros Hb Hq. unfold nd, set_node. destruct (decide (q = b)) as [->|Hne]; [by rewrite list_lookup_insert_eq by lia|]. by rewrite list_lookup_insert_ne by lia.
Qed.

Lemma cnt_cons (n : node) nodes : cnt (n :: nodes) = (if node_empty n then 0 else 1) + cnt nodes.
Proof. unfold cnt. destruct n as [x|]; [|done]. change (omap id (Some x :: nodes)) with (x :: omap id nodes). cbn [length node_empty]. lia. Qed.

Lemma cnt_insert (nodes : list node) i old n : nodes !! i = Some old ->
  cnt (<[i := n]> nodes) = cnt nodes - (if node_empty old then 0 else 1) + (if node_empty n then 0 else 1).
Proof.
  revert i. induction nodes as [|x nodes IH]; intros [|i]; cbn [lookup list_lookup]; [done..| |]; rewrite cnt_cons.
  - intros [= ->]. change (<[0%nat := n]> (old :: nodes)) with (n :: nodes). rewrite cnt_cons. lia.
  - intros Hi. specialize (IH i Hi). change (<[S i := n]> (x :: nodes)) with (x :: <[i := n]> nodes). rewrite cnt_cons. lia.
Qed.

Lemma cnt_set (nodes : list node) b n : 0 <= b < Z.of_nat (length nodes) ->
  cnt (set_node nodes b n) = cnt nodes - (if node_empty (nd nodes b) then 0 else 1) + (if node_empty n then 0 else 1).
Proof.
  intros Hb. unfold set_node, nd. destruct (nodes !! Z.to_nat b) as [x|] eqn:E; [by apply cnt_insert|]. apply lookup_ge_None in E. lia.
Qed.

Lemma cnt_bound (nodes : list node) : 0 <= cnt nodes <= Z.of_nat (length nodes).
Proof. induction nodes as [|x nodes IH]; [done|]. rewrite cnt_cons. cbn [length]. destruct x; simpl; lia. Qed.

(** A table that is not full has an empty node, one that is not empty a used one. *)
Lemma nd_cons (n : node) nodes e : 0 <= e -> nd (n :: nodes) (e + 1) = nd nodes e.
Proof. intros He. unfold nd. by replace (Z.to_nat (e + 1)) with (S (Z.to_nat e)) by lia. Qed.

Lemma exists_empty (nodes : list node) : cnt nodes < Z.of_nat (length nodes) -> exists e, 0 <= e < Z.of_nat (length nodes) /\ nd nodes e = None.
Proof.
  induction nodes as [|x nodes IH]; [done|]. rewrite cnt_cons. cbn [length]. intros Hc. destruct x as [x|]; simpl in Hc; [|exists 0; split; [lia|done]].
  destruct IH as (e & He & Hn); [lia|]. exists (e + 1). rewrite nd_cons by lia. split; [lia|done].
Qed.

Lemma exists_used (nodes : list node) : 0 < cnt nodes -> exists e, 0 <= e < Z.of_nat (length nodes) /\ nd nodes e <> None.
Proof.
  induction nodes as [|x nodes IH]; [done|]. rewrite cnt_cons. cbn [length]. intros Hc. destruct x as [x|]; simpl in Hc; [exists 0; split; [lia|done]|].
  destruct IH as (e & He & Hn); [lia|]. exists (e + 1). rewrite nd_cons by lia. split; [lia|done].
Qed.

(** ** Distances around the table *)
Section cyclic.
Context (N : Z) (home : K -> Z) (home_range : forall k, 0 <= home k < N).

Definition dist (a b : Z) : Z := if a <=? b then b - a else b - a + N.
Definition succ (b : Z) : Z := if b + 1 =? N then 0 else b + 1.

Lemma dist_cases a b : (a <= b /\ dist a b = b - a) \/ (b < a /\ dist a b = b - a + N).
Proof. unfold dist. case_if; lia. Qed.
Lemma succ_cases b : (b + 1 = N /\ succ b = 0) \/ (b + 1 <> N /\ succ b = b + 1).
Proof. unfold succ. case_if; lia. Qed.

(** [lia] with the distances of the goal and of the context. *)
Ltac dlia :=
  repeat match goal with
  | |- context [succ ?b] => let H := fresh in pose proof (succ_cases b) as H; revert H; generalize (succ b); intros
  | _ : context [succ ?b] |- _ => let H := fresh in pose proof (succ_cases b) as H; revert H; generalize dependent (succ b); intros
  end;
  repeat match goal with
  | |- context [dist ?a ?b] => let H := fresh in pose proof (dist_cases a b) as H; revert H; generalize (dist a b); intros
  | _ : context [dist ?a ?b] |- _ => let H := fresh in pose proof (dist_cases a b) as H; revert H; generalize dependent (dist a b); intros
  end; lia.

(** The nodes between the home of a key and the key are used, the hole [h] excepted. *)
Definition reach (nodes : list node) (h : Z) : Prop := forall p q k v, 0 <= p < N -> 0 <= q < N -> nd nodes p = Some (k, v) ->
  dist (home k) q < dist (home k) p -> nd nodes q <> None \/ q = h.
Definition uniq (nodes : list node) : Prop := forall p q k v w, 0 <= p < N -> 0 <= q < N ->
  nd nodes p = Some (k, v) -> nd nodes q = Some (k, w) -> p = q.
Definition holds (nodes : list node) (k : K) (v : V) : Prop := exists p, 0 <= p < N /\ nd nodes p = Some (k, v).

Lemma absent nodes k b : reach nodes (-1) -> 0 <= b < N -> nd nodes b = None ->
  (forall q, 0 <= q < N -> dist (home k) q < dist (home k) b -> has_key k (nd nodes q) = false) -> forall v, ~ holds nodes k v.
Proof.
  intros Hr Hb Hn Hq v (p & Hp & Hk). pose proof (home_range k) as Hh.
  destruct (Z.lt_trichotomy (dist (home k) p) (dist (home k) b)) as [Hlt|[Heq|Hgt]].
  - specialize (Hq p Hp Hlt). rewrite Hk in Hq. simpl in Hq. by rewrite bool_decide_true in Hq.
  - assert (p = b) as -> by (clear Hq; dlia). congruence.
  - destruct (Hr p b k v Hp Hb Hk Hgt) as [?|?]; [done|lia].
Qed.

(** A new key in the first empty node after its home. *)
Lemma place_reach nodes k v b : Z.of_nat (length nodes) = N -> reach nodes (-1) -> 0 <= b < N -> nd nodes b = None ->
  (forall q, 0 <= q < N -> dist (home k) q < dist (home k) b -> nd nodes q <> None) -> reach (set_node nodes b (Some (k, v))) (-1).
Proof.
  intros Hl Hr Hb Hn Hpath p q k' v' Hp Hq. rewrite !nd_set by lia. destruct (decide (q = b)) as [->|Hne]; [by left|].
  destruct (decide (p = b)) as [->|Hnp]; [|by apply Hr]. intros [= <- <-] Hd. left. by apply Hpath.
Qed.

Lemma place_uniq nodes k v b : Z.of_nat (length nodes) = N -> uniq nodes -> 0 <= b < N -> (forall w, ~ holds nodes k w) -> uniq (set_node nodes b (Some (k, v))).
Proof.
  intros Hl Hu Hb Ha p q k' v' w Hp Hq. rewrite !nd_set by lia.
  destruct (decide (p = b)) as [->|Hnp], (decide (q = b)) as [->|Hnq]; try done.
  - intros [= <- <-] Hk. destruct (Ha w). by exists q.
  - intros Hk [= <- <-]. destruct (Ha v'). by exists p.
  - by apply Hu.
Qed.

Lemma place_holds nodes k v b k' v' : Z.of_nat (length nodes) = N -> 0 <= b < N -> nd nodes b = None ->
  holds (set_node nodes b (Some (k, v))) k' v' <-> (k' = k /\ v' = v) \/ holds nodes k' v'.
Proof.
  intros Hl Hb Hn. split.
  - intros (p & Hp & Hk). rewrite nd_set in Hk by lia. destruct (decide (p = b)) as [->|Hne]; [left; by injection Hk|right; by exists p].
  - intros [[-> ->]|(p & Hp & Hk)]; [exists b; rewrite nd_set, decide_True by lia; done|].
    exists p. rewrite nd_set, decide_False by (lia || congruence). done.
Qed.

(** ** Removal: the hole [h] moves towards the empty node [e], and [j] is looked at next. *)
Record shifting (e h0 : Z) (nodes0 nodes : list node) (h j : Z) : Prop := {
  sh_len : Z.of_nat (length nodes) = N;
  sh_h : 0 <= h < N;
  sh_j : 0 <= j < N;
  sh_hole : nd nodes h = None;
  sh_e : 0 <= e < N /\ nd nodes e = None /\ 0 < dist h j <= dist h e;
  sh_h0 : 0 <= h0 < N /\ dist h0 h + dist h e = dist h0 e;
  sh_reach : reach nodes h;
  sh_uniq : uniq nodes;
  sh_between q k v : 0 <= q < N -> nd nodes q = Some (k, v) -> 0 < dist h q < dist h j -> dist (home k) q <= dist (home k) h;
  sh_same q : 0 <= q < N -> dist h0 e <= dist h0 q -> nd nodes q = nd nodes0 q;
  sh_holds k v : holds nodes k v <-> holds nodes0 k v;
  sh_cnt : cnt nodes = cnt nodes0;
}.

(** The table after the removal. *)
Record shifted (e h0 : Z) (nodes0 nodes : list node) : Prop := {
  sd_len : Z.of_nat (length nodes) = N;
  sd_reach : reach nodes (-1);
  sd_uniq : uniq nodes;
  sd_same q : 0 <= q < N -> dist h0 e <= dist h0 q -> nd nodes q = nd nodes0 q;
  sd_holds k v : holds nodes k v <-> holds nodes0 k v;
  sd_cnt : cnt nodes = cnt nodes0;
}.

Lemma shifting_done e h0 nodes0 nodes h j : shifting e h0 nodes0 nodes h j -> nd nodes j = None -> shifted e h0 nodes0 nodes.
Proof.
  intros [Hl Hh Hj Hho (He & Hen & Hje) Hh0 Hr Hu Hb Hs Hhd Hc] Hn. split; auto.
  intros p q k v Hp Hq Hk Hd. pose proof (home_range k) as Hhk. destruct (Hr p q k v Hp Hq Hk Hd) as [?| ->]; [by left|]. exfalso.
  assert (p <> h) by congruence. assert (p <> j) by congruence.
  destruct (decide (dist h p < dist h j)) as [Hlt|Hge].
  - assert (0 < dist h p) by (clear -Hp Hh H0; dlia). specialize (Hb p k v Hp Hk). lia.
  - destruct (Hr p j k v Hp Hj Hk) as [?|Heq]; [|done|].
    + clear -Hd Hge Hp Hj Hh Hhk Hje H0 H1. dlia.
    + subst j. clear -Hje Hh. dlia.
Qed.

Lemma shifting_skip e h0 nodes0 nodes h j k v : shifting e h0 nodes0 nodes h j -> nd nodes j = Some (k, v) ->
  dist (home k) j <= dist (home k) h -> shifting e h0 nodes0 nodes h (succ j) /\ j <> e.
Proof.
  intros [Hl Hh Hj Hho (He & Hen & Hje) Hh0 Hr Hu Hb Hs Hhd Hc] Hk Hd. assert (j <> e) as Hne by congruence.
  split; [|done]. assert (0 <= succ j < N /\ dist h (succ j) = dist h j + 1 /\ dist h j < dist h e) as (H1 & H2 & H3) by (clear -Hj Hh He Hje Hne; dlia).
  split; auto; [split_and!; auto; lia|]. intros q k' v' Hq Hk' Hdq. destruct (decide (dist h q < dist h j)) as [Hlt|Hge]; [by apply (Hb q k' v'); [..|lia]|].
  assert (q = j) as -> by (clear -Hge Hdq H2 Hq Hj Hh; dlia). congruence.
Qed.

Lemma shifting_move e h0 nodes0 nodes h j k v : shifting e h0 nodes0 nodes h j -> nd nodes j = Some (k, v) ->
  dist (home k) h < dist (home k) j ->
  exists nodes', move_node h j nodes = Ok nodes' /\ shifting e h0 nodes0 nodes' j (succ j) /\ j <> e.
Proof.
  intros [Hl Hh Hj Hho (He & Hen & Hje) [Hh0 Hsum] Hr Hu Hb Hs Hhd Hc] Hk Hd. assert (j <> e) as Hne by congruence. assert (h <> j) as Hhj by congruence.
  assert (h <> e) as Hhe by (intros ->; clear -Hje He; dlia).
  pose proof (home_range k) as Hhk. unfold move_node. rewrite !at_node_ok by lia. rewrite Hho. cbn [res_bind node_empty]. rewrite Hk. cbn [res_bind node_empty negb].
  eexists. split; [done|]. split; [|done]. set (nodes' := set_node (set_node nodes h (Some (k, v))) j None).
  assert (forall q, 0 <= q -> nd nodes' q = if decide (q = j) then None else if decide (q = h) then Some (k, v) else nd nodes q) as Hnd.
  { intros q Hq. unfold nodes'. rewrite nd_set by (rewrite ?length_set_node; lia). by rewrite nd_set by lia. }
  assert (0 <= succ j < N /\ 0 < dist j (succ j) <= dist j e /\ dist h0 j + dist j e = dist h0 e /\ dist h0 j < dist h0 e /\ dist h0 h < dist h0 e) as (A1 & A2 & A3 & A4 & A5)
    by (clear -Hj Hh He Hje Hne Hh0 Hsum Hhe; dlia).
  split; auto.
  - unfold nodes'. by rewrite !length_set_node.
  - rewrite Hnd, decide_True by lia. done.
  - split_and!; try lia. rewrite Hnd, !decide_False by (lia || congruence). done.
  - intros p q k' v' Hp Hq. rewrite !Hnd by lia. destruct (decide (p = j)) as [->|Hpj]; [done|]. destruct (decide (q = j)) as [->|Hqj]; [by right|].
    destruct (decide (q = h)) as [->|Hqh]; [by left|]. destruct (decide (p = h)) as [->|Hph].
    + intros [= <- <-] Hdq. destruct (Hr j q k v Hj Hq Hk) as [?|?]; [lia|by left|done].
    + intros Hk' Hdq. destruct (Hr p q k' v' Hp Hq Hk' Hdq) as [?|?]; [by left|done].
  - intros p q k' v' w' Hp Hq. rewrite !Hnd by lia. destruct (decide (p = j)) as [->|Hpj]; [done|]. destruct (decide (q = j)) as [->|Hqj]; [done|].
    destruct (decide (p = h)) as [->|Hph], (decide (q = h)) as [->|Hqh]; try done.
    + intros [= <- <-] Hq'. by destruct Hqj; apply (Hu q j k w' v).
    + intros Hp' [= <- <-]. by destruct Hpj; apply (Hu p j k v' v).
    + by apply Hu.
  - intros q k' v' Hq _ Hdq. clear -Hdq Hq Hj A1. dlia.
  - intros q Hq Hdq. rewrite Hnd, !decide_False by (lia || (intros ->; lia)). by apply Hs.
  - intros k' v'. rewrite <- Hhd. split.
    + intros (p & Hp & Hk'). rewrite Hnd in Hk' by lia. destruct (decide (p = j)) as [->|Hpj]; [done|]. destruct (decide (p = h)) as [->|Hph]; [|by exists p].
      injection Hk' as <- <-. by exists j.
    + intros (p & Hp & Hk'). destruct (decide (p = j)) as [->|Hpj].
      * exists h. rewrite Hnd, decide_False, decide_True by (done || lia). split; [lia|congruence].
      * exists p. rewrite Hnd, !decide_False by (lia || congruence). done.
  - rewrite <- Hc. unfold nodes'. rewrite cnt_set by (rewrite length_set_node; lia). rewrite nd_set, decide_False, Hk, cnt_set, Hho by (lia || congruence). simpl. lia.
Qed.
End cyclic.

Ltac dlia :=
  repeat match goal with
  | |- context [succ ?n ?b] => let H := fresh in pose proof (succ_cases n b) as H; revert H; generalize (succ n b); intros
  | _ : context [succ ?n ?b] |- _ => let H := fresh in pose proof (succ_cases n b) as H; revert H; generalize dependent (succ n b); intros
  end;
  repeat match goal with
  | |- context [dist ?n ?a ?b] => let H := fresh in pose proof (dist_cases n a b) as H; revert H; generalize (dist n a b); intros
  | _ : context [dist ?n ?a ?b] |- _ => let H := fresh in pose proof (dist_cases n a b) as H; revert H; generalize dependent (dist n a b); intros
  end; lia.

(** ** The table *)
Section table_proofs.
Context (hash : K -> Z) (key_empty : K -> bool) (sizeof_node : Z).
Abbreviation table := (FlatHashTable K V).

(** The size of the table is a power of two. *)
Record geometry (t : table) : Prop := {
  ge_size : exists m, 3 <= m <= 29 /\ bucket_count_ t = 2 ^ m;
  ge_mask : bucket_count_mask_ t = bucket_count_ t - 1;
  ge_length : Z.of_nat (length (nodes_ t)) = bucket_count_ t;
}.

Abbreviation home t := (calc_bucket hash t).

Record filled (t : table) : Prop := {
  fi_reach : reach (bucket_count_ t) (home t) (nodes_ t) (-1);
  fi_uniq : uniq (bucket_count_ t) (nodes_ t);
  fi_keys k v : holds (bucket_count_ t) (nodes_ t) k v -> key_empty k = false;
}.

Lemma size_bound t : geometry t -> 8 <= bucket_count_ t <= 2 ^ 29.
Proof.
  intros [(m & Hm & ->) _ _]. pose proof (Z.pow_le_mono_r 2 3 m). pose proof (Z.pow_le_mono_r 2 m 29). lia.
Qed.

Lemma mask_mod t x : geometry t -> Z.land x (bucket_count_mask_ t) = x mod bucket_count_ t.
Proof. intros [(m & Hm & E) -> _]. rewrite E. apply land_ones_mod. lia. Qed.

Lemma home_range t : geometry t -> forall k, 0 <= home t k < bucket_count_ t.
Proof. intros Hg k. unfold calc_bucket. rewrite mask_mod by done. apply Z.mod_pos_bound. pose proof (size_bound t Hg). lia. Qed.

Lemma next_succ t b : geometry t -> 0 <= b < bucket_count_ t -> next_bucket t b = succ (bucket_count_ t) b.
Proof.
  intros Hg Hb. unfold next_bucket. pose proof (size_bound t Hg). rewrite mask_mod by done. rewrite u32_small by (unfold is_u32; lia).
  unfold succ. case_if; [subst; replace (b + 1) with (bucket_count_ t); by apply Z.mod_same; lia|]. apply Z.mod_small. lia.
Qed.

Lemma probe_from stop t b0 e fuel b : geometry t -> 0 <= b0 < bucket_count_ t -> 0 <= b < bucket_count_ t -> 0 <= e < bucket_count_ t ->
  stop (nd (nodes_ t) e) = true -> dist (bucket_count_ t) b0 b <= dist (bucket_count_ t) b0 e < dist (bucket_count_ t) b0 b + Z.of_nat fuel ->
  (forall q, 0 <= q < bucket_count_ t -> dist (bucket_count_ t) b0 q < dist (bucket_count_ t) b0 b -> stop (nd (nodes_ t) q) = false) ->
  exists r, probe stop fuel t b = Ok r /\ 0 <= r < bucket_count_ t /\ stop (nd (nodes_ t) r) = true /\
    forall q, 0 <= q < bucket_count_ t -> dist (bucket_count_ t) b0 q < dist (bucket_count_ t) b0 r -> stop (nd (nodes_ t) q) = false.
Proof.
  intros Hg Hb0 Hb He Hse. revert b Hb. induction fuel as [|fuel IH]; intros b Hb Hd Hq; [lia|]. cbn [probe].
  rewrite at_node_ok by (rewrite (ge_length t Hg); lia). cbn [res_bind]. destruct (stop (nd (nodes_ t) b)) eqn:E; [by exists b|].
  rewrite next_succ by done. assert (b <> e) as Hne by congruence. clear Hse.
  assert (0 <= succ (bucket_count_ t) b < bucket_count_ t /\ dist (bucket_count_ t) b0 (succ (bucket_count_ t) b) = dist (bucket_count_ t) b0 b + 1 /\
    dist (bucket_count_ t) b0 b < dist (bucket_count_ t) b0 e) as (H1 & H2 & H3) by (clear -Hb Hb0 He Hd Hne; dlia).
  apply IH; [done|lia|]. intros q Hq1 Hq2. destruct (decide (dist (bucket_count_ t) b0 q < dist (bucket_count_ t) b0 b)) as [Hlt|Hge]; [by apply Hq|].
  assert (q = b) as -> by (clear -Hge Hq1 Hq2 H2 Hb Hb0; dlia). done.
Qed.

Lemma find_bucket_spec stop t b e : geometry t -> 0 <= b < bucket_count_ t -> 0 <= e < bucket_count_ t -> stop (nd (nodes_ t) e) = true ->
  exists r, find_bucket stop t b = Ok r /\ 0 <= r < bucket_count_ t /\ stop (nd (nodes_ t) r) = true /\
    forall q, 0 <= q < bucket_count_ t -> dist (bucket_count_ t) b q < dist (bucket_count_ t) b r -> stop (nd (nodes_ t) q) = false.
Proof.
  intros Hg Hb He Hs. pose proof (ge_length t Hg) as Hl. apply (probe_from stop t b e); auto; [clear Hs; dlia|].
  intros q Hq Hd. clear Hs. dlia.
Qed.

(** The search for a key ends at the key or, if it is not there, at the node where it belongs. *)
Lemma find_key t key : geometry t -> filled t -> cnt (nodes_ t) < bucket_count_ t ->
  exists b, find_bucket (fun n => node_empty n || has_key key n) t (home t key) = Ok b /\ 0 <= b < bucket_count_ t /\
    at_node (nodes_ t) b = Ok (nd (nodes_ t) b) /\
    match nd (nodes_ t) b with
    | Some (k, v) => k = key
    | None => (forall v, ~ holds (bucket_count_ t) (nodes_ t) key v) /\
        forall q, 0 <= q < bucket_count_ t -> dist (bucket_count_ t) (home t key) q < dist (bucket_count_ t) (home t key) b -> nd (nodes_ t) q <> None
    end.
Proof.
  intros Hg [Hr Hu _] Hc. destruct (exists_empty (nodes_ t)) as (e & He & Hn); [rewrite (ge_length t Hg); lia|]. rewrite (ge_length t Hg) in He.
  destruct (find_bucket_spec (fun n => node_empty n || has_key key n) t (home t key) e) as (b & Hb & Hrg & Hs & Hq);
    [done|by apply home_range|done|by rewrite Hn|]. exists b. split_and!; try done; [lia|lia|by apply at_node_ok; rewrite (ge_length t Hg)|].
  destruct (nd (nodes_ t) b) as [[k v]|] eqn:E; [simpl in Hs; by apply bool_decide_eq_true in Hs|]. split.
  - eapply (absent (bucket_count_ t) (home t)); [by apply home_range|done|exact Hrg|done|]. intros q Hq1 Hq2. specialize (Hq q Hq1 Hq2). by apply orb_false_elim in Hq as [_ ?].
  - intros q Hq1 Hq2 Hnq. specialize (Hq q Hq1 Hq2). by rewrite Hnq in Hq.
Qed.

(** *** Adding a node *)
Lemma put_spec t b k v u : geometry t -> filled t -> 0 <= b < bucket_count_ t -> nd (nodes_ t) b = None ->
  (forall q, 0 <= q < bucket_count_ t -> dist (bucket_count_ t) (home t k) q < dist (bucket_count_ t) (home t k) b -> nd (nodes_ t) q <> None) ->
  (forall w, ~ holds (bucket_count_ t) (nodes_ t) k w) -> key_empty k = false ->
  let t' := with_nodes (set_node (nodes_ t) b (Some (k, v))) u t in
  geometry t' /\ filled t' /\ cnt (nodes_ t') = cnt (nodes_ t) + 1 /\
  forall k' v', holds (bucket_count_ t) (nodes_ t') k' v' <-> (k' = k /\ v' = v) \/ holds (bucket_count_ t) (nodes_ t) k' v'.
Proof.
  intros Hg [Hr Hu Hk] Hb Hn Hp Ha He t'. pose proof (ge_length t Hg) as Hl.
  assert (forall k' v', holds (bucket_count_ t) (nodes_ t') k' v' <-> (k' = k /\ v' = v) \/ holds (bucket_count_ t) (nodes_ t) k' v') as Hh
    by (intros; by apply place_holds).
  split_and!; auto.
  - destruct Hg as [G1 G2 G3]. split; [done|done|]. simpl. by rewrite length_set_node.
  - split; [by apply place_reach|by apply place_uniq|]. intros k' v' H'. apply Hh in H' as [[-> _]|H']; [done|by eapply Hk].
  - unfold t'. simpl. rewrite cnt_set, Hn by lia. simpl. lia.
Qed.

(** *** Moving the nodes to a new array *)
Lemma move_nodes_spec old t : geometry t -> filled t -> NoDup (fst <$> omap id old) -> cnt (nodes_ t) + cnt old <= bucket_count_ t ->
  (forall k v, Some (k, v) ∈ old -> key_empty k = false /\ forall w, ~ holds (bucket_count_ t) (nodes_ t) k w) ->
  exists nodes, move_nodes hash old t = Ok (with_nodes nodes (used_node_count_ t) t) /\
    let t' := with_nodes nodes (used_node_count_ t) t in
    geometry t' /\ filled t' /\ cnt nodes = cnt (nodes_ t) + cnt old /\
    forall k v, holds (bucket_count_ t) nodes k v <-> holds (bucket_count_ t) (nodes_ t) k v \/ Some (k, v) ∈ old.
Proof.
  revert t. induction old as [|[[k v]|] old IH]; intros t Hg Hf Hnd Hc Hold; cbn [move_nodes].
  - exists (nodes_ t). split; [by destruct t|]. replace (with_nodes (nodes_ t) (used_node_count_ t) t) with t by (by destruct t).
    split_and!; auto; [unfold cnt; simpl; lia|]. set_solver.
  - rewrite cnt_cons in *. cbn [node_empty] in *. apply NoDup_cons in Hnd as [Hni Hnd]. destruct (Hold k v) as [Hke Hab]; [set_solver|].
    destruct (exists_empty (nodes_ t)) as (e & He & Hne); [rewrite (ge_length t Hg); pose proof (cnt_bound old); lia|]. rewrite (ge_length t Hg) in He.
    destruct (find_bucket_spec node_empty t (home t k) e) as (b & Hb & Hrg & Hs & Hq); [done|by apply home_range|done|by rewrite Hne|].
    cbn [fst]. rewrite Hb. cbn [res_bind]. destruct (nd (nodes_ t) b) as [|] eqn:Enb; [done|].
    destruct (put_spec t b k v (used_node_count_ t)) as (Hg' & Hf' & Hc' & Hh'); auto.
    { intros q Hq1 Hq2 Hq3. specialize (Hq q Hq1 Hq2). by rewrite Hq3 in Hq. }
    set (t1 := with_nodes (set_node (nodes_ t) b (Some (k, v))) (used_node_count_ t) t) in *.
    destruct (IH t1) as (nodes & E & Hg2 & Hf2 & Hc2 & Hh2); auto.
    + rewrite Hc'. change (bucket_count_ t1) with (bucket_count_ t). lia.
    + intros k' v' Hin. destruct (Hold k' v') as [Hk1 Hk2]; [set_solver|]. split; [done|]. intros w Hw. apply Hh' in Hw as [[-> ->]|Hw]; [|by eapply Hk2].
      apply Hni. apply list_elem_of_fmap. exists (k, v'). split; [done|]. apply list_elem_of_omap. by exists (Some (k, v')).
    + exists nodes. split; [done|]. split_and!; auto; [lia|]. intros k' v'. change (bucket_count_ t) with (bucket_count_ t1). rewrite Hh2.
      change (bucket_count_ t1) with (bucket_count_ t). rewrite Hh', elem_of_cons. naive_solver.
  - rewrite cnt_cons in Hc. cbn [node_empty] in Hc. destruct (IH t) as (nodes & E & Hg2 & Hf2 & Hc2 & Hh2); auto; [set_solver|].
    exists nodes. rewrite cnt_cons. cbn [node_empty]. split_and!; auto. intros k v. rewrite Hh2. set_solver.
Qed.

(** *** The contents *)
Definition contents (t : table) : gmap K V := list_to_map (omap id (nodes_ t)).

Lemma omap_nd (nodes : list node) x : x ∈ omap id nodes <-> exists p, 0 <= p < Z.of_nat (length nodes) /\ nd nodes p = Some x.
Proof.
  rewrite list_elem_of_omap. split.
  - intros (n & Hin & Hn). unfold id in Hn. subst n. apply list_elem_of_lookup in Hin as [i Hi]. exists (Z.of_nat i).
    pose proof (lookup_lt_Some _ _ _ Hi). split; [lia|]. unfold nd. by rewrite Nat2Z.id, Hi.
  - intros (p & Hp & Hn). exists (Some x). split; [|done]. unfold nd in Hn. destruct (nodes !! Z.to_nat p) as [n|] eqn:E; [|done].
    simpl in Hn. subst. by eapply list_elem_of_lookup_2.
Qed.

Lemma uniq_NoDup (nodes : list node) : uniq (Z.of_nat (length nodes)) nodes -> NoDup (fst <$> omap id nodes).
Proof.
  induction nodes as [|n nodes IH]; intros Hu; [constructor|].
  assert (NoDup (fst <$> omap id nodes)) as Hnd.
  { apply IH. intros p q k v w Hp Hq Hk Hk'. rewrite <- (nd_cons n) in Hk, Hk' by lia.
    pose proof (Hu (p + 1) (q + 1) k v w) as E. cbn [length] in E. lapply E; [|lia]. intros E1. lapply E1; [|lia]. intros E2. specialize (E2 Hk Hk'). lia. }
  destruct n as [[k v]|]; [|done]. apply NoDup_cons. split; [|done]. intros Hin. apply list_elem_of_fmap in Hin as ([k' w] & E & Hin). simpl in E. subst k'.
  apply omap_nd in Hin as (p & Hp & Hk). rewrite <- (nd_cons (Some (k, v))) in Hk by lia.
  assert (0 = p + 1); [|lia]. apply (Hu 0 (p + 1) k v w); cbn [length]; try lia; done.
Qed.

Lemma contents_holds t k v : geometry t -> filled t -> contents t !! k = Some v <-> holds (bucket_count_ t) (nodes_ t) k v.
Proof.
  intros Hg Hf. unfold contents. pose proof (fi_uniq t Hf) as Hu. rewrite <- (ge_length t Hg) in *.
  rewrite <- elem_of_list_to_map by (by apply uniq_NoDup). apply omap_nd.
Qed.

Lemma contents_none t k : geometry t -> filled t -> contents t !! k = None <-> forall v, ~ holds (bucket_count_ t) (nodes_ t) k v.
Proof.
  intros Hg Hf. split.
  - intros Hn v Hv. apply contents_holds in Hv; [|done..]. congruence.
  - intros Hn. destruct (contents t !! k) as [v|] eqn:E; [|done]. apply contents_holds in E; [|done..]. by destruct (Hn v).
Qed.

Lemma contents_size t : geometry t -> filled t -> Z.of_nat (Datatypes.length (map_to_list (contents t))) = cnt (nodes_ t).
Proof.
  intros Hg Hf. unfold contents, cnt. pose proof (fi_uniq t Hf) as Hu. rewrite <- (ge_length t Hg) in Hu. by rewrite map_to_list_to_map by (by apply uniq_NoDup).
Qed.

(** The table has the entries of another one. *)
Lemma contents_eq t t' : geometry t -> filled t -> geometry t' -> filled t' ->
  (forall k v, holds (bucket_count_ t') (nodes_ t') k v <-> holds (bucket_count_ t) (nodes_ t) k v) -> contents t' = contents t.
Proof. intros Hg Hf Hg' Hf' Hh. apply map_eq. intros k. apply option_eq. intros v. by rewrite !contents_holds. Qed.

(** *** The invariant *)
Record live (t : table) : Prop := {
  lv_geometry : geometry t;
  lv_filled : filled t;
  lv_max : bucket_count_ t <= MAX_BUCKETS sizeof_node;
  lv_used : used_node_count_ t = cnt (nodes_ t);
  lv_load : 5 * cnt (nodes_ t) <= 3 * bucket_count_mask_ t + 4;
  lv_begin : begin_bucket_ t = INVALID_BUCKET \/ (0 <= begin_bucket_ t < bucket_count_ t /\ nd (nodes_ t) (begin_bucket_ t) <> None);
}.
Definition table_inv (t : table) : Prop := t = new_table \/ live t.

Lemma live_free t : live t -> 0 <= cnt (nodes_ t) < bucket_count_ t - 1.
Proof. intros [Hg _ _ _ Hl _]. pose proof (size_bound t Hg). pose proof (cnt_bound (nodes_ t)). rewrite (ge_mask t Hg) in Hl. lia. Qed.

Lemma max_buckets_bound : MAX_BUCKETS sizeof_node <= 2 ^ 29.
Proof. unfold MAX_BUCKETS. change (Z.shiftl 1 29) with (2 ^ 29). lia. Qed.

Lemma allocate_spec size t : (exists m, 3 <= m /\ size = 2 ^ m) -> size <= MAX_BUCKETS sizeof_node ->
  exists t', allocate_nodes sizeof_node size t = Ok t' /\ geometry t' /\ filled t' /\ bucket_count_ t' = size /\ cnt (nodes_ t') = 0 /\
    used_node_count_ t' = used_node_count_ t /\ begin_bucket_ t' = INVALID_BUCKET.
Proof.
  intros (m & Hm & ->) Hmax. pose proof max_buckets_bound. assert (m <= 29) by (apply (Z.pow_le_mono_r_iff 2); lia). pose proof (Z.pow_le_mono_r 2 3 m).
  unfold allocate_nodes. repeat decide_if. rewrite land_ones_mod by lia. rewrite Z.mod_same by lia. decide_if. cbn [Z.eqb].
  eexists. split; [done|]. cbn [nodes_ used_node_count_ bucket_count_ begin_bucket_ bucket_count_mask_].
  assert (forall p, nd (replicate (Z.to_nat (2 ^ m)) (None : node)) p = None) as Hn.
  { intros p. unfold nd. destruct (_ !! _) as [n|] eqn:E; [|done]. by apply lookup_replicate in E as [-> _]. }
  split_and!; auto.
  - split; cbn; [by exists m|done|]. rewrite length_replicate. lia.
  - split; unfold reach, uniq, holds; cbn.
    + intros p q k v _ _ Hk. by rewrite Hn in Hk.
    + intros p q k v w _ _ Hk. by rewrite Hn in Hk.
    + intros k v (p & _ & Hk). by rewrite Hn in Hk.
  - clear. induction (Z.to_nat (2 ^ m)) as [|n IH]; [done|]. change (replicate (S n) None) with ((None : node) :: replicate n None). by rewrite cnt_cons, IH.
Qed.

Lemma resize_live size t : live t -> (exists m, 3 <= m /\ size = 2 ^ m) -> size <= MAX_BUCKETS sizeof_node -> 5 * cnt (nodes_ t) <= 3 * (size - 1) + 4 ->
  exists t', resize hash sizeof_node size t = Ok t' /\ live t' /\ bucket_count_ t' = size /\ contents t' = contents t /\ cnt (nodes_ t') = cnt (nodes_ t) /\ begin_bucket_ t' = INVALID_BUCKET.
Proof.
  intros [Hg Hf Hm Hu Hl Hb] Hs Hmax Hload. unfold resize, is_null. pose proof (size_bound t Hg). pose proof (ge_length t Hg) as Hlen.
  rewrite (proj2 (Nat.eqb_neq _ _)) by lia. destruct (allocate_spec size t Hs Hmax) as (t1 & -> & Hg1 & Hf1 & Hbc1 & Hc1 & Hu1 & Hb1). cbn [res_bind].
  pose proof (fi_uniq t Hf) as Hun. rewrite <- Hlen in Hun. pose proof (size_bound t1 Hg1). pose proof (cnt_bound (nodes_ t)).
  assert (forall k v, Some (k, v) ∈ nodes_ t <-> holds (bucket_count_ t) (nodes_ t) k v) as Hin.
  { intros k v. unfold holds. rewrite <- Hlen, <- omap_nd, list_elem_of_omap. unfold id. naive_solver. }
  assert (forall k w, ~ holds (bucket_count_ t1) (nodes_ t1) k w) as Hno.
  { intros k w (p & Hp & Hk). rewrite <- (ge_length t1 Hg1) in Hp. assert ((k, w) ∈ omap id (nodes_ t1)) as Hi by (apply omap_nd; eauto).
    unfold cnt in Hc1. destruct (omap id (nodes_ t1)); [by apply elem_of_nil in Hi|simpl in Hc1; lia]. }
  destruct (move_nodes_spec (nodes_ t) t1) as (nodes & E & Hg2 & Hf2 & Hc2 & Hh2); auto.
  - by apply uniq_NoDup.
  - lia.
  - intros k v Hkv. split; [|done]. apply Hin in Hkv. by apply (fi_keys t Hf k v).
  - rewrite E. eexists. split; [done|]. cbn [nodes_ with_nodes bucket_count_ begin_bucket_]. split_and!; auto; [|apply contents_eq; auto|lia].
    + split; auto; cbn; try lia. rewrite (ge_mask t1 Hg1). lia.
    + cbn. intros k v. rewrite Hh2, Hin. naive_solver.
Qed.

Lemma resize_null size : (exists m, 3 <= m /\ size = 2 ^ m) -> size <= MAX_BUCKETS sizeof_node ->
  exists t', resize hash sizeof_node size new_table = Ok t' /\ live t' /\ bucket_count_ t' = size /\ contents t' = ∅ /\ cnt (nodes_ t') = 0.
Proof.
  intros Hs Hmax. unfold resize. change (is_null (@new_table K V)) with true. cbv iota.
  destruct (allocate_spec size new_table Hs Hmax) as (t1 & -> & Hg1 & Hf1 & Hbc1 & Hc1 & Hu1 & Hb1). cbn [res_bind].
  replace (with_nodes (nodes_ t1) 0 t1) with t1 by (destruct t1; cbn in *; by rewrite Hu1). pose proof (size_bound t1 Hg1).
  exists t1. split_and!; auto.
  - split; auto; [lia|rewrite Hu1; cbn; lia|]. rewrite (ge_mask t1 Hg1). lia.
  - unfold contents. unfold cnt in Hc1. destruct (omap id (nodes_ t1)); [done|simpl in Hc1; lia].
Qed.

Lemma live_mask t : live t -> bucket_count_mask_ t =? 0 = false.
Proof. intros Ht. pose proof (size_bound t (lv_geometry t Ht)). rewrite (ge_mask t (lv_geometry t Ht)). apply Z.eqb_neq. lia. Qed.
Lemma live_not_null t : live t -> is_null t = false.
Proof. intros Ht. unfold is_null. pose proof (size_bound t (lv_geometry t Ht)). pose proof (ge_length t (lv_geometry t Ht)). apply Nat.eqb_neq. lia. Qed.

(** *** Lookup *)
Lemma find_impl_spec t key : live t -> exists r, find_impl hash key_empty key t = Ok r /\
  match r with
  | Some b => 0 <= b < bucket_count_ t /\ exists v, nd (nodes_ t) b = Some (key, v) /\ contents t !! key = Some v
  | None => contents t !! key = None
  end.
Proof.
  intros Ht. pose proof (live_free t Ht) as Hfree. unfold find_impl. rewrite (live_not_null t Ht). cbn [orb]. destruct Ht as [Hg Hf _ _ _ _].
  destruct (key_empty key) eqn:Ek.
  { eexists. split; [done|]. apply contents_none; auto. intros v Hv. apply (fi_keys t Hf) in Hv. congruence. }
  destruct (find_key t key Hg Hf) as (b & -> & Hb & Ha & Hn); [lia|]. cbn [res_bind]. rewrite Ha. cbn [res_bind].
  eexists. split; [done|]. destruct (nd (nodes_ t) b) as [[k v]|] eqn:E; cbn [node_empty].
  - subst k. split; [done|]. exists v. split; [done|]. apply contents_holds; auto. by exists b.
  - apply contents_none; [done..|]. by destruct Hn.
Qed.

Lemma find_spec t key : table_inv t -> find hash key_empty key t = Ok ((fun v => (key, v)) <$> contents t !! key).
Proof.
  intros [->|Ht]; [done|]. unfold find. destruct (find_impl_spec t key Ht) as (r & -> & Hr). cbn [res_bind].
  destruct r as [b|]; [|by rewrite Hr]. destruct Hr as (Hb & v & Hn & ->). rewrite at_node_ok by (rewrite (ge_length t (lv_geometry t Ht)); lia). by rewrite Hn.
Qed.

(** *** Insertion *)
Record emplaced (key : K) (value : V) (t : table) (b : Z) (is_new : bool) (t' : table) : Prop := {
  em_live : live t';
  em_bucket : 0 <= b < bucket_count_ t';
  em_node : nd (nodes_ t') b = Some (key, default value (contents t !! key));
  em_new : is_new = bool_decide (contents t !! key = None);
  em_contents : contents t' = if is_new then <[key := value]> (contents t) else contents t;
}.

Lemma emplace_room again key value t : live t -> key_empty key = false -> 5 * cnt (nodes_ t) < 3 * bucket_count_mask_ t ->
  exists b r t', emplace_body hash key_empty sizeof_node again key value t = Ok (b, r, t') /\ emplaced key value t b r t'.
Proof.
  intros Ht Hk Hroom. pose proof (live_free t Ht) as Hfree. pose proof Ht as [Hg Hf Hmx Hu Hl Hb]. unfold emplace_body. rewrite Hk, (live_mask t Ht). cbn [negb res_bind].
  destruct (find_key t key Hg Hf) as (b & -> & Hrg & Ha & Hn); [lia|]. cbn [res_bind]. rewrite Ha. cbn [res_bind].
  destruct (nd (nodes_ t) b) as [[k v]|] eqn:E; cbn [node_empty].
  { subst k. assert (contents t !! key = Some v) as Hc by (apply contents_holds; auto; by exists b).
    exists b, false, t. split; [done|]. split; auto; by rewrite Hc. }
  pose proof (size_bound t Hg). rewrite Hu. rewrite (ge_mask t Hg) in *. rewrite !u32_small by (unfold is_u32; lia). decide_if.
  destruct Hn as [Hno Hpath]. assert (contents t !! key = None) as Hc by (by apply contents_none).
  destruct (put_spec t b key value (cnt (nodes_ t) + 1) Hg Hf Hrg E Hpath Hno Hk) as (Hg' & Hf' & Hc' & Hh').
  unfold invalidate_iterators. cbn [with_begin nodes_ used_node_count_]. rewrite Hu, u32_small by (unfold is_u32; lia).
  eexists _, _, _. split; [done|].
  set (t' := with_nodes (set_node (nodes_ t) b (Some (key, value))) (cnt (nodes_ t) + 1) (with_begin INVALID_BUCKET t)). assert (geometry t') as Hg2 by (by destruct Hg'). assert (filled t') as Hf2 by (by destruct Hf').
  split; [split; [done|done|done|cbn in *; lia|cbn in *; rewrite (ge_mask t Hg); lia|by left]|done|..].
  - cbn. rewrite nd_set, decide_True, Hc by (rewrite ?(ge_length t Hg); done || lia). done.
  - by rewrite Hc.
  - apply map_eq. intros k'. apply option_eq. intros v'. rewrite contents_holds by done. etransitivity; [apply Hh'|]. rewrite <- contents_holds by done.
    destruct (decide (k' = key)) as [->|Hne]; [rewrite lookup_insert_eq, Hc; naive_solver|rewrite lookup_insert_ne by done; naive_solver].
Qed.

(** There is a table for more than twice as many entries. *)
Definition room (n : Z) : Prop := 4 * n + 8 <= MAX_BUCKETS sizeof_node.

Lemma double_size t : geometry t -> exists m, 3 <= m /\ 2 * bucket_count_ t = 2 ^ m.
Proof. intros [(m & Hm & ->) _ _]. exists (m + 1). split; [lia|]. rewrite Z.pow_add_r by lia. lia. Qed.

Lemma emplace_live key value t : live t -> key_empty key = false -> room (cnt (nodes_ t)) ->
  exists b r t', emplace hash key_empty sizeof_node key value t = Ok (b, r, t') /\ emplaced key value t b r t'.
Proof.
  intros Ht Hk Hroom. unfold emplace. cbn [emplace_rec]. destruct (decide (5 * cnt (nodes_ t) < 3 * bucket_count_mask_ t)) as [Hlt|Hge]; [by apply emplace_room|].
  pose proof (live_free t Ht) as Hfree. pose proof Ht as [Hg Hf Hmx Hu Hl Hb]. unfold emplace_body at 1. rewrite Hk, (live_mask t Ht). cbn [negb res_bind].
  destruct (find_key t key Hg Hf) as (b & -> & Hrg & Ha & Hn); [lia|]. cbn [res_bind]. rewrite Ha. cbn [res_bind].
  destruct (nd (nodes_ t) b) as [[k v]|] eqn:E; cbn [node_empty].
  { subst k. assert (contents t !! key = Some v) as Hc by (apply contents_holds; auto; by exists b).
    exists b, false, t. split; [done|]. split; auto; by rewrite Hc. }
  pose proof (size_bound t Hg). rewrite (ge_mask t Hg) in *. rewrite Hu, !u32_small by (unfold is_u32; lia). decide_if.
  unfold room in Hroom. destruct (resize_live (2 * bucket_count_ t) t Ht (double_size t Hg)) as (t1 & -> & Ht1 & Hbc & Hcon & Hcnt & Hbg); [lia|lia|]. cbn [res_bind].
  pose proof (lv_geometry t1 Ht1) as Hg1. pose proof (size_bound t1 Hg1). rewrite (lv_used t1 Ht1), (ge_mask t1 Hg1), Hbc, Hcnt.
  rewrite !u32_small by (unfold is_u32; lia). decide_if.
  destruct (emplace_room (emplace_rec hash key_empty sizeof_node 0 key value) key value t1 Ht1 Hk) as (b' & r & t' & E' & [M1 M2 M3 M4 M5]); [rewrite (ge_mask t1 Hg1); lia|].
  rewrite Hcon in *. by exists b', r, t'.
Qed.

Lemma emplace_spec key value t : table_inv t -> key_empty key = false -> room (size t) ->
  exists b r t', emplace hash key_empty sizeof_node key value t = Ok (b, r, t') /\ emplaced key value t b r t'.
Proof.
  intros [->|Ht] Hk Hroom; [|apply emplace_live; auto; unfold size in Hroom; by rewrite (lv_used t Ht) in Hroom].
  unfold emplace. cbn [emplace_rec]. unfold emplace_body at 1. rewrite Hk. cbn [negb]. change (bucket_count_mask_ (@new_table K V)) with 0. cbn [Z.eqb].
  change (used_node_count_ (@new_table K V)) with 0. cbn [Z.eqb]. unfold room in Hroom. cbn in Hroom.
  destruct (resize_null 8) as (t1 & -> & Ht1 & Hbc & Hcon & Hcnt); [by exists 3|lia|]. cbn [res_bind].
  destruct (emplace_live key value t1 Ht1 Hk) as (b & r & t' & E & [M1 M2 M3 M4 M5]); [rewrite Hcnt; unfold room; lia|].
  assert (contents new_table = ∅) as Hnew by done. unfold emplace in E. cbn [emplace_rec] in E. unfold emplace_body at 1 in E.
  rewrite Hk, (live_mask t1 Ht1) in E. cbn [negb res_bind] in E. exists b, r, t'. split; [exact E|]. rewrite Hcon in *. split; by rewrite ?Hnew.
Qed.

(** *** Assignment *)
Lemma replace_spec t b key w value : live t -> 0 <= b < bucket_count_ t -> nd (nodes_ t) b = Some (key, w) ->
  let t' := with_nodes (set_node (nodes_ t) b (Some (key, value))) (used_node_count_ t) t in
  live t' /\ contents t' = <[key := value]> (contents t).
Proof.
  intros [Hg Hf Hm Hu Hl Hbg] Hb Hn t'. pose proof (ge_length t Hg) as Hlen. pose proof Hf as [Hr Hun Hk].
  assert (forall q, 0 <= q -> nd (nodes_ t') q = if decide (q = b) then Some (key, value) else nd (nodes_ t) q) as Hnd
    by (intros q Hq; cbn; apply nd_set; lia).
  assert (forall k' v', holds (bucket_count_ t) (nodes_ t') k' v' <-> (k' = key /\ v' = value) \/ (k' <> key /\ holds (bucket_count_ t) (nodes_ t) k' v')) as Hh.
  { intros k' v'. split.
    - intros (p & Hp & Hk'). rewrite Hnd in Hk' by lia. destruct (decide (p = b)) as [->|Hne]; [left; by injection Hk'|]. right.
      split; [|by exists p]. intros ->. apply Hne. by eapply (Hun p b).
    - intros [[-> ->]|(Hne & p & Hp & Hk')]; [exists b; rewrite Hnd, decide_True by lia; done|]. exists p. rewrite Hnd, decide_False by (lia || congruence). done. }
  assert (geometry t') as Hg' by (destruct Hg; split; cbn; [done|done|by rewrite length_set_node]).
  assert (filled t') as Hf'.
  { split; cbn.
    - intros p q k' v' Hp Hq. specialize (Hr p q). change (set_node (nodes_ t) b (Some (key, value))) with (nodes_ t'). rewrite !Hnd by lia.
      destruct (decide (q = b)); [by left|]. destruct (decide (p = b)) as [->|]; [|by apply Hr]. intros [= <- <-]. by apply (Hr key w).
    - intros p q k' v' w' Hp Hq. change (set_node (nodes_ t) b (Some (key, value))) with (nodes_ t'). rewrite !Hnd by lia.
      destruct (decide (p = b)) as [->|], (decide (q = b)) as [->|]; try done.
      + intros [= <- <-] Hq'. by apply (Hun b q key w w').
      + intros Hp' [= <- <-]. by apply (Hun p b key v' w).
      + by apply Hun.
    - intros k' v' H'. apply Hh in H' as [[-> _]|[_ H']]; [|by eapply Hk]. apply (Hk key w). by exists b. }
  assert (cnt (nodes_ t') = cnt (nodes_ t)) as Hc by (cbn; rewrite cnt_set, Hn by lia; cbn; lia).
  split.
  - split; auto; try (cbn in *; lia). destruct Hbg as [Hbg|[Hbg1 Hbg2]]; [by left|]. right. split; [done|]. rewrite Hnd by (cbn; lia). cbn. by destruct (decide _).
  - apply map_eq. intros k'. apply option_eq. intros v'. rewrite contents_holds by done. etransitivity; [apply Hh|].
    destruct (decide (k' = key)) as [->|Hne]; [rewrite lookup_insert_eq; naive_solver|]. rewrite lookup_insert_ne, contents_holds by done. naive_solver.
Qed.

Lemma assign_spec v0 key value t : table_inv t -> key_empty key = false -> room (size t) ->
  exists t', assign hash key_empty sizeof_node v0 key value t = Ok t' /\ live t' /\ contents t' = <[key := value]> (contents t).
Proof.
  intros Ht Hk Hroom. unfold assign. destruct (emplace_spec key v0 t Ht Hk Hroom) as (b & r & t1 & -> & [M1 M2 M3 M4 M5]). cbn [res_bind fst].
  destruct (replace_spec t1 b key _ value M1 M2 M3) as [Hl Hc]. eexists. split; [done|]. split; [done|]. rewrite Hc, M5. destruct r; [|done]. apply insert_insert_eq.
Qed.

(** *** Sizes *)
Lemma normalize_spec s : 1 <= s <= 2 ^ 30 ->
  (exists m, 3 <= m /\ normalize_flat_hash_table_size s = 2 ^ m) /\ s < normalize_flat_hash_table_size s <= Z.max 8 (2 * s).
Proof.
  intros Hs. unfold normalize_flat_hash_table_size, count_leading_zeroes32. replace (32 - (31 - Z.log2 s)) with (Z.log2 s + 1) by lia.
  pose proof (Z.log2_spec s ltac:(lia)) as Hl. pose proof (Z.log2_nonneg s). rewrite Z.shiftl_mul_pow2, Z.mul_1_l by lia.
  rewrite <- Z.add_1_r in Hl. rewrite Z.pow_add_r in * by lia. rewrite u32_small by (unfold is_u32; lia).
  destruct (decide (Z.log2 s < 2)) as [Hlt|Hge].
  - assert (2 ^ Z.log2 s <= 2 ^ 1) by (apply Z.pow_le_mono_r; lia). rewrite Z.max_r by lia. split; [by exists 3|lia].
  - assert (2 ^ 2 <= 2 ^ Z.log2 s) by (apply Z.pow_le_mono_r; lia). rewrite Z.max_l by lia. split; [|lia].
    exists (Z.log2 s + 1). rewrite Z.pow_add_r by lia. split; [lia|done].
Qed.

Lemma reserve_spec n t : table_inv t -> 0 <= n -> room n ->
  exists t', reserve hash sizeof_node n t = Ok t' /\ table_inv t' /\ contents t' = contents t /\ size t' = size t /\
    (0 < n -> live t' /\ 5 * n + 1 <= 3 * bucket_count_mask_ t').
Proof.
  intros Ht Hn Hroom. pose proof max_buckets_bound. unfold reserve, room in *. destruct (n =? 0) eqn:E; zbool; [exists t; split_and!; auto; lia|].
  change (Z.shiftl 1 29) with (2 ^ 29). decide_if. rewrite (u32_small n), (u32_small (n * 5)), u32_small by (unfold is_u32; zlia).
  destruct (normalize_spec (n * 5 / 3 + 1)) as [Hp Hb]; [zlia|]. set (want := normalize_flat_hash_table_size _) in *.
  assert (want <= MAX_BUCKETS sizeof_node) by zlia. assert (5 * n + 1 <= 3 * (want - 1)) by zlia. destruct (bucket_count_ t <? want) eqn:E2; zbool.
  - destruct Ht as [->|Ht].
    + destruct (resize_null want Hp) as (t' & -> & Ht' & Hbc & Hcon & Hcnt); [done|]. exists t'. pose proof (ge_mask t' (lv_geometry t' Ht')).
      split_and!; [done|by right|by rewrite Hcon|unfold size; rewrite (lv_used t' Ht'); done|intros _; split; [done|lia]].
    + pose proof (lv_load t Ht). rewrite (ge_mask t (lv_geometry t Ht)) in *. destruct (resize_live want t Ht Hp) as (t' & -> & Ht' & Hbc & Hcon & Hcnt & _); [done|lia|].
      exists t'. pose proof (ge_mask t' (lv_geometry t' Ht')). split_and!; [done|by right|done|unfold size; rewrite (lv_used t' Ht'), (lv_used t Ht); done|intros _; split; [done|lia]].
  - exists t. split_and!; auto. intros _. destruct Ht as [->|Ht]; [change (bucket_count_ (@new_table K V)) with 0 in E2; zlia|]. split; [done|]. rewrite (ge_mask t (lv_geometry t Ht)). lia.
Qed.

(** [try_shrink] makes the begin bucket invalid, whatever it was. *)
Lemma try_shrink_spec t : live (invalidate_iterators t) ->
  exists t', try_shrink hash sizeof_node t = Ok t' /\ live t' /\ contents t' = contents t /\ cnt (nodes_ t') = cnt (nodes_ t).
Proof.
  intros Ht. unfold try_shrink. pose proof (lv_used _ Ht) as Hu. cbn in Hu. pose proof (size_bound _ (lv_geometry _ Ht)) as Hs. cbn in Hs.
  pose proof (live_free _ Ht) as Hfr. cbn in Hfr. pose proof (ge_mask _ (lv_geometry _ Ht)) as Hm. cbn in Hm. pose proof (lv_max _ Ht) as Hmx. cbn in Hmx.
  pose proof (lv_load _ Ht) as Hld. cbn in Hld.
  destruct (_ && _) eqn:E; cbn [res_bind]; [|exists (invalidate_iterators t); done]. apply andb_prop in E as [E1 E2]. zbool.
  rewrite Hu. rewrite Hu in E1. rewrite Hm in E1, E2, Hld. rewrite u32_small in E1 by (unfold is_u32; lia). rewrite (u32_small (cnt (nodes_ t) + 1)), (u32_small ((cnt (nodes_ t) + 1) * 5)), u32_small by (unfold is_u32; zlia).
  destruct (normalize_spec ((cnt (nodes_ t) + 1) * 5 / 3 + 1)) as [Hp Hb]; [zlia|]. set (want := normalize_flat_hash_table_size _) in *.
  destruct (resize_live want (invalidate_iterators t) Ht Hp) as (t' & Hr & Ht' & Hbc & Hcon & Hcnt & Hbg); [zlia|cbn; zlia|].
  change (resize hash sizeof_node want (invalidate_iterators t)) with (resize hash sizeof_node want t) in Hr. rewrite Hr. cbn [res_bind].
  exists (invalidate_iterators t'). split; [done|]. split; [|done]. destruct Ht' as [G F M U L B]. destruct G, F. split; [by split|by split|done|done|done|by left].
Qed.

(** *** Removal *)
Lemma shift_forward_spec t e h0 nodes0 fuel nodes it test : geometry t ->
  shifting (bucket_count_ t) (home t) e h0 nodes0 nodes it (if test =? bucket_count_ t then 0 else test) ->
  it < test <= bucket_count_ t -> bucket_count_ t - test <= Z.of_nat fuel ->
  exists nodes' r, shift_forward hash fuel t nodes it test = Ok (nodes', r) /\
    match r with
    | None => shifted (bucket_count_ t) (home t) e h0 nodes0 nodes'
    | Some it' => shifting (bucket_count_ t) (home t) e h0 nodes0 nodes' it' 0
    end.
Proof.
  intros Hg. revert nodes it test. induction fuel as [|fuel IH]; intros nodes it test Hs Hit Hf; cbn [shift_forward].
  { destruct (test =? bucket_count_ t) eqn:E; zbool; [by exists nodes, (Some it)|lia]. }
  destruct (test =? bucket_count_ t) eqn:E; zbool; [by exists nodes, (Some it)|]. pose proof (sh_h _ _ _ _ _ _ _ _ Hs) as Hh.
  rewrite at_node_ok by (rewrite (sh_len _ _ _ _ _ _ _ _ Hs); lia). cbn [res_bind]. destruct (nd nodes test) as [[k v]|] eqn:En.
  - pose proof (home_range t Hg k) as Hk. destruct ((home t k <=? it) || (test <? home t k)) eqn:Ec.
    + destruct (shifting_move _ _ (home_range t Hg) _ _ _ _ _ _ k v Hs En) as (nodes1 & -> & Hs1 & _).
      { apply orb_true_iff in Ec as [Ec|Ec]; zbool; clear -Ec Hk Hh Hit E; dlia. }
      cbn [res_bind]. apply IH; [exact Hs1|lia|lia].
    + apply orb_false_elim in Ec as [Ec1 Ec2]. zbool. destruct (shifting_skip _ _ _ _ _ _ _ _ k v Hs En) as [Hs1 _].
      { clear -Ec1 Ec2 Hk Hh Hit E. dlia. }
      apply IH; [exact Hs1|lia|lia].
  - exists nodes, None. split; [done|]. by eapply shifting_done; [apply home_range| |].
Qed.

Lemma shift_wrapped_spec t e h0 nodes0 fuel nodes h empty_i j : geometry t ->
  shifting (bucket_count_ t) (home t) e h0 nodes0 nodes h j -> (empty_i = h /\ j < h) \/ (empty_i = h + bucket_count_ t /\ h < j) ->
  j <= e -> e - j < Z.of_nat fuel ->
  exists nodes', shift_wrapped hash fuel t nodes empty_i h (j + bucket_count_ t) = Ok nodes' /\
    shifted (bucket_count_ t) (home t) e h0 nodes0 nodes'.
Proof.
  intros Hg. revert nodes h empty_i j. induction fuel as [|fuel IH]; intros nodes h empty_i j Hs Hei Hje Hf; cbn [shift_wrapped]; [lia|].
  pose proof (sh_h _ _ _ _ _ _ _ _ Hs) as Hh. pose proof (sh_j _ _ _ _ _ _ _ _ Hs) as Hj. pose proof (proj1 (sh_e _ _ _ _ _ _ _ _ Hs)) as He. pose proof (size_bound t Hg) as Hb.
  replace (j + bucket_count_ t - bucket_count_ t) with j by lia. rewrite u32_small by (unfold is_u32; lia).
  rewrite at_node_ok by (rewrite (sh_len _ _ _ _ _ _ _ _ Hs); lia). cbn [res_bind]. destruct (nd nodes j) as [[k v]|] eqn:En.
  2: { exists nodes. split; [done|]. by eapply shifting_done; [apply home_range| |]. }
  pose proof (home_range t Hg k) as Hk. rewrite (u32_small (home t k + _)), (u32_small (j + _ + 1)) by (unfold is_u32; lia).
  set (want := if home t k <? empty_i then home t k + bucket_count_ t else home t k).
  assert ((home t k < empty_i /\ want = home t k + bucket_count_ t) \/ (empty_i <= home t k /\ want = home t k)) as Hw by (unfold want; case_if; lia).
  clearbody want. assert (succ (bucket_count_ t) j = j + 1 \/ j = e) as Hsucc by (clear -Hje Hj He; dlia).
  destruct ((want <=? empty_i) || (j + bucket_count_ t <? want)) eqn:Ec.
  - destruct (shifting_move _ _ (home_range t Hg) _ _ _ _ _ _ k v Hs En) as (nodes1 & -> & Hs1 & Hne).
    { apply orb_true_iff in Ec as [Ec|Ec]; zbool; clear -Ec Hk Hh Hj Hei Hw; dlia. }
    cbn [res_bind]. destruct Hsucc as [Hsu|?]; [|done]. rewrite Hsu in Hs1. replace (j + bucket_count_ t + 1) with (j + 1 + bucket_count_ t) by lia.
    apply IH; [done|right; lia|lia|lia].
  - apply orb_false_elim in Ec as [Ec1 Ec2]. zbool. destruct (shifting_skip _ _ _ _ _ _ _ _ k v Hs En) as [Hs1 Hne].
    { clear -Ec1 Ec2 Hk Hh Hj Hei Hw. dlia. }
    destruct Hsucc as [Hsu|?]; [|done]. rewrite Hsu in Hs1. replace (j + bucket_count_ t + 1) with (j + 1 + bucket_count_ t) by lia.
    pose proof (sh_e _ _ _ _ _ _ _ _ Hs1) as (_ & _ & Hd1). apply IH; [done| |lia|lia].
    destruct Hei as [[-> Hlt]|[-> Hlt]]; [left|right; lia]. split; [done|]. clear -Hd1 Hlt Hh Hj He Hje Hne. dlia.
Qed.

Lemma clear_node_shifting t it e k v : geometry t -> filled t -> 0 <= it < bucket_count_ t -> nd (nodes_ t) it = Some (k, v) ->
  0 <= e < bucket_count_ t -> nd (nodes_ t) e = None ->
  let nodes0 := set_node (nodes_ t) it None in
  shifting (bucket_count_ t) (home t) e it nodes0 nodes0 it (succ (bucket_count_ t) it) /\ cnt nodes0 = cnt (nodes_ t) - 1 /\
  forall k' v', holds (bucket_count_ t) nodes0 k' v' <-> k' <> k /\ holds (bucket_count_ t) (nodes_ t) k' v'.
Proof.
  intros Hg [Hr Hu Hk] Hit Hn He Hne nodes0. pose proof (ge_length t Hg) as Hlen. assert (it <> e) as Hie by congruence.
  assert (forall q, 0 <= q -> nd nodes0 q = if decide (q = it) then None else nd (nodes_ t) q) as Hnd by (intros q Hq; apply nd_set; lia).
  split_and!.
  - assert (0 <= succ (bucket_count_ t) it < bucket_count_ t /\ 0 < dist (bucket_count_ t) it (succ (bucket_count_ t) it) <= dist (bucket_count_ t) it e /\
      dist (bucket_count_ t) it it = 0 /\ dist (bucket_count_ t) it (succ (bucket_count_ t) it) = 1) as (A1 & A2 & A3 & A4)
      by (pose proof (size_bound t Hg); clear -Hit He Hie H0; dlia).
    split; auto; try lia.
    + unfold nodes0. rewrite length_set_node. lia.
    + rewrite Hnd, decide_True by lia. done.
    + split_and!; try lia. rewrite Hnd, decide_False by (lia || congruence). done.
    + intros p q k' v' Hp Hq. rewrite !Hnd by lia. destruct (decide (p = it)); [done|]. destruct (decide (q = it)); [by right|]. intros Hp' Hd.
      destruct (Hr p q k' v' Hp Hq Hp' Hd) as [?|?]; [by left|lia].
    + intros p q k' v' w' Hp Hq. rewrite !Hnd by lia. destruct (decide (p = it)), (decide (q = it)); try done. by apply Hu.
  - unfold nodes0. rewrite cnt_set, Hn by lia. simpl. lia.
  - intros k' v'. split.
    + intros (p & Hp & Hk'). rewrite Hnd in Hk' by lia. destruct (decide (p = it)) as [|Hpi]; [done|]. split; [|by exists p]. intros ->. apply Hpi. by eapply (Hu p it).
    + intros (Hne' & p & Hp & Hk'). exists p. rewrite Hnd, decide_False by (lia || congruence). done.
Qed.

(** The nodes from [e] on, up to the removed one, are not touched. *)
Lemma erase_node_spec t it e k v : geometry t -> filled t -> used_node_count_ t = cnt (nodes_ t) -> 0 <= it < bucket_count_ t -> nd (nodes_ t) it = Some (k, v) ->
  0 <= e < bucket_count_ t -> nd (nodes_ t) e = None ->
  exists nodes, let t' := with_nodes nodes (cnt (nodes_ t) - 1) t in
    erase_node hash it t = Ok t' /\ geometry t' /\ filled t' /\ cnt nodes = cnt (nodes_ t) - 1 /\ contents t' = delete k (contents t) /\
    forall q, 0 <= q < bucket_count_ t -> dist (bucket_count_ t) it e <= dist (bucket_count_ t) it q -> nd nodes q = nd (nodes_ t) q.
Proof.
  intros Hg Hf Hu Hit Hn He Hne. pose proof (ge_length t Hg) as Hlen. pose proof (size_bound t Hg) as Hb. assert (it <> e) as Hie by congruence.
  assert (1 <= cnt (nodes_ t) <= bucket_count_ t) as Hcb.
  { pose proof (cnt_bound (nodes_ t)). pose proof (cnt_bound (set_node (nodes_ t) it None)) as Hc0. rewrite cnt_set, Hn in Hc0 by lia. simpl in Hc0. lia. }
  destruct (clear_node_shifting t it e k v Hg Hf Hit Hn He Hne) as (Hs & Hc & Hh). set (nodes0 := set_node (nodes_ t) it None) in *.
  unfold erase_node. repeat decide_if. cbn [andb]. rewrite at_node_ok by lia. rewrite Hn. cbn [res_bind node_empty negb].
  rewrite Hu, u32_small by (unfold is_u32; lia). set (t0 := with_nodes nodes0 (cnt (nodes_ t) - 1) t).
  assert (exists nodes', (let* (nodes, rest) := shift_forward hash (length (nodes_ t0)) t0 (nodes_ t0) it (it + 1) in
    let* nodes := match rest with None => Ok nodes | Some it => shift_wrapped hash (length (nodes_ t0)) t0 nodes it it (bucket_count_ t0) end in
    Ok (with_nodes nodes (used_node_count_ t0) t0)) = Ok (with_nodes nodes' (cnt (nodes_ t) - 1) t) /\
    shifted (bucket_count_ t) (home t) e it nodes0 nodes') as (nodes' & E & Hsd).
  { assert (geometry t0) as Hg0 by (destruct Hg; split; cbn; [done|done|unfold nodes0; by rewrite length_set_node]).
    pose proof (ge_length t0 Hg0) as Hl0. cbn in Hl0.
    destruct (shift_forward_spec t0 e it nodes0 (length (nodes_ t0)) nodes0 it (it + 1) Hg0 Hs) as (nodes1 & r & E & Hr); [cbn; lia|cbn; lia|].
    change (nodes_ t0) with nodes0 at 2. rewrite E. cbn [res_bind]. destruct r as [h|]; [|by exists nodes1].
    destruct (shift_wrapped_spec t0 e it nodes0 (length (nodes_ t0)) nodes1 h h 0 Hg0 Hr) as (nodes2 & E2 & Hr2).
    - left. split; [done|]. pose proof (sh_h _ _ _ _ _ _ _ _ Hr) as Hh'. pose proof (sh_e _ _ _ _ _ _ _ _ Hr) as (_ & _ & Hd). clear -Hh' Hd. dlia.
    - lia.
    - cbn. lia.
    - rewrite Z.add_0_l in E2. rewrite E2. by exists nodes2. }
  exists nodes'. cbv zeta. split; [exact E|]. destruct Hsd as [L R U S Ho C].
  assert (geometry (with_nodes nodes' (cnt (nodes_ t) - 1) t)) as Hg' by (destruct Hg; split; done).
  assert (filled (with_nodes nodes' (cnt (nodes_ t) - 1) t)) as Hf'.
  { split; [done|done|]. intros k' v' H'. apply Ho, Hh in H' as [_ H']. by eapply (fi_keys t Hf). }
  split_and!; auto; [lia| |].
  - apply map_eq. intros k'. apply option_eq. intros v'. rewrite contents_holds by done. etransitivity; [apply Ho|]. rewrite Hh. rewrite lookup_delete_Some, contents_holds by done. naive_solver.
  - intros q Hq Hd. rewrite S by done. unfold nodes0. rewrite nd_set, decide_False; [done| |lia|lia]. intros ->. clear -Hd Hit He Hie. dlia.
Qed.

Lemma live_invalidate t : geometry t -> filled t -> bucket_count_ t <= MAX_BUCKETS sizeof_node -> used_node_count_ t = cnt (nodes_ t) ->
  5 * cnt (nodes_ t) <= 3 * bucket_count_mask_ t + 4 -> live (invalidate_iterators t).
Proof. intros [G1 G2 G3] [F1 F2 F3] Hm Hu Hl. split; [by split|by split|done|done|done|by left]. Qed.

Lemma table_erase_spec t key : table_inv t ->
  exists t', erase hash key_empty sizeof_node key t = Ok (if bool_decide (contents t !! key = None) then 0 else 1, t') /\
    table_inv t' /\ contents t' = delete key (contents t).
Proof.
  intros [->|Ht].
  { exists new_table. split; [done|]. split; [by left|]. symmetry. apply (delete_id ∅). apply lookup_empty. }
  pose proof (live_free t Ht) as Hfr. pose proof Ht as [Hg Hf Hm Hu Hl _]. unfold erase, erase_at. destruct (find_impl_spec t key Ht) as (r & -> & Hr). cbn [res_bind]. destruct r as [b|].
  - destruct Hr as (Hb & v & Hn & Hc). destruct (exists_empty (nodes_ t)) as (e & He & Hne); [rewrite (ge_length t Hg); lia|]. rewrite (ge_length t Hg) in He.
    destruct (erase_node_spec t b e key v Hg Hf Hu Hb Hn He Hne) as (nodes & -> & Hg' & Hf' & Hcn & Hco & _). cbn [res_bind].
    destruct (try_shrink_spec (with_nodes nodes (cnt (nodes_ t) - 1) t)) as (t' & -> & Ht' & Hco' & _); [apply live_invalidate; auto; cbn; lia|]. cbn [res_bind].
    exists t'. rewrite Hc, Hco', Hco. split; [done|]. split; [by right|done].
  - exists t. rewrite Hr. split; [done|]. split; [by right|]. by rewrite delete_id.
Qed.

Lemma clear_spec t : table_inv t -> clear t = new_table.
Proof. intros [->|Ht]; [done|]. unfold clear. by rewrite (live_not_null t Ht). Qed.

(** *** Iteration *)
Lemma begin_spec random t : live t -> 0 < cnt (nodes_ t) ->
  exists b, begin_impl random t = Ok (Some b, with_begin b t) /\ live (with_begin b t) /\ 0 <= b < bucket_count_ t /\ nd (nodes_ t) b <> None.
Proof.
  intros Ht Hc. pose proof Ht as [Hg Hf Hm Hu Hl Hb]. unfold begin_impl, empty. rewrite Hu. decide_if.
  assert (forall b, 0 <= b < bucket_count_ t -> nd (nodes_ t) b <> None -> live (with_begin b t)) as Hw.
  { intros b H1 H2. destruct Hg, Hf. split; [by split|by split|done|done|done|by right]. }
  destruct (begin_bucket_ t =? INVALID_BUCKET) eqn:E; zbool; cbn [res_bind].
  - destruct (exists_used (nodes_ t) Hc) as (e & He & Hne). rewrite (ge_length t Hg) in He. unfold get_random_flat_hash_table_bucket. rewrite mask_mod by done.
    pose proof (size_bound t Hg). destruct (find_bucket_spec (fun n => negb (node_empty n)) t (random mod bucket_count_ t) e) as (b & -> & Hb1 & Hb2 & _);
      [done|apply Z.mod_pos_bound; lia|done|by destruct (nd (nodes_ t) e)|]. cbn [res_bind]. exists b. assert (nd (nodes_ t) b <> None) by (by destruct (nd (nodes_ t) b)).
    split; [done|]. split; [by apply Hw|done].
  - destruct Hb as [?|[Hb1 Hb2]]; [done|]. exists (begin_bucket_ t). split; [by destruct t|]. split; [by apply Hw|done].
Qed.

Section walk.
Context (nodes : list node) (s : Z) (s_range : 0 <= s < Z.of_nat (length nodes)).
Abbreviation N := (Z.of_nat (length nodes)).

(** The nodes in the order of the iteration. *)
Definition rot : list node := drop (Z.to_nat s) nodes ++ take (Z.to_nat s) nodes.

Lemma rot_lookup b : 0 <= b < N -> rot !! Z.to_nat (dist N s b) = Some (nd nodes b).
Proof.
  intros Hb. assert (exists n, nodes !! Z.to_nat b = Some n) as [n Hn] by (apply lookup_lt_is_Some; lia). unfold nd. rewrite Hn. simpl. rewrite <- Hn.
  unfold rot. destruct (dist_cases N s b) as [[H1 ->]|[H1 ->]].
  - rewrite lookup_app_l by (rewrite length_drop; lia). rewrite lookup_drop. f_equal. lia.
  - rewrite lookup_app_r by (rewrite length_drop; lia). rewrite length_drop, lookup_take_lt by lia. f_equal. lia.
Qed.

Lemma length_rot : length rot = length nodes.
Proof. unfold rot. rewrite length_app, length_drop, length_take. lia. Qed.

Definition later (b : Z) : list (K * V) := omap id (drop (Z.to_nat (dist N s b + 1)) rot).

Lemma later_from b : 0 <= b < N -> omap id (drop (Z.to_nat (dist N s b)) rot) = match nd nodes b with Some x => x :: later b | None => later b end.
Proof.
  intros Hb. rewrite (drop_S rot (nd nodes b)) by (by apply rot_lookup). unfold later.
  replace (Z.to_nat (dist N s b + 1)) with (S (Z.to_nat (dist N s b))) by (clear -Hb s_range; dlia). by destruct (nd nodes b).
Qed.

Lemma iterator_next_spec fuel b : 0 <= b < N -> N - dist N s b <= Z.of_nat fuel ->
  exists r, iterator_next fuel nodes s b = Ok r /\
    match r with
    | None => later b = []
    | Some b' => 0 <= b' < N /\ dist N s b < dist N s b' /\ exists x, nd nodes b' = Some x /\ later b = x :: later b'
    end.
Proof.
  revert b. induction fuel as [|fuel IH]; intros b Hb Hf; cbn [iterator_next]; [clear -Hb Hf s_range; dlia|].
  change (if b + 1 =? N then 0 else b + 1) with (succ N b). destruct (succ N b =? s) eqn:E; zbool.
  - exists None. split; [done|]. unfold later. rewrite drop_ge; [done|]. rewrite length_rot. clear -E Hb s_range. dlia.
  - assert (0 <= succ N b < N /\ dist N s (succ N b) = dist N s b + 1) as [H1 H2] by (clear -E Hb s_range; dlia).
    rewrite at_node_ok by done. cbn [res_bind]. pose proof (later_from _ H1) as Hl. rewrite H2 in Hl. fold (later b) in Hl.
    destruct (nd nodes (succ N b)) as [x|] eqn:En; cbn [node_empty].
    + exists (Some (succ N b)). split; [done|]. split; [done|]. split; [lia|]. by exists x.
    + destruct (IH (succ N b) H1) as (r & -> & Hr); [lia|]. exists r. split; [done|]. rewrite Hl. destruct r as [b'|]; [|done].
      destruct Hr as (? & ? & x & ? & ?). split; [done|]. split; [lia|]. by exists x.
Qed.

Lemma visit_spec fuel b x : 0 <= b < N -> nd nodes b = Some x -> N - dist N s b <= Z.of_nat fuel -> visit fuel nodes s b = Ok (x :: later b).
Proof.
  revert b x. induction fuel as [|fuel IH]; intros b x Hb Hx Hf; cbn [visit]; [clear -Hb Hf s_range; dlia|].
  rewrite at_node_ok by done. rewrite Hx. cbn [res_bind]. destruct (iterator_next_spec (length nodes) b Hb) as (r & -> & Hr); [clear -Hb s_range; dlia|]. cbn [res_bind].
  destruct r as [b'|]; [|by rewrite Hr]. destruct Hr as (Hb' & Hd & y & Hy & ->). rewrite (IH b' y Hb' Hy) by lia. done.
Qed.
End walk.

Lemma iterate_spec random t : table_inv t ->
  exists l t', iterate random t = Ok (l, t') /\ table_inv t' /\ contents t' = contents t /\ size t' = size t /\ l ≡ₚ map_to_list (contents t).
Proof.
  intros [->|Ht]; [exists [], new_table; split_and!; [done|by left|done..]|]. unfold iterate. pose proof Ht as [Hg Hf Hm Hu Hl Hb].
  assert (map_to_list (contents t) ≡ₚ omap id (nodes_ t)) as Hp.
  { apply map_to_list_to_map. pose proof (fi_uniq t Hf) as Hun. rewrite <- (ge_length t Hg) in Hun. by apply uniq_NoDup. }
  destruct (decide (cnt (nodes_ t) = 0)) as [Hz|Hnz].
  - unfold begin_impl, empty. rewrite Hu, Hz. cbn [Z.eqb res_bind]. exists [], t. split_and!; [done|by right|done|done|]. rewrite Hp.
    unfold cnt in Hz. destruct (omap id (nodes_ t)); [done|simpl in Hz; lia].
  - pose proof (cnt_bound (nodes_ t)). destruct (begin_spec random t Ht) as (b & -> & Ht' & Hbr & Hn); [lia|]. cbn [res_bind with_begin nodes_].
    rewrite <- (ge_length t Hg) in Hbr. destruct (nd (nodes_ t) b) as [x|] eqn:Ex; [|done].
    rewrite (visit_spec (nodes_ t) b Hbr (length (nodes_ t)) b x Hbr Ex) by (clear -Hbr; dlia). cbn [res_bind]. eexists _, _. split; [done|].
    split_and!; [by right|done|done|]. rewrite Hp. pose proof (later_from (nodes_ t) b Hbr b Hbr) as Hlf. rewrite Ex in Hlf. rewrite <- Hlf.
    replace (dist (Z.of_nat (length (nodes_ t))) b b) with 0 by (clear -Hbr; dlia). rewrite drop_0. unfold rot.
    rewrite omap_app, (Permutation_app_comm (omap id (drop _ _))), <- omap_app, take_drop. done.
Qed.

(** *** [remove_if] *)
Lemma skip_used_spec t fuel it : geometry t -> 0 <= it <= bucket_count_ t -> bucket_count_ t - it <= Z.of_nat fuel ->
  exists r, skip_used fuel t it = Ok r /\ 0 <= r <= bucket_count_ t /\ (r < bucket_count_ t -> nd (nodes_ t) r = None).
Proof.
  intros Hg. revert it. induction fuel as [|fuel IH]; intros it Hit Hf; cbn [skip_used]; (destruct (it =? bucket_count_ t) eqn:E; zbool; [exists it; split; [done|lia]|]); [lia|].
  rewrite at_node_ok by (rewrite (ge_length t Hg); lia). cbn [res_bind]. destruct (nd (nodes_ t) it) as [x|] eqn:En; cbn [node_empty]; [apply IH; lia|].
  exists it. split; [done|]. split; [lia|done].
Qed.

Lemma back_to_empty_spec t n e : geometry t -> Z.of_nat n <= bucket_count_ t -> 0 <= e < Z.of_nat n -> nd (nodes_ t) e = None ->
  exists r, back_to_empty n t = Ok r /\ 0 <= r < bucket_count_ t /\ nd (nodes_ t) r = None.
Proof.
  intros Hg Hn. revert Hn. induction n as [|n IH]; intros Hn He Hne; cbn [back_to_empty]; [lia|].
  rewrite at_node_ok by (rewrite (ge_length t Hg); lia). cbn [res_bind]. destruct (nd (nodes_ t) (Z.of_nat n)) as [x|] eqn:En; cbn [node_empty].
  - apply IH; try lia; [|done]. destruct (decide (e = Z.of_nat n)); [congruence|lia].
  - exists (Z.of_nat n). split; [done|]. split; [lia|done].
Qed.

(** The state of the loops: the nodes up to the distance [d] from the empty node [fe] are done. *)
Record removing (f : K * V -> bool) (t0 : table) (fe d : Z) (t : table) : Prop := {
  rm_geometry : geometry t;
  rm_filled : filled t;
  rm_used : used_node_count_ t = cnt (nodes_ t);
  rm_size : bucket_count_ t = bucket_count_ t0 /\ bucket_count_mask_ t = bucket_count_mask_ t0;
  rm_fe : 0 <= fe < bucket_count_ t /\ nd (nodes_ t) fe = None;
  rm_done q x : 0 <= q < bucket_count_ t -> dist (bucket_count_ t) fe q < d -> nd (nodes_ t) q = Some x -> f x = false;
  rm_sub : contents t ⊆ contents t0;
  rm_keep k v : contents t0 !! k = Some v -> f (k, v) = false -> contents t !! k = Some v;
  rm_cnt : cnt (nodes_ t) <= cnt (nodes_ t0);
}.

Lemma removing_erase f t0 fe t it k v : removing f t0 fe (dist (bucket_count_ t) fe it) t -> 0 <= it < bucket_count_ t -> nd (nodes_ t) it = Some (k, v) -> f (k, v) = true ->
  exists t', erase_node hash it t = Ok t' /\ removing f t0 fe (dist (bucket_count_ t) fe it) t' /\ bucket_count_ t' = bucket_count_ t /\ cnt (nodes_ t') = cnt (nodes_ t) - 1.
Proof.
  intros [Hg Hf Hu Hs [Hfe Hfn] Hd Hsub Hk Hc] Hit Hn Hfx.
  destruct (erase_node_spec t it fe k v Hg Hf Hu Hit Hn Hfe Hfn) as (nodes & E & Hg' & Hf' & Hcn & Hco & Hsame).
  assert (contents t !! k = Some v) as Hkv by (apply contents_holds; auto; by exists it).
  eexists. split; [exact E|]. split; [|done]. split; auto.
  - cbn. split; [done|]. rewrite Hsame by (done || lia). done.
  - cbn. intros q x Hq Hdq. rewrite Hsame; [by apply Hd|done|]. clear -Hq Hdq Hit Hfe. dlia.
  - rewrite Hco. transitivity (contents t); [apply delete_subseteq|done].
  - intros k' v' H' Hf0. rewrite Hco. pose proof (Hk k' v' H' Hf0) as Hk'. rewrite lookup_delete_ne; [done|]. intros <-. congruence.
  - cbn. lia.
Qed.

Lemma removing_next f t0 fe t it d' : removing f t0 fe (dist (bucket_count_ t) fe it) t -> 0 <= it < bucket_count_ t ->
  (match nd (nodes_ t) it with Some x => f x | None => false end) = false -> d' = dist (bucket_count_ t) fe it + 1 -> removing f t0 fe d' t.
Proof.
  intros [Hg Hf Hu Hs [Hfe Hfn] Hd Hsub Hk Hc] Hit Hn ->. split; auto. intros q x Hq Hdq Hx.
  destruct (decide (dist (bucket_count_ t) fe q < dist (bucket_count_ t) fe it)) as [Hlt|Hge]; [by apply (Hd q)|].
  assert (q = it) as -> by (clear -Hge Hdq Hq Hit Hfe; dlia). by rewrite Hx in Hn.
Qed.

Lemma remove_range_spec f t0 fe c fuel t it last removed : removing f t0 fe (it + c) t -> it <= last ->
  (forall x, it <= x < last -> 0 <= x < bucket_count_ t /\ dist (bucket_count_ t) fe x = x + c) -> last - it + cnt (nodes_ t) <= Z.of_nat fuel ->
  exists t', remove_range hash fuel f it last removed t = Ok (removed || (cnt (nodes_ t') <? cnt (nodes_ t)), t') /\ removing f t0 fe (last + c) t' /\
    bucket_count_ t' = bucket_count_ t /\ cnt (nodes_ t') <= cnt (nodes_ t).
Proof.
  revert t it removed. induction fuel as [|fuel IH]; intros t it removed Hr Hle Hx Hf; cbn [remove_range]; (destruct (it =? last) eqn:E; zbool;
    [exists t; subst; rewrite Z.ltb_irrefl, orb_false_r; split_and!; auto; lia|]); pose proof (cnt_bound (nodes_ t)) as Hcb; [lia|].
  destruct (Hx it) as [Hit Hd]; [lia|]. rewrite <- Hd in Hr. rewrite at_node_ok by (rewrite (ge_length t (rm_geometry _ _ _ _ _ Hr)); lia). cbn [res_bind].
  destruct (match nd (nodes_ t) it with Some x => f x | None => false end) eqn:En.
  - destruct (nd (nodes_ t) it) as [[k v]|] eqn:Ex; [|done]. destruct (removing_erase f t0 fe t it k v Hr Hit Ex En) as (t1 & -> & Hr1 & Hb1 & Hc1). cbn [res_bind].
    rewrite Hd in Hr1. destruct (IH t1 it true Hr1 Hle) as (t' & -> & Hr' & Hb' & Hc'); [by rewrite Hb1|lia|]. exists t'. split_and!; [|done|congruence|lia].
    cbn [orb]. by rewrite (proj2 (Z.ltb_lt _ _)), orb_true_r by lia.
  - apply IH; [apply (removing_next f t0 fe t it); auto; lia|lia|intros; apply Hx; lia|lia].
Qed.

Lemma remove_if_spec random f t : table_inv t ->
  exists r t', remove_if hash sizeof_node random f t = Ok (r, t') /\ table_inv t' /\
    contents t' = filter (fun kv => f kv = false) (contents t) /\ (r = true <-> size t' < size t).
Proof.
  intros [->|Ht]; [exists false, new_table; split_and!; [done|by left|done|split; [done|by cbn]]|]. unfold remove_if, empty, size.
  pose proof Ht as [Hg Hf Hm Hu Hl Hb]. pose proof (cnt_bound (nodes_ t)) as Hcb. rewrite Hu. destruct (cnt (nodes_ t) =? 0) eqn:E; zbool.
  { exists false, t. split_and!; [done|by right| |split; [done|lia]]. unfold contents. unfold cnt in E. destruct (omap id (nodes_ t)); [done|simpl in E; lia]. }
  destruct (begin_spec random t Ht) as (b & -> & Ht1 & Hbr & Hbn); [lia|]. cbn [res_bind]. change (default 0 (Some b)) with b. set (t1 := with_begin b t) in *.
  pose proof (lv_geometry t1 Ht1) as Hg1. pose proof (ge_length t1 Hg1) as Hlen. pose proof (live_free t1 Ht1) as Hfr.
  destruct (skip_used_spec t1 (length (nodes_ t1)) b Hg1) as (it & -> & Hit & Hitn); [cbn; lia|lia|]. cbn [res_bind].
  assert (exists fe, (if it =? bucket_count_ t1 then back_to_empty (length (nodes_ t1)) t1 else Ok it) = Ok fe /\ 0 <= fe < bucket_count_ t1 /\ nd (nodes_ t1) fe = None)
    as (fe & -> & Hfe & Hfn).
  { destruct (it =? bucket_count_ t1) eqn:Ei; zbool; [|exists it; split; [done|]; split; [lia|apply Hitn; lia]].
    destruct (exists_empty (nodes_ t1)) as (e & He & Hne); [lia|]. apply (back_to_empty_spec t1 (length (nodes_ t1)) e); auto. lia. }
  cbn [res_bind].
  assert (removing f t1 fe (fe + - fe) t1) as Hr1.
  { split; [apply Ht1|apply Ht1|apply Ht1|done|done| |done|done|lia]. intros q x Hq Hd. clear -Hd Hfe Hq. dlia. }
  destruct (remove_range_spec f t1 fe (- fe) (2 * length (nodes_ t1)) t1 fe (bucket_count_ t1) false Hr1) as (t2 & -> & Hr2 & Hb2 & Hc2); [lia| |lia|].
  { intros x Hx. split; [lia|]. clear -Hx Hfe. dlia. }
  cbn [res_bind orb]. pose proof (rm_size _ _ _ _ _ Hr2) as [_ Hm2]. pose proof (cnt_bound (nodes_ t2)) as Hcb2. pose proof (ge_length t2 (rm_geometry _ _ _ _ _ Hr2)) as Hlen2.
  destruct (remove_range_spec f t1 fe (bucket_count_ t1 - fe) (2 * length (nodes_ t1)) t2 0 fe (cnt (nodes_ t2) <? cnt (nodes_ t1))) as (t3 & -> & Hr3 & Hb3 & Hc3); [by rewrite Z.add_0_l|lia| |lia|].
  { intros x Hx. rewrite Hb2. split; [lia|]. clear -Hx Hfe. dlia. }
  cbn [res_bind]. pose proof Hr3 as [Hg3 Hf3 Hu3 [Hs3 Hm3] Hfe3 Hd3 Hsub Hkeep Hc3'].
  destruct (try_shrink_spec t3) as (t4 & -> & Ht4 & Hco & Hcn); [apply live_invalidate; auto; cbn in *; lia|]. cbn [res_bind].
  eexists _, t4. split; [done|]. split_and!; [by right| |].
  - rewrite Hco. change (contents t) with (contents t1). apply map_eq. intros k. apply option_eq. intros v. rewrite map_lookup_filter_Some. split.
    + intros Hkv. split; [by eapply lookup_weaken|]. apply contents_holds in Hkv as (p & Hp & Hn); [|done..]. apply (Hd3 p (k, v)); auto.
      rewrite Hs3 in *. clear -Hp Hfe. dlia.
    + intros [H1 H2]. by apply Hkeep.
  - rewrite (lv_used t4 Ht4), Hcn. change (cnt (nodes_ t)) with (cnt (nodes_ t1)). rewrite orb_true_iff, !Z.ltb_lt. lia.
Qed.

(** *** Construction *)
Lemma copy_nodes_spec l t : geometry t -> filled t -> bucket_count_ t <= MAX_BUCKETS sizeof_node -> begin_bucket_ t = INVALID_BUCKET ->
  Forall (fun x => key_empty x.1 = false) l -> 5 * (cnt (nodes_ t) + Z.of_nat (length l)) <= 3 * bucket_count_mask_ t + 4 ->
  exists t', copy_nodes hash key_empty l (cnt (nodes_ t)) t = Ok t' /\ live t' /\ contents t' = contents t ∪ list_to_map l.
Proof.
  revert t. induction l as [|[k v] l IH]; intros t Hg Hf Hm Hb Hk Hl; cbn [copy_nodes length] in *.
  - eexists. split; [done|]. split; [destruct Hg, Hf; split; [by split|by split|done|done|cbn; lia|by left]|]. change (list_to_map []) with (∅ : gmap K V). by rewrite map_union_empty.
  - apply Forall_cons_inv in Hk as [Hk1 Hk]. cbn [fst] in *. rewrite Hk1. cbn [negb]. pose proof (size_bound t Hg) as Hs. pose proof (cnt_bound (nodes_ t)) as Hcb.
    rewrite (ge_mask t Hg) in Hl. destruct (find_key t k Hg Hf) as (b & -> & Hrg & Ha & Hn); [lia|]. cbn [res_bind]. rewrite Ha. cbn [res_bind].
    destruct (nd (nodes_ t) b) as [[k' w]|] eqn:E; cbn [node_empty].
    + subst k'. destruct (IH t) as (t' & -> & Ht' & Hco); auto; [rewrite (ge_mask t Hg); lia|]. exists t'. split_and!; auto. rewrite Hco. cbn.
      assert (contents t !! k = Some w) as Hc by (apply contents_holds; auto; by exists b).
      apply map_eq. intros k'. rewrite !lookup_union. destruct (decide (k' = k)) as [->|Hne]; [rewrite lookup_insert_eq, Hc; by destruct ((list_to_map l : gmap K V) !! k)|by rewrite lookup_insert_ne].
    + destruct Hn as [Hno Hpath]. destruct (put_spec t b k v (used_node_count_ t) Hg Hf Hrg E Hpath Hno Hk1) as (Hg' & Hf' & Hc' & Hh').
      set (t1 := with_nodes (set_node (nodes_ t) b (Some (k, v))) (used_node_count_ t) t) in *. rewrite u32_small by (unfold is_u32; lia). rewrite <- Hc'.
      destruct (IH t1) as (t' & -> & Ht' & Hco); auto; [rewrite Hc'; cbn; rewrite (ge_mask t Hg); lia|]. exists t'. split_and!; auto. rewrite Hco. change (list_to_map ((k, v) :: l)) with (<[k := v]> (list_to_map l : gmap K V)).
      assert (contents t1 = <[k := v]> (contents t)) as ->; [|by rewrite <- insert_union_l, insert_union_r by (by apply contents_none)].
      apply map_eq. intros k'. apply option_eq. intros v'. rewrite contents_holds by done. etransitivity; [apply Hh'|]. rewrite <- contents_holds by done.
      assert (contents t !! k = None) as Hc by (by apply contents_none).
      destruct (decide (k' = k)) as [->|Hne]; [rewrite lookup_insert_eq, Hc; naive_solver|rewrite lookup_insert_ne by done; naive_solver].
Qed.

Lemma of_nodes_spec l : Forall (fun x => key_empty x.1 = false) l -> room (Z.of_nat (length l)) ->
  exists t, of_nodes hash key_empty sizeof_node l = Ok t /\ table_inv t /\ contents t = list_to_map l.
Proof.
  intros Hk Hroom. unfold of_nodes. destruct (Nat.eqb (length l) 0) eqn:E; zbool; [exists new_table; destruct l; [split_and!; [done|by left|done]|done]|].
  unfold reserve. rewrite (proj2 (Z.eqb_neq _ _)) by lia. unfold room in Hroom. pose proof max_buckets_bound. change (Z.shiftl 1 29) with (2 ^ 29). decide_if.
  set (n := Z.of_nat (length l)) in *. rewrite (u32_small n), (u32_small (n * 5)), u32_small by (unfold is_u32; zlia).
  destruct (normalize_spec (n * 5 / 3 + 1)) as [Hp Hb]; [zlia|]. set (want := normalize_flat_hash_table_size _) in *. change (bucket_count_ (@new_table K V)) with 0.
  rewrite (proj2 (Z.ltb_lt 0 want)) by zlia. destruct (resize_null want Hp) as (t & -> & Ht & Hbc & Hco & Hc); [zlia|]. cbn [res_bind].
  pose proof (exists_used (nodes_ t)) as Hus. pose proof Ht as [Hg Hf Hm Hu Hl Hbg].
  destruct (copy_nodes_spec l t) as (t' & E' & Ht' & Hco'); auto.
  - destruct Hbg as [?|[Hbg1 Hbg2]]; [done|]. exfalso. destruct (nd (nodes_ t) (begin_bucket_ t)) as [x|] eqn:En; [|done].
    assert (x ∈ omap id (nodes_ t)) as Hin by (apply omap_nd; rewrite (ge_length t Hg); eauto). unfold cnt in Hc. destruct (omap id (nodes_ t)); [by apply elem_of_nil in Hin|simpl in Hc; lia].
  - rewrite (ge_mask t Hg), Hbc, Hc. fold n. zlia.
  - rewrite Hc in E'. rewrite E'. exists t'. split; [done|]. split; [by right|]. rewrite Hco', Hco. apply map_empty_union.
Qed.

(** ** Sequences of operations *)
Inductive ht_op :=
| HEmplace (key : K) (value : V)
| HAssign (v0 : V) (key : K) (value : V)
| HFind (key : K)
| HCount (key : K)
| HErase (key : K)
| HRemoveIf (random : Z) (f : K * V -> bool)
| HIterate (random : Z)
| HReserve (n : Z)
| HSize
| HClear.

Inductive ht_result := RNone | RBool (b : bool) | RSize (n : Z) | REntry (x : option (K * V)) | RList (l : list (K * V)).

Definition ht_step (o : ht_op) (t : table) : Res (ht_result * table) :=
  match o with
  | HEmplace key value => let* (r, t) := emplace hash key_empty sizeof_node key value t in Ok (RBool r.2, t)
  | HAssign v0 key value => let* t := assign hash key_empty sizeof_node v0 key value t in Ok (RNone, t)
  | HFind key => let* r := find hash key_empty key t in Ok (REntry r, t)
  | HCount key => let* r := count hash key_empty key t in Ok (RSize r, t)
  | HErase key => let* (r, t) := erase hash key_empty sizeof_node key t in Ok (RSize r, t)
  | HRemoveIf random f => let* (r, t) := remove_if hash sizeof_node random f t in Ok (RBool r, t)
  | HIterate random => let* (l, t) := iterate random t in Ok (RList l, t)
  | HReserve n => let* t := reserve hash sizeof_node n t in Ok (RNone, t)
  | HSize => Ok (RSize (size t), t)
  | HClear => Ok (RNone, clear t)
  end.

Fixpoint ht_run (os : list ht_op) (t : table) : Res (list ht_result * table) :=
  match os with
  | [] => Ok ([], t)
  | o :: os => let* (r, t) := ht_step o t in let* (rs, t) := ht_run os t in Ok (r :: rs, t)
  end.

(** The same operation on a finite map. *)
Definition map_size (m : gmap K V) : Z := Z.of_nat (length (map_to_list m)).
Definition ht_spec (o : ht_op) (m : gmap K V) (r : ht_result) (m' : gmap K V) : Prop :=
  match o with
  | HEmplace key value => r = RBool (bool_decide (m !! key = None)) /\ m' = (if bool_decide (m !! key = None) then <[key := value]> m else m)
  | HAssign _ key value => r = RNone /\ m' = <[key := value]> m
  | HFind key => r = REntry ((fun v => (key, v)) <$> m !! key) /\ m' = m
  | HCount key => r = RSize (if bool_decide (m !! key = None) then 0 else 1) /\ m' = m
  | HErase key => r = RSize (if bool_decide (m !! key = None) then 0 else 1) /\ m' = delete key m
  | HRemoveIf _ f => m' = filter (fun kv => f kv = false) m /\ r = RBool (map_size m' <? map_size m)
  | HIterate _ => m' = m /\ exists l, r = RList l /\ l ≡ₚ map_to_list m
  | HReserve _ => r = RNone /\ m' = m
  | HSize => r = RSize (map_size m) /\ m' = m
  | HClear => r = RNone /\ m' = ∅
  end.

Inductive ht_specs : list ht_op -> gmap K V -> list ht_result -> gmap K V -> Prop :=
| hts_nil m : ht_specs [] m [] m
| hts_cons o os m r m' rs m2 : ht_spec o m r m' -> ht_specs os m' rs m2 -> ht_specs (o :: os) m (r :: rs) m2.

Definition ht_op_ok (o : ht_op) : Prop :=
  match o with
  | HEmplace key _ | HAssign _ key _ => key_empty key = false
  | HReserve n => 0 <= n /\ room n
  | _ => True
  end.

Lemma inv_size t : table_inv t -> size t = map_size (contents t).
Proof. intros [->|Ht]; [done|]. unfold map_size, size. rewrite contents_size by apply Ht. apply Ht. Qed.

Lemma map_size_insert (m : gmap K V) k v : map_size (<[k := v]> m) <= map_size m + 1.
Proof.
  unfold map_size. destruct (m !! k) as [w|] eqn:E.
  - rewrite <- (insert_delete_id m k w E) at 2. rewrite <- insert_delete_eq. rewrite !map_to_list_insert by apply lookup_delete_eq. simpl. lia.
  - rewrite map_to_list_insert by done. simpl. lia.
Qed.

Lemma map_size_sub (m m' : gmap K V) : m ⊆ m' -> map_size m <= map_size m'.
Proof. intros Hs. unfold map_size. apply inj_le, submseteq_length, map_to_list_submseteq, Hs. Qed.

Lemma ht_step_ok o t : table_inv t -> ht_op_ok o -> room (size t) ->
  exists r t', ht_step o t = Ok (r, t') /\ table_inv t' /\ ht_spec o (contents t) r (contents t') /\ size t' <= size t + 1.
Proof.
  intros Ht Ho Hroom. pose proof (inv_size t Ht) as Hsz. assert (forall t', table_inv t' -> contents t' ⊆ contents t -> size t' <= size t + 1) as Hsub.
  { intros t' Ht' Hs. rewrite (inv_size t' Ht'), Hsz. pose proof (map_size_sub _ _ Hs). lia. }
  destruct o as [key value|v0 key value|key|key|key|random f|random|n| |]; cbn [ht_step ht_spec ht_op_ok] in *.
  - destruct (emplace_spec key value t Ht Ho Hroom) as (b & r & t' & -> & [M1 M2 M3 M4 M5]). cbn [res_bind]. exists (RBool r), t'. cbn [snd].
    split_and!; [done|by right|by rewrite M4|by rewrite M5, M4|]. rewrite (inv_size t' (or_intror M1)), Hsz, M5. destruct r; [apply map_size_insert|lia].
  - destruct (assign_spec v0 key value t Ht Ho Hroom) as (t' & -> & M1 & M2). cbn [res_bind]. exists RNone, t'. split_and!; [done|by right|done|done|].
    rewrite (inv_size t' (or_intror M1)), Hsz, M2. apply map_size_insert.
  - rewrite find_spec by done. cbn [res_bind]. eexists _, t. split_and!; auto; lia.
  - unfold count. assert (exists r, find_impl hash key_empty key t = Ok r /\ (if r then 1 else 0) = (if bool_decide (contents t !! key = None) then 0 else 1)) as (r & -> & Hr).
    { destruct Ht as [->|Ht]; [by exists None|]. destruct (find_impl_spec t key Ht) as (r & Hr & Hm). exists r. split; [done|].
      destruct r; [destruct Hm as (_ & v & _ & ->); done|by rewrite Hm]. }
    cbn [res_bind]. eexists _, t. rewrite <- Hr. split_and!; auto; lia.
  - destruct (table_erase_spec t key Ht) as (t' & -> & M1 & M2). cbn [res_bind]. eexists _, t'. split_and!; auto. apply Hsub; [done|]. rewrite M2. apply delete_subseteq.
  - destruct (remove_if_spec random f t Ht) as (r & t' & -> & M1 & M2 & M3). cbn [res_bind]. eexists _, t'. split_and!; auto.
    + f_equal. rewrite <- (inv_size t' M1), <- Hsz. destruct r, (size t' <? size t) eqn:E; zbool; try done; [|naive_solver]. assert (size t' < size t) by (by apply M3). lia.
    + apply Hsub; [done|]. rewrite M2. apply map_filter_subseteq.
  - destruct (iterate_spec random t Ht) as (l & t' & -> & M1 & M2 & M3 & M4). cbn [res_bind]. eexists _, t'. split_and!; auto; [by exists l|lia].
  - destruct Ho as [Hn1 Hn2]. destruct (reserve_spec n t Ht Hn1 Hn2) as (t' & -> & M1 & M2 & M3 & _). cbn [res_bind]. eexists _, t'. split_and!; auto. lia.
  - eexists _, t. rewrite Hsz. split_and!; auto. lia.
  - rewrite clear_spec by done. eexists _, new_table. split_and!; [done|by left|done|done|]. rewrite Hsz. unfold size, map_size. cbn. lia.
Qed.

Lemma ht_run_ok os t : table_inv t -> Forall ht_op_ok os -> room (size t + Z.of_nat (length os)) ->
  exists rs t', ht_run os t = Ok (rs, t') /\ table_inv t' /\ ht_specs os (contents t) rs (contents t').
Proof.
  intros Ht Ho. revert t Ht. induction Ho as [|o os Ho Hos IH]; intros t Ht Hroom; cbn [ht_run length] in *; [exists [], t; split_and!; auto; constructor|].
  unfold room in *. destruct (ht_step_ok o t Ht Ho) as (r & t1 & -> & Ht1 & Hs1 & Hz1); [unfold room; lia|]. cbn [res_bind].
  destruct (IH t1 Ht1) as (rs & t' & -> & Ht' & Hs'); [lia|]. cbn [res_bind]. exists (r :: rs), t'. split_and!; auto. by econstructor.
Qed.

(** C6. A hash table is a finite map: every sequence of insertions, assignments,
    lookups, removals, [remove_if], iterations, [reserve] and [clear] runs to its
    end with the results of the map it stands for, whatever the hash function, the
    random numbers and the growing and shrinking on the way.  No check fails, no
    access is outside of the table and no search runs around it for ever; an
    iteration visits every entry once.  The only limit is the size of the array
    that [allocate_nodes] accepts. *)
Theorem flat_hash_table_refines os l : Forall ht_op_ok os -> Forall (fun x => key_empty x.1 = false) l ->
  room (Z.of_nat (length l) + Z.of_nat (length os)) ->
  exists t rs t', of_nodes hash key_empty sizeof_node l = Ok t /\ ht_run os t = Ok (rs, t') /\
    ht_specs os (list_to_map l) rs (contents t') /\ table_inv t'.
Proof.
  intros Ho Hl Hroom. destruct (of_nodes_spec l Hl) as (t & E & Ht & Hc); [unfold room in *; lia|].
  destruct (ht_run_ok os t Ht Ho) as (rs & t' & Hr & Ht' & Hs).
  - rewrite (inv_size t Ht), Hc. unfold room in *. enough (map_size (list_to_map l) <= Z.of_nat (length l)) by lia. clear.
    induction l as [|[k v] l IH]; [done|]. change (list_to_map ((k, v) :: l)) with (<[k := v]> (list_to_map l : gmap K V)).
    pose proof (map_size_insert (list_to_map l) k v). cbn [length]. lia.
  - exists t, rs, t'. by rewrite <- Hc.
Qed.
End table_proofs.
End proofs.

(** ** A table of integers: twelve insertions make it grow, the removals make it shrink. *)
Definition test_table_ops : list (@ht_op Z Z) :=
  map (fun k => HEmplace k (k * k)) [3; 5; 8; 13; 21; 34; 55; 89; 144; 233; 377; 610] ++
  [HFind 13; HAssign 0 13 7; HEmplace 13 9; HCount 14; HIterate 77; HErase 5; HErase 6; HRemoveIf 5 (fun kv => 30 <? kv.1); HSize; HReserve 100;
   HIterate 3; HClear].

Lemma test_table_ops_ok : Forall (ht_op_ok (Z.eqb 0) 16) test_table_ops.
Proof. repeat constructor; vm_compute; discriminate. Defined.

Lemma flat_hash_table_refines_witness : exists t rs t', of_nodes Hash_int64 (Z.eqb 0) 16 [(1, 1); (2, 4); (1, 5)] = Ok t /\
  ht_run Hash_int64 (Z.eqb 0) 16 test_table_ops t = Ok (rs, t') /\ ht_specs test_table_ops (list_to_map [(1, 1); (2, 4); (1, 5)]) rs (contents t') /\
  table_inv Hash_int64 (Z.eqb 0) 16 t'.
Proof.
  apply (flat_hash_table_refines Hash_int64 (Z.eqb 0) 16 test_table_ops [(1, 1); (2, 4); (1, 5)] test_table_ops_ok); [by repeat constructor|vm_compute; discriminate].
Defined.

(** The results of the run. *)
Example test_table_results :
  match ht_run Hash_int64 (Z.eqb 0) 16 (take 16 test_table_ops) new_table with Ok (rs, t) => (drop 12 rs, bucket_count_ t, size t) | _ => ([], 0, 0) end =
  ([REntry (Some (13, 169)); RNone; RBool false; RSize 0], 32, 12).
Proof. vm_compute. reflexivity. Qed.
