(* ===== verification/Heap.v ===== *)
(** * Heaps

    [KHeap] (tdutils/td/utils/Heap.h), a heap in an array in which every item has [K]
    children, used for timeouts.  An item has a key and a pointer to a [HeapNode], in which
    the heap writes the position of the item, so that an item can be removed or moved when
    its node is known.  A node is an integer, and the positions [pos_] of all nodes are a
    map, as several heap operations share them with the owners of the nodes.

    [KeyT] is a type with a strict weak order, the class [KeyOrder]; a [double] that is not
    a number is no key. *)
From S2P Require Import Prelude.
Local Open Scope td_scope.

Class KeyOrder (KeyT : Type) := {
  key_ltb : KeyT -> KeyT -> bool;
  key_asym a b : key_ltb a b = true -> key_ltb b a = false;
  key_trans a b c : key_ltb b a = false -> key_ltb c b = false -> key_ltb c a = false;
}.

#[export] Program Instance Z_KeyOrder : KeyOrder Z := { key_ltb := Z.ltb }.
Next Obligation. intros a b Hab. zbool. apply Z.ltb_ge. lia. Qed.
Next Obligation. intros a b c H1 H2. zbool. apply Z.ltb_ge. lia. Qed.

Section heap.
Context {KeyT : Type} `{KeyOrder KeyT} (K : nat).

Record KHeap := { array_ : list (KeyT * Z); pos_ : gmap Z Z }.
Definition new_heap : KHeap := {| array_ := []; pos_ := ∅ |}.

(** ** [HeapNode] *)
Definition node_pos (n : Z) (h : KHeap) : Z := default (-1) (pos_ h !! n).
Definition in_heap (n : Z) (h : KHeap) : bool := negb (node_pos n h =? -1).
Definition is_top (n : Z) (h : KHeap) : bool := node_pos n h =? 0.
Definition set_pos (n : Z) (pos : Z) (h : KHeap) : KHeap := {| array_ := array_ h; pos_ := <[n := pos]> (pos_ h) |}.
Definition remove_node (n : Z) (h : KHeap) : KHeap := set_pos n (-1) h.

(** ** The array *)
Definition item_at (h : KHeap) (pos : nat) : Res (KeyT * Z) := match array_ h !! pos with Some x => Ok x | None => Panic "array_[pos]" end.
Definition set_item (pos : nat) (x : KeyT * Z) (h : KHeap) : KHeap := {| array_ := <[pos := x]> (array_ h); pos_ := pos_ h |}.

Definition empty (h : KHeap) : bool := Nat.eqb (length (array_ h)) 0.
Definition size (h : KHeap) : nat := length (array_ h).
Definition top_key (h : KHeap) : Res KeyT := let* x := item_at h 0 in Ok x.1.
Definition top (h : KHeap) : Res Z := let* x := item_at h 0 in Ok x.2.

(** [static_cast<size_t>(node->pos_)] and the check that it is in the array. *)
Definition position (n : Z) (h : KHeap) : Res nat :=
  let pos := u64 (node_pos n h) in
  CHECK! pos <? Z.of_nat (length (array_ h)) else "pos < array_.size()" in
  Ok (Z.to_nat pos).
Definition get_key (n : Z) (h : KHeap) : Res KeyT :=
  let* pos := position n h in
  let* x := item_at h pos in Ok x.1.

(** [static_cast<int32>(pos)] *)
Definition write_pos (n : Z) (pos : nat) (h : KHeap) : KHeap := set_pos n (s32 (Z.of_nat pos)) h.

(** ** Moving an item up *)
Fixpoint fix_up_loop (fuel : nat) (item : KeyT * Z) (pos : nat) (h : KHeap) : Res (nat * KHeap) :=
  if Nat.eqb pos 0 then Ok (pos, h)
  else
    match fuel with
    | O => Panic "fuel"
    | S fuel =>
        let parent_pos := ((pos - 1) / K)%nat in
        let* parent_item := item_at h parent_pos in
        if key_ltb parent_item.1 item.1 then Ok (pos, h)
        else fix_up_loop fuel item parent_pos (set_item pos parent_item (write_pos parent_item.2 pos h))
    end.

Definition fix_up (pos : nat) (h : KHeap) : Res KHeap :=
  let* item := item_at h pos in
  let* (pos, h) := fix_up_loop pos item pos h in
  Ok (set_item pos item (write_pos item.2 pos h)).

(** ** Moving an item down *)

(** The loop over the children from [i] on, [n] of them: the one with the least key, if it is less than the key so far. *)
Fixpoint least_child (n i : nat) (next : nat * KeyT) (h : KHeap) : Res (nat * KeyT) :=
  match n with
  | O => Ok next
  | S n =>
      let* x := item_at h i in
      least_child n (S i) (if key_ltb x.1 next.2 then (i, x.1) else next) h
  end.

Fixpoint fix_down_loop (fuel : nat) (item : KeyT * Z) (pos : nat) (h : KHeap) : Res (nat * KHeap) :=
  match fuel with
  | O => Panic "fuel"
  | S fuel =>
      let left_pos := (pos * K + 1)%nat in
      let right_pos := Nat.min (left_pos + K) (length (array_ h)) in
      let* next := least_child (right_pos - left_pos) left_pos (pos, item.1) h in
      if Nat.eqb next.1 pos then Ok (pos, h)
      else
        let* x := item_at h next.1 in
        fix_down_loop fuel item next.1 (write_pos x.2 pos (set_item pos x h))
  end.

Definition fix_down (pos : nat) (h : KHeap) : Res KHeap :=
  let* item := item_at h pos in
  let* (pos, h) := fix_down_loop (S (length (array_ h))) item pos h in
  Ok (set_item pos item (write_pos item.2 pos h)).

(** ** Operations *)
Definition erase_pos (pos : nat) (h : KHeap) : Res KHeap :=
  match last (array_ h) with
  | None => Panic "array_.back()"
  | Some back =>
      let h := set_item pos back h in
      let h := {| array_ := removelast (array_ h); pos_ := pos_ h |} in
      if Nat.ltb pos (length (array_ h)) then
        let* h := fix_down pos h in fix_up pos h
      else Ok h
  end.

Definition pop (h : KHeap) : Res (Z * KHeap) :=
  CHECK! negb (empty h) else "!empty()" in
  let* x := item_at h 0 in
  let* h := erase_pos 0 (remove_node x.2 h) in
  Ok (x.2, h).

Definition insert (key : KeyT) (n : Z) (h : KHeap) : Res KHeap :=
  CHECK! negb (in_heap n h) else "!node->in_heap()" in
  let h := {| array_ := array_ h ++ [(key, n)]; pos_ := pos_ h |} in
  fix_up (length (array_ h) - 1) h.

Definition fix_key (key : KeyT) (n : Z) (h : KHeap) : Res KHeap :=
  let* pos := position n h in
  let* old := item_at h pos in
  let h := set_item pos (key, old.2) h in
  if key_ltb key old.1 then fix_up pos h else fix_down pos h.

Definition erase (n : Z) (h : KHeap) : Res KHeap :=
  let pos := u64 (node_pos n h) in
  let h := remove_node n h in
  CHECK! pos <? Z.of_nat (length (array_ h)) else "pos < array_.size()" in
  erase_pos (Z.to_nat pos) h.

(** [check]: every item is compared with its children. *)
Definition check (h : KHeap) : bool :=
  forallb (fun i =>
    forallb (fun j => match array_ h !! i, array_ h !! j with Some x, Some y => negb (key_ltb y.1 x.1) | _, _ => true end)
      (filter (fun j => j < length (array_ h))%nat (seq (i * K + 1) K)))
    (seq 0 (length (array_ h))).
End heap.
Arguments KHeap : clear implicits.

(** * Proofs *)
Section proofs.
Context {KeyT : Type} `{KeyOrder KeyT} (K : nat) (K_pos : (0 < K)%nat).
Abbreviation heap := (KHeap KeyT).
Implicit Types (A : list (KeyT * Z)) (h : heap).

(** ** Keys and edges *)
Definition key_le (a b : KeyT) : Prop := key_ltb b a = false.

Lemma key_le_trans a b c : key_le a b -> key_le b c -> key_le a c.
Proof. unfold key_le. apply key_trans. Qed.
Lemma key_lt_le a b : key_ltb a b = true -> key_le a b.
Proof. unfold key_le. apply key_asym. Qed.
Lemma key_le_refl a : key_le a a.
Proof. unfold key_le. destruct (key_ltb a a) eqn:E; [|done]. pose proof (key_asym _ _ E). congruence. Qed.

Definition edge (i j : nat) : Prop := (0 < j)%nat /\ i = ((j - 1) / K)%nat.

Lemma edge_iff i j : edge i j <-> (i * K + 1 <= j <= i * K + K)%nat.
Proof.
  unfold edge. split.
  - intros [Hj ->]. pose proof (Nat.div_mod_eq (j - 1) K). pose proof (Nat.mod_upper_bound (j - 1) K). lia.
  - intros Hj. split; [lia|]. apply (Nat.div_unique (j - 1) K i (j - 1 - i * K)); lia.
Qed.
Lemma edge_lt i j : edge i j -> (i < j)%nat.
Proof. intros He%edge_iff. assert (i <= i * K)%nat by (destruct K; lia). lia. Qed.
Lemma edge_unique i i' j : edge i j -> edge i' j -> i = i'.
Proof. intros [_ ->] [_ ->]. done. Qed.

(** ** Order: everywhere, except above [p], and except below [p] and above [s] *)
Definition heap_order A : Prop := forall i j x y, edge i j -> A !! i = Some x -> A !! j = Some y -> key_le x.1 y.1.

Record up_heap A (p : nat) : Prop := {
  up_order i j x y : edge i j -> j <> p -> A !! i = Some x -> A !! j = Some y -> key_le x.1 y.1;
  up_across i c x y : edge i p -> edge p c -> A !! i = Some x -> A !! c = Some y -> key_le x.1 y.1;
}.

Record down_heap A (s p : nat) : Prop := {
  dn_le : (s <= p)%nat;
  dn_order i j x y : edge i j -> i <> p -> j <> s -> A !! i = Some x -> A !! j = Some y -> key_le x.1 y.1;
  dn_across i c x y : edge i p -> edge p c -> A !! i = Some x -> A !! c = Some y -> key_le x.1 y.1;
  dn_above : p = s \/ forall i x y, edge i s -> A !! i = Some x -> A !! s = Some y -> key_le x.1 y.1;
}.

Definition swap (A : list (KeyT * Z)) (p q : nat) (a b : KeyT * Z) : list (KeyT * Z) := <[q := a]> (<[p := b]> A).

Lemma swap_lookup A p q a b i : A !! p = Some a -> A !! q = Some b -> p <> q ->
  swap A p q a b !! i = if decide (i = p) then Some b else if decide (i = q) then Some a else A !! i.
Proof.
  intros Ha Hb Hne. unfold swap. apply lookup_lt_Some in Ha, Hb. destruct (decide (i = p)) as [->|Hp].
  - rewrite list_lookup_insert_ne, list_lookup_insert_eq by done. done.
  - destruct (decide (i = q)) as [->|Hq]; [rewrite list_lookup_insert_eq by (by rewrite length_insert); done|]. by rewrite !list_lookup_insert_ne.
Qed.

Lemma up_step A p q a b : up_heap A p -> edge q p -> A !! p = Some a -> A !! q = Some b -> key_le a.1 b.1 -> up_heap (swap A p q a b) q.
Proof.
  intros [U1 U2] He Ha Hb Hle. pose proof (edge_lt _ _ He). assert (forall i, swap A p q a b !! i = if decide (i = p) then Some b else if decide (i = q) then Some a else A !! i) as Hs
    by (intros; apply swap_lookup; auto; lia).
  split.
  - intros i j x y Hij Hj. rewrite !Hs. pose proof (edge_lt _ _ Hij). destruct (decide (j = p)) as [->|Hjp].
    + assert (i = q) as -> by (by eapply edge_unique). rewrite decide_False, decide_True by lia. intros [= <-] [= <-]. done.
    + rewrite (decide_False (P := j = q)) by done. destruct (decide (i = p)) as [->|Hip]; [intros [= <-] Hy; by apply (U2 q j b y)|].
      destruct (decide (i = q)) as [->|Hiq]; [|by apply U1]. intros [= <-] Hy. apply (key_le_trans _ b.1); [done|]. by apply (U1 q j).
  - intros i c x y Hi Hc. rewrite !Hs. pose proof (edge_lt _ _ Hi). rewrite (decide_False (P := i = p)), (decide_False (P := i = q)) by lia. intros Hx.
    assert (key_le x.1 b.1) as Hxb by (apply (U1 i q); auto; lia). pose proof (edge_lt _ _ Hc). destruct (decide (c = p)) as [->|Hcp]; [by intros [= <-]|].
    rewrite decide_False by lia. intros Hy. apply (key_le_trans _ b.1); [done|]. by apply (U1 q c).
Qed.

Lemma up_done A p : up_heap A p -> (forall q x y, edge q p -> A !! q = Some x -> A !! p = Some y -> key_le x.1 y.1) -> heap_order A.
Proof. intros [U1 _] Hp i j x y Hij. destruct (decide (j = p)) as [->|Hj]; [by apply Hp|by apply U1]. Qed.

Lemma down_step A s p n a b : down_heap A s p -> edge p n -> A !! p = Some a -> A !! n = Some b -> key_ltb b.1 a.1 = true ->
  (forall c y, edge p c -> A !! c = Some y -> key_le b.1 y.1) -> down_heap (swap A p n a b) s n.
Proof.
  intros [D0 D1 D2 D3] He Ha Hb Hlt Hmin. pose proof (edge_lt _ _ He).
  assert (forall i, swap A p n a b !! i = if decide (i = p) then Some b else if decide (i = n) then Some a else A !! i) as Hs by (intros; apply swap_lookup; auto; lia).
  split; [lia|..].
  - intros i j x y Hij Hi Hj. rewrite !Hs. pose proof (edge_lt _ _ Hij). rewrite (decide_False (P := i = n)) by done. destruct (decide (i = p)) as [->|Hip].
    + intros [= <-]. rewrite decide_False by lia. destruct (decide (j = n)) as [->|Hjn]; [intros [= <-]; by apply key_lt_le|]. intros Hy. by apply (Hmin j).
    + intros Hx. destruct (decide (j = p)) as [->|Hjp]; [intros [= <-]; by apply (D2 i n)|]. rewrite decide_False; [by apply (D1 i j)|]. intros ->. apply Hip. by eapply edge_unique.
  - intros i c x y Hi Hc. rewrite !Hs. pose proof (edge_lt _ _ Hc). assert (i = p) as -> by (by eapply edge_unique). rewrite decide_True by done. intros [= <-].
    rewrite !decide_False by lia. intros Hy. apply (D1 n c); auto; lia.
  - right. intros i x y Hi. rewrite !Hs. pose proof (edge_lt _ _ Hi). rewrite (decide_False (P := i = p)), (decide_False (P := i = n)) by lia. intros Hx.
    destruct (decide (s = p)) as [->|Hsp]; [intros [= <-]; by apply (D2 i n)|]. rewrite decide_False by lia. destruct D3 as [?|D3]; [lia|]. by apply (D3 i).
Qed.

Lemma down_done A s p a : down_heap A s p -> A !! p = Some a -> (forall c y, edge p c -> A !! c = Some y -> key_le a.1 y.1) -> up_heap A s.
Proof.
  intros [D0 D1 D2 D3] Ha Hmin. split.
  - intros i j x y Hij Hj Hx Hy. destruct (decide (i = p)) as [->|Hi]; [|by apply (D1 i j)]. rewrite Ha in Hx. injection Hx as <-. by apply (Hmin j).
  - intros i c x y Hi Hc Hx Hy. destruct D3 as [->|D3]; [by apply (D2 i c)|]. destruct (decide (p = s)) as [->|Hps]; [by apply (D2 i c)|].
    assert (exists z, A !! s = Some z) as [z Hz] by (apply lookup_lt_is_Some; apply lookup_lt_Some in Ha; lia).
    apply (key_le_trans _ z.1); [by apply (D3 i)|]. pose proof (edge_lt _ _ Hc). apply (D1 s c); auto; lia.
Qed.

(** ** The nodes know their positions *)
Definition nodes_of A : list Z := map snd A.
Definition MAX_ITEMS : Z := 2 ^ 31.

(** The array is [A] when [item] is written to the hole [p]; [A0] and [h0] are those of the start of a loop. *)
Record holed (A0 : list (KeyT * Z)) (h0 : heap) (item : KeyT * Z) A (p : nat) h : Prop := {
  ho_array : <[p := item]> (array_ h) = A;
  ho_pos : (p < length (array_ h))%nat;
  ho_length : Z.of_nat (length A) < MAX_ITEMS;
  ho_perm : A ≡ₚ A0;
  ho_nodup : NoDup (nodes_of A);
  ho_nodes i x : A !! i = Some x -> i <> p -> node_pos x.2 h = Z.of_nat i;
  ho_others n : n ∉ nodes_of A0 -> node_pos n h = node_pos n h0;
}.

Lemma node_pos_set n m v h : node_pos n (set_pos m v h) = if decide (n = m) then v else node_pos n h.
Proof. unfold node_pos, set_pos. simpl. destruct (decide (n = m)) as [->|Hne]; [by rewrite lookup_insert_eq|by rewrite lookup_insert_ne]. Qed.

Lemma nodes_unique A i j x y : NoDup (nodes_of A) -> A !! i = Some x -> A !! j = Some y -> x.2 = y.2 -> i = j.
Proof.
  intros Hn Hi Hj E. apply (NoDup_lookup (nodes_of A) i j x.2); [done| |rewrite E]; unfold nodes_of; change (map snd A) with (snd <$> A); rewrite list_lookup_fmap; [by rewrite Hi|by rewrite Hj].
Qed.

Lemma elem_of_nodes A i x : A !! i = Some x -> x.2 ∈ nodes_of A.
Proof. intros Hi. apply list_elem_of_fmap_2. by eapply list_elem_of_lookup_2. Qed.

Lemma holed_item A0 h0 item A p h : holed A0 h0 item A p h -> A !! p = Some item.
Proof. intros Hh. rewrite <- (ho_array _ _ _ _ _ _ Hh). apply list_lookup_insert_eq. apply Hh. Qed.

Lemma holed_lookup A0 h0 item A p h q : holed A0 h0 item A p h -> q <> p -> array_ h !! q = A !! q.
Proof. intros Hh Hq. rewrite <- (ho_array _ _ _ _ _ _ Hh). by rewrite list_lookup_insert_ne. Qed.

Lemma holed_length A0 h0 item A p h : holed A0 h0 item A p h -> length (array_ h) = length A.
Proof. intros Hh. rewrite <- (ho_array _ _ _ _ _ _ Hh). by rewrite length_insert. Qed.

Lemma holed_move A0 h0 item A p h q b : holed A0 h0 item A p h -> q <> p -> A !! q = Some b ->
  holed A0 h0 item (swap A p q item b) q (set_item p b (write_pos b.2 p h)).
Proof.
  intros Hh Hne Hb. pose proof (holed_item _ _ _ _ _ _ Hh) as Hitem. pose proof (holed_length _ _ _ _ _ _ Hh) as Hlen. destruct Hh as [E Hp Hl Hperm Hnd Hn Ho].
  assert (swap A p q item b ≡ₚ A) as Hsw by (by apply Permutation_insert_swap).
  assert (forall i, swap A p q item b !! i = if decide (i = p) then Some b else if decide (i = q) then Some item else A !! i) as Hs by (intros; apply swap_lookup; auto).
  split.
  - simpl. rewrite <- E. unfold swap. by rewrite list_insert_insert_eq.
  - simpl. rewrite length_insert, Hlen. by eapply lookup_lt_Some.
  - unfold swap. by rewrite !length_insert.
  - by rewrite Hsw.
  - unfold nodes_of in *. by rewrite Hsw.
  - intros i x Hx Hi. rewrite Hs in Hx. change (node_pos x.2 (set_item p b ?h)) with (node_pos x.2 h). unfold write_pos. rewrite node_pos_set.
    destruct (decide (i = p)) as [->|Hip].
    + injection Hx as <-. rewrite decide_True by done. apply s32_small. unfold is_s32, MAX_ITEMS in *. lia.
    + rewrite decide_False in Hx by done. rewrite decide_False; [by apply Hn|]. intros E2. apply Hi. by eapply nodes_unique.
  - intros n Hn0. change (node_pos n (set_item p b ?h)) with (node_pos n h). unfold write_pos. rewrite node_pos_set, decide_False; [by apply Ho|].
    intros ->. apply Hn0. unfold nodes_of. rewrite <- Hperm. by eapply elem_of_nodes.
Qed.

(** The item is written to its place: the heap has the items of [A0]. *)
Record placed (A0 : list (KeyT * Z)) (h0 h : heap) : Prop := {
  pl_length : Z.of_nat (length (array_ h)) < MAX_ITEMS;
  pl_perm : array_ h ≡ₚ A0;
  pl_nodup : NoDup (nodes_of (array_ h));
  pl_nodes i x : array_ h !! i = Some x -> node_pos x.2 h = Z.of_nat i;
  pl_others n : n ∉ nodes_of A0 -> node_pos n h = node_pos n h0;
}.

Lemma holed_finish A0 h0 item A p h : holed A0 h0 item A p h ->
  let h' := set_item p item (write_pos item.2 p h) in placed A0 h0 h' /\ array_ h' = A.
Proof.
  intros Hh h'. pose proof (holed_item _ _ _ _ _ _ Hh) as Hitem. pose proof (holed_length _ _ _ _ _ _ Hh) as Hlen. destruct Hh as [E Hp Hl Hperm Hnd Hn Ho].
  assert (array_ h' = A) as EA by (simpl; done). split; [|done]. split; rewrite ?EA; auto.
  - intros i x Hx. unfold h'. change (node_pos x.2 (set_item p item ?h)) with (node_pos x.2 h). unfold write_pos. rewrite node_pos_set. destruct (decide (i = p)) as [->|Hip].
    + rewrite Hitem in Hx. injection Hx as <-. rewrite decide_True by done. apply s32_small. unfold is_s32, MAX_ITEMS in *. lia.
    + rewrite decide_False; [by apply Hn|]. intros E2. apply Hip. by eapply nodes_unique.
  - intros n Hn0. unfold h'. change (node_pos n (set_item p item ?h)) with (node_pos n h). unfold write_pos. rewrite node_pos_set, decide_False; [by apply Ho|].
    intros ->. apply Hn0. unfold nodes_of. rewrite <- Hperm. by eapply elem_of_nodes.
Qed.

(** ** The loops *)
Lemma item_at_ok h i x : array_ h !! i = Some x -> item_at h i = Ok x.
Proof. unfold item_at. by intros ->. Qed.

Lemma fix_up_loop_spec A0 h0 item fuel A p h : holed A0 h0 item A p h -> up_heap A p -> (p <= fuel)%nat ->
  exists A' p' h', fix_up_loop K fuel item p h = Ok (p', h') /\ holed A0 h0 item A' p' h' /\ heap_order A'.
Proof.
  revert A p h. induction fuel as [|fuel IH]; intros A p h Hh Hu Hf; cbn [fix_up_loop]; (destruct (Nat.eqb p 0) eqn:E; zbool;
    [exists A, p, h; split_and!; auto; apply (up_done A p Hu); intros q x y He; apply edge_lt in He; lia|]); [lia|].
  set (q := ((p - 1) / K)%nat) in *. assert (edge q p) as He by (split; [lia|done]). pose proof (edge_lt _ _ He) as Hlt.
  pose proof (holed_length _ _ _ _ _ _ Hh) as Hlen. pose proof (ho_pos _ _ _ _ _ _ Hh) as Hp. pose proof (holed_item _ _ _ _ _ _ Hh) as Hitem.
  assert (exists b, A !! q = Some b) as [b Hb] by (apply lookup_lt_is_Some; lia).
  rewrite (item_at_ok h q b) by (rewrite (holed_lookup _ _ _ _ _ _ q Hh); [done|lia]). cbn [res_bind]. destruct (key_ltb b.1 item.1) eqn:Ek.
  - exists A, p, h. split_and!; auto. apply (up_done A p Hu). intros q' x y He' Hx Hy. assert (q' = q) as -> by (by eapply edge_unique).
    rewrite Hitem in Hy. rewrite Hb in Hx. simplify_eq. by apply key_lt_le.
  - apply (IH (swap A p q item b)); [apply holed_move; auto; lia|by apply up_step|lia].
Qed.

Lemma least_child_spec A h n i next : (forall j, (i <= j < i + n)%nat -> array_ h !! j = A !! j /\ is_Some (A !! j)) ->
  exists r, least_child n i next h = Ok r /\ (r = next \/ ((i <= r.1 < i + n)%nat /\ key_ltb r.2 next.2 = true /\ exists x, A !! r.1 = Some x /\ x.1 = r.2)) /\
    key_le r.2 next.2 /\ forall j y, (i <= j < i + n)%nat -> A !! j = Some y -> key_le r.2 y.1.
Proof.
  revert i next. induction n as [|n IH]; intros i next Hn; cbn [least_child].
  - exists next. split_and!; auto using key_le_refl. intros; lia.
  - destruct (Hn i) as [E [x Hx]]; [lia|]. rewrite (item_at_ok h i x) by congruence. cbn [res_bind].
    destruct (IH (S i) (if key_ltb x.1 next.2 then (i, x.1) else next)) as (r & -> & Hr & Hle & Hmin); [intros; apply Hn; lia|].
    exists r. split; [done|]. destruct (key_ltb x.1 next.2) eqn:Ek.
    + assert (key_le r.2 next.2) as Hle2 by (eapply key_le_trans; [exact Hle|]; by apply key_lt_le). split_and!; [|done|].
      * right. destruct Hr as [->|(H1 & H2 & H3)]; [simpl; split_and!; [lia..|done|eauto]|]. split_and!; [lia..| |done].
        destruct (key_ltb r.2 next.2) eqn:E2; [done|]. simpl in H2. assert (key_ltb r.2 x.1 = false) by (apply (key_trans x.1 next.2 r.2); [|done]; by apply key_asym). congruence.
      * intros j y Hj Hy. destruct (decide (j = i)) as [->|]; [simplify_eq; done|]. apply (Hmin j); [lia|done].
    + split_and!; [|done|].
      * destruct Hr as [->|(H1 & H2 & H3)]; [by left|right]. split_and!; [lia..|done|done].
      * intros j y Hj Hy. destruct (decide (j = i)) as [->|]; [simplify_eq; by apply (key_le_trans _ next.2)|]. apply (Hmin j); [lia|done].
Qed.

Lemma fix_down_loop_spec A0 h0 item s fuel A p h : holed A0 h0 item A p h -> down_heap A s p -> (length A <= p + fuel)%nat -> (0 < fuel)%nat ->
  exists A' p' h', fix_down_loop K fuel item p h = Ok (p', h') /\ holed A0 h0 item A' p' h' /\ up_heap A' s /\
    ((p = s /\ A' = A) \/ forall i x y, edge i s -> A' !! i = Some x -> A' !! s = Some y -> key_le x.1 y.1).
Proof.
  revert A p h. induction fuel as [|fuel IH]; intros A p h Hh Hd Hf Hf0; [lia|]. cbn [fix_down_loop].
  pose proof (holed_length _ _ _ _ _ _ Hh) as Hlen. pose proof (ho_pos _ _ _ _ _ _ Hh) as Hp. pose proof (holed_item _ _ _ _ _ _ Hh) as Hitem. rewrite Hlen.
  set (l := (p * K + 1)%nat). set (n := (Nat.min (l + K) (length A) - l)%nat).
  assert (forall j, (l <= j < l + n)%nat <-> edge p j /\ (j < length A)%nat) as Hedge by (intros j; rewrite edge_iff; lia).
  destruct (least_child_spec A h n l (p, item.1)) as (r & -> & Hr & Hle & Hmin).
  { intros j Hj. apply Hedge in Hj as [Hj1 Hj2]. pose proof (edge_lt _ _ Hj1). split; [apply (holed_lookup _ _ _ _ _ _ j Hh); lia|by apply lookup_lt_is_Some]. }
  cbn [res_bind]. assert (forall c y, edge p c -> A !! c = Some y -> key_le r.2 y.1) as Hmin'.
  { intros c y Hc Hy. apply (Hmin c); [|done]. apply Hedge. split; [done|]. by eapply lookup_lt_Some. }
  destruct (Nat.eqb r.1 p) eqn:E; zbool.
  - assert (r = (p, item.1)) as -> by (destruct Hr as [?|(H1 & _)]; [done|apply Hedge in H1 as [H1 _]; apply edge_lt in H1; lia]).
    exists A, p, h. split_and!; auto; [by eapply down_done|]. destruct (dn_above _ _ _ Hd); auto.
  - destruct Hr as [->|(H1 & H2 & x & Hx & Hk)]; [done|]. apply Hedge in H1 as [H1 H3]. pose proof (edge_lt _ _ H1).
    rewrite (item_at_ok h r.1 x) by (rewrite (holed_lookup _ _ _ _ _ _ r.1 Hh); [done|lia]). cbn [res_bind].
    change (write_pos x.2 p (set_item p x h)) with (set_item p x (write_pos x.2 p h)). rewrite <- Hk in *.
    destruct (IH (swap A p r.1 item x) r.1 (set_item p x (write_pos x.2 p h))) as (A' & p' & h' & -> & I1 & I2 & I3);
      [apply holed_move; auto; lia|by apply down_step|unfold swap; rewrite !length_insert; lia|lia|].
    exists A', p', h'. split_and!; auto. right. destruct I3 as [[? _]|?]; [|done]. pose proof (dn_le _ _ _ Hd). lia.
Qed.

(** ** The invariant *)
Record heap_inv h : Prop := {
  hi_order : heap_order (array_ h);
  hi_length : Z.of_nat (length (array_ h)) < MAX_ITEMS;
  hi_nodup : NoDup (nodes_of (array_ h));
  hi_nodes i x : array_ h !! i = Some x -> node_pos x.2 h = Z.of_nat i;
  hi_others n : n ∉ nodes_of (array_ h) -> node_pos n h = -1;
}.

(** The keys of the nodes. *)
Definition contents h : gmap Z KeyT := list_to_map (map (fun x => (x.2, x.1)) (array_ h)).

Lemma contents_of A : map fst (map (fun x : KeyT * Z => (x.2, x.1)) A) = nodes_of A.
Proof. unfold nodes_of. by rewrite map_map. Qed.

Lemma contents_elem h n k : NoDup (nodes_of (array_ h)) -> contents h !! n = Some k <-> (k, n) ∈ array_ h.
Proof.
  intros Hn. unfold contents. rewrite <- elem_of_list_to_map by (change (fst <$> ?l) with (map fst l); by rewrite contents_of).
  change (map (fun x => (x.2, x.1)) ?l) with ((fun x : KeyT * Z => (x.2, x.1)) <$> l). rewrite list_elem_of_fmap. split.
  - intros ([k' n'] & E & Hin). simpl in E. by simplify_eq.
  - intros Hin. by exists (k, n).
Qed.

Lemma contents_perm h h' : NoDup (nodes_of (array_ h)) -> array_ h' ≡ₚ array_ h -> contents h' = contents h.
Proof.
  intros Hn Hp. unfold contents. apply list_to_map_proper; [change (fst <$> ?l) with (map fst l); rewrite contents_of; unfold nodes_of in *; by rewrite Hp|].
  by rewrite Hp.
Qed.

(** Nodes with no position are not in the heap and the other way round. *)
Lemma in_heap_contents n h : heap_inv h -> in_heap n h = bool_decide (is_Some (contents h !! n)).
Proof.
  intros Hi. unfold in_heap. destruct (contents h !! n) as [k|] eqn:E.
  - rewrite bool_decide_true by done. apply contents_elem in E; [|apply Hi]. apply list_elem_of_lookup in E as [i E]. rewrite (hi_nodes h Hi i (k, n) E : node_pos n h = _).
    apply negb_true_iff, Z.eqb_neq. lia.
  - rewrite bool_decide_false by (by intros [? ?]). rewrite (hi_others h Hi); [done|]. intros Hin. apply list_elem_of_fmap in Hin as ([k n'] & -> & Hin).
    apply contents_elem in Hin; [|apply Hi]. simpl in E. congruence.
Qed.

Lemma position_in n k i h : heap_inv h -> array_ h !! i = Some (k, n) -> u64 (node_pos n h) = Z.of_nat i.
Proof.
  intros Hi E. rewrite (hi_nodes h Hi i (k, n) E : node_pos n h = _). apply u64_small. pose proof (hi_length h Hi). pose proof (lookup_lt_Some _ _ _ E). unfold is_u64, MAX_ITEMS in *. lia.
Qed.

Lemma position_out n h : heap_inv h -> contents h !! n = None -> (u64 (node_pos n h) <? Z.of_nat (length (array_ h))) = false.
Proof.
  intros Hi E. pose proof (in_heap_contents n h Hi) as Hin. rewrite E, bool_decide_false in Hin by (by intros [? ?]). unfold in_heap in Hin. zbool. rewrite Hin.
  change (u64 (-1)) with (2 ^ 64 - 1). pose proof (hi_length h Hi). unfold MAX_ITEMS in *. apply Z.ltb_ge. lia.
Qed.

Lemma contents_index h n k : heap_inv h -> contents h !! n = Some k -> exists i, array_ h !! i = Some (k, n).
Proof. intros Hi E. apply contents_elem in E; [|apply Hi]. by apply list_elem_of_lookup in E. Qed.

(** A loop starts at an item of the array. *)
Lemma holed_start h p item : array_ h !! p = Some item -> Z.of_nat (length (array_ h)) < MAX_ITEMS -> NoDup (nodes_of (array_ h)) ->
  (forall i x, array_ h !! i = Some x -> i <> p -> node_pos x.2 h = Z.of_nat i) -> holed (array_ h) h item (array_ h) p h.
Proof. intros Hp Hl Hn Hx. split; auto. - by apply list_insert_id. - by eapply lookup_lt_Some. Qed.

Lemma fix_up_spec h p item : array_ h !! p = Some item -> Z.of_nat (length (array_ h)) < MAX_ITEMS -> NoDup (nodes_of (array_ h)) ->
  (forall i x, array_ h !! i = Some x -> i <> p -> node_pos x.2 h = Z.of_nat i) -> up_heap (array_ h) p ->
  exists h', fix_up K p h = Ok h' /\ placed (array_ h) h h' /\ heap_order (array_ h').
Proof.
  intros Hp Hl Hn Hx Hu. unfold fix_up. rewrite (item_at_ok h p item Hp). cbn [res_bind].
  destruct (fix_up_loop_spec (array_ h) h item p (array_ h) p h) as (A' & p' & h1 & -> & Hh & Ho); [by apply holed_start|done|lia|]. cbn [res_bind].
  destruct (holed_finish _ _ _ _ _ _ Hh) as [Hpl HA]. eexists. split; [done|]. split; [done|]. by rewrite HA.
Qed.

Lemma fix_down_spec h p item : array_ h !! p = Some item -> Z.of_nat (length (array_ h)) < MAX_ITEMS -> NoDup (nodes_of (array_ h)) ->
  (forall i x, array_ h !! i = Some x -> i <> p -> node_pos x.2 h = Z.of_nat i) -> down_heap (array_ h) p p ->
  exists h', fix_down K p h = Ok h' /\ placed (array_ h) h h' /\ up_heap (array_ h') p /\
    (array_ h' = array_ h \/ forall i x y, edge i p -> array_ h' !! i = Some x -> array_ h' !! p = Some y -> key_le x.1 y.1).
Proof.
  intros Hp Hl Hn Hx Hd. unfold fix_down. rewrite (item_at_ok h p item Hp). cbn [res_bind].
  destruct (fix_down_loop_spec (array_ h) h item p (S (length (array_ h))) (array_ h) p h) as (A' & p' & h1 & -> & Hh & Hu & Hor); [by apply holed_start|done|lia|lia|]. cbn [res_bind].
  destruct (holed_finish _ _ _ _ _ _ Hh) as [Hpl HA]. eexists. split; [done|]. split; [done|]. rewrite HA. split; [done|]. destruct Hor as [[_ ->]|?]; auto.
Qed.

Lemma placed_inv A0 h0 h : placed A0 h0 h -> heap_order (array_ h) -> (forall n, n ∉ nodes_of A0 -> node_pos n h0 = -1) -> heap_inv h.
Proof.
  intros [P1 P2 P3 P4 P5] Ho Hn. split; auto. intros n Hin. rewrite P5; [apply Hn|]; unfold nodes_of in *; by rewrite <- P2.
Qed.

(** ** The operations *)
Lemma heap_insert_spec key n h : heap_inv h -> contents h !! n = None -> Z.of_nat (length (array_ h)) + 1 < MAX_ITEMS ->
  exists h', insert K key n h = Ok h' /\ heap_inv h' /\ contents h' = <[n := key]> (contents h) /\ length (array_ h') = S (length (array_ h)).
Proof.
  intros Hi Hn Hl. unfold insert. rewrite (in_heap_contents n h Hi), Hn, bool_decide_false by (by intros [? ?]). cbn [negb array_].
  set (h1 := {| array_ := array_ h ++ [(key, n)]; pos_ := pos_ h |}).
  assert (n ∉ nodes_of (array_ h)) as Hni.
  { intros Hin. apply list_elem_of_fmap in Hin as ([k n'] & -> & Hin). apply contents_elem in Hin; [|apply Hi]. simpl in Hn. congruence. }
  assert (length (array_ h ++ [(key, n)]) - 1 = length (array_ h))%nat as -> by (rewrite length_app; simpl; lia).
  assert (NoDup (nodes_of (array_ h1))) as Hnd1.
  { unfold nodes_of. simpl. rewrite map_app. apply NoDup_app. split_and!; [apply Hi| |apply NoDup_singleton]. intros x Hx Hx'. apply list_elem_of_singleton in Hx'. subst. done. }
  assert (forall i, i <> length (array_ h) -> array_ h1 !! i = array_ h !! i) as Hlk.
  { intros i Hne. simpl. destruct (decide (i < length (array_ h))%nat); [by apply lookup_app_l|]. rewrite !lookup_ge_None_2; [done|lia|rewrite length_app; simpl; lia]. }
  destruct (fix_up_spec h1 (length (array_ h)) (key, n)) as (h' & -> & Hp & Ho).
  - simpl. rewrite lookup_app_r, Nat.sub_diag by lia. done.
  - simpl. rewrite length_app. simpl. lia.
  - done.
  - intros i x Hx Hne. rewrite Hlk in Hx by done. exact (hi_nodes h Hi i x Hx).
  - split.
    + intros i j x y Hij Hj Hx Hy. rewrite Hlk in Hy by done. apply lookup_lt_Some in Hy as Hjl. pose proof (edge_lt _ _ Hij). rewrite Hlk in Hx by lia. by apply (hi_order h Hi i j).
    + intros i c x y _ Hc _ Hy. apply lookup_lt_Some in Hy. apply edge_lt in Hc. simpl in Hy. rewrite length_app in Hy. simpl in Hy. lia.
  - exists h'. split; [done|]. assert (heap_inv h') as Hi'.
    { eapply placed_inv; [done..|]. intros m Hm. change (node_pos m h1) with (node_pos m h). apply Hi. intros Hin. apply Hm. unfold nodes_of in *. simpl. rewrite map_app. set_solver. }
    split; [done|]. split.
    + rewrite (contents_perm h1 h' Hnd1 (pl_perm _ _ _ Hp)). unfold contents. simpl. rewrite map_app. simpl. rewrite list_to_map_app. simpl.
      rewrite insert_empty, <- insert_union_singleton_r by (fold (contents h); done). done.
    + rewrite (Permutation_length (pl_perm _ _ _ Hp)). simpl. rewrite length_app. simpl. lia.
Qed.

(** The last item takes the place of the item at [p]. *)
Definition without A (p : nat) (back : KeyT * Z) : list (KeyT * Z) := removelast (<[p := back]> A).

Lemma removelast_take {B} (l : list B) : removelast l = take (length l - 1) l.
Proof.
  induction l as [|a [|b l] IH]; [done..|]. change (removelast (a :: b :: l)) with (a :: removelast (b :: l)). rewrite IH. simpl. by rewrite Nat.sub_0_r.
Qed.

Lemma without_length A p back : length (without A p back) = (length A - 1)%nat.
Proof. unfold without. rewrite removelast_take, length_take, length_insert. lia. Qed.

Lemma without_lookup A p back i : (i < length A - 1)%nat -> without A p back !! i = if decide (i = p) then Some back else A !! i.
Proof.
  intros Hi. unfold without. rewrite removelast_take, lookup_take_lt by (rewrite length_insert; lia).
  destruct (decide (i = p)) as [->|Hne]; [apply list_lookup_insert_eq; lia|by apply list_lookup_insert_ne].
Qed.

Lemma without_perm A p back x : last A = Some back -> A !! p = Some x -> A ≡ₚ x :: without A p back.
Proof.
  intros Hb Hx. apply last_Some in Hb as [l ->]. unfold without. destruct (decide (p = length l)) as [->|Hne].
  - rewrite lookup_app_r, Nat.sub_diag in Hx by lia. injection Hx as <-. rewrite insert_app_r_alt, Nat.sub_diag by lia. simpl. rewrite removelast_last. by rewrite Permutation_app_comm.
  - assert (p < length l)%nat by (apply lookup_lt_Some in Hx; rewrite length_app in Hx; simpl in Hx; lia). rewrite lookup_app_l in Hx by done.
    rewrite insert_app_l, removelast_last by done. apply list_elem_of_split_length in Hx as (l1 & l2 & -> & ->).
    rewrite insert_app_r_alt, Nat.sub_diag by lia. simpl. rewrite (Permutation_app_comm _ [back]). simpl. rewrite <- !Permutation_middle. apply perm_swap.
Qed.

Lemma erase_pos_spec h p k n : heap_inv h -> array_ h !! p = Some (k, n) ->
  exists h', erase_pos K p (remove_node n h) = Ok h' /\ heap_inv h' /\ contents h' = delete n (contents h) /\ length (array_ h') = (length (array_ h) - 1)%nat.
Proof.
  intros Hi Hp. unfold erase_pos. change (array_ (remove_node n h)) with (array_ h). destruct (last (array_ h)) as [back|] eqn:Eb; [|apply last_None in Eb; by rewrite Eb in Hp].
  set (A := without (array_ h) p back). pose proof (without_perm _ _ _ _ Eb Hp) as Hperm. fold A in Hperm.
  assert (NoDup (n :: nodes_of A)) as Hnd by (pose proof (hi_nodup h Hi) as Hn; unfold nodes_of in *; by rewrite Hperm in Hn). apply NoDup_cons in Hnd as [Hna Hnd].
  assert (forall i x, A !! i = Some x -> (i < length (array_ h) - 1)%nat /\ (if decide (i = p) then Some back else array_ h !! i) = Some x) as HA.
  { intros i x Hx. pose proof (lookup_lt_Some _ _ _ Hx) as Hl. unfold A in Hl. rewrite without_length in Hl. split; [done|]. unfold A in Hx. by rewrite without_lookup in Hx. }
  set (h1 := {| array_ := A; pos_ := pos_ (remove_node n h) |}).
  change {| array_ := removelast (array_ (set_item p back (remove_node n h))); pos_ := pos_ (set_item p back (remove_node n h)) |} with h1.
  assert (forall i x, A !! i = Some x -> i <> p -> node_pos x.2 h1 = Z.of_nat i) as Hpos.
  { intros i x Hx Hne. destruct (HA i x Hx) as [_ HxA]. rewrite decide_False in HxA by done. change (node_pos x.2 h1) with (node_pos x.2 (set_pos n (-1) h)).
    rewrite node_pos_set, decide_False; [by apply (hi_nodes h Hi)|]. intros E. apply Hna. rewrite <- E. by eapply elem_of_nodes. }
  assert (forall m, m ∉ nodes_of A -> node_pos m h1 = -1) as Hoth.
  { intros m Hm. change (node_pos m h1) with (node_pos m (set_pos n (-1) h)). rewrite node_pos_set. destruct (decide (m = n)); [done|]. apply Hi. unfold nodes_of in *. rewrite Hperm. set_solver. }
  assert (forall h', heap_inv h' -> array_ h' ≡ₚ A -> contents h' = delete n (contents h)) as Hcon.
  { intros h' Hi' Hp'. apply map_eq. intros m. apply option_eq. intros v. rewrite lookup_delete_Some, !contents_elem by (apply Hi || apply Hi'). rewrite Hp', Hperm, elem_of_cons. split.
    - intros Hin. split; [|by right]. intros <-. apply Hna. apply list_elem_of_fmap. by exists (v, n).
    - intros [Hne [E|?]]; [congruence|done]. }
  assert (Z.of_nat (length A) < MAX_ITEMS) as Hlen by (pose proof (hi_length h Hi); unfold A; rewrite without_length; lia).
  pose proof (hi_order h Hi) as Hord. change (array_ h1) with A. destruct (Nat.ltb p (length A)) eqn:E; zbool.
  - assert (A !! p = Some back) as Hback by (unfold A in *; rewrite without_length in E; rewrite without_lookup by done; by rewrite decide_True).
    destruct (fix_down_spec h1 p back) as (h2 & -> & Hp2 & Hu2 & _); auto.
    { split; auto.
      - intros i j x y Hij Hin Hjn Hx Hy. destruct (HA i x Hx) as [_ Hx']. destruct (HA j y Hy) as [_ Hy']. rewrite decide_False in Hx' by done. rewrite decide_False in Hy' by done. by apply (Hord i j).
      - intros i c x y Hip Hpc Hx Hy. pose proof (edge_lt _ _ Hip). pose proof (edge_lt _ _ Hpc). destruct (HA i x Hx) as [_ Hx']. destruct (HA c y Hy) as [_ Hy'].
        rewrite decide_False in Hx' by lia. rewrite decide_False in Hy' by lia. apply (key_le_trans _ k); [by apply (Hord i p x (k, n))|by apply (Hord p c (k, n) y)]. }
    cbn [res_bind]. assert (exists it, array_ h2 !! p = Some it) as [it Hit] by (apply lookup_lt_is_Some; rewrite (Permutation_length (pl_perm _ _ _ Hp2)); done).
    destruct (fix_up_spec h2 p it Hit (pl_length _ _ _ Hp2) (pl_nodup _ _ _ Hp2)) as (h3 & -> & Hp3 & Ho3); [intros i x Hx _; by apply (pl_nodes _ _ _ Hp2)|done|].
    assert (array_ h3 ≡ₚ A) as Hp3A by (by rewrite (pl_perm _ _ _ Hp3), (pl_perm _ _ _ Hp2)).
    assert (heap_inv h3) as Hi3.
    { eapply placed_inv; [exact Hp3|done|]. intros m Hm. rewrite (pl_others _ _ _ Hp2); [apply Hoth|]; unfold nodes_of in *; by rewrite (pl_perm _ _ _ Hp2) in Hm. }
    exists h3. split_and!; auto. rewrite (Permutation_length Hp3A). apply without_length.
  - assert (forall i x, A !! i = Some x -> i <> p) as Hnp by (intros i x Hx ->; apply lookup_lt_Some in Hx; lia).
    assert (heap_inv h1) as Hi1.
    { split; auto; [|by intros i x Hx; apply Hpos; eauto]. intros i j x y Hij Hx Hy. pose proof (Hnp _ _ Hx). pose proof (Hnp _ _ Hy). destruct (HA i x Hx) as [_ Hx']. destruct (HA j y Hy) as [_ Hy'].
      rewrite decide_False in Hx' by done. rewrite decide_False in Hy' by done. by apply (Hord i j). }
    exists h1. split_and!; auto. apply without_length.
Qed.

Lemma heap_erase_spec n h k : heap_inv h -> contents h !! n = Some k ->
  exists h', erase K n h = Ok h' /\ heap_inv h' /\ contents h' = delete n (contents h) /\ length (array_ h') = (length (array_ h) - 1)%nat.
Proof.
  intros Hi Hk. destruct (contents_index h n k Hi Hk) as [p Hp]. unfold erase. rewrite (position_in n k p h Hi Hp). pose proof (lookup_lt_Some _ _ _ Hp).
  change (array_ (remove_node n h)) with (array_ h). rewrite (proj2 (Z.ltb_lt _ _)) by lia. rewrite Nat2Z.id. by apply (erase_pos_spec h p k n).
Qed.

Lemma root_least A i x y : heap_order A -> A !! 0%nat = Some x -> A !! i = Some y -> key_le x.1 y.1.
Proof.
  intros Ho Hx. revert y. induction i as [i IH] using lt_wf_ind. intros y Hy. destruct i as [|i]; [simplify_eq; apply key_le_refl|].
  assert (edge (i / K) (S i)) as He by (split; [lia|]; by rewrite Nat.sub_1_r). pose proof (edge_lt _ _ He).
  assert (exists z, A !! (i / K)%nat = Some z) as [z Hz] by (apply lookup_lt_is_Some; apply lookup_lt_Some in Hy; lia).
  apply (key_le_trans _ z.1); [by apply (IH (i / K)%nat)|by apply (Ho (i / K)%nat (S i))].
Qed.

(** The least key of the nodes. *)
Definition least (m : gmap Z KeyT) (n : Z) (k : KeyT) : Prop := m !! n = Some k /\ forall n' k', m !! n' = Some k' -> key_le k k'.

Lemma top_least h : heap_inv h -> contents h <> ∅ -> exists x, array_ h !! 0%nat = Some x /\ least (contents h) x.2 x.1.
Proof.
  intros Hi Hne. destruct (array_ h !! 0%nat) as [x|] eqn:E.
  - exists x. split; [done|]. split; [apply contents_elem; [apply Hi|]; destruct x; by eapply list_elem_of_lookup_2|].
    intros n' k' Hk'. destruct (contents_index h n' k' Hi Hk') as [i Hk]. exact (root_least _ i x (k', n') (hi_order h Hi) E Hk).
  - destruct Hne. unfold contents. apply lookup_ge_None in E. destruct (array_ h); [done|simpl in E; lia].
Qed.

Lemma empty_contents h : empty h = true <-> contents h = ∅.
Proof.
  unfold empty, contents. rewrite Nat.eqb_eq. split; [by destruct (array_ h)|]. destruct (array_ h) as [|x l]; [done|]. simpl. intros E. by apply insert_non_empty in E.
Qed.

Lemma pop_spec h : heap_inv h -> contents h <> ∅ ->
  exists n k h', pop K h = Ok (n, h') /\ least (contents h) n k /\ heap_inv h' /\ contents h' = delete n (contents h) /\ length (array_ h') = (length (array_ h) - 1)%nat.
Proof.
  intros Hi Hne. unfold pop. destruct (empty h) eqn:E; [by apply empty_contents in E|]. cbn [negb]. destruct (top_least h Hi Hne) as ([k n] & Hx & Hl).
  rewrite (item_at_ok h 0 _ Hx). cbn [res_bind snd fst] in *. destruct (erase_pos_spec h 0 k n Hi Hx) as (h' & -> & Hi' & Hc & Hlen). cbn [res_bind]. by exists n, k, h'.
Qed.

Lemma fix_key_spec key n h k : heap_inv h -> contents h !! n = Some k ->
  exists h', fix_key K key n h = Ok h' /\ heap_inv h' /\ contents h' = <[n := key]> (contents h) /\ length (array_ h') = length (array_ h).
Proof.
  intros Hi Hk. destruct (contents_index h n k Hi Hk) as [p Hp]. unfold fix_key, position. rewrite (position_in n k p h Hi Hp). pose proof (lookup_lt_Some _ _ _ Hp) as Hpb.
  rewrite (proj2 (Z.ltb_lt _ _)) by lia. rewrite Nat2Z.id. cbn [res_bind]. rewrite (item_at_ok h p _ Hp). cbn [res_bind fst snd].
  set (h1 := set_item p (key, n) h). pose proof (hi_order h Hi) as Ho.
  assert (forall i, array_ h1 !! i = if decide (i = p) then Some (key, n) else array_ h !! i) as Hlk.
  { intros i. simpl. destruct (decide (i = p)) as [->|Hne]; [by apply list_lookup_insert_eq|by apply list_lookup_insert_ne]. }
  assert (nodes_of (array_ h1) = nodes_of (array_ h)) as Hno.
  { unfold nodes_of. simpl. change (map snd ?l) with (snd <$> l). rewrite list_fmap_insert. apply list_insert_id. by rewrite list_lookup_fmap, Hp. }
  assert (length (array_ h1) = length (array_ h)) as Hlen by (simpl; apply length_insert).
  assert (NoDup (nodes_of (array_ h1))) as Hnd by (rewrite Hno; apply Hi).
  assert (Z.of_nat (length (array_ h1)) < MAX_ITEMS) as Hmx by (rewrite Hlen; apply Hi).
  assert (forall i x, array_ h1 !! i = Some x -> i <> p -> node_pos x.2 h1 = Z.of_nat i) as Hpos.
  { intros i x Hx Hne. rewrite Hlk, decide_False in Hx by done. exact (hi_nodes h Hi i x Hx). }
  assert (array_ h1 !! p = Some (key, n)) as Hp1 by (rewrite Hlk; by rewrite decide_True).
  assert (forall h', placed (array_ h1) h1 h' -> heap_order (array_ h') ->
    heap_inv h' /\ contents h' = <[n := key]> (contents h) /\ length (array_ h') = length (array_ h)) as Hdone.
  { intros h' Hpl Ho'. assert (heap_inv h') as Hi' by (eapply placed_inv; [done..|]; intros m Hm; rewrite Hno in Hm; by apply (hi_others h Hi)).
    split; [done|]. split; [|by rewrite (Permutation_length (pl_perm _ _ _ Hpl))]. rewrite (contents_perm h1 h' Hnd (pl_perm _ _ _ Hpl)).
    apply map_eq. intros m. apply option_eq. intros v. rewrite contents_elem, list_elem_of_lookup by done. split.
    - intros [i Hx]. rewrite Hlk in Hx. destruct (decide (i = p)) as [->|Hne]; [injection Hx as <- <-; apply lookup_insert_eq|].
      rewrite lookup_insert_ne; [apply contents_elem; [apply Hi|]; by eapply list_elem_of_lookup_2|]. intros <-. apply Hne. by eapply (nodes_unique (array_ h) i p (v, n) (k, n)); [apply Hi|..].
    - destruct (decide (m = n)) as [->|Hne]; [rewrite lookup_insert_eq; intros [= <-]; by exists p|]. rewrite lookup_insert_ne by done. intros Hv.
      destruct (contents_index h m v Hi Hv) as [i Hx]. exists i. rewrite Hlk, decide_False; [done|]. intros ->. congruence. }
  assert (forall i x, edge i p -> array_ h !! i = Some x -> key_le x.1 k) as Habove by (intros i x He Hx; exact (Ho i p x (k, n) He Hx Hp)).
  assert (forall c y, edge p c -> array_ h !! c = Some y -> key_le k y.1) as Hbelow by (intros c y He Hy; exact (Ho p c (k, n) y He Hp Hy)).
  destruct (key_ltb key k) eqn:Ek.
  - destruct (fix_up_spec h1 p (key, n) Hp1 Hmx Hnd Hpos) as (h' & -> & Hpl & Ho'); [|by exists h'; split; [done|apply Hdone]].
    split.
    + intros i j x y Hij Hj. rewrite !Hlk, (decide_False (P := j = p)) by done. destruct (decide (i = p)) as [->|Hi0]; [|by apply Ho].
      intros [= <-] Hy. apply (key_le_trans _ k); [by apply key_lt_le|by apply (Hbelow j)].
    + intros i c x y He Hc. pose proof (edge_lt _ _ He). pose proof (edge_lt _ _ Hc). rewrite !Hlk, !decide_False by lia. intros Hx Hy. apply (key_le_trans _ k); eauto.
  - destruct (fix_down_spec h1 p (key, n) Hp1 Hmx Hnd Hpos) as (h' & -> & Hpl & Hu & Hor).
    { split; [lia|..|by left].
      - intros i j x y Hij Hi0 Hj. rewrite !Hlk, !decide_False by done. by apply Ho.
      - intros i c x y He Hc. pose proof (edge_lt _ _ He). pose proof (edge_lt _ _ Hc). rewrite !Hlk, !decide_False by lia. intros Hx Hy. apply (key_le_trans _ k); eauto. }
    exists h'. split; [done|]. apply Hdone; [done|]. apply (up_done _ p Hu). destruct Hor as [->|Hor]; [|done].
    intros i x y He. pose proof (edge_lt _ _ He). rewrite !Hlk, decide_False, decide_True by lia. intros Hx [= <-]. apply (key_le_trans _ k); [by apply (Habove i)|done].
Qed.

Lemma get_key_spec n h : heap_inv h -> match contents h !! n with Some k => get_key n h = Ok k | None => get_key n h = Panic "pos < array_.size()" end.
Proof.
  intros Hi. unfold get_key, position. destruct (contents h !! n) as [k|] eqn:E.
  - destruct (contents_index h n k Hi E) as [p Hp]. rewrite (position_in n k p h Hi Hp). pose proof (lookup_lt_Some _ _ _ Hp). rewrite (proj2 (Z.ltb_lt _ _)) by lia.
    rewrite Nat2Z.id. cbn [res_bind]. by rewrite (item_at_ok h p _ Hp).
  - by rewrite (position_out n h Hi E).
Qed.

Lemma check_ok h : heap_order (array_ h) -> check K h = true.
Proof.
  intros Ho. unfold check. apply forallb_forall. intros i _. apply forallb_forall. intros j Hj%list_elem_of_In%list_elem_of_filter. destruct Hj as [_ Hj%elem_of_seq].
  destruct (array_ h !! i) as [x|] eqn:Ex; [|done]. destruct (array_ h !! j) as [y|] eqn:Ey; [|done]. apply negb_true_iff.
  apply (Ho i j x y); [apply edge_iff; lia|done|done].
Qed.

Lemma new_heap_inv : heap_inv new_heap.
Proof. split; simpl; [done|done|constructor|done|done]. Qed.

(** ** Sequences of operations *)
Inductive hp_op := HpInsert (key : KeyT) (n : Z) | HpErase (n : Z) | HpFix (key : KeyT) (n : Z) | HpPop | HpTopKey | HpGetKey (n : Z).
Inductive hp_result := RNone | RNode (n : Z) | RKey (k : KeyT).

Definition hp_step (o : hp_op) h : Res (hp_result * heap) :=
  match o with
  | HpInsert key n => let* h := insert K key n h in Ok (RNone, h)
  | HpErase n => let* h := erase K n h in Ok (RNone, h)
  | HpFix key n => let* h := fix_key K key n h in Ok (RNone, h)
  | HpPop => let* (n, h) := pop K h in Ok (RNode n, h)
  | HpTopKey => let* k := top_key h in Ok (RKey k, h)
  | HpGetKey n => let* k := get_key n h in Ok (RKey k, h)
  end.

Fixpoint hp_run (os : list hp_op) h : Res (list hp_result * heap) :=
  match os with
  | [] => Ok ([], h)
  | o :: os => let* (r, h) := hp_step o h in let* (rs, h) := hp_run os h in Ok (r :: rs, h)
  end.

(** The same on a map from nodes to keys: which operations are allowed, and what they do. *)
Definition hp_allowed (o : hp_op) (m : gmap Z KeyT) : Prop :=
  match o with
  | HpInsert _ n => m !! n = None
  | HpErase n | HpFix _ n | HpGetKey n => is_Some (m !! n)
  | HpPop | HpTopKey => m <> ∅
  end.
Definition hp_spec (o : hp_op) (m : gmap Z KeyT) (r : hp_result) (m' : gmap Z KeyT) : Prop :=
  match o with
  | HpInsert key n | HpFix key n => r = RNone /\ m' = <[n := key]> m
  | HpErase n => r = RNone /\ m' = delete n m
  | HpPop => exists n k, r = RNode n /\ least m n k /\ m' = delete n m
  | HpTopKey => m' = m /\ exists n k, r = RKey k /\ least m n k
  | HpGetKey n => m' = m /\ exists k, r = RKey k /\ m !! n = Some k
  end.
Inductive hp_specs : list hp_op -> gmap Z KeyT -> list hp_result -> gmap Z KeyT -> Prop :=
| hps_nil m : hp_specs [] m [] m
| hps_cons o os m r m' rs m2 : hp_allowed o m -> hp_spec o m r m' -> hp_specs os m' rs m2 -> hp_specs (o :: os) m (r :: rs) m2.
(** At some point an operation that is not allowed. *)
Inductive hp_fails : list hp_op -> gmap Z KeyT -> Prop :=
| hpf_here o os m : ~ hp_allowed o m -> hp_fails (o :: os) m
| hpf_later o os m r m' : hp_allowed o m -> hp_spec o m r m' -> hp_fails os m' -> hp_fails (o :: os) m.

Lemma hp_step_ok o h : heap_inv h -> Z.of_nat (length (array_ h)) + 1 < MAX_ITEMS -> hp_allowed o (contents h) ->
  exists r h', hp_step o h = Ok (r, h') /\ heap_inv h' /\ hp_spec o (contents h) r (contents h') /\ (length (array_ h') <= S (length (array_ h)))%nat.
Proof.
  intros Hi Hl Ha. destruct o as [key n|n|key n| | |n]; cbn [hp_step hp_allowed hp_spec] in *.
  - destruct (heap_insert_spec key n h Hi Ha Hl) as (h' & -> & Hi' & Hc & Hlen). cbn [res_bind]. exists RNone, h'. split_and!; auto. lia.
  - destruct Ha as [k Hk]. destruct (heap_erase_spec n h k Hi Hk) as (h' & -> & Hi' & Hc & Hlen). cbn [res_bind]. exists RNone, h'. split_and!; auto. lia.
  - destruct Ha as [k Hk]. destruct (fix_key_spec key n h k Hi Hk) as (h' & -> & Hi' & Hc & Hlen). cbn [res_bind]. exists RNone, h'. split_and!; auto. lia.
  - destruct (pop_spec h Hi Ha) as (n & k & h' & -> & Hle & Hi' & Hc & Hlen). cbn [res_bind]. exists (RNode n), h'. split_and!; [done|done|by exists n, k|lia].
  - destruct (top_least h Hi Ha) as (x & Hx & Hle). unfold top_key. rewrite (item_at_ok h 0 x Hx). cbn [res_bind]. exists (RKey x.1), h. split_and!; [done..| |lia]. by exists x.2, x.1.
  - destruct Ha as [k Hk]. pose proof (get_key_spec n h Hi) as Hg. rewrite Hk in Hg. rewrite Hg. cbn [res_bind]. exists (RKey k), h. split_and!; [done..| |lia]. by exists k.
Qed.

Lemma hp_step_fails o h : heap_inv h -> ~ hp_allowed o (contents h) -> exists w, hp_step o h = Panic w.
Proof.
  intros Hi Ha. assert (forall n, ~ is_Some (contents h !! n) -> contents h !! n = None) as Hnone by (intros n; apply eq_None_not_Some).
  assert (~ contents h <> ∅ -> array_ h = []) as Hemp.
  { intros Hc. destruct (empty h) eqn:E; [unfold empty in E; zbool; by apply nil_length_inv|]. destruct Hc. intros Hc. apply empty_contents in Hc. congruence. }
  destruct o as [key n|n|key n| | |n]; cbn [hp_step hp_allowed] in *.
  - unfold insert. rewrite (in_heap_contents n h Hi). destruct (contents h !! n); [|done]. rewrite bool_decide_true by done. by eexists.
  - unfold erase. change (array_ (remove_node n h)) with (array_ h). rewrite (position_out n h Hi) by auto. by eexists.
  - unfold fix_key, position. rewrite (position_out n h Hi) by auto. by eexists.
  - unfold pop, empty. rewrite Hemp by done. by eexists.
  - unfold top_key, item_at. rewrite Hemp by done. by eexists.
  - pose proof (get_key_spec n h Hi) as Hg. rewrite (Hnone n) in Hg by done. rewrite Hg. by eexists.
Qed.

Lemma hp_allowed_dec o (m : gmap Z KeyT) : {hp_allowed o m} + {~ hp_allowed o m}.
Proof.
  destruct o as [key n|n|key n| | |n]; simpl; try (destruct (m !! n); [right|left]; by try intros [? ?]); try (destruct (m !! n); [left|right]; [by eexists|by intros [? ?]]).
  all: destruct (map_to_list m) eqn:E; [right; intros Hne; apply Hne; by apply map_to_list_empty_iff|left; intros ->; by rewrite map_to_list_empty in E].
Qed.

(** C14. A heap is a map from nodes to keys from which a node with a least key can be
    taken: every sequence of [insert], [erase], [fix], [pop], [top_key] and
    [get_key] gives the results of the map, and the process ends in a failed check
    exactly when a node is inserted twice, is not there, or the heap is empty.
    Afterwards the positions written to the nodes are right, the loops that move an
    item having ended, and [check] succeeds. *)
Theorem kheap_refines os h : heap_inv h -> Z.of_nat (length (array_ h)) + Z.of_nat (length os) < MAX_ITEMS ->
  match hp_run os h with
  | Ok (rs, h') => hp_specs os (contents h) rs (contents h') /\ heap_inv h' /\ check K h' = true
  | Panic _ => hp_fails os (contents h)
  | Error _ _ => False
  end.
Proof.
  revert h. induction os as [|o os IH]; intros h Hi Hl; cbn [hp_run length] in *; [split_and!; [constructor|done|apply check_ok, Hi]|].
  destruct (hp_allowed_dec o (contents h)) as [Ha|Ha].
  - destruct (hp_step_ok o h Hi) as (r & h1 & -> & Hi1 & Hs1 & Hl1); [lia|done|]. cbn [res_bind]. specialize (IH h1 Hi1).
    destruct (hp_run os h1) as [[rs h2]| |]; cbn [res_bind]; [|lia|].
    + destruct IH as (I1 & I2 & I3); [lia|]. split_and!; auto. by econstructor.
    + eapply hpf_later; [done..|]. apply IH. lia.
  - destruct (hp_step_fails o h Hi Ha) as [w ->]. cbn [res_bind]. by constructor.
Qed.
End proofs.

(** ** A heap of integers *)
Definition test_heap_ops : list (@hp_op Z) :=
  [HpInsert 50 1; HpInsert 30 2; HpInsert 40 3; HpInsert 10 4; HpInsert 20 5; HpInsert 30 6; HpTopKey; HpPop; HpFix 5 1; HpPop; HpFix 60 2; HpErase 3; HpGetKey 2; HpPop; HpPop].

Lemma kheap_refines_witness : is_ok (hp_run 4 test_heap_ops new_heap) = true /\
  match hp_run 4 test_heap_ops new_heap with
  | Ok (rs, h') => hp_specs test_heap_ops (contents (@new_heap Z)) rs (contents h') /\ heap_inv 4 h' /\ check 4 h' = true
  | Panic _ => hp_fails test_heap_ops (contents (@new_heap Z))
  | Error _ _ => False
  end.
Proof.
  split; [vm_compute; reflexivity|]. apply (kheap_refines 4); [lia|apply new_heap_inv|vm_compute; reflexivity].
Defined.

(** Nodes come out in the order of their keys, and a second insertion of a node fails. *)
Example test_heap_results :
  match hp_run 4 test_heap_ops new_heap with Ok (rs, h) => (drop 6 rs, array_ h) | _ => ([], []) end =
  ([RKey 10; RNode 4; RNone; RNode 1; RNone; RNone; RKey 60; RNode 5; RNode 6], [(60, 2)]).
Proof. vm_compute. reflexivity. Qed.
