(* ===== verification/MultiTimeout.v ===== *)
(** * Timeouts

    [MultiTimeout] (tdactor/td/actor/MultiTimeout.h, MultiTimeout.cpp), an actor that keeps
    any number of timeouts, each with a key, over the single timeout that the scheduler has
    for an actor.  The timeouts are in a [KHeap]; the [HeapNode] of an [Item] is named by
    its key, as there is one [Item] for a key in [items_].

    Of the scheduler the model has what the code looks at: the timeout of the actor, and
    whether there is an event of the type [Timeout] in its mailbox.  [fire] is the scheduler
    that turns the one into the other.  The callbacks are the list of keys for which they
    are called; a call that comes back to the [MultiTimeout] is an operation of its own, as
    the callbacks are called last.  [limit] is the time [now] plus 1e10 seconds. *)
From S2P Require Import Prelude Heap.
Local Open Scope td_scope.

Section multi_timeout.
Context {TimeT : Type} `{KeyOrder TimeT}.

(** [actor_timeout] is the timeout that the scheduler has for the actor, [pending_timeout]
    whether its mailbox has an event of the type [Timeout].  Events that come one after the
    other before the first one is handled count as one event. *)
Record MultiTimeout := {
  timeout_queue_ : KHeap TimeT;
  items_ : gset Z;
  actor_timeout : option TimeT;
  pending_timeout : bool;
}.

Definition new_timeouts : MultiTimeout := {| timeout_queue_ := new_heap; items_ := ∅; actor_timeout := None; pending_timeout := false |}.

Definition with_queue (q : KHeap TimeT) (items : gset Z) (m : MultiTimeout) : MultiTimeout :=
  {| timeout_queue_ := q; items_ := items; actor_timeout := actor_timeout m; pending_timeout := pending_timeout m |}.
Definition with_actor_timeout (t : option TimeT) (m : MultiTimeout) : MultiTimeout :=
  {| timeout_queue_ := timeout_queue_ m; items_ := items_ m; actor_timeout := t; pending_timeout := pending_timeout m |}.

(** ** The scheduler *)
Definition fire (m : MultiTimeout) : MultiTimeout :=
  {| timeout_queue_ := timeout_queue_ m; items_ := items_ m; actor_timeout := None; pending_timeout := true |}.
Definition take_event (m : MultiTimeout) : MultiTimeout :=
  {| timeout_queue_ := timeout_queue_ m; items_ := items_ m; actor_timeout := actor_timeout m; pending_timeout := false |}.

(** ** The operations *)
Definition has_timeout (key : Z) (m : MultiTimeout) : bool := bool_decide (key ∈ items_ m).

Definition update_timeout (m : MultiTimeout) : Res MultiTimeout :=
  if bool_decide (items_ m = ∅) then
    CHECK! empty (timeout_queue_ m) else "timeout_queue_.empty()" in
    match actor_timeout m with
    | None => CHECK! pending_timeout m else "has_pending_timeout" in Ok m
    | Some _ => Ok (with_actor_timeout None m)
    end
  else
    let* k := top_key (timeout_queue_ m) in
    Ok (with_actor_timeout (Some k) m).

Definition set_timeout_at (key : Z) (timeout : TimeT) (m : MultiTimeout) : Res MultiTimeout :=
  let is_new := negb (bool_decide (key ∈ items_ m)) in
  let m := with_queue (timeout_queue_ m) ({[key]} ∪ items_ m) m in
  if in_heap key (timeout_queue_ m) then
    CHECK! negb is_new else "!item.second" in
    let need_update_timeout := is_top key (timeout_queue_ m) in
    let* q := fix_key 4 timeout key (timeout_queue_ m) in
    let m := with_queue q (items_ m) m in
    if need_update_timeout || is_top key q then update_timeout m else Ok m
  else
    CHECK! is_new else "item.second" in
    let* q := insert 4 timeout key (timeout_queue_ m) in
    let m := with_queue q (items_ m) m in
    if is_top key q then update_timeout m else Ok m.

Definition add_timeout_at (key : Z) (timeout : TimeT) (m : MultiTimeout) : Res MultiTimeout :=
  let is_new := negb (bool_decide (key ∈ items_ m)) in
  let m := with_queue (timeout_queue_ m) ({[key]} ∪ items_ m) m in
  if in_heap key (timeout_queue_ m) then
    CHECK! negb is_new else "!item.second" in
    Ok m
  else
    CHECK! is_new else "item.second" in
    let* q := insert 4 timeout key (timeout_queue_ m) in
    let m := with_queue q (items_ m) m in
    if is_top key q then update_timeout m else Ok m.

Definition cancel_timeout (key : Z) (m : MultiTimeout) : Res MultiTimeout :=
  if bool_decide (key ∈ items_ m) then
    CHECK! in_heap key (timeout_queue_ m) else "heap_node->in_heap()" in
    let need_update_timeout := is_top key (timeout_queue_ m) in
    let* q := erase 4 key (timeout_queue_ m) in
    let m := with_queue q (items_ m ∖ {[key]}) m in
    if need_update_timeout then update_timeout m else Ok m
  else Ok m.

Fixpoint get_expired_loop (fuel : nat) (now : TimeT) (m : MultiTimeout) : Res (list Z * MultiTimeout) :=
  if empty (timeout_queue_ m) then Ok ([], m)
  else
    let* k := top_key (timeout_queue_ m) in
    if key_ltb k now then
      match fuel with
      | O => Panic "fuel"
      | S fuel =>
          let* (key, q) := pop 4 (timeout_queue_ m) in
          let* (keys, m) := get_expired_loop fuel now (with_queue q (items_ m ∖ {[key]}) m) in
          Ok (key :: keys, m)
      end
    else Ok ([], m).
Definition get_expired_keys (now : TimeT) (m : MultiTimeout) : Res (list Z * MultiTimeout) :=
  get_expired_loop (length (array_ (timeout_queue_ m))) now m.

(** The keys for which the callback is called. *)
Definition timeout_expired (now : TimeT) (m : MultiTimeout) : Res (list Z * MultiTimeout) :=
  let* (expired_keys, m) := get_expired_keys now m in
  let* m := if negb (bool_decide (items_ m = ∅)) then update_timeout m else Ok m in
  Ok (expired_keys, m).

Definition run_all (limit : TimeT) (m : MultiTimeout) : Res (list Z * MultiTimeout) :=
  let* (expired_keys, m) := get_expired_keys limit m in
  let* m := if negb (Nat.eqb (length expired_keys) 0) then update_timeout m else Ok m in
  Ok (expired_keys, m).

(** ** Proofs *)
Lemma four : (0 < 4)%nat.
Proof. lia. Qed.

(** The timeouts, by key. *)
Definition timeouts (m : MultiTimeout) : gmap Z TimeT := contents (timeout_queue_ m).
Definition same_time (a b : TimeT) : Prop := key_le a b /\ key_le b a.

(** No timeout is lost: while there are any, the timeout of the actor is the first of them, or an event for it is on its way. *)
Definition armed (m : MultiTimeout) : Prop :=
  match actor_timeout m with
  | Some t => forall n k, least (timeouts m) n k -> same_time t k
  | None => timeouts m = ∅ \/ pending_timeout m = true
  end.

Record mt_inv (m : MultiTimeout) : Prop := {
  mt_heap : heap_inv 4 (timeout_queue_ m);
  mt_items : dom (timeouts m) = items_ m;
  mt_armed : armed m;
}.

Lemma same_time_refl k : same_time k k.
Proof. split; apply key_le_refl. Qed.

Lemma least_same (m : gmap Z TimeT) n k n' k' : least m n k -> least m n' k' -> same_time k k'.
Proof. intros [H1 H2] [H3 H4]. split; eauto. Qed.

Lemma items_empty m : mt_inv m -> items_ m = ∅ <-> timeouts m = ∅.
Proof. intros Hm. rewrite <- (mt_items m Hm). apply dom_empty_iff_L. Qed.

(** [update_timeout] is called in a state in which the timeout may be wrong. *)
Lemma update_timeout_spec m : heap_inv 4 (timeout_queue_ m) -> dom (timeouts m) = items_ m ->
  (timeouts m = ∅ -> actor_timeout m = None -> pending_timeout m = true) ->
  exists m', update_timeout m = Ok m' /\ mt_inv m' /\ timeouts m' = timeouts m /\ pending_timeout m' = pending_timeout m /\ timeout_queue_ m' = timeout_queue_ m.
Proof.
  intros Hh Hd Hp. unfold update_timeout. case_bool_decide as E.
  - assert (timeouts m = ∅) as Ht by (apply dom_empty_iff_L; congruence). rewrite (proj2 (empty_contents (timeout_queue_ m)) Ht).
    destruct (actor_timeout m) as [t|] eqn:Ea.
    + exists (with_actor_timeout None m). split_and!; try done. split; [done|done|]. unfold armed. simpl. by left.
    + rewrite Hp by done. exists m. split_and!; [done| |done|by apply Hp|done]. split; [done|done|]. unfold armed. rewrite Ea. by left.
  - assert (timeouts m <> ∅) as Ht by (intros Ht; apply E; rewrite <- Hd, Ht; apply dom_empty_L).
    destruct (top_least 4 four (timeout_queue_ m) Hh Ht) as (x & Hx & Hl). unfold top_key. rewrite (item_at_ok _ 0 x Hx). cbn [res_bind].
    exists (with_actor_timeout (Some x.1) m). split_and!; try done. split; [done|done|]. unfold armed. simpl. intros n k Hk. by eapply least_same.
Qed.

Lemma is_top_least m key k : heap_inv 4 (timeout_queue_ m) -> timeouts m !! key = Some k -> is_top key (timeout_queue_ m) = true -> least (timeouts m) key k.
Proof.
  intros Hh Hk Htop. destruct (contents_index 4 (timeout_queue_ m) key k Hh Hk) as [i Hi]. unfold is_top in Htop. zbool.
  rewrite (hi_nodes 4 _ Hh i (k, key) Hi : node_pos key (timeout_queue_ m) = _) in Htop. assert (i = 0%nat) as -> by lia.
  destruct (top_least 4 four (timeout_queue_ m) Hh) as (x & Hx & Hl); [|simplify_eq; done]. intros E. unfold timeouts in Hk. by rewrite E in Hk.
Qed.

(** A least timeout that is not the one of [key], when [key] is not on top. *)
Lemma not_top_least q key : heap_inv 4 q -> contents q <> ∅ -> is_top key q = false -> exists n k, n <> key /\ least (contents q) n k.
Proof.
  intros Hh Hne Htop. destruct (top_least 4 four q Hh Hne) as (x & Hx & Hl). exists x.2, x.1. split; [|done]. intros E. unfold is_top in Htop. zbool.
  rewrite <- E, (hi_nodes 4 _ Hh 0 x Hx) in Htop. done.
Qed.

Lemma armed_pending m : armed m -> timeouts m <> ∅ -> actor_timeout m = None -> pending_timeout m = true.
Proof. unfold armed. intros Ha Hne Hn. rewrite Hn in Ha. by destruct Ha. Qed.

(** The timeout of the actor is still right when the first timeout is at the same time. *)
Lemma armed_same m q items n k n' k' : armed m -> least (timeouts m) n k -> least (contents q) n' k' -> same_time k k' -> armed (with_queue q items m).
Proof.
  unfold armed. simpl. intros Ha Hl Hl' Hs. destruct (actor_timeout m) as [t|].
  - intros n2 k2 Hl2. destruct (Ha n k Hl) as [A1 A2]. destruct Hs as [S1 S2]. destruct (least_same _ _ _ _ _ Hl' Hl2) as [L1 L2].
    split; [apply (key_le_trans _ k _ A1), (key_le_trans _ k' _ S1 L1)|apply (key_le_trans _ k' _ L2), (key_le_trans _ k _ S2 A2)].
  - right. destruct Ha as [Ha|Ha]; [|done]. destruct Hl as [Hl _]. unfold timeouts in *. by rewrite Ha in Hl.
Qed.

(** A change of the timeout of [key] after which [key] is not on top, nor was it before. *)
Lemma armed_changed m q items key (f : gmap Z TimeT -> gmap Z TimeT) : mt_inv m -> heap_inv 4 q -> contents q = f (timeouts m) ->
  (forall n, n <> key -> f (timeouts m) !! n = timeouts m !! n) -> is_top key (timeout_queue_ m) = false -> is_top key q = false -> timeouts m <> ∅ -> contents q <> ∅ ->
  armed (with_queue q items m).
Proof.
  intros Hm Hq Hc Hf Ht1 Ht2 Hne Hne2. destruct (not_top_least (timeout_queue_ m) key (mt_heap m Hm) Hne Ht1) as (n & k & Hn & Hl).
  destruct (not_top_least q key Hq Hne2 Ht2) as (n' & k' & Hn' & Hl'). apply (armed_same m q items n k n' k'); auto; [apply Hm|].
  destruct Hl as [L1 L2], Hl' as [L3 L4]. rewrite Hc in L3. rewrite Hf in L3 by done. split; [by apply (L2 n')|]. apply (L4 n). rewrite Hc. by rewrite Hf.
Qed.

Lemma new_is_top q key k : heap_inv 4 q -> contents q = {[key := k]} -> is_top key q = true.
Proof.
  intros Hq Hc. destruct (is_top key q) eqn:E; [done|]. destruct (not_top_least q key Hq) as (n & k' & Hne & [Hn _]); [rewrite Hc; apply map_non_empty_singleton|done|].
  rewrite Hc, lookup_singleton_ne in Hn; done.
Qed.

Lemma not_in_heap m key : mt_inv m -> in_heap key (timeout_queue_ m) = bool_decide (key ∈ items_ m).
Proof. intros Hm. rewrite (in_heap_contents 4 four key _ (mt_heap m Hm)), <- (mt_items m Hm). apply bool_decide_ext. symmetry. apply elem_of_dom. Qed.

Definition mt_size (m : MultiTimeout) : Z := Z.of_nat (length (array_ (timeout_queue_ m))).

(** A new timeout, as [set_timeout_at] and [add_timeout_at] add it. *)
Lemma add_new key timeout m : mt_inv m -> key ∉ items_ m -> mt_size m + 1 < MAX_ITEMS ->
  exists m', (let* q := insert 4 timeout key (timeout_queue_ m) in
    if is_top key q then update_timeout (with_queue q ({[key]} ∪ items_ m) m) else Ok (with_queue q ({[key]} ∪ items_ m) m)) = Ok m' /\
    mt_inv m' /\ timeouts m' = <[key := timeout]> (timeouts m) /\ mt_size m' = mt_size m + 1 /\ pending_timeout m' = pending_timeout m.
Proof.
  intros Hm Hni Hl. assert (timeouts m !! key = None) as Hn by (apply not_elem_of_dom; by rewrite (mt_items m Hm)).
  destruct (heap_insert_spec 4 four timeout key (timeout_queue_ m) (mt_heap m Hm) Hn Hl) as (q & -> & Hq & Hc & Hlen). cbn [res_bind].
  assert (dom (contents q) = {[key]} ∪ items_ m) as Hd by (rewrite Hc, dom_insert_L; fold (timeouts m); by rewrite (mt_items m Hm)).
  destruct (is_top key q) eqn:Et.
  - destruct (update_timeout_spec (with_queue q ({[key]} ∪ items_ m) m)) as (m' & -> & Hm' & Ht' & Hp' & Hq'); [done|done|intros E; unfold timeouts in E; simpl in E; rewrite Hc in E; by apply insert_non_empty in E|].
    exists m'. split_and!; auto; [by rewrite Ht'|]. unfold mt_size. rewrite Hq'. simpl. lia.
  - eexists. split; [done|]. split_and!; [|done|unfold mt_size; simpl; lia|done]. split; [done|done|].
    assert (timeouts m <> ∅) as Hne by (intros E; fold (timeouts m) in Hc; rewrite E in Hc; rewrite (new_is_top q key timeout Hq Hc) in Et; done).
    apply (armed_changed m q _ key (<[key := timeout]>)); auto.
    + intros n Hne'. by rewrite lookup_insert_ne.
    + unfold is_top. rewrite (hi_others 4 _ (mt_heap m Hm)); [done|]. intros Hin. apply list_elem_of_fmap in Hin as ([k n] & -> & Hin).
      apply (contents_elem (timeout_queue_ m)) in Hin; [|apply (mt_heap m Hm)]. fold (timeouts m) in Hin. simpl in Hn. congruence.
    + rewrite Hc. apply insert_non_empty.
Qed.

Lemma set_timeout_spec key timeout m : mt_inv m -> mt_size m + 1 < MAX_ITEMS ->
  exists m', set_timeout_at key timeout m = Ok m' /\ mt_inv m' /\ timeouts m' = <[key := timeout]> (timeouts m) /\ mt_size m' <= mt_size m + 1 /\ pending_timeout m' = pending_timeout m.
Proof.
  intros Hm Hl. unfold set_timeout_at. cbn [timeout_queue_ with_queue items_]. rewrite (not_in_heap m key Hm). case_bool_decide as Ek; cbn [negb].
  - assert (is_Some (timeouts m !! key)) as [k Hk] by (apply elem_of_dom; by rewrite (mt_items m Hm)).
    destruct (fix_key_spec 4 four timeout key (timeout_queue_ m) k (mt_heap m Hm) Hk) as (q & -> & Hq & Hc & Hlen). cbn [res_bind]. fold (timeouts m) in Hc.
    assert (dom (contents q) = {[key]} ∪ items_ m) as Hd by (rewrite Hc, dom_insert_L; by rewrite (mt_items m Hm)).
    assert (contents q <> ∅) as Hne by (rewrite Hc; apply insert_non_empty). set (m1 := with_queue q _ _).
    destruct (is_top key (timeout_queue_ m) || is_top key q) eqn:Et.
    + destruct (update_timeout_spec m1) as (m' & -> & Hm' & Ht' & Hp' & Hq'); [done|done|done|].
      exists m'. split_and!; auto; [by rewrite Ht'|]. unfold mt_size. rewrite Hq'. simpl. lia.
    + apply orb_false_elim in Et as [Et1 Et2]. exists m1. split_and!; [done| |done|unfold mt_size; simpl; lia|done]. split; [done|done|].
      apply (armed_changed m q _ key (<[key := timeout]>)); auto; [intros; by rewrite lookup_insert_ne|]. intros E. by rewrite E in Hk.
  - destruct (add_new key timeout m Hm Ek Hl) as (m' & E & ? & ? & ? & ?). exists m'. split_and!; auto. lia.
Qed.

Lemma add_timeout_spec key timeout m : mt_inv m -> mt_size m + 1 < MAX_ITEMS ->
  exists m', add_timeout_at key timeout m = Ok m' /\ mt_inv m' /\ timeouts m' = (if bool_decide (key ∈ dom (timeouts m)) then timeouts m else <[key := timeout]> (timeouts m)) /\
    mt_size m' <= mt_size m + 1 /\ pending_timeout m' = pending_timeout m.
Proof.
  intros Hm Hl. unfold add_timeout_at. cbn [timeout_queue_ with_queue items_]. rewrite (not_in_heap m key Hm), (mt_items m Hm). case_bool_decide as Ek; cbn [negb].
  - eexists. split; [done|]. split_and!; [|done|unfold mt_size; simpl; lia|done]. destruct Hm as [H1 H2 H3]. split; [done| |done]. simpl. unfold timeouts in *. simpl. rewrite H2. set_solver.
  - destruct (add_new key timeout m Hm Ek Hl) as (m' & E & ? & ? & ? & ?). exists m'. split_and!; auto. lia.
Qed.

Lemma cancel_timeout_spec key m : mt_inv m ->
  exists m', cancel_timeout key m = Ok m' /\ mt_inv m' /\ timeouts m' = delete key (timeouts m) /\ mt_size m' <= mt_size m /\ pending_timeout m' = pending_timeout m.
Proof.
  intros Hm. unfold cancel_timeout. case_bool_decide as Ek.
  - rewrite (not_in_heap m key Hm), bool_decide_true by done. assert (is_Some (timeouts m !! key)) as [k Hk] by (apply elem_of_dom; by rewrite (mt_items m Hm)).
    destruct (heap_erase_spec 4 four key (timeout_queue_ m) k (mt_heap m Hm) Hk) as (q & -> & Hq & Hc & Hlen). cbn [res_bind]. fold (timeouts m) in Hc.
    assert (dom (contents q) = items_ m ∖ {[key]}) as Hd by (rewrite Hc, dom_delete_L; by rewrite (mt_items m Hm)).
    assert (timeouts m <> ∅) as Hne by (intros E; by rewrite E in Hk). set (m1 := with_queue q _ _).
    destruct (is_top key (timeout_queue_ m)) eqn:Et.
    + destruct (update_timeout_spec m1) as (m' & -> & Hm' & Ht' & Hp' & Hq'); [done|done|intros _; simpl; by apply armed_pending; [apply Hm|]|].
      exists m'. split_and!; auto; [by rewrite Ht'|]. unfold mt_size. rewrite Hq'. simpl. lia.
    + exists m1. split_and!; [done| |done|unfold mt_size; simpl; lia|done]. split; [done|done|].
      destruct (not_top_least (timeout_queue_ m) key (mt_heap m Hm) Hne Et) as (n & k' & Hn & [L1 L2]). fold (timeouts m) in L1.
      assert (contents q !! n = Some k') as Hqn by (rewrite Hc; by rewrite lookup_delete_ne).
      apply (armed_same m q _ n k' n k'); [apply Hm|by split| |apply same_time_refl]. split; [done|]. intros n2 k2 H2. rewrite Hc in H2. apply lookup_delete_Some in H2 as [_ H2]. by apply (L2 n2).
  - exists m. split_and!; auto; [|lia]. rewrite delete_id; [done|]. apply not_elem_of_dom. by rewrite (mt_items m Hm).
Qed.

(** ** Expiration *)
Lemma earlier a b now : key_le a b -> key_ltb b now = true -> key_ltb a now = true.
Proof. intros Hle Hb. destruct (key_ltb a now) eqn:E; [done|]. pose proof (key_le_trans now a b E Hle) as H2. unfold key_le in H2. congruence. Qed.

(** The keys of the timeouts before [now], in the order of their times, each once; the others stay. *)
Record expired (now : TimeT) (m : gmap Z TimeT) (keys : list Z) (m' : gmap Z TimeT) : Prop := {
  ex_times : exists times, Forall2 (fun key t => m !! key = Some t /\ key_ltb t now = true) keys times /\ StronglySorted key_le times;
  ex_nodup : NoDup keys;
  ex_all key t : m !! key = Some t -> key_ltb t now = true -> key ∈ keys;
  ex_rest : m' = filter (fun kv => key_ltb kv.2 now = false) m;
}.

Lemma expired_none now (m : gmap Z TimeT) : (forall key t, m !! key = Some t -> key_ltb t now = false) -> expired now m [] m.
Proof.
  intros Hn. split; [by exists []; split; constructor|constructor|intros key t Hk Ht; rewrite (Hn key t Hk) in Ht; done|].
  symmetry. apply map_filter_id. intros key t Hk. simpl. by apply (Hn key).
Qed.

Lemma expired_cons now (m m' : gmap Z TimeT) n k keys : least m n k -> key_ltb k now = true -> expired now (delete n m) keys m' -> expired now m (n :: keys) m'.
Proof.
  intros [Hn Hmin] Hk [(times & Ht & Hs) Hnd Hall Hrest]. assert (n ∉ keys) as Hni.
  { intros Hin. apply list_elem_of_lookup in Hin as [i Hi]. destruct (Forall2_lookup_l _ _ _ _ _ Ht Hi) as (t & _ & Hd & _). by rewrite lookup_delete_eq in Hd. }
  split.
  - exists (k :: times). split.
    + constructor; [done|]. eapply Forall2_impl; [exact Ht|]. intros key t [Hd Hlt]. apply lookup_delete_Some in Hd as [_ Hd]. done.
    + constructor; [done|]. apply Forall_forall. intros t Hin. apply list_elem_of_lookup in Hin as [i Hi].
      destruct (Forall2_lookup_r _ _ _ _ _ Ht Hi) as (key & _ & Hd & _). apply lookup_delete_Some in Hd as [_ Hd]. by apply (Hmin key).
  - by constructor.
  - intros key t Hkey Hlt. destruct (decide (key = n)) as [->|Hne]; [left|right]. apply (Hall key t); [by rewrite lookup_delete_ne|done].
  - rewrite Hrest. apply map_eq. intros key. apply option_eq. intros t. rewrite !map_lookup_filter_Some, lookup_delete_Some. simpl. split; [tauto|].
    intros [H1 H2]. split_and!; auto. intros <-. congruence.
Qed.

Lemma get_expired_spec now fuel m : heap_inv 4 (timeout_queue_ m) -> dom (timeouts m) = items_ m -> (length (array_ (timeout_queue_ m)) <= fuel)%nat ->
  exists keys q items, get_expired_loop fuel now m = Ok (keys, with_queue q items m) /\ heap_inv 4 q /\ dom (contents q) = items /\
    expired now (timeouts m) keys (contents q) /\ (length (array_ q) <= length (array_ (timeout_queue_ m)))%nat.
Proof.
  revert m. induction fuel as [|fuel IH]; intros m Hh Hd Hf; cbn [get_expired_loop]; (destruct (empty (timeout_queue_ m)) eqn:Ee;
    [exists [], (timeout_queue_ m), (items_ m); split_and!; auto; [by destruct m|apply empty_contents in Ee; unfold timeouts; rewrite Ee; by apply expired_none]|]).
  { unfold empty in Ee. zbool. lia. }
  assert (timeouts m <> ∅) as Hne by (intros E; apply empty_contents in E; congruence).
  destruct (top_least 4 four (timeout_queue_ m) Hh Hne) as (x & Hx & Hl). unfold top_key. rewrite (item_at_ok _ 0 x Hx). cbn [res_bind].
  destruct (key_ltb x.1 now) eqn:Ek.
  - destruct (pop_spec 4 four (timeout_queue_ m) Hh Hne) as (n & k & q & -> & Hlk & Hq & Hc & Hlen). cbn [res_bind]. fold (timeouts m) in *.
    assert (key_ltb k now = true) as Hkn by (eapply earlier; [|exact Ek]; by destruct (least_same _ _ _ _ _ Hlk Hl)).
    assert (0 < length (array_ (timeout_queue_ m)))%nat by (unfold empty in Ee; zbool; lia).
    destruct (IH (with_queue q (items_ m ∖ {[n]}) m)) as (keys & q' & items' & -> & Hq' & Hd' & He & Hl'); [done|unfold timeouts; simpl; rewrite Hc, dom_delete_L; by rewrite Hd|simpl; lia|].
    cbn [res_bind]. exists (n :: keys), q', items'. split_and!; auto; [|simpl in Hl'; lia]. apply (expired_cons now _ _ n k); auto. unfold timeouts in He at 1. simpl in He. by rewrite Hc in He.
  - exists [], (timeout_queue_ m), (items_ m). split_and!; auto; [by destruct m|]. apply expired_none. intros key t Hk. destruct Hl as [_ Hmin].
    exact (key_le_trans now x.1 t Ek (Hmin key t Hk)).
Qed.

Lemma timeout_expired_spec now m : mt_inv m ->
  exists keys m', timeout_expired now (take_event m) = Ok (keys, m') /\ mt_inv m' /\ expired now (timeouts m) keys (timeouts m') /\ mt_size m' <= mt_size m.
Proof.
  intros Hm. unfold timeout_expired, get_expired_keys.
  destruct (get_expired_spec now (length (array_ (timeout_queue_ m))) (take_event m)) as (keys & q & items & E & Hq & Hd & He & Hl); [apply Hm|apply (mt_items m Hm)|done|].
  change (timeout_queue_ (take_event m)) with (timeout_queue_ m). rewrite E. cbn [res_bind]. set (m1 := with_queue q items (take_event m)).
  change (items_ m1) with items. case_bool_decide as Ei; cbn [negb res_bind].
  - assert (timeouts m1 = ∅) as Ht by (apply dom_empty_iff_L; by rewrite <- Ei). exists keys, m1. split; [done|]. split; [|split; [done|unfold mt_size; simpl in *; lia]]. split; [done|done|].
    unfold armed. destruct (actor_timeout m1); [|by left]. intros n k [Hn _]. by rewrite Ht in Hn.
  - destruct (update_timeout_spec m1) as (m' & -> & Hm' & Ht' & Hp' & Hq'); [done|done| |].
    { intros Ht. destruct Ei. rewrite <- Hd. unfold timeouts in Ht. simpl in Ht. by rewrite Ht, dom_empty_L. }
    cbn [res_bind]. exists keys, m'. split; [done|]. split; [done|]. split; [by rewrite Ht'|]. unfold mt_size. rewrite Hq'. simpl in *. lia.
Qed.

Lemma run_all_spec limit m : mt_inv m ->
  exists keys m', run_all limit m = Ok (keys, m') /\ mt_inv m' /\ expired limit (timeouts m) keys (timeouts m') /\ mt_size m' <= mt_size m.
Proof.
  intros Hm. unfold run_all, get_expired_keys.
  destruct (get_expired_spec limit (length (array_ (timeout_queue_ m))) m) as (keys & q & items & -> & Hq & Hd & He & Hl); [apply Hm|apply Hm|done|].
  cbn [res_bind]. set (m1 := with_queue q items m). destruct keys as [|n keys]; cbn [length Nat.eqb negb res_bind].
  - exists [], m1. split; [done|]. split; [|split; [done|unfold mt_size; simpl; lia]].
    assert (contents q = timeouts m) as Hc.
    { rewrite (ex_rest _ _ _ _ He). apply map_filter_id. intros key t Hk. simpl. destruct (key_ltb t limit) eqn:E; [|done]. by apply (ex_all _ _ _ _ He key t Hk), elem_of_nil in E. }
    split; [done|done|]. pose proof (mt_armed m Hm) as Ha. unfold armed, timeouts in *. simpl. by rewrite Hc.
  - destruct (update_timeout_spec m1) as (m' & -> & Hm' & Ht' & Hp' & Hq'); [done|done| |].
    { intros _. simpl. apply armed_pending; [apply Hm|]. intros E. destruct (ex_times _ _ _ _ He) as (times & Hf & _). inversion Hf as [|? ? ? ? [Hn _]]; subst. by rewrite E in Hn. }
    cbn [res_bind]. exists (n :: keys), m'. split; [done|]. split; [done|]. split; [by rewrite Ht'|]. unfold mt_size. rewrite Hq'. simpl. lia.
Qed.

(** ** Sequences of operations and events *)
Inductive mt_op :=
| MSet (key : Z) (t : TimeT)
| MAdd (key : Z) (t : TimeT)
| MCancel (key : Z)
| MRunAll (limit : TimeT)
| MFire                       (* the scheduler, if the actor has a timeout *)
| MExpired (now : TimeT).     (* the event, if it is in the mailbox *)

Definition mt_step (o : mt_op) (m : MultiTimeout) : Res (option (list Z) * MultiTimeout) :=
  match o with
  | MSet key t => let* m := set_timeout_at key t m in Ok (None, m)
  | MAdd key t => let* m := add_timeout_at key t m in Ok (None, m)
  | MCancel key => let* m := cancel_timeout key m in Ok (None, m)
  | MRunAll limit => let* (keys, m) := run_all limit m in Ok (Some keys, m)
  | MFire => Ok (None, match actor_timeout m with Some _ => fire m | None => m end)
  | MExpired now => if pending_timeout m then let* (keys, m) := timeout_expired now (take_event m) in Ok (Some keys, m) else Ok (None, m)
  end.

Fixpoint mt_run (os : list mt_op) (m : MultiTimeout) : Res (list (option (list Z)) * MultiTimeout) :=
  match os with
  | [] => Ok ([], m)
  | o :: os => let* (r, m) := mt_step o m in let* (rs, m) := mt_run os m in Ok (r :: rs, m)
  end.

Definition mt_spec (o : mt_op) (m : gmap Z TimeT) (r : option (list Z)) (m' : gmap Z TimeT) : Prop :=
  match o with
  | MSet key t => r = None /\ m' = <[key := t]> m
  | MAdd key t => r = None /\ m' = if bool_decide (key ∈ dom m) then m else <[key := t]> m
  | MCancel key => r = None /\ m' = delete key m
  | MRunAll limit => exists keys, r = Some keys /\ expired limit m keys m'
  | MFire => r = None /\ m' = m
  | MExpired now => (r = None /\ m' = m) \/ exists keys, r = Some keys /\ expired now m keys m'
  end.
Inductive mt_specs : list mt_op -> gmap Z TimeT -> list (option (list Z)) -> gmap Z TimeT -> Prop :=
| mts_nil m : mt_specs [] m [] m
| mts_cons o os m r m' rs m2 : mt_spec o m r m' -> mt_specs os m' rs m2 -> mt_specs (o :: os) m (r :: rs) m2.

Lemma mt_step_ok o m : mt_inv m -> mt_size m + 1 < MAX_ITEMS ->
  exists r m', mt_step o m = Ok (r, m') /\ mt_inv m' /\ mt_spec o (timeouts m) r (timeouts m') /\ mt_size m' <= mt_size m + 1.
Proof.
  intros Hm Hl. destruct o as [key t|key t|key|limit| |now]; cbn [mt_step mt_spec].
  - destruct (set_timeout_spec key t m Hm Hl) as (m' & -> & ? & ? & ? & ?). cbn [res_bind]. by exists None, m'.
  - destruct (add_timeout_spec key t m Hm Hl) as (m' & -> & ? & ? & ? & ?). cbn [res_bind]. by exists None, m'.
  - destruct (cancel_timeout_spec key m Hm) as (m' & -> & ? & ? & ? & ?). cbn [res_bind]. exists None, m'. split_and!; auto. lia.
  - destruct (run_all_spec limit m Hm) as (keys & m' & -> & ? & ? & ?). cbn [res_bind]. exists (Some keys), m'. split_and!; eauto. lia.
  - eexists None, _. split; [done|]. destruct (actor_timeout m) as [t|]; [|split_and!; auto; lia]. split_and!; [|done|done|unfold mt_size; simpl; lia].
    destruct Hm as [H1 H2 _]. split; [done|done|]. unfold armed. simpl. by right.
  - destruct (pending_timeout m) eqn:E.
    + destruct (timeout_expired_spec now m Hm) as (keys & m' & -> & ? & ? & ?). cbn [res_bind]. exists (Some keys), m'. split_and!; eauto. lia.
    + exists None, m. split_and!; auto. lia.
Qed.

(** C15. Timeouts are neither lost nor called too early: in every sequence of
    operations and of events from the scheduler no check fails (in particular the
    one in [update_timeout] that the scheduler still knows of the actor), an
    expiration calls back exactly the keys whose time is over, in the order of
    their times and each once, and the others stay as they were set; and as long
    as there are timeouts, the scheduler has a timeout for the first of them or
    its event is in the mailbox. *)
Theorem multi_timeout_exact os m : mt_inv m -> mt_size m + Z.of_nat (length os) < MAX_ITEMS ->
  exists rs m', mt_run os m = Ok (rs, m') /\ mt_specs os (timeouts m) rs (timeouts m') /\ mt_inv m'.
Proof.
  revert m. induction os as [|o os IH]; intros m Hm Hl; cbn [mt_run length] in *; [exists [], m; split_and!; auto; constructor|].
  destruct (mt_step_ok o m Hm) as (r & m1 & -> & Hm1 & Hs & Hz); [lia|]. cbn [res_bind]. destruct (IH m1 Hm1) as (rs & m' & -> & Hss & Hm'); [lia|]. cbn [res_bind].
  exists (r :: rs), m'. split_and!; auto. by econstructor.
Qed.

Lemma new_timeouts_inv : mt_inv new_timeouts.
Proof. split; [apply new_heap_inv|done|by left]. Qed.
End multi_timeout.

(** ** Three timeouts, one of them moved before it expires *)
Definition test_timeout_ops : list (@mt_op Z) :=
  [MSet 7 30; MAdd 8 20; MAdd 7 10; MSet 9 50; MFire; MSet 9 25; MExpired 28; MCancel 7; MExpired 99; MAdd 5 1; MRunAll 1000].

Lemma multi_timeout_exact_witness : exists rs m', mt_run test_timeout_ops new_timeouts = Ok (rs, m') /\
  mt_specs test_timeout_ops (timeouts (@new_timeouts Z)) rs (timeouts m') /\ mt_inv m'.
Proof. apply (multi_timeout_exact test_timeout_ops new_timeouts new_timeouts_inv). vm_compute. reflexivity. Defined.

Example test_timeout_results :
  match mt_run test_timeout_ops new_timeouts with Ok (rs, m) => (rs, actor_timeout m) | _ => ([], None) end =
  ([None; None; None; None; None; None; Some [8; 9]; None; None; None; Some [5]], None).
Proof. vm_compute. reflexivity. Qed.
