(* ===== verification/Container.v ===== *)
(** * Slots with identifiers

    [Container] (tdutils/td/utils/Container.h): objects in a vector of slots that are used
    again, reached through identifiers that say the slot and the generation of its contents,
    so that an identifier of an erased object does not reach its successor.

    [container_refines] shows that a container is a map from the identifiers it gave out
    since it was cleared to objects: identifiers are not given twice and are not 0, and those
    of erased objects reach nothing.  A slot that runs out of generations is not used again;
    [ids] and [size] go on to count it.  [reset_id] has no test for the last generation: the
    theorem also says what becomes of an identifier that has it. *)
From S2P Require Import Prelude.
Local Open Scope td_scope.

Section container.
Context {DataT : Type} (DataT0 : DataT).

Record Slot := { generation : Z; data : DataT }.
Record Container := { slots_ : list Slot; empty_slots_ : list Z }.

Definition new_container : Container := {| slots_ := []; empty_slots_ := [] |}.

Definition GENERATION_STEP : Z := Z.shiftl 1 8.
Definition TYPE_MASK : Z := Z.shiftl 1 8 - 1.

Definition with_slot (pos : nat) (s : Slot) (c : Container) : Container :=
  {| slots_ := <[pos := s]> (slots_ c); empty_slots_ := empty_slots_ c |}.

Definition encode_id (id : Z) (c : Container) : Res Z :=
  match slots_ c !! Z.to_nat id with
  | Some s => Ok (Z.lor (u64 (Z.shiftl (u64 id) 32)) (generation s))
  | None => Panic "slots_[id]"
  end.

Definition decode_id (id : Z) (c : Container) : Z :=
  let slot_id := s32 (Z.shiftr id 32) in
  let gen := u32 id in
  if (slot_id <? 0) || (s32 (Z.of_nat (length (slots_ c))) <=? slot_id) then -1
  else
    match slots_ c !! Z.to_nat slot_id with
    | Some s => if negb (gen =? generation s) then -1 else slot_id
    | None => -1
    end.

Definition inc_generation (id : Z) (c : Container) : Res Container :=
  match slots_ c !! Z.to_nat id with
  | Some s => Ok (with_slot (Z.to_nat id) {| generation := u32 (generation s + GENERATION_STEP); data := data s |} c)
  | None => Panic "slots_[id]"
  end.

Definition store (d : DataT) (type : Z) (c : Container) : Res (Z * Container) :=
  match last (empty_slots_ c) with
  | Some pos =>
      match slots_ c !! Z.to_nat pos with
      | Some s =>
          let gen := Z.lxor (generation s) (Z.lxor (Z.land (generation s) TYPE_MASK) type) in
          Ok (pos, {| slots_ := <[Z.to_nat pos := {| generation := gen; data := d |}]> (slots_ c);
                      empty_slots_ := removelast (empty_slots_ c) |})
      | None => Panic "slots_[pos]"
      end
  | None =>
      CHECK! Z.of_nat (length (slots_ c)) <=? 2 ^ 31 - 1 else "slots_.size() <= numeric_limits<int32>::max()" in
      Ok (s32 (Z.of_nat (length (slots_ c))),
          {| slots_ := slots_ c ++ [{| generation := GENERATION_STEP + type; data := d |}];
             empty_slots_ := empty_slots_ c |})
  end.

Definition release (id : Z) (c : Container) : Res Container :=
  let* c := inc_generation id c in
  match slots_ c !! Z.to_nat id with
  | Some s =>
      let c := with_slot (Z.to_nat id) {| generation := generation s; data := DataT0 |} c in
      if negb (Z.land (generation s) (u32 (Z.lnot TYPE_MASK)) =? 0) then
        Ok {| slots_ := slots_ c; empty_slots_ := empty_slots_ c ++ [id] |}
      else Ok c
  | None => Panic "slots_[id]"
  end.

Definition get (id : Z) (c : Container) : option DataT :=
  let slot_id := decode_id id c in
  if slot_id =? -1 then None
  else data <$> slots_ c !! Z.to_nat slot_id.

(** An assignment through the pointer that [get] returns. *)
Definition update (id : Z) (f : DataT -> DataT) (c : Container) : Res Container :=
  let slot_id := decode_id id c in
  if slot_id =? -1 then Panic "nullptr"
  else
    match slots_ c !! Z.to_nat slot_id with
    | Some s => Ok (with_slot (Z.to_nat slot_id) {| generation := generation s; data := f (data s) |} c)
    | None => Panic "slots_[slot_id]"
    end.

Definition erase (id : Z) (c : Container) : Res Container :=
  let slot_id := decode_id id c in
  if slot_id =? -1 then Ok c else release slot_id c.

Definition extract (id : Z) (c : Container) : Res (DataT * Container) :=
  let slot_id := decode_id id c in
  CHECK! negb (slot_id =? -1) else "slot_id != -1" in
  match slots_ c !! Z.to_nat slot_id with
  | Some s => let* c := release slot_id c in Ok (data s, c)
  | None => Panic "slots_[slot_id]"
  end.

Definition create (d : DataT) (type : Z) (c : Container) : Res (Z * Container) :=
  let* (pos, c) := store d type c in
  let* id := encode_id pos c in
  Ok (id, c).

Definition reset_id (id : Z) (c : Container) : Res (Z * Container) :=
  let slot_id := decode_id id c in
  CHECK! negb (slot_id =? -1) else "slot_id != -1" in
  let* c := inc_generation slot_id c in
  let* id := encode_id slot_id c in
  Ok (id, c).

Definition type_from_id (id : Z) : Z := u8 id.

(** [is_bad] of the slot [i] is whether [i] is in [empty_slots_]. *)
Fixpoint ids_from (i : nat) (ss : list Slot) (c : Container) : Res (list Z) :=
  match ss with
  | [] => Ok []
  | _ :: ss =>
      let* rest := ids_from (S i) ss c in
      if bool_decide (Z.of_nat i ∈ empty_slots_ c) then Ok rest
      else let* id := encode_id (s32 (Z.of_nat i)) c in Ok (id :: rest)
  end.
Definition ids (c : Container) : Res (list Z) := ids_from 0 (slots_ c) c.

Definition size (c : Container) : Res Z :=
  CHECK! Nat.leb (length (empty_slots_ c)) (length (slots_ c)) else "empty_slots_.size() <= slots_.size()" in
  Ok (Z.of_nat (length (slots_ c) - length (empty_slots_ c))).

Definition empty (c : Container) : Res bool := let* n := size c in Ok (n =? 0).
Definition clear (c : Container) : Container := new_container.

(** ** The specification: a map from identifiers to objects

    [issued] are the identifiers given out since the container was cleared, [retired] the number of slots that ran
    out of generations. *)
Record objects := { live : gmap Z DataT; issued : gset Z; retired : nat }.

Definition no_objects : objects := {| live := ∅; issued := ∅; retired := 0 |}.

Inductive op :=
| Create (d : DataT) (type : Z)
| Update (id : Z) (f : DataT -> DataT)
| Erase (id : Z)
| Extract (id : Z)
| ResetId (id : Z)
| Get (id : Z)
| Ids
| Size
| Clear.

Inductive output :=
| OUnit
| OId (id : Z)
| OData (d : option DataT)
| OIds (l : list Z)
| OSize (n : Z).

Definition do_op (o : op) (c : Container) : Res (output * Container) :=
  match o with
  | Create d type => let* (id, c) := create d type c in Ok (OId id, c)
  | Update id f => let* c := update id f c in Ok (OUnit, c)
  | Erase id => let* c := erase id c in Ok (OUnit, c)
  | Extract id => let* (d, c) := extract id c in Ok (OData (Some d), c)
  | ResetId id => let* (id, c) := reset_id id c in Ok (OId id, c)
  | Get id => Ok (OData (get id c), c)
  | Ids => let* l := ids c in Ok (OIds l, c)
  | Size => let* n := size c in Ok (OSize n, c)
  | Clear => Ok (OUnit, clear c)
  end.

(** Whether [id] has the last generation of its slot. *)
Definition last_generation (id : Z) : bool := 2 ^ 32 - 256 <=? id mod 2 ^ 32.

(** A client uses identifiers that it was given since it cleared the container, and does not
    reset one that has the last generation of its slot. *)
Definition allowed (o : op) (a : objects) : Prop :=
  match o with
  | Create _ type => 0 <= type < 256 /\ Z.of_nat (base.size (live a) + retired a) < 2 ^ 31 - 1
  | Update id _ | Extract id => is_Some (live a !! id)
  | ResetId id => is_Some (live a !! id) /\ last_generation id = false
  | Erase id | Get id => id ∈ issued a
  | Ids | Size | Clear => True
  end.

Definition remove (id : Z) (a : objects) : objects :=
  {| live := delete id (live a); issued := issued a;
     retired := if bool_decide (is_Some (live a !! id)) && last_generation id then S (retired a) else retired a |}.

Definition objects_after (o : op) (out : output) (a : objects) : objects :=
  match o, out with
  | Create d _, OId id => {| live := <[id := d]> (live a); issued := {[id]} ∪ issued a; retired := retired a |}
  | Update id f, _ => {| live := alter f id (live a); issued := issued a; retired := retired a |}
  | Erase id, _ | Extract id, _ => remove id a
  | ResetId id, OId id' =>
      match live a !! id with
      | Some d => {| live := <[id' := d]> (delete id (live a)); issued := {[id']} ∪ issued a; retired := retired a |}
      | None => a
      end
  | Clear, _ => no_objects
  | _, _ => a
  end.

Definition fresh (id : Z) (a : objects) : Prop := id ∉ issued a /\ id <> 0.

Definition expected (o : op) (out : output) (a : objects) : Prop :=
  match o, out with
  | Create _ type, OId id => fresh id a /\ type_from_id id = type
  | ResetId id, OId id' => fresh id' a /\ type_from_id id' = type_from_id id
  | Extract id, OData d | Get id, OData d => d = live a !! id
  | Ids, OIds l => NoDup l /\ (forall id, 256 <= id mod 2 ^ 32 -> id ∈ l <-> is_Some (live a !! id)) /\
      (retired a = 0%nat -> forall id, id ∈ l -> is_Some (live a !! id))
  | Size, OSize n => n = Z.of_nat (base.size (live a) + retired a)
  | Update _ _, OUnit | Erase _, OUnit | Clear, OUnit => True
  | _, _ => False
  end.

Inductive reachable : Container -> objects -> Prop :=
| reach_new : reachable new_container no_objects
| reach_op o out c c' a :
    reachable c a -> allowed o a -> do_op o c = Ok (out, c') -> reachable c' (objects_after o out a).

End container.

(** ** Identifiers as numbers *)
Lemma encode_value i g : 0 <= i < 2 ^ 31 -> 0 <= g < 2 ^ 32 ->
  Z.lor (u64 (Z.shiftl (u64 i) 32)) g = i * 2 ^ 32 + g.
Proof.
  intros Hi Hg. rewrite (u64_small i) by (unfold is_u64; lia). rewrite Z.shiftl_mul_pow2 by lia.
  rewrite u64_small by (unfold is_u64; lia). by apply lor_disjoint_add.
Qed.

Lemma type_value g t : 0 <= g -> 0 <= t < 256 -> Z.lxor g (Z.lxor (Z.land g TYPE_MASK) t) = g / 256 * 256 + t.
Proof.
  intros Hg Ht. change TYPE_MASK with (Z.ones 8). rewrite Z.land_ones by lia. change (2 ^ 8) with 256.
  rewrite <- Z.lxor_assoc.
  replace (Z.lxor g (g mod 256)) with (g / 256 * 2 ^ 8).
  - rewrite Z.lxor_lor; [by apply lor_disjoint_add|].
    apply Z.bits_inj'. intros i Hi. rewrite Z.land_spec, Z.bits_0. destruct (decide (i < 8)).
    + by rewrite Z.mul_pow2_bits_low by lia.
    + rewrite (testbit_small t 8 i) by lia. apply andb_false_r.
  - apply Z.bits_inj'. intros i Hi. rewrite Z.lxor_spec. change 256 with (2 ^ 8). destruct (decide (i < 8)).
    + rewrite Z.mul_pow2_bits_low, Z.mod_pow2_bits_low by lia. by rewrite xorb_nilpotent.
    + rewrite Z.mul_pow2_bits, Z.div_pow2_bits, Z.mod_pow2_bits_high by lia. rewrite xorb_false_r. f_equal. lia.
Qed.

Lemma generation_left g : 0 <= g < 2 ^ 32 -> (Z.land g (u32 (Z.lnot TYPE_MASK)) =? 0) = (g <? 256).
Proof.
  intros Hg. replace (Z.land g (u32 (Z.lnot TYPE_MASK))) with (g / 256 * 256).
  - apply Bool.eq_iff_eq_true. rewrite Z.eqb_eq, Z.ltb_lt. zlia.
  - apply Z.bits_inj'. intros i Hi. rewrite Z.land_spec. unfold u32. change TYPE_MASK with (Z.ones 8). change 256 with (2 ^ 8).
    destruct (decide (i < 8)).
    + rewrite Z.mul_pow2_bits_low, Z.mod_pow2_bits_low, Z.lnot_spec, Z.ones_spec_low by lia. by rewrite andb_false_r.
    + rewrite Z.mul_pow2_bits, Z.div_pow2_bits by lia. replace (i - 8 + 8) with i by lia. destruct (decide (i < 32)).
      * rewrite Z.mod_pow2_bits_low, Z.lnot_spec, Z.ones_spec_high by lia. by rewrite andb_true_r.
      * by rewrite (testbit_small g 32 i) by lia.
Qed.

Lemma type_from_value i g : 0 <= g -> type_from_id (i * 2 ^ 32 + g) = g mod 256.
Proof. intros Hg. unfold type_from_id, u8. change (2 ^ 8) with 256. zlia. Qed.

Section proofs.
Context {DataT : Type} (DataT0 : DataT).
Implicit Types (c : Container (DataT := DataT)) (a : objects (DataT := DataT)).

(** The identifier of a slot. *)
Definition slot_id (i : nat) (s : Slot (DataT := DataT)) : Z := Z.of_nat i * 2 ^ 32 + generation s.

(** The slot [i] holds an object. *)
Definition holds c (i : nat) (s : Slot (DataT := DataT)) : Prop :=
  slots_ c !! i = Some s /\ Z.of_nat i ∉ empty_slots_ c /\ 256 <= generation s.

Record rep c a : Prop := {
  rep_bound : Z.of_nat (length (slots_ c)) <= 2 ^ 31 - 1;
  rep_gen i s : slots_ c !! i = Some s -> 0 <= generation s < 2 ^ 32;
  rep_nodup : NoDup (empty_slots_ c);
  rep_empty z : z ∈ empty_slots_ c -> exists i s, z = Z.of_nat i /\ slots_ c !! i = Some s /\ 256 <= generation s;
  rep_live id d : live a !! id = Some d <-> exists i s, holds c i s /\ id = slot_id i s /\ d = data s;
  rep_issued id : id ∈ issued a -> exists i s, slots_ c !! i = Some s /\
    id / 2 ^ 32 = Z.of_nat i /\ 256 <= id mod 2 ^ 32 /\
    (256 <= generation s -> id mod 2 ^ 32 / 256 < generation s / 256 \/ (holds c i s /\ id = slot_id i s));
  rep_known id : is_Some (live a !! id) -> id ∈ issued a;
  rep_count : (base.size (live a) + retired a + length (empty_slots_ c) = length (slots_ c))%nat;
  rep_retired : retired a = 0%nat -> forall i s, slots_ c !! i = Some s -> 256 <= generation s;
}.

Lemma slot_id_parts i (s : Slot (DataT := DataT)) : 0 <= generation s < 2 ^ 32 ->
  slot_id i s / 2 ^ 32 = Z.of_nat i /\ slot_id i s mod 2 ^ 32 = generation s.
Proof. intros H. unfold slot_id. split; zlia. Qed.

Lemma rep_index c a i s : rep c a -> slots_ c !! i = Some s -> Z.of_nat i < 2 ^ 31 - 1.
Proof. intros Hr Hi. apply lookup_lt_Some in Hi. pose proof (rep_bound _ _ Hr). lia. Qed.

Lemma encode_spec c a i s : rep c a -> slots_ c !! i = Some s -> encode_id (Z.of_nat i) c = Ok (slot_id i s).
Proof.
  intros Hr Hi. unfold encode_id. rewrite Nat2Z.id, Hi. f_equal. pose proof (rep_index _ _ _ _ Hr Hi).
  apply encode_value; [lia | by eapply rep_gen].
Qed.

(** [decode_id] finds the slot of an identifier that has its generation. *)
Lemma decode_id_spec (c : Container (DataT := DataT)) id : Z.of_nat (length (slots_ c)) <= 2 ^ 31 - 1 -> 0 <= id < 2 ^ 63 ->
  decode_id id c = match slots_ c !! Z.to_nat (id / 2 ^ 32) with
                   | Some s => if id mod 2 ^ 32 =? generation s then id / 2 ^ 32 else -1
                   | None => -1
                   end.
Proof.
  intros Hlen Hid. unfold decode_id. rewrite Z.shiftr_div_pow2 by lia.
  assert (0 <= id / 2 ^ 32 < 2 ^ 31) as Hq by zlia. rewrite s32_small by (unfold is_s32; lia).
  rewrite (s32_small (Z.of_nat _)) by (unfold is_s32; lia).
  rewrite (proj2 (Z.ltb_ge _ _)) by lia. simpl. unfold u32.
  destruct (slots_ c !! Z.to_nat (id / 2 ^ 32)) as [s|] eqn:Hs.
  - apply lookup_lt_Some in Hs. rewrite (proj2 (Z.leb_gt _ _)) by lia. by destruct (_ =? _).
  - by destruct (_ <=? _).
Qed.

(** An identifier of an object is decoded to its slot. *)
Lemma decode_live c a id d : rep c a -> live a !! id = Some d ->
  exists i s, holds c i s /\ id = slot_id i s /\ d = data s /\ decode_id id c = Z.of_nat i.
Proof.
  intros Hr Hl. apply (rep_live _ _ Hr) in Hl as (i & s & Hh & -> & ->). exists i, s. split_and!; [done..|].
  destruct Hh as (Hi & _ & Hg). pose proof (rep_gen _ _ Hr _ _ Hi). pose proof (rep_index _ _ _ _ Hr Hi).
  destruct (slot_id_parts i s) as [Hq Hm]; [done|].
  rewrite decode_id_spec by (apply Hr || (unfold slot_id; lia)). rewrite Hq, Hm, Nat2Z.id, Hi. by rewrite Z.eqb_refl.
Qed.

(** An identifier that was given out and has no object is not decoded. *)
Lemma decode_dead c a id : rep c a -> id ∈ issued a -> live a !! id = None -> decode_id id c = -1.
Proof.
  intros Hr Hid Hl. destruct (rep_issued _ _ Hr id Hid) as (i & s & Hi & Hq & Hm & Hcase).
  pose proof (rep_gen _ _ Hr _ _ Hi). pose proof (rep_index _ _ _ _ Hr Hi).
  rewrite decode_id_spec by (apply Hr || zlia). rewrite Hq, Nat2Z.id, Hi.
  destruct (id mod 2 ^ 32 =? generation s) eqn:E; [|done]. zbool.
  destruct Hcase as [Hlt | [Hh Heq]]; [lia | rewrite E in Hlt; lia |].
  exfalso. assert (live a !! id = Some (data s)) by (apply (rep_live _ _ Hr); eauto). congruence.
Qed.

(** The objects outside of the slot [i]. *)
Definition others c (i : nat) (m : gmap Z DataT) : Prop :=
  forall id d, m !! id = Some d <-> exists j s, j <> i /\ holds c j s /\ id = slot_id j s /\ d = data s.

Lemma slot_id_inj i j (s s' : Slot (DataT := DataT)) :
  0 <= generation s < 2 ^ 32 -> 0 <= generation s' < 2 ^ 32 -> slot_id i s = slot_id j s' -> i = j /\ generation s = generation s'.
Proof. unfold slot_id. intros. split; lia. Qed.

Lemma others_held c a i s : rep c a -> holds c i s -> others c i (delete (slot_id i s) (live a)).
Proof.
  intros Hr Hh id d. rewrite lookup_delete_Some, (rep_live _ _ Hr).
  assert (0 <= generation s < 2 ^ 32) by (eapply rep_gen; [done | apply Hh]). split.
  - intros (Hne & j & s' & Hh' & -> & ->). exists j, s'. split_and!; [|done..]. intros ->.
    destruct Hh as (H1 & _), Hh' as (H2 & _). congruence.
  - intros (j & s' & Hne & Hh' & -> & ->). split; [|by eauto]. intros He.
    apply slot_id_inj in He as []; [congruence | done | eapply rep_gen; [done | apply Hh']].
Qed.

Lemma others_free c a i : rep c a -> (forall s, ~ holds c i s) -> others c i (live a).
Proof.
  intros Hr Hh id d. rewrite (rep_live _ _ Hr). split; [|by intros (j & s & _ & ?); eauto].
  intros (j & s & Hj & ?). exists j, s. split; [|done]. intros ->. by destruct (Hh s).
Qed.

(** The slot [i] gets new contents and the other slots keep theirs. *)
Lemma holds_other c c' i j s : j <> i -> slots_ c' !! j = slots_ c !! j ->
  (Z.of_nat j ∈ empty_slots_ c' <-> Z.of_nat j ∈ empty_slots_ c) -> holds c' j s <-> holds c j s.
Proof. intros Hj Hs He. unfold holds. by rewrite Hs, He. Qed.

Lemma live_filled c c' i s' m : others c i m -> holds c' i s' ->
  (forall j s, j <> i -> holds c' j s <-> holds c j s) ->
  (forall j s, holds c' j s -> 0 <= generation s < 2 ^ 32) ->
  forall id d, <[slot_id i s' := data s']> m !! id = Some d <-> exists j s, holds c' j s /\ id = slot_id j s /\ d = data s.
Proof.
  intros Hm Hi Hsame Hg id d. rewrite lookup_insert_Some, (Hm id d). split.
  - intros [[<- <-] | (_ & j & s & Hne & Hh & -> & ->)]; [by eauto|]. exists j, s. by rewrite Hsame.
  - intros (j & s & Hh & -> & ->). destruct (decide (j = i)) as [->|Hne].
    + left. destruct Hi as (H1 & _), Hh as (H2 & _). simplify_eq. done.
    + right. split; [|exists j, s; by rewrite <- Hsame]. intros He. apply slot_id_inj in He as []; eauto.
Qed.

Lemma live_emptied c c' i m : others c i m -> (forall s, ~ holds c' i s) ->
  (forall j s, j <> i -> holds c' j s <-> holds c j s) ->
  forall id d, m !! id = Some d <-> exists j s, holds c' j s /\ id = slot_id j s /\ d = data s.
Proof.
  intros Hm Hi Hsame id d. rewrite (Hm id d). split.
  - intros (j & s & Hne & Hh & -> & ->). exists j, s. by rewrite Hsame.
  - intros (j & s & Hh & -> & ->). assert (j <> i) by (intros ->; by destruct (Hi s)). exists j, s. by rewrite <- Hsame.
Qed.

(** No identifier given out for a slot has the generation that the slot will have next. *)
Lemma next_fresh c a i s s' : rep c a -> slots_ c !! i = Some s -> 256 <= generation s ->
  0 <= generation s' < 2 ^ 32 ->
  (~ holds c i s -> generation s / 256 <= generation s' / 256) -> (holds c i s -> generation s / 256 < generation s' / 256) ->
  slot_id i s' ∉ issued a.
Proof.
  intros Hr Hi Hg Hg' Hfree Hheld Hin. destruct (rep_issued _ _ Hr _ Hin) as (j & s0 & Hj & Hq & Hm & Hcase).
  destruct (slot_id_parts i s') as [Hq' Hm']; [done|]. assert (j = i) as -> by lia. simplify_eq.
  rewrite Hm' in *. destruct (Hcase Hg) as [Hlt | [Hh He]].
  - destruct (decide (Z.of_nat i ∈ empty_slots_ c)) as [He|He].
    + assert (~ holds c i s) as Hn by (intros (_ & Hx & _); done). specialize (Hfree Hn). lia.
    + specialize (Hheld (conj Hi (conj He Hg))). lia.
  - specialize (Hheld Hh). apply slot_id_inj in He as [_ He]; [|done | by eapply rep_gen]. rewrite He in Hheld. lia.
Qed.

(** The identifiers given out stay below the generations of their slots. *)
Lemma issued_kept c a c' i s s' id : rep c a -> slots_ c !! i = Some s -> slots_ c' !! i = Some s' ->
  (forall j s, j <> i -> holds c' j s <-> holds c j s) ->
  (forall j, j <> i -> slots_ c' !! j = slots_ c !! j) ->
  (256 <= generation s' -> 256 <= generation s /\ generation s / 256 <= generation s' / 256 /\
     (holds c i s -> generation s / 256 < generation s' / 256 \/ (holds c' i s' /\ generation s' = generation s))) ->
  id ∈ issued a -> exists i s, slots_ c' !! i = Some s /\
    id / 2 ^ 32 = Z.of_nat i /\ 256 <= id mod 2 ^ 32 /\
    (256 <= generation s -> id mod 2 ^ 32 / 256 < generation s / 256 \/ (holds c' i s /\ id = slot_id i s)).
Proof.
  intros Hr Hi Hi' Hsame Hslots Hgen Hin. destruct (rep_issued _ _ Hr _ Hin) as (j & s0 & Hj & Hq & Hm & Hcase).
  destruct (decide (j = i)) as [->|Hne]; [|exists j, s0; rewrite Hslots, Hsame by done; by split_and!].
  exists i, s'. split_and!; [done..|]. intros Hg'. simplify_eq. destruct (Hgen Hg') as (Hg & Hle & Hheld).
  destruct (Hcase Hg) as [Hlt | [Hh He]]; [left; lia|].
  destruct (slot_id_parts i s) as [_ Hparts]; [by eapply rep_gen|].
  destruct (Hheld Hh) as [Hlt | [Hh' Heq]]; [left; rewrite He, Hparts; lia|].
  right. split; [done|]. rewrite He. unfold slot_id. by rewrite Heq.
Qed.

Lemma insert_slots (i : nat) (s0 s' : Slot (DataT := DataT)) l : l !! i = Some s0 ->
  <[i := s']> l !! i = Some s' /\ (forall j, j <> i -> <[i := s']> l !! j = l !! j) /\ length (<[i := s']> l) = length l.
Proof.
  intros Hi. split_and!; [by apply list_lookup_insert_eq, lookup_lt_is_Some; eauto | | apply length_insert].
  intros j Hj. by apply list_lookup_insert_ne.
Qed.

(** The three ways in which an operation changes one slot: its object is replaced, the slot
    is emptied, or an empty slot is filled. *)
Lemma replace_rep c a i s s' : rep c a -> holds c i s -> generation s' = generation s ->
  let c' := {| slots_ := <[i := s']> (slots_ c); empty_slots_ := empty_slots_ c |} in
  rep c' {| live := <[slot_id i s := data s']> (live a); issued := issued a; retired := retired a |}.
Proof.
  intros Hr Hh Hg c'. assert (Hi := proj1 Hh). destruct (insert_slots i s s' (slots_ c) Hi) as (Hi' & Hother & Hlen).
  assert (holds c' i s') as Hh' by (destruct Hh as (_ & He & Hge); split_and!; [done.. | lia]).
  assert (forall j s, j <> i -> holds c' j s <-> holds c j s) as Hsame by (intros; by apply (holds_other c c' i); auto).
  assert (forall j s, slots_ c' !! j = Some s -> 0 <= generation s < 2 ^ 32) as Hgen.
  { intros j s1 Hj. destruct (decide (j = i)) as [->|Hne].
    - simpl in Hj. simplify_eq. rewrite Hg. by eapply rep_gen.
    - rewrite Hother in Hj by done. by eapply rep_gen. }
  assert (slot_id i s = slot_id i s') as Hid by (unfold slot_id; by rewrite Hg).
  assert (is_Some (live a !! slot_id i s)) as Hlive by (exists (data s); apply (rep_live _ _ Hr); eauto).
  constructor; simpl.
  - rewrite Hlen. apply Hr.
  - done.
  - apply Hr.
  - intros z Hz. destruct (rep_empty _ _ Hr z Hz) as (j & s1 & -> & Hj & Hgj). exists j, s1. split_and!; [done| |done].
    rewrite Hother; [done|]. intros ->. by destruct Hh as (_ & ? & _).
  - intros id d. rewrite Hid, <- (live_filled c c' i s' (delete (slot_id i s) (live a))); [|by apply others_held | done.. | by intros ?? []; eauto].
    by rewrite Hid, insert_delete_eq.
  - intros id Hin. apply (issued_kept c a c' i s s'); [done.. | rewrite Hg | done]. intros ?. split_and!; [done.. |]. intros _. by right.
  - intros id. rewrite lookup_insert_is_Some. intros [<- | [_ ?]]; by apply (rep_known _ _ Hr).
  - rewrite map_size_insert_Some by done. rewrite Hlen. apply Hr.
  - intros H0 j s1 Hj. destruct (decide (j = i)) as [->|Hne].
    + simplify_eq. apply Hh'.
    + rewrite Hother in Hj by done. by eapply rep_retired.
Qed.

(** [slots_] with the slot [i] replaced by a free one: the object is gone, and the slot is
    empty or, without generations, lost. *)
Lemma free_rep c a i s s' e : rep c a -> holds c i s -> 
  (e = empty_slots_ c ++ [Z.of_nat i] /\ generation s / 256 < generation s' / 256 /\ last_generation (slot_id i s) = false \/
   e = empty_slots_ c /\ generation s' < 256 /\ last_generation (slot_id i s) = true) ->
  0 <= generation s' < 2 ^ 32 ->
  rep {| slots_ := <[i := s']> (slots_ c); empty_slots_ := e |} (remove (slot_id i s) a).
Proof.
  intros Hr Hh Hcase Hg'. set (c' := {| slots_ := _ |}). assert (Hi := proj1 Hh).
  destruct (insert_slots i s s' (slots_ c) Hi) as (Hi' & Hother & Hlen).
  assert (forall j, j <> i -> Z.of_nat j ∈ e <-> Z.of_nat j ∈ empty_slots_ c) as He.
  { intros j Hj. destruct Hcase as [(-> & _) | (-> & _)]; [|done]. rewrite elem_of_app, list_elem_of_singleton. intuition lia. }
  assert (forall s1, ~ holds c' i s1) as Hnot.
  { intros s1 (Hs1 & Hin & Hg1). simpl in *. simplify_eq. destruct Hcase as [(-> & _) | (-> & ? & _)]; [|lia].
    apply Hin. rewrite elem_of_app, list_elem_of_singleton. by right. }
  assert (forall j s, j <> i -> holds c' j s <-> holds c j s) as Hsame by (intros; apply (holds_other c c' i); simpl; auto).
  assert (live a !! slot_id i s = Some (data s)) as Hlive by (apply (rep_live _ _ Hr); eauto).
  assert (retired (remove (slot_id i s) a) = if last_generation (slot_id i s) then S (retired a) else retired a) as Hret.
  { unfold remove. simpl. rewrite bool_decide_eq_true_2 by eauto. done. }
  pose proof (rep_count _ _ Hr) as Hcount. destruct Hh as (_ & Hne & Hge).
  constructor.
  - simpl. rewrite Hlen. apply Hr.
  - simpl. intros j s1 Hj. destruct (decide (j = i)) as [->|]; [by simplify_eq|]. rewrite Hother in Hj by done. by eapply rep_gen.
  - simpl. destruct Hcase as [(-> & _) | (-> & _)]; [|apply Hr]. apply NoDup_app. split_and!; [apply Hr | | apply NoDup_singleton].
    intros z Hz Hz'. apply list_elem_of_singleton in Hz' as ->. done.
  - simpl. intros z Hz.
    assert (z ∈ empty_slots_ c \/ z = Z.of_nat i /\ generation s / 256 < generation s' / 256) as [Hz' | [-> Hlt]].
    { destruct Hcase as [(-> & ? & _) | (-> & _)]; [|by left]. rewrite elem_of_app, list_elem_of_singleton in Hz. naive_solver. }
    + destruct (rep_empty _ _ Hr z Hz') as (j & s1 & -> & Hj & Hgj). exists j, s1. split_and!; [done| |done]. rewrite Hother; [done|]. by intros ->.
    + exists i, s'. split_and!; [done.. | zlia].
  - apply (live_emptied c c' i); [by apply others_held | done..].
  - simpl. intros id Hin. apply (issued_kept c a c' i s s'); [done.. | | done]. intros Hge'.
    destruct Hcase as [(_ & Hlt & _) | (_ & ? & _)]; [|lia]. split_and!; [done | lia | by left].
  - simpl. intros id. rewrite lookup_delete_is_Some. intros [_ ?]. by apply (rep_known _ _ Hr).
  - rewrite Hret. simpl. rewrite Hlen, map_size_delete_Some by eauto.
    assert (base.size (live a) <> 0)%nat by (apply (map_size_ne_0_lookup_2 _ (slot_id i s)); eauto).
    destruct Hcase as [(-> & _ & ->) | (-> & _ & ->)]; rewrite ?length_app; simpl; lia.
  - rewrite Hret. destruct Hcase as [(_ & Hlt & ->) | (_ & _ & ->)]; [|done]. simpl. intros H0 j s1 Hj.
    destruct (decide (j = i)) as [->|]; [simplify_eq; zlia|]. rewrite Hother in Hj by done. by eapply rep_retired.
Qed.

(** A slot that did not hold an object gets one, with an identifier that is new. *)
Lemma fill_rep c a i s' ss e : rep c a -> (forall s, ~ holds c i s) ->
  ss !! i = Some s' -> 256 <= generation s' < 2 ^ 32 -> Z.of_nat (length ss) <= 2 ^ 31 - 1 ->
  (forall j, j <> i -> ss !! j = slots_ c !! j) ->
  (forall z, z ∈ e <-> z ∈ empty_slots_ c /\ z <> Z.of_nat i) -> NoDup e ->
  (length ss - length e = S (length (slots_ c) - length (empty_slots_ c)) /\ length e <= length ss)%nat ->
  (forall s, slots_ c !! i = Some s -> 256 <= generation s -> generation s / 256 <= generation s' / 256) ->
  (forall s, slots_ c !! i = Some s -> 256 <= generation s) ->
  rep {| slots_ := ss; empty_slots_ := e |}
    {| live := <[slot_id i s' := data s']> (live a); issued := {[slot_id i s']} ∪ issued a; retired := retired a |} /\
  fresh (slot_id i s') a.
Proof.
  intros Hr Hnot Hi' Hg' Hbound Hother He Hnd [Hcount Hle] Hgen Hge. set (c' := {| slots_ := ss |}).
  assert (holds c' i s') as Hh' by (split_and!; [done | simpl; rewrite He; naive_solver | lia]).
  assert (forall j s, j <> i -> holds c' j s <-> holds c j s) as Hsame.
  { intros j s Hj. apply (holds_other c c' i); simpl; auto. rewrite He. split; [naive_solver|]. intros. split; [done | lia]. }
  assert (slot_id i s' ∉ issued a) as Hfresh.
  { intros Hin. destruct (slots_ c !! i) as [s|] eqn:Hi.
    - apply (next_fresh c a i s s') in Hin; [done.. | by auto | lia | by auto | by intros ?%Hnot].
    - destruct (rep_issued _ _ Hr _ Hin) as (j & s & Hj & Hq & _). destruct (slot_id_parts i s') as [Hq' _]; [lia|].
      assert (j = i) as -> by lia. congruence. }
  assert (live a !! slot_id i s' = None) as Hnone.
  { apply eq_None_not_Some. intros H. by apply (rep_known _ _ Hr) in H. }
  assert (forall j s, slots_ c' !! j = Some s -> 0 <= generation s < 2 ^ 32) as Hg.
  { simpl. intros j s1 Hj. destruct (decide (j = i)) as [->|]; [simplify_eq; lia|]. rewrite Hother in Hj by done. by eapply rep_gen. }
  pose proof (rep_count _ _ Hr). split; [|split; [done|]; unfold slot_id; lia].
  constructor; [done | done | done | ..].
  - simpl. intros z [Hz Hzi]%He. destruct (rep_empty _ _ Hr z Hz) as (j & s1 & -> & Hj & Hgj). exists j, s1. split_and!; [done| |done].
    rewrite Hother; [done | lia].
  - apply (live_filled c c' i); [by apply others_free | done.. | by intros ?? []; eauto].
  - simpl. intros id [->%elem_of_singleton | Hin]%elem_of_union.
    + exists i, s'. destruct (slot_id_parts i s') as [-> ->]; [lia|]. split_and!; [done | done | lia |]. by right.
    + destruct (slots_ c !! i) as [s|] eqn:Hi.
      * apply (issued_kept c a c' i s s'); [done.. | | done]. intros _. split_and!; [by apply Hge | by apply Hgen; auto | by intros ?%Hnot].
      * destruct (rep_issued _ _ Hr _ Hin) as (j & s & Hj & Hq & Hm & Hcase). assert (j <> i) by congruence.
        exists j, s. rewrite Hother, Hsame by done. by split_and!.
  - simpl. intros id. rewrite lookup_insert_is_Some, elem_of_union, elem_of_singleton. intros [<- | [_ ?]]; [by left|]. right. by apply (rep_known _ _ Hr).
  - simpl. rewrite map_size_insert_None by done. lia.
  - simpl. intros H0 j s1 Hj. destruct (decide (j = i)) as [->|]; [simplify_eq; lia|]. rewrite Hother in Hj by done. by eapply rep_retired.
Qed.

(** A slot goes on with its object under the next generation. *)
Lemma regen_rep c a i s s' : rep c a -> holds c i s -> data s' = data s -> generation s' = generation s + 256 -> generation s' < 2 ^ 32 ->
  rep {| slots_ := <[i := s']> (slots_ c); empty_slots_ := empty_slots_ c |}
    {| live := <[slot_id i s' := data s]> (delete (slot_id i s) (live a)); issued := {[slot_id i s']} ∪ issued a; retired := retired a |} /\
  fresh (slot_id i s') a.
Proof.
  intros Hr Hh Hd Hg Hlt. set (c' := {| slots_ := _ |}). assert (Hi := proj1 Hh).
  destruct (insert_slots i s s' (slots_ c) Hi) as (Hi' & Hother & Hlen).
  assert (forall j s, j <> i -> holds c' j s <-> holds c j s) as Hsame by (intros; by apply (holds_other c c' i); auto).
  assert (0 <= generation s < 2 ^ 32) as Hgs by (by eapply rep_gen).
  destruct Hh as (_ & Hne & Hge). assert (holds c' i s') as Hh' by (split_and!; [done.. | lia]).
  assert (slot_id i s' ∉ issued a) as Hfresh.
  { apply (next_fresh c a i s s'); [done.. | lia | intros; zlia | intros; zlia]. }
  assert (live a !! slot_id i s = Some (data s)) as Hlive by (apply (rep_live _ _ Hr); by exists i, s).
  assert (live a !! slot_id i s' = None) as Hnone.
  { apply eq_None_not_Some. intros H. by apply (rep_known _ _ Hr) in H. }
  assert (forall j s, slots_ c' !! j = Some s -> 0 <= generation s < 2 ^ 32) as Hg'.
  { simpl. intros j s1 Hj. destruct (decide (j = i)) as [->|]; [simplify_eq; lia|]. rewrite Hother in Hj by done. by eapply rep_gen. }
  pose proof (rep_count _ _ Hr). split; [|split; [done|]; unfold slot_id; lia].
  constructor; [simpl; rewrite Hlen; apply Hr | done | apply Hr | ..].
  - simpl. intros z Hz. destruct (rep_empty _ _ Hr z Hz) as (j & s1 & -> & Hj & Hgj). exists j, s1. split_and!; [done| |done].
    rewrite Hother; [done|]. by intros ->.
  - rewrite <- Hd. apply (live_filled c c' i); [by apply others_held | done.. | by intros ?? []; eauto].
  - simpl. intros id [->%elem_of_singleton | Hin]%elem_of_union.
    + exists i, s'. destruct (slot_id_parts i s') as [-> ->]; [lia|]. split_and!; [done | done | lia |]. by right.
    + apply (issued_kept c a c' i s s'); [done.. | | done]. intros _. split_and!; [done | zlia | left; zlia].
  - simpl. intros id. rewrite lookup_insert_is_Some, lookup_delete_is_Some, elem_of_union, elem_of_singleton.
    intros [<- | (_ & _ & ?)]; [by left|]. right. by apply (rep_known _ _ Hr).
  - simpl. rewrite map_size_insert_None by (by rewrite lookup_delete_ne by (unfold slot_id; lia)).
    assert (base.size (live a) <> 0)%nat by (apply (map_size_ne_0_lookup_2 _ (slot_id i s)); eauto).
    rewrite Hlen, map_size_delete_Some by eauto. lia.
  - simpl. intros H0 j s1 Hj. destruct (decide (j = i)) as [->|]; [simplify_eq; lia|]. rewrite Hother in Hj by done. by eapply rep_retired.
Qed.

(** ** The operations *)
Lemma rep_new : rep new_container no_objects.
Proof.
  constructor; simpl; [lia | done | by constructor | set_solver | | set_solver | | done | done].
  - intros id d. rewrite lookup_empty. split; [done|]. by intros (i & s & (Hs & _) & _).
  - intros id. rewrite lookup_empty. by intros [].
Qed.

Lemma create_spec c a d type : rep c a -> 0 <= type < 256 -> Z.of_nat (base.size (live a) + retired a) < 2 ^ 31 - 1 ->
  exists id c', create d type c = Ok (id, c') /\ fresh id a /\ type_from_id id = type /\
    rep c' {| live := <[id := d]> (live a); issued := {[id]} ∪ issued a; retired := retired a |}.
Proof.
  intros Hr Ht Hroom. pose proof (rep_count _ _ Hr) as Hcount. unfold create, store.
  destruct (last (empty_slots_ c)) as [pos|] eqn:Hlast.
  - apply last_Some in Hlast as [e He]. pose proof (rep_nodup _ _ Hr) as Hnd. rewrite He in *.
    apply NoDup_app in Hnd as (Hnd & Hnot & _).
    destruct (rep_empty _ _ Hr pos) as (i & s & -> & Hi & Hg); [rewrite He, elem_of_app, list_elem_of_singleton; by right|].
    rewrite Nat2Z.id, Hi. simpl. rewrite removelast_last.
    pose proof (rep_gen _ _ Hr _ _ Hi) as Hg'. rewrite type_value by lia.
    set (s' := {| generation := generation s / 256 * 256 + type; data := d |}).
    destruct (insert_slots i s s' (slots_ c) Hi) as (Hi' & Hother & Hlen).
    assert (Z.of_nat i ∈ empty_slots_ c) as Hin by (rewrite He, elem_of_app, list_elem_of_singleton; by right).
    destruct (fill_rep c a i s' (<[i := s']> (slots_ c)) e) as [Hrep Hfresh]; try done.
    + by intros s0 (_ & ? & _).
    + simpl. zlia.
    + rewrite Hlen. apply Hr.
    + intros z. rewrite He, elem_of_app, list_elem_of_singleton. split; [|naive_solver]. intros Hz. split; [by left|].
      intros ->. apply (Hnot _ Hz). by apply list_elem_of_singleton.
    + rewrite Hlen, He. rewrite length_app in Hcount |- *. simpl in *. lia.
    + intros s0 Hs0 _. simplify_eq. simpl. zlia.
    + by intros s0 ?; simplify_eq.
    + rewrite (encode_spec _ _ i s' Hrep) by done. simpl. eexists _, _. split; [done|].
      split; [done|]. split; [|done]. unfold slot_id. rewrite type_from_value by (simpl; zlia). simpl. zlia.
  - apply last_None in Hlast. rewrite Hlast in *. simpl in Hcount.
    rewrite (proj2 (Z.leb_le _ _)) by lia. simpl. rewrite s32_small by (unfold is_s32; lia).
    set (s' := {| generation := GENERATION_STEP + type; data := d |}). set (i := length (slots_ c)).
    assert ((slots_ c ++ [s']) !! i = Some s') as Hi' by (by rewrite lookup_app_r, Nat.sub_diag).
    destruct (fill_rep c a i s' (slots_ c ++ [s']) []) as [Hrep Hfresh]; try done.
    + intros s (Hs & _). apply lookup_lt_Some in Hs. lia.
    + simpl. change GENERATION_STEP with 256. lia.
    + rewrite length_app. simpl. lia.
    + intros j Hj. destruct (decide (j < i)%nat); [by rewrite lookup_app_l|].
      rewrite lookup_app_r by lia. rewrite (lookup_ge_None_2 (slots_ c)) by lia. by destruct (j - length (slots_ c))%nat eqn:E; [lia|].
    + intros z. rewrite Hlast. split; [by intros ?%elem_of_nil | by intros [?%elem_of_nil _]].
    + by constructor.
    + rewrite Hlast, length_app. simpl. fold i. lia.
    + intros s Hs. apply lookup_lt_Some in Hs. lia.
    + intros s Hs. apply lookup_lt_Some in Hs. lia.
    + rewrite (encode_spec _ _ i s' Hrep) by done. simpl. eexists _, _. split; [done|].
      split; [done|]. split; [|done]. unfold slot_id. rewrite type_from_value by (simpl; change GENERATION_STEP with 256; lia).
      simpl. change GENERATION_STEP with 256. zlia.
Qed.

Lemma get_live c a id d : rep c a -> live a !! id = Some d -> get id c = Some d.
Proof.
  intros Hr Hl. destruct (decode_live c a id d Hr Hl) as (i & s & (Hi & _) & -> & -> & Hdec).
  unfold get. rewrite Hdec, (proj2 (Z.eqb_neq _ _)) by lia. by rewrite Nat2Z.id, Hi.
Qed.

Lemma get_issued c a id : rep c a -> id ∈ issued a -> get id c = live a !! id.
Proof.
  intros Hr Hin. destruct (live a !! id) as [d|] eqn:Hl; [by eapply get_live|].
  unfold get. by rewrite (decode_dead c a).
Qed.

Lemma update_spec c a id d f : rep c a -> live a !! id = Some d ->
  exists c', update id f c = Ok c' /\
    rep c' {| live := <[id := f d]> (live a); issued := issued a; retired := retired a |}.
Proof.
  intros Hr Hl. destruct (decode_live c a id d Hr Hl) as (i & s & Hh & -> & -> & Hdec).
  unfold update. rewrite Hdec, (proj2 (Z.eqb_neq _ _)) by lia. rewrite Nat2Z.id, (proj1 Hh). eexists. split; [done|].
  by apply (replace_rep c a i s {| generation := generation s; data := f (data s) |}).
Qed.

Lemma release_spec c a i s : rep c a -> holds c i s ->
  exists c', release DataT0 (Z.of_nat i) c = Ok c' /\ rep c' (remove (slot_id i s) a).
Proof.
  intros Hr Hh. assert (Hi := proj1 Hh). pose proof (rep_gen _ _ Hr _ _ Hi) as Hg. pose proof (proj2 (proj2 Hh)) as Hge.
  destruct (slot_id_parts i s Hg) as [_ Hm].
  unfold release, inc_generation. rewrite Nat2Z.id, Hi. simpl.
  rewrite list_lookup_insert_eq by (by eapply lookup_lt_Some). simpl. rewrite generation_left by (apply Z.mod_pos_bound; lia).
  change GENERATION_STEP with 256. unfold u32.
  destruct (decide (generation s + 256 < 2 ^ 32)).
  - rewrite Z.mod_small, (proj2 (Z.ltb_ge _ _)) by lia. eexists. split; [done|]. simpl. rewrite list_insert_insert_eq.
    apply free_rep; [done | done | | simpl; lia].
    left. split_and!; [done | simpl; zlia |]. unfold last_generation. rewrite Hm. apply Z.leb_gt. lia.
  - assert ((generation s + 256) mod 2 ^ 32 < 256) by zlia. rewrite (proj2 (Z.ltb_lt _ _)) by done. simpl.
    eexists. split; [done|]. unfold with_slot. simpl. rewrite list_insert_insert_eq. apply free_rep; [done | done | | simpl; zlia].
    right. split_and!; [done | done |]. unfold last_generation. rewrite Hm. apply Z.leb_le. lia.
Qed.

Lemma erase_live c a id d : rep c a -> live a !! id = Some d -> exists c', erase DataT0 id c = Ok c' /\ rep c' (remove id a).
Proof.
  intros Hr Hl. destruct (decode_live c a id d Hr Hl) as (i & s & Hh & -> & -> & Hdec).
  unfold erase. rewrite Hdec, (proj2 (Z.eqb_neq _ _)) by lia. by apply release_spec.
Qed.

Lemma remove_dead id a : live a !! id = None -> remove id a = a.
Proof.
  intros Hl. unfold remove. rewrite bool_decide_eq_false_2 by (rewrite Hl; by intros []). rewrite delete_id by done. by destruct a.
Qed.

Lemma erase_issued c a id : rep c a -> id ∈ issued a -> exists c', erase DataT0 id c = Ok c' /\ rep c' (remove id a).
Proof.
  intros Hr Hin. destruct (live a !! id) as [d|] eqn:Hl; [by eapply erase_live|].
  exists c. unfold erase. rewrite (decode_dead c a) by done. rewrite remove_dead by done. done.
Qed.

Lemma extract_spec c a id d : rep c a -> live a !! id = Some d -> exists c', extract DataT0 id c = Ok (d, c') /\ rep c' (remove id a).
Proof.
  intros Hr Hl. destruct (decode_live c a id d Hr Hl) as (i & s & Hh & -> & -> & Hdec).
  unfold extract. rewrite Hdec, (proj2 (Z.eqb_neq _ _)) by lia. simpl. rewrite Nat2Z.id, (proj1 Hh).
  destruct (release_spec c a i s Hr Hh) as (c' & -> & ?). by exists c'.
Qed.

Lemma reset_spec c a id d : rep c a -> live a !! id = Some d -> last_generation id = false ->
  exists id' c', reset_id id c = Ok (id', c') /\ fresh id' a /\ type_from_id id' = type_from_id id /\
    rep c' {| live := <[id' := d]> (delete id (live a)); issued := {[id']} ∪ issued a; retired := retired a |}.
Proof.
  intros Hr Hl Hlast. destruct (decode_live c a id d Hr Hl) as (i & s & Hh & -> & -> & Hdec).
  assert (Hi := proj1 Hh). pose proof (rep_gen _ _ Hr _ _ Hi) as Hg. destruct (slot_id_parts i s Hg) as [_ Hm].
  unfold last_generation in Hlast. rewrite Hm in Hlast. zbool.
  unfold reset_id. rewrite Hdec, (proj2 (Z.eqb_neq _ _)) by lia. simpl. unfold inc_generation. rewrite Nat2Z.id, Hi. simpl.
  change GENERATION_STEP with 256. rewrite u32_small by (unfold is_u32; lia).
  set (s' := {| generation := generation s + 256; data := data s |}).
  destruct (regen_rep c a i s s') as [Hrep Hfresh]; [done.. | simpl; lia |].
  unfold with_slot. rewrite (encode_spec _ _ i s' Hrep) by (simpl; by rewrite list_lookup_insert_eq by (by eapply lookup_lt_Some)).
  simpl. eexists _, _. split; [done|]. split; [done|]. split; [|done].
  unfold slot_id. rewrite !type_from_value by (simpl; lia). simpl. zlia.
Qed.

Lemma ids_from_spec c a i : rep c a -> (i <= length (slots_ c))%nat ->
  exists l, ids_from i (drop i (slots_ c)) c = Ok l /\ NoDup l /\
    forall id, id ∈ l <-> exists j s, (i <= j)%nat /\ slots_ c !! j = Some s /\ Z.of_nat j ∉ empty_slots_ c /\ id = slot_id j s.
Proof.
  intros Hr Hi. remember (length (slots_ c) - i)%nat as n eqn:Hn. revert i Hi Hn. induction n as [|n IH]; intros i Hi Hn.
  - rewrite drop_ge by lia. exists []. split; [done|]. split; [constructor|]. intros id. split; [by intros ?%elem_of_nil|].
    intros (j & s & Hj & Hs & _). apply lookup_lt_Some in Hs. lia.
  - destruct (lookup_lt_is_Some_2 (slots_ c) i) as [s Hs]; [lia|]. rewrite (drop_S _ _ _ Hs). simpl.
    destruct (IH (S i)) as (l & Hl & Hnd & Hin); [lia | lia |]. rewrite Hl. simpl.
    pose proof (rep_index _ _ _ _ Hr Hs). rewrite s32_small by (unfold is_s32; lia). rewrite (encode_spec _ _ _ _ Hr Hs). simpl.
    assert (forall id, (exists j s0, (i <= j)%nat /\ slots_ c !! j = Some s0 /\ Z.of_nat j ∉ empty_slots_ c /\ id = slot_id j s0) <->
      (Z.of_nat i ∉ empty_slots_ c /\ id = slot_id i s) \/ id ∈ l) as Hstep.
    { intros id. rewrite Hin. split.
      - intros (j & s0 & Hj & Hs0 & He & ->). destruct (decide (j = i)) as [->|]; [left; by simplify_eq|]. right. exists j, s0. split_and!; [lia | done..].
      - intros [[He ->] | (j & s0 & Hj & ?)]; [by exists i, s|]. exists j, s0. split; [lia | done]. }
    case_bool_decide as He.
    + exists l. split; [done|]. split; [done|]. intros id. rewrite Hstep. naive_solver.
    + exists (slot_id i s :: l). split; [done|]. split; [constructor; [|done] | intros id; rewrite elem_of_cons, Hstep; naive_solver].
      rewrite Hin. intros (j & s0 & Hj & Hs0 & _ & Heq). apply slot_id_inj in Heq as [-> _]; [lia | by eapply rep_gen..].
Qed.

Lemma ids_spec c a : rep c a -> exists l, ids c = Ok l /\ NoDup l /\
  (forall id, 256 <= id mod 2 ^ 32 -> id ∈ l <-> is_Some (live a !! id)) /\
  (retired a = 0%nat -> forall id, id ∈ l -> is_Some (live a !! id)).
Proof.
  intros Hr. destruct (ids_from_spec c a 0 Hr) as (l & Hl & Hnd & Hin); [lia|]. exists l. split; [done|]. split; [done|].
  assert (forall id, 256 <= id mod 2 ^ 32 -> id ∈ l <-> is_Some (live a !! id)) as Hlive.
  { intros id Hid. rewrite Hin. unfold is_Some. setoid_rewrite (rep_live _ _ Hr). split.
    - intros (j & s & _ & Hs & He & ->). destruct (slot_id_parts j s) as [_ Hm]; [by eapply rep_gen|]. rewrite Hm in Hid. exists (data s), j, s. done.
    - intros (d & j & s & (Hs & He & _) & -> & _). exists j, s. split_and!; [lia | done..]. }
  split; [done|]. intros H0 id Hid. apply Hlive; [|done]. apply Hin in Hid as (j & s & _ & Hs & _ & ->).
  destruct (slot_id_parts j s) as [_ ->]; [by eapply rep_gen|]. by eapply rep_retired.
Qed.

Lemma size_spec c a : rep c a -> size c = Ok (Z.of_nat (base.size (live a) + retired a)).
Proof.
  intros Hr. pose proof (rep_count _ _ Hr). unfold size. rewrite (proj2 (Nat.leb_le _ _)) by lia. do 2 f_equal. lia.
Qed.

Lemma alter_live (f : DataT -> DataT) id d (m : gmap Z DataT) : m !! id = Some d -> alter f id m = <[id := f d]> m.
Proof. intros Hl. apply map_eq. intros j. destruct (decide (j = id)) as [->|]; by simplify_map_eq. Qed.

Lemma container_step o c a : rep c a -> allowed o a ->
  exists out c', do_op DataT0 o c = Ok (out, c') /\ expected o out a /\ rep c' (objects_after o out a).
Proof.
  intros Hr Ha. destruct o as [d type | id f | id | id | id | id | | |]; cbn [do_op allowed expected objects_after] in *.
  - destruct Ha as [Ht Hroom]. destruct (create_spec c a d type) as (id & c' & -> & ? & ? & ?); [done..|]. cbn [res_bind]. eauto 10.
  - destruct Ha as [d Hl]. destruct (update_spec c a id d f) as (c' & -> & Hc'); [done..|]. cbn [res_bind]. eexists _, _. split; [done|].
    split; [done|]. rewrite (alter_live f id d) by done. done.
  - destruct (erase_issued c a id) as (c' & -> & ?); [done..|]. cbn [res_bind]. eauto.
  - destruct Ha as [d Hl]. destruct (extract_spec c a id d) as (c' & -> & ?); [done..|]. cbn [res_bind]. eauto.
  - destruct Ha as [[d Hl] Hlast]. destruct (reset_spec c a id d) as (id' & c' & -> & ? & ? & ?); [done..|]. cbn [res_bind]. eexists _, _. split; [done|].
    cbn [objects_after]. by rewrite Hl.
  - eexists _, _. split; [done|]. split; [by apply get_issued | done].
  - destruct (ids_spec c a Hr) as (l & -> & ?). cbn [res_bind]. eauto.
  - rewrite (size_spec c a Hr). cbn [res_bind]. eauto.
  - eexists _, _. split; [done|]. split; [done|]. apply rep_new.
Qed.

Lemma reachable_rep c a : reachable DataT0 c a -> rep c a.
Proof.
  induction 1 as [|o out c c' a _ IH Ha Hdo]; [apply rep_new|].
  destruct (container_step o c a IH Ha) as (out' & c'' & Heq & _ & ?). congruence.
Qed.

(** ** The last generation *)

(** The identifier that the slot [i] gives to its first object, of the type [t]. *)
Definition first_id (i : nat) (t : Z) : Z := Z.of_nat i * 2 ^ 32 + (256 + t).

Lemma inc_generation_length id c c' : inc_generation id c = Ok c' -> length (slots_ c') = length (slots_ (DataT := DataT) c).
Proof. unfold inc_generation. intros H. destruct (_ !! _); [|done]. injection H as <-. apply length_insert. Qed.

Lemma release_length id c c' : release DataT0 id c = Ok c' -> length (slots_ c') = length (slots_ c).
Proof.
  unfold release. intros H. apply bind_Ok in H as (c1 & E & H). apply inc_generation_length in E. rewrite <- E.
  destruct (_ !! _); [|done]. case_if_in H; injection H as <-; simpl; by rewrite length_insert.
Qed.

(** An operation adds a slot only for a new object, which gets the first identifier of the slot. *)
Lemma slots_grow o out c c' : do_op DataT0 o c = Ok (out, c') -> Z.of_nat (length (slots_ c')) <= 2 ^ 31 - 1 ->
  length (slots_ c') = length (slots_ c) \/ o = Clear \/
  exists d type, o = Create d type /\ length (slots_ c') = S (length (slots_ c)) /\
    (0 <= type < 256 -> out = OId (first_id (length (slots_ c)) type)).
Proof.
  destruct o as [d type | id f | id | id | id | id | | |]; cbn [do_op]; intros H Hb; [| | | | | | | |by right; left].
  - unfold create, store in H. destruct (last (empty_slots_ c)) as [pos|].
    + left. destruct (slots_ c !! Z.to_nat pos) as [s|]; [|done]. inv_binds. apply length_insert.
    + right. right. exists d, type. case_if_in H; [|done]. inv_binds. simpl in Hb |- *. rewrite length_app in *. simpl in *.
      split_and!; [done|lia|]. intros Ht. unfold encode_id in *. rewrite s32_small in * by (unfold is_s32; lia). simpl in *.
      rewrite Nat2Z.id, lookup_app_r, Nat.sub_diag in * by lia. simpl in *. simplify_eq. f_equal.
      change GENERATION_STEP with 256. by rewrite encode_value by lia.
  - left. apply bind_Ok in H as (c1 & E & [= <- <-]). unfold update in E. destruct (_ =? -1); [done|]. destruct (_ !! _); [|done].
    injection E as <-. apply length_insert.
  - left. apply bind_Ok in H as (c1 & E & [= <- <-]). unfold erase in E. destruct (_ =? -1); [by injection E as <-|]. by eapply release_length.
  - left. apply bind_Ok in H as ([d c1] & E & [= <- <-]). unfold extract in E. destruct (_ =? -1); [done|]. destruct (_ !! _); [|done].
    apply bind_Ok in E as (c2 & E & [= <- <-]). by eapply release_length.
  - left. apply bind_Ok in H as ([id' c1] & E & [= <- <-]). unfold reset_id in E. destruct (_ =? -1); [done|].
    apply bind_Ok in E as (c2 & E & H). apply bind_Ok in H as (id2 & _ & [= <- <-]). by eapply inc_generation_length.
  - left. by injection H as <- <-.
  - left. by apply bind_Ok in H as (l & _ & [= <- <-]).
  - left. by apply bind_Ok in H as (n & _ & [= <- <-]).
Qed.

Lemma first_issued c a i : reachable DataT0 c a -> (i < length (slots_ c))%nat -> exists t, 0 <= t < 256 /\ first_id i t ∈ issued a.
Proof.
  intros Hre. revert i. induction Hre as [|o out c c' a Hre IH Ha Hdo]; intros i Hi; [simpl in Hi; lia|].
  pose proof (reachable_rep _ _ Hre) as Hr. destruct (container_step o c a Hr Ha) as (out' & c'' & Heq & He & Hr').
  rewrite Hdo in Heq. injection Heq as <- <-.
  assert (o = Clear \/ forall id, id ∈ issued a -> id ∈ issued (objects_after o out a)) as [-> | Hsub].
  { destruct o; [| | | | | | | |by left]; right; intros id' Hid; destruct out; cbn [objects_after issued remove];
      first [exact Hid | apply elem_of_union_r; exact Hid | destruct (live a !! _); cbn [issued]; first [exact Hid | apply elem_of_union_r; exact Hid]]. }
  { injection Hdo as <- <-. simpl in Hi. lia. }
  destruct (slots_grow o out c c' Hdo (rep_bound _ _ Hr')) as [Hl | [-> | (d & type & -> & Hl & Hout)]].
  - destruct (IH i) as (t & Ht & Hin); [lia|]. exists t. split; [done|]. by apply Hsub.
  - injection Hdo as <- <-. simpl in Hi. lia.
  - destruct (decide (i = length (slots_ c))) as [->|].
    + exists type. split; [apply Ha|]. rewrite Hout by apply Ha. cbn [objects_after issued]. by apply elem_of_union_l, elem_of_singleton.
    + destruct (IH i) as (t & Ht & Hin); [lia|]. exists t. split; [done|]. by apply Hsub.
Qed.

(** What becomes of an identifier with the last generation that is reset. *)
Lemma reset_last c a id d : reachable DataT0 c a -> live a !! id = Some d -> last_generation id = true ->
  exists t c1 c2, let id' := id - (2 ^ 32 - 256) in
    reset_id id c = Ok (id', c1) /\ id' mod 2 ^ 32 < 256 /\ get id' c1 = Some d /\ erase DataT0 id' c1 = Ok c2 /\
    forall d', exists id2 c3, create d' t c2 = Ok (id2, c3) /\ id2 ∈ issued a.
Proof.
  intros Hre Hl Hlast. pose proof (reachable_rep _ _ Hre) as Hr.
  destruct (decode_live c a id d Hr Hl) as (i & s & Hh & -> & -> & Hdec). assert (Hi := proj1 Hh).
  pose proof (rep_gen _ _ Hr _ _ Hi) as Hg. pose proof (rep_index _ _ _ _ Hr Hi) as Hib. pose proof (rep_bound _ _ Hr) as Hb.
  destruct (slot_id_parts i s Hg) as [_ Hm]. unfold last_generation in Hlast. rewrite Hm in Hlast. zbool.
  destruct (first_issued c a i Hre) as (t & Ht & Hin); [by eapply lookup_lt_Some|].
  set (g := generation s - (2 ^ 32 - 256)). assert (0 <= g < 256) as Hgb by (unfold g; lia).
  assert (u32 (generation s + GENERATION_STEP) = g) as Hu.
  { unfold u32, g. change GENERATION_STEP with 256. replace (generation s + 256) with (generation s - (2 ^ 32 - 256) + 1 * 2 ^ 32) by lia.
    rewrite Z.mod_add by lia. apply Z.mod_small. lia. }
  set (s1 := {| generation := g; data := data s |}). set (c1 := with_slot i s1 c).
  destruct (insert_slots i s s1 (slots_ c) Hi) as (Hi1 & _ & Hlen1). change (<[i := s1]> (slots_ c)) with (slots_ c1) in Hi1, Hlen1.
  assert (slot_id i s - (2 ^ 32 - 256) = Z.of_nat i * 2 ^ 32 + g) as -> by (unfold slot_id, g; lia).
  assert (decode_id (Z.of_nat i * 2 ^ 32 + g) c1 = Z.of_nat i) as Hdec1.
  { rewrite decode_id_spec by (rewrite ?Hlen1; lia). replace ((Z.of_nat i * 2 ^ 32 + g) / 2 ^ 32) with (Z.of_nat i) by zlia.
    replace ((Z.of_nat i * 2 ^ 32 + g) mod 2 ^ 32) with g by zlia. rewrite Nat2Z.id, Hi1. simpl. by rewrite Z.eqb_refl. }
  set (s2 := {| generation := g + 256; data := DataT0 |}).
  set (c2 := {| slots_ := <[i := s2]> (slots_ c1); empty_slots_ := empty_slots_ c ++ [Z.of_nat i] |}).
  exists t, c1, c2. cbv zeta. split_and!.
  - unfold reset_id. rewrite Hdec, (proj2 (Z.eqb_neq _ _)) by lia. simpl negb. cbv iota. unfold inc_generation. rewrite Nat2Z.id, Hi, Hu. cbn [res_bind].
    fold s1. fold c1. unfold encode_id. rewrite Nat2Z.id, Hi1. cbn [res_bind]. by rewrite encode_value by (simpl; lia).
  - zlia.
  - unfold get. rewrite Hdec1, (proj2 (Z.eqb_neq _ _)) by lia. by rewrite Nat2Z.id, Hi1.
  - unfold erase. rewrite Hdec1, (proj2 (Z.eqb_neq _ _)) by lia. unfold release, inc_generation. rewrite Nat2Z.id, Hi1. cbn [res_bind].
    cbn [with_slot slots_]. rewrite list_lookup_insert_eq by (rewrite Hlen1; by eapply lookup_lt_Some). cbn [generation].
    change GENERATION_STEP with 256. rewrite u32_small by (unfold is_u32; simpl; lia). cbn [generation s1].
    rewrite generation_left, (proj2 (Z.ltb_ge _ _)) by lia. cbn [negb]. unfold c2. by rewrite list_insert_insert_eq.
  - intros d'. unfold create, store. cbn [c2 empty_slots_]. rewrite last_snoc, Nat2Z.id. cbn [slots_ c2].
    rewrite list_lookup_insert_eq by (rewrite Hlen1; by eapply lookup_lt_Some). cbn [generation s2]. rewrite type_value by lia.
    replace ((g + 256) / 256 * 256 + t) with (256 + t) by zlia. cbn [res_bind]. unfold encode_id. cbn [slots_].
    rewrite Nat2Z.id, list_lookup_insert_eq by (rewrite length_insert, Hlen1; by eapply lookup_lt_Some). cbn [res_bind generation].
    rewrite encode_value by lia. eexists _, _. split; [done|]. exact Hin.
Qed.

End proofs.

(** C21. A container is a map from the identifiers it gave out since it was last cleared to
    objects.  In every state that a client can reach, each allowed operation ([clear]
    included) runs without a failed check and gives the result of the map; a new identifier
    differs from 0 and from every identifier given out since the container was cleared, also
    for objects that were erased, and an identifier of an erased object reaches nothing.  [size]
    and [ids] count a slot that ran out of generations besides the objects.  The one
    operation on an object that is not allowed is [reset_id] of an identifier with the last
    generation of its slot, and the theorem says what it does: the generation starts again,
    the new identifier is the old one less 2^32 - 256 (0 for the first slot and the type 0),
    and after it is erased the next object can get an identifier that was given out before. *)
Theorem container_refines {DataT} (DataT0 : DataT) c a o : reachable DataT0 c a ->
  (allowed o a -> exists out c', do_op DataT0 o c = Ok (out, c') /\ expected o out a /\ reachable DataT0 c' (objects_after o out a)) /\
  (forall id d, live a !! id = Some d -> last_generation id = true -> exists t c1 c2, let id' := id - (2 ^ 32 - 256) in
     reset_id id c = Ok (id', c1) /\ id' mod 2 ^ 32 < 256 /\ get id' c1 = Some d /\ erase DataT0 id' c1 = Ok c2 /\
     forall d', exists id2 c3, create d' t c2 = Ok (id2, c3) /\ id2 ∈ issued a).
Proof.
  intros Hre. split; [|intros id d; by apply reset_last].
  intros Ha. destruct (container_step DataT0 o c a (reachable_rep _ _ _ Hre) Ha) as (out & c' & Hdo & He & _).
  exists out, c'. split_and!; [done.. |]. by eapply reach_op.
Qed.

Definition used_once : Container (DataT := Z) := {| slots_ := [{| generation := 513; data := 0 |}]; empty_slots_ := [0] |}.

Lemma used_once_reachable : reachable 0 used_once {| live := ∅; issued := {[257]}; retired := 0 |}.
Proof.
  set (c1 := {| slots_ := [{| generation := 257; data := 5 |}]; empty_slots_ := [] |} : Container (DataT := Z)).
  set (a1 := objects_after (Create 5 1) (OId 257) no_objects).
  replace {| live := ∅; issued := {[257]}; retired := 0 |} with (objects_after (Erase 257) OUnit a1) by (vm_compute; reflexivity).
  apply (reach_op 0 (Erase 257) OUnit c1); [| cbn; set_solver | vm_compute; reflexivity].
  apply (reach_op 0 (Create 5 1) (OId 257) new_container); [apply reach_new | split; vm_compute; [split; congruence | reflexivity] | vm_compute; reflexivity].
Qed.

Lemma container_refines_witness :
  exists out c', do_op 0 (Create 6 1) used_once = Ok (out, c') /\ expected (Create 6 1) out {| live := ∅; issued := {[257]}; retired := 0 |} /\
    reachable 0 c' (objects_after (Create 6 1) out {| live := ∅; issued := {[257]}; retired := 0 |}).
Proof. apply (container_refines 0 used_once _ (Create 6 1) used_once_reachable). split; vm_compute; [split; congruence | reflexivity]. Defined.

(** The last generation of a slot is not protected against [reset_id]: the identifier that
    comes after it is the one with the generation 0, and it is 0 in the first slot. *)
Example reset_last_generation :
  reset_id (2 ^ 32 - 256) {| slots_ := [{| generation := 2 ^ 32 - 256; data := 5 |}]; empty_slots_ := [] |} =
  Ok (0, {| slots_ := [{| generation := 0; data := 5 |}]; empty_slots_ := [] |}).
Proof. vm_compute. reflexivity. Qed.
