(* ===== verification/ChainScheduler.v ===== *)
(** * Chains of tasks

    [ChainScheduler] (tdutils/td/utils/ChainScheduler.h), which decides which queries to the
    server may be sent.  A task belongs to any number of chains; in every chain the tasks are
    started in the order of their creation, without waiting for the end of the previous one,
    and at most ten at a time.  When a task of a chain fails, the chain gets a new generation,
    and tasks wait until the ones before them have been started again.

    A [ChainNode] is linked into the list of its chain and lies in the vector
    [chains] of its task; it is named by the task and its index there, and the
    list is the list of these names.  A [ChainInfo] is owned by [chains_] and lives while its
    list has a node, so the pointer [chain_info] of a [TaskChainInfo] is the entry of
    [chains_] for its [chain_id].  The hash maps are finite maps, as FlatHashTable shows. *)
From S2P Require Import Prelude SeqProcessors Container.
Local Open Scope td_scope.

Abbreviation TaskId := Z.
Abbreviation ChainId := Z.

(** The name of a [ChainNode]. *)
Abbreviation Node := (TaskId * nat)%type.

Record TaskWithParents := { task_id : TaskId; parents : list TaskId }.

Inductive State := Pending | Active | Paused.
#[global] Instance State_eq_dec : EqDecision State.
Proof. solve_decision. Defined.

(** ** Chains: the list of the nodes behind [head_] *)
Abbreviation Chain := (list Node).

Definition add_task (node : Node) (chain : Chain) : Chain := chain ++ [node].

Definition get_first (chain : Chain) : option TaskId := fst <$> head chain.

Fixpoint next_of (node : Node) (chain : Chain) : option Node :=
  match chain with
  | [] => None
  | n :: rest => if decide (n = node) then head rest else next_of node rest
  end.
Fixpoint prev_of (node : Node) (chain : Chain) : option Node :=
  match chain with
  | n :: ((n' :: _) as rest) => if decide (n' = node) then Some n else prev_of node rest
  | _ => None
  end.

(** A node that is in no list is its own neighbour. *)
Definition get_child (node : Node) (chain : Chain) : option TaskId :=
  if bool_decide (node ∈ chain) then fst <$> next_of node chain else Some (fst node).
Definition get_parent (node : Node) (chain : Chain) : option Node :=
  if bool_decide (node ∈ chain) then prev_of node chain else Some node.

(** [finish_task] of a chain. *)
Definition remove_node (node : Node) (chain : Chain) : Chain := filter (fun n => n <> node) chain.

(** [foreach_child]: from the node to the end. *)
Fixpoint from_node (node : Node) (chain : Chain) : list TaskId :=
  match chain with
  | [] => []
  | n :: rest => if decide (n = node) then map fst chain else from_node node rest
  end.

Record ChainInfo := { chain : Chain; active_tasks : Z; chain_generation : Z }.
Definition new_chain_info : ChainInfo := {| chain := []; active_tasks := 0; chain_generation := 1 |}.

(** [generation] is the one of the [chain_node]. *)
Record TaskChainInfo := { node_generation : Z; chain_id : ChainId }.

Section scheduler.
Context {ExtraT : Type} (ExtraT0 : ExtraT).

Record Task := { state : State; chains : list TaskChainInfo; extra : ExtraT }.
Definition new_task : Task := {| state := Pending; chains := []; extra := ExtraT0 |}.

Record ChainScheduler := {
  chains_ : gmap ChainId ChainInfo;
  limited_tasks_ : gmap ChainId TaskId;
  tasks_ : Container (DataT := Task);
  pending_tasks_ : VectorQueue.queue (T := TaskId);
  to_start_ : list TaskId;
}.

Definition new_scheduler : ChainScheduler :=
  {| chains_ := ∅; limited_tasks_ := ∅; tasks_ := new_container; pending_tasks_ := VectorQueue.init; to_start_ := [] |}.

Definition with_chains (m : gmap ChainId ChainInfo) (s : ChainScheduler) : ChainScheduler :=
  {| chains_ := m; limited_tasks_ := limited_tasks_ s; tasks_ := tasks_ s; pending_tasks_ := pending_tasks_ s; to_start_ := to_start_ s |}.
Definition with_limited (m : gmap ChainId TaskId) (s : ChainScheduler) : ChainScheduler :=
  {| chains_ := chains_ s; limited_tasks_ := m; tasks_ := tasks_ s; pending_tasks_ := pending_tasks_ s; to_start_ := to_start_ s |}.
Definition with_tasks (c : Container) (s : ChainScheduler) : ChainScheduler :=
  {| chains_ := chains_ s; limited_tasks_ := limited_tasks_ s; tasks_ := c; pending_tasks_ := pending_tasks_ s; to_start_ := to_start_ s |}.
Definition with_pending (q : VectorQueue.queue) (s : ChainScheduler) : ChainScheduler :=
  {| chains_ := chains_ s; limited_tasks_ := limited_tasks_ s; tasks_ := tasks_ s; pending_tasks_ := q; to_start_ := to_start_ s |}.
Definition with_to_start (l : list TaskId) (s : ChainScheduler) : ChainScheduler :=
  {| chains_ := chains_ s; limited_tasks_ := limited_tasks_ s; tasks_ := tasks_ s; pending_tasks_ := pending_tasks_ s; to_start_ := l |}.

(** ** Pointers *)
Definition get_task (t : TaskId) (s : ChainScheduler) : Res Task :=
  match get t (tasks_ s) with Some task => Ok task | None => Panic "task != nullptr" end.

Definition update_task (t : TaskId) (f : Task -> Task) (s : ChainScheduler) : Res ChainScheduler :=
  let* c := update t f (tasks_ s) in Ok (with_tasks c s).

Definition set_state (st : State) (task : Task) : Task := {| state := st; chains := chains task; extra := extra task |}.
Definition set_extra (e : ExtraT) (task : Task) : Task := {| state := state task; chains := chains task; extra := e |}.
Definition set_chains (l : list TaskChainInfo) (task : Task) : Task := {| state := state task; chains := l; extra := extra task |}.
Definition set_node_generation (k : nat) (g : Z) (task : Task) : Task :=
  set_chains (alter (fun i => {| node_generation := g; chain_id := chain_id i |}) k (chains task)) task.

(** [*task_chain_info.chain_info] *)
Definition deref_chain (c : ChainId) (s : ChainScheduler) : Res ChainInfo :=
  match chains_ s !! c with Some ci => Ok ci | None => Panic "chain_info" end.

(** [chain_node.generation] of a node of some task. *)
Definition generation_of (node : Node) (s : ChainScheduler) : Res Z :=
  let* task := get_task (fst node) s in
  match chains task !! snd node with Some i => Ok (node_generation i) | None => Panic "chains[k]" end.

(** The chains of a task with the indices of its nodes. *)
Definition nodes_of (task : Task) : list (nat * ChainId) := imap (fun k i => (k, chain_id i)) (chains task).

(** ** Starting tasks *)
Definition get_chain_info (c : ChainId) (s : ChainScheduler) : ChainInfo * ChainScheduler :=
  match chains_ s !! c with
  | Some ci => (ci, s)
  | None => (new_chain_info, with_chains (<[c := new_chain_info]> (chains_ s)) s)
  end.

Definition for_each_child (f : TaskId -> ChainScheduler -> Res ChainScheduler) (t : TaskId) :
    list (nat * ChainId) -> ChainScheduler -> Res ChainScheduler :=
  fix go l s :=
    match l with
    | [] => Ok s
    | (k, c) :: l =>
        let* ci := deref_chain c s in
        let* s := match get_child (t, k) (chain ci) with Some child => f child s | None => Ok s end in
        go l s
    end.

(** The loop of [try_start_task]: whether it comes to its end. *)
Fixpoint may_start (t : TaskId) (l : list (nat * ChainId)) (s : ChainScheduler) : Res (bool * ChainScheduler) :=
  match l with
  | [] => Ok (true, s)
  | (k, c) :: l =>
      let* ci := deref_chain c s in
      let* stale :=
        match get_parent (t, k) (chain ci) with
        | Some parent => let* g := generation_of parent s in Ok (negb (g =? chain_generation ci))
        | None => Ok false
        end in
      if stale then Ok (false, s)
      else if 10 <=? active_tasks ci then Ok (false, with_limited (<[c := t]> (limited_tasks_ s)) s)
      else may_start t l s
  end.

(** The first loop of [do_start_task]. *)
Fixpoint activate_nodes (t : TaskId) (l : list (nat * ChainId)) (s : ChainScheduler) : Res ChainScheduler :=
  match l with
  | [] => Ok s
  | (k, c) :: l =>
      let (ci, s) := get_chain_info c s in
      let ci := {| chain := chain ci; active_tasks := u32 (active_tasks ci + 1); chain_generation := chain_generation ci |} in
      let* s := update_task t (set_node_generation k (chain_generation ci)) (with_chains (<[c := ci]> (chains_ s)) s) in
      activate_nodes t l s
  end.

Definition do_start_task (try_start_task : TaskId -> ChainScheduler -> Res ChainScheduler)
    (t : TaskId) (task : Task) (s : ChainScheduler) : Res ChainScheduler :=
  let* s := activate_nodes t (nodes_of task) s in
  let* s := update_task t (set_state Active) s in
  let s := with_pending (VectorQueue.push t (pending_tasks_ s)) s in
  for_each_child try_start_task t (nodes_of task) s.

(** Every level of the recursion has made one more task active. *)
Fixpoint try_start (fuel : nat) (t : TaskId) (s : ChainScheduler) : Res ChainScheduler :=
  match fuel with
  | O => Panic "fuel"
  | S fuel =>
      let* task := get_task t s in
      if negb (bool_decide (state task = Pending)) then Ok s
      else
        let* (starts, s) := may_start t (nodes_of task) s in
        if starts then do_start_task (try_start fuel) t task s else Ok s
  end.
Definition try_start_task (t : TaskId) (s : ChainScheduler) : Res ChainScheduler :=
  try_start (S (length (slots_ (tasks_ s)))) t s.

Definition try_start_task_later (t : TaskId) (s : ChainScheduler) : Res ChainScheduler :=
  Ok (with_to_start (to_start_ s ++ [t]) s).

Fixpoint start_all (l : list TaskId) (s : ChainScheduler) : Res ChainScheduler :=
  match l with
  | [] => Ok s
  | t :: l => let* s := try_start_task t s in start_all l s
  end.
Definition flush_try_start_task (s : ChainScheduler) : Res ChainScheduler :=
  let moved_to_start := to_start_ s in
  let* s := start_all moved_to_start (with_to_start [] s) in
  CHECK! bool_decide (to_start_ s = []) else "to_start_.empty()" in Ok s.

(** ** Stopping tasks *)
Fixpoint inactivate_nodes (t : TaskId) (was_active failed : bool) (l : list (nat * ChainId)) (s : ChainScheduler) : Res ChainScheduler :=
  match l with
  | [] => Ok s
  | (k, c) :: l =>
      let* ci := deref_chain c s in
      let* g := generation_of (t, k) s in
      let ci := {| chain := chain ci;
                   active_tasks := if was_active then u32 (active_tasks ci - 1) else active_tasks ci;
                   chain_generation := if was_active && failed then Z.max (chain_generation ci) (u64 (g + 1))
                                       else chain_generation ci |} in
      let s := with_chains (<[c := ci]> (chains_ s)) s in
      let* s :=
        match limited_tasks_ s !! c with
        | Some limited =>
            let s := with_limited (delete c (limited_tasks_ s)) s in
            if negb (limited =? t) then try_start_task_later limited s else Ok s
        | None => Ok s
        end in
      let* s :=
        match get_first (chain ci) with
        | Some first => if negb (first =? t) then try_start_task_later first s else Ok s
        | None => Ok s
        end in
      inactivate_nodes t was_active failed l s
  end.
Definition inactivate_task (t : TaskId) (failed : bool) (s : ChainScheduler) : Res ChainScheduler :=
  let* task := get_task t s in
  let was_active := bool_decide (state task = Active) in
  let* s := update_task t (set_state Pending) s in
  inactivate_nodes t was_active failed (nodes_of task) s.

Fixpoint finish_chain_tasks (t : TaskId) (l : list (nat * ChainId)) (s : ChainScheduler) : Res ChainScheduler :=
  match l with
  | [] => Ok s
  | (k, c) :: l =>
      let* ci := deref_chain c s in
      let rest := remove_node (t, k) (chain ci) in
      let s :=
        if bool_decide (rest = []) then with_chains (delete c (chains_ s)) s
        else with_chains (<[c := {| chain := rest; active_tasks := active_tasks ci; chain_generation := chain_generation ci |}]> (chains_ s)) s in
      finish_chain_tasks t l s
  end.

(** ** The operations *)
Fixpoint make_infos (cs : list ChainId) (s : ChainScheduler) : Res (list TaskChainInfo * ChainScheduler) :=
  match cs with
  | [] => Ok ([], s)
  | c :: cs =>
      CHECK! negb (c =? 0) else "chain_id != 0" in
      let (_, s) := get_chain_info c s in
      let* (infos, s) := make_infos cs s in
      Ok ({| node_generation := 0; chain_id := c |} :: infos, s)
  end.
Fixpoint add_nodes (t : TaskId) (l : list (nat * ChainId)) (s : ChainScheduler) : Res ChainScheduler :=
  match l with
  | [] => Ok s
  | (k, c) :: l =>
      let* ci := deref_chain c s in
      let ci := {| chain := add_task (t, k) (chain ci); active_tasks := active_tasks ci; chain_generation := chain_generation ci |} in
      add_nodes t l (with_chains (<[c := ci]> (chains_ s)) s)
  end.

Definition create_task (cs : list ChainId) (e : ExtraT) (s : ChainScheduler) : Res (TaskId * ChainScheduler) :=
  let* (t, c) := create new_task 0 (tasks_ s) in
  let s := with_tasks c s in
  let* s := update_task t (set_extra e) s in
  let* (infos, s) := make_infos cs s in
  let* s := update_task t (set_chains infos) s in
  let* s := add_nodes t (imap (fun k i => (k, chain_id i)) infos) s in
  let* s := try_start_task t s in
  Ok (t, s).

Definition get_task_extra (t : TaskId) (s : ChainScheduler) : option ExtraT := extra <$> get t (tasks_ s).

Fixpoint get_parents (t : TaskId) (l : list (nat * ChainId)) (s : ChainScheduler) : Res (list TaskId) :=
  match l with
  | [] => Ok []
  | (k, c) :: l =>
      let* ci := deref_chain c s in
      let* rest := get_parents t l s in
      Ok (match get_parent (t, k) (chain ci) with Some parent => fst parent :: rest | None => rest end)
  end.
Definition start_next_task (s : ChainScheduler) : Res (option TaskWithParents * ChainScheduler) :=
  if VectorQueue.empty (pending_tasks_ s) then Ok (None, s)
  else
    let* (t, q) := VectorQueue.pop id (pending_tasks_ s) in
    let s := with_pending q s in
    let* task := get_task t s in
    let* ps := get_parents t (nodes_of task) s in
    Ok (Some {| task_id := t; parents := ps |}, s).

Definition finish_task (t : TaskId) (s : ChainScheduler) : Res ChainScheduler :=
  let* task := get_task t s in
  CHECK! bool_decide (to_start_ s = []) else "to_start_.empty()" in
  let* s := inactivate_task t false s in
  let* s := for_each_child try_start_task_later t (nodes_of task) s in
  let* s := finish_chain_tasks t (nodes_of task) s in
  let* c := erase new_task t (tasks_ s) in
  flush_try_start_task (with_tasks c s).

Definition reset_task (t : TaskId) (s : ChainScheduler) : Res ChainScheduler :=
  CHECK! bool_decide (to_start_ s = []) else "to_start_.empty()" in
  let* _ := get_task t s in
  let* s := inactivate_task t true s in
  let* s := try_start_task_later t s in
  flush_try_start_task s.

Definition pause_task (t : TaskId) (s : ChainScheduler) : Res ChainScheduler :=
  let* _ := get_task t s in
  let* s := inactivate_task t true s in
  let* s := update_task t (set_state Paused) s in
  flush_try_start_task s.

(** The tasks for which [for_each_dependent] calls its argument. *)
Fixpoint dependent_tasks (check_for_collisions : bool) (visited : gset TaskId) (l : list TaskId) : list TaskId * gset TaskId :=
  match l with
  | [] => ([], visited)
  | t :: l =>
      if check_for_collisions && bool_decide (t ∈ visited) then dependent_tasks check_for_collisions visited l
      else
        let (rest, visited) := dependent_tasks check_for_collisions ({[t]} ∪ visited) l in
        (t :: rest, visited)
  end.
Fixpoint dependents (t : TaskId) (check_for_collisions : bool) (visited : gset TaskId) (l : list (nat * ChainId)) (s : ChainScheduler) : Res (list TaskId) :=
  match l with
  | [] => Ok []
  | (k, c) :: l =>
      let* ci := deref_chain c s in
      let (found, visited) := dependent_tasks check_for_collisions visited (from_node (t, k) (chain ci)) in
      let* rest := dependents t check_for_collisions visited l s in
      Ok (found ++ rest)
  end.
Definition for_each_dependent (t : TaskId) (s : ChainScheduler) : Res (list TaskId) :=
  let* task := get_task t s in
  dependents t (Nat.ltb 1 (length (chains task))) ∅ (nodes_of task) s.

End scheduler.

(** ** Neighbours in a list *)
Lemma prev_of_None n l : n ∉ tail l -> prev_of n l = None.
Proof.
  induction l as [|m l IH]; [done|]. simpl. intros Hn. destruct l as [|m' l]; [done|].
  rewrite decide_False by set_solver. apply IH. set_solver.
Qed.

Lemma prev_of_app n l1 l2 : NoDup (l1 ++ n :: l2) -> prev_of n (l1 ++ n :: l2) = last l1.
Proof.
  induction l1 as [|m l1 IH]; simpl.
  - intros [Hn _]%NoDup_cons. by apply (prev_of_None n (n :: l2)).
  - intros [Hm Hnd]%NoDup_cons. destruct l1 as [|m' l1]; simpl.
    + by rewrite decide_True.
    + rewrite decide_False; [by apply IH|]. intros ->. simpl in Hnd. apply NoDup_cons in Hnd as [Hnd _]. set_solver.
Qed.

Lemma next_of_app n l1 l2 : n ∉ l1 -> next_of n (l1 ++ n :: l2) = head l2.
Proof.
  induction l1 as [|m l1 IH]; simpl; intros Hn; [by rewrite decide_True|].
  rewrite decide_False by set_solver. apply IH. set_solver.
Qed.

Lemma prev_of_in n p l : prev_of n l = Some p -> p ∈ l /\ n ∈ l.
Proof.
  induction l as [|m l IH]; [done|]. simpl. destruct l as [|m' l]; [done|].
  case_decide; [intros [= ->]; set_solver|]. intros []%IH. set_solver.
Qed.

Lemma prev_next n p l : NoDup l -> prev_of n l = Some p -> next_of p l = Some n.
Proof.
  intros Hnd Hp. destruct (prev_of_in _ _ _ Hp) as [_ Hn]. apply list_elem_of_split in Hn as (l1 & l2 & ->).
  rewrite prev_of_app in Hp by done. apply last_Some in Hp as [l0 ->]. rewrite <- app_assoc in *. simpl in *.
  apply NoDup_app in Hnd as (_ & Hnot & _). rewrite next_of_app; [done|]. intros H. apply (Hnot _ H). set_solver.
Qed.

Lemma prev_of_out n l : n ∉ l -> prev_of n l = None.
Proof. intros Hn. apply prev_of_None. destruct l; set_solver. Qed.

Lemma prev_of_snoc n m l : NoDup (l ++ [m]) -> n <> m -> prev_of n (l ++ [m]) = prev_of n l.
Proof.
  intros Hnd Hne. destruct (decide (n ∈ l)) as [Hn|Hn].
  - apply list_elem_of_split in Hn as (l1 & l2 & ->). rewrite <- app_assoc in *. simpl in *.
    rewrite !prev_of_app; [done | | done]. apply (NoDup_app (l1 ++ n :: l2) [m]). by rewrite <- app_assoc.
  - rewrite !prev_of_out; [done | done | set_solver].
Qed.

(** Removing a node gives its successor its predecessor. *)
Lemma prev_of_remove n m l : NoDup l -> n <> m -> prev_of n l <> Some m -> prev_of n (remove_node m l) = prev_of n l.
Proof.
  intros Hnd Hne Hp. unfold remove_node. destruct (decide (n ∈ l)) as [Hn|Hn].
  - apply list_elem_of_split in Hn as (l1 & l2 & ->). rewrite prev_of_app in Hp |- * by done.
    rewrite filter_app, filter_cons_True by done. rewrite prev_of_app.
    + destruct (last l1) as [p|] eqn:Hl.
      * apply last_Some in Hl as [l0 ->]. rewrite filter_app, filter_cons_True by congruence. rewrite filter_nil. by rewrite last_snoc.
      * apply last_None in Hl. by rewrite Hl.
    + rewrite <- (filter_cons_True (fun n => n <> m)) by done. rewrite <- filter_app. by apply NoDup_filter.
  - rewrite !prev_of_out; [done | done |]. rewrite list_elem_of_filter. naive_solver.
Qed.

(** ** The invariant *)
Section invariant.
Context {ExtraT : Type}.
Implicit Types (T : gmap TaskId (Task (ExtraT := ExtraT))) (s : ChainScheduler (ExtraT := ExtraT)) (a : objects (DataT := Task (ExtraT := ExtraT))).

Definition node_gen T (n : Node) : option Z :=
  match T !! n.1 with Some task => node_generation <$> chains task !! n.2 | None => None end.
Definition in_chain T (c : ChainId) (n : Node) : Prop :=
  exists task i, T !! n.1 = Some task /\ chains task !! n.2 = Some i /\ chain_id i = c.
Definition task_state T (t : TaskId) : option State := state <$> T !! t.

(** The node was started in the generation that its chain has now. *)
Definition current T (ci : ChainInfo) (n : Node) : Prop := node_gen T n = Some (chain_generation ci).
(** The chain lets the task of the node start. *)
Definition candidate T (ci : ChainInfo) (n : Node) : Prop := forall p, prev_of n (chain ci) = Some p -> current T ci p.
Definition active_nodes T (l : list Node) : list Node := filter (fun n => task_state T n.1 = Some Active) l.

(** The chain [c]: its nodes are those of its tasks in the order of creation [ord], the
    current ones are at its beginning and belong to active tasks, and the number of active
    tasks is right and at most 10. *)
Record chain_wf T (ord : list TaskId) (c : ChainId) (ci : ChainInfo) : Prop := {
  cw_nonempty : chain ci <> [];
  cw_order : map fst (chain ci) `sublist_of` ord;
  cw_nodes n : n ∈ chain ci <-> in_chain T c n;
  cw_gens n g : n ∈ chain ci -> node_gen T n = Some g -> 0 <= g <= chain_generation ci;
  cw_pos : 1 <= chain_generation ci < 2 ^ 64;
  cw_split : exists la lb, chain ci = la ++ lb /\ Forall (current T ci) la /\ Forall (fun n => ~ current T ci n) lb;
  cw_current n : n ∈ chain ci -> current T ci n -> task_state T n.1 = Some Active;
  cw_active : active_tasks ci = Z.of_nat (length (active_nodes T (chain ci)));
  cw_limit : active_tasks ci <= 10;
}.

(** Why a pending task is not started: one of its chains does not let it, or has ten active
    tasks and will try it as soon as one of them stops. *)
Definition blocked T (C : gmap ChainId ChainInfo) (L : gmap ChainId TaskId) (t : TaskId) : Prop :=
  exists c ci k, C !! c = Some ci /\ (t, k) ∈ chain ci /\ (~ candidate T ci (t, k) \/ L !! c = Some t).

Definition limited_ok T (C : gmap ChainId ChainInfo) (L : gmap ChainId TaskId) : Prop :=
  forall c t, L !! c = Some t -> exists ci k, C !! c = Some ci /\ (t, k) ∈ chain ci /\
    task_state T t = Some Pending /\ candidate T ci (t, k) /\ 10 <= active_tasks ci.

Record queue_wf T (q : VectorQueue.queue) : Prop := {
  qw_wf : VectorQueue.wf q;
  qw_read : (VectorQueue.read_pos_ q <= length (VectorQueue.contents q) + 5)%nat;
  qw_nodup : NoDup (VectorQueue.contents q);
  qw_active t : t ∈ VectorQueue.contents q -> task_state T t = Some Active;
}.

(** A task that waits to be handed out comes after the ones before it in its chains. *)
Definition queue_order T (C : gmap ChainId ChainInfo) (q : VectorQueue.queue) : Prop :=
  forall c ci l1 n l2 q1 q2, C !! c = Some ci -> chain ci = l1 ++ n :: l2 -> current T ci n ->
  VectorQueue.contents q = q1 ++ n.1 :: q2 -> forall m, m ∈ l1 -> m.1 ∉ q2.

(** The invariant, where the tasks in [X] may be startable and not started yet. *)
Record inv (X : TaskId -> Prop) a (ord : list TaskId) s : Prop := {
  iv_rep : rep (tasks_ s) a;
  iv_nodup : NoDup ord;
  iv_dom t : t ∈ ord <-> is_Some (live a !! t);
  iv_ids t task : live a !! t = Some task -> NoDup (map chain_id (chains task));
  iv_chain c ci : chains_ s !! c = Some ci -> chain_wf (live a) ord c ci;
  iv_some c n : in_chain (live a) c n -> is_Some (chains_ s !! c);
  iv_limited : limited_ok (live a) (chains_ s) (limited_tasks_ s);
  iv_queue : queue_wf (live a) (pending_tasks_ s);
  iv_order : queue_order (live a) (chains_ s) (pending_tasks_ s);
  iv_woken t : task_state (live a) t = Some Pending -> ~ X t -> blocked (live a) (chains_ s) (limited_tasks_ s) t;
}.

(** ** Facts about the invariant *)
Lemma in_nodes_of (task : Task (ExtraT := ExtraT)) k c :
  (k, c) ∈ nodes_of task <-> exists i, chains task !! k = Some i /\ chain_id i = c.
Proof.
  unfold nodes_of. rewrite elem_of_lookup_imap. split.
  - intros (k' & i & [= -> ->] & Hi). eauto.
  - intros (i & Hi & <-). eauto.
Qed.

Lemma in_chain_nodes T c t task k : T !! t = Some task -> in_chain T c (t, k) <-> (k, c) ∈ nodes_of task.
Proof. intros Ht. rewrite in_nodes_of. unfold in_chain. simpl. split; [intros (?&?&?&?&?); simplify_eq; eauto | naive_solver]. Qed.

Lemma chain_nodup T ord c ci : NoDup ord -> chain_wf T ord c ci -> NoDup (map fst (chain ci)).
Proof. intros Hnd Hw. eapply sublist_NoDup; [done | apply (cw_order _ _ _ _ Hw)]. Qed.

Lemma NoDup_map_fst {A B} (l : list (A * B)) : NoDup (map fst l) -> NoDup l.
Proof. apply NoDup_fmap_1. Qed.

Lemma same_node T ord c ci t k k' : NoDup ord -> chain_wf T ord c ci -> (t, k) ∈ chain ci -> (t, k') ∈ chain ci -> k = k'.
Proof.
  intros Hnd Hw H1 H2. pose proof (chain_nodup _ _ _ _ Hnd Hw) as Hn.
  apply list_elem_of_lookup in H1 as [i Hi], H2 as [j Hj].
  assert (i = j) as ->; [|congruence]. eapply (NoDup_lookup (map fst (chain ci)) i j t); [done | |];
    rewrite list_lookup_fmap; [by rewrite Hi | by rewrite Hj].
Qed.

(** A candidate that is not current is the first node that is not. *)
Lemma candidate_split T ord c ci n : NoDup ord -> chain_wf T ord c ci -> n ∈ chain ci -> candidate T ci n -> ~ current T ci n ->
  exists la lb, chain ci = la ++ n :: lb /\ Forall (current T ci) la /\ Forall (fun m => ~ current T ci m) lb.
Proof.
  intros Hnd Hw Hn Hc Hcur. pose proof (NoDup_map_fst _ (chain_nodup _ _ _ _ Hnd Hw)) as Hnodup.
  destruct (cw_split _ _ _ _ Hw) as (la & lb & Heq & Ha & Hb).
  destruct lb as [|m lb]; [exfalso; rewrite app_nil_r in Heq; rewrite Heq in Hn; rewrite Forall_forall in Ha; eauto|].
  exists la, lb. destruct (decide (m = n)) as [->|Hne]; [by inversion Hb|]. exfalso.
  assert (n ∈ lb) as Hin.
  { rewrite Heq, elem_of_app, elem_of_cons in Hn. destruct Hn as [Hn | [-> | Hn]]; [|done..]. rewrite Forall_forall in Ha. by apply Ha in Hn. }
  apply list_elem_of_split in Hin as (l1 & l2 & ->). unfold candidate in Hc. rewrite Heq in Hc, Hnodup.
  change (m :: l1 ++ n :: l2) with ((m :: l1) ++ n :: l2) in *. rewrite app_assoc in *. rewrite prev_of_app in Hc by done.
  destruct (last (la ++ m :: l1)) as [p|] eqn:Hl; [|by apply last_None, app_nil in Hl as [_ ?]].
  specialize (Hc p eq_refl). rewrite last_app_cons in Hl.
  assert (p ∈ m :: l1) as Hp by (apply last_Some in Hl as [l' ->]; set_solver).
  rewrite Forall_app in Hb. destruct Hb as [Hb _]. rewrite Forall_forall in Hb. by apply (Hb p).
Qed.

Lemma pending_not_current T ord c ci n : chain_wf T ord c ci -> n ∈ chain ci -> task_state T n.1 <> Some Active -> ~ current T ci n.
Proof. intros Hw Hn Hs Hc. by apply (cw_current _ _ _ _ Hw) in Hc. Qed.

(** Only one task is waiting in a chain. *)
Lemma candidate_unique T ord c ci n m : NoDup ord -> chain_wf T ord c ci -> n ∈ chain ci -> m ∈ chain ci ->
  candidate T ci n -> candidate T ci m -> ~ current T ci n -> ~ current T ci m -> n = m.
Proof.
  intros Hnd Hw Hn Hm Hcn Hcm Hn' Hm'.
  destruct (candidate_split _ _ _ _ _ Hnd Hw Hn Hcn Hn') as (la & lb & H1 & Ha & Hb).
  destruct (candidate_split _ _ _ _ _ Hnd Hw Hm Hcm Hm') as (la' & lb' & H2 & Ha' & Hb').
  rewrite H1 in H2. clear H1. revert la' Ha' H2. induction Ha as [|x la Hx Ha IH]; intros [|y la'] Ha' H2; simpl in H2; injection H2; [done | ..].
  - intros _ <-. by inversion Ha'.
  - intros _ ->. done.
  - intros H ->. apply (IH la'); [by inversion Ha' | done].
Qed.

(** The nodes before a current one are current. *)
Lemma before_current T ord c ci l1 n l2 m : NoDup ord -> chain_wf T ord c ci -> chain ci = l1 ++ n :: l2 -> current T ci n -> m ∈ l1 -> current T ci m.
Proof.
  intros Hnd Hw Heq Hn Hm. destruct (cw_split _ _ _ _ Hw) as (la & lb & Hsplit & Ha & Hb). rewrite Heq in Hsplit. rewrite Forall_forall in Ha, Hb.
  apply app_eq_inv in Hsplit as [(k & -> & ->) | (k & -> & _)].
  - exfalso. apply (Hb n); [|done]. apply elem_of_app. right. by left.
  - apply Ha, elem_of_app. by left.
Qed.

(** A task of the scheduler is in all of its chains. *)
Lemma task_chain X a ord s t task k c : inv X a ord s -> live a !! t = Some task -> (k, c) ∈ nodes_of task ->
  exists ci, chains_ s !! c = Some ci /\ chain_wf (live a) ord c ci /\ (t, k) ∈ chain ci.
Proof.
  intros Hi Ht Hk. assert (in_chain (live a) c (t, k)) as Hin by (by rewrite (in_chain_nodes _ _ _ task)).
  destruct (iv_some _ _ _ _ Hi _ _ Hin) as [ci Hci]. exists ci. pose proof (iv_chain _ _ _ _ Hi _ _ Hci) as Hw. split_and!; [done..|].
  by apply (cw_nodes _ _ _ _ Hw).
Qed.

Lemma get_task_live X a ord s t task : inv X a ord s -> live a !! t = Some task -> get_task t s = Ok task.
Proof. intros Hi Ht. unfold get_task. by rewrite (get_live _ a _ _ (iv_rep _ _ _ _ Hi) Ht). Qed.

Lemma chain_task T ord c ci n : chain_wf T ord c ci -> n ∈ chain ci -> exists task i, T !! n.1 = Some task /\ chains task !! n.2 = Some i /\ chain_id i = c.
Proof. intros Hw Hn. by apply (cw_nodes _ _ _ _ Hw) in Hn. Qed.

Lemma generation_of_live X a ord s c ci n : inv X a ord s -> chains_ s !! c = Some ci -> n ∈ chain ci ->
  exists g, generation_of n s = Ok g /\ node_gen (live a) n = Some g.
Proof.
  intros Hi Hc Hn. destruct (chain_task _ _ _ _ _ (iv_chain _ _ _ _ Hi _ _ Hc) Hn) as (task & i & Ht & Hk & _).
  exists (node_generation i). unfold generation_of, node_gen. rewrite (get_task_live _ _ _ _ _ _ Hi Ht), Ht. simpl. by rewrite Hk.
Qed.

Lemma inv_weaken (X Y : TaskId -> Prop) a ord s : (forall t, X t -> Y t) -> inv X a ord s -> inv Y a ord s.
Proof. intros H Hi. destruct Hi. constructor; auto. Qed.

(** The nodes of a task that are not of another task. *)
Lemma other_task T ord c ci t k n : NoDup ord -> chain_wf T ord c ci -> (t, k) ∈ chain ci -> n ∈ chain ci -> n <> (t, k) -> n.1 <> t.
Proof. intros Hnd Hw Ht Hn Hne <-. destruct n as [t' k']. simpl in *. by rewrite (same_node _ _ _ _ _ _ _ Hnd Hw Ht Hn) in Hne. Qed.

(** Which tasks are in which chains. *)
Definition shape T (t : TaskId) : option (list ChainId) := (fun task => map chain_id (chains task)) <$> T !! t.

Lemma in_chain_shape T c n : in_chain T c n <-> exists l, shape T n.1 = Some l /\ l !! n.2 = Some c.
Proof.
  unfold in_chain, shape. split.
  - intros (task & i & -> & Hi & <-). simpl. eexists. split; [done|]. rewrite list_lookup_fmap, Hi. done.
  - destruct (T !! n.1) as [task|]; simpl; [|naive_solver]. intros (l & [= <-] & Hl). rewrite list_lookup_fmap in Hl.
    destruct (chains task !! n.2) as [i|] eqn:Hi; simplify_eq/=. eauto.
Qed.

Lemma in_chain_same T T' c n : (forall t, shape T' t = shape T t) -> in_chain T' c n <-> in_chain T c n.
Proof. intros H. rewrite !in_chain_shape. by setoid_rewrite H. Qed.

Lemma active_nodes_ext T T' l : (forall n, n ∈ l -> task_state T' n.1 = task_state T n.1) -> active_nodes T' l = active_nodes T l.
Proof.
  unfold active_nodes. induction l as [|n l IH]; intros H; [done|]. rewrite !filter_cons, (H n) by set_solver.
  rewrite IH by set_solver. done.
Qed.

Lemma candidate_ext T T' ci ci' n : (forall m, m ∈ chain ci -> node_gen T' m = node_gen T m) -> chain ci' = chain ci ->
  chain_generation ci' = chain_generation ci -> candidate T ci n <-> candidate T' ci' n.
Proof.
  intros Hg Hc HG. unfold candidate, current. rewrite Hc, HG. split; intros H p Hp; specialize (H p Hp);
    [rewrite Hg | rewrite <- Hg]; try done; by apply prev_of_in in Hp as [].
Qed.

(** A chain does not change when its nodes do not. *)
Lemma chain_wf_ext T T' ord c ci : (forall n, n ∈ chain ci -> node_gen T' n = node_gen T n /\ task_state T' n.1 = task_state T n.1) ->
  (forall n, in_chain T' c n <-> in_chain T c n) -> chain_wf T ord c ci -> chain_wf T' ord c ci.
Proof.
  intros Hsame Hin Hw. destruct Hw as [H1 H2 H3 H4 H5 (la & lb & Heq & Ha & Hb) H7 H8 H9]. constructor; try done.
  - intros n. by rewrite H3, Hin.
  - intros n g Hn. rewrite (proj1 (Hsame n Hn)). by apply H4.
  - exists la, lb. split; [done|]. rewrite !Forall_forall in *. unfold current in *.
    assert (forall n, n ∈ la \/ n ∈ lb -> n ∈ chain ci) as Hmem by (intros n; by rewrite Heq, elem_of_app).
    split; intros n Hn; rewrite (proj1 (Hsame n (Hmem n ltac:(tauto)))); by auto.
  - intros n Hn. unfold current in *. destruct (Hsame n Hn) as [-> ->]. by apply H7.
  - rewrite H8. by rewrite (active_nodes_ext T T') by (intros; by apply Hsame).
Qed.

(** ** Trying to start a task *)
Lemma deref_live X a ord s t task k c : inv X a ord s -> live a !! t = Some task -> (k, c) ∈ nodes_of task ->
  exists ci, deref_chain c s = Ok ci /\ chains_ s !! c = Some ci /\ chain_wf (live a) ord c ci /\ (t, k) ∈ chain ci.
Proof. intros Hi Ht Hk. destruct (task_chain _ _ _ _ _ _ _ _ Hi Ht Hk) as (ci & Hc & ?). exists ci. unfold deref_chain. by rewrite Hc. Qed.

Lemma may_start_spec X a ord s t task l : inv X a ord s -> live a !! t = Some task -> (forall x, x ∈ l -> x ∈ nodes_of task) ->
  (may_start t l s = Ok (true, s) /\
     forall k c ci, (k, c) ∈ l -> chains_ s !! c = Some ci -> candidate (live a) ci (t, k) /\ active_tasks ci < 10) \/
  (exists k c ci, chains_ s !! c = Some ci /\ (t, k) ∈ chain ci /\ ~ candidate (live a) ci (t, k) /\ may_start t l s = Ok (false, s)) \/
  (exists k c ci, chains_ s !! c = Some ci /\ (t, k) ∈ chain ci /\ candidate (live a) ci (t, k) /\ 10 <= active_tasks ci /\
     may_start t l s = Ok (false, with_limited (<[c := t]> (limited_tasks_ s)) s)).
Proof.
  intros Hi Ht. induction l as [|[k c] l IH]; intros Hl; [left; split; [done|]; intros ? ? ? Hin; by apply elem_of_nil in Hin|].
  cbn [may_start]. destruct (deref_live _ _ _ _ _ _ k c Hi Ht) as (ci & -> & Hc & Hw & Hk); [apply Hl; by left|]. cbn [res_bind].
  unfold get_parent. rewrite bool_decide_eq_true_2 by done.
  assert ((exists b, match prev_of (t, k) (chain ci) with
    | Some parent => let* g := generation_of parent s in Ok (negb (g =? chain_generation ci))
    | None => Ok false
    end = Ok b /\ (b = true -> ~ candidate (live a) ci (t, k)) /\ (b = false -> candidate (live a) ci (t, k)))) as (b & -> & Hb & Hb').
  { unfold candidate. destruct (prev_of (t, k) (chain ci)) as [p|] eqn:Hp; [|by exists false].
    destruct (generation_of_live X a ord s c ci p) as (g & -> & Hg); [done.. | by apply prev_of_in in Hp as [] |]. cbn [res_bind].
    eexists. split; [done|]. unfold current. split; intros E; zbool.
    - intros H. specialize (H p eq_refl). congruence.
    - intros p' [= <-]. congruence. }
  cbn [res_bind]. destruct b; [right; left; exists k, c, ci; by auto|]. destruct (10 <=? active_tasks ci) eqn:E; zbool.
  - right. right. exists k, c, ci. split_and!; auto.
  - destruct IH as [[Hm Hall] | [H | H]]; [intros x Hx; apply Hl; by right | left | by right; left | by right; right]. split; [done|].
    intros k' c' ci' [[= -> ->] | Hin]%elem_of_cons Hc'; [|by eapply Hall]. simplify_eq. auto.
Qed.

Lemma stale_inv X a ord s t ci c k : inv X a ord s -> chains_ s !! c = Some ci -> (t, k) ∈ chain ci ->
  ~ candidate (live a) ci (t, k) -> inv (fun x => X x /\ x <> t) a ord s.
Proof.
  intros Hi Hc Hk Hnot. destruct Hi. constructor; try done. intros t' Hp HX.
  destruct (decide (t' = t)) as [->|]; [exists c, ci, k; by auto | apply iv_woken0; tauto].
Qed.

Lemma limited_inv X a ord s t ci c k : inv X a ord s -> chains_ s !! c = Some ci -> (t, k) ∈ chain ci ->
  task_state (live a) t = Some Pending -> candidate (live a) ci (t, k) -> 10 <= active_tasks ci ->
  inv (fun x => X x /\ x <> t) a ord (with_limited (<[c := t]> (limited_tasks_ s)) s).
Proof.
  intros Hi Hc Hk Hs Hcand Hfull. pose proof (iv_chain _ _ _ _ Hi _ _ Hc) as Hw. pose proof (iv_limited _ _ _ _ Hi) as HL.
  assert (forall t', limited_tasks_ s !! c = Some t' -> t' = t) as Hsame.
  { intros t' Ht'. destruct (HL _ _ Ht') as (ci' & k' & Hc' & Hk' & Hs' & Hcand' & _). simplify_eq.
    assert ((t', k') = (t, k)) as Heq; [|congruence].
    apply (candidate_unique (live a) ord c ci); [apply Hi | done.. | |]; (eapply pending_not_current; [done.. |]); cbn [fst]; congruence. }
  destruct Hi. constructor; simpl; try done.
  - intros c' t'. rewrite lookup_insert_Some. intros [[<- <-] | [_ H]]; [exists ci, k; by auto | by apply HL].
  - intros t' Hp HX. destruct (decide (t' = t)) as [->|Hne].
    + exists c, ci, k. split_and!; [done..|]. right. by rewrite lookup_insert_eq.
    + destruct (iv_woken0 t' Hp) as (c' & ci' & k' & Hc' & Hk' & H); [tauto|]. exists c', ci', k'. split_and!; [done..|].
      destruct H as [H|H]; [by left | right]. rewrite lookup_insert_ne; [done|]. intros <-. by apply Hsame in H.
Qed.

End invariant.
