(* ===== verification/ChainTasks.v ===== *)
(** * Chains of tasks: the theorems

    The operations of [ChainScheduler] keep its invariant: no check fails, the recursion of
    [try_start_task] ends, tasks are started in order, and none is forgotten. *)
From S2P Require Import Prelude SeqProcessors Container ChainScheduler.
Local Open Scope td_scope.
#[local] Arguments u32 : simpl never.
#[local] Arguments u64 : simpl never.

Section start.
Context {ExtraT : Type}.
Implicit Types (T : gmap TaskId (Task (ExtraT := ExtraT))) (s : ChainScheduler (ExtraT := ExtraT)) (a : objects (DataT := Task (ExtraT := ExtraT))).

(** ** Assignments to a task *)
Definition with_task (t : TaskId) (task : Task) a : objects := {| live := <[t := task]> (live a); issued := issued a; retired := retired a |}.

Lemma update_task_spec s a t task f : rep (tasks_ s) a -> live a !! t = Some task ->
  exists c, update_task t f s = Ok (with_tasks c s) /\ rep c (with_task t (f task) a).
Proof.
  intros Hr Ht. unfold update_task. destruct (update_spec _ _ _ _ f Hr Ht) as (c & -> & ?). by exists c.
Qed.

Lemma with_task_twice t t1 t2 a : with_task t t2 (with_task t t1 a) = with_task t t2 a.
Proof. unfold with_task. simpl. by rewrite insert_insert_eq. Qed.

(** ** The first loop of [do_start_task] *)
Definition add_active (ci : ChainInfo) : ChainInfo :=
  {| chain := chain ci; active_tasks := active_tasks ci + 1; chain_generation := chain_generation ci |}.
Definition started_info (C : gmap ChainId ChainInfo) (i : TaskChainInfo) : TaskChainInfo :=
  {| node_generation := match C !! chain_id i with Some ci => chain_generation ci | None => 0 end; chain_id := chain_id i |}.

Definition changed (f : ChainInfo -> ChainInfo) (cs : list ChainId) (C C' : gmap ChainId ChainInfo) : Prop :=
  forall c, C' !! c = (if bool_decide (c ∈ cs) then f else id) <$> C !! c.

Lemma set_node_generation_at pre i rest g (task : Task (ExtraT := ExtraT)) : chains task = pre ++ i :: rest ->
  set_node_generation (length pre) g task = set_chains (pre ++ {| node_generation := g; chain_id := chain_id i |} :: rest) task.
Proof. intros H. unfold set_node_generation. f_equal. rewrite H. rewrite <- (Nat.add_0_r (length pre)). by rewrite alter_app_r. Qed.

Lemma activate_nodes_spec t rest : forall pre task s a,
  rep (tasks_ s) a -> live a !! t = Some task -> chains task = pre ++ rest -> NoDup (map chain_id rest) ->
  (forall i, i ∈ rest -> exists ci, chains_ s !! chain_id i = Some ci /\ 0 <= active_tasks ci < 10) ->
  exists c C, activate_nodes t (imap (fun k i => ((length pre + k)%nat, chain_id i)) rest) s = Ok (with_tasks c (with_chains C s)) /\
    rep c (with_task t (set_chains (pre ++ map (started_info (chains_ s)) rest) task) a) /\
    changed add_active (map chain_id rest) (chains_ s) C.
Proof.
  induction rest as [|i rest IH]; intros pre task s a Hr Ht Hch Hnd Hall.
  - exists (tasks_ s), (chains_ s). simpl. split; [by destruct s|]. split; [|by intros c; destruct (chains_ s !! c)].
    rewrite app_nil_r in Hch |- *. assert (set_chains pre task = task) as -> by (destruct task; simpl in *; by subst).
    unfold with_task. rewrite insert_id by done. by destruct a.
  - rewrite imap_cons. cbn [activate_nodes]. rewrite Nat.add_0_r. destruct (Hall i) as (ci & Hci & Hact); [by left|].
    unfold get_chain_info. rewrite Hci. rewrite u32_small by (unfold is_u32; lia).
    destruct (update_task_spec (with_chains (<[chain_id i := add_active ci]> (chains_ s)) s) a t task
      (set_node_generation (length pre) (chain_generation ci)) Hr Ht) as (c1 & Hup & Hr1).
    change {| chain := chain ci; active_tasks := active_tasks ci + 1; chain_generation := chain_generation ci |} with (add_active ci).
    change (chain_generation (add_active ci)) with (chain_generation ci). rewrite Hup. cbn [res_bind].
    rewrite (set_node_generation_at pre i rest) in Hr1 by done.
    set (task1 := set_chains (pre ++ _ :: rest) task) in *. set (s1 := with_tasks c1 _).
    apply NoDup_cons in Hnd as [Hi Hnd].
    destruct (IH (pre ++ [started_info (chains_ s) i]) task1 s1 (with_task t task1 a)) as (c2 & C2 & H2 & Hr2 & HC2).
    + done.
    + simpl. by rewrite lookup_insert_eq.
    + simpl. rewrite <- app_assoc. simpl. unfold started_info. by rewrite Hci.
    + done.
    + intros j Hj. simpl. rewrite lookup_insert_ne; [apply Hall; by right|]. intros Heq. apply Hi. rewrite Heq. apply list_elem_of_fmap. eauto.
    + exists c2, C2. split; [|split].
      * etrans; [|exact H2]. f_equal. rewrite length_app. simpl. apply imap_ext. intros k j _. simpl. f_equal. lia.
      * rewrite with_task_twice in Hr2. rewrite <- app_assoc in Hr2. simpl in Hr2.
        assert (map (started_info (<[chain_id i := add_active ci]> (chains_ s))) rest = map (started_info (chains_ s)) rest) as Heq.
        { apply map_ext_in. intros j Hj%list_elem_of_In. unfold started_info. rewrite lookup_insert_ne; [done|].
          intros Heq. apply Hi. rewrite Heq. apply list_elem_of_fmap. eauto. }
        rewrite Heq in Hr2. done.
      * intros c. rewrite (HC2 c). simpl. destruct (decide (c = chain_id i)) as [->|Hne].
        -- rewrite lookup_insert_eq, Hci. rewrite bool_decide_eq_false_2 by done. by rewrite bool_decide_eq_true_2 by (by left).
        -- rewrite lookup_insert_ne by done. f_equal. erewrite bool_decide_ext; [done|]. set_solver.
Qed.

(** A candidate of a chain becomes current and active. *)
Lemma chain_started T T1 ord c ci t k : NoDup ord -> chain_wf T ord c ci -> (t, k) ∈ chain ci -> candidate T ci (t, k) ->
  task_state T t <> Some Active -> active_tasks ci < 10 ->
  (forall n, n ∈ chain ci -> n <> (t, k) -> node_gen T1 n = node_gen T n /\ task_state T1 n.1 = task_state T n.1) ->
  (forall n, in_chain T1 c n <-> in_chain T c n) -> node_gen T1 (t, k) = Some (chain_generation ci) -> task_state T1 t = Some Active ->
  chain_wf T1 ord c (add_active ci).
Proof.
  intros Hnd Hw Hk Hcand Hs Hact Hsame Hin Hg Hs1.
  destruct (candidate_split _ _ _ _ _ Hnd Hw Hk Hcand) as (la & lb & Heq & Ha & Hb); [by eapply pending_not_current|].
  pose proof (NoDup_map_fst _ (chain_nodup _ _ _ _ Hnd Hw)) as Hnodup. rewrite Heq in Hnodup.
  assert (forall n, n ∈ la ++ lb -> n ∈ chain ci /\ n <> (t, k)) as Hother.
  { intros n Hn. rewrite Heq. split; [apply elem_of_app in Hn as [|]; apply elem_of_app; [by left | right; by right]|].
    intros ->. rewrite NoDup_app, NoDup_cons in Hnodup. apply elem_of_app in Hn as [Hn|Hn]; [|tauto]. destruct Hnodup as (_ & H & _). apply (H _ Hn). by left. }
  destruct Hw as [H1 H2 H3 H4 H5 _ H7 H8 H9]. constructor; cbn [add_active chain chain_generation active_tasks]; [done | done | | | done | | | | lia].
  - intros n. by rewrite H3, Hin.
  - intros n g Hn. destruct (decide (n = (t, k))) as [->|Hne]; [rewrite Hg; intros [= <-]; lia | rewrite (proj1 (Hsame n Hn Hne)); by apply H4].
  - exists (la ++ [(t, k)]), lb. rewrite <- app_assoc. split; [done|]. unfold current in *. rewrite Forall_app, Forall_singleton.
    rewrite !Forall_forall in *. cbn [chain_generation add_active]. split_and!; [| done |].
    + intros n Hn. destruct (Hother n) as [Hc Hne]; [set_solver|]. rewrite (proj1 (Hsame n Hc Hne)). by apply Ha.
    + intros n Hn. destruct (Hother n) as [Hc Hne]; [set_solver|]. rewrite (proj1 (Hsame n Hc Hne)). by apply Hb.
  - intros n Hn. unfold current. cbn [chain_generation]. destruct (decide (n = (t, k))) as [->|Hne]; [by intros _|].
    destruct (Hsame n Hn Hne) as [-> ->]. by apply H7.
  - rewrite H8, Heq. unfold active_nodes. rewrite !filter_app.
    rewrite (filter_cons_True (fun n : Node => task_state T1 n.1 = Some Active)), (filter_cons_False (fun n : Node => task_state T n.1 = Some Active)) by done.
    change (filter (fun n : Node => task_state T1 n.1 = Some Active) la) with (active_nodes T1 la).
    change (filter (fun n : Node => task_state T1 n.1 = Some Active) lb) with (active_nodes T1 lb).
    assert (forall n, n ∈ la ++ lb -> task_state T1 n.1 = task_state T n.1) as Hst by (intros n Hn; apply Hsame; by apply Hother).
    rewrite (active_nodes_ext T T1 la), (active_nodes_ext T T1 lb) by (intros; apply Hst; set_solver).
    unfold active_nodes. rewrite !length_app. cbn [length]. lia.
Qed.

(** The task [t] after its start. *)
Definition start_of (C : gmap ChainId ChainInfo) (task : Task (ExtraT := ExtraT)) : Task :=
  {| state := Active; chains := map (started_info C) (chains task); extra := extra task |}.

Lemma shape_started C T t task t' : T !! t = Some task -> shape (<[t := start_of C task]> T) t' = shape T t'.
Proof.
  intros Ht. unfold shape. destruct (decide (t' = t)) as [->|]; [|by rewrite lookup_insert_ne].
  rewrite lookup_insert_eq, Ht. simpl. f_equal. rewrite map_map. by apply map_ext.
Qed.

Lemma node_gen_other T t task n : n.1 <> t -> node_gen (<[t := task]> T) n = node_gen T n.
Proof. intros H. unfold node_gen. by rewrite lookup_insert_ne. Qed.
Lemma task_state_other T t task t' : t' <> t -> task_state (<[t := task]> T) t' = task_state T t'.
Proof. intros H. unfold task_state. by rewrite lookup_insert_ne. Qed.
Lemma task_state_at T t task : task_state (<[t := task]> T) t = Some (state task).
Proof. unfold task_state. by rewrite lookup_insert_eq. Qed.

Lemma node_gen_started C T t task k c ci : (k, c) ∈ nodes_of task -> C !! c = Some ci ->
  node_gen (<[t := start_of C task]> T) (t, k) = Some (chain_generation ci).
Proof.
  intros Hk Hc. apply in_nodes_of in Hk as (i & Hi & <-). unfold node_gen. simpl. rewrite lookup_insert_eq. simpl.
  rewrite list_lookup_fmap, Hi. simpl. by rewrite Hc.
Qed.

(** The tasks that come right after [t] in its chains [l]. *)
Definition child_of (C : gmap ChainId ChainInfo) (t : TaskId) (l : list (nat * ChainId)) (x : TaskId) : Prop :=
  exists k c ci k', (k, c) ∈ l /\ C !! c = Some ci /\ next_of (t, k) (chain ci) = Some (x, k').

Lemma push_queue T T1 q t : queue_wf T q -> task_state T t <> Some Active -> task_state T1 t = Some Active ->
  (forall t', t' <> t -> task_state T1 t' = task_state T t') -> queue_wf T1 (VectorQueue.push t q).
Proof.
  intros [H1 H2 H3 H4] Hs Hs1 Hsame.
  assert (VectorQueue.contents (VectorQueue.push t q) = VectorQueue.contents q ++ [t]) as Hc.
  { unfold VectorQueue.contents, VectorQueue.push. simpl. by rewrite drop_app_le. }
  constructor.
  - unfold VectorQueue.wf in *. simpl. rewrite length_app. lia.
  - rewrite Hc, length_app. simpl. lia.
  - rewrite Hc. apply NoDup_app. split_and!; [done | | apply NoDup_singleton]. intros x Hx ->%list_elem_of_singleton. by apply Hs, H4.
  - intros t'. rewrite Hc, elem_of_app, list_elem_of_singleton. intros [H | ->]; [|done].
    rewrite Hsame; [by apply H4|]. intros ->. by apply Hs, H4.
Qed.

Lemma nodes_of_chain (task : Task (ExtraT := ExtraT)) c : c ∈ map chain_id (chains task) <-> exists k, (k, c) ∈ nodes_of task.
Proof.
  rewrite list_elem_of_fmap. setoid_rewrite in_nodes_of. split.
  - intros (i & -> & [k Hk]%list_elem_of_lookup). eauto.
  - intros (k & i & Hi & <-). exists i. split; [done|]. by eapply list_elem_of_lookup_2.
Qed.

Lemma changed_lookup f cs C C' c ci' : changed f cs C C' -> C' !! c = Some ci' ->
  exists ci, C !! c = Some ci /\ (c ∈ cs /\ ci' = f ci \/ c ∉ cs /\ ci' = ci).
Proof.
  intros H Hc. rewrite (H c) in Hc. destruct (C !! c) as [ci|]; [|by destruct (bool_decide _)].
  exists ci. split; [done|]. case_bool_decide; simpl in Hc; simplify_eq; auto.
Qed.

Lemma changed_lookup_2 f cs C C' c ci : changed f cs C C' -> C !! c = Some ci -> exists ci', C' !! c = Some ci' /\ (ci' = f ci \/ ci' = ci).
Proof. intros H Hc. rewrite (H c), Hc. case_bool_decide; simpl; eauto. Qed.

(** A started task is not among the nodes of a chain that it is not in. *)
Lemma not_in_chain T ord c ci t task n : chain_wf T ord c ci -> T !! t = Some task -> c ∉ map chain_id (chains task) -> n ∈ chain ci -> n.1 <> t.
Proof.
  intros Hw Ht Hc Hn <-. apply Hc, nodes_of_chain. exists n.2. apply (cw_nodes _ _ _ _ Hw) in Hn. destruct n as [t k].
  by rewrite (in_chain_nodes _ _ _ task) in Hn.
Qed.

Section started.
Context (X : TaskId -> Prop) (a : objects (DataT := Task (ExtraT := ExtraT))) (ord : list TaskId) (s : ChainScheduler (ExtraT := ExtraT)).
Context (t : TaskId) (task : Task (ExtraT := ExtraT)) (C : gmap ChainId ChainInfo).
Hypothesis Hinv : inv X a ord s.
Hypothesis Htask : live a !! t = Some task.
Hypothesis Hpend : state task = Pending.
Hypothesis Hcand : forall k c ci, (k, c) ∈ nodes_of task -> chains_ s !! c = Some ci -> candidate (live a) ci (t, k) /\ active_tasks ci < 10.
Hypothesis HC : changed add_active (map chain_id (chains task)) (chains_ s) C.

Local Abbreviation T := (live a).
Local Abbreviation T1 := (<[t := start_of (chains_ s) task]> (live a)).

Lemma pending_t : task_state T t = Some Pending.
Proof. unfold task_state. rewrite Htask. simpl. by rewrite Hpend. Qed.

Lemma same_in_chain c n : in_chain T1 c n <-> in_chain T c n.
Proof. apply in_chain_same. intros t'. by apply shape_started. Qed.

Lemma started_chain c ci' : C !! c = Some ci' -> chain_wf T1 ord c ci'.
Proof.
  intros Hc. destruct (changed_lookup _ _ _ _ _ _ HC Hc) as (ci & Hci & Hcase). pose proof (iv_chain _ _ _ _ Hinv _ _ Hci) as Hw.
  destruct Hcase as [[Hin ->] | [Hnot ->]].
  - apply nodes_of_chain in Hin as [k Hk]. destruct (Hcand k c ci Hk Hci) as [Hca Hact].
    assert ((t, k) ∈ chain ci) as Hn by (apply (cw_nodes _ _ _ _ Hw); by apply (in_chain_nodes _ _ _ task)).
    apply (chain_started T T1 ord c ci t k); [apply Hinv | done | done | done | rewrite pending_t; done | done | | apply same_in_chain | | by rewrite task_state_at].
    + intros n Hn' Hne. assert (n.1 <> t) by (by apply (other_task T ord c ci t k); [apply Hinv | ..]). by rewrite node_gen_other, task_state_other.
    + by eapply node_gen_started.
  - apply (chain_wf_ext T); [|apply same_in_chain | done]. intros n Hn.
    assert (n.1 <> t) by (by eapply not_in_chain). by rewrite node_gen_other, task_state_other.
Qed.

Lemma started_limited : limited_ok T1 C (limited_tasks_ s).
Proof.
  intros c t' Hl. destruct (iv_limited _ _ _ _ Hinv _ _ Hl) as (ci & k & Hci & Hk & Hs & Hca & Hfull).
  pose proof (iv_chain _ _ _ _ Hinv _ _ Hci) as Hw.
  assert (t' <> t) as Hne.
  { intros ->. apply (cw_nodes _ _ _ _ Hw), (in_chain_nodes _ _ _ task) in Hk; [|done]. destruct (Hcand _ _ _ Hk Hci). lia. }
  destruct (changed_lookup_2 _ _ _ _ _ _ HC Hci) as (ci' & Hci' & Heq).
  assert (chain ci' = chain ci /\ chain_generation ci' = chain_generation ci /\ 10 <= active_tasks ci') as (E1 & E2 & E3) by (destruct Heq as [-> | ->]; cbn [add_active chain chain_generation active_tasks]; repeat split; lia).
  exists ci', k. rewrite E1, task_state_other by done. split_and!; [done..| |done].
  unfold candidate, current. rewrite E1, E2. intros p Hp. rewrite node_gen_other; [by apply Hca|]. intros Hpt.
  apply Hca in Hp as Hcur. apply (cw_current _ _ _ _ Hw) in Hcur; [|by apply prev_of_in in Hp as []]. rewrite Hpt, pending_t in Hcur. done.
Qed.

Lemma started_woken t' : task_state T1 t' = Some Pending -> ~ ((X t' /\ t' <> t) \/ child_of (chains_ s) t (nodes_of task) t') ->
  blocked T1 C (limited_tasks_ s) t'.
Proof.
  intros Hs HX. assert (t' <> t) as Hne by (intros ->; rewrite task_state_at in Hs; done). rewrite task_state_other in Hs by done.
  destruct (iv_woken _ _ _ _ Hinv t' Hs) as (c & ci & k & Hci & Hk & Hcase); [tauto|]. pose proof (iv_chain _ _ _ _ Hinv _ _ Hci) as Hw.
  destruct (changed_lookup_2 _ _ _ _ _ _ HC Hci) as (ci' & Hci' & Heq).
  assert (chain ci' = chain ci /\ chain_generation ci' = chain_generation ci) as (E1 & E2) by (by destruct Heq as [-> | ->]).
  exists c, ci', k. rewrite E1. split_and!; [done..|]. destruct Hcase as [Hnot|Hl]; [left | by right]. intros Hca. apply Hnot.
  intros p Hp. destruct (decide (p.1 = t)) as [Hpt|Hpt].
  - exfalso. apply HX. right. destruct p as [t0 k0]. cbn in Hpt. subst t0. destruct (prev_of_in _ _ _ Hp) as [Hin _].
    exists k0, c, ci, k. split_and!; [|done|].
    + by apply (cw_nodes _ _ _ _ Hw), (in_chain_nodes _ _ _ task) in Hin.
    + apply prev_next; [|done]. apply NoDup_map_fst, (chain_nodup T ord c); [apply Hinv | done].
  - unfold candidate, current in Hca |- *. rewrite E1, E2 in Hca. specialize (Hca p Hp). by rewrite node_gen_other in Hca.
Qed.

Lemma started_order : queue_order T1 C (VectorQueue.push t (pending_tasks_ s)).
Proof.
  intros c ci' l1 n l2 q1 q2 Hc Heq Hcur Hq m Hm. destruct (changed_lookup _ _ _ _ _ _ HC Hc) as (ci & Hci & Hcase). pose proof (iv_chain _ _ _ _ Hinv _ _ Hci) as Hw.
  destruct (iv_queue _ _ _ _ Hinv) as [Q1 _ Q3 Q4].
  assert (chain ci' = chain ci /\ chain_generation ci' = chain_generation ci) as [E1 E2] by (by destruct Hcase as [[_ ->] | [_ ->]]).
  assert (VectorQueue.contents (VectorQueue.push t (pending_tasks_ s)) = VectorQueue.contents (pending_tasks_ s) ++ [t]) as Hpush.
  { unfold VectorQueue.contents, VectorQueue.push. cbn. by rewrite drop_app_le. }
  rewrite Hpush in Hq. destruct q2 as [|x q2 _] using rev_ind; [apply not_elem_of_nil|].
  rewrite app_comm_cons, app_assoc in Hq. apply app_inj_tail in Hq as [Hq <-].
  assert (n.1 <> t) as Hnt.
  { intros Hnt. assert (task_state T t = Some Active) as H by (apply Q4; rewrite Hq, elem_of_app; right; rewrite Hnt; by left). rewrite pending_t in H. done. }
  assert (current T ci n) as Hcur' by (unfold current in *; rewrite node_gen_other, E2 in Hcur by done; done).
  rewrite E1 in Heq. intros [Hin|Hin%list_elem_of_singleton]%elem_of_app.
  - by apply (iv_order _ _ _ _ Hinv c ci l1 n l2 q1 q2 Hci Heq Hcur' Hq m Hm).
  - assert (current T ci m) as Hm' by (apply (before_current T ord c ci l1 n l2); [apply Hinv | done..]).
    apply (cw_current _ _ _ _ Hw) in Hm'; [|rewrite Heq, elem_of_app; by left]. rewrite Hin, pending_t in Hm'. done.
Qed.

Lemma started_inv cc : rep cc (with_task t (start_of (chains_ s) task) a) ->
  inv (fun x => (X x /\ x <> t) \/ child_of (chains_ s) t (nodes_of task) x) (with_task t (start_of (chains_ s) task) a) ord
    (with_pending (VectorQueue.push t (pending_tasks_ s)) (with_tasks cc (with_chains C s))).
Proof.
  intros Hr. constructor; cbn [with_pending with_tasks with_chains tasks_ chains_ limited_tasks_ pending_tasks_ with_task live].
  - done.
  - apply Hinv.
  - intros t'. rewrite (iv_dom _ _ _ _ Hinv), lookup_insert_is_Some'. split; [by right|]. intros [<-|]; [by eauto | done].
  - intros t' task'. rewrite lookup_insert_Some. intros [[<- <-] | [_ H]]; [|by eapply iv_ids].
    cbn [start_of chains]. rewrite map_map. by apply (iv_ids _ _ _ _ Hinv t).
  - apply started_chain.
  - intros c n. rewrite same_in_chain. intros [ci Hci]%(iv_some _ _ _ _ Hinv). destruct (changed_lookup_2 _ _ _ _ _ _ HC Hci) as (ci' & ? & _). eauto.
  - apply started_limited.
  - apply (push_queue T); [apply Hinv | by rewrite pending_t | by rewrite task_state_at | intros; by apply task_state_other].
  - apply started_order.
  - apply started_woken.
Qed.

End started.
(** ** What starting tasks may change *)
Record grown a s a' s' : Prop := {
  gr_shape t : shape (live a') t = shape (live a) t;
  gr_extra t : extra <$> live a' !! t = extra <$> live a !! t;
  gr_state t : task_state (live a') t = task_state (live a) t \/
               (task_state (live a) t = Some Pending /\ task_state (live a') t = Some Active);
  gr_gen n : task_state (live a') n.1 = task_state (live a) n.1 -> node_gen (live a') n = node_gen (live a) n;
  gr_chains c : (chain <$> chains_ s' !! c) = (chain <$> chains_ s !! c) /\
                (chain_generation <$> chains_ s' !! c) = (chain_generation <$> chains_ s !! c);
  gr_started n c : task_state (live a') n.1 <> task_state (live a) n.1 -> in_chain (live a) c n ->
                   node_gen (live a') n = (chain_generation <$> chains_ s !! c);
  gr_queue : exists new, VectorQueue.contents (pending_tasks_ s') = VectorQueue.contents (pending_tasks_ s) ++ new /\
               forall t, t ∈ new <-> task_state (live a) t = Some Pending /\ task_state (live a') t = Some Active;
  gr_later : to_start_ s' = to_start_ s;
}.

Lemma grown_refl a s : grown a s a s.
Proof.
  constructor; auto; try done. exists []. rewrite app_nil_r. split; [done|]. intros t. split; [by intros ?%elem_of_nil | intros []; congruence].
Qed.

Lemma grown_limited a s L : grown a s a (with_limited L s).
Proof.
  constructor; auto; try done. exists []. rewrite app_nil_r. split; [done|]. intros t. split; [by intros ?%elem_of_nil | intros []; congruence].
Qed.

Lemma grown_trans a1 s1 a2 s2 a3 s3 : grown a1 s1 a2 s2 -> grown a2 s2 a3 s3 -> grown a1 s1 a3 s3.
Proof.
  intros G1 G2. constructor.
  - intros t. by rewrite (gr_shape _ _ _ _ G2), (gr_shape _ _ _ _ G1).
  - intros t. by rewrite (gr_extra _ _ _ _ G2), (gr_extra _ _ _ _ G1).
  - intros t. destruct (gr_state _ _ _ _ G1 t) as [H1 | [H1 H1']], (gr_state _ _ _ _ G2 t) as [H2 | [H2 H2']]; [left | right | right | congruence]; repeat split; congruence.
  - intros n Hn. destruct (gr_state _ _ _ _ G1 n.1) as [H1 | [H1 H1']], (gr_state _ _ _ _ G2 n.1) as [H2 | [H2 H2']]; [|congruence..].
    by rewrite (gr_gen _ _ _ _ G2), (gr_gen _ _ _ _ G1).
  - intros c. destruct (gr_chains _ _ _ _ G2 c) as [-> ->], (gr_chains _ _ _ _ G1 c) as [-> ->]. done.
  - intros n c Hn Hin. destruct (gr_chains _ _ _ _ G1 c) as [_ Hg]. destruct (decide (task_state (live a2) n.1 = task_state (live a1) n.1)) as [Heq|Hne].
    + rewrite <- Hg. apply (gr_started _ _ _ _ G2); [congruence|]. rewrite in_chain_same; [done|]. apply (gr_shape _ _ _ _ G1).
    + rewrite (gr_gen _ _ _ _ G2); [by apply (gr_started _ _ _ _ G1)|].
      destruct (gr_state _ _ _ _ G1 n.1) as [H1 | [H1 H1']], (gr_state _ _ _ _ G2 n.1) as [H2 | [H2 H2']]; congruence.
  - destruct (gr_queue _ _ _ _ G1) as (n1 & Hq1 & Hn1), (gr_queue _ _ _ _ G2) as (n2 & Hq2 & Hn2). exists (n1 ++ n2).
    rewrite Hq2, Hq1, app_assoc. split; [done|]. intros t. rewrite elem_of_app, Hn1, Hn2.
    destruct (gr_state _ _ _ _ G1 t) as [H1 | [H1 H1']], (gr_state _ _ _ _ G2 t) as [H2 | [H2 H2']]; intuition congruence.
  - by rewrite (gr_later _ _ _ _ G2), (gr_later _ _ _ _ G1).
Qed.

(** The number of pending tasks, which bounds the depth of the recursion. *)
Definition pending_count T (ord : list TaskId) : nat := length (filter (fun t => task_state T t = Some Pending) ord).

Lemma filter_length_mono {A} (P Q : A -> Prop) {HP : forall x, Decision (P x)} {HQ : forall x, Decision (Q x)} l :
  (forall x, P x -> Q x) -> (length (filter P l) <= length (filter Q l))%nat.
Proof.
  intros H. induction l as [|x l IH]; [done|]. rewrite !filter_cons. destruct (decide (P x)), (decide (Q x)); simpl; try lia. naive_solver.
Qed.

Lemma filter_length_lt {A} (P Q : A -> Prop) {DP : forall x, Decision (P x)} {DQ : forall x, Decision (Q x)} l x :
  (forall x, P x -> Q x) -> x ∈ l -> Q x -> ~ P x -> (length (filter P l) < length (filter Q l))%nat.
Proof.
  intros H Hin HQ HP. apply list_elem_of_split in Hin as (l1 & l2 & ->). rewrite !filter_app, !length_app.
  rewrite (filter_cons_False P), (filter_cons_True Q) by done. simpl.
  pose proof (filter_length_mono P Q l1 H). pose proof (filter_length_mono P Q l2 H). lia.
Qed.

Lemma grown_pending a s a' s' ord : grown a s a' s' -> (pending_count (live a') ord <= pending_count (live a) ord)%nat.
Proof. intros G. apply filter_length_mono. intros t Ht. destruct (gr_state _ _ _ _ G t) as [H | [H _]]; congruence. Qed.

Lemma pending_bound X a ord s : inv X a ord s -> (pending_count (live a) ord < S (length (slots_ (tasks_ s))))%nat.
Proof.
  intros Hi. assert (length ord <= base.size (live a))%nat as Hle.
  { rewrite <- size_dom. rewrite <- (size_list_to_set (C := gset TaskId) ord) by apply Hi. apply subseteq_size.
    intros t. rewrite elem_of_list_to_set, elem_of_dom. apply (iv_dom _ _ _ _ Hi). }
  pose proof (rep_count _ _ (iv_rep _ _ _ _ Hi)). unfold pending_count. pose proof (length_filter (fun t => task_state (live a) t = Some Pending) ord). lia.
Qed.

Lemma child_of_same (C C' : gmap ChainId ChainInfo) t l x : (forall c, (chain <$> C' !! c) = (chain <$> C !! c)) -> child_of C t l x -> child_of C' t l x.
Proof.
  intros H (k & c & ci & k' & Hk & Hc & Hn). specialize (H c). rewrite Hc in H. destruct (C' !! c) as [ci'|] eqn:Hc'; [|done].
  injection H as H. exists k, c, ci', k'. by rewrite H.
Qed.

Lemma changed_chains f cs C C' c : changed f cs C C' -> (forall ci, chain (f ci) = chain ci /\ chain_generation (f ci) = chain_generation ci) ->
  (chain <$> C' !! c) = (chain <$> C !! c) /\ (chain_generation <$> C' !! c) = (chain_generation <$> C !! c).
Proof.
  intros H Hf. rewrite (H c). destruct (C !! c) as [ci|]; [|by destruct (bool_decide _)]. destruct (Hf ci). case_bool_decide; cbn; split; congruence.
Qed.

Lemma started_grown X a ord s t task C cc : inv X a ord s -> live a !! t = Some task -> state task = Pending ->
  changed add_active (map chain_id (chains task)) (chains_ s) C ->
  grown a s (with_task t (start_of (chains_ s) task) a) (with_pending (VectorQueue.push t (pending_tasks_ s)) (with_tasks cc (with_chains C s))).
Proof.
  intros Hi Ht Hs HC. assert (task_state (live a) t = Some Pending) as Hp by (unfold task_state; rewrite Ht; simpl; by rewrite Hs).
  constructor; cbn [with_pending with_tasks with_chains tasks_ chains_ limited_tasks_ pending_tasks_ to_start_ with_task live].
  - intros t'. by apply shape_started.
  - intros t'. destruct (decide (t' = t)) as [->|]; [rewrite lookup_insert_eq, Ht; done | by rewrite lookup_insert_ne].
  - intros t'. destruct (decide (t' = t)) as [->|]; [right; by rewrite task_state_at | left; by rewrite task_state_other].
  - intros n Hn. destruct (decide (n.1 = t)) as [Heq|]; [|by rewrite node_gen_other]. rewrite Heq, task_state_at, Hp in Hn. done.
  - intros c. by apply (changed_chains add_active (map chain_id (chains task))).
  - intros [t' k] c Hn Hin. cbn in Hn. destruct (decide (t' = t)) as [->|]; [|by rewrite task_state_other in Hn].
    rewrite (in_chain_nodes _ _ _ task) in Hin by done. destruct (task_chain _ _ _ _ _ _ _ _ Hi Ht Hin) as (ci & Hci & _). rewrite Hci.
    by rewrite (node_gen_started _ _ _ _ _ c ci).
  - exists [t]. split.
    + unfold VectorQueue.contents, VectorQueue.push. simpl. rewrite drop_app_le; [done|]. apply (qw_wf _ _ (iv_queue _ _ _ _ Hi)).
    + intros t'. rewrite list_elem_of_singleton. destruct (decide (t' = t)) as [->|]; [by rewrite task_state_at|].
      rewrite task_state_other by done. split; [done|]. intros []; congruence.
  - done.
Qed.

Definition starts (f : TaskId -> ChainScheduler -> Res ChainScheduler) (ord : list TaskId) (n : nat) : Prop :=
  forall X a s t, inv X a ord s -> is_Some (live a !! t) -> (pending_count (live a) ord < n)%nat ->
  exists s' a', f t s = Ok s' /\ inv (fun x => X x /\ x <> t) a' ord s' /\ grown a s a' s'.

Lemma children_started f ord n t l : starts f ord n -> forall X a s,
  inv (fun x => X x \/ child_of (chains_ s) t l x) a ord s ->
  (forall k c, (k, c) ∈ l -> in_chain (live a) c (t, k)) -> (pending_count (live a) ord < n)%nat ->
  exists s' a', for_each_child f t l s = Ok s' /\ inv X a' ord s' /\ grown a s a' s'.
Proof.
  intros Hf. induction l as [|[k c] l IH]; intros X a s Hi Hl Hn.
  - exists s, a. split; [done|]. split; [|apply grown_refl]. eapply inv_weaken; [|done]. intros x [?|(k & c & ci & k' & Hin & _)]; [done|]. by apply elem_of_nil in Hin.
  - assert (in_chain (live a) c (t, k)) as Hin by (apply Hl; by left). destruct (iv_some _ _ _ _ Hi _ _ Hin) as [ci Hc].
    pose proof (iv_chain _ _ _ _ Hi _ _ Hc) as Hw. apply (cw_nodes _ _ _ _ Hw) in Hin.
    cbn [for_each_child]. unfold deref_chain. rewrite Hc. cbn [res_bind]. unfold get_child. rewrite bool_decide_eq_true_2 by done.
    assert (exists s1 a1, match fst <$> next_of (t, k) (chain ci) with Some child => f child s | None => Ok s end = Ok s1 /\
      inv (fun x => X x \/ child_of (chains_ s) t l x) a1 ord s1 /\ grown a s a1 s1) as (s1 & a1 & Heq & Hi1 & G1).
    { assert (forall x, child_of (chains_ s) t ((k, c) :: l) x -> next_of (t, k) (chain ci) = None \/ (fst <$> next_of (t, k) (chain ci)) <> Some x -> child_of (chains_ s) t l x) as Hchild.
      { intros x (k0 & c0 & ci0 & k' & [[= -> ->]|H]%elem_of_cons & Hc0 & Hx) Hno; [|exists k0, c0, ci0, k'; done]. simplify_eq. rewrite Hx in Hno. destruct Hno; [done|]. by destruct H. }
      destruct (next_of (t, k) (chain ci)) as [[x k']|] eqn:Hx; cbn.
      - assert (is_Some (live a !! x)) as Hlive.
        { assert ((x, k') ∈ chain ci) as Hxin.
          { apply list_elem_of_split in Hin as (l1 & l2 & Heq). rewrite Heq in Hx.
            pose proof (NoDup_map_fst _ (chain_nodup _ _ _ _ (iv_nodup _ _ _ _ Hi) Hw)) as Hnd. rewrite Heq in Hnd.
            apply NoDup_app in Hnd as (_ & Hnd & _). rewrite next_of_app in Hx by (intros H; apply (Hnd _ H); by left).
            rewrite Heq. destruct l2; [done|]. injection Hx as ->. apply elem_of_app. right. right. by left. }
          destruct (chain_task _ _ _ _ _ Hw Hxin) as (? & ? & ? & _). eauto. }
        destruct (Hf _ _ _ x Hi Hlive Hn) as (s1 & a1 & -> & Hi1 & G1). exists s1, a1. split; [done|]. split; [|done].
        eapply inv_weaken; [|done]. intros y [[H|H] Hne]; [by left|]. right. apply Hchild; [done|]. right. intros [= E]. by apply Hne.
      - exists s, a. split; [done|]. split; [|apply grown_refl]. eapply inv_weaken; [|done]. intros y [H|H]; [by left|]. right. apply Hchild; auto. }
    rewrite Heq. cbn [res_bind].
    destruct (IH X a1 s1) as (s2 & a2 & -> & Hi2 & G2).
    + eapply inv_weaken; [|done]. intros x [H|H]; [by left | right]. eapply child_of_same; [|done]. intros c0. apply (gr_chains _ _ _ _ G1).
    + intros k0 c0 H. rewrite in_chain_same by apply (gr_shape _ _ _ _ G1). apply Hl. by right.
    + pose proof (grown_pending _ _ _ _ ord G1). lia.
    + exists s2, a2. split; [done|]. split; [done|]. by eapply grown_trans.
Qed.

Lemma try_start_spec fuel ord : starts (try_start fuel) ord fuel.
Proof.
  induction fuel as [|fuel IH]; intros X a s t Hi [task Ht] Hn; [lia|]. cbn [try_start].
  rewrite (get_task_live _ _ _ _ _ _ Hi Ht). cbn [res_bind].
  assert (task_state (live a) t = Some (state task)) as Hst by (unfold task_state; by rewrite Ht).
  case_bool_decide as Hs; cbn [negb].
  2: { exists s, a. split; [done|]. split; [|apply grown_refl]. pose proof (iv_woken _ _ _ _ Hi) as Hwoken. destruct Hi. constructor; try done. intros t' Hp HX.
       apply Hwoken; [done|]. intros H. apply HX. split; [done|]. intros ->. congruence. }
  rewrite Hs in Hst. destruct (may_start_spec X a ord s t task (nodes_of task) Hi Ht) as [[-> Hall] | [(k & c & ci & Hc & Hk & Hnot & ->) | (k & c & ci & Hc & Hk & Hca & Hfull & ->)]]; [done | ..]; cbn [res_bind].
  - unfold do_start_task.
    destruct (activate_nodes_spec t (chains task) [] task s a) as (c1 & C1 & Hact & Hr1 & HC1); [apply Hi | done | done | by eapply iv_ids | |].
    { intros i Hin. apply list_elem_of_lookup in Hin as [k Hk].
      assert ((k, chain_id i) ∈ nodes_of task) as Hin by (apply in_nodes_of; eauto).
      destruct (task_chain _ _ _ _ _ _ _ _ Hi Ht Hin) as (ci & Hci & Hw & _). exists ci. split; [done|].
      destruct (Hall _ _ _ Hin Hci) as [_ ?]. rewrite (cw_active _ _ _ _ Hw) in *. lia. }
    unfold nodes_of in Hact |- *. simpl in Hact, Hr1. rewrite Hact. cbn [res_bind].
    destruct (update_task_spec (with_tasks c1 (with_chains C1 s)) _ t _ (set_state Active) Hr1 (lookup_insert_eq _ _ _)) as (c2 & -> & Hr2).
    cbn [res_bind]. rewrite with_task_twice in Hr2.
    pose proof (started_inv X a ord s t task C1 Hi Ht Hs Hall HC1 c2 Hr2) as Hi2.
    pose proof (started_grown X a ord s t task C1 c2 Hi Ht Hs HC1) as G2.
    change (with_tasks c2 (with_tasks c1 (with_chains C1 s))) with (with_tasks c2 (with_chains C1 s)) in *.
    set (s2 := with_pending _ _) in *. set (a2 := with_task t (start_of (chains_ s) task) a) in *.
    destruct (children_started (try_start fuel) ord fuel t (nodes_of task) IH (fun x => X x /\ x <> t) a2 s2) as (s3 & a3 & Heq & Hi3 & G3).
    + eapply inv_weaken; [|exact Hi2]. intros x [H|H]; [by left|]. right. eapply child_of_same; [|done]. intros c0. apply (gr_chains _ _ _ _ G2).
    + intros k c H. rewrite in_chain_same by apply (gr_shape _ _ _ _ G2). by apply (in_chain_nodes _ _ _ task).
    + enough (pending_count (live a2) ord < pending_count (live a) ord)%nat by lia. apply (filter_length_lt _ _ ord t).
      * intros x Hx. destruct (gr_state _ _ _ _ G2 x) as [H | [H _]]; congruence.
      * apply (iv_dom _ _ _ _ Hi). eauto.
      * done.
      * unfold a2. cbn [with_task live]. by rewrite task_state_at.
    + exists s3, a3. split; [exact Heq|]. split; [done|]. by eapply grown_trans.
  - exists s, a. split; [done|]. split; [by eapply stale_inv | apply grown_refl].
  - exists (with_limited (<[c := t]> (limited_tasks_ s)) s), a. split; [done|]. split; [by eapply limited_inv | apply grown_limited].
Qed.

(** ** Trying several tasks *)
Lemma inv_later X a ord s l : inv X a ord s -> inv X a ord (with_to_start l s).
Proof. intros Hi. destruct Hi. by constructor. Qed.

Lemma start_all_spec ord l : forall X a s, inv (fun x => X x \/ x ∈ l) a ord s -> (forall x, x ∈ l -> is_Some (live a !! x)) ->
  exists s' a', start_all l s = Ok s' /\ inv X a' ord s' /\ grown a s a' s'.
Proof.
  induction l as [|t l IH]; intros X a s Hi Hl.
  - exists s, a. split; [done|]. split; [|apply grown_refl]. eapply inv_weaken; [|done]. intros x [?|Hin]; [done|]. by apply elem_of_nil in Hin.
  - cbn [start_all]. unfold try_start_task.
    destruct (try_start_spec (S (length (slots_ (tasks_ s)))) ord _ _ _ t Hi) as (s1 & a1 & -> & Hi1 & G1); [apply Hl; by left | by eapply pending_bound|].
    cbn [res_bind]. destruct (IH X a1 s1) as (s2 & a2 & -> & Hi2 & G2).
    + eapply inv_weaken; [|done]. intros x [[H|[->|H]%elem_of_cons] Hne]; [by left | done | by right].
    + intros x Hx. assert (is_Some (shape (live a1) x)) as Hs by (rewrite (gr_shape _ _ _ _ G1); unfold shape; rewrite fmap_is_Some; apply Hl; by right).
      unfold shape in Hs. by rewrite fmap_is_Some in Hs.
    + exists s2, a2. split; [done|]. split; [done|]. by eapply grown_trans.
Qed.

Lemma flush_spec a ord s : inv (fun x => x ∈ to_start_ s) a ord s -> (forall x, x ∈ to_start_ s -> is_Some (live a !! x)) ->
  exists s' a', flush_try_start_task s = Ok s' /\ inv (fun _ => False) a' ord s' /\ grown a (with_to_start [] s) a' s'.
Proof.
  intros Hi Hl. unfold flush_try_start_task.
  destruct (start_all_spec ord (to_start_ s) (fun _ => False) a (with_to_start [] s)) as (s' & a' & -> & Hi' & G).
  - apply inv_later. eapply inv_weaken; [|done]. by right.
  - done.
  - cbn [res_bind]. rewrite (gr_later _ _ _ _ G). cbn. exists s', a'. done.
Qed.

(** ** The loop of [inactivate_task] *)
Definition stopped (was_active failed : bool) (g : Z) (ci : ChainInfo) : ChainInfo :=
  {| chain := chain ci;
     active_tasks := if was_active then active_tasks ci - 1 else active_tasks ci;
     chain_generation := if was_active && failed then Z.max (chain_generation ci) (g + 1) else chain_generation ci |}.

Record inactivated t (was_active failed : bool) (infos : list TaskChainInfo) s s' : Prop := {
  in_tasks : tasks_ s' = tasks_ s;
  in_queue : pending_tasks_ s' = pending_tasks_ s;
  in_chains i : i ∈ infos -> chains_ s' !! chain_id i = stopped was_active failed (node_generation i) <$> chains_ s !! chain_id i;
  in_others c : c ∉ map chain_id infos -> chains_ s' !! c = chains_ s !! c;
  in_limited c : limited_tasks_ s' !! c = if bool_decide (c ∈ map chain_id infos) then None else limited_tasks_ s !! c;
  in_later : exists new, to_start_ s' = to_start_ s ++ new /\
    (forall x, x ∈ new -> x <> t /\ exists c ci, c ∈ map chain_id infos /\ chains_ s !! c = Some ci /\
       (limited_tasks_ s !! c = Some x \/ get_first (chain ci) = Some x)) /\
    (forall c x, c ∈ map chain_id infos -> limited_tasks_ s !! c = Some x -> x <> t -> x ∈ new);
}.

(** One turn of the loop. *)
Definition inactivate_one t (was_active failed : bool) (i : TaskChainInfo) (ci : ChainInfo) s : ChainScheduler :=
  let later := match limited_tasks_ s !! chain_id i with Some x => if negb (x =? t) then [x] else [] | None => [] end ++
               match get_first (chain ci) with Some x => if negb (x =? t) then [x] else [] | None => [] end in
  {| chains_ := <[chain_id i := stopped was_active failed (node_generation i) ci]> (chains_ s);
     limited_tasks_ := delete (chain_id i) (limited_tasks_ s);
     tasks_ := tasks_ s; pending_tasks_ := pending_tasks_ s; to_start_ := to_start_ s ++ later |}.

Lemma inactivate_nodes_cons t was_active failed i ci k l s :
  chains_ s !! chain_id i = Some ci -> generation_of (t, k) s = Ok (node_generation i) ->
  (was_active = true -> 1 <= active_tasks ci < 2 ^ 32) -> (was_active && failed = true -> 0 <= node_generation i < 2 ^ 64 - 1) ->
  inactivate_nodes t was_active failed ((k, chain_id i) :: l) s = inactivate_nodes t was_active failed l (inactivate_one t was_active failed i ci s).
Proof.
  intros Hc Hg Hact Hgen. cbn [inactivate_nodes]. unfold deref_chain. rewrite Hc, Hg. cbn [res_bind].
  assert ((if was_active && failed then Z.max (chain_generation ci) (u64 (node_generation i + 1)) else chain_generation ci) =
    chain_generation (stopped was_active failed (node_generation i) ci)) as ->.
  { cbn [stopped chain_generation]. destruct (was_active && failed) eqn:E; [|done]. specialize (Hgen eq_refl). rewrite u64_small; [done|]. unfold is_u64. lia. }
  assert ((if was_active then u32 (active_tasks ci - 1) else active_tasks ci) = active_tasks (stopped was_active failed (node_generation i) ci)) as ->.
  { cbn [stopped active_tasks]. destruct was_active; [|done]. apply u32_small. unfold is_u32. specialize (Hact eq_refl). lia. }
  cbn [with_chains limited_tasks_ chain]. unfold inactivate_one, try_start_task_later.
  destruct (limited_tasks_ s !! chain_id i) as [x|] eqn:Hx; [destruct (negb (x =? t)) |]; cbn [res_bind];
    (destruct (get_first (chain ci)) as [y|]; [destruct (negb (y =? t))|]); cbn [res_bind]; f_equal;
    unfold with_to_start, with_limited, with_chains; cbn [to_start_ chains_ limited_tasks_ tasks_ pending_tasks_ app]; rewrite ?app_nil_r, <- ?app_assoc; cbn [app]; try done;
    rewrite delete_id by done; done.
Qed.

Lemma inactivate_one_later t was_active failed i ci s : chains_ s !! chain_id i = Some ci ->
  exists new, to_start_ (inactivate_one t was_active failed i ci s) = to_start_ s ++ new /\
    (forall x, x ∈ new -> x <> t /\ (limited_tasks_ s !! chain_id i = Some x \/ get_first (chain ci) = Some x)) /\
    (forall x, limited_tasks_ s !! chain_id i = Some x -> x <> t -> x ∈ new).
Proof.
  intros Hc. eexists. split; [done|]. split.
  - intros x [Hx|Hx]%elem_of_app.
    + destruct (limited_tasks_ s !! chain_id i) as [y|]; [|by apply elem_of_nil in Hx]. destruct (y =? t) eqn:E; cbn in Hx; [by apply elem_of_nil in Hx|].
      apply list_elem_of_singleton in Hx as ->. zbool. auto.
    + destruct (get_first (chain ci)) as [y|]; [|by apply elem_of_nil in Hx]. destruct (y =? t) eqn:E; cbn in Hx; [by apply elem_of_nil in Hx|].
      apply list_elem_of_singleton in Hx as ->. zbool. auto.
  - intros x -> Hne. rewrite (proj2 (Z.eqb_neq x t)) by done. apply elem_of_app. left. by left.
Qed.

Lemma inactivate_nodes_spec t was_active failed rest : forall pre task s,
  get_task t s = Ok task -> chains task = pre ++ rest -> NoDup (map chain_id rest) ->
  (forall i, i ∈ rest -> (was_active && failed = true -> 0 <= node_generation i < 2 ^ 64 - 1) /\
     exists ci, chains_ s !! chain_id i = Some ci /\ (was_active = true -> 1 <= active_tasks ci < 2 ^ 32)) ->
  exists s', inactivate_nodes t was_active failed (imap (fun k i => ((length pre + k)%nat, chain_id i)) rest) s = Ok s' /\
    inactivated t was_active failed rest s s'.
Proof.
  induction rest as [|i rest IH]; intros pre task s Hget Hch Hnd Hall.
  - exists s. split; [done|]. constructor; try done; [intros i Hi; by apply elem_of_nil in Hi|]. exists []. rewrite app_nil_r. split; [done|].
    split; [intros x Hx; by apply elem_of_nil in Hx | intros c x Hc; by apply elem_of_nil in Hc].
  - rewrite imap_cons. rewrite Nat.add_0_r. destruct (Hall i) as (Hgen & ci & Hci & Hact); [by left|].
    rewrite (inactivate_nodes_cons _ _ _ i ci); [| done | | done | done].
    2: { unfold generation_of. cbn [fst snd]. rewrite Hget. cbn [res_bind]. rewrite Hch. by rewrite lookup_app_r, Nat.sub_diag by lia. }
    set (s1 := inactivate_one _ _ _ _ _ _). apply NoDup_cons in Hnd as [Hi Hnd]. fold (map chain_id rest) in Hi.
    assert (forall j, j ∈ rest -> chain_id j <> chain_id i) as Hne by (intros j Hj Heq; apply Hi; rewrite <- Heq; apply list_elem_of_fmap; eauto).
    destruct (IH (pre ++ [i]) task s1) as (s2 & H2 & I2).
    + done.
    + by rewrite <- app_assoc.
    + done.
    + intros j Hj. destruct (Hall j) as (Hg & cj & Hcj & Ha); [by right|]. split; [done|]. exists cj. split; [|done]. cbn. by rewrite lookup_insert_ne by (by apply not_eq_sym, Hne).
    + exists s2. split.
      { etrans; [|exact H2]. f_equal. rewrite length_app. cbn. apply imap_ext. intros k j _. cbn. f_equal. lia. }
      destruct I2 as [I1 I2 I3 I4 I5 (new2 & I6 & I7 & I8)].
      destruct (inactivate_one_later t was_active failed i ci s Hci) as (new1 & J1 & J2 & J3). fold s1 in J1.
      assert (forall c, c ∈ map chain_id (i :: rest) <-> c = chain_id i \/ c ∈ map chain_id rest) as Hids by (intros c; apply elem_of_cons).
      constructor.
      * by rewrite I1.
      * by rewrite I2.
      * intros j [->|Hj]%elem_of_cons.
        -- rewrite I4 by done. cbn. by rewrite lookup_insert_eq, Hci.
        -- rewrite I3 by done. cbn. by rewrite lookup_insert_ne by (by apply not_eq_sym, Hne).
      * intros c Hc. rewrite Hids in Hc. rewrite I4 by tauto. cbn. by rewrite lookup_insert_ne by (intros <-; tauto).
      * intros c. rewrite I5. cbn [s1 inactivate_one limited_tasks_]. destruct (decide (c = chain_id i)) as [->|Hc].
        -- rewrite lookup_delete_eq. rewrite bool_decide_eq_false_2 by done. by rewrite bool_decide_eq_true_2 by (apply Hids; by left).
        -- rewrite lookup_delete_ne by done. erewrite bool_decide_ext; [done|]. rewrite Hids. tauto.
      * exists (new1 ++ new2). rewrite I6, J1, app_assoc. split; [done|]. split.
        -- intros x [Hx|Hx]%elem_of_app.
           ++ destruct (J2 x Hx) as [? ?]. split; [done|]. exists (chain_id i), ci. rewrite Hids. auto.
           ++ destruct (I7 x Hx) as (? & c & cj & Hc & Hcj & Hcase). split; [done|]. cbn in Hcj, Hcase.
              assert (c <> chain_id i) by (intros ->; done). rewrite lookup_insert_ne in Hcj by done. rewrite lookup_delete_ne in Hcase by done.
              exists c, cj. rewrite Hids. auto.
        -- intros c x Hc Hl Hxt. rewrite elem_of_app. rewrite Hids in Hc. destruct (decide (c = chain_id i)) as [->|Hne']; [left; eauto|].
           right. apply (I8 c); [tauto | | done]. cbn. by rewrite lookup_delete_ne.
Qed.

(** ** A task that stops *)
Lemma node_gen_set_state T t task st n : T !! t = Some task -> node_gen (<[t := set_state st task]> T) n = node_gen T n.
Proof.
  intros Ht. unfold node_gen. destruct (decide (n.1 = t)) as [->|]; [|by rewrite lookup_insert_ne]. by rewrite lookup_insert_eq, Ht.
Qed.

Lemma shape_set_state T t task st t' : T !! t = Some task -> shape (<[t := set_state st task]> T) t' = shape T t'.
Proof.
  intros Ht. unfold shape. destruct (decide (t' = t)) as [->|]; [|by rewrite lookup_insert_ne]. by rewrite lookup_insert_eq, Ht.
Qed.

(** The number of active tasks in a chain without the task [t]. *)
Lemma active_without T ord c ci t k : NoDup ord -> chain_wf T ord c ci -> (t, k) ∈ chain ci ->
  Z.of_nat (length (active_nodes T (remove_node (t, k) (chain ci)))) =
  active_tasks ci - (if bool_decide (task_state T t = Some Active) then 1 else 0).
Proof.
  intros Hnd Hw Hk. rewrite (cw_active _ _ _ _ Hw). pose proof (NoDup_map_fst _ (chain_nodup _ _ _ _ Hnd Hw)) as Hn.
  apply list_elem_of_split in Hk as (l1 & l2 & Heq). rewrite Heq in Hn |- *. apply NoDup_app in Hn as (_ & Hn1 & [Hn2 _]%NoDup_cons).
  unfold remove_node. rewrite filter_app, filter_cons_False by naive_solver.
  rewrite !filter_all; [|apply Forall_forall; intros n Hin ->; done | apply Forall_forall; intros n Hin ->; apply (Hn1 _ Hin); by left].
  unfold active_nodes. rewrite !filter_app, filter_cons, !length_app. cbn [fst].
  destruct (decide (task_state T t = Some Active)) as [Hs|Hs];
    [rewrite bool_decide_eq_true_2 by done | rewrite bool_decide_eq_false_2 by done]; cbn [length]; lia.
Qed.

Lemma active_others T T1 ord c ci t k : NoDup ord -> chain_wf T ord c ci -> (t, k) ∈ chain ci ->
  (forall t', t' <> t -> task_state T1 t' = task_state T t') ->
  active_nodes T1 (remove_node (t, k) (chain ci)) = active_nodes T (remove_node (t, k) (chain ci)).
Proof.
  intros Hnd Hw Hk Hsame. apply active_nodes_ext. intros n [Hne Hn]%list_elem_of_filter. apply Hsame. by eapply other_task.
Qed.

Lemma active_nodes_remove T n l : task_state T n.1 <> Some Active -> active_nodes T (remove_node n l) = active_nodes T l.
Proof.
  intros Hs. unfold active_nodes, remove_node. rewrite list_filter_filter. apply list_filter_iff. intros m. split; [tauto|]. intros Hm. split; [done|]. by intros ->.
Qed.

Lemma chain_stopped T ord c ci t task k i : NoDup ord -> chain_wf T ord c ci -> T !! t = Some task -> chains task !! k = Some i -> chain_id i = c ->
  chain_generation ci < 2 ^ 64 - 1 -> forall st, st <> Active ->
  chain_wf (<[t := set_state st task]> T) ord c (stopped (bool_decide (state task = Active)) true (node_generation i) ci).
Proof.
  intros Hnd Hw Ht Hk Hid HG st Hst. set (T1 := <[t := _]> T). set (ci' := stopped _ _ _ _).
  assert ((t, k) ∈ chain ci) as Hn by (apply (cw_nodes _ _ _ _ Hw); exists task, i; done).
  assert (node_gen T (t, k) = Some (node_generation i)) as Hgen by (unfold node_gen; cbn; by rewrite Ht, Hk).
  assert (forall n, node_gen T1 n = node_gen T n) as Hsame by (intros; by apply node_gen_set_state).
  assert (forall t', t' <> t -> task_state T1 t' = task_state T t') as Hother by (intros; by apply task_state_other).
  assert (task_state T t = Some (state task)) as Hs by (unfold task_state; by rewrite Ht).
  assert (task_state T1 t = Some st) as Hs1 by apply task_state_at.
  pose proof (cw_gens _ _ _ _ Hw _ _ Hn Hgen) as Hle. pose proof (cw_pos _ _ _ _ Hw) as Hpos.
  assert (chain_generation ci' = chain_generation ci /\ ~ current T ci (t, k) \/ chain_generation ci' = chain_generation ci + 1) as HG'.
  { cbn [ci' stopped chain_generation]. rewrite andb_true_r. case_bool_decide as Hact.
    - destruct (decide (node_generation i = chain_generation ci)); [right; lia | left; split; [lia|]]. unfold current. congruence.
    - left. split; [done|]. eapply pending_not_current; [done.. |]. cbn. congruence. }
  assert (forall n, n ∈ chain ci -> current T1 ci' n -> chain_generation ci' = chain_generation ci /\ current T ci n /\ n <> (t, k)) as Hcur.
  { intros n Hin Hc. unfold current in *. rewrite Hsame in Hc. pose proof (cw_gens _ _ _ _ Hw _ _ Hin Hc).
    destruct HG' as [[HG' Hnot]|HG']; [|lia]. rewrite HG' in Hc. split_and!; [done..|]. by intros ->. }
  destruct (cw_split _ _ _ _ Hw) as (la & lb & Heq & Ha & Hb).
  constructor; cbn [ci' stopped chain].
  - apply (cw_nonempty _ _ _ _ Hw).
  - apply (cw_order _ _ _ _ Hw).
  - intros n. rewrite (cw_nodes _ _ _ _ Hw). symmetry. apply in_chain_same. intros t'. by apply shape_set_state.
  - intros n g Hin. rewrite Hsame. intros Hg. pose proof (cw_gens _ _ _ _ Hw _ _ Hin Hg). fold ci'. destruct HG' as [[-> _] | ->]; lia.
  - fold ci'. destruct HG' as [[-> _] | ->]; lia.
  - fold ci'. destruct HG' as [[HG' _] | HG'].
    + exists la, lb. unfold current in *. rewrite !Forall_forall in *. setoid_rewrite Hsame. rewrite HG'. done.
    + exists [], (chain ci). split; [done|]. split; [constructor|]. apply Forall_forall. intros n Hin Hc. destruct (Hcur n Hin Hc). lia.
  - intros n Hin Hc. destruct (Hcur n Hin Hc) as (_ & Hc' & Hne). rewrite Hother; [by apply (cw_current _ _ _ _ Hw)|]. by eapply other_task.
  - rewrite <- (active_nodes_remove T1 (t, k)) by (cbn; congruence). rewrite (active_others T T1 ord c ci) by done.
    rewrite (active_without T ord c ci) by done. rewrite Hs.
    unfold ci'. cbn [stopped active_tasks]. repeat case_bool_decide; simplify_eq; first [lia | congruence].
  - pose proof (cw_limit _ _ _ _ Hw). unfold ci'. cbn [stopped active_tasks]. case_bool_decide; lia.
Qed.

(** The chains have not run out of generations. *)
Definition generations_left s : Prop := forall c ci, chains_ s !! c = Some ci -> chain_generation ci < 2 ^ 64 - 1.

Definition none (t : TaskId) : Prop := False.

Lemma active_positive T ord c ci t k : NoDup ord -> chain_wf T ord c ci -> (t, k) ∈ chain ci -> task_state T t = Some Active -> 1 <= active_tasks ci < 2 ^ 32.
Proof.
  intros Hnd Hw Hk Hs. pose proof (active_without T ord c ci t k Hnd Hw Hk) as H. rewrite bool_decide_eq_true_2 in H by done.
  pose proof (cw_limit _ _ _ _ Hw). lia.
Qed.

Lemma inactivate_task_spec a ord s t task failed : inv none a ord s -> live a !! t = Some task -> (failed = true -> generations_left s) ->
  exists c1 s1, inactivate_task t failed s = Ok s1 /\ rep c1 (with_task t (set_state Pending task) a) /\
    inactivated t (bool_decide (state task = Active)) failed (chains task) (with_tasks c1 s) s1.
Proof.
  intros Hi Ht Hroom. unfold inactivate_task. rewrite (get_task_live _ _ _ _ _ _ Hi Ht). cbn [res_bind].
  destruct (update_task_spec s a t task (set_state Pending) (iv_rep _ _ _ _ Hi) Ht) as (c1 & -> & Hr1). cbn [res_bind].
  destruct (inactivate_nodes_spec t (bool_decide (state task = Active)) failed (chains task) [] (set_state Pending task) (with_tasks c1 s)) as (s1 & Heq & Hin).
  - unfold get_task. cbn [with_tasks tasks_]. by rewrite (get_live _ _ _ _ Hr1 (lookup_insert_eq _ _ _)).
  - done.
  - by eapply iv_ids.
  - intros i Hin. apply list_elem_of_lookup in Hin as [k Hk]. assert ((k, chain_id i) ∈ nodes_of task) as Hin by (apply in_nodes_of; eauto).
    destruct (task_chain _ _ _ _ _ _ _ _ Hi Ht Hin) as (ci & Hci & Hw & Hn). split.
    + intros [_ Hf]%andb_prop. specialize (Hroom Hf _ _ Hci). assert (node_gen (live a) (t, k) = Some (node_generation i)) as Hg by (unfold node_gen; cbn; by rewrite Ht, Hk).
      pose proof (cw_gens _ _ _ _ Hw _ _ Hn Hg). lia.
    + exists ci. split; [done|]. intros Hact%bool_decide_eq_true. apply (active_positive (live a) ord (chain_id i) ci t k); [apply Hi | done | done |].
      unfold task_state. rewrite Ht. cbn. by rewrite Hact.
  - exists c1, s1. by split_and!.
Qed.

(** What is tried later is a task of the scheduler. *)
Lemma later_live a ord s t c ci x : inv none a ord s -> chains_ s !! c = Some ci ->
  limited_tasks_ s !! c = Some x \/ get_first (chain ci) = Some x -> x <> t -> is_Some (live a !! x).
Proof.
  intros Hi Hc Hcase _. pose proof (iv_chain _ _ _ _ Hi _ _ Hc) as Hw.
  assert (exists k, (x, k) ∈ chain ci) as [k Hk].
  { destruct Hcase as [Hl|Hf].
    - destruct (iv_limited _ _ _ _ Hi _ _ Hl) as (ci' & k & Hc' & Hk & _). simplify_eq. eauto.
    - unfold get_first in Hf. destruct (chain ci) as [|[y k] l]; [done|]. injection Hf as ->. exists k. by left. }
  destruct (chain_task _ _ _ _ _ Hw Hk) as (? & ? & ? & _). eauto.
Qed.

Lemma task_infos (task : Task (ExtraT := ExtraT)) c : c ∈ map chain_id (chains task) -> exists k i, chains task !! k = Some i /\ chain_id i = c /\ i ∈ chains task.
Proof. intros (i & -> & Hi)%list_elem_of_fmap. apply list_elem_of_lookup in Hi as Hk. destruct Hk as [k Hk]. eauto. Qed.

Section stopped.
Context (a : objects (DataT := Task (ExtraT := ExtraT))) (ord : list TaskId) (s s1 : ChainScheduler (ExtraT := ExtraT)) (c1 cc : Container (DataT := Task (ExtraT := ExtraT))).
Context (t : TaskId) (task : Task (ExtraT := ExtraT)) (st : State).
Hypothesis Hinv : inv none a ord s.
Hypothesis Htask : live a !! t = Some task.
Hypothesis Hroom : generations_left s.
Hypothesis Hin : inactivated t (bool_decide (state task = Active)) true (chains task) (with_tasks c1 s) s1.
Hypothesis Hstate : st <> Active.
Hypothesis Hnot : t ∉ VectorQueue.contents (pending_tasks_ s).
Hypothesis Hlater : to_start_ s = [].
Hypothesis Hrep : rep cc (with_task t (set_state st task) a).

Local Abbreviation T := (live a).
Local Abbreviation T1 := (<[t := set_state st task]> (live a)).

Lemma stopped_same c n : in_chain T1 c n <-> in_chain T c n.
Proof. apply in_chain_same. intros t'. by apply shape_set_state. Qed.

Lemma stopped_chain c ci' : chains_ s1 !! c = Some ci' ->
  chain_wf T1 ord c ci' /\ exists ci, chains_ s !! c = Some ci /\ chain ci' = chain ci /\ chain_generation ci <= chain_generation ci' /\
    (c ∉ map chain_id (chains task) -> ci' = ci).
Proof.
  intros Hc. destruct (decide (c ∈ map chain_id (chains task))) as [Hcin|Hcout].
  - destruct (task_infos _ _ Hcin) as (k & i & Hk & Hid & Hi). rewrite <- Hid, (in_chains _ _ _ _ _ _ Hin) in Hc by done. cbn in Hc.
    destruct (chains_ s !! chain_id i) as [ci|] eqn:Hci; [|done]. injection Hc as <-. rewrite Hid in Hci. split.
    + eapply (chain_stopped T ord c ci t task k i); [apply Hinv | by eapply iv_chain | done.. | by eapply Hroom | done].
    + exists ci. split_and!; [done | done | | by intros]. cbn [stopped chain_generation]. destruct (_ && _); lia.
  - rewrite (in_others _ _ _ _ _ _ Hin) in Hc by done. cbn in Hc. pose proof (iv_chain _ _ _ _ Hinv _ _ Hc) as Hw. split.
    + apply (chain_wf_ext T); [| intros; apply stopped_same | done]. intros n Hn. rewrite node_gen_set_state by done. split; [done|].
      apply task_state_other. by eapply not_in_chain.
    + exists ci'. split_and!; done.
Qed.

Lemma stopped_chain_2 c ci : chains_ s !! c = Some ci -> is_Some (chains_ s1 !! c).
Proof.
  intros Hc. destruct (decide (c ∈ map chain_id (chains task))) as [Hcin|Hcout].
  - destruct (task_infos _ _ Hcin) as (k & i & Hk & <- & Hi). rewrite (in_chains _ _ _ _ _ _ Hin) by done. cbn. rewrite Hc. eauto.
  - rewrite (in_others _ _ _ _ _ _ Hin) by done. cbn. rewrite Hc. eauto.
Qed.

Lemma stopped_limited : limited_ok T1 (chains_ s1) (limited_tasks_ s1).
Proof.
  intros c t' Hl. rewrite (in_limited _ _ _ _ _ _ Hin) in Hl. case_bool_decide as Hc; [done|]. cbn in Hl.
  destruct (iv_limited _ _ _ _ Hinv _ _ Hl) as (ci & k & Hci & Hk & Hs & Hca & Hfull). exists ci, k.
  rewrite (in_others _ _ _ _ _ _ Hin) by done. split_and!; [done | done | | | done].
  - rewrite task_state_other; [done|]. apply (not_in_chain T ord c ci t task (t', k)); [by eapply iv_chain | done..].
  - apply (candidate_ext T T1 ci ci); [|done..]. intros m _. by apply node_gen_set_state.
Qed.

Lemma stopped_woken t' : task_state T1 t' = Some Pending -> ~ ((t' = t /\ st = Pending) \/ t' ∈ to_start_ s1) ->
  blocked T1 (chains_ s1) (limited_tasks_ s1) t'.
Proof.
  intros Hs HX. destruct (decide (t' = t)) as [->|Hne].
  { rewrite task_state_at in Hs. injection Hs as Hs. cbn in Hs. tauto. }
  rewrite task_state_other in Hs by done. destruct (iv_woken _ _ _ _ Hinv t' Hs) as (c & ci & k & Hci & Hk & Hcase); [by intros []|].
  destruct (stopped_chain_2 c ci Hci) as [ci' Hci']. destruct (stopped_chain c ci' Hci') as (_ & ci0 & Hci0 & Hch & Hle & Hsame). simplify_eq.
  exists c, ci', k. rewrite Hch. split_and!; [done..|]. pose proof (iv_chain _ _ _ _ Hinv _ _ Hci) as Hw. destruct Hcase as [Hno|Hl].
  - left. intros Hca. apply Hno. intros p Hp. unfold candidate, current in Hca. rewrite Hch in Hca. specialize (Hca p Hp). rewrite node_gen_set_state in Hca by done.
    apply prev_of_in in Hp as [Hp _]. pose proof (cw_gens _ _ _ _ Hw _ _ Hp Hca). unfold current. rewrite Hca. f_equal. lia.
  - right. rewrite (in_limited _ _ _ _ _ _ Hin). destruct (in_later _ _ _ _ _ _ Hin) as (new & Hnew & _ & Hall). cbn in Hnew. rewrite Hlater in Hnew. cbn in Hnew.
    rewrite bool_decide_eq_false_2; [done|]. intros Hc. apply HX. right. rewrite Hnew. by eapply Hall.
Qed.

Lemma stopped_order : queue_order T1 (chains_ s1) (pending_tasks_ s1).
Proof.
  intros c ci' l1 n l2 q1 q2 Hc Heq Hcur Hq. rewrite (in_queue _ _ _ _ _ _ Hin) in Hq. cbn in Hq.
  destruct (stopped_chain c ci' Hc) as (_ & ci & Hci & Hch & Hle & _). rewrite Hch in Heq.
  apply (iv_order _ _ _ _ Hinv c ci l1 n l2 q1 q2 Hci Heq); [|done]. unfold current in *. rewrite node_gen_set_state in Hcur by done.
  assert (n ∈ chain ci) as Hn by (rewrite Heq, elem_of_app; right; by left).
  pose proof (cw_gens _ _ _ _ (iv_chain _ _ _ _ Hinv _ _ Hci) _ _ Hn Hcur). rewrite Hcur. f_equal. lia.
Qed.

Lemma stopped_inv : inv (fun x => (x = t /\ st = Pending) \/ x ∈ to_start_ s1) (with_task t (set_state st task) a) ord (with_tasks cc s1).
Proof.
  constructor; cbn [with_tasks tasks_ chains_ limited_tasks_ pending_tasks_ with_task live].
  - done.
  - apply Hinv.
  - intros t'. rewrite (iv_dom _ _ _ _ Hinv), lookup_insert_is_Some'. split; [by right|]. intros [<-|]; [by eauto | done].
  - intros t' task'. rewrite lookup_insert_Some. intros [[<- <-] | [_ H]]; [|by eapply iv_ids]. exact (iv_ids _ _ _ _ Hinv t task Htask).
  - intros c ci' Hc. by apply stopped_chain.
  - intros c n. rewrite stopped_same. intros [ci Hci]%(iv_some _ _ _ _ Hinv). by eapply stopped_chain_2.
  - apply stopped_limited.
  - rewrite (in_queue _ _ _ _ _ _ Hin). cbn. destruct (iv_queue _ _ _ _ Hinv) as [Q1 Q2 Q3 Q4]. constructor; [done..|].
    intros x Hx. rewrite task_state_other; [by apply Q4|]. by intros ->.
  - apply stopped_order.
  - apply stopped_woken.
Qed.

Lemma stopped_later x : x ∈ to_start_ s1 -> is_Some (T1 !! x).
Proof.
  destruct (in_later _ _ _ _ _ _ Hin) as (new & Hnew & Hfrom & _). cbn in Hnew. rewrite Hlater in Hnew. cbn in Hnew. rewrite Hnew. intros Hx.
  destruct (Hfrom x Hx) as (Hne & c & ci & Hc & Hci & Hcase). rewrite lookup_insert_ne by done. by apply (later_live a ord s t c ci x).
Qed.

End stopped.
(** ** A task that is finished *)
Lemma children_later t l : forall s, (forall k c, (k, c) ∈ l -> exists ci, chains_ s !! c = Some ci /\ (t, k) ∈ chain ci) ->
  exists new, for_each_child try_start_task_later t l s = Ok (with_to_start (to_start_ s ++ new) s) /\ forall x, x ∈ new <-> child_of (chains_ s) t l x.
Proof.
  induction l as [|[k c] l IH]; intros s Hl.
  - exists []. rewrite app_nil_r. split; [by destruct s|]. intros x. split; [by intros ?%elem_of_nil|]. intros (k & c & ci & k' & Hin & _). by apply elem_of_nil in Hin.
  - destruct (Hl k c) as (ci & Hc & Hk); [by left|]. cbn [for_each_child]. unfold deref_chain. rewrite Hc. cbn [res_bind].
    unfold get_child. rewrite bool_decide_eq_true_2 by done.
    assert (forall x, child_of (chains_ s) t ((k, c) :: l) x <-> (fst <$> next_of (t, k) (chain ci)) = Some x \/ child_of (chains_ s) t l x) as Hsplit.
    { intros x. split.
      - intros (k0 & c0 & ci0 & k' & [[= -> ->]|H]%elem_of_cons & Hc0 & Hx); [left | right; by exists k0, c0, ci0, k']. simplify_eq. by rewrite Hx.
      - intros [Hx | (k0 & c0 & ci0 & k' & H & ?)]; [|exists k0, c0, ci0, k'; split; [by right | done]].
        destruct (next_of (t, k) (chain ci)) as [[y k']|] eqn:Hn; [|done]. injection Hx as <-. exists k, c, ci, k'. split; [by left | done]. }
    destruct (next_of (t, k) (chain ci)) as [[y k']|] eqn:Hn; cbn [fmap option_fmap option_map fst try_start_task_later res_bind].
    + destruct (IH (with_to_start (to_start_ s ++ [y]) s)) as (new & -> & Hnew); [intros k0 c0 H; apply Hl; by right|].
      exists (y :: new). cbn [with_to_start to_start_ chains_ limited_tasks_ tasks_ pending_tasks_]. rewrite <- app_assoc. split; [done|].
      intros x. rewrite elem_of_cons, Hnew, Hsplit. cbn. split; (intros [H|H]; [left; congruence | by right]).
    + destruct (IH s) as (new & -> & Hnew); [intros k0 c0 H; apply Hl; by right|]. exists new. split; [done|]. intros x. rewrite Hnew, Hsplit. cbn. split; [by right | by intros [|]].
Qed.

Definition shortened (n : Node) (ci : ChainInfo) : option ChainInfo :=
  let rest := remove_node n (chain ci) in
  if bool_decide (rest = []) then None
  else Some {| chain := rest; active_tasks := active_tasks ci; chain_generation := chain_generation ci |}.

Lemma finish_chain_tasks_spec t l : forall s, NoDup (map snd l) -> (forall k c, (k, c) ∈ l -> is_Some (chains_ s !! c)) ->
  exists C, finish_chain_tasks t l s = Ok (with_chains C s) /\
    (forall k c ci, (k, c) ∈ l -> chains_ s !! c = Some ci -> C !! c = shortened (t, k) ci) /\
    (forall c, c ∉ map snd l -> C !! c = chains_ s !! c).
Proof.
  induction l as [|[k c] l IH]; intros s Hnd Hl.
  - exists (chains_ s). split; [by destruct s|]. split; [intros k c ci Hin; by apply elem_of_nil in Hin | done].
  - destruct (Hl k c) as [ci Hc]; [by left|]. cbn [finish_chain_tasks]. unfold deref_chain. rewrite Hc. cbn [res_bind].
    apply NoDup_cons in Hnd as [Hcl Hnd]. fold (map snd l) in Hcl.
    set (s1 := if bool_decide (remove_node (t, k) (chain ci) = []) then _ else _).
    assert (chains_ s1 !! c = shortened (t, k) ci /\ (forall c', c' <> c -> chains_ s1 !! c' = chains_ s !! c') /\ forall C, with_chains C s1 = with_chains C s) as (H1 & H2 & H3).
    { unfold s1, shortened. case_bool_decide; cbn [with_chains chains_]; (split; [by rewrite ?lookup_delete_eq, ?lookup_insert_eq | split; [|done]]);
        intros c' Hne; [by rewrite lookup_delete_ne | by rewrite lookup_insert_ne]. }
    destruct (IH s1) as (C & -> & HC1 & HC2); [done | |].
    { intros k0 c0 H. rewrite H2; [apply (Hl k0); by right|]. intros ->. apply Hcl. apply list_elem_of_fmap. by exists (k0, c). }
    exists C. rewrite H3. split; [done|]. split.
    + intros k0 c0 ci0 [[= -> ->]|H]%elem_of_cons Hc0; [rewrite HC2 by done; rewrite H1; congruence|].
      apply (HC1 k0); [done|]. rewrite H2; [done|]. intros ->. apply Hcl. apply list_elem_of_fmap. by exists (k0, c).
    + intros c' Hc'. rewrite HC2, H2; [done | |]; intros H; apply Hc'; apply elem_of_cons; [left; done | right; done].
Qed.

Lemma sublist_without (t : TaskId) l l' : l `sublist_of` l' -> filter (fun x => x <> t) l `sublist_of` filter (fun x => x <> t) l'.
Proof.
  induction 1 as [|x l l' H IH|x l l' H IH]; [done | |]; rewrite !filter_cons; destruct (decide (x <> t)); first [by constructor | done].
Qed.

Lemma map_fst_remove T ord c ci t k : NoDup ord -> chain_wf T ord c ci -> (t, k) ∈ chain ci ->
  map fst (remove_node (t, k) (chain ci)) = filter (fun x => x <> t) (map fst (chain ci)).
Proof.
  intros Hnd Hw Hk. assert (forall n, n ∈ chain ci -> n <> (t, k) <-> n.1 <> t) as H.
  { intros n Hn. split; [intros; by eapply other_task | by intros Hne ->]. }
  unfold remove_node. clear Hk Hw. induction (chain ci) as [|n l IH]; [done|]. cbn [map]. rewrite !filter_cons.
  assert (n <> (t, k) <-> n.1 <> t) as Hn by (apply H; by left). assert (forall m, m ∈ l -> m <> (t, k) <-> m.1 <> t) as Hl by (intros; apply H; by right).
  destruct (decide (n <> (t, k))), (decide (n.1 <> t)); cbn [map]; rewrite ?IH by done; done || tauto.
Qed.

Lemma node_gen_delete T t n : n.1 <> t -> node_gen (delete t T) n = node_gen T n.
Proof. intros H. unfold node_gen. by rewrite lookup_delete_ne. Qed.
Lemma task_state_delete T t t' : t' <> t -> task_state (delete t T) t' = task_state T t'.
Proof. intros H. unfold task_state. by rewrite lookup_delete_ne. Qed.
Lemma task_state_gone T t : task_state (delete t T) t = None.
Proof. unfold task_state. by rewrite lookup_delete_eq. Qed.
Lemma in_chain_delete T t c n : in_chain (delete t T) c n <-> in_chain T c n /\ n.1 <> t.
Proof. unfold in_chain. setoid_rewrite lookup_delete_Some. naive_solver. Qed.

Lemma chain_removed T ord c ci t task k i : NoDup ord -> chain_wf T ord c ci -> T !! t = Some task -> chains task !! k = Some i -> chain_id i = c ->
  forall ci', shortened (t, k) (stopped (bool_decide (state task = Active)) false (node_generation i) ci) = Some ci' ->
  chain_wf (delete t T) (filter (fun x => x <> t) ord) c ci' /\ chain ci' = remove_node (t, k) (chain ci) /\ chain_generation ci' = chain_generation ci.
Proof.
  intros Hnd Hw Ht Hk Hid ci' Hci'. unfold shortened in Hci'. case_bool_decide as Hne; [done|]. injection Hci' as <-.
  cbn [stopped chain active_tasks chain_generation] in *. rewrite andb_false_r in *.
  assert ((t, k) ∈ chain ci) as Hn by (apply (cw_nodes _ _ _ _ Hw); exists task, i; done).
  assert (task_state T t = Some (state task)) as Hs by (unfold task_state; by rewrite Ht).
  assert (forall n, n ∈ remove_node (t, k) (chain ci) <-> n ∈ chain ci /\ n.1 <> t) as Hmem.
  { intros n. unfold remove_node. rewrite list_elem_of_filter. split.
    - intros [H1 H2]. split; [done|]. by eapply other_task.
    - intros [H1 H2]. split; [|done]. by intros ->. }
  split; [|done]. destruct (cw_split _ _ _ _ Hw) as (la & lb & Heq & Ha & Hb).
  constructor; cbn [chain active_tasks chain_generation].
  - done.
  - rewrite (map_fst_remove T ord c ci t k) by done. by apply sublist_without, (cw_order _ _ _ _ Hw).
  - intros n. by rewrite Hmem, (cw_nodes _ _ _ _ Hw), in_chain_delete.
  - intros n g [Hin Hnt]%Hmem. rewrite node_gen_delete by done. by apply (cw_gens _ _ _ _ Hw).
  - apply (cw_pos _ _ _ _ Hw).
  - exists (remove_node (t, k) la), (remove_node (t, k) lb). split; [unfold remove_node; rewrite Heq; apply filter_app|].
    rewrite !Forall_forall in *. unfold current in *. cbn [chain_generation].
    assert (forall n, n ∈ remove_node (t, k) la \/ n ∈ remove_node (t, k) lb -> n.1 <> t) as Hout.
    { intros n H. apply Hmem. unfold remove_node in *. rewrite Heq, filter_app, elem_of_app. done. }
    split; intros n Hin; (rewrite node_gen_delete by (apply Hout; auto)); apply list_elem_of_filter in Hin as [_ Hin]; [by apply Ha | by apply Hb].
  - intros n [Hin Hnt]%Hmem. unfold current. cbn [chain_generation]. rewrite node_gen_delete, task_state_delete by done. by apply (cw_current _ _ _ _ Hw).
  - rewrite (active_others T (delete t T) ord c ci t k Hnd Hw Hn) by (intros; by apply task_state_delete).
    rewrite (active_without T ord c ci t k Hnd Hw Hn), Hs. repeat case_bool_decide; simplify_eq; first [lia | congruence].
  - pose proof (cw_limit _ _ _ _ Hw). case_bool_decide; lia.
Qed.

Lemma remove_split (x : Node) l : forall l1 n l2 m, remove_node x l = l1 ++ n :: l2 -> m ∈ l1 -> exists l1' l2', l = l1' ++ n :: l2' /\ m ∈ l1'.
Proof.
  unfold remove_node. induction l as [|y l IH]; intros l1 n l2 m Heq Hm; [by destruct l1|]. rewrite filter_cons in Heq. destruct (decide (y <> x)).
  - destruct l1 as [|z l1]; [by apply elem_of_nil in Hm|]. injection Heq as -> Heq. apply elem_of_cons in Hm as [->|Hm].
    + assert (n ∈ l) as Hn by (apply (list_elem_of_filter (fun n => n <> x)); rewrite Heq, elem_of_app; right; by left).
      apply list_elem_of_split in Hn as (k1 & k2 & ->). exists (z :: k1), k2. split; [done | by left].
    + destruct (IH _ _ _ _ Heq Hm) as (k1 & k2 & -> & ?). exists (z :: k1), k2. split; [done | by right].
  - destruct (IH _ _ _ _ Heq Hm) as (k1 & k2 & -> & ?). exists (y :: k1), k2. split; [done | by right].
Qed.

Section finished.
Context (a : objects (DataT := Task (ExtraT := ExtraT))) (ord : list TaskId) (s s1 : ChainScheduler (ExtraT := ExtraT)) (c1 cc : Container (DataT := Task (ExtraT := ExtraT))).
Context (t : TaskId) (task : Task (ExtraT := ExtraT)) (C : gmap ChainId ChainInfo) (kids : list TaskId).
Hypothesis Hinv : inv none a ord s.
Hypothesis Htask : live a !! t = Some task.
Hypothesis Hin : inactivated t (bool_decide (state task = Active)) false (chains task) (with_tasks c1 s) s1.
Hypothesis Hkids : forall x, x ∈ kids <-> child_of (chains_ s1) t (nodes_of task) x.
Hypothesis HC1 : forall k c ci, (k, c) ∈ nodes_of task -> chains_ s1 !! c = Some ci -> C !! c = shortened (t, k) ci.
Hypothesis HC2 : forall c, c ∉ map chain_id (chains task) -> C !! c = chains_ s1 !! c.
Hypothesis Hnot : t ∉ VectorQueue.contents (pending_tasks_ s).
Hypothesis Hlater : to_start_ s = [].
Hypothesis Hrep : rep cc (remove t a).

Local Abbreviation T := (live a).
Local Abbreviation T1 := (delete t (live a)).
Local Abbreviation ord1 := (filter (fun x => x <> t) ord).

(** The chains of the finished task. *)
Lemma finished_at k c : (k, c) ∈ nodes_of task -> exists ci i, chains_ s !! c = Some ci /\ (t, k) ∈ chain ci /\ chains task !! k = Some i /\ chain_id i = c /\
  C !! c = shortened (t, k) (stopped (bool_decide (state task = Active)) false (node_generation i) ci).
Proof.
  intros Hk. destruct (task_chain _ _ _ _ _ _ _ _ Hinv Htask Hk) as (ci & Hci & Hw & Hn). apply in_nodes_of in Hk as Hi. destruct Hi as (i & Hi & Hid).
  exists ci, i. split_and!; [done..|]. apply HC1; [done|]. rewrite <- Hid. rewrite (in_chains _ _ _ _ _ _ Hin) by (by eapply list_elem_of_lookup_2).
  cbn. rewrite Hid, Hci. done.
Qed.

Lemma finished_chain c ci' : C !! c = Some ci' ->
  chain_wf T1 ord1 c ci' /\ exists ci, chains_ s !! c = Some ci /\ chain_generation ci' = chain_generation ci /\
    (c ∉ map chain_id (chains task) /\ ci' = ci \/ exists k, (t, k) ∈ chain ci /\ (k, c) ∈ nodes_of task /\ chain ci' = remove_node (t, k) (chain ci)).
Proof.
  intros Hc. destruct (decide (c ∈ map chain_id (chains task))) as [Hcin|Hcout].
  - apply nodes_of_chain in Hcin as [k Hk]. destruct (finished_at k c Hk) as (ci & i & Hci & Hn & Hi & Hid & HC). rewrite HC in Hc.
    destruct (chain_removed T ord c ci t task k i (iv_nodup _ _ _ _ Hinv) (iv_chain _ _ _ _ Hinv _ _ Hci) Htask Hi Hid _ Hc) as (? & ? & ?).
    split; [done|]. exists ci. eauto 10.
  - rewrite HC2, (in_others _ _ _ _ _ _ Hin) in Hc by done. cbn in Hc. pose proof (iv_chain _ _ _ _ Hinv _ _ Hc) as Hw.
    split; [|exists ci'; auto]. assert (forall n, n ∈ chain ci' -> n.1 <> t) as Hout by (intros n Hn; by eapply not_in_chain).
    apply (chain_wf_ext T T1) in Hw as Hw'; [| intros n Hn; rewrite node_gen_delete, task_state_delete; auto |].
    + destruct Hw'. constructor; try done. rewrite <- (filter_all (map fst (chain ci')) (fun x => x <> t)); [by apply sublist_without|].
      apply Forall_forall. intros x (n & -> & Hn)%list_elem_of_fmap. by apply Hout.
    + intros n. rewrite in_chain_delete. split; [tauto|]. intros H. split; [done|]. apply Hout. by apply (cw_nodes _ _ _ _ Hw).
Qed.

Lemma finished_chain_2 c ci n : chains_ s !! c = Some ci -> n ∈ chain ci -> n.1 <> t -> exists ci', C !! c = Some ci' /\ n ∈ chain ci'.
Proof.
  intros Hci Hn Hne. destruct (decide (c ∈ map chain_id (chains task))) as [Hcin|Hcout].
  - apply nodes_of_chain in Hcin as [k Hk]. destruct (finished_at k c Hk) as (ci0 & i & Hci0 & Hk0 & Hi & Hid & ->). assert (ci0 = ci) as -> by congruence.
    assert (n ∈ remove_node (t, k) (chain ci)) as Hin' by (unfold remove_node; apply list_elem_of_filter; split; [by intros -> | done]).
    unfold shortened. cbn [stopped chain]. rewrite bool_decide_eq_false_2; [eauto|]. intros H. rewrite H in Hin'. by apply elem_of_nil in Hin'.
  - exists ci. rewrite HC2, (in_others _ _ _ _ _ _ Hin) by done. done.
Qed.

Lemma finished_limited : limited_ok T1 C (limited_tasks_ s1).
Proof.
  intros c t' Hl. rewrite (in_limited _ _ _ _ _ _ Hin) in Hl. case_bool_decide as Hc; [done|]. cbn in Hl.
  destruct (iv_limited _ _ _ _ Hinv _ _ Hl) as (ci & k & Hci & Hk & Hs & Hca & Hfull). exists ci, k. pose proof (iv_chain _ _ _ _ Hinv _ _ Hci) as Hw.
  assert (forall n, n ∈ chain ci -> n.1 <> t) as Hout by (intros n Hn; by eapply not_in_chain).
  rewrite HC2, (in_others _ _ _ _ _ _ Hin) by done. split_and!; [done | done | | | done].
  - rewrite task_state_delete; [done|]. by apply (Hout _ Hk).
  - apply (candidate_ext T T1 ci ci); [|done..]. intros m Hm. apply node_gen_delete. by apply Hout.
Qed.

Lemma finished_woken t' : task_state T1 t' = Some Pending -> ~ t' ∈ to_start_ s1 ++ kids -> blocked T1 C (limited_tasks_ s1) t'.
Proof.
  intros Hs HX. assert (t' <> t) as Hne by (intros ->; by rewrite task_state_gone in Hs). rewrite task_state_delete in Hs by done.
  destruct (iv_woken _ _ _ _ Hinv t' Hs) as (c & ci & k & Hci & Hk & Hcase); [by intros []|]. pose proof (iv_chain _ _ _ _ Hinv _ _ Hci) as Hw.
  destruct (finished_chain_2 c ci (t', k) Hci Hk Hne) as (ci' & Hci' & Hk'). destruct (finished_chain c ci' Hci') as (_ & ci0 & Hci0 & HG & Hch). assert (ci0 = ci) as -> by congruence.
  exists c, ci', k. split_and!; [done..|]. destruct Hcase as [Hno|Hl].
  - left. intros Hca. apply Hno. intros p Hp.
    assert (p.1 <> t) as Hpt.
    { intros Hpt. apply HX, elem_of_app. right. apply Hkids. destruct p as [t0 k0]. cbn in Hpt. subst t0. destruct (prev_of_in _ _ _ Hp) as [Hpin _].
      assert ((k0, c) ∈ nodes_of task) as Hk0 by (by apply (cw_nodes _ _ _ _ Hw), (in_chain_nodes _ _ _ task) in Hpin).
      apply in_nodes_of in Hk0 as Hi0. destruct Hi0 as (i & Hi & Hid).
      exists k0, c, (stopped (bool_decide (state task = Active)) false (node_generation i) ci), k. split; [done|]. split.
      - rewrite <- Hid at 1. rewrite (in_chains _ _ _ _ _ _ Hin) by (by eapply list_elem_of_lookup_2). cbn. by rewrite Hid, Hci.
      - cbn [stopped chain]. apply prev_next; [|done]. apply NoDup_map_fst, (chain_nodup T ord c); [apply Hinv | done]. }
    assert (prev_of (t', k) (chain ci') = Some p) as Hp'.
    { destruct Hch as [[_ ->] | (k0 & Hk0 & _ & ->)]; [done|]. rewrite prev_of_remove; [done | | |].
      - apply NoDup_map_fst, (chain_nodup T ord c); [apply Hinv | done].
      - by intros [= -> _].
      - rewrite Hp. intros [= ->]. done. }
    specialize (Hca p Hp'). unfold current in *. rewrite HG, node_gen_delete in Hca by done. done.
  - right. rewrite (in_limited _ _ _ _ _ _ Hin). destruct (in_later _ _ _ _ _ _ Hin) as (new & Hnew & _ & Hall). cbn in Hnew. rewrite Hlater in Hnew. cbn in Hnew.
    rewrite bool_decide_eq_false_2; [done|]. intros Hc. apply HX. rewrite Hnew, elem_of_app. left. by eapply Hall.
Qed.

Lemma finished_order : queue_order T1 C (pending_tasks_ s1).
Proof.
  intros c ci' l1 n l2 q1 q2 Hc Heq Hcur Hq m Hm. rewrite (in_queue _ _ _ _ _ _ Hin) in Hq. cbn in Hq.
  destruct (finished_chain c ci' Hc) as (Hw' & ci & Hci & HG & Hch).
  assert (exists l1' l2', chain ci = l1' ++ n :: l2' /\ m ∈ l1') as (l1' & l2' & Heq' & Hm').
  { destruct Hch as [[_ ->] | (k & _ & _ & Hch)]; [by exists l1, l2|]. rewrite Hch in Heq. by eapply remove_split. }
  apply (iv_order _ _ _ _ Hinv c ci l1' n l2' q1 q2 Hci Heq'); [|done..]. unfold current in *. rewrite HG, node_gen_delete in Hcur; [done|].
  intros Hnt. assert (n ∈ chain ci') as Hn by (rewrite Heq, elem_of_app; right; by left). apply (cw_nodes _ _ _ _ Hw'), in_chain_delete in Hn. tauto.
Qed.

Lemma finished_inv : inv (fun x => x ∈ to_start_ s1 ++ kids) (remove t a) ord1 (with_tasks cc (with_chains C (with_to_start (to_start_ s1 ++ kids) s1))).
Proof.
  constructor; cbn [with_tasks with_chains with_to_start tasks_ chains_ limited_tasks_ pending_tasks_ remove live].
  - done.
  - apply NoDup_filter, Hinv.
  - intros t'. rewrite list_elem_of_filter, (iv_dom _ _ _ _ Hinv), lookup_delete_is_Some. naive_solver.
  - intros t' task'. rewrite lookup_delete_Some. intros [_ H]. by eapply iv_ids.
  - intros c ci' Hc. by apply finished_chain.
  - intros c n. rewrite in_chain_delete. intros [Hn Hne]. destruct (iv_some _ _ _ _ Hinv _ _ Hn) as [ci Hci].
    apply (cw_nodes _ _ _ _ (iv_chain _ _ _ _ Hinv _ _ Hci)) in Hn. destruct (finished_chain_2 c ci n Hci Hn Hne) as (ci' & ? & _). eauto.
  - apply finished_limited.
  - rewrite (in_queue _ _ _ _ _ _ Hin). cbn. destruct (iv_queue _ _ _ _ Hinv) as [Q1 Q2 Q3 Q4]. constructor; [done..|].
    intros x Hx. rewrite task_state_delete; [by apply Q4|]. by intros ->.
  - apply finished_order.
  - apply finished_woken.
Qed.

End finished.
(** ** A new task *)
Definition new_info (c : ChainId) : TaskChainInfo := {| node_generation := 0; chain_id := c |}.

Lemma get_chain_info_eq c s : get_chain_info c s =
  (default new_chain_info (chains_ s !! c), with_chains (<[c := default new_chain_info (chains_ s !! c)]> (chains_ s)) s).
Proof. unfold get_chain_info. destruct (chains_ s !! c) as [ci|] eqn:E; [|done]. cbn. rewrite insert_id by done. by destruct s. Qed.

Lemma make_infos_spec cs : forall s, 0 ∉ cs -> exists C, make_infos cs s = Ok (map new_info cs, with_chains C s) /\
  forall c, C !! c = if bool_decide (c ∈ cs) then Some (default new_chain_info (chains_ s !! c)) else chains_ s !! c.
Proof.
  induction cs as [|c cs IH]; intros s H0.
  - exists (chains_ s). split; [by destruct s|]. intros c. by rewrite bool_decide_eq_false_2 by apply not_elem_of_nil.
  - apply not_elem_of_cons in H0 as [Hc H0]. cbn [make_infos]. rewrite (proj2 (Z.eqb_neq c 0)) by auto. cbn [negb].
    rewrite get_chain_info_eq. set (s1 := with_chains _ s). destruct (IH s1 H0) as (C & HC & HCl). exists C.
    rewrite HC. cbn [res_bind]. split; [done|]. intros c'. rewrite HCl. unfold s1. cbn [with_chains chains_].
    destruct (decide (c' = c)) as [->|Hne].
    + rewrite lookup_insert_eq. rewrite (bool_decide_eq_true_2 (c ∈ c :: cs)) by (by left). by case_bool_decide.
    + rewrite lookup_insert_ne by done. rewrite (bool_decide_ext (c' ∈ c :: cs) (c' ∈ cs)); [done|]. rewrite elem_of_cons. tauto.
Qed.

Definition appended (n : Node) (ci : ChainInfo) : ChainInfo :=
  {| chain := add_task n (chain ci); active_tasks := active_tasks ci; chain_generation := chain_generation ci |}.

Lemma add_nodes_spec t l : forall s, NoDup (map snd l) -> (forall k c, (k, c) ∈ l -> is_Some (chains_ s !! c)) ->
  exists C, add_nodes t l s = Ok (with_chains C s) /\
    (forall k c, (k, c) ∈ l -> C !! c = appended (t, k) <$> chains_ s !! c) /\ (forall c, c ∉ map snd l -> C !! c = chains_ s !! c).
Proof.
  induction l as [|[k c] l IH]; intros s Hnd Hl.
  - exists (chains_ s). split; [by destruct s|]. split; [intros k c Hin; by apply elem_of_nil in Hin | done].
  - destruct (Hl k c) as [ci Hc]; [by left|]. cbn [add_nodes]. unfold deref_chain. rewrite Hc. cbn [res_bind].
    apply NoDup_cons in Hnd as [Hcl Hnd]. fold (map snd l) in Hcl. fold (appended (t, k) ci).
    assert (forall k0 c0, (k0, c0) ∈ l -> c0 <> c) as Hne by (intros k0 c0 H ->; apply Hcl, list_elem_of_fmap; by exists (k0, c)).
    destruct (IH (with_chains (<[c := appended (t, k) ci]> (chains_ s)) s)) as (C & -> & HC1 & HC2); [done | |].
    { intros k0 c0 H. cbn. rewrite lookup_insert_ne by (by apply not_eq_sym, (Hne k0)). apply (Hl k0). by right. }
    exists C. split; [done|]. split.
    + intros k0 c0 [[= -> ->]|H]%elem_of_cons; [rewrite HC2 by done; cbn; by rewrite lookup_insert_eq, Hc|].
      rewrite (HC1 k0) by done. cbn. by rewrite lookup_insert_ne by (by apply not_eq_sym, (Hne k0)).
    + intros c' Hc'. rewrite HC2; [|intros H; apply Hc', elem_of_cons; by right]. cbn. rewrite lookup_insert_ne; [done|]. intros <-. apply Hc', elem_of_cons. by left.
Qed.

Lemma chain_appended T T1 ord c ci t k : NoDup ord -> chain_wf T ord c ci -> t ∉ ord ->
  (forall n, n.1 <> t -> node_gen T1 n = node_gen T n) -> (forall t', t' <> t -> task_state T1 t' = task_state T t') ->
  (forall n, in_chain T1 c n <-> in_chain T c n \/ n = (t, k)) -> node_gen T1 (t, k) = Some 0 -> task_state T1 t = Some Pending ->
  chain_wf T1 (ord ++ [t]) c (appended (t, k) ci).
Proof.
  intros Hnd Hw Ht Hgen Hstate Hin Hg Hs. assert (forall n, n ∈ chain ci -> n.1 <> t) as Hout.
  { intros n Hn <-. apply Ht. eapply elem_of_submseteq; [|apply sublist_submseteq, (cw_order _ _ _ _ Hw)]. apply list_elem_of_fmap. eauto. }
  destruct (cw_split _ _ _ _ Hw) as (la & lb & Heq & Ha & Hb). pose proof (cw_pos _ _ _ _ Hw) as Hpos.
  assert (forall n, n ∈ chain ci ++ [(t, k)] <-> n ∈ chain ci \/ n = (t, k)) as Hmem by (intros n; by rewrite elem_of_app, list_elem_of_singleton).
  constructor; cbn [appended add_task chain active_tasks chain_generation]; unfold add_task.
  - by destruct (chain ci).
  - rewrite map_app. apply sublist_app; [apply (cw_order _ _ _ _ Hw) | done].
  - intros n. by rewrite Hmem, Hin, (cw_nodes _ _ _ _ Hw).
  - intros n g [Hn | ->]%Hmem; [rewrite Hgen by auto; by apply (cw_gens _ _ _ _ Hw)|]. rewrite Hg. intros [= <-]. lia.
  - done.
  - exists la, (lb ++ [(t, k)]). rewrite Heq, <- app_assoc. split; [done|]. unfold current in *. cbn [chain_generation appended].
    assert (forall n, n ∈ la \/ n ∈ lb -> n.1 <> t) as Hout' by (intros n H; apply Hout; by rewrite Heq, elem_of_app).
    rewrite Forall_app, Forall_singleton, !Forall_forall in *. split_and!.
    + intros n Hn. rewrite Hgen by auto. by apply Ha.
    + intros n Hn. rewrite Hgen by auto. by apply Hb.
    + rewrite Hg. intros [= H]. lia.
  - intros n [Hn | ->]%Hmem; unfold current; cbn [chain_generation appended]; [|rewrite Hg; intros [= H]; lia].
    rewrite Hgen, Hstate by auto. by apply (cw_current _ _ _ _ Hw).
  - rewrite (cw_active _ _ _ _ Hw). unfold active_nodes. rewrite filter_app, (filter_cons_False _ (t, k)) by (cbn; congruence). rewrite filter_nil, app_nil_r.
    fold (active_nodes T1 (chain ci)). by rewrite (active_nodes_ext T T1) by (intros; auto).
  - apply (cw_limit _ _ _ _ Hw).
Qed.

Lemma chain_new T1 ord c t k : (forall n, in_chain T1 c n <-> n = (t, k)) -> node_gen T1 (t, k) = Some 0 -> task_state T1 t = Some Pending ->
  chain_wf T1 (ord ++ [t]) c (appended (t, k) new_chain_info).
Proof.
  intros Hin Hg Hs. constructor; cbn [appended add_task new_chain_info chain active_tasks chain_generation app].
  - done.
  - cbn. apply sublist_inserts_l. done.
  - intros n. rewrite list_elem_of_singleton. by rewrite Hin.
  - intros n g ->%list_elem_of_singleton. rewrite Hg. intros [= <-]. lia.
  - lia.
  - exists [], [(t, k)]. split; [done|]. split; [constructor|]. apply Forall_singleton. unfold current. rewrite Hg. done.
  - intros n ->%list_elem_of_singleton. unfold current. rewrite Hg. done.
  - unfold active_nodes. rewrite filter_cons_False by (cbn; congruence). done.
  - lia.
Qed.

Section created.
Context (a : objects (DataT := Task (ExtraT := ExtraT))) (ord : list TaskId) (s : ChainScheduler (ExtraT := ExtraT)) (cc : Container (DataT := Task (ExtraT := ExtraT))).
Context (t : TaskId) (cs : list ChainId) (e : ExtraT) (C : gmap ChainId ChainInfo) (a1 : objects (DataT := Task (ExtraT := ExtraT))).
Hypothesis Hinv : inv none a ord s.
Hypothesis Hfresh : live a !! t = None.
Hypothesis Hnd : NoDup cs.
Hypothesis Hlive : live a1 = <[t := {| state := Pending; chains := map new_info cs; extra := e |}]> (live a).
Hypothesis Hrep : rep cc a1.
Hypothesis HC1 : forall k c, cs !! k = Some c -> C !! c = Some (appended (t, k) (default new_chain_info (chains_ s !! c))).
Hypothesis HC2 : forall c, c ∉ cs -> C !! c = chains_ s !! c.

Local Abbreviation T := (live a).
Local Abbreviation T1 := (live a1).

Lemma created_out c ci n : chains_ s !! c = Some ci -> n ∈ chain ci -> n.1 <> t.
Proof. intros Hc Hn <-. destruct (chain_task _ _ _ _ _ (iv_chain _ _ _ _ Hinv _ _ Hc) Hn) as (? & ? & ? & _). congruence. Qed.

Lemma created_ord : t ∉ ord.
Proof. rewrite (iv_dom _ _ _ _ Hinv), Hfresh. by intros []. Qed.

Lemma created_gen n : n.1 <> t -> node_gen T1 n = node_gen T n.
Proof. rewrite Hlive. apply node_gen_other. Qed.
Lemma created_state t' : t' <> t -> task_state T1 t' = task_state T t'.
Proof. rewrite Hlive. apply task_state_other. Qed.
Lemma created_pending : task_state T1 t = Some Pending.
Proof. rewrite Hlive. by rewrite task_state_at. Qed.
Lemma created_node k c : cs !! k = Some c -> node_gen T1 (t, k) = Some 0.
Proof. intros Hk. unfold node_gen. cbn. rewrite Hlive, lookup_insert_eq. cbn. by rewrite list_lookup_fmap, Hk. Qed.

Lemma created_in_chain c n : in_chain T1 c n <-> in_chain T c n \/ (n.1 = t /\ cs !! n.2 = Some c).
Proof.
  unfold in_chain. rewrite Hlive. split.
  - intros (task & i & Ht & Hi & Hid). apply lookup_insert_Some in Ht as [[<- <-] | [_ Ht]]; [right | left; eauto].
    cbn in Hi. rewrite list_lookup_fmap in Hi. destruct (cs !! n.2) as [c'|]; [|done]. injection Hi as <-. by subst.
  - intros [(task & i & Ht & Hi & Hid) | [Heq Hk]].
    + exists task, i. rewrite lookup_insert_ne; [done|]. intros H. rewrite H in Hfresh. congruence.
    + rewrite Heq. eexists _, (new_info c). rewrite lookup_insert_eq. split; [done|]. cbn. by rewrite list_lookup_fmap, Hk.
Qed.

Lemma created_chain c ci' : C !! c = Some ci' -> chain_wf T1 (ord ++ [t]) c ci'.
Proof.
  intros Hc. destruct (decide (c ∈ cs)) as [Hcin|Hcout].
  - apply list_elem_of_lookup in Hcin as [k Hk]. rewrite (HC1 k c Hk) in Hc. injection Hc as <-.
    assert (forall n, n.1 = t /\ cs !! n.2 = Some c <-> n = (t, k)) as Hnode.
    { intros [t' k']. cbn. split; [|by intros [= -> ->]]. intros [-> H]. by rewrite (NoDup_lookup cs k' k c Hnd H Hk). }
    destruct (chains_ s !! c) as [ci|] eqn:Hci; cbn [default].
    + apply (chain_appended T T1); [apply Hinv | by eapply iv_chain | apply created_ord | apply created_gen | apply created_state | | by eapply created_node | apply created_pending].
      intros n. by rewrite created_in_chain, Hnode.
    + apply chain_new; [|by eapply created_node | apply created_pending]. intros n. rewrite created_in_chain, Hnode. split; [|by right].
      intros [H|H]; [|done]. destruct (iv_some _ _ _ _ Hinv _ _ H). congruence.
  - rewrite HC2 in Hc by done. pose proof (iv_chain _ _ _ _ Hinv _ _ Hc) as Hw. apply (chain_wf_ext T T1) in Hw as Hw'.
    + destruct Hw'. constructor; try done. by apply sublist_inserts_r.
    + intros n Hn. split; [apply created_gen | apply created_state]; by eapply created_out.
    + intros n. rewrite created_in_chain. split; [|by left]. intros [H | [_ H]]; [done|]. apply list_elem_of_lookup_2 in H. done.
Qed.

Lemma created_chain_2 c ci : chains_ s !! c = Some ci -> exists ci', C !! c = Some ci' /\ chain_generation ci' = chain_generation ci /\ active_tasks ci' = active_tasks ci /\
  (chain ci' = chain ci \/ exists k, chain ci' = chain ci ++ [(t, k)]).
Proof.
  intros Hc. destruct (decide (c ∈ cs)) as [Hcin|Hcout]; [|exists ci; rewrite HC2 by done; auto].
  apply list_elem_of_lookup in Hcin as [k Hk]. rewrite (HC1 k c Hk), Hc. eexists. split; [done|]. cbn. split_and!; [done..|]. right. by exists k.
Qed.

Lemma created_candidate c ci ci' n : chains_ s !! c = Some ci -> C !! c = Some ci' -> n ∈ chain ci -> candidate T1 ci' n <-> candidate T ci n.
Proof.
  intros Hc Hc' Hn. destruct (created_chain_2 c ci Hc) as (ci0 & H0 & HG & _ & Hch). assert (ci0 = ci') as -> by congruence.
  assert (prev_of n (chain ci') = prev_of n (chain ci)) as Hprev.
  { destruct Hch as [-> | [k Hk]]; [done|]. rewrite Hk. apply prev_of_snoc.
    - rewrite <- Hk. apply NoDup_map_fst, (chain_nodup T1 (ord ++ [t]) c); [|by apply created_chain].
      apply NoDup_app. split_and!; [apply Hinv | | apply NoDup_singleton]. intros x Hx ->%list_elem_of_singleton. by apply created_ord.
    - intros ->. by apply (created_out c ci) in Hn. }
  unfold candidate, current. rewrite Hprev, HG. split; intros H p Hp; specialize (H p Hp); apply prev_of_in in Hp as [Hp _];
    [rewrite created_gen in H | rewrite created_gen]; try done; by eapply created_out.
Qed.

Lemma created_inv : inv (fun x => x = t) a1 (ord ++ [t]) (with_tasks cc (with_chains C s)).
Proof.
  constructor; cbn [with_tasks with_chains tasks_ chains_ limited_tasks_ pending_tasks_].
  - done.
  - apply NoDup_app. split_and!; [apply Hinv | | apply NoDup_singleton]. intros x Hx ->%list_elem_of_singleton. by apply created_ord.
  - intros t'. rewrite elem_of_app, list_elem_of_singleton, (iv_dom _ _ _ _ Hinv), Hlive, lookup_insert_is_Some'. naive_solver.
  - intros t' task'. rewrite Hlive, lookup_insert_Some. intros [[<- <-] | [_ H]]; [|by eapply iv_ids]. cbn. rewrite map_map. cbn. by rewrite map_id.
  - apply created_chain.
  - intros c n. rewrite created_in_chain. intros [H | [_ H]]; [|rewrite (HC1 _ _ H); eauto].
    destruct (iv_some _ _ _ _ Hinv _ _ H) as [ci Hci]. destruct (created_chain_2 c ci Hci) as (ci' & ? & _). eauto.
  - intros c t' Hl. destruct (iv_limited _ _ _ _ Hinv _ _ Hl) as (ci & k & Hci & Hk & Hs & Hca & Hfull).
    destruct (created_chain_2 c ci Hci) as (ci' & Hci' & _ & Hact & Hch). exists ci', k. split_and!; [done | | | | lia].
    + destruct Hch as [-> | [k0 ->]]; [done|]. apply elem_of_app. by left.
    + rewrite created_state; [done|]. by apply (created_out c ci _ Hci Hk).
    + by apply (created_candidate c ci ci').
  - destruct (iv_queue _ _ _ _ Hinv) as [Q1 Q2 Q3 Q4]. constructor; [done..|]. intros x Hx. rewrite created_state; [by apply Q4|].
    intros ->. specialize (Q4 _ Hx). unfold task_state in Q4. by rewrite Hfresh in Q4.
  - intros c ci' l1 n l2 q1 q2 Hc Heq Hcur Hq m Hm.
    assert (n.1 <> t) as Hnt.
    { intros Hnt. apply (cw_current _ _ _ _ (created_chain c ci' Hc)) in Hcur; [|rewrite Heq, elem_of_app; right; by left]. rewrite Hnt, created_pending in Hcur. done. }
    assert (in_chain T c n) as Hin.
    { assert (n ∈ chain ci') as Hn by (rewrite Heq, elem_of_app; right; by left). apply (cw_nodes _ _ _ _ (created_chain c ci' Hc)), created_in_chain in Hn. tauto. }
    destruct (iv_some _ _ _ _ Hinv _ _ Hin) as [ci Hci]. destruct (created_chain_2 c ci Hci) as (ci0 & Hci0 & HG & _ & Hch). assert (ci0 = ci') as -> by congruence.
    assert (exists l2', chain ci = l1 ++ n :: l2') as [l2' Heq'].
    { destruct Hch as [Hk | [k Hk]]; rewrite Hk in Heq; [by exists l2|]. destruct l2 as [|x l2 _] using rev_ind.
      - apply app_inj_tail in Heq as [_ <-]. done.
      - rewrite app_comm_cons, app_assoc in Heq. apply app_inj_tail in Heq as [-> _]. by exists l2. }
    apply (iv_order _ _ _ _ Hinv c ci l1 n l2' q1 q2 Hci Heq'); [|done..]. unfold current in *. by rewrite created_gen, HG in Hcur.
  - intros t' Hs Hne. rewrite created_state in Hs by done. destruct (iv_woken _ _ _ _ Hinv t' Hs) as (c & ci & k & Hci & Hk & Hcase); [by intros []|].
    destruct (created_chain_2 c ci Hci) as (ci' & Hci' & _ & _ & Hch). exists c, ci', k. split_and!; [done | |].
    + destruct Hch as [-> | [k0 ->]]; [done|]. apply elem_of_app. by left.
    + destruct Hcase as [H|H]; [left | by right]. by rewrite (created_candidate c ci ci').
Qed.

End created.
End start.
