(* ===== verification/ChainRuns.v ===== *)
(** * Chains of tasks: sequences of operations

    Every operation of [ChainScheduler] that a client may do runs without a failed check and
    keeps the invariant; from this follow the order in which tasks are handed out, that no
    task is forgotten, and that all tasks get finished. *)
From S2P Require Import Prelude SeqProcessors Container ChainScheduler ChainTasks.
Local Open Scope td_scope.
#[local] Arguments u32 : simpl never.
#[local] Arguments u64 : simpl never.

Section operations.
Context {ExtraT : Type} (ExtraT0 : ExtraT).
Implicit Types (T : gmap TaskId (Task (ExtraT := ExtraT))) (s : ChainScheduler (ExtraT := ExtraT)) (a : objects (DataT := Task (ExtraT := ExtraT))).

(** The task was started when all its chains let it. *)
Definition in_turn a s (x : TaskId) : Prop := forall c ci k, chains_ s !! c = Some ci -> (x, k) ∈ chain ci -> current (live a) ci (x, k).

(** The invariant after an operation that started from the queue [q]. *)
Record ran (q : list TaskId) a (ord : list TaskId) s : Prop := {
  ran_inv : inv none a ord s;
  ran_later : to_start_ s = [];
  ran_queue : exists new, VectorQueue.contents (pending_tasks_ s) = q ++ new /\ forall x, x ∈ new -> in_turn a s x;
}.

Lemma grown_ran a1 s1 a ord s : inv none a ord s -> grown a1 s1 a s -> to_start_ s1 = [] ->
  ran (VectorQueue.contents (pending_tasks_ s1)) a ord s.
Proof.
  intros Hi G Hl. constructor; [done | by rewrite (gr_later _ _ _ _ G)|].
  destruct (gr_queue _ _ _ _ G) as (new & Hq & Hnew). exists new. split; [done|]. intros x Hx c ci k Hc Hk.
  apply Hnew in Hx as [H1 H2]. unfold current. destruct (gr_chains _ _ _ _ G c) as [_ HG]. rewrite Hc in HG. cbn in HG.
  rewrite (gr_started _ _ _ _ G (x, k) c); [by rewrite <- HG | cbn; congruence |].
  apply (in_chain_same (live a)); [intros; symmetry; apply (gr_shape _ _ _ _ G)|]. by apply (cw_nodes _ _ _ _ (iv_chain _ _ _ _ Hi _ _ Hc)).
Qed.

Lemma flush_ran a ord s : inv (fun x => x ∈ to_start_ s) a ord s -> (forall x, x ∈ to_start_ s -> is_Some (live a !! x)) ->
  exists s' a', flush_try_start_task s = Ok s' /\ ran (VectorQueue.contents (pending_tasks_ s)) a' ord s' /\ grown a (with_to_start [] s) a' s'.
Proof.
  intros Hi Hl. destruct (flush_spec a ord s Hi Hl) as (s' & a' & Heq & Hi' & G). exists s', a'. split; [done|]. split; [|done].
  by apply (grown_ran a (with_to_start [] s)).
Qed.

(** What an operation on the task [t] does to the others: some pending ones are started, and
    these are put into the queue; a chain gets at most one more generation. *)
Definition generations_at_most (g : Z) s : Prop := forall c ci, chains_ s !! c = Some ci -> chain_generation ci <= g.

Record moved t a s a' s' : Prop := {
  mv_extra x : x <> t -> extra <$> live a' !! x = extra <$> live a !! x;
  mv_state x : x <> t -> task_state (live a') x = task_state (live a) x \/ (task_state (live a) x = Some Pending /\ task_state (live a') x = Some Active);
  mv_queue : exists new, VectorQueue.contents (pending_tasks_ s') = VectorQueue.contents (pending_tasks_ s) ++ new /\
    forall x, x ∈ new <-> task_state (live a') x = Some Active /\ (x = t \/ task_state (live a) x = Some Pending);
  mv_gens g : 1 <= g -> generations_at_most g s -> generations_at_most (g + 1) s';
}.

Lemma moved_grown t a s a1 s1 a' s' : (forall x, x <> t -> live a1 !! x = live a !! x) -> task_state (live a1) t <> Some Active ->
  pending_tasks_ s1 = pending_tasks_ s -> (forall g, 1 <= g -> generations_at_most g s -> generations_at_most (g + 1) s1) ->
  grown a1 s1 a' s' -> moved t a s a' s'.
Proof.
  intros Ha Ht Hq Hg G. assert (forall x, x <> t -> task_state (live a1) x = task_state (live a) x) as Hst by (intros x Hx; unfold task_state; by rewrite Ha).
  constructor.
  - intros x Hx. by rewrite (gr_extra _ _ _ _ G), Ha.
  - intros x Hx. rewrite <- (Hst x Hx). apply (gr_state _ _ _ _ G).
  - destruct (gr_queue _ _ _ _ G) as (new & Hnew & Hiff). exists new. rewrite Hnew, Hq. split; [done|]. intros x. rewrite Hiff. destruct (decide (x = t)) as [->|Hne].
    + destruct (gr_state _ _ _ _ G t) as [H | [H1 H2]]; [|naive_solver]. rewrite H. naive_solver.
    + rewrite Hst by done. naive_solver.
  - intros g Hg1 Hs c ci Hc. destruct (gr_chains _ _ _ _ G c) as [_ H]. rewrite Hc in H. cbn in H. destruct (chains_ s1 !! c) as [ci1|] eqn:Hc1; [|done].
    injection H as ->. by apply (Hg g Hg1 Hs c ci1).
Qed.

(** Stopping a task gives a chain at most one more generation. *)
Lemma stopped_gens a ord s s1 c1 t task failed g : inv none a ord s -> live a !! t = Some task ->
  inactivated t (bool_decide (state task = Active)) failed (chains task) (with_tasks c1 s) s1 -> generations_at_most g s -> generations_at_most (g + 1) s1.
Proof.
  intros Hi Ht Hin Hg c ci Hc. destruct (decide (c ∈ map chain_id (chains task))) as [Hcin|Hout].
  - apply task_infos in Hcin as (k & i & Hk & Hid & Hel). rewrite <- Hid, (in_chains _ _ _ _ _ _ Hin i Hel) in Hc. cbn in Hc. rewrite Hid in Hc.
    assert ((k, c) ∈ nodes_of task) as Hnode by (apply in_nodes_of; eauto). destruct (task_chain _ _ _ _ _ _ _ _ Hi Ht Hnode) as (ci0 & Hci0 & Hw & Hn).
    rewrite Hci0 in Hc. injection Hc as <-. specialize (Hg _ _ Hci0).
    assert (node_gen (live a) (t, k) = Some (node_generation i)) as Hgen by (unfold node_gen; cbn; by rewrite Ht, Hk).
    pose proof (cw_gens _ _ _ _ Hw _ _ Hn Hgen). cbn. case_if; lia.
  - rewrite (in_others _ _ _ _ _ _ Hin) in Hc by done. specialize (Hg _ _ Hc). lia.
Qed.

Lemma create_task_ok a ord s cs e : inv none a ord s -> to_start_ s = [] -> NoDup cs -> 0 ∉ cs -> Z.of_nat (length (slots_ (tasks_ s))) < 2 ^ 31 - 1 ->
  exists t s' a', create_task ExtraT0 cs e s = Ok (t, s') /\ t ∉ ord /\ ran (VectorQueue.contents (pending_tasks_ s)) a' (ord ++ [t]) s' /\
    shape (live a') t = Some cs /\ get_task_extra t s' = Some e /\ (task_state (live a') t = Some Pending \/ task_state (live a') t = Some Active) /\ moved t a s a' s'.
Proof.
  intros Hi Hlater Hnd H0 Hroom. unfold create_task.
  destruct (create_spec (tasks_ s) a (new_task ExtraT0) 0) as (t & c1 & -> & [Hfresh _] & _ & Hr1); [apply Hi | lia | pose proof (rep_count _ _ (iv_rep _ _ _ _ Hi)); lia |].
  cbn [res_bind]. assert (live a !! t = None) as Hnone.
  { apply eq_None_not_Some. intros H. by apply (rep_known _ _ (iv_rep _ _ _ _ Hi)) in H. }
  set (a1 := {| live := _ |}) in Hr1.
  destruct (update_task_spec (with_tasks c1 s) a1 t (new_task ExtraT0) (set_extra e) Hr1 (lookup_insert_eq _ _ _)) as (c2 & -> & Hr2). cbn [res_bind].
  destruct (make_infos_spec cs (with_tasks c2 (with_tasks c1 s)) H0) as (C & -> & HC). cbn [res_bind].
  destruct (update_task_spec (with_chains C (with_tasks c2 (with_tasks c1 s))) _ t _ (set_chains (map new_info cs)) Hr2 (lookup_insert_eq _ _ _)) as (c3 & -> & Hr3). cbn [res_bind].
  assert (forall k c, (k, c) ∈ imap (fun k i => (k, chain_id i)) (map new_info cs) <-> cs !! k = Some c) as Hnodes.
  { intros k c. rewrite elem_of_lookup_imap. setoid_rewrite list_lookup_fmap. split.
    - intros (k' & i & [= -> ->] & Hk). destruct (cs !! k'); [|done]. by injection Hk as <-.
    - intros Hk. exists k, (new_info c). by rewrite Hk. }
  assert (map snd (imap (fun k i => (k, chain_id i)) (map new_info cs)) = cs) as Hsnd.
  { apply list_eq. intros k. rewrite list_lookup_fmap, list_lookup_imap, list_lookup_fmap. by destruct (cs !! k). }
  destruct (add_nodes_spec t (imap (fun k i => (k, chain_id i)) (map new_info cs)) (with_tasks c3 (with_chains C (with_tasks c2 (with_tasks c1 s))))) as (C' & -> & HC1 & HC2).
  { by rewrite Hsnd. }
  { intros k c Hk%Hnodes. cbn. rewrite HC, bool_decide_eq_true_2 by (by eapply list_elem_of_lookup_2). eauto. }
  cbn [res_bind]. rewrite !with_task_twice in Hr3. set (a3 := with_task t _ a1) in Hr3. rewrite Hsnd in HC2.
  assert (inv (fun x => x = t) a3 (ord ++ [t]) (with_tasks c3 (with_chains C' s))) as Hi3.
  { apply (created_inv a ord s c3 t cs e C' a3); try done.
    - unfold a3, a1. cbn. by rewrite insert_insert_eq.
    - intros k c Hk. rewrite (HC1 k) by (by apply Hnodes). cbn. rewrite HC, bool_decide_eq_true_2 by (by eapply list_elem_of_lookup_2). done.
    - intros c Hc. rewrite HC2 by done. cbn. rewrite HC. by rewrite bool_decide_eq_false_2. }
  unfold try_start_task. destruct (try_start_spec (S (length (slots_ c3))) (ord ++ [t]) _ _ _ t Hi3) as (s' & a' & Heq & Hi' & G).
  { unfold a3. cbn. rewrite lookup_insert_eq. eauto. }
  { by apply (pending_bound _ _ _ _ Hi3). }
  change (with_chains C' (with_tasks c3 (with_chains C (with_tasks c2 (with_tasks c1 s))))) with (with_tasks c3 (with_chains C' s)). cbn [with_tasks tasks_].
  rewrite Heq. cbn [res_bind]. exists t, s', a'. split; [done|]. split; [by rewrite (iv_dom _ _ _ _ Hi), Hnone; intros []|]. split_and!.
  - apply (grown_ran a3 (with_tasks c3 (with_chains C' s))); [|done..]. eapply inv_weaken; [|done]. intros x []. done.
  - rewrite (gr_shape _ _ _ _ G). unfold shape, a3. cbn. rewrite lookup_insert_eq. cbn. f_equal. rewrite map_map. cbn. by rewrite map_id.
  - pose proof (gr_extra _ _ _ _ G t) as He. unfold a3 in He. cbn in He. rewrite lookup_insert_eq in He. cbn in He.
    unfold get_task_extra. destruct (live a' !! t) as [task'|] eqn:Ht; [|done]. by rewrite (get_live _ _ _ _ (iv_rep _ _ _ _ Hi') Ht).
  - assert (task_state (live a3) t = Some Pending) as Hp by (unfold task_state, a3; cbn; by rewrite lookup_insert_eq).
    destruct (gr_state _ _ _ _ G t) as [H | [_ H]]; [left; congruence | by right].
  - apply (moved_grown t a s a3 (with_tasks c3 (with_chains C' s))); [| | done | | done].
    + intros x Hx. unfold a3, a1. cbn. by rewrite !lookup_insert_ne.
    + unfold task_state, a3. cbn. by rewrite lookup_insert_eq.
    + intros g Hg Hs c ci Hc. cbn in Hc. destruct (decide (c ∈ cs)) as [Hin|Hout].
      * apply list_elem_of_lookup in Hin as Hk. destruct Hk as [k Hk]. rewrite (HC1 k) in Hc by (by apply Hnodes). cbn in Hc.
        rewrite HC, bool_decide_eq_true_2 in Hc by done. cbn in Hc. injection Hc as <-. cbn. destruct (chains_ s !! c) as [ci0|] eqn:Hc0; cbn; [specialize (Hs _ _ Hc0); lia | lia].
      * rewrite HC2 in Hc by done. cbn in Hc. rewrite HC, bool_decide_eq_false_2 in Hc by done. cbn in Hc. specialize (Hs _ _ Hc). lia.
Qed.

Lemma reset_task_ok a ord s t : inv none a ord s -> to_start_ s = [] -> t ∈ ord -> t ∉ VectorQueue.contents (pending_tasks_ s) -> generations_left s ->
  exists s' a', reset_task t s = Ok s' /\ ran (VectorQueue.contents (pending_tasks_ s)) a' ord s' /\ (forall x, shape (live a') x = shape (live a) x) /\
    moved t a s a' s' /\ (task_state (live a') t = Some Pending \/ task_state (live a') t = Some Active) /\ extra <$> live a' !! t = extra <$> live a !! t.
Proof.
  intros Hi Hlater Hord Hq Hroom. apply (iv_dom _ _ _ _ Hi) in Hord as [task Ht]. unfold reset_task. rewrite Hlater. cbn [bool_decide].
  rewrite bool_decide_eq_true_2 by done. rewrite (get_task_live _ _ _ _ _ _ Hi Ht). cbn [res_bind].
  destruct (inactivate_task_spec a ord s t task true Hi Ht ltac:(done)) as (c1 & s1 & -> & Hr1 & Hin). cbn [res_bind try_start_task_later].
  pose proof (stopped_inv a ord s s1 c1 c1 t task Pending Hi Ht Hroom Hin ltac:(done) Hq Hlater Hr1) as Hi1.
  assert (tasks_ s1 = c1) as Hc1 by apply (in_tasks _ _ _ _ _ _ Hin).
  assert (with_tasks c1 s1 = s1) as Heq by (rewrite <- Hc1; by destruct s1). rewrite Heq in Hi1.
  destruct (flush_ran (with_task t (set_state Pending task) a) ord (with_to_start (to_start_ s1 ++ [t]) s1)) as (s' & a' & -> & Hran & G).
  - apply inv_later. eapply inv_weaken; [|done]. cbn. intros x [[-> _]|H]; apply elem_of_app; [right; by left | by left].
  - cbn. intros x [H | ->%list_elem_of_singleton]%elem_of_app; [|rewrite lookup_insert_eq; eauto].
    by apply (stopped_later a ord s s1 c1 t task Pending Hi Hin Hlater x).
  - exists s', a'. split; [done|]. split_and!.
    + cbn in Hran. by rewrite (in_queue _ _ _ _ _ _ Hin) in Hran.
    + intros x; rewrite (gr_shape _ _ _ _ G); by apply shape_set_state.
    + apply (moved_grown t a s _ _ _ _) in G; [done | | | |].
      * intros x Hx. cbn. by rewrite lookup_insert_ne.
      * cbn. by rewrite task_state_at.
      * cbn. by rewrite (in_queue _ _ _ _ _ _ Hin).
      * intros g _ Hs. by apply (stopped_gens a ord s s1 c1 t task true g) in Hs.
    + pose proof (gr_state _ _ _ _ G t) as H. cbn in H. rewrite task_state_at in H. cbn in H. naive_solver.
    + rewrite (gr_extra _ _ _ _ G). cbn. by rewrite lookup_insert_eq, Ht.
Qed.

(** A list with an element that has a property has a first one. *)
Lemma first_with (P : TaskId -> Prop) {PD : forall x, Decision (P x)} l x : x ∈ l -> P x -> exists l1 y l2, l = l1 ++ y :: l2 /\ P y /\ Forall (fun z => ~ P z) l1.
Proof.
  induction l as [|z l IH]; [by intros ?%elem_of_nil|]. intros Hx HP. destruct (decide (P z)) as [Hz|Hz]; [exists [], z, l; auto|].
  apply elem_of_cons in Hx as [->|Hx]; [done|]. destruct (IH Hx HP) as (l1 & y & l2 & -> & Hy & Hl). exists (z :: l1), y, l2. split_and!; [done | done | by constructor].
Qed.

(** What comes before in a chain comes before in the order of creation. *)
Lemma before_in_order T ord c ci l1 n l2 m o1 o2 : NoDup ord -> chain_wf T ord c ci -> chain ci = l1 ++ n :: l2 -> m ∈ l1 -> ord = o1 ++ n.1 :: o2 -> m.1 ∈ o1.
Proof.
  intros Hnd Hw Hl Hm Ho. pose proof (cw_order _ _ _ _ Hw) as Hsub. rewrite Hl, map_app in Hsub. cbn in Hsub.
  apply sublist_app_l in Hsub as (k1 & k2 & -> & H1 & H2). assert (m.1 ∈ k1) as Hm1.
  { eapply elem_of_submseteq; [|by apply sublist_submseteq]. apply list_elem_of_fmap. by exists m. }
  assert (n.1 ∈ k2) as Hn2 by (eapply elem_of_submseteq; [|by apply sublist_submseteq]; by left).
  apply NoDup_app in Hnd as (_ & Hdis & _). apply app_eq_inv in Ho as [(k & -> & Hk) | (k & -> & Hk)].
  - destruct k as [|y k]; [rewrite app_nil_r in *; done|]. injection Hk as <- _. destruct (Hdis n.1); [|done]. apply elem_of_app. right. by left.
  - apply elem_of_app. by left.
Qed.

(** Pausing a pending task starts nothing: what kept the others from starting is still there. *)
Lemma paused_quiet a ord s t task a' s' s1 : inv none a ord s -> live a !! t = Some task -> state task = Pending ->
  (forall c, chains_ s1 !! c = chains_ s !! c) -> grown (with_task t (set_state Paused task) a) s1 a' s' -> inv none a' ord s' ->
  forall x, task_state (live (with_task t (set_state Paused task) a)) x = Some Pending -> task_state (live a') x <> Some Active.
Proof.
  intros Hi Ht Hs HC G Hi' x0 Hp0 Ha0. set (a1 := with_task t (set_state Paused task) a) in *.
  assert (forall x, x <> t -> task_state (live a1) x = task_state (live a) x) as Hst by (intros x Hx; cbn; by apply task_state_other).
  assert (task_state (live a1) t = Some Paused) as Hpt by (cbn; by rewrite task_state_at).
  assert (x0 ∈ ord) as Hx0. { apply (iv_dom _ _ _ _ Hi'). unfold task_state in Ha0. destruct (live a' !! x0); [eauto | done]. }
  destruct (first_with (fun x => task_state (live a1) x = Some Pending /\ task_state (live a') x = Some Active) ord x0 Hx0 (conj Hp0 Ha0)) as (o1 & x & o2 & Ho & [Hp Ha] & Hmin).
  assert (x <> t) as Hxt by congruence. rewrite Hst in Hp by done. destruct (iv_woken _ _ _ _ Hi x Hp) as (c & ci & k & Hc & Hk & Hwhy); [by intros []|].
  destruct (gr_chains _ _ _ _ G c) as [G1 G2]. rewrite HC, Hc in G1, G2. destruct (chains_ s' !! c) as [ci'|] eqn:Hc'; [|done]. injection G1 as G1. injection G2 as G2.
  pose proof (iv_chain _ _ _ _ Hi _ _ Hc) as Hw. pose proof (iv_chain _ _ _ _ Hi' _ _ Hc') as Hw'.
  destruct Hwhy as [Hno|Hl].
  - apply Hno. intros p Hprev. apply list_elem_of_split in Hk as (l1 & l2 & Hl).
    rewrite Hl, prev_of_app in Hprev by (rewrite <- Hl; apply NoDup_map_fst, (chain_nodup (live a) ord c); [apply Hi | done]).
    assert (p ∈ l1) as Hp1 by (apply last_Some in Hprev as [l0 ->]; apply elem_of_app; right; by left).
    assert (current (live a') ci' p) as Hcur.
    { apply (before_current (live a') ord c ci' l1 (x, k) l2); [apply Hi' | done | congruence | | done]. unfold current. rewrite G2, (gr_started _ _ _ _ G (x, k) c); [by rewrite HC, Hc | cbn; rewrite Hst by done; congruence|].
      apply (in_chain_same (live a)); [intros y; by apply shape_set_state|]. apply (cw_nodes _ _ _ _ Hw). rewrite Hl, elem_of_app. right. by left. }
    unfold current in *. rewrite G2 in Hcur. destruct (gr_state _ _ _ _ G p.1) as [Hsame | [Hpp Hpa]].
    + rewrite (gr_gen _ _ _ _ G p Hsame) in Hcur. unfold node_gen in *. destruct (decide (p.1 = t)) as [Hpt'|Hne]; cbn in Hcur; [rewrite Hpt', lookup_insert_eq in Hcur; by rewrite Hpt', Ht | by rewrite lookup_insert_ne in Hcur].
    + rewrite Forall_forall in Hmin. destruct (Hmin p.1); [|done]. by apply (before_in_order (live a) ord c ci l1 (x, k) l2 p o1 o2); [apply Hi | ..].
  - destruct (iv_limited _ _ _ _ Hi _ _ Hl) as (ci0 & k0 & Hc0 & _ & _ & _ & Hfull). assert (ci0 = ci) as -> by congruence.
    rewrite (cw_active _ _ _ _ Hw) in Hfull. pose proof (cw_limit _ _ _ _ Hw') as Hlim. rewrite (cw_active _ _ _ _ Hw'), G1 in Hlim. unfold active_nodes in *.
    pose proof (filter_length_lt (fun n => task_state (live a) n.1 = Some Active) (fun n => task_state (live a') n.1 = Some Active) (chain ci) (x, k)) as Hlt.
    enough (length (filter (fun n : Node => task_state (live a) n.1 = Some Active) (chain ci)) < length (filter (fun n : Node => task_state (live a') n.1 = Some Active) (chain ci)))%nat by lia.
    apply Hlt; [|done | done | cbn; congruence]. intros n Hn. assert (n.1 <> t) by (intros E; unfold task_state in Hn; rewrite E, Ht in Hn; cbn in Hn; congruence).
    destruct (gr_state _ _ _ _ G n.1) as [->|[_ ?]]; [by rewrite Hst | done].
Qed.

Lemma pause_task_ok a ord s t : inv none a ord s -> to_start_ s = [] -> t ∈ ord -> t ∉ VectorQueue.contents (pending_tasks_ s) -> generations_left s ->
  exists s' a', pause_task t s = Ok s' /\ ran (VectorQueue.contents (pending_tasks_ s)) a' ord s' /\ task_state (live a') t = Some Paused /\ (forall x, shape (live a') x = shape (live a) x) /\
    moved t a s a' s' /\ extra <$> live a' !! t = extra <$> live a !! t /\
    (task_state (live a) t = Some Pending -> VectorQueue.contents (pending_tasks_ s') = VectorQueue.contents (pending_tasks_ s)).
Proof.
  intros Hi Hlater Hord Hq Hroom. apply (iv_dom _ _ _ _ Hi) in Hord as [task Ht]. unfold pause_task. rewrite (get_task_live _ _ _ _ _ _ Hi Ht). cbn [res_bind].
  destruct (inactivate_task_spec a ord s t task true Hi Ht ltac:(done)) as (c1 & s1 & -> & Hr1 & Hin). cbn [res_bind].
  assert (tasks_ s1 = c1) as Hc1 by apply (in_tasks _ _ _ _ _ _ Hin). rewrite <- Hc1 in Hr1.
  destruct (update_task_spec s1 _ t _ (set_state Paused) Hr1 (lookup_insert_eq _ _ _)) as (c2 & -> & Hr2). cbn [res_bind]. rewrite with_task_twice in Hr2.
  pose proof (stopped_inv a ord s s1 c1 c2 t task Paused Hi Ht Hroom Hin ltac:(done) Hq Hlater Hr2) as Hi1.
  destruct (flush_ran (with_task t (set_state Paused task) a) ord (with_tasks c2 s1)) as (s' & a' & -> & Hran & G).
  - eapply inv_weaken; [|exact Hi1]. cbn. by intros x [[_ H]|H].
  - cbn. intros x Hx. by apply (stopped_later a ord s s1 c1 t task Paused Hi Hin Hlater x).
  - exists s', a'. split; [done|]. cbn in Hran. rewrite (in_queue _ _ _ _ _ _ Hin) in Hran. split; [done|]. split.
    + destruct (gr_state _ _ _ _ G t) as [H | [H _]]; cbn in H; rewrite task_state_at in H; cbn in H; [done | discriminate].
    + split_and!; [intros x; rewrite (gr_shape _ _ _ _ G); by apply shape_set_state | | rewrite (gr_extra _ _ _ _ G); cbn; by rewrite lookup_insert_eq, Ht |].
      2: { unfold task_state. rewrite Ht. cbn. intros [= Hs]. destruct (gr_queue _ _ _ _ G) as (new & Hnew & Hiff). cbn in Hnew. rewrite (in_queue _ _ _ _ _ _ Hin) in Hnew.
           rewrite Hnew. destruct new as [|x new]; [by rewrite app_nil_r|]. destruct (proj1 (Hiff x) ltac:(by left)) as [Hx1 Hx2].
           assert (forall c, chains_ (with_to_start [] (with_tasks c2 s1)) !! c = chains_ s !! c) as HC;
             [|by destruct (paused_quiet a ord s t task a' s' _ Hi Ht Hs HC G (ran_inv _ _ _ _ Hran) x)].
           intros c. cbn. rewrite Hs in Hin. destruct (decide (c ∈ map chain_id (chains task))) as [Hcin|Hout]; [|by apply (in_others _ _ _ _ _ _ Hin)].
           apply task_infos in Hcin as (k & i & _ & <- & Hel). rewrite (in_chains _ _ _ _ _ _ Hin i Hel). cbn. by destruct (chains_ s !! chain_id i) as [[]|]. }
      apply (moved_grown t a s _ _ _ _) in G; [done | | | |].
      * intros x Hx. cbn. by rewrite lookup_insert_ne.
      * cbn. by rewrite task_state_at.
      * cbn. by rewrite (in_queue _ _ _ _ _ _ Hin).
      * intros g _ Hs. by apply (stopped_gens a ord s s1 c1 t task true g) in Hs.
Qed.

Lemma imap_snd (infos : list TaskChainInfo) : map snd (imap (fun k i => (k, chain_id i)) infos) = map chain_id infos.
Proof. apply list_eq. intros k. rewrite !list_lookup_fmap, list_lookup_imap. by destruct (infos !! k). Qed.

(** What comes after a task in one of its chains is another task. *)
Lemma kid_live a ord s s1 c1 t task failed x : inv none a ord s -> live a !! t = Some task ->
  inactivated t (bool_decide (state task = Active)) failed (chains task) (with_tasks c1 s) s1 ->
  child_of (chains_ s1) t (nodes_of task) x -> x <> t /\ is_Some (live a !! x).
Proof.
  intros Hi Ht Hin (k & c & ci & k' & Hk & Hci & Hnext). destruct (task_chain _ _ _ _ _ _ _ _ Hi Ht Hk) as (ci0 & Hci0 & Hw & Hn).
  assert (chain ci = chain ci0) as Hch.
  { apply in_nodes_of in Hk as (i & Hk & Hid). rewrite <- Hid, (in_chains _ _ _ _ _ _ Hin) in Hci by (by eapply list_elem_of_lookup_2).
    cbn in Hci. rewrite Hid, Hci0 in Hci. injection Hci as <-. done. }
  rewrite Hch in *. pose proof (NoDup_map_fst _ (chain_nodup _ _ _ _ (iv_nodup _ _ _ _ Hi) Hw)) as Hnd.
  apply list_elem_of_split in Hn as Hl. destruct Hl as (l1 & l2 & Hl). rewrite Hl in Hnext, Hnd. apply NoDup_app in Hnd as (_ & Hnd & [Hnot _]%NoDup_cons).
  rewrite next_of_app in Hnext by (intros H; apply (Hnd _ H); by left). destruct l2 as [|n l2]; [done|]. injection Hnext as ->.
  assert ((x, k') ∈ chain ci0) as Hx by (rewrite Hl, elem_of_app; right; right; by left). split.
  - apply (other_task (live a) ord c ci0 t k (x, k')); [apply Hi | done.. |]. intros [= -> ->]. apply Hnot. by left.
  - destruct (chain_task _ _ _ _ _ Hw Hx) as (task' & ? & Hx' & _). by exists task'.
Qed.

Lemma finish_task_ok a ord s t : inv none a ord s -> to_start_ s = [] -> t ∈ ord -> t ∉ VectorQueue.contents (pending_tasks_ s) ->
  exists s' a', finish_task ExtraT0 t s = Ok s' /\ ran (VectorQueue.contents (pending_tasks_ s)) a' (filter (fun x => x <> t) ord) s' /\
    (forall x, x <> t -> task_state (live a') x = task_state (live a) x \/ (task_state (live a) x = Some Pending /\ task_state (live a') x = Some Active)) /\
    (forall x, x <> t -> shape (live a') x = shape (live a) x) /\
    (forall x, task_state (live a') x = Some Active -> x <> t -> task_state (live a) x = Some Active \/ x ∈ VectorQueue.contents (pending_tasks_ s')) /\
    (forall x, x <> t -> task_state (live a) x = Some Active -> in_turn a s x -> in_turn a' s' x) /\ moved t a s a' s'.
Proof.
  intros Hi Hlater Hord Hq. apply (iv_dom _ _ _ _ Hi) in Hord as [task Ht]. unfold finish_task. rewrite (get_task_live _ _ _ _ _ _ Hi Ht). cbn [res_bind].
  rewrite Hlater, bool_decide_eq_true_2 by done.
  destruct (inactivate_task_spec a ord s t task false Hi Ht ltac:(done)) as (c1 & s1 & -> & Hr1 & Hin). cbn [res_bind].
  assert (forall k c, (k, c) ∈ nodes_of task -> exists ci, chains_ s1 !! c = Some ci /\ (t, k) ∈ chain ci) as Hnodes.
  { intros k c Hk. destruct (task_chain _ _ _ _ _ _ _ _ Hi Ht Hk) as (ci & Hci & _ & Hn). apply in_nodes_of in Hk as (i & Hk & Hid).
    rewrite <- Hid, (in_chains _ _ _ _ _ _ Hin) by (by eapply list_elem_of_lookup_2). cbn. rewrite Hid, Hci. cbn. by eexists. }
  destruct (children_later t (nodes_of task) s1 Hnodes) as (kids & -> & Hkids). cbn [res_bind].
  destruct (finish_chain_tasks_spec t (nodes_of task) (with_to_start (to_start_ s1 ++ kids) s1)) as (C & -> & HC1 & HC2).
  { unfold nodes_of. rewrite imap_snd. by eapply iv_ids. }
  { intros k c Hk. destruct (Hnodes k c Hk) as (ci & Hci & _). cbn. eauto. }
  cbn [res_bind]. unfold nodes_of in HC2. rewrite imap_snd in HC2. cbn [with_chains with_to_start chains_ tasks_] in *.
  assert (tasks_ s1 = c1) as Hc1 by apply (in_tasks _ _ _ _ _ _ Hin). rewrite Hc1.
  destruct (erase_live (new_task ExtraT0) c1 _ t _ Hr1 (lookup_insert_eq _ _ _)) as (c2 & -> & Hr2). cbn [res_bind].
  assert (remove t (with_task t (set_state Pending task) a) = remove t a) as Hrm.
  { unfold remove, with_task. cbn. rewrite delete_insert_eq, lookup_insert_eq, Ht. done. }
  rewrite Hrm in Hr2. pose proof (finished_inv a ord s s1 c1 c2 t task C kids Hi Ht Hin Hkids HC1 HC2 Hq Hlater Hr2) as Hi1.
  destruct (flush_ran (remove t a) (filter (fun x => x <> t) ord) (with_tasks c2 (with_chains C (with_to_start (to_start_ s1 ++ kids) s1)))) as (s' & a' & Heq & Hran & G).
  - exact Hi1.
  - cbn. intros x Hx. apply elem_of_app in Hx as [Hx|Hx].
    + destruct (in_later _ _ _ _ _ _ Hin) as (new & Hnew & Hfrom & _). cbn in Hnew. rewrite Hlater in Hnew. cbn in Hnew. rewrite Hnew in Hx.
      destruct (Hfrom x Hx) as (Hne & c & ci & Hc & Hci & Hcase). rewrite lookup_delete_ne by done. by apply (later_live a ord s t c ci x).
    + apply Hkids in Hx. destruct (kid_live a ord s s1 c1 t task false x Hi Ht Hin Hx) as [Hne ?]. by rewrite lookup_delete_ne.
  - exists s', a'. split; [exact Heq|]. cbn in Hran. rewrite (in_queue _ _ _ _ _ _ Hin) in Hran. split; [done|]. split_and!.
    + intros x Hx. pose proof (gr_state _ _ _ _ G x) as H. cbn in H. by rewrite task_state_delete in H.
    + intros x Hx. rewrite (gr_shape _ _ _ _ G). unfold shape. cbn. by rewrite lookup_delete_ne.
    + intros x Hact Hx. pose proof (gr_state _ _ _ _ G x) as H. cbn in H. rewrite task_state_delete in H by done. destruct H as [H | [H _]]; [left; congruence|].
      right. destruct (gr_queue _ _ _ _ G) as (new & -> & Hnew). apply elem_of_app. right. apply Hnew. cbn. by rewrite task_state_delete.
    + intros x Hx Hact Hturn c ci k Hc Hk. destruct (gr_chains _ _ _ _ G c) as [H1 H2]. rewrite Hc in H1, H2. cbn in H1, H2.
      destruct (C !! c) as [ci1|] eqn:HCc; [|done]. injection H1 as H1. injection H2 as H2.
      destruct (finished_chain a ord s s1 c1 t task C Hi Ht Hin HC1 HC2 c ci1 HCc) as (_ & ci0 & Hci0 & HG & Hch).
      assert ((x, k) ∈ chain ci0) as Hk0.
      { rewrite H1 in Hk. destruct Hch as [[_ ->] | (k0 & _ & _ & Hch)]; [done|]. rewrite Hch in Hk. by apply list_elem_of_filter in Hk as [_ ?]. }
      specialize (Hturn c ci0 k Hci0 Hk0). unfold current in *. rewrite (gr_gen _ _ _ _ G).
      * cbn. rewrite node_gen_delete by done. rewrite Hturn. f_equal. congruence.
      * pose proof (gr_state _ _ _ _ G x) as H. cbn in H |- *. rewrite task_state_delete in * by done. destruct H as [H | [H _]]; congruence.
    + apply (moved_grown t a s _ _ _ _) in G; [done | | | |].
      * intros x Hx. cbn. by rewrite lookup_delete_ne.
      * cbn. by rewrite task_state_gone.
      * cbn. by rewrite (in_queue _ _ _ _ _ _ Hin).
      * intros g _ Hs c ci Hc. cbn in Hc. destruct (finished_chain a ord s s1 c1 t task C Hi Ht Hin HC1 HC2 c ci Hc) as (_ & ci0 & Hci0 & -> & _).
        specialize (Hs _ _ Hci0). lia.
Qed.

(** ** Handing out a task *)
Lemma queue_length a ord s : inv none a ord s -> Z.of_nat (length (VectorQueue.vector_ (pending_tasks_ s))) < 2 ^ 64.
Proof.
  intros Hi. destruct (iv_queue _ _ _ _ Hi) as [Q1 Q2 Q3 Q4].
  assert (length (VectorQueue.contents (pending_tasks_ s)) <= base.size (live a))%nat as Hle.
  { rewrite <- size_dom, <- (size_list_to_set (C := gset TaskId)) by done. apply subseteq_size. intros t. rewrite elem_of_list_to_set, elem_of_dom.
    intros H%Q4. unfold task_state in H. destruct (live a !! t); [eauto | done]. }
  pose proof (rep_count _ _ (iv_rep _ _ _ _ Hi)). pose proof (rep_bound _ _ (iv_rep _ _ _ _ Hi)).
  unfold VectorQueue.wf, VectorQueue.contents in *. rewrite length_drop in *. lia.
Qed.

Lemma pop_read {A} (moved : A -> A) q x q' : VectorQueue.wf q -> VectorQueue.contents q <> [] -> VectorQueue.pop moved q = Ok (x, q') ->
  (VectorQueue.read_pos_ q' <= length (VectorQueue.contents q') + 5)%nat.
Proof.
  unfold VectorQueue.wf, VectorQueue.contents, VectorQueue.pop, VectorQueue.try_shrink. intros Hw Hne.
  assert (length (drop (VectorQueue.read_pos_ q) (VectorQueue.vector_ q)) <> 0)%nat as Hl by (by destruct (drop _ _)). rewrite length_drop in Hl.
  case_if; [rewrite (proj2 (Nat.leb_le _ _)) by done|]; cbn [res_bind VectorQueue.vector_ VectorQueue.read_pos_]; (case_match; [|done]); intros [= _ <-];
    cbn [VectorQueue.vector_ VectorQueue.read_pos_]; rewrite length_drop, length_insert; rewrite ?length_drop.
  - lia.
  - apply andb_false_iff in E as [E|E]; zbool; lia.
Qed.

Definition parents_of (t : TaskId) (l : list (nat * ChainId)) s : list TaskId :=
  omap (fun kc => fst <$> (chains_ s !! kc.2 ≫= fun ci => prev_of (t, kc.1) (chain ci))) l.

Lemma get_parents_spec a ord s t task l : inv none a ord s -> live a !! t = Some task -> (forall x, x ∈ l -> x ∈ nodes_of task) ->
  get_parents t l s = Ok (parents_of t l s).
Proof.
  intros Hi Ht. induction l as [|[k c] l IH]; intros Hl; [done|]. cbn [get_parents].
  destruct (deref_live _ _ _ _ _ _ k c Hi Ht) as (ci & -> & Hc & _ & Hk); [apply Hl; by left|]. cbn [res_bind].
  rewrite IH by (intros x Hx; apply Hl; by right). cbn [res_bind]. unfold get_parent. rewrite bool_decide_eq_true_2 by done.
  unfold parents_of. cbn. rewrite Hc. cbn. by destruct (prev_of (t, k) (chain ci)).
Qed.

Lemma start_next_none a ord s : inv none a ord s -> VectorQueue.contents (pending_tasks_ s) = [] -> start_next_task s = Ok (None, s).
Proof.
  intros Hi Hq. unfold start_next_task, VectorQueue.empty. rewrite VectorQueue.size_ok; [|apply (iv_queue _ _ _ _ Hi) | by eapply queue_length]. by rewrite Hq.
Qed.

Lemma start_next_some a ord s t q : inv none a ord s -> VectorQueue.contents (pending_tasks_ s) = t :: q ->
  exists task vq, live a !! t = Some task /\ state task = Active /\
    start_next_task s = Ok (Some {| task_id := t; parents := parents_of t (nodes_of task) s |}, with_pending vq s) /\
    inv none a ord (with_pending vq s) /\ VectorQueue.contents vq = q.
Proof.
  intros Hi Hq. destruct (iv_queue _ _ _ _ Hi) as [Q1 Q2 Q3 Q4].
  assert (task_state (live a) t = Some Active) as Hs by (apply Q4; rewrite Hq; by left).
  unfold task_state in Hs. destruct (live a !! t) as [task|] eqn:Ht; [|done]. injection Hs as Hs.
  destruct (VectorQueue.pop_ok id (pending_tasks_ s) t q Q1 Hq) as (vq & Hpop & Hw & Hc). exists task, vq.
  assert (inv none a ord (with_pending vq s)) as Hi'.
  { destruct Hi. constructor; cbn [with_pending tasks_ chains_ limited_tasks_ pending_tasks_]; try done.
    - constructor; [done | | |].
      + apply (pop_read id (pending_tasks_ s) t vq); [done | by rewrite Hq | done].
      + rewrite Hc. rewrite Hq in Q3. by apply NoDup_cons in Q3 as [_ ?].
      + intros x Hx. apply Q4. rewrite Hq. right. by rewrite <- Hc.
    - intros c ci l1 n l2 q1 q2 Hci Heq Hcur Hq'. apply (iv_order c ci l1 n l2 (t :: q1) q2 Hci Heq Hcur). rewrite Hq, <- Hc, Hq'. done. }
  split_and!; [done | done | | done | done].
  unfold start_next_task, VectorQueue.empty. rewrite VectorQueue.size_ok; [|done | by eapply queue_length]. rewrite Hq. cbn [length].
  rewrite (proj2 (Z.eqb_neq _ _)) by lia. rewrite Hpop. cbn [res_bind].
  rewrite (get_task_live _ _ _ _ _ _ Hi' Ht). cbn [res_bind]. by rewrite (get_parents_spec a ord _ t task).
Qed.

End operations.

(** ** Clients *)
Section clients.
Context {ExtraT : Type} (ExtraT0 : ExtraT).
Implicit Types (s : ChainScheduler (ExtraT := ExtraT)) (a : objects (DataT := Task (ExtraT := ExtraT))).

Inductive op :=
| CreateTask (cs : list ChainId) (e : ExtraT)
| StartNextTask
| PauseTask (t : TaskId)
| ResetTask (t : TaskId)
| FinishTask (t : TaskId).

Inductive output :=
| ONothing
| OTask (t : TaskId)
| OStarted (o : option TaskWithParents).

Definition do_op (o : op) s : Res (output * ChainScheduler) :=
  match o with
  | CreateTask cs e => let* (t, s) := create_task ExtraT0 cs e s in Ok (OTask t, s)
  | StartNextTask => let* (o, s) := start_next_task s in Ok (OStarted o, s)
  | PauseTask t => let* s := pause_task t s in Ok (ONothing, s)
  | ResetTask t => let* s := reset_task t s in Ok (ONothing, s)
  | FinishTask t => let* s := finish_task ExtraT0 t s in Ok (ONothing, s)
  end.

(** What can be seen of a scheduler. *)
Definition queue s : list TaskId := VectorQueue.contents (pending_tasks_ s).
Definition state_of (t : TaskId) s : option State := state <$> get t (tasks_ s).
Definition chains_of (t : TaskId) s : option (list ChainId) := (fun task => map chain_id (chains task)) <$> get t (tasks_ s).
Definition tasks_in (c : ChainId) s : list TaskId := match chains_ s !! c with Some ci => map fst (chain ci) | None => [] end.
Definition active_in (c : ChainId) s : Z := match chains_ s !! c with Some ci => active_tasks ci | None => 0 end.
(** The generation in which the task was last started in the chain is the present one. *)
Definition up_to_date (c : ChainId) (t : TaskId) s : Prop :=
  exists ci k task i, chains_ s !! c = Some ci /\ (t, k) ∈ chain ci /\ get t (tasks_ s) = Some task /\ chains task !! k = Some i /\
    node_generation i = chain_generation ci.

(** The unfinished tasks, in the order of their creation. *)
Definition tasks_after (o : op) (out : output) (ord : list TaskId) : list TaskId :=
  match o, out with
  | CreateTask _ _, OTask t => ord ++ [t]
  | FinishTask t, _ => filter (fun x => x <> t) ord
  | _, _ => ord
  end.

(** A client names chains once, by identifiers that are not 0, and stops unfinished tasks
    that do not wait in the queue. *)
Definition allowed (o : op) s (ord : list TaskId) : Prop :=
  match o with
  | CreateTask cs _ => NoDup cs /\ 0 ∉ cs /\ Z.of_nat (length (slots_ (tasks_ s))) < 2 ^ 31 - 1
  | StartNextTask => True
  | PauseTask t | ResetTask t => t ∈ ord /\ t ∉ queue s /\ generations_left s
  | FinishTask t => t ∈ ord /\ t ∉ queue s
  end.

Inductive reachable : ChainScheduler -> list TaskId -> Prop :=
| reach_new : reachable new_scheduler []
| reach_op o out s s' ord :
    reachable s ord -> allowed o s ord -> do_op o s = Ok (out, s') -> reachable s' (tasks_after o out ord).

Lemma inv_new : inv none no_objects [] (new_scheduler (ExtraT := ExtraT)).
Proof.
  constructor; cbn [new_scheduler tasks_ chains_ limited_tasks_ pending_tasks_ no_objects live].
  - apply rep_new.
  - constructor.
  - intros t. rewrite lookup_empty. split; [by intros ?%elem_of_nil | by intros []].
  - done.
  - done.
  - intros c n (task & i & Ht & _). done.
  - done.
  - constructor; [unfold VectorQueue.wf; simpl; lia | simpl; lia | constructor | intros t Ht; by apply elem_of_nil in Ht].
  - done.
  - intros t Ht. done.
Qed.

(** What an operation gives back. *)
Definition output_ok (o : op) (out : output) s s' (ord : list TaskId) : Prop :=
  match o, out with
  | CreateTask cs e, OTask t => t ∉ ord /\ chains_of t s' = Some cs /\ get_task_extra t s' = Some e
  | StartNextTask, OStarted None => queue s = []
  | StartNextTask, OStarted (Some p) =>
      head (queue s) = Some (task_id p) /\ state_of (task_id p) s = Some Active /\
      exists cs, chains_of (task_id p) s = Some cs /\
        forall u, u ∈ parents p <-> exists c l1 l2, c ∈ cs /\ tasks_in c s = l1 ++ u :: task_id p :: l2
  | PauseTask t, ONothing => state_of t s' = Some Paused
  | ResetTask _, ONothing | FinishTask _, ONothing => True
  | _, _ => False
  end.

Lemma live_view X a ord s t : inv X a ord s -> is_Some (live a !! t) -> state_of t s = task_state (live a) t /\ chains_of t s = shape (live a) t.
Proof.
  intros Hi [task Ht]. unfold state_of, chains_of, task_state, shape. by rewrite (get_live _ _ _ _ (iv_rep _ _ _ _ Hi) Ht), Ht.
Qed.

Lemma state_live X a ord s t st : inv X a ord s -> task_state (live a) t = Some st -> state_of t s = Some st.
Proof.
  intros Hi Ht. destruct (live_view _ _ _ _ t Hi) as [-> _]; [|done]. unfold task_state in Ht. by destruct (live a !! t).
Qed.

(** The parents of a task are the tasks before it in its chains. *)
Lemma parents_spec a ord s t task u : inv none a ord s -> live a !! t = Some task ->
  u ∈ parents_of t (nodes_of task) s <-> exists c l1 l2, c ∈ map chain_id (chains task) /\ tasks_in c s = l1 ++ u :: t :: l2.
Proof.
  intros Hi Ht. unfold parents_of. rewrite list_elem_of_omap. split.
  - intros ([k c] & Hk & Hu). cbn in Hu. destruct (task_chain _ _ _ _ _ _ _ _ Hi Ht Hk) as (ci & Hci & Hw & Hn). rewrite Hci in Hu. cbn in Hu.
    destruct (prev_of (t, k) (chain ci)) as [[u' k']|] eqn:Hp; [|done]. injection Hu as ->.
    apply list_elem_of_split in Hn as (l1 & l2 & Hl). rewrite Hl, prev_of_app in Hp by (rewrite <- Hl; apply NoDup_map_fst, (chain_nodup (live a) ord c); [apply Hi | done]).
    apply last_Some in Hp as [l0 ->]. exists c, (map fst l0), (map fst l2). split; [apply nodes_of_chain; eauto|].
    unfold tasks_in. rewrite Hci, Hl, <- app_assoc. cbn. by rewrite map_app.
  - intros (c & l1 & l2 & Hc & Hl). apply nodes_of_chain in Hc as [k Hk]. exists (k, c). split; [done|]. cbn.
    destruct (task_chain _ _ _ _ _ _ _ _ Hi Ht Hk) as (ci & Hci & Hw & Hn). rewrite Hci. cbn. unfold tasks_in in Hl. rewrite Hci in Hl.
    apply map_eq_app in Hl as (m1 & m2 & Hm & <- & Hm2). destruct m2 as [|[u' ku] [|[t' kt] m2]]; try done. cbn in Hm2. injection Hm2 as -> -> _.
    assert (kt = k) as -> by (eapply (same_node (live a) ord c ci t); [apply Hi | done | rewrite Hm, elem_of_app; right; right; by left | done]).
    change ((u, ku) :: (t, k) :: m2) with ([(u, ku)] ++ (t, k) :: m2) in Hm. rewrite app_assoc in Hm. rewrite Hm, prev_of_app; [by rewrite last_snoc|].
    rewrite <- Hm. apply NoDup_map_fst, (chain_nodup (live a) ord c); [apply Hi | done].
Qed.

(** A task that was started in its turn has only active tasks before it. *)
Lemma in_turn_active a ord s t c l1 l2 u : inv none a ord s -> in_turn a s t -> tasks_in c s = l1 ++ t :: l2 -> u ∈ l1 -> state_of u s = Some Active.
Proof.
  intros Hi Hturn Hl Hu. unfold tasks_in in Hl. destruct (chains_ s !! c) as [ci|] eqn:Hc; [|by destruct l1].
  apply map_eq_app in Hl as (m1 & m2 & Hm & <- & Hm2). destruct m2 as [|[t' k] m2]; [done|]. injection Hm2 as -> _.
  apply list_elem_of_fmap in Hu as (n & -> & Hn). pose proof (iv_chain _ _ _ _ Hi _ _ Hc) as Hw.
  assert (current (live a) ci n) as Hcur.
  { apply (before_current (live a) ord c ci m1 (t, k) m2); [apply Hi | done | done | | done]. apply (Hturn c ci k Hc). rewrite Hm, elem_of_app. right. by left. }
  apply (state_live none a ord); [done|]. apply (cw_current _ _ _ _ Hw); [rewrite Hm, elem_of_app; by left | done].
Qed.

(** What is left of the queue, before new tasks are started. *)
Definition queue_rest (o : op) s : list TaskId := match o with StartNextTask => tail (queue s) | _ => queue s end.

Lemma scheduler_step a ord s o : inv none a ord s -> to_start_ s = [] -> allowed o s ord ->
  exists out s' a', do_op o s = Ok (out, s') /\ output_ok o out s s' ord /\ ran (queue_rest o s) a' (tasks_after o out ord) s'.
Proof.
  intros Hi Hl Ha. destruct o as [cs e | | t | t | t]; cbn [do_op allowed queue_rest] in *.
  - destruct Ha as (Hnd & H0 & Hroom). destruct (create_task_ok ExtraT0 a ord s cs e Hi Hl Hnd H0 Hroom) as (t & s' & a' & -> & Ht & Hran & Hsh & He & _ & _).
    eexists _, _, _. split; [done|]. split; [|done]. cbn. split_and!; [done | | done].
    destruct (live_view none a' (ord ++ [t]) s' t) as [_ ->]; [apply Hran | | done]. apply (iv_dom _ _ _ _ (ran_inv _ _ _ _ Hran)), elem_of_app. right. by left.
  - destruct (queue s) as [|t q] eqn:Hq.
    + rewrite (start_next_none a ord s Hi Hq). eexists _, s, a. split; [done|]. split; [done|]. constructor; [done | done|]. exists []. split; [done|]. intros x Hx. by apply elem_of_nil in Hx.
    + destruct (start_next_some a ord s t q Hi Hq) as (task & vq & Ht & Hs & -> & Hi' & Hc). eexists _, _, a. split; [done|]. split.
      * cbn. rewrite Hq. destruct (live_view none a ord s t Hi) as [-> ->]; [eauto|]. unfold task_state, shape. rewrite Ht. cbn. split_and!; [done | by rewrite Hs|].
        eexists. split; [done|]. intros u. by apply (parents_spec a ord).
      * constructor; [done | done|]. exists []. cbn. rewrite app_nil_r. split; [done|]. intros x Hx. by apply elem_of_nil in Hx.
  - destruct Ha as (Ht & Hq & Hroom). destruct (pause_task_ok a ord s t Hi Hl Ht Hq Hroom) as (s' & a' & -> & Hran & Hs & _).
    eexists _, _, _. split; [done|]. split; [|done]. cbn. by apply (state_live none a' ord); [apply Hran|].
  - destruct Ha as (Ht & Hq & Hroom). destruct (reset_task_ok a ord s t Hi Hl Ht Hq Hroom) as (s' & a' & -> & Hran & _). eexists _, _, _. by split.
  - destruct Ha as (Ht & Hq). destruct (finish_task_ok ExtraT0 a ord s t Hi Hl Ht Hq) as (s' & a' & -> & Hran & _). eexists _, _, _. by split.
Qed.

Lemma reachable_inv s ord : reachable s ord -> exists a, inv none a ord s /\ to_start_ s = [].
Proof.
  induction 1 as [|o out s s' ord _ (a & Hi & Hl) Ha Hdo]; [exists no_objects; split; [apply inv_new | done]|].
  destruct (scheduler_step a ord s o Hi Hl Ha) as (out' & s'' & a' & Hdo' & _ & Hran). assert (out' = out /\ s'' = s') as [-> ->] by (split; congruence).
  exists a'. split; apply Hran.
Qed.

(** A sublist with the elements that have a property is all of them. *)
Lemma sublist_filter_eq (P : TaskId -> Prop) {PD : forall x, Decision (P x)} l ord : NoDup ord -> l `sublist_of` ord ->
  (forall x, x ∈ l <-> x ∈ ord /\ P x) -> l = filter P ord.
Proof.
  intros Hnd Hsub. induction Hsub as [|x l ord Hsub IH|x l ord Hsub IH]; intros Hiff; [done | |]; apply NoDup_cons in Hnd as [Hx Hnd].
  - assert (P x) as HP by (apply (Hiff x); by left). rewrite filter_cons_True by done. f_equal. apply IH; [done|]. intros y. split.
    + intros Hy. split; [by eapply elem_of_submseteq, sublist_submseteq|]. apply (Hiff y). by right.
    + intros [Hy HPy]. assert (y ∈ x :: l) as H by (apply Hiff; split; [by right | done]). apply elem_of_cons in H as [-> | H]; done.
  - assert (~ P x) as HP.
    { intros HP. assert (x ∈ l) as H by (apply Hiff; split; [by left | done]). apply Hx. by eapply elem_of_submseteq, sublist_submseteq. }
    rewrite filter_cons_False by done. apply IH; [done|]. intros y. rewrite Hiff, elem_of_cons. split; [|naive_solver]. intros [[->|] ?]; done.
Qed.

Definition in_chain_of (c : ChainId) s (t : TaskId) : Prop := c ∈ default [] (chains_of t s).
#[global] Instance in_chain_of_dec c s t : Decision (in_chain_of c s t).
Proof. unfold in_chain_of. apply _. Defined.

Lemma in_chain_view a ord s c t : inv none a ord s -> is_Some (live a !! t) -> in_chain_of c s t <-> exists k, in_chain (live a) c (t, k).
Proof.
  intros Hi Ht. unfold in_chain_of. destruct (live_view none a ord s t Hi Ht) as [_ ->]. setoid_rewrite in_chain_shape. cbn.
  destruct (shape (live a) t) as [l|]; cbn; [|split; [by intros ?%elem_of_nil | naive_solver]]. rewrite list_elem_of_lookup. naive_solver.
Qed.

Lemma tasks_in_order a ord s c : inv none a ord s -> tasks_in c s = filter (in_chain_of c s) ord.
Proof.
  intros Hi. apply sublist_filter_eq; [apply Hi | |].
  - unfold tasks_in. destruct (chains_ s !! c) as [ci|] eqn:Hc; [|apply sublist_nil_l]. apply (cw_order _ _ _ _ (iv_chain _ _ _ _ Hi _ _ Hc)).
  - intros t. rewrite (iv_dom _ _ _ _ Hi). split.
    + unfold tasks_in. destruct (chains_ s !! c) as [ci|] eqn:Hc; [|by intros ?%elem_of_nil]. intros ([t' k] & -> & Hn)%list_elem_of_fmap.
      pose proof (iv_chain _ _ _ _ Hi _ _ Hc) as Hw. destruct (chain_task _ _ _ _ _ Hw Hn) as (task & i & Ht & _). cbn in *. split; [eauto|].
      apply (in_chain_view a ord); [done | eauto|]. exists k. by apply (cw_nodes _ _ _ _ Hw).
    + intros [Ht Hin]. apply (in_chain_view a ord) in Hin as [k Hk]; [|done..]. destruct (iv_some _ _ _ _ Hi _ _ Hk) as [ci Hc].
      unfold tasks_in. rewrite Hc. apply list_elem_of_fmap. exists (t, k). split; [done|]. by apply (cw_nodes _ _ _ _ (iv_chain _ _ _ _ Hi _ _ Hc)).
Qed.

Lemma up_to_date_current a ord s c ci t k : inv none a ord s -> chains_ s !! c = Some ci -> (t, k) ∈ chain ci ->
  up_to_date c t s <-> current (live a) ci (t, k).
Proof.
  intros Hi Hc Hk. pose proof (iv_chain _ _ _ _ Hi _ _ Hc) as Hw. destruct (chain_task _ _ _ _ _ Hw Hk) as (task & i & Ht & Hi' & _). cbn in Ht, Hi'.
  pose proof (get_live _ _ _ _ (iv_rep _ _ _ _ Hi) Ht) as Hget. unfold up_to_date, current, node_gen. cbn. rewrite Ht, Hi'. cbn. split.
  - intros (ci' & k' & task' & i' & H1 & H2 & H3 & H4 & H5). assert (ci' = ci) as -> by congruence.
    assert (k' = k) as -> by (by eapply (same_node (live a) ord c ci t); [apply Hi | ..]). simplify_eq. by rewrite H5.
  - intros [= H]. exists ci, k, task, i. done.
Qed.

(** A pending task has a reason to wait. *)
Lemma pending_reason a ord s t : inv none a ord s -> task_state (live a) t = Some Pending ->
  exists c, t ∈ tasks_in c s /\ (10 <= active_in c s \/ exists l1 u l2, tasks_in c s = l1 ++ u :: t :: l2 /\ ~ up_to_date c u s).
Proof.
  intros Hi Ht. destruct (iv_woken _ _ _ _ Hi t Ht) as (c & ci & k & Hc & Hk & Hcase); [by intros []|]. exists c. pose proof (iv_chain _ _ _ _ Hi _ _ Hc) as Hw.
  unfold tasks_in, active_in. rewrite Hc. split; [apply list_elem_of_fmap; by exists (t, k)|]. destruct Hcase as [Hno|Hl].
  - right. apply list_elem_of_split in Hk as Hsp. destruct Hsp as (l1 & l2 & Heq).
    assert (NoDup (l1 ++ (t, k) :: l2)) as Hnd by (rewrite <- Heq; apply NoDup_map_fst, (chain_nodup (live a) ord c); [apply Hi | done]).
    unfold candidate in Hno. rewrite Heq, prev_of_app in Hno by done. destruct (last l1) as [[u ku]|] eqn:Hlast; [|by destruct Hno].
    apply last_Some in Hlast as [l0 ->]. exists (map fst l0), u, (map fst l2). split; [by rewrite Heq, <- app_assoc, map_app|].
    rewrite (up_to_date_current a ord s c ci u ku); [|done | done | rewrite Heq, !elem_of_app; left; right; by left]. intros Hcur. apply Hno. by intros p [= <-].
  - left. destruct (iv_limited _ _ _ _ Hi _ _ Hl) as (ci' & k' & Hc' & _ & _ & _ & Hfull). simplify_eq. done.
Qed.

Lemma active_count a ord s c : inv none a ord s -> active_in c s = Z.of_nat (length (filter (fun t => state_of t s = Some Active) (tasks_in c s))) /\ active_in c s <= 10.
Proof.
  intros Hi. unfold active_in, tasks_in. destruct (chains_ s !! c) as [ci|] eqn:Hc; [|done]. pose proof (iv_chain _ _ _ _ Hi _ _ Hc) as Hw. split; [|apply (cw_limit _ _ _ _ Hw)].
  rewrite (cw_active _ _ _ _ Hw). f_equal. unfold active_nodes.
  assert (forall n, n ∈ chain ci -> state_of n.1 s = task_state (live a) n.1) as Hst.
  { intros n Hn. destruct (chain_task _ _ _ _ _ Hw Hn) as (task & i & Ht & _). apply (live_view none a ord s); [done | eauto]. }
  clear Hw Hc. induction (chain ci) as [|n l IH]; [done|]. cbn [map]. rewrite !filter_cons, (Hst n) by (by left).
  destruct (decide (task_state (live a) n.1 = Some Active)); cbn [length]; by rewrite ?IH by (intros m Hm; apply Hst; by right).
Qed.

End clients.

(** C5. A client can only start tasks in order: whatever sequence of allowed operations was
    done, the next one runs without a failed check and with the right result, in particular
    [start_next_task] hands out the first task of the queue with the tasks right before it
    in its chains; and a task that an operation adds to the queue has only active tasks
    before it in each of its chains. *)
Theorem chain_scheduler_order {ExtraT} (ExtraT0 : ExtraT) s ord o :
  reachable ExtraT0 s ord -> allowed o s ord ->
  exists out s', do_op ExtraT0 o s = Ok (out, s') /\ output_ok o out s s' ord /\ reachable ExtraT0 s' (tasks_after o out ord) /\
    exists new, queue s' = queue_rest o s ++ new /\
      forall t c l1 l2 u, t ∈ new -> tasks_in c s' = l1 ++ t :: l2 -> u ∈ l1 -> state_of u s' = Some Active.
Proof.
  intros Hre Ha. destruct (reachable_inv _ _ _ Hre) as (a & Hi & Hl).
  destruct (scheduler_step ExtraT0 a ord s o Hi Hl Ha) as (out & s' & a' & Hdo & Hout & Hran). exists out, s'. split_and!; [done | done | by eapply reach_op|].
  destruct (ran_queue _ _ _ _ Hran) as (new & Hq & Hnew). exists new. split; [done|]. intros t c l1 l2 u Ht.
  apply (in_turn_active a' (tasks_after o out ord)); [apply Hran | by apply Hnew].
Qed.

(** C11. No task is forgotten: after every sequence of allowed operations each chain has its
    unfinished tasks in the order of creation, counts its active tasks and has at most ten of
    them; a task that is pending waits for the task before it in some chain, which was not
    started since a failure in the chain, or for one of ten active tasks; and tasks
    of a chain wait to be handed out in the order of the chain. *)
Theorem chain_scheduler_invariant {ExtraT} (ExtraT0 : ExtraT) s ord : reachable ExtraT0 s ord ->
  NoDup ord /\
  (forall c, tasks_in c s = filter (in_chain_of c s) ord /\
     active_in c s = Z.of_nat (length (filter (fun t => state_of t s = Some Active) (tasks_in c s))) /\ active_in c s <= 10) /\
  (forall t, t ∈ ord -> state_of t s = Some Pending ->
     exists c, t ∈ tasks_in c s /\ (10 <= active_in c s \/ exists l1 u l2, tasks_in c s = l1 ++ u :: t :: l2 /\ ~ up_to_date c u s)) /\
  (forall t, t ∈ queue s -> t ∈ ord /\ state_of t s = Some Active) /\ NoDup (queue s) /\
  (forall c l1 t l2 q1 q2 u, tasks_in c s = l1 ++ t :: l2 -> up_to_date c t s -> queue s = q1 ++ t :: q2 -> u ∈ l1 -> u ∉ q2).
Proof.
  intros Hre. destruct (reachable_inv _ _ _ Hre) as (a & Hi & _). destruct (iv_queue _ _ _ _ Hi) as [Q1 Q2 Q3 Q4]. split_and!.
  - apply Hi.
  - intros c. split; [by apply (tasks_in_order a)|]. by apply (active_count a ord).
  - intros t Ht Hs. apply (pending_reason a ord); [done|]. apply (iv_dom _ _ _ _ Hi) in Ht. by destruct (live_view none a ord s t Hi Ht) as [<- _].
  - intros t Ht. apply Q4 in Ht. split; [|by apply (state_live none a ord)]. apply (iv_dom _ _ _ _ Hi). unfold task_state in Ht. destruct (live a !! t); [eauto | done].
  - done.
  - intros c l1 t l2 q1 q2 u Hl Hup Hq Hu. unfold tasks_in in Hl. destruct (chains_ s !! c) as [ci|] eqn:Hc; [|by destruct l1].
    apply map_eq_app in Hl as (m1 & m2 & Hm & <- & Hm2). destruct m2 as [|[t' k] m2]; [done|]. injection Hm2 as -> _.
    apply list_elem_of_fmap in Hu as (n & -> & Hn).
    assert ((t, k) ∈ chain ci) as Hk by (rewrite Hm, elem_of_app; right; by left).
    apply (iv_order _ _ _ _ Hi c ci m1 (t, k) m2 q1 q2 Hc Hm); [|done..]. by apply (up_to_date_current a ord s c ci t k).
Qed.

(** ** Finishing all tasks *)
Section drain.
Context {ExtraT : Type} (ExtraT0 : ExtraT).
Implicit Types (s : ChainScheduler (ExtraT := ExtraT)) (a : objects (DataT := Task (ExtraT := ExtraT))).

(** A client that takes the tasks one after the other and finishes each of them. *)
Fixpoint drain (fuel : nat) s : Res (list TaskId * ChainScheduler) :=
  let* (o, s) := start_next_task s in
  match o with
  | None => Ok ([], s)
  | Some p =>
      match fuel with
      | O => Panic "fuel"
      | S fuel =>
          let* s := finish_task ExtraT0 (task_id p) s in
          let* (l, s) := drain fuel s in
          Ok (task_id p :: l, s)
      end
  end.

(** Nothing is paused, and nothing was handed out or failed. *)
Definition undisturbed s (ord : list TaskId) : Prop :=
  (forall t, t ∈ ord -> state_of t s <> Some Paused) /\ (forall t, t ∈ ord -> state_of t s = Some Active -> t ∈ queue s) /\
  (forall t c, t ∈ queue s -> t ∈ tasks_in c s -> up_to_date c t s).

(** The tasks of every chain come in the order of the chain. *)
Definition keeps_order (l : list TaskId) s : Prop := forall c, filter (fun t => t ∈ tasks_in c s) l = tasks_in c s.

Lemma undisturbed_view a ord s : inv none a ord s ->
  undisturbed s ord <-> (forall t, task_state (live a) t <> Some Paused) /\ (forall t, task_state (live a) t = Some Active -> t ∈ queue s) /\
    (forall t, t ∈ queue s -> in_turn a s t).
Proof.
  intros Hi. assert (forall t st, task_state (live a) t = Some st -> t ∈ ord) as Hord.
  { intros t st Ht. apply (iv_dom _ _ _ _ Hi). unfold task_state in Ht. destruct (live a !! t); [eauto | done]. }
  assert (forall t, t ∈ ord -> state_of t s = task_state (live a) t) as Hst by (intros t Ht%(iv_dom _ _ _ _ Hi); by apply (live_view none a ord s)).
  unfold undisturbed. split.
  - intros (H1 & H2 & H3). split_and!.
    + intros t Ht. apply (H1 t); [by eapply Hord|]. rewrite Hst; [done | by eapply Hord].
    + intros t Ht. apply H2; [by eapply Hord|]. rewrite Hst; [done | by eapply Hord].
    + intros t Ht c ci k Hc Hk. apply (up_to_date_current a ord s c ci t k); [done..|]. apply H3; [done|]. unfold tasks_in. rewrite Hc. apply list_elem_of_fmap. by exists (t, k).
  - intros (H1 & H2 & H3). split_and!.
    + intros t Ht. rewrite Hst by done. apply H1.
    + intros t Ht. rewrite Hst by done. apply H2.
    + intros t c Ht Hc. unfold tasks_in in Hc. destruct (chains_ s !! c) as [ci|] eqn:Hci; [|by apply elem_of_nil in Hc].
      apply list_elem_of_fmap in Hc as ([t' k] & -> & Hk). by apply (up_to_date_current a ord s c ci t' k), (H3 t' Ht c).
Qed.

(** While there are tasks, one of them waits to be handed out. *)
Lemma queue_nonempty a ord s : inv none a ord s -> undisturbed s ord -> ord <> [] -> queue s <> [].
Proof.
  intros Hi Hu Hne Hq. destruct (proj1 (undisturbed_view a ord s Hi) Hu) as (H1 & H2 & _).
  assert (forall t, task_state (live a) t <> Some Active) as Hact by (intros t Ht%H2; rewrite Hq in Ht; by apply elem_of_nil in Ht).
  destruct ord as [|t ord]; [done|]. assert (task_state (live a) t = Some Pending) as Ht.
  { assert (is_Some (live a !! t)) as [task Ht] by (apply (iv_dom _ _ _ _ Hi); by left). specialize (H1 t). specialize (Hact t).
    unfold task_state in *. rewrite Ht in *. cbn in *. destruct (state task); done. }
  destruct (pending_reason a (t :: ord) s t Hi Ht) as (c & Htc & [Hfull | (l1 & u & l2 & Hl & _)]).
  - destruct (active_count a (t :: ord) s c Hi) as [Hcount _].
    destruct (filter (fun t => state_of t s = Some Active) (tasks_in c s)) as [|x l] eqn:Hf; [cbn in Hcount; lia|].
    assert (x ∈ x :: l) as Hx by (by left). rewrite <- Hf in Hx. apply list_elem_of_filter in Hx as [Hx Hxc]. rewrite (tasks_in_order a (t :: ord) s c Hi) in Hxc.
    apply list_elem_of_filter in Hxc as [_ Hxo]. apply (iv_dom _ _ _ _ Hi) in Hxo. destruct (live_view none a _ s x Hi Hxo) as [Heq _]. apply (Hact x). congruence.
  - assert (tasks_in c s `sublist_of` t :: ord) as Hsub by (rewrite (tasks_in_order a (t :: ord) s c Hi); apply sublist_filter).
    rewrite Hl in Hsub. pose proof (iv_nodup _ _ _ _ Hi) as Hnd. apply NoDup_cons in Hnd as [Hnot Hnd].
    assert (u :: t :: l2 `sublist_of` t :: ord) as Hsub' by (etrans; [apply sublist_inserts_l; reflexivity | exact Hsub]).
    assert (t ∈ ord) as Hin; [|done]. apply sublist_cons_r in Hsub' as [H | (k & [= -> <-] & H)]; apply sublist_submseteq in H.
    + eapply elem_of_submseteq; [|exact H]. right. by left.
    + eapply elem_of_submseteq; [|exact H]. by left.
Qed.

(** The task at the front of the queue is the first one in all of its chains. *)
Lemma front_first a ord s t q c : inv none a ord s -> undisturbed s ord -> queue s = t :: q -> t ∈ tasks_in c s -> exists l, tasks_in c s = t :: l.
Proof.
  intros Hi Hu Hq Ht. destruct (proj1 (undisturbed_view a ord s Hi) Hu) as (_ & H2 & H3). apply list_elem_of_split in Ht as (l1 & l2 & Hl).
  destruct l1 as [|u l1]; [by exists l2|]. exfalso.
  assert (in_turn a s t) as Hturn by (apply H3; rewrite Hq; by left).
  assert (tasks_in c s = (u :: l1) ++ t :: l2) as Hl' by done. unfold tasks_in in Hl'. destruct (chains_ s !! c) as [ci|] eqn:Hc; [|done].
  apply map_eq_app in Hl' as (m1 & m2 & Hm & Hm1 & Hm2). destruct m2 as [|[t' k] m2]; [done|]. injection Hm2 as -> _. destruct m1 as [|n m1]; [done|]. injection Hm1 as Hn _.
  assert (current (live a) ci (t, k)) as Hcur by (apply (Hturn c ci k Hc); rewrite Hm, elem_of_app; right; by left).
  pose proof (iv_chain _ _ _ _ Hi _ _ Hc) as Hw.
  assert (current (live a) ci n) as Hn' by (apply (before_current (live a) ord c ci (n :: m1) (t, k) m2); [apply Hi | done | done | done | by left]).
  apply (cw_current _ _ _ _ Hw) in Hn'; [|rewrite Hm; by left]. apply H2 in Hn'. rewrite Hq in Hn'. apply elem_of_cons in Hn' as [Heq|Hin].
  - pose proof (chain_nodup _ _ _ _ (iv_nodup _ _ _ _ Hi) Hw) as Hnd. rewrite Hm in Hnd. cbn in Hnd. apply NoDup_cons in Hnd as [Hnd _].
    apply Hnd. rewrite map_app, elem_of_app. right. cbn. rewrite Heq. by left.
  - by apply (iv_order _ _ _ _ Hi c ci (n :: m1) (t, k) m2 [] q Hc Hm Hcur Hq n); [left|].
Qed.

Lemma tasks_in_finished a ord s a' s' t c : inv none a ord s -> inv none a' (filter (fun x => x <> t) ord) s' ->
  (forall x, x <> t -> shape (live a') x = shape (live a) x) -> tasks_in c s' = filter (fun x => x <> t) (tasks_in c s).
Proof.
  intros Hi Hi' Hsh. rewrite (tasks_in_order a' _ s' c Hi'), (tasks_in_order a _ s c Hi). rewrite !list_filter_filter.
  assert (forall x, x ∈ ord -> (in_chain_of c s' x /\ x <> t) <-> (x <> t /\ in_chain_of c s x)) as Hiff.
  { intros x Hx. destruct (decide (x = t)) as [->|Hne]; [naive_solver|].
    assert (in_chain_of c s' x <-> in_chain_of c s x); [|naive_solver]. unfold in_chain_of.
    destruct (live_view none a ord s x Hi) as [_ ->]; [by apply (iv_dom _ _ _ _ Hi)|].
    destruct (live_view none a' _ s' x Hi') as [_ ->]; [|by rewrite Hsh]. apply (iv_dom _ _ _ _ Hi'). by apply list_elem_of_filter. }
  clear Hi Hi'. induction ord as [|x ord IH]; [done|]. rewrite !filter_cons. rewrite IH by (intros; apply Hiff; by right).
  specialize (Hiff x ltac:(by left)). destruct (decide _), (decide _); tauto.
Qed.

(** One turn of the client. *)
Lemma drain_turn s ord : reachable ExtraT0 s ord -> undisturbed s ord -> ord <> [] ->
  exists p s1 s2, start_next_task s = Ok (Some p, s1) /\ finish_task ExtraT0 (task_id p) s1 = Ok s2 /\ task_id p ∈ ord /\
    reachable ExtraT0 s2 (filter (fun x => x <> task_id p) ord) /\ undisturbed s2 (filter (fun x => x <> task_id p) ord) /\
    (forall c, tasks_in c s = tasks_in c s2 \/ tasks_in c s = task_id p :: tasks_in c s2).
Proof.
  intros Hre Hu Hne. destruct (reachable_inv _ _ _ Hre) as (a & Hi & Hlater). pose proof (queue_nonempty a ord s Hi Hu Hne) as Hq.
  destruct (queue s) as [|t q] eqn:Hqe; [done|]. destruct (start_next_some a ord s t q Hi Hqe) as (task & vq & Ht & Hs & Hstart & Hi1 & Hvq).
  set (p := {| task_id := t; parents := _ |}) in Hstart. set (s1 := with_pending vq s) in *.
  assert (reachable ExtraT0 s1 ord) as Hre1.
  { apply (reach_op ExtraT0 StartNextTask (OStarted (Some p)) s s1 ord Hre); [done|]. cbn [do_op]. by rewrite Hstart. }
  assert (t ∈ ord) as Hord by (apply (iv_dom _ _ _ _ Hi); eauto).
  assert (t ∉ q) as Hnot by (pose proof (qw_nodup _ _ (iv_queue _ _ _ _ Hi)) as Hnd; unfold queue in Hqe; rewrite Hqe in Hnd; by apply NoDup_cons in Hnd as [? _]).
  destruct (finish_task_ok ExtraT0 a ord s1 t Hi1 Hlater Hord) as (s2 & a2 & Hfin & Hran & Hstate & Hsh & Hact & Hturn); [unfold s1; cbn; by rewrite Hvq|].
  exists p, s1, s2. split_and!; [done | done | done | | |].
  - apply (reach_op ExtraT0 (FinishTask t) ONothing s1 s2 ord Hre1); [|cbn [do_op]; by rewrite Hfin].
    cbn [allowed]. split; [done|]. unfold queue, s1. cbn. by rewrite Hvq.
  - destruct (proj1 (undisturbed_view a ord s Hi) Hu) as (U1 & U2 & U3). apply (undisturbed_view a2); [apply Hran|].
    destruct (ran_queue _ _ _ _ Hran) as (new & Hq2 & Hnew). change (VectorQueue.contents (pending_tasks_ s1)) with (VectorQueue.contents vq) in Hq2. rewrite Hvq in Hq2.
    assert (task_state (live a2) t = None) as Hgone.
    { destruct (live a2 !! t) as [x|] eqn:E; [|unfold task_state; by rewrite E]. exfalso.
      assert (t ∈ filter (fun x => x <> t) ord) as H by (apply (iv_dom _ _ _ _ (ran_inv _ _ _ _ Hran)); eauto). apply list_elem_of_filter in H as [? _]. done. }
    split_and!.
    + intros x Hx. assert (x <> t) as Hxt by (intros ->; congruence). destruct (Hstate x Hxt) as [H | [_ H]]; [apply (U1 x); congruence | congruence].
    + intros x Hx. assert (x <> t) as Hxt by (intros ->; congruence). destruct (Hact x Hx Hxt) as [H|H]; [|done]. unfold queue. rewrite Hq2, elem_of_app. left.
      apply U2 in H. rewrite Hqe in H. by apply elem_of_cons in H as [|].
    + intros x Hx. unfold queue in Hx. rewrite Hq2, elem_of_app in Hx. destruct Hx as [Hx|Hx]; [|by apply Hnew]. apply Hturn.
      * by intros ->.
      * apply (qw_active _ _ (iv_queue _ _ _ _ Hi)). unfold queue in Hqe. rewrite Hqe. by right.
      * apply U3. rewrite Hqe. by right.
  - intros c. rewrite (tasks_in_finished a ord s1 a2 s2 t c Hi1 (ran_inv _ _ _ _ Hran) Hsh). change (tasks_in c s1) with (tasks_in c s). cbn [p task_id].
    destruct (decide (t ∈ tasks_in c s)) as [Hin|Hout].
    + right. destruct (front_first a ord s t q c Hi Hu Hqe Hin) as [l Hl]. rewrite Hl. rewrite filter_cons_False by naive_solver. f_equal. symmetry. apply filter_all, Forall_forall.
      intros x Hx ->. assert (NoDup (tasks_in c s)) as Hnd by (rewrite (tasks_in_order a ord s c Hi); apply NoDup_filter, Hi). rewrite Hl in Hnd. by apply NoDup_cons in Hnd as [? _].
    + left. symmetry. apply filter_all, Forall_forall. by intros x Hx ->.
Qed.

Lemma filter_tail_mem (t : TaskId) (l m m' : list TaskId) : (m = m' \/ m = t :: m') -> t ∉ l -> filter (fun x => x ∈ m') l = filter (fun x => x ∈ m) l.
Proof.
  intros Hm Ht. induction l as [|x l IH]; [done|]. apply not_elem_of_cons in Ht as [Hx Ht]. rewrite !filter_cons, IH by done.
  assert (x ∈ m <-> x ∈ m') as Hiff by (destruct Hm as [-> | ->]; [done|]; rewrite elem_of_cons; naive_solver).
  destruct (decide (x ∈ m)), (decide (x ∈ m')); done || tauto.
Qed.

Lemma drain_all n : forall s ord, length ord = n -> reachable ExtraT0 s ord -> undisturbed s ord ->
  exists l s', drain n s = Ok (l, s') /\ l ≡ₚ ord /\ reachable ExtraT0 s' [] /\ forall c, filter (fun t => t ∈ tasks_in c s) l = tasks_in c s.
Proof.
  induction n as [|n IH]; intros s ord Hlen Hre Hu.
  - apply nil_length_inv in Hlen. subst ord. destruct (reachable_inv _ _ _ Hre) as (a & Hi & _).
    assert (queue s = []) as Hq.
    { destruct (queue s) as [|t q] eqn:E; [done|]. destruct (start_next_some a [] s t q Hi E) as (task & _ & Ht & _).
      assert (t ∈ []) as H by (apply (iv_dom _ _ _ _ Hi); eauto). by apply elem_of_nil in H. }
    exists [], s. cbn [drain]. rewrite (start_next_none a [] s Hi Hq). cbn. split_and!; [done | done | done |].
    intros c. by rewrite (tasks_in_order a [] s c Hi).
  - assert (ord <> []) as Hne by (by intros ->). destruct (drain_turn s ord Hre Hu Hne) as (p & s1 & s2 & Hstart & Hfin & Hin & Hre2 & Hu2 & Hch).
    destruct (reachable_inv _ _ _ Hre) as (a & Hi & _).
    assert (ord ≡ₚ task_id p :: filter (fun x => x <> task_id p) ord) as Hperm.
    { apply list_elem_of_split in Hin as (l1 & l2 & Heq). pose proof (iv_nodup _ _ _ _ Hi) as Hnd. rewrite Heq in Hnd |- *.
      apply NoDup_app in Hnd as (_ & Hn1 & [Hn2 _]%NoDup_cons). rewrite filter_app, filter_cons_False by naive_solver.
      rewrite !filter_all; [by rewrite Permutation_middle | apply Forall_forall; by intros x Hx -> | apply Forall_forall; intros x Hx ->; apply (Hn1 _ Hx); by left]. }
    destruct (IH s2 (filter (fun x => x <> task_id p) ord)) as (l & s' & Hd & Hl & Hre' & Hord); [apply Permutation_length in Hperm; cbn in Hperm; lia | done | done|].
    exists (task_id p :: l), s'. cbn [drain]. rewrite Hstart. cbn [res_bind]. rewrite Hfin. cbn [res_bind]. rewrite Hd. cbn [res_bind].
    split_and!; [done | by rewrite Hl | done |]. intros c.
    assert (task_id p ∉ l) as Hpl by (rewrite Hl, list_elem_of_filter; naive_solver).
    assert (task_id p ∉ tasks_in c s2) as Hp2.
    { rewrite <- (Hord c). rewrite list_elem_of_filter. naive_solver. }
    rewrite filter_cons, <- (filter_tail_mem (task_id p) l (tasks_in c s) (tasks_in c s2)), Hord by done.
    destruct (Hch c) as [Heq | Heq]; rewrite Heq; [by rewrite decide_False by (by rewrite <- Heq in Hp2; rewrite Heq in Hp2) | by rewrite decide_True by (by left)].
Qed.

End drain.

(** C12. Every task gets its turn: from any state that is reached without a pause or a failure,
    a client that takes tasks and finishes them one after the other is never left
    without a task while there is one; after as many turns as there are tasks all of them are
    finished, each once and in the order of creation in every chain. *)
Theorem chain_scheduler_drains {ExtraT} (ExtraT0 : ExtraT) s ord : reachable ExtraT0 s ord -> undisturbed s ord ->
  exists l s', drain ExtraT0 (length ord) s = Ok (l, s') /\ l ≡ₚ ord /\ reachable ExtraT0 s' [] /\ keeps_order l s.
Proof. intros Hre Hu. by apply drain_all. Qed.

(** ** An example: two tasks with a common chain *)
Definition after (o : op) (s : ChainScheduler (ExtraT := Z)) : ChainScheduler :=
  match do_op 0 o s with Ok (_, s) => s | _ => s end.
Definition one_task : ChainScheduler := after (CreateTask [1; 2] 10) new_scheduler.
Definition two_tasks : ChainScheduler := after (CreateTask [2] 11) one_task.

Lemma two_tasks_reachable : reachable 0 two_tasks [256; 2 ^ 32 + 256].
Proof.
  apply (reach_op 0 (CreateTask [2] 11) (OTask (2 ^ 32 + 256)) one_task two_tasks [256]); [|split_and!|vm_compute; reflexivity].
  - apply (reach_op 0 (CreateTask [1; 2] 10) (OTask 256) new_scheduler one_task []); [apply reach_new | split_and! | vm_compute; reflexivity].
    + by apply (bool_decide_unpack _).
    + by apply (bool_decide_unpack _).
    + vm_compute. reflexivity.
  - by apply (bool_decide_unpack _).
  - by apply (bool_decide_unpack _).
  - vm_compute. reflexivity.
Qed.

Lemma chain_scheduler_order_witness :
  exists out s', do_op 0 StartNextTask two_tasks = Ok (out, s') /\ output_ok StartNextTask out two_tasks s' [256; 2 ^ 32 + 256] /\
    reachable 0 s' (tasks_after (ExtraT := Z) StartNextTask out [256; 2 ^ 32 + 256]) /\
    exists new, queue s' = queue_rest StartNextTask two_tasks ++ new /\
      forall t c l1 l2 u, t ∈ new -> tasks_in c s' = l1 ++ t :: l2 -> u ∈ l1 -> state_of u s' = Some Active.
Proof. apply (chain_scheduler_order 0 two_tasks [256; 2 ^ 32 + 256] StartNextTask two_tasks_reachable I). Defined.

Lemma chain_scheduler_invariant_witness : NoDup (queue two_tasks) /\ queue two_tasks = [256; 2 ^ 32 + 256].
Proof. split; [apply (chain_scheduler_invariant 0 two_tasks _ two_tasks_reachable) | vm_compute; reflexivity]. Defined.

Lemma two_tasks_undisturbed : undisturbed two_tasks [256; 2 ^ 32 + 256].
Proof.
  split_and!.
  - intros t Ht. apply elem_of_cons in Ht as [->|Ht]; [vm_compute; discriminate|]. apply list_elem_of_singleton in Ht as ->. vm_compute. discriminate.
  - intros t Ht _. vm_compute. apply elem_of_cons in Ht as [->|Ht%list_elem_of_singleton]; [left | right; rewrite Ht; left].
  - intros t c Ht Hc. unfold up_to_date.
    assert (Hci : exists ci, chains_ two_tasks !! c = Some ci) by (unfold tasks_in in Hc; destruct (chains_ two_tasks !! c); [eauto | by apply elem_of_nil in Hc]).
    destruct Hci as [ci Hci].
    assert (c ∈ dom (chains_ two_tasks)) as Hdom by (apply elem_of_dom; eauto).
    assert (dom (chains_ two_tasks) = ({[1; 2]} : gset Z)) as Heq by (vm_compute; reflexivity). rewrite Heq in Hdom.
    apply elem_of_union in Hdom as [->%elem_of_singleton | ->%elem_of_singleton]; vm_compute in Hci; injection Hci as <-; vm_compute in Hc.
    + apply list_elem_of_singleton in Hc as ->. eexists _, 0%nat, _, _. split_and!; [vm_compute; reflexivity | left | vm_compute; reflexivity | reflexivity | reflexivity].
    + apply elem_of_cons in Hc as [-> | ->%list_elem_of_singleton].
      * eexists _, 1%nat, _, _. split_and!; [vm_compute; reflexivity | left | vm_compute; reflexivity | reflexivity | reflexivity].
      * eexists _, 0%nat, _, _. split_and!; [vm_compute; reflexivity | right; left | vm_compute; reflexivity | reflexivity | reflexivity].
Qed.

Lemma chain_scheduler_drains_witness :
  exists l s', drain 0 2 two_tasks = Ok (l, s') /\ l ≡ₚ [256; 2 ^ 32 + 256] /\ reachable 0 s' [] /\ keeps_order l two_tasks.
Proof. apply (chain_scheduler_drains 0 two_tasks [256; 2 ^ 32 + 256] two_tasks_reachable two_tasks_undisturbed). Defined.
