(* ===== verification/ChainClient.v ===== *)
(** * Chains of tasks as a client sees them

    The contract of [ChainScheduler] in terms of what a client can ask for: the extra data and
    the state of a task, the queue of tasks to start, and the unfinished tasks [ord] in the
    order of creation.  The dispatcher of queries is verified against it. *)
From S2P Require Import Prelude SeqProcessors Container ChainScheduler ChainTasks ChainRuns.
Local Open Scope td_scope.
#[local] Arguments u32 : simpl never.
#[local] Arguments u64 : simpl never.

Section client.
Context {ExtraT : Type} (ExtraT0 : ExtraT).
Implicit Types (s : ChainScheduler (ExtraT := ExtraT)) (a : objects (DataT := Task (ExtraT := ExtraT))).

Definition good (ord : list TaskId) s : Prop := exists a, inv none a ord s /\ to_start_ s = [].

(** What an operation on the task [t], after which the tasks [ord] are left, does to the others. *)
Record step (t : TaskId) (ord : list TaskId) s s' : Prop := {
  st_extra x : x ∈ ord -> x <> t -> get_task_extra x s' = get_task_extra x s;
  st_state x : x ∈ ord -> x <> t -> state_of x s' = state_of x s \/ (state_of x s = Some Pending /\ state_of x s' = Some Active);
  st_queue : exists new, queue s' = queue s ++ new /\
    forall x, x ∈ new <-> x ∈ ord /\ state_of x s' = Some Active /\ (x = t \/ state_of x s = Some Pending);
  st_gens g : 1 <= g -> generations_at_most g s -> generations_at_most (g + 1) s';
}.

Lemma good_new : good [] new_scheduler.
Proof. exists no_objects. split; [apply inv_new | done]. Qed.

Lemma extra_live X a ord s t : inv X a ord s -> is_Some (live a !! t) -> get_task_extra t s = extra <$> live a !! t.
Proof. intros Hi [task Ht]. unfold get_task_extra. by rewrite (get_live _ _ _ _ (iv_rep _ _ _ _ Hi) Ht), Ht. Qed.

Lemma good_nodup ord s : good ord s -> NoDup ord.
Proof. intros (a & Hi & _). apply Hi. Qed.

Lemma good_task ord s t : good ord s -> t ∈ ord -> exists e st, get_task_extra t s = Some e /\ state_of t s = Some st.
Proof.
  intros (a & Hi & _) Ht. apply (iv_dom _ _ _ _ Hi) in Ht as [task Ht]. exists (extra task), (state task).
  rewrite (extra_live none a ord s t Hi) by eauto. destruct (live_view none a ord s t Hi) as [-> _]; [eauto|]. unfold task_state. by rewrite Ht.
Qed.

Lemma good_queue ord s : good ord s -> NoDup (queue s) /\ forall t, t ∈ queue s -> t ∈ ord /\ state_of t s = Some Active.
Proof.
  intros (a & Hi & _). destruct (iv_queue _ _ _ _ Hi) as [_ _ Q3 Q4]. split; [done|]. intros t Ht. apply Q4 in Ht. split; [|by apply (state_live none a ord)].
  apply (iv_dom _ _ _ _ Hi). unfold task_state in Ht. destruct (live a !! t); [eauto | done].
Qed.

Lemma good_length ord s : good ord s -> (length ord <= length (slots_ (tasks_ s)))%nat.
Proof.
  intros (a & Hi & _). pose proof (rep_count _ _ (iv_rep _ _ _ _ Hi)). rewrite <- (size_list_to_set (C := gset TaskId) ord) by apply Hi.
  assert (list_to_set (C := gset TaskId) ord = dom (live a)) as ->.
  { apply set_eq. intros t. by rewrite elem_of_list_to_set, elem_of_dom, (iv_dom _ _ _ _ Hi). }
  rewrite size_dom. lia.
Qed.

Lemma moved_step t a ord1 s a' ord s' : inv none a ord1 s -> inv none a' ord s' -> (forall x, x ∈ ord -> x <> t -> x ∈ ord1) -> moved t a s a' s' ->
  step t ord s s'.
Proof.
  intros Hi Hi' Hsub [M1 M2 M3 M4].
  assert (forall x, x ∈ ord -> is_Some (live a' !! x)) as Hl' by (intros x Hx; by apply (iv_dom _ _ _ _ Hi')).
  assert (forall x, x ∈ ord -> x <> t -> is_Some (live a !! x)) as Hl by (intros x Hx Hne; apply (iv_dom _ _ _ _ Hi); auto).
  assert (forall x, x ∈ ord -> state_of x s' = task_state (live a') x) as Hs' by (intros x Hx; by apply (live_view none a' ord s' x Hi'), Hl').
  assert (forall x, x ∈ ord -> x <> t -> state_of x s = task_state (live a) x) as Hs by (intros x Hx Hne; by apply (live_view none a ord1 s x Hi), Hl).
  constructor; [..|done].
  - intros x Hx Hne. rewrite (extra_live none a' ord s'), (extra_live none a ord1 s) by auto. auto.
  - intros x Hx Hne. rewrite Hs', Hs by done. auto.
  - destruct M3 as (new & Hq & Hnew). exists new. split; [done|]. intros x. rewrite Hnew. split.
    + intros [Ha Hor]. assert (x ∈ ord) as Hx by (apply (iv_dom _ _ _ _ Hi'); unfold task_state in Ha; destruct (live a' !! x); [eauto | done]).
      rewrite Hs' by done. split_and!; [done | done|]. destruct (decide (x = t)); [by left|]. right. rewrite Hs by done. naive_solver.
    + intros (Hx & Ha & Hor). rewrite Hs' in Ha by done. split; [done|]. destruct (decide (x = t)); [by left|]. right. rewrite <- Hs by done. naive_solver.
Qed.

Lemma generations_room g s : generations_at_most g s -> g < 2 ^ 64 - 1 -> generations_left s.
Proof. intros H Hg c ci Hc. specialize (H c ci Hc). lia. Qed.

Lemma create_client ord s cs e : good ord s -> NoDup cs -> 0 ∉ cs -> Z.of_nat (length (slots_ (tasks_ s))) < 2 ^ 31 - 1 ->
  exists t s', create_task ExtraT0 cs e s = Ok (t, s') /\ t ∉ ord /\ good (ord ++ [t]) s' /\ step t (ord ++ [t]) s s' /\ get_task_extra t s' = Some e /\
    (state_of t s' = Some Pending \/ state_of t s' = Some Active).
Proof.
  intros (a & Hi & Hl) Hnd H0 Hroom. destruct (create_task_ok ExtraT0 a ord s cs e Hi Hl Hnd H0 Hroom) as (t & s' & a' & -> & Ht & [Hi' Hl' _] & _ & He & Hst & Hm).
  exists t, s'. split_and!; [done | done | by exists a' | | done |].
  - apply (moved_step t a ord s a'); [done | done | | done]. intros x [Hx | Hx%list_elem_of_singleton]%elem_of_app Hne; done.
  - destruct (live_view none a' (ord ++ [t]) s' t Hi') as [-> _]; [|done]. apply (iv_dom _ _ _ _ Hi'), elem_of_app. right. by left.
Qed.

Lemma pause_client ord s t g : good ord s -> t ∈ ord -> t ∉ queue s -> 1 <= g < 2 ^ 64 - 1 -> generations_at_most g s ->
  exists s', pause_task t s = Ok s' /\ good ord s' /\ step t ord s s' /\ get_task_extra t s' = get_task_extra t s /\ state_of t s' = Some Paused /\
    (state_of t s = Some Pending -> queue s' = queue s).
Proof.
  intros (a & Hi & Hl) Ht Hq Hg Hgen. pose proof Ht as Hlive. rewrite (iv_dom _ _ _ _ Hi) in Hlive.
  destruct (pause_task_ok a ord s t Hi Hl Ht Hq) as (s' & a' & -> & [Hi' Hl' _] & Hs & _ & Hm & He & Hquiet); [apply (generations_room g); [done | lia]|].
  assert (is_Some (live a' !! t)) as Hlive' by (by apply (iv_dom _ _ _ _ Hi')).
  exists s'. split_and!; [done | by exists a' | by apply (moved_step t a ord s a') | by rewrite (extra_live none a' ord s'), (extra_live none a ord s) | by apply (state_live none a' ord) |].
  intros Hp. apply Hquiet. by destruct (live_view none a ord s t Hi Hlive) as [<- _].
Qed.

Lemma reset_client ord s t g : good ord s -> t ∈ ord -> t ∉ queue s -> 1 <= g < 2 ^ 64 - 1 -> generations_at_most g s ->
  exists s', reset_task t s = Ok s' /\ good ord s' /\ step t ord s s' /\ get_task_extra t s' = get_task_extra t s /\
    (state_of t s' = Some Pending \/ state_of t s' = Some Active).
Proof.
  intros (a & Hi & Hl) Ht Hq Hg Hgen. pose proof Ht as Hlive. rewrite (iv_dom _ _ _ _ Hi) in Hlive.
  destruct (reset_task_ok a ord s t Hi Hl Ht Hq) as (s' & a' & -> & [Hi' Hl' _] & _ & Hm & Hs & He); [apply (generations_room g); [done | lia]|].
  assert (is_Some (live a' !! t)) as Hlive' by (by apply (iv_dom _ _ _ _ Hi')).
  exists s'. split_and!; [done | by exists a' | by apply (moved_step t a ord s a') | by rewrite (extra_live none a' ord s'), (extra_live none a ord s) |].
  by destruct (live_view none a' ord s' t Hi' Hlive') as [-> _].
Qed.

Lemma finish_client ord s t : good ord s -> t ∈ ord -> t ∉ queue s ->
  exists s', finish_task ExtraT0 t s = Ok s' /\ good (filter (fun x => x <> t) ord) s' /\ step t (filter (fun x => x <> t) ord) s s'.
Proof.
  intros (a & Hi & Hl) Ht Hq. destruct (finish_task_ok ExtraT0 a ord s t Hi Hl Ht Hq) as (s' & a' & -> & [Hi' Hl' _] & _ & _ & _ & _ & Hm).
  exists s'. split_and!; [done | by exists a' |]. apply (moved_step t a ord s a'); [done | done | | done]. intros x [_ ?]%list_elem_of_filter. done.
Qed.

(** Handing out the next task. *)
Lemma next_client_none ord s : good ord s -> queue s = [] -> start_next_task s = Ok (None, s).
Proof. intros (a & Hi & _). by apply (start_next_none a ord). Qed.

(** The element of a list right before [t]. *)
Fixpoint right_before (t : TaskId) (l : list TaskId) : option TaskId :=
  match l with
  | x :: ((y :: _) as rest) => if y =? t then Some x else right_before t rest
  | _ => None
  end.

Lemma right_before_prev t k (l : list Node) : NoDup (map fst l) -> (t, k) ∈ l -> fst <$> prev_of (t, k) l = right_before t (map fst l).
Proof.
  induction l as [|n l IH]; intros Hnd Hin; [done|]. destruct l as [|m l]; [done|]. cbn [map] in *. apply NoDup_cons in Hnd as [Hn Hnd]. change (prev_of (t, k) (n :: m :: l)) with (if decide (m = (t, k)) then Some n else prev_of (t, k) (m :: l)).
  change (right_before t (n.1 :: m.1 :: map fst l)) with (if m.1 =? t then Some n.1 else right_before t (m.1 :: map fst l)).
  destruct (decide (m = (t, k))) as [->|Hm]; [cbn; by rewrite Z.eqb_refl|]. apply elem_of_cons in Hin as [<-|Hin].
  - rewrite prev_of_out; [|intros H; apply Hn; change (m.1 :: map fst l) with (map fst (m :: l)); apply list_elem_of_fmap; by exists (t, k)]. cbn in Hn. rewrite (proj2 (Z.eqb_neq _ _)) by (intros E; apply Hn; rewrite E; by left).
    clear IH Hnd. cbn [fmap option_fmap option_map]. symmetry. assert (t ∉ m.1 :: map fst l) as Hout by done. clear Hm Hn. revert m Hout. induction l as [|z l IH]; intros m Hout; [done|].
    cbn. rewrite (proj2 (Z.eqb_neq _ _)) by (intros E; apply Hout; cbn; rewrite E; right; by left). apply (IH z). intros H. apply Hout. by right.
  - rewrite (proj2 (Z.eqb_neq _ _)); [by apply IH|]. intros E. apply Hm. apply elem_of_cons in Hin as [->|Hin]; [done|].
    apply NoDup_cons in Hnd as [Hnm _]. destruct Hnm. rewrite E. apply list_elem_of_fmap. by exists (t, k).
Qed.

Lemma right_before_in t l x : right_before t l = Some x -> x ∈ l.
Proof.
  induction l as [|y l IH]; [done|]. destruct l as [|z l]; [done|]. change (right_before t (y :: z :: l)) with (if z =? t then Some y else right_before t (z :: l)).
  case_if; [intros [= ->]; by left | intros H; right; by apply IH].
Qed.

Lemma tasks_in_ord ord s c x : good ord s -> x ∈ tasks_in c s -> x ∈ ord.
Proof.
  intros (a & Hi & _) Hx. rewrite (tasks_in_order a ord) in Hx by done. by apply list_elem_of_filter in Hx as [_ ?].
Qed.

Definition parent_tasks (t : TaskId) s : list TaskId := omap (fun c => right_before t (tasks_in c s)) (default [] (chains_of t s)).

Lemma next_client ord s t q : good ord s -> queue s = t :: q ->
  exists s', start_next_task s = Ok (Some {| task_id := t; parents := parent_tasks t s |}, s') /\ good ord s' /\ queue s' = q /\ chains_ s' = chains_ s /\ tasks_ s' = tasks_ s /\ forall p, p ∈ parent_tasks t s -> p ∈ ord.
Proof.
  intros (a & Hi & Hl) Hq. destruct (start_next_some a ord s t q Hi Hq) as (task & vq & Ht & _ & Heq & Hi' & Hc).
  assert (chains_of t s = Some (map chain_id (chains task))) as Hcs by (unfold chains_of; by rewrite (get_live _ _ _ _ (iv_rep _ _ _ _ Hi) Ht)).
  assert (parents_of t (nodes_of task) s = parent_tasks t s) as Hps.
  { assert (forall l, (forall kc, kc ∈ l -> kc ∈ nodes_of task) -> parents_of t l s = omap (fun c => right_before t (tasks_in c s)) (map snd l)) as Hall.
    { induction l as [|[k c] l IH]; intros Hall; [done|]. destruct (task_chain _ _ _ _ _ _ _ _ Hi Ht (Hall (k, c) ltac:(by left))) as (ci & Hci & Hw & Hn).
      assert (fst <$> (chains_ s !! c ≫= fun ci => prev_of (t, k) (chain ci)) = right_before t (tasks_in c s)) as He.
      { unfold tasks_in. rewrite Hci. cbn [mbind option_bind]. apply right_before_prev; [by apply (chain_nodup (live a) ord c); [apply Hi|] | done]. }
      unfold parents_of in *. cbn [omap list_omap map fst snd]. rewrite He, IH by (intros kc Hkc; apply Hall; by right). done. }
    unfold parent_tasks. rewrite (Hall (nodes_of task)), Hcs by done. unfold nodes_of. by rewrite imap_snd. }
  rewrite Hps in Heq. eexists. split; [exact Heq|]. split_and!; [by exists a | done | done | done |].
  intros p (c & _ & Hp)%list_elem_of_omap. apply right_before_in in Hp. unfold tasks_in in Hp. destruct (chains_ s !! c) as [ci|] eqn:Hci; [|by apply elem_of_nil in Hp].
  eapply elem_of_submseteq; [exact Hp|]. apply sublist_submseteq, (cw_order _ _ _ _ (iv_chain _ _ _ _ Hi _ _ Hci)).
Qed.

(** Writing the extra data of a task. *)
Lemma inv_extra a ord s t task e c : inv none a ord s -> live a !! t = Some task -> rep c (with_task t (set_extra e task) a) ->
  inv none (with_task t (set_extra e task) a) ord (with_tasks c s).
Proof.
  intros Hi Ht Hr. set (T' := live (with_task t (set_extra e task) a)).
  assert (forall x, shape T' x = shape (live a) x) as Hsh.
  { intros x. unfold shape, T'. cbn. destruct (decide (x = t)) as [->|]; [by rewrite lookup_insert_eq, Ht | by rewrite lookup_insert_ne]. }
  assert (forall n, node_gen T' n = node_gen (live a) n) as Hg.
  { intros n. unfold node_gen, T'. cbn. destruct (decide (n.1 = t)) as [->|]; [by rewrite lookup_insert_eq, Ht | by rewrite lookup_insert_ne]. }
  assert (forall x, task_state T' x = task_state (live a) x) as Hs.
  { intros x. unfold task_state, T'. cbn. destruct (decide (x = t)) as [->|]; [by rewrite lookup_insert_eq, Ht | by rewrite lookup_insert_ne]. }
  assert (forall ci n, candidate T' ci n <-> candidate (live a) ci n) as Hcand by (intros ci n; symmetry; by apply candidate_ext).
  destruct Hi as [I1 I2 I3 I4 I5 I6 I7 I8 I9 I10]. constructor; cbn [with_tasks tasks_ chains_ limited_tasks_ pending_tasks_]; try done.
  - intros x. rewrite I3. unfold T' in *. cbn. destruct (decide (x = t)) as [->|]; [rewrite lookup_insert_eq, Ht; split; intros; by eexists | by rewrite lookup_insert_ne].
  - intros x task'. cbn. destruct (decide (x = t)) as [->|]; [rewrite lookup_insert_eq; intros [= <-]; cbn; by apply (I4 t task) | rewrite lookup_insert_ne by done; apply I4].
  - intros c0 ci Hc0. apply (chain_wf_ext (live a)); [intros; by rewrite Hg, Hs | intros; by apply in_chain_same | by apply I5].
  - intros c0 n Hn. apply (I6 c0 n). by rewrite <- (in_chain_same (live a) T') by done.
  - intros c0 x Hx. destruct (I7 c0 x Hx) as (ci & k & H1 & H2 & H3 & H4 & H5). exists ci, k. fold T'. by rewrite Hs, Hcand.
  - destruct I8 as [Q1 Q2 Q3 Q4]. constructor; try done. intros x Hx. fold T'. rewrite Hs. by apply Q4.
  - intros c0 ci l1 n l2 q1 q2 Hc0 Hl Hcur. apply (I9 c0 ci l1 n l2 q1 q2 Hc0 Hl). unfold current in *. by rewrite <- Hg.
  - intros x. fold T'. rewrite Hs. intros Hx HX. destruct (I10 x Hx HX) as (c0 & ci & k & H1 & H2 & H3). exists c0, ci, k. by rewrite Hcand.
Qed.

Lemma extra_client ord s t e : good ord s -> t ∈ ord ->
  exists s', update_task t (set_extra e) s = Ok s' /\ good ord s' /\ get_task_extra t s' = Some e /\ (forall x, x ∈ ord -> state_of x s' = state_of x s /\ chains_of x s' = chains_of x s) /\
    (forall x, x ∈ ord -> x <> t -> get_task_extra x s' = get_task_extra x s) /\ queue s' = queue s /\ chains_ s' = chains_ s /\ length (slots_ (tasks_ s')) = length (slots_ (tasks_ s)).
Proof.
  intros (a & Hi & Hl) Hin. apply (iv_dom _ _ _ _ Hi) in Hin as [task Ht].
  destruct (update_task_spec s a t task (set_extra e) (iv_rep _ _ _ _ Hi) Ht) as (c & Heq & Hr). exists (with_tasks c s). split; [done|].
  pose proof (inv_extra a ord s t task e c Hi Ht Hr) as Hi'. set (a' := with_task t (set_extra e task) a) in *.
  assert (forall x, x ∈ ord -> is_Some (live a !! x)) as Hdom by (intros x; apply Hi). assert (forall x, x ∈ ord -> is_Some (live a' !! x)) as Hdom' by (intros x; apply Hi').
  split_and!.
  - by exists a'.
  - rewrite (extra_live none a' ord) by (done || (cbn; rewrite lookup_insert_eq; eauto)). cbn. by rewrite lookup_insert_eq.
  - intros x Hx. destruct (live_view none a' ord _ x Hi' (Hdom' x Hx)) as [-> ->], (live_view none a ord s x Hi (Hdom x Hx)) as [-> ->]. unfold task_state, shape, a'. cbn.
    destruct (decide (x = t)) as [->|]; [by rewrite lookup_insert_eq, Ht | by rewrite lookup_insert_ne].
  - intros x Hx Hne. rewrite (extra_live none a' ord), (extra_live none a ord s) by auto. unfold a'. cbn. by rewrite lookup_insert_ne.
  - done.
  - done.
  - unfold update_task, update in Heq. apply bind_Ok in Heq as (c' & Hc & [= Heq]). cbn. subst c'. repeat case_match; try done. injection Hc as <-. cbn. by rewrite length_insert.
Qed.

(** The dependents of a task. *)
Lemma from_node_suffix n (l : list Node) : from_node n l `suffix_of` map fst l.
Proof.
  induction l as [|m l IH]; [done|]. cbn [from_node]. destruct (decide (m = n)); [done|]. cbn. by apply suffix_cons_r.
Qed.

Lemma dependent_tasks_all V l : (dependent_tasks false V l).1 = l.
Proof.
  revert V. induction l as [|x l IH]; intros V; [done|]. cbn. destruct (dependent_tasks false ({[x]} ∪ V) l) as [r V'] eqn:E. cbn. f_equal.
  by rewrite <- (IH ({[x]} ∪ V)), E.
Qed.

Lemma dependent_tasks_new V l r V' : dependent_tasks true V l = (r, V') -> NoDup r /\ (forall x, x ∈ r -> x ∈ l /\ x ∉ V) /\ (forall x, x ∈ V' <-> x ∈ r \/ x ∈ V).
Proof.
  revert V r V'. induction l as [|x l IH]; intros V r V'; cbn.
  - intros [= <- <-]. split_and!; [constructor | by intros x ?%elem_of_nil | intros x; split; [by right | by intros [?%elem_of_nil|]]].
  - case_bool_decide as Hx.
    + intros E. destruct (IH _ _ _ E) as (H1 & H2 & H3). split_and!; [done | | done]. intros y Hy. destruct (H2 y Hy). split; [by right | done].
    + destruct (dependent_tasks true ({[x]} ∪ V) l) as [r1 V1] eqn:E. intros [= <- <-]. destruct (IH _ _ _ E) as (H1 & H2 & H3). split_and!.
      * constructor; [|done]. intros Hin. destruct (H2 x Hin) as [_ Hn]. apply Hn. apply elem_of_union. left. by apply elem_of_singleton.
      * intros y [->|Hy]%elem_of_cons; [split; [by left | done]|]. destruct (H2 y Hy) as [H4 H5]. split; [by right|]. intros H. apply H5, elem_of_union. by right.
      * intros y. rewrite H3, elem_of_cons, elem_of_union, elem_of_singleton. tauto.
Qed.

Lemma dependents_spec a ord s t task l V : inv none a ord s -> live a !! t = Some task -> (forall x, x ∈ l -> x ∈ nodes_of task) ->
  exists r, dependents t true V l s = Ok r /\ NoDup r /\ forall x, x ∈ r -> x ∈ ord /\ x ∉ V.
Proof.
  intros Hi Ht. revert V. induction l as [|[k c] l IH]; intros V Hl; [exists []; split_and!; [done | constructor | by intros x ?%elem_of_nil]|].
  cbn [dependents]. destruct (deref_live _ _ _ _ _ _ k c Hi Ht) as (ci & -> & Hc & Hw & Hk); [apply Hl; by left|]. cbn [res_bind].
  destruct (dependent_tasks true V (from_node (t, k) (chain ci))) as [found V'] eqn:E. destruct (dependent_tasks_new _ _ _ _ E) as (H1 & H2 & H3).
  destruct (IH V' ltac:(intros x Hx; apply Hl; by right)) as (rest & -> & Hnd & Hrest). cbn [res_bind]. eexists. split; [done|]. split.
  - apply NoDup_app. split_and!; [done | | done]. intros x Hx Hx'. destruct (Hrest x Hx') as [_ Hn]. apply Hn, H3. by left.
  - intros x [Hx|Hx]%elem_of_app.
    + destruct (H2 x Hx) as [H4 H5]. split; [|done]. destruct (from_node_suffix (t, k) (chain ci)) as [pre Hpre].
      eapply elem_of_submseteq; [|apply sublist_submseteq, (cw_order _ _ _ _ Hw)]. rewrite Hpre. apply elem_of_app. by right.
    + destruct (Hrest x Hx) as [H4 H5]. split; [done|]. intros H. apply H5, H3. by right.
Qed.

Lemma dependents_client ord s t : good ord s -> t ∈ ord -> exists l, for_each_dependent t s = Ok l /\ NoDup l /\ forall x, x ∈ l -> x ∈ ord.
Proof.
  intros (a & Hi & _) Hin. apply (iv_dom _ _ _ _ Hi) in Hin as [task Ht]. unfold for_each_dependent. rewrite (get_task_live _ _ _ _ _ _ Hi Ht). cbn [res_bind].
  destruct (Nat.ltb 1 (length (chains task))) eqn:E.
  - destruct (dependents_spec a ord s t task (nodes_of task) ∅ Hi Ht ltac:(done)) as (r & -> & Hnd & Hr). exists r. split_and!; [done | done | intros x Hx; by apply Hr].
  - apply Nat.ltb_ge in E. assert (forall kc, kc ∈ nodes_of task -> kc ∈ nodes_of task) as Hall by done. revert Hall. unfold nodes_of at 1 3.
    destruct (chains task) as [|i [|]]; [|cbn|cbn in E; lia].
    + intros _. exists []. split_and!; [done | constructor | by intros x ?%elem_of_nil].
    + intros Hall. destruct (deref_live _ _ _ _ _ _ 0%nat (chain_id i) Hi Ht) as (ci & -> & Hc & Hw & Hk); [apply Hall; by left|]. cbn [res_bind].
      pose proof (dependent_tasks_all ∅ (from_node (t, 0%nat) (chain ci))) as Heq. destruct (dependent_tasks false ∅ _) as [found V']. cbn in Heq |- *. rewrite app_nil_r, Heq.
      destruct (from_node_suffix (t, 0%nat) (chain ci)) as [pre Hpre]. eexists. split; [done|]. split.
      * pose proof (chain_nodup (live a) ord _ ci (iv_nodup _ _ _ _ Hi) Hw) as Hnd. rewrite Hpre in Hnd. by apply NoDup_app in Hnd as (_ & _ & ?).
      * intros x Hx. eapply elem_of_submseteq; [|apply sublist_submseteq, (cw_order _ _ _ _ Hw)]. rewrite Hpre. apply elem_of_app. by right.
Qed.

(** If there are tasks, not all of them are pending. *)
Lemma not_all_pending ord s : good ord s -> ord <> [] -> exists t, t ∈ ord /\ state_of t s <> Some Pending.
Proof.
  intros (a & Hi & Hl) Hne. destruct ord as [|t ord]; [done|]. destruct (decide (state_of t s = Some Pending)) as [Hp|]; [|exists t; split; [by left | done]].
  assert (is_Some (live a !! t)) as Hlive by (apply Hi; by left). destruct (live_view none a _ s t Hi Hlive) as [Hs _]. rewrite Hs in Hp.
  destruct (pending_reason a _ s t Hi Hp) as (c & Hc & [Hfull | (l1 & u & l2 & Heq & _)]).
  - destruct (active_count a _ s c Hi) as [Hcount _]. rewrite Hcount in Hfull. destruct (filter (fun t => state_of t s = Some Active) (tasks_in c s)) as [|x l] eqn:E; [cbn in Hfull; lia|].
    assert (x ∈ filter (fun t => state_of t s = Some Active) (tasks_in c s)) as Hx by (rewrite E; by left). apply list_elem_of_filter in Hx as [Hx Hin].
    exists x. split; [|congruence]. rewrite (tasks_in_order a (t :: ord)) in Hin by done. by apply list_elem_of_filter in Hin as [_ ?].
  - exfalso. pose proof (iv_nodup _ _ _ _ Hi) as Hnd. rewrite (tasks_in_order a (t :: ord)) in Hc, Heq by done. apply list_elem_of_filter in Hc as [Hc _].
    pose proof (NoDup_filter (in_chain_of c s) _ Hnd) as Hnd'. rewrite filter_cons_True in Heq, Hnd' by done. rewrite Heq in Hnd'. apply NoDup_app in Hnd' as (_ & Hdis & Hnd').
    destruct l1 as [|y l1]; injection Heq as <- Heq.
    + apply NoDup_cons in Hnd' as [H _]. apply H. by left.
    + apply (Hdis t); [by left | right; by left].
Qed.

End client.
