(* ===== verification/SequenceDispatcher.v ===== *)
(** * The dispatcher of queries that depend on each other

    [MultiSequenceDispatcherImpl] (td/telegram/SequenceDispatcher.cpp), the client of
    [ChainScheduler] through which queries to the server go, and the part of [NetQuery]
    (td/telegram/net/NetQuery.h, NetQuery.cpp) that it uses.

    The dispatcher is an actor: it handles one message at a time, and its own messages are
    collected in [sent].  An [OwnerPtr] of a query is the query or [None], a [WeakPtr] is the
    place of the query in its pool.  Additions to the timeouts have the wrap-around of 32 bits
    written out.

    A query is in one place at a time: held by the dispatcher, given to the network, or given
    to its callback, which answers with a query to send or without one. *)
From stdpp Require Import pretty sorting.
From S2P Require Import Prelude SeqProcessors Container ChainScheduler ChainTasks ChainRuns.
Local Open Scope td_scope.
#[local] Arguments u32 : simpl never.
#[local] Arguments u64 : simpl never.

(** ** NetQuery *)
Inductive QueryState := QEmpty | QQuery | QOk | QError.
Abbreviation NetQueryRef := (option Z).
Abbreviation Callback := (option Z).

Record NetQuery := {
  storage_ : Z;
  state_ : QueryState;
  status_ : Z * string;
  tl_constructor_ : Z;
  chain_ids_ : list ChainId;
  invoke_after_ : list NetQueryRef;
  in_sequence_dispatcher_ : bool;
  callback_ : Callback;
  total_timeout_ : Z;
  total_timeout_limit_ : Z;
  last_timeout_ : Z;
}.

Definition get_weak (q : NetQuery) : NetQueryRef := Some (storage_ q).
Definition is_ready (q : NetQuery) : bool := match state_ q with QQuery => false | _ => true end.
Definition is_error (q : NetQuery) : bool := match state_ q with QError => true | _ => false end.

Definition with_state (st : QueryState) (status : Z * string) (q : NetQuery) : NetQuery :=
  {| storage_ := storage_ q; state_ := st; status_ := status; tl_constructor_ := tl_constructor_ q; chain_ids_ := chain_ids_ q; invoke_after_ := invoke_after_ q;
     in_sequence_dispatcher_ := in_sequence_dispatcher_ q; callback_ := callback_ q;
     total_timeout_ := total_timeout_ q; total_timeout_limit_ := total_timeout_limit_ q; last_timeout_ := last_timeout_ q |}.
Definition with_timeouts (total last : Z) (q : NetQuery) : NetQuery :=
  {| storage_ := storage_ q; state_ := state_ q; status_ := status_ q; tl_constructor_ := tl_constructor_ q; chain_ids_ := chain_ids_ q; invoke_after_ := invoke_after_ q;
     in_sequence_dispatcher_ := in_sequence_dispatcher_ q; callback_ := callback_ q;
     total_timeout_ := total; total_timeout_limit_ := total_timeout_limit_ q; last_timeout_ := last |}.
Definition with_delivery (after : list NetQueryRef) (in_sequence : bool) (callback : Callback) (q : NetQuery) : NetQuery :=
  {| storage_ := storage_ q; state_ := state_ q; status_ := status_ q; tl_constructor_ := tl_constructor_ q; chain_ids_ := chain_ids_ q; invoke_after_ := after;
     in_sequence_dispatcher_ := in_sequence; callback_ := callback;
     total_timeout_ := total_timeout_ q; total_timeout_limit_ := total_timeout_limit_ q; last_timeout_ := last_timeout_ q |}.

Definition Resend : Z := 202.
Definition Canceled : Z := 203.
Definition ResendInvokeAfter : Z := 204.

Definition resend (q : NetQuery) : NetQuery := with_state QQuery (0, "") q.
Definition set_error_impl (status : Z * string) (q : NetQuery) : NetQuery := with_state QError status q.

(** [StringBuilder << status] *)
Definition print_status (status : Z * string) : string := "[Error : " +:+ pretty status.1 +:+ " : " +:+ status.2 +:+ "]".
Definition set_error (status : Z * string) (q : NetQuery) : NetQuery :=
  if (status.1 =? Resend) || (status.1 =? Canceled) || (status.1 =? ResendInvokeAfter) then set_error_impl (200, print_status status) q
  else
    let status := if bool_decide (status.2 = "MSG_WAIT_FAILED") && negb (status.1 =? 400) then (400, "MSG_WAIT_FAILED") else status in
    set_error_impl status q.

Definition set_invoke_after (refs : list NetQueryRef) (q : NetQuery) : NetQuery := with_delivery refs (in_sequence_dispatcher_ q) (callback_ q) q.
Definition set_in_sequence_dispatcher (b : bool) (q : NetQuery) : NetQuery := with_delivery (invoke_after_ q) b (callback_ q) q.
Definition move_callback (q : NetQuery) : Callback * NetQuery := (callback_ q, with_delivery (invoke_after_ q) (in_sequence_dispatcher_ q) None q).

(** [td::unique]: sorted, without repetitions. *)
Fixpoint without_repeats (l : list Z) : list Z :=
  match l with
  | x :: ((y :: _) as rest) => if x =? y then without_repeats rest else x :: without_repeats rest
  | _ => l
  end.
Definition unique (l : list Z) : list Z := without_repeats (merge_sort Z.le l).

(** The constructor of [NetQuery], as far as the chains are concerned. *)
Definition make_chain_ids (chain_ids : list Z) : list ChainId := unique (map (fun c => if c =? 0 then 1 else c) chain_ids).
Definition new_net_query (storage tl_constructor total_timeout_limit : Z) (chain_ids : list Z) : NetQuery :=
  {| storage_ := storage; state_ := QQuery; status_ := (0, ""); tl_constructor_ := tl_constructor; chain_ids_ := make_chain_ids chain_ids; invoke_after_ := [];
     in_sequence_dispatcher_ := false; callback_ := None; total_timeout_ := 0; total_timeout_limit_ := total_timeout_limit; last_timeout_ := 0 |}.

(** ** MultiSequenceDispatcherImpl *)
Module MultiSequenceDispatcher.

Record Node := {
  net_query_ref : NetQueryRef;
  net_query : option NetQuery;
  total_timeout : Z;
  last_timeout : Z;
  callback : Callback;
}.
Definition new_node : Node := {| net_query_ref := None; net_query := None; total_timeout := 0; last_timeout := 0; callback := None |}.

Definition set_query (q : option NetQuery) (n : Node) : Node :=
  {| net_query_ref := net_query_ref n; net_query := q; total_timeout := total_timeout n; last_timeout := last_timeout n; callback := callback n |}.
Definition set_ref (r : NetQueryRef) (n : Node) : Node :=
  {| net_query_ref := r; net_query := net_query n; total_timeout := total_timeout n; last_timeout := last_timeout n; callback := callback n |}.
Definition set_timeouts (total last : Z) (n : Node) : Node :=
  {| net_query_ref := net_query_ref n; net_query := net_query n; total_timeout := total; last_timeout := last; callback := callback n |}.

(** The messages of the actor: a query for the network, whose answer comes to [on_result] with
    the task; a final answer for [Td::on_result]; and a query for its callback, whose
    decision comes to [on_resend] with the task. *)
Inductive message :=
| ToNetwork (t : TaskId) (q : NetQuery)
| ToTd (q : option NetQuery)
| ToCallback (t : TaskId) (to : Z) (q : option NetQuery).

Record Dispatcher := { scheduler_ : ChainScheduler (ExtraT := Node); sent : list message }.
Definition new_dispatcher : Dispatcher := {| scheduler_ := new_scheduler; sent := [] |}.

Definition with_scheduler (s : ChainScheduler) (d : Dispatcher) : Dispatcher := {| scheduler_ := s; sent := sent d |}.
Definition post (m : message) (d : Dispatcher) : Dispatcher := {| scheduler_ := scheduler_ d; sent := sent d ++ [m] |}.

(** [*scheduler_.get_task_extra(task_id)], read and written. *)
Definition node_of (t : TaskId) (d : Dispatcher) : Res Node :=
  match get_task_extra t (scheduler_ d) with Some n => Ok n | None => Panic "*get_task_extra" end.
Definition set_node (t : TaskId) (n : Node) (d : Dispatcher) : Res Dispatcher :=
  let* s := update_task t (set_extra n) (scheduler_ d) in Ok (with_scheduler s d).

(** The loop over [task.parents]. *)
Fixpoint parent_refs (ps : list TaskId) (d : Dispatcher) : Res (list NetQueryRef) :=
  match ps with
  | [] => Ok []
  | p :: ps =>
      let* n := node_of p d in
      CHECK! bool_decide (is_Some (net_query_ref n)) else "!parent_node.net_query_ref.empty()" in
      let* refs := parent_refs ps d in
      Ok (net_query_ref n :: refs)
  end.

(** The queue is as long as the number of turns. *)
Fixpoint flush_loop (fuel : nat) (d : Dispatcher) : Res Dispatcher :=
  match fuel with
  | O => Panic "fuel"
  | S fuel =>
      let* (o_task, s) := start_next_task (scheduler_ d) in
      let d := with_scheduler s d in
      match o_task with
      | None => Ok d
      | Some task =>
          let* n := node_of (task_id task) d in
          match net_query n with
          | None => Panic "!node.net_query.empty()"
          | Some q =>
              let* d := set_node (task_id task) (set_query None n) d in
              let* refs := parent_refs (parents task) d in
              let q := set_invoke_after refs q in
              let q := with_timeouts (total_timeout_ q) 0 q in
              flush_loop fuel (post (ToNetwork (task_id task) q) d)
          end
      end
  end.
Definition flush_pending_queries (d : Dispatcher) : Res Dispatcher :=
  flush_loop (S (length (VectorQueue.contents (pending_tasks_ (scheduler_ d))))) d.
Definition loop (d : Dispatcher) : Res Dispatcher := flush_pending_queries d.

Definition send (q : NetQuery) (d : Dispatcher) : Res Dispatcher :=
  let (cb, q) := move_callback q in
  let chain_ids := chain_ids_ q in
  let q := set_in_sequence_dispatcher true q in
  CHECK! forallb (fun c => negb (c =? 0)) chain_ids else "chain_id != 0" in
  let n := {| net_query_ref := get_weak q; net_query := Some q; total_timeout := 0; last_timeout := 0; callback := cb |} in
  let* (_, s) := create_task new_node chain_ids n (scheduler_ d) in
  loop (with_scheduler s d).

Definition check_timeout (n : Node) : bool * Node :=
  match net_query n with
  | None => (false, n)
  | Some q =>
      if is_ready q then (false, n)
      else if 0 <? total_timeout n then
        let q := with_timeouts (s32 (total_timeout_ q + total_timeout n)) (last_timeout_ q) q in
        let n := set_timeouts 0 (last_timeout n) n in
        if total_timeout_limit_ q <? total_timeout_ q then
          (true, set_query (Some (set_error (429, "Too Many Requests: retry after " +:+ pretty (last_timeout n)) q)) n)
        else (false, set_query (Some q) n)
      else (false, n)
  end.

Definition try_resend (t : TaskId) (d : Dispatcher) : Res Dispatcher :=
  let* n := node_of t d in
  let* d := set_node t (set_query None n) d in
  match callback n with
  | None =>
      let* s := finish_task new_node t (scheduler_ d) in
      loop (post (ToTd (net_query n)) (with_scheduler s d))
  | Some to => Ok (post (ToCallback t to (net_query n)) d)
  end.

Definition do_resend (t : TaskId) (q : NetQuery) (d : Dispatcher) : Res Dispatcher :=
  let* n := node_of t d in
  let n := set_ref (get_weak q) (set_query (Some q) n) in
  let (expired, n) := check_timeout n in
  let* d := set_node t n d in
  if expired then
    let* s := pause_task t (scheduler_ d) in
    try_resend t (with_scheduler s d)
  else
    let* s := reset_task t (scheduler_ d) in
    Ok (with_scheduler s d).

(** The argument of [for_each_dependent] for one task after the other: the tasks to check.
    [constructor_of] is what the pool of queries says about a place. *)
Fixpoint add_timeouts (constructor_of : Z -> Z) (t : TaskId) (constructor timeout : Z) (l : list TaskId) (d : Dispatcher) : Res (list TaskId * Dispatcher) :=
  match l with
  | [] => Ok ([], d)
  | x :: l =>
      let* n := node_of x d in
      match net_query_ref n with
      | None => Panic "net_query_ref->tl_constructor()"
      | Some place =>
          if (constructor_of place =? constructor) && negb (x =? t) then
            let* d := set_node x (set_timeouts (s32 (total_timeout n + timeout)) timeout n) d in
            let* (rest, d) := add_timeouts constructor_of t constructor timeout l d in
            Ok (x :: rest, d)
          else add_timeouts constructor_of t constructor timeout l d
      end
  end.
Fixpoint check_timeouts (l : list TaskId) (d : Dispatcher) : Res Dispatcher :=
  match l with
  | [] => Ok d
  | x :: l =>
      let* n := node_of x d in
      let (expired, n) := check_timeout n in
      let* d := set_node x n d in
      if expired then
        let* s := pause_task x (scheduler_ d) in
        let* d := try_resend x (with_scheduler s d) in
        check_timeouts l d
      else check_timeouts l d
  end.

Definition must_resend (q : NetQuery) : bool :=
  is_error q && (((status_ q).1 =? ResendInvokeAfter) ||
    (((status_ q).1 =? 400) && (bool_decide ((status_ q).2 = "MSG_WAIT_FAILED") || bool_decide ((status_ q).2 = "MSG_WAIT_TIMEOUT")))).

Definition on_result (constructor_of : Z -> Z) (t : TaskId) (q : NetQuery) (d : Dispatcher) : Res Dispatcher :=
  let* _ := node_of t d in
  let* (q, d) :=
    if negb (last_timeout_ q =? 0) then
      let* dependents := for_each_dependent t (scheduler_ d) in
      let* (to_check, d) := add_timeouts constructor_of t (tl_constructor_ q) (last_timeout_ q) dependents d in
      let* d := check_timeouts to_check d in
      Ok (with_timeouts (total_timeout_ q) 0 q, d)
    else Ok (q, d) in
  if must_resend q then
    let* d := do_resend t (resend q) d in
    loop d
  else
    let* n := node_of t d in
    let* d := set_node t (set_query (Some q) n) d in
    try_resend t d.

Definition on_resend (t : TaskId) (r : option NetQuery) (d : Dispatcher) : Res Dispatcher :=
  let* _ := node_of t d in
  let* d :=
    match r with
    | None => let* s := finish_task new_node t (scheduler_ d) in Ok (with_scheduler s d)
    | Some q => do_resend t q d
    end in
  loop d.

(** [Global::request_aborted_error()]; the tasks are those of [for_each]. *)
Fixpoint abort_all (l : list TaskId) (d : Dispatcher) : Res Dispatcher :=
  match l with
  | [] => Ok d
  | t :: l =>
      let* n := node_of t d in
      let* d := set_node t (set_query (set_error (500, "Request aborted") <$> net_query n) n) d in
      abort_all l d
  end.
Definition tear_down (d : Dispatcher) : Res Dispatcher :=
  let* l := ids (tasks_ (scheduler_ d)) in abort_all l d.

End MultiSequenceDispatcher.
