(* ===== verification/SequenceRuns.v ===== *)
(** * The dispatcher of queries: its theorems

    Whatever answers and decisions arrive and in whatever order, a query of
    [MultiSequenceDispatcherImpl] is in exactly one place, no check fails, and no query is
    forgotten.  The proofs use [ChainScheduler] only through the contract of ChainClient. *)
From stdpp Require Import sorting.
From S2P Require Import Prelude SeqProcessors Container ChainScheduler ChainTasks ChainRuns ChainClient SequenceDispatcher.
Import MultiSequenceDispatcher.
Local Open Scope td_scope.
#[local] Arguments u32 : simpl never.
#[local] Arguments u64 : simpl never.
Abbreviation Scheduler := (ChainScheduler (ExtraT := Node)).

(** ** Where the queries are *)
Inductive place := AtNetwork | AtCallback.
Abbreviation places := (gmap TaskId place).

Definition deliver (W : places) (m : message) : places :=
  match m with
  | ToNetwork t _ => <[t := AtNetwork]> W
  | ToCallback t _ _ => <[t := AtCallback]> W
  | ToTd _ => W
  end.
Definition delivered (W : places) (ms : list message) : places := foldl deliver W ms.

(** No message comes without a query, and a query for the network names existing queries. *)
Definition message_ok (m : message) : Prop :=
  match m with
  | ToNetwork _ q => Forall is_Some (invoke_after_ q) /\ last_timeout_ q = 0
  | ToTd q | ToCallback _ _ q => is_Some q
  end.
Definition answers (ms : list message) : nat := length (omap (fun m => match m with ToTd q => Some q | _ => None end) ms).

(** Where the query of a task is, if the handler that runs has the queries of [H] in hand. *)
Definition placed (H : gset TaskId) (W : places) (s : Scheduler) (x : TaskId) (n : Node) (st : State) : Prop :=
  if decide (x ∈ H) then W !! x = None /\ x ∉ queue s /\ st <> Pending
  else
    match W !! x with
    | None => is_Some (net_query n) /\ (st = Pending \/ x ∈ queue s)
    | Some AtNetwork => net_query n = None /\ st = Active /\ x ∉ queue s
    | Some AtCallback => net_query n = None /\ st <> Pending /\ x ∉ queue s
    end.

Definition task_ok (H : gset TaskId) (W : places) (s : Scheduler) (x : TaskId) : Prop :=
  exists n st, get_task_extra x s = Some n /\ state_of x s = Some st /\ is_Some (net_query_ref n) /\ placed H W s x n st.

Record dinv (H : gset TaskId) (W : places) (ord : list TaskId) (s : Scheduler) : Prop := {
  dv_good : good ord s;
  dv_where x : is_Some (W !! x) -> x ∈ ord;
  dv_hand x : x ∈ H -> x ∈ ord;
  dv_task x : x ∈ ord -> task_ok H W s x;
}.

(** ** Operations of the scheduler *)
Section steps.
Implicit Types (s : Scheduler) (H : gset TaskId) (W : places).

Lemma queue_step t ord s s' x : step t ord s s' -> x <> t -> state_of x s' = state_of x s -> x ∈ queue s' <-> x ∈ queue s.
Proof.
  intros [_ _ (new & -> & Hnew) _] Hne Hs. rewrite elem_of_app. split; [|by left]. intros [?|Hx]; [done|]. apply Hnew in Hx as (_ & Ha & [->|Hp]); [done | congruence].
Qed.

Lemma placed_queue H W s s' x n st : (x ∈ queue s' <-> x ∈ queue s) -> placed H W s x n st -> placed H W s' x n st.
Proof. unfold placed. intros Hq. destruct (decide (x ∈ H)); [|destruct (W !! x) as [[]|]]; tauto. Qed.

(** A task that an operation is not about stays where it is, or comes from waiting to the queue. *)
Lemma task_step H W t ord s s' x : step t ord s s' -> x ∈ ord -> x <> t -> task_ok H W s x -> task_ok H W s' x.
Proof.
  intros Hstep Hx Hne (n & st & Hn & Hst & Href & Hp). pose proof (st_extra _ _ _ _ Hstep x Hx Hne) as He.
  destruct (st_state _ _ _ _ Hstep x Hx Hne) as [Hs | [Hs Hs']].
  - exists n, st. pose proof (queue_step _ _ _ _ _ Hstep Hne Hs) as Hq. split_and!; [congruence | congruence | done | by apply (placed_queue H W s)].
  - assert (st = Pending) as -> by congruence. exists n, Active. split_and!; [congruence | done | done|].
    assert (x ∈ queue s') as Hin. { destruct (st_queue _ _ _ _ Hstep) as (new & -> & Hnew). apply elem_of_app. right. apply Hnew. auto. }
    unfold placed in *. case_match; [by destruct Hp as (_ & _ & ?)|]. destruct (W !! x) as [[]|]; [by destruct Hp as (_ & ? & _) | by destruct Hp as (_ & ? & _)|]. split; [apply Hp | by right].
Qed.

(** Other tasks do not depend on which queries are in hand. *)
Lemma task_hand H H' W W' s x : (x ∈ H' <-> x ∈ H) -> W' !! x = W !! x -> task_ok H W s x -> task_ok H' W' s x.
Proof.
  intros HH HW (n & st & Hn & Hst & Href & Hp). exists n, st. split_and!; [done..|]. unfold placed in *. rewrite HW. by destruct (decide (x ∈ H)), (decide (x ∈ H')); tauto || done.
Qed.

(** Writing to the node of a task. *)
Lemma node_step H W ord s t n : dinv H W ord s -> t ∈ ord -> is_Some (net_query_ref n) ->
  (t ∉ H -> exists n0, get_task_extra t s = Some n0 /\ (net_query n = None <-> net_query n0 = None)) ->
  exists s', update_task t (set_extra n) s = Ok s' /\ dinv H W ord s' /\ get_task_extra t s' = Some n /\ (forall x, x ∈ ord -> state_of x s' = state_of x s /\ chains_of x s' = chains_of x s) /\
    (forall x, x ∈ ord -> x <> t -> get_task_extra x s' = get_task_extra x s) /\ queue s' = queue s /\ chains_ s' = chains_ s /\ length (slots_ (tasks_ s')) = length (slots_ (tasks_ s)).
Proof.
  intros [Hg Hw Hh Ht] Hin Href Hq. destruct (extra_client ord s t n Hg Hin) as (s' & Heq & Hg' & He & Hs & Hothers & Hqueue & Hc & Hlen).
  exists s'. split_and!; [done | | done..]. constructor; [done.. |]. intros x Hx. destruct (Ht x Hx) as (n0 & st & Hn0 & Hst & Href0 & Hp).
  destruct (decide (x = t)) as [->|Hne].
  - exists n, st. split_and!; [done | by rewrite (proj1 (Hs t Hx)) | done|]. unfold placed in *. rewrite Hqueue. destruct (decide (t ∈ H)) as [|Hnot]; [done|].
    destruct (Hq Hnot) as (n1 & Hn1 & Hiff). assert (n1 = n0) as -> by congruence.
    destruct (W !! t) as [[]|]; [by rewrite Hiff | by rewrite Hiff|]. split; [|apply Hp]. apply not_eq_None_Some. rewrite Hiff. apply not_eq_None_Some, Hp.
  - exists n0, st. split_and!; [by rewrite Hothers | by rewrite (proj1 (Hs x Hx)) | done|]. unfold placed in *. by rewrite Hqueue.
Qed.

(** Pausing a task in hand, or one that waits. *)
Lemma pause_step H W ord s t g : dinv H W ord s -> t ∈ ord -> t ∈ H \/ (W !! t = None /\ state_of t s = Some Pending) ->
  1 <= g < 2 ^ 64 - 1 -> generations_at_most g s ->
  exists s', pause_task t s = Ok s' /\ dinv ({[t]} ∪ H) W ord s' /\ get_task_extra t s' = get_task_extra t s /\ generations_at_most (g + 1) s' /\
    (t ∉ H -> queue s' = queue s).
Proof.
  intros [Hg Hw Hh Ht] Hin Hcase Hg1 Hgen. destruct (Ht t Hin) as (n & st & Hn & Hst & Href & Hp).
  assert (t ∉ queue s) as Hq.
  { unfold placed in Hp. destruct (decide (t ∈ H)); [by destruct Hp as (_ & ? & _)|]. destruct Hcase as [|[_ Hpend]]; [done|].
    intros Hq. apply (good_queue ord s Hg) in Hq as [_ Hq]. congruence. }
  destruct (pause_client ord s t g Hg Hin Hq Hg1 Hgen) as (s' & Heq & Hg' & Hstep & He & Hs' & Hquiet).
  exists s'. split_and!; [done | | done | apply (st_gens _ _ _ _ Hstep); [lia | done] |].
  - constructor; [done | done | |].
    + intros x [->%elem_of_singleton|Hx]%elem_of_union; [done | by apply Hh].
    + intros x Hx. destruct (decide (x = t)) as [->|Hne].
      * exists n, Paused. split_and!; [congruence | done | done|]. unfold placed in *. rewrite decide_True by (apply elem_of_union; left; by apply elem_of_singleton).
        split_and!; [destruct (decide (t ∈ H)); [apply Hp | by destruct Hcase as [|[? _]]] | | done].
        intros Hq'. apply (good_queue ord s' Hg') in Hq' as [_ Hq']. congruence.
      * apply (task_hand H _ W); [|done | by apply (task_step H W t ord s); [..|apply Ht]]. rewrite elem_of_union, elem_of_singleton. tauto.
  - intros HtH. apply Hquiet. by destruct Hcase as [|[_ ?]].
Qed.

(** Trying a task in hand again. *)
Lemma reset_step H W ord s t g n : dinv H W ord s -> t ∈ H -> get_task_extra t s = Some n -> is_Some (net_query n) ->
  1 <= g < 2 ^ 64 - 1 -> generations_at_most g s ->
  exists s', reset_task t s = Ok s' /\ dinv (H ∖ {[t]}) W ord s' /\ generations_at_most (g + 1) s'.
Proof.
  intros [Hg Hw Hh Ht] HtH Hn Hsome Hg1 Hgen. pose proof (Hh t HtH) as Hin. destruct (Ht t Hin) as (n0 & st & Hn0 & Hst & Href & Hp). assert (n0 = n) as -> by congruence.
  unfold placed in Hp. rewrite decide_True in Hp by done. destruct Hp as (HWt & Hq & _).
  destruct (reset_client ord s t g Hg Hin Hq Hg1 Hgen) as (s' & Heq & Hg' & Hstep & He & Hs').
  exists s'. split_and!; [done | | apply (st_gens _ _ _ _ Hstep); [lia | done]]. constructor; [done | done | intros x Hx; apply Hh; set_solver |].
  intros x Hx. destruct (decide (x = t)) as [->|Hne].
  - assert (exists st', state_of t s' = Some st' /\ (st' = Pending \/ t ∈ queue s')) as (st' & Hst' & Hor).
    { destruct Hs' as [Hs'|Hs']; [exists Pending; auto|]. exists Active. split; [done|]. right. destruct (st_queue _ _ _ _ Hstep) as (new & -> & Hnew). apply elem_of_app. right. apply Hnew. auto. }
    exists n, st'. split_and!; [congruence | done | done|]. unfold placed. rewrite decide_False by set_solver. by rewrite HWt.
  - apply (task_hand H _ W); [set_solver | done | by apply (task_step H W t ord s); [..|apply Ht]].
Qed.

Lemma finish_step H W ord s t : dinv H W ord s -> t ∈ H ->
  exists s', finish_task new_node t s = Ok s' /\ dinv (H ∖ {[t]}) W (filter (fun x => x <> t) ord) s' /\
    forall g, 1 <= g -> generations_at_most g s -> generations_at_most (g + 1) s'.
Proof.
  intros [Hg Hw Hh Ht] HtH. pose proof (Hh t HtH) as Hin. destruct (Ht t Hin) as (n & st & Hn & Hst & Href & Hp).
  unfold placed in Hp. rewrite decide_True in Hp by done. destruct Hp as (HWt & Hq & _).
  destruct (finish_client new_node ord s t Hg Hin Hq) as (s' & Heq & Hg' & Hstep). exists s'. split_and!; [done | | apply Hstep]. constructor; [done | | |].
  - intros x Hx. apply list_elem_of_filter. split; [|by apply Hw]. intros ->. rewrite HWt in Hx. by destruct Hx.
  - intros x Hx. apply list_elem_of_filter. split; [set_solver | apply Hh; set_solver].
  - intros x Hx. pose proof Hx as Hx'. apply list_elem_of_filter in Hx' as [Hne Hx0]. apply (task_hand H _ W); [set_solver | done | by apply (task_step H W t (filter (fun x => x <> t) ord) s); [..|apply Ht]].
Qed.

Lemma create_step W ord s cs n : dinv ∅ W ord s -> NoDup cs -> 0 ∉ cs -> Z.of_nat (length (slots_ (tasks_ s))) < 2 ^ 31 - 1 -> is_Some (net_query_ref n) -> is_Some (net_query n) ->
  exists t s', create_task new_node cs n s = Ok (t, s') /\ dinv ∅ W (ord ++ [t]) s'.
Proof.
  intros [Hg Hw Hh Ht] Hnd H0 Hroom Href Hsome. destruct (create_client new_node ord s cs n Hg Hnd H0 Hroom) as (t & s' & Heq & Hnew & Hg' & Hstep & He & Hs').
  exists t, s'. split; [done|]. constructor; [done | intros x Hx; apply elem_of_app; left; by apply Hw | set_solver |].
  intros x Hx. destruct (decide (x = t)) as [->|Hne].
  - assert (exists st', state_of t s' = Some st' /\ (st' = Pending \/ t ∈ queue s')) as (st' & Hst' & Hor).
    { destruct Hs' as [Hs'|Hs']; [exists Pending; auto|]. exists Active. split; [done|]. right. destruct (st_queue _ _ _ _ Hstep) as (new & -> & Hin). apply elem_of_app. right. apply Hin. auto. }
    exists n, st'. split_and!; [done..|]. unfold placed. rewrite decide_False by set_solver.
    destruct (W !! t) as [p|] eqn:HW; [|done]. destruct Hnew. apply Hw. by rewrite HW.
  - pose proof Hx as Hx'. apply elem_of_app in Hx' as [Hx'|Hx'%list_elem_of_singleton]; [|done]. by apply (task_step ∅ W t (ord ++ [t]) s); [..|apply Ht].
Qed.

End steps.

(** ** Sending what waits in the queue *)
Definition ref_of (s : Scheduler) (p : TaskId) : NetQueryRef := match get_task_extra p s with Some n => net_query_ref n | None => None end.

(** The query of a task as it is sent: after the queries right before it in its chains. *)
Definition message_for (s : Scheduler) (t : TaskId) : message :=
  match get_task_extra t s ≫= net_query with
  | Some q => ToNetwork t (with_timeouts (total_timeout_ q) 0 (set_invoke_after (map (ref_of s) (parent_tasks t s)) q))
  | None => ToTd None
  end.

Lemma parent_refs_ok H W ord d ps : dinv H W ord (scheduler_ d) -> (forall p, p ∈ ps -> p ∈ ord) ->
  parent_refs ps d = Ok (map (ref_of (scheduler_ d)) ps) /\ Forall is_Some (map (ref_of (scheduler_ d)) ps).
Proof.
  intros Hi. induction ps as [|p ps IH]; intros Hps; [done|]. destruct (dv_task _ _ _ _ Hi p) as (n & st & Hn & _ & Href & _); [apply Hps; by left|].
  cbn [parent_refs map]. unfold node_of, ref_of at 1 3. rewrite Hn. cbn [res_bind]. rewrite bool_decide_eq_true_2 by done.
  destruct IH as [-> IH]; [intros x Hx; apply Hps; by right|]. split; [done|]. by constructor.
Qed.

(** The message for a task depends on what does not change while others are sent. *)
Lemma message_for_same s s' t : get_task_extra t s' = get_task_extra t s -> chains_ s' = chains_ s -> chains_of t s' = chains_of t s ->
  (forall p, p ∈ parent_tasks t s -> ref_of s' p = ref_of s p) -> message_for s' t = message_for s t.
Proof.
  intros He Hc Hcs Hrefs. unfold message_for. rewrite He. destruct (get_task_extra t s ≫= net_query) as [q|]; [|done].
  assert (parent_tasks t s' = parent_tasks t s) as Hp by (unfold parent_tasks, tasks_in; by rewrite Hcs, Hc). rewrite Hp. do 3 f_equal.
  apply map_ext_in. intros p Hp'. apply Hrefs. by apply list_elem_of_In.
Qed.

Lemma delivered_app W l1 l2 : delivered W (l1 ++ l2) = delivered (delivered W l1) l2.
Proof. apply foldl_app. Qed.

Record flushed (W : places) (d d' : Dispatcher) (ms : list message) : Prop := {
  fl_sent : sent d' = sent d ++ ms;
  fl_ok : Forall message_ok ms;
  fl_answers : answers ms = 0%nat;
}.

Lemma flush_loop_ok q : forall H W ord d, dinv H W ord (scheduler_ d) -> queue (scheduler_ d) = q ->
  exists d', flush_loop (S (length q)) d = Ok d' /\ dinv H (delivered W (map (message_for (scheduler_ d)) q)) ord (scheduler_ d') /\ queue (scheduler_ d') = [] /\
    flushed W d d' (map (message_for (scheduler_ d)) q) /\ chains_ (scheduler_ d') = chains_ (scheduler_ d) /\ length (slots_ (tasks_ (scheduler_ d'))) = length (slots_ (tasks_ (scheduler_ d))).
Proof.
  induction q as [|t q IH]; intros H W ord d Hi Hq.
  - exists d. cbn [flush_loop length]. rewrite (next_client_none ord) by (done || apply Hi). cbn [res_bind]. split; [by destruct d|]. split_and!; try done.
    constructor; [by rewrite app_nil_r | constructor | done].
  - set (s := scheduler_ d) in *. destruct (next_client ord s t q (dv_good _ _ _ _ Hi) Hq) as (s1 & Heq & Hg1 & Hq1 & Hc1 & Ht1 & Hps).
    cbn [flush_loop length]. fold s. rewrite Heq. cbn [res_bind task_id parents].
    destruct (good_queue ord s (dv_good _ _ _ _ Hi)) as [Hnd Hact]. rewrite Hq in Hnd. apply NoDup_cons in Hnd as [Htq Hnd].
    destruct (Hact t) as [Hin Hst]; [rewrite Hq; by left|].
    assert (forall x, get_task_extra x s1 = get_task_extra x s) as He1 by (intros x; unfold get_task_extra; by rewrite Ht1).
    assert (forall x, state_of x s1 = state_of x s) as Hs1 by (intros x; unfold state_of; by rewrite Ht1).
    destruct (dv_task _ _ _ _ Hi t Hin) as (n & st & Hn & Hst' & Href & Hp). assert (st = Active) as -> by congruence. unfold placed in Hp.
    assert (t ∈ queue s) as Htin by (rewrite Hq; by left). destruct (decide (t ∈ H)) as [|HtH]; [by destruct Hp as (_ & ? & _)|].
    destruct (W !! t) as [[]|] eqn:HWt; [by destruct Hp as (_ & _ & ?) | by destruct Hp as (_ & _ & ?)|]. destruct Hp as [[nq Hnq] _].
    unfold node_of at 1. cbn [with_scheduler scheduler_]. rewrite He1, Hn. cbn [res_bind]. rewrite Hnq.
    destruct (extra_client ord s1 t (set_query None n) Hg1 Hin) as (s2 & Heq2 & Hg2 & He2 & Hs2 & Ho2 & Hq2 & Hc2 & Hlen2).
    unfold set_node. cbn [with_scheduler scheduler_]. rewrite Heq2. cbn [res_bind]. set (d2 := with_scheduler s2 (with_scheduler s1 d)).
    (* every task but [t] is where it was *)
    assert (dinv H (<[t := AtNetwork]> W) ord s2) as Hi2.
    { constructor; [done | | apply Hi |].
      - intros x. destruct (decide (x = t)) as [->|]; [done|]. rewrite lookup_insert_ne by done. apply Hi.
      - intros x Hx. destruct (decide (x = t)) as [->|Hne].
        + exists (set_query None n), Active. split_and!; [done | rewrite (proj1 (Hs2 t Hx)), Hs1; done | done|]. unfold placed. rewrite decide_False, lookup_insert_eq by done.
          split_and!; [done | done | by rewrite Hq2, Hq1].
        + destruct (dv_task _ _ _ _ Hi x Hx) as (n' & st' & Hn' & Hst2 & Href' & Hp'). exists n', st'. rewrite Ho2, He1, (proj1 (Hs2 x Hx)), Hs1 by done. split_and!; [done..|].
          apply (placed_queue H W s s2) in Hp'; [|rewrite Hq2, Hq1, Hq, elem_of_cons; tauto]. unfold placed in *. by rewrite lookup_insert_ne. }
    assert (forall p, p ∈ ord -> ref_of s2 p = ref_of s p) as Hrefs.
    { intros p Hp. unfold ref_of. destruct (decide (p = t)) as [->|Hne]; [by rewrite He2, Hn | by rewrite Ho2, He1]. }
    destruct (parent_refs_ok H _ ord d2 (parent_tasks t s) Hi2 Hps) as [-> Hsome]. cbn [res_bind]. change (scheduler_ d2) with s2 in *.
    assert (map (ref_of s2) (parent_tasks t s) = map (ref_of s) (parent_tasks t s)) as Hmap by (apply map_ext_in; intros p Hp; apply Hrefs, Hps; by apply list_elem_of_In).
    rewrite Hmap in *. assert (message_for s t = ToNetwork t (with_timeouts (total_timeout_ nq) 0 (set_invoke_after (map (ref_of s) (parent_tasks t s)) nq))) as Hm.
    { unfold message_for. rewrite Hn. cbn [mbind option_bind]. by rewrite Hnq. }
    change (total_timeout_ (set_invoke_after _ nq)) with (total_timeout_ nq). rewrite <- Hm.
    destruct (IH H _ ord (post (message_for s t) d2) Hi2) as (d' & Heq' & Hi' & Hq' & [F1 F2 F3] & Hc' & Hl'); [cbn; congruence|]. change (scheduler_ (post _ d2)) with s2 in *.
    assert (map (message_for s2) q = map (message_for s) q) as Hrest.
    { apply map_ext_in. intros x Hx%list_elem_of_In. destruct (Hact x) as [Hxo _]; [rewrite Hq; by right|]. assert (x <> t) by congruence.
      apply message_for_same; [by rewrite Ho2, He1 | congruence | |].
      - rewrite (proj2 (Hs2 x Hxo)). unfold chains_of. by rewrite Ht1.
      - intros p (c & _ & Hp)%list_elem_of_omap. apply Hrefs. apply right_before_in in Hp. by apply (tasks_in_ord ord s c p (dv_good _ _ _ _ Hi)). }
    rewrite Hrest in *. exists d'. split; [done|]. cbn [map]. split_and!.
    + cbn [delivered foldl] in *. rewrite Hm. cbn [deliver]. done.
    + done.
    + constructor.
      * rewrite F1. cbn [post sent d2 with_scheduler]. by rewrite <- app_assoc.
      * constructor; [|done]. rewrite Hm. done.
      * unfold answers. cbn [omap list_omap]. rewrite Hm. exact F3.
    + congruence.
    + rewrite Hl', Hlen2. by rewrite Ht1.
Qed.

(** ** Handlers *)
Record after (H : gset TaskId) (W : places) (d : Dispatcher) (ord : list TaskId) (d' : Dispatcher) (ord' : list TaskId) (ms : list message) : Prop := {
  af_inv : dinv H (delivered W ms) ord' (scheduler_ d');
  af_sent : sent d' = sent d ++ ms;
  af_ok : Forall message_ok ms;
  af_count : (length ord' + answers ms = length ord)%nat;
}.

Lemma after_nothing H W d ord d' : dinv H W ord (scheduler_ d') -> sent d' = sent d -> after H W d ord d' ord [].
Proof. intros Hi Hs. constructor; [done | by rewrite app_nil_r | constructor | unfold answers; cbn; lia]. Qed.

Lemma answers_app l1 l2 : answers (l1 ++ l2) = (answers l1 + answers l2)%nat.
Proof. unfold answers. by rewrite omap_app, length_app. Qed.

Lemma after_trans H1 H2 W d ord d1 ord1 ms1 d2 ord2 ms2 : after H1 W d ord d1 ord1 ms1 -> after H2 (delivered W ms1) d1 ord1 d2 ord2 ms2 -> after H2 W d ord d2 ord2 (ms1 ++ ms2).
Proof.
  intros [A1 A2 A3 A4] [B1 B2 B3 B4]. constructor.
  - by rewrite delivered_app.
  - by rewrite B2, A2, app_assoc.
  - by apply Forall_app.
  - rewrite answers_app. lia.
Qed.

Lemma loop_ok H W ord d : dinv H W ord (scheduler_ d) -> exists d' ms, loop d = Ok d' /\ after H W d ord d' ord ms /\ queue (scheduler_ d') = [] /\ chains_ (scheduler_ d') = chains_ (scheduler_ d).
Proof.
  intros Hi. destruct (flush_loop_ok (queue (scheduler_ d)) H W ord d Hi eq_refl) as (d' & Heq & Hi' & Hq & [F1 F2 F3] & Hc & _). eexists d', _. split; [exact Heq|].
  split_and!; [|done | done]. constructor; [done | done | done | lia].
Qed.

Lemma filter_count (t : TaskId) ord : NoDup ord -> t ∈ ord -> (length (filter (fun x => x <> t) ord) + 1 = length ord)%nat.
Proof.
  intros Hnd (l1 & l2 & ->)%list_elem_of_split. rewrite filter_app, filter_cons_False by (intros H; by apply H). apply NoDup_app in Hnd as (_ & Hdis & [Hn _]%NoDup_cons).
  assert (forall l : list TaskId, t ∉ l -> filter (fun x => x <> t) l = l) as Hid.
  { induction l as [|x l IH]; intros H; [done|]. rewrite filter_cons_True by (intros ->; apply H; by left). f_equal. apply IH. intros H'. apply H. by right. }
  rewrite !Hid; [|done | intros H; apply (Hdis t H); by left]. rewrite !length_app. cbn. lia.
Qed.

(** A query in hand goes to its callback. *)
Lemma hand_over H W ord s t n : dinv H W ord s -> t ∈ H -> get_task_extra t s = Some n -> net_query n = None -> dinv (H ∖ {[t]}) (<[t := AtCallback]> W) ord s.
Proof.
  intros [Hg Hw Hh Ht] HtH Hn Hnq. constructor; [done | | intros x Hx; apply Hh; set_solver |].
  - intros x. destruct (decide (x = t)) as [->|]; [intros _; by apply Hh|]. rewrite lookup_insert_ne by done. apply Hw.
  - intros x Hx. destruct (decide (x = t)) as [->|Hne].
    + destruct (Ht t Hx) as (n0 & st & Hn0 & Hst & Href & Hp). assert (n0 = n) as -> by congruence. exists n, st. split_and!; [done..|]. unfold placed in *.
      rewrite decide_True in Hp by done. rewrite decide_False by set_solver. rewrite lookup_insert_eq. naive_solver.
    + apply (task_hand H _ W); [set_solver | by rewrite lookup_insert_ne | by apply Ht].
Qed.

Lemma try_resend_ok H W ord d t n g : dinv H W ord (scheduler_ d) -> t ∈ H -> get_task_extra t (scheduler_ d) = Some n -> is_Some (net_query n) ->
  1 <= g -> generations_at_most g (scheduler_ d) ->
  exists d' ord' ms, try_resend t d = Ok d' /\ after (H ∖ {[t]}) W d ord d' ord' ms /\ (forall x, x ∈ ord -> x <> t -> x ∈ ord') /\
    (queue (scheduler_ d) = [] -> queue (scheduler_ d') = []) /\ generations_at_most (g + 1) (scheduler_ d').
Proof.
  intros Hi HtH Hn Hsome Hg Hgen. pose proof (dv_hand _ _ _ _ Hi t HtH) as Hin. unfold try_resend, node_of. rewrite Hn. cbn [res_bind].
  destruct (dv_task _ _ _ _ Hi t Hin) as (n0 & _ & Hn0 & _ & Href & _). assert (n0 = n) as -> by congruence.
  destruct (node_step H W ord (scheduler_ d) t (set_query None n) Hi Hin Href ltac:(done)) as (s1 & Heq1 & Hi1 & He1 & _ & _ & Hq1 & Hc1 & _).
  unfold set_node. rewrite Heq1. cbn [res_bind]. destruct (callback n) as [to|] eqn:Hcb.
  - eexists _, ord, [_]. split; [done|]. split_and!; [| done | cbn; congruence | intros c ci Hc; cbn in Hc; rewrite Hc1 in Hc; specialize (Hgen _ _ Hc); lia].
    constructor; [|done | by constructor | unfold answers; cbn; lia]. cbn. by apply (hand_over H W ord s1 t (set_query None n)).
  - destruct (finish_step H W ord s1 t Hi1 HtH) as (s2 & Heq2 & Hi2 & Hgen2). cbn [with_scheduler scheduler_]. rewrite Heq2. cbn [res_bind].
    set (d3 := post _ _). destruct (loop_ok (H ∖ {[t]}) W _ d3 Hi2) as (d' & ms & Heq3 & Ha & Hq3 & Hc3). exists d', (filter (fun x => x <> t) ord), (ToTd (net_query n) :: ms).
    split; [done|]. split_and!.
    + destruct Ha as [A1 A2 A3 A4]. constructor; [done | rewrite A2; cbn; by rewrite <- app_assoc | by constructor|].
      pose proof (filter_count t ord (good_nodup _ _ (dv_good _ _ _ _ Hi)) Hin). unfold answers in *. cbn in *. lia.
    + intros x Hx Hne. by apply list_elem_of_filter.
    + done.
    + intros c ci Hc. rewrite Hc3 in Hc. apply (Hgen2 g Hg) with (c := c); [|done]. intros c' ci' Hc'. rewrite Hc1 in Hc'. by apply (Hgen c').
Qed.

Lemma check_timeout_facts n b n' : check_timeout n = (b, n') ->
  net_query_ref n' = net_query_ref n /\ (net_query n' = None <-> net_query n = None) /\ (b = true -> is_Some (net_query n')).
Proof.
  unfold check_timeout. destruct (net_query n) as [q|] eqn:Hq; [|intros [= <- <-]; by rewrite Hq].
  destruct (is_ready q); [intros [= <- <-]; by rewrite Hq|]. destruct (0 <? total_timeout n); [|intros [= <- <-]; by rewrite Hq].
  case_if; intros [= <- <-]; cbn; split_and!; try done; by eexists.
Qed.

Lemma do_resend_ok H W ord d t q g : dinv H W ord (scheduler_ d) -> t ∈ H -> 1 <= g < 2 ^ 64 - 2 -> generations_at_most g (scheduler_ d) ->
  exists d' ord' ms, do_resend t q d = Ok d' /\ after (H ∖ {[t]}) W d ord d' ord' ms /\ generations_at_most (g + 2) (scheduler_ d').
Proof.
  intros Hi HtH Hg Hgen. pose proof (dv_hand _ _ _ _ Hi t HtH) as Hin. destruct (dv_task _ _ _ _ Hi t Hin) as (n & _ & Hn & _ & Href & _).
  unfold do_resend, node_of. rewrite Hn. cbn [res_bind]. set (n1 := set_ref _ _). destruct (check_timeout n1) as [expired n2] eqn:Hct.
  destruct (check_timeout_facts _ _ _ Hct) as (Hr2 & Hq2 & Hb). assert (is_Some (net_query n2)) as Hsome by (apply not_eq_None_Some; by rewrite Hq2).
  destruct (node_step H W ord (scheduler_ d) t n2 Hi Hin) as (s1 & Heq1 & Hi1 & He1 & _ & _ & Hq1 & Hc1 & _); [by rewrite Hr2 | done|].
  unfold set_node. rewrite Heq1. cbn [res_bind with_scheduler scheduler_].
  assert (generations_at_most g s1) as Hgen1 by (intros c ci; rewrite Hc1; apply Hgen).
  destruct expired.
  - destruct (pause_step H W ord s1 t g Hi1 Hin (or_introl HtH) ltac:(lia) Hgen1) as (s2 & -> & Hi2 & He2 & Hgen2 & _). cbn [res_bind].
    assert ({[t]} ∪ H = H) as HH by set_solver. rewrite HH in Hi2. set (d2 := with_scheduler s2 _).
    destruct (try_resend_ok H W ord d2 t n2 (g + 1) Hi2 HtH ltac:(cbn; congruence) Hsome ltac:(lia) Hgen2) as (d' & ord' & ms & -> & Ha & _ & _ & Hgen').
    exists d', ord', ms. split; [done|]. split; [by destruct Ha | by replace (g + 2) with (g + 1 + 1) by lia].
  - destruct (reset_step H W ord s1 t g n2 Hi1 HtH He1 Hsome ltac:(lia) Hgen1) as (s2 & -> & Hi2 & Hgen2). cbn [res_bind].
    eexists _, ord, []. split; [done|]. split; [by apply after_nothing | intros c ci Hc; specialize (Hgen2 _ _ Hc); lia].
Qed.

Lemma add_timeouts_ok constructor_of t constructor timeout l : forall H W ord d, dinv H W ord (scheduler_ d) -> (forall x, x ∈ l -> x ∈ ord) ->
  exists l' d', add_timeouts constructor_of t constructor timeout l d = Ok (l', d') /\ dinv H W ord (scheduler_ d') /\ l' `sublist_of` l /\ t ∉ l' /\
    sent d' = sent d /\ queue (scheduler_ d') = queue (scheduler_ d) /\ chains_ (scheduler_ d') = chains_ (scheduler_ d).
Proof.
  induction l as [|x l IH]; intros H W ord d Hi Hl; [exists [], d; split_and!; try done; by intros ?%elem_of_nil|].
  destruct (dv_task _ _ _ _ Hi x) as (n & st & Hn & _ & [place Href] & _); [apply Hl; by left|]. cbn [add_timeouts]. unfold node_of. rewrite Hn. cbn [res_bind]. rewrite Href.
  destruct ((constructor_of place =? constructor) && negb (x =? t)) eqn:Hb.
  - apply andb_true_iff in Hb as [_ Hne]. zbool. destruct (node_step H W ord (scheduler_ d) x (set_timeouts (s32 (total_timeout n + timeout)) timeout n) Hi) as (s1 & Heq1 & Hi1 & _ & _ & _ & Hq1 & Hc1 & _).
    { apply Hl. by left. } { cbn. by rewrite Href. } { intros _. by exists n. }
    unfold set_node. rewrite Heq1. cbn [res_bind]. destruct (IH H W ord (with_scheduler s1 d) Hi1) as (l' & d' & -> & Hi' & Hsub & Hnot & Hs & Hq & Hc); [intros y Hy; apply Hl; by right|].
    cbn [res_bind]. exists (x :: l'), d'. split_and!; [done | done | by constructor | | done | cbn in Hq; congruence | cbn in Hc; congruence].
    intros [->|?]%elem_of_cons; done.
  - destruct (IH H W ord d Hi) as (l' & d' & -> & Hi' & Hsub & Hrest); [intros y Hy; apply Hl; by right|]. exists l', d'. split_and!; [done | done | by constructor | apply Hrest..].
Qed.

(** The dependent queries whose time is over: each of them is taken from where it waits. *)
Lemma check_timeouts_ok l : forall H W ord d g, dinv H W ord (scheduler_ d) -> NoDup l -> (forall x, x ∈ l -> x ∈ ord /\ x ∉ H) -> queue (scheduler_ d) = [] ->
  1 <= g -> g + 2 * Z.of_nat (length l) < 2 ^ 64 - 1 -> generations_at_most g (scheduler_ d) ->
  exists d' ord' ms, check_timeouts l d = Ok d' /\ after H W d ord d' ord' ms /\ queue (scheduler_ d') = [] /\
    generations_at_most (g + 2 * Z.of_nat (length l)) (scheduler_ d').
Proof.
  induction l as [|x l IH]; intros H W ord d g Hi Hnd Hl Hq Hg1 Hg2 Hgen.
  { exists d, ord, []. split; [done|]. split_and!; [by apply after_nothing | done | intros c ci Hc; specialize (Hgen _ _ Hc); cbn; lia]. }
  apply NoDup_cons in Hnd as [Hx Hnd]. destruct (Hl x) as [Hin HxH]; [by left|]. destruct (dv_task _ _ _ _ Hi x Hin) as (n & st & Hn & Hst & Href & Hp).
  cbn [check_timeouts length] in *. unfold node_of. rewrite Hn. cbn [res_bind]. destruct (check_timeout n) as [expired n2] eqn:Hct. destruct (check_timeout_facts _ _ _ Hct) as (Hr2 & Hq2 & Hb).
  destruct (node_step H W ord (scheduler_ d) x n2 Hi Hin) as (s1 & Heq1 & Hi1 & He1 & Hs1 & _ & Hq1 & Hc1 & _); [by rewrite Hr2 | intros _; by exists n|].
  unfold set_node. rewrite Heq1. cbn [res_bind with_scheduler scheduler_]. assert (generations_at_most g s1) as Hgen1 by (intros c ci; rewrite Hc1; apply Hgen).
  destruct expired.
  - assert (W !! x = None /\ state_of x s1 = Some Pending) as Hwait.
    { rewrite (proj1 (Hs1 x Hin)), Hst. unfold placed in Hp. rewrite decide_False in Hp by done. assert (net_query n <> None) as Hnq by (rewrite <- Hq2; by apply not_eq_None_Some, Hb).
      destruct (W !! x) as [[]|]; [by destruct Hp as [? _] | by destruct Hp as [? _]|]. rewrite Hq in Hp. split; [done|]. f_equal. by destruct Hp as [_ [?|?%elem_of_nil]]. }
    destruct (pause_step H W ord s1 x g Hi1 Hin (or_intror Hwait) ltac:(lia) Hgen1) as (s2 & -> & Hi2 & He2 & Hgen2 & Hquiet). cbn [res_bind].
    set (d2 := with_scheduler s2 _).
    destruct (try_resend_ok ({[x]} ∪ H) W ord d2 x n2 (g + 1) Hi2) as (d3 & ord3 & ms3 & -> & Ha & Hord & Hq3 & Hgen3); [set_solver | cbn; congruence | by apply Hb | lia | done|].
    cbn [res_bind]. assert (({[x]} ∪ H) ∖ {[x]} = H) as HH by set_solver. rewrite HH in Ha.
    destruct (IH H (delivered W ms3) ord3 d3 (g + 1 + 1)) as (d' & ord' & ms & -> & Ha' & Hq' & Hgen'); [apply Ha | done | | apply Hq3; cbn; rewrite Hquiet by done; congruence | lia | lia | done|].
    { intros y Hy. destruct (Hl y) as [Hy1 Hy2]; [by right|]. split; [|done]. apply Hord; [done | congruence]. }
    exists d', ord', (ms3 ++ ms). split; [done|]. split_and!; [|done | intros c ci Hc; specialize (Hgen' _ _ Hc); lia].
    eapply after_trans; [|done]. by destruct Ha.
  - destruct (IH H W ord (with_scheduler s1 d) g Hi1 Hnd) as (d' & ord' & ms & -> & Ha' & Hq' & Hgen'); [intros y Hy; apply Hl; by right | cbn; congruence | lia | lia | done|].
    exists d', ord', ms. split; [done|]. split_and!; [by destruct Ha' | done | intros c ci Hc; specialize (Hgen' _ _ Hc); lia].
Qed.

(** A message that comes back puts its query into hand. *)
Lemma take_in_hand W ord s t p : dinv ∅ W ord s -> W !! t = Some p -> dinv {[t]} (delete t W) ord s.
Proof.
  intros [Hg Hw Hh Ht] Hp. assert (t ∈ ord) as Hin by (apply Hw; by rewrite Hp). constructor; [done | | by intros x ->%elem_of_singleton |].
  - intros x [q Hx]. apply Hw. destruct (decide (x = t)) as [->|]; [by rewrite lookup_delete_eq in Hx | rewrite lookup_delete_ne in Hx by done; by exists q].
  - intros x Hx. destruct (decide (x = t)) as [->|Hne].
    + destruct (Ht t Hx) as (n & st & Hn & Hst & Href & Hpl). exists n, st. split_and!; [done..|]. unfold placed in *. rewrite decide_False in Hpl by set_solver. rewrite Hp in Hpl.
      rewrite decide_True, lookup_delete_eq by set_solver. destruct p; naive_solver.
    + apply (task_hand ∅ _ W); [set_solver | by rewrite lookup_delete_ne | by apply Ht].
Qed.

Lemma hand_empty (t : TaskId) : {[t]} ∖ {[t]} = (∅ : gset TaskId).
Proof. set_solver. Qed.

Definition room (s : Scheduler) : Prop := Z.of_nat (length (slots_ (tasks_ s))) < 2 ^ 31 - 1 /\ generations_at_most (2 ^ 63) s.

Lemma on_resend_ok W ord d t r : dinv {[t]} W ord (scheduler_ d) -> room (scheduler_ d) ->
  exists d' ord' ms, on_resend t r d = Ok d' /\ dinv ∅ (delivered W ms) ord' (scheduler_ d') /\ sent d' = sent d ++ ms /\ Forall message_ok ms /\ queue (scheduler_ d') = [] /\
    (length ord' + answers ms = length ord - (if r then 0 else 1))%nat.
Proof.
  intros Hi [_ Hroom]. assert (t ∈ ord) as Hin by (apply (dv_hand _ _ _ _ Hi); set_solver). destruct (dv_task _ _ _ _ Hi t Hin) as (n & _ & Hn & _).
  unfold on_resend, node_of. rewrite Hn. cbn [res_bind]. destruct r as [q|].
  - destruct (do_resend_ok _ W ord d t q (2 ^ 63) Hi ltac:(set_solver) ltac:(lia) Hroom) as (d1 & ord1 & ms1 & -> & Ha1 & _). cbn [res_bind]. rewrite hand_empty in Ha1.
    destruct (loop_ok ∅ (delivered W ms1) ord1 d1 (af_inv _ _ _ _ _ _ _ Ha1)) as (d' & ms2 & -> & Ha2 & Hq & _). destruct (after_trans _ _ _ _ _ _ _ _ _ _ _ Ha1 Ha2) as [A1 A2 A3 A4].
    exists d', ord1, (ms1 ++ ms2). split_and!; try done. lia.
  - destruct (finish_step _ W ord (scheduler_ d) t Hi ltac:(set_solver)) as (s1 & -> & Hi1 & _). cbn [res_bind]. rewrite hand_empty in Hi1.
    destruct (loop_ok ∅ W _ (with_scheduler s1 d) Hi1) as (d' & ms & -> & [A1 A2 A3 A4] & Hq & _). exists d', (filter (fun x => x <> t) ord), ms. split_and!; try done.
    pose proof (filter_count t ord (good_nodup _ _ (dv_good _ _ _ _ Hi)) Hin). cbn. lia.
Qed.

Lemma on_result_ok W ord d f t q : dinv {[t]} W ord (scheduler_ d) -> queue (scheduler_ d) = [] -> room (scheduler_ d) ->
  exists d' ord' ms, on_result f t q d = Ok d' /\ dinv ∅ (delivered W ms) ord' (scheduler_ d') /\ sent d' = sent d ++ ms /\ Forall message_ok ms /\ queue (scheduler_ d') = [] /\
    (length ord' + answers ms = length ord)%nat.
Proof.
  intros Hi Hq [Hslots Hroom]. assert (t ∈ ord) as Hin by (apply (dv_hand _ _ _ _ Hi); set_solver). destruct (dv_task _ _ _ _ Hi t Hin) as (n & _ & Hn & _).
  unfold on_result, node_of at 1. rewrite Hn. cbn [res_bind].
  (* the dependent queries *)
  assert (exists q1 d1 ord1 ms1, (if negb (last_timeout_ q =? 0) then
      let* dependents := for_each_dependent t (scheduler_ d) in
      let* (to_check, d) := add_timeouts f t (tl_constructor_ q) (last_timeout_ q) dependents d in
      let* d := check_timeouts to_check d in Ok (with_timeouts (total_timeout_ q) 0 q, d) else Ok (q, d)) = Ok (q1, d1) /\
    after {[t]} W d ord d1 ord1 ms1 /\ queue (scheduler_ d1) = [] /\ generations_at_most (2 ^ 63 + 2 ^ 32) (scheduler_ d1)) as (q1 & d1 & ord1 & ms1 & -> & Ha1 & Hq1 & Hgen1).
  { case_if.
    - destruct (dependents_client ord (scheduler_ d) t (dv_good _ _ _ _ Hi) Hin) as (l & -> & Hnd & Hl). cbn [res_bind].
      destruct (add_timeouts_ok f t (tl_constructor_ q) (last_timeout_ q) l _ W ord d Hi Hl) as (l' & d1 & -> & Hi1 & Hsub & Hnot & Hs1 & Hq1 & Hc1). cbn [res_bind].
      assert (length l' <= length (slots_ (tasks_ (scheduler_ d))))%nat as Hlen.
      { pose proof (good_length ord _ (dv_good _ _ _ _ Hi)). apply sublist_length in Hsub as Hs. assert (length l <= length ord)%nat; [|lia]. by apply submseteq_length, NoDup_submseteq. }
      destruct (check_timeouts_ok l' {[t]} W ord d1 (2 ^ 63) Hi1) as (d2 & ord2 & ms & -> & Ha & Hq2 & Hgen); [by eapply sublist_NoDup | | congruence | lia | lia | intros c ci; rewrite Hc1; apply Hroom |].
      { intros x Hx. split; [apply Hl; by eapply elem_of_submseteq, sublist_submseteq|]. rewrite elem_of_singleton. congruence. }
      cbn [res_bind]. eexists _, d2, ord2, ms. split; [done|]. split_and!; [|done | intros c ci Hc; specialize (Hgen _ _ Hc); lia].
      destruct Ha as [A1 A2 A3 A4]. constructor; [done | congruence | done..].
    - exists q, d, ord, []. split; [done|]. split_and!; [by apply after_nothing | done | intros c ci Hc; specialize (Hroom _ _ Hc); lia]. }
  cbn [res_bind]. pose proof (af_inv _ _ _ _ _ _ _ Ha1) as Hi1. destruct (must_resend q1).
  - destruct (do_resend_ok _ _ ord1 d1 t (resend q1) (2 ^ 63 + 2 ^ 32) Hi1 ltac:(set_solver) ltac:(lia) Hgen1) as (d2 & ord2 & ms2 & -> & Ha2 & _). cbn [res_bind]. rewrite hand_empty in Ha2.
    destruct (loop_ok ∅ _ ord2 d2 (af_inv _ _ _ _ _ _ _ Ha2)) as (d' & ms3 & -> & Ha3 & Hq3 & _).
    pose proof (after_trans _ _ _ _ _ _ _ _ _ _ _ Ha1 Ha2) as Ha. rewrite <- delivered_app in Ha3.
    destruct (after_trans _ _ _ _ _ _ _ _ _ _ _ Ha Ha3) as [A1 A2 A3 A4]. by exists d', ord2, ((ms1 ++ ms2) ++ ms3).
  - assert (t ∈ ord1) as Hin1 by (apply (dv_hand _ _ _ _ Hi1); set_solver). destruct (dv_task _ _ _ _ Hi1 t Hin1) as (n1 & _ & Hn1 & _ & Href1 & _).
    unfold node_of. rewrite Hn1. cbn [res_bind].
    destruct (node_step _ _ ord1 (scheduler_ d1) t (set_query (Some q1) n1) Hi1 Hin1 Href1) as (s2 & Heq2 & Hi2 & He2 & _ & _ & Hq2 & Hc2 & _); [set_solver|].
    unfold set_node. rewrite Heq2. cbn [res_bind].
    destruct (try_resend_ok _ _ ord1 (with_scheduler s2 d1) t _ (2 ^ 63 + 2 ^ 32) Hi2 ltac:(set_solver) He2 ltac:(done) ltac:(lia)) as (d' & ord' & ms2 & -> & Ha2 & _ & Hq' & _).
    { intros c ci. cbn. rewrite Hc2. apply Hgen1. }
    rewrite hand_empty in Ha2. destruct Ha2 as [A1 A2 A3 A4]. destruct Ha1 as [B1 B2 B3 B4]. exists d', ord', (ms1 ++ ms2). split; [done|]. split_and!.
    + by rewrite delivered_app.
    + rewrite A2. cbn. by rewrite B2, app_assoc.
    + by apply Forall_app.
    + apply Hq'. cbn. congruence.
    + rewrite answers_app. lia.
Qed.

(** The chains of a query are different and not 0. *)
Lemma without_repeats_spec l : StronglySorted Z.le l -> StronglySorted Z.lt (without_repeats l) /\ forall x, x ∈ without_repeats l <-> x ∈ l.
Proof.
  induction 1 as [|x l Hs [IH1 IH2] Hx]; [split; [constructor | done]|]. destruct l as [|y l]; [split; [repeat constructor | done]|].
  change (without_repeats (x :: y :: l)) with (if x =? y then without_repeats (y :: l) else x :: without_repeats (y :: l)). destruct (x =? y) eqn:E; zbool.
  - subst y. split; [done|]. intros z. rewrite IH2, !elem_of_cons. tauto.
  - split.
    + constructor; [done|]. apply Forall_forall. intros z Hz%IH2. rewrite Forall_forall in Hx. pose proof (Hx y ltac:(by left)). apply elem_of_cons in Hz as [->|Hz]; [lia|].
      apply StronglySorted_inv in Hs as [_ Hy]. rewrite Forall_forall in Hy. specialize (Hy z Hz). lia.
    + intros z. by rewrite !elem_of_cons, IH2, elem_of_cons.
Qed.

Lemma make_chain_ids_ok l : NoDup (make_chain_ids l) /\ 0 ∉ make_chain_ids l.
Proof.
  unfold make_chain_ids, unique. set (l' := map _ l). destruct (without_repeats_spec (merge_sort Z.le l')) as [H1 H2].
  { apply StronglySorted_merge_sort; apply _. }
  split.
  - clear H2. induction H1 as [|x m Hs IH Hx]; [constructor|]. constructor; [|done]. rewrite Forall_forall in Hx. intros Hin%Hx. lia.
  - rewrite H2, merge_sort_Permutation. unfold l'. intros (c & Hc & _)%list_elem_of_fmap. destruct (c =? 0) eqn:E; zbool; lia.
Qed.

Lemma send_ok W ord d q : dinv ∅ W ord (scheduler_ d) -> NoDup (chain_ids_ q) -> 0 ∉ chain_ids_ q -> room (scheduler_ d) ->
  exists d' ord' ms, send q d = Ok d' /\ dinv ∅ (delivered W ms) ord' (scheduler_ d') /\ sent d' = sent d ++ ms /\ Forall message_ok ms /\ queue (scheduler_ d') = [] /\
    (length ord' + answers ms = length ord + 1)%nat.
Proof.
  intros Hi Hnd H0 [Hslots _]. unfold send. cbn [move_callback]. set (q1 := with_delivery _ _ _ q). change (chain_ids_ q1) with (chain_ids_ q).
  assert (forallb (fun c => negb (c =? 0)) (chain_ids_ q) = true) as ->.
  { apply forallb_forall. intros c Hc%list_elem_of_In. destruct (c =? 0) eqn:E; zbool; [by rewrite E in Hc | done]. }
  set (n := {| net_query_ref := _ |}). destruct (create_step W ord (scheduler_ d) (chain_ids_ q) n Hi Hnd H0 Hslots) as (t & s1 & -> & Hi1); [done | done|]. cbn [res_bind].
  destruct (loop_ok ∅ W _ (with_scheduler s1 d) Hi1) as (d' & ms & -> & [A1 A2 A3 A4] & Hq & _). exists d', (ord ++ [t]), ms. split_and!; try done. rewrite A4, length_app. done.
Qed.

(** ** The dispatcher and the world

    An event is a query to send, an answer of the network to a query it has, or the decision
    of a callback about a query that was given to it: to send one, or not. *)
Inductive event :=
| Send (q : NetQuery)
| Answer (constructor_of : Z -> Z) (t : TaskId) (q : NetQuery)
| Decision (t : TaskId) (r : option NetQuery).

Definition handle (e : event) (d : Dispatcher) : Res Dispatcher :=
  match e with
  | Send q => send q d
  | Answer f t q => on_result f t q d
  | Decision t r => on_resend t r d
  end.

(** The chains of a query come from its constructor, and the scheduler has room: fewer than
    2^31 - 1 slots, and no chain had 2^63 generations. *)
Definition may_happen (e : event) (d : Dispatcher) (W : places) : Prop :=
  match e with
  | Send q => exists l, chain_ids_ q = make_chain_ids l
  | Answer _ t _ => W !! t = Some AtNetwork
  | Decision t _ => W !! t = Some AtCallback
  end /\ room (scheduler_ d).

Definition places_after (e : event) (W : places) (ms : list message) : places :=
  delivered (match e with Send _ => W | Answer _ t _ | Decision t _ => delete t W end) ms.

Definition idle (d : Dispatcher) : Dispatcher := {| scheduler_ := scheduler_ d; sent := [] |}.

Inductive world : Dispatcher -> places -> Prop :=
| world_new : world new_dispatcher ∅
| world_event e d W d' : world d W -> may_happen e d W -> handle e (idle d) = Ok d' -> world d' (places_after e W (sent d')).

(** The unfinished tasks [ord] and where their queries are. *)
Definition tracked (d : Dispatcher) (W : places) (ord : list TaskId) : Prop :=
  NoDup ord /\ queue (scheduler_ d) = [] /\ (forall x, is_Some (W !! x) -> x ∈ ord) /\
  (forall x, x ∈ ord -> exists n st, get_task_extra x (scheduler_ d) = Some n /\ state_of x (scheduler_ d) = Some st /\
     match W !! x with
     | None => is_Some (net_query n) /\ st = Pending
     | Some AtNetwork => net_query n = None /\ st = Active
     | Some AtCallback => net_query n = None /\ st <> Pending
     end) /\
  (ord <> [] -> W <> ∅).

(** How many queries come, and how many leave by the decision of their callback. *)
Definition comes (e : event) : nat := match e with Send _ => 1 | _ => 0 end.
Definition leaves (e : event) : nat := match e with Decision _ None => 1 | _ => 0 end.

Lemma dinv_tracked W ord d : dinv ∅ W ord (scheduler_ d) -> queue (scheduler_ d) = [] -> tracked d W ord.
Proof.
  intros [Hg Hw Hh Ht] Hq. assert (forall x, x ∈ ord -> exists n st, get_task_extra x (scheduler_ d) = Some n /\ state_of x (scheduler_ d) = Some st /\
     match W !! x with None => is_Some (net_query n) /\ st = Pending | Some AtNetwork => net_query n = None /\ st = Active | Some AtCallback => net_query n = None /\ st <> Pending end) as Hall.
  { intros x Hx. destruct (Ht x Hx) as (n & st & Hn & Hst & _ & Hp). exists n, st. split_and!; [done..|]. unfold placed in Hp. rewrite decide_False in Hp by set_solver. rewrite Hq in Hp.
    destruct (W !! x) as [[]|]; [naive_solver | naive_solver|]. destruct Hp as [? [?|?%elem_of_nil]]; done. }
  split_and!; [by eapply good_nodup | done | done | done|]. intros Hne ->. destruct (not_all_pending ord (scheduler_ d) Hg Hne) as (x & Hx & Hnp).
  destruct (Hall x Hx) as (n & st & _ & Hst & Hm). rewrite lookup_empty in Hm. destruct Hm as [_ ->]. done.
Qed.

Lemma event_ok W ord d e : dinv ∅ W ord (scheduler_ d) -> queue (scheduler_ d) = [] -> may_happen e d W ->
  exists d' ord', handle e (idle d) = Ok d' /\ dinv ∅ (places_after e W (sent d')) ord' (scheduler_ d') /\ queue (scheduler_ d') = [] /\ Forall message_ok (sent d') /\
    (length ord' + answers (sent d') + leaves e = length ord + comes e)%nat.
Proof.
  intros Hi Hq [He Hroom]. unfold places_after. destruct e as [q | f t q | t r]; cbn [handle leaves comes] in *.
  - destruct He as [l Hl]. destruct (make_chain_ids_ok l) as [Hnd H0]. rewrite <- Hl in Hnd, H0.
    destruct (send_ok W ord (idle d) q Hi Hnd H0 Hroom) as (d' & ord' & ms & -> & Hi' & Hs & Hok & Hq' & Hc). cbn in Hs. exists d', ord'. rewrite Hs. split_and!; try done. lia.
  - pose proof (take_in_hand W ord (scheduler_ d) t AtNetwork Hi He) as Hi1.
    destruct (on_result_ok (delete t W) ord (idle d) f t q Hi1 Hq Hroom) as (d' & ord' & ms & -> & Hi' & Hs & Hok & Hq' & Hc). cbn in Hs. exists d', ord'. rewrite Hs. split_and!; try done. lia.
  - pose proof (take_in_hand W ord (scheduler_ d) t AtCallback Hi He) as Hi1.
    destruct (on_resend_ok (delete t W) ord (idle d) t r Hi1 Hroom) as (d' & ord' & ms & -> & Hi' & Hs & Hok & Hq' & Hc). cbn in Hs. exists d', ord'. rewrite Hs. split_and!; try done.
    assert (t ∈ ord) as Hin by (apply (dv_where _ _ _ _ Hi); by rewrite He). destruct ord; [by apply elem_of_nil in Hin|]. destruct r; cbn in *; lia.
Qed.

Lemma world_inv d W : world d W -> exists ord, dinv ∅ W ord (scheduler_ d) /\ queue (scheduler_ d) = [].
Proof.
  induction 1 as [|e d W d' _ (ord & Hi & Hq) He Hd].
  - exists []. split; [|done]. constructor; [apply good_new | intros x; rewrite lookup_empty; by intros [] | set_solver | by intros x ?%elem_of_nil].
  - destruct (event_ok W ord d e Hi Hq He) as (d1 & ord' & Hd1 & Hi' & Hq' & _). assert (d1 = d') as -> by congruence. by exists ord'.
Qed.

(** C3. Queries to the server are not lost, not answered twice and not stuck.  After any
    sequence of queries, answers of the network and decisions of callbacks, in any
    interleaving, every unfinished query is in exactly one place: held by the dispatcher
    exactly while its task is pending, at the network, or at its callback; nothing waits in the
    queue of the scheduler; and if there are unfinished queries at all, one of them is at the
    network or at a callback.  The next event is then handled without a failed check or a null
    pointer, every message that is sent carries a query and refers to existing ones, and
    exactly as many queries end as final answers are given. *)
Theorem dispatcher_places (d : Dispatcher) (W : places) : world d W ->
  exists ord, tracked d W ord /\ forall e, may_happen e d W ->
    exists d' ord', handle e (idle d) = Ok d' /\ Forall message_ok (sent d') /\ tracked d' (places_after e W (sent d')) ord' /\
      (length ord' + answers (sent d') + leaves e = length ord + comes e)%nat.
Proof.
  intros Hw. destruct (world_inv d W Hw) as (ord & Hi & Hq). exists ord. split; [by apply dinv_tracked|]. intros e He.
  destruct (event_ok W ord d e Hi Hq He) as (d' & ord' & Hd & Hi' & Hq' & Hok & Hc). exists d', ord'. split_and!; [done | done | by apply dinv_tracked | done].
Qed.

(** C25. What the dispatcher sends: [flush_pending_queries] ends with an empty queue, and has
    sent the query of every task of the queue, in the order of the queue and each once, with
    no delay left from before and to be executed after the queries right before it in its
    chains; no check fails. *)
Theorem dispatcher_flush (H : gset TaskId) (W : places) (ord : list TaskId) (d : Dispatcher) : dinv H W ord (scheduler_ d) ->
  exists d', flush_pending_queries d = Ok d' /\ sent d' = sent d ++ map (message_for (scheduler_ d)) (queue (scheduler_ d)) /\ queue (scheduler_ d') = [].
Proof.
  intros Hi. destruct (flush_loop_ok (queue (scheduler_ d)) H W ord d Hi eq_refl) as (d' & Heq & _ & Hq & [Hs _ _] & _). by exists d'.
Qed.

(** ** An example: two queries with a common chain, the first of which has a callback *)
Definition first_query : NetQuery := with_delivery [] false (Some 5) (new_net_query 100 1 60 [7]).
Definition second_query : NetQuery := new_net_query 101 1 60 [7; 8; 7].
Definition handled (e : event) (d : Dispatcher) : Dispatcher := match handle e (idle d) with Ok d => d | _ => d end.
Definition after_one : Dispatcher := handled (Send first_query) new_dispatcher.
Definition after_two : Dispatcher := handled (Send second_query) after_one.
Definition after_answer : Dispatcher := handled (Answer (fun _ => 1) 256 first_query) after_two.

Lemma room_decided s : bool_decide (Z.of_nat (length (slots_ (tasks_ s))) < 2 ^ 31 - 1) && bool_decide (map_Forall (fun _ ci => chain_generation ci <= 2 ^ 63) (chains_ s)) = true -> room s.
Proof. intros [H1%bool_decide_eq_true H2%bool_decide_eq_true]%andb_true_iff. split; [done|]. intros c ci Hc. by apply (H2 c ci Hc). Qed.

Lemma example_world : world after_answer {[256 := AtCallback; 2 ^ 32 + 256 := AtNetwork]}.
Proof.
  assert (world after_one {[256 := AtNetwork]}) as H1.
  { apply (world_event (Send first_query) new_dispatcher ∅ after_one world_new); [|vm_compute; reflexivity]. split; [by exists [7] | by apply room_decided]. }
  assert (world after_two {[256 := AtNetwork; 2 ^ 32 + 256 := AtNetwork]}) as H2.
  { assert (places_after (Send second_query) {[256 := AtNetwork]} (sent after_two) = {[256 := AtNetwork; 2 ^ 32 + 256 := AtNetwork]}) as <- by (vm_compute; reflexivity).
    apply (world_event (Send second_query) after_one _ after_two H1); [|vm_compute; reflexivity]. split; [by exists [7; 8; 7] | by apply room_decided]. }
  assert (places_after (Answer (fun _ => 1) 256 first_query) {[256 := AtNetwork; 2 ^ 32 + 256 := AtNetwork]} (sent after_answer) = {[256 := AtCallback; 2 ^ 32 + 256 := AtNetwork]}) as <- by (vm_compute; reflexivity).
  apply (world_event (Answer (fun _ => 1) 256 first_query) after_two _ after_answer H2); [|vm_compute; reflexivity]. split; [done | by apply room_decided].
Qed.

Lemma dispatcher_places_witness :
  world after_answer {[256 := AtCallback; 2 ^ 32 + 256 := AtNetwork]} /\ exists ord, tracked after_answer {[256 := AtCallback; 2 ^ 32 + 256 := AtNetwork]} ord /\ ord <> [].
Proof.
  split; [apply example_world|]. destruct (dispatcher_places after_answer _ example_world) as (ord & Ht & _). exists ord. split; [exact Ht|].
  destruct Ht as (_ & _ & Hw & _). intros ->. apply (not_elem_of_nil 256), Hw. vm_compute. eauto.
Defined.

Definition example_node : Node := {| net_query_ref := Some 100; net_query := Some first_query; total_timeout := 0; last_timeout := 0; callback := Some 5 |}.
Definition example_queue : Scheduler := match create_task new_node [7] example_node new_scheduler with Ok (_, s) => s | _ => new_scheduler end.
Lemma example_queue_dinv : exists t, dinv ∅ ∅ [t] example_queue.
Proof.
  destruct (create_step ∅ [] new_scheduler [7] example_node) as (t & s & Heq & Hi); [| by apply (bool_decide_unpack _) | by apply (bool_decide_unpack _) | done | done | done |].
  - constructor; [apply good_new | intros x; rewrite lookup_empty; by intros [] | set_solver | by intros x ?%elem_of_nil].
  - exists t. unfold example_queue. by rewrite Heq.
Qed.

Lemma dispatcher_flush_witness :
  queue example_queue = [256] /\
  exists d', flush_pending_queries {| scheduler_ := example_queue; sent := [] |} = Ok d' /\ sent d' = [ToNetwork 256 (set_invoke_after [] first_query)] /\ queue (scheduler_ d') = [].
Proof.
  split; [vm_compute; reflexivity|]. destruct example_queue_dinv as [t Hi].
  destruct (dispatcher_flush ∅ ∅ [t] {| scheduler_ := example_queue; sent := [] |} Hi) as (d' & H1 & H2 & H3). exists d'. split; [exact H1|]. split; [|exact H3]. rewrite H2. vm_compute. reflexivity.
Defined.
