(* ===== verification/SingleSequence.v ===== *)
(** * The dispatcher of one sequence of queries

    [SequenceDispatcher] (td/telegram/SequenceDispatcher.h, SequenceDispatcher.cpp), which
    sends the queries of a secret chat one after the other, each to be executed after the
    previous one.  Up to ten of them wait for an answer at a time; when one fails, a new
    generation begins and the unfinished ones are sent again.

    A position in [data_] and the token of its query differ by [id_offset_].  As in
    SequenceDispatcher, the messages of the actor are collected, and an [OwnerPtr] is the
    query or [None].  [last_sent_i_] is [None] for the greatest number. *)
From stdpp Require Import pretty.
From S2P Require Import Prelude SequenceDispatcher.
Local Open Scope td_scope.

Module Sequence.

Inductive SeqState := Start | Wait | Finish | Dummy.
#[global] Instance SeqState_eq_dec : EqDecision SeqState.
Proof. solve_decision. Defined.

Record Data := {
  d_state : SeqState;
  d_ref : NetQueryRef;
  d_query : option NetQuery;
  d_callback : Callback;
  d_generation : Z;
  d_total : Z;
  d_last : Z;
}.
Definition set_state (st : SeqState) (x : Data) : Data :=
  {| d_state := st; d_ref := d_ref x; d_query := d_query x; d_callback := d_callback x; d_generation := d_generation x; d_total := d_total x; d_last := d_last x |}.
Definition set_query (q : option NetQuery) (x : Data) : Data :=
  {| d_state := d_state x; d_ref := d_ref x; d_query := q; d_callback := d_callback x; d_generation := d_generation x; d_total := d_total x; d_last := d_last x |}.
Definition set_generation (g : Z) (x : Data) : Data :=
  {| d_state := d_state x; d_ref := d_ref x; d_query := d_query x; d_callback := d_callback x; d_generation := g; d_total := d_total x; d_last := d_last x |}.
Definition set_timeouts (total last : Z) (x : Data) : Data :=
  {| d_state := d_state x; d_ref := d_ref x; d_query := d_query x; d_callback := d_callback x; d_generation := d_generation x; d_total := total; d_last := last |}.

Inductive message :=
| ToNetwork (token : Z) (q : NetQuery)
| ToTd (q : option NetQuery)
| ToCallback (token : Z) (to : Z) (q : option NetQuery)
| ToParentResult
| ToParentReady.

Record Dispatcher := {
  parent_ : bool;
  id_offset_ : Z;
  data_ : list Data;
  finish_i_ : nat;
  next_i_ : nat;
  last_sent_i_ : option nat;
  generation_ : Z;
  wait_cnt_ : Z;
  timeout_ : option Z;
  sent : list message;
}.
Definition new_dispatcher (parent : bool) : Dispatcher :=
  {| parent_ := parent; id_offset_ := 1; data_ := []; finish_i_ := 0; next_i_ := 0; last_sent_i_ := None; generation_ := 1; wait_cnt_ := 0; timeout_ := None; sent := [] |}.

Definition MAX_SIMULTANEOUS_WAIT : Z := 10.

Definition with_data (l : list Data) (d : Dispatcher) : Dispatcher :=
  {| parent_ := parent_ d; id_offset_ := id_offset_ d; data_ := l; finish_i_ := finish_i_ d; next_i_ := next_i_ d; last_sent_i_ := last_sent_i_ d;
     generation_ := generation_ d; wait_cnt_ := wait_cnt_ d; timeout_ := timeout_ d; sent := sent d |}.
Definition with_wait (w : Z) (d : Dispatcher) : Dispatcher :=
  {| parent_ := parent_ d; id_offset_ := id_offset_ d; data_ := data_ d; finish_i_ := finish_i_ d; next_i_ := next_i_ d; last_sent_i_ := last_sent_i_ d;
     generation_ := generation_ d; wait_cnt_ := w; timeout_ := timeout_ d; sent := sent d |}.
Definition with_indices (f n : nat) (ls : option nat) (d : Dispatcher) : Dispatcher :=
  {| parent_ := parent_ d; id_offset_ := id_offset_ d; data_ := data_ d; finish_i_ := f; next_i_ := n; last_sent_i_ := ls;
     generation_ := generation_ d; wait_cnt_ := wait_cnt_ d; timeout_ := timeout_ d; sent := sent d |}.
Definition with_generation (g : Z) (d : Dispatcher) : Dispatcher :=
  {| parent_ := parent_ d; id_offset_ := id_offset_ d; data_ := data_ d; finish_i_ := finish_i_ d; next_i_ := next_i_ d; last_sent_i_ := last_sent_i_ d;
     generation_ := g; wait_cnt_ := wait_cnt_ d; timeout_ := timeout_ d; sent := sent d |}.
Definition with_offset (o : Z) (d : Dispatcher) : Dispatcher :=
  {| parent_ := parent_ d; id_offset_ := o; data_ := data_ d; finish_i_ := finish_i_ d; next_i_ := next_i_ d; last_sent_i_ := last_sent_i_ d;
     generation_ := generation_ d; wait_cnt_ := wait_cnt_ d; timeout_ := timeout_ d; sent := sent d |}.
Definition with_timeout (t : option Z) (d : Dispatcher) : Dispatcher :=
  {| parent_ := parent_ d; id_offset_ := id_offset_ d; data_ := data_ d; finish_i_ := finish_i_ d; next_i_ := next_i_ d; last_sent_i_ := last_sent_i_ d;
     generation_ := generation_ d; wait_cnt_ := wait_cnt_ d; timeout_ := t; sent := sent d |}.
Definition post (m : message) (d : Dispatcher) : Dispatcher :=
  {| parent_ := parent_ d; id_offset_ := id_offset_ d; data_ := data_ d; finish_i_ := finish_i_ d; next_i_ := next_i_ d; last_sent_i_ := last_sent_i_ d;
     generation_ := generation_ d; wait_cnt_ := wait_cnt_ d; timeout_ := timeout_ d; sent := sent d ++ [m] |}.

Definition data_at (pos : nat) (d : Dispatcher) : Res Data :=
  match data_ d !! pos with Some x => Ok x | None => Panic "pos < data_.size()" end.
Definition put (pos : nat) (x : Data) (d : Dispatcher) : Dispatcher := with_data (<[pos := x]> (data_ d)) d.

(** The first loop of [loop]. *)
Fixpoint skip_finished (l : list Data) : nat :=
  match l with
  | x :: l => if bool_decide (d_state x = Finish) then S (skip_finished l) else 0
  | [] => 0
  end.

(** The second one; a turn of it moves [next_i_]. *)
Fixpoint send_loop (fuel : nat) (d : Dispatcher) : Res Dispatcher :=
  match data_ d !! next_i_ d with
  | None => Ok d
  | Some x =>
      if bool_decide (d_state x = Wait) || (MAX_SIMULTANEOUS_WAIT <=? wait_cnt_ d) then Ok d
      else
        match fuel with
        | O => Panic "fuel"
        | S fuel =>
            if bool_decide (d_state x = Finish) then send_loop fuel (with_indices (finish_i_ d) (S (next_i_ d)) (last_sent_i_ d) d)
            else
              let* after :=
                match last_sent_i_ d with
                | None => Ok None
                | Some i => let* y := data_at i d in Ok (if bool_decide (d_state y = Wait) then d_ref y else None)
                end in
              match d_query x with
              | None => Panic "query_->set_invoke_after"
              | Some q =>
                  let q := set_invoke_after (match after with None => [] | Some r => [Some r] end) q in
                  let q := with_timeouts (total_timeout_ q) 0 q in
                  let i := next_i_ d in
                  let d := post (ToNetwork (u64 (Z.of_nat i + id_offset_ d)) q) d in
                  let d := put i (set_generation (generation_ d) (set_state Wait (set_query None x))) d in
                  let d := with_wait (u32 (wait_cnt_ d + 1)) d in
                  send_loop fuel (with_indices (finish_i_ d) (S i) (Some i) d)
              end
        end
  end.

Definition try_shrink (d : Dispatcher) : Res Dispatcher :=
  let f := finish_i_ d in
  if Nat.ltb (length (data_ d)) (f * 2) && Nat.ltb 5 (length (data_ d)) then
    CHECK! Nat.leb f (next_i_ d) else "finish_i_ <= next_i_" in
    let last := match last_sent_i_ d with Some i => if Nat.leb f i then Some (i - f)%nat else None | None => None end in
    Ok (with_offset (u64 (id_offset_ d + Z.of_nat f)) (with_indices 0 (next_i_ d - f) last (with_data (drop f (data_ d)) d)))
  else Ok d.

Definition loop (d : Dispatcher) : Res Dispatcher :=
  let f := (finish_i_ d + skip_finished (drop (finish_i_ d) (data_ d)))%nat in
  let n := if Nat.ltb (next_i_ d) f then f else next_i_ d in
  let d := with_indices f n (last_sent_i_ d) d in
  let* d := send_loop (length (data_ d)) d in
  let* d := try_shrink d in
  if Nat.eqb (finish_i_ d) (length (data_ d)) && parent_ d then Ok (with_timeout (Some 5) d) else Ok d.

Definition do_finish (pos : nat) (d : Dispatcher) : Res Dispatcher :=
  let* x := data_at pos d in
  CHECK! bool_decide (d_state x = Dummy) else "data.state_ == State::Dummy" in
  let d := put pos (set_state Finish x) d in
  Ok (if parent_ d then post ToParentResult d else d).

(** [query] was moved out of [data] by the caller. *)
Definition try_resend_query (pos : nat) (q : option NetQuery) (d : Dispatcher) : Res Dispatcher :=
  let* x := data_at pos d in
  CHECK! bool_decide (d_state x = Dummy) else "data.state_ == State::Dummy" in
  let d := with_wait (u32 (wait_cnt_ d + 1)) (put pos (set_state Wait x) d) in
  let token := u64 (Z.of_nat pos + id_offset_ d) in
  match d_callback x with
  | None =>
      let* d := do_finish pos d in
      loop (post (ToTd q) d)
  | Some to => Ok (post (ToCallback token to q) d)
  end.

Definition check_timeout (pos : nat) (d : Dispatcher) : Res Dispatcher :=
  let* x := data_at pos d in
  if negb (bool_decide (d_state x = Start)) then Ok d
  else
    match d_query x with
    | None => Panic "data.query_->total_timeout_"
    | Some q =>
        let q := with_timeouts (s32 (total_timeout_ q + d_total x)) (last_timeout_ q) q in
        let x := set_query (Some q) (set_timeouts 0 (d_last x) x) in
        if total_timeout_limit_ q <? total_timeout_ q then
          let q := set_error (429, "Too Many Requests: retry after " +:+ pretty (d_last x)) q in
          try_resend_query pos (Some q) (put pos (set_query None (set_state Dummy x)) d)
        else Ok (put pos x d)
    end.

Definition data_from_token (token : Z) (d : Dispatcher) : Res (nat * Dispatcher) :=
  let pos := Z.to_nat (u64 (token - id_offset_ d)) in
  let* x := data_at pos d in
  CHECK! bool_decide (d_state x = Wait) else "data.state_ == State::Wait" in
  CHECK! 0 <? wait_cnt_ d else "wait_cnt_ > 0" in
  Ok (pos, with_wait (wait_cnt_ d - 1) (put pos (set_state Dummy x) d)).

Definition do_resend (pos : nat) (d : Dispatcher) : Res Dispatcher :=
  let* x := data_at pos d in
  CHECK! bool_decide (d_state x = Dummy) else "data.state_ == State::Dummy" in
  let d := put pos (set_state Start x) d in
  let d :=
    if d_generation x =? generation_ d then
      with_indices (finish_i_ d) (finish_i_ d) None (with_generation (u64 (generation_ d + 1)) d)
    else d in
  check_timeout pos d.

(** *** The handlers *)
Definition send_with_callback (q : NetQuery) (callback : Callback) (d : Dispatcher) : Res Dispatcher :=
  let d := with_timeout None d in
  let x := {| d_state := Start; d_ref := get_weak q; d_query := Some q; d_callback := callback; d_generation := 0; d_total := 0; d_last := 0 |} in
  loop (with_data (data_ d ++ [x]) d).

Definition set_data_query (pos : nat) (q : NetQuery) (d : Dispatcher) : Res Dispatcher :=
  let* x := data_at pos d in Ok (put pos (set_query (Some q) x) d).

Definition on_resend_ok (token : Z) (q : NetQuery) (d : Dispatcher) : Res Dispatcher :=
  let* (pos, d) := data_from_token token d in
  let* d := set_data_query pos q d in
  let* d := do_resend pos d in
  loop d.
Definition on_resend_error (token : Z) (d : Dispatcher) : Res Dispatcher :=
  let* (pos, d) := data_from_token token d in
  let* d := do_finish pos d in
  loop d.

(** The loop over the queries behind the one that was delayed: the condition is tested with
    the present size. *)
Fixpoint delay_others (fuel : nat) (i : nat) (timeout : Z) (d : Dispatcher) : Res Dispatcher :=
  if Nat.ltb i (length (data_ d)) then
    match fuel with
    | O => Panic "fuel"
    | S fuel =>
        let* x := data_at i d in
        let d := put i (set_timeouts (s32 (d_total x + timeout)) timeout x) d in
        let* d := check_timeout i d in
        delay_others fuel (S i) timeout d
    end
  else Ok d.

Definition on_result (token : Z) (q : NetQuery) (d : Dispatcher) : Res Dispatcher :=
  let* (pos, d) := data_from_token token d in
  let* (q, d) :=
    if negb (last_timeout_ q =? 0) then
      let* d := delay_others (length (data_ d)) (S pos) (last_timeout_ q) d in
      Ok (with_timeouts (total_timeout_ q) 0 q, d)
    else Ok (q, d) in
  let* d :=
    if MultiSequenceDispatcher.must_resend q then
      let* d := set_data_query pos (resend q) d in do_resend pos d
    else try_resend_query pos (Some q) d in
  loop d.

Definition timeout_expired (d : Dispatcher) : Res Dispatcher :=
  if negb (Nat.eqb (finish_i_ d) (length (data_ d))) then Ok d
  else
    CHECK! parent_ d else "!parent_.empty()" in
    Ok (post ToParentReady (with_timeout (Some 1) d)).

(** Run when the actor stops, which [hangup] and [close_silent] make it do. *)
Definition tear_down (d : Dispatcher) : Dispatcher :=
  foldl (fun d pos =>
    match data_ d !! pos with
    | Some x =>
        match d_query x with
        | None => d
        | Some q =>
            let d := put pos (set_state Finish (set_query (Some (set_error (500, "Request aborted") q)) x)) d in
            if parent_ d then post ToParentResult d else d
        end
    | None => d
    end) d (seq 0 (length (data_ d))).

(** [NetQuery::clear] *)
Definition clear (q : NetQuery) : NetQuery :=
  {| storage_ := storage_ q; state_ := QEmpty; status_ := (0, ""); tl_constructor_ := 0; chain_ids_ := []; invoke_after_ := []; in_sequence_dispatcher_ := false; callback_ := None;
     total_timeout_ := 0; total_timeout_limit_ := 60; last_timeout_ := 0 |}.
Definition close_silent (d : Dispatcher) : Dispatcher :=
  with_data (map (fun x => match d_query x with Some q => set_query (Some (clear q)) x | None => x end) (data_ d)) d.

End Sequence.
(** ** The invariant *)
Section proofs.
Import Sequence.
#[local] Arguments u32 : simpl never.
#[local] Arguments u64 : simpl never.
#[local] Arguments Nat.ltb : simpl never.

Inductive place := AtNetwork | AtCallback.
Abbreviation places := (gmap Z place).
Definition deliver (W : places) (m : message) : places :=
  match m with
  | ToNetwork token _ => <[token := AtNetwork]> W
  | ToCallback token _ _ => <[token := AtCallback]> W
  | _ => W
  end.
Definition delivered (W : places) (ms : list message) : places := foldl deliver W ms.
Definition message_ok (m : message) : Prop :=
  match m with
  | ToNetwork _ q => Forall is_Some (invoke_after_ q) /\ last_timeout_ q = 0
  | ToTd q | ToCallback _ _ q => is_Some q
  | _ => True
  end.

Definition waiting (l : list Data) : nat := length (filter (fun x => d_state x = Wait) l).
Definition unfinished (l : list Data) : nat := length (filter (fun x => d_state x <> Finish) l).

(** One query, at the position [i], when the query at [hand] is being handled. *)
Record entry_ok (f n : nat) (g off : Z) (hand : option nat) (W : places) (i : nat) (x : Data) : Prop := {
  eo_callback : is_Some (d_callback x);
  eo_ref : is_Some (d_ref x);
  eo_old : d_generation x <= g;
  eo_sent : d_generation x = g -> (i < n)%nat;
  eo_finished : (i < f)%nat -> d_state x = Finish;
  eo_before : (i < n)%nat -> d_state x = Finish \/ ((d_state x = Wait \/ d_state x = Dummy) /\ d_generation x = g);
  eo_hand : d_state x = Dummy <-> hand = Some i;
  eo_place : match d_state x with
             | Start => is_Some (d_query x) /\ W !! (off + Z.of_nat i) = None
             | Wait => d_query x = None /\ is_Some (W !! (off + Z.of_nat i))
             | _ => W !! (off + Z.of_nat i) = None
             end;
}.

Record sinv (hand : option nat) (W : places) (u : nat) (d : Dispatcher) : Prop := {
  sv_entry i x : data_ d !! i = Some x -> entry_ok (finish_i_ d) (next_i_ d) (generation_ d) (id_offset_ d) hand W i x;
  sv_indices : (finish_i_ d <= next_i_ d <= length (data_ d))%nat;
  sv_last i : last_sent_i_ d = Some i -> (i < length (data_ d))%nat;
  sv_count : wait_cnt_ d = Z.of_nat (waiting (data_ d));
  sv_unfinished : unfinished (data_ d) = u;
  sv_tokens t : is_Some (W !! t) -> exists i, t = id_offset_ d + Z.of_nat i /\ (i < length (data_ d))%nat;
  sv_offset : 0 <= id_offset_ d /\ id_offset_ d + Z.of_nat (length (data_ d)) < 2 ^ 64 /\ Z.of_nat (length (data_ d)) < 2 ^ 32;
  sv_timeout : is_Some (timeout_ d) -> parent_ d = true;
  sv_generation : 0 < generation_ d;
}.

Lemma filter_insert (P : Data -> Prop) {PD : forall x, Decision (P x)} l i x y : l !! i = Some x ->
  (length (filter P (<[i := y]> l)) + (if decide (P x) then 1 else 0) = length (filter P l) + (if decide (P y) then 1 else 0))%nat.
Proof.
  intros Hx. rewrite insert_take_drop by (by eapply lookup_lt_Some). rewrite <- (take_drop_middle l i x Hx) at 3. rewrite !filter_app, !length_app, !filter_cons.
  destruct (decide (P x)), (decide (P y)); cbn; lia.
Qed.
Lemma waiting_insert l i x y : l !! i = Some x ->
  (waiting (<[i := y]> l) + (if decide (d_state x = Wait) then 1 else 0) = waiting l + (if decide (d_state y = Wait) then 1 else 0))%nat.
Proof. exact (filter_insert (fun x => d_state x = Wait) l i x y). Qed.
Lemma unfinished_insert l i x y : l !! i = Some x ->
  (unfinished (<[i := y]> l) + (if decide (d_state x = Finish) then 0 else 1) = unfinished l + (if decide (d_state y = Finish) then 0 else 1))%nat.
Proof.
  intros Hx. pose proof (filter_insert (fun x => d_state x <> Finish) l i x y Hx) as H. unfold unfinished. destruct (decide (d_state x <> Finish)), (decide (d_state y <> Finish)), (decide (d_state x = Finish)), (decide (d_state y = Finish)); try done; lia.
Qed.
Lemma waiting_bound l : (waiting l <= length l)%nat.
Proof. apply length_filter. Qed.

Lemma u32_count n : (n < 2 ^ 32)%Z -> 0 <= n -> u32 n = n.
Proof. intros. apply u32_small. unfold is_u32. lia. Qed.
Lemma token_small d i : 0 <= id_offset_ d /\ id_offset_ d + Z.of_nat (length (data_ d)) < 2 ^ 64 /\ Z.of_nat (length (data_ d)) < 2 ^ 32 -> (i < length (data_ d))%nat ->
  u64 (Z.of_nat i + id_offset_ d) = id_offset_ d + Z.of_nat i.
Proof. intros. rewrite u64_small; [lia | unfold is_u64; lia]. Qed.

(** Changing one query. *)
Lemma put_ok hand hand' W W' u u' d pos x y : sinv hand W u d -> data_ d !! pos = Some x ->
  (forall i, i <> pos -> (hand' = Some i <-> hand = Some i) /\ W' !! (id_offset_ d + Z.of_nat i) = W !! (id_offset_ d + Z.of_nat i)) ->
  (forall t, is_Some (W' !! t) -> is_Some (W !! t) \/ t = id_offset_ d + Z.of_nat pos) ->
  entry_ok (finish_i_ d) (next_i_ d) (generation_ d) (id_offset_ d) hand' W' pos y ->
  (u' + (if decide (d_state x = Finish) then 0 else 1) = u + (if decide (d_state y = Finish) then 0 else 1))%nat ->
  sinv hand' W' u' (with_wait (Z.of_nat (waiting (<[pos := y]> (data_ d)))) (put pos y d)).
Proof.
  intros [S1 S2 S3 S4 S5 S6 S7 S8 S9] Hx Hother Htok Hy Hu. assert (pos < length (data_ d))%nat as Hlt by (by eapply lookup_lt_Some).
  constructor; cbn [with_wait put with_data data_ finish_i_ next_i_ last_sent_i_ generation_ wait_cnt_ id_offset_]; rewrite ?length_insert; try done.
  - intros i z. destruct (decide (i = pos)) as [->|Hne]; [rewrite list_lookup_insert_eq by done; by intros [= <-]|]. rewrite list_lookup_insert_ne by done.
    intros Hz. destruct (S1 i z Hz) as [E1 E2 E3 E4 E5 E6 E7 E8]. destruct (Hother i Hne) as [H1 H2]. constructor; try done; [by rewrite H1 | by rewrite H2].
  - pose proof (unfinished_insert (data_ d) pos x y Hx) as H. rewrite S5 in H. destruct (decide (d_state x = Finish)), (decide (d_state y = Finish)); lia.
  - intros t [Ht | ->]%Htok; [by apply S6 | by exists pos].
Qed.

(** The number of waiting queries that the code computes. *)
Lemma count_up hand W u d pos x y : sinv hand W u d -> data_ d !! pos = Some x -> d_state x <> Wait -> d_state y = Wait ->
  u32 (wait_cnt_ d + 1) = Z.of_nat (waiting (<[pos := y]> (data_ d))).
Proof.
  intros Hs Hx Hnx Hy. pose proof (waiting_insert (data_ d) pos x y Hx) as H. rewrite decide_False, decide_True in H by done. rewrite (sv_count _ _ _ _ Hs).
  pose proof (waiting_bound (<[pos := y]> (data_ d))) as Hb. rewrite length_insert in Hb. destruct (sv_offset _ _ _ _ Hs) as (_ & _ & Hl). rewrite u32_count; lia.
Qed.
Lemma count_same hand W u d pos x y : sinv hand W u d -> data_ d !! pos = Some x -> (d_state x = Wait <-> d_state y = Wait) ->
  wait_cnt_ d = Z.of_nat (waiting (<[pos := y]> (data_ d))).
Proof.
  intros Hs Hx Hiff. pose proof (waiting_insert (data_ d) pos x y Hx) as H. rewrite (sv_count _ _ _ _ Hs). destruct (decide (d_state x = Wait)), (decide (d_state y = Wait)); try tauto; lia.
Qed.
Lemma with_wait_same d : with_wait (wait_cnt_ d) d = d.
Proof. by destruct d. Qed.

(** What a step of a handler has done: messages were sent, and the rest is as before. *)
Record ran (hand : option nat) (W : places) (u : nat) (d d' : Dispatcher) (ms : list message) : Prop := {
  rn_inv : sinv hand (delivered W ms) u d';
  rn_sent : sent d' = sent d ++ ms;
  rn_ok : Forall message_ok ms;
  rn_gen : generation_ d' = generation_ d;
  rn_length : length (data_ d') = length (data_ d);
}.

Lemma sequence_delivered_app W l1 l2 : delivered W (l1 ++ l2) = delivered (delivered W l1) l2.
Proof. apply foldl_app. Qed.
Lemma ran_trans h1 h2 W u d d1 d2 ms1 ms2 : ran h1 W u d d1 ms1 -> ran h2 (delivered W ms1) u d1 d2 ms2 -> ran h2 W u d d2 (ms1 ++ ms2).
Proof.
  intros [A1 A2 A3 A4 A5] [B1 B2 B3 B4 B5]. constructor; [by rewrite sequence_delivered_app | by rewrite B2, A2, app_assoc | by apply Forall_app | congruence..].
Qed.

Lemma sinv_post hand W u d m : sinv hand W u d -> sinv hand W u (post m d).
Proof. intros []. by constructor. Qed.

Lemma token_inj d i j : id_offset_ d + Z.of_nat i = id_offset_ d + Z.of_nat j -> i = j.
Proof. lia. Qed.

(** The callback gets the query. *)
Lemma try_resend_eq pos q d x to : data_ d !! pos = Some x -> d_state x = Dummy -> d_callback x = Some to ->
  try_resend_query pos q d = Ok (post (ToCallback (u64 (Z.of_nat pos + id_offset_ d)) to q) (with_wait (u32 (wait_cnt_ d + 1)) (put pos (set_state Wait x) d))).
Proof. intros Hx Hs Hc. unfold try_resend_query, data_at. rewrite Hx. cbn [res_bind]. rewrite bool_decide_eq_true_2 by done. by rewrite Hc. Qed.

Lemma callback_message_ok t to q : Forall message_ok [ToCallback t to (Some q)].
Proof. constructor; [by eexists | constructor]. Qed.
Lemma sequence_try_resend_ok pos q W u d x : sinv (Some pos) W u d -> data_ d !! pos = Some x -> d_query x = None ->
  exists d' ms, try_resend_query pos (Some q) d = Ok d' /\ ran None W u d d' ms.
Proof.
  intros Hs Hx Hq. assert (pos < length (data_ d))%nat as Hlt by (by eapply lookup_lt_Some). destruct (sv_entry _ _ _ _ Hs pos x Hx) as [[to E1] E2 E3 E4 E5 E6 E7 E8].
  assert (d_state x = Dummy) as Hd by (by apply E7). rewrite (try_resend_eq pos _ d x to) by done. rewrite (token_small d pos) by (done || apply (sv_offset _ _ _ _ Hs)).
  eexists _, [ToCallback (id_offset_ d + Z.of_nat pos) to (Some q)]. split; [done|]. constructor; [|done | apply callback_message_ok | done | cbn; by rewrite length_insert].
  apply sinv_post. rewrite (count_up (Some pos) W u d pos x (set_state Wait x)) by (done || congruence). cbn [delivered foldl deliver].
  rewrite Hd in E8. apply (put_ok (Some pos) None W _ u u d pos x); [done | done | | | |].
  - intros i Hne. split; [split; [done | congruence]|]. rewrite lookup_insert_ne; [done|]. intros H. apply Hne. symmetry. by eapply token_inj.
  - intros t. destruct (decide (t = id_offset_ d + Z.of_nat pos)) as [->|Hne]; [by right|]. rewrite lookup_insert_ne by done. by left.
  - constructor; cbn; try done; [intros Hf; by rewrite (E5 Hf) in Hd | intros Hn; right; split; [by left|]; destruct (E6 Hn) as [|[_ ?]]; [congruence | done] |]. by rewrite lookup_insert_eq.
  - cbn. rewrite Hd. done.
Qed.

(** A query whose time is over is given to its callback. *)
Lemma check_timeout_ok hand pos W u d x : sinv hand W u d -> data_ d !! pos = Some x -> exists d' ms, check_timeout pos d = Ok d' /\ ran hand W u d d' ms /\ forall i, i <> pos -> data_ d' !! i = data_ d !! i.
Proof.
  intros Hs Hx. assert (pos < length (data_ d))%nat as Hlt by (by eapply lookup_lt_Some). destruct (sv_entry _ _ _ _ Hs pos x Hx) as [[to E1] E2 E3 E4 E5 E6 E7 E8].
  unfold check_timeout, data_at. rewrite Hx. cbn [res_bind]. case_bool_decide as Hst; cbn [negb].
  2: { exists d, []. split; [done|]. split; [|done]. constructor; [done | by rewrite app_nil_r | constructor | done | done]. }
  rewrite Hst in *. destruct E8 as [[q Hq] HW]. rewrite Hq. assert (~ (pos < next_i_ d)%nat) as Hge by (intros Hn; by destruct (E6 Hn) as [|[[|] _]]).
  assert (hand <> Some pos) as Hhand by (intros H; by apply E7 in H).
  set (q1 := with_timeouts _ _ q). set (x1 := set_query (Some q1) (set_timeouts 0 (d_last x) x)). destruct (total_timeout_limit_ q1 <? total_timeout_ q1).
  - set (x2 := set_query None (set_state Dummy x1)). set (d2 := put pos x2 d).
    rewrite (try_resend_eq pos _ d2 x2 to) by (done || (cbn; by rewrite list_lookup_insert_eq)). change (id_offset_ d2) with (id_offset_ d). rewrite (token_small d pos) by (done || apply (sv_offset _ _ _ _ Hs)).
    eexists _, [ToCallback (id_offset_ d + Z.of_nat pos) to (Some _)]. split; [done|]. split; [|intros i Hne; cbn; by rewrite !list_lookup_insert_ne]. constructor; [|done | apply callback_message_ok | done | cbn; by rewrite !length_insert].
    apply sinv_post. assert (put pos (set_state Wait x2) d2 = put pos (set_state Wait x2) d) as -> by (unfold d2, put, with_data; cbn; by rewrite list_insert_insert_eq).
    change (wait_cnt_ d2) with (wait_cnt_ d). rewrite (count_up hand W u d pos x (set_state Wait x2)) by (done || congruence). cbn [delivered foldl deliver].
    apply (put_ok hand hand W _ u u d pos x); [done | done | | | |].
    + intros i Hne. split; [done|]. rewrite lookup_insert_ne; [done|]. intros H. apply Hne. symmetry. by eapply token_inj.
    + intros t. destruct (decide (t = id_offset_ d + Z.of_nat pos)) as [->|Hne]; [by right|]. rewrite lookup_insert_ne by done. by left.
    + constructor; cbn; try done; [intros Hf; pose proof (sv_indices _ _ _ _ Hs); lia |]. rewrite lookup_insert_eq. done.
    + cbn. by rewrite Hst.
  - eexists _, []. split; [done|]. split; [|intros i Hne; cbn; by rewrite list_lookup_insert_ne]. constructor; [|by rewrite app_nil_r | constructor | done | cbn; by rewrite length_insert].
    cbn [delivered foldl]. rewrite <- (with_wait_same (put pos x1 d)). change (wait_cnt_ (put pos x1 d)) with (wait_cnt_ d). rewrite (count_same hand W u d pos x x1) by done.
    apply (put_ok hand hand W W u u d pos x); [done | done | done | by left | | done].
    constructor; cbn; rewrite ?Hst; try done; by exists to.
Qed.

(** Writing to a query without moving it. *)
Lemma put_same hand W u d pos x y : sinv hand W u d -> data_ d !! pos = Some x ->
  d_state y = d_state x -> d_ref y = d_ref x -> d_callback y = d_callback x -> d_generation y = d_generation x -> (d_state x <> Dummy -> d_query y = d_query x) ->
  sinv hand W u (put pos y d).
Proof.
  intros Hs Hx H1 H2 H3 H4 H5. rewrite <- (with_wait_same (put pos y d)). change (wait_cnt_ (put pos y d)) with (wait_cnt_ d). rewrite (count_same hand W u d pos x y) by (done || by rewrite H1).
  destruct (sv_entry _ _ _ _ Hs pos x Hx) as [E1 E2 E3 E4 E5 E6 E7 E8]. apply (put_ok hand hand W W u u d pos x); [done | done | done | by left | | by rewrite H1].
  constructor; rewrite ?H1, ?H2, ?H3, ?H4; try done. destruct (d_state x); try done; by rewrite H5.
Qed.

Lemma delay_others_ok fuel : forall i timeout p W u d, sinv (Some p) W u d -> (p < i)%nat -> (length (data_ d) <= i + fuel)%nat ->
  exists d' ms, delay_others fuel i timeout d = Ok d' /\ ran (Some p) W u d d' ms /\ data_ d' !! p = data_ d !! p.
Proof.
  induction fuel as [|fuel IH]; intros i timeout p W u d Hs Hp Hlen; cbn [delay_others]; destruct (Nat.ltb_spec i (length (data_ d))) as [Hi|Hi]; [lia | | |].
  1, 3: exists d, []; split; [done|]; split; [|done]; constructor; [done | by rewrite app_nil_r | constructor | done | done].
  destruct (lookup_lt_is_Some_2 _ _ Hi) as [x Hx]. unfold data_at. rewrite Hx. cbn [res_bind]. set (y := set_timeouts _ _ x).
  pose proof (put_same _ _ _ d i x y Hs Hx) as Hs1. specialize (Hs1 ltac:(done) ltac:(done) ltac:(done) ltac:(done) ltac:(done)).
  destruct (check_timeout_ok (Some p) i W u (put i y d) y Hs1) as (d1 & ms1 & -> & R1 & Hother); [cbn; by rewrite list_lookup_insert_eq|]. cbn [res_bind].
  pose proof (rn_length _ _ _ _ _ _ R1) as Hl1. cbn in Hl1. rewrite length_insert in Hl1.
  destruct (IH (S i) timeout p _ u d1 (rn_inv _ _ _ _ _ _ R1)) as (d2 & ms2 & -> & R2 & Hp2); [lia | lia|].
  exists d2, (ms1 ++ ms2). split; [done|]. split.
  - apply (ran_trans (Some p) _ W u d d1); [|done]. destruct R1 as [A1 A2 A3 A4 A5]. constructor; [done.. | cbn in A5; by rewrite A5, length_insert].
  - rewrite Hp2, Hother by lia. cbn. by rewrite list_lookup_insert_ne by lia.
Qed.

(** Taking a query that was answered or decided. *)
Lemma take_token token p W u d : sinv None W u d -> W !! token = Some p ->
  exists pos x, data_from_token token d = Ok (pos, with_wait (wait_cnt_ d - 1) (put pos x d)) /\ (pos < length (data_ d))%nat /\ d_query x = None /\
    sinv (Some pos) (delete token W) u (with_wait (wait_cnt_ d - 1) (put pos x d)).
Proof.
  intros Hs HW. destruct (sv_tokens _ _ _ _ Hs token ltac:(by rewrite HW)) as (pos & -> & Hlt). destruct (sv_offset _ _ _ _ Hs) as (Ho1 & Ho2 & Ho3).
  destruct (lookup_lt_is_Some_2 _ _ Hlt) as [x Hx]. destruct (sv_entry _ _ _ _ Hs pos x Hx) as [E1 E2 E3 E4 E5 E6 E7 E8].
  assert (d_state x = Wait) as Hst. { destruct (d_state x); [destruct E8; congruence | done | congruence | congruence]. }
  assert (waiting (<[pos := set_state Dummy x]> (data_ d)) + 1 = waiting (data_ d))%nat as Hcount. { pose proof (waiting_insert (data_ d) pos x (set_state Dummy x) Hx) as H. rewrite decide_True, decide_False in H by done. lia. }
  exists pos, (set_state Dummy x). rewrite Hst in *. unfold data_from_token, data_at. replace (u64 (id_offset_ d + Z.of_nat pos - id_offset_ d)) with (Z.of_nat pos) by (rewrite u64_small; [lia | unfold is_u64; lia]).
  rewrite Nat2Z.id, Hx. cbn [res_bind]. rewrite bool_decide_eq_true_2 by done. rewrite (sv_count _ _ _ _ Hs).
  destruct (Z.ltb_spec 0 (Z.of_nat (waiting (data_ d)))); [|lia]. split_and!; [done | done | apply E8|].
  replace (Z.of_nat (waiting (data_ d)) - 1) with (Z.of_nat (waiting (<[pos := set_state Dummy x]> (data_ d)))) by lia.
  apply (put_ok None (Some pos) W _ u u d pos x); [done | done | | | |].
  - intros i Hne. split; [split; congruence|]. rewrite lookup_delete_ne; [done|]. intros Ht. apply Hne. symmetry. by eapply token_inj.
  - intros t [q Hq]. left. apply lookup_delete_Some in Hq as [_ Hq]. by rewrite Hq.
  - constructor; cbn; try done; [intros Hf; by specialize (E5 Hf) | intros Hn; right; split; [by right|]; destruct (E6 Hn) as [|[_ ?]]; done | by rewrite lookup_delete_eq].
  - cbn. by rewrite Hst.
Qed.

Lemma do_finish_ok pos W u d : sinv (Some pos) W u d -> (pos < length (data_ d))%nat ->
  exists d' ms u', do_finish pos d = Ok d' /\ u = S u' /\ sinv None W u' d' /\ sent d' = sent d ++ ms /\ Forall message_ok ms /\ delivered W ms = W /\ generation_ d' = generation_ d.
Proof.
  intros Hs Hlt. destruct (lookup_lt_is_Some_2 _ _ Hlt) as [x Hx]. destruct (sv_entry _ _ _ _ Hs pos x Hx) as [E1 E2 E3 E4 E5 E6 E7 E8]. assert (d_state x = Dummy) as Hd by (by apply E7).
  unfold do_finish, data_at. rewrite Hx. cbn [res_bind]. rewrite bool_decide_eq_true_2 by done. pose proof (unfinished_insert (data_ d) pos x (set_state Finish x) Hx) as Hu. rewrite decide_False, decide_True in Hu by (cbn; congruence).
  destruct u as [|u]; [rewrite (sv_unfinished _ _ _ _ Hs) in Hu; lia|].
  assert (sinv None W u (put pos (set_state Finish x) d)) as Hs'.
  { rewrite <- (with_wait_same (put pos _ d)). change (wait_cnt_ (put pos _ d)) with (wait_cnt_ d). rewrite (count_same _ W (S u) d pos x (set_state Finish x)) by (done || (cbn; rewrite Hd; done)).
    rewrite Hd in E8. apply (put_ok (Some pos) None W W (S u) u d pos x); [done | done | intros i Hne; split; [split; congruence | done] | by left | | rewrite Hd, decide_False, decide_True by done; lia].
    constructor; cbn; try done. by left. }
  change (parent_ (put pos (set_state Finish x) d)) with (parent_ d). destruct (parent_ d).
  - exists (post ToParentResult (put pos (set_state Finish x) d)), [ToParentResult], u. split_and!; try done; [by apply sinv_post | by repeat constructor].
  - exists (put pos (set_state Finish x) d), [], u. split_and!; try done. by rewrite app_nil_r.
Qed.

(** A new generation. *)
Lemma bump_ok hand W u d : sinv hand W u d -> sinv hand W u (with_indices (finish_i_ d) (finish_i_ d) None (with_generation (generation_ d + 1) d)).
Proof.
  intros [S1 S2 S3 S4 S5 S6 S7 S8 S9]. constructor; cbn; try done; [|lia | lia]. intros i x Hx. destruct (S1 i x Hx) as [E1 E2 E3 E4 E5 E6 E7 E8].
  constructor; try done; [lia | lia | intros Hf; left; by apply E5].
Qed.
Lemma start_ok pos W u d x : sinv (Some pos) W u d -> data_ d !! pos = Some x -> is_Some (d_query x) -> ~ (pos < next_i_ d)%nat -> sinv None W u (put pos (set_state Start x) d).
Proof.
  intros Hs Hx Hq Hn. destruct (sv_entry _ _ _ _ Hs pos x Hx) as [E1 E2 E3 E4 E5 E6 E7 E8]. assert (d_state x = Dummy) as Hd by (by apply E7). pose proof (sv_indices _ _ _ _ Hs).
  rewrite <- (with_wait_same (put pos _ d)). change (wait_cnt_ (put pos _ d)) with (wait_cnt_ d). rewrite (count_same _ W u d pos x (set_state Start x)) by (done || (cbn; rewrite Hd; done)).
  rewrite Hd in E8. apply (put_ok (Some pos) None W W u u d pos x); [done | done | intros i Hne; split; [split; congruence | done] | by left | | by rewrite Hd].
  constructor; cbn; try done; intros; lia.
Qed.

Lemma sequence_do_resend_ok pos W u d x : sinv (Some pos) W u d -> data_ d !! pos = Some x -> is_Some (d_query x) -> generation_ d < 2 ^ 64 - 1 ->
  exists d' ms, do_resend pos d = Ok d' /\ sinv None (delivered W ms) u d' /\ sent d' = sent d ++ ms /\ Forall message_ok ms.
Proof.
  intros Hs Hx Hq Hg. destruct (sv_entry _ _ _ _ Hs pos x Hx) as [E1 E2 E3 E4 E5 E6 E7 E8]. assert (d_state x = Dummy) as Hd by (by apply E7). assert (pos < length (data_ d))%nat by (by eapply lookup_lt_Some).
  unfold do_resend, data_at. rewrite Hx. cbn [res_bind]. rewrite bool_decide_eq_true_2 by done. change (generation_ (put pos (set_state Start x) d)) with (generation_ d). set (d1 := if d_generation x =? generation_ d then _ else _).
  assert (sinv None W u d1 /\ data_ d1 !! pos = Some (set_state Start x) /\ sent d1 = sent d) as (Hs1 & Hx1 & Hsent).
  { unfold d1. destruct (Z.eqb_spec (d_generation x) (generation_ d)) as [He|He]; (split_and!; [|cbn; by rewrite list_lookup_insert_eq | done]).
    - rewrite u64_small by (unfold is_u64; pose proof (sv_generation _ _ _ _ Hs); lia). refine (start_ok pos W u _ x (bump_ok _ _ _ _ Hs) Hx Hq _). cbn. intros Hf. by rewrite (E5 Hf) in Hd.
    - apply start_ok; try done. intros Hn. destruct (E6 Hn) as [|[_ ?]]; congruence. }
  destruct (check_timeout_ok None pos W u d1 _ Hs1 Hx1) as (d2 & ms & Heq & [A1 A2 A3 _ _] & _). exists d2, ms. split_and!; try done. by rewrite A2, Hsent.
Qed.

(** ** Sending

    The positions of the queries from [a] to [b] that have not been sent, and the messages
    which send them, each to be executed after the one before it. *)
Definition starts (l : list Data) (a b : nat) : list nat := filter (fun i => d_state <$> l !! i = Some Start) (seq a (b - a)).
Fixpoint messages (off : Z) (l : list Data) (after : list NetQueryRef) (ps : list nat) : list message :=
  match ps with
  | [] => []
  | i :: ps =>
      match l !! i with
      | Some x =>
          match d_query x with
          | Some q => ToNetwork (off + Z.of_nat i) (with_timeouts (total_timeout_ q) 0 (set_invoke_after after q)) :: messages off l [d_ref x] ps
          | None => []
          end
      | None => []
      end
  end.
(** What the next query is to be executed after: the last one of this generation, if it waits. *)
Definition last_ref (d : Dispatcher) : list NetQueryRef :=
  match last_sent_i_ d ≫= (data_ d !!.) with
  | Some y => if bool_decide (d_state y = Wait) then [d_ref y] else []
  | None => []
  end.

Lemma starts_cons l a b : (a < b)%nat -> starts l a b = (if bool_decide (d_state <$> l !! a = Some Start) then [a] else []) ++ starts l (S a) b.
Proof.
  intros Hlt. unfold starts. replace (b - a)%nat with (S (b - S a)) by lia. cbn [seq]. rewrite filter_cons. case_bool_decide as H; [by rewrite decide_True | by rewrite decide_False].
Qed.
Lemma filter_agree {A} (P Q : A -> Prop) {PD : forall x, Decision (P x)} {QD : forall x, Decision (Q x)} (l : list A) : (forall x, x ∈ l -> P x <-> Q x) -> filter P l = filter Q l.
Proof.
  induction l as [|x l IH]; intros H; [done|]. rewrite !filter_cons, IH by (intros y Hy; apply H; by right). pose proof (H x ltac:(by left)) as Hx. destruct (decide (P x)), (decide (Q x)); tauto || done.
Qed.
Lemma elem_of_starts l a b i : i ∈ starts l a b <-> (a <= i < b)%nat /\ d_state <$> l !! i = Some Start.
Proof. unfold starts. rewrite list_elem_of_filter, elem_of_seq. intuition lia. Qed.
Lemma starts_insert l i y a b : (i < a)%nat -> starts (<[i := y]> l) a b = starts l a b.
Proof. intros Hlt. apply filter_agree. intros j Hj%elem_of_seq. by rewrite list_lookup_insert_ne by lia. Qed.
Lemma messages_insert off l i y ps : forall after, i ∉ ps -> messages off (<[i := y]> l) after ps = messages off l after ps.
Proof.
  induction ps as [|j ps IH]; intros after Hi; [done|]. apply not_elem_of_cons in Hi as [Hj Hi]. cbn [messages]. rewrite list_lookup_insert_ne by done.
  destruct (l !! j) as [x|]; [|done]. destruct (d_query x); [|done]. by rewrite IH.
Qed.

(** Passing a finished query. *)
Lemma pass_ok W u d x : sinv None W u d -> data_ d !! next_i_ d = Some x -> d_state x = Finish -> sinv None W u (with_indices (finish_i_ d) (S (next_i_ d)) (last_sent_i_ d) d).
Proof.
  intros [S1 S2 S3 S4 S5 S6 S7 S8 S9] Hx Hf. assert (next_i_ d < length (data_ d))%nat by (by eapply lookup_lt_Some). constructor; cbn; try done; [|lia].
  intros i y Hy. destruct (S1 i y Hy) as [E1 E2 E3 E4 E5 E6 E7 E8]. constructor; try done; [intros Hg; specialize (E4 Hg); lia|].
  intros Hi. destruct (decide (i = next_i_ d)) as [->|]; [left; congruence | apply E6; lia].
Qed.

(** Sending the next query. *)
Lemma send_one_ok W u d x : sinv None W u d -> data_ d !! next_i_ d = Some x -> d_state x = Start ->
  let y := set_generation (generation_ d) (set_state Wait (set_query None x)) in
  sinv None (<[id_offset_ d + Z.of_nat (next_i_ d) := AtNetwork]> W) u
    (with_indices (finish_i_ d) (S (next_i_ d)) (Some (next_i_ d)) (with_wait (u32 (wait_cnt_ d + 1)) (put (next_i_ d) y d))).
Proof.
  intros Hs Hx Hst y. set (pos := next_i_ d) in *. set (W' := <[_ := _]> W). assert (pos < length (data_ d))%nat as Hlt by (by eapply lookup_lt_Some). rewrite (count_up None W u d pos x y) by (done || congruence).
  destruct (sv_entry _ _ _ _ Hs pos x Hx) as [E1 E2 E3 E4 E5 E6 E7 E8]. pose proof (sv_indices _ _ _ _ Hs) as Hi. destruct Hs as [S1 S2 S3 S4 S5 S6 S7 S8 S9].
  assert (unfinished (<[pos := y]> (data_ d)) = u) as Hu. { pose proof (unfinished_insert (data_ d) pos x y Hx) as H. rewrite Hst, !decide_False in H by done. lia. }
  assert (forall i, i <> pos -> W' !! (id_offset_ d + Z.of_nat i) = W !! (id_offset_ d + Z.of_nat i)) as HW. { intros i Hne. unfold W'. rewrite lookup_insert_ne; [done|]. intros H. apply Hne. symmetry. by eapply token_inj. }
  constructor; cbn [with_indices with_wait put with_data data_ finish_i_ next_i_ last_sent_i_ generation_ wait_cnt_ id_offset_]; rewrite ?length_insert; try done; [|lia | by intros i [= <-] |].
  - intros i z. destruct (decide (i = pos)) as [->|Hne].
    + rewrite list_lookup_insert_eq by done. intros [= <-]. constructor; cbn; try done; [lia | intros Hf; fold pos in Hi; lia | by right; split; [left|] |]. unfold W'. by rewrite lookup_insert_eq.
    + rewrite list_lookup_insert_ne by done. intros Hz. destruct (S1 i z Hz) as [F1 F2 F3 F4 F5 F6 F7 F8]. constructor; try done; [intros Hg; specialize (F4 Hg); fold pos in F4; lia | intros Hn; apply F6; fold pos; lia | by rewrite HW].
  - intros t Ht. unfold W' in Ht. destruct (decide (t = id_offset_ d + Z.of_nat pos)) as [->|Hne]; [by exists pos|]. rewrite lookup_insert_ne in Ht by done. by apply S6.
Qed.

(** The loop that sends. *)
Definition blocked (d : Dispatcher) : Prop :=
  match data_ d !! next_i_ d with Some x => d_state x = Wait \/ MAX_SIMULTANEOUS_WAIT <= wait_cnt_ d | None => True end.

Record sends (W : places) (u : nat) (d d' : Dispatcher) : Prop := {
  sn_inv : sinv None (delivered W (messages (id_offset_ d) (data_ d) (last_ref d) (starts (data_ d) (next_i_ d) (next_i_ d')))) u d';
  sn_sent : sent d' = sent d ++ messages (id_offset_ d) (data_ d) (last_ref d) (starts (data_ d) (next_i_ d) (next_i_ d'));
  sn_ok : Forall message_ok (messages (id_offset_ d) (data_ d) (last_ref d) (starts (data_ d) (next_i_ d) (next_i_ d')));
  sn_blocked : blocked d';
  sn_next : (next_i_ d <= next_i_ d')%nat;
  sn_between i : (next_i_ d <= i < next_i_ d')%nat -> exists x, data_ d !! i = Some x /\ (d_state x = Start \/ d_state x = Finish);
  sn_limit : wait_cnt_ d' <= Z.max (wait_cnt_ d) MAX_SIMULTANEOUS_WAIT;
  sn_after i : (next_i_ d' <= i)%nat -> data_ d' !! i = data_ d !! i;
  sn_finished : finish_i_ d' = finish_i_ d /\ (forall i, d_state <$> data_ d' !! i = Some Finish <-> d_state <$> data_ d !! i = Some Finish) /\ length (data_ d') = length (data_ d) /\
    parent_ d' = parent_ d /\ id_offset_ d' = id_offset_ d;
}.

Lemma last_ref_ok hand W u d : sinv hand W u d ->
  (let* after := match last_sent_i_ d with None => Ok None | Some i => let* y := data_at i d in Ok (if bool_decide (d_state y = Wait) then d_ref y else None) end in
   Ok (match after with None => [] | Some r => [Some r] end)) = Ok (last_ref d) /\ Forall is_Some (last_ref d).
Proof.
  intros [S1 _ S3 _ _ _ _ _ _]. unfold last_ref. destruct (last_sent_i_ d) as [i|]; [|done]. destruct (lookup_lt_is_Some_2 _ _ (S3 i eq_refl)) as [y Hy]. unfold data_at. cbn [mbind option_bind]. rewrite Hy. cbn [res_bind].
  case_bool_decide; [|done]. destruct (eo_ref _ _ _ _ _ _ _ _ (S1 i y Hy)) as [r Hr]. rewrite Hr. split; [done|]. by repeat constructor.
Qed.

Lemma sends_nothing W u d : sinv None W u d -> blocked d -> sends W u d d.
Proof.
  intros Hs Hb. assert (starts (data_ d) (next_i_ d) (next_i_ d) = []) as He by (unfold starts; by rewrite Nat.sub_diag). constructor; rewrite ?He; cbn [messages delivered foldl]; try done; [by rewrite app_nil_r | intros i ?; lia | lia].
Qed.

Lemma starts_skip l a b : (a < b)%nat -> d_state <$> l !! a = Some Finish -> starts l a b = starts l (S a) b.
Proof. intros Hlt Ha. rewrite starts_cons by done. rewrite bool_decide_eq_false_2 by congruence. done. Qed.
Lemma starts_head l a b : (a < b)%nat -> d_state <$> l !! a = Some Start -> starts l a b = a :: starts l (S a) b.
Proof. intros Hlt Ha. rewrite starts_cons by done. by rewrite bool_decide_eq_true_2. Qed.

Lemma send_loop_ok fuel : forall W u d, sinv None W u d -> (length (data_ d) <= next_i_ d + fuel)%nat -> exists d', send_loop fuel d = Ok d' /\ sends W u d d'.
Proof.
  induction fuel as [|fuel IH]; intros W u d Hs Hfuel; cbn [send_loop]; destruct (data_ d !! next_i_ d) as [x|] eqn:Hx.
  2, 4: exists d; split; [done|]; apply sends_nothing; [done|]; unfold blocked; by rewrite Hx.
  { apply lookup_lt_Some in Hx. lia. }
  pose proof (lookup_lt_Some _ _ _ Hx) as Hlt. pose proof (sv_entry _ _ _ _ Hs _ x Hx) as Hentry. case_bool_decide as Hw; [|destruct (Z.leb_spec MAX_SIMULTANEOUS_WAIT (wait_cnt_ d)) as [Hm|Hm]]; cbn [orb].
  1, 2: exists d; split; [done|]; apply sends_nothing; [done|]; unfold blocked; rewrite Hx; auto.
  case_bool_decide as Hf.
  - set (d1 := with_indices _ _ _ d). assert (sinv None W u d1) as Hs1 by (by apply (pass_ok W u d x)). destruct (IH W u d1 Hs1) as (d' & -> & [A1 A2 A3 A4 A5 A6 A7 AA A8]); [cbn; lia|]. exists d'. split; [done|].
    cbn in A5. assert (starts (data_ d) (next_i_ d) (next_i_ d') = starts (data_ d1) (next_i_ d1) (next_i_ d')) as He by (apply (starts_skip (data_ d)); [lia | by rewrite Hx; cbn; rewrite Hf]).
    constructor; rewrite ?He; try done; [lia|]. intros i Hi. destruct (decide (i = next_i_ d)) as [->|]; [exists x; auto | apply A6; cbn; lia].
  - destruct Hentry as [E1 E2 E3 E4 E5 E6 E7 E8]. assert (d_state x = Start) as Hst. { destruct (d_state x) eqn:Hst; try done. by pose proof (proj1 E7 eq_refl). }
    rewrite Hst in E8. destruct E8 as [[q Hq] HW]. destruct (last_ref_ok None W u d Hs) as [Hl Hlok]. destruct (match last_sent_i_ d with None => _ | Some i => _ end) as [after| |]; [|done|done]. cbn [res_bind] in Hl |- *. injection Hl as Hl.
    rewrite Hq, Hl, token_small by (done || apply (sv_offset _ _ _ _ Hs)). cbn zeta. set (q1 := with_timeouts _ _ _).
    set (y := set_generation _ _). set (d1 := with_indices _ _ _ _).
    assert (sinv None (<[id_offset_ d + Z.of_nat (next_i_ d) := AtNetwork]> W) u d1) as Hs1 by exact (sinv_post _ _ _ _ (ToNetwork (id_offset_ d + Z.of_nat (next_i_ d)) q1) (send_one_ok W u d x Hs Hx Hst)).
    destruct (IH _ u d1 Hs1) as (d' & -> & [A1 A2 A3 A4 A5 A6 A7 AA A8]); [cbn; rewrite length_insert; lia|]. exists d'. split; [done|].
    assert (last_ref d1 = [d_ref x]) as Hlast by (unfold last_ref; cbn; by rewrite list_lookup_insert_eq).
    change (data_ d1) with (<[next_i_ d := y]> (data_ d)) in *. change (id_offset_ d1) with (id_offset_ d) in *. change (next_i_ d1) with (S (next_i_ d)) in *. rewrite Hlast, starts_insert, messages_insert in A1, A2, A3 by (lia || (rewrite elem_of_starts; lia)).
    assert (messages (id_offset_ d) (data_ d) (last_ref d) (starts (data_ d) (next_i_ d) (next_i_ d')) =
            ToNetwork (id_offset_ d + Z.of_nat (next_i_ d)) q1 :: messages (id_offset_ d) (data_ d) [d_ref x] (starts (data_ d) (S (next_i_ d)) (next_i_ d'))) as He.
    { rewrite starts_head by (lia || (by rewrite Hx; cbn; rewrite Hst)). cbn [messages]. by rewrite Hx, Hq. }
    constructor; rewrite ?He; try done.
    + rewrite A2. cbn [sent]. unfold d1. cbn. by rewrite <- app_assoc.
    + by constructor.
    + lia.
    + intros i Hi. destruct (decide (i = next_i_ d)) as [->|]; [exists x; auto|]. destruct (A6 i ltac:(lia)) as (z & Hz & Hz'). rewrite list_lookup_insert_ne in Hz by lia. by exists z.
    + etrans; [apply A7|]. unfold d1. cbn. rewrite (count_up None W u d (next_i_ d) x y) by (done || congruence). pose proof (waiting_insert (data_ d) (next_i_ d) x y Hx) as Hc. rewrite decide_False, decide_True in Hc by (done || congruence).
      pose proof (sv_count _ _ _ _ Hs). lia.
    + intros i Hi. rewrite AA by done. apply list_lookup_insert_ne. lia.
    + destruct A8 as (B1 & B2 & B3 & B4 & B5). split_and!; [done | | by rewrite B3, length_insert | done | done]. intros i. rewrite B2. destruct (decide (i = next_i_ d)) as [->|]; [|by rewrite list_lookup_insert_ne].
      rewrite list_lookup_insert_eq by done. rewrite Hx. cbn. rewrite Hst. split; congruence.
Qed.

(** Forgetting the finished queries at the front. *)
Lemma finished_front l f : (forall i x, (i < f)%nat -> l !! i = Some x -> d_state x = Finish) -> waiting (drop f l) = waiting l /\ unfinished (drop f l) = unfinished l.
Proof.
  revert f. induction l as [|x l IH]; intros f H; [by rewrite drop_nil|]. destruct f as [|f]; [done|]. cbn [drop]. destruct (IH f) as [-> ->]; [intros i y Hi; apply (H (S i)); lia|].
  pose proof (H 0%nat x ltac:(lia) eq_refl) as Hx. unfold waiting, unfinished. rewrite !filter_cons, !decide_False by (rewrite Hx; auto). done.
Qed.

Lemma shrink_ok W u d : sinv None W u d -> let f := finish_i_ d in
  let last := match last_sent_i_ d with Some i => if Nat.leb f i then Some (i - f)%nat else None | None => None end in
  sinv None W u (with_offset (u64 (id_offset_ d + Z.of_nat f)) (with_indices 0 (next_i_ d - f) last (with_data (drop f (data_ d)) d))).
Proof.
  intros [S1 S2 S3 S4 S5 S6 S7 S8 S9] f last. fold f in S1, S2. rewrite u64_small by (unfold is_u64; lia).
  destruct (finished_front (data_ d) f) as [Hw Hu]; [intros i x Hi Hx; by apply (eo_finished _ _ _ _ _ _ _ _ (S1 i x Hx))|].
  constructor; cbn [with_offset with_indices with_data data_ finish_i_ next_i_ last_sent_i_ generation_ wait_cnt_ id_offset_ timeout_ parent_]; rewrite ?length_drop, ?Hw, ?Hu; try done; try lia.
  - intros i x Hx. rewrite lookup_drop in Hx. destruct (S1 _ x Hx) as [E1 E2 E3 E4 E5 E6 E7 E8]. constructor; try done; [intros Hg; specialize (E4 Hg); lia | lia | intros Hi; apply E6; lia | rewrite E7; split; congruence |].
    by replace (id_offset_ d + Z.of_nat f + Z.of_nat i) with (id_offset_ d + Z.of_nat (f + i)) by lia.
  - intros i. unfold last. destruct (last_sent_i_ d) as [j|]; [|done]. specialize (S3 j eq_refl). destruct (Nat.leb_spec f j); [|done]. intros [= <-]. lia.
  - intros t Ht. destruct (S6 t Ht) as (i & -> & Hi). destruct (lookup_lt_is_Some_2 _ _ Hi) as [x Hx]. destruct (S1 i x Hx) as [E1 E2 E3 E4 E5 E6 E7 E8].
    destruct (decide (i < f)%nat) as [Hf|Hf]; [rewrite (E5 Hf) in E8; rewrite E8 in Ht; by destruct Ht|]. exists (i - f)%nat. lia.
Qed.

(** What [loop] leaves behind: the front is not finished, and the queries that are not sent wait
    for others. *)
Definition front (d : Dispatcher) : Prop := d_state <$> data_ d !! finish_i_ d <> Some Finish.

Lemma sequence_try_shrink_ok W u d : sinv None W u d -> blocked d -> front d ->
  exists d', try_shrink d = Ok d' /\ sinv None W u d' /\ blocked d' /\ front d' /\ sent d' = sent d /\ wait_cnt_ d' = wait_cnt_ d.
Proof.
  intros Hs Hb Hf. pose proof (sv_indices _ _ _ _ Hs) as Hi. unfold try_shrink. destruct (_ && _); [|by exists d]. destruct (Nat.leb_spec (finish_i_ d) (next_i_ d)); [|lia].
  eexists. split; [done|]. split; [by apply shrink_ok|]. split_and!; try done.
  - unfold blocked in *. cbn. rewrite lookup_drop. by replace (finish_i_ d + (next_i_ d - finish_i_ d))%nat with (next_i_ d) by lia.
  - unfold front in *. cbn. rewrite lookup_drop. by rewrite Nat.add_0_r.
Qed.

Lemma skip_finished_spec l : (forall i x, (i < skip_finished l)%nat -> l !! i = Some x -> d_state x = Finish) /\ d_state <$> l !! skip_finished l <> Some Finish /\ (skip_finished l <= length l)%nat.
Proof.
  induction l as [|x l (IH1 & IH2 & IH3)]; [done|]. cbn [skip_finished]. case_bool_decide as Hx.
  - split_and!; [|done | cbn; lia]. intros [|i] y Hi; [by intros [= <-]|]. apply IH1. lia.
  - split_and!; [lia | cbn; congruence | lia].
Qed.

Definition skipped (d : Dispatcher) : Dispatcher :=
  let f := (finish_i_ d + skip_finished (drop (finish_i_ d) (data_ d)))%nat in with_indices f (if Nat.ltb (next_i_ d) f then f else next_i_ d) (last_sent_i_ d) d.

Lemma skip_ok W u d : sinv None W u d -> sinv None W u (skipped d) /\ front (skipped d) /\ (next_i_ d <= next_i_ (skipped d))%nat /\
  (forall i, (next_i_ d <= i < next_i_ (skipped d))%nat -> d_state <$> data_ d !! i = Some Finish).
Proof.
  intros [S1 S2 S3 S4 S5 S6 S7 S8 S9]. unfold skipped. set (f := finish_i_ d) in *. destruct (skip_finished_spec (drop f (data_ d))) as (H1 & H2 & H3). set (k := skip_finished _) in *. rewrite length_drop in H3.
  assert (forall i x, data_ d !! i = Some x -> (i < f + k)%nat -> d_state x = Finish) as Hall.
  { intros i x Hx Hi. destruct (decide (i < f)%nat) as [Hf|Hf]; [by apply (eo_finished _ _ _ _ _ _ _ _ (S1 i x Hx))|]. apply (H1 (i - f)%nat); [lia|]. rewrite lookup_drop. by replace (f + (i - f))%nat with i by lia. }
  split_and!.
  - constructor; cbn; try done; [|destruct (Nat.ltb_spec (next_i_ d) (f + k)); lia]. intros i x Hx. destruct (S1 i x Hx) as [E1 E2 E3 E4 E5 E6 E7 E8]. pose proof (Hall i x Hx).
    destruct (Nat.ltb_spec (next_i_ d) (f + k)); (constructor; [done | done | done | intros Hg; specialize (E4 Hg); lia | done | | done | done]); [by left; auto | done].
  - unfold front. cbn. by rewrite <- lookup_drop.
  - cbn. destruct (Nat.ltb_spec (next_i_ d) (f + k)); lia.
  - cbn. intros i Hi. destruct (Nat.ltb_spec (next_i_ d) (f + k)); [|lia]. destruct (lookup_lt_is_Some_2 (data_ d) i ltac:(lia)) as [x Hx]. rewrite Hx. cbn. f_equal. apply (Hall i x Hx). lia.
Qed.

Lemma starts_finished l a b c : (a <= b <= c)%nat -> (forall i, (a <= i < b)%nat -> d_state <$> l !! i = Some Finish) -> starts l a c = starts l b c.
Proof.
  intros Hle Hall. remember (b - a)%nat as k eqn:Hk. revert a Hle Hall Hk. induction k as [|k IH]; intros a Hle Hall Hk; [by replace a with b by lia|].
  rewrite starts_skip by (lia || (apply Hall; lia)). apply IH; [lia | intros i Hi; apply Hall; lia | lia].
Qed.

(** The messages of one run of [loop] that stops before the position [stop]. *)
Definition loop_messages (d : Dispatcher) (stop : nat) : list message := messages (id_offset_ d) (data_ d) (last_ref d) (starts (data_ d) (next_i_ d) stop).

Record looped (W : places) (u : nat) (d d' : Dispatcher) (stop : nat) : Prop := {
  lp_inv : sinv None (delivered W (loop_messages d stop)) u d';
  lp_sent : sent d' = sent d ++ loop_messages d stop;
  lp_ok : Forall message_ok (loop_messages d stop);
  lp_blocked : blocked d';
  lp_front : front d';
  lp_stop : (next_i_ d <= stop <= length (data_ d))%nat;
  lp_between i : (next_i_ d <= i < stop)%nat -> exists x, data_ d !! i = Some x /\ (d_state x = Start \/ d_state x = Finish);
  lp_limit : wait_cnt_ d' <= Z.max (wait_cnt_ d) MAX_SIMULTANEOUS_WAIT;
  lp_why : match data_ d !! stop with Some x => d_state x = Wait \/ MAX_SIMULTANEOUS_WAIT <= wait_cnt_ d' | None => True end;
}.

Lemma sequence_loop_ok W u d : sinv None W u d -> exists d' stop, loop d = Ok d' /\ looped W u d d' stop.
Proof.
  intros Hs. destruct (skip_ok W u d Hs) as (Hs0 & Hf0 & Hn0 & Hall). set (d0 := skipped d) in *. change (loop d) with (let* d := send_loop (length (data_ d)) d0 in let* d := try_shrink d in
    if Nat.eqb (finish_i_ d) (length (data_ d)) && parent_ d then Ok (with_timeout (Some 5) d) else Ok d).
  destruct (send_loop_ok (length (data_ d)) W u d0 Hs0) as (d1 & -> & [A1 A2 A3 A4 A5 A6 A7 A8 (B1 & B2 & B3 & B4 & B5)]); [cbn; lia|]. cbn [res_bind].
  assert (front d1) as Hf1. { unfold front. rewrite B1, B2. apply Hf0. }
  destruct (sequence_try_shrink_ok _ u d1 A1 A4 Hf1) as (d2 & -> & Hs2 & Hb2 & Hf2 & Hsent2 & Hw2). cbn [res_bind].
  pose proof (sv_indices _ _ _ _ A1) as Hi1. change (data_ d0) with (data_ d) in *. change (id_offset_ d0) with (id_offset_ d) in *. change (last_ref d0) with (last_ref d) in *. change (wait_cnt_ d0) with (wait_cnt_ d) in *. change (sent d0) with (sent d) in *.
  assert (starts (data_ d) (next_i_ d0) (next_i_ d1) = starts (data_ d) (next_i_ d) (next_i_ d1)) as He by (symmetry; apply starts_finished; [lia | done]). rewrite He in A1, A2, A3, Hs2. fold (loop_messages d (next_i_ d1)) in A1, A2, A3, Hs2.
  assert (looped W u d d2 (next_i_ d1)) as [C1 C2 C3 C4 C5 C6 C7 C8 C9].
  { constructor; try done; [congruence | lia | | lia |].
    - intros i Hi. destruct (decide (i < next_i_ d0)%nat) as [Hlt|]; [|apply A6; lia]. specialize (Hall i ltac:(lia)). destruct (data_ d !! i) as [x|]; [|done]. injection Hall as Hx. exists x. auto.
    - rewrite <- A8, Hw2 by lia. exact A4. }
  destruct (_ && _) eqn:Hpar; [|exists d2, (next_i_ d1); split; [done | by constructor]]. apply andb_true_iff in Hpar as [_ Hpar].
  exists (with_timeout (Some 5) d2), (next_i_ d1). split; [done|]. constructor; try done. destruct C1. by constructor.
Qed.

(** ** The events *)
Inductive event :=
| Send (q : NetQuery) (to : Z)
| Answer (token : Z) (q : NetQuery)
| Decision (token : Z) (r : option NetQuery)
| Expire.

Definition handle (e : event) (d : Dispatcher) : Res Dispatcher :=
  match e with
  | Send q to => send_with_callback q (Some to) d
  | Answer token q => on_result token q d
  | Decision token (Some q) => on_resend_ok token q d
  | Decision token None => on_resend_error token d
  | Expire => timeout_expired (with_timeout None d)
  end.

Definition room (d : Dispatcher) : Prop :=
  generation_ d < 2 ^ 64 - 1 /\ id_offset_ d + Z.of_nat (length (data_ d)) < 2 ^ 64 - 1 /\ Z.of_nat (length (data_ d)) < 2 ^ 32 - 1.
Definition may_happen (e : event) (d : Dispatcher) (W : places) : Prop :=
  match e with
  | Send _ _ => True
  | Answer token _ => W !! token = Some AtNetwork
  | Decision token _ => W !! token = Some AtCallback
  | Expire => is_Some (timeout_ d)
  end /\ room d.
Definition places_after (e : event) (W : places) (ms : list message) : places :=
  delivered (match e with Answer token _ | Decision token _ => delete token W | _ => W end) ms.
Definition comes (e : event) : nat := match e with Send _ _ => 1 | _ => 0 end.
Definition leaves (e : event) : nat := match e with Decision _ None => 1 | _ => 0 end.
Definition idle (d : Dispatcher) : Dispatcher :=
  {| parent_ := parent_ d; id_offset_ := id_offset_ d; data_ := data_ d; finish_i_ := finish_i_ d; next_i_ := next_i_ d; last_sent_i_ := last_sent_i_ d;
     generation_ := generation_ d; wait_cnt_ := wait_cnt_ d; timeout_ := timeout_ d; sent := [] |}.

Inductive world (parent : bool) : Dispatcher -> places -> Prop :=
| world_new : world parent (new_dispatcher parent) ∅
| world_event e d W d' : world parent d W -> may_happen e d W -> handle e (idle d) = Ok d' -> world parent d' (places_after e W (sent d')).

Lemma sinv_idle hand W u d : sinv hand W u d -> sinv hand W u (idle d).
Proof. intros []. by constructor. Qed.

(** After the messages of a step, [loop] runs. *)
Lemma then_loop W u d d0 ms : sinv None (delivered W ms) u d -> sent d = sent d0 ++ ms -> Forall message_ok ms ->
  exists d' ms', loop d = Ok d' /\ sinv None (delivered W ms') u d' /\ blocked d' /\ front d' /\ sent d' = sent d0 ++ ms' /\ Forall message_ok ms'.
Proof.
  intros Hs Hsent Hok. destruct (sequence_loop_ok _ u d Hs) as (d' & stop & -> & [A1 A2 A3 A4 A5 _ _ _ _]). exists d', (ms ++ loop_messages d stop). split_and!; try done.
  - by rewrite sequence_delivered_app.
  - by rewrite A2, Hsent, app_assoc.
  - by apply Forall_app.
Qed.

(** The state after a handler. *)
Record after (W : places) (u : nat) (d0 d : Dispatcher) : Prop := {
  at_inv : exists ms, sent d = sent d0 ++ ms /\ Forall message_ok ms /\ sinv None (delivered W ms) u d;
  at_blocked : blocked d;
  at_front : front d;
}.

Lemma after_loop W u d d0 ms : sinv None (delivered W ms) u d -> sent d = sent d0 ++ ms -> Forall message_ok ms -> exists d', loop d = Ok d' /\ after W u d0 d'.
Proof. intros H1 H2 H3. destruct (then_loop W u d d0 ms H1 H2 H3) as (d' & ms' & -> & A1 & A2 & A3 & A4 & A5). exists d'. split; [done|]. constructor; [by exists ms' | done | done]. Qed.

Lemma sequence_send_ok W u d q to : sinv None W u d -> room d -> exists d', send_with_callback q (Some to) d = Ok d' /\ after W (S u) d d'.
Proof.
  intros [S1 S2 S3 S4 S5 S6 S7 S8 S9] (Hr1 & Hr2 & Hr3). unfold send_with_callback. set (x := {| d_state := Start |}). set (d1 := with_data _ _).
  assert (W !! (id_offset_ d + Z.of_nat (length (data_ d))) = None) as HW.
  { destruct (W !! _) as [p|] eqn:Hp; [|done]. destruct (S6 _ (mk_is_Some _ _ Hp)) as (i & Hi & Hlt). assert (i = length (data_ d)) by lia. lia. }
  apply (after_loop W (S u) d1 d []); [|cbn; by rewrite app_nil_r | constructor]. cbn [delivered foldl].
  constructor; cbn [d1 with_data with_timeout data_ finish_i_ next_i_ last_sent_i_ generation_ wait_cnt_ id_offset_ timeout_ parent_]; rewrite ?length_app; cbn [length]; try done; try lia.
  - intros i y [Hy|[Hlen Hy]]%lookup_app_Some; [by apply S1|]. apply list_lookup_singleton_Some in Hy as [Hi <-]. assert (i = length (data_ d)) as -> by lia. constructor; cbn; try done; lia.
  - intros i Hi%S3. lia.
  - rewrite S4. unfold waiting. rewrite filter_app, length_app, filter_cons, decide_False by done. cbn. lia.
  - unfold unfinished in *. rewrite filter_app, length_app, S5, filter_cons, decide_True by done. cbn. lia.
  - intros t (i & -> & Hi)%S6. exists i. lia.
Qed.

Lemma decision_ok W u d token r : sinv None W u d -> is_Some (W !! token) -> room d ->
  exists d' u', handle (Decision token r) d = Ok d' /\ (u' + leaves (Decision token r) = u)%nat /\ after (delete token W) u' d d'.
Proof.
  intros Hs [p Hp] (Hr & _ & _). destruct (take_token token p W u d Hs Hp) as (pos & x & Htake & Hlt & Hq & Hs1). set (d1 := with_wait _ _) in *. assert (data_ d1 !! pos = Some x) as Hx1 by (cbn; by rewrite list_lookup_insert_eq).
  destruct r as [q|]; cbn [handle leaves].
  - unfold on_resend_ok. rewrite Htake. cbn [res_bind]. unfold set_data_query, data_at. rewrite Hx1. cbn [res_bind]. set (y := set_query (Some q) x).
    assert (d_state x = Dummy) as Hd by (by apply (eo_hand _ _ _ _ _ _ _ _ (sv_entry _ _ _ _ Hs1 pos x Hx1))).
    destruct (sequence_do_resend_ok pos (delete token W) u (put pos y d1) y) as (d2 & ms & -> & A1 & A2 & A3); [by apply (put_same _ _ _ d1 pos x) | cbn; by rewrite list_lookup_insert_eq by (by rewrite length_insert) | by eexists | done|].
    cbn [res_bind]. destruct (after_loop _ u d2 d ms A1 A2 A3) as (d' & -> & Ha). exists d', u. split_and!; [done | lia | done].
  - unfold on_resend_error. rewrite Htake. cbn [res_bind]. destruct (do_finish_ok pos _ u d1 Hs1) as (d2 & ms & u' & -> & Hu & A1 & A2 & A3 & A4 & _); [cbn; by rewrite length_insert|].
    cbn [res_bind]. destruct (after_loop (delete token W) u' d2 d ms) as (d' & -> & Ha); [by rewrite A4 | done | done|]. exists d', u'. split_and!; [done | lia | done].
Qed.

Lemma answer_ok W u d token q : sinv None W u d -> is_Some (W !! token) -> room d -> exists d', on_result token q d = Ok d' /\ after (delete token W) u d d'.
Proof.
  intros Hs [p Hp] (Hr & _ & _). destruct (take_token token p W u d Hs Hp) as (pos & x & Htake & Hlt & Hq & Hs1). set (d1 := with_wait _ _) in *. assert (data_ d1 !! pos = Some x) as Hx1 by (cbn; by rewrite list_lookup_insert_eq).
  unfold on_result. rewrite Htake. cbn [res_bind].
  assert (exists d2 q1 ms, (if negb (last_timeout_ q =? 0) then let* d := delay_others (length (data_ d1)) (S pos) (last_timeout_ q) d1 in Ok (with_timeouts (total_timeout_ q) 0 q, d) else Ok (q, d1)) = Ok (q1, d2) /\
    ran (Some pos) (delete token W) u d1 d2 ms /\ data_ d2 !! pos = Some x) as (d2 & q1 & ms & -> & [R1 R2 R3 R4 R5] & Hx2).
  { destruct (negb _).
    - destruct (delay_others_ok (length (data_ d1)) (S pos) (last_timeout_ q) pos (delete token W) u d1 Hs1) as (d2 & ms & -> & R & H2); [lia | lia|]. eexists d2, _, ms. split_and!; [done | done | by rewrite H2].
    - exists d1, q, []. split_and!; [done | | done]. constructor; [done | by rewrite app_nil_r | constructor | done | done]. }
  cbn [res_bind]. assert (d_state x = Dummy) as Hd by (by apply (eo_hand _ _ _ _ _ _ _ _ (sv_entry _ _ _ _ R1 pos x Hx2))). assert (pos < length (data_ d2))%nat by (by eapply lookup_lt_Some).
  destruct (MultiSequenceDispatcher.must_resend q1).
  - unfold set_data_query, data_at. rewrite Hx2. cbn [res_bind]. set (y := set_query _ x).
    destruct (sequence_do_resend_ok pos (delivered (delete token W) ms) u (put pos y d2) y) as (d3 & ms2 & -> & A1 & A2 & A3); [by apply (put_same _ _ _ d2 pos x) | cbn; by rewrite list_lookup_insert_eq | by eexists | by change (generation_ (put pos y d2)) with (generation_ d2); rewrite R4|].
    cbn [res_bind]. apply (after_loop _ u d3 d (ms ++ ms2)); [by rewrite sequence_delivered_app | rewrite A2; cbn; rewrite R2; by rewrite app_assoc | by apply Forall_app].
  - destruct (sequence_try_resend_ok pos q1 _ u d2 x R1 Hx2 Hq) as (d3 & ms2 & -> & [A1 A2 A3 _ _]). cbn [res_bind].
    apply (after_loop _ u d3 d (ms ++ ms2)); [by rewrite sequence_delivered_app | rewrite A2, R2; by rewrite app_assoc | by apply Forall_app].
Qed.

(** Nothing is unfinished exactly when the front has reached the end. *)
Lemma unfinished_zero hand W u d : sinv hand W u d -> front d -> finish_i_ d = length (data_ d) <-> u = 0%nat.
Proof.
  intros [S1 S2 _ _ <- _ _ _ _] Hf. split.
  - intros He. destruct (finished_front (data_ d) (finish_i_ d)) as [_ <-]; [intros i x Hi Hx; by apply (eo_finished _ _ _ _ _ _ _ _ (S1 i x Hx))|]. by rewrite He, drop_all.
  - intros Hu. destruct (decide (finish_i_ d = length (data_ d))) as [|Hne]; [done|]. destruct (lookup_lt_is_Some_2 (data_ d) (finish_i_ d) ltac:(lia)) as [x Hx]. unfold front in Hf. rewrite Hx in Hf.
    pose proof (unfinished_insert _ _ x (set_state Finish x) Hx) as H. rewrite Hu, decide_False, decide_True in H by (done || (intros Hx'; apply Hf; cbn; by rewrite Hx')). lia.
Qed.

Lemma sequence_event_ok W u d e : sinv None W u d -> blocked d -> front d -> may_happen e d W ->
  exists d' u', handle e (idle d) = Ok d' /\ sinv None (places_after e W (sent d')) u' d' /\ blocked d' /\ front d' /\ Forall message_ok (sent d') /\ (u' + leaves e = u + comes e)%nat /\
    (e = Expire -> sent d' = if decide (u = 0%nat) then [ToParentReady] else []).
Proof.
  intros Hs%sinv_idle Hb Hf [He Hroom]. unfold places_after. destruct e as [q to | token q | token r |].
  - destruct (sequence_send_ok W u (idle d) q to Hs Hroom) as (d' & Heq & [(ms & Hsent & Hok & Hs') Hb' Hf']). cbn in Hsent. exists d', (S u). rewrite Hsent. cbn [comes leaves]. split_and!; try done. lia.
  - destruct (answer_ok W u (idle d) token q Hs (mk_is_Some _ _ He) Hroom) as (d' & Heq & [(ms & Hsent & Hok & Hs') Hb' Hf']). cbn in Hsent. exists d', u. rewrite Hsent. cbn [comes leaves]. split_and!; done || lia.
  - destruct (decision_ok W u (idle d) token r Hs (mk_is_Some _ _ He) Hroom) as (d' & u' & Heq & Hu & [(ms & Hsent & Hok & Hs') Hb' Hf']). cbn in Hsent. exists d', u'. rewrite Hsent. cbn [comes]. split_and!; done || lia.
  - cbn [handle comes leaves]. pose proof (sv_timeout _ _ _ _ Hs He) as Hpar. pose proof (unfinished_zero _ _ _ _ Hs Hf) as Hzero. unfold timeout_expired. cbn [with_timeout finish_i_ data_ idle parent_] in *.
    destruct (Nat.eqb_spec (finish_i_ d) (length (data_ d))) as [Hend|Hend]; cbn [negb].
    + rewrite Hpar. eexists _, u. split; [done|]. cbn [sent post with_timeout idle app]. split_and!; try done; [destruct Hs; by constructor | by repeat constructor | rewrite decide_True; tauto].
    + eexists _, u. split; [done|]. cbn [sent with_timeout idle]. split_and!; try done; [destruct Hs; constructor; try done; by intros [] | rewrite decide_False; tauto].
Qed.

Lemma sequence_world_inv parent d W : world parent d W -> exists u, sinv None W u d /\ blocked d /\ front d.
Proof.
  induction 1 as [|e d W d' _ (u & Hs & Hb & Hf) He Hd].
  - exists 0%nat. split_and!; [|done | done]. constructor; cbn; try done; [by intros t []].
  - destruct (sequence_event_ok W u d e Hs Hb Hf He) as (d1 & u' & Hd1 & Hs' & Hb' & Hf' & _). assert (d1 = d') as -> by congruence. by exists u'.
Qed.

(** Where the queries are, when [u] of them are unfinished. *)
Definition placed (W : places) (token : Z) (x : Data) : Prop :=
  match d_state x with
  | Start => is_Some (d_query x) /\ W !! token = None
  | Wait => d_query x = None /\ is_Some (W !! token)
  | Finish => W !! token = None
  | Dummy => False
  end.
Record tracked (d : Dispatcher) (W : places) (u : nat) : Prop := {
  tr_placed i x : data_ d !! i = Some x -> placed W (id_offset_ d + Z.of_nat i) x;
  tr_tokens t : is_Some (W !! t) -> exists i, t = id_offset_ d + Z.of_nat i /\ (i < length (data_ d))%nat;
  tr_order i j x y : (i < j)%nat -> data_ d !! i = Some x -> data_ d !! j = Some y -> d_generation y = generation_ d -> d_state x = Finish \/ (d_state x = Wait /\ d_generation x = generation_ d);
  tr_unfinished : unfinished (data_ d) = u;
  tr_count : wait_cnt_ d = Z.of_nat (waiting (data_ d));
  tr_progress : u <> 0%nat -> W <> ∅;
  tr_end : finish_i_ d = length (data_ d) <-> u = 0%nat;
}.

Lemma some_waits W u d : sinv None W u d -> blocked d -> u <> 0%nat -> exists i x, data_ d !! i = Some x /\ d_state x = Wait.
Proof.
  intros [S1 S2 _ S4 S5 _ _ _ _] Hb Hu. unfold blocked in Hb. destruct (data_ d !! next_i_ d) as [x|] eqn:Hx.
  - destruct Hb as [Hw|Hm]; [by exists (next_i_ d), x|]. unfold waiting, MAX_SIMULTANEOUS_WAIT in *. destruct (filter (fun x => d_state x = Wait) (data_ d)) as [|y l] eqn:Hfil; [cbn in *; lia|].
    assert (y ∈ filter (fun x => d_state x = Wait) (data_ d)) as [Hy [i Hi]%list_elem_of_lookup]%list_elem_of_filter by (rewrite Hfil; by left). by exists i, y.
  - apply lookup_ge_None in Hx. unfold unfinished in S5. destruct (filter (fun x => d_state x <> Finish) (data_ d)) as [|y l] eqn:Hfil; [cbn in *; lia|].
    assert (y ∈ filter (fun x => d_state x <> Finish) (data_ d)) as [Hy [i Hi]%list_elem_of_lookup]%list_elem_of_filter by (rewrite Hfil; by left). exists i, y. split; [done|].
    pose proof (lookup_lt_Some _ _ _ Hi). destruct (S1 i y Hi) as [_ _ _ _ _ E6 E7 _]. destruct E6 as [|[[|Hd] _]]; [lia | done | done|]. by apply E7 in Hd.
Qed.

Lemma sinv_tracked W u d : sinv None W u d -> blocked d -> front d -> tracked d W u.
Proof.
  intros Hs Hb Hf. pose proof (unfinished_zero _ _ _ _ Hs Hf) as Hzero. pose proof (some_waits _ _ _ Hs Hb) as Hsome. destruct Hs as [S1 S2 S3 S4 S5 S6 S7 S8 S9]. constructor; try done.
  - intros i x Hx. destruct (S1 i x Hx) as [_ _ _ _ _ _ E7 E8]. unfold placed. destruct (d_state x); try done. by pose proof (proj1 E7 eq_refl).
  - intros i j x y Hij Hx Hy Hg. pose proof (eo_sent _ _ _ _ _ _ _ _ (S1 j y Hy) Hg) as Hn. destruct (S1 i x Hx) as [_ _ _ _ _ E6 E7 _]. destruct E6 as [|[[|Hd] ?]]; [lia | by left | by right | by apply E7 in Hd].
  - intros Hu ->. destruct (Hsome Hu) as (i & x & Hx & Hw). pose proof (eo_place _ _ _ _ _ _ _ _ (S1 i x Hx)) as Hp. rewrite Hw, lookup_empty in Hp. by destruct Hp as [_ []].
Qed.

Lemma messages_length hand W u d a b : sinv hand W u d -> forall after, length (messages (id_offset_ d) (data_ d) after (starts (data_ d) a b)) = length (starts (data_ d) a b).
Proof.
  intros Hs. assert (forall i, i ∈ starts (data_ d) a b -> exists x, data_ d !! i = Some x /\ is_Some (d_query x)) as Hall.
  { intros i [_ Hi]%elem_of_starts. destruct (data_ d !! i) as [x|] eqn:Hx; [|done]. injection Hi as Hi. exists x. split; [done|]. pose proof (eo_place _ _ _ _ _ _ _ _ (sv_entry _ _ _ _ Hs i x Hx)) as Hp. rewrite Hi in Hp. apply Hp. }
  induction (starts (data_ d) a b) as [|i ps IH]; intros after; [done|]. destruct (Hall i ltac:(by left)) as (x & Hx & q & Hq). cbn [messages]. rewrite Hx, Hq. cbn [length]. f_equal. apply IH. intros j Hj. apply Hall. by right.
Qed.

(** C4. The dispatcher of one sequence loses no query and is not stuck.  After any interleaving
    of queries to send (with callbacks), answers of the network, decisions of the callbacks and
    expired timers, every query is in exactly one place: held by the dispatcher exactly while
    it is to be sent, or with the network or its callback exactly while it waits; a query
    that was sent in the present generation has only finished queries, or waiting ones of the
    same generation, before it; [wait_cnt_] counts the waiting queries; if some query is
    unfinished, the network or a callback has one; and [finish_i_] is the size exactly if
    none is.  The next event is handled without a failed check or a null pointer, although
    positions are shifted when finished queries are erased; queries end only by the decision
    of their callback; and the parent is told that the dispatcher can be closed exactly if
    nothing is unfinished. *)
Theorem sequence_places (parent : bool) (d : Dispatcher) (W : places) : world parent d W ->
  exists u, tracked d W u /\ forall e, may_happen e d W ->
    exists d' u', handle e (idle d) = Ok d' /\ Forall message_ok (sent d') /\ tracked d' (places_after e W (sent d')) u' /\
      (u' + leaves e = u + comes e)%nat /\ (e = Expire -> sent d' = if decide (u = 0%nat) then [ToParentReady] else []).
Proof.
  intros Hw. destruct (sequence_world_inv parent d W Hw) as (u & Hs & Hb & Hf). exists u. split; [by apply sinv_tracked|]. intros e He.
  destruct (sequence_event_ok W u d e Hs Hb Hf He) as (d' & u' & Hd & Hs' & Hb' & Hf' & Hok & Hu & Hexp). exists d', u'. split_and!; try done. by apply sinv_tracked.
Qed.

(** C26. What [loop] sends, and when it stops: exactly the queries to be sent between [next_i_]
    and a position [stop], in their order and each once, the first to be executed after the
    last query of the generation if that one waits and each other one after the query before
    it; everything else before [stop] is finished; and it stops at the end, at a query that
    waits, or when ten queries wait, so that it never makes more than ten wait. *)
Theorem sequence_order (W : places) (u : nat) (d : Dispatcher) : sinv None W u d ->
  exists d' stop, loop d = Ok d' /\ (next_i_ d <= stop <= length (data_ d))%nat /\
    let ps := starts (data_ d) (next_i_ d) stop in
    let ms := messages (id_offset_ d) (data_ d) (last_ref d) ps in
    sent d' = sent d ++ ms /\ length ms = length ps /\
    (forall i, (next_i_ d <= i < stop)%nat -> exists x, data_ d !! i = Some x /\ (d_state x = Start \/ d_state x = Finish)) /\
    wait_cnt_ d' <= Z.max (wait_cnt_ d) MAX_SIMULTANEOUS_WAIT /\
    match data_ d !! stop with Some x => d_state x = Wait \/ MAX_SIMULTANEOUS_WAIT <= wait_cnt_ d' | None => True end.
Proof.
  intros Hs. destruct (sequence_loop_ok W u d Hs) as (d' & stop & Heq & [A1 A2 A3 A4 A5 A6 A7 A8 A9]). exists d', stop. split; [done|]. split; [done|]. cbn zeta. split_and!; try done. by apply (messages_length None W u).
Qed.

(** C27. A query without a callback cannot be answered: the final answer of the network to it
    fails a check, because [try_resend_query] has made the query wait again before
    [do_finish] checks that it is in hand. *)
Theorem sequence_no_callback (token : Z) (q : NetQuery) (d d1 : Dispatcher) (pos : nat) (x : Data) :
  data_from_token token d = Ok (pos, d1) -> data_ d !! pos = Some x -> d_callback x = None ->
  last_timeout_ q = 0 -> MultiSequenceDispatcher.must_resend q = false ->
  on_result token q d = Panic "data.state_ == State::Dummy".
Proof.
  intros Htake Hx Hc Hq Hm. unfold on_result. rewrite Htake. cbn [res_bind]. rewrite Hq. cbn [Z.eqb negb res_bind]. rewrite Hm. cbn [res_bind]. unfold data_from_token, data_at in Htake.
  destruct (data_ d !! Z.to_nat (u64 (token - id_offset_ d))) as [y|] eqn:Hy; [|done]. cbn [res_bind] in Htake. destruct (bool_decide _); [|done]. destruct (0 <? wait_cnt_ d); [|done]. injection Htake as <- <-.
  assert (y = x) as -> by congruence. pose proof (lookup_lt_Some _ _ _ Hx) as Hlt. unfold try_resend_query, data_at. cbn [with_wait put with_data data_]. rewrite list_lookup_insert_eq by done. cbn [res_bind d_state set_state d_callback].
  rewrite bool_decide_eq_true_2 by done. rewrite Hc. unfold do_finish, data_at. cbn [with_wait put with_data data_]. by rewrite list_lookup_insert_eq by (by rewrite length_insert).
Qed.

(** ** An example: two queries, of which the network answers the first *)
Definition query_a : NetQuery := new_net_query 100 1 60 [].
Definition query_b : NetQuery := new_net_query 101 1 60 [].
Definition handled (e : event) (d : Dispatcher) : Dispatcher := match handle e (idle d) with Ok d => d | _ => d end.
Definition after_a : Dispatcher := handled (Send query_a 5) (new_dispatcher true).
Definition after_b : Dispatcher := handled (Send query_b 6) after_a.
Definition after_answer : Dispatcher := handled (Answer 1 query_a) after_b.

Lemma sequence_example_world : world true after_answer {[1 := AtCallback; 2 := AtNetwork]}.
Proof.
  assert (world true after_a {[1 := AtNetwork]}) as H1. { apply (world_event true (Send query_a 5) (new_dispatcher true) ∅ after_a); [constructor | done | vm_compute; reflexivity]. }
  assert (world true after_b {[1 := AtNetwork; 2 := AtNetwork]}) as H2.
  { assert (places_after (Send query_b 6) {[1 := AtNetwork]} (sent after_b) = {[1 := AtNetwork; 2 := AtNetwork]}) as <- by (vm_compute; reflexivity). apply (world_event true (Send query_b 6) after_a _ after_b H1); [done | vm_compute; reflexivity]. }
  assert (places_after (Answer 1 query_a) {[1 := AtNetwork; 2 := AtNetwork]} (sent after_answer) = {[1 := AtCallback; 2 := AtNetwork]}) as <- by (vm_compute; reflexivity).
  apply (world_event true (Answer 1 query_a) after_b _ after_answer H2); [done | vm_compute; reflexivity].
Qed.

Lemma sequence_places_witness : world true after_answer {[1 := AtCallback; 2 := AtNetwork]} /\ exists u, tracked after_answer {[1 := AtCallback; 2 := AtNetwork]} u /\ u = 2%nat.
Proof.
  split; [apply sequence_example_world|]. destruct (sequence_places true after_answer _ sequence_example_world) as (u & Ht & _). exists u. split; [exact Ht|]. rewrite <- (tr_unfinished _ _ _ Ht). vm_compute. reflexivity.
Defined.

Lemma sequence_order_witness : exists d' stop, loop after_answer = Ok d' /\ (2 <= stop <= 2)%nat.
Proof.
  destruct (sequence_world_inv true after_answer _ sequence_example_world) as (u & Hs & _). destruct (sequence_order _ u after_answer Hs) as (d' & stop & H & Hstop & _). exists d', stop. split; [exact H|]. exact Hstop.
Defined.

Definition without_callback : Dispatcher := match send_with_callback query_a None (new_dispatcher false) with Ok d => d | _ => new_dispatcher false end.
Lemma sequence_no_callback_witness : on_result 1 query_a without_callback = Panic "data.state_ == State::Dummy".
Proof. eapply (sequence_no_callback 1 query_a without_callback); vm_compute; reflexivity. Defined.

End proofs.
