(* ===== verification/AuthData.v ===== *)
(** * The state of a session: keys, salts, time, and protection against replays

    [AuthKey], [MessageId] and [AuthData] of td/mtproto (AuthKey.h, MessageId.h, AuthData.h,
    AuthData.cpp), and the checker of repeated message identifiers.

    A [double] is a binary64 number of the Standard Library's [spec_float], with its rounding;
    a conversion of a [double] to an integer that cannot hold it is undefined.  The clock and
    the random numbers are arguments.  [std_sort] is [std::sort], which does not say in
    which order equal elements come. *)
From S2P Require Import Prelude.
From Stdlib Require Import SpecFloat.
Local Open Scope td_scope.

(** ** Numbers of the type [double] *)
Abbreviation double := spec_float.
Definition dadd : double -> double -> double := SFadd 53 1024.
Definition dsub : double -> double -> double := SFsub 53 1024.
Definition dmul : double -> double -> double := SFmul 53 1024.
Definition ddiv : double -> double -> double := SFdiv 53 1024.
Definition dlt : double -> double -> bool := SFltb.
Definition dgt (x y : double) : bool := SFltb y x.
Definition of_int (z : Z) : double := binary_normalize 53 1024 z 0 false.
(** [static_cast<uint64>] *)
Definition to_uint64 (x : double) : Res Z :=
  match x with
  | S754_zero _ => Ok 0
  | S754_finite s m e =>
      let z := Z.shiftl (Zpos m) e in
      if s then (if z =? 0 then Ok 0 else Panic "static_cast<uint64>")
      else if z <? 2 ^ 64 then Ok z else Panic "static_cast<uint64>"
  | _ => Panic "static_cast<uint64>"
  end.
(** 1e-4, rounded to the nearest *)
Definition one_e_minus_4 : double := S754_finite false 7378697629483821 (-66).

(** ** AuthKey *)
Record AuthKey := {
  auth_key_id_ : Z;
  auth_key_ : list Z;
  auth_flag_ : bool;
  have_header_ : bool;
  header_expires_at_ : double;
  expires_at_ : double;
  created_at_ : double;
}.
Definition no_key : AuthKey :=
  {| auth_key_id_ := 0; auth_key_ := []; auth_flag_ := false; have_header_ := true;
     header_expires_at_ := of_int 0; expires_at_ := of_int 0; created_at_ := of_int 0 |}.

(** The terminating character of an empty string may not be changed. *)
Definition break_key (k : AuthKey) : Res AuthKey :=
  match auth_key_ k with
  | [] => Panic "auth_key_[0]"
  | b :: l =>
      Ok {| auth_key_id_ := u64 (auth_key_id_ k + 1); auth_key_ := u8 (b + 1) :: l;
            auth_flag_ := auth_flag_ k; have_header_ := have_header_ k; header_expires_at_ := header_expires_at_ k;
            expires_at_ := expires_at_ k; created_at_ := created_at_ k |}
  end.
Definition key_empty (k : AuthKey) : bool := match auth_key_ k with [] => true | _ => false end.
Definition set_key_auth_flag (f : bool) (k : AuthKey) : AuthKey :=
  {| auth_key_id_ := auth_key_id_ k; auth_key_ := auth_key_ k; auth_flag_ := f; have_header_ := have_header_ k;
     header_expires_at_ := header_expires_at_ k; expires_at_ := expires_at_ k; created_at_ := created_at_ k |}.
Definition need_header (now : double) (k : AuthKey) : bool := have_header_ k || dlt now (header_expires_at_ k).
Definition remove_header (now : double) (k : AuthKey) : AuthKey :=
  if auth_flag_ k && have_header_ k then
    {| auth_key_id_ := auth_key_id_ k; auth_key_ := auth_key_ k; auth_flag_ := auth_flag_ k; have_header_ := false;
       header_expires_at_ := dadd now (of_int 3); expires_at_ := expires_at_ k; created_at_ := created_at_ k |}
  else k.
Definition restore_header (k : AuthKey) : AuthKey :=
  {| auth_key_id_ := auth_key_id_ k; auth_key_ := auth_key_ k; auth_flag_ := auth_flag_ k; have_header_ := true;
     header_expires_at_ := header_expires_at_ k; expires_at_ := expires_at_ k; created_at_ := created_at_ k |}.

Record ServerSalt := { salt : Z; valid_since : double; valid_until : double }.

(** ** MessageIdDuplicateChecker

    [saved_message_ids_] has the length [2 * max_size].  The range that [std::lower_bound]
    searches is sorted, see [checker_wf]. *)
Record DuplicateChecker := { saved_message_ids_ : list Z; end_pos_ : nat }.
Definition new_checker (max_size : nat) : DuplicateChecker := {| saved_message_ids_ := replicate (2 * max_size) 0; end_pos_ := 0 |}.

Fixpoint lower_bound (x : Z) (l : list Z) : nat :=
  match l with
  | [] => 0
  | y :: l => if y <? x then S (lower_bound x l) else 0
  end.

Definition store_at (pos : nat) (x : Z) (l : list Z) : Res (list Z) :=
  if Nat.ltb pos (length l) then Ok (<[pos := x]> l) else Panic "saved_message_ids[pos]".

Definition check_message_id_duplicates (max_size : nat) (message_id : Z) (d : DuplicateChecker) : Res (Res unit * DuplicateChecker) :=
  let d :=
    if Nat.eqb (end_pos_ d) (2 * max_size) then
      let upper := take max_size (drop max_size (saved_message_ids_ d)) in
      {| saved_message_ids_ := upper ++ drop max_size (saved_message_ids_ d); end_pos_ := max_size |}
    else d in
  let saved := saved_message_ids_ d in
  let end_pos := end_pos_ d in
  if Nat.eqb end_pos 0 || (match saved !! (end_pos - 1)%nat with Some x => x <? message_id | None => false end) then
    let* saved := store_at end_pos message_id saved in
    Ok (Ok tt, {| saved_message_ids_ := saved; end_pos_ := S end_pos |})
  else if Nat.leb max_size end_pos && (match saved !! 0%nat with Some x => message_id <? x | None => false end) then
    Ok (Error 2 "Ignore very old message", d)
  else
    let it := lower_bound message_id (take end_pos saved) in
    match saved !! it with
    | Some x =>
        if x =? message_id then Ok (Error 1 "Ignore already processed message", d)
        else
          CHECK! Nat.ltb end_pos (length saved) else "saved_message_ids[end_pos]" in
          Ok (Ok tt, {| saved_message_ids_ := take it saved ++ message_id :: take (end_pos - it) (drop it saved) ++ drop (S end_pos) saved;
                        end_pos_ := S end_pos |})
    | None => Panic "saved_message_ids[it]"
    end.

(** ** AuthData *)
Record AuthData := {
  use_pfs_ : bool;
  main_auth_key_ : AuthKey;
  tmp_auth_key_ : AuthKey;
  server_time_difference_was_updated_ : bool;
  server_time_difference_ : double;
  server_salt_ : ServerSalt;
  last_message_id_ : Z;
  seq_no_ : Z;
  header_ : list Z;
  session_id_ : Z;
  future_salts_ : list ServerSalt;
  duplicate_checker_ : DuplicateChecker;
  updates_duplicate_checker_ : DuplicateChecker;
  updates_duplicate_rechecker_ : DuplicateChecker;
}.

Definition minus_1e10 : double := of_int (-10000000000).

(** [random] is [Random::secure_int64()]. *)
Definition new_auth_data (random : Z) : AuthData :=
  {| use_pfs_ := true; main_auth_key_ := no_key; tmp_auth_key_ := no_key; server_time_difference_was_updated_ := false;
     server_time_difference_ := of_int 0; server_salt_ := {| salt := random; valid_since := minus_1e10; valid_until := minus_1e10 |};
     last_message_id_ := 0; seq_no_ := 0; header_ := []; session_id_ := 0; future_salts_ := [];
     duplicate_checker_ := new_checker 1000; updates_duplicate_checker_ := new_checker 1000; updates_duplicate_rechecker_ := new_checker 100 |}.

Definition with_keys (main tmp : AuthKey) (d : AuthData) : AuthData :=
  {| use_pfs_ := use_pfs_ d; main_auth_key_ := main; tmp_auth_key_ := tmp;
     server_time_difference_was_updated_ := server_time_difference_was_updated_ d; server_time_difference_ := server_time_difference_ d;
     server_salt_ := server_salt_ d; last_message_id_ := last_message_id_ d; seq_no_ := seq_no_ d; header_ := header_ d; session_id_ := session_id_ d;
     future_salts_ := future_salts_ d; duplicate_checker_ := duplicate_checker_ d;
     updates_duplicate_checker_ := updates_duplicate_checker_ d; updates_duplicate_rechecker_ := updates_duplicate_rechecker_ d |}.
Definition with_config (pfs : bool) (header : list Z) (session_id : Z) (d : AuthData) : AuthData :=
  {| use_pfs_ := pfs; main_auth_key_ := main_auth_key_ d; tmp_auth_key_ := tmp_auth_key_ d;
     server_time_difference_was_updated_ := server_time_difference_was_updated_ d; server_time_difference_ := server_time_difference_ d;
     server_salt_ := server_salt_ d; last_message_id_ := last_message_id_ d; seq_no_ := seq_no_ d; header_ := header; session_id_ := session_id;
     future_salts_ := future_salts_ d; duplicate_checker_ := duplicate_checker_ d;
     updates_duplicate_checker_ := updates_duplicate_checker_ d; updates_duplicate_rechecker_ := updates_duplicate_rechecker_ d |}.
Definition with_time (updated : bool) (diff : double) (d : AuthData) : AuthData :=
  {| use_pfs_ := use_pfs_ d; main_auth_key_ := main_auth_key_ d; tmp_auth_key_ := tmp_auth_key_ d;
     server_time_difference_was_updated_ := updated; server_time_difference_ := diff;
     server_salt_ := server_salt_ d; last_message_id_ := last_message_id_ d; seq_no_ := seq_no_ d; header_ := header_ d; session_id_ := session_id_ d;
     future_salts_ := future_salts_ d; duplicate_checker_ := duplicate_checker_ d;
     updates_duplicate_checker_ := updates_duplicate_checker_ d; updates_duplicate_rechecker_ := updates_duplicate_rechecker_ d |}.
Definition with_salts (s : ServerSalt) (future : list ServerSalt) (d : AuthData) : AuthData :=
  {| use_pfs_ := use_pfs_ d; main_auth_key_ := main_auth_key_ d; tmp_auth_key_ := tmp_auth_key_ d;
     server_time_difference_was_updated_ := server_time_difference_was_updated_ d; server_time_difference_ := server_time_difference_ d;
     server_salt_ := s; last_message_id_ := last_message_id_ d; seq_no_ := seq_no_ d; header_ := header_ d; session_id_ := session_id_ d;
     future_salts_ := future; duplicate_checker_ := duplicate_checker_ d;
     updates_duplicate_checker_ := updates_duplicate_checker_ d; updates_duplicate_rechecker_ := updates_duplicate_rechecker_ d |}.
Definition with_numbers (last_message_id seq_no : Z) (d : AuthData) : AuthData :=
  {| use_pfs_ := use_pfs_ d; main_auth_key_ := main_auth_key_ d; tmp_auth_key_ := tmp_auth_key_ d;
     server_time_difference_was_updated_ := server_time_difference_was_updated_ d; server_time_difference_ := server_time_difference_ d;
     server_salt_ := server_salt_ d; last_message_id_ := last_message_id; seq_no_ := seq_no; header_ := header_ d; session_id_ := session_id_ d;
     future_salts_ := future_salts_ d; duplicate_checker_ := duplicate_checker_ d;
     updates_duplicate_checker_ := updates_duplicate_checker_ d; updates_duplicate_rechecker_ := updates_duplicate_rechecker_ d |}.
Definition with_checkers (c u r : DuplicateChecker) (d : AuthData) : AuthData :=
  {| use_pfs_ := use_pfs_ d; main_auth_key_ := main_auth_key_ d; tmp_auth_key_ := tmp_auth_key_ d;
     server_time_difference_was_updated_ := server_time_difference_was_updated_ d; server_time_difference_ := server_time_difference_ d;
     server_salt_ := server_salt_ d; last_message_id_ := last_message_id_ d; seq_no_ := seq_no_ d; header_ := header_ d; session_id_ := session_id_ d;
     future_salts_ := future_salts_ d; duplicate_checker_ := c; updates_duplicate_checker_ := u; updates_duplicate_rechecker_ := r |}.

(** *** Keys *)
Definition set_main_auth_key (k : AuthKey) (d : AuthData) : AuthData := with_keys k (tmp_auth_key_ d) d.
Definition break_main_auth_key (d : AuthData) : Res AuthData :=
  let* k := break_key (main_auth_key_ d) in Ok (with_keys k (tmp_auth_key_ d) d).
Definition has_main_auth_key (d : AuthData) : bool := negb (key_empty (main_auth_key_ d)).
Definition need_main_auth_key (d : AuthData) : bool := negb (has_main_auth_key d).
Definition set_tmp_auth_key (k : AuthKey) (d : AuthData) : Res AuthData :=
  CHECK! negb (key_empty k) else "!auth_key.empty()" in Ok (with_keys (main_auth_key_ d) k d).
Definition was_tmp_auth_key (d : AuthData) : bool := use_pfs_ d && negb (key_empty (tmp_auth_key_ d)).
Definition need_tmp_auth_key (now refresh_margin : double) (d : AuthData) : bool :=
  if negb (use_pfs_ d) then false
  else if key_empty (tmp_auth_key_ d) then true
  else if dgt now (dsub (expires_at_ (tmp_auth_key_ d)) refresh_margin) then true else false.
Definition drop_main_auth_key (d : AuthData) : AuthData := with_keys no_key (tmp_auth_key_ d) d.
Definition drop_tmp_auth_key (d : AuthData) : AuthData := with_keys (main_auth_key_ d) no_key d.
Definition has_tmp_auth_key (now : double) (d : AuthData) : bool :=
  if negb (use_pfs_ d) then false
  else if key_empty (tmp_auth_key_ d) then false
  else if dgt now (expires_at_ (tmp_auth_key_ d)) then false else true.
Definition get_auth_key (d : AuthData) : AuthKey := if use_pfs_ d then tmp_auth_key_ d else main_auth_key_ d.
Definition has_auth_key (now : double) (d : AuthData) : bool := if use_pfs_ d then has_tmp_auth_key now d else has_main_auth_key d.
Definition get_auth_flag (d : AuthData) : bool := auth_flag_ (main_auth_key_ d).
Definition set_auth_flag (f : bool) (d : AuthData) : AuthData :=
  let d := with_keys (set_key_auth_flag f (main_auth_key_ d)) (tmp_auth_key_ d) d in
  if negb f then drop_tmp_auth_key d else d.
Definition get_bind_flag (d : AuthData) : bool := negb (use_pfs_ d) || auth_flag_ (tmp_auth_key_ d).
Definition on_bind (d : AuthData) : Res AuthData :=
  CHECK! use_pfs_ d else "use_pfs()" in Ok (with_keys (main_auth_key_ d) (set_key_auth_flag true (tmp_auth_key_ d)) d).
Definition get_header (now : double) (d : AuthData) : list Z :=
  if use_pfs_ d then (if need_header now (tmp_auth_key_ d) then header_ d else [])
  else (if need_header now (main_auth_key_ d) then header_ d else []).
Definition on_api_response (now : double) (d : AuthData) : AuthData :=
  if use_pfs_ d then with_keys (main_auth_key_ d) (remove_header now (tmp_auth_key_ d)) d
  else with_keys (remove_header now (main_auth_key_ d)) (tmp_auth_key_ d) d.
Definition on_connection_not_inited (d : AuthData) : AuthData :=
  if use_pfs_ d then with_keys (main_auth_key_ d) (restore_header (tmp_auth_key_ d)) d
  else with_keys (restore_header (main_auth_key_ d)) (tmp_auth_key_ d) d.
Definition set_header (h : list Z) (d : AuthData) : AuthData := with_config (use_pfs_ d) h (session_id_ d) d.
Definition set_session_id (s : Z) (d : AuthData) : AuthData := with_config (use_pfs_ d) (header_ d) s d.
Definition get_session_id (d : AuthData) : Res Z := CHECK! negb (session_id_ d =? 0) else "session_id_ != 0" in Ok (session_id_ d).
Definition set_use_pfs (p : bool) (d : AuthData) : AuthData := with_config p (header_ d) (session_id_ d) d.

(** *** Time *)
Definition get_server_time (now : double) (d : AuthData) : double := dadd (server_time_difference_ d) now.
Definition update_server_time_difference (diff : double) (d : AuthData) : bool * AuthData :=
  if negb (server_time_difference_was_updated_ d) then (true, with_time true diff d)
  else if dlt (dadd (server_time_difference_ d) one_e_minus_4) diff then (true, with_time (server_time_difference_was_updated_ d) diff d)
  else (false, d).
Definition reset_server_time_difference (diff : double) (d : AuthData) : AuthData := with_time false diff d.

(** *** Salts *)
Section salts.
Context (std_sort : list ServerSalt -> list ServerSalt).

(** [back()] is the end of the vector. *)
Fixpoint update_salt_loop (server_time : double) (rev_future : list ServerSalt) (current : ServerSalt) : ServerSalt * list ServerSalt :=
  match rev_future with
  | s :: rest => if dlt (valid_since s) server_time then update_salt_loop server_time rest s else (current, rev_future)
  | [] => (current, [])
  end.
Definition update_salt (now : double) (d : AuthData) : AuthData :=
  let (s, rev_future) := update_salt_loop (get_server_time now d) (rev (future_salts_ d)) (server_salt_ d) in
  with_salts s (rev rev_future) d.
Definition get_server_salt (now : double) (d : AuthData) : Z * AuthData :=
  let d := update_salt now d in (u64 (salt (server_salt_ d)), d).
Definition set_server_salt (x : Z) (now : double) (d : AuthData) : AuthData :=
  let server_time := get_server_time now d in
  with_salts {| salt := s64 x; valid_since := server_time; valid_until := dadd server_time (of_int (60 * 10)) |} [] d.
Definition is_server_salt_valid (now : double) (d : AuthData) : bool := dgt (valid_until (server_salt_ d)) (dadd (get_server_time now d) (of_int 60)).
Definition has_salt (now : double) (d : AuthData) : bool * AuthData :=
  let d := update_salt now d in (is_server_salt_valid now d, d).
Definition need_future_salts (now : double) (d : AuthData) : bool * AuthData :=
  let d := update_salt now d in
  ((match future_salts_ d with [] => true | _ => false end) || negb (is_server_salt_valid now d), d).
Definition set_future_salts (salts : list ServerSalt) (now : double) (d : AuthData) : AuthData :=
  match salts with
  | [] => d
  | _ => update_salt now (with_salts (server_salt_ d) (std_sort salts) d)
  end.
Definition get_future_salts (d : AuthData) : list ServerSalt := future_salts_ d ++ [server_salt_ d].

Definition is_ready (now : double) (d : AuthData) : bool * AuthData :=
  if negb (has_main_auth_key d) then (false, d)
  else if use_pfs_ d && negb (has_tmp_auth_key now d) then (false, d)
  else let (b, d) := has_salt now d in if negb b then (false, d) else (true, d).

(** *** Message identifiers and numbers *)
Definition next_message_id (now : double) (rx : Z) (d : AuthData) : Res (Z * AuthData) :=
  let server_time := get_server_time now d in
  let* t := to_uint64 (dmul server_time (of_int (2 ^ 32))) in
  let to_xor := Z.land rx (Z.shiftl 1 22 - 1) in
  let t := Z.lxor t to_xor in
  let result := Z.land t (u64 (-4)) in
  let result :=
    if result <=? last_message_id_ d then
      let to_mul := Z.land (Z.shiftr rx 22) 1023 + 1 in
      u64 (last_message_id_ d + 8 * to_mul)
    else result in
  Ok (result, with_numbers result (seq_no_ d) d).

Definition id_time (message_id : Z) : double := ddiv (of_int message_id) (of_int (2 ^ 32)).
Definition is_valid_outbound_msg_id (message_id : Z) (now : double) (d : AuthData) : bool :=
  let server_time := get_server_time now d in
  dlt (dsub server_time (of_int 150)) (id_time message_id) && dlt (id_time message_id) (dadd server_time (of_int 30)).
Definition is_valid_inbound_msg_id (message_id : Z) (now : double) (d : AuthData) : bool :=
  let server_time := get_server_time now d in
  dlt (dsub server_time (of_int 300)) (id_time message_id) && dlt (id_time message_id) (dadd server_time (of_int 30)).

(** The result, whether the time difference was updated if it got that far, and the state. *)
Definition check_packet (session_id message_id : Z) (now : double) (d : AuthData) : Res (Res unit * option bool * AuthData) :=
  let* own := get_session_id d in
  if negb (own =? session_id) then Ok (Error 0 "Receive packet from different session", None, d)
  else if Z.land message_id 1 =? 0 then Ok (Error 0 "Receive invalid message", None, d)
  else
    let* (status, c) := check_message_id_duplicates 1000 message_id (duplicate_checker_ d) in
    let d := with_checkers c (updates_duplicate_checker_ d) (updates_duplicate_rechecker_ d) d in
    match status with
    | Ok _ =>
        let (updated, d) := update_server_time_difference (dsub (of_int (u32 (Z.shiftr message_id 32))) now) d in
        if server_time_difference_was_updated_ d && negb (is_valid_inbound_msg_id message_id now d) then
          Ok (Error 0 "Ignore too old or too new message", Some updated, d)
        else Ok (Ok tt, Some updated, d)
    | _ => Ok (status, None, d)
    end.
Definition check_update (message_id : Z) (d : AuthData) : Res (Res unit * AuthData) :=
  let* (status, c) := check_message_id_duplicates 1000 message_id (updates_duplicate_checker_ d) in
  Ok (status, with_checkers (duplicate_checker_ d) c (updates_duplicate_rechecker_ d) d).
Definition recheck_update (message_id : Z) (d : AuthData) : Res (Res unit * AuthData) :=
  let* (status, c) := check_message_id_duplicates 100 message_id (updates_duplicate_rechecker_ d) in
  Ok (status, with_checkers (duplicate_checker_ d) (updates_duplicate_checker_ d) c d).

(** The overflow of a signed integer is undefined. *)
Definition next_seq_no (is_content_related : bool) (d : AuthData) : Res (Z * AuthData) :=
  let res := seq_no_ d in
  if is_content_related then
    CHECK! seq_no_ d + 2 <? 2 ^ 31 else "seq_no_ += 2" in
    Ok (Z.lor res 1, with_numbers (last_message_id_ d) (seq_no_ d + 2) d)
  else Ok (res, d).
Definition clear_seq_no (d : AuthData) : AuthData := with_numbers (last_message_id_ d) 0 d.

(** *** The operations that change the state, and what they answer *)
Inductive op :=
  | OSetMainAuthKey (k : AuthKey)
  | OBreakMainAuthKey
  | OSetTmpAuthKey (k : AuthKey)
  | ODropMainAuthKey
  | ODropTmpAuthKey
  | OSetAuthFlag (f : bool)
  | OBind
  | OSetHeader (h : list Z)
  | OApiResponse (now : double)
  | OConnectionNotInited
  | OSetSessionId (s : Z)
  | OSetUsePfs (p : bool)
  | OUpdateTime (diff : double)
  | OResetTime (diff : double)
  | OGetServerSalt (now : double)
  | OSetServerSalt (x : Z) (now : double)
  | OHasSalt (now : double)
  | ONeedFutureSalts (now : double)
  | OSetFutureSalts (l : list ServerSalt) (now : double)
  | OIsReady (now : double)
  | ONextMessageId (now : double) (rx : Z)
  | ONextSeqNo (is_content_related : bool)
  | OClearSeqNo
  | OCheckPacket (session_id message_id : Z) (now : double)
  | OCheckUpdate (message_id : Z)
  | ORecheckUpdate (message_id : Z).
Inductive answer :=
  | ANone
  | ABool (b : bool)
  | ANumber (z : Z)
  | AStatus (status : Res unit)
  | APacket (status : Res unit) (updated : option bool).

Definition no_answer (d : AuthData) : Res (answer * AuthData) := Ok (ANone, d).
Definition bool_answer (r : bool * AuthData) : Res (answer * AuthData) := Ok (ABool r.1, r.2).
Definition do_op (o : op) (d : AuthData) : Res (answer * AuthData) :=
  match o with
  | OSetMainAuthKey k => no_answer (set_main_auth_key k d)
  | OBreakMainAuthKey => let* d := break_main_auth_key d in no_answer d
  | OSetTmpAuthKey k => let* d := set_tmp_auth_key k d in no_answer d
  | ODropMainAuthKey => no_answer (drop_main_auth_key d)
  | ODropTmpAuthKey => no_answer (drop_tmp_auth_key d)
  | OSetAuthFlag f => no_answer (set_auth_flag f d)
  | OBind => let* d := on_bind d in no_answer d
  | OSetHeader h => no_answer (set_header h d)
  | OApiResponse now => no_answer (on_api_response now d)
  | OConnectionNotInited => no_answer (on_connection_not_inited d)
  | OSetSessionId s => no_answer (set_session_id s d)
  | OSetUsePfs p => no_answer (set_use_pfs p d)
  | OUpdateTime diff => bool_answer (update_server_time_difference diff d)
  | OResetTime diff => no_answer (reset_server_time_difference diff d)
  | OGetServerSalt now => let (x, d) := get_server_salt now d in Ok (ANumber x, d)
  | OSetServerSalt x now => no_answer (set_server_salt x now d)
  | OHasSalt now => bool_answer (has_salt now d)
  | ONeedFutureSalts now => bool_answer (need_future_salts now d)
  | OSetFutureSalts l now => no_answer (set_future_salts l now d)
  | OIsReady now => bool_answer (is_ready now d)
  | ONextMessageId now rx => let* (id, d) := next_message_id now rx d in Ok (ANumber id, d)
  | ONextSeqNo c => let* (n, d) := next_seq_no c d in Ok (ANumber n, d)
  | OClearSeqNo => no_answer (clear_seq_no d)
  | OCheckPacket s m now => let* (status, updated, d) := check_packet s m now d in Ok (APacket status updated, d)
  | OCheckUpdate m => let* (status, d) := check_update m d in Ok (AStatus status, d)
  | ORecheckUpdate m => let* (status, d) := recheck_update m d in Ok (AStatus status, d)
  end.

End salts.

(** The log of a session is kept with the latest operation first. *)
Abbreviation log := (list (op * answer)).
Inductive session (std_sort : list ServerSalt -> list ServerSalt) : log -> AuthData -> Prop :=
  | session_new random : session std_sort [] (new_auth_data random)
  | session_op l d o a d' : session std_sort l d -> do_op std_sort o d = Ok (a, d') -> session std_sort ((o, a) :: l) d'.

(** ** The checker of duplicates *)
Definition kept (d : DuplicateChecker) : list Z := take (end_pos_ d) (saved_message_ids_ d).

Record checker_wf (N : nat) (d : DuplicateChecker) : Prop := {
  ck_length : length (saved_message_ids_ d) = (2 * N)%nat;
  ck_end : (end_pos_ d <= 2 * N)%nat;
  ck_sorted : StronglySorted Z.lt (kept d);
}.

(** [A] are the identifiers accepted so far; a forgotten one is lower than all that are kept,
    and at least [N] are kept then. *)
Record checked (N : nat) (d : DuplicateChecker) (A : list Z) : Prop := {
  cd_wf : checker_wf N d;
  cd_kept x : x ∈ kept d -> x ∈ A;
  cd_old x : x ∈ A -> x ∉ kept d -> (N <= end_pos_ d)%nat /\ forall y, y ∈ kept d -> x < y;
}.

(** What the checker may answer for the identifier [m]. *)
Definition answer_ok (N : nat) (m : Z) (status : Res unit) (A : list Z) : Prop :=
  match status with
  | Ok _ => m ∉ A
  | Error code _ => (code = 1 /\ m ∈ A) \/
      (code = 2 /\ exists l, NoDup l /\ (N <= length l)%nat /\ forall x, x ∈ l -> x ∈ A /\ m < x)
  | Panic _ => False
  end.

Lemma StronglySorted_app_iff (l1 l2 : list Z) : StronglySorted Z.lt (l1 ++ l2) <->
  StronglySorted Z.lt l1 /\ StronglySorted Z.lt l2 /\ forall x y, x ∈ l1 -> y ∈ l2 -> x < y.
Proof.
  induction l1 as [|a l1 IH]; cbn.
  - split; [intros H; split_and!; [constructor | done |]; intros x y Hx; by apply elem_of_nil in Hx | tauto].
  - split.
    + intros H. apply StronglySorted_inv in H as [H Ha]. apply IH in H as (H1 & H2 & H3). rewrite Forall_app, !Forall_forall in Ha. destruct Ha as [Ha1 Ha2].
      split_and!; [constructor; [done | by apply Forall_forall] | done |]. intros x y [->|Hx]%elem_of_cons Hy; [by apply Ha2 | by apply H3].
    + intros (H1 & H2 & H3). apply StronglySorted_inv in H1 as [H1 Ha]. constructor.
      * apply IH. split_and!; [done..|]. intros x y Hx Hy. apply H3; [by right | done].
      * rewrite Forall_app. split; [done|]. apply Forall_forall. intros y Hy. apply H3; [by left | done].
Qed.

Lemma lower_bound_spec m l : StronglySorted Z.lt l ->
  (lower_bound m l <= length l)%nat /\ (forall x, x ∈ take (lower_bound m l) l -> x < m) /\ (forall x, x ∈ drop (lower_bound m l) l -> m <= x).
Proof.
  induction 1 as [|y l Hs IH Hy]; cbn; [split_and!; [lia | |]; intros x Hx; by apply elem_of_nil in Hx|]. destruct (y <? m) eqn:E; zbool; cbn.
  - destruct IH as (H1 & H2 & H3). split_and!; [lia | | done]. intros x [->|Hx]%elem_of_cons; [done | by apply H2].
  - split_and!; [lia | intros x Hx; by apply elem_of_nil in Hx |]. rewrite Forall_forall in Hy. intros x [->|Hx]%elem_of_cons; [done|]. apply Hy in Hx. lia.
Qed.

(** The first step of the check makes room. *)
Definition make_room (N : nat) (d : DuplicateChecker) : DuplicateChecker :=
  if Nat.eqb (end_pos_ d) (2 * N) then
    {| saved_message_ids_ := take N (drop N (saved_message_ids_ d)) ++ drop N (saved_message_ids_ d); end_pos_ := N |}
  else d.

Lemma make_room_checked N d A : (0 < N)%nat -> checked N d A -> checked N (make_room N d) A /\ (end_pos_ (make_room N d) < 2 * N)%nat.
Proof.
  intros HN [[Hlen Hend Hsort] Hk Ho]. unfold make_room. destruct (Nat.eqb (end_pos_ d) (2 * N)) eqn:E; zbool; [|split; [by constructor | lia]].
  assert (kept d = saved_message_ids_ d) as Hkept by (unfold kept; rewrite take_ge; [done | lia]). rewrite Hkept in *.
  set (saved := saved_message_ids_ d) in *. assert (kept {| saved_message_ids_ := take N (drop N saved) ++ drop N saved; end_pos_ := N |} = drop N saved) as Hkept'.
  { unfold kept. cbn. rewrite take_app_le by (rewrite length_take, length_drop; lia). rewrite take_take, Nat.min_id. apply take_ge. rewrite length_drop. lia. }
  rewrite <- (take_drop N saved) in Hsort. apply StronglySorted_app_iff in Hsort as (_ & Hs2 & Hlt). split; [|cbn; lia]. constructor.
  - constructor; [cbn; rewrite length_app, length_take, length_drop; lia | cbn; lia | by rewrite Hkept'].
  - rewrite Hkept'. intros x Hx. apply Hk. rewrite <- (take_drop N saved), elem_of_app. by right.
  - rewrite Hkept'. cbn. intros x Hx Hnot. split; [lia|]. intros y Hy. destruct (decide (x ∈ saved)) as [Hin|Hout].
    + rewrite <- (take_drop N saved), elem_of_app in Hin. destruct Hin as [Hin|]; [|done]. by apply Hlt.
    + apply (Ho x Hx Hout). rewrite <- (take_drop N saved), elem_of_app. by right.
Qed.

(** Every kept identifier is between the first and the last one. *)
Lemma kept_last l x y : StronglySorted Z.lt l -> last l = Some y -> x ∈ l -> x <= y.
Proof.
  intros Hs [l' ->]%last_Some Hx. apply StronglySorted_app_iff in Hs as (_ & _ & H). apply elem_of_app in Hx as [Hx | ->%list_elem_of_singleton]; [|lia].
  specialize (H x y Hx ltac:(by left)). lia.
Qed.
Lemma kept_head l x y : StronglySorted Z.lt l -> head l = Some y -> x ∈ l -> y <= x.
Proof.
  intros Hs Hy Hx. destruct l as [|z l]; [done|]. injection Hy as ->. apply StronglySorted_inv in Hs as [_ H]. rewrite Forall_forall in H.
  apply elem_of_cons in Hx as [->|Hx]; [lia|]. apply H in Hx. lia.
Qed.

Lemma checked_append N d A m : (0 < N)%nat -> checked N d A -> (end_pos_ d < 2 * N)%nat -> (forall x, x ∈ kept d -> x < m) ->
  m ∉ A /\ checked N {| saved_message_ids_ := <[end_pos_ d := m]> (saved_message_ids_ d); end_pos_ := S (end_pos_ d) |} (m :: A).
Proof.
  intros HN [[Hlen Hend Hsort] Hk Ho] Hroom Hlt. set (d' := {| saved_message_ids_ := _ |}).
  assert (kept d' = kept d ++ [m]) as Hkept.
  { unfold kept, d'. cbn. rewrite (take_S_r _ _ m) by (apply list_lookup_insert_eq; lia). by rewrite take_insert_ge by lia. }
  assert (length (kept d) = end_pos_ d) as Hkl by (unfold kept; rewrite length_take; lia).
  assert (forall x, x ∈ A -> x ∉ kept d -> x < m /\ (N <= end_pos_ d)%nat) as Hold.
  { intros x Hx Hnot. destruct (Ho x Hx Hnot) as [Hn Hall]. split; [|done]. destruct (kept d) as [|y l]; [cbn in Hkl; lia|].
    specialize (Hall y ltac:(by left)). specialize (Hlt y ltac:(by left)). lia. }
  split.
  - intros Hm. destruct (decide (m ∈ kept d)) as [Hin|Hout]; [apply Hlt in Hin; lia|]. destruct (Hold m Hm Hout). lia.
  - constructor.
    + constructor; [cbn; by rewrite length_insert | cbn; lia|]. rewrite Hkept. apply StronglySorted_app_iff. split_and!; [done | repeat constructor |].
      intros x y Hx ->%list_elem_of_singleton. by apply Hlt.
    + rewrite Hkept. intros x [Hx | ->%list_elem_of_singleton]%elem_of_app; [right; by apply Hk | by left].
    + rewrite Hkept. intros x Hx Hnot. rewrite not_elem_of_app in Hnot. destruct Hnot as [Hout Hne].
      apply elem_of_cons in Hx as [->|Hx]; [destruct Hne; by left|]. destruct (Hold x Hx Hout) as [Hxm Hn]. cbn. split; [lia|].
      intros y [Hy | ->%list_elem_of_singleton]%elem_of_app; [by apply (Ho x Hx Hout) | done].
Qed.

Lemma checked_insert N d A m it : checked N d A -> (end_pos_ d < 2 * N)%nat -> m ∉ A -> (it <= end_pos_ d)%nat ->
  (forall x, x ∈ take it (kept d) -> x < m) -> (forall x, x ∈ drop it (kept d) -> m < x) ->
  (forall x, x ∈ A -> x ∉ kept d -> x < m) ->
  checked N {| saved_message_ids_ := take it (saved_message_ids_ d) ++ m :: take (end_pos_ d - it) (drop it (saved_message_ids_ d)) ++ drop (S (end_pos_ d)) (saved_message_ids_ d);
               end_pos_ := S (end_pos_ d) |} (m :: A).
Proof.
  intros [[Hlen Hend Hsort] Hk Ho] Hroom Hm Hit Hlo Hhi Hold. set (d' := {| saved_message_ids_ := _ |}). set (saved := saved_message_ids_ d) in *.
  assert (take it saved = take it (kept d)) as Htake by (unfold kept; rewrite take_take; f_equal; lia).
  assert (take (end_pos_ d - it) (drop it saved) = drop it (kept d)) as Hdrop by (unfold kept; rewrite firstn_skipn_comm; do 2 f_equal; lia).
  assert (kept d' = take it (kept d) ++ m :: drop it (kept d)) as Hkept.
  { unfold d'. unfold kept at 1. cbn [end_pos_ saved_message_ids_]. rewrite Htake, Hdrop.
    assert (length (take it (kept d) ++ m :: drop it (kept d)) = S (end_pos_ d)) as Hl.
    { unfold kept. rewrite length_app. cbn. rewrite length_take, length_drop, length_take. fold saved. lia. }
    change (take it (kept d) ++ m :: drop it (kept d) ++ drop (S (end_pos_ d)) saved) with (take it (kept d) ++ (m :: drop it (kept d)) ++ drop (S (end_pos_ d)) saved).
    rewrite app_assoc. by rewrite <- Hl, take_app_length. }
  assert (forall x, x ∈ kept d' <-> x = m \/ x ∈ kept d) as Hmem.
  { intros x. rewrite Hkept, elem_of_app, elem_of_cons. rewrite <- (take_drop it (kept d)) at 3. rewrite elem_of_app. tauto. }
  constructor.
  - constructor; [| cbn; lia |].
    + unfold d'. cbn [saved_message_ids_]. rewrite length_app. cbn. rewrite !length_app, !length_take, !length_drop. fold saved. lia.
    + rewrite Hkept. rewrite <- (take_drop it (kept d)) in Hsort. apply StronglySorted_app_iff in Hsort as (H1 & H2 & H3).
      apply StronglySorted_app_iff. split_and!; [done | constructor; [done | by apply Forall_forall] |]. intros x y Hx [->|Hy]%elem_of_cons; [by apply Hlo | by apply H3].
  - intros x [->|Hx]%Hmem; [by left | right; by apply Hk].
  - intros x [->|Hx]%elem_of_cons Hnot; [destruct Hnot; apply Hmem; by left|].
    assert (x ∉ kept d) as Hout by (intros H; apply Hnot, Hmem; by right). destruct (Ho x Hx Hout) as [Hn Hall]. cbn. split; [lia|].
    intros y [->|Hy]%Hmem; [by apply Hold | by apply Hall].
Qed.

Lemma check_spec N m d A : (0 < N)%nat -> checked N d A ->
  exists status d', check_message_id_duplicates N m d = Ok (status, d') /\ answer_ok N m status A /\
    checked N d' (match status with Ok _ => m :: A | _ => A end).
Proof.
  intros HN Hd. destruct (make_room_checked N d A HN Hd) as [Hd1 Hroom]. unfold check_message_id_duplicates. fold (make_room N d).
  set (d1 := make_room N d) in *. clearbody d1. clear d Hd. destruct (cd_wf _ _ _ Hd1) as [Hlen Hend Hsort].
  assert (length (kept d1) = end_pos_ d1) as Hkl by (unfold kept; rewrite length_take; lia).
  assert (forall i, (i < end_pos_ d1)%nat -> saved_message_ids_ d1 !! i = kept d1 !! i) as Hlook by (intros i Hi; unfold kept; by rewrite lookup_take_lt).
  destruct (Nat.eqb (end_pos_ d1) 0 || _) eqn:Efast.
  - assert (forall x, x ∈ kept d1 -> x < m) as Hlt.
    { intros x Hx. apply orb_true_iff in Efast as [E|E]; zbool; [destruct (kept d1); [by apply elem_of_nil in Hx | cbn in Hkl; lia]|].
      destruct (decide (end_pos_ d1 = 0)%nat); [destruct (kept d1); [by apply elem_of_nil in Hx | cbn in Hkl; lia]|].
      rewrite Hlook in E by lia. destruct (kept d1 !! (end_pos_ d1 - 1)%nat) as [y|] eqn:Hy; [|done]. zbool.
      assert (last (kept d1) = Some y) as Hlast by (rewrite last_lookup, Hkl, <- Hy; f_equal; lia). pose proof (kept_last _ _ _ Hsort Hlast Hx). lia. }
    destruct (checked_append N d1 A m HN Hd1 Hroom Hlt) as [Hm Hd2]. unfold store_at. rewrite (proj2 (Nat.ltb_lt _ _)) by lia. cbn [res_bind]. eauto.
  - apply orb_false_iff in Efast as [E0 E1]. zbool. rewrite Hlook in E1 by lia.
    destruct (kept d1 !! (end_pos_ d1 - 1)%nat) as [y|] eqn:Hy; [|apply lookup_ge_None in Hy; lia]. zbool.
    assert (last (kept d1) = Some y) as Hlast by (rewrite last_lookup, Hkl, <- Hy; f_equal; lia).
    assert (exists z, head (kept d1) = Some z) as [z Hz] by (destruct (kept d1); [done | eauto]).
    rewrite (Hlook 0%nat) by lia. assert (kept d1 !! 0%nat = Some z) as -> by (by destruct (kept d1)).
    destruct (Nat.leb N (end_pos_ d1) && (m <? z)) eqn:Eold; zbool.
    + eexists _, _. split; [done|]. split; [|done]. right. split; [done|]. exists (kept d1). split_and!; [by apply sorted_NoDup | lia|].
      intros x Hx. split; [by apply (cd_kept _ _ _ Hd1)|]. pose proof (kept_head _ _ _ Hsort Hz Hx). lia.
    + fold (kept d1). destruct (lower_bound_spec m (kept d1) Hsort) as (Hb & Hlo & Hhi). set (it := lower_bound m (kept d1)) in *.
      assert (it < end_pos_ d1)%nat as Hit.
      { assert (it <> end_pos_ d1); [|lia]. intros Heq. rewrite take_ge in Hlo by lia. apply last_Some in Hlast as [l Hl]. specialize (Hlo y). rewrite Hl in Hlo.
        specialize (Hlo ltac:(apply elem_of_app; right; by left)). lia. }
      rewrite Hlook by done. destruct (kept d1 !! it) as [x|] eqn:Hx; [|apply lookup_ge_None in Hx; lia].
      assert (m <= x) as Hmx by (apply Hhi; rewrite (drop_S _ _ _ Hx); by left).
      assert (forall w, w ∈ A -> w ∉ kept d1 -> w < m) as Hold.
      { intros w Hw Hout. destruct (cd_old _ _ _ Hd1 w Hw Hout) as [Hn Hall]. specialize (Hall z ltac:(destruct (kept d1); [done | injection Hz as ->; by left])).
        apply andb_false_iff in Eold as [E|E]; zbool; lia. }
      destruct (x =? m) eqn:Exm; zbool.
      * eexists _, _. split; [done|]. split; [|done]. left. split; [done|]. apply (cd_kept _ _ _ Hd1). rewrite <- Exm. by eapply list_elem_of_lookup_2.
      * rewrite (proj2 (Nat.ltb_lt _ _)) by lia. assert (forall w, w ∈ drop it (kept d1) -> m < w) as Hhi'.
        { intros w Hw. rewrite (drop_S _ _ _ Hx) in Hw. apply elem_of_cons in Hw as [->|Hw]; [lia|].
          assert (StronglySorted Z.lt (drop it (kept d1))) as Hs by (rewrite <- (take_drop it (kept d1)) in Hsort; by apply StronglySorted_app_iff in Hsort as (_ & ? & _)).
          rewrite (drop_S _ _ _ Hx) in Hs. apply StronglySorted_inv in Hs as [_ Hs]. rewrite Forall_forall in Hs. apply Hs in Hw. lia. }
        assert (m ∉ A) as Hm.
        { intros Hm. destruct (decide (m ∈ kept d1)) as [Hin|Hout]; [|apply Hold in Hm; [lia | done]].
          rewrite <- (take_drop it (kept d1)), elem_of_app in Hin. destruct Hin as [Hin|Hin]; [apply Hlo in Hin | apply Hhi' in Hin]; lia. }
        eexists _, _. split; [done|]. split; [done|]. apply checked_insert; [done | done | done | lia | done..].
Qed.

Lemma new_checker_checked N : checked N (new_checker N) [].
Proof.
  constructor; [constructor; [apply length_replicate | cbn; lia | constructor] | |]; cbn; intros x Hx; by apply elem_of_nil in Hx.
Qed.

(** ** What the log of a session says of the three checkers *)
Definition packet_id (e : op * answer) : option Z :=
  match e with (OCheckPacket _ m _, APacket _ (Some _)) => Some m | _ => None end.
Definition accepted_packet (e : op * answer) : option Z :=
  match e with (OCheckPacket _ m _, APacket (Ok _) _) => Some m | _ => None end.
Definition accepted_update (e : op * answer) : option Z :=
  match e with (OCheckUpdate m, AStatus (Ok _)) => Some m | _ => None end.
Definition rechecked_update (e : op * answer) : option Z :=
  match e with (ORecheckUpdate m, AStatus (Ok _)) => Some m | _ => None end.
Definition new_message_id (e : op * answer) : option Z :=
  match e with (ONextMessageId _ _, ANumber id) => Some id | _ => None end.

(** The packet belongs to the session and comes from the server. *)
Definition own_packet (session_id message_id : Z) (d : AuthData) : Prop := session_id = session_id_ d /\ Z.odd message_id = true.
(** The time difference after a packet with the identifier [m]: it only grows, by more than
    0.0001 seconds, unless it was not set since it was reset. *)
Definition difference_after (m : Z) (now : double) (d : AuthData) : double :=
  let diff := dsub (of_int (u32 (Z.shiftr m 32))) now in
  if server_time_difference_was_updated_ d && negb (dlt (dadd (server_time_difference_ d) one_e_minus_4) diff)
  then server_time_difference_ d else diff.
(** The identifier is at most 300 seconds behind that server time and at most 30 ahead of it. *)
Definition in_time (m : Z) (now : double) (d : AuthData) : bool :=
  let server_time := dadd (difference_after m now d) now in
  dlt (dsub server_time (of_int 300)) (id_time m) && dlt (id_time m) (dadd server_time (of_int 30)).

(** The answer that the check of a packet must give in the state [d], [A] being the identifiers
    registered before: why it is accepted, and why it is refused. *)
Definition packet_ok (A : list Z) (d : AuthData) (s m : Z) (now : double) (status : Res unit) (updated : option bool) : Prop :=
  match status, updated with
  | Ok _, Some _ => own_packet s m d /\ m ∉ A /\ in_time m now d = true
  | Error code _, Some _ => code = 0 /\ own_packet s m d /\ m ∉ A /\ in_time m now d = false
  | Error code _, None => (code = 0 /\ ~ own_packet s m d) \/ (own_packet s m d /\ answer_ok 1000 m status A)
  | _, _ => False
  end.

(** The answer of an operation done in the state [d], after the operations of [l]. *)
Definition entry_ok (l : log) (d : AuthData) (e : op * answer) : Prop :=
  match e with
  | (OCheckPacket s m now, APacket status updated) => packet_ok (omap packet_id l) d s m now status updated
  | (OCheckUpdate m, AStatus status) => answer_ok 1000 m status (omap accepted_update l)
  | (ORecheckUpdate m, AStatus status) => answer_ok 100 m status (omap rechecked_update l)
  | (OCheckPacket _ _ _, _) | (OCheckUpdate _, _) | (ORecheckUpdate _, _) => False
  | _ => True
  end.

Record checkers_inv (l : log) (d : AuthData) : Prop := {
  ci_packets : checked 1000 (duplicate_checker_ d) (omap packet_id l);
  ci_updates : checked 1000 (updates_duplicate_checker_ d) (omap accepted_update l);
  ci_rechecks : checked 100 (updates_duplicate_rechecker_ d) (omap rechecked_update l);
}.

Section runs.
Context (std_sort : list ServerSalt -> list ServerSalt).

(** The part of the state that only the checks and the new message identifiers change. *)
Definition core (d : AuthData) := (duplicate_checker_ d, updates_duplicate_checker_ d, updates_duplicate_rechecker_ d, last_message_id_ d).
Definition changes_core (o : op) : bool :=
  match o with ONextMessageId _ _ | OCheckPacket _ _ _ | OCheckUpdate _ | ORecheckUpdate _ => true | _ => false end.

Lemma update_salt_core now d : core (update_salt now d) = core d.
Proof. unfold update_salt. by destruct (update_salt_loop _ _ _). Qed.
Lemma update_time_core diff d : core (update_server_time_difference diff d).2 = core d.
Proof. unfold update_server_time_difference. by repeat case_if. Qed.

Lemma other_op_core o d a d' : do_op std_sort o d = Ok (a, d') -> changes_core o = false -> core d' = core d.
Proof.
  intros H Ho. destruct o; try discriminate Ho; cbn in H; unfold no_answer, bool_answer in H; inv_binds.
  all: unfold break_main_auth_key, set_tmp_auth_key, on_bind, next_seq_no in *; inv_binds.
  all: unfold set_auth_flag, on_api_response, on_connection_not_inited; try (by repeat case_if).
  all: try apply update_salt_core; try apply update_time_core.
  - unfold set_future_salts. destruct l; [done|]. by rewrite update_salt_core.
  - unfold is_ready, has_salt. repeat case_if; try done; cbn; by rewrite update_salt_core.
Qed.

(** The state after [update_server_time_difference] in [check_packet]. *)
Lemma in_time_eq m now d c u r : let d2 := (update_server_time_difference (dsub (of_int (u32 (Z.shiftr m 32))) now) (with_checkers c u r d)).2 in
  server_time_difference_was_updated_ d2 = true /\ is_valid_inbound_msg_id m now d2 = in_time m now d.
Proof.
  unfold update_server_time_difference, in_time, difference_after, is_valid_inbound_msg_id, get_server_time. cbn -[dlt dadd dsub of_int id_time].
  destruct (server_time_difference_was_updated_ d) eqn:E; cbn -[dlt dadd dsub of_int id_time]; [|done].
  destruct (dlt _ _) eqn:E2; cbn -[dlt dadd dsub of_int id_time]; by rewrite ?E.
Qed.

Lemma check_packet_spec l d s m now : checkers_inv l d ->
  (session_id_ d <> 0 -> exists status updated d', check_packet s m now d = Ok (status, updated, d')) /\
  forall status updated d', check_packet s m now d = Ok (status, updated, d') ->
    let e := (OCheckPacket s m now, APacket status updated) in
    entry_ok l d e /\ checkers_inv (e :: l) d' /\ last_message_id_ d' = last_message_id_ d.
Proof.
  intros [Hp Hu Hr]. unfold check_packet, get_session_id. destruct (session_id_ d =? 0) eqn:E0; zbool; cbn [negb res_bind]; [done|].
  destruct (negb (session_id_ d =? s)) eqn:Es; zbool.
  { split; [eauto|]. intros ??? [= <- <- <-]. cbn. split_and!; [left; split; [done | by intros [-> _]] | done..]. }
  assert (Z.odd m = negb (Z.land m 1 =? 0)) as Hodd.
  { change 1 with (Z.ones 1). rewrite Z.land_ones by lia. change (2 ^ 1) with 2. rewrite Zmod_odd. by destruct (Z.odd m). }
  destruct (Z.land m 1 =? 0) eqn:Eodd.
  { split; [eauto|]. intros ??? [= <- <- <-]. cbn. split_and!; [left; split; [done | intros [_ H]; by rewrite Hodd in H] | done..]. }
  assert (own_packet s m d) as Hown by (by split).
  destruct (check_spec 1000 m _ _ ltac:(lia) Hp) as (status & c & -> & Hans & Hc). cbn [res_bind].
  destruct status as [[]|code msg|]; [|split; [eauto|]; intros ??? [= <- <- <-]..].
  - destruct (in_time_eq m now d c (updates_duplicate_checker_ d) (updates_duplicate_rechecker_ d)) as [Hupd Htime].
    set (d1 := with_checkers c _ _ d) in *.
    pose proof (update_time_core (dsub (of_int (u32 (Z.shiftr m 32))) now) d1) as Hcore. destruct (update_server_time_difference _ d1) as [updated d2].
    cbn [snd] in *. injection Hcore as Hc1 Hc2 Hc3 Hlast. rewrite Hupd, Htime. cbn [andb].
    destruct (in_time m now d) eqn:Et; cbn [negb]; (split; [eauto|]); intros ??? [= <- <- <-];
      (split_and!; [by cbn | constructor; cbn; rewrite ?Hc1, ?Hc2, ?Hc3; done | done]).
  - cbn. split_and!; [by right | by constructor | done].
  - done.
Qed.

Lemma check_update_spec l d m : checkers_inv l d ->
  exists status d', check_update m d = Ok (status, d') /\ let e := (OCheckUpdate m, AStatus status) in
    entry_ok l d e /\ checkers_inv (e :: l) d' /\ last_message_id_ d' = last_message_id_ d.
Proof.
  intros [Hp Hu Hr]. unfold check_update. destruct (check_spec 1000 m _ _ ltac:(lia) Hu) as (status & c & -> & Hans & Hc). cbn [res_bind].
  eexists _, _. split; [done|]. split_and!; [done | | done]. constructor; [done | by destruct status | done].
Qed.
Lemma recheck_update_spec l d m : checkers_inv l d ->
  exists status d', recheck_update m d = Ok (status, d') /\ let e := (ORecheckUpdate m, AStatus status) in
    entry_ok l d e /\ checkers_inv (e :: l) d' /\ last_message_id_ d' = last_message_id_ d.
Proof.
  intros [Hp Hu Hr]. unfold recheck_update. destruct (check_spec 100 m _ _ ltac:(lia) Hr) as (status & c & -> & Hans & Hc). cbn [res_bind].
  eexists _, _. split; [done|]. split_and!; [done | | done]. constructor; [done | done | by destruct status].
Qed.

Lemma land_minus_4 t : 0 <= Z.land t (u64 (-4)) /\ (4 | Z.land t (u64 (-4))).
Proof.
  split; [apply Z.land_nonneg; right; done|]. apply Z.mod_divide; [lia|]. change 4 with (2 ^ 2). rewrite <- Z.land_ones by lia.
  rewrite <- Z.land_assoc. change (Z.land (u64 (-4)) (Z.ones 2)) with 0. apply Z.land_0_r.
Qed.

Lemma next_message_id_spec now rx d id d' : next_message_id now rx d = Ok (id, d') -> 0 <= last_message_id_ d -> (4 | last_message_id_ d) ->
  last_message_id_ d' = id /\ 0 <= id /\ (4 | id) /\ (last_message_id_ d < 2 ^ 64 - 2 ^ 13 -> last_message_id_ d < id) /\
  duplicate_checker_ d' = duplicate_checker_ d /\ updates_duplicate_checker_ d' = updates_duplicate_checker_ d /\
  updates_duplicate_rechecker_ d' = updates_duplicate_rechecker_ d.
Proof.
  unfold next_message_id. intros H Hlast Hdiv. apply bind_Ok in H as (t & _ & [= <- <-]). set (r := Z.land _ (u64 (-4))). cbn -[r].
  assert (0 <= Z.land (Z.shiftr rx 22) 1023 < 1024) as Hmul.
  { change 1023 with (Z.ones 10). rewrite Z.land_ones by lia. apply Z.mod_pos_bound. lia. }
  destruct (land_minus_4 (Z.lxor t (Z.land rx (Z.shiftl 1 22 - 1)))) as [Hr0 Hr4]. fold r in Hr0, Hr4. clearbody r.
  destruct (r <=? last_message_id_ d) eqn:E; zbool; [|split_and!; done || lia].
  destruct Hdiv as [q Hq]. unfold u64. split_and!; try done; [apply Z.mod_pos_bound; lia | | intros; rewrite Z.mod_small; lia].
  apply Z.mod_divide; [lia|]. rewrite <- (Z.mod_mod_divide _ (2 ^ 64)) by (by exists (2 ^ 62)). rewrite Z.mod_mod by lia. zlia.
Qed.

(** *** The invariant of a session *)
Record session_inv (l : log) (d : AuthData) : Prop := {
  si_checkers : checkers_inv l d;
  si_last : last_message_id_ d = default 0 (head (omap new_message_id l));
  si_nonneg : 0 <= last_message_id_ d;
  si_four : (4 | last_message_id_ d);
}.

Lemma other_entry o a : changes_core o = false -> packet_id (o, a) = None /\ accepted_packet (o, a) = None /\
  accepted_update (o, a) = None /\ rechecked_update (o, a) = None /\ new_message_id (o, a) = None /\ forall l d, entry_ok l d (o, a).
Proof. by destruct o. Qed.

Lemma session_step l d o a d' : session_inv l d -> do_op std_sort o d = Ok (a, d') -> entry_ok l d (o, a) /\ session_inv ((o, a) :: l) d'.
Proof.
  intros [Hc Hlast Hnn H4] H. destruct (changes_core o) eqn:Ho.
  - destruct o; try discriminate Ho; cbn in H; apply bind_Ok in H as ([x d1] & E & H).
    + injection H as <- <-. destruct (next_message_id_spec _ _ _ _ _ E Hnn H4) as (Hid & Hz & Hz4 & _ & E1 & E2 & E3). destruct Hc as [Hp Hu Hr].
      split; [done|]. constructor; [constructor; cbn; congruence | ..]; cbn; congruence.
    + destruct x as [status updated]. injection H as <- <-. destruct (check_packet_spec l d session_id message_id now Hc) as [_ Hs].
      apply Hs in E as (He & Hi & Hl). split; [done|]. constructor; [done | cbn; congruence..].
    + destruct (check_update_spec l d message_id Hc) as (st & d2 & E1 & He & Hi & Hl). rewrite E1 in E. injection E as <- <-. injection H as <- <-.
      split; [done|]. constructor; [done | cbn; congruence..].
    + destruct (recheck_update_spec l d message_id Hc) as (st & d2 & E1 & He & Hi & Hl). rewrite E1 in E. injection E as <- <-. injection H as <- <-.
      split; [done|]. constructor; [done | cbn; congruence..].
  - destruct (other_entry o a Ho) as (E1 & E2 & E3 & E4 & E5 & He). split; [done|]. apply other_op_core in H; [|done].
    injection H as H1 H2 H3 H4'. destruct Hc as [Hp Hu Hr]. constructor; [constructor|..]; cbn [omap list_omap]; rewrite ?E1, ?E3, ?E4, ?E5; congruence.
Qed.

Lemma session_holds l d : session std_sort l d -> session_inv l d.
Proof.
  induction 1 as [random|l d o a d' _ IH Hop]; [|by apply (session_step l d o a d') in Hop as []].
  constructor; [constructor; apply new_checker_checked | done | done | by exists 0].
Qed.

(** An identifier that a checker accepts was not accepted before. *)
Lemma accepted_once (f : op * answer -> option Z) l d : session std_sort l d ->
  (forall l d e m, session std_sort l d -> entry_ok l d e -> f e = Some m -> m ∉ omap f l) -> NoDup (omap f l).
Proof.
  intros H Hf. induction H as [random|l d o a d' Hs IH Hop]; [constructor|]. apply (session_step l d o a d') in Hop as [He _]; [|by apply session_holds].
  cbn. destruct (f (o, a)) as [m|] eqn:E; [constructor; [by eapply Hf | done] | done].
Qed.

Lemma accepted_is_packet l d x : session std_sort l d -> x ∈ omap accepted_packet l -> x ∈ omap packet_id l.
Proof.
  intros H. induction H as [random|l d o a d' Hs IH Hop]; [done|]. apply session_holds in Hs. destruct o; try done. cbn in Hop.
  apply bind_Ok in Hop as ([[status updated] d1] & E & [= <- <-]).
  destruct (check_packet_spec l d session_id message_id now (si_checkers _ _ Hs)) as [_ Hspec]. apply Hspec in E as (Hok & _ & _). clear Hspec.
  cbn in *. destruct status as [[]| |]; destruct updated; cbn in *; rewrite ?elem_of_cons; by intuition.
Qed.

End runs.

(** ** A session to try the claims on *)
Fixpoint logged (ops : list op) (l : log) (d : AuthData) : log * AuthData :=
  match ops with
  | [] => (l, d)
  | o :: ops => match do_op id o d with Ok (a, d) => logged ops ((o, a) :: l) d | _ => (l, d) end
  end.
Lemma logged_session ops l d : session id l d -> session id (logged ops l d).1 (logged ops l d).2.
Proof. revert l d. induction ops as [|o ops IH]; intros l d H; cbn; [done|]. destruct (do_op id o d) as [[a d']| |] eqn:E; [|done..]. apply IH. by econstructor. Qed.

Definition example_time : double := of_int 1700000000.
Definition example_ops : list op :=
  [OSetSessionId 7; OSetServerSalt 11 example_time; ONextMessageId example_time 5; ONextMessageId example_time 5;
   OCheckPacket 7 (1700000000 * 2 ^ 32 + 1) example_time; OCheckPacket 7 (1700000000 * 2 ^ 32 + 1) example_time;
   OCheckPacket 7 (1700000000 * 2 ^ 32 - 3) example_time; OCheckPacket 7 (1600000000 * 2 ^ 32 + 1) example_time;
   OCheckPacket 8 (1700000000 * 2 ^ 32 + 5) example_time; OCheckUpdate 9; OCheckUpdate 9; ORecheckUpdate 9;
   OResetTime (of_int (-5)); ONextMessageId example_time (-1)].
Definition example_session : log * AuthData := logged example_ops [] (new_auth_data 0).
Lemma example_is_session : session id example_session.1 example_session.2.
Proof. apply logged_session, session_new. Qed.

(** ** Claims *)

(** C10. No message is processed twice in a session, and none is refused without a reason.
    Whatever operations are done on an [AuthData], in any order and with any clock, the
    identifiers of the packets that [check_packet] accepted are all different, and so are those
    that [check_update] and [recheck_update] accepted.  The next operation answers as follows.
    A packet is accepted only if it names the session and its identifier is odd, was not
    registered before and is in time; it is refused only for one of these reasons: the
    status 0 is given to a packet of another session or with an even identifier, and to a new
    identifier that is 300 seconds or more behind or 30 seconds or more ahead of the server
    time; the status 1 to an identifier that was registered before, the status 2 to one that is
    lower than at least 1000 (for the second check of updates 100) registered ones.  The checks
    always return, [check_packet] if a session was chosen. *)
Theorem auth_data_no_replay (std_sort : list ServerSalt -> list ServerSalt) (l : log) (d : AuthData) : session std_sort l d ->
  (NoDup (omap accepted_packet l) /\ NoDup (omap accepted_update l) /\ NoDup (omap rechecked_update l)) /\
  (forall o a d', do_op std_sort o d = Ok (a, d') -> entry_ok l d (o, a)) /\
  (forall m, (exists r, check_update m d = Ok r) /\ (exists r, recheck_update m d = Ok r)) /\
  (forall s m now, session_id_ d <> 0 -> exists status updated d', check_packet s m now d = Ok (status, updated, d') /\
     packet_ok (omap packet_id l) d s m now status updated).
Proof.
  intros Hs. pose proof (session_holds _ _ _ Hs) as Hinv. pose proof (si_checkers _ _ Hinv) as Hc. split_and!.
  - apply (accepted_once std_sort _ l d Hs). intros l1 d1 [o a] m Hs1 He Hm Hin. apply (accepted_is_packet std_sort _ d1) in Hin; [|done].
    destruct o; try done. destruct a as [| | | |status updated]; try done. destruct status as [[]| |]; try done. injection Hm as ->. cbn in He.
    destruct updated; [by destruct He as (_ & ? & _)|done].
  - apply (accepted_once std_sort _ l d Hs). intros l1 d1 [o a] m _ He Hm. destruct o; try done. destruct a as [| | |status|]; try done.
    destruct status as [[]| |]; try done. by injection Hm as ->.
  - apply (accepted_once std_sort _ l d Hs). intros l1 d1 [o a] m _ He Hm. destruct o; try done. destruct a as [| | |status|]; try done.
    destruct status as [[]| |]; try done. by injection Hm as ->.
  - intros o a d' Hop. by destruct (session_step std_sort l d o a d' Hinv Hop).
  - intros m. destruct (check_update_spec l d m Hc) as (? & ? & ? & _). destruct (recheck_update_spec l d m Hc) as (? & ? & ? & _). eauto.
  - intros s m now Hne. destruct (check_packet_spec l d s m now Hc) as [Hret Hspec]. destruct (Hret Hne) as (status & updated & d' & E).
    exists status, updated, d'. split; [done|]. by apply Hspec in E as (? & _ & _).
Qed.

Lemma auth_data_no_replay_witness :
  session id example_session.1 example_session.2 /\ omap accepted_packet example_session.1 = [1700000000 * 2 ^ 32 - 3; 1700000000 * 2 ^ 32 + 1] /\
  omap packet_id example_session.1 = [1600000000 * 2 ^ 32 + 1; 1700000000 * 2 ^ 32 - 3; 1700000000 * 2 ^ 32 + 1] /\
  omap accepted_update example_session.1 = [9] /\ NoDup (omap accepted_packet example_session.1).
Proof.
  split; [apply example_is_session|]. split_and!; [vm_compute; reflexivity..|].
  exact (proj1 (proj1 (auth_data_no_replay id example_session.1 example_session.2 example_is_session))).
Defined.

(** C22. The identifiers of the messages that a session sends: every identifier that
    [next_message_id] gave is a positive multiple of 4 and greater than all that it gave before, whatever the
    clock, the time difference and the random bits were and whatever happened in between, as
    long as the identifiers have not come within 2^13 of the end of the 64 bits. *)
Theorem auth_data_message_ids (std_sort : list ServerSalt -> list ServerSalt) (l : log) (d : AuthData) : session std_sort l d ->
  Forall (fun id => id < 2 ^ 64 - 2 ^ 13) (omap new_message_id l) ->
  StronglySorted Z.gt (omap new_message_id l) /\ Forall (fun id => 0 < id /\ (4 | id)) (omap new_message_id l).
Proof.
  induction 1 as [random|l d o a d' Hs IH Hop]; intros Hb; [repeat constructor|]. cbn [omap list_omap] in *.
  destruct (new_message_id (o, a)) as [id|] eqn:E; [|by apply IH]. inversion Hb as [|? ? Hid Hb']; subst. destruct (IH Hb') as [Hsort Hpos].
  destruct (session_holds _ _ _ Hs) as [_ Hlast Hnn H4]. destruct o; try done. cbn in Hop. apply bind_Ok in Hop as ([id' d1] & En & [= <- <-]).
  injection E as ->. destruct (next_message_id_spec _ _ _ _ _ En Hnn H4) as (_ & Hid0 & Hid4 & Hlt & _).
  set (ids := omap new_message_id l) in *. clearbody ids. rewrite Hlast in *. destruct ids as [|x ids]; cbn in Hlt, Hnn.
  - specialize (Hlt ltac:(lia)). split; [repeat constructor | repeat constructor; lia || done].
  - inversion Hb' as [|? ? Hx _]; subst. specialize (Hlt Hx). split; [|constructor; [split; [lia | done] | done]].
    constructor; [done|]. apply StronglySorted_inv in Hsort as [_ Hall]. constructor; [lia|]. eapply Forall_impl; [exact Hall|]. cbn. lia.
Qed.

Lemma auth_data_message_ids_witness :
  session id example_session.1 example_session.2 /\ omap new_message_id example_session.1 = [7301444403200008204; 7301444403200000012; 7301444403200000004] /\
  StronglySorted Z.gt (omap new_message_id example_session.1).
Proof.
  split; [apply example_is_session|]. assert (omap new_message_id example_session.1 = [7301444403200008204; 7301444403200000012; 7301444403200000004]) as E by (vm_compute; reflexivity).
  split; [exact E|]. apply (auth_data_message_ids id example_session.1 example_session.2 example_is_session). rewrite E. repeat constructor; lia.
Defined.
