(* ===== verification/Ids.v ===== *)
(** * Identifiers

    The identifiers of chats and of messages, which pack a kind and a number in one
    64-bit integer: td/telegram/UserId.h, ChatId.h, ChannelId.h, SecretChatId.h,
    DialogId.h, ServerMessageId.h, ScheduledServerMessageId.h and MessageId.h with their
    .cpp files.  An identifier is the integer the class holds.  The server's messages and
    peers are objects of the generated telegram_api; the fields the code reads of them are
    the arguments of the constructors below. *)
From S2P Require Import Prelude.
Local Open Scope td_scope.

Module UserId.
Definition MAX_USER_ID : Z := Z.shiftl 1 40 - 1.
Definition is_valid (id : Z) : bool := (0 <? id) && (id <=? MAX_USER_ID).
Definition get_user_ids (input_user_ids : list Z) (only_valid : bool) : list Z :=
  filter (fun user_id => negb only_valid || is_valid user_id = true) input_user_ids.
Definition get_input_user_ids (user_ids : list Z) : list Z := map (fun user_id => user_id) user_ids.
End UserId.

Module ChatId.
Definition MAX_CHAT_ID : Z := 999999999999.
Definition is_valid (id : Z) : bool := (0 <? id) && (id <=? MAX_CHAT_ID).
End ChatId.

Module ChannelId.
Definition MAX_CHANNEL_ID : Z := 1000000000000 - Z.shiftl 1 31.
Definition MIN_MONOFORUM_CHANNEL_ID : Z := 1000000000000 + Z.shiftl 1 31 + 1.
Definition MAX_MONOFORUM_CHANNEL_ID : Z := 3000000000000.
Definition is_regular_channel (id : Z) : bool := (0 <? id) && (id <? MAX_CHANNEL_ID).
Definition is_valid (id : Z) : bool :=
  is_regular_channel id || ((MIN_MONOFORUM_CHANNEL_ID <=? id) && (id <? MAX_MONOFORUM_CHANNEL_ID)).
End ChannelId.

(** The integer is an [int32]. *)
Module SecretChatId.
Definition is_valid (id : Z) : bool := negb (id =? 0).
End SecretChatId.

(** The peers and messages of telegram_api. *)
Inductive Peer := peerUser (user_id_ : Z) | peerChat (chat_id_ : Z) | peerChannel (channel_id_ : Z).
Inductive DialogPeer := dialogPeer (peer_ : option Peer) | dialogPeerFolder | dialogPeerCommunity.
Inductive Message :=
  | messageEmpty (id_ : Z) (peer_id_ : option Peer)
  | message (id_ date_ : Z) (peer_id_ : option Peer)
  | messageService (id_ date_ : Z) (peer_id_ : option Peer).

Module DialogId.
Inductive DialogType := NoDialog | User | Chat | Channel | SecretChat.
#[global] Instance DialogType_eq_dec : EqDecision DialogType.
Proof. solve_decision. Defined.

Definition ZERO_SECRET_CHAT_ID : Z := -2000000000000.
Definition ZERO_CHANNEL_ID : Z := -1000000000000.
Definition INT32_MIN : Z := - 2 ^ 31.

Definition get_type (id : Z) : DialogType :=
  if id <? 0 then
    if - ChatId.MAX_CHAT_ID <=? id then Chat
    else if (ZERO_CHANNEL_ID - ChannelId.MAX_CHANNEL_ID <=? id) && negb (id =? ZERO_CHANNEL_ID) then Channel
    else if (ZERO_SECRET_CHAT_ID + INT32_MIN <=? id) && negb (id =? ZERO_SECRET_CHAT_ID) then SecretChat
    else if ZERO_CHANNEL_ID - ChannelId.MAX_MONOFORUM_CHANNEL_ID <=? id then Channel
    else NoDialog
  else if (0 <? id) && (id <=? UserId.MAX_USER_ID) then User
  else NoDialog.

Definition is_valid (id : Z) : bool := negb (bool_decide (get_type id = NoDialog)).

Definition get_user_id (id : Z) : Res Z :=
  CHECK! bool_decide (get_type id = User) else "get_type() == DialogType::User" in Ok id.
Definition get_chat_id (id : Z) : Res Z :=
  CHECK! bool_decide (get_type id = Chat) else "get_type() == DialogType::Chat" in Ok (- id).
Definition get_channel_id (id : Z) : Res Z :=
  CHECK! bool_decide (get_type id = Channel) else "get_type() == DialogType::Channel" in Ok (ZERO_CHANNEL_ID - id).
Definition get_secret_chat_id (id : Z) : Res Z :=
  CHECK! bool_decide (get_type id = SecretChat) else "get_type() == DialogType::SecretChat" in Ok (s32 (id - ZERO_SECRET_CHAT_ID)).

(** The constructors. *)
Definition of_user (user_id : Z) : Z := if UserId.is_valid user_id then user_id else 0.
Definition of_chat (chat_id : Z) : Z := if ChatId.is_valid chat_id then - chat_id else 0.
Definition of_channel (channel_id : Z) : Z := if ChannelId.is_valid channel_id then ZERO_CHANNEL_ID - channel_id else 0.
Definition of_secret_chat (secret_chat_id : Z) : Z :=
  if SecretChatId.is_valid secret_chat_id then ZERO_SECRET_CHAT_ID + secret_chat_id else 0.

Definition get_peer_id (peer : option Peer) : Res Z :=
  match peer with
  | None => Panic "peer != nullptr"
  | Some (peerUser user_id) => Ok (if negb (UserId.is_valid user_id) then 0 else user_id)
  | Some (peerChat chat_id) => Ok (if negb (ChatId.is_valid chat_id) then 0 else - chat_id)
  | Some (peerChannel channel_id) => Ok (if negb (ChannelId.is_valid channel_id) then 0 else ZERO_CHANNEL_ID - channel_id)
  end.
Definition of_peer (peer : option Peer) : Res Z := get_peer_id peer.
Definition of_dialog_peer (dialog_peer : option DialogPeer) : Res Z :=
  match dialog_peer with
  | None => Panic "dialog_peer != nullptr"
  | Some (dialogPeer peer) => get_peer_id peer
  | Some dialogPeerFolder => Ok 0
  | Some dialogPeerCommunity => Ok 0
  end.

Definition get_message_dialog_id (message_ptr : option Message) : Res Z :=
  match message_ptr with
  | None => Panic "message_ptr != nullptr"
  | Some (messageEmpty _ peer_id) => match peer_id with None => Ok 0 | _ => of_peer peer_id end
  | Some (message _ _ peer_id) => of_peer peer_id
  | Some (messageService _ _ peer_id) => of_peer peer_id
  end.

Definition get_dialog_ids (chat_ids : list Z) : list Z := map (fun chat_id => chat_id) chat_ids.
Definition get_user_dialog_ids (user_ids : list Z) : list Z := map of_user user_ids.
Definition get_chat_dialog_ids (chat_ids : list Z) : list Z := map of_chat chat_ids.
Definition get_channel_dialog_ids (channel_ids : list Z) : list Z := map of_channel channel_ids.
Definition get_secret_chat_dialog_ids (secret_chat_ids : list Z) : list Z := map of_secret_chat secret_chat_ids.
Definition remove_secret_chat_dialog_ids (dialog_ids : list Z) : list Z :=
  filter (fun dialog_id => ~ get_type dialog_id = SecretChat) dialog_ids.

(** ** Proofs *)

(** The identifier inside of a dialog identifier and the way back. *)
Definition inner (id : Z) : Res Z :=
  match get_type id with
  | User => get_user_id id
  | Chat => get_chat_id id
  | Channel => get_channel_id id
  | SecretChat => get_secret_chat_id id
  | NoDialog => Error 0 "no dialog"
  end.
Definition outer (ty : DialogType) (x : Z) : Z :=
  match ty with User => of_user x | Chat => of_chat x | Channel => of_channel x | SecretChat => of_secret_chat x | NoDialog => 0 end.
Definition inner_valid (ty : DialogType) (x : Z) : bool :=
  match ty with
  | User => UserId.is_valid x
  | Chat => ChatId.is_valid x
  | Channel => ChannelId.is_valid x
  | SecretChat => SecretChatId.is_valid x
  | NoDialog => false
  end.

(** The ids that no chat has and that still have a type. *)
Definition boundary (id : Z) : Prop :=
  id = ZERO_CHANNEL_ID \/ id = ZERO_SECRET_CHAT_ID \/ id = ZERO_CHANNEL_ID - ChannelId.MAX_CHANNEL_ID \/
  id = ZERO_CHANNEL_ID - ChannelId.MAX_MONOFORUM_CHANNEL_ID.

Ltac consts :=
  unfold boundary, inner, outer, inner_valid, get_user_id, get_chat_id, get_channel_id, get_secret_chat_id, of_user, of_chat, of_channel, of_secret_chat,
    UserId.is_valid, ChatId.is_valid, ChannelId.is_valid, ChannelId.is_regular_channel, SecretChatId.is_valid,
    ZERO_CHANNEL_ID, ZERO_SECRET_CHAT_ID, INT32_MIN, ChatId.MAX_CHAT_ID, ChannelId.MAX_CHANNEL_ID,
    ChannelId.MIN_MONOFORUM_CHANNEL_ID, ChannelId.MAX_MONOFORUM_CHANNEL_ID, UserId.MAX_USER_ID in *;
  change (Z.shiftl 1 31) with 2147483648 in *; change (Z.shiftl 1 40) with 1099511627776 in *; change (2 ^ 31) with 2147483648 in *.

(** The kinds of chats are intervals of the integers. *)
Lemma get_type_ranges id :
  match get_type id with
  | User => 0 < id <= 1099511627775
  | Chat => -999999999999 <= id < 0
  | Channel => -1997852516352 <= id < -1000000000000 \/ -4000000000000 <= id < -2002147483648 \/ id = -2000000000000
  | SecretChat => -2002147483648 <= id < -1997852516352 /\ id <> -2000000000000 \/ id = -1000000000000
  | NoDialog => id = 0 \/ 1099511627775 < id \/ id < -4000000000000
  end.
Proof.
  unfold get_type. consts. destruct (id <? 0) eqn:E0; zbool.
  - repeat (case_if; [first [lia | match goal with H : (_ && _) = true |- _ => zbool end; zbool; lia]|]).
    repeat match goal with H : (_ && _) = false |- _ => apply andb_false_iff in H end.
    lia.
  - case_if; [lia|]. match goal with H : (_ && _) = false |- _ => apply andb_false_iff in H as [H|H] end; zbool; lia.
Qed.

Lemma get_type_unique id ty :
  match ty with
  | User => 0 < id <= 1099511627775
  | Chat => -999999999999 <= id < 0
  | Channel => -1997852516352 <= id < -1000000000000 \/ -4000000000000 <= id < -2002147483648
  | SecretChat => -2002147483648 <= id < -1997852516352 /\ id <> -2000000000000
  | NoDialog => False
  end -> get_type id = ty.
Proof. intros H. pose proof (get_type_ranges id) as Hr. destruct ty, (get_type id); try done; exfalso; lia. Qed.

Lemma outer_inner ty x : inner_valid ty x = true -> (ty = SecretChat -> is_s32 x) ->
  get_type (outer ty x) = ty /\ inner (outer ty x) = Ok x.
Proof.
  intros Hv Hs. assert (get_type (outer ty x) = ty) as Ht.
  { apply get_type_unique. unfold is_s32 in Hs. destruct ty; consts; rewrite ?Hv; zbool; try specialize (Hs eq_refl); lia || done. }
  split; [done|]. unfold inner, get_user_id, get_chat_id, get_channel_id, get_secret_chat_id. rewrite Ht. destruct ty; [done|..];
    rewrite bool_decide_true by done; consts; rewrite Hv; f_equal; try lia.
  replace (-2000000000000 + x - -2000000000000) with x by lia. apply s32_small, Hs. done.
Qed.

Lemma inner_outer id : is_valid id = true -> exists x, inner id = Ok x /\
  (inner_valid (get_type id) x = true /\ outer (get_type id) x = id <-> ~ boundary id).
Proof.
  intros Hv. pose proof (get_type_ranges id) as Hr. unfold is_valid in Hv. zbool. apply bool_decide_eq_false in Hv.
  unfold inner, get_user_id, get_chat_id, get_channel_id, get_secret_chat_id.
  destruct (get_type id) eqn:Ht; [done|..]; rewrite bool_decide_true by done; eexists; (split; [done|]); consts.
  1-2: rewrite (proj2 (Z.ltb_lt _ _)), (proj2 (Z.leb_le _ _)) by lia; simpl; lia.
  + split; [|intros Hb].
    * intros [Hb1 Hb2]. apply orb_true_iff in Hb1 as [Hb1|Hb1]; zbool; lia.
    * assert (0 < -1000000000000 - id < 1000000000000 - 2147483648 \/ 1000000000000 + 2147483648 + 1 <= -1000000000000 - id < 3000000000000) as Hin by lia.
      assert ((0 <? -1000000000000 - id) && (-1000000000000 - id <? 1000000000000 - 2147483648)
        || (1000000000000 + 2147483648 + 1 <=? -1000000000000 - id) && (-1000000000000 - id <? 3000000000000) = true) as -> by lia. split; [done|lia].
  + destruct Hr as [Hr| ->]; [|vm_compute; intuition congruence]. rewrite s32_small by (unfold is_s32; lia).
    rewrite (proj2 (Z.eqb_neq _ _)) by lia. simpl. lia.
Qed.

Lemma secret_chat_range id x : get_type id = SecretChat -> inner id = Ok x -> is_s32 x.
Proof.
  unfold inner, get_secret_chat_id. intros ->. case_if; [|done]. intros [= <-]. apply s32_range.
Qed.

Lemma boundary_kinds : get_type ZERO_CHANNEL_ID = SecretChat /\ get_type ZERO_SECRET_CHAT_ID = Channel /\
  get_type (ZERO_CHANNEL_ID - ChannelId.MAX_CHANNEL_ID) = Channel /\
  get_type (ZERO_CHANNEL_ID - ChannelId.MAX_MONOFORUM_CHANNEL_ID) = Channel.
Proof. by vm_compute. Qed.

(** C36. Dialog identifiers: every valid user, basic group, channel or secret chat identifier
    is recovered, with its kind, from the dialog identifier made of it; conversely the
    identifier inside of a dialog identifier that has a kind is valid and gives it back,
    except at exactly four boundary integers.  [is_valid] accepts exactly the dialog
    identifiers made of valid identifiers and these four integers, which no chat has: the one
    of the channel zero is typed as a secret chat, the one of the secret chat zero and the ends
    of the two ranges of channels as channels. *)
Theorem dialog_id_kinds :
  (forall ty x, inner_valid ty x = true -> (ty = SecretChat -> is_s32 x) -> get_type (outer ty x) = ty /\ inner (outer ty x) = Ok x) /\
  (forall id, is_valid id = true -> exists x, inner id = Ok x /\
     (inner_valid (get_type id) x = true /\ outer (get_type id) x = id <-> ~ boundary id)) /\
  (forall id, is_valid id = true <-> boundary id \/
     exists ty x, inner_valid ty x = true /\ (ty = SecretChat -> is_s32 x) /\ outer ty x = id) /\
  (get_type ZERO_CHANNEL_ID = SecretChat /\ get_type ZERO_SECRET_CHAT_ID = Channel /\
   get_type (ZERO_CHANNEL_ID - ChannelId.MAX_CHANNEL_ID) = Channel /\
   get_type (ZERO_CHANNEL_ID - ChannelId.MAX_MONOFORUM_CHANNEL_ID) = Channel).
Proof.
  split; [exact outer_inner|]. split; [exact inner_outer|]. split; [|exact boundary_kinds].
  destruct boundary_kinds as (B1 & B2 & B3 & B4). intros id. split.
  - intros Hv. destruct (inner_outer id Hv) as (x & Hx & Hiff).
    destruct (decide (id = ZERO_CHANNEL_ID)), (decide (id = ZERO_SECRET_CHAT_ID)), (decide (id = ZERO_CHANNEL_ID - ChannelId.MAX_CHANNEL_ID)),
      (decide (id = ZERO_CHANNEL_ID - ChannelId.MAX_MONOFORUM_CHANNEL_ID)); try (left; unfold boundary; tauto).
    right. destruct (proj2 Hiff) as [H1 H2]; [unfold boundary; tauto|]. exists (get_type id), x.
    split_and!; [done| |done]. intros Ht. by apply (secret_chat_range id).
  - intros [Hb|(ty & x & Hv & Hs & <-)]; unfold is_valid.
    + destruct Hb as [->|[->|[->| ->]]]; by rewrite ?B1, ?B2, ?B3, ?B4.
    + destruct (outer_inner ty x Hv Hs) as [-> _]. by destruct ty.
Qed.

Lemma dialog_id_kinds_witness : inner_valid Channel 1234 = true /\ get_type (outer Channel 1234) = Channel /\
  inner (outer Channel 1234) = Ok 1234 /\ boundary ZERO_CHANNEL_ID /\ is_valid ZERO_CHANNEL_ID = true /\
  exists x, inner ZERO_CHANNEL_ID = Ok x /\ ~ (inner_valid SecretChat x = true /\ outer SecretChat x = ZERO_CHANNEL_ID).
Proof.
  destruct dialog_id_kinds as (H1 & H2 & H3 & H4 & _). destruct (H1 Channel 1234) as [Ht Hi]; [reflexivity|discriminate|].
  assert (boundary ZERO_CHANNEL_ID) as Hb by (by left). assert (is_valid ZERO_CHANNEL_ID = true) as Hv by (apply H3; by left).
  split_and!; [reflexivity|exact Ht|exact Hi|exact Hb|exact Hv|].
  destruct (H2 ZERO_CHANNEL_ID Hv) as (x & Hx & Hiff). exists x. split; [exact Hx|]. rewrite H4 in Hiff. tauto.
Defined.

(** The two zero identifiers are taken for a secret chat and for a channel. *)
Example zero_ids : get_type ZERO_CHANNEL_ID = SecretChat /\ get_type ZERO_SECRET_CHAT_ID = Channel /\
  get_secret_chat_id ZERO_CHANNEL_ID = Ok (-727379968) /\ get_channel_id ZERO_SECRET_CHAT_ID = Ok 1000000000000.
Proof. by vm_compute. Qed.
End DialogId.

Module ServerMessageId.
Definition is_valid (id : Z) : bool := 0 <? id.
End ServerMessageId.

Module ScheduledServerMessageId.
Definition is_valid (id : Z) : bool := (0 <? id) && (id <? Z.shiftl 1 18).
End ScheduledServerMessageId.

Module MessageId.
Inductive MessageType := NoMessage | Server | YetUnsent | Local.
#[global] Instance MessageType_eq_dec : EqDecision MessageType.
Proof. solve_decision. Defined.
Definition type_int (ty : MessageType) : Z := match ty with NoMessage => 0 | Server => 1 | YetUnsent => 2 | Local => 3 end.

Definition SERVER_ID_SHIFT : Z := 20.
Definition SHORT_TYPE_MASK : Z := Z.shiftl 1 2 - 1.
Definition TYPE_MASK : Z := Z.shiftl 1 3 - 1.
Definition FULL_TYPE_MASK : Z := Z.shiftl 1 SERVER_ID_SHIFT - 1.
Definition SCHEDULED_MASK : Z := 4.
Definition TYPE_YET_UNSENT : Z := 1.
Definition TYPE_LOCAL : Z := 2.
Definition INT32_MAX : Z := 2 ^ 31 - 1.

Definition of_server (server_message_id : Z) : Z := Z.shiftl server_message_id SERVER_ID_SHIFT.
Definition of_scheduled (server_message_id send_date : Z) (force : bool) : Z :=
  if send_date <=? Z.shiftl 1 30 then 0
  else if negb (ScheduledServerMessageId.is_valid server_message_id) && negb force then 0
  else Z.lor (Z.lor (Z.shiftl (send_date - Z.shiftl 1 30) 21) (Z.shiftl server_message_id 3)) SCHEDULED_MASK.

Definition min : Z := TYPE_YET_UNSENT.
Definition max : Z := Z.shiftl INT32_MAX SERVER_ID_SHIFT.

Definition is_scheduled (id : Z) : bool := negb (Z.land id SCHEDULED_MASK =? 0).

Definition is_valid (id : Z) : bool :=
  if (id <=? 0) || (max <? id) then false
  else if Z.land id FULL_TYPE_MASK =? 0 then true
  else let type := Z.land id TYPE_MASK in (type =? TYPE_YET_UNSENT) || (type =? TYPE_LOCAL).

Definition is_valid_scheduled (id : Z) : bool :=
  if (id <=? 0) || (Z.shiftl 1 51 <? id) then false
  else let type := Z.land id TYPE_MASK in
    (type =? SCHEDULED_MASK) || (type =? Z.lor SCHEDULED_MASK TYPE_YET_UNSENT) || (type =? Z.lor SCHEDULED_MASK TYPE_LOCAL).

Definition is_valid_sponsored (id : Z) : bool :=
  if (id <=? max) || (Z.shiftl 1 51 <? id) then false else Z.land id TYPE_MASK =? TYPE_LOCAL.

Definition get_type (id : Z) : MessageType :=
  if (id <=? 0) || (Z.shiftl 1 51 <? id) then NoMessage
  else if is_scheduled id then
    let type := Z.land id TYPE_MASK in
    if type =? Z.lor SCHEDULED_MASK TYPE_YET_UNSENT then YetUnsent
    else if type =? Z.lor SCHEDULED_MASK TYPE_LOCAL then Local
    else if type =? SCHEDULED_MASK then Server
    else NoMessage
  else if Z.land id FULL_TYPE_MASK =? 0 then Server
  else
    let type := Z.land id TYPE_MASK in
    if type =? TYPE_YET_UNSENT then YetUnsent else if type =? TYPE_LOCAL then Local else NoMessage.

Definition is_yet_unsent (id : Z) : Res bool :=
  CHECK! is_valid id || is_scheduled id else "is_valid() || is_scheduled()" in
  Ok (Z.land id SHORT_TYPE_MASK =? TYPE_YET_UNSENT).
Definition is_local (id : Z) : Res bool :=
  CHECK! is_valid id || is_scheduled id else "is_valid() || is_scheduled()" in
  Ok (Z.land id SHORT_TYPE_MASK =? TYPE_LOCAL).
Definition is_server (id : Z) : bool := (Z.land id FULL_TYPE_MASK =? 0) && (0 <? id) && (id <=? max).
Definition is_scheduled_server (id : Z) : Res bool :=
  CHECK! is_valid_scheduled id else "is_valid_scheduled()" in Ok (Z.land id SHORT_TYPE_MASK =? 0).
Definition is_any_server (id : Z) : Res bool := if is_scheduled id then is_scheduled_server id else Ok (is_server id).

Definition get_server_message_id_force (id : Z) : Res Z :=
  CHECK! negb (is_scheduled id) else "!is_scheduled()" in
  let x := Z.shiftr id SERVER_ID_SHIFT in
  CHECK! bool_decide (is_s32 x) else "narrow_cast" in Ok x.
Definition get_server_message_id (id : Z) : Res Z :=
  CHECK! (id =? 0) || is_server id else "id == 0 || is_server()" in get_server_message_id_force id.
Definition get_scheduled_server_message_id_force (id : Z) : Res Z :=
  CHECK! is_scheduled id else "is_scheduled()" in Ok (s32 (Z.land (Z.shiftr id 3) (Z.shiftl 1 18 - 1))).
Definition get_scheduled_server_message_id (id : Z) : Res Z :=
  let* b := is_scheduled_server id in
  CHECK! b else "is_scheduled_server()" in get_scheduled_server_message_id_force id.
Definition get_scheduled_message_date (id : Z) : Res Z :=
  CHECK! is_valid_scheduled id else "is_valid_scheduled()" in Ok (s32 (s32 (Z.shiftr id 21) + Z.shiftl 1 30)).

Definition get_prev_server_message_id (id : Z) : Res Z :=
  CHECK! negb (is_scheduled id) else "!is_scheduled()" in Ok (Z.land id (Z.lnot FULL_TYPE_MASK)).
Definition get_next_server_message_id (id : Z) : Res Z :=
  CHECK! negb (is_scheduled id) else "!is_scheduled()" in Ok (Z.land (id + FULL_TYPE_MASK) (Z.lnot FULL_TYPE_MASK)).

Definition get_next_message_id (id : Z) (type : MessageType) : Res Z :=
  if is_scheduled id then
    CHECK! is_valid_scheduled id else "is_valid_scheduled()" in
    let current_type := get_type id in
    if type_int current_type <? type_int type then Ok (id - type_int current_type + type_int type)
    else
      let base_id := Z.land id (Z.lnot TYPE_MASK) + TYPE_MASK + 1 + SCHEDULED_MASK in
      match type with
      | Server => Ok base_id
      | YetUnsent => Ok (base_id + TYPE_YET_UNSENT)
      | Local => Ok (base_id + TYPE_LOCAL)
      | NoMessage => Panic "unreachable"
      end
  else
    match type with
    | Server =>
        if is_server id then let* s := get_server_message_id id in Ok (of_server (s + 1))
        else get_next_server_message_id id
    | YetUnsent => Ok (Z.land (id + TYPE_MASK + 1 - TYPE_YET_UNSENT) (Z.lnot TYPE_MASK) + TYPE_YET_UNSENT)
    | Local => Ok (Z.land (id + TYPE_MASK + 1 - TYPE_LOCAL) (Z.lnot TYPE_MASK) + TYPE_LOCAL)
    | NoMessage => Panic "unreachable"
    end.

(** The comparisons fail on a scheduled and an ordinary identifier. *)
Definition same_kind (lhs rhs : Z) : bool := Bool.eqb (is_scheduled lhs) (is_scheduled rhs).
Definition lt (lhs rhs : Z) : Res bool := CHECK! same_kind lhs rhs else "lhs.is_scheduled() == rhs.is_scheduled()" in Ok (lhs <? rhs).
Definition gt (lhs rhs : Z) : Res bool := CHECK! same_kind lhs rhs else "lhs.is_scheduled() == rhs.is_scheduled()" in Ok (rhs <? lhs).
Definition le (lhs rhs : Z) : Res bool := CHECK! same_kind lhs rhs else "lhs.is_scheduled() == rhs.is_scheduled()" in Ok (lhs <=? rhs).
Definition ge (lhs rhs : Z) : Res bool := CHECK! same_kind lhs rhs else "lhs.is_scheduled() == rhs.is_scheduled()" in Ok (rhs <=? lhs).

Definition get_message_id (message_ptr : option Message) (scheduled : bool) : Res Z :=
  match message_ptr with
  | None => Panic "message_ptr != nullptr"
  | Some (messageEmpty id _) => Ok (if scheduled then 0 else of_server id)
  | Some (message id date _) => Ok (if scheduled then of_scheduled id date false else of_server id)
  | Some (messageService id date _) => Ok (if scheduled then of_scheduled id date false else of_server id)
  end.

Fixpoint max_loop (messages : list (option Message)) (max_message_id : Z) : Res Z :=
  match messages with
  | [] => Ok max_message_id
  | m :: messages =>
      let* message_id := get_message_id m false in
      let* b := gt message_id max_message_id in
      max_loop messages (if b then message_id else max_message_id)
  end.
Definition get_max_message_id (messages : list (option Message)) : Res Z := max_loop messages 0.

Fixpoint ascending_loop (messages : list (option Message)) (cur_message_id : Z) : Res bool :=
  match messages with
  | [] => Ok true
  | m :: messages =>
      let* message_id := get_message_id m false in
      let* b := le message_id cur_message_id in
      if b || negb (is_valid message_id) then Ok false else ascending_loop messages message_id
  end.
Definition is_message_id_order_ascending (messages : list (option Message)) : Res bool := ascending_loop messages 0.

Fixpoint descending_loop (messages : list (option Message)) (cur_message_id : Z) : Res bool :=
  match messages with
  | [] => Ok true
  | m :: messages =>
      let* message_id := get_message_id m false in
      let* b := ge message_id cur_message_id in
      if b || negb (is_valid message_id) then Ok false else descending_loop messages message_id
  end.
Definition is_message_id_order_descending (messages : list (option Message)) : Res bool := descending_loop messages max.

Definition get_message_ids (input_message_ids : list Z) : list Z := map (fun input_message_id => input_message_id) input_message_ids.
Fixpoint transform (f : Z -> Res Z) (l : list Z) : Res (list Z) :=
  match l with
  | [] => Ok []
  | x :: l => let* y := f x in let* l := transform f l in Ok (y :: l)
  end.
Definition get_server_message_ids (message_ids : list Z) : Res (list Z) := transform get_server_message_id message_ids.
Definition get_scheduled_server_message_ids (message_ids : list Z) : Res (list Z) := transform get_scheduled_server_message_id message_ids.

(** ** Proofs *)
Lemma land_lnot_mask a n : 0 <= n -> Z.land a (Z.lnot (2 ^ n - 1)) = a - a mod 2 ^ n.
Proof.
  intros Hn. rewrite <- Z.ldiff_land. replace (2 ^ n - 1) with (Z.ones n) by (rewrite Z.ones_equiv; lia).
  rewrite Z.ldiff_ones_r, Z.shiftl_mul_pow2, Z.shiftr_div_pow2 by lia. rewrite Z.mod_eq by (apply Z.pow_nonzero; lia). lia.
Qed.

Lemma land_type id : Z.land id TYPE_MASK = id mod 8.
Proof. exact (land_ones_mod id 3 ltac:(lia)). Qed.
Lemma land_full id : Z.land id FULL_TYPE_MASK = id mod 1048576.
Proof. exact (land_ones_mod id 20 ltac:(lia)). Qed.
Lemma land_short id : Z.land id SHORT_TYPE_MASK = id mod 4.
Proof. exact (land_ones_mod id 2 ltac:(lia)). Qed.
Lemma lnot_type a : Z.land a (Z.lnot TYPE_MASK) = a - a mod 8.
Proof. exact (land_lnot_mask a 3 ltac:(lia)). Qed.
Lemma lnot_full a : Z.land a (Z.lnot FULL_TYPE_MASK) = a - a mod 1048576.
Proof. exact (land_lnot_mask a 20 ltac:(lia)). Qed.

Lemma is_scheduled_mod id : is_scheduled id = (4 <=? id mod 8).
Proof.
  unfold is_scheduled. replace (Z.land id SCHEDULED_MASK) with (Z.land (id mod 8) 4).
  - pose proof (Z.mod_pos_bound id 8 ltac:(lia)) as Hb. assert (exists k, (k < 8)%nat /\ id mod 8 = Z.of_nat k) as (k&Hk&->) by (exists (Z.to_nat (id mod 8)); lia).
    do 8 (destruct k as [|k]; [done|]). lia.
  - rewrite <- land_type, <- Z.land_assoc. done.
Qed.

(** The type as a function of the remainders. *)
Lemma get_type_mod id : 0 < id <= 2 ^ 51 -> get_type id =
  if 4 <=? id mod 8 then (if id mod 8 =? 5 then YetUnsent else if id mod 8 =? 6 then Local else if id mod 8 =? 4 then Server else NoMessage)
  else if id mod 1048576 =? 0 then Server else if id mod 8 =? 1 then YetUnsent else if id mod 8 =? 2 then Local else NoMessage.
Proof.
  intros Hid. unfold get_type. rewrite (proj2 (Z.leb_gt id 0)), (proj2 (Z.ltb_ge _ id)) by (change (Z.shiftl 1 51) with (2 ^ 51); lia).
  by rewrite is_scheduled_mod, land_type, land_full.
Qed.

Lemma is_valid_mod id : is_valid id = true <-> 0 < id <= max /\ (id mod 1048576 = 0 \/ id mod 8 = 1 \/ id mod 8 = 2).
Proof.
  unfold is_valid. rewrite land_type, land_full. unfold TYPE_YET_UNSENT, TYPE_LOCAL.
  destruct (_ || _) eqn:E; [split; [done|]; apply orb_true_iff in E as [E|E]; zbool; lia|]. zbool. case_if; [split; [lia|done]|].
  rewrite orb_true_iff, !Z.eqb_eq. lia.
Qed.

Lemma is_valid_scheduled_mod id : is_valid_scheduled id = true <-> 0 < id <= 2 ^ 51 /\ 4 <= id mod 8 <= 6.
Proof.
  unfold is_valid_scheduled. rewrite land_type. change (Z.shiftl 1 51) with (2 ^ 51). change (Z.lor SCHEDULED_MASK TYPE_YET_UNSENT) with 5.
  change (Z.lor SCHEDULED_MASK TYPE_LOCAL) with 6. unfold SCHEDULED_MASK.
  destruct (_ || _) eqn:E; [split; [done|]; apply orb_true_iff in E as [E|E]; zbool; lia|]. zbool.
  rewrite !orb_true_iff, !Z.eqb_eq. lia.
Qed.

Lemma is_server_mod id : is_server id = true <-> id mod 1048576 = 0 /\ 0 < id <= max.
Proof. unfold is_server. rewrite land_full. split; [intros; zbool; lia|]. intros (->&?&?). simpl. lia. Qed.

Lemma max_val : max = 2251799812636672.
Proof. done. Qed.

Ltac type_cases := repeat match goal with |- context [if ?b then _ else _] => destruct b eqn:?; zbool end.

(** The next identifier of a type among the ordinary or the scheduled ones. *)
Definition is_next (id : Z) (type : MessageType) (n : Z) : Prop :=
  id < n /\ is_scheduled n = is_scheduled id /\ get_type n = type /\
  forall j, id < j < n -> is_scheduled j = is_scheduled id -> get_type j <> type.

Lemma is_next_intro id type n : 0 <= id < n -> n <= 2 ^ 51 -> is_scheduled n = is_scheduled id -> get_type n = type ->
  (forall j, id < j < n -> (4 <=? j mod 8) = (4 <=? id mod 8) -> get_type j <> type) -> is_next id type n.
Proof. intros H1 H2 H3 H4 H5. split_and!; [lia|done|done|]. intros j Hj Hs. rewrite !is_scheduled_mod in Hs. by apply H5. Qed.

Lemma next_ordinary id type : 0 < id < max -> is_scheduled id = false -> type <> NoMessage ->
  exists n, get_next_message_id id type = Ok n /\ is_next id type n.
Proof.
  rewrite max_val. intros Hid Hs Ht. unfold get_next_message_id. rewrite Hs. rewrite is_scheduled_mod in Hs. zbool. unfold TYPE_YET_UNSENT, TYPE_LOCAL.
  destruct type; [done|..].
  - destruct (is_server id) eqn:Es.
    + apply is_server_mod in Es as Em. destruct Em as [Em _]. unfold get_server_message_id, get_server_message_id_force.
      rewrite Es, orb_true_r, is_scheduled_mod, (proj2 (Z.leb_gt 4 _)) by lia. cbn [negb res_bind]. unfold SERVER_ID_SHIFT.
      rewrite Z.shiftr_div_pow2 by lia. change (2 ^ 20) with 1048576. rewrite bool_decide_true by (unfold is_s32; zlia). cbn [res_bind].
      eexists. split; [done|]. unfold of_server, SERVER_ID_SHIFT. rewrite Z.shiftl_mul_pow2 by lia. change (2 ^ 20) with 1048576.
      apply is_next_intro; [zlia|zlia| | |].
      * rewrite !is_scheduled_mod, !(proj2 (Z.leb_gt 4 _)) by zlia. done.
      * rewrite get_type_mod, (proj2 (Z.leb_gt 4 _)), (proj2 (Z.eqb_eq _ 0)) by zlia. done.
      * intros j Hj Hj'. rewrite (proj2 (Z.leb_gt 4 (id mod 8))) in Hj' by lia. rewrite get_type_mod, Hj', (proj2 (Z.eqb_neq _ 0)) by zlia. by type_cases.
    + unfold get_next_server_message_id. rewrite is_scheduled_mod, (proj2 (Z.leb_gt 4 _)) by lia. cbn [negb].
      eexists. split; [done|]. rewrite lnot_full. change FULL_TYPE_MASK with 1048575.
      assert (id mod 1048576 <> 0) as Hm.
      { intros Hm. rewrite (proj2 (is_server_mod id)) in Es; [done|]. rewrite max_val. lia. }
      apply is_next_intro; [zlia|zlia| | |].
      * rewrite !is_scheduled_mod, !(proj2 (Z.leb_gt 4 _)) by zlia. done.
      * rewrite get_type_mod, (proj2 (Z.leb_gt 4 _)), (proj2 (Z.eqb_eq _ 0)) by zlia. done.
      * intros j Hj Hj'. rewrite (proj2 (Z.leb_gt 4 (id mod 8))) in Hj' by lia. rewrite get_type_mod, Hj', (proj2 (Z.eqb_neq _ 0)) by zlia. by type_cases.
  - eexists. split; [done|]. rewrite lnot_type. change (id + TYPE_MASK + 1 - 1) with (id + 7 + 1 - 1). apply is_next_intro; [zlia|zlia| | |].
    * rewrite !is_scheduled_mod, !(proj2 (Z.leb_gt 4 _)) by zlia. done.
    * rewrite get_type_mod, (proj2 (Z.leb_gt 4 _)), (proj2 (Z.eqb_neq _ 0)), (proj2 (Z.eqb_eq _ 1)) by zlia. done.
    * intros j Hj Hj'. rewrite (proj2 (Z.leb_gt 4 (id mod 8))) in Hj' by lia. rewrite get_type_mod, Hj' by zlia.
      rewrite (proj2 (Z.eqb_neq (j mod 8) 1)) by (zbool; zlia). by type_cases.
  - eexists. split; [done|]. rewrite lnot_type. change (id + TYPE_MASK + 1 - 2) with (id + 7 + 1 - 2). apply is_next_intro; [zlia|zlia| | |].
    * rewrite !is_scheduled_mod, !(proj2 (Z.leb_gt 4 _)) by zlia. done.
    * rewrite get_type_mod, (proj2 (Z.leb_gt 4 _)), (proj2 (Z.eqb_neq _ 0)), (proj2 (Z.eqb_neq _ 1)), (proj2 (Z.eqb_eq _ 2)) by zlia. done.
    * intros j Hj Hj'. rewrite (proj2 (Z.leb_gt 4 (id mod 8))) in Hj' by lia. rewrite get_type_mod, Hj' by zlia.
      rewrite (proj2 (Z.eqb_neq (j mod 8) 2)) by (zbool; zlia). by type_cases.
Qed.

Lemma next_scheduled id type : is_valid_scheduled id = true -> id + 16 <= 2 ^ 51 -> type <> NoMessage ->
  exists n, get_next_message_id id type = Ok n /\ is_next id type n.
Proof.
  intros Hv Hb Ht. pose proof (proj1 (is_valid_scheduled_mod id) Hv) as [Hid Hm]. unfold get_next_message_id.
  rewrite is_scheduled_mod, (proj2 (Z.leb_le 4 _)), Hv by lia. rewrite lnot_type, get_type_mod, (proj2 (Z.leb_le 4 _)) by lia.
  change TYPE_MASK with 7. unfold SCHEDULED_MASK, TYPE_YET_UNSENT, TYPE_LOCAL.
  set (ty := if id mod 8 =? 5 then _ else _). assert (type_int ty = id mod 8 - 3) as Hty.
  { unfold ty. type_cases; simpl; lia. }
  assert (exists n, (if type_int ty <? type_int type then Ok (id - type_int ty + type_int type)
    else match type with
      | Server => Ok (id - id mod 8 + 7 + 1 + 4) | YetUnsent => Ok (id - id mod 8 + 7 + 1 + 4 + 1)
      | Local => Ok (id - id mod 8 + 7 + 1 + 4 + 2) | NoMessage => Panic "unreachable" end) = Ok n /\
    id < n <= 2 ^ 51 /\ n mod 8 = type_int type + 3 /\ n - id <= 8) as (n&En&Hn1&Hn2&Hn3).
  { rewrite Hty. destruct type; [done|..]; simpl type_int; case_if; eexists; (split; [reflexivity|]); zlia. }
  exists n. split; [exact En|]. apply is_next_intro; [lia|lia| | |].
  - rewrite !is_scheduled_mod. destruct type; [done|..]; simpl in Hn2; rewrite !(proj2 (Z.leb_le 4 _)) by lia; done.
  - rewrite get_type_mod by lia. rewrite Hn2. by destruct type.
  - intros j Hj Hj'. rewrite (proj2 (Z.leb_le 4 (id mod 8))) in Hj' by lia. rewrite get_type_mod, Hj' by lia.
    assert (j mod 8 <> type_int type + 3) as Hne by (destruct type; [done|..]; simpl in *; zlia). destruct type; [done|..]; simpl in Hne; by type_cases.
Qed.

(** [get_next_message_id] gives the least identifier of the asked type that is greater
    than the given one: for every valid ordinary identifier below the greatest one and every
    valid scheduled identifier the result is greater, stays ordinary or scheduled, has the
    type, and no identifier of that type lies in between. *)
Theorem message_id_next id type : type <> NoMessage ->
  (is_valid id = true /\ id < max) \/ (is_valid_scheduled id = true /\ id + 16 <= 2 ^ 51) ->
  exists n, get_next_message_id id type = Ok n /\ is_next id type n.
Proof.
  intros Ht [[Hv Hlt]|[Hv Hb]]; [|by apply next_scheduled]. apply is_valid_mod in Hv as [Hr Hm].
  apply next_ordinary; [lia| |done]. rewrite is_scheduled_mod. apply Z.leb_gt. zlia.
Qed.

Lemma message_id_next_witness : exists n, get_next_message_id 1048577 Server = Ok n /\ is_next 1048577 Server n.
Proof. apply message_id_next; [done|]. left. vm_compute. done. Defined.

(** The layout of the scheduled identifiers. *)
Lemma of_scheduled_sum s date : ScheduledServerMessageId.is_valid s = true -> 2 ^ 30 < date < 2 ^ 31 ->
  of_scheduled s date false = (date - 2 ^ 30) * 2097152 + s * 8 + 4.
Proof.
  intros Hs Hd. unfold of_scheduled. change (Z.shiftl 1 30) with (2 ^ 30). rewrite (proj2 (Z.leb_gt date _)), Hs by lia. cbn [negb andb].
  unfold ScheduledServerMessageId.is_valid in Hs. change (Z.shiftl 1 18) with 262144 in Hs. zbool.
  rewrite !Z.shiftl_mul_pow2 by lia. rewrite lor_disjoint_add by lia.
  replace ((date - 2 ^ 30) * 2 ^ 21 + s * 2 ^ 3) with (((date - 2 ^ 30) * 2 ^ 18 + s) * 2 ^ 3) by lia.
  unfold SCHEDULED_MASK. rewrite lor_disjoint_add by lia. lia.
Qed.

(** Message identifiers give back what they were made of: a positive server identifier,
    and a scheduled server identifier together with its send date; both layouts keep the
    order, by server identifier and by date first, then by scheduled identifier. *)
Theorem message_id_layout :
  (forall s, 0 < s <= INT32_MAX -> is_valid (of_server s) = true /\ get_type (of_server s) = Server /\ get_server_message_id (of_server s) = Ok s) /\
  (forall s date, ScheduledServerMessageId.is_valid s = true -> 2 ^ 30 < date < 2 ^ 31 -> let id := of_scheduled s date false in
     is_valid_scheduled id = true /\ get_type id = Server /\ get_scheduled_server_message_id id = Ok s /\ get_scheduled_message_date id = Ok date) /\
  (forall s1 s2, 0 < s1 <= INT32_MAX -> 0 < s2 <= INT32_MAX -> lt (of_server s1) (of_server s2) = Ok (s1 <? s2)) /\
  (forall s1 d1 s2 d2, ScheduledServerMessageId.is_valid s1 = true -> ScheduledServerMessageId.is_valid s2 = true ->
     2 ^ 30 < d1 < 2 ^ 31 -> 2 ^ 30 < d2 < 2 ^ 31 ->
     lt (of_scheduled s1 d1 false) (of_scheduled s2 d2 false) = Ok ((d1 <? d2) || (d1 =? d2) && (s1 <? s2))).
Proof.
  assert (forall s, of_server s = s * 1048576) as Hof by (intros s; unfold of_server, SERVER_ID_SHIFT; by rewrite Z.shiftl_mul_pow2).
  assert (forall s, ScheduledServerMessageId.is_valid s = true -> 0 < s < 262144) as Hval
    by (intros s Hs; unfold ScheduledServerMessageId.is_valid in Hs; change (Z.shiftl 1 18) with 262144 in Hs; zbool; lia).
  unfold INT32_MAX. split_and!.
  - intros s Hs. rewrite Hof.
    assert (is_server (s * 1048576) = true) as Hser by (apply is_server_mod; rewrite max_val; split; [by rewrite Z.mod_mul|lia]). split_and!.
    + apply is_valid_mod. rewrite max_val. split; [lia|]. left. by rewrite Z.mod_mul.
    + rewrite get_type_mod, (proj2 (Z.leb_gt 4 _)), Z.mod_mul by zlia. done.
    + unfold get_server_message_id, get_server_message_id_force. rewrite Hser, orb_true_r, is_scheduled_mod, (proj2 (Z.leb_gt 4 _)) by zlia.
      cbn [negb]. unfold SERVER_ID_SHIFT. rewrite Z.shiftr_div_pow2 by lia. change (2 ^ 20) with 1048576. rewrite Z.div_mul by lia.
      by rewrite bool_decide_true by (unfold is_s32; lia).
  - intros s date Hs Hd. cbv zeta. rewrite of_scheduled_sum by done. apply Hval in Hs.
    set (x := (date - 2 ^ 30) * 2097152 + s * 8 + 4). assert (x mod 8 = 4) as Hx by (unfold x; zlia).
    assert (is_valid_scheduled x = true) as Hv by (apply is_valid_scheduled_mod; rewrite Hx; unfold x; lia).
    split_and!; [done| | |].
    + rewrite get_type_mod by (unfold x; lia). by rewrite Hx.
    + unfold get_scheduled_server_message_id, is_scheduled_server, get_scheduled_server_message_id_force.
      rewrite Hv, land_short, is_scheduled_mod, Hx. replace (x mod 4) with 0 by (unfold x; zlia). cbn [res_bind Z.eqb Z.leb].
      change (4 <=? 4) with true. cbv iota. rewrite Z.shiftr_div_pow2 by lia. change (Z.shiftl 1 18 - 1) with (2 ^ 18 - 1).
      rewrite land_ones_mod by lia. change (2 ^ 3) with 8. change (2 ^ 18) with 262144. replace (x / 8) with (s + (date - 2 ^ 30) * 262144) by (apply (Z.div_unique _ _ _ 4); unfold x; lia).
      rewrite Z.mod_add, Z.mod_small by lia.
      by rewrite s32_small by (unfold is_s32; lia).
    + unfold get_scheduled_message_date. rewrite Hv, Z.shiftr_div_pow2 by lia. change (2 ^ 21) with 2097152. change (Z.shiftl 1 30) with (2 ^ 30).
      replace (x / 2097152) with (date - 2 ^ 30) by (apply (Z.div_unique _ _ _ (s * 8 + 4)); unfold x; lia).
      rewrite (s32_small (date - 2 ^ 30)), s32_small by (unfold is_s32; lia). f_equal. lia.
  - intros s1 s2 H1 H2. unfold lt, same_kind. rewrite !Hof, !is_scheduled_mod, !(proj2 (Z.leb_gt 4 _)) by zlia. simpl. f_equal. lia.
  - intros s1 d1 s2 d2 Hs1 Hs2 Hd1 Hd2. unfold lt, same_kind. rewrite !of_scheduled_sum by done. apply Hval in Hs1, Hs2.
    rewrite !is_scheduled_mod, !(proj2 (Z.leb_le 4 _)) by zlia. simpl. f_equal. lia.
Qed.
End MessageId.
