(* ===== verification/OrderedMessages.v ===== *)
(** * Ordered messages

    The known messages of a chat, td/telegram/OrderedMessage.h and OrderedMessage.cpp: a
    treap of message identifiers, each with two flags that tell whether the previous and
    the next message of the chat are known to be its neighbours in the tree.

    A pointer to a node is the identifier of its message, which no other node has, and is
    followed in the current tree, so that a change of a flag is seen through all pointers;
    an iterator is the stack of pointers the code keeps, with the top first.  [operator++]
    and [operator--], and the pairs of methods that mirror each other, are one definition
    with a direction. *)
From S2P Require Import Prelude HashUtils Ids.
Local Open Scope td_scope.

(** ** Hashes *)
Definition MessageIdHash (message_id : Z) : Z := Hash_int64 message_id.

(** ** Nodes *)
Inductive tree :=
  | Leaf
  | Node (random_y_ : Z) (have_previous_ have_next_ : bool) (message_id_ : Z) (left_ right_ : tree).

Inductive dir := Fwd | Bwd.
Definition opp (d : dir) : dir := match d with Fwd => Bwd | Bwd => Fwd end.

Definition child (d : dir) (t : tree) : tree :=
  match t with
  | Leaf => Leaf
  | Node _ _ _ _ l r => match d with Fwd => r | Bwd => l end
  end.
(** [have_next_] forwards and [have_previous_] backwards. *)
Definition flag (d : dir) (t : tree) : bool :=
  match t with
  | Leaf => false
  | Node _ p n _ _ _ => match d with Fwd => n | Bwd => p end
  end.
Definition root (t : tree) : option Z := match t with Leaf => None | Node _ _ _ m _ _ => Some m end.

(** Following a pointer. *)
Fixpoint find (id : Z) (t : tree) : option tree :=
  match t with
  | Leaf => None
  | Node _ _ _ m l r => if m =? id then Some t else match find id l with Some s => Some s | None => find id r end
  end.
Definition load (id : Z) (t : tree) : Res tree := match find id t with Some n => Ok n | None => Panic "dangling pointer" end.

(** Writing a flag through a pointer. *)
Fixpoint set_flag (d : dir) (b : bool) (id : Z) (t : tree) : tree :=
  match t with
  | Leaf => Leaf
  | Node y p n m l r =>
      if m =? id then match d with Fwd => Node y p b m l r | Bwd => Node y b n m l r end
      else Node y p n m (set_flag d b id l) (set_flag d b id r)
  end.

Fixpoint count (t : tree) : nat := match t with Leaf => O | Node _ _ _ _ l r => S (count l + count r) end.

(** ** Iterators *)
Fixpoint it_walk (t : tree) (message_id : Z) (stack best : list Z) : Res (list Z) :=
  match t with
  | Leaf => Ok best
  | Node _ _ _ m l r =>
      let stack := m :: stack in
      let* b := MessageId.le m message_id in
      if b then it_walk r message_id stack stack else it_walk l message_id stack best
  end.
Definition get_iterator (t : tree) (message_id : Z) : Res (list Z) :=
  CHECK! negb (MessageId.is_scheduled message_id) else "!message_id.is_scheduled()" in it_walk t message_id [] [].

(** The loop that pushes a node and its descendants on one side. *)
Fixpoint spine (d : dir) (t : tree) (stack : list Z) : list Z :=
  match t with
  | Leaf => stack
  | Node _ _ _ m l r => spine d (match d with Fwd => r | Bwd => l end) (m :: stack)
  end.

(** The loop that pops until the node was reached from the other side. *)
Fixpoint climb (t : tree) (d : dir) (cur : Z) (stack : list Z) : Res (list Z) :=
  match stack with
  | [] => Ok []
  | new_cur :: stack' =>
      let* n := load new_cur t in
      if bool_decide (root (child (opp d) n) = Some cur) then Ok stack else climb t d new_cur stack'
  end.

(** [++it] forwards and [--it] backwards. *)
Definition move (d : dir) (t : tree) (it : list Z) : Res (list Z) :=
  match it with
  | [] => Ok []
  | cur :: rest =>
      let* n := load cur t in
      if negb (flag d n) then Ok []
      else
        match child d n with
        | Leaf => climb t d cur rest
        | c => Ok (spine (opp d) c it)
        end
  end.

(** [*it] *)
Definition deref (it : list Z) : option Z := head it.

(** ** Insertion *)

(** The way to the node [v] points to at the end of the first loop of [insert]. *)
Fixpoint insert_place (message_id random_y : Z) (t : tree) : Res (list dir) :=
  match t with
  | Leaf => Ok []
  | Node y _ _ m l r =>
      if random_y <=? y then
        if m <? message_id then let* v := insert_place message_id random_y r in Ok (Fwd :: v)
        else if m =? message_id then Panic "unreachable"
        else let* v := insert_place message_id random_y l in Ok (Bwd :: v)
      else Ok []
  end.
Fixpoint at_place (f : tree -> tree) (v : list dir) (t : tree) : tree :=
  match v, t with
  | [], _ => f t
  | Fwd :: v, Node y p n m l r => Node y p n m l (at_place f v r)
  | Bwd :: v, Node y p n m l r => Node y p n m (at_place f v l) r
  | _, Leaf => Leaf
  end.

(** The loop that moves the nodes of the subtree to the left and to the right of the new one. *)
Fixpoint split (message_id : Z) (cur : tree) : tree * tree :=
  match cur with
  | Leaf => (Leaf, Leaf)
  | Node y p n m l r =>
      if m <? message_id then let '(a, b) := split message_id r in (Node y p n m l a, b)
      else let '(a, b) := split message_id l in (a, Node y p n m b r)
  end.

(** The loop that looks for the first message after [message_id]. *)
Fixpoint next_message (t : tree) (message_id : Z) (best : option Z) : Res (option Z) :=
  match t with
  | Leaf => Ok best
  | Node _ _ _ m l r =>
      let* b := MessageId.lt m message_id in
      if b then next_message r message_id best else next_message l message_id (Some m)
  end.

Definition attach_to_next (message_id : Z) (t : tree) : Res (bool * bool * tree) :=
  let* b := MessageId.is_yet_unsent message_id in
  if negb b then
    let* next := next_message t message_id None in
    match next with
    | Some next =>
        let* n := load next t in
        CHECK! negb (flag Bwd n) else "!next_message->have_previous_" in
        Ok (false, true, set_flag Bwd true next t)
    | None => Ok (false, false, t)
    end
  else Ok (false, false, t).

(** The flags [have_previous_] and [have_next_] of the new message, and the tree. *)
Definition auto_attach_message (message_id last_message_id : Z) (t : tree) : Res (bool * bool * tree) :=
  let* it := get_iterator t message_id in
  match deref it with
  | Some previous =>
      let* p := load previous t in
      let* b := MessageId.lt previous message_id in
      CHECK! b else "previous_message_id < message_id" in
      let* after_last :=
        if flag Fwd p then Ok true
        else if MessageId.is_valid last_message_id then MessageId.ge previous last_message_id else Ok false in
      if after_last then
        let* _ :=
          if MessageId.is_server message_id && MessageId.is_server previous && flag Fwd p then
            let* it := move Fwd t it in
            match deref it with Some _ => Ok tt | None => Panic "next_message != nullptr" end
          else Ok tt in
        Ok (true, flag Fwd p, set_flag Fwd true previous t)
      else attach_to_next message_id t
  | None => attach_to_next message_id t
  end.

(** Without [auto_attach] a connection around the new message is dropped. *)
Definition drop_connection (message_id : Z) (t : tree) : Res tree :=
  let* it := get_iterator t message_id in
  match deref it with
  | None => Ok t
  | Some previous =>
      let* p := load previous t in
      if flag Fwd p then
        let* b := MessageId.lt previous message_id in
        CHECK! b else "previous_message->message_id_ < message_id" in
        let* it := move Fwd t it in
        match deref it with
        | None => Panic "next_message != nullptr"
        | Some next =>
            let* b := MessageId.gt next message_id in
            CHECK! b else "next_message->message_id_ > message_id" in
            Ok (set_flag Fwd false previous (set_flag Bwd false next t))
        end
      else Ok t
  end.

Definition insert (message_id : Z) (auto_attach : bool) (old_last_message_id : Z) (t : tree) : Res tree :=
  let random_y := s32 (MessageIdHash message_id) in
  let* v := insert_place message_id random_y t in
  let* (have_previous, have_next, t) :=
    if auto_attach then auto_attach_message message_id old_last_message_id t
    else let* t := drop_connection message_id t in Ok (false, false, t) in
  Ok (at_place (fun cur => let '(l, r) := split message_id cur in Node random_y have_previous have_next message_id l r) v t).

(** ** Removal *)
Fixpoint erase_place (message_id : Z) (t : tree) : Res (list dir) :=
  match t with
  | Leaf => Panic "*v != nullptr"
  | Node _ _ _ m l r =>
      if m <? message_id then let* v := erase_place message_id r in Ok (Fwd :: v)
      else if message_id <? m then let* v := erase_place message_id l in Ok (Bwd :: v)
      else Ok []
  end.

(** The loop that joins the subtrees of the removed node. *)
Fixpoint merge (left : tree) : tree -> tree :=
  fix merge_left (right : tree) : tree :=
    match left, right with
    | Leaf, _ => right
    | _, Leaf => left
    | Node ly lp ln lm ll lr, Node ry rp rn rm rl rr =>
        if ly <? ry then Node ry rp rn rm (merge_left rl) rr
        else Node ly lp ln lm ll (merge lr right)
    end.

(** One neighbour of the removed message forgets it. *)
Definition detach (d : dir) (message_id : Z) (t : tree) : Res tree :=
  let* it := get_iterator t message_id in
  CHECK! bool_decide (deref it = Some message_id) else "*it == v->get()" in
  let* it := move d t it in
  match deref it with
  | None => Panic "m != nullptr"
  | Some neighbour => Ok (set_flag (opp d) false neighbour t)
  end.

Definition erase (message_id : Z) (only_from_memory : bool) (t : tree) : Res tree :=
  let* v := erase_place message_id t in
  let* m := load message_id t in
  let* t :=
    if flag Bwd m && (only_from_memory || negb (flag Fwd m)) then detach Bwd message_id t else Ok t in
  let* t :=
    if flag Fwd m && (only_from_memory || negb (flag Bwd m)) then detach Fwd message_id t else Ok t in
  Ok (at_place (fun cur => merge (child Bwd cur) (child Fwd cur)) v t).

(** ** Connections *)
Definition attach (d : dir) (message_id : Z) (t : tree) : Res tree :=
  CHECK! MessageId.is_valid message_id else "message_id.is_valid()" in
  let* it := get_iterator t message_id in
  match deref it with
  | None => Panic "ordered_message != nullptr"
  | Some cur =>
      CHECK! cur =? message_id else "ordered_message->message_id_ == message_id" in
      let* n := load cur t in
      if flag d n then Ok t
      else
        let t := set_flag d true cur t in
        let* it := move d t it in
        match deref it with
        | None => Panic "*it != nullptr"
        | Some neighbour =>
            let* n := load neighbour t in
            Ok (if flag (opp d) n then set_flag (opp d) true cur t else set_flag (opp d) true neighbour t)
        end
  end.
Definition attach_message_to_previous (message_id : Z) (t : tree) : Res tree := attach Bwd message_id t.
Definition attach_message_to_next (message_id : Z) (t : tree) : Res tree := attach Fwd message_id t.

(** ** Queries *)
Fixpoint do_find_older_messages (t : tree) (max_message_id : Z) (message_ids : list Z) : Res (list Z) :=
  match t with
  | Leaf => Ok message_ids
  | Node _ _ _ m l r =>
      let* message_ids := do_find_older_messages l max_message_id message_ids in
      let* b := MessageId.le m max_message_id in
      if b then do_find_older_messages r max_message_id (message_ids ++ [m]) else Ok message_ids
  end.
Definition find_older_messages (t : tree) (max_message_id : Z) : Res (list Z) := do_find_older_messages t max_message_id [].

Fixpoint do_find_newer_messages (t : tree) (min_message_id : Z) (message_ids : list Z) : Res (list Z) :=
  match t with
  | Leaf => Ok message_ids
  | Node _ _ _ m l r =>
      let* b := MessageId.gt m min_message_id in
      let* message_ids :=
        if b then let* message_ids := do_find_newer_messages l min_message_id message_ids in Ok (message_ids ++ [m])
        else Ok message_ids in
      do_find_newer_messages r min_message_id message_ids
  end.
Definition find_newer_messages (t : tree) (min_message_id : Z) : Res (list Z) := do_find_newer_messages t min_message_id [].

Section by_date.
Context (get_message_date : Z -> Z).

Fixpoint do_find_message_by_date (t : tree) (date : Z) : Z :=
  match t with
  | Leaf => 0
  | Node _ _ _ m l r =>
      if date <? get_message_date m then do_find_message_by_date l date
      else
        let message_id := do_find_message_by_date r date in
        if MessageId.is_valid message_id then message_id else m
  end.
Definition find_message_by_date (t : tree) (date : Z) : Z := do_find_message_by_date t date.

Fixpoint do_find_messages_by_date (t : tree) (min_date max_date : Z) (message_ids : list Z) : list Z :=
  match t with
  | Leaf => message_ids
  | Node _ _ _ m l r =>
      let message_date := get_message_date m in
      let message_ids :=
        if min_date <=? message_date then
          let message_ids := do_find_messages_by_date l min_date max_date message_ids in
          if message_date <=? max_date then message_ids ++ [m] else message_ids
        else message_ids in
      if message_date <=? max_date then do_find_messages_by_date r min_date max_date message_ids else message_ids
  end.
Definition find_messages_by_date (t : tree) (min_date max_date : Z) : list Z := do_find_messages_by_date t min_date max_date [].
End by_date.

(** The callbacks have a state. *)
Section traverse.
Context {S : Type} (need_scan_older need_scan_newer : Z -> S -> bool * S).
Fixpoint do_traverse_messages (t : tree) (s : S) : S :=
  match t with
  | Leaf => s
  | Node _ _ _ m l r =>
      let '(older, s) := need_scan_older m s in
      let s := if older then do_traverse_messages l s else s in
      let '(newer, s) := need_scan_newer m s in
      if newer then do_traverse_messages r s else s
  end.
Definition traverse_messages (t : tree) (s : S) : S := do_traverse_messages t s.
End traverse.

Definition has_message (t : tree) (message_id : Z) : Res bool :=
  CHECK! MessageId.is_valid message_id else "message_id.is_valid()" in
  let* it := get_iterator t message_id in
  Ok (match deref it with Some m => m =? message_id | None => false end).

Fixpoint last_sent_loop (fuel : nat) (t : tree) (it : list Z) : Res Z :=
  match deref it with
  | None => Ok 0
  | Some m =>
      match fuel with
      | O => Panic "fuel"
      | S fuel =>
          let* b := MessageId.is_yet_unsent m in
          if negb b then Ok m else let* it := move Bwd t it in last_sent_loop fuel t it
      end
  end.
Definition get_last_sent_message_id (t : tree) : Res Z :=
  let* it := get_iterator t MessageId.max in last_sent_loop (count t) t it.

Definition get_last_message_id (t : tree) : Res Z :=
  let* it := get_iterator t MessageId.max in Ok (default 0 (deref it)).

Definition empty (t : tree) : bool := match t with Leaf => true | _ => false end.

(** ** History *)

(** [traverse_messages] down the left side. *)
Definition min_message_id (t : tree) : Z := traverse_messages (fun m _ => (true, m)) (fun _ s => (false, s)) t 0.

(** The loop [while ( *it != nullptr && offset < 0)]. *)
Fixpoint apply_offset (fuel : nat) (t : tree) (it : list Z) (from_message_id offset : Z) : Res (list Z * Z * Z) :=
  match deref it with
  | Some _ =>
      if offset <? 0 then
        match fuel with
        | O => Panic "fuel"
        | S fuel =>
            let* it := move Fwd t it in
            match deref it with
            | Some m => apply_offset fuel t it m (offset + 1)
            | None => apply_offset fuel t it from_message_id offset
            end
        end
      else Ok (it, from_message_id, offset)
  | None => Ok (it, from_message_id, offset)
  end.

(** The loop that collects the messages. *)
Fixpoint collect (fuel : nat) (t : tree) (it : list Z) (limit : Z) (message_ids : list Z) : Res (list Z) :=
  match deref it with
  | Some m =>
      if Z.of_nat (length message_ids) <? limit then
        match fuel with
        | O => Panic "fuel"
        | S fuel => let* it := move Bwd t it in collect fuel t it limit (message_ids ++ [m])
        end
      else Ok message_ids
  | None => Ok message_ids
  end.

Record history := { message_ids : list Z; from_message_id : Z; offset : Z; limit : Z }.

(** The position of the iterator, [from_message_id] and [have_a_gap]. *)
Definition find_start (t : tree) (last_message_id : Z) (it : list Z) (from_message_id offset : Z) (force : bool) : Res (list Z * Z * bool) :=
  match deref it with
  | None =>
      if force && (offset <? 0) && negb (empty t) then
        let min_message_id := min_message_id t in
        let* b := MessageId.gt min_message_id from_message_id in
        CHECK! b else "min_message_id > from_message_id" in
        let* it := get_iterator t min_message_id in
        CHECK! negb (bool_decide (deref it = None)) else "*it != nullptr" in
        Ok (it, min_message_id, false)
      else Ok (it, from_message_id, true)
  | Some m =>
      if negb (m =? from_message_id) then
        let* b := MessageId.lt m from_message_id in
        CHECK! b else "(*it)->message_id_ < from_message_id" in
        let* n := load m t in
        let* before_last := if last_message_id =? 0 then Ok true else MessageId.lt m last_message_id in
        Ok (it, from_message_id, negb (flag Fwd n) && before_last)
      else Ok (it, from_message_id, false)
  end.

(** The rest of the offset, and what to do when there are too few newer messages. *)
Definition finish_offset (t : tree) (last_message_id : Z) (it : list Z) (from_message_id : Z) (have_a_gap : bool) (offset limit : Z) (force : bool) : Res (list Z * Z * Z * Z) :=
  let* (it, from_message_id, offset) := apply_offset (count t) t it from_message_id offset in
  let* at_end :=
    if offset <? 0 then
      let* b := if negb (last_message_id =? 0) then MessageId.ge from_message_id last_message_id else Ok false in
      Ok (b || negb have_a_gap && force)
    else Ok false in
  let* (it, offset, limit) :=
    if (at_end : bool) then
      CHECK! negb have_a_gap else "!have_a_gap" in
      let* it := get_iterator t from_message_id in
      Ok (it, 0, limit + offset)
    else Ok (it, offset, limit) in
  let offset := if negb have_a_gap && (offset <? 0) then offset - 1 else offset in
  Ok (it, from_message_id, offset, limit).

(** The position of the iterator, [from_message_id], [offset] and [limit] when the
    messages do not start from the end. *)
Definition apply_from (t : tree) (last_message_id : Z) (it : list Z) (from_message_id offset limit : Z) (force : bool) : Res (list Z * Z * Z * Z) :=
  let* (it, from_message_id, have_a_gap) := find_start t last_message_id it from_message_id offset force in
  let it := if (have_a_gap : bool) then [] else it in
  let* (it, offset) :=
    if bool_decide (deref it = Some from_message_id) then
      if offset <? 0 then Ok (it, offset + 1) else let* it := move Bwd t it in Ok (it, offset)
    else Ok (it, offset) in
  finish_offset t last_message_id it from_message_id have_a_gap offset limit force.

(** [limit] and [offset] are [int32]; the caller has cut the limit to [MAX_GET_HISTORY] and
    rejects offsets below its negation, so that the sums of the two stay in range. *)
Definition get_history (t : tree) (last_message_id from_message_id offset limit : Z) (force : bool) : Res history :=
  CHECK! 0 <? limit else "limit > 0" in
  let is_limit_increased := limit =? - offset in
  let limit := if is_limit_increased then limit + 1 else limit in
  CHECK! (- limit <? offset) && (offset <=? 0) else "-limit < offset && offset <= 0" in
  let* it := get_iterator t from_message_id in
  let* from_the_end :=
    let* b := if negb (last_message_id =? 0) then MessageId.gt from_message_id last_message_id else Ok false in
    if (b : bool) then Ok true else MessageId.ge from_message_id MessageId.max in
  let* (it, from_message_id, offset, limit) :=
    if (from_the_end : bool) then Ok (if last_message_id =? 0 then [] else it, from_message_id, 0, limit + offset)
    else apply_from t last_message_id it from_message_id offset limit force in
  let* message_ids := if offset =? 0 then collect (count t) t it limit [] else Ok [] in
  let from_message_id :=
    match last message_ids with
    | Some m => m
    | None => if from_the_end then 0 else from_message_id
    end in
  let message_ids :=
    if is_limit_increased && (limit =? Z.of_nat (length message_ids)) then removelast message_ids else message_ids in
  Ok {| message_ids := message_ids; from_message_id := from_message_id; offset := offset; limit := limit |}.

(** ** Unread messages *)
Section unread.
Context (is_counted_as_unread : Z -> bool).

(** The loops that go back to [limit_message_id], counting the unread messages. *)
Fixpoint count_unread (fuel : nat) (t : tree) (it : list Z) (limit_message_id unread_count : Z) : Res (list Z * Z) :=
  match deref it with
  | None => Ok (it, unread_count)
  | Some m =>
      let* b := MessageId.gt m limit_message_id in
      if (b : bool) then
        match fuel with
        | O => Panic "fuel"
        | S fuel =>
            let unread_count := if is_counted_as_unread m then unread_count + 1 else unread_count in
            let* it := move Bwd t it in count_unread fuel t it limit_message_id unread_count
        end
      else Ok (it, unread_count)
  end.

Definition calc_new_unread_count_from_last_unread (t : tree) (max_message_id last_read_inbox_message_id old_unread_count : Z) : Res Z :=
  let* it := get_iterator t max_message_id in
  if negb (bool_decide (deref it = Some max_message_id)) then Ok (-1)
  else
    let* (it, read) := count_unread (count t) t it last_read_inbox_message_id 0 in
    if negb (bool_decide (deref it = Some last_read_inbox_message_id)) then Ok (-1) else Ok (old_unread_count - read).

Definition calc_new_unread_count_from_the_end (t : tree) (max_message_id last_message_id hint_unread_count : Z) : Res Z :=
  let* it := get_iterator t MessageId.max in
  let* (it, unread_count) := count_unread (count t) t it max_message_id 0 in
  let is_count_exact := MessageId.is_valid last_message_id && negb (bool_decide (deref it = None)) in
  if (0 <=? hint_unread_count) && (if is_count_exact then hint_unread_count =? unread_count else unread_count <=? hint_unread_count)
  then Ok hint_unread_count
  else if negb is_count_exact then Ok (-1) else Ok unread_count.

Definition calc_new_unread_count (t : tree) (max_message_id last_read_inbox_message_id old_unread_count last_message_id hint_unread_count : Z) : Res Z :=
  if negb (MessageId.is_valid last_read_inbox_message_id)
  then calc_new_unread_count_from_the_end t max_message_id last_message_id hint_unread_count
  else if negb (MessageId.is_valid last_message_id) || (max_message_id - last_read_inbox_message_id <? last_message_id - max_message_id) then
    let* unread_count := calc_new_unread_count_from_last_unread t max_message_id last_read_inbox_message_id old_unread_count in
    if 0 <=? unread_count then Ok unread_count
    else calc_new_unread_count_from_the_end t max_message_id last_message_id hint_unread_count
  else
    let* unread_count := calc_new_unread_count_from_the_end t max_message_id last_message_id hint_unread_count in
    if 0 <=? unread_count then Ok unread_count
    else calc_new_unread_count_from_last_unread t max_message_id last_read_inbox_message_id old_unread_count.
End unread.

(** * Proofs *)

(** ** The messages in order *)
Record msg := M { mid : Z; prev : bool; next : bool }.

Fixpoint inorder (t : tree) : list msg :=
  match t with
  | Leaf => []
  | Node _ p n m l r => inorder l ++ M m p n :: inorder r
  end.
Definition ids (t : tree) : list Z := map mid (inorder t).

Lemma ids_node y p n m l r : ids (Node y p n m l r) = ids l ++ m :: ids r.
Proof. unfold ids. simpl. by rewrite map_app. Qed.

(** The identifiers in the order of an iterator. *)
Definition seq (d : dir) (t : tree) : list Z := match d with Fwd => ids t | Bwd => rev (ids t) end.

Lemma seq_node d y p n m l r : let t := Node y p n m l r in seq d t = seq d (child (opp d) t) ++ m :: seq d (child d t).
Proof.
  cbv zeta. destruct d; unfold seq; rewrite ids_node; [done|]. cbn [child opp]. rewrite rev_app_distr. simpl. by rewrite <- app_assoc.
Qed.

Lemma elem_of_seq d t x : x ∈ seq d t <-> x ∈ ids t.
Proof. destruct d; [done|]. unfold seq. by rewrite list_elem_of_In, <- in_rev, <- list_elem_of_In. Qed.

Lemma NoDup_node y p n m l r : NoDup (ids (Node y p n m l r)) ->
  NoDup (ids l) /\ NoDup (ids r) /\ m ∉ ids l /\ m ∉ ids r /\ (forall x, x ∈ ids l -> x ∈ ids r -> False).
Proof.
  rewrite ids_node, NoDup_app, NoDup_cons. intros (H1&H2&H3&H4). split_and!; auto.
  - intros Hm. apply (H2 m Hm). by left.
  - intros x Hl Hr. apply (H2 x Hl). by right.
Qed.

Lemma find_None t x : x ∉ ids t -> find x t = None.
Proof.
  induction t as [|y p n m l IHl r IHr]; [done|]. rewrite ids_node, elem_of_app, elem_of_cons. intros Hx. simpl.
  rewrite (proj2 (Z.eqb_neq m x)) by (intros ->; tauto). rewrite IHl by tauto. apply IHr. tauto.
Qed.

(** A pointer to a node of the left or right subtree. *)
Lemma find_child d t x : NoDup (ids t) -> x ∈ ids (child d t) -> find x t = find x (child d t).
Proof.
  destruct t as [|y p n m l r]; [by destruct d|]. intros (_&_&Hl&Hr&Hlr)%NoDup_node Hx. simpl.
  rewrite (proj2 (Z.eqb_neq m x)) by (intros ->; destruct d; simpl in Hx; tauto). destruct d; simpl in *.
  - rewrite (find_None l); [done|]. intros Hx'. by apply (Hlr x).
  - destruct (find x l) eqn:E; [done|]. apply find_None. intros Hx'. by apply (Hlr x).
Qed.

Lemma find_elem t x p n : NoDup (ids t) -> M x p n ∈ inorder t -> exists s, find x t = Some s /\ flag Bwd s = p /\ flag Fwd s = n.
Proof.
  induction t as [|y p' n' m l IHl r IHr]; intros Hnd Hin; [by apply elem_of_nil in Hin|].
  pose proof (NoDup_node _ _ _ _ _ _ Hnd) as (Hnl&Hnr&Hl&Hr&Hlr). simpl in Hin. rewrite elem_of_app, elem_of_cons in Hin.
  assert (forall t', M x p n ∈ inorder t' -> x ∈ ids t') as Hids by (intros t' ?; apply list_elem_of_fmap; by exists (M x p n)).
  destruct Hin as [Hin|[[= -> -> ->]|Hin]].
  - rewrite (find_child Bwd) by (simpl; auto). by apply IHl.
  - simpl. rewrite Z.eqb_refl. by eexists.
  - rewrite (find_child Fwd) by (simpl; auto). by apply IHr.
Qed.

(** ** Stacks *)

(** The stack of an iterator at a message. *)
Fixpoint path (x : Z) (t : tree) : option (list Z) :=
  match t with
  | Leaf => None
  | Node _ _ _ m l r =>
      if m =? x then Some [m] else match path x l with Some p => Some (p ++ [m]) | None => match path x r with Some p => Some (p ++ [m]) | None => None end end
  end.

Lemma path_None t x : x ∉ ids t -> path x t = None.
Proof.
  induction t as [|y p n m l IHl r IHr]; [done|]. rewrite ids_node, elem_of_app, elem_of_cons. intros Hx. simpl.
  rewrite (proj2 (Z.eqb_neq m x)) by (intros ->; tauto). rewrite IHl, IHr by tauto. done.
Qed.

Lemma path_Some t x : x ∈ ids t -> exists p, path x t = Some p.
Proof.
  induction t as [|y p n m l IHl r IHr]; [by intros ?%elem_of_nil|]. rewrite ids_node, elem_of_app, elem_of_cons. intros Hx. simpl.
  destruct (m =? x) eqn:E; zbool; [by eauto|]. destruct (path x l) eqn:El; [by eauto|]. destruct Hx as [Hx|[->|Hx]].
  - apply IHl in Hx as [? ?]. congruence.
  - done.
  - apply IHr in Hx as [q ->]. eauto.
Qed.

Lemma path_child d y p n m l r x q : let t := Node y p n m l r in NoDup (ids t) -> path x (child d t) = Some q -> path x t = Some (q ++ [m]).
Proof.
  intros t (_&_&Hl&Hr&Hlr)%NoDup_node Hq. assert (x ∈ ids (child d t)) as Hx.
  { destruct (decide (x ∈ ids (child d t))) as [|Hn]; [done|]. by rewrite path_None in Hq. }
  unfold t in *. simpl. rewrite (proj2 (Z.eqb_neq m x)) by (intros ->; destruct d; simpl in Hx; tauto). destruct d; simpl in *.
  - rewrite (path_None l), Hq; [done|]. intros Hx'. by apply (Hlr x).
  - by rewrite Hq.
Qed.

Lemma path_head t x q : path x t = Some q -> head q = Some x.
Proof.
  revert q. induction t as [|y p n m l IHl r IHr]; intros q; simpl; [done|]. destruct (m =? x) eqn:E; zbool; [intros [= <-]; by subst|].
  destruct (path x l) as [q'|]; [|destruct (path x r) as [q'|]; [|done]]; intros [= <-].
  - specialize (IHl q' eq_refl). by destruct q'.
  - specialize (IHr q' eq_refl). by destruct q'.
Qed.

(** The subtree [t] of [T], as seen through pointers. *)
Definition inside (t T : tree) : Prop := forall x s, find x t = Some s -> find x T = Some s.

Lemma inside_child d t T : NoDup (ids t) -> inside t T -> inside (child d t) T.
Proof.
  intros Hnd Hin x s Hx. apply Hin. rewrite <- Hx. apply find_child; [done|].
  destruct (decide (x ∈ ids (child d t))) as [|Hn]; [done|]. by rewrite find_None in Hx.
Qed.

Lemma NoDup_child d t : NoDup (ids t) -> NoDup (ids (child d t)).
Proof. destruct t as [|y p n m l r]; [by destruct d|]. intros (?&?&_)%NoDup_node. by destruct d. Qed.

Lemma path_root t : path (default 0 (root t)) t = match t with Leaf => None | Node _ _ _ m _ _ => Some [m] end.
Proof. destruct t; [done|]. simpl. by rewrite Z.eqb_refl. Qed.

(** The end of the spine is the first message on that side. *)
Lemma spine_path d t s : t <> Leaf -> NoDup (ids t) ->
  exists x l q, seq d t = x :: l /\ path x t = Some q /\ spine (opp d) t s = q ++ s.
Proof.
  revert s. induction t as [|y p n m l IHl r IHr]; intros s Hne Hnd; [done|]. pose proof (NoDup_node _ _ _ _ _ _ Hnd) as (Hnl&Hnr&_).
  set (t := Node y p n m l r). pose proof (seq_node d y p n m l r) as Hseq. cbv zeta in Hseq. fold t in Hseq. rewrite Hseq.
  assert (forall c, child (opp d) t = c -> (forall s, c <> Leaf -> NoDup (ids c) ->
      exists x l q, seq d c = x :: l /\ path x c = Some q /\ spine (opp d) c s = q ++ s) ->
    exists x l q, seq d c ++ m :: seq d (child d t) = x :: l /\ path x t = Some q /\ spine (opp d) t s = q ++ s) as Hc.
  { intros c Ec IH. destruct c as [|y1 p1 n1 m1 l1 r1] eqn:E.
    - exists m, (seq d (child d t)), [m]. split_and!; [by destruct d|unfold t; simpl; by rewrite Z.eqb_refl|].
      unfold t. simpl. destruct d; simpl in *; by rewrite Ec.
    - rewrite <- E in *. destruct (IH (m :: s)) as (x&l'&q&E1&E2&E3); [by rewrite E|rewrite <- Ec; by destruct d|].
      exists x, (l' ++ m :: seq d (child d t)), (q ++ [m]). split_and!.
      + by rewrite E1.
      + unfold t. apply (path_child (opp d)); [done|]. fold t. by rewrite Ec.
      + rewrite <- app_assoc. simpl. rewrite <- E3. unfold t. destruct d; simpl in *; by rewrite Ec. }
  apply (Hc _ eq_refl). intros s' Hc1 Hc2. destruct d; simpl in *; [by apply IHl|by apply IHr].
Qed.

(** [move] without the test of the flag. *)
Definition neighbour (d : dir) (T : tree) (it : list Z) : Res (list Z) :=
  match it with
  | [] => Ok []
  | cur :: rest =>
      let* n := load cur T in
      match child d n with
      | Leaf => climb T d cur rest
      | c => Ok (spine (opp d) c it)
      end
  end.

Lemma move_neighbour d T x rest s : find x T = Some s -> move d T (x :: rest) = if flag d s then neighbour d T (x :: rest) else Ok [].
Proof. intros Hs. unfold move, neighbour, load. rewrite Hs. cbn [res_bind]. by destruct (flag d s). Qed.

Lemma app_cons_split {A} (u v l1 l2 : list A) m x : u ++ m :: v = l1 ++ x :: l2 ->
  (exists k, u = l1 ++ x :: k /\ l2 = k ++ m :: v) \/ (l1 = u /\ x = m /\ l2 = v) \/ (exists k, l1 = u ++ m :: k /\ v = k ++ x :: l2).
Proof.
  revert l1. induction u as [|a u IH]; intros [|b l1] H; simpl in H; injection H as <- H.
  - right. left. done.
  - right. right. by exists l1.
  - left. by exists u.
  - destruct (IH l1 H) as [(k&->&->)|[(->&->&->)|(k&->&->)]]; [left; by exists k|by right; left|right; right; by exists k].
Qed.

(** The next message of a subtree, or the climb out of it. *)
Lemma neighbour_path d T t : forall s x p l1 l2, NoDup (ids t) -> inside t T -> path x t = Some p -> seq d t = l1 ++ x :: l2 ->
  match l2 with
  | y :: _ => exists q, path y t = Some q /\ neighbour d T (p ++ s) = Ok (q ++ s)
  | [] => neighbour d T (p ++ s) = climb T d (default 0 (root t)) s
  end.
Proof.
  induction t as [|y p0 n m l IHl r IHr]; intros s x p l1 l2 Hnd Hin Hp Hseq; [done|].
  pose proof (NoDup_node _ _ _ _ _ _ Hnd) as (Hnl&Hnr&Hml&Hmr&Hlr). set (t := Node y p0 n m l r) in *.
  assert (forall d', forall s x p l1 l2, path x (child d' t) = Some p -> seq d (child d' t) = l1 ++ x :: l2 ->
    match l2 with
    | y :: _ => exists q, path y (child d' t) = Some q /\ neighbour d T (p ++ s) = Ok (q ++ s)
    | [] => neighbour d T (p ++ s) = climb T d (default 0 (root (child d' t))) s
    end) as IH.
  { intros d' s' x' p' l1' l2'. pose proof (inside_child d' t T Hnd Hin) as Hin'. pose proof (NoDup_child d' t Hnd) as Hnd'.
    destruct d'; [apply IHr|apply IHl]; done. }
  clear IHl IHr. assert (find m T = Some t) as Hm. { apply Hin. unfold t. simpl. by rewrite Z.eqb_refl. }
  pose proof (seq_node d y p0 n m l r) as Hsn. cbv zeta in Hsn. fold t in Hsn. rewrite Hsn in Hseq.
  assert (forall d', x ∈ ids (child d' t) -> exists q, path x (child d' t) = Some q /\ p = q ++ [m]) as Hchild.
  { intros d' [q Hq]%path_Some. exists q. split; [done|]. pose proof (path_child d' y p0 n m l r x q Hnd Hq) as E. fold t in E. congruence. }
  destruct (app_cons_split _ _ _ _ _ _ Hseq) as [(k&Ek&->)|[(->&->&->)|(k&->&Ek)]].
  - (* before the root *)
    destruct (Hchild (opp d)) as (q&Hq&->). { rewrite <- (elem_of_seq d), Ek. set_solver. }
    rewrite <- app_assoc. simpl. specialize (IH (opp d) (m :: s) x q l1 k Hq Ek). destruct k as [|y' k]; simpl.
    + exists [m]. split; [unfold t; simpl; by rewrite Z.eqb_refl|]. rewrite IH. cbn [climb]. unfold load. rewrite Hm. cbn [res_bind].
      rewrite bool_decide_true; [done|]. destruct (child (opp d) t) as [|y1 p1 n1 m1 lc rc] eqn:E; [|done]. destruct l1; destruct d; done.
    + destruct IH as (q'&Hq'&->). exists (q' ++ [m]). split; [|by rewrite <- app_assoc]. exact (path_child (opp d) y p0 n m l r _ _ Hnd Hq').
  - (* the root *)
    assert (p = [m]) as ->. { unfold t in Hp. simpl in Hp. rewrite Z.eqb_refl in Hp. congruence. }
    simpl app. unfold neighbour, load. rewrite Hm. cbn [res_bind]. destruct (child d t) as [|y1 p1 n1 m1 lc rc] eqn:E; [by destruct d|].
    rewrite <- E in *. destruct (spine_path d (child d t) (m :: s)) as (x1&l'&q&E1&E2&E3); [by rewrite E|by apply NoDup_child|].
    rewrite E1. exists (q ++ [m]). split; [exact (path_child d y p0 n m l r _ _ Hnd E2)|]. rewrite <- app_assoc. simpl. rewrite <- E3. done.
  - (* after the root *)
    destruct (Hchild d) as (q&Hq&->). { rewrite <- (elem_of_seq d), Ek. set_solver. }
    rewrite <- app_assoc. simpl. specialize (IH d (m :: s) x q k l2 Hq Ek). destruct l2 as [|y' l2].
    + rewrite IH. cbn [climb]. unfold load. rewrite Hm. cbn [res_bind]. rewrite bool_decide_false; [done|]. intros Hroot.
      destruct (child d t) as [|y1 p1 n1 m1 lc rc] eqn:E; [by destruct k, d|].
      destruct (child (opp d) t) as [|y2 p2 n2 m2 lc2 rc2] eqn:E2; [done|]. simpl in Hroot. injection Hroot as ->.
      destruct d; unfold t in E, E2; simpl in E, E2; subst; apply (Hlr m1); rewrite ids_node; set_solver.
    + destruct IH as (q'&Hq'&->). exists (q' ++ [m]). split; [|by rewrite <- app_assoc]. exact (path_child d y p0 n m l r _ _ Hnd Hq').
Qed.

(** ** Iterators and the order of the messages *)

(** The iterator at a message, or at no message. *)
Definition at_msg (T : tree) (o : option Z) : list Z := match o with Some x => default [] (path x T) | None => [] end.

Lemma deref_at T o : (forall x, o = Some x -> x ∈ ids T) -> deref (at_msg T o) = o.
Proof.
  destruct o as [x|]; [|done]. intros Hx. destruct (path_Some T x) as [p Hp]; [by apply Hx|]. unfold at_msg, deref. rewrite Hp. by apply path_head in Hp.
Qed.

(** The messages before and after one. *)
Definition beside (d : dir) (k1 k2 : list msg) : option Z := mid <$> match d with Fwd => head k2 | Bwd => last k1 end.
Definition flag_of (d : dir) (x : msg) : bool := match d with Fwd => next x | Bwd => prev x end.

Lemma move_spec d T k1 x k2 : NoDup (ids T) -> inorder T = k1 ++ x :: k2 ->
  move d T (at_msg T (Some (mid x))) = Ok (at_msg T (if flag_of d x then beside d k1 k2 else None)).
Proof.
  intros Hnd Hin. destruct x as [m p n]. cbn [mid]. assert (ids T = map mid k1 ++ m :: map mid k2) as Hids by (unfold ids; by rewrite Hin, map_app).
  destruct (path_Some T m) as [q Hq]; [rewrite Hids; set_solver|].
  destruct (find_elem T m p n Hnd) as (s&Hs&Hsp&Hsn); [rewrite Hin; set_solver|].
  unfold at_msg at 1. rewrite Hq. simpl default. pose proof (path_head _ _ _ Hq) as Hh. destruct q as [|m' q]; [done|]. injection Hh as ->.
  rewrite (move_neighbour d T m q s Hs). assert (flag d s = flag_of d (M m p n)) as -> by (destruct d; simpl; congruence).
  destruct (flag_of d (M m p n)); [|done].
  set (l1 := match d with Fwd => map mid k1 | Bwd => rev (map mid k2) end). set (l2 := match d with Fwd => map mid k2 | Bwd => rev (map mid k1) end).
  assert (seq d T = l1 ++ m :: l2) as Hseq.
  { unfold seq, l1, l2. destruct d; [done|]. rewrite Hids, rev_app_distr. simpl. by rewrite <- app_assoc. }
  pose proof (neighbour_path d T T [] m (m :: q) l1 l2 Hnd (fun x s H => H) Hq Hseq) as Hn. rewrite app_nil_r in Hn.
  assert (beside d k1 k2 = head l2) as ->.
  { unfold beside, l2. destruct d; [by destruct k2|]. rewrite <- map_rev. destruct k1 as [|z k1 _] using rev_ind; [done|].
    by rewrite last_snoc, rev_app_distr. }
  destruct l2 as [|y l2]; [exact Hn|]. destruct Hn as (q'&Hq'&->). cbn [head at_msg]. by rewrite Hq', app_nil_r.
Qed.

(** ** Well-formed trees *)
Definition ordinary (x : Z) : Prop := MessageId.is_scheduled x = false.
Definition wf (t : tree) : Prop := StronglySorted Z.lt (ids t) /\ Forall ordinary (ids t).

Lemma sorted_app_inv {A} (R : A -> A -> Prop) l1 l2 : StronglySorted R (l1 ++ l2) ->
  StronglySorted R l1 /\ StronglySorted R l2 /\ forall a b, a ∈ l1 -> b ∈ l2 -> R a b.
Proof.
  induction l1 as [|a l1 IH]; simpl; intros Hs; [split_and!; [constructor|done|set_solver]|]. apply StronglySorted_inv in Hs as [Hs Ha].
  destruct (IH Hs) as (H1&H2&H3). rewrite Forall_app in Ha. destruct Ha as [Ha1 Ha2]. split_and!; [by constructor|done|].
  intros x y [->|Hx]%elem_of_cons Hy; [|by apply H3]. rewrite Forall_forall in Ha2. by apply Ha2.
Qed.

Lemma wf_NoDup t : wf t -> NoDup (ids t).
Proof. intros [Hs _]. by apply sorted_NoDup. Qed.

Lemma wf_node y p n m l r : wf (Node y p n m l r) ->
  wf l /\ wf r /\ ordinary m /\ (forall x, x ∈ ids l -> x < m) /\ (forall x, x ∈ ids r -> m < x).
Proof.
  intros [Hs Ho]. rewrite ids_node in *. apply sorted_app_inv in Hs as (Hl&Hr&Hlr). apply StronglySorted_inv in Hr as [Hr Hm].
  rewrite Forall_app, Forall_cons in Ho. destruct Ho as (Hol&Hom&Hor). rewrite Forall_forall in Hm.
  split_and!; [done..| |done]. intros x Hx. apply Hlr; [done|]. by left.
Qed.

Lemma le_ordinary a b : ordinary a -> ordinary b -> MessageId.le a b = Ok (a <=? b).
Proof. unfold ordinary, MessageId.le, MessageId.same_kind. by intros -> ->. Qed.
Lemma lt_ordinary a b : ordinary a -> ordinary b -> MessageId.lt a b = Ok (a <? b).
Proof. unfold ordinary, MessageId.lt, MessageId.same_kind. by intros -> ->. Qed.
Lemma gt_ordinary a b : ordinary a -> ordinary b -> MessageId.gt a b = Ok (b <? a).
Proof. unfold ordinary, MessageId.gt, MessageId.same_kind. by intros -> ->. Qed.
Lemma ge_ordinary a b : ordinary a -> ordinary b -> MessageId.ge a b = Ok (b <=? a).
Proof. unfold ordinary, MessageId.ge, MessageId.same_kind. by intros -> ->. Qed.

(** The messages up to an identifier. *)
Definition upto (x : Z) (l : list msg) : list msg := filter (fun z => mid z <= x) l.

Lemma upto_all x l : Forall (fun z => mid z <= x) l -> upto x l = l.
Proof. intros. by apply filter_all. Qed.
Lemma upto_none x l : Forall (fun z => x < mid z) l -> upto x l = [].
Proof. intros Hl. apply filter_none. eapply Forall_impl; [exact Hl|]. simpl. lia. Qed.
Lemma upto_app x l1 l2 : upto x (l1 ++ l2) = upto x l1 ++ upto x l2.
Proof. apply filter_app. Qed.

Lemma ids_Forall (P : Z -> Prop) t : (forall x, x ∈ ids t -> P x) -> Forall (fun z => P (mid z)) (inorder t).
Proof. intros H. apply Forall_forall. intros z Hz. apply H. apply list_elem_of_fmap. by exists z. Qed.

Lemma last_app_cons {A} (u v : list A) a : last (u ++ a :: v) = Some (default a (last v)).
Proof.
  rewrite last_app. destruct v as [|b v]; [done|]. change (last (a :: b :: v)) with (last (b :: v)).
  destruct (last (b :: v)) eqn:E; [done|]. by apply last_None in E.
Qed.

Lemma it_walk_spec t x : wf t -> ordinary x -> forall stack best,
  it_walk t x stack best = Ok (match last (upto x (inorder t)) with Some z => default [] (path (mid z) t) ++ stack | None => best end).
Proof.
  intros Hwf Hx. induction t as [|y p n m l IHl r IHr]; intros stack best; [done|].
  pose proof (wf_NoDup _ Hwf) as Hnd. pose proof (wf_node _ _ _ _ _ _ Hwf) as (Hwl&Hwr&Hom&Hlm&Hmr). cbn [it_walk]. rewrite le_ordinary by done. cbn [res_bind].
  simpl inorder. rewrite upto_app. assert (forall d z, z ∈ inorder (child d (Node y p n m l r)) -> default [] (path (mid z) (Node y p n m l r)) =
      default [] (path (mid z) (child d (Node y p n m l r))) ++ [m]) as Hpath.
  { intros d z Hz. destruct (path_Some (child d (Node y p n m l r)) (mid z)) as [q Hq]; [apply list_elem_of_fmap; by exists z|].
    rewrite (path_child d _ _ _ _ _ _ _ q Hnd Hq), Hq. done. }
  destruct (m <=? x) eqn:E; zbool.
  - rewrite (upto_all x (inorder l)) by (apply (ids_Forall (fun z => z <= x)); intros z Hz; specialize (Hlm z Hz); lia).
    unfold upto at 1. rewrite filter_cons_True by (simpl; lia). fold (upto x (inorder r)). rewrite last_app_cons, IHr by done.
    destruct (last (upto x (inorder r))) as [z|] eqn:Ez; [|simpl; by rewrite Z.eqb_refl].
    change (default (M m p n) (Some z)) with z. rewrite (Hpath Fwd z), <- app_assoc; [done|]. apply last_Some_elem_of, list_elem_of_filter in Ez as [_ Hz]. done.
  - unfold upto at 2. rewrite filter_cons_False by (simpl; lia). fold (upto x (inorder r)).
    rewrite (upto_none x (inorder r)), app_nil_r by (apply (ids_Forall (fun z => x < z)); intros z Hz; specialize (Hmr z Hz); lia).
    rewrite IHl by done. destruct (last (upto x (inorder l))) as [z|] eqn:Ez; [|done].
    rewrite (Hpath Bwd z), <- app_assoc; [done|]. apply last_Some_elem_of, list_elem_of_filter in Ez as [_ Hz]. done.
Qed.

Lemma get_iterator_spec t x : wf t -> ordinary x -> get_iterator t x = Ok (at_msg t (mid <$> last (upto x (inorder t)))).
Proof.
  intros Hwf Hx. unfold get_iterator. rewrite Hx. cbn [negb]. rewrite it_walk_spec by done. destruct (last _) as [z|]; [|done]. simpl. by rewrite app_nil_r.
Qed.

(** ** Flags *)
Definition with_flag (d : dir) (b : bool) (z : msg) : msg := match d with Fwd => M (mid z) (prev z) b | Bwd => M (mid z) b (next z) end.

(** Two trees that differ in flags only. *)
Fixpoint same_shape (t t' : tree) : Prop :=
  match t, t' with
  | Leaf, Leaf => True
  | Node y _ _ m l r, Node y' _ _ m' l' r' => y = y' /\ m = m' /\ same_shape l l' /\ same_shape r r'
  | _, _ => False
  end.

#[global] Instance same_shape_preorder : PreOrder same_shape.
Proof.
  split.
  - intros t. induction t; simpl; auto.
  - intros t1. induction t1 as [|y p n m l IHl r IHr]; intros [] []; simpl; try done. intros (->&->&?&?) (->&->&?&?). split_and!; eauto.
Qed.

Lemma set_flag_shape d b x t : same_shape (set_flag d b x t) t.
Proof. induction t as [|y p n m l IHl r IHr]; simpl; [done|]. case_if; [destruct d|]; simpl; split_and!; done. Qed.

Lemma shape_ids t t' : same_shape t t' -> ids t = ids t'.
Proof.
  revert t'. induction t as [|y p n m l IHl r IHr]; intros [] H; simpl in H; try done. destruct H as (->&->&Hl&Hr).
  rewrite !ids_node. by rewrite (IHl _ Hl), (IHr _ Hr).
Qed.

Lemma shape_wf t t' : same_shape t t' -> wf t' -> wf t.
Proof. intros H. unfold wf. by rewrite (shape_ids _ _ H). Qed.

Lemma shape_path t t' x : same_shape t t' -> path x t = path x t'.
Proof. revert t'. induction t as [|y p n m l IHl r IHr]; intros [] H; simpl in H; try done. destruct H as (->&->&Hl&Hr). simpl. by rewrite (IHl _ Hl), (IHr _ Hr). Qed.

Lemma shape_at t t' o : same_shape t t' -> at_msg t o = at_msg t' o.
Proof. intros H. destruct o as [x|]; [|done]. unfold at_msg. by rewrite (shape_path _ _ _ H). Qed.

Lemma shape_count t t' : same_shape t t' -> count t = count t'.
Proof. revert t'. induction t as [|y p n m l IHl r IHr]; intros [] H; simpl in H; try done. destruct H as (->&->&Hl&Hr). simpl. by rewrite (IHl _ Hl), (IHr _ Hr). Qed.

Lemma shape_insert_place t t' x y : same_shape t t' -> insert_place x y t = insert_place x y t'.
Proof.
  revert t'. induction t as [|y0 p n m l IHl r IHr]; intros [] H; simpl in H; try done. destruct H as (->&->&Hl&Hr). simpl.
  by rewrite (IHl _ Hl), (IHr _ Hr).
Qed.

Lemma shape_erase_place t t' x : same_shape t t' -> erase_place x t = erase_place x t'.
Proof.
  revert t'. induction t as [|y0 p n m l IHl r IHr]; intros [] H; simpl in H; try done. destruct H as (->&->&Hl&Hr). simpl.
  by rewrite (IHl _ Hl), (IHr _ Hr).
Qed.

Lemma set_flag_other d b x t : x ∉ ids t -> set_flag d b x t = t.
Proof.
  induction t as [|y p n m l IHl r IHr]; [done|]. rewrite ids_node, elem_of_app, elem_of_cons. intros Hx. simpl.
  rewrite (proj2 (Z.eqb_neq m x)) by (intros ->; tauto). by rewrite IHl, IHr by tauto.
Qed.

Lemma set_flag_inorder d b t : forall k1 z k2, NoDup (ids t) -> inorder t = k1 ++ z :: k2 ->
  inorder (set_flag d b (mid z) t) = k1 ++ with_flag d b z :: k2.
Proof.
  induction t as [|y p n m l IHl r IHr]; intros k1 z k2 Hnd Hin; [by destruct k1|].
  pose proof (NoDup_node _ _ _ _ _ _ Hnd) as (Hnl&Hnr&Hml&Hmr&Hlr). simpl in Hin.
  destruct (app_cons_split _ _ _ _ _ _ Hin) as [(k&Ek&->)|[(->&->&->)|(k&->&Ek)]]; cbn [set_flag].
  - assert (mid z ∈ ids l) as Hz by (unfold ids; rewrite Ek, map_app; set_solver).
    rewrite (proj2 (Z.eqb_neq m (mid z))) by (intros ->; done). cbn [inorder].
    rewrite (IHl k1 z k Hnl Ek), set_flag_other by (intros ?; by apply (Hlr (mid z))). by rewrite <- app_assoc.
  - simpl mid. rewrite Z.eqb_refl. by destruct d.
  - assert (mid z ∈ ids r) as Hz by (unfold ids; rewrite Ek, map_app; set_solver).
    rewrite (proj2 (Z.eqb_neq m (mid z))) by (intros ->; done). cbn [inorder].
    rewrite (IHr k z k2 Hnr Ek), (set_flag_other d b (mid z) l) by (intros ?; by apply (Hlr (mid z))). by rewrite <- app_assoc.
Qed.

(** ** Shape of the operations *)
Definition below (x : Z) (l : list msg) : list msg := filter (fun z => mid z < x) l.
Definition above (x : Z) (l : list msg) : list msg := filter (fun z => ~ mid z < x) l.

Lemma below_all x l : Forall (fun z => mid z < x) l -> below x l = l /\ above x l = [].
Proof. intros Hl. split; [by apply filter_all|]. apply filter_none. eapply Forall_impl; [exact Hl|]. simpl. lia. Qed.
Lemma above_all x l : Forall (fun z => x <= mid z) l -> below x l = [] /\ above x l = l.
Proof.
  intros Hl. split; [apply filter_none|apply filter_all]; (eapply Forall_impl; [exact Hl|]); simpl; lia.
Qed.
Lemma below_above_node x l z r : below x (l ++ z :: r) = below x l ++ below x [z] ++ below x r /\ above x (l ++ z :: r) = above x l ++ above x [z] ++ above x r.
Proof. unfold below, above. rewrite !filter_app, (filter_cons _ z r), (filter_cons _ z r). rewrite !(filter_cons _ z []). split; case_decide; done. Qed.

Lemma below_left y p n m l r x : wf (Node y p n m l r) -> m <= x -> below x (inorder l) = inorder l /\ above x (inorder l) = [].
Proof. intros (_&_&_&Hl&_)%wf_node Hm. apply below_all, (ids_Forall (fun z => z < x)). intros z Hz. specialize (Hl z Hz). lia. Qed.
Lemma above_right y p n m l r x : wf (Node y p n m l r) -> x <= m -> below x (inorder r) = [] /\ above x (inorder r) = inorder r.
Proof. intros (_&_&_&_&Hr)%wf_node Hm. apply above_all, (ids_Forall (fun z => x <= z)). intros z Hz. specialize (Hr z Hz). lia. Qed.

Lemma one_below x z : mid z < x -> below x [z] = [z] /\ above x [z] = [].
Proof. intros. by apply below_all, Forall_singleton. Qed.
Lemma one_above x z : x <= mid z -> below x [z] = [] /\ above x [z] = [z].
Proof. intros. by apply above_all, Forall_singleton. Qed.

Lemma split_spec x t : wf t -> forall a b, split x t = (a, b) -> inorder a = below x (inorder t) /\ inorder b = above x (inorder t).
Proof.
  induction t as [|y p n m l IHl r IHr]; intros Hwf a b Hs; simpl in Hs; [by simplify_eq|].
  pose proof (wf_node _ _ _ _ _ _ Hwf) as (Hwl&Hwr&_). cbn [inorder]. destruct (below_above_node x (inorder l) (M m p n) (inorder r)) as [-> ->].
  destruct (m <? x) eqn:E; zbool.
  - destruct (split x r) as [a' b'] eqn:Er. simplify_eq. destruct (IHr Hwr _ _ eq_refl) as [Ha Hb].
    destruct (below_left _ _ _ _ _ _ x Hwf) as [-> ->]; [lia|]. destruct (one_below x (M m p n)) as [-> ->]; [done|]. cbn [inorder]. rewrite Ha, Hb. done.
  - destruct (split x l) as [a' b'] eqn:El. simplify_eq. destruct (IHl Hwl _ _ eq_refl) as [Ha Hb].
    destruct (above_right _ _ _ _ _ _ x Hwf) as [-> ->]; [lia|]. destruct (one_above x (M m p n)) as [-> ->]; [done|]. cbn [inorder]. rewrite Ha, Hb. simpl. by rewrite app_nil_r.
Qed.

Definition new_node (x y : Z) (hp hn : bool) (cur : tree) : tree := let '(l, r) := split x cur in Node y hp hn x l r.

Lemma insert_spec x y hp hn t : wf t -> x ∉ ids t -> exists v, insert_place x y t = Ok v /\
  inorder (at_place (new_node x y hp hn) v t) = below x (inorder t) ++ M x hp hn :: above x (inorder t).
Proof.
  induction t as [|y0 p n m l IHl r IHr]; intros Hwf Hx; [by exists []|].
  pose proof (wf_node _ _ _ _ _ _ Hwf) as (Hwl&Hwr&_). rewrite ids_node, elem_of_app, elem_of_cons in Hx. cbn [insert_place].
  destruct (y <=? y0) eqn:Ey; zbool.
  - destruct (below_above_node x (inorder l) (M m p n) (inorder r)) as [Eb Ea]. cbn [inorder]. destruct (m <? x) eqn:E; zbool.
    + destruct IHr as (v&->&Hv); [done|tauto|]. exists (Fwd :: v). split; [done|]. cbn [at_place inorder]. rewrite Hv, Eb, Ea.
      destruct (below_left _ _ _ _ _ _ x Hwf) as [-> ->]; [lia|]. destruct (one_below x (M m p n)) as [-> ->]; [done|]. simpl. by rewrite <- app_assoc.
    + rewrite (proj2 (Z.eqb_neq m x)) by (intros ->; tauto). destruct IHl as (v&->&Hv); [done|tauto|]. exists (Bwd :: v). split; [done|].
      cbn [at_place inorder]. rewrite Hv, Eb, Ea. destruct (above_right _ _ _ _ _ _ x Hwf) as [-> ->]; [lia|]. destruct (one_above x (M m p n)) as [-> ->]; [done|]. simpl. rewrite app_nil_r. by rewrite <- app_assoc.
  - exists []. split; [done|]. cbn [at_place]. unfold new_node. destruct (split x (Node y0 p n m l r)) as [a b] eqn:Es.
    destruct (split_spec x _ Hwf _ _ Es) as [Ha Hb]. cbn [inorder]. by rewrite Ha, Hb.
Qed.

Lemma merge_inorder l : forall r, inorder (merge l r) = inorder l ++ inorder r.
Proof.
  induction l as [|ly lp ln lm ll IHll lr IHlr]; intros r; [by destruct r|]. induction r as [|ry rp rn rm rl IHrl rr IHrr].
  - simpl. by rewrite app_nil_r.
  - cbn [merge]. destruct (ly <? ry).
    + change (inorder (merge (Node ly lp ln lm ll lr) rl) ++ M rm rp rn :: inorder rr =
        inorder (Node ly lp ln lm ll lr) ++ inorder rl ++ M rm rp rn :: inorder rr). by rewrite IHrl, <- app_assoc.
    + cbn [inorder]. rewrite IHlr. by rewrite <- app_assoc.
Qed.

Definition without (x : Z) (l : list msg) : list msg := filter (fun z => mid z <> x) l.

Definition join (cur : tree) : tree := merge (child Bwd cur) (child Fwd cur).

Lemma without_all x t : x ∉ ids t -> without x (inorder t) = inorder t.
Proof. intros Hx. apply filter_all, (ids_Forall (fun z => z <> x)). by intros z Hz ->. Qed.

Lemma erase_spec x t : wf t -> x ∈ ids t -> exists v, erase_place x t = Ok v /\ inorder (at_place join v t) = without x (inorder t).
Proof.
  induction t as [|y0 p n m l IHl r IHr]; intros Hwf Hx; [by apply elem_of_nil in Hx|].
  pose proof (wf_node _ _ _ _ _ _ Hwf) as (Hwl&Hwr&_&Hl&Hr). pose proof (NoDup_node _ _ _ _ _ _ (wf_NoDup _ Hwf)) as (_&_&Hml&Hmr&Hlr).
  rewrite ids_node, elem_of_app, elem_of_cons in Hx. cbn [erase_place inorder]. unfold without. rewrite filter_app. fold (without x (inorder l)).
  destruct (m <? x) eqn:E1; zbool; [|destruct (x <? m) eqn:E2; zbool].
  - assert (x ∈ ids r) as Hxr by (destruct Hx as [Hx|[Hx|]]; [specialize (Hl _ Hx); lia|lia|done]). destruct IHr as (v&->&Hv); [done..|].
    exists (Fwd :: v). split; [done|]. cbn [at_place inorder]. rewrite Hv, (without_all x l) by (intros Hn; by apply (Hlr x)).
    rewrite filter_cons_True by (simpl; lia). done.
  - assert (x ∈ ids l) as Hxl by (destruct Hx as [|[Hx|Hx]]; [done|lia|specialize (Hr _ Hx); lia]). destruct IHl as (v&->&Hv); [done..|].
    exists (Bwd :: v). split; [done|]. cbn [at_place inorder]. rewrite Hv, filter_cons_True by (simpl; lia).
    fold (without x (inorder r)). by rewrite (without_all x r) by (intros Hn; by apply (Hlr x)).
  - assert (x = m) as -> by lia. exists []. split; [done|]. cbn [at_place]. unfold join. cbn [child]. rewrite merge_inorder, filter_cons_False by (simpl; lia).
    fold (without m (inorder r)). by rewrite !without_all.
Qed.

(** ** Connections *)

(** Each message has the connection to the previous one that the previous one has to it:
    [b] is the connection before the list, [out b l] the one after it. *)
Fixpoint chain (b : bool) (l : list msg) : Prop :=
  match l with
  | [] => True
  | z :: l => prev z = b /\ chain (next z) l
  end.
Fixpoint out (b : bool) (l : list msg) : bool :=
  match l with
  | [] => b
  | z :: l => out (next z) l
  end.
Definition links (l : list msg) : Prop := chain false l /\ out false l = false.

Lemma chain_app b l1 l2 : chain b (l1 ++ l2) <-> chain b l1 /\ chain (out b l1) l2.
Proof. revert b. induction l1 as [|z l1 IH]; intros b; simpl; [tauto|]. rewrite IH. tauto. Qed.
Lemma out_app b l1 l2 : out b (l1 ++ l2) = out (out b l1) l2.
Proof. revert b. induction l1 as [|z l1 IH]; intros b; simpl; [done|]. apply IH. Qed.
Lemma out_snoc b l z : out b (l ++ [z]) = next z.
Proof. by rewrite out_app. Qed.

Lemma links_at k1 z k2 : links (k1 ++ z :: k2) ->
  chain false k1 /\ prev z = out false k1 /\ chain (next z) k2 /\ out (next z) k2 = false.
Proof. intros [Hc Ho]. rewrite chain_app in Hc. rewrite out_app in Ho. simpl in *. tauto. Qed.

(** ** The heap *)
Definition prio (x : Z) : Z := s32 (MessageIdHash x).

Fixpoint heap (b : Z) (t : tree) : Prop :=
  match t with
  | Leaf => True
  | Node y _ _ m l r => y <= b /\ y = prio m /\ heap y l /\ heap y r
  end.

Lemma heap_le a b t : a <= b -> heap a t -> heap b t.
Proof. destruct t; simpl; [done|]. intros ? (?&?&?&?). split_and!; auto. lia. Qed.

Lemma heap_shape t t' b : same_shape t t' -> heap b t' -> heap b t.
Proof.
  revert t' b. induction t as [|y p n m l IHl r IHr]; intros [] b H; simpl in H; try done. destruct H as (->&->&Hl&Hr). simpl.
  intros (?&?&?&?). split_and!; eauto.
Qed.

Lemma heap_split x t b : heap b t -> heap b (split x t).1 /\ heap b (split x t).2.
Proof.
  revert b. induction t as [|y p n m l IHl r IHr]; intros b Hh; simpl; [done|]. destruct Hh as (?&?&Hl&Hr). case_if.
  - specialize (IHr _ Hr). destruct (split x r). simpl in *. destruct IHr as [Ha Hb]. split; [by split_and!|]. by eapply heap_le; [|exact Hb].
  - specialize (IHl _ Hl). destruct (split x l). simpl in *. destruct IHl as [Ha Hb]. split; [|by split_and!]. by eapply heap_le; [|exact Ha].
Qed.

Lemma heap_insert x hp hn t b v : heap b t -> prio x <= b -> insert_place x (prio x) t = Ok v -> heap b (at_place (new_node x (prio x) hp hn) v t).
Proof.
  revert b v. induction t as [|y p n m l IHl r IHr]; intros b v Hh Hb Hv; cbn [insert_place] in Hv; [by injection Hv as <-|].
  destruct Hh as (Hy&Hp&Hl&Hr). destruct (prio x <=? y) eqn:E; zbool.
  - destruct (m <? x) eqn:E1; [|destruct (m =? x) eqn:E2; [done|]].
    + destruct (insert_place x (prio x) r) as [v'| |] eqn:Ev; try done. injection Hv as <-. cbn [at_place heap]. split_and!; auto.
    + destruct (insert_place x (prio x) l) as [v'| |] eqn:Ev; try done. injection Hv as <-. cbn [at_place heap]. split_and!; auto.
  - injection Hv as <-. cbn [at_place]. unfold new_node.
    destruct (heap_split x (Node y p n m l r) (prio x)) as [Ha Hb']; [simpl; split_and!; auto; lia|]. destruct (split x _). simpl in *. split_and!; auto.
Qed.

Lemma heap_merge l : forall r b, heap b l -> heap b r -> heap b (merge l r).
Proof.
  induction l as [|ly lp ln lm ll IHll lr IHlr]; intros r b Hl Hr; [by destruct r|]. revert b Hl Hr.
  induction r as [|ry rp rn rm rl IHrl rr IHrr]; intros b Hl Hr; [done|]. cbn [merge]. destruct Hl as (Hl1&Hl2&Hl3&Hl4), Hr as (Hr1&Hr2&Hr3&Hr4).
  destruct (ly <? ry) eqn:E; zbool.
  - split_and!; auto. apply (IHrl ry); [|done]. simpl. split_and!; auto. lia.
  - split_and!; auto. apply IHlr; [done|]. simpl. split_and!; auto.
Qed.

Lemma heap_erase x t b v : heap b t -> erase_place x t = Ok v -> heap b (at_place join v t).
Proof.
  revert b v. induction t as [|y p n m l IHl r IHr]; intros b v Hh Hv; cbn [erase_place] in Hv; [done|].
  destruct Hh as (Hy&Hp&Hl&Hr). destruct (m <? x); [|destruct (x <? m)].
  - destruct (erase_place x r) as [v'| |] eqn:Ev; try done. injection Hv as <-. cbn [at_place heap]. split_and!; auto.
  - destruct (erase_place x l) as [v'| |] eqn:Ev; try done. injection Hv as <-. cbn [at_place heap]. split_and!; auto.
  - injection Hv as <-. cbn [at_place]. unfold join. cbn [child]. apply heap_merge; by eapply heap_le.
Qed.

(** ** The invariant *)
Record inv (t : tree) : Prop := { inv_wf : wf t; inv_links : links (inorder t); inv_heap : heap (2 ^ 31) t }.

Lemma prio_bound x : prio x <= 2 ^ 31.
Proof. pose proof (s32_range (MessageIdHash x)) as H. unfold is_s32 in H. unfold prio. lia. Qed.

(** ** Around an identifier *)
Lemma below_above t x : wf t -> inorder t = below x (inorder t) ++ above x (inorder t).
Proof.
  induction t as [|y p n m l IHl r IHr]; intros Hwf; [done|]. pose proof (wf_node _ _ _ _ _ _ Hwf) as (Hwl&Hwr&_). cbn [inorder].
  destruct (below_above_node x (inorder l) (M m p n) (inorder r)) as [-> ->]. destruct (decide (m < x)) as [Hm|Hm].
  - destruct (below_left _ _ _ _ _ _ x Hwf) as [-> ->]; [lia|]. destruct (one_below x (M m p n)) as [-> ->]; [done|].
    rewrite (IHr Hwr) at 1. simpl. by rewrite <- app_assoc.
  - destruct (above_right _ _ _ _ _ _ x Hwf) as [-> ->]; [lia|]. destruct (one_above x (M m p n)) as [-> ->]; [simpl; lia|].
    rewrite (IHl Hwl) at 1. simpl. by rewrite app_nil_r, <- app_assoc.
Qed.

Lemma cut_unique x l a b : l = a ++ b -> Forall (fun z => mid z < x) a -> Forall (fun z => x <= mid z) b -> below x l = a /\ above x l = b.
Proof.
  intros -> Ha Hb. unfold below, above. rewrite !filter_app. fold (below x a) (below x b) (above x a) (above x b).
  destruct (below_all x a Ha) as [-> ->], (above_all x b Hb) as [-> ->]. by rewrite app_nil_r.
Qed.

Lemma below_Forall x l : Forall (fun z => mid z < x) (below x l).
Proof. apply Forall_forall. intros z Hz. by apply list_elem_of_filter in Hz as [? _]. Qed.
Lemma above_Forall x l : Forall (fun z => x <= mid z) (above x l).
Proof. apply Forall_forall. intros z Hz. apply list_elem_of_filter in Hz as [? _]. lia. Qed.

Lemma upto_below x t : x ∉ ids t -> upto x (inorder t) = below x (inorder t).
Proof.
  intros Hx. assert (Forall (fun z => mid z <> x) (inorder t)) as Hne by (apply (ids_Forall (fun z => z <> x)); by intros z Hz ->).
  unfold upto, below. induction Hne as [|z l Hz Hne IH]; [done|]. rewrite !filter_cons, IH. repeat case_decide; (done || lia).
Qed.

Lemma next_message_spec t x best : wf t -> ordinary x ->
  next_message t x best = Ok (match head (above x (inorder t)) with Some z => Some (mid z) | None => best end).
Proof.
  intros Hwf Hx. revert best. induction t as [|y p n m l IHl r IHr]; intros best; [done|]. pose proof (wf_node _ _ _ _ _ _ Hwf) as (Hwl&Hwr&Hom&_).
  cbn [next_message inorder]. rewrite lt_ordinary by done. cbn [res_bind]. destruct (below_above_node x (inorder l) (M m p n) (inorder r)) as [_ ->].
  destruct (m <? x) eqn:E; zbool.
  - destruct (below_left _ _ _ _ _ _ x Hwf) as [_ ->]; [lia|]. destruct (one_below x (M m p n)) as [_ ->]; [done|]. by rewrite IHr.
  - destruct (one_above x (M m p n)) as [_ ->]; [done|]. rewrite IHl by done. by destruct (above x (inorder l)).
Qed.

(** ** Insertion *)
Definition on_last (f : msg -> msg) (l : list msg) : list msg := match last l with Some z => removelast l ++ [f z] | None => l end.
Definition on_head (f : msg -> msg) (l : list msg) : list msg := match l with z :: l => f z :: l | [] => [] end.

Lemma on_last_snoc f l z : on_last f (l ++ [z]) = l ++ [f z].
Proof. unfold on_last. rewrite last_snoc. by rewrite removelast_last. Qed.

(** The new message between the messages [l1] before it and [l2] after it. *)
Definition attach_next_list (x : Z) (unsent : bool) (l1 l2 : list msg) : list msg :=
  match l2 with
  | _ :: _ => if unsent then l1 ++ M x false false :: l2 else l1 ++ M x false true :: on_head (with_flag Bwd true) l2
  | [] => l1 ++ [M x false false]
  end.
Definition insert_list (x : Z) (auto unsent : bool) (last_message_id : Z) (l1 l2 : list msg) : list msg :=
  if auto then
    match last l1 with
    | Some p =>
        if next p || MessageId.is_valid last_message_id && (last_message_id <=? mid p)
        then on_last (with_flag Fwd true) l1 ++ M x true (next p) :: l2
        else attach_next_list x unsent l1 l2
    | None => attach_next_list x unsent l1 l2
    end
  else
    match last l1 with
    | Some p => if next p then on_last (with_flag Fwd false) l1 ++ M x false false :: on_head (with_flag Bwd false) l2 else l1 ++ M x false false :: l2
    | None => l1 ++ M x false false :: l2
    end.

Lemma sorted_insert (x : Z) u v : StronglySorted Z.lt (u ++ v) -> Forall (fun z => z < x) u -> Forall (fun z => x < z) v -> StronglySorted Z.lt (u ++ x :: v).
Proof.
  induction u as [|a u IH]; simpl; intros Hs Hu Hv; [by constructor|]. apply StronglySorted_inv in Hs as [Hs Ha]. apply Forall_cons_inv in Hu as [Hax Hu].
  constructor; [by apply IH|]. rewrite Forall_app in *. destruct Ha. split; [done|]. constructor; done.
Qed.

Lemma elem_ids z t : z ∈ inorder t -> mid z ∈ ids t.
Proof. intros Hz. apply list_elem_of_fmap. by exists z. Qed.

Section insert.
Context (t : tree) (x : Z) (Hinv : inv t) (Hx : ordinary x) (Hfresh : x ∉ ids t).
Let l1 := below x (inorder t).
Let l2 := above x (inorder t).

Lemma around : inorder t = l1 ++ l2.
Proof. apply below_above, Hinv. Qed.

Lemma insert_finish t1 v hp hn a b : same_shape t1 t -> insert_place x (prio x) t = Ok v -> inorder t1 = a ++ b ->
  Forall (fun z => mid z < x) a -> Forall (fun z => x <= mid z) b -> links (a ++ M x hp hn :: b) ->
  let t' := at_place (new_node x (prio x) hp hn) v t1 in inorder t' = a ++ M x hp hn :: b /\ inv t'.
Proof.
  intros Hs Hv Hin Ha Hb Hl t'. pose proof (shape_wf _ _ Hs (inv_wf _ Hinv)) as Hwf.
  assert (x ∉ ids t1) as Hf by (by rewrite (shape_ids _ _ Hs)).
  destruct (insert_spec x (prio x) hp hn t1 Hwf Hf) as (v'&Ev&E). rewrite (shape_insert_place _ _ _ _ Hs), Hv in Ev. injection Ev as <-. fold t' in E.
  destruct (cut_unique x _ a b Hin Ha Hb) as [E1 E2]. rewrite E1, E2 in E. split; [done|]. split.
  - destruct Hwf as [Hso Hor]. unfold wf, ids in *. rewrite E. rewrite Hin in Hso, Hor, Hf. rewrite map_app in *. simpl. split.
    + apply sorted_insert; [done|by apply Forall_fmap|]. apply Forall_fmap. rewrite Forall_forall in Hb. apply Forall_forall. intros z Hz. simpl.
      specialize (Hb z Hz). assert (mid z <> x); [|lia]. intros <-. apply Hf, elem_of_app. right. apply list_elem_of_fmap. by exists z.
    + rewrite Forall_app, Forall_cons in *. destruct Hor. by split_and!.
  - by rewrite E.
  - apply heap_insert; [by eapply heap_shape, Hinv|apply prio_bound|by rewrite (shape_insert_place _ _ _ _ Hs)].
Qed.

Lemma iterator_before : get_iterator t x = Ok (at_msg t (mid <$> last l1)).
Proof. rewrite get_iterator_spec by (done || apply Hinv). by rewrite upto_below. Qed.

Lemma deref_before : deref (at_msg t (mid <$> last l1)) = mid <$> last l1.
Proof.
  apply deref_at. intros y Hy. destruct (last l1) as [z|] eqn:E; simpl in Hy; simplify_eq. apply elem_ids. rewrite around, elem_of_app.
  left. by apply last_Some_elem_of.
Qed.

Lemma ordinary_elem z : z ∈ inorder t -> ordinary (mid z).
Proof.
  intros Hz. destruct (inv_wf _ Hinv) as [_ Ho]. rewrite Forall_forall in Ho. apply Ho. by apply elem_ids.
Qed.

Lemma load_elem z : z ∈ inorder t -> exists n, load (mid z) t = Ok n /\ flag Bwd n = prev z /\ flag Fwd n = next z.
Proof.
  intros Hz. destruct z as [m p n]. destruct (find_elem t m p n) as (s&Hs&?&?); [apply wf_NoDup, Hinv|done|]. exists s. unfold load. simpl. by rewrite Hs.
Qed.

(** The result of attaching, without the new message itself. *)
Definition attached (hp hn : bool) (a b : list msg) (r : Res (bool * bool * tree)) : Prop :=
  exists t1, r = Ok (hp, hn, t1) /\ same_shape t1 t /\ inorder t1 = a ++ b.

Lemma set_flag_attached d b z k1 k2 : inorder t = k1 ++ z :: k2 -> inorder (set_flag d b (mid z) t) = k1 ++ with_flag d b z :: k2.
Proof. intros E. apply set_flag_inorder; [apply wf_NoDup, Hinv|done]. Qed.

Lemma attach_to_next_spec unsent : MessageId.is_yet_unsent x = Ok unsent -> out false l1 = false ->
  exists hp hn a b, attached hp hn a b (attach_to_next x t) /\ attach_next_list x unsent l1 l2 = a ++ M x hp hn :: b /\
    map mid a = map mid l1 /\ map mid b = map mid l2.
Proof.
  intros Hu Ho. unfold attach_to_next. rewrite Hu. cbn [res_bind]. rewrite next_message_spec by (done || apply Hinv). fold l2. cbn [res_bind].
  pose proof around as E. destruct l2 as [|z l2'] eqn:El2.
  - exists false, false, l1, []. destruct unsent; (split; [by exists t|done]).
  - destruct unsent; cbn [negb head].
    + exists false, false, l1, (z :: l2'). split; [by exists t|done].
    + destruct (load_elem z) as (n&->&Hp&_); [rewrite E; set_solver|]. cbn [res_bind]. rewrite Hp.
      assert (prev z = false) as ->. { pose proof (inv_links _ Hinv) as Hl. rewrite E in Hl. apply links_at in Hl as (_&Hl&_). congruence. }
      exists false, true, l1, (with_flag Bwd true z :: l2'). split; [|done].
      eexists. split; [done|]. split; [apply set_flag_shape|by apply set_flag_attached].
Qed.

Lemma auto_attach_spec unsent last_id : MessageId.is_yet_unsent x = Ok unsent ->
  exists hp hn a b, attached hp hn a b (auto_attach_message x last_id t) /\ insert_list x true unsent last_id l1 l2 = a ++ M x hp hn :: b /\
    map mid a = map mid l1 /\ map mid b = map mid l2.
Proof.
  intros Hu. unfold auto_attach_message, insert_list. rewrite iterator_before. cbn [res_bind]. rewrite deref_before.
  pose proof around as E. pose proof (below_Forall x (inorder t)) as Hlt. fold l1 in Hlt.
  destruct (last l1) as [p|] eqn:El; cbn [fmap option_fmap option_map].
  2: { apply attach_to_next_spec; [done|]. by apply last_None in El as ->. }
  apply last_Some in El as [k Ek]. rewrite Ek in Hlt, E. apply Forall_app in Hlt as [_ Hlt]. apply Forall_cons_inv in Hlt as [Hlt _]. rewrite <- app_assoc in E. simpl in E.
  assert (p ∈ inorder t) as Hin by (rewrite E; set_solver). destruct (load_elem p Hin) as (n&->&_&Hn). cbn [res_bind].
  rewrite lt_ordinary, (proj2 (Z.ltb_lt (mid p) x) Hlt) by (done || by apply ordinary_elem). cbn [res_bind]. rewrite Hn.
  assert ((if next p then Ok true else if MessageId.is_valid last_id then MessageId.ge (mid p) last_id else Ok false) =
    Ok (next p || MessageId.is_valid last_id && (last_id <=? mid p))) as ->.
  { destruct (next p); [done|]. destruct (MessageId.is_valid last_id) eqn:Ev; [|done]. rewrite ge_ordinary; [done|by apply ordinary_elem|].
    apply MessageId.is_valid_mod in Ev as [_ Ev]. unfold ordinary. rewrite MessageId.is_scheduled_mod. apply Z.leb_gt. zlia. }
  cbn [res_bind]. destruct (next p || _) eqn:Eb.
  - assert ((if MessageId.is_server x && MessageId.is_server (mid p) && next p
      then let* it := move Fwd t (at_msg t (Some (mid p))) in match deref it with Some _ => Ok tt | None => Panic "next_message != nullptr" end
      else Ok tt) = Ok tt) as ->.
    { destruct (_ && next p) eqn:Es; [|done]. apply andb_true_iff in Es as [_ Hnp]. rewrite (move_spec Fwd t k p l2) by (done || apply wf_NoDup, Hinv).
      cbn [res_bind]. pose proof (inv_links _ Hinv) as Hl. rewrite E in Hl. apply links_at in Hl as (_&_&_&Hl). rewrite Hnp in *.
      destruct l2 as [|z l2'] eqn:E2; [done|]. assert ((if flag_of Fwd p then beside Fwd k (z :: l2') else None) = Some (mid z)) as -> by (simpl; by rewrite Hnp).
      rewrite deref_at; [done|]. intros ? [= <-]. apply elem_ids. rewrite E. set_solver. }
    cbn [res_bind]. exists true, (next p), (k ++ [with_flag Fwd true p]), l2. split_and!.
    + eexists. split; [done|]. split; [apply set_flag_shape|]. rewrite (set_flag_attached Fwd true p k l2 E). by rewrite <- app_assoc.
    + by rewrite Ek, on_last_snoc.
    + rewrite Ek, !map_app. done.
    + done.
  - apply attach_to_next_spec; [done|]. rewrite Ek, out_snoc. by destruct (next p).
Qed.

Lemma drop_connection_spec : exists a b t1, drop_connection x t = Ok t1 /\ same_shape t1 t /\ inorder t1 = a ++ b /\
  (forall unsent last_id, insert_list x false unsent last_id l1 l2 = a ++ M x false false :: b) /\ map mid a = map mid l1 /\ map mid b = map mid l2.
Proof.
  unfold drop_connection, insert_list. rewrite iterator_before. cbn [res_bind]. rewrite deref_before.
  pose proof around as E. pose proof (below_Forall x (inorder t)) as Hlt. fold l1 in Hlt. pose proof (above_Forall x (inorder t)) as Hgt. fold l2 in Hgt.
  destruct (last l1) as [p|] eqn:El; cbn [fmap option_fmap option_map]; [|by exists l1, l2, t].
  apply last_Some in El as [k Ek]. rewrite Ek in Hlt, E. apply Forall_app in Hlt as [_ Hlt]. apply Forall_cons_inv in Hlt as [Hlt _]. rewrite <- app_assoc in E. simpl in E.
  assert (p ∈ inorder t) as Hin by (rewrite E; set_solver). destruct (load_elem p Hin) as (n&->&_&Hn). cbn [res_bind]. rewrite Hn.
  destruct (next p) eqn:Hnp; [|exists l1, l2, t; split_and!; [done..|by apply around|done|done|done]].
  rewrite lt_ordinary, (proj2 (Z.ltb_lt (mid p) x) Hlt) by (done || by apply ordinary_elem). cbn [res_bind].
  rewrite (move_spec Fwd t k p l2) by (done || apply wf_NoDup, Hinv). cbn [res_bind].
  pose proof (inv_links _ Hinv) as Hl. rewrite E in Hl. apply links_at in Hl as (_&_&_&Hl). rewrite Hnp in *.
  destruct l2 as [|z l2'] eqn:E2; [done|]. assert ((if flag_of Fwd p then beside Fwd k (z :: l2') else None) = Some (mid z)) as -> by (simpl; by rewrite Hnp).
  assert (z ∈ inorder t) as Hz by (rewrite E; set_solver). rewrite deref_at by (intros ? [= <-]; by apply elem_ids).
  apply Forall_cons_inv in Hgt as [Hgt _]. assert (x <> mid z) as Hne by (intros ->; by apply Hfresh, elem_ids).
  rewrite gt_ordinary, (proj2 (Z.ltb_lt x (mid z))) by (lia || done || by apply ordinary_elem). cbn [res_bind].
  exists (k ++ [with_flag Fwd false p]), (with_flag Bwd false z :: l2'). eexists. split_and!; [done| | | |by rewrite Ek, !map_app|done].
  - etrans; apply set_flag_shape.
  - assert (inorder t = (k ++ [p]) ++ z :: l2') as E' by (rewrite E; by rewrite <- app_assoc).
    pose proof (set_flag_attached Bwd false z _ _ E') as E3. rewrite <- app_assoc in E3. simpl in E3.
    rewrite <- app_assoc. apply set_flag_inorder; [|done]. rewrite (shape_ids _ _ (set_flag_shape _ _ _ _)). apply wf_NoDup, Hinv.
  - intros _ _. by rewrite Ek, on_last_snoc.
Qed.

(** The new message takes over or cuts the connections around it. *)
Lemma insert_list_links auto unsent last_id : links (insert_list x auto unsent last_id l1 l2).
Proof.
  pose proof (inv_links _ Hinv) as [Hc Ho]. rewrite around in Hc, Ho. rewrite chain_app in Hc. rewrite out_app in Ho. destruct Hc as [Hc1 Hc2].
  assert (out false l1 = false -> links (attach_next_list x unsent l1 l2)) as Hnext.
  { intros Hl1. rewrite Hl1 in *. unfold attach_next_list, links. destruct l2 as [|z l2']; [|simpl in Hc2; destruct unsent]; rewrite chain_app, out_app, Hl1; simpl in *; tauto. }
  unfold insert_list. destruct (last l1) as [p|] eqn:El.
  - apply last_Some in El as [k Ek]. rewrite Ek in *. rewrite out_snoc in *. rewrite chain_app in Hc1. simpl in Hc1.
    destruct auto; [destruct (next p || _) eqn:Eb|destruct (next p) eqn:En].
    + rewrite on_last_snoc. unfold links. rewrite <- app_assoc. rewrite chain_app, out_app. simpl. tauto.
    + apply Hnext. by destruct (next p).
    + rewrite on_last_snoc. unfold links. rewrite <- app_assoc. rewrite chain_app, out_app. simpl.
      destruct l2 as [|z l2']; simpl in *; [done|tauto].
    + unfold links. rewrite <- app_assoc. rewrite chain_app, out_app. simpl. rewrite En. tauto.
  - apply last_None in El. rewrite El in *. destruct auto; [by apply Hnext|]. unfold links. simpl in *. tauto.
Qed.

Lemma insert_ok auto unsent last_id : (auto = true -> MessageId.is_yet_unsent x = Ok unsent) ->
  exists t', insert x auto last_id t = Ok t' /\ inv t' /\ inorder t' = insert_list x auto unsent last_id l1 l2.
Proof.
  intros Hu. unfold insert. fold (prio x). destruct (insert_spec x (prio x) false false t (inv_wf _ Hinv) Hfresh) as (v&Hv&_). rewrite Hv. cbn [res_bind].
  assert (exists hp hn a b t1, (if auto then auto_attach_message x last_id t else let* t := drop_connection x t in Ok (false, false, t)) = Ok (hp, hn, t1) /\
    same_shape t1 t /\ inorder t1 = a ++ b /\ insert_list x auto unsent last_id l1 l2 = a ++ M x hp hn :: b /\ map mid a = map mid l1 /\ map mid b = map mid l2)
    as (hp&hn&a&b&t1&->&Hs&E&El&Ea&Eb).
  { destruct auto.
    - destruct (auto_attach_spec unsent last_id (Hu eq_refl)) as (hp&hn&a&b&(t1&->&Hs&E)&El&Ea&Eb). by exists hp, hn, a, b, t1.
    - destruct drop_connection_spec as (a&b&t1&->&Hs&E&El&Ea&Eb). exists false, false, a, b, t1. split_and!; auto. }
  cbn [res_bind]. fold (new_node x (prio x) hp hn). eexists. split; [reflexivity|].
  destruct (insert_finish t1 v hp hn a b Hs Hv E) as [Ein Hi].
  - apply (proj1 (Forall_fmap mid (fun z => z < x) a)). change (Forall (fun z => z < x) (map mid a)). rewrite Ea. apply Forall_fmap, below_Forall.
  - apply (proj1 (Forall_fmap mid (fun z => x <= z) b)). change (Forall (fun z => x <= z) (map mid b)). rewrite Eb. apply Forall_fmap, above_Forall.
  - rewrite <- El. apply insert_list_links.
  - split; [exact Hi|]. by rewrite El.
Qed.
End insert.

(** ** Removal *)
Section at_message.
Context (t : tree) (k1 : list msg) (z : msg) (k2 : list msg) (Hwf : wf t) (E : inorder t = k1 ++ z :: k2).

Lemma sides : Forall (fun y => mid y < mid z) k1 /\ Forall (fun y => mid z < mid y) k2.
Proof.
  destruct Hwf as [Hs _]. unfold ids in Hs. rewrite E, map_app in Hs. simpl in Hs. apply sorted_app_inv in Hs as (_&Hs&Hlt).
  apply StronglySorted_inv in Hs as [_ Hz]. split.
  - apply Forall_forall. intros y Hy. apply Hlt; [apply list_elem_of_fmap; by exists y|by left].
  - exact (proj1 (Forall_fmap mid (fun y => mid z < y) k2) Hz).
Qed.

Lemma ordinary_at y : y ∈ inorder t -> ordinary (mid y).
Proof. intros Hy. destruct Hwf as [_ Ho]. rewrite Forall_forall in Ho. apply Ho. by apply elem_ids. Qed.

Lemma iterator_at : get_iterator t (mid z) = Ok (at_msg t (Some (mid z))).
Proof.
  destruct sides as [H1 H2]. rewrite get_iterator_spec by (done || apply ordinary_at; rewrite E; set_solver). do 2 f_equal. rewrite E, upto_app.
  unfold upto at 2. rewrite filter_cons_True by lia. fold (upto (mid z) k2). rewrite (upto_none (mid z) k2) by done. by rewrite last_snoc.
Qed.

Lemma deref_here : deref (at_msg t (Some (mid z))) = Some (mid z).
Proof. apply deref_at. intros ? [= <-]. apply elem_ids. rewrite E. set_solver. Qed.

Lemma load_at y : y ∈ inorder t -> exists n, load (mid y) t = Ok n /\ flag Bwd n = prev y /\ flag Fwd n = next y.
Proof.
  intros Hy. destruct y as [m p n]. destruct (find_elem t m p n) as (s&Hs&?&?); [by apply wf_NoDup|done|]. exists s. unfold load. simpl. by rewrite Hs.
Qed.

(** The messages with a flag of the neighbour of [z] changed. *)
Definition on_neighbour (d : dir) (f : msg -> msg) : list msg := match d with Fwd => k1 ++ z :: on_head f k2 | Bwd => on_last f k1 ++ z :: k2 end.

(** The neighbour of [z], and a write to one of its flags. *)
Lemma neighbour_of d : (match d with Fwd => k2 | Bwd => k1 end) <> [] ->
  exists w, beside d k1 k2 = Some (mid w) /\ w ∈ inorder t /\ (match d with Fwd => head k2 | Bwd => last k1 end) = Some w /\
    forall d' b, inorder (set_flag d' b (mid w) t) = on_neighbour d (with_flag d' b).
Proof.
  intros Hne. destruct d; unfold beside, on_neighbour.
  - destruct k2 as [|w k2']; [done|]. exists w. split_and!; [done|rewrite E; set_solver|done|]. intros d' b. simpl.
    replace (k1 ++ z :: with_flag d' b w :: k2') with ((k1 ++ [z]) ++ with_flag d' b w :: k2') by (by rewrite <- app_assoc).
    apply set_flag_inorder; [by apply wf_NoDup|]. rewrite E. by rewrite <- app_assoc.
  - destruct (last k1) as [w|] eqn:Ew; [|by apply last_None in Ew]. apply last_Some in Ew as [k Ek]. exists w.
    split_and!; [done|rewrite E, Ek; set_solver|done|]. intros d' b. rewrite Ek, on_last_snoc, <- app_assoc. simpl.
    apply set_flag_inorder; [by apply wf_NoDup|]. rewrite E, Ek. by rewrite <- app_assoc.
Qed.

Lemma detach_spec d : flag_of d z = true -> (match d with Fwd => k2 | Bwd => k1 end) <> [] ->
  exists t1, detach d (mid z) t = Ok t1 /\ same_shape t1 t /\ inorder t1 = on_neighbour d (with_flag (opp d) false).
Proof.
  intros Hf Hne. destruct (neighbour_of d Hne) as (w&Hw&Hin&_&Hset). unfold detach. rewrite iterator_at. cbn [res_bind]. rewrite deref_here, bool_decide_true by done.
  rewrite (move_spec d t k1 z k2) by (done || by apply wf_NoDup). rewrite Hf, Hw. cbn [res_bind]. rewrite deref_at by (intros ? [= <-]; by apply elem_ids).
  eexists. split; [done|]. split; [apply set_flag_shape|apply Hset].
Qed.
End at_message.

(** The rest of the messages when [z] is removed. *)
Definition erase_list (only_from_memory : bool) (k1 : list msg) (z : msg) (k2 : list msg) : list msg :=
  (if prev z && (only_from_memory || negb (next z)) then on_last (with_flag Fwd false) k1 else k1) ++
  (if next z && (only_from_memory || negb (prev z)) then on_head (with_flag Bwd false) k2 else k2).

Lemma linked_sides k1 z k2 : links (k1 ++ z :: k2) -> (prev z = true -> k1 <> []) /\ (next z = true -> k2 <> []).
Proof.
  intros (_&Hp&_&Ho)%links_at. split.
  - intros Hz ->. simpl in Hp. congruence.
  - intros Hz ->. simpl in Ho. congruence.
Qed.

Lemma erase_list_links b k1 z k2 : links (k1 ++ z :: k2) -> links (erase_list b k1 z k2).
Proof.
  intros Hl. destruct (linked_sides _ _ _ Hl) as [Hs1 Hs2]. apply links_at in Hl as (Hc1&Hp&Hc2&Ho). unfold erase_list, links.
  assert (chain false (on_last (with_flag Fwd false) k1) /\ out false (on_last (with_flag Fwd false) k1) = false) as [Hl1 Hl2].
  { destruct k1 as [|w k _] using rev_ind; [done|]. rewrite on_last_snoc, out_snoc, chain_app. rewrite chain_app in Hc1. simpl in *. tauto. }
  assert (chain false (on_head (with_flag Bwd false) k2) /\ (next z = true -> out false (on_head (with_flag Bwd false) k2) = out (next z) k2)) as [Hh1 Hh2].
  { destruct k2 as [|w k]; [split; [done|]; intros Hz; by destruct (Hs2 Hz)|]. simpl in *. tauto. }
  rewrite chain_app, out_app. destruct (prev z) eqn:Ep, (next z) eqn:En, b; simpl; rewrite <- ?Hp, ?Hl2; try tauto; try (rewrite Hh2 by done; tauto).
Qed.

Lemma wf_sub t t' : wf t -> ids t' `sublist_of` ids t -> wf t'.
Proof.
  intros [Hs Ho] Hsub. split; [by eapply StronglySorted_sublist|]. rewrite Forall_forall in *. intros x Hx. apply Ho.
  by eapply elem_of_submseteq, sublist_submseteq.
Qed.

Lemma without_mid z a b : Forall (fun y => mid y <> mid z) a -> Forall (fun y => mid y <> mid z) b -> without (mid z) (a ++ z :: b) = a ++ b.
Proof.
  intros Ha Hb. unfold without. rewrite filter_app, filter_cons_False by (intros H; by apply H). f_equal; by apply filter_all.
Qed.

Lemma erase_ok t b k1 z k2 : inv t -> inorder t = k1 ++ z :: k2 ->
  exists t', erase (mid z) b t = Ok t' /\ inv t' /\ inorder t' = erase_list b k1 z k2.
Proof.
  intros Hinv E. pose proof (inv_wf _ Hinv) as Hwf. pose proof (inv_links _ Hinv) as Hl. rewrite E in Hl.
  destruct (linked_sides _ _ _ Hl) as [Hs1 Hs2]. unfold erase.
  destruct (erase_spec (mid z) t Hwf) as (v&Hv&_); [apply elem_ids; rewrite E; set_solver|]. rewrite Hv. cbn [res_bind].
  destruct (load_at t Hwf z) as (n&->&Hp&Hn); [rewrite E; set_solver|]. cbn [res_bind]. rewrite Hp, Hn.
  set (a := if prev z && (b || negb (next z)) then on_last (with_flag Fwd false) k1 else k1).
  assert (exists t1, (if prev z && (b || negb (next z)) then detach Bwd (mid z) t else Ok t) = Ok t1 /\ same_shape t1 t /\ inorder t1 = a ++ z :: k2)
    as (t1&->&Hsh1&E1).
  { unfold a. destruct (prev z && _) eqn:Eb; [|by exists t]. apply andb_true_iff in Eb as [Ez _].
    exact (detach_spec t k1 z k2 Hwf E Bwd Ez (Hs1 Ez)). }
  cbn [res_bind]. pose proof (shape_wf _ _ Hsh1 Hwf) as Hwf1.
  set (c := if next z && (b || negb (prev z)) then on_head (with_flag Bwd false) k2 else k2).
  assert (exists t2, (if next z && (b || negb (prev z)) then detach Fwd (mid z) t1 else Ok t1) = Ok t2 /\ same_shape t2 t1 /\ inorder t2 = a ++ z :: c)
    as (t2&->&Hsh2&E2).
  { unfold c. destruct (next z && _) eqn:Eb; [|by exists t1]. apply andb_true_iff in Eb as [Ez _].
    exact (detach_spec t1 a z k2 Hwf1 E1 Fwd Ez (Hs2 Ez)). }
  cbn [res_bind]. fold join. assert (same_shape t2 t) as Hsh by (by etrans). pose proof (shape_wf _ _ Hsh Hwf) as Hwf2.
  destruct (erase_spec (mid z) t2 Hwf2) as (v'&Hv'&E3); [apply elem_ids; rewrite E2; set_solver|].
  rewrite (shape_erase_place _ _ _ Hsh), Hv in Hv'. injection Hv' as <-.
  destruct (sides t2 a z c Hwf2 E2) as [Ha Hc].
  rewrite E2, without_mid in E3 by (eapply Forall_impl; [eassumption|]; simpl; lia).
  eexists. split; [reflexivity|]. split; [|exact E3]. split.
  - apply (wf_sub t2); [done|]. unfold ids. change (at_place (fun cur => merge (child Bwd cur) (child Fwd cur)) v t2) with (at_place join v t2).
    rewrite E3, E2, !map_app. simpl. apply sublist_app; [done|]. by apply sublist_cons.
  - change (links (inorder (at_place join v t2))). rewrite E3. by apply erase_list_links.
  - apply (heap_erase (mid z)); [by eapply heap_shape, Hinv|by rewrite (shape_erase_place _ _ _ Hsh)].
Qed.

(** ** Attaching *)
Definition attach_list (d : dir) (k1 : list msg) (z : msg) (k2 : list msg) : list msg :=
  if flag_of d z then k1 ++ z :: k2
  else match d with
  | Fwd => k1 ++ with_flag Fwd true z :: on_head (with_flag Bwd true) k2
  | Bwd => on_last (with_flag Fwd true) k1 ++ with_flag Bwd true z :: k2
  end.

Lemma attach_list_links d k1 z k2 : links (k1 ++ z :: k2) -> (match d with Fwd => k2 | Bwd => k1 end) <> [] -> links (attach_list d k1 z k2).
Proof.
  intros Hl Hne. unfold attach_list. destruct (flag_of d z) eqn:Ef; [done|]. apply links_at in Hl as (Hc1&Hp&Hc2&Ho). unfold links. destruct d; simpl in Ef.
  - destruct k2 as [|w k]; [done|]. rewrite chain_app, out_app. simpl in *. tauto.
  - destruct k1 as [|w k _] using rev_ind; [done|]. rewrite on_last_snoc, <- app_assoc, chain_app, out_app. rewrite chain_app in Hc1. simpl in *. tauto.
Qed.

Lemma attach_ok d t k1 z k2 : inv t -> inorder t = k1 ++ z :: k2 -> MessageId.is_valid (mid z) = true ->
  (flag_of d z = false -> (match d with Fwd => k2 | Bwd => k1 end) <> []) ->
  exists t', attach d (mid z) t = Ok t' /\ inv t' /\ inorder t' = attach_list d k1 z k2.
Proof.
  intros Hinv E Hv Hne. pose proof (inv_wf _ Hinv) as Hwf. pose proof (inv_links _ Hinv) as Hl. rewrite E in Hl. unfold attach. rewrite Hv.
  rewrite (iterator_at t k1 z k2 Hwf E). cbn [res_bind]. rewrite (deref_here t k1 z k2 Hwf E), Z.eqb_refl.
  destruct (load_at t Hwf z) as (n&->&Hp&Hn); [rewrite E; set_solver|]. cbn [res_bind].
  assert (flag d n = flag_of d z) as -> by (by destruct d). unfold attach_list. destruct (flag_of d z) eqn:Ef; [by exists t|]. specialize (Hne eq_refl).
  set (t1 := set_flag d true (mid z) t). set (z1 := with_flag d true z).
  assert (same_shape t1 t) as Hsh by apply set_flag_shape. assert (inorder t1 = k1 ++ z1 :: k2) as E1 by (apply set_flag_inorder; [by apply wf_NoDup|done]).
  pose proof (shape_wf _ _ Hsh Hwf) as Hwf1. rewrite <- (shape_at _ _ _ Hsh).
  assert (mid z1 = mid z) as Hz1 by (by destruct d). assert (flag_of d z1 = true) as Hz2 by (by destruct d).
  pose proof (move_spec d t1 k1 z1 k2 (wf_NoDup _ Hwf1) E1) as Hm. rewrite Hz1, Hz2 in Hm. rewrite Hm. cbn [res_bind].
  destruct (neighbour_of t1 k1 z1 k2 Hwf1 E1 d Hne) as (w&Hw&Hin&Hnb&Hset). rewrite Hw, deref_at by (intros ? [= <-]; by apply elem_ids).
  destruct (load_at t1 Hwf1 w Hin) as (n'&->&Hp'&Hn'). cbn [res_bind].
  assert (flag (opp d) n' = false) as ->.
  { apply links_at in Hl as (_&Hlp&Hlc&_). destruct d; simpl in *.
    - destruct k2; [done|]. simpl in *. injection Hnb as ->. destruct Hlc. congruence.
    - apply last_Some in Hnb as [k ->]. rewrite out_snoc in Hlp. congruence. }
  pose proof (attach_list_links d k1 z k2 Hl Hne) as Hl2. unfold attach_list in Hl2. rewrite Ef in Hl2.
  specialize (Hset (opp d) true). eexists. split; [reflexivity|].
  assert (inorder (set_flag (opp d) true (mid w) t1) = match d with
    | Fwd => k1 ++ with_flag Fwd true z :: on_head (with_flag Bwd true) k2
    | Bwd => on_last (with_flag Fwd true) k1 ++ with_flag Bwd true z :: k2 end) as E2 by (rewrite Hset; by destruct d).
  split; [|exact E2]. assert (same_shape (set_flag (opp d) true (mid w) t1) t) as Hsh2 by (etrans; [apply set_flag_shape|done]). split.
  - by eapply shape_wf.
  - by rewrite E2.
  - by eapply heap_shape, Hinv.
Qed.
