(* ===== verification/MessageHistory.v ===== *)
(** * Known messages of a chat

    The theorems on the ordered messages of td/telegram/OrderedMessage.cpp as a whole: the
    changes against the list of messages with their connections, and the queries, the
    history and the unread counters against their definitions on that list. *)
From S2P Require Import Prelude Ids OrderedMessages.
Local Open Scope td_scope.

(** ** Changes *)
Inductive op :=
  | Insert (message_id : Z) (auto_attach : bool) (old_last_message_id : Z)
  | Erase (message_id : Z) (only_from_memory : bool)
  | AttachToPrevious (message_id : Z)
  | AttachToNext (message_id : Z).

Definition op_id (o : op) : Z := match o with Insert x _ _ => x | Erase x _ => x | AttachToPrevious x => x | AttachToNext x => x end.

Definition step (o : op) (t : tree) : Res tree :=
  match o with
  | Insert x auto last => insert x auto last t
  | Erase x only => erase x only t
  | AttachToPrevious x => attach_message_to_previous x t
  | AttachToNext x => attach_message_to_next x t
  end.
Fixpoint run (ops : list op) (t : tree) : Res tree :=
  match ops with
  | [] => Ok t
  | o :: ops => let* t := step o t in run ops t
  end.

(** A message of the list between the messages before and after it. *)
Definition cut (x : Z) (l : list msg) : option (list msg * msg * list msg) :=
  match above x l with
  | z :: k2 => if mid z =? x then Some (below x l, z, k2) else None
  | [] => None
  end.
Definition unsent (x : Z) : bool := Z.land x MessageId.SHORT_TYPE_MASK =? MessageId.TYPE_YET_UNSENT.

(** The changes of the list; a message is inserted once, and only a known message is erased
    or attached, to a message that is there. *)
Definition spec_step (o : op) (l : list msg) : option (list msg) :=
  match o with
  | Insert x auto last => match cut x l with None => Some (insert_list x auto (unsent x) last (below x l) (above x l)) | Some _ => None end
  | Erase x only => match cut x l with None => None | Some (k1, z, k2) => Some (erase_list only k1 z k2) end
  | AttachToPrevious x =>
      match cut x l with
      | None => None
      | Some (k1, z, k2) => if negb (prev z) && bool_decide (k1 = []) then None else Some (attach_list Bwd k1 z k2)
      end
  | AttachToNext x =>
      match cut x l with
      | None => None
      | Some (k1, z, k2) => if negb (next z) && bool_decide (k2 = []) then None else Some (attach_list Fwd k1 z k2)
      end
  end.
Fixpoint spec_run (ops : list op) (l : list msg) : option (list msg) :=
  match ops with
  | [] => Some l
  | o :: ops => match spec_step o l with Some l => spec_run ops l | None => None end
  end.

Lemma cut_at t k1 z k2 : wf t -> inorder t = k1 ++ z :: k2 -> cut (mid z) (inorder t) = Some (k1, z, k2).
Proof.
  intros Hwf E. destruct (sides t k1 z k2 Hwf E) as [H1 H2]. unfold cut.
  destruct (cut_unique (mid z) (inorder t) k1 (z :: k2) E) as [-> ->]; [done| |by rewrite Z.eqb_refl].
  constructor; [lia|]. eapply Forall_impl; [exact H2|]. simpl. lia.
Qed.

Lemma cut_Some t x k1 z k2 : wf t -> cut x (inorder t) = Some (k1, z, k2) -> x = mid z /\ inorder t = k1 ++ z :: k2.
Proof.
  intros Hwf. unfold cut. pose proof (below_above t x Hwf) as E. destruct (above x (inorder t)) as [|w k] eqn:Ea; [done|].
  destruct (mid w =? x) eqn:Ex; [|done]. zbool. intros [= <- <- <-]. done.
Qed.

Lemma in_ids t x : x ∈ ids t -> exists k1 z k2, mid z = x /\ inorder t = k1 ++ z :: k2.
Proof. intros (z&->&Hz)%list_elem_of_fmap. apply list_elem_of_split in Hz as (k1&k2&E). eauto. Qed.

Lemma cut_None t x : wf t -> cut x (inorder t) = None <-> x ∉ ids t.
Proof.
  intros Hwf. split.
  - intros Hc Hx. apply in_ids in Hx as (k1&z&k2&<-&E). by rewrite (cut_at _ _ _ _ Hwf E) in Hc.
  - intros Hx. destruct (cut x (inorder t)) as [[[k1 z] k2]|] eqn:Ec; [|done]. apply cut_Some in Ec as [-> E]; [|done].
    destruct Hx. apply elem_ids. rewrite E. set_solver.
Qed.

(** *** The failed checks *)
Definition fails {A} (r : Res A) : Prop := exists s, r = Panic s.

Lemma bind_fails {A B} (r : Res A) (k : A -> Res B) : fails r -> fails (let* x := r in k x).
Proof. intros [s ->]. by exists s. Qed.

Lemma heap_elem x t b : heap b t -> x ∈ ids t -> prio x <= b.
Proof.
  revert b. induction t as [|y p n m l IHl r IHr]; intros b; [by intros _ ?%elem_of_nil|]. rewrite ids_node, elem_of_app, elem_of_cons. simpl.
  intros (Hy&->&Hl&Hr) [Hx|[->|Hx]]; [specialize (IHl _ Hl Hx)|done|specialize (IHr _ Hr Hx)]; lia.
Qed.

Lemma insert_known x t b : heap b t -> wf t -> x ∈ ids t -> fails (insert_place x (prio x) t).
Proof.
  revert b. induction t as [|y p n m l IHl r IHr]; intros b Hh Hwf Hx; [by apply elem_of_nil in Hx|].
  pose proof Hh as (Hy&_&Hl&Hr). pose proof (wf_node _ _ _ _ _ _ Hwf) as (Hwl&Hwr&_&Hlt&Hgt). cbn [insert_place].
  assert (prio x <= y) as Hp. { apply (heap_elem x (Node y p n m l r)); [|done]. simpl. simpl in Hh. split_and!; [lia|tauto..]. }
  rewrite (proj2 (Z.leb_le _ _) Hp). rewrite ids_node, elem_of_app, elem_of_cons in Hx. destruct (m <? x) eqn:Em; zbool.
  - apply bind_fails, (IHr y); [done..|]. destruct Hx as [Hx|[Hx|Hx]]; [|lia|done]. apply Hlt in Hx. lia.
  - destruct (m =? x) eqn:Eq; zbool; [by eexists|]. apply bind_fails, (IHl y); [done..|]. destruct Hx as [Hx|[Hx|Hx]]; [done|lia|]. apply Hgt in Hx. lia.
Qed.

Lemma erase_unknown x t : x ∉ ids t -> fails (erase_place x t).
Proof.
  induction t as [|y p n m l IHl r IHr]; [by eexists|]. rewrite ids_node, elem_of_app, elem_of_cons. intros Hx. simpl.
  destruct (m <? x) eqn:E1; zbool; [apply bind_fails, IHr; tauto|]. destruct (x <? m) eqn:E2; zbool; [apply bind_fails, IHl; tauto|].
  destruct Hx. right. left. lia.
Qed.

Lemma deref_iterator t x : deref (at_msg t (mid <$> last (upto x (inorder t)))) = mid <$> last (upto x (inorder t)).
Proof.
  apply deref_at. intros y Hy. destruct (last (upto x (inorder t))) as [w|] eqn:El; [|done]. injection Hy as <-. apply elem_ids.
  apply last_Some in El as [k Ek]. assert (w ∈ upto x (inorder t)) as Hw by (rewrite Ek; set_solver). by apply list_elem_of_filter in Hw as [_ Hw].
Qed.

Lemma attach_unknown d x t : wf t -> ordinary x -> x ∉ ids t -> fails (attach d x t).
Proof.
  intros Hwf Ho Hx. unfold attach. destruct (MessageId.is_valid x); [|by eexists]. rewrite get_iterator_spec by done. cbn [res_bind].
  rewrite deref_iterator. destruct (last (upto x (inorder t))) as [w|] eqn:El; [|by eexists]. cbn [fmap option_fmap option_map].
  rewrite (proj2 (Z.eqb_neq (mid w) x)); [by eexists|]. intros <-. apply Hx, elem_ids.
  apply last_Some in El as [k Ek]. assert (w ∈ upto (mid w) (inorder t)) as Hw by (rewrite Ek; set_solver). by apply list_elem_of_filter in Hw as [_ Hw].
Qed.

Lemma attach_alone d t k1 z k2 : wf t -> inorder t = k1 ++ z :: k2 -> flag_of d z = false -> (match d with Fwd => k2 | Bwd => k1 end) = [] -> fails (attach d (mid z) t).
Proof.
  intros Hwf E Hf Hk. unfold attach. destruct (MessageId.is_valid (mid z)); [|by eexists].
  rewrite (iterator_at t k1 z k2 Hwf E). cbn [res_bind]. rewrite (deref_here t k1 z k2 Hwf E), Z.eqb_refl.
  destruct (load_at t Hwf z) as (n&->&Hp&Hn); [rewrite E; set_solver|]. cbn [res_bind].
  assert (flag d n = false) as -> by (destruct d; simpl in *; congruence). cbv zeta.
  set (t1 := set_flag d true (mid z) t). set (z1 := with_flag d true z).
  assert (same_shape t1 t) as Hsh by apply set_flag_shape. assert (inorder t1 = k1 ++ z1 :: k2) as E1 by (apply set_flag_inorder; [by apply wf_NoDup|done]).
  pose proof (shape_wf _ _ Hsh Hwf) as Hwf1. rewrite <- (shape_at _ _ _ Hsh).
  pose proof (move_spec d t1 k1 z1 k2 (wf_NoDup _ Hwf1) E1) as Hm. replace (mid z1) with (mid z) in Hm by (by destruct d).
  replace (flag_of d z1) with true in Hm by (by destruct d). rewrite Hm. cbn [res_bind]. unfold beside. destruct d; rewrite Hk; by eexists.
Qed.

(** *** Refinement *)
Definition valid (x : Z) : Prop := MessageId.is_valid x = true.

Lemma valid_ordinary x : valid x -> ordinary x.
Proof. intros [_ Hx]%MessageId.is_valid_mod. unfold ordinary. rewrite MessageId.is_scheduled_mod. apply Z.leb_gt. zlia. Qed.
Lemma valid_unsent x : valid x -> MessageId.is_yet_unsent x = Ok (unsent x).
Proof. unfold valid, MessageId.is_yet_unsent. by intros ->. Qed.

(** The state of the known messages of a chat. *)
Record known (t : tree) (l : list msg) : Prop := { known_inv : inv t; known_list : inorder t = l; known_valid : Forall valid (map mid l) }.

Lemma mid_on_last d b l : map mid (on_last (with_flag d b) l) = map mid l.
Proof. destruct l as [|z l _] using rev_ind; [done|]. rewrite on_last_snoc, !map_app. simpl. by destruct d. Qed.
Lemma mid_on_head d b l : map mid (on_head (with_flag d b) l) = map mid l.
Proof. destruct l; [done|]. by destruct d. Qed.
Lemma mid_with d b z : mid (with_flag d b z) = mid z.
Proof. by destruct d. Qed.

Ltac mids := rewrite ?map_app, ?map_cons, ?mid_on_last, ?mid_on_head, ?mid_with.

Lemma insert_list_mid x auto u last l1 l2 : map mid (insert_list x auto u last l1 l2) = map mid l1 ++ x :: map mid l2.
Proof. unfold insert_list, attach_next_list. repeat case_match; simplify_eq; mids; done. Qed.
Lemma erase_list_mid b k1 z k2 : map mid (erase_list b k1 z k2) = map mid k1 ++ map mid k2.
Proof. unfold erase_list. repeat case_match; mids; done. Qed.
Lemma attach_list_mid d k1 z k2 : map mid (attach_list d k1 z k2) = map mid k1 ++ mid z :: map mid k2.
Proof. unfold attach_list. repeat case_match; mids; done. Qed.

Lemma map_sides {t k1 z k2} : inorder t = k1 ++ z :: k2 -> map mid (inorder t) = map mid k1 ++ mid z :: map mid k2.
Proof. intros ->. by mids. Qed.

Lemma insert_known_list t l x auto last : known t l -> valid x ->
  match spec_step (Insert x auto last) l with
  | Some l' => exists t', insert x auto last t = Ok t' /\ known t' l'
  | None => fails (insert x auto last t)
  end.
Proof.
  intros [Hi <- Hv] Hx. pose proof (inv_wf _ Hi) as Hwf. cbn [spec_step]. destruct (cut x (inorder t)) as [[[k1 z] k2]|] eqn:Ec.
  - apply cut_Some in Ec as [-> E]; [|done]. apply bind_fails, (insert_known _ _ (2 ^ 31)); [apply Hi|done|]. apply elem_ids. rewrite E. set_solver.
  - apply cut_None in Ec; [|done].
    destruct (insert_ok t x Hi (valid_ordinary _ Hx) Ec auto (unsent x) last) as (t'&E'&Hi'&El); [intros _; by apply valid_unsent|].
    exists t'. split; [done|]. split; [done..|]. rewrite insert_list_mid. rewrite (below_above t x Hwf), map_app, Forall_app in Hv. rewrite Forall_app, Forall_cons. tauto.
Qed.

Lemma erase_known_list t l x only : known t l ->
  match spec_step (Erase x only) l with
  | Some l' => exists t', erase x only t = Ok t' /\ known t' l'
  | None => fails (erase x only t)
  end.
Proof.
  intros [Hi <- Hv]. pose proof (inv_wf _ Hi) as Hwf. cbn [spec_step]. destruct (cut x (inorder t)) as [[[k1 z] k2]|] eqn:Ec.
  - apply cut_Some in Ec as [-> E]; [|done]. destruct (erase_ok t only k1 z k2 Hi E) as (t'&E'&Hi'&El). exists t'. split; [done|]. split; [done..|].
    rewrite erase_list_mid. rewrite (map_sides E), Forall_app, Forall_cons in Hv. rewrite Forall_app. tauto.
  - apply cut_None in Ec; [|done]. by apply bind_fails, erase_unknown.
Qed.

Lemma attach_known_list d t l x : known t l -> valid x ->
  match cut x l with
  | Some (k1, z, k2) =>
      if negb (flag_of d z) && bool_decide ((match d with Fwd => k2 | Bwd => k1 end) = []) then fails (attach d x t)
      else exists t', attach d x t = Ok t' /\ known t' (attach_list d k1 z k2)
  | None => fails (attach d x t)
  end.
Proof.
  intros [Hi <- Hv] Hx. pose proof (inv_wf _ Hi) as Hwf. destruct (cut x (inorder t)) as [[[k1 z] k2]|] eqn:Ec.
  - apply cut_Some in Ec as [-> E]; [|done]. destruct (flag_of d z) eqn:Ef; cbn [negb andb]; [|case_bool_decide as Ek; [by eapply attach_alone|]].
    all: destruct (attach_ok d t k1 z k2 Hi E Hx) as (t'&E'&Hi'&El); [intros ?; congruence || done|]; exists t'; (split; [done|]); (split; [done..|]);
      rewrite attach_list_mid; by rewrite <- (map_sides E).
  - apply cut_None in Ec; [|done]. apply attach_unknown; [done|by apply valid_ordinary|done].
Qed.

Lemma step_known o t l : known t l -> valid (op_id o) ->
  match spec_step o l with
  | Some l' => exists t', step o t = Ok t' /\ known t' l'
  | None => fails (step o t)
  end.
Proof.
  intros Hk Hv. destruct o as [x auto last|x only|x|x]; cbn [step op_id] in *; [by apply insert_known_list|by apply erase_known_list|..];
    cbn [spec_step]; unfold attach_message_to_previous, attach_message_to_next.
  - pose proof (attach_known_list Bwd t l x Hk Hv) as H. destruct (cut x l) as [[[k1 z] k2]|]; [|done]. cbn [flag_of] in H. by case_match.
  - pose proof (attach_known_list Fwd t l x Hk Hv) as H. destruct (cut x l) as [[[k1 z] k2]|]; [|done]. cbn [flag_of] in H. by case_match.
Qed.

Lemma known_empty : known Leaf [].
Proof. by repeat split; try constructor. Qed.

Lemma run_known ops t l : Forall (fun o => valid (op_id o)) ops -> known t l ->
  match spec_run ops l with
  | Some l' => exists t', run ops t = Ok t' /\ known t' l'
  | None => fails (run ops t)
  end.
Proof.
  intros Hops. revert t l. induction Hops as [|o ops Ho Hops IH]; intros t l Hk; simpl; [by eauto|]. pose proof (step_known o t l Hk Ho) as Hs.
  destruct (spec_step o l) as [l'|]; [|by apply bind_fails]. destruct Hs as (t'&->&Hk'). by apply IH.
Qed.

(** C17. The treap against the list: for every sequence of changes with valid message
    identifiers, either the list allows each of them (no message is inserted twice, only
    known messages are erased or attached, and attached only to a message that is there) and
    the code runs without a failed check and ends in a tree whose messages in order are
    those of the list with the same connections, which is a search tree, has its priorities
    in heap order and agrees on both ends of each connection; or the code fails a check. *)
Theorem ordered_messages_refine (ops : list op) : Forall (fun o => valid (op_id o)) ops ->
  match spec_run ops [] with
  | Some l => exists t, run ops Leaf = Ok t /\ inorder t = l /\
      StronglySorted Z.lt (ids t) /\ heap (2 ^ 31) t /\ links (inorder t)
  | None => exists s, run ops Leaf = Panic s
  end.
Proof.
  intros Hops. pose proof (run_known ops Leaf [] Hops known_empty) as H.
  destruct (spec_run ops []); [|done]. destruct H as (t&Ht&[[[Hs _] Hl Hh] E _]). by exists t.
Qed.

(** ** Queries *)
Section queries.
Context (get_message_date : Z -> Z).

Lemma filter_node (P : Z -> Prop) `{!forall x, Decision (P x)} y p n m l r :
  filter P (ids (Node y p n m l r)) = filter P (ids l) ++ filter P [m] ++ filter P (ids r).
Proof. rewrite ids_node. change (m :: ids r) with ([m] ++ ids r). by rewrite !filter_app. Qed.

Lemma filter_empty (P : Z -> Prop) `{!forall x, Decision (P x)} l : (forall x, x ∈ l -> ~ P x) -> filter P l = [].
Proof. intros HP. by apply filter_none, Forall_forall. Qed.

Lemma find_older_spec t x acc : wf t -> ordinary x -> do_find_older_messages t x acc = Ok (acc ++ filter (fun z => z <= x) (ids t)).
Proof.
  revert acc. induction t as [|y p n m l IHl r IHr]; intros acc Hwf Hx; [simpl; by rewrite app_nil_r|].
  pose proof (wf_node _ _ _ _ _ _ Hwf) as (Hwl&Hwr&Hm&Hlt&Hgt). cbn [do_find_older_messages]. rewrite IHl by done. cbn [res_bind].
  rewrite le_ordinary by done. cbn [res_bind]. rewrite filter_node. destruct (m <=? x) eqn:E; zbool.
  - rewrite IHr by done. rewrite (filter_cons_True _ m) by done. by rewrite <- !app_assoc.
  - rewrite (filter_cons_False _ m) by lia. rewrite (filter_empty _ (ids r)); [by rewrite !app_nil_r|]. intros z Hz%Hgt. lia.
Qed.

Lemma find_newer_spec t x acc : wf t -> ordinary x -> do_find_newer_messages t x acc = Ok (acc ++ filter (fun z => x < z) (ids t)).
Proof.
  revert acc. induction t as [|y p n m l IHl r IHr]; intros acc Hwf Hx; [simpl; by rewrite app_nil_r|].
  pose proof (wf_node _ _ _ _ _ _ Hwf) as (Hwl&Hwr&Hm&Hlt&Hgt). cbn [do_find_newer_messages]. rewrite gt_ordinary by done. cbn [res_bind].
  rewrite filter_node. destruct (x <? m) eqn:E; zbool.
  - rewrite IHl by done. cbn [res_bind]. rewrite IHr by done. rewrite (filter_cons_True _ m) by done. by rewrite <- !app_assoc.
  - cbn [res_bind]. rewrite IHr by done. rewrite (filter_cons_False _ m) by lia. rewrite (filter_empty _ (ids l)); [done|]. intros z Hz%Hlt. lia.
Qed.

(** The dates do not decrease from a message to a later one. *)
Definition dated (l : list Z) : Prop := forall a b, a ∈ l -> b ∈ l -> a < b -> get_message_date a <= get_message_date b.

Lemma dated_node y p n m l r : wf (Node y p n m l r) -> dated (ids (Node y p n m l r)) ->
  dated (ids l) /\ dated (ids r) /\ (forall x, x ∈ ids l -> get_message_date x <= get_message_date m) /\ (forall x, x ∈ ids r -> get_message_date m <= get_message_date x).
Proof.
  intros (_&_&_&Hlt&Hgt)%wf_node Hd. unfold dated in *. rewrite ids_node in Hd. split_and!.
  - intros a b Ha Hb. apply Hd; set_solver.
  - intros a b Ha Hb. apply Hd; set_solver.
  - intros x Hx. apply Hd; [set_solver..|auto].
  - intros x Hx. apply Hd; [set_solver..|auto].
Qed.

Lemma by_dates_spec t a b acc : wf t -> dated (ids t) ->
  do_find_messages_by_date get_message_date t a b acc = acc ++ filter (fun z => a <= get_message_date z <= b) (ids t).
Proof.
  revert acc. induction t as [|y p n m l IHl r IHr]; intros acc Hwf Hd; [simpl; by rewrite app_nil_r|].
  pose proof (wf_node _ _ _ _ _ _ Hwf) as (Hwl&Hwr&_). destruct (dated_node _ _ _ _ _ _ Hwf Hd) as (Hdl&Hdr&Hl&Hr). rewrite filter_node.
  cbn [do_find_messages_by_date]. destruct (a <=? get_message_date m) eqn:Ea, (get_message_date m <=? b) eqn:Eb; zbool; rewrite ?IHl, ?IHr by done.
  - rewrite (filter_cons_True _ m) by lia. by rewrite <- !app_assoc.
  - rewrite (filter_cons_False _ m) by lia. rewrite (filter_empty _ (ids r)); [by rewrite !app_nil_r|]. intros z Hz%Hr. lia.
  - rewrite (filter_cons_False _ m) by lia. rewrite (filter_empty _ (ids l)); [done|]. intros z Hz%Hl. lia.
  - rewrite (filter_cons_False _ m) by lia. rewrite (filter_empty _ (ids l)), (filter_empty _ (ids r)); [by rewrite app_nil_r|..]; [intros z Hz%Hr|intros z Hz%Hl]; lia.
Qed.

Lemma by_date_spec t d : wf t -> Forall valid (ids t) -> dated (ids t) ->
  do_find_message_by_date get_message_date t d = default 0 (last (filter (fun z => get_message_date z <= d) (ids t))).
Proof.
  induction t as [|y p n m l IHl r IHr]; intros Hwf Hv Hd; [done|]. pose proof (wf_node _ _ _ _ _ _ Hwf) as (Hwl&Hwr&_).
  destruct (dated_node _ _ _ _ _ _ Hwf Hd) as (Hdl&Hdr&Hl&Hr). rewrite filter_node. rewrite ids_node, Forall_app, Forall_cons in Hv. destruct Hv as (Hvl&_&Hvr).
  cbn [do_find_message_by_date]. destruct (d <? get_message_date m) eqn:E; zbool.
  - rewrite IHl by done. rewrite (filter_cons_False _ m) by lia. rewrite (filter_empty _ (ids r)); [by rewrite !app_nil_r|]. intros z Hz%Hr. lia.
  - rewrite IHr by done. rewrite (filter_cons_True _ m) by lia. cbn [app]. rewrite last_app_cons. cbn [default].
    change (filter (fun z => get_message_date z <= d) [] ++ filter (fun z => get_message_date z <= d) (ids r)) with (filter (fun z => get_message_date z <= d) (ids r)).
    destruct (last (filter _ (ids r))) as [w|] eqn:Ew; [|done]. simpl.
    apply last_Some in Ew as [k Ek]. assert (w ∈ filter (fun z => get_message_date z <= d) (ids r)) as Hw by (rewrite Ek; set_solver).
    apply list_elem_of_filter in Hw as [_ Hw]. rewrite Forall_forall in Hvr. by rewrite (Hvr w Hw).
Qed.
End queries.

Lemma has_message_spec t x : wf t -> valid x -> has_message t x = Ok (bool_decide (x ∈ ids t)).
Proof.
  intros Hwf Hv. pose proof (valid_ordinary x Hv) as Hx. unfold has_message. rewrite Hv. destruct (decide (x ∈ ids t)) as [Hin|Hin].
  - rewrite bool_decide_true by done. apply in_ids in Hin as (k1&z&k2&<-&E). rewrite (iterator_at t k1 z k2 Hwf E). cbn [res_bind].
    rewrite (deref_here t k1 z k2 Hwf E). by rewrite Z.eqb_refl.
  - rewrite bool_decide_false by done. rewrite get_iterator_spec by done. cbn [res_bind]. rewrite deref_iterator.
    destruct (last (upto x (inorder t))) as [w|] eqn:El; [|done]. cbn. f_equal. apply Z.eqb_neq. intros <-. apply Hin, elem_ids.
    apply last_Some in El as [k Ek]. assert (w ∈ upto (mid w) (inorder t)) as Hw by (rewrite Ek; set_solver). by apply list_elem_of_filter in Hw as [_ Hw].
Qed.

Lemma upto_max t : Forall valid (ids t) -> upto MessageId.max (inorder t) = inorder t.
Proof.
  intros Hv. apply upto_all, Forall_forall. intros z Hz. pose proof (proj1 (Forall_forall _ _) Hv _ (elem_ids _ _ Hz)) as Hz'. apply MessageId.is_valid_mod in Hz'. lia.
Qed.
Lemma ordinary_max : ordinary MessageId.max.
Proof. done. Qed.

Lemma last_message_spec t : wf t -> Forall valid (ids t) -> get_last_message_id t = Ok (default 0 (last (ids t))).
Proof.
  intros Hwf Hv. unfold get_last_message_id. rewrite get_iterator_spec by (done || apply ordinary_max). cbn [res_bind].
  rewrite deref_iterator, upto_max by done. do 2 f_equal. unfold ids. symmetry. apply fmap_last.
Qed.

(** The queries: on the tree of a chat, with dates that do not decrease along the
    messages, the messages up to an identifier, after an identifier and within an interval
    of dates are exactly those of the list, in order; the message of a date is the last one
    that is not later; a message is found exactly if it is known, and the last message is
    the greatest. *)
Theorem ordered_messages_queries (t : tree) (l : list msg) (date : Z -> Z) (x a b : Z) :
  known t l -> valid x -> dated date (map mid l) ->
  find_older_messages t x = Ok (filter (fun z => z <= x) (map mid l)) /\
  find_newer_messages t x = Ok (filter (fun z => x < z) (map mid l)) /\
  find_messages_by_date date t a b = filter (fun z => a <= date z <= b) (map mid l) /\
  find_message_by_date date t a = default 0 (last (filter (fun z => date z <= a) (map mid l))) /\
  has_message t x = Ok (bool_decide (x ∈ map mid l)) /\
  get_last_message_id t = Ok (default 0 (last (map mid l))).
Proof.
  intros [Hi <- Hv] Hx Hd. pose proof (inv_wf _ Hi) as Hwf. pose proof (valid_ordinary x Hx) as Ho. split_and!.
  - by apply find_older_spec.
  - by apply find_newer_spec.
  - by apply by_dates_spec.
  - by apply by_date_spec.
  - by apply has_message_spec.
  - by apply last_message_spec.
Qed.

(** ** History *)

(** The messages that are known to be connected, from the first message of a reversed list
    backwards and from a message forwards. *)
Fixpoint back (r : list msg) : list Z :=
  match r with
  | [] => []
  | z :: r => mid z :: if prev z then back r else []
  end.
Fixpoint forth (z : msg) (l : list msg) : list msg :=
  match l with
  | [] => []
  | w :: l => if next z then w :: forth w l else []
  end.
Definition past (x : Z) (l : list msg) : list msg := filter (fun z => x < mid z) l.
Definition ltake {A} (n : Z) (l : list A) : list A := take (Z.to_nat n) l.

(** The messages around [from] when they are known without a gap: [-offset] messages that
    are not older than [from], then the older ones, [limit] in all; messages that do not
    exist because the chat ends are counted as returned. *)
Definition history_around (l : list msg) (last_id from offset limit : Z) (force : bool) : list Z :=
  match last (upto from l) with
  | None => []
  | Some z =>
      let here := mid z =? from in
      if negb here && negb (next z) then []
      else
        let older := back (rev (upto from l)) in
        let newer := map mid (forth z (past from l)) in
        if offset =? 0 then ltake limit (if here then tail older else older)
        else
          let wanted := - offset - (if here then 1 else 0) in
          let missing := wanted - Z.of_nat (length newer) in
          if missing <=? 0 then ltake limit (rev (ltake wanted newer) ++ older)
          else if negb (last_id =? 0) && (last_id <=? default from (last newer)) || force then ltake (limit - missing) (rev newer ++ older)
          else []
  end.
Definition history_of (l : list msg) (last_id from offset limit : Z) (force : bool) : list Z :=
  if negb (last_id =? 0) && (last_id <? from) || (MessageId.max <=? from) then
    if last_id =? 0 then [] else ltake (limit + offset) (back (rev (upto from l)))
  else
    let from := if bool_decide (upto from l = []) && force && (offset <? 0) then default from (mid <$> head l) else from in
    history_around l last_id from offset limit force.

Lemma count_inorder t : count t = length (inorder t).
Proof. induction t; simpl; [done|]. rewrite length_app. simpl. lia. Qed.

Lemma last_rev {A} (r : list A) : last (rev r) = head r.
Proof. destruct r; [done|]. simpl. by rewrite last_snoc. Qed.

Section history.
Context (t : tree) (Hinv : inv t).

Lemma NoDup_t : NoDup (ids t).
Proof. apply wf_NoDup, Hinv. Qed.

(** The loop that collects the messages takes the connected ones, up to the limit. *)
Lemma collect_run r : forall fuel k2 limit acc, inorder t = rev r ++ k2 -> (length r <= fuel)%nat ->
  collect fuel t (at_msg t (mid <$> head r)) limit acc = Ok (acc ++ ltake (limit - Z.of_nat (length acc)) (back r)).
Proof.
  induction r as [|z r IH]; intros fuel k2 limit acc E Hf.
  - unfold ltake. cbn [back]. rewrite take_nil, app_nil_r. by destruct fuel.
  - simpl in E. rewrite <- app_assoc in E. simpl in E. cbn [head fmap option_fmap option_map].
    assert (z ∈ inorder t) as Hz by (rewrite E; set_solver).
    destruct fuel as [|fuel]; [simpl in Hf; lia|]. cbn [collect]. rewrite deref_at by (intros ? [= <-]; by apply elem_ids).
    destruct (Z.of_nat (length acc) <? limit) eqn:El; zbool.
    + rewrite (move_spec Bwd t (rev r) z k2 NoDup_t E). cbn [res_bind flag_of beside]. unfold ltake.
      replace (Z.to_nat (limit - Z.of_nat (length acc))) with (S (Z.to_nat (limit - Z.of_nat (length (acc ++ [mid z])))))
        by (rewrite length_app; simpl; lia). cbn [back firstn]. destruct (prev z).
      * unfold beside. rewrite last_rev.
        rewrite (IH fuel (z :: k2)) by (done || simpl in Hf; lia). unfold ltake. by rewrite <- app_assoc.
      * rewrite take_nil. by destruct fuel.
    + unfold ltake. replace (Z.to_nat _) with O by lia. by rewrite app_nil_r.
Qed.

Lemma collect_back r k2 limit : inorder t = rev r ++ k2 -> collect (count t) t (at_msg t (mid <$> head r)) limit [] = Ok (ltake limit (back r)).
Proof.
  intros E. rewrite (collect_run r _ k2); [by rewrite Z.sub_0_r|done|]. rewrite count_inorder, E, length_app, length_rev. lia.
Qed.

(** The loop that applies a negative offset. *)
Lemma apply_offset_spec k2 : forall fuel k1 z from offset, inorder t = k1 ++ z :: k2 -> (length k2 < fuel)%nat -> offset <= 0 ->
  let newer := forth z k2 in
  apply_offset fuel t (at_msg t (Some (mid z))) from offset =
    if - offset <=? Z.of_nat (length newer) then
      Ok (at_msg t (Some (mid (default z (last (ltake (- offset) newer))))), default from (mid <$> last (ltake (- offset) newer)), 0)
    else Ok ([], default from (mid <$> last newer), offset + Z.of_nat (length newer)).
Proof.
  induction k2 as [|w k2 IH]; intros fuel k1 z from offset E Hf Ho; cbv zeta.
  all: destruct fuel as [|fuel]; [lia|]; cbn [apply_offset]; rewrite deref_at by (intros ? [= <-]; apply elem_ids; rewrite E; set_solver).
  all: destruct (offset <? 0) eqn:Eo; zbool; [|replace offset with 0 by lia; rewrite (proj2 (Z.leb_le _ _)) by lia; done].
  all: rewrite (move_spec Fwd t k1 z _ NoDup_t E); unfold beside; cbn [res_bind flag_of head fmap option_fmap option_map forth].
  - rewrite (proj2 (Z.leb_gt _ _)) by (simpl; lia). destruct (next z); simpl; destruct fuel; simpl; by rewrite Z.add_0_r.
  - destruct (next z).
    + rewrite deref_at by (intros ? [= <-]; apply elem_ids; rewrite E; set_solver).
      rewrite (IH fuel (k1 ++ [z]) w (mid w) (offset + 1)) by (rewrite <- ?app_assoc; simpl in *; done || lia). cbn [length].
      rewrite Nat2Z.inj_succ. destruct (- (offset + 1) <=? Z.of_nat (length (forth w k2))) eqn:El; zbool.
      * rewrite (proj2 (Z.leb_le _ _)) by lia. unfold ltake. replace (Z.to_nat (- offset)) with (S (Z.to_nat (- (offset + 1)))) by lia. cbn [firstn].
        rewrite last_cons. by destruct (last (take _ _)).
      * rewrite (proj2 (Z.leb_gt _ _)) by lia. rewrite last_cons. do 2 f_equal; [|lia]. f_equal. by destruct (last (forth w k2)).
    + rewrite (proj2 (Z.leb_gt _ _)) by (simpl; lia). simpl. destruct fuel; simpl; by rewrite Z.add_0_r.
Qed.

(** The connections go back through the messages that were passed forwards. *)
Lemma forth_split z k2 n : chain (next z) k2 -> exists k3, k2 = take n (forth z k2) ++ k3.
Proof.
  revert z n. induction k2 as [|w k2 IH]; intros z n Hc; [exists []; simpl; by rewrite take_nil|]. cbn [forth]. simpl in Hc. destruct Hc as [_ Hc].
  destruct (next z); [|exists (w :: k2); by rewrite take_nil]. destruct n; [by exists (w :: k2)|]. destruct (IH w n Hc) as [k3 Hk]. exists k3. simpl. by rewrite <- Hk.
Qed.

Lemma back_forth z k2 n r : chain (next z) k2 -> back (rev (take n (forth z k2)) ++ r) = rev (map mid (take n (forth z k2))) ++ back r.
Proof.
  intros Hc. assert (Forall (fun w => prev w = true) (take n (forth z k2))) as Hp.
  { apply Forall_take. clear n r. revert z Hc. induction k2 as [|w k2 IH]; intros z Hc; [done|]. simpl in Hc. destruct Hc as [Hw Hc]. cbn [forth].
    destruct (next z); [|done]. constructor; [done|]. by apply IH. }
  revert r Hp. generalize (take n (forth z k2)) as u. clear. intros u. induction u as [|w u IH] using rev_ind; intros r Hp; [done|].
  rewrite Forall_app, Forall_cons in Hp. destruct Hp as (Hu&Hw&_). rewrite map_app, !rev_app_distr. simpl. rewrite Hw. by rewrite IH.
Qed.

Lemma upto_past x : inorder t = upto x (inorder t) ++ past x (inorder t).
Proof.
  rewrite (below_above t (x + 1)) at 1 by apply Hinv. f_equal; apply list_filter_iff; intros z; lia.
Qed.

Lemma head_rev_last {A} (u r : list A) z : head (rev u ++ z :: r) = Some (default z (last u)).
Proof. destruct u as [|w u _] using rev_ind; [done|]. by rewrite rev_app_distr, last_snoc. Qed.

(** Collecting from the last of [n] newer messages. *)
Lemma collect_newer k1 z k2 n limit : inorder t = k1 ++ z :: k2 ->
  let u := take n (forth z k2) in
  collect (count t) t (at_msg t (Some (mid (default z (last u))))) limit [] = Ok (ltake limit (rev (map mid u) ++ back (rev (k1 ++ [z])))).
Proof.
  intros E u. pose proof (inv_links _ Hinv) as Hl. rewrite E in Hl. apply links_at in Hl as (_&_&Hc&_). destruct (forth_split z k2 n Hc) as [k3 Hk].
  rewrite rev_app_distr. cbn [rev app]. unfold u. rewrite <- back_forth by done. fold u. fold u in Hk.
  rewrite <- (collect_back (rev u ++ z :: rev k1) k3).
  - rewrite head_rev_last. done.
  - rewrite rev_app_distr. simpl. rewrite !rev_involutive, <- !app_assoc. simpl. by rewrite <- Hk.
Qed.

Definition offset_window (z : msg) (k1 k2 : list msg) (last_id from wanted limit : Z) (force : bool) : list Z :=
  let older := back (rev (k1 ++ [z])) in
  let newer := map mid (forth z k2) in
  let missing := wanted - Z.of_nat (length newer) in
  if missing <=? 0 then ltake limit (rev (ltake wanted newer) ++ older)
  else if negb (last_id =? 0) && (last_id <=? default from (last newer)) || force then ltake (limit - missing) (rev newer ++ older)
  else [].

(** A position, from which the messages [W] are collected when [m] of them are not there. *)
Definition collects (r : Res (list Z * Z * Z * Z)) (limit m : Z) (W : list Z) : Prop :=
  exists it from offset, r = Ok (it, from, offset, limit - m) /\
    (if offset =? 0 then collect (count t) t it (limit - m) [] else Ok []) = Ok (ltake (limit - m) W).

Lemma ltake_nil {A} n : ltake n [] = ([] : list A).
Proof. apply take_nil. Qed.

Lemma forth_elem z k2 w : w ∈ forth z k2 -> w ∈ k2.
Proof.
  revert z. induction k2 as [|v k2 IH]; intros z; [done|]. cbn [forth]. destruct (next z); [|by intros ?%elem_of_nil]. rewrite !elem_of_cons. naive_solver.
Qed.

Lemma finish_offset_spec k1 z k2 last_id from offset limit force : inorder t = k1 ++ z :: k2 -> ordinary from -> ordinary last_id -> offset <= 0 ->
  mid z = from \/ next z = true ->
  exists m W, collects (finish_offset t last_id (at_msg t (Some (mid z))) from false offset limit force) limit m W /\ 0 <= m <= - offset /\
    forall n, offset_window z k1 k2 last_id from (- offset) n force = ltake (n - m) W.
Proof.
  intros E Hf Hl Ho Hz. unfold finish_offset, offset_window. rewrite length_map.
  rewrite (apply_offset_spec k2 _ k1 z) by (done || rewrite count_inorder, E, length_app; simpl; lia).
  set (newer := forth z k2). destruct (- offset <=? Z.of_nat (length newer)) eqn:El; zbool.
  - cbn [res_bind]. exists 0, (rev (ltake (- offset) (map mid newer)) ++ back (rev (k1 ++ [z]))). rewrite (proj2 (Z.leb_le _ 0)) by lia. split_and!; [|lia..|].
    + eexists _, _, 0. rewrite !Z.sub_0_r. split; [done|]. rewrite Z.eqb_refl. unfold ltake at 1 3.
      rewrite firstn_map. exact (collect_newer k1 z k2 (Z.to_nat (- offset)) limit E).
    + intros n. by rewrite Z.sub_0_r.
  - cbn [res_bind]. rewrite (proj2 (Z.ltb_lt (_ + _) 0)) by lia. rewrite (proj2 (Z.leb_gt _ 0)) by lia.
    replace (last (map mid newer)) with (mid <$> last newer) by (symmetry; apply fmap_last).
    set (from' := default from (mid <$> last newer)). assert (ordinary from') as Hf'.
    { unfold from'. destruct (last newer) as [w|] eqn:Ew; [|done]. apply last_Some in Ew as [u Eu].
      assert (w ∈ k2) as Hw by (apply (forth_elem z); fold newer; rewrite Eu; set_solver).
      apply (ordinary_at t (inv_wf _ Hinv)). rewrite E. set_solver. }
    replace (if negb (last_id =? 0) then MessageId.ge from' last_id else Ok false) with (Ok (negb (last_id =? 0) && (last_id <=? from')))
      by (destruct (last_id =? 0); [done|]; simpl; by rewrite ge_ordinary).
    cbn [res_bind negb andb]. destruct (_ || force) eqn:Ea.
    + assert (get_iterator t from' = Ok (at_msg t (Some (mid (default z (last newer)))))) as ->.
      { unfold from'. destruct (last newer) as [w|] eqn:Ew.
        - apply last_Some in Ew as [u Eu]. assert (w ∈ inorder t) as Hw.
          { rewrite E. assert (w ∈ k2) by (apply (forth_elem z); fold newer; rewrite Eu; set_solver). set_solver. }
          apply list_elem_of_split in Hw as (a&b&Eab). exact (iterator_at t a w b (inv_wf _ Hinv) Eab).
        - destruct Hz as [Hz|Hz].
          + simpl. rewrite <- Hz. by rewrite (iterator_at t k1 z k2 (inv_wf _ Hinv) E).
          + apply last_None in Ew. unfold newer in Ew. pose proof (inv_links _ Hinv) as Hk. rewrite E in Hk. apply linked_sides in Hk as [_ Hk].
            specialize (Hk Hz). destruct k2; [done|]. simpl in Ew. by rewrite Hz in Ew. }
      exists (- offset - Z.of_nat (length newer)), (rev (map mid newer) ++ back (rev (k1 ++ [z]))). split_and!; [|lia..|done].
      eexists _, _, 0. cbn. split; [do 2 f_equal; lia|].
      pose proof (collect_newer k1 z k2 (length newer) (limit - (- offset - Z.of_nat (length newer))) E) as Hc. cbv zeta in Hc. fold newer in Hc.
      by rewrite firstn_all in Hc.
    + exists 0, []. split_and!; [|lia..|intros n; by rewrite ltake_nil]. eexists _, _, (offset + Z.of_nat (length newer) - 1). rewrite Z.sub_0_r, ltake_nil.
      cbn [res_bind negb andb]. rewrite (proj2 (Z.ltb_lt (_ + _) 0)) by lia. split; [reflexivity|]. by rewrite (proj2 (Z.eqb_neq _ 0)) by lia.
Qed.

Lemma apply_offset_done fuel it from offset : deref it = None \/ offset = 0 -> apply_offset fuel t it from offset = Ok (it, from, offset).
Proof. intros [Hd| ->]; destruct fuel; simpl; [by rewrite Hd..|destruct (deref it)|destruct (deref it)]; done. Qed.

Definition found_window (z : msg) (k1 k2 : list msg) (last_id from offset limit : Z) (force : bool) : list Z :=
  if offset =? 0 then ltake limit (if mid z =? from then tail (back (rev (k1 ++ [z]))) else back (rev (k1 ++ [z])))
  else offset_window z k1 k2 last_id from (- offset - (if mid z =? from then 1 else 0)) limit force.

Section apply.
Context (last_id offset limit : Z) (force : bool) (Hl : ordinary last_id) (Ho : offset <= 0).

Lemma apply_found it0 from0 from k1 z k2 : inorder t = k1 ++ z :: k2 -> ordinary from ->
  find_start t last_id it0 from0 offset force = Ok (at_msg t (Some (mid z)), from, false) -> mid z = from \/ next z = true ->
  exists m W, collects (apply_from t last_id it0 from0 offset limit force) limit m W /\ 0 <= m <= - offset /\
    forall n, found_window z k1 k2 last_id from offset n force = ltake (n - m) W.
Proof.
  intros E Hf Hs Hz. unfold apply_from, found_window. rewrite Hs. cbn [res_bind]. rewrite (deref_here t k1 z k2 (inv_wf _ Hinv) E).
  destruct (mid z =? from) eqn:Ez; zbool.
  - rewrite bool_decide_true by congruence. destruct (offset <? 0) eqn:Eo; zbool.
    + cbn [res_bind]. destruct (finish_offset_spec k1 z k2 last_id from (offset + 1) limit force E Hf Hl) as (m&W&Hc&Hm&Hn); [lia|done|].
      exists m, W. split; [done|]. split; [lia|]. intros n. rewrite (proj2 (Z.eqb_neq offset 0)) by lia.
      replace (- offset - 1) with (- (offset + 1)) by lia. apply Hn.
    + assert (offset = 0) as Hz0 by lia. rewrite Hz0, (move_spec Bwd t k1 z k2 NoDup_t E). cbn [res_bind]. unfold finish_offset.
      rewrite apply_offset_done by tauto. cbn. exists 0, (tail (back (rev (k1 ++ [z])))). split; [|split; [lia|]; intros n; by rewrite Z.sub_0_r].
      eexists _, _, 0. rewrite Z.sub_0_r. split; [done|]. rewrite Z.eqb_refl. rewrite rev_app_distr. cbn [rev app back tail flag_of beside]. destruct (prev z).
      * unfold beside. replace (last k1) with (head (rev k1)) by (rewrite <- (rev_involutive k1) at 2; symmetry; apply last_rev).
        apply (collect_back (rev k1) (z :: k2)). by rewrite rev_involutive.
      * exact (collect_back [] (inorder t) limit eq_refl).
  - destruct Hz as [Hz|Hz]; [done|]. rewrite bool_decide_false by congruence. cbn [res_bind].
    destruct (finish_offset_spec k1 z k2 last_id from offset limit force E Hf Hl) as (m&W&Hc&Hm&Hn); [lia|tauto|].
    exists m, W. split; [done|]. split; [lia|]. intros n. rewrite <- Hn, Z.sub_0_r. destruct (offset =? 0) eqn:Eo; zbool; [|done].
    rewrite Eo. unfold offset_window. by rewrite (proj2 (Z.leb_le _ 0)) by lia.
Qed.

Lemma apply_gap it0 from0 it from : find_start t last_id it0 from0 offset force = Ok (it, from, true) -> ordinary from -> last_id = 0 \/ from < last_id ->
  collects (apply_from t last_id it0 from0 offset limit force) limit 0 [].
Proof.
  intros Hs Hf Hlast. unfold apply_from. rewrite Hs. cbn [res_bind deref head]. rewrite bool_decide_false by done. cbn [res_bind]. unfold finish_offset.
  rewrite apply_offset_done by (by left). cbn [res_bind].
  assert ((if offset <? 0 then let* b := if negb (last_id =? 0) then MessageId.ge from last_id else Ok false in Ok (b || negb true && force) else Ok false) = Ok false) as ->.
  { destruct (offset <? 0); [|done]. destruct (last_id =? 0) eqn:E0; [done|]. zbool. simpl. rewrite ge_ordinary by done. cbn. by rewrite (proj2 (Z.leb_gt _ _)) by lia. }
  cbn. eexists _, _, _. rewrite Z.sub_0_r, ltake_nil. split; [done|]. destruct (offset =? 0); [|done]. by destruct (count t).
Qed.
End apply.

Lemma min_message_spec T s : do_traverse_messages (fun m _ => (true, m)) (fun _ (s : Z) => (false, s)) T s = default s (head (ids T)).
Proof.
  revert s. induction T as [|y p n m l IHl r IHr]; intros s; [done|]. rewrite ids_node. simpl. rewrite IHl. by destruct (ids l).
Qed.

Lemma upto_at k1 z k2 x : inorder t = k1 ++ z :: k2 -> mid z = x -> upto x (inorder t) = k1 ++ [z] /\ past x (inorder t) = k2.
Proof.
  intros E <-. destruct (sides t k1 z k2 (inv_wf _ Hinv) E) as [H1 H2]. pose proof (upto_past (mid z)) as Hu. rewrite E in Hu at 1.
  assert (upto (mid z) (inorder t) = k1 ++ [z]) as Eu.
  { rewrite E, upto_app. change (z :: k2) with ([z] ++ k2). rewrite upto_app, (upto_none _ k2 H2), app_nil_r. f_equal; apply upto_all.
    - eapply Forall_impl; [exact H1|]. simpl. lia.
    - by constructor. }
  split; [done|]. rewrite Eu, <- app_assoc in Hu. apply app_inv_head in Hu. by injection Hu.
Qed.

Lemma around_found k1 z k2 last_id from offset limit force : upto from (inorder t) = k1 ++ [z] -> past from (inorder t) = k2 -> mid z = from \/ next z = true ->
  history_around (inorder t) last_id from offset limit force = found_window z k1 k2 last_id from offset limit force.
Proof.
  intros Eu Ep Hz. unfold history_around, found_window, offset_window. rewrite Eu, Ep, last_snoc.
  assert (negb (mid z =? from) && negb (next z) = false) as ->; [|done].
  destruct Hz as [->| ->]; [by rewrite Z.eqb_refl|apply andb_false_r].
Qed.

Lemma find_start_at last_id k1 z from offset force : ordinary from -> upto from (inorder t) = k1 ++ [z] -> last_id = 0 \/ last_id ∈ ids t /\ from <= last_id ->
  find_start t last_id (at_msg t (Some (mid z))) from offset force = Ok (at_msg t (Some (mid z)), from, negb (mid z =? from) && negb (next z)).
Proof.
  intros Hf Eu Hlast. unfold find_start. pose proof (upto_past from) as E. rewrite Eu, <- app_assoc in E. simpl in E.
  assert (z ∈ inorder t) as Hz by (rewrite E; set_solver). assert (mid z <= from) as Hle.
  { assert (z ∈ upto from (inorder t)) as Hu by (rewrite Eu; set_solver). by apply list_elem_of_filter in Hu as [Hu _]. }
  rewrite (deref_here t k1 z _ (inv_wf _ Hinv) E). destruct (mid z =? from) eqn:Ez; zbool; cbn [negb andb]; [done|].
  pose proof (ordinary_at t (inv_wf _ Hinv) z Hz) as Hoz. rewrite lt_ordinary by done. cbn [res_bind]. rewrite (proj2 (Z.ltb_lt _ _)) by lia.
  destruct (load_at t (inv_wf _ Hinv) z Hz) as (n&->&_&Hn). cbn [res_bind]. rewrite Hn.
  assert ((if last_id =? 0 then Ok true else MessageId.lt (mid z) last_id) = Ok true) as ->.
  { destruct (last_id =? 0) eqn:E0; zbool; [done|]. destruct Hlast as [|[Hin Hle']]; [done|]. rewrite lt_ordinary; [by rewrite (proj2 (Z.ltb_lt _ _)) by lia|done|].
    destruct (inv_wf _ Hinv) as [_ Hall]. by apply (proj1 (Forall_forall _ _) Hall). }
  cbn [res_bind]. by rewrite andb_true_r.
Qed.

Lemma inorder_nil T : inorder T = [] -> T = Leaf.
Proof. destruct T as [|y p n m l r]; [done|]. simpl. by destruct (inorder l). Qed.

(** With a gap before [from] the last message is after it. *)
Lemma gap_before_last last_id from : last_id = 0 \/ last_id ∈ ids t /\ from <= last_id -> mid <$> last (upto from (inorder t)) <> Some from -> last_id = 0 \/ from < last_id.
Proof.
  intros [|[Hin Hle]] Hne; [tauto|]. right. apply in_ids in Hin as (a&w&b&<-&E). destruct (decide (from = mid w)) as [->|]; [|lia].
  destruct (upto_at a w b (mid w) E eq_refl) as [Eu _]. by rewrite Eu, last_snoc in Hne.
Qed.

(** The messages when they do not start from the end. *)
Definition applies (last_id from0 from offset limit : Z) (force : bool) : Prop :=
  exists m W, collects (apply_from t last_id (at_msg t (mid <$> last (upto from0 (inorder t)))) from0 offset limit force) limit m W /\ 0 <= m <= - offset /\
    forall n, history_around (inorder t) last_id from offset n force = ltake (n - m) W.

Section from_message.
Context (last_id from offset limit : Z) (force : bool) (Hf : ordinary from) (Hl : ordinary last_id) (Ho : offset <= 0).
Context (Hlast : last_id = 0 \/ last_id ∈ ids t /\ from <= last_id).

Lemma apply_first z k2 : upto from (inorder t) = [] -> inorder t = z :: k2 -> force && (offset <? 0) = true -> applies last_id from (mid z) offset limit force.
Proof.
  intros Eu E Em. unfold applies. rewrite Eu. cbn [last fmap option_fmap option_map].
  assert (from < mid z) as Hlt. { apply Z.nle_gt. intros Hle. unfold upto in Eu. rewrite E in Eu. by rewrite filter_cons_True in Eu. }
  assert (z ∈ inorder t) as Hz by (rewrite E; set_solver). pose proof (ordinary_at t (inv_wf _ Hinv) z Hz) as Hoz.
  destruct (upto_at [] z k2 (mid z) E eq_refl) as [Eu' Ep'].
  destruct (apply_found last_id offset limit force Hl Ho (at_msg t None) from (mid z) [] z k2 E Hoz) as (m&W&Hc&Hm&Hn); [|tauto|].
  - unfold find_start. cbn [at_msg deref head]. rewrite Em. assert (negb (empty t) = true) as -> by (destruct t; [done|reflexivity]). cbn [andb].
    unfold min_message_id, traverse_messages. rewrite min_message_spec. unfold ids. rewrite E. cbn [map head default id from_option].
    rewrite gt_ordinary by done. cbn [res_bind]. rewrite (proj2 (Z.ltb_lt _ _)) by lia.
    rewrite (iterator_at t [] z k2 (inv_wf _ Hinv) E). cbn [res_bind]. rewrite (deref_here t [] z k2 (inv_wf _ Hinv) E). by rewrite bool_decide_false by done.
  - exists m, W. split; [done|]. split; [done|]. intros n. rewrite <- Hn. apply around_found; [done..|tauto].
Qed.

Lemma apply_before : upto from (inorder t) = [] -> force && (offset <? 0) && negb (empty t) = false -> applies last_id from from offset limit force.
Proof.
  intros Eu Em. pose proof (gap_before_last last_id from Hlast) as Hg. rewrite Eu in Hg. exists 0, []. rewrite Eu. cbn [last fmap option_fmap option_map]. split; [|split; [lia|]].
  - apply (apply_gap last_id offset limit force Hl (at_msg t None) from [] from); [|done|by apply Hg]. unfold find_start. cbn [at_msg deref head]. by rewrite Em.
  - intros n. unfold history_around. by rewrite Eu, ltake_nil.
Qed.

Lemma apply_after k1 z : upto from (inorder t) = k1 ++ [z] -> applies last_id from from offset limit force.
Proof.
  intros Eu. pose proof (gap_before_last last_id from Hlast) as Hg. unfold applies. rewrite Eu, last_snoc in *. cbn [fmap option_fmap option_map] in *.
  pose proof (upto_past from) as E. rewrite Eu, <- app_assoc in E. simpl in E.
  pose proof (find_start_at last_id k1 z from offset force Hf Eu Hlast) as Hs. destruct (negb (mid z =? from) && negb (next z)) eqn:Eg.
  - exists 0, []. split; [|split; [lia|]].
    + apply (apply_gap last_id offset limit force Hl _ from _ from Hs Hf), Hg. apply andb_true_iff in Eg as [Eg _]. zbool. congruence.
    + intros n. unfold history_around. rewrite Eu, last_snoc, Eg. by rewrite ltake_nil.
  - assert (mid z = from \/ next z = true) as Hz.
    { apply andb_false_iff in Eg as [Eg|Eg]; [left|right]; [by zbool|by destruct (next z)]. }
    destruct (apply_found last_id offset limit force Hl Ho _ from from k1 z (past from (inorder t)) E Hf Hs Hz) as (m&W&Hc&Hm&Hn).
    exists m, W. split; [done|]. split; [done|]. intros n. rewrite <- Hn. by apply around_found.
Qed.

Lemma apply_history : let l := inorder t in
  applies last_id from (if bool_decide (upto from l = []) && force && (offset <? 0) then default from (mid <$> head l) else from) offset limit force.
Proof.
  intros l. destruct (last (upto from l)) as [z|] eqn:El.
  - apply last_Some in El as [k1 Eu]. rewrite bool_decide_false by (rewrite Eu; by destruct k1). by apply (apply_after k1 z).
  - apply last_None in El. rewrite bool_decide_true by done. cbn [andb]. destruct (force && (offset <? 0)) eqn:Em; [|apply apply_before; by rewrite ?Em].
    unfold l in *. destruct (inorder t) as [|z k2] eqn:E.
    + apply apply_before; [by rewrite E|]. by rewrite (inorder_nil t E), andb_false_r.
    + apply (apply_first z k2); by rewrite ?E.
Qed.
End from_message.
End history.

Lemma pop_increased {A} n (W : list A) : 0 < n -> (if n =? Z.of_nat (length (ltake n W)) then removelast (ltake n W) else ltake n W) = ltake (n - 1) W.
Proof.
  intros Hn. unfold ltake. rewrite length_firstn. destruct (n =? _) eqn:E; zbool.
  - replace (Z.to_nat n) with (S (Z.to_nat (n - 1))) in * by lia. rewrite removelast_firstn by lia. done.
  - rewrite !take_ge by lia. done.
Qed.

(** C28. The history: with a known last message, a positive limit and an offset of at most
    [limit] messages, no check fails, and the code returns exactly the messages of the
    definition [history_of] on the list: from the end, the messages back to the first
    unknown connection; otherwise nothing at a gap, and else the window of the [-offset]
    messages that are not older than [from_message_id] and the connected older messages
    after them, at most [limit] in all. *)
Theorem ordered_messages_history (t : tree) (l : list msg) (last_id from off lim : Z) (force : bool) :
  known t l -> ordinary from -> last_id = 0 \/ last_id ∈ map mid l -> 0 < lim -> - lim <= off <= 0 ->
  exists h, get_history t last_id from off lim force = Ok h /\ message_ids h = history_of l last_id from off lim force.
Proof.
  intros [Hinv <- Hv] Hf Hlast Hlim Hoff. assert (ordinary last_id) as Hl.
  { destruct Hlast as [->|Hin]; [done|]. destruct (inv_wf _ Hinv) as [_ Hall]. by apply (proj1 (Forall_forall _ _) Hall). }
  unfold get_history, history_of. rewrite (proj2 (Z.ltb_lt 0 lim)) by lia. set (inc := lim =? - off). set (lim' := if inc then lim + 1 else lim).
  assert (- lim' < off /\ lim <= lim') as [Hlim' Hle] by (unfold lim', inc; destruct (lim =? - off) eqn:E; zbool; lia).
  rewrite (proj2 (Z.ltb_lt (- lim') off)), (proj2 (Z.leb_le off 0)) by lia. cbn [andb].
  rewrite get_iterator_spec by (apply Hinv || done). cbn [res_bind].
  assert ((let* b := if negb (last_id =? 0) then MessageId.gt from last_id else Ok false in if b then Ok true else MessageId.ge from MessageId.max) =
    Ok (negb (last_id =? 0) && (last_id <? from) || (MessageId.max <=? from))) as ->.
  { destruct (last_id =? 0); cbn [negb andb orb res_bind]; [by rewrite ge_ordinary by done|]. rewrite gt_ordinary by done. cbn [res_bind].
    destruct (last_id <? from); [done|]. by rewrite ge_ordinary by done. }
  cbn [res_bind]. set (from_end := _ || _).
  assert (exists m W, collects t (if from_end then Ok (if last_id =? 0 then [] else at_msg t (mid <$> last (upto from (inorder t))), from, 0, lim' + off)
      else apply_from t last_id (at_msg t (mid <$> last (upto from (inorder t)))) from off lim' force) lim' m W /\ 0 <= m <= - off /\
    ltake (lim - m) W = if from_end then if last_id =? 0 then [] else ltake (lim + off) (back (rev (upto from (inorder t))))
      else history_around (inorder t) last_id (if bool_decide (upto from (inorder t) = []) && force && (off <? 0) then default from (mid <$> head (inorder t)) else from) off lim force)
    as (m&W&(it&from'&off'&->&Hc)&Hm&<-).
  { destruct from_end eqn:Ee.
    - exists (- off), (if last_id =? 0 then [] else back (rev (upto from (inorder t)))). split; [|split; [lia|]].
      + eexists _, _, 0. split; [do 2 f_equal; lia|]. rewrite Z.eqb_refl. destruct (last_id =? 0); [rewrite ltake_nil; by destruct (count t)|].
        rewrite <- (rev_involutive (upto from _)) at 1. rewrite last_rev. apply (collect_back t Hinv _ (past from (inorder t))). rewrite rev_involutive. by apply upto_past.
      + destruct (last_id =? 0); [by rewrite ltake_nil|]. f_equal. lia.
    - destruct (apply_history t Hinv last_id from off lim' force) as (m&W&Hc&Hm&Hn); [done..|lia| |exists m, W; by rewrite <- Hn].
      unfold from_end in Ee. apply orb_false_iff in Ee as [Ee _]. destruct Hlast as [|Hin]; [tauto|]. destruct (last_id =? 0) eqn:E0; zbool; [tauto|].
      right. split; [done|]. simpl in Ee. zbool. lia. }
  cbn [res_bind]. rewrite Hc. cbn [res_bind]. eexists. split; [reflexivity|]. cbn [message_ids]. unfold lim' in *. destruct inc; cbn [andb].
  - rewrite pop_increased by lia. f_equal. lia.
  - done.
Qed.

(** ** Unread messages *)
Section unread.
Context (is_counted_as_unread : Z -> bool).

Definition unread (x : Z) (l : list Z) : Z := Z.of_nat (length (filter (fun y => x < y /\ is_counted_as_unread y = true) l)).

Lemma unread_cons x y l : unread x (y :: l) = (if (x <? y) && is_counted_as_unread y then 1 else 0) + unread x l.
Proof.
  unfold unread. destruct ((x <? y) && is_counted_as_unread y) eqn:E.
  - apply andb_true_iff in E. zbool. rewrite filter_cons_True by (destruct E; zbool; done). simpl. lia.
  - rewrite filter_cons_False; [done|]. intros [H1 H2]. rewrite H2, andb_true_r in E. zbool. lia.
Qed.
Lemma unread_app x l1 l2 : unread x (l1 ++ l2) = unread x l1 + unread x l2.
Proof. unfold unread. rewrite filter_app, length_app. lia. Qed.
Lemma unread_rev x l : unread x (rev l) = unread x l.
Proof. induction l as [|y l IH]; [done|]. simpl. rewrite unread_app, unread_cons, IH, unread_cons. unfold unread at 2. simpl. lia. Qed.
Lemma unread_none x l : (forall y, y ∈ l -> y <= x) -> unread x l = 0.
Proof. intros H'. unfold unread. rewrite filter_empty; [done|]. intros y Hy%H'. lia. Qed.

Lemma unread_above a b l : a <= b -> (forall y, y ∈ l -> b < y) -> unread a l = unread b l.
Proof.
  intros Hab. induction l as [|y l IH]; intros Hl; [done|]. rewrite !unread_cons, IH by (intros v Hv; apply Hl; by right).
  assert (b < y) by (apply Hl; by left). by rewrite !(proj2 (Z.ltb_lt _ _)) by lia.
Qed.

(** The counting loop stops at the first connected message that is not after the limit. *)
Fixpoint stop (x : Z) (l : list Z) : option Z :=
  match l with
  | [] => None
  | y :: l => if x <? y then stop x l else Some y
  end.

Context (t : tree) (Hinv : inv t).

Lemma back_elem y r : y ∈ back r -> y ∈ map mid r.
Proof.
  induction r as [|w r IH]; [done|]. simpl. rewrite !elem_of_cons. destruct (prev w); [naive_solver|]. intros [->|?%elem_of_nil]; [by left|done].
Qed.

Lemma back_bound k2 r z y : inorder t = rev (z :: r) ++ k2 -> y ∈ back (z :: r) -> y ∈ ids t /\ y <= mid z.
Proof.
  intros E Hy%back_elem. simpl in E. rewrite <- app_assoc in E. simpl in E. split.
  - unfold ids. rewrite E. rewrite map_app, elem_of_app, map_rev, list_elem_of_In, <- in_rev, <- list_elem_of_In. simpl in *. set_solver.
  - apply elem_of_cons in Hy as [->|Hy]; [done|]. destruct (sides t (rev r) z k2 (inv_wf _ Hinv) E) as [Hs _]. apply list_elem_of_fmap in Hy as (w&->&Hw).
    assert (w ∈ rev r) as Hw' by (by rewrite list_elem_of_In, <- in_rev, <- list_elem_of_In). pose proof (proj1 (Forall_forall _ _) Hs w Hw'). simpl in *. lia.
Qed.

Lemma count_unread_spec x r : ordinary x -> forall fuel k2 acc, inorder t = rev r ++ k2 -> (length r <= fuel)%nat ->
  count_unread is_counted_as_unread fuel t (at_msg t (mid <$> head r)) x acc = Ok (at_msg t (stop x (back r)), acc + unread x (back r)).
Proof.
  intros Hx. induction r as [|z r IH]; intros fuel k2 acc E Hf.
  - unfold unread. simpl. rewrite Z.add_0_r. by destruct fuel.
  - pose proof E as E'. simpl in E. rewrite <- app_assoc in E. simpl in E. cbn [head fmap option_fmap option_map]. assert (z ∈ inorder t) as Hz by (rewrite E; set_solver).
    destruct fuel as [|fuel]; [simpl in Hf; lia|]. cbn [count_unread]. rewrite deref_at by (intros ? [= <-]; by apply elem_ids).
    rewrite gt_ordinary by (done || by apply (ordinary_at t (inv_wf _ Hinv))). cbn [res_bind back stop]. destruct (x <? mid z) eqn:Ex; zbool.
    + rewrite (move_spec Bwd t (rev r) z k2 (NoDup_t t Hinv) E). cbn [res_bind flag_of]. unfold beside. rewrite last_rev.
      rewrite unread_cons, (proj2 (Z.ltb_lt _ _) Ex). cbn [andb]. destruct (prev z).
      * rewrite (IH fuel (z :: k2)) by (done || simpl in Hf; lia). do 2 f_equal. destruct (is_counted_as_unread (mid z)); lia.
      * change (unread x []) with 0. destruct (is_counted_as_unread (mid z)); rewrite ?Z.add_0_r; by destruct fuel.
    + do 2 f_equal. rewrite unread_none; [lia|]. intros y Hy. change (y ∈ back (z :: r)) in Hy. pose proof (back_bound k2 r z y E' Hy). lia.
Qed.

Lemma rev_bound k2 r z y : inorder t = rev (z :: r) ++ k2 -> y ∈ map mid r -> y < mid z.
Proof.
  intros E Hy. simpl in E. rewrite <- app_assoc in E. simpl in E. destruct (sides t (rev r) z k2 (inv_wf _ Hinv) E) as [Hs _]. apply list_elem_of_fmap in Hy as (w&->&Hw).
  assert (w ∈ rev r) as Hw' by (by rewrite list_elem_of_In, <- in_rev, <- list_elem_of_In). exact (proj1 (Forall_forall _ _) Hs w Hw').
Qed.

Lemma rev_tail k2 r z : inorder t = rev (z :: r) ++ k2 -> inorder t = rev r ++ z :: k2.
Proof. simpl. by rewrite <- app_assoc. Qed.

(** When the loop stops at a message, all unread messages before it were connected. *)
Lemma stop_exact x r : forall k2 y, inorder t = rev r ++ k2 -> stop x (back r) = Some y -> unread x (back r) = unread x (map mid r).
Proof.
  induction r as [|z r IH]; intros k2 y E Hs; [done|]. cbn [back stop map] in *. rewrite !unread_cons. destruct (x <? mid z) eqn:Ex; zbool.
  - f_equal. destruct (prev z); [|done]. by apply (IH (z :: k2) y (rev_tail _ _ _ E)).
  - rewrite !unread_none; [done|..]; intros v Hv.
    + apply (rev_bound k2 r z v E) in Hv. lia.
    + destruct (prev z); [|by apply elem_of_nil in Hv]. apply back_elem, (rev_bound k2 r z v E) in Hv. lia.
Qed.

Lemma stop_elem x r : forall k2, inorder t = rev r ++ k2 -> stop x (back r) = Some x <-> x ∈ back r.
Proof.
  induction r as [|z r IH]; intros k2 E; cbn [back stop]; [split; [done|by intros ?%elem_of_nil]|]. rewrite elem_of_cons.
  specialize (IH _ (rev_tail _ _ _ E)). destruct (x <? mid z) eqn:Ex; zbool.
  - destruct (prev z); [rewrite IH|]; split; try tauto; [intros [->|]; [lia|done]|done|]. intros [->|?%elem_of_nil]; [lia|done].
  - split; [intros [= ->]; tauto|]. intros [->|Hx]; [done|]. destruct (prev z); [|by apply elem_of_nil in Hx]. apply back_elem, (rev_bound k2 r z x E) in Hx. lia.
Qed.

Lemma stop_exists x L : existsb (fun y => y <=? x) L = negb (bool_decide (stop x L = None)).
Proof.
  induction L as [|y L IH]; [done|]. simpl. rewrite IH. destruct (x <? y) eqn:E; zbool.
  - by rewrite (proj2 (Z.leb_gt _ _)) by lia.
  - by rewrite (proj2 (Z.leb_le _ _)) by lia.
Qed.

Lemma stop_In x L y : stop x L = Some y -> y ∈ L.
Proof. induction L as [|v L IH]; [done|]. simpl. destruct (x <? v); [|intros [= ->]; by left]. intros Hs%IH. by right. Qed.

Lemma deref_stop x r k2 : inorder t = rev r ++ k2 -> deref (at_msg t (stop x (back r))) = stop x (back r).
Proof.
  intros E. apply deref_at. intros y Hy%stop_In%back_elem. unfold ids. rewrite E, map_app, map_rev, elem_of_app, list_elem_of_In, <- in_rev, <- list_elem_of_In. by left.
Qed.

Lemma from_the_end_spec x last_id : valid x -> Forall valid (ids t) ->
  calc_new_unread_count_from_the_end is_counted_as_unread t x last_id (-1) =
    Ok (if MessageId.is_valid last_id && existsb (fun y => y <=? x) (back (rev (inorder t))) then unread x (ids t) else -1).
Proof.
  intros Hx Hv. unfold calc_new_unread_count_from_the_end. rewrite get_iterator_spec by (apply Hinv || apply ordinary_max). cbn [res_bind]. rewrite upto_max by done.
  rewrite <- (rev_involutive (inorder t)) at 1. rewrite last_rev. set (r := rev (inorder t)). assert (inorder t = rev r ++ []) as E by (unfold r; by rewrite rev_involutive, app_nil_r).
  rewrite (count_unread_spec x r (valid_ordinary x Hx) _ []); [|done|unfold r; rewrite count_inorder, length_rev; lia]. cbn [res_bind].
  rewrite (deref_stop x r [] E). rewrite stop_exists. cbn [andb Z.leb]. replace (0 <=? -1) with false by done. cbn [andb].
  destruct (MessageId.is_valid last_id && _) eqn:Ee; cbn [negb]; [|done]. f_equal. rewrite Z.add_0_l. apply andb_true_iff in Ee as [_ Ee]. apply negb_true_iff, bool_decide_eq_false in Ee.
  destruct (stop x (back r)) as [y|] eqn:Es; [|done]. rewrite (stop_exact x r [] y E Es). unfold ids. rewrite E, app_nil_r, map_rev. symmetry. apply unread_rev.
Qed.

Lemma from_last_unread_spec x lr old : valid x -> ordinary lr -> lr <= x -> old = unread lr (ids t) ->
  calc_new_unread_count_from_last_unread is_counted_as_unread t x lr old =
    Ok (if bool_decide (x ∈ ids t) && bool_decide (lr ∈ back (rev (upto x (inorder t)))) then unread x (ids t) else -1).
Proof.
  intros Hx Hlr Hle Hold. unfold calc_new_unread_count_from_last_unread. destruct (decide (x ∈ ids t)) as [Hin|Hin].
  - rewrite (bool_decide_true (x ∈ ids t)) by done. apply in_ids in Hin as (k1&z&k2&Ez&E). rewrite <- Ez. rewrite (iterator_at t k1 z k2 (inv_wf _ Hinv) E). cbn [res_bind].
    rewrite (deref_here t k1 z k2 (inv_wf _ Hinv) E), bool_decide_true by done. cbn [negb andb]. destruct (upto_at t Hinv k1 z k2 (mid z) E eq_refl) as [-> _].
    set (r := rev (k1 ++ [z])). assert (inorder t = rev r ++ k2) as Er by (unfold r; rewrite rev_involutive, <- app_assoc; done).
    replace (Some (mid z)) with (mid <$> head r) by (unfold r; by rewrite rev_app_distr).
    rewrite (count_unread_spec lr r Hlr _ k2); [|done|unfold r; rewrite count_inorder, length_rev, E, !length_app; simpl; lia]. cbn [res_bind].
    rewrite (deref_stop lr r k2 Er). rewrite (bool_decide_ext (stop lr (back r) = Some lr) (lr ∈ back r)) by (by apply (stop_elem lr r k2)).
    case_bool_decide as Hb; [|done]. cbn [negb]. f_equal. rewrite Hold, Z.add_0_l. rewrite (stop_exact lr r k2 lr Er) by (by apply (stop_elem lr r k2)).
    unfold ids. rewrite E. rewrite map_app, map_cons, !unread_app, !unread_cons. unfold r. rewrite map_rev, unread_rev, map_app, unread_app.
    change (map mid [z]) with [mid z]. rewrite unread_cons. change (unread lr []) with 0.
    destruct (sides t k1 z k2 (inv_wf _ Hinv) E) as [Hs1 Hs2]. rewrite (unread_none (mid z) (map mid k1)), Z.ltb_irrefl.
    + cbn [andb]. assert (unread lr (map mid k2) = unread (mid z) (map mid k2)) as ->; [|lia]. apply unread_above; [lia|]. intros y (w&->&Hw)%list_elem_of_fmap.
      exact (proj1 (Forall_forall _ _) Hs2 w Hw).
    + intros y (w&->&Hw)%list_elem_of_fmap. pose proof (proj1 (Forall_forall _ _) Hs1 w Hw). simpl in *. lia.
  - rewrite (bool_decide_false (x ∈ ids t)) by done. rewrite get_iterator_spec by (apply Hinv || by apply valid_ordinary). cbn [res_bind]. rewrite deref_iterator.
    rewrite bool_decide_false; [done|]. intros Hl. destruct (last (upto x (inorder t))) as [w|] eqn:El; [|done]. injection Hl as Hw. apply Hin. rewrite <- Hw. apply elem_ids.
    apply last_Some in El as [k Ek]. assert (w ∈ upto x (inorder t)) as Hw' by (rewrite Ek; set_solver). by apply list_elem_of_filter in Hw' as [_ Hw'].
Qed.
End unread.

(** The unread counter: when the old counter is the number of counted messages after the
    last read one, the new counter after reading up to [max_message_id] is the number of
    counted messages after that one, or -1 exactly if neither the connected messages from
    the end go back to it nor those from it go back to the last read message. *)
Theorem ordered_messages_unread (t : tree) (l : list msg) (counted : Z -> bool) (max_id last_read old last_id : Z) :
  known t l -> valid max_id -> ordinary last_read -> last_read <= max_id -> old = unread counted last_read (map mid l) ->
  let from_end := MessageId.is_valid last_id && existsb (fun y => y <=? max_id) (back (rev l)) in
  let from_last_read := MessageId.is_valid last_read && (bool_decide (max_id ∈ map mid l) && bool_decide (last_read ∈ back (rev (upto max_id l)))) in
  calc_new_unread_count counted t max_id last_read old last_id (-1) =
    Ok (if from_end || from_last_read then unread counted max_id (map mid l) else -1).
Proof.
  intros [Hinv <- Hv] Hm Hlr Hle Hold from_end from_last_read. unfold calc_new_unread_count.
  rewrite (from_the_end_spec counted t Hinv) by done. rewrite (from_last_unread_spec counted t Hinv) by done. fold from_end.
  change (ids t) with (map mid (inorder t)). assert ((0 <=? unread counted max_id (map mid (inorder t))) = true) as Hpos by (apply Z.leb_le; unfold unread; lia).
  unfold from_last_read. destruct (MessageId.is_valid last_read); cbn [negb andb]; [|by rewrite orb_false_r].
  destruct (_ || (_ <? _)); destruct (bool_decide (max_id ∈ _) && _) eqn:Eb; destruct from_end; cbn [res_bind orb]; rewrite ?Hpos; done.
Qed.

(** ** Examples *)

(** A chat in which the messages 1, 2 and 3 are known to be connected, a local message
    follows 3, there is a gap before message 7, and message 5 was erased. *)
Definition srv (n : Z) : Z := MessageId.of_server n.
Definition local4 : Z := srv 3 + 2.
Definition chat_ops : list op :=
  [Insert (srv 7) false 0; Insert (srv 3) false 0; Insert (srv 1) true 0; AttachToPrevious (srv 3); Insert (srv 2) true (srv 7);
   Insert local4 false (srv 7); AttachToNext (srv 3); Insert (srv 5) false (srv 7); Erase (srv 5) false].
Definition chat_list : list msg := [M (srv 1) false true; M (srv 2) true true; M (srv 3) true true; M local4 true false; M (srv 7) false false].
Definition chat_tree : tree := match run chat_ops Leaf with Ok t => t | _ => Leaf end.

Lemma chat_valid : Forall (fun o => valid (op_id o)) chat_ops.
Proof. by repeat constructor. Qed.

Lemma chat_known : known chat_tree chat_list.
Proof.
  pose proof (run_known chat_ops Leaf [] chat_valid known_empty) as H. assert (spec_run chat_ops [] = Some chat_list) as E by (by vm_compute).
  rewrite E in H. destruct H as (t&Ht&Hk). unfold chat_tree. by rewrite Ht.
Qed.

Lemma ordered_messages_refine_witness : Forall (fun o => valid (op_id o)) chat_ops /\ spec_run chat_ops [] = Some chat_list /\
  (exists t, run chat_ops Leaf = Ok t /\ inorder t = chat_list) /\ (exists s, run (chat_ops ++ [Insert (srv 2) true 0]) Leaf = Panic s).
Proof.
  split; [exact chat_valid|]. split; [by vm_compute|]. split.
  - pose proof (ordered_messages_refine chat_ops chat_valid) as H. assert (spec_run chat_ops [] = Some chat_list) as E by (by vm_compute).
    rewrite E in H. destruct H as (t&Ht&El&_). by exists t.
  - refine (ordered_messages_refine (chat_ops ++ [Insert (srv 2) true 0]) _). by repeat constructor.
Defined.

Lemma chat_dated : dated (fun x => Z.shiftr x 20) (map mid chat_list).
Proof. intros a b _ _ Hab. rewrite !Z.shiftr_div_pow2 by lia. apply Z.div_le_mono; lia. Qed.

Lemma ordered_messages_queries_witness :
  find_older_messages chat_tree (srv 2) = Ok [srv 1; srv 2] /\ find_newer_messages chat_tree (srv 2) = Ok [srv 3; local4; srv 7] /\
  find_messages_by_date (fun x => Z.shiftr x 20) chat_tree 2 3 = [srv 2; srv 3; local4].
Proof.
  destruct (ordered_messages_queries chat_tree chat_list (fun x => Z.shiftr x 20) (srv 2) 2 3 chat_known eq_refl chat_dated) as (H1&H2&H3&_).
  rewrite H1, H2, H3. clear. vm_compute. split_and!; reflexivity.
Defined.

Lemma ordered_messages_history_witness :
  (exists h, get_history chat_tree (srv 7) (srv 2) (-2) 4 false = Ok h /\ message_ids h = [srv 3; srv 2; srv 1]) /\
  (exists h, get_history chat_tree (srv 7) (srv 5) 0 4 false = Ok h /\ message_ids h = []).
Proof.
  split.
  - destruct (ordered_messages_history chat_tree chat_list (srv 7) (srv 2) (-2) 4 false chat_known) as (h&Hh&Hm);
      [done|right; by apply (bool_decide_unpack _)|lia|lia|]. exists h. split; [exact Hh|]. rewrite Hm. vm_compute. reflexivity.
  - destruct (ordered_messages_history chat_tree chat_list (srv 7) (srv 5) 0 4 false chat_known) as (h&Hh&Hm);
      [done|right; by apply (bool_decide_unpack _)|lia|lia|]. exists h. split; [exact Hh|]. rewrite Hm. vm_compute. reflexivity.
Defined.

Lemma ordered_messages_unread_witness : calc_new_unread_count (fun _ => true) chat_tree (srv 3) (srv 1) 4 (srv 7) (-1) = Ok 2.
Proof.
  rewrite (ordered_messages_unread chat_tree chat_list (fun _ => true) (srv 3) (srv 1) 4 (srv 7) chat_known); [vm_compute; reflexivity|reflexivity|reflexivity|by vm_compute|vm_compute; reflexivity].
Defined.
