(* ===== verification/FileBitmask.v ===== *)
(** * Bit masks of downloaded parts

    The run-length codecs of tdutils/td/utils/misc.cpp ([zero_encode] and
    [zero_one_encode] with their decoders) and [Bitmask] of
    td/telegram/files/FileBitmask.h and FileBitmask.cpp, a set of part numbers
    kept as a string of bytes.  A string is the list of its bytes; the loops
    that look for the end of a run have as fuel a bound of the number of bits. *)
From S2P Require Import Prelude.
Local Open Scope td_scope.

(** ** Run-length codecs *)

(** The loop that counts the bytes equal to [c], at most [limit] of them: the
    count and the bytes that follow. *)
Fixpoint count_run (limit : nat) (c : Z) (l : list Z) : nat * list Z :=
  match limit, l with
  | S limit, x :: l' => if x =? c then let '(n, r) := count_run limit c l' in (S n, r) else (O, l)
  | _, _ => (O, l)
  end.

Fixpoint run_encode_loop (fuel : nat) (special : Z -> bool) (l : list Z) : list Z :=
  match fuel, l with
  | S fuel, c :: l =>
      if special c then
        let '(n, r) := count_run 249 c l in c :: u8 (Z.of_nat n + 1) :: run_encode_loop fuel special r
      else c :: run_encode_loop fuel special l
  | _, _ => []
  end.

Fixpoint run_decode (special : Z -> bool) (l : list Z) : list Z :=
  match l with
  | [] => []
  | c :: l' =>
      if special c then
        match l' with
        | cnt :: l'' => replicate (Z.to_nat cnt) c ++ run_decode special l''
        | [] => [c]
        end
      else c :: run_decode special l'
  end.

Definition zero_encode (data : list Z) : list Z := run_encode_loop (length data) (fun c => c =? 0) data.
Definition zero_decode (data : list Z) : list Z := run_decode (fun c => c =? 0) data.
Definition zero_one_encode (data : list Z) : list Z := run_encode_loop (length data) (fun c => (c =? 0) || (c =? 255)) data.
Definition zero_one_decode (data : list Z) : list Z := run_decode (fun c => (c =? 0) || (c =? 255)) data.

Lemma count_run_spec limit c l n r : count_run limit c l = (n, r) -> l = replicate n c ++ r /\ (n <= limit)%nat.
Proof.
  revert l n r. induction limit as [|limit IH]; intros [|x l] n r Hc; simpl in Hc; try (simplify_eq; split; [done|lia]).
  case_if_in Hc; [|simplify_eq; split; [done|lia]]. destruct (count_run limit c l) as [n' r'] eqn:Er. simplify_eq.
  destruct (IH _ _ _ Er) as [-> ?]. split; [done|lia].
Qed.

#[local] Arguments count_run : simpl never.

(** Decoding undoes encoding, whichever bytes are run-length encoded. *)
Lemma run_roundtrip special fuel l : (length l <= fuel)%nat -> run_decode special (run_encode_loop fuel special l) = l.
Proof.
  revert l. induction fuel as [|fuel IH]; intros [|c l] Hl; simpl in *; try done; [lia|].
  destruct (special c) eqn:Es.
  - destruct (count_run 249 c l) as [n r] eqn:Er. destruct (count_run_spec _ _ _ _ _ Er) as [-> Hn].
    cbn [run_decode]. rewrite Es. rewrite u8_small by (unfold is_byte; lia). rewrite IH by (rewrite length_app in Hl; lia).
    replace (Z.to_nat (Z.of_nat n + 1)) with (S n) by lia. done.
  - simpl. rewrite Es. by rewrite IH by lia.
Qed.

Lemma zero_one_roundtrip data : zero_one_decode (zero_one_encode data) = data.
Proof. by apply run_roundtrip. Qed.

(** ** Bitmask *)
Module Bitmask.

Record t := { data_ : list Z }.

Definition empty : t := {| data_ := [] |}.
Definition decode (data : list Z) : t := {| data_ := zero_one_decode data |}.

Definition get (m : t) (offset_part : Z) : bool :=
  if offset_part <? 0 then false
  else
    let index := Z.to_nat (offset_part / 8) in
    match data_ m !! index with
    | None => false
    | Some b => negb (Z.land b (Z.shiftl 1 (offset_part mod 8)) =? 0)
    end.

Definition size (m : t) : Z := Z.of_nat (length (data_ m)) * 8.

Definition resize (n : nat) (l : list Z) : list Z := l ++ replicate (n - length l) 0.

Definition set (offset_part : Z) (m : t) : Res t :=
  CHECK! 0 <=? offset_part else "offset_part >= 0" in
  let need_size := Z.to_nat (offset_part / 8 + 1) in
  let data := resize need_size (data_ m) in
  match data !! (need_size - 1)%nat with
  | Some b => Ok {| data_ := <[(need_size - 1)%nat := u8 (Z.lor b (Z.shiftl 1 (offset_part mod 8)))]> data |}
  | None => Panic "index out of range"
  end.

(** The constructor with [Ones]. *)
Fixpoint set_each (l : list Z) (m : t) : Res t :=
  match l with
  | [] => Ok m
  | i :: l => let* m := set i m in set_each l m
  end.
Definition ones (count : Z) : Res t :=
  set_each (seqZ 0 count) {| data_ := replicate (Z.to_nat ((count + 7) / 8)) 0 |}.

Fixpoint ready_loop (fuel : nat) (m : t) (offset_part res : Z) : Z :=
  match fuel with
  | O => res
  | S fuel => if get m (offset_part + res) then ready_loop fuel m offset_part (res + 1) else res
  end.
Definition get_ready_parts (m : t) (offset_part : Z) : Z := ready_loop (Z.to_nat (size m)) m offset_part 0.

Definition as_vector (m : t) : Res (list Z) :=
  CHECK! size m <? 2 ^ 31 else "narrow_cast" in
  Ok (filter (fun i => get m i = true) (seqZ 0 (size m))).

(** The inner loop of [compress], for the [n] bits from [i]. *)
Fixpoint all_bits (n : nat) (m : t) (i : Z) : bool :=
  match n with
  | O => true
  | S n => get m i && all_bits n m (i + 1)
  end.
Fixpoint compress_loop (fuel : nat) (k : Z) (m : t) (i : Z) (res : t) : Res t :=
  match fuel with
  | O => Panic "fuel"
  | S fuel =>
      if i * k <? size m then
        let* res := if all_bits (Z.to_nat k) m (i * k) then set i res else Ok res in
        compress_loop fuel k m (i + 1) res
      else Ok res
  end.
Definition compress (k : Z) (m : t) : Res t := compress_loop (S (Z.to_nat (size m))) k m 0 empty.

Fixpoint drop_zeros (l : list Z) : list Z :=
  match l with
  | [] => []
  | b :: l => match drop_zeros l with [] => if b =? 0 then [] else [b] | l => b :: l end
  end.

(** [prefix_count] is [None] for the default argument [-1].  The byte after the
    last one of a string can be read, and written with the zero it holds.  The
    source changes the last byte of the prefix in place and restores it when the
    function returns; here the changed bytes are a copy. *)
Definition encode (prefix_count : option Z) (m : t) : Res (list Z) :=
  match prefix_count with
  | None => Ok (zero_one_encode (drop_zeros (data_ m)))
  | Some n =>
      let truncated_size := Z.to_nat ((n + 7) / 8) in
      if n mod 8 =? 0 then Ok (zero_one_encode (drop_zeros (take truncated_size (data_ m))))
      else
        let save_i := (truncated_size - 1)%nat in
        CHECK! Nat.leb save_i (length (data_ m)) else "index out of range" in
        let data := alter (fun b => Z.land b (Z.shiftr 255 (8 - n mod 8))) save_i (data_ m) in
        Ok (zero_one_encode (drop_zeros (take truncated_size data)))
  end.

Definition get_ready_prefix_size (m : t) (offset part_size file_size : Z) : Res Z :=
  if offset <? 0 then Ok 0
  else if part_size =? 0 then Ok 0
  else
    CHECK! 0 <? part_size else "part_size > 0" in
    let offset_part := offset / part_size in
    let ones := get_ready_parts m offset_part in
    if ones =? 0 then Ok 0
    else
      let ready_parts_end := (offset_part + ones) * part_size in
      let '(ready_parts_end, offset) :=
        if negb (file_size =? 0) && (file_size <? ready_parts_end)
        then (file_size, if file_size <? offset then file_size else offset)
        else (ready_parts_end, offset) in
      let res := ready_parts_end - offset in
      CHECK! 0 <=? res else "res >= 0" in
      Ok res.

Definition part_bytes (part_size file_size i : Z) : Z :=
  let from := i * part_size in
  let to := from + part_size in
  let to := if negb (file_size =? 0) && (file_size <? to) then file_size else to in
  if from <? to then to - from else 0.
Definition get_total_size (m : t) (part_size file_size : Z) : Z :=
  fold_left (fun res i => if get m i then res + part_bytes part_size file_size i else res) (seqZ 0 (size m)) 0.

(** * Proofs *)
Definition wf (m : t) : Prop := bytes (data_ m).

(** The byte of a mask at an index: zero after the end. *)
Definition byte_at (l : list Z) (k : nat) : Z := default 0 (l !! k).

Lemma land_bit b k : 0 <= k -> negb (Z.land b (Z.shiftl 1 k) =? 0) = Z.testbit b k.
Proof.
  intros Hk. rewrite Z.shiftl_1_l. destruct (Z.testbit b k) eqn:E.
  - apply negb_true_iff, Z.eqb_neq. intros Hz. apply (f_equal (fun z => Z.testbit z k)) in Hz.
    rewrite Z.land_spec, Z.pow2_bits_true, E, Z.bits_0 in Hz by lia. done.
  - apply negb_false_iff, Z.eqb_eq. apply Z.bits_inj'. intros n Hn. rewrite Z.land_spec, Z.bits_0.
    destruct (decide (n = k)) as [->|Hne]; [by rewrite E|]. rewrite Z.pow2_bits_false by lia. apply andb_false_r.
Qed.

Lemma bit_spec m i : get m i = (0 <=? i) && Z.testbit (byte_at (data_ m) (Z.to_nat (i / 8))) (i mod 8).
Proof.
  unfold get, byte_at. destruct (i <? 0) eqn:E; zbool.
  - by rewrite (proj2 (Z.leb_gt 0 i)).
  - rewrite (proj2 (Z.leb_le 0 i)) by lia. destruct (data_ m !! _) as [b|]; simpl; [|by rewrite Z.bits_0].
    apply land_bit. apply Z.mod_pos_bound. lia.
Qed.

Lemma byte_at_bytes l k : bytes l -> is_byte (byte_at l k).
Proof.
  intros Hl. unfold byte_at. destruct (l !! k) eqn:E; simpl; [|done]. rewrite Forall_lookup in Hl. eauto.
Qed.

Lemma get_beyond m i : size m <= i -> get m i = false.
Proof.
  intros Hi. rewrite bit_spec. unfold byte_at. rewrite lookup_ge_None_2; [simpl; rewrite Z.bits_0; apply andb_false_r|].
  unfold size in Hi. assert (Z.of_nat (length (data_ m)) <= i / 8) by (apply Z.div_le_lower_bound; lia). lia.
Qed.

Lemma byte_at_resize n l k : byte_at (resize n l) k = byte_at l k.
Proof.
  unfold byte_at, resize. destruct (decide (k < length l)%nat).
  - by rewrite lookup_app_l.
  - rewrite lookup_app_r by lia. rewrite (lookup_ge_None_2 l) by lia. simpl.
    destruct (replicate _ 0 !! _) eqn:E; [|done]. by apply lookup_replicate in E as [-> _].
Qed.

Lemma byte_at_insert l k j b : (k < length l)%nat -> byte_at (<[k := b]> l) j = if Nat.eqb j k then b else byte_at l j.
Proof.
  intros Hk. unfold byte_at. destruct (Nat.eqb j k) eqn:E; zbool.
  - subst. by rewrite list_lookup_insert_eq.
  - by rewrite list_lookup_insert_ne.
Qed.

Lemma index_neq i j : 0 <= i -> 0 <= j -> Z.to_nat (i / 8) = Z.to_nat (j / 8) -> i mod 8 = j mod 8 -> i = j.
Proof.
  intros Hi Hj Hq Hr. rewrite (Z.div_mod i 8), (Z.div_mod j 8) by lia.
  pose proof (Z.div_pos i 8). pose proof (Z.div_pos j 8). rewrite Hr. lia.
Qed.

Lemma u8_bit b k n : is_byte b -> 0 <= k < 8 -> 0 <= n < 8 ->
  Z.testbit (u8 (Z.lor b (Z.shiftl 1 k))) n = (n =? k) || Z.testbit b n.
Proof.
  intros Hb Hk Hn. unfold u8. rewrite Z.mod_pow2_bits_low by lia. rewrite Z.lor_spec, Z.shiftl_1_l.
  destruct (n =? k) eqn:E; zbool.
  - subst. rewrite Z.pow2_bits_true by lia. apply orb_true_r.
  - rewrite Z.pow2_bits_false by lia. by rewrite orb_false_r.
Qed.

(** Setting a bit sets that bit only. *)
Lemma set_spec i m : wf m -> 0 <= i ->
  exists m', set i m = Ok m' /\ wf m' /\ forall j, get m' j = (j =? i) || get m j.
Proof.
  intros Hm Hi. unfold set. rewrite (proj2 (Z.leb_le 0 i)) by lia.
  assert (0 <= i / 8) as Hd by (apply Z.div_pos; lia).
  replace (Z.to_nat (i / 8 + 1)) with (S (Z.to_nat (i / 8))) by lia. simpl. rewrite Nat.sub_0_r. set (k := Z.to_nat (i / 8)).
  assert (k < length (resize (S k) (data_ m)))%nat as Hlen by (unfold resize; rewrite length_app, length_replicate; lia).
  assert (bytes (resize (S k) (data_ m))) as Hbs.
  { apply Forall_app. split; [done|]. apply Forall_replicate. done. }
  destruct (lookup_lt_is_Some_2 _ _ Hlen) as [b Hb]. rewrite Hb. eexists. split; [done|].
  assert (is_byte b) as Hbb by (rewrite Forall_lookup in Hbs; eauto).
  assert (b = byte_at (data_ m) k) as Eb by (rewrite <- (byte_at_resize (S k)); unfold byte_at; by rewrite Hb).
  split.
  - apply Forall_insert; auto with td.
  - intros j. rewrite !bit_spec. cbn [data_]. rewrite byte_at_insert by done. rewrite byte_at_resize.
    destruct (0 <=? j) eqn:Ej; zbool; simpl; [|by rewrite (proj2 (Z.eqb_neq j i)) by lia].
    pose proof (Z.mod_pos_bound i 8). pose proof (Z.mod_pos_bound j 8).
    destruct (Nat.eqb (Z.to_nat (j / 8)) k) eqn:Ek; zbool.
    + rewrite u8_bit by (done || lia). rewrite Eb, Ek. f_equal. apply eq_true_iff_eq. rewrite !Z.eqb_eq. split; [|by intros ->].
      intros Hr. by apply index_neq.
    + rewrite (proj2 (Z.eqb_neq j i)); [done|]. intros ->. done.
Qed.

(** Trailing zeros do not matter. *)
Lemma drop_zeros_at l k : byte_at (drop_zeros l) k = byte_at l k.
Proof.
  revert k. induction l as [|b l IH]; intros k; [done|]. simpl. destruct (drop_zeros l) as [|b' l'] eqn:E.
  - destruct k as [|k].
    + unfold byte_at. simpl. case_if; [by subst|done].
    + change (byte_at (b :: l) (S k)) with (byte_at l k). rewrite <- IH. by case_if.
  - destruct k as [|k]; [done|]. change (byte_at (b :: l) (S k)) with (byte_at l k). by rewrite <- IH.
Qed.

Lemma drop_zeros_nil l : (forall k, byte_at l k = 0) -> drop_zeros l = [].
Proof.
  induction l as [|b l IH]; intros Hz; [done|]. simpl. rewrite IH by (intros k; exact (Hz (S k))).
  specialize (Hz O). unfold byte_at in Hz. simpl in Hz. by subst.
Qed.

Lemma drop_zeros_ext l1 l2 : (forall k, byte_at l1 k = byte_at l2 k) -> drop_zeros l1 = drop_zeros l2.
Proof.
  revert l2. induction l1 as [|b1 l1 IH]; intros l2 Heq.
  - symmetry. apply drop_zeros_nil. intros k. by rewrite <- Heq.
  - destruct l2 as [|b2 l2]; [apply drop_zeros_nil; intros k; by rewrite Heq|].
    simpl. rewrite (IH l2) by (intros k; exact (Heq (S k))). specialize (Heq O). unfold byte_at in Heq. simpl in Heq. by subst.
Qed.

Lemma get_ext l1 l2 : (forall k, byte_at l1 k = byte_at l2 k) -> forall i, get {| data_ := l1 |} i = get {| data_ := l2 |} i.
Proof. intros He i. rewrite !bit_spec. simpl. by rewrite He. Qed.

Lemma byte_ext a b : is_byte a -> is_byte b -> (forall k, 0 <= k < 8 -> Z.testbit a k = Z.testbit b k) -> a = b.
Proof.
  intros Ha Hb He. apply Z.bits_inj'. intros k Hk. destruct (decide (k < 8)); [by apply He|].
  rewrite !(testbit_small _ 8) by (exact Ha || exact Hb || lia). done.
Qed.

Lemma bits_bytes m m' : wf m -> wf m' -> (forall i, get m i = get m' i) -> forall k, byte_at (data_ m) k = byte_at (data_ m') k.
Proof.
  intros Hm Hm' He k. apply byte_ext; [by apply byte_at_bytes..|]. intros j Hj.
  specialize (He (8 * Z.of_nat k + j)). rewrite !bit_spec in He. rewrite (proj2 (Z.leb_le _ _)) in He by lia.
  replace ((8 * Z.of_nat k + j) / 8) with (Z.of_nat k) in He by zlia.
  replace ((8 * Z.of_nat k + j) mod 8) with j in He by zlia. by rewrite Nat2Z.id in He.
Qed.

Lemma byte_at_take n l k : byte_at (take n l) k = if Nat.ltb k n then byte_at l k else 0.
Proof.
  unfold byte_at. destruct (Nat.ltb k n) eqn:E; zbool.
  - by rewrite lookup_take_lt.
  - by rewrite lookup_take_ge by lia.
Qed.

Lemma byte_at_alter f n l k : (k = n -> f 0 = 0) -> byte_at (alter f n l) k = if Nat.eqb k n then f (byte_at l k) else byte_at l k.
Proof.
  intros Hf. unfold byte_at. destruct (Nat.eqb k n) eqn:E; zbool.
  - subst. rewrite list_lookup_alter_eq. destruct (l !! n); simpl; [done|]. by rewrite Hf.
  - by rewrite list_lookup_alter_ne.
Qed.

Lemma prefix_index i n : 0 <= i -> 0 <= n ->
  (Z.to_nat (i / 8) < Z.to_nat ((n + 7) / 8))%nat <-> i / 8 < n / 8 \/ (i / 8 = n / 8 /\ 0 < n mod 8).
Proof. intros Hi Hn. zlia. Qed.

(** The bits below a count. *)
Lemma encode_prefix_bits n m i : 0 <= n <= size m ->
  exists e, encode (Some n) m = Ok e /\ get (decode e) i = (i <? n) && get m i.
Proof.
  intros Hn. unfold encode, size in *. destruct (n mod 8 =? 0) eqn:E0; zbool.
  - eexists. split; [done|]. unfold decode. rewrite zero_one_roundtrip, !bit_spec. cbn [data_].
    rewrite drop_zeros_at, byte_at_take. destruct (0 <=? i) eqn:Ei; zbool; simpl; [|by rewrite andb_false_r].
    destruct (Nat.ltb _ _) eqn:Et; zbool.
    + rewrite prefix_index in Et by lia. rewrite (proj2 (Z.ltb_lt i n)); [done|]. zlia.
    + rewrite Z.bits_0, (proj2 (Z.ltb_ge i n)); [done|]. destruct (decide (i < n)); [|lia]. exfalso.
      enough (Z.to_nat (i / 8) < Z.to_nat ((n + 7) / 8))%nat by lia. apply prefix_index; [lia..|]. zlia.
  - set (k := (Z.to_nat ((n + 7) / 8) - 1)%nat).
    assert (k = Z.to_nat (n / 8)) as Hk by (unfold k; zlia).
    rewrite (proj2 (Nat.leb_le k (length (data_ m)))) by zlia. eexists. split; [done|].
    unfold decode. rewrite zero_one_roundtrip, !bit_spec. cbn [data_].
    rewrite drop_zeros_at, byte_at_take, byte_at_alter by (intros _; apply Z.land_0_l).
    destruct (0 <=? i) eqn:Ei; zbool; simpl; [|by rewrite andb_false_r].
    pose proof (Z.mod_pos_bound i 8). pose proof (Z.mod_pos_bound n 8).
    destruct (Nat.ltb _ _) eqn:Et; zbool.
    + rewrite prefix_index in Et by lia. destruct (Nat.eqb _ k) eqn:Ek; zbool.
      * assert (i / 8 = n / 8) by (rewrite Hk in Ek; zlia).
        change 255 with (Z.ones 8). rewrite Z.land_spec, Z.shiftr_spec by lia. rewrite andb_comm. f_equal.
        destruct (i <? n) eqn:Ein; zbool.
        { apply Z.ones_spec_low. zlia. }
        { apply Z.ones_spec_high. zlia. }
      * rewrite (proj2 (Z.ltb_lt i n)); [done|]. rewrite Hk in Ek. zlia.
    + rewrite Z.bits_0, (proj2 (Z.ltb_ge i n)); [done|]. destruct (decide (i < n)); [|lia]. exfalso.
      enough (Z.to_nat (i / 8) < Z.to_nat ((n + 7) / 8))%nat by lia. apply prefix_index; [lia..|]. zlia.
Qed.

(** C38. The encoding of a mask decodes to a mask with the same bits, two masks
    have the same encoding exactly when they have the same bits, and the
    encoding of a prefix keeps the bits below the count and clears the others. *)
Theorem bitmask_codec m : wf m ->
  (exists e, encode None m = Ok e /\ (forall i, get (decode e) i = get m i) /\
     forall m', wf m' -> (encode None m' = Ok e <-> forall i, get m' i = get m i)) /\
  (forall n, 0 <= n <= size m -> exists e, encode (Some n) m = Ok e /\ forall i, get (decode e) i = (i <? n) && get m i).
Proof.
  intros Hm. split.
  - eexists. split; [done|]. split.
    + intros i. unfold decode. rewrite zero_one_roundtrip. destruct m as [l]. apply get_ext. intros k. apply drop_zeros_at.
    + intros m' Hm'. unfold encode. split.
      * intros He. apply (f_equal (fun r => match r with Ok e => zero_one_decode e | _ => [] end)) in He.
        rewrite !zero_one_roundtrip in He. intros i. destruct m as [l], m' as [l']. apply get_ext. intros k.
        rewrite <- (drop_zeros_at l), <- (drop_zeros_at l'). simpl in He. by rewrite He.
      * intros He. do 2 f_equal. apply drop_zeros_ext. by apply bits_bytes.
  - intros n Hn. destruct (encode_prefix_bits n m 0 Hn) as (e&He&_). exists e. split; [done|]. intros i.
    destruct (encode_prefix_bits n m i Hn) as (e'&He'&Hb). congruence.
Qed.

Lemma bitmask_codec_witness : let m := {| data_ := [255; 255; 3; 0] |} in
  exists e, encode (Some 17) m = Ok e /\ e = [255; 2; 1] /\ forall i, get (decode e) i = (i <? 17) && get m i.
Proof.
  intros m. destruct (bitmask_codec m) as [_ H].
  - unfold wf, is_byte. simpl. repeat constructor; discriminate.
  - destruct (H 17) as (e & He & Hb); [split; discriminate|]. exists e. split; [exact He|]. split; [|exact Hb].
    vm_compute in He. injection He as <-. reflexivity.
Defined.

Lemma ready_loop_spec fuel m p res : 0 <= p + res -> size m - (p + res) <= Z.of_nat fuel ->
  let r := ready_loop fuel m p res in
  res <= r /\ (forall j, p + res <= j < p + r -> get m j = true) /\ get m (p + r) = false.
Proof.
  revert res. induction fuel as [|fuel IH]; intros res Hp Hf; simpl.
  - split_and!; [lia|intros; lia|]. apply get_beyond. lia.
  - destruct (get m (p + res)) eqn:E.
    + destruct (IH (res + 1)) as (H1&H2&H3); [lia..|]. split_and!; [lia| |done]. intros j Hj.
      destruct (decide (j = p + res)) as [->|]; [done|]. apply H2. lia.
    + split_and!; [lia|intros; lia|done].
Qed.

(** The longest run of ready parts. *)
Lemma get_ready_parts_spec m p : 0 <= p ->
  let r := get_ready_parts m p in
  0 <= r /\ (forall j, p <= j < p + r -> get m j = true) /\ get m (p + r) = false.
Proof.
  intros Hp. destruct (ready_loop_spec (Z.to_nat (size m)) m p 0) as (H1&H2&H3); [lia|lia|].
  rewrite Z.add_0_r in H2. done.
Qed.

(** A byte of the file that has been received. *)
Definition received (m : t) (part_size file_size x : Z) : Prop :=
  get m (x / part_size) = true /\ (file_size = 0 \/ x < file_size).

(** The ready prefix at an offset is exactly the run of received bytes that
    starts there: no check fails, every byte of it has been received and the
    byte after it has not; a size of zero stands for an unknown one. *)
Theorem bitmask_ready_prefix m offset part_size file_size : 0 <= offset -> 0 < part_size -> 0 <= file_size ->
  exists r, get_ready_prefix_size m offset part_size file_size = Ok r /\ 0 <= r /\
    (forall x, offset <= x < offset + r -> received m part_size file_size x) /\
    ~ received m part_size file_size (offset + r).
Proof.
  intros Ho Hp Hf. unfold get_ready_prefix_size. rewrite (proj2 (Z.ltb_ge offset 0)) by lia.
  rewrite (proj2 (Z.eqb_neq part_size 0)), (proj2 (Z.ltb_lt 0 part_size)) by lia.
  set (p := offset / part_size). assert (0 <= p) as Hp0 by (apply Z.div_pos; lia).
  destruct (get_ready_parts_spec m p Hp0) as (H1&H2&H3). set (n := get_ready_parts m p) in *.
  assert (offset = part_size * p + offset mod part_size) as Hmod by (apply Z.div_mod; lia).
  pose proof (Z.mod_pos_bound offset part_size Hp) as Hmb. unfold received.
  assert (forall x, offset <= x < (p + n) * part_size -> get m (x / part_size) = true) as Hin.
  { intros x Hx. apply H2. split; [apply Z.div_le_mono; lia|]. apply Z.div_lt_upper_bound; lia. }
  assert (get m ((p + n) * part_size / part_size) = false) as Hend by (by rewrite Z.div_mul by lia).
  destruct (n =? 0) eqn:En; zbool.
  { exists 0. split_and!; [done|lia|lia|]. rewrite Z.add_0_r. fold p. intros [Hg _]. rewrite En, Z.add_0_r in H3. congruence. }
  assert (offset <= (p + n) * part_size) as Hle by nia.
  destruct (file_size =? 0) eqn:E0; zbool; simpl.
  - rewrite (proj2 (Z.leb_le 0 _)) by lia. eexists. split_and!; [done|lia|..].
    + intros x Hx. split; [apply Hin; lia|by left].
    + rewrite Zplus_minus. rewrite Hend. by intros [? _].
  - destruct (file_size <? (p + n) * part_size) eqn:El; zbool.
    + destruct (file_size <? offset) eqn:Efo; zbool; rewrite (proj2 (Z.leb_le 0 _)) by lia;
        eexists; (split_and!; [done|lia| |]).
      * intros x Hx. lia.
      * intros [_ [?|?]]; lia.
      * intros x Hx. split; [apply Hin; lia|right; lia].
      * intros [_ [?|?]]; lia.
    + rewrite (proj2 (Z.leb_le 0 _)) by lia. eexists. split_and!; [done|lia|..].
      * intros x Hx. split; [apply Hin; lia|right; lia].
      * rewrite Zplus_minus. rewrite Hend. by intros [? _].
Qed.

Lemma bitmask_ready_prefix_witness : let m := {| data_ := [7] |} in
  exists r, get_ready_prefix_size m 1500 1000 2700 = Ok r /\ r = 1200 /\
    (forall x, 1500 <= x < 1500 + r -> received m 1000 2700 x).
Proof.
  intros m. destruct (bitmask_ready_prefix m 1500 1000 2700) as (r & Hr & _ & Hx & _); [discriminate|reflexivity|discriminate|].
  exists r. split; [exact Hr|]. split; [|exact Hx]. vm_compute in Hr. injection Hr as <-. reflexivity.
Defined.
End Bitmask.
