(* ===== verification/PartsManager.v ===== *)
(** * PartsManager

    The bookkeeping of a file transfer, td/telegram/files/PartsManager.h and
    PartsManager.cpp: which parts of a file are empty, pending or ready, what is
    known about the size of the file, and which part to transfer next.  The
    fields are those of the class; [with_x] assigns the field [x_].  A method that
    returns a [Status] or a [Result] gives it with the new state, and the outer
    [Res] is a [Panic] when a [CHECK] fails, a vector is read outside of its
    bounds or a narrowing cast loses the value.  The streaming window is chosen by
    the user, so the sums that find its end are [Panic]s when they do not fit into
    an [int64]; the other sums and products are made of part numbers, part sizes
    and file sizes, which the invariant keeps below 2^44.  Log messages at level
    ERROR are printed, so their arguments are evaluated. *)
From S2P Require Import Prelude FileBitmask.
Local Open Scope td_scope.

Inductive PartStatus := Empty | Pending | Ready.
#[global] Instance PartStatus_eq_dec : EqDecision PartStatus.
Proof. solve_decision. Defined.

Record Part := { id : Z; offset : Z; size : Z }.

Definition MAX_PART_COUNT : Z := 4000.
Definition MAX_PART_COUNT_PREMIUM : Z := 8000.
Definition MAX_PART_SIZE : Z := Z.shiftl 512 10.
Definition MAX_FILE_SIZE : Z := MAX_PART_SIZE * MAX_PART_COUNT_PREMIUM.
Definition INT64_MAX : Z := 2 ^ 63 - 1.

Record PartsManager := mkPM {
  is_upload_ : bool;
  need_check_ : bool;
  checked_prefix_size_ : Z;
  known_prefix_flag_ : bool;
  known_prefix_size_ : Z;
  size_ : Z;
  expected_size_ : Z;
  min_size_ : Z;
  max_size_ : Z;
  unknown_size_flag_ : bool;
  ready_size_ : Z;
  streaming_ready_size_ : Z;
  part_size_ : Z;
  part_count_ : Z;
  pending_count_ : Z;
  first_empty_part_ : Z;
  first_not_ready_part_ : Z;
  streaming_offset_ : Z;
  streaming_limit_ : Z;
  first_streaming_empty_part_ : Z;
  first_streaming_not_ready_part_ : Z;
  part_status_ : list PartStatus;
  bitmask_ : Bitmask.t;
  use_part_count_limit_ : bool;
}.

Definition new_parts_manager : PartsManager :=
  mkPM false false 0 false 0 0 0 0 0 false 0 0 0 0 0 0 0 0 0 0 0 [] Bitmask.empty false.

(** ** Assignments *)
Definition with_is_upload (v : bool) (m : PartsManager) : PartsManager :=
  mkPM v (m.(need_check_)) (m.(checked_prefix_size_)) (m.(known_prefix_flag_)) (m.(known_prefix_size_)) (m.(size_))
     (m.(expected_size_)) (m.(min_size_)) (m.(max_size_)) (m.(unknown_size_flag_)) (m.(ready_size_))
     (m.(streaming_ready_size_)) (m.(part_size_)) (m.(part_count_)) (m.(pending_count_)) (m.(first_empty_part_))
     (m.(first_not_ready_part_)) (m.(streaming_offset_)) (m.(streaming_limit_)) (m.(first_streaming_empty_part_))
     (m.(first_streaming_not_ready_part_)) (m.(part_status_)) (m.(bitmask_)) (m.(use_part_count_limit_)).
Definition with_need_check (v : bool) (m : PartsManager) : PartsManager :=
  mkPM (m.(is_upload_)) v (m.(checked_prefix_size_)) (m.(known_prefix_flag_)) (m.(known_prefix_size_)) (m.(size_))
     (m.(expected_size_)) (m.(min_size_)) (m.(max_size_)) (m.(unknown_size_flag_)) (m.(ready_size_))
     (m.(streaming_ready_size_)) (m.(part_size_)) (m.(part_count_)) (m.(pending_count_)) (m.(first_empty_part_))
     (m.(first_not_ready_part_)) (m.(streaming_offset_)) (m.(streaming_limit_)) (m.(first_streaming_empty_part_))
     (m.(first_streaming_not_ready_part_)) (m.(part_status_)) (m.(bitmask_)) (m.(use_part_count_limit_)).
Definition with_checked_prefix_size (v : Z) (m : PartsManager) : PartsManager :=
  mkPM (m.(is_upload_)) (m.(need_check_)) v (m.(known_prefix_flag_)) (m.(known_prefix_size_)) (m.(size_))
     (m.(expected_size_)) (m.(min_size_)) (m.(max_size_)) (m.(unknown_size_flag_)) (m.(ready_size_))
     (m.(streaming_ready_size_)) (m.(part_size_)) (m.(part_count_)) (m.(pending_count_)) (m.(first_empty_part_))
     (m.(first_not_ready_part_)) (m.(streaming_offset_)) (m.(streaming_limit_)) (m.(first_streaming_empty_part_))
     (m.(first_streaming_not_ready_part_)) (m.(part_status_)) (m.(bitmask_)) (m.(use_part_count_limit_)).
Definition with_known_prefix_flag (v : bool) (m : PartsManager) : PartsManager :=
  mkPM (m.(is_upload_)) (m.(need_check_)) (m.(checked_prefix_size_)) v (m.(known_prefix_size_)) (m.(size_))
     (m.(expected_size_)) (m.(min_size_)) (m.(max_size_)) (m.(unknown_size_flag_)) (m.(ready_size_))
     (m.(streaming_ready_size_)) (m.(part_size_)) (m.(part_count_)) (m.(pending_count_)) (m.(first_empty_part_))
     (m.(first_not_ready_part_)) (m.(streaming_offset_)) (m.(streaming_limit_)) (m.(first_streaming_empty_part_))
     (m.(first_streaming_not_ready_part_)) (m.(part_status_)) (m.(bitmask_)) (m.(use_part_count_limit_)).
Definition with_known_prefix_size (v : Z) (m : PartsManager) : PartsManager :=
  mkPM (m.(is_upload_)) (m.(need_check_)) (m.(checked_prefix_size_)) (m.(known_prefix_flag_)) v (m.(size_))
     (m.(expected_size_)) (m.(min_size_)) (m.(max_size_)) (m.(unknown_size_flag_)) (m.(ready_size_))
     (m.(streaming_ready_size_)) (m.(part_size_)) (m.(part_count_)) (m.(pending_count_)) (m.(first_empty_part_))
     (m.(first_not_ready_part_)) (m.(streaming_offset_)) (m.(streaming_limit_)) (m.(first_streaming_empty_part_))
     (m.(first_streaming_not_ready_part_)) (m.(part_status_)) (m.(bitmask_)) (m.(use_part_count_limit_)).
Definition with_size (v : Z) (m : PartsManager) : PartsManager :=
  mkPM (m.(is_upload_)) (m.(need_check_)) (m.(checked_prefix_size_)) (m.(known_prefix_flag_)) (m.(known_prefix_size_))
     v (m.(expected_size_)) (m.(min_size_)) (m.(max_size_)) (m.(unknown_size_flag_)) (m.(ready_size_))
     (m.(streaming_ready_size_)) (m.(part_size_)) (m.(part_count_)) (m.(pending_count_)) (m.(first_empty_part_))
     (m.(first_not_ready_part_)) (m.(streaming_offset_)) (m.(streaming_limit_)) (m.(first_streaming_empty_part_))
     (m.(first_streaming_not_ready_part_)) (m.(part_status_)) (m.(bitmask_)) (m.(use_part_count_limit_)).
Definition with_expected_size (v : Z) (m : PartsManager) : PartsManager :=
  mkPM (m.(is_upload_)) (m.(need_check_)) (m.(checked_prefix_size_)) (m.(known_prefix_flag_)) (m.(known_prefix_size_))
     (m.(size_)) v (m.(min_size_)) (m.(max_size_)) (m.(unknown_size_flag_)) (m.(ready_size_))
     (m.(streaming_ready_size_)) (m.(part_size_)) (m.(part_count_)) (m.(pending_count_)) (m.(first_empty_part_))
     (m.(first_not_ready_part_)) (m.(streaming_offset_)) (m.(streaming_limit_)) (m.(first_streaming_empty_part_))
     (m.(first_streaming_not_ready_part_)) (m.(part_status_)) (m.(bitmask_)) (m.(use_part_count_limit_)).
Definition with_min_size (v : Z) (m : PartsManager) : PartsManager :=
  mkPM (m.(is_upload_)) (m.(need_check_)) (m.(checked_prefix_size_)) (m.(known_prefix_flag_)) (m.(known_prefix_size_))
     (m.(size_)) (m.(expected_size_)) v (m.(max_size_)) (m.(unknown_size_flag_)) (m.(ready_size_))
     (m.(streaming_ready_size_)) (m.(part_size_)) (m.(part_count_)) (m.(pending_count_)) (m.(first_empty_part_))
     (m.(first_not_ready_part_)) (m.(streaming_offset_)) (m.(streaming_limit_)) (m.(first_streaming_empty_part_))
     (m.(first_streaming_not_ready_part_)) (m.(part_status_)) (m.(bitmask_)) (m.(use_part_count_limit_)).
Definition with_max_size (v : Z) (m : PartsManager) : PartsManager :=
  mkPM (m.(is_upload_)) (m.(need_check_)) (m.(checked_prefix_size_)) (m.(known_prefix_flag_)) (m.(known_prefix_size_))
     (m.(size_)) (m.(expected_size_)) (m.(min_size_)) v (m.(unknown_size_flag_)) (m.(ready_size_))
     (m.(streaming_ready_size_)) (m.(part_size_)) (m.(part_count_)) (m.(pending_count_)) (m.(first_empty_part_))
     (m.(first_not_ready_part_)) (m.(streaming_offset_)) (m.(streaming_limit_)) (m.(first_streaming_empty_part_))
     (m.(first_streaming_not_ready_part_)) (m.(part_status_)) (m.(bitmask_)) (m.(use_part_count_limit_)).
Definition with_unknown_size_flag (v : bool) (m : PartsManager) : PartsManager :=
  mkPM (m.(is_upload_)) (m.(need_check_)) (m.(checked_prefix_size_)) (m.(known_prefix_flag_)) (m.(known_prefix_size_))
     (m.(size_)) (m.(expected_size_)) (m.(min_size_)) (m.(max_size_)) v (m.(ready_size_)) (m.(streaming_ready_size_))
     (m.(part_size_)) (m.(part_count_)) (m.(pending_count_)) (m.(first_empty_part_)) (m.(first_not_ready_part_))
     (m.(streaming_offset_)) (m.(streaming_limit_)) (m.(first_streaming_empty_part_))
     (m.(first_streaming_not_ready_part_)) (m.(part_status_)) (m.(bitmask_)) (m.(use_part_count_limit_)).
Definition with_ready_size (v : Z) (m : PartsManager) : PartsManager :=
  mkPM (m.(is_upload_)) (m.(need_check_)) (m.(checked_prefix_size_)) (m.(known_prefix_flag_)) (m.(known_prefix_size_))
     (m.(size_)) (m.(expected_size_)) (m.(min_size_)) (m.(max_size_)) (m.(unknown_size_flag_)) v
     (m.(streaming_ready_size_)) (m.(part_size_)) (m.(part_count_)) (m.(pending_count_)) (m.(first_empty_part_))
     (m.(first_not_ready_part_)) (m.(streaming_offset_)) (m.(streaming_limit_)) (m.(first_streaming_empty_part_))
     (m.(first_streaming_not_ready_part_)) (m.(part_status_)) (m.(bitmask_)) (m.(use_part_count_limit_)).
Definition with_streaming_ready_size (v : Z) (m : PartsManager) : PartsManager :=
  mkPM (m.(is_upload_)) (m.(need_check_)) (m.(checked_prefix_size_)) (m.(known_prefix_flag_)) (m.(known_prefix_size_))
     (m.(size_)) (m.(expected_size_)) (m.(min_size_)) (m.(max_size_)) (m.(unknown_size_flag_)) (m.(ready_size_)) v
     (m.(part_size_)) (m.(part_count_)) (m.(pending_count_)) (m.(first_empty_part_)) (m.(first_not_ready_part_))
     (m.(streaming_offset_)) (m.(streaming_limit_)) (m.(first_streaming_empty_part_))
     (m.(first_streaming_not_ready_part_)) (m.(part_status_)) (m.(bitmask_)) (m.(use_part_count_limit_)).
Definition with_part_size (v : Z) (m : PartsManager) : PartsManager :=
  mkPM (m.(is_upload_)) (m.(need_check_)) (m.(checked_prefix_size_)) (m.(known_prefix_flag_)) (m.(known_prefix_size_))
     (m.(size_)) (m.(expected_size_)) (m.(min_size_)) (m.(max_size_)) (m.(unknown_size_flag_)) (m.(ready_size_))
     (m.(streaming_ready_size_)) v (m.(part_count_)) (m.(pending_count_)) (m.(first_empty_part_))
     (m.(first_not_ready_part_)) (m.(streaming_offset_)) (m.(streaming_limit_)) (m.(first_streaming_empty_part_))
     (m.(first_streaming_not_ready_part_)) (m.(part_status_)) (m.(bitmask_)) (m.(use_part_count_limit_)).
Definition with_part_count (v : Z) (m : PartsManager) : PartsManager :=
  mkPM (m.(is_upload_)) (m.(need_check_)) (m.(checked_prefix_size_)) (m.(known_prefix_flag_)) (m.(known_prefix_size_))
     (m.(size_)) (m.(expected_size_)) (m.(min_size_)) (m.(max_size_)) (m.(unknown_size_flag_)) (m.(ready_size_))
     (m.(streaming_ready_size_)) (m.(part_size_)) v (m.(pending_count_)) (m.(first_empty_part_))
     (m.(first_not_ready_part_)) (m.(streaming_offset_)) (m.(streaming_limit_)) (m.(first_streaming_empty_part_))
     (m.(first_streaming_not_ready_part_)) (m.(part_status_)) (m.(bitmask_)) (m.(use_part_count_limit_)).
Definition with_pending_count (v : Z) (m : PartsManager) : PartsManager :=
  mkPM (m.(is_upload_)) (m.(need_check_)) (m.(checked_prefix_size_)) (m.(known_prefix_flag_)) (m.(known_prefix_size_))
     (m.(size_)) (m.(expected_size_)) (m.(min_size_)) (m.(max_size_)) (m.(unknown_size_flag_)) (m.(ready_size_))
     (m.(streaming_ready_size_)) (m.(part_size_)) (m.(part_count_)) v (m.(first_empty_part_))
     (m.(first_not_ready_part_)) (m.(streaming_offset_)) (m.(streaming_limit_)) (m.(first_streaming_empty_part_))
     (m.(first_streaming_not_ready_part_)) (m.(part_status_)) (m.(bitmask_)) (m.(use_part_count_limit_)).
Definition with_first_empty_part (v : Z) (m : PartsManager) : PartsManager :=
  mkPM (m.(is_upload_)) (m.(need_check_)) (m.(checked_prefix_size_)) (m.(known_prefix_flag_)) (m.(known_prefix_size_))
     (m.(size_)) (m.(expected_size_)) (m.(min_size_)) (m.(max_size_)) (m.(unknown_size_flag_)) (m.(ready_size_))
     (m.(streaming_ready_size_)) (m.(part_size_)) (m.(part_count_)) (m.(pending_count_)) v (m.(first_not_ready_part_))
     (m.(streaming_offset_)) (m.(streaming_limit_)) (m.(first_streaming_empty_part_))
     (m.(first_streaming_not_ready_part_)) (m.(part_status_)) (m.(bitmask_)) (m.(use_part_count_limit_)).
Definition with_first_not_ready_part (v : Z) (m : PartsManager) : PartsManager :=
  mkPM (m.(is_upload_)) (m.(need_check_)) (m.(checked_prefix_size_)) (m.(known_prefix_flag_)) (m.(known_prefix_size_))
     (m.(size_)) (m.(expected_size_)) (m.(min_size_)) (m.(max_size_)) (m.(unknown_size_flag_)) (m.(ready_size_))
     (m.(streaming_ready_size_)) (m.(part_size_)) (m.(part_count_)) (m.(pending_count_)) (m.(first_empty_part_)) v
     (m.(streaming_offset_)) (m.(streaming_limit_)) (m.(first_streaming_empty_part_))
     (m.(first_streaming_not_ready_part_)) (m.(part_status_)) (m.(bitmask_)) (m.(use_part_count_limit_)).
Definition with_streaming_offset (v : Z) (m : PartsManager) : PartsManager :=
  mkPM (m.(is_upload_)) (m.(need_check_)) (m.(checked_prefix_size_)) (m.(known_prefix_flag_)) (m.(known_prefix_size_))
     (m.(size_)) (m.(expected_size_)) (m.(min_size_)) (m.(max_size_)) (m.(unknown_size_flag_)) (m.(ready_size_))
     (m.(streaming_ready_size_)) (m.(part_size_)) (m.(part_count_)) (m.(pending_count_)) (m.(first_empty_part_))
     (m.(first_not_ready_part_)) v (m.(streaming_limit_)) (m.(first_streaming_empty_part_))
     (m.(first_streaming_not_ready_part_)) (m.(part_status_)) (m.(bitmask_)) (m.(use_part_count_limit_)).
Definition with_streaming_limit (v : Z) (m : PartsManager) : PartsManager :=
  mkPM (m.(is_upload_)) (m.(need_check_)) (m.(checked_prefix_size_)) (m.(known_prefix_flag_)) (m.(known_prefix_size_))
     (m.(size_)) (m.(expected_size_)) (m.(min_size_)) (m.(max_size_)) (m.(unknown_size_flag_)) (m.(ready_size_))
     (m.(streaming_ready_size_)) (m.(part_size_)) (m.(part_count_)) (m.(pending_count_)) (m.(first_empty_part_))
     (m.(first_not_ready_part_)) (m.(streaming_offset_)) v (m.(first_streaming_empty_part_))
     (m.(first_streaming_not_ready_part_)) (m.(part_status_)) (m.(bitmask_)) (m.(use_part_count_limit_)).
Definition with_first_streaming_empty_part (v : Z) (m : PartsManager) : PartsManager :=
  mkPM (m.(is_upload_)) (m.(need_check_)) (m.(checked_prefix_size_)) (m.(known_prefix_flag_)) (m.(known_prefix_size_))
     (m.(size_)) (m.(expected_size_)) (m.(min_size_)) (m.(max_size_)) (m.(unknown_size_flag_)) (m.(ready_size_))
     (m.(streaming_ready_size_)) (m.(part_size_)) (m.(part_count_)) (m.(pending_count_)) (m.(first_empty_part_))
     (m.(first_not_ready_part_)) (m.(streaming_offset_)) (m.(streaming_limit_)) v (m.(first_streaming_not_ready_part_))
     (m.(part_status_)) (m.(bitmask_)) (m.(use_part_count_limit_)).
Definition with_first_streaming_not_ready_part (v : Z) (m : PartsManager) : PartsManager :=
  mkPM (m.(is_upload_)) (m.(need_check_)) (m.(checked_prefix_size_)) (m.(known_prefix_flag_)) (m.(known_prefix_size_))
     (m.(size_)) (m.(expected_size_)) (m.(min_size_)) (m.(max_size_)) (m.(unknown_size_flag_)) (m.(ready_size_))
     (m.(streaming_ready_size_)) (m.(part_size_)) (m.(part_count_)) (m.(pending_count_)) (m.(first_empty_part_))
     (m.(first_not_ready_part_)) (m.(streaming_offset_)) (m.(streaming_limit_)) (m.(first_streaming_empty_part_)) v
     (m.(part_status_)) (m.(bitmask_)) (m.(use_part_count_limit_)).
Definition with_part_status (v : list PartStatus) (m : PartsManager) : PartsManager :=
  mkPM (m.(is_upload_)) (m.(need_check_)) (m.(checked_prefix_size_)) (m.(known_prefix_flag_)) (m.(known_prefix_size_))
     (m.(size_)) (m.(expected_size_)) (m.(min_size_)) (m.(max_size_)) (m.(unknown_size_flag_)) (m.(ready_size_))
     (m.(streaming_ready_size_)) (m.(part_size_)) (m.(part_count_)) (m.(pending_count_)) (m.(first_empty_part_))
     (m.(first_not_ready_part_)) (m.(streaming_offset_)) (m.(streaming_limit_)) (m.(first_streaming_empty_part_))
     (m.(first_streaming_not_ready_part_)) v (m.(bitmask_)) (m.(use_part_count_limit_)).
Definition with_bitmask (v : Bitmask.t) (m : PartsManager) : PartsManager :=
  mkPM (m.(is_upload_)) (m.(need_check_)) (m.(checked_prefix_size_)) (m.(known_prefix_flag_)) (m.(known_prefix_size_))
     (m.(size_)) (m.(expected_size_)) (m.(min_size_)) (m.(max_size_)) (m.(unknown_size_flag_)) (m.(ready_size_))
     (m.(streaming_ready_size_)) (m.(part_size_)) (m.(part_count_)) (m.(pending_count_)) (m.(first_empty_part_))
     (m.(first_not_ready_part_)) (m.(streaming_offset_)) (m.(streaming_limit_)) (m.(first_streaming_empty_part_))
     (m.(first_streaming_not_ready_part_)) (m.(part_status_)) v (m.(use_part_count_limit_)).
Definition with_use_part_count_limit (v : bool) (m : PartsManager) : PartsManager :=
  mkPM (m.(is_upload_)) (m.(need_check_)) (m.(checked_prefix_size_)) (m.(known_prefix_flag_)) (m.(known_prefix_size_))
     (m.(size_)) (m.(expected_size_)) (m.(min_size_)) (m.(max_size_)) (m.(unknown_size_flag_)) (m.(ready_size_))
     (m.(streaming_ready_size_)) (m.(part_size_)) (m.(part_count_)) (m.(pending_count_)) (m.(first_empty_part_))
     (m.(first_not_ready_part_)) (m.(streaming_offset_)) (m.(streaming_limit_)) (m.(first_streaming_empty_part_))
     (m.(first_streaming_not_ready_part_)) (m.(part_status_)) (m.(bitmask_)) v.

(** [narrow_cast<int>] of a non-negative value. *)
Definition narrow_int (z : Z) : Res Z := CHECK! z <? 2 ^ 31 else "narrow_cast" in Ok z.

(** [part_status_[part_id]] *)
Definition status (m : PartsManager) (part_id : Z) : Res PartStatus :=
  match (if part_id <? 0 then None else part_status_ m !! Z.to_nat part_id) with
  | Some s => Ok s
  | None => Panic "vector index"
  end.
Definition put_status (part_id : Z) (s : PartStatus) (m : PartsManager) : PartsManager :=
  with_part_status (<[Z.to_nat part_id := s]> (part_status_ m)) m.
Definition resize_status (n : Z) (m : PartsManager) : PartsManager :=
  with_part_status (take (Z.to_nat n) (part_status_ m) ++ replicate (Z.to_nat n - length (part_status_ m)) Empty) m.

Definition calc_part_count (size part_size : Z) : Res Z :=
  CHECK! negb (part_size =? 0) else "part_size != 0" in Ok ((size + part_size - 1) / part_size).

Definition get_size (m : PartsManager) : Res Z :=
  CHECK! negb (unknown_size_flag_ m) else "!unknown_size_flag_" in Ok (size_ m).
Definition get_size_or_zero (m : PartsManager) : Z := size_ m.
Definition get_ready_size (m : PartsManager) : Z := ready_size_ m.
Definition get_part_size (m : PartsManager) : Z := part_size_ m.
Definition get_part_count (m : PartsManager) : Z := part_count_ m.
Definition get_streaming_offset (m : PartsManager) : Z := streaming_offset_ m.
Definition get_checked_prefix_size (m : PartsManager) : Z := checked_prefix_size_ m.
Definition set_checked_prefix_size (size : Z) (m : PartsManager) : PartsManager := with_checked_prefix_size size m.

Definition get_part (m : PartsManager) (part_id : Z) : Part :=
  let size := part_size_ m in
  let offset := size * part_id in
  let total_size := if unknown_size_flag_ m then max_size_ m else size_ m in
  let size := if total_size <? offset then 0 else Z.min size (total_size - offset) in
  {| id := part_id; offset := offset; size := size |}.
Definition get_empty_part : Part := {| id := -1; offset := 0; size := 0 |}.

(** ** Streaming *)
Definition is_intersect_with (offset_begin offset_end b e : Z) : bool := Z.max b offset_begin <? Z.min e offset_end.

(** The sum of two [int64]; the overflow of a signed integer is undefined. *)
Definition add_int64 (a b : Z) : Res Z :=
  CHECK! (- 2 ^ 63 <=? a + b) && (a + b <=? INT64_MAX) else "int64 overflow" in Ok (a + b).

Definition is_part_in_streaming_limit (m : PartsManager) (part_id : Z) : Res bool :=
  CHECK! part_id <? part_count_ m else "part_id < part_count_" in
  let offset_begin := part_id * get_part_size m in
  let offset_end := offset_begin + size (get_part m part_id) in
  if streaming_limit_ m =? 0 then Ok true
  else
    let streaming_begin := streaming_offset_ m in
    let* streaming_end := add_int64 (streaming_offset_ m) (streaming_limit_ m) in
    if is_intersect_with offset_begin offset_end streaming_begin streaming_end then Ok true
    else
      Ok (negb (unknown_size_flag_ m) && (size_ m <? streaming_end)
          && is_intersect_with offset_begin offset_end 0 (streaming_end - size_ m)).

(** The size of the ready parts in the streaming limit. *)
Fixpoint sum_streaming_ready (m : PartsManager) (part_ids : list Z) (sum : Z) : Res Z :=
  match part_ids with
  | [] => Ok sum
  | part_id :: part_ids =>
      let* b := is_part_in_streaming_limit m part_id in
      if b then
        let* s := status m part_id in
        sum_streaming_ready m part_ids (if bool_decide (s = Ready) then sum + size (get_part m part_id) else sum)
      else sum_streaming_ready m part_ids sum
  end.

Definition set_streaming_limit (limit : Z) (m : PartsManager) : Res PartsManager :=
  let m := with_streaming_ready_size 0 (with_streaming_limit limit m) in
  if limit =? 0 then Ok m
  else
    let* sum := sum_streaming_ready m (seqZ 0 (part_count_ m)) 0 in
    Ok (with_streaming_ready_size sum m).

(** The loops [while (i < part_count_ && p(part_status_[i])) i++]. *)
Fixpoint skip_parts (fuel : nat) (p : PartStatus -> bool) (m : PartsManager) (i : Z) : Res Z :=
  if i <? part_count_ m then
    let* s := status m i in
    if p s then match fuel with O => Panic "fuel" | S fuel => skip_parts fuel p m (i + 1) end else Ok i
  else Ok i.
Definition skip (p : PartStatus -> bool) (m : PartsManager) (i : Z) : Res Z :=
  skip_parts (Z.to_nat (part_count_ m - i)) p m i.

Definition not_empty (s : PartStatus) : bool := negb (bool_decide (s = Empty)).
Definition is_ready (s : PartStatus) : bool := bool_decide (s = Ready).

Definition update_first_empty_part (m : PartsManager) : Res PartsManager :=
  let* i := skip not_empty m (first_empty_part_ m) in
  let m := with_first_empty_part i m in
  if streaming_offset_ m =? 0 then Ok (with_first_streaming_empty_part (first_empty_part_ m) m)
  else
    let* i := skip not_empty m (first_streaming_empty_part_ m) in
    Ok (with_first_streaming_empty_part i m).

Definition update_first_not_ready_part (m : PartsManager) : Res PartsManager :=
  let* i := skip is_ready m (first_not_ready_part_ m) in
  let m := with_first_not_ready_part i m in
  if streaming_offset_ m =? 0 then Ok (with_first_streaming_not_ready_part (first_not_ready_part_ m) m)
  else
    let* i := skip is_ready m (first_streaming_not_ready_part_ m) in
    Ok (with_first_streaming_not_ready_part i m).

Definition set_streaming_offset (offset limit : Z) (m : PartsManager) : Res (Z * PartsManager) :=
  let finish (m : PartsManager) :=
    let* m := set_streaming_limit limit m in
    let* m := update_first_not_ready_part m in
    Ok (first_streaming_not_ready_part_ m, m) in
  if (offset <? 0) || need_check_ m || (negb (unknown_size_flag_ m) && (size_ m <? offset)) then
    let m := with_streaming_offset 0 m in
    (* the size is an argument of the message *)
    let* _ := if negb (offset =? 0) then get_size m else Ok 0 in
    finish m
  else
    let part_id := offset / part_size_ m in
    if use_part_count_limit_ m && (MAX_PART_COUNT_PREMIUM <=? part_id) then finish (with_streaming_offset 0 m)
    else
      let* part_id := narrow_int part_id in
      let m := with_first_streaming_not_ready_part part_id (with_first_streaming_empty_part part_id (with_streaming_offset offset m)) in
      let m := if part_count_ m <? part_id then resize_status part_id (with_part_count part_id m) else m in
      finish m.

(** ** Progress *)
Definition unchecked_ready (m : PartsManager) : bool := negb (unknown_size_flag_ m) && (ready_size_ m =? size_ m).
Definition ready (m : PartsManager) : bool :=
  unchecked_ready m && (negb (need_check_ m) || (checked_prefix_size_ m =? size_ m)).

Definition get_unchecked_ready_prefix_count (m : PartsManager) : Res (Z * PartsManager) :=
  let* m := update_first_not_ready_part m in Ok (first_not_ready_part_ m, m).

Definition get_ready_prefix_count (m : PartsManager) : Res (Z * PartsManager) :=
  let* (res, m) := get_unchecked_ready_prefix_count m in
  if need_check_ m then
    let* checked_parts := narrow_int (checked_prefix_size_ m / part_size_ m) in
    Ok (if checked_parts <? res then checked_parts else res, m)
  else Ok (res, m).

Definition get_unchecked_ready_prefix_size (m : PartsManager) : Res (Z * PartsManager) :=
  let* m := update_first_not_ready_part m in
  let count := first_not_ready_part_ m in
  if count =? 0 then Ok (0, m)
  else
    let part := get_part m (count - 1) in
    Ok (if unknown_size_flag_ m then offset part else Z.min (offset part + size part) (size_ m), m).

Definition get_bitmask (m : PartsManager) : Res (list Z) :=
  if need_check_ m then
    let* prefix_count := narrow_int (checked_prefix_size_ m / part_size_ m) in
    Bitmask.encode (Some prefix_count) (bitmask_ m)
  else Bitmask.encode None (bitmask_ m).

Definition get_expected_size (m : PartsManager) : Z :=
  if unknown_size_flag_ m
  then Z.min (Z.max (min_size_ m + Z.shiftl 512 10) (get_ready_size m * 2)) (max_size_ m)
  else size_ m.

Definition round_up (part_size size : Z) : Res Z :=
  let* sum := add_int64 size part_size in Ok ((sum - 1) / part_size * part_size).

(** The number of bytes in the streaming limit, in whole parts. *)
Definition streaming_size (m : PartsManager) : Res Z :=
  let ps := get_part_size m in
  let streaming_begin := streaming_offset_ m / ps * ps in
  let* streaming_end := add_int64 (streaming_offset_ m) (streaming_limit_ m) in
  if unknown_size_flag_ m then
    let* up := round_up ps streaming_end in
    Ok (Z.min up (max_size_ m) - Z.min streaming_begin (max_size_ m))
  else if streaming_end <=? size_ m then
    let* up := round_up ps streaming_end in
    Ok (Z.min up (size_ m) - streaming_begin)
  else if streaming_offset_ m <? size_ m then
    let* up := round_up ps (streaming_end - size_ m) in
    let prefix := Z.min up (size_ m) in
    let suffix := size_ m - streaming_begin in
    Ok (Z.min (size_ m) (prefix + suffix))
  else Ok 0.

Definition get_estimated_extra (m : PartsManager) : Res Z :=
  if negb (streaming_limit_ m =? 0) then
    let* res := streaming_size m in
    let* sub := sum_streaming_ready m (seqZ 0 (part_count_ m)) 0 in
    CHECK! sub =? streaming_ready_size_ m else "sub == streaming_ready_size_" in
    let res := res - streaming_ready_size_ m in
    CHECK! 0 <=? res else "res >= 0" in
    Ok res
  else Ok (get_expected_size m - get_ready_size m).

Definition is_streaming_limit_reached (m : PartsManager) : Res (bool * PartsManager) :=
  if streaming_limit_ m =? 0 then Ok (false, m)
  else
    let* m := update_first_not_ready_part m in
    let part_id := first_streaming_not_ready_part_ m in
    let part_id := if negb (unknown_size_flag_ m) && (part_id =? part_count_ m) then first_not_ready_part_ m else part_id in
    let* b := if part_id =? part_count_ m then Ok true
              else let* b := is_part_in_streaming_limit m part_id in Ok (negb b) in
    if b then let* extra := get_estimated_extra m in Ok (extra =? 0, m) else Ok (false, m).

Definition may_finish (m : PartsManager) : Res (bool * PartsManager) :=
  let* (b, m) := is_streaming_limit_reached m in
  Ok (b || ready m, m).

Definition finish (m : PartsManager) : Res (Res unit * PartsManager) :=
  if ready m then Ok (Ok tt, m)
  else
    let* (b, m) := is_streaming_limit_reached m in
    Ok (if b then Error 0 "FILE_DOWNLOAD_LIMIT" else Error 0 "File transferring not finished", m).

Definition set_need_check (m : PartsManager) : Res PartsManager :=
  let* (_, m) := set_streaming_offset 0 0 (with_need_check true m) in Ok m.

(** ** Initialization *)

(** The loop over [ready_parts] of [init_common]. *)
Fixpoint init_ready_parts (ready_parts : list Z) (m : PartsManager) : Res (Res unit * PartsManager) :=
  match ready_parts with
  | [] => Ok (Ok tt, m)
  | i :: ready_parts =>
      if known_prefix_flag_ m && (known_prefix_size_ m / part_size_ m <=? i) then
        CHECK! is_upload_ m else "is_upload_" in Ok (Error 0 "FILE_UPLOAD_RESTART", m)
      else if is_upload_ m && (part_count_ m <=? i) then Ok (Error 0 "FILE_UPLOAD_RESTART", m)
      else
        CHECK! (0 <=? i) && (i <? part_count_ m) else "0 <= i && i < part_count_" in
        let m := put_status i Ready m in
        let* bitmask := Bitmask.set i (bitmask_ m) in
        let m := with_bitmask bitmask m in
        init_ready_parts ready_parts (with_ready_size (ready_size_ m + size (get_part m i)) m)
  end.

Definition init_common (ready_parts : list Z) (m : PartsManager) : Res (Res unit * PartsManager) :=
  let m := with_ready_size 0 (with_streaming_ready_size 0 (with_pending_count 0
             (with_first_empty_part 0 (with_first_not_ready_part 0 m)))) in
  let m := with_part_status (replicate (Z.to_nat (part_count_ m)) Empty) m in
  let* (r, m) := init_ready_parts ready_parts m in
  match r with
  | Ok _ =>
      let* (count, m) := get_ready_prefix_count m in
      Ok (Ok tt, with_checked_prefix_size (count * part_size_ m) m)
  | e => Ok (e, m)
  end.

(** The loops that double the part size. *)
Fixpoint grow_part_size (fuel : nat) (expected_size part_size : Z) : Res Z :=
  match fuel with
  | O => Panic "fuel"
  | S fuel =>
      let* count := calc_part_count expected_size part_size in
      if (part_size <? MAX_PART_SIZE) && (MAX_PART_COUNT <? count)
      then grow_part_size fuel expected_size (part_size * 2) else Ok part_size
  end.

Definition init_no_size (part_size : Z) (ready_parts : list Z) (m : PartsManager) : Res (Res unit * PartsManager) :=
  let m := with_max_size INT64_MAX (with_min_size 0 (with_size 0 (with_unknown_size_flag true m))) in
  let* part_size :=
    if negb (part_size =? 0) then Ok part_size
    else
      let* part_size := grow_part_size 6 (expected_size_ m) (Z.shiftl 32 10) in
      Ok (if part_size <? MAX_PART_SIZE then part_size * 2 else part_size) in
  let m := with_part_size part_size m in
  let m := with_part_count (fold_left (fun a b => Z.max a (b + 1)) ready_parts 0) m in
  init_common ready_parts m.

Definition init_known_prefix (known_prefix part_size : Z) (ready_parts : list Z) (m : PartsManager) : Res (Res unit * PartsManager) :=
  init_no_size part_size ready_parts (with_known_prefix_size known_prefix (with_known_prefix_flag true m)).

(** The part size of a file whose size is known. *)
Definition init_part_size (part_size : Z) (m : PartsManager) : Res (Res unit * PartsManager) :=
  if negb (part_size =? 0) then
    let m := with_part_size part_size m in
    let* count := calc_part_count (expected_size_ m) (part_size_ m) in
    if use_part_count_limit_ m && (part_size_ m <? MAX_PART_SIZE) && (MAX_PART_COUNT <? count) then
      CHECK! is_upload_ m else "is_upload_" in Ok (Error 0 "FILE_UPLOAD_RESTART", m)
    else Ok (Ok tt, m)
  else
    let* part_size := grow_part_size 6 (expected_size_ m) (Z.shiftl 64 10) in
    Ok (Ok tt, with_part_size part_size m).

Definition init (size expected_size : Z) (is_size_final : bool) (part_size : Z) (ready_parts : list Z)
    (use_part_count_limit is_upload : bool) (m : PartsManager) : Res (Res unit * PartsManager) :=
  CHECK! size <=? expected_size else "expected_size >= size" in
  let m := with_expected_size expected_size (with_use_part_count_limit use_part_count_limit (with_is_upload is_upload m)) in
  if MAX_FILE_SIZE <? expected_size then Ok (Error 0 "Too big file", m)
  else if negb is_size_final then init_known_prefix size part_size ready_parts m
  else if size =? 0 then init_no_size part_size ready_parts m
  else
    CHECK! 0 <? size else "size > 0" in
    let m := with_size size (with_unknown_size_flag false m) in
    let* (r, m) := init_part_size part_size m in
    match r with
    | Ok _ =>
        let* count := calc_part_count expected_size (part_size_ m) in
        CHECK! negb use_part_count_limit || (count <=? MAX_PART_COUNT_PREMIUM) else "calc_part_count <= MAX_PART_COUNT_PREMIUM" in
        let* count := calc_part_count (size_ m) (part_size_ m) in
        init_common ready_parts (with_part_count (s32 count) m)
    | e => Ok (e, m)
    end.

(** ** Parts *)
Definition on_part_start (part_id : Z) (m : PartsManager) : Res PartsManager :=
  let* s := status m part_id in
  CHECK! bool_decide (s = Empty) else "part_status_[part_id] == PartStatus::Empty" in
  Ok (with_pending_count (pending_count_ m + 1) (put_status part_id Pending m)).

(** The end of [start_part], once the part is chosen. *)
Definition start_at (part_id : Z) (m : PartsManager) : Res (Res Part * PartsManager) :=
  let* b := is_part_in_streaming_limit m part_id in
  if negb b || ((if unknown_size_flag_ m then max_size_ m else size_ m) <=? part_id * get_part_size m)
  then Ok (Ok get_empty_part, m)
  else
    let* s := status m part_id in
    CHECK! bool_decide (s = Empty) else "part_status_[part_id] == PartStatus::Empty" in
    let* m := on_part_start part_id m in
    Ok (Ok (get_part m part_id), m).

Definition start_part (m : PartsManager) : Res (Res Part * PartsManager) :=
  let* m := update_first_empty_part m in
  let part_id := first_streaming_empty_part_ m in
  if known_prefix_flag_ m && (known_prefix_size_ m / part_size_ m <=? part_id)
  then Ok (Error (-1) "Wait for prefix to be known", m)
  else
    if part_id =? part_count_ m then
      if unknown_size_flag_ m then
        let m := with_part_count (part_count_ m + 1) m in
        if MAX_PART_COUNT_PREMIUM + (if use_part_count_limit_ m then 0 else 64) <? part_count_ m then
          Ok (Error 0 (if negb (is_upload_ m) then "FILE_DOWNLOAD_RESTART_INCREASE_PART_SIZE"
                       else "Too big file with unknown size"), m)
        else start_at part_id (with_part_status (part_status_ m ++ [Empty]) m)
      else if first_empty_part_ m <? part_count_ m then start_at (first_empty_part_ m) m
      else Ok (Ok get_empty_part, m)
    else start_at part_id m.

Definition set_known_prefix (size : Z) (is_ready : bool) (m : PartsManager) : Res (Res unit * PartsManager) :=
  if negb (known_prefix_flag_ m) || (size <? known_prefix_size_ m)
     || (negb is_ready && (size / part_size_ m <? Z.of_nat (length (part_status_ m))))
  then CHECK! is_upload_ m else "is_upload_" in Ok (Error 0 "FILE_UPLOAD_RESTART", m)
  else
    let m := with_known_prefix_size size m in
    let m := with_expected_size (Z.max (known_prefix_size_ m) (expected_size_ m)) m in
    CHECK! part_count_ m =? Z.of_nat (length (part_status_ m)) else "part_count_ == part_status_.size()" in
    let* m :=
      if is_ready then
        let* count := calc_part_count size (part_size_ m) in
        let m := with_part_count (s32 count) m in
        let m := with_known_prefix_flag false (with_unknown_size_flag false (with_size size m)) in
        if negb (streaming_limit_ m =? 0) then set_streaming_limit (streaming_limit_ m) m else Ok m
      else Ok (with_part_count (s32 (size / part_size_ m)) m) in
    CHECK! Z.of_nat (length (part_status_ m)) <=? part_count_ m else "part_count_ >= part_status_.size()" in
    let m := resize_status (part_count_ m) m in
    let* count := calc_part_count (expected_size_ m) (part_size_ m) in
    if use_part_count_limit_ m && (part_size_ m <? MAX_PART_SIZE) && (MAX_PART_COUNT <? count) then
      CHECK! is_upload_ m else "is_upload_" in Ok (Error 0 "FILE_UPLOAD_RESTART", m)
    else Ok (Ok tt, m).

(** What [on_part_ok] learns about the size. *)
Definition update_size (part_size actual_size offset : Z) (m : PartsManager) : Res (Res unit * PartsManager) :=
  let end_offset := offset + actual_size in
  if unknown_size_flag_ m then
    CHECK! part_size =? part_size_ m else "part_size == part_size_" in
    let changed := (actual_size <? part_size_ m) && (end_offset <? max_size_ m) in
    let m := if changed then with_max_size end_offset m else m in
    let m := if negb (actual_size =? 0) then with_min_size (Z.max (min_size_ m) end_offset) m else m in
    if max_size_ m <? min_size_ m then Ok (Error 0 "Failed to transfer file", m)
    else
      let known := min_size_ m =? max_size_ m in
      let m := if known then with_size (min_size_ m) (with_unknown_size_flag false m) else m in
      let* m := if (changed || known) && negb (streaming_limit_ m =? 0) then set_streaming_limit (streaming_limit_ m) m else Ok m in
      Ok (Ok tt, m)
  else if ((actual_size <? part_size) && (offset <? size_ m)) || ((size_ m <=? offset) && (0 <? actual_size))
  then Ok (Error 0 "Failed to transfer file", m)
  else Ok (Ok tt, m).

Definition on_part_ok (part_id part_size actual_size : Z) (m : PartsManager) : Res (Res unit * PartsManager) :=
  CHECK! (0 <=? part_id) && (part_id <? Z.of_nat (length (part_status_ m))) else "part_id < part_status_.size()" in
  let* s := status m part_id in
  CHECK! bool_decide (s = Pending) else "part_status_[part_id] == PartStatus::Pending" in
  let m := put_status part_id Ready (with_pending_count (pending_count_ m - 1) m) in
  let* m :=
    if negb (actual_size =? 0) then let* b := Bitmask.set part_id (bitmask_ m) in Ok (with_bitmask b m) else Ok m in
  let m := with_ready_size (ready_size_ m + actual_size) m in
  let* m :=
    if 0 <? streaming_limit_ m then
      let* b := is_part_in_streaming_limit m part_id in
      Ok (if b then with_streaming_ready_size (streaming_ready_size_ m + actual_size) m else m)
    else Ok m in
  update_size part_size actual_size (part_size_ m * part_id) m.

Definition on_part_failed (part_id : Z) (m : PartsManager) : Res PartsManager :=
  let* s := status m part_id in
  CHECK! bool_decide (s = Pending) else "part_status_[part_id] == PartStatus::Pending" in
  let m := put_status part_id Empty (with_pending_count (pending_count_ m - 1) m) in
  let m := if part_id <? first_empty_part_ m then with_first_empty_part part_id m else m in
  if streaming_offset_ m =? 0 then Ok (with_first_streaming_empty_part part_id m)
  else
    let* offset_part_id := narrow_int (streaming_offset_ m / part_size_ m) in
    Ok (if (offset_part_id <=? part_id) && (part_id <? first_streaming_empty_part_ m)
        then with_first_streaming_empty_part part_id m else m).

(** * Proofs *)

(** ** Sums over the parts *)
Fixpoint sumf (f : Z -> Z) (n : nat) : Z :=
  match n with
  | O => 0
  | S n => sumf f n + f (Z.of_nat n)
  end.

Lemma sumf_ext f g n : (forall i, 0 <= i < Z.of_nat n -> f i = g i) -> sumf f n = sumf g n.
Proof. induction n as [|n IH]; simpl; intros He; [done|]. rewrite IH, He by (intros; apply He || lia; lia). done. Qed.

Lemma sumf_le f g n : (forall i, 0 <= i < Z.of_nat n -> f i <= g i) -> sumf f n <= sumf g n.
Proof.
  induction n as [|n IH]; simpl; intros He; [lia|]. specialize (He (Z.of_nat n) ltac:(lia)) as Hn.
  assert (sumf f n <= sumf g n) by (apply IH; intros; apply He; lia). lia.
Qed.

Lemma sumf_zero f n : (forall i, 0 <= i < Z.of_nat n -> f i = 0) -> sumf f n = 0.
Proof. induction n as [|n IH]; simpl; intros He; [done|]. rewrite IH, He by (intros; apply He || lia; lia). done. Qed.

Lemma sumf_add f n k : sumf f (n + k) = sumf f n + sumf (fun i => f (Z.of_nat n + i)) k.
Proof.
  induction k as [|k IH]; simpl; [rewrite Nat.add_0_r; lia|]. rewrite Nat.add_succ_r. simpl. rewrite IH.
  rewrite Nat2Z.inj_add. lia.
Qed.

Lemma sumf_plus f g n : sumf (fun i => f i + g i) n = sumf f n + sumf g n.
Proof. induction n as [|n IH]; simpl; lia. Qed.

(** Two functions that differ at one index. *)
Lemma sumf_update f g n i : 0 <= i < Z.of_nat n -> (forall j, 0 <= j < Z.of_nat n -> j <> i -> g j = f j) ->
  sumf g n = sumf f n - f i + g i.
Proof.
  induction n as [|n IH]; simpl; intros Hi He; [lia|]. destruct (decide (i = Z.of_nat n)) as [->|Hne].
  - rewrite (sumf_ext g f) by (intros; apply He; lia). lia.
  - rewrite IH by (lia || (intros; apply He; lia)). rewrite (He (Z.of_nat n)) by lia. lia.
Qed.

(** The bytes of a file of size [t] that are in part [i]. *)
Definition clip (ps t i : Z) : Z := Z.max 0 (Z.min ps (t - ps * i)).

Lemma clip_bounds ps t i : 0 <= ps -> 0 <= clip ps t i <= ps.
Proof. unfold clip. lia. Qed.

(** The parts in a window hold at most the bytes between its ends. *)
Lemma sumf_window ps t a b n : 0 < ps -> 0 <= a <= b -> 0 <= t ->
  sumf (fun i => if (a <=? i) && (i <? b) then clip ps t i else 0) n <= Z.min (b * ps) t - Z.min (a * ps) t.
Proof.
  intros Hps Hab Ht.
  enough (sumf (fun i => if (a <=? i) && (i <? b) then clip ps t i else 0) n =
    Z.min (Z.max a (Z.min (Z.of_nat n) b) * ps) t - Z.min (a * ps) t) as ->.
  { assert (Z.max a (Z.min (Z.of_nat n) b) * ps <= b * ps) by (apply Z.mul_le_mono_nonneg_r; lia). lia. }
  induction n as [|n IH]; simpl sumf.
  - replace (Z.max a (Z.min (Z.of_nat 0) b)) with a by lia. lia.
  - rewrite IH. destruct (a <=? Z.of_nat n) eqn:E1, (Z.of_nat n <? b) eqn:E2; zbool; simpl.
    + replace (Z.max a (Z.min (Z.of_nat n) b)) with (Z.of_nat n) by lia.
      replace (Z.max a (Z.min (Z.of_nat (S n)) b)) with (Z.of_nat n + 1) by lia. unfold clip. lia.
    + replace (Z.max a (Z.min (Z.of_nat n) b)) with b by lia.
      replace (Z.max a (Z.min (Z.of_nat (S n)) b)) with b by lia. lia.
    + replace (Z.max a (Z.min (Z.of_nat n) b)) with a by lia.
      replace (Z.max a (Z.min (Z.of_nat (S n)) b)) with a by lia. lia.
    + lia.
Qed.

Lemma sumf_clip_total ps t n : 0 < ps -> 0 <= t -> sumf (clip ps t) n = Z.min (Z.of_nat n * ps) t.
Proof.
  intros Hps Ht. induction n as [|n IH]; simpl sumf; [lia|]. rewrite IH. unfold clip. lia.
Qed.

(** ** The invariant *)
Definition stat (m : PartsManager) (i : Z) : option PartStatus := if i <? 0 then None else part_status_ m !! Z.to_nat i.

Definition ready_bytes (fsize : Z) (m : PartsManager) (i : Z) : Z :=
  if bool_decide (stat m i = Some Ready) then clip (part_size_ m) fsize i else 0.
Definition pending_one (m : PartsManager) (i : Z) : Z := if bool_decide (stat m i = Some Pending) then 1 else 0.

(** [is_part_in_streaming_limit] of a part that exists. *)
Definition in_limit (m : PartsManager) (i : Z) : bool :=
  let b := i * part_size_ m in
  let e := b + size (get_part m i) in
  (streaming_limit_ m =? 0) ||
  is_intersect_with b e (streaming_offset_ m) (streaming_offset_ m + streaming_limit_ m) ||
  (negb (unknown_size_flag_ m) && (size_ m <? streaming_offset_ m + streaming_limit_ m)
   && is_intersect_with b e 0 (streaming_offset_ m + streaming_limit_ m - size_ m)).

Definition streaming_one (m : PartsManager) (i : Z) : Z :=
  if in_limit m i && bool_decide (stat m i = Some Ready) then size (get_part m i) else 0.

Definition parts (m : PartsManager) : nat := length (part_status_ m).
Definition stream_sum (m : PartsManager) : Z := sumf (streaming_one m) (parts m).

(** What is known of a file of [fsize] bytes, of which the parts in [pend] are being
    transferred, each with the size it was handed out with. *)
Record knows_size (fsize : Z) (pend : gmap Z Z) (m : PartsManager) : Prop := {
  ks_size : size_ m = fsize;
  ks_count : fsize <= part_count_ m * part_size_ m;
  ks_prefix : known_prefix_flag_ m = false;
  ks_pend i psz : pend !! i = Some psz -> part_size_ m * i < fsize -> psz = clip (part_size_ m) fsize i;
}.

Record bounds_size (fsize : Z) (pend : gmap Z Z) (m : PartsManager) : Prop := {
  bs_min : 0 <= min_size_ m <= fsize;
  bs_max : fsize <= max_size_ m <= INT64_MAX;
  bs_lt : min_size_ m < max_size_ m;
  bs_min_div : (part_size_ m | min_size_ m);
  bs_count : min_size_ m <= part_count_ m * part_size_ m;
  bs_max_div : max_size_ m = INT64_MAX \/ (part_size_ m | max_size_ m);
  bs_ready i : stat m i = Some Ready ->
    part_size_ m * (i + 1) <= fsize \/ (fsize <= part_size_ m * i /\ max_size_ m <= part_size_ m * i);
  bs_pend i psz : pend !! i = Some psz -> psz = part_size_ m;
}.

Record inv (fsize : Z) (pend : gmap Z Z) (m : PartsManager) : Prop := {
  i_ps : 1024 <= part_size_ m <= 2 ^ 20;
  i_S : 0 <= fsize <= MAX_FILE_SIZE;
  i_check : need_check_ m = false;
  i_len : Z.of_nat (parts m) = part_count_ m;
  i_count : part_count_ m <= 2 ^ 23;
  i_pending : pending_count_ m = sumf (pending_one m) (parts m);
  i_pend i : is_Some (pend !! i) <-> stat m i = Some Pending;
  i_size : if unknown_size_flag_ m then bounds_size fsize pend m else knows_size fsize pend m;
  i_ready : ready_size_ m = sumf (ready_bytes fsize m) (parts m);
  i_bits : Bitmask.wf (bitmask_ m) /\
    forall i, Bitmask.get (bitmask_ m) i = true <-> stat m i = Some Ready /\ 0 < clip (part_size_ m) fsize i;
  i_fe : 0 <= first_empty_part_ m <= part_count_ m /\ forall i, 0 <= i < first_empty_part_ m -> stat m i <> Some Empty;
  i_fnr : 0 <= first_not_ready_part_ m <= part_count_ m /\ forall i, 0 <= i < first_not_ready_part_ m -> stat m i = Some Ready;
  i_offset : 0 <= streaming_offset_ m /\ (streaming_offset_ m < fsize \/ streaming_offset_ m = 0);
  i_fs : streaming_offset_ m <> 0 ->
    0 <= first_streaming_empty_part_ m <= part_count_ m /\ 0 <= first_streaming_not_ready_part_ m <= part_count_ m;
  i_limit : 0 <= streaming_limit_ m <= 2 * MAX_FILE_SIZE /\ (streaming_limit_ m <> 0 -> streaming_ready_size_ m = stream_sum m);
  i_prefix : known_prefix_flag_ m = true ->
    unknown_size_flag_ m = true /\ is_upload_ m = true /\ streaming_offset_ m = 0 /\ streaming_limit_ m = 0 /\
    max_size_ m = INT64_MAX /\ part_count_ m * part_size_ m <= known_prefix_size_ m <= fsize;
}.

Lemma status_stat m i s : stat m i = Some s -> status m i = Ok s.
Proof. unfold stat, status. by intros ->. Qed.

Lemma stat_Some m i : 0 <= i < Z.of_nat (parts m) <-> is_Some (stat m i).
Proof.
  unfold stat, parts. destruct (i <? 0) eqn:E; zbool.
  - split; [lia|by intros []].
  - rewrite lookup_lt_is_Some. lia.
Qed.

Lemma stat_range m i s : stat m i = Some s -> 0 <= i < Z.of_nat (parts m).
Proof. intros Hs. apply stat_Some. by eexists. Qed.

Lemma stat_put i s m j : 0 <= i < Z.of_nat (parts m) -> stat (put_status i s m) j = if j =? i then Some s else stat m j.
Proof.
  intros Hi. unfold stat, put_status, parts in *. simpl. destruct (j =? i) eqn:E; zbool.
  - subst. rewrite (proj2 (Z.ltb_ge i 0)) by lia. apply list_lookup_insert_eq. lia.
  - destruct (j <? 0) eqn:Ej; zbool; [done|]. apply list_lookup_insert_ne. lia.
Qed.

Lemma parts_put i s m : parts (put_status i s m) = parts m.
Proof. unfold parts, put_status. simpl. apply length_insert. Qed.

(** The parts added at the end are empty. *)
Lemma stat_grow l k m j : part_status_ m = l ++ replicate k Empty -> stat m j =
  if (Z.of_nat (length l) <=? j) && (j <? Z.of_nat (length l + k)) then Some Empty
  else stat (with_part_status l m) j.
Proof.
  intros Hl. unfold stat. simpl. rewrite Hl. destruct (j <? 0) eqn:Ej; zbool; [by rewrite (proj2 (Z.leb_gt _ j)) by lia|].
  destruct (Z.of_nat (length l) <=? j) eqn:E1; zbool; simpl.
  - rewrite lookup_app_r by lia. destruct (j <? _) eqn:E2; zbool.
    + apply lookup_replicate_2. lia.
    + rewrite !lookup_ge_None_2; [done|lia|rewrite length_replicate; lia].
  - rewrite lookup_app_l by lia. done.
Qed.

Lemma skip_spec p m i : Z.of_nat (parts m) = part_count_ m -> 0 <= i <= part_count_ m ->
  exists j, skip p m i = Ok j /\ i <= j <= part_count_ m /\
    (forall k, i <= k < j -> exists s, stat m k = Some s /\ p s = true) /\
    (j < part_count_ m -> exists s, stat m j = Some s /\ p s = false).
Proof.
  intros Hlen Hi. unfold skip. assert (part_count_ m - i <= Z.of_nat (Z.to_nat (part_count_ m - i))) as Hf by lia. revert Hf.
  generalize (Z.to_nat (part_count_ m - i)) as fuel. intros fuel. revert i Hi.
  induction fuel as [|fuel IH]; intros i Hi Hf; cbn [skip_parts]; destruct (i <? part_count_ m) eqn:E; zbool.
  - lia.
  - exists i. split_and!; [done|lia|lia|intros; lia|lia].
  - destruct (proj1 (stat_Some m i)) as [s Hs]; [lia|]. rewrite (status_stat _ _ _ Hs). simpl. destruct (p s) eqn:Ep.
    + destruct (IH (i + 1)) as (j&->&Hj&H1&H2); [lia..|]. exists j. split_and!; [done|lia|lia| |done].
      intros k Hk. destruct (decide (k = i)) as [->|]; [by exists s|]. apply H1. lia.
    + exists i. split_and!; [done|lia|lia|intros; lia|]. by exists s.
  - exists i. split_and!; [done|lia|lia|intros; lia|lia].
Qed.

(** The invariant does not depend on some of the fields. *)
Ltac same_size :=
  match goal with
  | H : (if unknown_size_flag_ ?m then bounds_size _ _ ?m else knows_size _ _ ?m) |- context [bounds_size _ _ ?m'] =>
      change (unknown_size_flag_ m') with (unknown_size_flag_ m); destruct (unknown_size_flag_ m); destruct H; split; assumption
  end.
Ltac same_inv H := destruct H; split; try assumption; try same_size.

Lemma not_empty_spec s : not_empty s = true <-> s <> Empty.
Proof. unfold not_empty. rewrite negb_true_iff, bool_decide_eq_false. done. Qed.
Lemma not_empty_false s : not_empty s = false <-> s = Empty.
Proof. unfold not_empty. rewrite negb_false_iff, bool_decide_eq_true. done. Qed.
Lemma is_ready_spec s : is_ready s = true <-> s = Ready.
Proof. apply bool_decide_eq_true. Qed.

(** A part is the first empty one from some point on, or there is none. *)
Definition points_to_empty (m : PartsManager) (i : Z) : Prop :=
  0 <= i <= part_count_ m /\ (i < part_count_ m -> stat m i = Some Empty).

Lemma update_first_empty_part_spec fsize pend m : inv fsize pend m ->
  exists i j, update_first_empty_part m = Ok (with_first_streaming_empty_part j (with_first_empty_part i m)) /\
    inv fsize pend (with_first_streaming_empty_part j (with_first_empty_part i m)) /\
    points_to_empty m i /\ points_to_empty m j /\ (streaming_offset_ m = 0 -> j = i).
Proof.
  intros Hi. unfold update_first_empty_part. destruct (i_fe _ _ _ Hi) as [Hfe1 Hfe2].
  destruct (skip_spec not_empty m (first_empty_part_ m) (i_len _ _ _ Hi) Hfe1) as (i&->&Hi1&Hi2&Hi3). cbn [res_bind].
  assert (forall k, 0 <= k < i -> stat m k <> Some Empty) as Hne.
  { intros k Hk. destruct (decide (k < first_empty_part_ m)); [apply Hfe2; lia|].
    destruct (Hi2 k) as (s&Hs&Hp); [lia|]. apply not_empty_spec in Hp. congruence. }
  assert (points_to_empty m i) as Hpi.
  { split; [lia|]. intros Hlt. destruct (Hi3 Hlt) as (s&Hs&Hp). apply not_empty_false in Hp. congruence. }
  change (streaming_offset_ (with_first_empty_part i m)) with (streaming_offset_ m).
  destruct (streaming_offset_ m =? 0) eqn:Eo; zbool.
  - exists i, i. split_and!; auto. same_inv Hi; simpl; [split; [lia|exact Hne]|]. intros Hn. lia.
  - destruct (i_fs _ _ _ Hi Eo) as [Hfs1 Hfs2].
    destruct (skip_spec not_empty (with_first_empty_part i m) (first_streaming_empty_part_ m) (i_len _ _ _ Hi) Hfs1)
      as (j&Ej&Hj1&Hj2&Hj3). change (first_streaming_empty_part_ (with_first_empty_part i m)) with (first_streaming_empty_part_ m).
    rewrite Ej. cbn [res_bind]. simpl in Hj1, Hj3. exists i, j. split_and!; [done| |done| |lia].
    + same_inv Hi; simpl; [split; [lia|exact Hne]|]. intros _. split; [lia|done].
    + split; [lia|]. intros Hlt. destruct (Hj3 Hlt) as (s&Hs&Hp). apply not_empty_false in Hp. by subst.
Qed.

(** A part is the first one that is not ready from some point on. *)
Definition points_to_not_ready (m : PartsManager) (i : Z) : Prop :=
  0 <= i <= part_count_ m /\ (i < part_count_ m -> stat m i <> Some Ready).

Lemma update_first_not_ready_part_spec fsize pend m : inv fsize pend m ->
  exists i j, update_first_not_ready_part m = Ok (with_first_streaming_not_ready_part j (with_first_not_ready_part i m)) /\
    inv fsize pend (with_first_streaming_not_ready_part j (with_first_not_ready_part i m)) /\
    points_to_not_ready m i /\ points_to_not_ready m j.
Proof.
  intros Hi. unfold update_first_not_ready_part. destruct (i_fnr _ _ _ Hi) as [Hf1 Hf2].
  destruct (skip_spec is_ready m (first_not_ready_part_ m) (i_len _ _ _ Hi) Hf1) as (i&->&Hi1&Hi2&Hi3). cbn [res_bind].
  assert (forall k, 0 <= k < i -> stat m k = Some Ready) as Hr.
  { intros k Hk. destruct (decide (k < first_not_ready_part_ m)); [apply Hf2; lia|].
    destruct (Hi2 k) as (s&Hs&Hp); [lia|]. apply is_ready_spec in Hp. congruence. }
  assert (points_to_not_ready m i) as Hpi.
  { split; [lia|]. intros Hlt. destruct (Hi3 Hlt) as (s&Hs&Hp). rewrite Hs. intros [= ->]. done. }
  change (streaming_offset_ (with_first_not_ready_part i m)) with (streaming_offset_ m).
  destruct (streaming_offset_ m =? 0) eqn:Eo; zbool.
  - exists i, i. split_and!; auto. same_inv Hi; simpl; [split; [lia|exact Hr]|]. intros Hn. lia.
  - destruct (i_fs _ _ _ Hi Eo) as [Hfs1 Hfs2].
    destruct (skip_spec is_ready (with_first_not_ready_part i m) (first_streaming_not_ready_part_ m) (i_len _ _ _ Hi) Hfs2)
      as (j&Ej&Hj1&Hj2&Hj3). change (first_streaming_not_ready_part_ (with_first_not_ready_part i m)) with (first_streaming_not_ready_part_ m).
    rewrite Ej. cbn [res_bind]. simpl in Hj1, Hj3. exists i, j. split_and!; [done| |done|].
    + same_inv Hi; simpl; [split; [lia|exact Hr]|]. intros _. split; [done|lia].
    + split; [lia|]. intros Hlt. destruct (Hj3 Hlt) as (s&Hs&Hp). unfold stat in *. simpl in Hs. rewrite Hs. intros [= ->]. done.
Qed.

(** ** Sums of the streaming limit *)

(** The window of a transfer is far from the ends of an [int64]. *)
Definition window_fits (m : PartsManager) : Prop :=
  0 <= streaming_offset_ m /\ 0 <= streaming_limit_ m /\ streaming_offset_ m + streaming_limit_ m <= INT64_MAX - 2 ^ 20.

Lemma add_int64_ok a b : - 2 ^ 63 <= a + b <= INT64_MAX -> add_int64 a b = Ok (a + b).
Proof. intros H. unfold add_int64. by rewrite !(proj2 (Z.leb_le _ _)) by lia. Qed.

Lemma max_file_size : MAX_FILE_SIZE = 4194304000.
Proof. done. Qed.

Lemma inv_window fsize pend m : inv fsize pend m -> window_fits m.
Proof.
  intros Hi. destruct (i_offset _ _ _ Hi), (i_limit _ _ _ Hi). pose proof (i_S _ _ _ Hi). rewrite max_file_size in *.
  unfold window_fits, INT64_MAX. lia.
Qed.

Lemma window_end m : window_fits m -> add_int64 (streaming_offset_ m) (streaming_limit_ m) = Ok (streaming_offset_ m + streaming_limit_ m).
Proof. intros (?&?&?). apply add_int64_ok. unfold INT64_MAX in *. lia. Qed.

Lemma is_part_in_streaming_limit_spec m i : window_fits m -> i < part_count_ m -> is_part_in_streaming_limit m i = Ok (in_limit m i).
Proof.
  intros Hw Hi. unfold is_part_in_streaming_limit, in_limit, get_part_size. rewrite (proj2 (Z.ltb_lt _ _) Hi), (window_end m Hw).
  destruct (streaming_limit_ m =? 0); [done|]. cbn [res_bind orb]. by destruct (is_intersect_with _ _ (streaming_offset_ m) _).
Qed.

Lemma sum_streaming_ready_spec m : window_fits m -> Z.of_nat (parts m) = part_count_ m ->
  sum_streaming_ready m (seqZ 0 (part_count_ m)) 0 = Ok (stream_sum m).
Proof.
  intros Hw Hlen. unfold stream_sum. rewrite <- Hlen.
  assert (forall n a, (a + n <= parts m)%nat ->
    sum_streaming_ready m (seqZ (Z.of_nat a) (Z.of_nat n)) (sumf (streaming_one m) a) = Ok (sumf (streaming_one m) (a + n))) as Hgen.
  { induction n as [|n IH]; intros a Ha; [by rewrite Nat.add_0_r|].
    rewrite seqZ_cons by lia. cbn [sum_streaming_ready]. rewrite is_part_in_streaming_limit_spec by (done || lia). cbn [res_bind].
    replace (Z.pred (Z.of_nat (S n))) with (Z.of_nat n) by lia. replace (Z.succ (Z.of_nat a)) with (Z.of_nat (S a)) by lia.
    destruct (proj1 (stat_Some m (Z.of_nat a))) as [s Hs]; [lia|]. replace (a + S n)%nat with (S a + n)%nat by lia.
    rewrite <- IH by lia. simpl sumf.
    assert (streaming_one m (Z.of_nat a) = if in_limit m (Z.of_nat a) && bool_decide (s = Ready) then size (get_part m (Z.of_nat a)) else 0)
      as -> by (unfold streaming_one; rewrite Hs; repeat case_bool_decide; congruence).
    destruct (in_limit m (Z.of_nat a)); simpl; [|f_equal; lia].
    rewrite (status_stat _ _ _ Hs). simpl. f_equal. case_bool_decide; lia. }
  specialize (Hgen (parts m) O). simpl in Hgen. by apply Hgen.
Qed.

Definition total_size (m : PartsManager) : Z := if unknown_size_flag_ m then max_size_ m else size_ m.

Lemma get_part_clip m i : 0 <= part_size_ m -> size (get_part m i) = clip (part_size_ m) (total_size m) i.
Proof. intros Hps. unfold get_part, clip, total_size. simpl. case_if; lia. Qed.

(** A ready part has the size of what was transferred. *)
Lemma ready_part_clip fsize pend m i : inv fsize pend m -> stat m i = Some Ready ->
  clip (part_size_ m) (total_size m) i = clip (part_size_ m) fsize i.
Proof.
  intros Hi Hs. pose proof (i_size _ _ _ Hi) as Hsz. pose proof (i_ps _ _ _ Hi). unfold total_size.
  destruct (unknown_size_flag_ m).
  - destruct Hsz as [_ Hmax _ _ _ _ Hr _]. unfold clip. destruct (Hr i Hs) as [?|[? ?]]; lia.
  - by destruct Hsz as [-> _ _ _].
Qed.

Lemma window_index ps o l i sz : 0 < ps -> sz <= ps -> is_intersect_with (i * ps) (i * ps + sz) o (o + l) = true ->
  o / ps <= i < (o + l + ps - 1) / ps.
Proof.
  intros Hps Hsz Hw. unfold is_intersect_with in Hw. zbool. split.
  - enough (o / ps < i + 1) by lia. apply Z.div_lt_upper_bound; lia.
  - enough (i + 1 <= (o + l + ps - 1) / ps) by lia. apply Z.div_le_lower_bound; lia.
Qed.

(** What [streaming_size] computes for a window that fits. *)
Definition window_size (m : PartsManager) : Z :=
  let ps := part_size_ m in
  let ceil size := (size + ps - 1) / ps * ps in
  let b := streaming_offset_ m / ps * ps in
  let e := streaming_offset_ m + streaming_limit_ m in
  if unknown_size_flag_ m then Z.min (ceil e) (max_size_ m) - Z.min b (max_size_ m)
  else if e <=? size_ m then Z.min (ceil e) (size_ m) - b
  else if streaming_offset_ m <? size_ m then Z.min (size_ m) (Z.min (ceil (e - size_ m)) (size_ m) + (size_ m - b))
  else 0.

Lemma round_up_ok ps size : 0 < ps <= 2 ^ 20 -> 0 <= size <= INT64_MAX - 2 ^ 20 -> round_up ps size = Ok ((size + ps - 1) / ps * ps).
Proof. intros Hps Hs. unfold round_up. by rewrite add_int64_ok by (unfold INT64_MAX in *; lia). Qed.

Lemma streaming_size_ok m : window_fits m -> 0 < part_size_ m <= 2 ^ 20 -> (unknown_size_flag_ m = false -> 0 <= size_ m) ->
  streaming_size m = Ok (window_size m).
Proof.
  intros Hw Hps Hsz. unfold streaming_size, window_size, get_part_size. rewrite (window_end m Hw). cbn [res_bind]. destruct Hw as (?&?&?).
  destruct (unknown_size_flag_ m); [by rewrite round_up_ok by lia|]. specialize (Hsz eq_refl). case_if; [by rewrite round_up_ok by lia|].
  zbool. case_if; [by rewrite round_up_ok by lia|done].
Qed.

(** The ready parts in the streaming limit fit into it. *)
Lemma stream_sum_le m : 0 < part_size_ m -> 0 <= total_size m -> 0 <= streaming_offset_ m -> 0 < streaming_limit_ m ->
  (streaming_offset_ m < total_size m \/ unknown_size_flag_ m = true \/ total_size m = 0) -> stream_sum m <= window_size m.
Proof.
  intros Hps Ht Ho Hl Hot. unfold stream_sum.
  set (ps := part_size_ m) in *. set (o := streaming_offset_ m) in *. set (l := streaming_limit_ m) in *. set (t := total_size m) in *.
  set (a := o / ps). set (b := (o + l + ps - 1) / ps).
  assert (0 <= a) as Ha by (apply Z.div_pos; lia).
  assert (a <= b) as Hab by (apply Z.div_le_mono; lia).
  assert (a * ps <= o) as Hao by (unfold a; pose proof (Z.mul_div_le o ps Hps); lia).
  assert (forall i, size (get_part m i) = clip ps t i) as Hsz by (intros; apply get_part_clip; lia).
  assert (forall i, 0 <= clip ps t i <= ps) as Hcl by (intros; apply clip_bounds; lia).
  set (win := fun a b i => if (a <=? i) && (i <? b) then clip ps t i else 0).
  assert (forall a b i, a <= i < b -> win a b i = clip ps t i) as Hwin by (intros; unfold win; by repeat decide_if).
  assert (forall a b i, 0 <= win a b i) as Hwin0 by (intros a' b' i; unfold win; specialize (Hcl i); case_if; lia).
  assert (forall i, is_intersect_with (i * ps) (i * ps + clip ps t i) o (o + l) = true -> win a b i = clip ps t i) as Hmain.
  { intros i Hint. apply Hwin. eapply window_index; [done| |exact Hint]. apply Hcl. }
  pose proof (sumf_window ps t a b (parts m) Hps ltac:(lia) Ht) as Hsum. fold (win a b) in Hsum.
  unfold window_size. cbv zeta. fold ps o l a. fold b. unfold t, total_size in *.
  destruct (unknown_size_flag_ m) eqn:Eu.
  { etrans; [|exact Hsum]. apply sumf_le. intros i Hi. unfold streaming_one, in_limit. rewrite Hsz, Eu. fold ps o l.
    rewrite (proj2 (Z.eqb_neq l 0)) by lia. simpl. rewrite orb_false_r. destruct (is_intersect_with _ _ _ _) eqn:E; simpl; [|apply Hwin0].
    rewrite Hmain by done. specialize (Hcl i). case_bool_decide; lia. }
  destruct (o + l <=? size_ m) eqn:Ee; zbool.
  { replace (a * ps) with (Z.min (a * ps) (size_ m)) by lia. etrans; [|exact Hsum]. apply sumf_le. intros i Hi.
    unfold streaming_one, in_limit. rewrite Hsz, Eu. fold ps o l. rewrite (proj2 (Z.eqb_neq l 0)), (proj2 (Z.ltb_ge (size_ m) (o + l))) by lia.
    simpl. rewrite orb_false_r. destruct (is_intersect_with _ _ _ _) eqn:E; simpl; [|apply Hwin0].
    rewrite Hmain by done. specialize (Hcl i). case_bool_decide; lia. }
  destruct (o <? size_ m) eqn:Eo; zbool.
  - set (b2 := (o + l - size_ m + ps - 1) / ps).
    assert (0 <= b2) as Hb2 by (apply Z.div_pos; lia).
    apply Z.min_glb.
    + etrans; [apply (sumf_le _ (clip ps (size_ m)))|rewrite sumf_clip_total by lia; lia]. intros i Hi. unfold streaming_one. rewrite Hsz.
      specialize (Hcl i). case_if; lia.
    + pose proof (sumf_window ps (size_ m) 0 b2 (parts m) Hps ltac:(lia) Ht) as Hsum2. fold (win 0 b2) in Hsum2.
      assert (sumf (streaming_one m) (parts m) <= sumf (fun i => win a b i + win 0 b2 i) (parts m)) as Hle.
      { apply sumf_le. intros i Hi. unfold streaming_one, in_limit. rewrite Hsz, Eu. fold ps o l.
        rewrite (proj2 (Z.eqb_neq l 0)), (proj2 (Z.ltb_lt (size_ m) (o + l))) by lia. simpl.
        pose proof (Hwin0 a b i). pose proof (Hwin0 0 b2 i). specialize (Hcl i) as Hcli.
        destruct (is_intersect_with _ _ o _) eqn:E1; simpl; [rewrite Hmain by done; case_bool_decide; lia|].
        destruct (is_intersect_with _ _ 0 _) eqn:E2; simpl; [|lia].
        rewrite (Hwin 0 b2); [case_bool_decide; lia|].
        replace (o + l - size_ m) with (0 + (o + l - size_ m)) in E2 by lia. apply window_index in E2; [|lia|lia].
        unfold b2. rewrite Z.div_0_l in E2 by lia. replace (0 + (o + l - size_ m)) with (o + l - size_ m) in E2 by lia. lia. }
      rewrite sumf_plus in Hle. lia.
  - destruct Hot as [?|[?|Hz]]; [lia|done|]. etrans; [apply (sumf_le _ (clip ps (size_ m)))|rewrite sumf_clip_total by lia; lia].
    intros i Hi. unfold streaming_one. rewrite Hsz. specialize (Hcl i). case_if; lia.
Qed.

(** ** Operations *)

Lemma window_of_limit fsize pend l k m : inv fsize pend (with_streaming_limit 0 m) -> 0 <= l <= 2 * MAX_FILE_SIZE ->
  window_fits (with_streaming_ready_size k (with_streaming_limit l m)).
Proof.
  intros Hi Hl. destruct (i_offset _ _ _ Hi) as [Ho1 Ho2]. pose proof (i_S _ _ _ Hi). rewrite max_file_size in *.
  unfold window_fits, INT64_MAX. simpl in *. lia.
Qed.

(** The limit is set when the rest of the invariant holds. *)
Lemma set_streaming_limit_spec fsize pend l m : inv fsize pend (with_streaming_limit 0 m) -> 0 <= l <= 2 * MAX_FILE_SIZE ->
  (known_prefix_flag_ m = true -> l = 0) ->
  exists k, set_streaming_limit l m = Ok (with_streaming_ready_size k (with_streaming_limit l m)) /\
    inv fsize pend (with_streaming_ready_size k (with_streaming_limit l m)).
Proof.
  intros Hi Hl Hp. unfold set_streaming_limit. destruct (l =? 0) eqn:E; zbool.
  - subst. exists 0. split; [done|]. same_inv Hi. simpl. split; [lia|done].
  - rewrite sum_streaming_ready_spec; [|by apply (window_of_limit fsize pend)|apply Hi]. cbn [res_bind].
    set (m1 := with_streaming_ready_size 0 (with_streaming_limit l m)). exists (stream_sum m1). split; [done|].
    same_inv Hi; simpl.
    + split; [lia|]. intros _. done.
    + intros Hk. specialize (Hp Hk). lia.
Qed.

Lemma set_limit_zero fsize pend m : inv fsize pend m -> inv fsize pend (with_streaming_limit 0 m).
Proof.
  intros Hi. same_inv Hi; simpl.
  - split; [lia|done].
  - intros Hk. specialize (i_prefix0 Hk). intuition.
Qed.

Lemma get_estimated_extra_spec fsize pend m : inv fsize pend m -> exists r, get_estimated_extra m = Ok r.
Proof.
  intros Hi. unfold get_estimated_extra. destruct (streaming_limit_ m =? 0) eqn:El; zbool; simpl; [by eauto|].
  pose proof (inv_window _ _ _ Hi) as Hw. rewrite streaming_size_ok; [|done|pose proof (i_ps _ _ _ Hi); lia|].
  2: { intros Hu. pose proof (i_size _ _ _ Hi) as Hsz. rewrite Hu in Hsz. rewrite (ks_size _ _ _ Hsz). apply Hi. }
  cbn [res_bind]. rewrite sum_streaming_ready_spec by (done || apply Hi). cbn [res_bind]. destruct (i_limit _ _ _ Hi) as [Hl1 Hl2].
  rewrite (Hl2 El), Z.eqb_refl. enough (stream_sum m <= window_size m) by (rewrite (proj2 (Z.leb_le _ _)) by lia; eauto).
  pose proof (i_ps _ _ _ Hi). pose proof (i_S _ _ _ Hi). destruct (i_offset _ _ _ Hi) as [Ho1 Ho2]. pose proof (i_size _ _ _ Hi) as Hsz.
  apply stream_sum_le; auto; unfold total_size in *; [lia|..].
  - destruct (unknown_size_flag_ m); [destruct Hsz; lia|destruct Hsz as [-> _ _ _]; lia].
  - lia.
  - destruct (unknown_size_flag_ m); [by auto|]. destruct Hsz as [-> _ _ _]. lia.
Qed.

Lemma is_streaming_limit_reached_spec fsize pend m : inv fsize pend m ->
  exists b m', is_streaming_limit_reached m = Ok (b, m') /\ inv fsize pend m' /\ parts m' = parts m /\ part_status_ m' = part_status_ m.
Proof.
  intros Hi. unfold is_streaming_limit_reached. destruct (streaming_limit_ m =? 0) eqn:El; zbool; [by eauto 6|].
  destruct (update_first_not_ready_part_spec _ _ _ Hi) as (i&j&->&Hi'&[Hpi1 Hpi2]&[Hpj1 Hpj2]). cbn [res_bind].
  set (m' := with_first_streaming_not_ready_part j (with_first_not_ready_part i m)) in *.
  destruct (get_estimated_extra_spec _ _ _ Hi') as [r Hr].
  set (k := if negb (unknown_size_flag_ m') && (first_streaming_not_ready_part_ m' =? part_count_ m') then first_not_ready_part_ m' else first_streaming_not_ready_part_ m').
  assert (k <= part_count_ m') as Hk by (unfold k; simpl; case_if; lia).
  destruct (k =? part_count_ m') eqn:Ek; zbool.
  - cbn [res_bind]. rewrite Hr. simpl. eauto 7.
  - rewrite is_part_in_streaming_limit_spec by (lia || by eapply inv_window). cbn [res_bind]. destruct (negb (in_limit m' k)); [rewrite Hr; simpl|]; eauto 7.
Qed.

Lemma may_finish_spec fsize pend m : inv fsize pend m -> exists b m', may_finish m = Ok (b, m') /\ inv fsize pend m'.
Proof.
  intros Hi. unfold may_finish. destruct (is_streaming_limit_reached_spec _ _ _ Hi) as (b&m'&->&Hi'&_). simpl. eauto.
Qed.

(** Adding empty parts at the end. *)
Definition grow (k : nat) (m : PartsManager) : PartsManager :=
  with_part_status (part_status_ m ++ replicate k Empty) (with_part_count (part_count_ m + Z.of_nat k) m).

Lemma stat_grown k m j : stat (grow k m) j =
  if (Z.of_nat (parts m) <=? j) && (j <? Z.of_nat (parts m + k)) then Some Empty else stat m j.
Proof. rewrite (stat_grow (part_status_ m) k) by done. done. Qed.

Lemma stat_grown_Some k m j s : s <> Empty -> stat (grow k m) j = Some s <-> stat m j = Some s.
Proof.
  intros Hs. rewrite stat_grown. destruct (_ && _) eqn:E; [|done]. zbool. split; [congruence|].
  intros Hj. apply stat_range in Hj. lia.
Qed.

Lemma sumf_grown f g k m : (forall j, 0 <= j < Z.of_nat (parts m) -> g j = f j) ->
  (forall j, Z.of_nat (parts m) <= j < Z.of_nat (parts m + k) -> g j = 0) ->
  sumf g (parts (grow k m)) = sumf f (parts m).
Proof.
  intros Hf Hz. unfold parts at 1. simpl. rewrite length_app, length_replicate. fold (parts m). rewrite sumf_add.
  rewrite (sumf_ext g f) by done. rewrite (sumf_zero (fun i => g _)); [lia|]. intros i Hi. apply Hz. lia.
Qed.

Lemma bool_decide_grown k m j s : s <> Empty -> bool_decide (stat (grow k m) j = Some s) = bool_decide (stat m j = Some s).
Proof. intros Hs. apply bool_decide_ext. by apply stat_grown_Some. Qed.

Lemma bool_decide_beyond m j s : Z.of_nat (parts m) <= j -> bool_decide (stat m j = Some s) = false.
Proof. intros Hj. apply bool_decide_eq_false. intros Hs%stat_range. lia. Qed.

Lemma grow_inv fsize pend k m : inv fsize pend m -> part_count_ m + Z.of_nat k <= 2 ^ 23 ->
  (known_prefix_flag_ m = true -> (part_count_ m + Z.of_nat k) * part_size_ m <= known_prefix_size_ m) ->
  inv fsize pend (grow k m).
Proof.
  intros Hi Hk Hp. pose proof Hi as [J1 J2 J3 J4 J5 J6 J7 J8 J9 [J10 J10'] [J11 J11'] [J12 J12'] J13 J14 [J15 J15'] J16].
  split; auto.
  - unfold parts in *. simpl. rewrite length_app, length_replicate. lia.
  - simpl. rewrite J6. symmetry. apply sumf_grown; intros j Hj; unfold pending_one; rewrite bool_decide_grown by done; [done|].
    by rewrite bool_decide_beyond by lia.
  - intros i. rewrite stat_grown_Some by done. apply J7.
  - change (unknown_size_flag_ (grow k m)) with (unknown_size_flag_ m). destruct (unknown_size_flag_ m).
    + destruct J8 as [B1 B2 B3 B4 Bc B5 B6 B7]. split; auto; [simpl; nia|]. intros i. rewrite stat_grown_Some by done. apply B6.
    + destruct J8 as [K1 K2 K3 K4]. split; auto. simpl. nia.
  - simpl. rewrite J9. symmetry. apply sumf_grown; intros j Hj; unfold ready_bytes; rewrite bool_decide_grown by done; [done|].
    by rewrite bool_decide_beyond by lia.
  - split; [done|]. intros i. rewrite stat_grown_Some by done. apply J10'.
  - simpl. split; [lia|]. intros i Hi'. rewrite stat_grown. rewrite (proj2 (Z.leb_gt _ i)) by lia. simpl. by apply J11'.
  - simpl. split; [lia|]. intros i Hi'. apply stat_grown_Some; [done|]. by apply J12'.
  - simpl. intros Hne. specialize (J14 Hne). lia.
  - simpl. split; [done|]. intros Hne. rewrite (J15' Hne). symmetry.
    apply sumf_grown; intros j Hj; unfold streaming_one; rewrite bool_decide_grown by done; [done|].
    rewrite bool_decide_beyond by lia. by rewrite andb_false_r.
  - simpl. intros Hkp. destruct (J16 Hkp) as (?&?&?&?&?&?). split_and!; auto; first [by apply Hp|lia].
Qed.

Lemma resize_status_grow n m : part_count_ m <= n -> Z.of_nat (parts m) = part_count_ m ->
  resize_status n (with_part_count n m) = grow (Z.to_nat (n - part_count_ m)) m.
Proof.
  intros Hn Hlen. unfold resize_status, grow, parts in *. simpl. rewrite take_ge by lia.
  replace (Z.to_nat n - length (part_status_ m))%nat with (Z.to_nat (n - part_count_ m)) by lia.
  by replace (part_count_ m + Z.of_nat (Z.to_nat (n - part_count_ m))) with n by lia.
Qed.

(** ** set_streaming_offset *)
Lemma finish_streaming fsize pend l m : inv fsize pend (with_streaming_limit 0 m) -> 0 <= l <= 2 * MAX_FILE_SIZE -> (known_prefix_flag_ m = true -> l = 0) ->
  exists r m', (let* m := set_streaming_limit l m in let* m := update_first_not_ready_part m in
    Ok (first_streaming_not_ready_part_ m, m)) = Ok (r, m') /\ inv fsize pend m'.
Proof.
  intros Hi Hl Hp. destruct (set_streaming_limit_spec _ _ l m Hi Hl Hp) as (k&->&Hi'). cbn [res_bind].
  destruct (update_first_not_ready_part_spec _ _ _ Hi') as (i&j&->&Hi2&_). cbn [res_bind]. eauto.
Qed.

Lemma offset_inv fsize pend m o a b : inv fsize pend m -> streaming_limit_ m = 0 -> known_prefix_flag_ m = false ->
  0 <= o -> o < fsize \/ o = 0 -> (o <> 0 -> 0 <= a <= part_count_ m /\ 0 <= b <= part_count_ m) ->
  inv fsize pend (with_first_streaming_not_ready_part b (with_first_streaming_empty_part a (with_streaming_offset o m))).
Proof.
  intros Hi Hl Hk Ho1 Ho2 Hab. destruct Hi. split; try assumption; try same_size.
  - split; assumption.
  - split; [simpl; lia|]. simpl. lia.
  - simpl. congruence.
Qed.

Lemma offset_index fsize pend m o : inv fsize pend m -> 0 <= o -> o < fsize \/ o = 0 -> 0 <= o / part_size_ m <= 2 ^ 22.
Proof.
  intros Hi Ho1 Ho2. pose proof (i_ps _ _ _ Hi). pose proof (i_S _ _ _ Hi) as HS.
  split; [apply Z.div_pos; lia|]. apply Z.div_le_upper_bound; [lia|]. unfold MAX_FILE_SIZE, MAX_PART_SIZE, MAX_PART_COUNT_PREMIUM in HS.
  change (Z.shiftl 512 10) with 524288 in HS. nia.
Qed.

Lemma set_streaming_offset_spec fsize pend o l m : inv fsize pend m -> known_prefix_flag_ m = false ->
  0 <= o -> o < fsize \/ o = 0 -> 0 <= l <= 2 * MAX_FILE_SIZE ->
  exists r m', set_streaming_offset o l m = Ok (r, m') /\ inv fsize pend m'.
Proof.
  intros Hi Hkp Ho1 Ho2 Hl. pose proof Hi as [J1 J2 J3 J4 J5 J6 J7 J8 J9 J10 J11 J12 J13 J14 [J15 J15'] J16].
  unfold set_streaming_offset. rewrite J3, (proj2 (Z.ltb_ge o 0)) by lia. simpl orb.
  assert (inv fsize pend (with_streaming_limit 0 (with_streaming_offset 0 m))) as Hzero.
  { exact (offset_inv _ _ (with_streaming_limit 0 m) 0 (first_streaming_empty_part_ m) (first_streaming_not_ready_part_ m)
      (set_limit_zero _ _ _ Hi) eq_refl Hkp (Z.le_refl 0) (or_intror eq_refl) (fun Hn => False_ind _ (Hn eq_refl))). }
  assert (negb (unknown_size_flag_ m) && (size_ m <? o) = false) as ->.
  { destruct (unknown_size_flag_ m); [done|]. destruct J8 as [-> _ _ _]. simpl. apply Z.ltb_ge. lia. }
  destruct (use_part_count_limit_ m && (MAX_PART_COUNT_PREMIUM <=? o / part_size_ m)) eqn:Eu; [apply finish_streaming; auto; simpl; congruence|].
  pose proof (offset_index _ _ _ o Hi Ho1 Ho2) as Hpid.
  unfold narrow_int. rewrite (proj2 (Z.ltb_lt (o / part_size_ m) (2 ^ 31))) by lia. cbn [res_bind].
  set (p := o / part_size_ m) in *. set (m1 := with_first_streaming_not_ready_part p (with_first_streaming_empty_part p (with_streaming_offset o m))).
  destruct (part_count_ m1 <? p) eqn:Ec; zbool; simpl in Ec.
  - rewrite resize_status_grow by (simpl; lia || exact J4). apply finish_streaming; [|done|simpl; congruence].
    set (k := Z.to_nat (p - part_count_ m1)).
    assert (inv fsize pend (grow k (with_streaming_limit 0 m))) as Hg.
    { apply grow_inv; [by apply set_limit_zero|simpl; unfold k; simpl; lia|simpl; congruence]. }
    refine (offset_inv _ _ (grow k (with_streaming_limit 0 m)) o p p Hg eq_refl Hkp Ho1 Ho2 _). intros _.
    change (part_count_ (grow k (with_streaming_limit 0 m))) with (part_count_ m + Z.of_nat k). unfold k. simpl. lia.
  - apply finish_streaming; [|done|simpl; congruence].
    refine (offset_inv _ _ (with_streaming_limit 0 m) o p p (set_limit_zero _ _ _ Hi) eq_refl Hkp Ho1 Ho2 _). simpl. lia.
Qed.

(** ** Changing the status of a part *)
Lemma sumf_put (F : option PartStatus -> Z -> Z) i s m : 0 <= i < Z.of_nat (parts m) ->
  sumf (fun j => F (stat (put_status i s m) j) j) (parts m) = sumf (fun j => F (stat m j) j) (parts m) - F (stat m i) i + F (Some s) i.
Proof.
  intros Hi. rewrite (sumf_update (fun j => F (stat m j) j) _ _ i Hi).
  - rewrite stat_put, Z.eqb_refl by done. lia.
  - intros j _ Hne. rewrite stat_put by done. by rewrite (proj2 (Z.eqb_neq j i) Hne).
Qed.

Definition F_pending (o : option PartStatus) (_ : Z) : Z := if bool_decide (o = Some Pending) then 1 else 0.
Definition F_ready (g : Z -> Z) (o : option PartStatus) (j : Z) : Z := if bool_decide (o = Some Ready) then g j else 0.
Definition F_stream (m : PartsManager) (o : option PartStatus) (j : Z) : Z :=
  if in_limit m j && bool_decide (o = Some Ready) then size (get_part m j) else 0.

Section put.
Context (fsize : Z) (pend : gmap Z Z) (m : PartsManager) (i : Z) (Hi : inv fsize pend m).

(** What does not depend on which of the parts are ready. *)
Lemma put_bounds s (pend' : gmap Z Z) : 0 <= i < Z.of_nat (parts m) -> s <> Ready ->
  (forall j psz, pend' !! j = Some psz -> pend !! j = Some psz \/
     (j = i /\ psz = if unknown_size_flag_ m then part_size_ m else clip (part_size_ m) fsize i)) ->
  let m' := put_status i s m in
  if unknown_size_flag_ m' then bounds_size fsize pend' m' else knows_size fsize pend' m'.
Proof.
  intros Hr Hs Hp m'. pose proof (i_size _ _ _ Hi) as Hsz. change (unknown_size_flag_ m') with (unknown_size_flag_ m).
  destruct (unknown_size_flag_ m).
  - destruct Hsz as [B1 B2 B3 B4 Bc B5 B6 B7]. split; auto.
    + intros j Hj. unfold m' in Hj. rewrite stat_put in Hj by done. case_if_in Hj; [by simplify_eq|]. by apply B6.
    + intros j psz Hj. destruct (Hp _ _ Hj) as [?|[_ ->]]; [by eapply B7|done].
  - destruct Hsz as [K1 K2 K3 K4]. split; auto. intros j psz Hj Hlt. destruct (Hp _ _ Hj) as [?|[-> ->]]; [by apply (K4 j)|done].
Qed.

Lemma stat_put_ready s j : 0 <= i < Z.of_nat (parts m) -> s <> Ready -> stat m i <> Some Ready ->
  stat (put_status i s m) j = Some Ready <-> stat m j = Some Ready.
Proof. intros Hr Hs Hn. rewrite stat_put by done. destruct (j =? i) eqn:E; zbool; [|done]. subst. split; congruence. Qed.

(** Starting a part. *)
Lemma start_inv psz : stat m i = Some Empty ->
  psz = (if unknown_size_flag_ m then part_size_ m else clip (part_size_ m) fsize i) ->
  inv fsize (<[i := psz]> pend) (with_pending_count (pending_count_ m + 1) (put_status i Pending m)).
Proof.
  intros Hs Hpsz. pose proof (stat_range _ _ _ Hs) as Hr. set (m' := put_status i Pending m).
  assert (parts m' = parts m) as Hparts by apply parts_put.
  assert (forall j, stat m' j = Some Ready <-> stat m j = Some Ready) as Hready by (intros; apply stat_put_ready; congruence).
  pose proof Hi as [J1 J2 J3 J4 J5 J6 J7 J8 J9 [J10 J10'] [J11 J11'] [J12 J12'] J13 J14 [J15 J15'] J16].
  split; auto.
  - change (Z.of_nat (parts m') = part_count_ m). congruence.
  - change (pending_count_ m + 1 = sumf (fun j => F_pending (stat m' j) j) (parts m')). rewrite Hparts.
    unfold m'. rewrite (sumf_put F_pending) by done. rewrite Hs, J6. unfold F_pending at 2 3. simpl. unfold pending_one, F_pending. lia.
  - intros j. change (is_Some (<[i := psz]> pend !! j) <-> stat m' j = Some Pending). unfold m'. rewrite stat_put by done.
    destruct (j =? i) eqn:E; zbool; [subst; rewrite lookup_insert_eq; by split|]. rewrite lookup_insert_ne by congruence. apply J7.
  - assert (if unknown_size_flag_ m' then bounds_size fsize (<[i := psz]> pend) m' else knows_size fsize (<[i := psz]> pend) m') as Hb.
    { apply put_bounds; [done|done|]. intros j q Hj. apply lookup_insert_Some in Hj as [[<- <-]|[_ ?]]; auto. }
    same_size.
  - change (ready_size_ m = sumf (fun j => F_ready (clip (part_size_ m) fsize) (stat m' j) j) (parts m')). rewrite Hparts. unfold m'.
    rewrite (sumf_put (F_ready _)) by done. rewrite Hs, J9. unfold F_ready at 2 3. simpl. unfold ready_bytes, F_ready. lia.
  - split; [done|]. intros j. change (stat (with_pending_count _ m') j) with (stat m' j). rewrite Hready. apply J10'.
  - split; [done|]. intros j Hj. change (stat m' j <> Some Empty). unfold m'. rewrite stat_put by done. case_if; [done|]. by apply J11'.
  - split; [done|]. intros j Hj. change (stat m' j = Some Ready). rewrite Hready. by apply J12'.
  - split; [done|]. intros Hne. change (streaming_ready_size_ m = sumf (fun j => F_stream m (stat m' j) j) (parts m')).
    rewrite Hparts. unfold m'. rewrite (sumf_put (F_stream m)) by done. rewrite Hs, (J15' Hne). unfold F_stream at 2 3. simpl.
    rewrite !andb_false_r. unfold stream_sum, streaming_one, F_stream. lia.
Qed.

(** A part that failed. *)
Lemma fail_inv : stat m i = Some Pending ->
  let m' := put_status i Empty (with_pending_count (pending_count_ m - 1) m) in
  inv fsize (delete i pend) (if i <? first_empty_part_ m then with_first_empty_part i m' else m').
Proof.
  intros Hs m1. pose proof (stat_range _ _ _ Hs) as Hr. set (m' := put_status i Empty m).
  assert (parts m' = parts m) as Hparts by apply parts_put.
  assert (forall j, stat m' j = Some Ready <-> stat m j = Some Ready) as Hready by (intros; apply stat_put_ready; congruence).
  pose proof Hi as [J1 J2 J3 J4 J5 J6 J7 J8 J9 [J10 J10'] [J11 J11'] [J12 J12'] J13 J14 [J15 J15'] J16].
  set (fe := if i <? first_empty_part_ m then i else first_empty_part_ m).
  assert ((if i <? first_empty_part_ m then with_first_empty_part i m1 else m1) = with_first_empty_part fe m1) as ->
    by (unfold fe; by destruct (i <? first_empty_part_ m)).
  split; auto.
  - change (Z.of_nat (parts m') = part_count_ m). congruence.
  - change (pending_count_ m - 1 = sumf (fun j => F_pending (stat m' j) j) (parts m')). rewrite Hparts.
    unfold m'. rewrite (sumf_put F_pending) by done. rewrite Hs, J6. unfold F_pending at 2 3. simpl. unfold pending_one, F_pending. lia.
  - intros j. change (is_Some (delete i pend !! j) <-> stat m' j = Some Pending). unfold m'. rewrite stat_put by done.
    destruct (j =? i) eqn:E; zbool; [subst; rewrite lookup_delete_eq; split; [by intros []|done]|]. rewrite lookup_delete_ne by congruence. apply J7.
  - assert (if unknown_size_flag_ m' then bounds_size fsize (delete i pend) m' else knows_size fsize (delete i pend) m') as Hb.
    { apply put_bounds; [done|done|]. intros j q Hj. apply lookup_delete_Some in Hj as [_ ?]. auto. }
    same_size.
  - change (ready_size_ m = sumf (fun j => F_ready (clip (part_size_ m) fsize) (stat m' j) j) (parts m')). rewrite Hparts. unfold m'.
    rewrite (sumf_put (F_ready _)) by done. rewrite Hs, J9. unfold F_ready at 2 3. simpl. unfold ready_bytes, F_ready. lia.
  - split; [done|]. intros j. change (stat (with_first_empty_part fe m1) j) with (stat m' j). rewrite Hready. apply J10'.
  - split; [simpl; unfold fe; case_if; lia|]. intros j Hj. change (stat m' j <> Some Empty). simpl in Hj. unfold m'. rewrite stat_put by done.
    rewrite (proj2 (Z.eqb_neq j i)) by (unfold fe in Hj; case_if_in Hj; lia). apply J11'. unfold fe in Hj. case_if_in Hj; lia.
  - split; [done|]. intros j Hj. change (stat m' j = Some Ready). rewrite Hready. by apply J12'.
  - split; [done|]. intros Hne. change (streaming_ready_size_ m = sumf (fun j => F_stream m (stat m' j) j) (parts m')).
    rewrite Hparts. unfold m'. rewrite (sumf_put (F_stream m)) by done. rewrite Hs, (J15' Hne). unfold F_stream at 2 3. simpl.
    rewrite !andb_false_r. unfold stream_sum, streaming_one, F_stream. lia.
Qed.
End put.

(** ** on_part_ok *)
Lemma limit_inv fsize pend m : inv fsize pend (with_streaming_limit 0 m) -> 0 <= streaming_limit_ m <= 2 * MAX_FILE_SIZE ->
  (streaming_limit_ m <> 0 -> streaming_ready_size_ m = stream_sum m) -> (known_prefix_flag_ m = true -> streaming_limit_ m = 0) ->
  inv fsize pend m.
Proof. intros Hi Hl Hs Hk. same_inv Hi; simpl in *; [done|]. intros Hkp. specialize (i_prefix0 Hkp). intuition. Qed.

(** The state after a part was received and before the size is updated. *)
Definition received (k i act : Z) (b : Bitmask.t) (m : PartsManager) : PartsManager :=
  with_streaming_ready_size k
    (with_ready_size (ready_size_ m + act) (with_bitmask b (put_status i Ready (with_pending_count (pending_count_ m - 1) m)))).

Definition sized (un : bool) (sz mn mx : Z) (m : PartsManager) : PartsManager :=
  with_size sz (with_unknown_size_flag un (with_min_size mn (with_max_size mx m))).

Section received.
Context (fsize : Z) (pend : gmap Z Z) (m : PartsManager) (i : Z) (Hi : inv fsize pend m) (Hs : stat m i = Some Pending).
Let act := clip (part_size_ m) fsize i.

Lemma received_inv k b un sz mn mx :
  Bitmask.wf b -> (forall j, Bitmask.get b j = (bool_decide (0 < act) && (j =? i)) || Bitmask.get (bitmask_ m) j) ->
  let m' := sized un sz mn mx (with_streaming_limit 0 (received k i act b m)) in
  (if un then bounds_size fsize (delete i pend) m' else knows_size fsize (delete i pend) m') ->
  (known_prefix_flag_ m = true -> un = true /\ mx = INT64_MAX) ->
  inv fsize (delete i pend) m'.
Proof.
  intros Hb1 Hb2 m' Hsz Hk. pose proof (stat_range _ _ _ Hs) as Hr. set (m1 := put_status i Ready m).
  assert (parts m1 = parts m) as Hparts by apply parts_put.
  pose proof Hi as [J1 J2 J3 J4 J5 J6 J7 J8 J9 [J10 J10'] [J11 J11'] [J12 J12'] J13 J14 [J15 J15'] J16].
  split; auto.
  - change (Z.of_nat (parts m1) = part_count_ m). congruence.
  - change (pending_count_ m - 1 = sumf (fun j => F_pending (stat m1 j) j) (parts m1)). rewrite Hparts.
    unfold m1. rewrite (sumf_put F_pending) by done. rewrite Hs, J6. unfold F_pending at 2 3. simpl. unfold pending_one, F_pending. lia.
  - intros j. change (is_Some (delete i pend !! j) <-> stat m1 j = Some Pending). unfold m1. rewrite stat_put by done.
    destruct (j =? i) eqn:E; zbool; [subst; rewrite lookup_delete_eq; split; [by intros []|done]|]. rewrite lookup_delete_ne by congruence. apply J7.
  - change (ready_size_ m + act = sumf (fun j => F_ready (clip (part_size_ m) fsize) (stat m1 j) j) (parts m1)). rewrite Hparts. unfold m1.
    rewrite (sumf_put (F_ready _)) by done. rewrite Hs, J9. unfold F_ready at 2 3. simpl. unfold ready_bytes, F_ready, act. lia.
  - split; [done|]. intros j. change (Bitmask.get b j = true <-> stat m1 j = Some Ready /\ 0 < clip (part_size_ m) fsize j).
    rewrite Hb2, orb_true_iff, andb_true_iff, bool_decide_eq_true, Z.eqb_eq, J10'. unfold m1. rewrite stat_put by done.
    destruct (j =? i) eqn:E; zbool; [subst; fold act; rewrite Hs; intuition congruence|]. intuition.
  - split; [done|]. intros j Hj. change (stat m1 j <> Some Empty). unfold m1. rewrite stat_put by done. case_if; [done|]. by apply J11'.
  - split; [done|]. intros j Hj. change (stat m1 j = Some Ready). unfold m1. rewrite stat_put by done. case_if; [done|]. by apply J12'.
  - simpl. split; [lia|done].
  - simpl. intros Hkp. destruct (Hk Hkp) as [-> ->]. destruct (J16 Hkp) as (?&?&?&?&?&?). split_and!; auto; lia.
Qed.

(** The size of the ready parts in the limit, when the sizes do not change. *)
Lemma received_stream k b : clip (part_size_ m) (total_size m) i = act ->
  stream_sum (received k i act b m) = stream_sum m + if in_limit m i then act else 0.
Proof.
  intros Hact. pose proof (stat_range _ _ _ Hs) as Hr. set (m1 := put_status i Ready m).
  change (sumf (fun j => F_stream m (stat m1 j) j) (parts m1) = stream_sum m + if in_limit m i then act else 0).
  unfold m1. rewrite parts_put, (sumf_put (F_stream m)) by done. rewrite Hs. unfold F_stream at 2 3.
  rewrite (bool_decide_false (Some Pending = Some Ready)), (bool_decide_true (Some Ready = Some Ready)), andb_false_r, andb_true_r by done.
  pose proof (i_ps _ _ _ Hi). rewrite get_part_clip, Hact by lia. unfold stream_sum, streaming_one, F_stream. lia.
Qed.
End received.

(** The transferred parts count in the lower bound of the size. *)
Definition counted (fsize : Z) (m : PartsManager) : Prop :=
  unknown_size_flag_ m = true -> forall i, stat m i = Some Ready -> part_size_ m * (i + 1) <= fsize -> part_size_ m * (i + 1) <= min_size_ m.

(** What is known of the size after a part of [act] bytes. *)
Section update_size.
Context (fsize : Z) (pend : gmap Z Z) (m : PartsManager) (i : Z) (Hi : inv fsize pend m) (Hs : stat m i = Some Pending).
Context (Hun : unknown_size_flag_ m = true).
Let ps := part_size_ m.
Let act := clip ps fsize i.
Let mx := if (act <? ps) && (ps * i + act <? max_size_ m) then ps * i + act else max_size_ m.
Let mn := if negb (act =? 0) then Z.max (min_size_ m) (ps * i + act) else min_size_ m.

Lemma new_bounds : 0 <= mn <= fsize /\ fsize <= mx <= max_size_ m.
Proof.
  pose proof (i_size _ _ _ Hi) as Hsz. rewrite Hun in Hsz. destruct Hsz as [B1 B2 _ _ _ _ _ _]. pose proof (i_ps _ _ _ Hi).
  unfold mn, mx, act, clip. fold ps in H |- *. split; repeat case_if; lia.
Qed.

Lemma stat_received k b un sz mn' mx' j : stat (sized un sz mn' mx' (with_streaming_limit 0 (received k i act b m))) j =
  if j =? i then Some Ready else stat m j.
Proof. pose proof (stat_range _ _ _ Hs). exact (stat_put i Ready m j H). Qed.

(** The size is not yet known. *)
Lemma still_unknown k b : mn <> mx ->
  bounds_size fsize (delete i pend) (sized true (size_ m) mn mx (with_streaming_limit 0 (received k i act b m))).
Proof.
  intros Hne. pose proof (i_size _ _ _ Hi) as Hsz. rewrite Hun in Hsz. destruct Hsz as [B1 B2 B3 B4 Bc B5 B6 B7].
  pose proof (i_ps _ _ _ Hi) as Hps. fold ps in Hps, B4, B5, B6, B7, Bc. pose proof new_bounds as [N1 N2].
  pose proof (stat_range _ _ _ Hs) as Hr. pose proof (i_len _ _ _ Hi) as Hlen.
  assert (~ 0 < act < ps) as Hfull.
  { intros Ha. apply Hne. unfold mn, mx. rewrite (proj2 (Z.eqb_neq act 0)), (proj2 (Z.ltb_lt act ps)) by lia. simpl.
    unfold act, clip in *. case_if; lia. }
  assert (act = ps \/ act = 0) as Ha by (pose proof (clip_bounds ps fsize i); unfold act in *; lia).
  split; simpl; fold ps; try lia.
  - unfold mn. destruct Ha as [->| ->]; rewrite ?(proj2 (Z.eqb_neq ps 0)) by lia; simpl; [|done].
    apply Z.max_case; [done|]. exists (i + 1). lia.
  - unfold mn. destruct Ha as [->| ->]; rewrite ?(proj2 (Z.eqb_neq ps 0)) by lia; simpl; [|done]. nia.
  - unfold mx. destruct Ha as [->| ->]; [rewrite (proj2 (Z.ltb_ge ps ps)) by lia; done|].
    destruct (_ && _); [|done]. right. exists i. lia.
  - intros j. rewrite stat_received. destruct (j =? i) eqn:Ej; zbool.
    + subst. intros _. destruct Ha as [Ha|Ha]; [left; unfold act, clip in Ha; lia|right].
      assert (fsize <= ps * i) by (unfold act, clip in Ha; lia). split; [done|]. unfold mx. rewrite Ha.
      rewrite (proj2 (Z.ltb_lt 0 ps)) by lia. simpl. case_if; lia.
    + intros Hj. destruct (B6 j Hj) as [?|[? ?]]; [by left|right; split; [done|lia]].
  - intros j psz Hj. apply lookup_delete_Some in Hj as [_ Hj]. by apply (B7 j).
Qed.

(** The size becomes known. *)
Lemma becomes_known k b : mn = mx -> known_prefix_flag_ m = false ->
  knows_size fsize (delete i pend) (sized false mn mn mx (with_streaming_limit 0 (received k i act b m))).
Proof.
  intros Heq Hkp. pose proof (i_size _ _ _ Hi) as Hsz. rewrite Hun in Hsz. destruct Hsz as [B1 B2 B3 B4 Bc B5 B6 B7].
  pose proof (i_ps _ _ _ Hi) as Hps. fold ps in Hps, B4, B5, B6, B7, Bc. pose proof new_bounds as [N1 N2].
  pose proof (stat_range _ _ _ Hs) as Hr. pose proof (i_len _ _ _ Hi) as Hlen.
  assert (mn = fsize) as Hf by lia. split; simpl; fold ps; auto.
  - rewrite <- Hf. unfold mn. pose proof (clip_bounds ps fsize i). fold act in H. case_if; [nia|lia].
  - intros j psz Hj Hlt. apply lookup_delete_Some in Hj as [Hne Hj]. rewrite (B7 j psz Hj).
    enough (ps * (j + 1) <= fsize) by (unfold clip; lia).
    destruct (decide (0 < act < ps)) as [Hpart|Hfull].
    + assert (ps * i + act = fsize) by (unfold act, clip in *; lia). nia.
    + assert (ps | fsize) as [q Hq].
      { rewrite <- Hf. unfold mn. assert (act = ps \/ act = 0) as [->| ->] by (pose proof (clip_bounds ps fsize i); unfold act in *; lia);
        rewrite ?(proj2 (Z.eqb_neq ps 0)) by lia; simpl; [|done]. apply Z.max_case; [done|]. exists (i + 1). lia. }
      assert (j < q) by (apply (Z.mul_lt_mono_pos_l ps); lia). rewrite Hq, (Z.mul_comm q). apply Z.mul_le_mono_nonneg_l; lia.
Qed.

(** A file of which a prefix is known is not finished by a part. *)
Lemma prefix_unfinished : known_prefix_flag_ m = true -> mx = INT64_MAX /\ mn <> mx.
Proof.
  intros Hkp. destruct (i_prefix _ _ _ Hi Hkp) as (_&_&_&_&Hmax&Hcnt). pose proof (i_ps _ _ _ Hi) as Hps. fold ps in Hps, Hcnt.
  pose proof (stat_range _ _ _ Hs) as Hr. pose proof (i_len _ _ _ Hi) as Hlen. pose proof (i_S _ _ _ Hi) as Hfs.
  pose proof new_bounds as [N1 N2].
  assert (act = ps) as Ha by (unfold act, clip; nia).
  assert (mx = INT64_MAX) as Hmx by (unfold mx; rewrite Ha, (proj2 (Z.ltb_ge ps ps)) by lia; done).
  split; [done|]. rewrite Hmx. unfold INT64_MAX, MAX_FILE_SIZE, MAX_PART_SIZE, MAX_PART_COUNT_PREMIUM in *.
  change (Z.shiftl 512 10) with 524288 in Hfs. lia.
Qed.
End update_size.

(** What the other side sends of a part of [psz] bytes. *)
Definition sent (fsize psz : Z) (m : PartsManager) (i : Z) : Z := Z.max 0 (Z.min psz (fsize - part_size_ m * i)).

Lemma sent_clip fsize pend m i psz : inv fsize pend m -> pend !! i = Some psz -> sent fsize psz m i = clip (part_size_ m) fsize i.
Proof.
  intros Hi Hp. pose proof (i_size _ _ _ Hi) as Hsz. unfold sent, clip. destruct (unknown_size_flag_ m).
  - by rewrite (bs_pend _ _ _ Hsz i psz Hp).
  - destruct (decide (part_size_ m * i < fsize)); [|lia].
    rewrite (ks_pend _ _ _ Hsz i psz Hp) by done. unfold clip. lia.
Qed.

(** The bit of a part that brought data. *)
Lemma received_bit m i act : Bitmask.wf (bitmask_ m) -> 0 <= i -> 0 <= act ->
  exists b, (if negb (act =? 0) then let* b := Bitmask.set i (bitmask_ m) in Ok (with_bitmask b m) else Ok m) = Ok (with_bitmask b m) /\
    Bitmask.wf b /\ forall j, Bitmask.get b j = (bool_decide (0 < act) && (j =? i)) || Bitmask.get (bitmask_ m) j.
Proof.
  intros Hb Hi Ha. destruct (act =? 0) eqn:E; zbool; simpl.
  - exists (bitmask_ m). rewrite bool_decide_false by lia. split_and!; [by destruct m|done|done].
  - destruct (Bitmask.set_spec i (bitmask_ m) Hb Hi) as (b&->&Hb'&Hget). exists b. rewrite bool_decide_true by lia. done.
Qed.

(** The first half of [on_part_ok]. *)
Lemma on_part_ok_received fsize pend m i psz act : inv fsize pend m -> pend !! i = Some psz -> act = clip (part_size_ m) fsize i ->
  exists b, Bitmask.wf b /\ (forall j, Bitmask.get b j = (bool_decide (0 < act) && (j =? i)) || Bitmask.get (bitmask_ m) j) /\
    on_part_ok i psz act m = update_size psz act (part_size_ m * i)
      (received (streaming_ready_size_ m + if (0 <? streaming_limit_ m) && in_limit m i then act else 0) i act b m).
Proof.
  intros Hi Hp Hact. assert (stat m i = Some Pending) as Hs by (apply (i_pend _ _ _ Hi); by rewrite Hp).
  pose proof (stat_range _ _ _ Hs) as Hr. pose proof (i_ps _ _ _ Hi) as Hps. pose proof (i_len _ _ _ Hi) as Hlen.
  assert (0 <= act) as Ha by (rewrite Hact; apply clip_bounds; lia).
  unfold on_part_ok. unfold parts in Hr. rewrite (proj2 (Z.leb_le 0 i)), (proj2 (Z.ltb_lt i _)) by lia. simpl andb. cbv iota.
  rewrite (status_stat _ _ _ Hs). cbn [res_bind]. rewrite (bool_decide_true (Pending = Pending)) by done.
  set (m1 := put_status i Ready (with_pending_count (pending_count_ m - 1) m)).
  destruct (received_bit m1 i act) as (b&Eb&Hb1&Hb2); [apply (i_bits _ _ _ Hi)|lia|lia|]. rewrite Eb. cbn [res_bind].
  exists b. split; [done|]. split; [done|].
  set (m2 := with_ready_size (ready_size_ (with_bitmask b m1) + act) (with_bitmask b m1)).
  change (streaming_limit_ m2) with (streaming_limit_ m).
  destruct (0 <? streaming_limit_ m) eqn:El; simpl andb; cbn [res_bind].
  - rewrite is_part_in_streaming_limit_spec; [|exact (inv_window _ _ _ Hi)|simpl; unfold parts in Hlen; lia]. cbn [res_bind].
    change (in_limit m2 i) with (in_limit m i). destruct (in_limit m i); [done|]. by rewrite Z.add_0_r.
  - by rewrite Z.add_0_r.
Qed.

(** The fields [counted] looks at. *)
Definition same_transfer (m' m : PartsManager) : Prop :=
  unknown_size_flag_ m' = unknown_size_flag_ m /\ min_size_ m' = min_size_ m /\ part_size_ m' = part_size_ m /\
  part_status_ m' = part_status_ m.

Lemma same_transfer_limit k l m : same_transfer (with_streaming_ready_size k (with_streaming_limit l m)) m.
Proof. done. Qed.

Lemma counted_same fsize m m' : same_transfer m' m -> counted fsize m -> counted fsize m'.
Proof. intros (H1&H2&H3&H4). unfold counted, stat. by rewrite H1, H2, H3, H4. Qed.

(** The invariant, once the size has been updated. *)
Section after.
Context (fsize : Z) (pend : gmap Z Z) (m : PartsManager) (i : Z) (b : Bitmask.t).
Context (Hi : inv fsize pend m) (Hs : stat m i = Some Pending).
Let act := clip (part_size_ m) fsize i.
Context (Hb1 : Bitmask.wf b) (Hb2 : forall j, Bitmask.get b j = (bool_decide (0 < act) && (j =? i)) || Bitmask.get (bitmask_ m) j).
Let k := streaming_ready_size_ m + if (0 <? streaming_limit_ m) && in_limit m i then act else 0.

(** The sizes the parts have did not change. *)
Lemma same_sizes_inv (un : bool) sz mn mx : un = unknown_size_flag_ m -> sz = size_ m -> mx = max_size_ m ->
  (if un then bounds_size fsize (delete i pend) (sized un sz mn mx (with_streaming_limit 0 (received k i act b m)))
   else knows_size fsize (delete i pend) (sized un sz mn mx (with_streaming_limit 0 (received k i act b m)))) ->
  clip (part_size_ m) (total_size m) i = act ->
  inv fsize (delete i pend) (sized un sz mn mx (received k i act b m)).
Proof.
  intros -> -> -> Hsz Hact. destruct (i_limit _ _ _ Hi) as [Hl1 Hl2]. apply limit_inv; auto.
  - refine (received_inv fsize pend m i Hi Hs k b _ _ _ _ Hb1 Hb2 Hsz _). intros Hkp.
    destruct (i_prefix _ _ _ Hi Hkp) as (?&_&_&_&?&_). done.
  - intros Hne. simpl in Hne. pose proof (received_stream fsize pend m i Hi Hs k b Hact) as E. fold act in E.
    change (k = stream_sum (received k i act b m)). rewrite E. unfold k. rewrite (proj2 (Z.ltb_lt 0 _)) by lia. simpl. by rewrite (Hl2 Hne).
  - simpl. intros Hkp. destruct (i_prefix _ _ _ Hi Hkp) as (_&_&_&?&_). done.
Qed.

(** They changed, and the limit was set again. *)
Lemma new_sizes_inv (un : bool) sz mn mx :
  (if un then bounds_size fsize (delete i pend) (sized un sz mn mx (with_streaming_limit 0 (received k i act b m)))
   else knows_size fsize (delete i pend) (sized un sz mn mx (with_streaming_limit 0 (received k i act b m)))) ->
  (known_prefix_flag_ m = true -> un = true /\ mx = INT64_MAX) ->
  let m1 := sized un sz mn mx (received k i act b m) in
  exists m', (if negb (streaming_limit_ m1 =? 0) then set_streaming_limit (streaming_limit_ m1) m1 else Ok m1) = Ok m' /\
    inv fsize (delete i pend) m' /\ same_transfer m' m1.
Proof.
  intros Hsz Hkp m1. destruct (i_limit _ _ _ Hi) as [Hl1 Hl2].
  pose proof (received_inv fsize pend m i Hi Hs k b un sz mn mx Hb1 Hb2 Hsz Hkp) as Hinv.
  assert (known_prefix_flag_ m = true -> streaming_limit_ m = 0) as Hk0
    by (intros Hk; by destruct (i_prefix _ _ _ Hi Hk) as (_&_&_&?&_)).
  change (streaming_limit_ m1) with (streaming_limit_ m). destruct (streaming_limit_ m =? 0) eqn:El; zbool; simpl negb; cbv iota.
  - exists m1. split; [reflexivity|]. split; [apply limit_inv; simpl; auto; lia|done].
  - destruct (set_streaming_limit_spec fsize (delete i pend) (streaming_limit_ m) m1 Hinv Hl1 Hk0) as (k'&->&Hi').
    eexists. split; [reflexivity|]. split; [exact Hi'|apply same_transfer_limit].
Qed.
End after.

Lemma received_fields k i act b m : let m' := received k i act b m in
  unknown_size_flag_ m' = unknown_size_flag_ m /\ size_ m' = size_ m /\ min_size_ m' = min_size_ m /\ max_size_ m' = max_size_ m /\
  part_size_ m' = part_size_ m /\ streaming_limit_ m' = streaming_limit_ m.
Proof. by destruct m. Qed.

Lemma update_size_known psz act off m : unknown_size_flag_ m = false ->
  (off < size_ m -> act = psz) -> (size_ m <= off -> act = 0) -> update_size psz act off m = Ok (Ok tt, m).
Proof.
  intros Hun H1 H2. unfold update_size. rewrite Hun. destruct (off <? size_ m) eqn:E; zbool.
  - rewrite (H1 E), Z.ltb_irrefl, (proj2 (Z.leb_gt _ _)) by lia. done.
  - rewrite (H2 E). by rewrite !andb_false_r.
Qed.

(** [update_size] while the size is unknown, on the bounds it computes. *)
Lemma update_size_unknown m ps act off mx mn : unknown_size_flag_ m = true -> ps = part_size_ m ->
  mx = (if (act <? ps) && (off + act <? max_size_ m) then off + act else max_size_ m) ->
  mn = (if negb (act =? 0) then Z.max (min_size_ m) (off + act) else min_size_ m) -> mn <= mx ->
  update_size ps act off m =
    let m1 := if mn =? mx then sized false mn mn mx m else sized true (size_ m) mn mx m in
    let* m := if ((act <? ps) && (off + act <? max_size_ m) || (mn =? mx)) && negb (streaming_limit_ m1 =? 0)
              then set_streaming_limit (streaming_limit_ m1) m1 else Ok m1 in
    Ok (Ok tt, m).
Proof.
  intros Hun -> Hmx Hmn Hle. destruct m as [f1 f2 f3 f4 f5 f6 f7 f8 f9 f10 f11 f12 f13 f14 f15 f16 f17 f18 f19 f20 f21 f22 f23 f24].
  cbn in Hun, Hmx, Hmn. subst f10. unfold update_size. cbn -[Z.ltb Z.eqb Z.max set_streaming_limit]. rewrite Z.eqb_refl.
  set (ch := (act <? f13) && (off + act <? f9)) in *.
  destruct ch; rewrite Hmx in *; clear Hmx; destruct (negb (act =? 0)); rewrite Hmn in *; clear Hmn;
    cbn -[Z.ltb Z.eqb Z.max set_streaming_limit]; rewrite (proj2 (Z.ltb_ge _ _)) by lia; destruct (_ =? _) eqn:E; reflexivity.
Qed.

Lemma sized_id m : sized (unknown_size_flag_ m) (size_ m) (min_size_ m) (max_size_ m) m = m.
Proof. by destruct m. Qed.

Lemma knows_size_other fsize pend pend' m m' : knows_size fsize pend m -> size_ m' = size_ m -> part_count_ m' = part_count_ m ->
  part_size_ m' = part_size_ m -> known_prefix_flag_ m' = known_prefix_flag_ m ->
  (forall j psz, pend' !! j = Some psz -> pend !! j = Some psz) -> knows_size fsize pend' m'.
Proof. intros [K1 K2 K3 K4] E1 E2 E3 E4 Hp. split; rewrite ?E1, ?E2, ?E3, ?E4; auto. Qed.

Lemma sized_fields un sz mn mx m : let m' := sized un sz mn mx m in
  unknown_size_flag_ m' = un /\ min_size_ m' = mn /\ part_size_ m' = part_size_ m /\ part_status_ m' = part_status_ m /\
  streaming_limit_ m' = streaming_limit_ m.
Proof. by destruct m. Qed.

Lemma received_stat k i act b m j : 0 <= i < Z.of_nat (parts m) ->
  stat (received k i act b m) j = if j =? i then Some Ready else stat m j.
Proof. intros Hi. rewrite <- (stat_put i Ready) by done. by destruct m. Qed.

Section on_part_ok.
Context (fsize : Z) (pend : gmap Z Z) (m : PartsManager) (i psz : Z) (b : Bitmask.t).
Context (Hi : inv fsize pend m) (Hp : pend !! i = Some psz) (Hs : stat m i = Some Pending).
Let act := clip (part_size_ m) fsize i.
Context (Hb1 : Bitmask.wf b) (Hb2 : forall j, Bitmask.get b j = (bool_decide (0 < act) && (j =? i)) || Bitmask.get (bitmask_ m) j).
Let k := streaming_ready_size_ m + if (0 <? streaming_limit_ m) && in_limit m i then act else 0.

Lemma ok_known : unknown_size_flag_ m = false ->
  update_size psz act (part_size_ m * i) (received k i act b m) = Ok (Ok tt, received k i act b m) /\
  inv fsize (delete i pend) (received k i act b m).
Proof.
  intros Hun. pose proof (i_size _ _ _ Hi) as Hsz. rewrite Hun in Hsz. pose proof Hsz as [K1 K2 K3 K4].
  pose proof (received_fields k i act b m) as (E1&E2&E3&E4&E5&E6). split.
  - apply update_size_known; [congruence|..]; rewrite E2, K1.
    + intros Hlt. symmetry. by apply K4.
    + intros Hge. unfold act, clip. lia.
  - rewrite <- (sized_id (received k i act b m)). rewrite E1, E2, E3, E4.
    apply (same_sizes_inv fsize pend m i b Hi Hs Hb1 Hb2); [done..| |unfold total_size; by rewrite Hun, K1].
    rewrite Hun. apply (knows_size_other fsize pend _ m); [done..|]. intros j q Hj. by apply lookup_delete_Some in Hj as [_ ?].
Qed.

Let mx := if (act <? part_size_ m) && (part_size_ m * i + act <? max_size_ m) then part_size_ m * i + act else max_size_ m.
Let mn := if negb (act =? 0) then Z.max (min_size_ m) (part_size_ m * i + act) else min_size_ m.

(** The lower bound counts the parts that are ready. *)
Lemma ok_counted sz m' : same_transfer m' (sized true sz mn mx (received k i act b m)) ->
  unknown_size_flag_ m = true -> counted fsize m -> counted fsize m'.
Proof.
  intros Hsame Hun Hc. apply (counted_same fsize _ _ Hsame). intros _ j Hj Hle. specialize (Hc Hun).
  destruct (sized_fields true sz mn mx (received k i act b m)) as (_&Em&Ep&Es&_). rewrite Em, Ep in *.
  destruct (received_fields k i act b m) as (_&_&_&_&Ep'&_). rewrite Ep' in *.
  unfold stat in Hj. rewrite Es in Hj. fold (stat (received k i act b m) j) in Hj.
  rewrite received_stat in Hj by (by eapply stat_range). pose proof (i_ps _ _ _ Hi) as Hps.
  destruct (j =? i) eqn:E; zbool.
  - subst j. assert (act = part_size_ m) as Ha by (unfold act, clip; lia). unfold mn. rewrite Ha, (proj2 (Z.eqb_neq _ 0)) by lia. simpl. lia.
  - specialize (Hc j Hj Hle). unfold mn. case_if; lia.
Qed.

Lemma ok_unknown : unknown_size_flag_ m = true ->
  exists m', update_size psz act (part_size_ m * i) (received k i act b m) = Ok (Ok tt, m') /\
    inv fsize (delete i pend) m' /\ (counted fsize m -> counted fsize m').
Proof.
  intros Hun. pose proof (received_fields k i act b m) as (E1&E2&E3&E4&E5&E6).
  destruct (new_bounds fsize pend m i Hi Hun) as [N1 N2]. fold act mn mx in N1, N2.
  pose proof (i_size _ _ _ Hi) as Hsz. rewrite Hun in Hsz. pose proof (bs_pend _ _ _ Hsz i psz Hp) as Hpsz. pose proof (bs_max _ _ _ Hsz) as Hmax.
  pose proof (i_ps _ _ _ Hi) as Hps.
  rewrite (update_size_unknown (received k i act b m) psz act (part_size_ m * i) mx mn);
    [|congruence|congruence|by rewrite E4, Hpsz|by rewrite E3|lia]. cbv zeta.
  set (ch := (act <? psz) && (part_size_ m * i + act <? max_size_ (received k i act b m))).
  destruct (mn =? mx) eqn:Eq; zbool.
  - rewrite orb_true_r, andb_true_l.
    destruct (new_sizes_inv fsize pend m i b Hi Hs Hb1 Hb2 false mn mn mx) as (m'&Em&Hi'&Hsame).
    { apply (becomes_known fsize pend m i Hi Hs Hun k b Eq). destruct (known_prefix_flag_ m) eqn:Ek; [|done].
      by destruct (prefix_unfinished fsize pend m i Hi Hs Hun Ek). }
    { intros Hk. by destruct (prefix_unfinished fsize pend m i Hi Hs Hun Hk). }
    fold act k in Em. rewrite Em. cbn [res_bind]. exists m'. split; [done|]. split; [done|]. intros _ Hu. destruct Hsame as (Hsu&_).
    destruct (sized_fields false mn mn mx (received k i act b m)) as (Hf&_). fold act k in Hsu. congruence.
  - rewrite orb_false_r, E2.
    pose proof (still_unknown fsize pend m i Hi Hs Hun k b Eq) as Hb. fold act in Hb.
    assert (known_prefix_flag_ m = true -> true = true /\ mx = INT64_MAX) as Hkp.
    { intros Hk. by destruct (prefix_unfinished fsize pend m i Hi Hs Hun Hk). }
    destruct ch eqn:Ech.
    + rewrite andb_true_l. destruct (new_sizes_inv fsize pend m i b Hi Hs Hb1 Hb2 true (size_ m) mn mx Hb Hkp) as (m'&Em&Hi'&Hsame). fold act k in Em, Hsame.
      rewrite Em. cbn [res_bind]. exists m'. split; [done|]. split; [done|]. by apply (ok_counted (size_ m)).
    + rewrite andb_false_l. cbn [res_bind]. eexists. split; [done|]. unfold ch in Ech. rewrite E4, Hpsz in Ech. split.
      * apply (same_sizes_inv fsize pend m i b Hi Hs Hb1 Hb2 true (size_ m) mn mx); auto.
        { unfold mx. by rewrite Ech. }
        { unfold total_size. rewrite Hun. apply andb_false_iff in Ech. unfold act, clip in *. destruct Ech as [Ech|Ech]; zbool; lia. }
      * by apply (ok_counted (size_ m)).
Qed.
End on_part_ok.

Lemma on_part_ok_spec fsize pend m i psz : inv fsize pend m -> pend !! i = Some psz ->
  exists m', on_part_ok i psz (sent fsize psz m i) m = Ok (Ok tt, m') /\ inv fsize (delete i pend) m' /\
    (counted fsize m -> counted fsize m').
Proof.
  intros Hi Hp. rewrite (sent_clip _ _ _ _ _ Hi Hp).
  assert (stat m i = Some Pending) as Hs by (apply (i_pend _ _ _ Hi); by rewrite Hp).
  destruct (on_part_ok_received fsize pend m i psz _ Hi Hp eq_refl) as (b&Hb1&Hb2&->).
  destruct (unknown_size_flag_ m) eqn:Hun.
  - by apply (ok_unknown fsize pend m i psz b).
  - destruct (ok_known fsize pend m i psz b Hi Hp Hs Hb1 Hb2 Hun) as [E Hi']. rewrite E. eexists. split; [done|]. split; [done|].
    intros _ Hu. destruct (received_fields (streaming_ready_size_ m + (if (0 <? streaming_limit_ m) && in_limit m i then clip (part_size_ m) fsize i else 0))
      i (clip (part_size_ m) fsize i) b m) as (E1&_). congruence.
Qed.

(** ** Starting a part *)
Definition same_ready (m' m : PartsManager) : Prop :=
  unknown_size_flag_ m' = unknown_size_flag_ m /\ min_size_ m' = min_size_ m /\ part_size_ m' = part_size_ m /\
  forall i, stat m' i = Some Ready <-> stat m i = Some Ready.

#[global] Instance same_ready_preorder : PreOrder same_ready.
Proof. split; [by intros m|]. intros m1 m2 m3 (?&?&?&Ha) (?&?&?&Hb). split_and!; try congruence. intros i. by rewrite Ha. Qed.

#[global] Instance counted_ready fsize : Proper (flip same_ready ==> impl) (counted fsize).
Proof. intros m m' (H1&H2&H3&Hs) Hc. unfold counted. rewrite H1, H2, H3. intros Hu i. rewrite Hs. by apply Hc. Qed.

(** What a transfer gets when it asks for a part: a part with its place and its size,
    of which the transfer is then pending, or no part. *)
Definition started (fsize : Z) (pend : gmap Z Z) (m : PartsManager) (p : Part) (m' : PartsManager) : Prop :=
  pend !! id p = None /\ offset p = part_size_ m * id p /\ 0 < size p <= part_size_ m /\ part_size_ m * id p < total_size m /\
  inv fsize (<[id p := size p]> pend) m'.

Lemma part_handed fsize pend m i : inv fsize pend m -> 0 <= i < part_count_ m -> part_size_ m * i < total_size m ->
  size (get_part m i) = (if unknown_size_flag_ m then part_size_ m else clip (part_size_ m) fsize i) /\ 0 < size (get_part m i) <= part_size_ m.
Proof.
  intros Hi Hr Hlt. pose proof (i_ps _ _ _ Hi) as Hps. rewrite get_part_clip by lia. pose proof (i_size _ _ _ Hi) as Hsz.
  pose proof (i_count _ _ _ Hi). unfold total_size in *. destruct (unknown_size_flag_ m).
  - enough (clip (part_size_ m) (max_size_ m) i = part_size_ m) by lia. unfold clip.
    assert (part_size_ m * i <= 2 ^ 20 * 2 ^ 23) by (apply Z.mul_le_mono_nonneg; lia).
    destruct (bs_max_div _ _ _ Hsz) as [->|[q Hq]]; [unfold INT64_MAX; lia|]. rewrite Hq in *.
    assert (i < q) by nia. assert (part_size_ m * (i + 1) <= q * part_size_ m) by nia. lia.
  - rewrite (ks_size _ _ _ Hsz) in *. unfold clip. lia.
Qed.

Lemma start_at_spec fsize pend m i : inv fsize pend m -> stat m i = Some Empty ->
  exists p m', start_at i m = Ok (Ok p, m') /\ same_ready m' m /\
    ((p = get_empty_part /\ m' = m /\ (in_limit m i = false \/ total_size m <= i * part_size_ m)) \/
     (id p = i /\ started fsize pend m p m')).
Proof.
  intros Hi Hs. pose proof (stat_range _ _ _ Hs) as Hr. pose proof (i_len _ _ _ Hi) as Hlen. unfold start_at.
  rewrite is_part_in_streaming_limit_spec by (lia || by eapply inv_window). cbn [res_bind]. fold (total_size m). unfold get_part_size.
  destruct (in_limit m i) eqn:El; simpl negb; simpl orb; [|exists get_empty_part, m; split_and!; [done|done|left; by auto]].
  destruct (total_size m <=? i * part_size_ m) eqn:Et; zbool; [exists get_empty_part, m; split_and!; [done|done|left; by auto]|].
  unfold on_part_start. rewrite (status_stat _ _ _ Hs). cbn [res_bind]. rewrite bool_decide_true by done. cbn [res_bind].
  set (m' := with_pending_count (pending_count_ m + 1) (put_status i Pending m)).
  destruct (part_handed fsize pend m i Hi) as [Hh1 Hh2]; [lia|lia|].
  change (get_part m' i) with (get_part m i). exists (get_part m i), m'. split; [done|]. split.
  - split_and!; [done..|]. intros j. change (stat m' j) with (stat (put_status i Pending m) j).
    by apply stat_put_ready; [|congruence..].
  - right. split; [done|]. split_and!; [|done|lia|lia|simpl; lia|by apply start_inv].
    change (id (get_part m i)) with i. apply eq_None_not_Some. rewrite (i_pend _ _ _ Hi). congruence.
Qed.

(** No part of the file is left for a transfer without a streaming offset and limit. *)
Definition exhausted (m : PartsManager) : Prop :=
  exists i, 0 <= i <= part_count_ m /\ (forall j, 0 <= j < i -> stat m j <> Some Empty) /\ total_size m <= i * part_size_ m.

(** The state between two calls of a transfer that goes through the file in order. *)
Definition in_order (m : PartsManager) : Prop := streaming_offset_ m = 0 /\ streaming_limit_ m = 0.

(** The outcomes of [start_part]. *)
Definition start_outcome (fsize : Z) (pend : gmap Z Z) (m : PartsManager) (r : Res Part) (m' : PartsManager) : Prop :=
  match r with
  | Ok p =>
      (p = get_empty_part /\ inv fsize pend m' /\ (in_order m -> exhausted m')) \/
      (started fsize pend m p m' /\ (in_order m -> forall j, 0 <= j < id p -> exists s, stat m j = Some s /\ s <> Empty))
  | Error c _ =>
      (c = -1 /\ known_prefix_flag_ m = true /\ inv fsize pend m') \/
      (c = 0 /\ unknown_size_flag_ m = true /\ MAX_PART_COUNT_PREMIUM <= part_count_ m /\
        (in_order m -> forall j, 0 <= j < part_count_ m -> stat m j <> Some Empty))
  | Panic _ => False
  end.

Section start_part.
Context (fsize : Z) (pend : gmap Z Z) (m : PartsManager) (Hi : inv fsize pend m).

Lemma in_order_limit i : in_order m -> in_limit m i = true.
Proof. intros [_ Hl]. unfold in_limit. by rewrite Hl. Qed.

Lemma start_at_outcome i : stat m i = Some Empty -> (in_order m -> forall j, 0 <= j < i -> stat m j <> Some Empty) ->
  exists r m', start_at i m = Ok (r, m') /\ start_outcome fsize pend m r m' /\ same_ready m' m.
Proof.
  intros Hs Hne. destruct (start_at_spec fsize pend m i Hi Hs) as (p&m'&->&Hc&[(->&->&Hl)|(Hid&Hst)]); eexists _, _; (split; [done|]); split; auto.
  - left. split_and!; auto. intros Ho. exists i. pose proof (stat_range _ _ _ Hs). pose proof (i_len _ _ _ Hi).
    split_and!; [lia|lia|by apply Hne|]. destruct Hl as [Hl|]; [|done]. by rewrite in_order_limit in Hl.
  - right. rewrite Hid. split; [done|]. intros Ho j Hj. specialize (Hne Ho j Hj). pose proof (stat_range _ _ _ Hs).
    destruct (proj1 (stat_Some m j)) as [s Es]; [lia|]. rewrite Es in *. exists s. split; congruence.
Qed.
End start_part.

Lemma start_outcome_grown fsize pend k m r m' : start_outcome fsize pend (grow k m) r m' ->
  (forall c msg, r <> Error c msg) -> start_outcome fsize pend m r m'.
Proof.
  unfold start_outcome. destruct r as [p|c msg|]; [|by intros _ Hn; destruct (Hn c msg)|done]. intros [(?&?&?)|(Hst&Hne)] _; [left; auto|right].
  split; [exact Hst|]. intros Ho j Hj. destruct (Hne Ho j Hj) as (s&Hs&Hn).
  exists s. split; [by apply (stat_grown_Some k)|done].
Qed.

Lemma start_part_spec fsize pend m : inv fsize pend m ->
  exists r m', start_part m = Ok (r, m') /\ start_outcome fsize pend m r m' /\ same_ready m' m.
Proof.
  intros Hi. unfold start_part. destruct (update_first_empty_part_spec _ _ _ Hi) as (fe&fse&->&Hi'&[Hf1 Hf2]&[Hs1 Hs2]&Hso). cbn [res_bind].
  set (m1 := with_first_streaming_empty_part fse (with_first_empty_part fe m)) in *.
  assert (forall r m', start_outcome fsize pend m1 r m' -> start_outcome fsize pend m r m') as Hback by done.
  assert (forall j, in_order m -> 0 <= j < fse -> stat m j <> Some Empty) as Hne.
  { intros j [Ho _]. rewrite (Hso Ho). exact (proj2 (i_fe _ _ _ Hi') j). }
  change (first_streaming_empty_part_ m1) with fse. change (known_prefix_flag_ m1) with (known_prefix_flag_ m). cbv zeta.
  destruct (known_prefix_flag_ m && (known_prefix_size_ m1 / part_size_ m1 <=? fse)) eqn:Ek.
  { apply andb_true_iff in Ek as [Ek _]. eexists _, m1. split; [done|]. split; [left; auto|done]. }
  pose proof (i_len _ _ _ Hi) as Hlen. pose proof (i_ps _ _ _ Hi) as Hps. change (part_count_ m1) with (part_count_ m).
  destruct (fse =? part_count_ m) eqn:Ec; zbool.
  - change (unknown_size_flag_ m1) with (unknown_size_flag_ m). destruct (unknown_size_flag_ m) eqn:Hun.
    + cbv zeta. destruct (_ <? _) eqn:El; zbool.
      { eexists _, _. split; [done|]. split; [|done]. right. split_and!; [done|done|simpl in El; case_if_in El; lia|].
        intros Hord j Hj. apply Hne; [done|lia]. }
      assert (inv fsize pend (grow 1 m1)) as Hg.
      { apply grow_inv; [done|simpl in *; unfold MAX_PART_COUNT_PREMIUM in El; case_if_in El; lia|].
        intros Hkp. simpl in *. rewrite Hkp in Ek. simpl in Ek. zbool.
        pose proof (Z.mul_div_le (known_prefix_size_ m) (part_size_ m)). nia. }
      destruct (start_at_outcome fsize pend (grow 1 m1) Hg fse) as (r&m'&E&Ho&Hc).
      { rewrite stat_grown. change (parts m1) with (parts m). rewrite (proj2 (Z.leb_le _ _)), (proj2 (Z.ltb_lt _ _)) by lia. done. }
      { intros Hord j Hj. rewrite stat_grown. change (parts m1) with (parts m).
        rewrite (proj2 (Z.leb_gt _ j)) by lia. simpl. apply Hne; [exact Hord|done]. }
      exists r, m'. split; [exact E|]. split.
      2: { etrans; [exact Hc|]. split_and!; [done..|]. intros j. exact (stat_grown_Some 1 m1 j Ready ltac:(done)). }
      apply Hback, (start_outcome_grown _ _ 1); [done|].
      intros c msg ->. destruct (start_at_spec fsize pend (grow 1 m1) fse Hg) as (p&m2&E2&_); [|by rewrite E in E2].
      rewrite stat_grown. change (parts m1) with (parts m). rewrite (proj2 (Z.leb_le _ _)), (proj2 (Z.ltb_lt _ _)) by lia. done.
    + change (first_empty_part_ m1) with fe. destruct (fe <? part_count_ m) eqn:Ef; zbool.
      * destruct (start_at_outcome fsize pend m1 Hi' fe) as (r&m'&E&Ho&Hc); [by apply Hf2| |by eauto].
        intros _. exact (proj2 (i_fe _ _ _ Hi')).
      * eexists _, m1. split; [done|]. split; [left|done]. split_and!; [done..|]. intros Hord. exists fse. split_and!; [simpl; lia..| |].
        { intros j Hj. by apply Hne. }
        { unfold total_size. change (unknown_size_flag_ m1) with (unknown_size_flag_ m). rewrite Hun. pose proof (i_size _ _ _ Hi) as Hsz.
          rewrite Hun in Hsz. simpl. destruct Hsz as [-> ? _ _]. by rewrite Ec. }
  - destruct (start_at_outcome fsize pend m1 Hi' fse) as (r&m'&E&Ho&Hc); [apply Hs2; lia| |by eauto].
    intros Hord j Hj. by apply Hne.
Qed.

Lemma on_part_failed_spec fsize pend m i : inv fsize pend m -> is_Some (pend !! i) ->
  exists m', on_part_failed i m = Ok m' /\ inv fsize (delete i pend) m' /\ (counted fsize m -> counted fsize m').
Proof.
  intros Hi Hp. apply (i_pend _ _ _ Hi) in Hp as Hs. pose proof (fail_inv _ _ _ _ Hi Hs) as Hi'. cbv zeta in Hi'.
  unfold on_part_failed. rewrite (status_stat _ _ _ Hs). cbn [res_bind]. rewrite bool_decide_true by done.
  pose proof (stat_range _ _ _ Hs) as Hr. pose proof (i_len _ _ _ Hi) as Hlen.
  set (m1 := put_status i Empty (with_pending_count (pending_count_ m - 1) m)) in *. change (first_empty_part_ m1) with (first_empty_part_ m).
  set (m2 := if i <? first_empty_part_ m then with_first_empty_part i m1 else m1) in *.
  assert (forall j, inv fsize (delete i pend) m2 -> (streaming_offset_ m2 <> 0 -> 0 <= j <= part_count_ m2) ->
    inv fsize (delete i pend) (with_first_streaming_empty_part j m2)) as Hfse.
  { clear. intros j Hi Hj. same_inv Hi. intros Hne. split; [by apply Hj|by apply i_fs0]. }
  assert (part_count_ m2 = part_count_ m /\ streaming_offset_ m2 = streaming_offset_ m /\ part_size_ m2 = part_size_ m) as (Ec&Eo&Eps)
    by (unfold m2; by destruct (i <? first_empty_part_ m)).
  assert (counted fsize m -> counted fsize m2) as Hc.
  { apply counted_ready. unfold m2. destruct (i <? first_empty_part_ m); (split_and!; [done..|]); intros j;
      (change (stat _ j = Some Ready) with (stat (put_status i Empty m) j = Some Ready) at 1; by apply stat_put_ready; [|congruence..]). }
  cbv zeta. rewrite Eo. destruct (streaming_offset_ m =? 0) eqn:Eo'; zbool.
  - eexists. split; [done|]. split; [apply Hfse; [done|congruence]|exact Hc].
  - rewrite Eps. destruct (i_offset _ _ _ Hi) as [Ho1 Ho2]. pose proof (offset_index _ _ _ _ Hi Ho1 Ho2). unfold narrow_int. rewrite (proj2 (Z.ltb_lt _ _)) by lia. cbn [res_bind].
    eexists. split; [done|]. split.
    + destruct (_ && _); [apply Hfse; [done|]|done]. rewrite Ec. lia.
    + destruct (_ && _); exact Hc.
Qed.

(** ** The prefix of a file that is being generated *)
Lemma forget_prefix fsize pend m : inv fsize pend m -> inv fsize pend (with_known_prefix_flag false m).
Proof.
  intros Hi. destruct Hi. split; try assumption.
  - simpl. destruct (unknown_size_flag_ m); destruct i_size0; split; (assumption || done).
  - simpl. congruence.
Qed.

Lemma prefix_inv fsize pend m e size : inv fsize pend m -> known_prefix_size_ m <= size <= fsize ->
  inv fsize pend (with_expected_size e (with_known_prefix_size size m)).
Proof. intros Hi Hsize. same_inv Hi. simpl. intros Hk. specialize (i_prefix0 Hk). intuition lia. Qed.

(** The size is now known, and there are enough parts for it. *)
Lemma known_inv fsize pend m : inv fsize pend m -> unknown_size_flag_ m = true -> known_prefix_flag_ m = false -> streaming_limit_ m = 0 ->
  fsize <= part_count_ m * part_size_ m -> (forall i, is_Some (pend !! i) -> part_size_ m * (i + 1) <= fsize) ->
  inv fsize pend (with_unknown_size_flag false (with_size fsize m)).
Proof.
  intros Hi Hun Hk Hl Hc Hp. destruct Hi. rewrite Hun in i_size0. split; try assumption.
  - split; [done|done|done|]. intros i psz Hpi Hlt. specialize (Hp i (ex_intro _ _ Hpi)). rewrite (bs_pend _ _ _ i_size0 i psz Hpi).
    unfold clip. simpl. lia.
  - split; simpl; [lia|congruence].
  - simpl. congruence.
Qed.

Lemma ceil_div a b : 0 < b -> 0 <= a -> a <= (a + b - 1) / b * b < a + b.
Proof.
  intros Hb Ha. pose proof (Z.mul_div_le (a + b - 1) b Hb). pose proof (Z.mod_pos_bound (a + b - 1) b Hb).
  rewrite Z.mod_eq in H0 by lia. lia.
Qed.

Lemma file_parts fsize pend m : inv fsize pend m -> fsize <= part_size_ m * 2 ^ 22.
Proof.
  intros Hi. pose proof (i_ps _ _ _ Hi). pose proof (i_S _ _ _ Hi) as HS. unfold MAX_FILE_SIZE, MAX_PART_SIZE, MAX_PART_COUNT_PREMIUM in HS.
  change (Z.shiftl 512 10) with 524288 in HS. lia.
Qed.

Lemma set_known_prefix_spec fsize pend m size b : inv fsize pend m -> is_upload_ m = true -> size <= fsize -> (b = true -> size = fsize) ->
  exists r m', set_known_prefix size b m = Ok (r, m') /\ inv fsize pend m' /\ (r = Ok tt \/ r = Error 0 "FILE_UPLOAD_RESTART") /\
    (counted fsize m -> counted fsize m').
Proof.
  intros Hi Hup Hsize Hb. unfold set_known_prefix. rewrite Hup. destruct (_ || _) eqn:E1; [by eauto 8|].
  apply orb_false_iff in E1 as [E1 E2]. apply orb_false_iff in E1 as [Ek E1]. apply negb_false_iff in Ek. zbool.
  destruct (i_prefix _ _ _ Hi Ek) as (Hun&_&Hso&Hsl&Hmax&Hpre).
  set (m1 := with_expected_size _ _). set (m0 := with_known_prefix_size size m) in m1.
  assert (inv fsize pend m1) as Hi1 by (apply prefix_inv; [done|lia]). pose proof (i_len _ _ _ Hi1) as Hlen.
  pose proof (i_ps _ _ _ Hi1) as Hps. pose proof (file_parts _ _ _ Hi1) as Hfp. pose proof (i_S _ _ _ Hi) as HS.
  fold (parts m1). rewrite Hlen, Z.eqb_refl. assert (part_count_ m1 * part_size_ m1 <= size) as Hpc by (change (part_count_ m * part_size_ m <= size); lia).
  pose proof (stat_range m1) as Hrange.
  enough (exists m2, (let* m := (if b
    then let* count := calc_part_count size (part_size_ m1) in
         let m := with_part_count (s32 count) m1 in
         let m := with_known_prefix_flag false (with_unknown_size_flag false (with_size size m)) in
         if negb (streaming_limit_ m =? 0) then set_streaming_limit (streaming_limit_ m) m else Ok m
    else Ok (with_part_count (s32 (size / part_size_ m1)) m1)) in
    CHECK! Z.of_nat (length (part_status_ m)) <=? part_count_ m else "part_count_ >= part_status_.size()" in
    Ok (resize_status (part_count_ m) m)) = Ok m2 /\ inv fsize pend m2 /\ is_upload_ m2 = true /\ (counted fsize m -> counted fsize m2)) as (m2&E&Hi2&Hup2&Hc2).
  { destruct (if b then _ else _) as [m3|? ?|?]; try discriminate E. cbn [res_bind] in *. destruct (_ <=? _); [|done].
    injection E as ->. unfold calc_part_count. pose proof (i_ps _ _ _ Hi2). rewrite (proj2 (Z.eqb_neq (part_size_ m2) 0)) by lia. cbn [res_bind negb].
    rewrite Hup2. case_if; eauto 8. }
  destruct b.
  - rewrite (Hb eq_refl) in *. clear Hb E2. pose proof (ceil_div fsize (part_size_ m1) ltac:(lia) ltac:(lia)) as Hceil.
    unfold calc_part_count. rewrite (proj2 (Z.eqb_neq (part_size_ m1) 0)) by lia. cbn [res_bind negb].
    set (n := (fsize + part_size_ m1 - 1) / part_size_ m1) in *. assert (part_count_ m1 <= n <= 2 ^ 22) as Hn by nia.
    rewrite s32_small by (unfold is_s32; lia). change (streaming_limit_ _) with (streaming_limit_ m) at 1. rewrite Hsl. cbn [Z.eqb negb res_bind].
    set (m3 := with_known_prefix_flag false _). change (part_count_ m3) with n. change (length (part_status_ m3)) with (parts m1).
    rewrite Hlen, (proj2 (Z.leb_le _ _)) by lia. eexists. split; [done|].
    assert (resize_status n m3 = with_unknown_size_flag false (with_size fsize (grow (Z.to_nat (n - part_count_ m1)) (with_known_prefix_flag false m1)))) as ->.
    { pose proof (resize_status_grow n (with_known_prefix_flag false m1) (proj1 Hn) Hlen) as Hg.
      change (part_count_ (with_known_prefix_flag false m1)) with (part_count_ m1) in Hg. by rewrite <- Hg. }
    split; [|split; [exact Hup|by intros _ ?]]. set (k := Z.to_nat (n - part_count_ m1)). apply known_inv; [|exact Hun|done|exact Hsl|..].
    + apply grow_inv; [by apply forget_prefix|simpl in *; unfold k; simpl; lia|done].
    + change (fsize <= (part_count_ m1 + Z.of_nat k) * part_size_ m1). unfold k. rewrite Z2Nat.id by lia. lia.
    + intros i Hp. apply (i_pend _ _ _ Hi1) in Hp. apply Hrange in Hp. change (part_size_ m1 * (i + 1) <= fsize). nia.
  - clear Hb. pose proof (Z.mul_div_le size (part_size_ m1) ltac:(lia)) as Hdiv.
    assert (part_count_ m1 <= size / part_size_ m1 <= 2 ^ 22) as Hn by (split; [apply Z.div_le_lower_bound; lia|apply Z.div_le_upper_bound; lia]).
    set (n := size / part_size_ m1) in *. rewrite s32_small by (unfold is_s32; lia). cbn [res_bind].
    change (length (part_status_ (with_part_count n m1))) with (parts m1). change (part_count_ (with_part_count n m1)) with n.
    rewrite Hlen, (proj2 (Z.leb_le _ _)) by lia. eexists. split; [done|]. rewrite resize_status_grow by (lia || done).
    set (k := Z.to_nat (n - part_count_ m1)). split; [|split; [exact Hup|]].
    + apply grow_inv; [done|unfold k; lia|]. intros _. change (known_prefix_size_ m1) with size. unfold k. rewrite Z2Nat.id by lia. lia.
    + intros Hc. apply (counted_ready fsize m1); [|exact Hc]. split_and!; [done..|]. intros j. by apply stat_grown_Some.
Qed.
