(* ===== verification/PartsTransfer.v ===== *)
(** * Transfers

    What [PartsManager] promises to the uploader and the downloader that use it
    (td/telegram/files/FileUploader.cpp, FileDownloader.cpp): a manager that is
    initialized and then driven by an honest transfer never fails a [CHECK] and
    keeps its invariant, and a transfer that takes the parts in order ends with
    the whole file. *)
From S2P Require Import Prelude FileBitmask PartsManager.
Local Open Scope td_scope.

(** ** Initialization *)

(** The fields an operation on parts leaves alone. *)
Definition same_mode (m' m : PartsManager) : Prop :=
  is_upload_ m' = is_upload_ m /\ use_part_count_limit_ m' = use_part_count_limit_ m /\ part_size_ m' = part_size_ m /\
  streaming_offset_ m' = streaming_offset_ m /\ streaming_limit_ m' = streaming_limit_ m /\ known_prefix_flag_ m' = known_prefix_flag_ m.

#[global] Instance same_mode_preorder : PreOrder same_mode.
Proof. split; [by intros m|]. intros m1 m2 m3 (?&?&?&?&?&?) (?&?&?&?&?&?). unfold same_mode. split_and!; congruence. Qed.

(** A part that was transferred before. *)
Definition resumable (fsize : Z) (m : PartsManager) (i : Z) : Prop :=
  0 <= i < part_count_ m /\ if unknown_size_flag_ m then part_size_ m * (i + 1) <= fsize else part_size_ m * i < fsize.

Section resume.
Context (fsize : Z) (m : PartsManager) (i : Z) (Hi : inv fsize ∅ m) (Hs : stat m i = Some Empty) (Hr : resumable fsize m i).
Context (Hl : streaming_limit_ m = 0) (Hmax : unknown_size_flag_ m = true -> max_size_ m = INT64_MAX).
Let act := clip (part_size_ m) fsize i.

(** A part that is ready from the start is one that was started and received. *)
Lemma resume_part : size (get_part m i) = act /\ 0 < act.
Proof.
  pose proof (i_ps _ _ _ Hi). pose proof (i_size _ _ _ Hi) as Hsz. pose proof (i_S _ _ _ Hi). rewrite get_part_clip by lia.
  unfold act, total_size, resumable, clip in *. destruct (unknown_size_flag_ m).
  - rewrite Hmax by done. unfold INT64_MAX, MAX_FILE_SIZE, MAX_PART_SIZE, MAX_PART_COUNT_PREMIUM in *.
    change (Z.shiftl 512 10) with 524288 in *. lia.
  - rewrite (ks_size _ _ _ Hsz). lia.
Qed.

Lemma resume_inv b : Bitmask.wf b -> (forall j, Bitmask.get b j = (j =? i) || Bitmask.get (bitmask_ m) j) ->
  inv fsize ∅ (with_ready_size (ready_size_ m + act) (with_bitmask b (put_status i Ready m))).
Proof.
  intros Hb1 Hb2. destruct resume_part as [_ Ha]. set (psz := if unknown_size_flag_ m then part_size_ m else act).
  pose proof (start_inv fsize ∅ m i Hi psz Hs eq_refl) as Hst. set (m1 := with_pending_count _ _) in Hst.
  assert (stat m1 i = Some Pending) as Hs1.
  { change (stat (put_status i Pending m) i = Some Pending). rewrite stat_put by (by eapply stat_range). by rewrite Z.eqb_refl. }
  assert (with_ready_size (ready_size_ m + act) (with_bitmask b (put_status i Ready m)) =
    sized (unknown_size_flag_ m) (size_ m) (min_size_ m) (max_size_ m) (with_streaming_limit 0 (received (streaming_ready_size_ m) i act b m1))) as ->.
  { unfold m1. destruct m. simpl in Hl. subst. unfold received, sized, put_status. cbn. rewrite list_insert_insert_eq, Z.add_simpl_r. done. }
  assert (delete i (<[i := psz]> ∅) = (∅ : gmap Z Z)) as Hd by (rewrite delete_insert_eq; apply delete_empty). rewrite <- Hd.
  apply (received_inv fsize (<[i := psz]> ∅) m1 i Hst Hs1); [done| | |].
  - intros j. change (part_size_ m1) with (part_size_ m). fold act. by rewrite bool_decide_true by lia.
  - pose proof (i_size _ _ _ Hi) as Hsz. destruct Hr as [_ Hr']. destruct (unknown_size_flag_ m).
    + destruct Hsz as [B1 B2 B3 B4 Bc B5 B6 B7]. split; auto.
      * intros j Hj. change (stat (put_status i Ready m1) j = Some Ready) in Hj. rewrite stat_put in Hj by (by eapply stat_range).
        case_if_in Hj; [left; subst; exact Hr'|]. change (stat (put_status i Pending m) j = Some Ready) in Hj.
        rewrite stat_put in Hj by (by eapply stat_range). rewrite (proj2 (Z.eqb_neq j i)) in Hj by done. by apply B6.
      * rewrite Hd. intros j psz' Hj. by rewrite lookup_empty in Hj.
    + destruct Hsz as [K1 K2 K3 K4]. split; auto. rewrite Hd. intros j psz' Hj. by rewrite lookup_empty in Hj.
  - intros Hkp. split; [by apply (i_prefix _ _ _ Hi)|]. apply Hmax. by apply (i_prefix _ _ _ Hi).
Qed.
End resume.

Lemma init_ready_parts_spec fsize l : forall m, inv fsize ∅ m -> streaming_limit_ m = 0 -> NoDup l ->
  (unknown_size_flag_ m = true -> max_size_ m = INT64_MAX) -> Forall (fun i => stat m i = Some Empty /\ resumable fsize m i) l ->
  exists r m', init_ready_parts l m = Ok (r, m') /\ same_mode m' m /\
    match r with
    | Ok _ => inv fsize ∅ m' /\ unknown_size_flag_ m' = unknown_size_flag_ m /\ (l = [] -> m' = m)
    | Error c msg => c = 0 /\ msg = "FILE_UPLOAD_RESTART"%string /\ known_prefix_flag_ m = true
    | Panic _ => False
    end.
Proof.
  induction l as [|i l IH]; intros m Hi Hl Hnd Hmax Hall; cbn [init_ready_parts]; [by exists (Ok tt), m|].
  apply Forall_cons_inv in Hall as [[Hs Hr] Hall]. apply NoDup_cons in Hnd as [Hni Hnd].
  destruct (known_prefix_flag_ m && _) eqn:E.
  { apply andb_true_iff in E as [Hk _]. destruct (i_prefix _ _ _ Hi Hk) as (_&->&_). by exists (Error 0 "FILE_UPLOAD_RESTART"), m. }
  pose proof Hr as [Hr1 Hr2]. rewrite (proj2 (Z.leb_gt _ _)), (proj2 (Z.leb_le 0 i)), (proj2 (Z.ltb_lt _ _)), andb_false_r by lia.
  simpl andb. cbv iota. change (bitmask_ (put_status i Ready m)) with (bitmask_ m).
  destruct (Bitmask.set_spec i (bitmask_ m) (proj1 (i_bits _ _ _ Hi)) (proj1 Hr1)) as (b&->&Hb1&Hb2). cbn [res_bind].
  destruct (resume_part fsize m i Hi Hr Hmax) as [Hsize Hact].
  pose proof (resume_inv fsize m i Hi Hs Hr Hl Hmax b Hb1 Hb2) as Hi'.
  change (get_part (with_bitmask b (put_status i Ready m)) i) with (get_part m i). rewrite Hsize.
  change (ready_size_ (with_bitmask b (put_status i Ready m))) with (ready_size_ m). set (m1 := with_ready_size _ _) in *.
  destruct (IH m1 Hi' Hl Hnd Hmax) as (r&m'&E'&Hm&Hout).
  { rewrite Forall_forall in *. intros j Hj. destruct (Hall j Hj) as [Hsj Hrj]. split; [|exact Hrj].
    change (stat (put_status i Ready m) j = Some Empty). rewrite stat_put by (by eapply stat_range).
    by rewrite (proj2 (Z.eqb_neq j i)) by congruence. }
  exists r, m'. split; [done|]. split; [exact Hm|]. destruct r as [[]|c msg|]; auto.
  destruct Hout as (?&?&_). split_and!; auto. done.
Qed.

(** The state [init_common] starts from. *)
Record configured (fsize : Z) (m : PartsManager) : Prop := {
  c_ps : 1024 <= part_size_ m <= 2 ^ 20;
  c_S : 0 <= fsize <= MAX_FILE_SIZE;
  c_check : need_check_ m = false;
  c_offset : streaming_offset_ m = 0;
  c_limit : streaming_limit_ m = 0;
  c_bits : bitmask_ m = Bitmask.empty;
  c_count : 0 <= part_count_ m <= 2 ^ 23;
  c_size : if unknown_size_flag_ m then min_size_ m = 0 /\ max_size_ m = INT64_MAX
           else size_ m = fsize /\ fsize <= part_count_ m * part_size_ m /\ known_prefix_flag_ m = false;
  c_prefix : known_prefix_flag_ m = true -> is_upload_ m = true /\ part_count_ m * part_size_ m <= known_prefix_size_ m <= fsize;
}.

Definition no_parts (m : PartsManager) : PartsManager :=
  let m := with_ready_size 0 (with_streaming_ready_size 0 (with_pending_count 0 (with_first_empty_part 0 (with_first_not_ready_part 0 m)))) in
  with_part_status (replicate (Z.to_nat (part_count_ m)) Empty) m.

Lemma stat_no_parts m i : stat (no_parts m) i = if (0 <=? i) && (i <? part_count_ m) then Some Empty else None.
Proof.
  unfold stat. change (part_status_ (no_parts m)) with (replicate (Z.to_nat (part_count_ m)) Empty).
  destruct (0 <=? i) eqn:E1; zbool; simpl.
  - rewrite (proj2 (Z.ltb_ge i 0)) by lia. destruct (i <? part_count_ m) eqn:E2; zbool.
    + apply lookup_replicate_2. lia.
    + apply lookup_ge_None_2. rewrite length_replicate. lia.
  - by rewrite (proj2 (Z.ltb_lt i 0)) by lia.
Qed.

Lemma no_parts_inv fsize m : configured fsize m -> inv fsize ∅ (no_parts m).
Proof.
  intros []. assert (forall i s, stat (no_parts m) i = Some s -> s = Empty) as He.
  { intros i s. rewrite stat_no_parts. case_if; congruence. }
  assert (forall i s, s <> Empty -> bool_decide (stat (no_parts m) i = Some s) = false) as Hb.
  { intros i s Hs. apply bool_decide_eq_false. intros E%He. done. }
  split; auto.
  - unfold parts. change (part_status_ (no_parts m)) with (replicate (Z.to_nat (part_count_ m)) Empty). rewrite length_replicate. simpl. lia.
  - simpl. lia.
  - simpl. symmetry. apply sumf_zero. intros i _. unfold pending_one. by rewrite Hb.
  - intros i. rewrite lookup_empty. split; [by intros []|]. by intros E%He.
  - change (unknown_size_flag_ (no_parts m)) with (unknown_size_flag_ m). destruct (unknown_size_flag_ m).
    + destruct c_size0 as [E1 E2]. split; simpl; rewrite ?E1, ?E2; unfold INT64_MAX, MAX_FILE_SIZE, MAX_PART_SIZE, MAX_PART_COUNT_PREMIUM in *;
        [lia|change (Z.shiftl 512 10) with 524288 in *; lia|lia|apply Z.divide_0_r|nia|by left|by intros i E%He|done].
    + destruct c_size0 as (?&?&?). by split.
  - simpl. symmetry. apply sumf_zero. intros i _. unfold ready_bytes. by rewrite Hb.
  - change (bitmask_ (no_parts m)) with (bitmask_ m). rewrite c_bits0. split; [by constructor|].
    intros i. assert (Bitmask.get Bitmask.empty i = false) as -> by (unfold Bitmask.get; by case_if). split; [done|]. by intros [E%He _].
  - simpl. split; [lia|]. intros. lia.
  - simpl. split; [lia|]. intros. lia.
  - simpl. lia.
  - simpl. lia.
  - simpl. lia.
  - simpl. intros Hk. destruct (c_prefix0 Hk) as [? ?]. rewrite Hk in c_size0.
    destruct (unknown_size_flag_ m); [|by destruct c_size0 as (_&_&?)]. destruct c_size0. split_and!; auto; lia.
Qed.

Lemma init_common_spec fsize l m : configured fsize m -> NoDup l -> Forall (resumable fsize m) l ->
  exists r m', init_common l m = Ok (r, m') /\ same_mode m' m /\
    match r with
    | Ok _ => inv fsize ∅ m' /\ unknown_size_flag_ m' = unknown_size_flag_ m /\ (l = [] -> counted fsize m')
    | Error c msg => c = 0 /\ msg = "FILE_UPLOAD_RESTART"%string
    | Panic _ => False
    end.
Proof.
  intros Hc Hnd Hall. unfold init_common. fold (no_parts m). pose proof (no_parts_inv _ _ Hc) as Hi.
  destruct (init_ready_parts_spec fsize l (no_parts m) Hi) as (r&m1&E&Hm1&Hout); [apply Hc|done| | |].
  { intros Hu. pose proof (c_size _ _ Hc) as Hsz. change (unknown_size_flag_ m = true) in Hu. rewrite Hu in Hsz. by destruct Hsz. }
  { rewrite Forall_forall in *. intros i Hin. specialize (Hall i Hin). split; [|exact Hall]. destruct Hall as [Hr _].
    rewrite stat_no_parts, (proj2 (Z.leb_le 0 i)), (proj2 (Z.ltb_lt _ _)) by lia. done. }
  rewrite E. cbn [res_bind]. destruct r as [[]|c msg|]; [|destruct Hout as (->&->&_); by eexists _, m1|done].
  destruct Hout as (Hi1&Hu1&Hnil). unfold get_ready_prefix_count, get_unchecked_ready_prefix_count.
  destruct (update_first_not_ready_part_spec _ _ _ Hi1) as (a&b&->&Hi2&_). cbn [res_bind].
  rewrite (i_check _ _ _ Hi2). cbn [res_bind]. eexists _, _. split; [done|]. split; [exact Hm1|]. split_and!.
  - clear -Hi2. same_inv Hi2.
  - exact Hu1.
  - intros Hl. rewrite (Hnil Hl). intros _ i Hs. change (stat (no_parts m) i = Some Ready) in Hs. rewrite stat_no_parts in Hs. by case_if_in Hs.
Qed.

(** ** Part sizes *)
Lemma count_le e ps n : 0 < ps -> (e + ps - 1) / ps <= n <-> e <= ps * n.
Proof.
  intros Hps. split; intros Hle.
  - pose proof (Z.mul_succ_div_gt (e + ps - 1) ps Hps). nia.
  - apply Z.lt_succ_r, Z.div_lt_upper_bound; lia.
Qed.

Lemma grow_part_size_spec e fuel : forall k, e <= MAX_FILE_SIZE -> 0 <= k <= 19 -> 19 < k + Z.of_nat fuel ->
  exists k', grow_part_size fuel e (2 ^ k) = Ok (2 ^ k') /\ k <= k' <= 19 /\ (k' = 19 \/ e <= 2 ^ k' * MAX_PART_COUNT).
Proof.
  induction fuel as [|fuel IH]; intros k He Hk Hf; [lia|]. cbn [grow_part_size]. unfold calc_part_count.
  pose proof (Z.pow_pos_nonneg 2 k ltac:(lia) ltac:(lia)) as Hp. rewrite (proj2 (Z.eqb_neq (2 ^ k) 0)) by lia. cbn [negb res_bind].
  destruct (_ && _) eqn:E.
  - zbool. assert (k < 19) as Hlt. { apply (Z.pow_lt_mono_r_iff 2); [lia..|]. exact H. }
    replace (2 ^ k * 2) with (2 ^ (k + 1)) by (rewrite Z.pow_add_r by lia; lia).
    destruct (IH (k + 1)) as (k'&->&Hk'&Ho); [done|lia|lia|]. exists k'. split_and!; auto; lia.
  - exists k. split_and!; [done|lia|lia|]. apply andb_false_iff in E as [E|E]; zbool.
    + left. assert (19 <= k); [|lia]. apply (Z.pow_le_mono_r_iff 2); [lia..|]. exact E.
    + right. by apply (proj1 (count_le e _ _ Hp)).
Qed.

Lemma chosen_part_size e k0 : e <= MAX_FILE_SIZE -> k0 = 15 \/ k0 = 16 ->
  exists ps, grow_part_size 6 e (2 ^ k0) = Ok ps /\ 2 ^ 15 <= ps <= MAX_PART_SIZE /\ e <= ps * MAX_PART_COUNT_PREMIUM.
Proof.
  intros He Hk0. destruct (grow_part_size_spec e 6 k0 He) as (k&->&Hk&Ho); [lia|lia|]. exists (2 ^ k).
  assert (2 ^ 15 <= 2 ^ k <= 2 ^ 19) as Hb by (split; apply Z.pow_le_mono_r; lia). unfold MAX_FILE_SIZE, MAX_PART_COUNT_PREMIUM, MAX_PART_COUNT in *.
  change MAX_PART_SIZE with (2 ^ 19) in *. split_and!; [done|lia|lia|]. destruct Ho as [->|Ho]; lia.
Qed.

(** ** init *)

(** The arguments [init] is called with for a file of [fsize] bytes: the part size
    is the default one or was used before; a part count limit that does not fit is an
    error of uploads only; the parts that are ready hold data of the file. *)
Record init_args (fsize size expected_size : Z) (is_size_final : bool) (part_size : Z) (ready_parts : list Z)
    (use_limit is_upload : bool) : Prop := {
  a_size : 0 <= size <= expected_size;
  a_fsize : 0 <= fsize <= MAX_FILE_SIZE;
  a_known : if is_size_final then size = 0 \/ size = fsize else size <= fsize /\ is_upload = true;
  a_part_size : part_size = 0 \/ 1024 <= part_size <= 2 ^ 20;
  a_limit : use_limit = true -> is_upload = false -> part_size <> 0 -> expected_size <= part_size * MAX_PART_COUNT;
  a_nodup : NoDup ready_parts;
  a_ready : ready_parts <> [] -> part_size <> 0;
  a_parts : Forall (fun i => 0 <= i /\ if is_size_final && negb (size =? 0) then part_size * i < fsize
                             else part_size * (i + 1) <= if is_size_final then fsize else size) ready_parts;
}.

Lemma part_count_of l : Forall (fun i => 0 <= i) l ->
  let n := fold_left (fun a b => Z.max a (b + 1)) l 0 in
  0 <= n /\ Forall (fun i => i < n) l /\ (forall P : Z -> Prop, P 0 -> Forall (fun i => P (i + 1)) l -> P n).
Proof.
  intros Hl. cbv zeta.
  assert (forall a, 0 <= a -> let n := fold_left (fun a b => Z.max a (b + 1)) l a in
    a <= n /\ Forall (fun i => i < n) l /\ (forall P : Z -> Prop, P a -> Forall (fun i => P (i + 1)) l -> P n)) as Hgen.
  { induction Hl as [|i l Hi Hl IH]; intros a Ha; cbn [fold_left]; [split_and!; [lia|constructor|done]|].
    destruct (IH (Z.max a (i + 1))) as (H1&H2&H3); [lia|]. split_and!; [lia|constructor; [lia|done]|].
    intros P Pa Pl. apply Forall_cons_inv in Pl as [Pi Pl]. apply H3; [|done]. destruct (Z.max_dec a (i + 1)) as [->| ->]; done. }
  apply Hgen. lia.
Qed.

Section init.
Context (fsize sz expected_size : Z) (final : bool) (part_size : Z) (ready_parts : list Z) (use_limit up : bool).
Context (Ha : init_args fsize sz expected_size final part_size ready_parts use_limit up).

(** What [init] gives. *)
Definition init_outcome (r : Res unit) (m : PartsManager) : Prop :=
  match r with
  | Ok _ => inv fsize ∅ m /\ in_order m /\ is_upload_ m = up /\ use_part_count_limit_ m = use_limit /\
      known_prefix_flag_ m = negb final /\ unknown_size_flag_ m = negb final || (sz =? 0) /\ (unknown_size_flag_ m = false \/ ready_parts = [] -> counted fsize m)
  | Error c msg => c = 0 /\ (msg = "FILE_UPLOAD_RESTART" \/ msg = "Too big file")%string
  | Panic _ => False
  end.

Lemma common_outcome m : configured fsize m -> Forall (resumable fsize m) ready_parts -> unknown_size_flag_ m = negb final || (sz =? 0) ->
  is_upload_ m = up -> use_part_count_limit_ m = use_limit -> known_prefix_flag_ m = negb final ->
  exists r m', init_common ready_parts m = Ok (r, m') /\ init_outcome r m'.
Proof.
  intros Hc Hall Hun Hup Hul Hkp. destruct (init_common_spec fsize ready_parts m Hc) as (r&m'&E&Hm&Ho); [apply Ha|done|].
  exists r, m'. split; [done|]. destruct Hm as (?&?&?&Hso&Hsl&?). destruct r as [[]|c msg|]; [|destruct Ho as [-> ->]; split; [done|by left]|done].
  destruct Ho as (Hi&Hu&Hn). unfold init_outcome, in_order. rewrite Hso, Hsl. split_and!; try congruence; [apply Hc|apply Hc|].
  intros [Hk| ->]; [|by apply Hn]. intros Hk'. congruence.
Qed.

Lemma no_size_outcome m : expected_size <= MAX_FILE_SIZE -> expected_size_ m = expected_size -> need_check_ m = false -> in_order m ->
  bitmask_ m = Bitmask.empty -> is_upload_ m = up -> use_part_count_limit_ m = use_limit -> known_prefix_flag_ m = negb final ->
  (if final then sz = 0 else known_prefix_size_ m = sz) ->
  exists r m', init_no_size part_size ready_parts m = Ok (r, m') /\ init_outcome r m'.
Proof.
  intros He Hexp Hnc [Hso Hsl] Hb Hup Hul Hkp Hsz. unfold init_no_size. cbv zeta.
  set (m0 := with_max_size INT64_MAX _). change (expected_size_ m0) with (expected_size_ m). rewrite Hexp.
  assert (exists ps, (if negb (part_size =? 0) then Ok part_size
    else let* part_size := grow_part_size 6 expected_size (Z.shiftl 32 10) in
         Ok (if part_size <? MAX_PART_SIZE then part_size * 2 else part_size)) = Ok ps /\ 1024 <= ps <= 2 ^ 20 /\ (part_size <> 0 -> ps = part_size))
    as (ps&->&Hps&Heq).
  { destruct (a_part_size _ _ _ _ _ _ _ _ Ha) as [->|Hps]; simpl negb; cbv iota.
    - destruct (chosen_part_size expected_size 15 He) as (ps&E&Hps&_); [auto|]. change (Z.shiftl 32 10) with (2 ^ 15). rewrite E. cbn [res_bind].
      change MAX_PART_SIZE with (2 ^ 19) in *. eexists. split; [done|]. split; [case_if; lia|done].
    - rewrite (proj2 (Z.eqb_neq part_size 0)) by lia. exists part_size. split; [done|]. split; [lia|done]. }
  cbn [res_bind]. pose proof (a_parts _ _ _ _ _ _ _ _ Ha) as Hparts. pose proof (a_known _ _ _ _ _ _ _ _ Ha) as Hknown.
  pose proof (a_fsize _ _ _ _ _ _ _ _ Ha) as Hfs. pose proof (a_size _ _ _ _ _ _ _ _ Ha) as Hsize.
  assert (Forall (fun i => 0 <= i) ready_parts) as Hpos by (eapply Forall_impl; [exact Hparts|]; by intros i []).
  destruct (part_count_of ready_parts Hpos) as (Hn0&Hnl&Hnp). set (n := fold_left _ ready_parts 0) in *. cbv zeta in *.
  assert (Forall (fun i => (i + 1) * ps <= if final then fsize else sz) ready_parts) as Hfull.
  { rewrite Forall_forall in *. intros i Hin. destruct (Hparts i Hin) as [_ Hp]. rewrite Heq.
    - destruct final; simpl in *; [subst sz; simpl in Hp|]; lia.
    - apply (a_ready _ _ _ _ _ _ _ _ Ha). intros ->. by apply elem_of_nil in Hin. }
  assert (n * ps <= if final then fsize else sz) as Hn.
  { apply (Hnp (fun n => n * ps <= if final then fsize else sz)); [destruct final; lia|exact Hfull]. }
  assert (n * ps <= fsize) as Hnf by (destruct final; lia).
  apply common_outcome; try assumption.
  - split; try assumption.
    + split; [exact Hn0|]. simpl. unfold MAX_FILE_SIZE, MAX_PART_SIZE, MAX_PART_COUNT_PREMIUM in Hfs. change (Z.shiftl 512 10) with 524288 in Hfs. nia.
    + by split.
    + intros Hk. change (known_prefix_flag_ m = true) in Hk. rewrite Hkp in Hk. destruct final; [done|].
      split; [change (is_upload_ m = true); rewrite Hup; by destruct Hknown|]. change (n * ps <= known_prefix_size_ m <= fsize). lia.
  - rewrite Forall_forall in *. intros i Hin. split; [split; [by apply Hpos|by apply Hnl]|]. specialize (Hfull i Hin). simpl. destruct final; lia.
  - destruct final; [by rewrite Hsz|done].
Qed.

(** A final size that is not zero. *)
Lemma sized_outcome m : expected_size <= MAX_FILE_SIZE -> final = true -> 0 < sz -> size_ m = sz -> unknown_size_flag_ m = false ->
  need_check_ m = false -> in_order m -> bitmask_ m = Bitmask.empty -> is_upload_ m = up -> use_part_count_limit_ m = use_limit ->
  known_prefix_flag_ m = false -> 1024 <= part_size_ m <= 2 ^ 20 -> (part_size <> 0 -> part_size_ m = part_size) ->
  exists r m', (let* count := calc_part_count (size_ m) (part_size_ m) in
    init_common ready_parts (with_part_count (s32 count) m)) = Ok (r, m') /\ init_outcome r m'.
Proof.
  intros He Hf Hpos Hsz Hun Hnc [Hso Hsl] Hb Hup Hul Hkp Hps Heq. unfold calc_part_count.
  rewrite (proj2 (Z.eqb_neq (part_size_ m) 0)) by lia. cbn [negb res_bind].
  pose proof (a_known _ _ _ _ _ _ _ _ Ha) as Hknown. pose proof (a_fsize _ _ _ _ _ _ _ _ Ha) as Hfs. pose proof (a_parts _ _ _ _ _ _ _ _ Ha) as Hparts.
  rewrite Hf in Hknown. assert (sz = fsize) as Esz by lia. rewrite Hsz, Esz.
  pose proof (ceil_div fsize (part_size_ m) ltac:(lia) ltac:(lia)) as Hceil. set (n := (fsize + part_size_ m - 1) / part_size_ m) in *.
  assert (0 <= n <= 2 ^ 22) as Hn.
  { unfold MAX_FILE_SIZE, MAX_PART_SIZE, MAX_PART_COUNT_PREMIUM in Hfs. change (Z.shiftl 512 10) with 524288 in Hfs. nia. }
  rewrite s32_small by (unfold is_s32; lia). apply common_outcome; try assumption.
  - split; try assumption.
    + simpl. lia.
    + change (unknown_size_flag_ (with_part_count n m)) with (unknown_size_flag_ m). rewrite Hun. simpl. split_and!; [congruence|lia|done].
    + simpl. congruence.
  - rewrite Forall_forall in *. intros i Hin. destruct (Hparts i Hin) as [Hi0 Hp]. rewrite Hf, (proj2 (Z.eqb_neq sz 0)) in Hp by lia. simpl in Hp.
    assert (part_size_ m = part_size) as E by (apply Heq, (a_ready _ _ _ _ _ _ _ _ Ha); intros ->; by apply elem_of_nil in Hin).
    rewrite <- E in Hp. unfold resumable. change (unknown_size_flag_ (with_part_count n m)) with (unknown_size_flag_ m). rewrite Hun. simpl. nia.
  - rewrite Hf, (proj2 (Z.eqb_neq sz 0)) by lia. exact Hun.
  - simpl. rewrite Hkp. by rewrite Hf.
Qed.

End init.

Lemma init_spec fsize sz expected_size final part_size ready_parts use_limit up :
  init_args fsize sz expected_size final part_size ready_parts use_limit up ->
  exists r m', init sz expected_size final part_size ready_parts use_limit up new_parts_manager = Ok (r, m') /\
    init_outcome fsize sz final ready_parts use_limit up r m'.
Proof.
  intros Ha.
  pose proof (a_size _ _ _ _ _ _ _ _ Ha) as Hsize. unfold init. rewrite (proj2 (Z.leb_le sz expected_size)) by lia. cbv zeta.
  set (m0 := with_expected_size _ _). destruct (MAX_FILE_SIZE <? expected_size) eqn:Ebig; zbool.
  { eexists _, m0. split; [done|]. split; [done|by right]. }
  pose proof (fun m => no_size_outcome _ _ _ _ _ _ _ _ Ha m Ebig) as Hno. pose proof (fun m => sized_outcome _ _ _ _ _ _ _ _ Ha m Ebig) as Hsi.
  destruct final eqn:Hf; simpl negb; cbv iota.
  2: { by apply Hno. }
  destruct (sz =? 0) eqn:Ez; zbool; [by apply Hno|]. rewrite (proj2 (Z.ltb_lt 0 sz)) by lia.
  set (m1 := with_size sz _).
  enough (exists m2 r, init_part_size part_size m1 = Ok (r, m2) /\
    match r with
    | Ok _ => exists ps, m2 = with_part_size ps m1 /\ 1024 <= ps <= 2 ^ 20 /\ (part_size <> 0 -> ps = part_size) /\
        (use_limit = true -> expected_size <= ps * MAX_PART_COUNT_PREMIUM)
    | Error c msg => c = 0 /\ msg = "FILE_UPLOAD_RESTART"%string
    | Panic _ => False
    end) as (m2&r&->&Hr).
  { cbn [res_bind]. destruct r as [[]|c msg|]; [|destruct Hr as [-> ->]; eexists _, _; split; [done|]; split; [done|by left]|done].
    destruct Hr as (ps&->&Hps&Heq&Hlim). unfold calc_part_count at 1. change (part_size_ (with_part_size ps m1)) with ps.
    rewrite (proj2 (Z.eqb_neq ps 0)) by lia. cbn [negb res_bind].
    assert (negb use_limit || ((expected_size + ps - 1) / ps <=? MAX_PART_COUNT_PREMIUM) = true) as ->.
    { destruct use_limit; [|done]. apply Z.leb_le, count_le; [lia|]. by apply Hlim. }
    apply (Hsi (with_part_size ps m1)); (done || lia). }
  unfold init_part_size. change (expected_size_ m1) with expected_size.
  destruct (a_part_size _ _ _ _ _ _ _ _ Ha) as [Hp|Hp].
  - rewrite Hp. simpl negb. cbv iota. change (Z.shiftl 64 10) with (2 ^ 16).
    destruct (chosen_part_size expected_size 16 Ebig) as (ps&->&Hps&Hle); [auto|]. cbn [res_bind]. eexists _, _. split; [done|].
    exists ps. change MAX_PART_SIZE with (2 ^ 19) in Hps. split_and!; [done|lia|lia|done|done].
  - rewrite (proj2 (Z.eqb_neq part_size 0)) by lia. simpl negb. cbv iota. cbv zeta. set (m2 := with_part_size part_size m1). change (part_size_ m2) with part_size.
    change (expected_size_ m2) with expected_size. change (use_part_count_limit_ m2) with use_limit. change (is_upload_ m2) with up. unfold calc_part_count.
    rewrite (proj2 (Z.eqb_neq part_size 0)) by lia. cbn [negb res_bind]. destruct (_ && _) eqn:E.
    + apply andb_true_iff in E as [E Ec]. apply andb_true_iff in E as [Eu El]. zbool.
      assert (up = true) as ->.
      { destruct up; [done|]. pose proof (a_limit _ _ _ _ _ _ _ _ Ha Eu eq_refl ltac:(lia)) as Hle.
        apply (proj2 (count_le expected_size part_size MAX_PART_COUNT ltac:(lia))) in Hle. lia. }
      by eexists _, _.
    + eexists _, _. split; [done|]. exists part_size. split_and!; [done|lia|lia|done|]. intros Eu. rewrite Eu in E. simpl in E.
      assert (expected_size <= 2 ^ 19 * 8000) by exact Ebig. change MAX_PART_SIZE with (2 ^ 19) in E. unfold MAX_PART_COUNT in E. unfold MAX_PART_COUNT_PREMIUM.
      apply andb_false_iff in E as [E|E]; zbool; [lia|]. apply (proj1 (count_le expected_size part_size 4000 ltac:(lia))) in E. lia.
Qed.

(** ** What the operations leave alone *)

(** Follow the branches of an operation that returned. *)
Ltac inv_ok :=
  repeat match goal with
  | H : res_bind ?r _ = Ok _ |- _ => let E := fresh "E" in destruct r eqn:E; cbn [res_bind] in H; try discriminate H
  | H : (let '(_, _) := ?x in _) = Ok _ |- _ => destruct x
  | H : match ?x with _ => _ end = Ok _ |- _ => let E := fresh "E" in destruct x eqn:E; try discriminate H
  | H : Ok _ = Ok _ |- _ => injection H; clear H; intros; subst
  | H : Panic _ = Ok _ |- _ => discriminate H
  end.

Lemma update_first_empty_part_frame m m' : update_first_empty_part m = Ok m' -> same_mode m' m /\ part_status_ m' = part_status_ m.
Proof. unfold update_first_empty_part. cbv zeta. intros H. inv_ok; done. Qed.

Lemma update_first_not_ready_part_frame m m' : update_first_not_ready_part m = Ok m' -> same_mode m' m /\ part_status_ m' = part_status_ m.
Proof. unfold update_first_not_ready_part. cbv zeta. intros H. inv_ok; done. Qed.

Lemma set_streaming_limit_frame l m m' : set_streaming_limit l m = Ok m' ->
  is_upload_ m' = is_upload_ m /\ part_status_ m' = part_status_ m /\ (l = streaming_limit_ m -> same_mode m' m).
Proof. unfold set_streaming_limit. cbv zeta. intros H. inv_ok; (split_and!; [done..|]); intros ->; done. Qed.

Lemma start_at_frame i m r m' : start_at i m = Ok (r, m') -> same_mode m' m.
Proof. unfold start_at, on_part_start. cbv zeta. intros H. inv_ok; done. Qed.

Lemma start_part_frame m r m' : start_part m = Ok (r, m') -> same_mode m' m.
Proof.
  unfold start_part. cbv zeta. intros H. destruct (update_first_empty_part m) as [m1| |] eqn:E1; try done. cbn [res_bind] in H.
  apply update_first_empty_part_frame in E1 as [E1 _]. etrans; [|exact E1]. inv_ok; try done;
    match goal with H : start_at _ _ = _ |- _ => apply start_at_frame in H; exact H end.
Qed.

Lemma update_size_frame psz act off m r m' : update_size psz act off m = Ok (r, m') -> same_mode m' m /\ part_status_ m' = part_status_ m.
Proof.
  unfold update_size. cbv zeta. intros H. destruct (unknown_size_flag_ m); [|inv_ok; done].
  destruct (psz =? part_size_ m); [|done]. set (m1 := if (act <? part_size_ m) && _ then _ else m) in H.
  assert (same_mode m1 m /\ part_status_ m1 = part_status_ m) as [Hm1 Hs1] by (unfold m1; case_if; done).
  set (m2 := if negb (act =? 0) then _ else m1) in H.
  assert (same_mode m2 m /\ part_status_ m2 = part_status_ m) as [Hm2 Hs2] by (unfold m2; case_if; done).
  destruct (max_size_ m2 <? min_size_ m2); [inv_ok; done|].
  set (m3 := if min_size_ m2 =? max_size_ m2 then _ else m2) in H.
  assert (same_mode m3 m /\ part_status_ m3 = part_status_ m) as [Hm3 Hs3] by (unfold m3; case_if; done).
  destruct (_ && negb (streaming_limit_ m3 =? 0)); cbn [res_bind] in H; inv_ok; [|done].
  match goal with H : set_streaming_limit _ _ = _ |- _ => apply set_streaming_limit_frame in H as (_&Hs&Hm) end.
  split; [etrans; [by apply Hm|done]|congruence].
Qed.

Lemma on_part_ok_frame i psz act m r m' : on_part_ok i psz act m = Ok (r, m') ->
  same_mode m' m /\ part_status_ m' = <[Z.to_nat i := Ready]> (part_status_ m).
Proof.
  unfold on_part_ok. cbv zeta. intros H. destruct (_ && _); [|done]. destruct (status m i); try done. cbn [res_bind] in H.
  destruct (bool_decide _); [|done]. set (m1 := put_status i Ready _) in H.
  assert (same_mode m1 m /\ part_status_ m1 = <[Z.to_nat i := Ready]> (part_status_ m)) as [Hm1 Hs1] by done. clearbody m1.
  destruct (if negb (act =? 0) then _ else _) as [m2| |] eqn:E2; try done. cbn [res_bind] in H.
  assert (same_mode m2 m1 /\ part_status_ m2 = part_status_ m1) as [Hm2 Hs2] by (clear -E2; inv_ok; done).
  set (m3 := with_ready_size _ _) in H. assert (same_mode m3 m2 /\ part_status_ m3 = part_status_ m2) as [Hm3 Hs3] by done. clearbody m3.
  destruct (if 0 <? streaming_limit_ m3 then _ else _) as [m4| |] eqn:E4; try done. cbn [res_bind] in H.
  assert (same_mode m4 m3 /\ part_status_ m4 = part_status_ m3) as [Hm4 Hs4] by (clear -E4; inv_ok; try case_if; done).
  apply update_size_frame in H as [Hm5 Hs5]. split; [|congruence]. etrans; [exact Hm5|]. etrans; [exact Hm4|]. etrans; [exact Hm3|]. by etrans.
Qed.

(** The size does not become unknown. *)
Lemma on_part_ok_unknown i psz act m r m' : on_part_ok i psz act m = Ok (r, m') -> unknown_size_flag_ m' = true -> unknown_size_flag_ m = true.
Proof.
  unfold on_part_ok. cbv zeta. intros H Hu. destruct (_ && _); [|done]. destruct (status m i); try done. cbn [res_bind] in H.
  destruct (bool_decide _); [|done]. set (m1 := put_status i Ready _) in H. change (unknown_size_flag_ m) with (unknown_size_flag_ m1). clearbody m1.
  destruct (if negb (act =? 0) then _ else _) as [m2| |] eqn:E2; try done. cbn [res_bind] in H.
  assert (unknown_size_flag_ m2 = unknown_size_flag_ m1) as <- by (clear -E2; inv_ok; done). set (m3 := with_ready_size _ _) in H.
  change (unknown_size_flag_ m2) with (unknown_size_flag_ m3). clearbody m3.
  destruct (if 0 <? streaming_limit_ m3 then _ else _) as [m4| |] eqn:E4; try done. cbn [res_bind] in H.
  assert (unknown_size_flag_ m4 = unknown_size_flag_ m3) as <- by (clear -E4; inv_ok; try case_if; done).
  unfold update_size in H. destruct (unknown_size_flag_ m4) eqn:E; [done|]. inv_ok; congruence.
Qed.

Lemma on_part_failed_frame i m m' : on_part_failed i m = Ok m' -> is_upload_ m' = is_upload_ m.
Proof. unfold on_part_failed. cbv zeta. intros H. inv_ok; repeat case_if; done. Qed.

Lemma set_streaming_offset_frame o l m r m' : set_streaming_offset o l m = Ok (r, m') -> is_upload_ m' = is_upload_ m.
Proof.
  assert (forall m1, (let* m := set_streaming_limit l m1 in let* m := update_first_not_ready_part m in
    Ok (first_streaming_not_ready_part_ m, m)) = Ok (r, m') -> is_upload_ m' = is_upload_ m1) as Hfin.
  { intros m1 H. inv_ok. match goal with H : set_streaming_limit _ _ = _ |- _ => apply set_streaming_limit_frame in H as (Hu&_&_) end.
    match goal with H : update_first_not_ready_part _ = _ |- _ => apply update_first_not_ready_part_frame in H as [(Hu'&_) _] end. congruence. }
  unfold set_streaming_offset. cbv zeta. intros H. destruct (_ || _).
  - destruct (if negb (o =? 0) then _ else _); try done. cbn [res_bind] in H. by apply Hfin in H.
  - destruct (use_part_count_limit_ m && _); [by apply Hfin in H|]. destruct (narrow_int _) as [p| |]; try done. cbn [res_bind] in H.
    apply Hfin in H. rewrite H. case_if; done.
Qed.

Lemma set_known_prefix_frame size b m r m' : set_known_prefix size b m = Ok (r, m') -> is_upload_ m' = is_upload_ m.
Proof.
  unfold set_known_prefix. cbv zeta. intros H. destruct (_ || _); [by inv_ok|]. destruct (part_count_ _ =? _); [|done].
  destruct (if b then _ else _) as [m1| |] eqn:E; try done. cbn [res_bind] in H. destruct (_ <=? _); [|done].
  assert (is_upload_ m1 = is_upload_ m) as Hm1.
  { clear H. inv_ok; try done.
    match goal with H : set_streaming_limit _ _ = _ |- _ => apply set_streaming_limit_frame in H as (Hu&_&_); exact Hu end. }
  inv_ok; exact Hm1.
Qed.

Lemma is_streaming_limit_reached_frame m b m' : is_streaming_limit_reached m = Ok (b, m') -> is_upload_ m' = is_upload_ m.
Proof.
  unfold is_streaming_limit_reached. cbv zeta. intros H. destruct (streaming_limit_ m =? 0); [by inv_ok|].
  destruct (update_first_not_ready_part m) as [m1| |] eqn:E; try done. cbn [res_bind] in H.
  apply update_first_not_ready_part_frame in E as [(Hu&_) _]. rewrite <- Hu. clear Hu.
  destruct (if _ =? part_count_ m1 then Ok true else _) as [[]| |]; cbn [res_bind] in H; try done; inv_ok; done.
Qed.

(** ** A window at the end of the file *)

Lemma sumf_pos f n i : (forall j, 0 <= j < Z.of_nat n -> 0 <= f j) -> 0 <= i < Z.of_nat n -> f i <= sumf f n.
Proof.
  induction n as [|n IH]; simpl sumf; intros Hf Hi; [lia|]. pose proof (Hf (Z.of_nat n) ltac:(lia)).
  assert (0 <= sumf f n). { rewrite <- (sumf_zero (fun _ => 0) n) by done. apply sumf_le. intros. apply Hf. lia. }
  destruct (decide (i = Z.of_nat n)) as [->|]; [lia|]. specialize (IH (fun j Hj => Hf j ltac:(lia)) ltac:(lia)). lia.
Qed.

(** The window wraps to the start of the file, whose first part is ready, and has no size. *)
Lemma window_at_end m : window_fits m -> part_size_ m <= 2 ^ 20 -> Z.of_nat (parts m) = part_count_ m -> 0 < part_size_ m -> unknown_size_flag_ m = false -> 0 < size_ m ->
  streaming_offset_ m = size_ m -> 0 < streaming_limit_ m -> streaming_ready_size_ m = stream_sum m -> stat m 0 = Some Ready ->
  get_estimated_extra m = Panic "res >= 0".
Proof.
  intros Hw Hps' Hlen Hps Hun Hsz Ho Hl Hs Hr. unfold get_estimated_extra. rewrite (proj2 (Z.eqb_neq (streaming_limit_ m) 0)) by lia.
  simpl negb. cbv iota. rewrite streaming_size_ok by (done || lia). cbn [res_bind]. rewrite sum_streaming_ready_spec by done. cbn [res_bind].
  rewrite Hs, Z.eqb_refl.
  assert (window_size m = 0) as ->.
  { unfold window_size. cbv zeta. rewrite Hun, Ho, (proj2 (Z.leb_gt _ (size_ m))), Z.ltb_irrefl by lia. done. }
  assert (forall j, size (get_part m j) = clip (part_size_ m) (size_ m) j) as Hclip
    by (intros j; rewrite get_part_clip by lia; unfold total_size; by rewrite Hun).
  assert (0 < stream_sum m) as Hpos; [|by rewrite (proj2 (Z.leb_gt 0 _)) by lia].
  assert (0 < streaming_one m 0 <= stream_sum m) as ?; [|lia]. split.
  - unfold streaming_one, in_limit, is_intersect_with. rewrite Hun, Ho, Hr, !Hclip. unfold clip. rewrite bool_decide_true, andb_true_r by done.
    rewrite (proj2 (Z.ltb_lt (size_ m) _)), (proj2 (Z.ltb_lt (Z.max 0 _) _)) by lia. rewrite orb_true_r. lia.
  - apply sumf_pos; [|by eapply stat_range]. intros j _. unfold streaming_one. rewrite Hclip. unfold clip. case_if; lia.
Qed.

(** The window of a download can be set to the end of the file, where the test of the
    estimated rest fails: in every state of a transfer of a file of known size whose first
    part is ready, [set_streaming_offset] accepts the offset that equals the size, with any
    limit the file manager allows, and the next [get_estimated_extra] fails its [CHECK] instead of returning. *)
Lemma parts_offset_at_end fsize pend m limit : inv fsize pend m -> unknown_size_flag_ m = false -> 0 < fsize ->
  (use_part_count_limit_ m = true -> fsize / part_size_ m < MAX_PART_COUNT_PREMIUM) -> stat m 0 = Some Ready -> 0 < limit <= 2 * MAX_FILE_SIZE ->
  exists r m', set_streaming_offset fsize limit m = Ok (r, m') /\ get_estimated_extra m' = Panic "res >= 0".
Proof.
  intros Hi Hun Hpos Hlim Hr Hl. pose proof (i_size _ _ _ Hi) as Hsz. rewrite Hun in Hsz. pose proof (i_ps _ _ _ Hi) as Hps.
  pose proof (i_len _ _ _ Hi) as Hlen. pose proof (i_count _ _ _ Hi) as Hcount. destruct Hsz as [K1 K2 K3 K4].
  unfold set_streaming_offset. rewrite Hun, (i_check _ _ _ Hi), K1, Z.ltb_irrefl, (proj2 (Z.ltb_ge fsize 0)) by lia. simpl orb. cbv iota zeta.
  set (p := fsize / part_size_ m) in *. assert (0 <= p <= part_count_ m) as Hp.
  { split; [apply Z.div_pos; lia|]. apply Z.lt_succ_r, Z.div_lt_upper_bound; lia. }
  assert (use_part_count_limit_ m && (MAX_PART_COUNT_PREMIUM <=? p) = false) as ->
    by (destruct (use_part_count_limit_ m); [simpl; apply Z.leb_gt; by apply Hlim|done]).
  unfold narrow_int. rewrite (proj2 (Z.ltb_lt p _)) by lia. cbn [res_bind].
  set (m1 := with_first_streaming_not_ready_part p _). change (part_count_ m1) with (part_count_ m). rewrite (proj2 (Z.ltb_ge _ p)) by lia.
  assert (window_fits (with_streaming_ready_size 0 (with_streaming_limit limit m1))) as Hwf.
  { pose proof (i_S _ _ _ Hi). rewrite max_file_size in *. unfold window_fits, INT64_MAX. simpl. lia. }
  unfold set_streaming_limit. cbv zeta. rewrite (proj2 (Z.eqb_neq limit 0)) by lia. rewrite sum_streaming_ready_spec; [|exact Hwf|exact Hlen]. cbn [res_bind].
  set (m2 := with_streaming_ready_size (stream_sum _) _). unfold update_first_not_ready_part.
  destruct (skip_spec is_ready m2 (first_not_ready_part_ m2) Hlen (proj1 (i_fnr _ _ _ Hi))) as (i&->&_). cbn [res_bind]. cbv zeta.
  change (streaming_offset_ (with_first_not_ready_part i m2)) with fsize. rewrite (proj2 (Z.eqb_neq fsize 0)) by lia.
  change (first_streaming_not_ready_part_ (with_first_not_ready_part i m2)) with p.
  destruct (skip_spec is_ready (with_first_not_ready_part i m2) p Hlen Hp) as (j&->&_). cbn [res_bind].
  eexists _, _. split; [done|]. apply window_at_end; (exact Hwf || exact Hlen || exact Hun || exact Hr || exact (proj1 Hl) || reflexivity || (simpl; lia)).
Qed.

(** ** Honest transfers *)

(** What the uploader or the downloader does with the manager.  The other side sends
    or takes what the file has: [PDone i] answers a pending part with its bytes, and
    [PFail i] with a failed query. *)
Inductive pm_op :=
  | PStart
  | PDone (i : Z)
  | PFail (i : Z)
  | PStreamOffset (offset limit : Z)
  | PStreamLimit (limit : Z)
  | PPrefix (size : Z) (is_ready : bool)
  | PMayFinish.

(** An [Error] is the status that ends the transfer; the one with code -1 only tells
    it to wait. *)
Definition pm_step (fsize : Z) (op : pm_op) (st : PartsManager * gmap Z Z) : Res (PartsManager * gmap Z Z) :=
  let '(m, pend) := st in
  match op with
  | PStart =>
      let* (r, m) := start_part m in
      match r with
      | Ok p => if id p =? -1 then Ok (m, pend) else Ok (m, <[id p := size p]> pend)
      | Error c msg => if c =? -1 then Ok (m, pend) else Error c msg
      | Panic msg => Panic msg
      end
  | PDone i =>
      match pend !! i with
      | None => Ok (m, pend)
      | Some psz =>
          let* (r, m) := on_part_ok i psz (sent fsize psz m i) m in
          let* _ := r in Ok (m, delete i pend)
      end
  | PFail i =>
      match pend !! i with
      | None => Ok (m, pend)
      | Some _ => let* m := on_part_failed i m in Ok (m, delete i pend)
      end
  | PStreamOffset offset limit => let* (_, m) := set_streaming_offset offset limit m in Ok (m, pend)
  | PStreamLimit limit => let* m := set_streaming_limit limit m in Ok (m, pend)
  | PPrefix size is_ready =>
      let* (r, m) := set_known_prefix size is_ready m in
      let* _ := r in Ok (m, pend)
  | PMayFinish => let* (_, m) := may_finish m in Ok (m, pend)
  end.

Fixpoint pm_run (fsize : Z) (ops : list pm_op) (st : PartsManager * gmap Z Z) : Res (PartsManager * gmap Z Z) :=
  match ops with
  | [] => Ok st
  | op :: ops => let* st := pm_step fsize op st in pm_run fsize ops st
  end.

(** Downloads have a streaming window that starts inside of the file, and uploads have a
    prefix.  [FileNode::set_download_limit] caps the limit of a window at the greatest size
    of a file, to which at most an offset is added.  An offset that equals the size is left
    out although [set_streaming_offset] accepts it: see [parts_offset_at_end]. *)
Definition op_ok (fsize : Z) (up : bool) (op : pm_op) : Prop :=
  match op with
  | PStreamOffset offset limit => up = false /\ 0 <= offset /\ (offset < fsize \/ offset = 0) /\ 0 <= limit <= 2 * MAX_FILE_SIZE
  | PStreamLimit limit => up = false /\ 0 <= limit <= 2 * MAX_FILE_SIZE
  | PPrefix size is_ready => up = true /\ size <= fsize /\ (is_ready = true -> size = fsize)
  | _ => True
  end.

(** The statuses a transfer can end with. *)
Definition transfer_error (c : Z) (msg : string) : Prop :=
  c = 0 /\ (msg = "FILE_UPLOAD_RESTART" \/ msg = "FILE_DOWNLOAD_RESTART_INCREASE_PART_SIZE" \/ msg = "Too big file with unknown size")%string.

Definition pm_ok (fsize : Z) (up : bool) (r : Res (PartsManager * gmap Z Z)) : Prop :=
  match r with
  | Ok (m, pend) => inv fsize pend m /\ is_upload_ m = up
  | Error c msg => transfer_error c msg
  | Panic _ => False
  end.

Lemma start_error m c msg m' : start_part m = Ok (Error c msg, m') -> c = -1 \/ transfer_error c msg.
Proof.
  unfold start_part, start_at. cbv zeta. intros H. inv_ok; try (by left); right; split; try done; destruct (negb _); auto.
Qed.

Lemma pm_step_ok fsize up op m pend : inv fsize pend m -> is_upload_ m = up -> op_ok fsize up op -> pm_ok fsize up (pm_step fsize op (m, pend)).
Proof.
  intros Hi Hu Hop. assert (up = false -> known_prefix_flag_ m = false) as Hkp.
  { intros ->. destruct (known_prefix_flag_ m) eqn:Ek; [|done]. destruct (i_prefix _ _ _ Hi Ek) as (_&?&_). congruence. }
  destruct op as [|i|i|o l|l|sz b|]; cbn [pm_step op_ok] in *.
  - destruct (start_part_spec _ _ _ Hi) as (r&m'&E&Ho&_). pose proof (start_part_frame _ _ _ E) as (Hu'&_). rewrite E. cbn [res_bind].
    destruct r as [p|c msg|]; [| |done].
    + destruct Ho as [(->&Hi'&_)|((Hn&_&_&_&Hi')&_)]; [simpl; split; [done|congruence]|]. case_if; (split; [|congruence]); [|done].
      assert (0 <= id p) as Hid. { apply (stat_range m' (id p) Pending), (i_pend _ _ _ Hi'). by rewrite lookup_insert_eq. }
      lia.
    + apply start_error in E. destruct Ho as [(->&_&Hi')|(->&_)]; simpl; [split; [done|congruence]|]. destruct E; [done|done].
  - destruct (pend !! i) as [psz|] eqn:Ep; [|done]. destruct (on_part_ok_spec _ _ _ _ _ Hi Ep) as (m'&E&Hi'&_).
    pose proof (on_part_ok_frame _ _ _ _ _ _ E) as [(Hu'&_) _]. rewrite E. simpl. split; [done|congruence].
  - destruct (pend !! i) as [psz|] eqn:Ep; [|done]. destruct (on_part_failed_spec _ _ m i Hi) as (m'&E&Hi'&_); [by eexists|].
    pose proof (on_part_failed_frame _ _ _ E) as Hu'. rewrite E. simpl. split; [done|congruence].
  - destruct Hop as (Hup&Ho1&Ho2&Hl). destruct (set_streaming_offset_spec _ _ o l _ Hi (Hkp Hup) Ho1 Ho2 Hl) as (r&m'&E&Hi').
    pose proof (set_streaming_offset_frame _ _ _ _ _ E) as Hu'. rewrite E. simpl. split; [done|congruence].
  - destruct Hop as (Hup&Hl). destruct (set_streaming_limit_spec fsize pend l m) as (k&E&Hi'); [by apply set_limit_zero|done|by rewrite (Hkp Hup)|].
    rewrite E. cbn [res_bind]. split; [done|exact Hu].
  - destruct Hop as (Hup&Hsz&Hb). destruct (set_known_prefix_spec fsize pend m sz b Hi) as (r&m'&E&Hi'&Hr&_); [congruence|done|done|].
    pose proof (set_known_prefix_frame _ _ _ _ _ E) as Hu'. rewrite E. cbn [res_bind].
    destruct Hr as [->| ->]; simpl; [split; [done|congruence]|]. split; auto.
  - destruct (is_streaming_limit_reached_spec _ _ _ Hi) as (b&m'&E&Hi'&_). unfold may_finish. rewrite E. cbn [res_bind]. split; [done|].
    apply is_streaming_limit_reached_frame in E. congruence.
Qed.

Lemma pm_run_ok fsize up ops : forall m pend, inv fsize pend m -> is_upload_ m = up -> Forall (op_ok fsize up) ops ->
  pm_ok fsize up (pm_run fsize ops (m, pend)).
Proof.
  induction ops as [|op ops IH]; intros m pend Hi Hu Hops; cbn [pm_run]; [done|]. apply Forall_cons_inv in Hops as [Hop Hops].
  pose proof (pm_step_ok _ _ _ _ _ Hi Hu Hop) as Hst. destruct (pm_step _ _ _) as [[m' pend']|c msg|]; cbn [res_bind]; [|done|done].
  destruct Hst. by apply IH.
Qed.

(** C13. An honest transfer never crashes: after [init] with the size, the prefix and
    the ready parts of a file, every sequence of starts, answers, failures, changes of
    the streaming window (downloads) and of the known prefix (uploads) passes all
    [CHECK]s, narrowing casts and sums of [int64]; the transfer goes on with its invariant
    (the ready size, the pending count and the bitmask are those of the part statuses, the
    bounds hold the size of the file) or ends with one of the documented errors.  The
    streaming windows start inside of the file and are at most twice as long as the greatest
    file.  The first restriction is needed: [set_streaming_offset] also accepts an offset
    that equals the size, and then, once the size is known and the first part is ready, the
    next [get_estimated_extra] fails its [CHECK]. *)
Theorem parts_invariant fsize sz expected_size final part_size ready_parts use_limit up ops :
  init_args fsize sz expected_size final part_size ready_parts use_limit up -> Forall (op_ok fsize up) ops ->
  exists r m, init sz expected_size final part_size ready_parts use_limit up new_parts_manager = Ok (r, m) /\
    (r = Ok tt -> pm_ok fsize up (pm_run fsize ops (m, ∅))) /\
    (r = Ok tt \/ r = Error 0 "FILE_UPLOAD_RESTART" \/ r = Error 0 "Too big file") /\
    (forall m' pend limit, r = Ok tt -> pm_run fsize ops (m, ∅) = Ok (m', pend) ->
       unknown_size_flag_ m' = false -> 0 < fsize -> stat m' 0 = Some Ready ->
       (use_part_count_limit_ m' = true -> fsize / part_size_ m' < MAX_PART_COUNT_PREMIUM) -> 0 < limit <= 2 * MAX_FILE_SIZE ->
       exists m'', pm_step fsize (PStreamOffset fsize limit) (m', pend) = Ok (m'', pend) /\
         get_estimated_extra m'' = Panic "res >= 0").
Proof.
  intros Ha Hops. destruct (init_spec _ _ _ _ _ _ _ _ Ha) as (r&m&E&Ho). exists r, m. split; [done|]. destruct r as [[]|c msg|]; [| |done].
  - destruct Ho as (Hi&_&Hu&_). pose proof (pm_run_ok _ _ _ _ _ Hi Hu Hops) as Hrun. split; [done|]. split; [by left|].
    intros m' pend limit _ Er Hun Hpos Hs Hlim Hl. rewrite Er in Hrun. destruct Hrun as [Hi' _].
    destruct (parts_offset_at_end _ _ _ _ Hi' Hun Hpos Hlim Hs Hl) as (r&m''&E1&E2). exists m''. cbn [pm_step]. by rewrite E1.
  - destruct Ho as (->&[->| ->]); (split; [done|]); (split; [by auto|]); by intros ? ? ? [=].
Qed.

(** ** A transfer in order *)

(** Ask for a part, get its bytes, and so on until there is no part left. *)
Fixpoint transfer (fuel : nat) (fsize : Z) (m : PartsManager) : Res PartsManager :=
  match fuel with
  | O => Panic "fuel"
  | S fuel =>
      let* (r, m) := start_part m in
      let* p := r in
      if id p =? -1 then Ok m
      else
        let* (r, m) := on_part_ok (id p) (size p) (sent fsize (size p) m (id p)) m in
        let* _ := r in transfer fuel fsize m
  end.

Section in_order.
Context (fsize : Z).

Lemma nothing_pending m i : inv fsize ∅ m -> 0 <= i < part_count_ m -> stat m i <> Some Empty -> stat m i = Some Ready.
Proof.
  intros Hi Hr Hne. rewrite <- (i_len _ _ _ Hi) in Hr. apply stat_Some in Hr as [s Hs]. rewrite Hs. f_equal. destruct s; [congruence| |done].
  apply (i_pend _ _ _ Hi) in Hs as [? Hs]. by rewrite lookup_empty in Hs.
Qed.

(** The parts that hold the file cannot all be ready while its size is unknown. *)
Lemma size_gets_known m n : inv fsize ∅ m -> counted fsize m -> 0 <= n -> (forall j, 0 <= j < n -> stat m j = Some Ready) ->
  (fsize < part_size_ m * n \/ max_size_ m <= part_size_ m * n) -> unknown_size_flag_ m = false.
Proof.
  intros Hi Hc Hn Hready Hlt. destruct (unknown_size_flag_ m) eqn:Hun; [|done]. exfalso.
  pose proof (i_size _ _ _ Hi) as Hsz. rewrite Hun in Hsz. destruct Hsz as [B1 B2 B3 B4 Bc B5 B6 B7].
  pose proof (i_ps _ _ _ Hi) as Hps. set (ps := part_size_ m) in *. specialize (Hc Hun). fold ps in Hc.
  assert (forall j, 0 <= j <= n -> ps * j <= fsize -> ps * j <= min_size_ m) as Hmin.
  { intros j Hj Hle. destruct (decide (j = 0)) as [->|]; [lia|]. replace j with (j - 1 + 1) by lia. apply Hc; [apply Hready; lia|].
    replace (j - 1 + 1) with j by lia. done. }
  set (q := fsize / ps). pose proof (Z.mul_div_le fsize ps ltac:(lia)) as Hq1. pose proof (Z.mul_succ_div_gt fsize ps ltac:(lia)) as Hq2. fold q in Hq1, Hq2.
  assert (0 <= q) as Hq0 by (apply Z.div_pos; lia).
  destruct (decide (q < n)) as [Hqn|Hqn].
  - specialize (Hmin q ltac:(lia) Hq1). destruct (B6 q) as [?|[? ?]]; [apply Hready; lia|lia|lia].
  - assert (ps * n <= ps * q) by nia. specialize (Hmin n ltac:(lia) ltac:(lia)). lia.
Qed.

Lemma exhausted_ready m : inv fsize ∅ m -> counted fsize m -> exhausted m ->
  ready m = true /\ ready_size_ m = fsize /\ forall j, Bitmask.get (bitmask_ m) j = true <-> 0 <= j /\ part_size_ m * j < fsize.
Proof.
  intros Hi Hc (i&Hr&Hne&Htot). pose proof (i_ps _ _ _ Hi) as Hps. pose proof (i_S _ _ _ Hi) as HS.
  assert (forall j, 0 <= j < i -> stat m j = Some Ready) as Hready by (intros j Hj; apply (nothing_pending m j Hi); [lia|by apply Hne]).
  assert (unknown_size_flag_ m = false) as Hun.
  { destruct (unknown_size_flag_ m) eqn:Hun; [|done]. rewrite <- Hun. apply (size_gets_known m i); auto; [lia|].
    unfold total_size in Htot. rewrite Hun in Htot. right. lia. }
  unfold total_size in Htot. rewrite Hun in Htot. pose proof (i_size _ _ _ Hi) as Hsz. rewrite Hun in Hsz. destruct Hsz as [K1 K2 K3 K4].
  rewrite K1 in Htot. pose proof (i_len _ _ _ Hi) as Hlen.
  assert (ready_size_ m = fsize) as Hrs.
  { rewrite (i_ready _ _ _ Hi), (sumf_ext _ (clip (part_size_ m) fsize)); [rewrite sumf_clip_total by lia; lia|].
    intros j Hj. unfold ready_bytes. destruct (decide (j < i)); [by rewrite bool_decide_true by (apply Hready; lia)|].
    assert (clip (part_size_ m) fsize j = 0) as -> by (unfold clip; nia). by case_if. }
  split_and!; [|done|].
  - unfold ready, unchecked_ready. by rewrite Hun, (i_check _ _ _ Hi), Hrs, K1, Z.eqb_refl.
  - intros j. rewrite (proj2 (i_bits _ _ _ Hi)). unfold clip. split.
    + intros [Hs Hcl]. apply stat_range in Hs. lia.
    + intros [Hj Hlt]. split; [apply Hready; nia|lia].
Qed.

Definition not_ready (m : PartsManager) (i : Z) : Z := if bool_decide (stat m i = Some Ready) then 0 else 1.

(** The parts that hold the file, and a last one that may be empty. *)
Definition part_bound (m : PartsManager) : nat := Z.to_nat (fsize / part_size_ m + 1).

Lemma transfer_spec fuel : forall m, inv fsize ∅ m -> counted fsize m -> in_order m -> known_prefix_flag_ m = false ->
  (unknown_size_flag_ m = true -> fsize / part_size_ m < MAX_PART_COUNT_PREMIUM) ->
  sumf (not_ready m) (part_bound m) < Z.of_nat fuel ->
  exists m', transfer fuel fsize m = Ok m' /\ part_size_ m' = part_size_ m /\ ready m' = true /\ ready_size_ m' = fsize /\
    forall j, Bitmask.get (bitmask_ m') j = true <-> 0 <= j /\ part_size_ m * j < fsize.
Proof.
  induction fuel as [|fuel IH]; intros m Hi Hc Ho Hk Hfit Hf.
  { assert (sumf (fun _ => 0) (part_bound m) <= sumf (not_ready m) (part_bound m)) as Hle
      by (apply sumf_le; intros j _; unfold not_ready; case_if; lia).
    rewrite sumf_zero in Hle by done. lia. }
  pose proof (i_ps _ _ _ Hi) as Hps. pose proof (i_S _ _ _ Hi) as HS. pose proof (Z.div_pos fsize (part_size_ m) ltac:(lia) ltac:(lia)) as Hq0.
  pose proof (Z.mul_succ_div_gt fsize (part_size_ m) ltac:(lia)) as Hq. set (q := fsize / part_size_ m) in *.
  cbn [transfer]. destruct (start_part_spec _ _ _ Hi) as (r&m1&E&Hout&Hr1). pose proof (start_part_frame _ _ _ E) as Hm1. rewrite E. cbn [res_bind].
  pose proof (counted_ready fsize _ _ Hr1 Hc) as Hc1. destruct Hr1 as (Hu1&_&Hps1&Hr1).
  destruct r as [p|c msg|]; [| |done]; cbn [res_bind].
  - destruct Hout as [(->&Hi1&Hex)|((Hnp&Hoff&Hsz&Htot&Hi1)&Hne)].
    { simpl. exists m1. split; [done|]. split; [done|]. rewrite <- Hps1. apply exhausted_ready; auto. }
    set (i := id p) in *. assert (stat m1 i = Some Pending) as Hpend by (apply (i_pend _ _ _ Hi1); by rewrite lookup_insert_eq).
    pose proof (stat_range _ _ _ Hpend) as Hir. rewrite (proj2 (Z.eqb_neq i (-1))) by lia.
    assert (i <= q) as Hiq.
    { destruct (decide (i <= q)) as [|Hgt]; [done|]. unfold total_size in Htot.
      assert (unknown_size_flag_ m = false) as Hun.
      { apply (size_gets_known m (q + 1)); [done|done|lia| |left; lia]. intros j Hj. destruct (Hne Ho j ltac:(lia)) as (s&Es&Hs).
        apply (nothing_pending m j Hi); [rewrite <- (i_len _ _ _ Hi); by eapply stat_range|congruence]. }
      rewrite Hun in Htot. pose proof (i_size _ _ _ Hi) as Hs. rewrite Hun in Hs. rewrite (ks_size _ _ _ Hs) in Htot. nia. }
    destruct (on_part_ok_spec fsize _ m1 i (size p) Hi1) as (m2&E2&Hi2&Hc2); [by rewrite lookup_insert_eq|].
    rewrite E2. cbn [res_bind]. pose proof (on_part_ok_frame _ _ _ _ _ _ E2) as [Hm2 Hs2].
    assert (delete i (<[i := size p]> ∅) = (∅ : gmap Z Z)) as Hd by (rewrite delete_insert_eq; apply delete_empty). rewrite Hd in Hi2.
    destruct Hm1 as (_&_&_&Ho1&Hl1&Hk1), Hm2 as (_&_&Hps2&Ho2&Hl2&Hk2), Ho as [Ho Hl].
    assert (forall j, stat m2 j = if j =? i then Some Ready else stat m1 j) as Hst2.
    { intros j. unfold stat at 1. rewrite Hs2. exact (stat_put i Ready m1 j Hir). }
    destruct (IH m2) as (m'&->&Hps'&Hrest); auto.
    + split; congruence.
    + congruence.
    + rewrite Hps2, Hps1. intros Hun. apply Hfit. rewrite <- Hu1. by apply (on_part_ok_unknown _ _ _ _ _ _ E2).
    + unfold part_bound. rewrite Hps2, Hps1. fold (part_bound m).
      rewrite (sumf_update (not_ready m) (not_ready m2) _ i); [| |].
      * assert (not_ready m i = 1) as -> by (unfold not_ready; rewrite bool_decide_false; [done|rewrite <- Hr1; congruence]).
        assert (not_ready m2 i = 0) as ->; [|lia]. unfold not_ready. rewrite bool_decide_true; [done|]. by rewrite Hst2, Z.eqb_refl.
      * unfold part_bound. fold q. lia.
      * intros j _ Hne'. unfold not_ready. rewrite Hst2, (proj2 (Z.eqb_neq j i) Hne').
        destruct (decide (stat m j = Some Ready)) as [Hj|Hj]; [rewrite !bool_decide_true; [done|done|by apply Hr1]|].
        rewrite !bool_decide_false; [done|done|by rewrite Hr1].
    + exists m'. split; [done|]. split; [congruence|]. by rewrite <- Hps1, <- Hps2.
  - destruct Hout as [(->&?&_)|(->&Hun&Hpc&Hne)]; [congruence|]. specialize (Hfit Hun).
    enough (unknown_size_flag_ m = false) by congruence. apply (size_gets_known m (part_count_ m)); auto; [lia| |].
    + intros j Hj. apply (nothing_pending m j Hi); [done|]. by apply Hne.
    + left. nia.
Qed.
End in_order.

Lemma not_ready_bound m n : sumf (not_ready m) n < Z.of_nat (S n).
Proof. induction n as [|n IH]; simpl sumf; [lia|]. unfold not_ready at 2. case_if; lia. Qed.

(** C19. A transfer ends with the whole file: after an [init] of a file whose size is
    known, or unknown with no part transferred before, taking the parts one after the
    other until there is none left asks for at most one part more than the file has,
    and then the manager is ready, with all the bytes of the file and the bits of
    exactly the parts that hold them. *)
Theorem parts_transfer_complete fsize sz expected_size part_size ready_parts use_limit up m :
  init_args fsize sz expected_size true part_size ready_parts use_limit up ->
  init sz expected_size true part_size ready_parts use_limit up new_parts_manager = Ok (Ok tt, m) ->
  (sz = 0 -> ready_parts = [] /\ fsize / part_size_ m < MAX_PART_COUNT_PREMIUM) ->
  exists m', transfer (S (part_bound fsize m)) fsize m = Ok m' /\ ready m' = true /\ ready_size_ m' = fsize /\
    forall j, Bitmask.get (bitmask_ m') j = true <-> 0 <= j /\ part_size_ m * j < fsize.
Proof.
  intros Ha E Hz. destruct (init_spec _ _ _ _ _ _ _ _ Ha) as (r&m1&E1&Ho). rewrite E in E1. injection E1 as <- <-.
  destruct Ho as (Hi&Hord&_&_&Hk&Hun&Hc). simpl in Hk, Hun.
  destruct (transfer_spec fsize (S (part_bound fsize m)) m Hi) as (m'&->&_&Hrest); auto.
  - apply Hc. rewrite Hun. destruct (sz =? 0) eqn:Ez; zbool; [right; by apply Hz|by left].
  - rewrite Hun. intros Ez. zbool. by apply Hz.
  - apply not_ready_bound.
  - by exists m'.
Qed.

Lemma parts_transfer_complete_witness :
  exists m m', init 0 0 true 0 [] true false new_parts_manager = Ok (Ok tt, m) /\ transfer 5 200000 m = Ok m' /\ ready m' = true /\
    ready_size_ m' = 200000.
Proof.
  let t := eval vm_compute in (init 0 0 true 0 [] true false new_parts_manager) in
  match t with
  | Ok (_, ?m) => exists m; destruct (parts_transfer_complete 200000 0 0 0 [] true false m) as (m'&E&Hr&Hs&_)
  end.
  - split; try done; first [apply NoDup_nil_2 | apply Forall_nil_2 | vm_compute; intuition congruence].
  - vm_compute. reflexivity.
  - intros _. split; [done|]. vm_compute. reflexivity.
  - replace (part_bound 200000 _) with 4%nat in E by (vm_compute; reflexivity).
    exists m'. split; [vm_compute; reflexivity|]. exact (conj E (conj Hr Hs)).
Defined.

Lemma parts_invariant_witness : exists m, init 0 0 true 65536 [0] true false new_parts_manager = Ok (Ok tt, m) /\
  pm_ok 100000 false (pm_run 100000 [PStreamOffset 70000 10; PStart; PMayFinish; PDone 1] (m, ∅)).
Proof.
  destruct (parts_invariant 100000 0 0 true 65536 [0] true false [PStreamOffset 70000 10; PStart; PMayFinish; PDone 1]) as (r&m&E&Hok&_).
  - split; try done; try (vm_compute; intuition congruence).
    + constructor; [by intros ?%elem_of_nil|constructor].
    + constructor; [vm_compute; intuition congruence|constructor].
  - repeat (apply Forall_cons_2; [first [exact I | cbn; rewrite max_file_size; lia]|]). apply Forall_nil_2.
  - vm_compute in E. injection E as <- <-. eexists. split; [vm_compute; reflexivity|]. by apply Hok.
Defined.

Lemma parts_offset_at_end_witness : exists m r m', init 131072 131072 true 65536 [0] true false new_parts_manager = Ok (Ok tt, m) /\
  set_streaming_offset 131072 1 m = Ok (r, m') /\ get_estimated_extra m' = Panic "res >= 0".
Proof.
  destruct (init_spec 131072 131072 131072 true 65536 [0] true false) as (r&m&E&Ho).
  { split; try done; try (vm_compute; intuition congruence).
    - constructor; [by intros ?%elem_of_nil|constructor].
    - constructor; [vm_compute; intuition congruence|constructor]. }
  vm_compute in E. injection E as <- <-. destruct Ho as (Hi&_). eexists.
  destruct (parts_offset_at_end _ _ _ 1 Hi) as (r&m'&E1&E2); [reflexivity|lia|intros _; vm_compute; reflexivity|vm_compute; reflexivity|rewrite max_file_size; lia|].
  exists r, m'. split; [vm_compute; reflexivity|]. exact (conj E1 E2).
Defined.
