(* ===== verification/PartsResume.v ===== *)
(** * Resumed downloads of unknown size

    What happens to a [PartsManager] (td/telegram/files/PartsManager.cpp) that
    is initialized with parts that are on the disk already when the size of the
    file is not known: [init_no_size] sets the lower bound of the size to zero
    and [init_common] does not count the ready parts in it, so that a download
    of which every part is ready never learns that it is complete. *)
From S2P Require Import Prelude FileBitmask PartsManager PartsTransfer.
Local Open Scope td_scope.

(** ** The parts that are ready stay ready *)
Definition keeps (m' m : PartsManager) : Prop :=
  unknown_size_flag_ m' = unknown_size_flag_ m /\ min_size_ m' = min_size_ m /\ part_size_ m' = part_size_ m /\
  forall i, stat m i = Some Ready -> stat m' i = Some Ready.

#[global] Instance keeps_preorder : PreOrder keeps.
Proof. split; [by intros m|]. intros m1 m2 m3 (?&?&?&Ha) (?&?&?&Hb). unfold keeps. split_and!; try congruence. auto. Qed.

Lemma update_first_not_ready_part_keeps m m' : update_first_not_ready_part m = Ok m' -> keeps m' m.
Proof. unfold update_first_not_ready_part. cbv zeta. intros H. inv_ok; done. Qed.

Lemma set_streaming_limit_keeps l m m' : set_streaming_limit l m = Ok m' -> keeps m' m /\ max_size_ m' = max_size_ m.
Proof. unfold set_streaming_limit. cbv zeta. intros H. inv_ok; done. Qed.

Lemma resize_keeps n m : Z.of_nat (parts m) <= n -> keeps (resize_status n (with_part_count n m)) m.
Proof.
  intros Hn. unfold parts in Hn. split_and!; [done..|]. intros i. unfold stat, resize_status. simpl.
  destruct (i <? 0); [done|]. intros Hs. rewrite take_ge by lia. by apply lookup_app_l_Some.
Qed.

Lemma set_streaming_offset_keeps o l m r m' : Z.of_nat (parts m) = part_count_ m -> set_streaming_offset o l m = Ok (r, m') -> keeps m' m.
Proof.
  intros Hlen. assert (forall m1, (let* m := set_streaming_limit l m1 in let* m := update_first_not_ready_part m in
    Ok (first_streaming_not_ready_part_ m, m)) = Ok (r, m') -> keeps m' m1) as Hfin.
  { intros m1 H. destruct (set_streaming_limit l m1) as [m2| |] eqn:E2; try done. cbn [res_bind] in H.
    destruct (update_first_not_ready_part m2) as [m3| |] eqn:E3; try done. injection H as _ <-.
    apply set_streaming_limit_keeps in E2 as [E2 _]. apply update_first_not_ready_part_keeps in E3. by etrans. }
  unfold set_streaming_offset. cbv zeta. intros H. destruct (_ || _).
  - destruct (if negb (o =? 0) then _ else _); try done. cbn [res_bind] in H. by apply Hfin in H.
  - destruct (use_part_count_limit_ m && _); [by apply Hfin in H|]. destruct (narrow_int _) as [p| |]; try done. cbn [res_bind] in H.
    apply Hfin in H. etrans; [exact H|]. case_if; [|done]. simpl in E. zbool. etrans; [apply resize_keeps; simpl; unfold parts in *; simpl; lia|done].
Qed.

Lemma on_part_failed_keeps i m m' : on_part_failed i m = Ok m' -> keeps m' m.
Proof.
  unfold on_part_failed. cbv zeta. intros H. destruct (status m i) as [s| |] eqn:Es; try done. cbn [res_bind] in H.
  destruct (bool_decide (s = Pending)) eqn:Ep; [|done]. apply bool_decide_eq_true in Ep as ->.
  set (m1 := put_status i Empty _) in H. assert (keeps m1 m) as Hk.
  { split_and!; [done..|]. intros j Hj. assert (stat m i = Some Pending) as Hi.
    { unfold status in Es. unfold stat. destruct (if i <? 0 then None else _) as [s'|]; [by injection Es as ->|done]. }
    change (stat (put_status i Empty m) j = Some Ready). rewrite stat_put by (by eapply stat_range). case_if; [|done]. zbool. congruence. }
  etrans; [|exact Hk]. clearbody m1. clear Hk. inv_ok; repeat case_if; done.
Qed.

Lemma is_streaming_limit_reached_keeps m b m' : is_streaming_limit_reached m = Ok (b, m') -> keeps m' m.
Proof.
  unfold is_streaming_limit_reached. cbv zeta. intros H. destruct (streaming_limit_ m =? 0); [by inv_ok|].
  destruct (update_first_not_ready_part m) as [m1| |] eqn:E; try done. cbn [res_bind] in H.
  apply update_first_not_ready_part_keeps in E. etrans; [|exact E]. clear E.
  destruct (if _ =? part_count_ m1 then Ok true else _) as [[]| |]; cbn [res_bind] in H; try done; inv_ok; done.
Qed.

(** ** A manager that has every part of the file and does not know it *)
Record unaware (n : Z) (m : PartsManager) : Prop := {
  un_flag : unknown_size_flag_ m = true;
  un_min : min_size_ m = 0;
  un_ready i : 0 <= i < n -> stat m i = Some Ready;
}.

Lemma keeps_unaware n m m' : keeps m' m -> unaware n m -> unaware n m'.
Proof. intros (H1&H2&_&H4) []. split; [congruence|congruence|auto]. Qed.

Section unaware.
Context (n ps : Z) (Hn : 0 < n).
Let fsize := ps * n.

(** The parts beyond the end of the file are empty and teach nothing but an upper bound. *)
Lemma on_part_ok_unaware pend m i psz r m' : inv fsize pend m -> part_size_ m = ps -> unaware n m -> pend !! i = Some psz ->
  on_part_ok i psz (sent fsize psz m i) m = Ok (r, m') ->
  unaware n m' /\ part_size_ m' = ps /\ max_size_ m' = Z.min (max_size_ m) (ps * i) /\ n <= i.
Proof.
  intros Hi Hps [Hun Hmin Hready] Hp. assert (stat m i = Some Pending) as Hs by (apply (i_pend _ _ _ Hi); by rewrite Hp).
  pose proof (stat_range _ _ _ Hs) as Hr. pose proof (i_ps _ _ _ Hi) as Hps'. rewrite Hps in Hps'.
  assert (n <= i) as Hni. { destruct (decide (n <= i)); [done|]. rewrite Hready in Hs by lia. done. }
  pose proof (i_size _ _ _ Hi) as Hsz. rewrite Hun in Hsz. destruct Hsz as [B1 B2 B3 B4 Bc B5 B6 B7].
  rewrite (sent_clip _ _ _ _ _ Hi Hp). assert (clip (part_size_ m) fsize i = 0) as Hact by (unfold clip, fsize; rewrite Hps; nia).
  destruct (on_part_ok_received fsize pend m i psz _ Hi Hp eq_refl) as (b&Hb1&Hb2&->). rewrite Hact.
  set (k := streaming_ready_size_ m + _). rewrite (B7 i psz Hp), Hps.
  assert (ps * n <= max_size_ m) as Hmx by exact (proj1 B2).
  rewrite (update_size_unknown _ _ _ _ (if ps * i <? max_size_ m then ps * i else max_size_ m) 0);
    [|done|done|rewrite Z.add_0_r, (proj2 (Z.ltb_lt 0 ps)) by lia; done|simpl; done|case_if; nia].
  rewrite (proj2 (Z.eqb_neq 0 _)) by (case_if; nia). cbv zeta. intros H.
  match type of H with res_bind ?x _ = _ => destruct x as [m1| |] eqn:E; try done end. cbn [res_bind] in H. injection H as <- <-.
  set (m0 := sized true _ 0 _ _) in E. assert (keeps m1 m0 /\ max_size_ m1 = max_size_ m0) as [Hk Hmax1].
  { case_if_in E; [by apply set_streaming_limit_keeps in E|by injection E as <-]. }
  split_and!; [|destruct Hk as (_&_&->&_); exact Hps|rewrite Hmax1; simpl; case_if; lia|done].
  apply (keeps_unaware n m0 m1 Hk). split; [done|done|]. intros j Hj. change (stat (put_status i Ready m) j = Some Ready).
  rewrite stat_put by done. case_if; [done|by apply Hready].
Qed.

Lemma pm_step_unaware pend op m m' pend' : inv fsize pend m -> part_size_ m = ps -> is_upload_ m = false -> unaware n m -> op_ok fsize false op ->
  pm_step fsize op (m, pend) = Ok (m', pend') -> unaware n m' /\ part_size_ m' = ps.
Proof.
  intros Hi Hps Hup Hun Hop Hst. assert (keeps m' m -> unaware n m' /\ part_size_ m' = ps) as Hkeeps.
  { intros Hk. split; [by eapply keeps_unaware|]. destruct Hk as (_&_&->&_). exact Hps. }
  destruct op as [|i|i|o l|l|sz b|]; cbn [pm_step op_ok] in *.
  - apply Hkeeps. destruct (start_part_spec _ _ _ Hi) as (r&m1&E&_&(H1&H2&H3&H4)). rewrite E in Hst. cbn [res_bind] in Hst.
    assert (keeps m1 m) as Hk by (split_and!; [done..|]; intros j; apply H4).
    destruct r as [p|c msg|]; [case_if_in Hst|case_if_in Hst|done]; by simplify_eq.
  - destruct (pend !! i) as [psz|] eqn:Ep; [|injection Hst as <- <-; by apply Hkeeps].
    destruct (on_part_ok i psz _ m) as [[r m1]| |] eqn:E; try done. cbn [res_bind] in Hst. destruct r; try done. cbn [res_bind] in Hst.
    injection Hst as <- <-. by destruct (on_part_ok_unaware _ _ _ _ _ _ Hi Hps Hun Ep E) as (?&?&_).
  - apply Hkeeps. destruct (pend !! i) as [psz|]; [|by injection Hst as <- <-]. destruct (on_part_failed i m) as [m1| |] eqn:E; try done.
    injection Hst as <- <-. by eapply on_part_failed_keeps.
  - apply Hkeeps. destruct (set_streaming_offset o l m) as [[r m1]| |] eqn:E; try done. injection Hst as <- <-.
    eapply set_streaming_offset_keeps; [apply Hi|done].
  - apply Hkeeps. destruct (set_streaming_limit l m) as [m1| |] eqn:E; try done. injection Hst as <- <-. by apply set_streaming_limit_keeps in E as [? _].
  - by destruct Hop.
  - apply Hkeeps. unfold may_finish in Hst. destruct (is_streaming_limit_reached m) as [[b m1]| |] eqn:E; try done.
    injection Hst as <- <-. by eapply is_streaming_limit_reached_keeps.
Qed.

Lemma pm_run_unaware ops : forall m pend m' pend', inv fsize pend m -> part_size_ m = ps -> is_upload_ m = false -> unaware n m ->
  Forall (op_ok fsize false) ops -> pm_run fsize ops (m, pend) = Ok (m', pend') -> inv fsize pend' m' /\ unaware n m' /\ part_size_ m' = ps.
Proof.
  induction ops as [|op ops IH]; intros m pend m' pend' Hi Hps Hup Hun Hops Hr; cbn [pm_run] in Hr; [by injection Hr as <- <-|].
  apply Forall_cons_inv in Hops as [Hop Hops]. pose proof (pm_step_ok _ _ _ _ _ Hi Hup Hop) as Hok.
  destruct (pm_step fsize op (m, pend)) as [[m1 pend1]| |] eqn:E; try done. cbn [res_bind] in Hr. destruct Hok as [Hi1 Hup1].
  destruct (pm_step_unaware _ _ _ _ _ Hi Hps Hup Hun Hop E) as [Hun1 Hps1]. by eapply IH.
Qed.

(** All the bytes are there, and the manager is not ready. *)
Lemma unaware_outcome pend m : inv fsize pend m -> part_size_ m = ps -> unaware n m ->
  get_ready_size m = fsize /\ ready m = false /\ exists msg m', finish m = Ok (Error 0 msg, m').
Proof.
  intros Hi Hps [Hun Hmin Hready]. pose proof (i_ps _ _ _ Hi) as Hps'. rewrite Hps in Hps'.
  assert (ready m = false) as Hr by (unfold ready, unchecked_ready; by rewrite Hun). split_and!; [|done|].
  - unfold get_ready_size. assert (n <= Z.of_nat (parts m)) as Hparts.
    { pose proof (stat_range _ _ _ (Hready (n - 1) ltac:(lia))). lia. }
    rewrite (i_ready _ _ _ Hi), (sumf_ext _ (clip ps fsize)); [rewrite sumf_clip_total by (unfold fsize; nia); unfold fsize; nia|].
    intros j Hj. unfold ready_bytes. rewrite Hps. destruct (decide (j < n)); [by rewrite bool_decide_true by (apply Hready; lia)|].
    assert (clip ps fsize j = 0) as -> by (unfold clip, fsize; nia). by case_if.
  - unfold finish. rewrite Hr. destruct (is_streaming_limit_reached_spec _ _ _ Hi) as (b&m'&->&_). cbn [res_bind]. destruct b; by eexists _, m'.
Qed.
End unaware.

(** ** Initialization with every part ready *)
Lemma init_ready_parts_done l : forall m m', init_ready_parts l m = Ok (Ok tt, m') ->
  part_size_ m' = part_size_ m /\ unknown_size_flag_ m' = unknown_size_flag_ m /\ min_size_ m' = min_size_ m /\ max_size_ m' = max_size_ m /\
  part_count_ m' = part_count_ m /\ parts m' = parts m /\ (Z.of_nat (parts m) = part_count_ m -> forall i, i ∈ l \/ stat m i = Some Ready -> stat m' i = Some Ready).
Proof.
  induction l as [|i l IH]; intros m m' H; cbn [init_ready_parts] in H.
  { injection H as <-. split_and!; [done..|]. intros _ i [Hi|]; [by apply elem_of_nil in Hi|done]. }
  case_if_in H; [case_if_in H; discriminate H|]. case_if_in H; [discriminate H|]. destruct (_ && _) eqn:Er in H; [|done]. zbool.
  destruct (Bitmask.set i _) as [b| |]; try done. cbn [res_bind] in H. set (m1 := with_ready_size _ _) in H.
  destruct (IH m1 m' H) as (?&A1&A2&A3&A4&A5&A6). change (parts m1) with (parts (put_status i Ready m)) in A5, A6. rewrite parts_put in A5, A6.
  split_and!; [done..|]. intros Hlen j Hj. apply A6; [done|]. change (stat m1 j) with (stat (put_status i Ready m) j).
  rewrite stat_put by lia. destruct (j =? i) eqn:Eji; zbool; [by right|]. rewrite elem_of_cons in Hj. intuition.
Qed.

(** The whole of [init] for a file of unknown size. *)
Lemma init_unknown ps l use_limit m : 1024 <= ps <= 2 ^ 20 -> Forall (fun i => 0 <= i) l ->
  init 0 0 true ps l use_limit false new_parts_manager = Ok (Ok tt, m) ->
  part_size_ m = ps /\ unknown_size_flag_ m = true /\ min_size_ m = 0 /\ max_size_ m = INT64_MAX /\
  part_count_ m = fold_left (fun a b => Z.max a (b + 1)) l 0 /\ forall i, i ∈ l -> stat m i = Some Ready.
Proof.
  intros Hps Hl H. unfold init in H. cbn [Z.leb Z.compare negb Z.eqb] in H. cbv zeta in H.
  change (MAX_FILE_SIZE <? 0) with false in H. cbv iota in H. unfold init_no_size in H. cbv zeta in H.
  rewrite (proj2 (Z.eqb_neq ps 0)) in H by lia. cbn [negb res_bind] in H.
  set (n := fold_left _ l 0) in *. set (m0 := with_part_count n _) in H. destruct (part_count_of l Hl) as [Hn _]. fold n in Hn.
  unfold init_common in H. fold (no_parts m0) in H.
  destruct (init_ready_parts l (no_parts m0)) as [[r m1]| |] eqn:E; try done. cbn [res_bind] in H. destruct r as [[]| |]; try done.
  apply init_ready_parts_done in E as (H0&H1&H2&H3&H4&_&H6).
  assert (forall i, i ∈ l -> stat m1 i = Some Ready) as Hready.
  { intros i Hi. apply H6; [|by left]. unfold parts, no_parts. simpl. rewrite length_replicate. lia. }
  unfold get_ready_prefix_count, get_unchecked_ready_prefix_count in H.
  destruct (update_first_not_ready_part m1) as [m2| |] eqn:E2; try done. cbn [res_bind] in H.
  assert (keeps m2 m1 /\ max_size_ m2 = max_size_ m1 /\ part_count_ m2 = part_count_ m1) as ((K1&K2&K3&K4)&K5&K6).
  { clear -E2. unfold update_first_not_ready_part in E2. cbv zeta in E2. inv_ok; done. }
  assert (exists c, m = with_checked_prefix_size c m2) as [c ->] by (clear -H; inv_ok; by eexists).
  split_and!; [exact (eq_trans K3 H0)|exact (eq_trans K1 H1)|exact (eq_trans K2 H2)|exact (eq_trans K5 H3)|exact (eq_trans K6 H4)|].
  intros i Hi. exact (K4 i (Hready i Hi)).
Qed.

Lemma start_part_bounds m r m' : start_part m = Ok (r, m') -> max_size_ m' = max_size_ m /\ part_count_ m' <= part_count_ m + 1.
Proof.
  unfold start_part, update_first_empty_part, start_at, on_part_start. cbv zeta. intros H. inv_ok; simpl; split; lia || done.
Qed.

Lemma no_part_left ps n m : inv (ps * n) ∅ m -> unaware n m -> part_size_ m = ps -> known_prefix_flag_ m = false ->
  max_size_ m = ps * n -> part_count_ m < MAX_PART_COUNT_PREMIUM -> exists m', start_part m = Ok (Ok get_empty_part, m').
Proof.
  intros Hi Hun Hps Hk Hmx Hc. destruct (start_part_spec _ _ _ Hi) as (r&m'&E&Ho&(_&_&_&Hr)). pose proof (i_ps _ _ _ Hi) as Hps'.
  destruct r as [p|c msg|]; [|destruct Ho as [(_&?&_)|(_&_&?&_)]; [congruence|lia]|done].
  destruct Ho as [(->&_)|((_&_&_&Ht&Hi')&_)]; [by exists m'|]. exfalso.
  assert (stat m' (id p) = Some Pending) as Hpend by (apply (i_pend _ _ _ Hi'); by rewrite lookup_insert_eq).
  pose proof (stat_range _ _ _ Hpend) as Hid. unfold total_size in Ht. rewrite (un_flag _ _ Hun), Hmx, Hps in Ht. rewrite Hps in Hps'.
  assert (stat m' (id p) = Some Ready); [|congruence]. apply Hr, Hun. nia.
Qed.

Section resumed.
Context (ps n : Z) (ready_parts : list Z) (use_limit : bool) (m : PartsManager).
Context (Hps : 1024 <= ps <= 2 ^ 20) (Hn : 0 < n) (Hmax : ps * n <= MAX_FILE_SIZE).
Context (Hnd : NoDup ready_parts) (Hall : forall i, i ∈ ready_parts <-> 0 <= i < n).
Context (Hinit : init 0 0 true ps ready_parts use_limit false new_parts_manager = Ok (Ok tt, m)).

Lemma resumed_count : fold_left (fun a b => Z.max a (b + 1)) ready_parts 0 = n.
Proof.
  assert (Forall (fun i => 0 <= i) ready_parts) as Hpos by (apply Forall_forall; intros i Hi; apply Hall in Hi; lia).
  destruct (part_count_of ready_parts Hpos) as (_&Hlt&HP). set (k := fold_left _ ready_parts 0) in *. rewrite Forall_forall in Hlt.
  specialize (Hlt (n - 1) ltac:(apply Hall; lia)). enough (k <= n) by lia.
  apply (HP (fun k => k <= n)); [lia|]. apply Forall_forall. intros i Hi. apply Hall in Hi. lia.
Qed.

Lemma resumed_state : inv (ps * n) ∅ m /\ in_order m /\ is_upload_ m = false /\ known_prefix_flag_ m = false /\ unaware n m /\
  part_size_ m = ps /\ part_count_ m = n /\ max_size_ m = INT64_MAX.
Proof.
  assert (Forall (fun i => 0 <= i) ready_parts) as Hpos by (apply Forall_forall; intros i Hi; apply Hall in Hi; lia).
  destruct (init_unknown ps ready_parts use_limit m Hps Hpos Hinit) as (H1&H2&H3&H4&H5&H6).
  destruct (init_spec (ps * n) 0 0 true ps ready_parts use_limit false) as (r&m'&E&Ho).
  { split; [lia|nia|by left|by right|unfold MAX_PART_COUNT; lia|done|lia|]. apply Forall_forall. intros i Hi. apply Hall in Hi. simpl. split; [lia|nia]. }
  rewrite Hinit in E. injection E as <- <-. destruct Ho as (Hi&Ho&Hup&_&Hk&_). rewrite resumed_count in H5.
  split_and!; try done. split; [done|done|]. intros i Hin. by apply H6, Hall.
Qed.

(** The probe for the next part gets no bytes, and then there is no part left. *)
Lemma resumed_probe : n + 1 < MAX_PART_COUNT_PREMIUM ->
  exists m2, pm_run (ps * n) [PStart; PDone n] (m, ∅) = Ok (m2, ∅) /\ exists m3, start_part m2 = Ok (Ok get_empty_part, m3).
Proof.
  intros Hcap. destruct resumed_state as (Hi&Hord&Hup&Hkp&Hun&Hpsm&Hcount&Hmx). cbn [pm_run pm_step].
  destruct (start_part_spec _ _ _ Hi) as (r&m1&E&Ho&Hsr). destruct (start_part_bounds _ _ _ E) as [Hmx1 Hc1].
  pose proof (start_part_frame _ _ _ E) as Hm1. rewrite E. cbn [res_bind]. destruct Hsr as (Hu1&Hmn1&Hps1&Hr1).
  pose proof (i_len _ _ _ Hi) as Hlen.
  destruct r as [p|c msg|]; [|destruct Ho as [(_&?&_)|(_&_&?&_)]; [congruence|lia]|done].
  destruct Ho as [(_&Hi1&Hex)|((_&_&_&_&Hi1)&Hne)].
  { destruct (Hex Hord) as (i&Hir&_&Ht). pose proof (i_count _ _ _ Hi1). unfold total_size in Ht. rewrite Hu1, (un_flag _ _ Hun) in Ht.
    rewrite Hmx1, Hmx, Hps1, Hpsm in Ht. unfold INT64_MAX in Ht. nia. }
  assert (stat m1 (id p) = Some Pending) as Hpend by (apply (i_pend _ _ _ Hi1); by rewrite lookup_insert_eq).
  pose proof (stat_range _ _ _ Hpend) as Hid. assert (id p = n) as Eid.
  { assert (n <= id p) as Hge. { destruct (decide (n <= id p)); [done|]. assert (stat m1 (id p) = Some Ready) by (apply Hr1, Hun; lia). congruence. }
    destruct (decide (id p = n)); [done|]. destruct (Hne Hord n ltac:(lia)) as (s&Hs&_). apply stat_range in Hs. lia. }
  rewrite (proj2 (Z.eqb_neq (id p) (-1))) by lia. cbn [res_bind pm_run pm_step]. rewrite Eid, lookup_insert_eq. rewrite Eid in Hi1.
  assert (<[n := size p]> ∅ !! n = Some (size p)) as Hp by (by rewrite lookup_insert_eq).
  destruct (on_part_ok_spec _ _ _ _ _ Hi1 Hp) as (m2&E2&Hi2&_). rewrite E2. cbn [res_bind].
  assert (unaware n m1) as Hun1 by (apply (keeps_unaware n m); [split_and!; try done; intros j; apply Hr1|done]).
  destruct (on_part_ok_unaware n ps Hn _ _ _ _ _ _ Hi1 ltac:(congruence) Hun1 Hp E2) as (Hun2&Hps2&Hmx2&_).
  rewrite delete_insert_eq, delete_empty in Hi2 |- *. exists m2. split; [done|].
  destruct (on_part_ok_frame _ _ _ _ _ _ E2) as [Hm2 Hs2]. destruct Hm1 as (_&_&_&_&_&Hk1), Hm2 as (_&_&_&_&_&Hk2).
  apply (no_part_left ps n m2); try done; [congruence|rewrite Hmx2, Hmx1, Hmx, Z.min_r by (rewrite max_file_size in *; unfold INT64_MAX; lia); done|].
  rewrite <- (i_len _ _ _ Hi2). unfold parts. rewrite Hs2, length_insert. fold (parts m1). rewrite (i_len _ _ _ Hi1). lia.
Qed.

End resumed.

(** C40. A download of unknown size that is resumed when all of its parts are on the disk never
    finishes.  For every part size, every number of parts and every order in which [init] is
    given all of them, the manager has all the bytes of the file, and still, after any honest
    sequence of starts, answers, failures and changes of the streaming window that does not end
    the transfer with an error, it has them, is not ready, and [finish] answers with an error:
    [init] does not count the parts it is given in the lower bound of the size, so that the
    bounds never meet.  Unless the file has as many parts as a file may have, the transfer also
    gets stuck: the probe for the next part returns nothing, and then there is nothing pending
    and no part left to start. *)
Theorem parts_resume_stuck ps n ready_parts use_limit m ops :
  1024 <= ps <= 2 ^ 20 -> 0 < n -> ps * n <= MAX_FILE_SIZE -> NoDup ready_parts -> (forall i, i ∈ ready_parts <-> 0 <= i < n) ->
  init 0 0 true ps ready_parts use_limit false new_parts_manager = Ok (Ok tt, m) -> Forall (op_ok (ps * n) false) ops ->
  get_ready_size m = ps * n /\
  match pm_run (ps * n) ops (m, ∅) with
  | Ok (m', _) => get_ready_size m' = ps * n /\ ready m' = false /\ exists msg m'', finish m' = Ok (Error 0 msg, m'')
  | Error c msg => transfer_error c msg
  | Panic _ => False
  end /\
  (n + 1 < MAX_PART_COUNT_PREMIUM -> exists m2, pm_run (ps * n) [PStart; PDone n] (m, ∅) = Ok (m2, ∅) /\
     exists m3, start_part m2 = Ok (Ok get_empty_part, m3)).
Proof.
  intros Hps Hn Hmax Hnd Hall Hinit Hops.
  destruct (resumed_state ps n ready_parts use_limit m) as (Hi&_&Hup&_&Hun&Hpsm&_); [done..|].
  split_and!; [by apply (unaware_outcome n ps Hn ∅)| |by apply (resumed_probe ps n ready_parts use_limit)].
  pose proof (pm_run_ok _ _ _ _ _ Hi Hup Hops) as Hok. destruct (pm_run (ps * n) ops (m, ∅)) as [[m' pend]|c msg|] eqn:E; [|done..].
  destruct (pm_run_unaware n ps Hn ops _ _ _ _ Hi Hpsm Hup Hun Hops E) as (Hi'&Hun'&Hps'). by apply (unaware_outcome n ps Hn pend).
Qed.

Lemma parts_resume_stuck_witness : exists m m2, init 0 0 true 65536 [0; 1] true false new_parts_manager = Ok (Ok tt, m) /\
  pm_run 131072 [PStart; PDone 2; PMayFinish] (m, ∅) = Ok (m2, ∅) /\ get_ready_size m2 = 131072 /\ ready m2 = false /\
  exists m3, start_part m2 = Ok (Ok get_empty_part, m3).
Proof.
  let t := eval vm_compute in (init 0 0 true 65536 [0; 1] true false new_parts_manager) in
  match t with
  | Ok (_, ?m) => exists m; destruct (parts_resume_stuck 65536 2 [0; 1] true m [PStart; PDone 2; PMayFinish]) as (_&Hrun&_)
  end.
  - lia.
  - lia.
  - rewrite max_file_size. lia.
  - apply NoDup_cons. split; [intros ?%list_elem_of_singleton; lia|apply NoDup_singleton].
  - intros i. rewrite elem_of_cons, list_elem_of_singleton. lia.
  - vm_compute. reflexivity.
  - repeat (apply Forall_cons_2; [exact I|]). apply Forall_nil_2.
  - match type of Hrun with context [pm_run ?a ?b ?c] => let t := eval vm_compute in (pm_run a b c) in
      assert (pm_run a b c = t) as E by (vm_compute; reflexivity)
    end.
    rewrite E in Hrun. destruct Hrun as (H1&H2&_). eexists. split; [vm_compute; reflexivity|]. split; [exact E|].
    split; [exact H1|]. split; [exact H2|]. eexists. vm_compute. reflexivity.
Defined.
